(* ===== verification/_CoqProject ===== *)
-Q . S2P
Prelude.v
Texts.v
Bytes.v
KeepLastHistory.v
RuntimeLimits.v
StaticPool.v
Cdr.v
Types.v
Locators.v
MessageRouter.v
DataMessage.v
ParameterList.v
ParameterFacts.v
SlotTable.v
Spdp.v
ParticipantTable.v
Sedp.v
EndpointTable.v
GraphCache.v
GraphFacts.v
GraphInvariant.v
GraphExchange.v
GraphRoundtrip.v
GraphSync.v
ReliabilityMessages.v
ReliabilityState.v
ReliableWriter.v
WriterTrace.v
ReliableReader.v
ReliabilityProtocol.v
StaticEntities.v
DdsDelivery.v
Foundation.v
FoundationFacts.v
Introspection.v
SampleTypes.v
TypeSupport.v
TypeSupportFacts.v
TypeNames.v
CodecSpec.v
Xcdr1Codec.v
CodecSerialize.v
CodecDeserialize.v
CodecRoundtrip.v
CodecTheorems.v
Qos.v
QosFacts.v
AnalysisLimit.v
SampleRing.v
Endpoint.v
Publisher.v
Subscription.v
SampleEndpoints.v
PublisherFacts.v
SubscriptionFacts.v
PubSub.v
Services.v
ServicesFacts.v
NetworkRuntime.v
NetworkFacts.v
NetworkSafety.v
NetworkLinks.v
NetworkPass.v
NetworkStart.v
NetworkTheorems.v
Events.v
EventsFacts.v
EventsTheorems.v
