(* ===== verification/Prelude.v ===== *)
(** * Verification of OpenRTDDS

    OpenRTDDS is a C++17 implementation of DDS over the RTPS wire protocol for real-time
    systems: static memory, no exceptions, explicit error codes, with a binding to the
    ROS 2 middleware interface.  This library models the core of it, everything under
    [src/src] and [src/include/openrtdds] except system calls, and the binding's codec, QoS,
    publishers, subscriptions, services, matched events and network thread
    ([src/rmw_openrtdds_cpp]), as executable functions and proves what they promise to each other and to an application.

    ** The program and the files that model it

    From the bytes up:

    - CDR payloads ([serialization/cdr]): [CdrWriter] and [CdrReader] with alignment, byte
      orders and sticky errors.  [Bytes.v] holds the integer loads and stores that the
      translation units repeat, [Cdr.v] (Module [Cdr]) the two classes.
    - RTPS messages ([rtps/types], [rtps/message_router], [rtps/data_message],
      [rtps/reliability_messages]): [Types.v], [MessageRouter.v] (the submessage grammar and
      INFO submessages), [DataMessage.v] (Module [Data]: DATA), [ReliabilityMessages.v]
      (Module [RelMsg]: HEARTBEAT and ACKNACK).
    - Reliability ([rtps/reliability_state], [core/keep_last_history]): [KeepLastHistory.v]
      (bounded samples and the KEEP_LAST ring), [ReliabilityState.v] (actions and control
      counters), [ReliableWriter.v], [ReliableReader.v].  [WriterTrace.v] follows a writer
      over sequences of calls, [ReliabilityProtocol.v] writer and reader over a network.
    - Discovery ([rtps/spdp], [rtps/sedp]): [Locators.v], [ParameterList.v] and
      [ParameterFacts.v] (PL_CDR parameter lists, whose code the two translation units
      repeat), [Spdp.v] and [Sedp.v] (announcements), [SlotTable.v] (fixed tables as finite
      maps, an interface [Slot] that the entry types implement), [ParticipantTable.v]
      (leases), [EndpointTable.v] (endpoints, and their matching in [Sedp.v]).
    - DDS entities ([dds/static_entities]): [StaticEntities.v] (Module [Dds]) composes the
      parts above into [DataWriter] and [DataReader], over a class [TypeSupport] that the
      application provides; [DdsDelivery.v] (Module [Delivery]) holds their theorems, with
      the laws a type support must satisfy as a class and the vehicle-state type of the
      repository's example as its instance.
    - The ROS graph cache ([rmw/graph_cache]): [Texts.v] (C strings), [GraphCache.v] (the
      model), [GraphFacts.v] (wire format and serialisation), [GraphInvariant.v] (the
      invariant and the local operations as map operations), [GraphExchange.v] (snapshots
      from the network), [GraphRoundtrip.v] (what a snapshot parses to), [GraphSync.v] (the
      theorems).
    - The adapter context ([rmw/foundation]): [Foundation.v] (the model) and
      [FoundationFacts.v].
    - Support ([core/static_pool], [core/runtime_limits]): [StaticPool.v],
      [RuntimeLimits.v].
    - ROS message types ([rmw_openrtdds_cpp/src/type_support]): [Introspection.v] (the
      descriptors a code generator emits, as data, with the laws of their accessors as the
      class [GeneratedTypes]; [SampleTypes.v] instantiates it with the types of the tests),
      [TypeSupport.v] (size analysis and names), [TypeSupportFacts.v], [AnalysisLimit.v],
      [TypeNames.v].
    - The message codec ([xcdr1_codec]): [CodecSpec.v] (the values of a message and its
      layout), [Xcdr1Codec.v] (the model), [CodecSerialize.v], [CodecDeserialize.v],
      [CodecRoundtrip.v], [CodecTheorems.v].
    - Quality of service ([qos]): [Qos.v] and [QosFacts.v].
    - ROS endpoints ([publisher], [subscription], [internal]): [Endpoint.v] (what the two
      share), [Publisher.v], [Subscription.v]; [SampleRing.v] relates a ring of serialised
      samples to the list of them, [PublisherFacts.v] and [SubscriptionFacts.v] hold the
      invariants [publishes] and [queues], [SampleEndpoints.v] the endpoints of the tests,
      and [PubSub.v] puts a publisher and a subscription on a network.
    - ROS services ([services]): [Services.v] and [ServicesFacts.v], clients with their
      table of outstanding requests.
    - The network thread ([network_runtime]): [NetworkRuntime.v] (the class and the part of
      the context it serves, one definition per member function; datagrams that arrive are
      arguments, datagrams sent and notifications a trace), [NetworkFacts.v] (addresses,
      directed messages and match counts), [NetworkSafety.v] (the invariant, and discovery),
      [NetworkLinks.v] (the tables of reliable links), [NetworkPass.v] (samples, control
      messages and a whole pass), [NetworkStart.v] (the start and the reachable states),
      [NetworkTheorems.v].
    - Matched events ([events], with the status functions of [publisher] and [subscription]):
      [Events.v] models events and endpoints as objects in a store, [EventsFacts.v] holds the
      invariant of their registry, [EventsTheorems.v] the theorems.

    ** How code is translated

    A function body is a term of the type [outcome E A] below: [Fault] for an access outside
    the memory a pointer designates, [Stop e] for an early return, [Done a] for normal
    completion.  What a failing call leaves behind is part of [e] wherever the code can
    change anything before it fails.  A buffer is the list of its bytes; [mload], [mstore],
    [mslice] and [mcopy] are the only ways to touch it.  Unsigned integers are [Z] with the
    wrap-around of their width written out ([add64], [sub64], [u16], ...).  Objects are
    records with the members of the class, a method is a function from the old object to the
    new one, and template parameters are section variables with the [static_assert]s as
    hypotheses.  Names of the source are kept, with a prefix where a file would otherwise
    have two members of one name.

    ** What the theorems show

    - End to end.  [dds_samples_intact]: whatever calls are made, every DATA datagram, first
      transmission or repair, decodes at a connected reader to the sample that was written
      under its number.  [dds_repair_exchange]: one heartbeat exchange over the wire settles
      every held sample.  [dds_write_exact], [dds_take_untrusted]: each call on every branch.
    - The reliability protocol.  [delivery_is_sound], [repair_round] over a network that
      loses, duplicates, delays and reorders; [writer_conserves_samples],
      [reader_exactly_once] over sequences of calls; [writer_bounds_repairs],
      [timer_expires], [write_exact], [on_data_exact], [on_heartbeat_exact],
      [action_pointers_valid], [heartbeat_covers_history] for the single operations.
    - Encodings.  Round trips of CDR values (strings as views and as copies), DATA, HEARTBEAT, ACKNACK, SPDP and SEDP messages,
      and exact conditions for the builders; [find_submessage_routes] states what routing
      returns on any sequence of submessages from the bytes of the INFO submessages.
    - Untrusted input.  Every parser, on any bytes, stays within them and returns either an
      error or a well-formed view ([cdr_reader_untrusted], [find_submessage_total],
      [data_parse_total], [control_parse_total], [spdp_parse_sound], [sedp_parse_sound],
      [graph_apply_untrusted]).
    - Tables.  The participant and endpoint tables refine finite maps with leases
      ([participant_table_invariant], [participant_upsert_refines], ...), the KEEP_LAST ring
      refines a bounded list ([history_run_refines]), endpoint matching is exact.
    - The graph.  [graph_converges]: a receiver holds the newest announced state that reached
      it, whatever the network does.  [graph_invariant], [graph_local_refines],
      [graph_snapshot_exact].
    - The adapter context.  [adapter_invariant], [node_handles] (stale handles),
      [guard_trigger_seen].
    - ROS messages.  [codec_roundtrip], [codec_serialize_exact], [codec_atomic] (a message is
      filled completely or left alone, whatever bytes arrive), [analyze_returns] (cyclic and
      deep types), [map_names_exact], [topics_distinct]; for QoS [normalize_canonical]
      (which profiles are accepted, what they become, why others are refused),
      [plan_exact], [qos_check_exact], [qos_check_agrees], [qos_check_reason].
    - ROS publish/subscribe.  [pubsub_delivery]: over any network behaviour, what is taken
      from a publisher was published by it, in increasing order.  [publish_exact],
      [receive_exact], [take_exact]: each call on every branch, the subscription against a
      map of writers and a KEEP_LAST list.
    - ROS services.  [take_response_exact] (termination, and no request is completed twice),
      [send_request_registers]; [send_request_refused] shows that a request with the
      identifiers the code assigns is never accepted by the DATA message builder.
    - The network thread.  [network_thread_safe]: whatever arrives, every pass returns, keeps
      the tables well formed and sends only messages that others parse as this
      participant's.  [participant_discovered] follows an announcement from the start of one
      participant into the table of another, [matches_exact] relates the match counts to the
      compatible remote endpoints, [heartbeat_answered] follows a heartbeat to the
      acknowledgement its writer parses, and [unrepairable_gap_stalls] shows that a sample
      the writer has given up stops a reliable reader for good.
    - Matched events.  [event_changes_add_up]: no change of a match count is lost between
      takes.  [notified_once]: each callback of an endpoint is called once.
      [event_outlives_endpoint] shows that an event reads its endpoint after it was freed.

    ** Bounds and fuel

    Loops over arrays are [for_each] over the index list.  The remaining loops carry a
    [nat]: the parameter loop of SPDP and SEDP runs with one more than the payload size, and
    every parameter consumes four bytes or more; the submessage loop likewise with the
    message size; the reader's window advances at most its number of bits; a string scan
    runs with the capacity of its target.  The theorems on untrusted input show that these
    loops never run out (that would be [Fault]).  Sequence numbers stay below [2^63 - 1], as
    the code requires; the analysis and the codec follow nested types with [analysis_fuel], one
    more than the nesting limit of 16, which [analyze_returns] shows to be enough; the retry
    loop of [rmw_take_response] runs once for each queued sample and once more; the network
    thread handles at most 32 datagrams of a socket and 32 samples of a publisher in a pass,
    as the code does;
    generations of handles and of guard conditions wrap as in the code,
    and the theorems name the number of calls they cover.  A snapshot of the graph has at
    most 20416 bytes, within the 32768 of its buffer.

    ** Not modelled

    - [transport/udp_socket] and [os/linux/realtime]: sockets, threads, scheduling and memory
      locking are system calls.
    - Of [rmw_openrtdds_cpp]: [rmw_adapter], [rmw_unsupported], [wait] and [graph],
      which connect ROS handles to the parts above; of [network_runtime] the start, wake-up and
      end of the thread; and of the modelled files the checks of handles, the allocator and
      the diagnostic snapshots.
    - Concurrency: the classes are not synchronised; their callers hold a lock.  The atomic
      counters of the adapter context are modelled by their retry loop.
    - [core/version], the tests, examples and tools. *)

From stdpp Require Export base tactics numbers list option sets strings sorting.

#[global] Open Scope Z_scope.

(** ** Outcomes of a C++ function body

    [Fault] stands for undefined behaviour (an access outside the memory a
    pointer designates, or a loop bound of the model exhausted), [Stop e] for
    an early [return e] with an error code, [Done a] for normal completion. *)

Inductive outcome (E A : Type) : Type :=
  | Fault
  | Stop (e : E)
  | Done (a : A).
Arguments Fault {E A}.
Arguments Stop {E A} e.
Arguments Done {E A} a.

#[global] Instance outcome_ret E : MRet (outcome E) := fun A a => Done a.
#[global] Instance outcome_bind E : MBind (outcome E) := fun A B k m =>
  match m with
  | Fault => Fault
  | Stop e => Stop e
  | Done a => k a
  end.

(** [if (c) return e;] *)
Definition stop_if {E} (c : bool) (e : E) : outcome E unit :=
  if c then Stop e else Done tt.

(** A memory access: absent memory is a fault. *)
Definition access {E A} (o : option A) : outcome E A :=
  match o with Some a => Done a | None => Fault end.

(** Reporting the error code of a callee in the caller's own error type. *)
Definition map_stop {E F A} (f : E -> F) (m : outcome E A) : outcome F A :=
  match m with Fault => Fault | Stop e => Stop (f e) | Done a => Done a end.

(** What a function with an in/out reference parameter returns: the error
    code and the final value of the parameter; [None] is a fault. *)
Definition commit {E A} (ok : E) (old : A) (m : outcome E A) : option (E * A) :=
  match m with
  | Fault => None
  | Stop e => Some (e, old)
  | Done a => Some (ok, a)
  end.

(** [const E e = f(..., a); if (e != ok) return g(e);] *)
Definition checked {E F A} `{EqDecision E} (ok : E) (g : E -> F)
    (r : option (E * A)) : outcome F A :=
  match r with
  | None => Fault
  | Some (e, a) => if decide (e = ok) then Done a else Stop (g e)
  end.

Section Outcome.
Context {E : Type}.

Definition safe {A} (m : outcome E A) : Prop := m <> Fault.

Lemma bind_Done {A B} (a : A) (k : A -> outcome E B) : (Done a ≫= k) = k a.
Proof. reflexivity. Qed.

Lemma outcome_bind_assoc {A B C} (m : outcome E A) (f : A -> outcome E B)
    (g : B -> outcome E C) : ((m ≫= f) ≫= g) = (m ≫= (fun a => f a ≫= g)).
Proof. by destruct m. Qed.

Lemma bind_Done_inv {A B} (m : outcome E A) (k : A -> outcome E B) b :
  (m ≫= k) = Done b -> exists a, m = Done a /\ k a = Done b.
Proof. destruct m; simpl; naive_solver. Qed.

Lemma bind_Stop_inv {A B} (m : outcome E A) (k : A -> outcome E B) e :
  (m ≫= k) = Stop e ->
  m = Stop e \/ exists a, m = Done a /\ k a = Stop e.
Proof. destruct m; simpl; naive_solver. Qed.

Lemma safe_Done {A} (a : A) : safe (Done a).
Proof. discriminate. Qed.

Lemma safe_Stop {A} (e : E) : safe (Stop e : outcome E A).
Proof. discriminate. Qed.

Lemma safe_stop_if c (e : E) : safe (stop_if c e).
Proof. destruct c; discriminate. Qed.

Lemma safe_bind {A B} (m : outcome E A) (k : A -> outcome E B) :
  safe m -> (forall a, m = Done a -> safe (k a)) -> safe (m ≫= k).
Proof. unfold safe; destruct m; simpl; naive_solver. Qed.

Lemma safe_guard {B} c (e : E) (k : unit -> outcome E B) :
  (c = false -> safe (k tt)) -> safe (stop_if c e ≫= k).
Proof. unfold safe; destruct c; simpl; naive_solver. Qed.

Lemma safe_access {A} (o : option A) : is_Some o -> safe (access o : outcome E A).
Proof. intros [a ->]; discriminate. Qed.

Lemma stop_if_Done c (e : E) u : stop_if c e = Done u -> c = false.
Proof. by destruct c. Qed.

Lemma guard_Done {B} c (e : E) (k : unit -> outcome E B) b :
  (stop_if c e ≫= k) = Done b -> c = false /\ k tt = Done b.
Proof. by destruct c. Qed.

Lemma checked_commit {F A} `{EqDecision E} (ok : E) (g : E -> F) (old : A) m :
  m <> Stop ok -> checked ok g (commit ok old m) = map_stop g m.
Proof.
  intros Hm. destruct m; simpl; [done| |by rewrite decide_True].
  rewrite decide_False by congruence. done.
Qed.

Lemma safe_map_stop {F A} (g : E -> F) (m : outcome E A) :
  m <> Fault -> map_stop g m <> Fault.
Proof. by destruct m. Qed.

Lemma map_stop_Done {F A} (g : E -> F) (m : outcome E A) a :
  map_stop g m = Done a -> m = Done a.
Proof. destruct m; simpl; congruence. Qed.

Lemma access_Done {A} (o : option A) (a : A) :
  (access o : outcome E A) = Done a -> o = Some a.
Proof. destruct o; simpl; congruence. Qed.
End Outcome.

Create HintDb ort_safe.
#[export] Hint Resolve safe_Done safe_Stop safe_stop_if : ort_safe.

(** ** Machine integers

    An unsigned integer of width [w] is a [Z] in [0 <= x < 2^w]; arithmetic
    that the source performs at that width wraps. *)

Definition u8 (x : Z) : Z := x mod 2 ^ 8.
Definition u16 (x : Z) : Z := x mod 2 ^ 16.
Definition u32 (x : Z) : Z := x mod 2 ^ 32.
Definition u64 (x : Z) : Z := x mod 2 ^ 64.

Definition add64 (x y : Z) : Z := u64 (x + y).
Definition sub64 (x y : Z) : Z := u64 (x - y).
Definition mul64 (x y : Z) : Z := u64 (x * y).
Definition add32 (x y : Z) : Z := u32 (x + y).
Definition sub32 (x y : Z) : Z := u32 (x - y).

(** [std::memcpy] between a signed and an unsigned integer of width [w]. *)
Definition signed (w b : Z) : Z := if b <? 2 ^ (w - 1) then b else b - 2 ^ w.
Definition i32_of_bits (b : Z) : Z := signed 32 b.
Definition bits_of_i32 (v : Z) : Z := u32 v.

Definition size_max : Z := 2 ^ 64 - 1.
Definition u32_max : Z := 2 ^ 32 - 1.
Definition u16_max : Z := 2 ^ 16 - 1.
Definition i64_max : Z := 2 ^ 63 - 1.
Definition i32_max : Z := 2 ^ 31 - 1.

Lemma u64_id x : 0 <= x < 2 ^ 64 -> u64 x = x.
Proof. apply Z.mod_small. Qed.
Lemma u32_id x : 0 <= x < 2 ^ 32 -> u32 x = x.
Proof. apply Z.mod_small. Qed.
Lemma u16_id x : 0 <= x < 2 ^ 16 -> u16 x = x.
Proof. apply Z.mod_small. Qed.
Lemma u8_id x : 0 <= x < 2 ^ 8 -> u8 x = x.
Proof. apply Z.mod_small. Qed.
Lemma add64_id x y : 0 <= x + y < 2 ^ 64 -> add64 x y = x + y.
Proof. apply u64_id. Qed.
Lemma sub64_id x y : 0 <= x - y < 2 ^ 64 -> sub64 x y = x - y.
Proof. apply u64_id. Qed.
Lemma mul64_id x y : 0 <= x * y < 2 ^ 64 -> mul64 x y = x * y.
Proof. apply u64_id. Qed.
Lemma add32_id x y : 0 <= x + y < 2 ^ 32 -> add32 x y = x + y.
Proof. apply u32_id. Qed.

Lemma u64_range x : 0 <= u64 x < 2 ^ 64.
Proof. apply Z.mod_pos_bound; lia. Qed.
Lemma u32_range x : 0 <= u32 x < 2 ^ 32.
Proof. apply Z.mod_pos_bound; lia. Qed.

Lemma signed_roundtrip w v :
  0 < w -> - 2 ^ (w - 1) <= v < 2 ^ (w - 1) -> signed w (v mod 2 ^ w) = v.
Proof.
  intros Hw Hv. unfold signed.
  assert (2 ^ w = 2 * 2 ^ (w - 1)) as Hp
    by (rewrite <- Z.pow_succ_r by lia; f_equal; lia).
  assert (0 < 2 ^ (w - 1)) by (apply Z.pow_pos_nonneg; lia).
  destruct (decide (0 <= v)).
  - rewrite Z.mod_small by lia. destruct (Z.ltb_spec v (2 ^ (w - 1))); lia.
  - rewrite <- (Z.mod_add v 1), Z.mod_small by lia.
    destruct (Z.ltb_spec (v + 1 * 2 ^ w) (2 ^ (w - 1))); lia.
Qed.

Lemma i32_bits_roundtrip v :
  - 2 ^ 31 <= v < 2 ^ 31 -> i32_of_bits (bits_of_i32 v) = v.
Proof. intros. by apply (signed_roundtrip 32). Qed.

Lemma bits_of_i32_range v : 0 <= bits_of_i32 v < 2 ^ 32.
Proof. apply u32_range. Qed.

(** ** Memory

    A buffer is the list of the bytes behind a pointer; accesses outside it
    have no result. *)

Abbreviation zlen l := (Z.of_nat (length l)).

Definition byte_ok (b : Z) : Prop := 0 <= b < 256.
Definition bytes_ok (l : list Z) : Prop := Forall byte_ok l.

Definition mload {A} (m : list A) (i : Z) : option A :=
  if i <? 0 then None else m !! Z.to_nat i.

Definition mstore {A} (m : list A) (i : Z) (v : A) : option (list A) :=
  if (0 <=? i) && (i <? zlen m) then Some (<[Z.to_nat i := v]> m) else None.

(** The [n] elements at [p + i], as [memcpy] reads them. *)
Definition mslice {A} (m : list A) (i n : Z) : option (list A) :=
  if (0 <=? i) && (0 <=? n) && (i + n <=? zlen m)
  then Some (take (Z.to_nat n) (drop (Z.to_nat i) m)) else None.

(** [memcpy(p + i, src, size of src)] *)
Definition mcopy {A} (m : list A) (i : Z) (src : list A) : option (list A) :=
  if (0 <=? i) && (i + zlen src <=? zlen m)
  then Some (take (Z.to_nat i) m ++ src ++
             drop (Z.to_nat i + length src) m) else None.

(** [p[i] |= flag;] *)
Definition or_at {E} (m : list Z) (i flag : Z) : outcome E (list Z) :=
  x ← access (mload m i);
  access (mstore m i (Z.lor x flag)).

(** [if (c) { m = f(m); }] *)
Definition when {E A} (c : bool) (f : A -> outcome E A) (a : A) : outcome E A :=
  if c then f a else Done a.

(** [for (i : indices) state = body(i, state);] with early exits. *)
Fixpoint for_each {E I S} (body : I -> S -> outcome E S) (xs : list I) (s : S)
    : outcome E S :=
  match xs with
  | [] => Done s
  | i :: xs' => s' ← body i s; for_each body xs' s'
  end.

(** ** Lemmas on memory *)

Section Memory.
Context {A : Type}.
Implicit Types (m p r src : list A) (i n : Z).

Lemma mload_Some m i x :
  mload m i = Some x <-> 0 <= i /\ m !! Z.to_nat i = Some x.
Proof. unfold mload; case_match eqn:Hi; [split; [done|lia]|naive_solver lia]. Qed.

Lemma mload_is_Some m i : is_Some (mload m i) <-> 0 <= i < zlen m.
Proof.
  unfold mload. destruct (Z.ltb_spec i 0).
  - split; [by intros [? ?]|lia].
  - rewrite lookup_lt_is_Some. lia.
Qed.

Lemma mload_app_l p r i : i < zlen p -> mload (p ++ r) i = mload p i.
Proof.
  intros. unfold mload. destruct (Z.ltb_spec i 0); [done|].
  apply lookup_app_l. lia.
Qed.

Lemma mload_app_r p r i :
  zlen p <= i -> mload (p ++ r) i = mload r (i - zlen p).
Proof.
  intros. unfold mload. destruct (Z.ltb_spec i 0); [lia|].
  destruct (Z.ltb_spec (i - zlen p) 0); [lia|].
  rewrite lookup_app_r by lia. f_equal. lia.
Qed.

Lemma mstore_is_Some m i v : is_Some (mstore m i v) <-> 0 <= i < zlen m.
Proof.
  unfold mstore. destruct (Z.leb_spec 0 i), (Z.ltb_spec i (zlen m)); simpl;
    (split; [intros [? ?]|]); try done; lia.
Qed.

Lemma mslice_is_Some m i n :
  is_Some (mslice m i n) <-> 0 <= i /\ 0 <= n /\ i + n <= zlen m.
Proof.
  unfold mslice.
  destruct (Z.leb_spec 0 i), (Z.leb_spec 0 n), (Z.leb_spec (i + n) (zlen m));
    simpl; (split; [intros [? ?]|]); try done; lia.
Qed.

Lemma mcopy_is_Some m i src :
  is_Some (mcopy m i src) <-> 0 <= i /\ i + zlen src <= zlen m.
Proof.
  unfold mcopy.
  destruct (Z.leb_spec 0 i), (Z.leb_spec (i + zlen src) (zlen m));
    simpl; (split; [intros [? ?]|]); try done; lia.
Qed.

Lemma mload_insert m i j (x : A) :
  0 <= i < zlen m -> 0 <= j ->
  mload (<[Z.to_nat i := x]> m) j = if j =? i then Some x else mload m j.
Proof.
  intros Hi Hj. unfold mload. destruct (Z.ltb_spec j 0); [lia|].
  destruct (Z.eqb_spec j i) as [->|].
  - rewrite list_lookup_insert_eq by lia. done.
  - rewrite list_lookup_insert_ne by lia. done.
Qed.

Lemma mslice_length m i n s : mslice m i n = Some s -> zlen s = n.
Proof.
  unfold mslice. intros. case_match eqn:Hc; simplify_eq.
  rewrite length_take, length_drop. lia.
Qed.

Lemma mcopy_length m i src m' :
  mcopy m i src = Some m' -> length m' = length m.
Proof.
  unfold mcopy. intros. case_match eqn:Hc; simplify_eq.
  rewrite !length_app, length_take, length_drop. lia.
Qed.

Lemma mstore_length m i v m' : mstore m i v = Some m' -> length m' = length m.
Proof.
  unfold mstore. intros. case_match; simplify_eq. apply length_insert.
Qed.

(** Writing just behind the part [p] of the buffer already written. *)
Lemma mcopy_snoc p r src i :
  zlen p = i -> (length src <= length r)%nat ->
  mcopy (p ++ r) i src = Some ((p ++ src) ++ drop (length src) r).
Proof.
  intros <- Hr. unfold mcopy. rewrite length_app.
  destruct (Z.leb_spec 0 (zlen p)); [|lia].
  destruct (Z.leb_spec (zlen p + zlen src) (Z.of_nat (length p + length r)));
    [simpl|lia].
  rewrite Nat2Z.id, take_app_length, <- app_assoc, drop_app_add. done.
Qed.

Lemma mcopy_start r src :
  (length src <= length r)%nat ->
  mcopy r 0 src = Some (src ++ drop (length src) r).
Proof. apply (mcopy_snoc [] r src 0). done. Qed.

Lemma mstore_mcopy m i v : mstore m i v = mcopy m i [v].
Proof.
  unfold mstore, mcopy. simpl.
  destruct (Z.leb_spec 0 i), (Z.ltb_spec i (zlen m)),
    (Z.leb_spec (i + Z.of_nat 1) (zlen m)); simpl; try done; try lia.
  f_equal. rewrite insert_take_drop by lia. do 3 f_equal. lia.
Qed.

Lemma mload_last p x r i : zlen p = i -> mload ((p ++ [x]) ++ r) i = Some x.
Proof.
  intros <-. rewrite mload_app_l, mload_app_r by (rewrite ?length_app; simpl; lia).
  by rewrite Z.sub_diag.
Qed.

Lemma mstore_last p x y r i :
  zlen p = i -> mstore ((p ++ [x]) ++ r) i y = Some ((p ++ [y]) ++ r).
Proof.
  intros <-. rewrite mstore_mcopy, <- app_assoc, mcopy_snoc by (simpl; lia). done.
Qed.

(** The element between two parts of an array. *)
Lemma mload_middle p x r i : zlen p = i -> mload (p ++ x :: r) i = Some x.
Proof. intros <-. rewrite mload_app_r by lia. by rewrite Z.sub_diag. Qed.

Lemma mstore_middle p x y r i : zlen p = i -> mstore (p ++ x :: r) i y = Some (p ++ y :: r).
Proof.
  intros <-. rewrite mstore_mcopy, mcopy_snoc by (cbn; lia). by rewrite <- (assoc_L (++)).
Qed.

Lemma mslice_app_exact p s r i n :
  zlen p = i -> zlen s = n -> mslice (p ++ s ++ r) i n = Some s.
Proof.
  intros <- <-. unfold mslice. rewrite !length_app.
  destruct (Z.leb_spec 0 (zlen p)); [|lia].
  destruct (Z.leb_spec 0 (zlen s)); [|lia].
  destruct (Z.leb_spec (zlen p + zlen s)
    (Z.of_nat (length p + (length s + length r)))); [simpl|lia].
  by rewrite !Nat2Z.id, drop_app_length, take_app_length.
Qed.

Lemma mslice_start s r n : zlen s = n -> mslice (s ++ r) 0 n = Some s.
Proof. intros. by apply (mslice_app_exact [] s r 0 n). Qed.

Lemma mslice_end p s i n : zlen p = i -> zlen s = n -> mslice (p ++ s) i n = Some s.
Proof. intros. rewrite <- (app_nil_r s) at 1. by apply mslice_app_exact. Qed.

Lemma mslice_full m : mslice m 0 (zlen m) = Some m.
Proof.
  unfold mslice. destruct (Z.leb_spec 0 (zlen m)); [|lia].
  destruct (Z.leb_spec (0 + zlen m) (zlen m)); [simpl|lia].
  by rewrite Nat2Z.id, drop_0, firstn_all.
Qed.

Lemma mslice_Forall (P : A -> Prop) m i n s :
  Forall P m -> mslice m i n = Some s -> Forall P s.
Proof.
  unfold mslice. intros. case_match; simplify_eq.
  by apply Forall_take, Forall_drop.
Qed.

Lemma mload_Forall (P : A -> Prop) m i x :
  Forall P m -> mload m i = Some x -> P x.
Proof.
  intros Hm [_ Hx]%mload_Some. by eapply Forall_lookup_1.
Qed.

Lemma mcopy_Forall (P : A -> Prop) m i src m' :
  Forall P m -> Forall P src -> mcopy m i src = Some m' -> Forall P m'.
Proof.
  unfold mcopy. intros. case_match; simplify_eq.
  rewrite !Forall_app. auto using Forall_take, Forall_drop.
Qed.
End Memory.

Lemma or_at_last {E} p x flag r i :
  zlen p = i ->
  or_at ((p ++ [x]) ++ r) i flag = (Done ((p ++ [Z.lor x flag]) ++ r) : outcome E _).
Proof.
  intros. unfold or_at. rewrite mload_last by done. simpl.
  by rewrite mstore_last.
Qed.

(** ** Ring indices *)

Lemma ring_inj n b i j :
  0 < n -> 0 <= i < n -> 0 <= j < n -> (b + i) mod n = (b + j) mod n -> i = j.
Proof.
  intros Hn Hi Hj Heq.
  pose proof (Z.div_mod (b + i) n). pose proof (Z.div_mod (b + j) n).
  assert ((b + i) / n = (b + j) / n) by nia. nia.
Qed.

Lemma ring_wrap n b : 0 <= b < n -> (b + n) mod n = b.
Proof.
  intros. rewrite <- Z.add_mod_idemp_r, Z_mod_same_full, Z.add_0_r by lia.
  apply Z.mod_small. lia.
Qed.

Section Loops.
Context {E I S : Type}.
Implicit Types (f g : I -> S -> outcome E S) (Inv : S -> Prop).

Lemma for_each_app f xs1 xs2 s :
  for_each f (xs1 ++ xs2) s = (s' ← for_each f xs1 s; for_each f xs2 s').
Proof.
  revert s; induction xs1 as [|i xs1 IH]; intros s; simpl; [done|].
  destruct (f i s); simpl; auto.
Qed.

Lemma for_each_ext f g xs s :
  (forall i s, i ∈ xs -> f i s = g i s) -> for_each f xs s = for_each g xs s.
Proof.
  revert s; induction xs as [|i xs IH]; intros s Hfg; simpl; [done|].
  rewrite Hfg by (by left). destruct (g i s); simpl; [done..|].
  apply IH. intros j t Hj. apply Hfg. by right.
Qed.

(** A loop whose body keeps [Inv] and never faults under it. *)
Lemma for_each_safe f Inv xs s :
  (forall i s, i ∈ xs -> Inv s ->
     safe (f i s) /\ forall s', f i s = Done s' -> Inv s') ->
  Inv s -> safe (for_each f xs s).
Proof.
  revert s; induction xs as [|i xs IH]; intros s Hf Hs; simpl;
    [apply safe_Done|].
  destruct (Hf i s) as [Hsafe Hnext]; [set_solver|done|].
  apply safe_bind; [done|]. intros s' Hs'.
  apply IH; [set_solver|]. by apply Hnext.
Qed.

(** A loop over indices that loads the elements of an array. *)
Lemma for_each_load {A} (body : A -> S -> outcome E S) l s :
  for_each (fun i s => x ← access (mload l i); body x s) (seqZ 0 (zlen l)) s =
  for_each body l s.
Proof.
  assert (forall p l s,
    for_each (fun i s => x ← access (mload (p ++ l) i); body x s) (seqZ (zlen p) (zlen l)) s
    = for_each body l s) as Hgen; [|exact (Hgen [] l s)].
  intros p l0. revert p. induction l0 as [|x l0 IH]; intros p s0; [done|].
  rewrite (seqZ_cons (zlen p)) by (simpl; lia). simpl for_each.
  rewrite mload_app_r, Z.sub_diag by lia. change (mload (x :: l0) 0) with (Some x).
  cbn [access mbind outcome_bind]. destruct (body x s0) as [| |s1]; simpl; [done..|].
  rewrite <- (IH (p ++ [x]) s1). rewrite <- app_assoc, length_app. simpl.
  f_equal. f_equal; lia.
Qed.

Lemma for_each_no_stop f xs s e :
  (forall i s e, f i s <> Stop e) -> for_each f xs s <> Stop e.
Proof.
  intros Hf. revert s; induction xs as [|i xs IH]; intros s; simpl; [done|].
  destruct (f i s) eqn:Hi; simpl; [done| |apply IH]. by apply Hf in Hi.
Qed.

Lemma for_each_inv f Inv xs s s' :
  (forall i s s', i ∈ xs -> Inv s -> f i s = Done s' -> Inv s') ->
  Inv s -> for_each f xs s = Done s' -> Inv s'.
Proof.
  revert s; induction xs as [|i xs IH]; intros s Hf Hs; simpl;
    [naive_solver|].
  intros (t & Ht & Hrest)%bind_Done_inv.
  eapply IH; [|eapply Hf; eauto|done]; set_solver.
Qed.
End Loops.

Lemma sorted_sublist {A} (R : A -> A -> Prop) k l :
  sublist k l -> StronglySorted R l -> StronglySorted R k.
Proof.
  induction 1 as [|x k l Hs IH|x k l Hs IH]; intros Hl; [done|..];
    apply StronglySorted_inv in Hl as [Hl Hx]; [|by auto].
  constructor; [by auto|]. rewrite Forall_forall in *. intros y Hy.
  apply Hx. by eapply elem_of_sublist.
Qed.

(** ** Tactics of the development *)

(** Turn boolean comparisons of the source's conditions into propositions. *)
Ltac bool_props :=
  repeat match goal with
  | H : context [Z.eqb ?a ?b] |- _ => destruct (Z.eqb_spec a b)
  | H : context [Z.ltb ?a ?b] |- _ => destruct (Z.ltb_spec a b)
  | H : context [Z.leb ?a ?b] |- _ => destruct (Z.leb_spec a b)
  end; simpl in *; try discriminate.

(** Split a body that completed normally into its steps. *)
Ltac inv_done :=
  repeat match goal with
  | H : (stop_if _ _ ≫= _) = Done _ |- _ =>
      apply guard_Done in H; destruct H as [? H]
  | H : (_ ≫= _) = Done _ |- _ =>
      let a := fresh "a" in let Ha := fresh "Ha" in
      apply bind_Done_inv in H; destruct H as (a & Ha & H)
  | H : access _ = Done _ |- _ => apply access_Done in H
  | H : Done _ = Done _ |- _ => injection H as H; subst
  | H : Stop _ = Done _ |- _ => discriminate H
  end.

Lemma guard_Stop {E B} c (e e' : E) (k : unit -> outcome E B) :
  (stop_if c e ≫= k) = Stop e' -> e = e' \/ k tt = Stop e'.
Proof. destruct c; simpl; naive_solver. Qed.

Lemma guard_Stop_cases {E B} c (e e' : E) (k : unit -> outcome E B) :
  (stop_if c e ≫= k) = Stop e' -> c = true /\ e' = e \/ c = false /\ k tt = Stop e'.
Proof. destruct c; simpl; naive_solver. Qed.

Lemma access_bind_Stop {E A B} (o : option A) (k : A -> outcome E B) e :
  (access o ≫= k) = Stop e -> exists a, o = Some a /\ k a = Stop e.
Proof. destruct o; simpl; naive_solver. Qed.

(** Follow every path on which a body returned an error; paths on which the
    constant it returns contradicts the hypothesis are discharged. *)
Ltac stop_cases H :=
  repeat match type of H with
  | (stop_if _ _ ≫= _) = Stop _ => apply guard_Stop in H as [H|H]; [discriminate H|]
  | (access _ ≫= _) = Stop _ => apply access_bind_Stop in H as (? & ? & H)
  | (_ ≫= _) = Stop _ => apply bind_Stop_inv in H as [H|(? & ? & H)]
  | Done _ = Stop _ => discriminate H
  | Stop _ = Stop _ => discriminate H
  | (match ?x with _ => _ end) = Stop _ => destruct x
  end.

(** Walk through a body step by step in a safety proof. *)
Ltac safe_step :=
  match goal with
  | |- safe (stop_if _ _ ≫= _) => apply safe_guard; intros ?
  | |- safe (_ ≫= _) => apply safe_bind; [|intros ? ?]
  | |- safe (if ?c then _ else _) => destruct c eqn:?
  | |- safe (match ?x with _ => _ end) => destruct x eqn:?
  | |- safe _ => solve [auto with ort_safe]
  end.

(** Side conditions on the lengths of buffers under construction. *)
Ltac len_lia :=
  rewrite ?length_app, ?length_drop, ?length_take, ?length_replicate in *;
  simpl in *; lia.

(** Perform the next store of a body on a buffer of the form [p ++ r] whose
    prefix [p] is already written. *)
Ltac mwrite :=
  rewrite ?mstore_mcopy;
  first [rewrite mcopy_start by len_lia | rewrite mcopy_snoc by len_lia];
  cbn [access mbind outcome_bind].
