(* ===== verification/Texts.v ===== *)
(** * Strings of the C interface

    A [const char*] is the memory behind it.  Its characters are scanned up to a bound,
    as [copy_text] of the graph cache and [bounded_length] of the adapter context do. *)
From S2P Require Import Prelude.

Module Texts.

(** [while ((size < Capacity) && (input[size] != '\0')) ++size;] with [room] =
    [Capacity - size]. *)
Fixpoint text_length {E} (room : nat) (input : list Z) (size : Z) : outcome E Z :=
  match room with
  | O => Done size
  | S room' =>
      c ← access (mload input size);
      if c =? 0 then Done size else text_length room' input (add64 size 1)
  end.

(** The memory behind a [const char*]: characters up to a NUL. *)
Definition cstring (input : option (list Z)) (s : list Z) : Prop :=
  exists rest, input = Some (s ++ 0 :: rest) /\ Forall (fun c => c <> 0) s.

Lemma text_length_spec {E} room s rest : forall p,
  Forall (fun c => c <> 0) s -> zlen p + zlen s < 2 ^ 64 ->
  text_length room (p ++ s ++ 0 :: rest) (zlen p) =
  (Done (zlen p + Z.of_nat (Nat.min room (length s))) : outcome E Z).
Proof.
  revert s. induction room as [|room IH]; intros s p Hs Hb; cbn [text_length].
  { f_equal. lia. }
  rewrite mload_app_r, Z.sub_diag by lia. destruct s as [|c s];
    [cbn [length app]; by rewrite Nat.min_0_r, Z.add_0_r|].
  apply Forall_cons in Hs as [Hc Hs]. cbn [app]. change (mload (c :: s ++ 0 :: rest) 0) with (Some c).
  cbn [access mbind outcome_bind length] in *. destruct (Z.eqb_spec c 0); [done|].
  rewrite add64_id by lia.
  specialize (IH s (p ++ [c]) Hs). rewrite length_app, <- app_assoc in IH. cbn [app length] in IH.
  replace (zlen p + 1) with (Z.of_nat (length p + 1)) by lia. rewrite IH by lia. f_equal. lia.
Qed.

(** The characters within the scanned part can be read. *)
Lemma cstring_load m s i : cstring (Some m) s -> 0 <= i <= zlen s -> is_Some (mload m i).
Proof.
  intros (rest & [= ->] & _) Hi. apply mload_is_Some. rewrite length_app. cbn [length]. lia.
Qed.

End Texts.
