(* ===== verification/Bytes.v ===== *)
(** * Byte orders and fixed-width integers on the wire

    The integer codecs that every translation unit of [src/rtps],
    [src/serialization] and [src/rmw] repeats: [write_uint16], [write_uint32]
    and [write_u64] store into a buffer at an offset, [read_uint16] and
    [read_uint32] load from one.  [encode_uint] is the reference encoding the
    loops are proved equal to. *)
From S2P Require Import Prelude.

(** [enum class ByteOrder : uint8_t]; a value outside the two enumerators can
    be produced by a cast, and the code checks for it. *)
Inductive ByteOrder : Set :=
  | big_endian
  | little_endian
  | raw_byte_order (value : Z).

#[global] Instance ByteOrder_eq_dec : EqDecision ByteOrder.
Proof. solve_decision. Defined.

Definition is_little (order : ByteOrder) : bool :=
  match order with little_endian => true | _ => false end.

Definition supported_byte_order (order : ByteOrder) : bool :=
  match order with
  | big_endian | little_endian => true
  | raw_byte_order _ => false
  end.

(** [shift_index] of the byte at [index] in a field of [width] bytes. *)
Definition shift_index (order : ByteOrder) (width index : Z) : Z :=
  if is_little order then index else width - 1 - index.

(** [static_cast<uint8_t>((value >> (shift_index * 8U)) & 0xFFU)] *)
Definition byte_of (value s : Z) : Z := Z.land (Z.shiftr value (s * 8)) 255.

(** ** The stores *)

Definition write_uint16 {E} (m : list Z) (at_ value : Z) (order : ByteOrder)
    : outcome E (list Z) :=
  if is_little order then
    m ← access (mstore m at_ (Z.land value 255));
    access (mstore m (at_ + 1) (Z.land (Z.shiftr value 8) 255))
  else
    m ← access (mstore m at_ (Z.land (Z.shiftr value 8) 255));
    access (mstore m (at_ + 1) (Z.land value 255)).

(** The store loop shared by [write_uint32] and [CdrWriter::store_integral]. *)
Definition store_loop {E} (m : list Z) (start value width : Z)
    (order : ByteOrder) : outcome E (list Z) :=
  for_each (fun index m =>
      access (mstore m (start + index)
        (byte_of value (shift_index order width index))))
    (seqZ 0 width) m.

Definition write_uint32 {E} (m : list Z) (at_ value : Z) (order : ByteOrder)
    : outcome E (list Z) :=
  store_loop m at_ value 4 order.

(** ** The loads *)

Definition read_uint16 {E} (m : list Z) (at_ : Z) (order : ByteOrder)
    : outcome E Z :=
  b0 ← access (mload m at_);
  b1 ← access (mload m (at_ + 1));
  if is_little order then Done (Z.lor b0 (Z.shiftl b1 8))
  else Done (Z.lor (Z.shiftl b0 8) b1).

Definition load_loop {E} (m : list Z) (start width : Z) (order : ByteOrder)
    : outcome E Z :=
  for_each (fun index value =>
      b ← access (mload m (start + index));
      Done (Z.lor value (Z.shiftl b (shift_index order width index * 8))))
    (seqZ 0 width) 0.

Definition read_uint32 {E} (m : list Z) (at_ : Z) (order : ByteOrder)
    : outcome E Z :=
  load_loop m at_ 4 order.

(** ** The reference encoding *)

Definition encode_uint (order : ByteOrder) (width value : Z) : list Z :=
  (fun index => byte_of value (shift_index order width index)) <$> seqZ 0 width.

#[global] Arguments encode_uint : simpl never.
#[global] Arguments store_loop : simpl never.
#[global] Arguments load_loop : simpl never.
#[global] Arguments write_uint16 : simpl never.
#[global] Arguments write_uint32 : simpl never.
#[global] Arguments read_uint16 : simpl never.
#[global] Arguments read_uint32 : simpl never.

Lemma encode_uint_length order width value :
  length (encode_uint order width value) = Z.to_nat width.
Proof. unfold encode_uint. by rewrite length_fmap, length_seqZ. Qed.

Lemma byte_of_range value s : 0 <= byte_of value s < 256.
Proof.
  unfold byte_of. change 255 with (Z.ones 8). rewrite Z.land_ones by lia.
  apply Z.mod_pos_bound. lia.
Qed.

Lemma encode_uint_bytes_ok order width value :
  bytes_ok (encode_uint order width value).
Proof.
  apply Forall_fmap, Forall_forall. intros i _. apply byte_of_range.
Qed.

(** A run of single stores is one copy of the bytes stored. *)
Lemma store_run {E} (g : Z -> Z) (n : nat) : forall (k : Z) p r,
  (n <= length r)%nat -> 0 <= k ->
  for_each (fun i m => access (mstore m (zlen p - k + i) (g i)))
    (seqZ k (Z.of_nat n)) (p ++ r)
  = (Done ((p ++ (g <$> seqZ k (Z.of_nat n))) ++ drop n r)
     : outcome E (list Z)).
Proof.
  induction n as [|n IH]; intros k p r Hn Hk.
  - simpl. by rewrite app_nil_r.
  - rewrite (seqZ_cons k) by lia. simpl.
    replace (zlen p - k + k) with (zlen p) by lia.
    rewrite mstore_mcopy, mcopy_snoc by (simpl; lia). simpl.
    replace (Z.pred (Z.of_nat (S n))) with (Z.of_nat n) by lia.
    specialize (IH (Z.succ k) (p ++ [g k]) (drop 1 r)).
    replace (zlen (p ++ [g k]) - Z.succ k) with (zlen p - k) in IH
      by (rewrite length_app; simpl; lia).
    rewrite IH by (rewrite ?length_drop; lia).
    rewrite drop_drop, <- !app_assoc. done.
Qed.

Lemma zero_run {E} (n : nat) p r :
  (n <= length r)%nat ->
  for_each (fun i m => access (mstore m i 0)) (seqZ (zlen p) (Z.of_nat n)) (p ++ r)
  = (Done ((p ++ replicate n 0) ++ drop n r) : outcome E (list Z)).
Proof.
  intros Hn.
  rewrite (for_each_ext _
    (fun i m => access (mstore m (zlen p - zlen p + i) ((fun _ => 0) i))))
    by (intros; do 2 f_equal; lia).
  rewrite store_run by lia. do 3 f_equal.
  generalize (zlen p) as k. clear. induction n as [|n IH]; intros k; [done|].
  rewrite seqZ_cons by lia. simpl. f_equal.
  replace (Z.pred (Z.of_nat (S n))) with (Z.of_nat n) by lia. apply IH.
Qed.

Lemma store_loop_snoc {E} p r start value width order :
  zlen p = start -> 0 <= width <= zlen r ->
  store_loop (p ++ r) start value width order
  = (Done ((p ++ encode_uint order width value) ++ drop (Z.to_nat width) r)
     : outcome E (list Z)).
Proof.
  intros <- Hw. unfold store_loop, encode_uint.
  pose proof (store_run (E:=E)
    (fun index => byte_of value (shift_index order width index))
    (Z.to_nat width) 0 p r) as Hrun.
  rewrite Z.sub_0_r, Z2Nat.id in Hrun by lia.
  apply Hrun; lia.
Qed.

Lemma write_uint32_snoc {E} p r at_ value order :
  zlen p = at_ -> (4 <= length r)%nat ->
  write_uint32 (p ++ r) at_ value order
  = (Done ((p ++ encode_uint order 4 value) ++ drop 4 r) : outcome E (list Z)).
Proof. intros. apply store_loop_snoc; lia. Qed.

Lemma write_uint16_snoc {E} p r at_ value order :
  zlen p = at_ -> (2 <= length r)%nat ->
  write_uint16 (p ++ r) at_ value order
  = (Done ((p ++ encode_uint order 2 value) ++ drop 2 r) : outcome E (list Z)).
Proof.
  intros Hp Hr. unfold write_uint16.
  destruct r as [|x [|y r]]; simpl in Hr; try lia.
  destruct order; simpl;
    rewrite mstore_mcopy, mcopy_snoc by (simpl; lia); simpl;
    rewrite mstore_mcopy, mcopy_snoc by (rewrite ?length_app; simpl; lia);
    simpl; rewrite <- !app_assoc; unfold encode_uint, byte_of; simpl;
    by rewrite ?Z.shiftr_0_r.
Qed.

(** ** Loads read back what the reference encoding stored *)

Lemma shifted_byte_bits value s k :
  0 <= k -> 0 <= s ->
  Z.testbit (Z.shiftl (byte_of value s) (s * 8)) k
  = (s =? k / 8) && Z.testbit value k.
Proof.
  intros Hk Hs. unfold byte_of. change 255 with (Z.ones 8).
  rewrite Z.shiftl_spec by done.
  destruct (decide (k < s * 8)) as [Hlt|Hge].
  - rewrite Z.testbit_neg_r by lia.
    destruct (Z.eqb_spec s (k / 8)) as [->|]; [|done].
    pose proof (Z.mul_div_le k 8). lia.
  - rewrite Z.land_spec, Z.shiftr_spec by lia.
    replace (k - s * 8 + s * 8) with k by lia.
    rewrite Z.testbit_ones by lia.
    destruct (Z.eqb_spec s (k / 8)) as [->|Hne].
    + pose proof (Z.mod_pos_bound k 8). pose proof (Z.div_mod k 8).
      destruct (Z.leb_spec 0 (k - k / 8 * 8)), (Z.ltb_spec (k - k / 8 * 8) 8);
        try lia. by rewrite andb_true_r.
    + destruct (Z.ltb_spec (k - s * 8) 8); [|by rewrite !andb_false_r].
      exfalso. apply Hne. apply Z.div_unique with (k - s * 8); lia.
Qed.

Definition gather (value : Z) (ss : list Z) (acc : Z) : Z :=
  foldl (fun acc s => Z.lor acc (Z.shiftl (byte_of value s) (s * 8))) acc ss.

Lemma gather_bits value ss : forall acc k,
  0 <= k -> Forall (fun s => 0 <= s) ss ->
  Z.testbit (gather value ss acc) k
  = Z.testbit acc k || (existsb (fun s => s =? k / 8) ss && Z.testbit value k).
Proof.
  induction ss as [|s ss IH]; intros acc k Hk Hss; simpl.
  - by rewrite orb_false_r.
  - apply Forall_cons in Hss as [Hs Hss].
    fold (gather value ss (Z.lor acc (Z.shiftl (byte_of value s) (s * 8)))).
    rewrite IH by done. rewrite Z.lor_spec, shifted_byte_bits by done.
    rewrite andb_orb_distrib_l. by rewrite orb_assoc.
Qed.

Definition shifts (order : ByteOrder) (width : Z) : list Z :=
  shift_index order width <$> seqZ 0 width.

Lemma shifts_cover order width s :
  0 <= s -> existsb (fun s' => s' =? s) (shifts order width) = (s <? width).
Proof.
  intros Hs. apply eq_true_iff_eq. rewrite existsb_exists, Z.ltb_lt. split.
  - intros (s' & Hin%list_elem_of_In & <-%Z.eqb_eq).
    apply list_elem_of_fmap in Hin as (i & -> & Hi%elem_of_seqZ).
    unfold shift_index in *. destruct (is_little order); lia.
  - intros Hlt. exists s. split; [|apply Z.eqb_refl].
    apply list_elem_of_In, list_elem_of_fmap.
    exists (shift_index order width s). rewrite elem_of_seqZ.
    unfold shift_index. destruct (is_little order); lia.
Qed.

Lemma shifts_nonneg order width : Forall (fun s => 0 <= s) (shifts order width).
Proof.
  apply Forall_fmap, Forall_forall. intros i Hi%elem_of_seqZ.
  unfold shift_index. simpl. destruct (is_little order); lia.
Qed.

Lemma gather_shifts order width value :
  0 <= width -> gather value (shifts order width) 0 = value mod 2 ^ (8 * width).
Proof.
  intros Hw. apply Z.bits_inj'. intros k Hk.
  rewrite gather_bits by (done || apply shifts_nonneg).
  rewrite Z.testbit_0_l, shifts_cover by (apply Z.div_pos; lia). simpl.
  rewrite <- Z.land_ones, Z.land_spec, Z.testbit_ones by lia.
  rewrite andb_comm. f_equal.
  pose proof (Z.mod_pos_bound k 8). pose proof (Z.div_mod k 8).
  destruct (Z.leb_spec 0 k), (Z.ltb_spec k (8 * width)),
    (Z.ltb_spec (k / 8) width); simpl; try done; lia.
Qed.

Lemma load_run {E} value order width p r l : forall acc,
  Forall (fun i => 0 <= i < width) l ->
  for_each (fun index v =>
      b ← access (mload (p ++ encode_uint order width value ++ r)
                    (zlen p + index));
      Done (Z.lor v (Z.shiftl b (shift_index order width index * 8)))) l acc
  = (Done (gather value (shift_index order width <$> l) acc) : outcome E Z).
Proof.
  induction l as [|i l IH]; intros acc Hl; simpl; [done|].
  apply Forall_cons in Hl as [Hi Hl].
  rewrite mload_app_r, mload_app_l
    by (rewrite ?encode_uint_length; lia).
  replace (zlen p + i - zlen p) with i by lia.
  unfold encode_uint, mload. destruct (Z.ltb_spec i 0); [lia|].
  rewrite list_lookup_fmap, lookup_seqZ_lt by lia. simpl.
  rewrite Z2Nat.id by lia. by apply IH.
Qed.

Lemma load_loop_encode {E} p r start value width order :
  zlen p = start -> 0 <= width ->
  load_loop (p ++ encode_uint order width value ++ r) start width order
  = (Done (value mod 2 ^ (8 * width)) : outcome E Z).
Proof.
  intros <- Hw. unfold load_loop. rewrite load_run.
  - fold (shifts order width). by rewrite gather_shifts.
  - apply Forall_forall. intros i Hi%elem_of_seqZ. lia.
Qed.

Lemma read_uint16_loop {E} m at_ order :
  read_uint16 m at_ order = (load_loop m at_ 2 order : outcome E Z).
Proof.
  unfold read_uint16, load_loop. change (seqZ 0 2) with [0; 1]. simpl.
  rewrite Z.add_0_r.
  destruct (mload m at_) as [b0|]; simpl; [|done].
  destruct (mload m (at_ + 1)) as [b1|]; simpl; [|done].
  destruct order; simpl; rewrite ?Z.shiftl_0_r; f_equal; apply Z.lor_comm.
Qed.

Lemma read_uint16_encode {E} p r at_ value order :
  zlen p = at_ -> 0 <= value < 2 ^ 16 ->
  read_uint16 (p ++ encode_uint order 2 value ++ r) at_ order
  = (Done value : outcome E Z).
Proof.
  intros. rewrite read_uint16_loop, load_loop_encode by lia.
  f_equal. apply Z.mod_small. lia.
Qed.

Lemma read_uint32_encode {E} p r at_ value order :
  zlen p = at_ -> 0 <= value < 2 ^ 32 ->
  read_uint32 (p ++ encode_uint order 4 value ++ r) at_ order
  = (Done value : outcome E Z).
Proof.
  intros. unfold read_uint32. rewrite load_loop_encode by lia.
  f_equal. apply Z.mod_small. lia.
Qed.

(** ** Loads inside the buffer succeed, with a value of the field's width *)

Lemma read_uint32_start {E} r value order :
  0 <= value < 2 ^ 32 ->
  read_uint32 (encode_uint order 4 value ++ r) 0 order = (Done value : outcome E Z).
Proof. intros. by apply (read_uint32_encode [] r 0). Qed.

Lemma lor_range n a b :
  0 <= n -> 0 <= a < 2 ^ n -> 0 <= b < 2 ^ n -> 0 <= Z.lor a b < 2 ^ n.
Proof.
  intros Hn Ha Hb.
  rewrite <- (Z.mod_small a (2 ^ n)), <- (Z.mod_small b (2 ^ n)) by done.
  rewrite <- !Z.land_ones, <- Z.land_lor_distr_l, Z.land_ones by done.
  apply Z.mod_pos_bound. lia.
Qed.

Lemma shiftl_byte_range n b s :
  byte_ok b -> 0 <= s -> s + 8 <= n -> 0 <= Z.shiftl b s < 2 ^ n.
Proof.
  unfold byte_ok. intros Hb Hs Hn. rewrite Z.shiftl_mul_pow2 by done.
  assert (2 ^ (s + 8) <= 2 ^ n) by (apply Z.pow_le_mono_r; lia).
  rewrite Z.pow_add_r in * by lia. change (2 ^ 8) with 256 in *. nia.
Qed.

Lemma load_loop_safe {E} m start width order :
  0 <= start -> start + width <= zlen m ->
  safe (load_loop m start width order : outcome E Z).
Proof.
  intros. apply for_each_safe with (Inv := fun _ => True); [|done].
  intros i s Hi%elem_of_seqZ _. split; [|done].
  apply safe_bind; [|auto with ort_safe].
  apply safe_access, mload_is_Some. lia.
Qed.

Lemma load_loop_no_stop {E} m start width order (e : E) :
  load_loop m start width order <> Stop e.
Proof.
  apply for_each_no_stop. intros i acc e' Hstep.
  apply bind_Stop_inv in Hstep as [Hs|(?&_&?)]; [|done].
  by destruct (mload m (start + i)).
Qed.

Lemma load_loop_range {E} m start width order v :
  bytes_ok m -> 0 <= width ->
  load_loop m start width order = (Done v : outcome E Z) ->
  0 <= v < 2 ^ (8 * width).
Proof.
  intros Hm Hw.
  apply (for_each_inv _ (fun v => 0 <= v < 2 ^ (8 * width))); [|lia].
  intros i acc acc' Hi%elem_of_seqZ Hacc Hstep. inv_done.
  apply lor_range; [lia|done|].
  apply shiftl_byte_range; [by eapply mload_Forall| |];
    unfold shift_index; destruct (is_little order); lia.
Qed.

Lemma read_uint16_safe {E} m at_ order :
  0 <= at_ -> at_ + 2 <= zlen m -> safe (read_uint16 m at_ order : outcome E Z).
Proof. rewrite read_uint16_loop. apply load_loop_safe. Qed.

Lemma read_uint32_safe {E} m at_ order :
  0 <= at_ -> at_ + 4 <= zlen m -> safe (read_uint32 m at_ order : outcome E Z).
Proof. apply load_loop_safe. Qed.

Lemma read_uint16_range {E} m at_ order v :
  bytes_ok m -> read_uint16 m at_ order = (Done v : outcome E Z) ->
  0 <= v < 2 ^ 16.
Proof. rewrite read_uint16_loop. intros ? H. by apply load_loop_range in H. Qed.

Lemma read_uint32_range {E} m at_ order v :
  bytes_ok m -> read_uint32 m at_ order = (Done v : outcome E Z) ->
  0 <= v < 2 ^ 32.
Proof. intros ? H. by apply load_loop_range in H. Qed.

Lemma read_uint16_no_stop {E} m at_ order (e : E) : read_uint16 m at_ order <> Stop e.
Proof. rewrite read_uint16_loop. apply load_loop_no_stop. Qed.

Lemma read_uint32_no_stop {E} m at_ order (e : E) : read_uint32 m at_ order <> Stop e.
Proof. apply load_loop_no_stop. Qed.

(** Any four bytes are the encoding of a number. *)
Lemma encode_uint32_onto order l :
  length l = 4%nat -> bytes_ok l ->
  exists v, 0 <= v < 2 ^ 32 /\ l = encode_uint order 4 v.
Proof.
  intros Hl Hb. destruct l as [|a [|b [|c [|d []]]]]; try done.
  apply Forall_cons in Hb as [Ha Hb]. apply Forall_cons in Hb as [Hb Hc].
  apply Forall_cons in Hc as [Hc Hd]. apply Forall_cons in Hd as [Hd _].
  unfold byte_ok in *.
  assert (forall v s, 0 <= s -> byte_of v s = v / 2 ^ (s * 8) mod 256) as Hbyte.
  { intros v s Hs. unfold byte_of. change 255 with (Z.ones 8).
    by rewrite Z.land_ones, Z.shiftr_div_pow2 by lia. }
  exists (if is_little order then a + b * 2 ^ 8 + c * 2 ^ 16 + d * 2 ^ 24
          else d + c * 2 ^ 8 + b * 2 ^ 16 + a * 2 ^ 24).
  split; [destruct (is_little order); lia|].
  change (encode_uint order 4) with
    (fun v => map (fun i => byte_of v (shift_index order 4 i)) [0; 1; 2; 3]).
  unfold shift_index. destruct (is_little order); cbn [map];
    rewrite !Hbyte by lia; cbn -[Z.div Z.modulo]; repeat f_equal;
    Z.to_euclidean_division_equations; lia.
Qed.

Lemma read_uint32_Done {E} m at_ order :
  bytes_ok m -> 0 <= at_ -> at_ + 4 <= zlen m ->
  exists v, read_uint32 m at_ order = (Done v : outcome E Z) /\ 0 <= v < 2 ^ 32.
Proof.
  intros Hm H1 H2. destruct (read_uint32 m at_ order) as [|e|v] eqn:Hr.
  - by apply (read_uint32_safe (E:=E) m at_ order) in Hr.
  - by apply read_uint32_no_stop in Hr.
  - exists v. split; [done|]. by apply read_uint32_range in Hr.
Qed.

#[export] Hint Resolve read_uint16_no_stop read_uint32_no_stop : ort_safe.

(** ** 64-bit values as two 32-bit halves, high half first *)

Definition high_half (v : Z) : Z := u32 (Z.shiftr v 32).
Definition low_half (v : Z) : Z := Z.land v 4294967295.

Lemma halves_range v : 0 <= high_half v < 2 ^ 32 /\ 0 <= low_half v < 2 ^ 32.
Proof.
  split; [apply u32_range|]. unfold low_half. change 4294967295 with (Z.ones 32).
  rewrite Z.land_ones by lia. apply Z.mod_pos_bound. lia.
Qed.

Lemma halves_join v :
  0 <= v < 2 ^ 64 -> Z.lor (Z.shiftl (high_half v) 32) (low_half v) = v.
Proof.
  intros Hv. unfold high_half, low_half, u32. change 4294967295 with (Z.ones 32).
  rewrite Z.mod_small.
  - apply Z.bits_inj'. intros k Hk.
    rewrite Z.lor_spec, Z.land_spec, Z.shiftl_spec, Z.testbit_ones by lia.
    destruct (Z.ltb_spec k 32), (Z.leb_spec 0 k); try lia.
    + rewrite Z.testbit_neg_r by lia. by rewrite andb_true_r.
    + rewrite Z.shiftr_spec by lia. rewrite andb_false_r, orb_false_r. f_equal. lia.
  - rewrite Z.shiftr_div_pow2 by lia.
    split; [apply Z.div_pos; lia|apply Z.div_lt_upper_bound; lia].
Qed.

Lemma high_half_small v : 0 <= v <= i64_max -> 0 <= high_half v < 2 ^ 31.
Proof.
  unfold i64_max, high_half. intros Hv. split; [apply u32_range|].
  unfold u32. rewrite Z.shiftr_div_pow2 by lia.
  assert (v / 2 ^ 32 < 2 ^ 31) by (apply Z.div_lt_upper_bound; lia).
  assert (0 <= v / 2 ^ 32) by (apply Z.div_pos; lia).
  rewrite Z.mod_small; lia.
Qed.

Lemma join_range h l :
  0 <= h < 2 ^ 31 -> 0 <= l < 2 ^ 32 ->
  0 <= Z.lor (Z.shiftl h 32) l <= i64_max.
Proof.
  intros Hh Hl. unfold i64_max.
  enough (0 <= Z.lor (Z.shiftl h 32) l < 2 ^ 63) by lia.
  apply lor_range; [lia| |lia]. rewrite Z.shiftl_mul_pow2 by lia. nia.
Qed.

(** ** Building a message by a run of stores

    [put] performs the next store of a builder on a buffer [p ++ r] whose
    prefix [p] is already written. *)
Ltac put_len :=
  rewrite ?length_app, ?length_drop, ?encode_uint_length; cbn [length];
  rewrite ?Nat2Z.inj_add; lia.

Ltac put :=
  rewrite ?mstore_mcopy;
  first [ rewrite mcopy_snoc by put_len
        | rewrite mcopy_start by put_len
        | rewrite write_uint16_snoc by put_len
        | rewrite write_uint32_snoc by put_len
        | rewrite or_at_last by put_len ];
  cbn [access mbind outcome_bind].

(** The buffer after a run of stores: the bytes [l], then the old contents. *)
Lemma built_list (x l m : list Z) n :
  x = l -> n = length l -> x ++ drop n m = l ++ drop (length l) m.
Proof. by intros -> ->. Qed.

Lemma built_eq {E} (x l m : list Z) n :
  x = l -> n = length l ->
  (Done (x ++ drop n m) : outcome E (list Z)) = Done (l ++ drop (length l) m).
Proof. by intros -> ->. Qed.
