(* ===== verification/KeepLastHistory.v ===== *)
(** * Fixed-capacity KEEP_LAST sample history

    [include/openrtdds/core/keep_last_history.hpp]: [BoundedSample] and the
    ring buffer [KeepLastHistory], refined to a queue of the last [Depth]
    samples. *)
From S2P Require Import Prelude.

Module History.

Inductive HistoryError : Set :=
  | HistoryError_none
  | HistoryError_invalid_argument
  | HistoryError_payload_too_large.

Record SampleMetadata : Set := {
  sequence_number : Z;
  source_timestamp_ns : Z;
}.

Record BoundedSample : Set := {
  payload_ : list Z;
  sample_size_ : Z;
  metadata_ : SampleMetadata;
}.

(** The value-initialised sample [BoundedSample<MaxPayloadBytes>{}]. *)
Definition BoundedSample_init (MaxPayloadBytes : Z) : BoundedSample :=
  {| payload_ := replicate (Z.to_nat MaxPayloadBytes) 0;
     sample_size_ := 0;
     metadata_ := {| sequence_number := 0; source_timestamp_ns := 0 |} |}.

(** [BoundedSample::assign]; a null pointer is [None].  No member changes when
    an error is returned. *)
Definition assign (MaxPayloadBytes : Z) (s : BoundedSample)
    (payload : option (list Z)) (payload_size : Z) (metadata : SampleMetadata)
    : outcome HistoryError BoundedSample :=
  stop_if (negb (bool_decide (is_Some payload)) && negb (payload_size =? 0))
    HistoryError_invalid_argument;;
  stop_if (MaxPayloadBytes <? payload_size) HistoryError_payload_too_large;;
  stored ← (if negb (payload_size =? 0) then
              p ← access payload;
              src ← access (mslice p 0 payload_size);
              access (mcopy (payload_ s) 0 src)
            else Done (payload_ s));
  Done {| payload_ := stored; sample_size_ := payload_size;
          metadata_ := metadata |}.

(** The [size()] bytes at [data()] with the metadata: what a sample holds. *)
Definition sample_view (s : BoundedSample) : list Z * SampleMetadata :=
  (take (Z.to_nat (sample_size_ s)) (payload_ s), metadata_ s).

Definition sample_wf (MaxPayloadBytes : Z) (s : BoundedSample) : Prop :=
  zlen (payload_ s) = MaxPayloadBytes /\
  0 <= sample_size_ s <= MaxPayloadBytes.

(** What a caller must supply: the pointer designates [payload_size] bytes. *)
Definition readable (p : option (list Z)) (size : Z) : Prop :=
  0 <= size /\ forall b, p = Some b -> size <= zlen b.

Lemma assign_spec Max s payload payload_size md :
  sample_wf Max s -> readable payload payload_size ->
  assign Max s payload payload_size md =
  match payload with
  | None =>
      if payload_size =? 0
      then (if Max <? 0 then Stop HistoryError_payload_too_large
            else Done {| payload_ := payload_ s; sample_size_ := 0;
                         metadata_ := md |})
      else Stop HistoryError_invalid_argument
  | Some p =>
      if Max <? payload_size then Stop HistoryError_payload_too_large
      else Done {| payload_ := take (Z.to_nat payload_size) p ++
                               drop (Z.to_nat payload_size) (payload_ s);
                   sample_size_ := payload_size; metadata_ := md |}
  end.
Proof.
  intros [Hlen Hsz] [H0 Hread]. unfold assign.
  destruct payload as [p|]; simpl.
  - specialize (Hread p eq_refl).
    destruct (Z.ltb_spec Max payload_size); simpl; [done|].
    destruct (Z.eqb_spec payload_size 0) as [->|Hne]; simpl; [done|].
    unfold mslice. destruct (Z.leb_spec 0 payload_size); [|lia].
    destruct (Z.leb_spec (0 + payload_size) (zlen p)); [simpl|lia].
    rewrite drop_0, mcopy_start by (rewrite ?length_take; simpl; lia).
    simpl. by rewrite length_take_le by lia.
  - destruct (Z.eqb_spec payload_size 0) as [->|]; simpl; [|done].
    by destruct (Z.ltb_spec Max 0).
Qed.

Lemma assign_Done Max s payload payload_size md s' :
  sample_wf Max s -> readable payload payload_size ->
  assign Max s payload payload_size md = Done s' ->
  sample_wf Max s' /\
  sample_view s' =
    (take (Z.to_nat payload_size) (default [] payload), md).
Proof.
  intros Hwf Hread. rewrite assign_spec by done.
  destruct Hwf as [Hlen Hsz], Hread as [H0 Hread].
  destruct payload as [p|]; simpl.
  - specialize (Hread p eq_refl).
    destruct (Z.ltb_spec Max payload_size); [done|]. intros [= <-].
    unfold sample_wf, sample_view; simpl.
    rewrite length_app, length_take, length_drop. split; [lia|].
    by rewrite take_app_le, take_take, Nat.min_id by (rewrite length_take; lia).
  - destruct (Z.eqb_spec payload_size 0) as [->|]; [|done].
    destruct (Z.ltb_spec Max 0); [lia|]. intros [= <-].
    unfold sample_wf, sample_view; simpl. split; [lia|done].
Qed.

Section KeepLastHistory.
(** Template parameters with the source's [static_assert]s. *)
Context (Depth MaxPayloadBytes : Z).
Context (Depth_pos : 0 < Depth < 2 ^ 64).
Context (Max_pos : 0 < MaxPayloadBytes < 2 ^ 64).

Record KeepLastHistory : Set := {
  samples_ : list BoundedSample;
  size_ : Z;
  oldest_index_ : Z;
  write_index_ : Z;
}.

Definition history_init : KeepLastHistory :=
  {| samples_ := replicate (Z.to_nat Depth)
                   (BoundedSample_init MaxPayloadBytes);
     size_ := 0; oldest_index_ := 0; write_index_ := 0 |}.

Definition increment (index : Z) : Z := add64 index 1 mod Depth.

Definition empty (h : KeepLastHistory) : bool := size_ h =? 0.
Definition full (h : KeepLastHistory) : bool := size_ h =? Depth.

Definition push (h : KeepLastHistory) (payload : option (list Z))
    (payload_size : Z) (metadata : SampleMetadata)
    : outcome HistoryError KeepLastHistory :=
  stop_if (negb (bool_decide (is_Some payload)) && negb (payload_size =? 0))
    HistoryError_invalid_argument;;
  stop_if (MaxPayloadBytes <? payload_size) HistoryError_payload_too_large;;
  slot ← access (mload (samples_ h) (write_index_ h));
  slot' ← assign MaxPayloadBytes slot payload payload_size metadata;
  samples' ← access (mstore (samples_ h) (write_index_ h) slot');
  Done {| samples_ := samples';
          size_ := if size_ h =? Depth then size_ h else add64 (size_ h) 1;
          oldest_index_ := if size_ h =? Depth
                           then increment (oldest_index_ h)
                           else oldest_index_ h;
          write_index_ := increment (write_index_ h) |}.

(** [const Sample*]: [None] is the null pointer. *)
Definition oldest (h : KeepLastHistory)
    : outcome HistoryError (option BoundedSample) :=
  if empty h then Done None
  else s ← access (mload (samples_ h) (oldest_index_ h)); Done (Some s).

Definition newest (h : KeepLastHistory)
    : outcome HistoryError (option BoundedSample) :=
  if empty h then Done None
  else
    let newest_index := if write_index_ h =? 0 then Depth - 1
                        else write_index_ h - 1 in
    s ← access (mload (samples_ h) newest_index); Done (Some s).

Definition pop_oldest (h : KeepLastHistory) : bool * KeepLastHistory :=
  if empty h then (false, h)
  else (true, {| samples_ := samples_ h;
                 size_ := sub64 (size_ h) 1;
                 oldest_index_ := increment (oldest_index_ h);
                 write_index_ := write_index_ h |}).

Definition clear (h : KeepLastHistory) : KeepLastHistory :=
  {| samples_ := samples_ h; size_ := 0; oldest_index_ := 0;
     write_index_ := 0 |}.

(** ** Well-formedness and the queue a history stands for *)

Record history_wf (h : KeepLastHistory) : Prop := {
  wf_samples : zlen (samples_ h) = Depth;
  wf_sample : Forall (sample_wf MaxPayloadBytes) (samples_ h);
  wf_size : 0 <= size_ h <= Depth;
  wf_oldest : 0 <= oldest_index_ h < Depth;
  wf_write : write_index_ h = (oldest_index_ h + size_ h) mod Depth;
}.

Definition slot_index (h : KeepLastHistory) (k : Z) : Z :=
  (oldest_index_ h + k) mod Depth.

(** [q] lists the held samples from the oldest to the newest. *)
Definition holds (h : KeepLastHistory) (q : list (list Z * SampleMetadata))
    : Prop :=
  zlen q = size_ h /\
  forall k, 0 <= k < size_ h -> exists s,
    mload (samples_ h) (slot_index h k) = Some s /\
    mload q k = Some (sample_view s).

(** The abstract KEEP_LAST queue: append, then keep the last [Depth]. *)
Definition keep_last {A} (q : list A) (x : A) : list A :=
  drop (length q + 1 - Z.to_nat Depth) (q ++ [x]).

Lemma history_init_wf : history_wf history_init.
Proof.
  split; simpl; rewrite ?length_replicate; try lia.
  - apply Forall_replicate. unfold sample_wf; simpl.
    rewrite length_replicate. lia.
  - symmetry. apply Z.mod_0_l. lia.
Qed.

Lemma history_init_holds : holds history_init [].
Proof. split; simpl; [done|lia]. Qed.

Lemma increment_ring h k :
  history_wf h -> 0 <= k <= Depth ->
  increment (slot_index h k) = slot_index h (k + 1).
Proof.
  intros Hh Hk. unfold increment, slot_index.
  pose proof (Z.mod_pos_bound (oldest_index_ h + k) Depth).
  rewrite add64_id by lia. rewrite Z.add_mod_idemp_l by lia. f_equal. lia.
Qed.

Lemma slot_index_range h k : 0 <= slot_index h k < Depth.
Proof. apply Z.mod_pos_bound. lia. Qed.

Lemma slot_0 h : history_wf h -> slot_index h 0 = oldest_index_ h.
Proof.
  intros Hh. unfold slot_index. rewrite Z.add_0_r.
  apply Z.mod_small, Hh.
Qed.

(** Overwriting the slot behind the newest sample. *)
Lemma write_slot h s samples' :
  history_wf h -> sample_wf MaxPayloadBytes s ->
  mstore (samples_ h) (write_index_ h) s = Some samples' ->
  zlen samples' = Depth /\ Forall (sample_wf MaxPayloadBytes) samples' /\
  mload samples' (write_index_ h) = Some s /\
  (forall i, i <> write_index_ h -> mload samples' i = mload (samples_ h) i).
Proof.
  intros [Hlen Hall Hsz Hold Hw] Hs Hst.
  pose proof (slot_index_range h (size_ h)) as Hr. unfold slot_index in Hr.
  unfold mstore in Hst. case_match eqn:Hc; simplify_eq.
  rewrite length_insert. split_and!; [done| | |].
  - by apply Forall_insert.
  - unfold mload. destruct (Z.ltb_spec (write_index_ h) 0); [lia|].
    apply list_lookup_insert_eq. lia.
  - intros i Hi. unfold mload. destruct (Z.ltb_spec i 0); [done|].
    apply list_lookup_insert_ne. lia.
Qed.

Lemma keep_last_room {A} (q : list A) x :
  zlen q < Depth -> keep_last q x = q ++ [x].
Proof.
  intros. unfold keep_last.
  replace (length q + 1 - Z.to_nat Depth)%nat with 0%nat by lia. done.
Qed.

Lemma keep_last_full {A} (q : list A) x :
  zlen q = Depth -> keep_last q x = drop 1 (q ++ [x]).
Proof.
  intros. unfold keep_last. f_equal. lia.
Qed.

Lemma mload_snoc {A} (q : list A) x k :
  0 <= k <= zlen q ->
  mload (q ++ [x]) k = if k =? zlen q then Some x else mload q k.
Proof.
  intros. destruct (Z.eqb_spec k (zlen q)) as [->|].
  - rewrite mload_app_r by lia. by rewrite Z.sub_diag.
  - apply mload_app_l. lia.
Qed.

Lemma mload_drop1 {A} (q : list A) k :
  0 <= k -> mload (drop 1 q) k = mload q (k + 1).
Proof.
  intros. unfold mload.
  destruct (Z.ltb_spec k 0), (Z.ltb_spec (k + 1) 0); try lia.
  rewrite lookup_drop. f_equal. lia.
Qed.

(** Two slots of the held range differ; when the ring is full the slot behind
    the newest sample is the oldest one. *)
Lemma slot_index_inj h j k :
  0 <= j < Depth -> 0 <= k < Depth -> slot_index h j = slot_index h k -> j = k.
Proof. intros. apply (ring_inj Depth (oldest_index_ h)); [lia..|done]. Qed.

Lemma slot_full h : history_wf h -> slot_index h Depth = slot_index h 0.
Proof.
  intros Hh. rewrite slot_0 by done. unfold slot_index.
  apply ring_wrap, Hh.
Qed.

Lemma increment_oldest h :
  history_wf h -> increment (oldest_index_ h) = slot_index h 1.
Proof.
  intros Hh. rewrite <- (slot_0 h) by done.
  by rewrite increment_ring by (done || lia).
Qed.

(** The history after a push into slot [write_index_] with room left. *)
Lemma push_room h q s samples' :
  history_wf h -> holds h q -> size_ h <> Depth ->
  sample_wf MaxPayloadBytes s ->
  mstore (samples_ h) (write_index_ h) s = Some samples' ->
  let h' := {| samples_ := samples'; size_ := add64 (size_ h) 1;
               oldest_index_ := oldest_index_ h;
               write_index_ := increment (write_index_ h) |} in
  history_wf h' /\ holds h' (keep_last q (sample_view s)).
Proof.
  intros Hh [Hq Hslots] HD Hs Hst h'.
  destruct (write_slot _ _ _ Hh Hs Hst) as (Hlen & Hall & Hnew & Hold).
  pose proof (wf_size _ Hh) as Hsz. pose proof (wf_oldest _ Hh) as Ho.
  pose proof (wf_write _ Hh) as Hw. fold (slot_index h (size_ h)) in Hw.
  subst h'. rewrite add64_id by lia.
  split; [split; simpl; try done; try lia|split; simpl].
  - by rewrite Hw, increment_ring by (done || lia).
  - rewrite keep_last_room, length_app by lia. simpl. lia.
  - intros k Hk. change (slot_index _ k) with (slot_index h k).
    rewrite keep_last_room, mload_snoc by lia.
    destruct (Z.eqb_spec k (zlen q)) as [Hlast|Hmid].
    + exists s. split; [|done]. by rewrite Hlast, Hq, <- Hw.
    + rewrite Hold; [apply Hslots; lia|]. rewrite Hw.
      intros ?%slot_index_inj; lia.
Qed.

(** The history after a push that replaces the oldest sample. *)
Lemma push_full h q s samples' :
  history_wf h -> holds h q -> size_ h = Depth ->
  sample_wf MaxPayloadBytes s ->
  mstore (samples_ h) (write_index_ h) s = Some samples' ->
  let h' := {| samples_ := samples'; size_ := size_ h;
               oldest_index_ := increment (oldest_index_ h);
               write_index_ := increment (write_index_ h) |} in
  history_wf h' /\ holds h' (keep_last q (sample_view s)).
Proof.
  intros Hh [Hq Hslots] HD Hs Hst h'.
  destruct (write_slot _ _ _ Hh Hs Hst) as (Hlen & Hall & Hnew & Hold).
  pose proof (wf_write _ Hh) as Hw. fold (slot_index h (size_ h)) in Hw.
  rewrite HD, slot_full in Hw by done.
  assert (forall k, slot_index h' k = slot_index h (k + 1)) as Hshift.
  { intros k. unfold slot_index at 1. simpl. rewrite increment_oldest by done.
    unfold slot_index. rewrite Z.add_mod_idemp_l by lia. f_equal. lia. }
  split; [split; simpl; try done; try lia|split; simpl].
  - rewrite increment_oldest by done. apply slot_index_range.
  - change (_ mod Depth) with (slot_index h' (size_ h)).
    rewrite Hshift, Hw, increment_ring, HD by (done || lia).
    rewrite <- (increment_ring h Depth), slot_full, increment_ring
      by (done || lia). done.
  - rewrite keep_last_full, length_drop, length_app by lia. simpl. lia.
  - intros k Hk. rewrite Hshift, keep_last_full, mload_drop1, mload_snoc by lia.
    destruct (Z.eqb_spec (k + 1) (zlen q)) as [Hlast|Hmid].
    + exists s. split; [|done]. by rewrite Hlast, Hq, HD, slot_full, <- Hw.
    + rewrite Hold; [apply Hslots; lia|]. rewrite Hw.
      intros ?%slot_index_inj; lia.
Qed.

Lemma push_Done h q payload payload_size md h' :
  history_wf h -> readable payload payload_size -> holds h q ->
  push h payload payload_size md = Done h' ->
  history_wf h' /\
  holds h' (keep_last q (take (Z.to_nat payload_size) (default [] payload), md)).
Proof.
  intros Hh Hread Hq Hpush. unfold push in Hpush. inv_done.
  rename a into slot, a0 into slot', a1 into samples'.
  assert (sample_wf MaxPayloadBytes slot) as Hslot
    by (eapply mload_Forall; [apply Hh|done]).
  destruct (assign_Done _ _ _ _ _ _ Hslot Hread Ha0) as [Hs' <-].
  destruct (Z.eqb_spec (size_ h) Depth); [by apply push_full|by apply push_room].
Qed.

Lemma pop_refines h q :
  history_wf h -> holds h q ->
  (pop_oldest h).1 = negb (bool_decide (q = [])) /\
  history_wf (pop_oldest h).2 /\ holds (pop_oldest h).2 (drop 1 q).
Proof.
  intros Hh [Hq Hslots]. pose proof (wf_size _ Hh) as Hsz.
  unfold pop_oldest, empty.
  destruct (Z.eqb_spec (size_ h) 0) as [H0|H0]; simpl.
  - destruct q; simpl in *; [|lia]. by split_and!.
  - destruct q as [|x q']; simpl in Hq; [lia|]. simpl.
    rewrite sub64_id by lia.
    assert (forall k, (increment (oldest_index_ h) + k) mod Depth
                      = slot_index h (k + 1)) as Hshift.
    { intros k. rewrite increment_oldest by done. unfold slot_index.
      rewrite Z.add_mod_idemp_l by lia. f_equal. lia. }
    split_and!; [done|split; simpl; try apply Hh; try lia|split; simpl].
    + rewrite increment_oldest by done. apply slot_index_range.
    + rewrite Hshift. rewrite (wf_write _ Hh). unfold slot_index. f_equal. lia.
    + rewrite drop_0. lia.
    + intros k Hk. unfold slot_index at 1; simpl. rewrite Hshift, drop_0.
      destruct (Hslots (k + 1)) as (s & Hs & Hx); [lia|].
      exists s. split; [done|]. rewrite <- Hx. by rewrite <- mload_drop1 by lia.
Qed.

Lemma clear_refines h : history_wf h -> history_wf (clear h) /\ holds (clear h) [].
Proof.
  intros Hh. split; [|split; simpl; [done|lia]].
  split; simpl; try apply Hh; try lia.
  symmetry. apply Z.mod_0_l. lia.
Qed.

(** ** Histories driven by a sequence of operations *)

Inductive history_op : Set :=
  | Push (payload : option (list Z)) (payload_size : Z) (md : SampleMetadata)
  | PopOldest
  | Clear.

(** A rejected push leaves the history as it was; [None] is a fault. *)
Definition history_step (h : KeepLastHistory) (op : history_op)
    : option KeepLastHistory :=
  match op with
  | Push p n md => snd <$> commit HistoryError_none h (push h p n md)
  | PopOldest => Some (pop_oldest h).2
  | Clear => Some (clear h)
  end.

Definition queue_step (q : list (list Z * SampleMetadata)) (op : history_op)
    : list (list Z * SampleMetadata) :=
  match op with
  | Push p n md =>
      if bool_decide (p = None) && negb (n =? 0) || (MaxPayloadBytes <? n) then q
      else keep_last q (take (Z.to_nat n) (default [] p), md)
  | PopOldest => drop 1 q
  | Clear => []
  end.

Fixpoint history_run (h : KeepLastHistory) (ops : list history_op)
    : option KeepLastHistory :=
  match ops with
  | [] => Some h
  | op :: ops' => h' ← history_step h op; history_run h' ops'
  end.

Definition op_ok (op : history_op) : Prop :=
  match op with Push p n _ => readable p n | _ => True end.

Lemma write_index_range h : history_wf h -> 0 <= write_index_ h < Depth.
Proof. intros Hh. rewrite (wf_write _ Hh). apply (slot_index_range h). Qed.

Lemma write_slot_loads h :
  history_wf h -> exists slot,
  mload (samples_ h) (write_index_ h) = Some slot /\
  sample_wf MaxPayloadBytes slot.
Proof.
  intros Hh. destruct (proj2 (mload_is_Some (samples_ h) (write_index_ h)))
    as [slot Hslot].
  - rewrite (wf_samples _ Hh). by apply write_index_range.
  - exists slot. split; [done|]. by eapply mload_Forall; [apply Hh|].
Qed.

Lemma write_slot_stores h s :
  history_wf h -> exists m, mstore (samples_ h) (write_index_ h) s = Some m.
Proof.
  intros Hh. apply mstore_is_Some. rewrite (wf_samples _ Hh).
  by apply write_index_range.
Qed.

Lemma push_outcome h payload payload_size md :
  history_wf h -> readable payload payload_size ->
  match push h payload payload_size md with
  | Fault => False
  | Stop e =>
      (e = HistoryError_invalid_argument /\ payload = None /\ payload_size <> 0)
      \/ (e = HistoryError_payload_too_large /\ MaxPayloadBytes < payload_size)
  | Done _ => payload_size <= MaxPayloadBytes /\
              (payload = None -> payload_size = 0)
  end.
Proof.
  intros Hh Hread. destruct (write_slot_loads h Hh) as (slot & Hslot & Hswf).
  unfold push. rewrite Hslot. simpl.
  rewrite assign_spec by done.
  destruct payload as [p|]; simpl.
  - destruct (Z.ltb_spec MaxPayloadBytes payload_size); simpl; [by auto|].
    match goal with |- context [mstore _ _ ?s] =>
      destruct (write_slot_stores h s Hh) as [m ->] end. simpl. by split.
  - destruct (Z.eqb_spec payload_size 0) as [->|]; simpl; [|by auto].
    destruct (Z.ltb_spec MaxPayloadBytes 0); simpl; [lia|].
    match goal with |- context [mstore _ _ ?s] =>
      destruct (write_slot_stores h s Hh) as [m ->] end. simpl. by split.
Qed.

Lemma history_step_refines h q op :
  history_wf h -> holds h q -> op_ok op ->
  exists h', history_step h op = Some h' /\ history_wf h' /\
             holds h' (queue_step q op).
Proof.
  intros Hh Hq Hop. destruct op as [p n md| |]; simpl.
  - pose proof (push_outcome h p n md Hh Hop) as Hout.
    pose proof (push_Done h q p n md) as Hdone.
    destruct (push h p n md) as [|e|h'] eqn:Hpush; simpl; [done| |].
    + exists h. split; [done|]. split; [done|].
      destruct Hout as [(-> & -> & Hn)|(-> & Hn)].
      * rewrite bool_decide_true by done.
        by destruct (Z.eqb_spec n 0).
      * destruct (Z.ltb_spec MaxPayloadBytes n); [|lia]. by rewrite orb_true_r.
    + destruct (Hdone h') as [Hwf Hholds]; try done.
      exists h'. split; [done|]. split; [done|].
      destruct Hout as [Hle Hnull].
      destruct (Z.ltb_spec MaxPayloadBytes n); [lia|]. rewrite orb_false_r.
      case_bool_decide as Hp; [specialize (Hnull Hp); by subst n|done].
  - eexists; split; [done|]. by apply pop_refines.
  - eexists; split; [done|]. by apply clear_refines.
Qed.

Lemma history_run_holds ops : forall h q,
  history_wf h -> holds h q -> Forall op_ok ops ->
  exists h', history_run h ops = Some h' /\ history_wf h' /\
             holds h' (foldl queue_step q ops).
Proof.
  induction ops as [|op ops IH]; intros h q Hh Hq Hops; simpl; [by eauto|].
  apply Forall_cons in Hops as [Hop Hops].
  destruct (history_step_refines h q op) as (h1 & -> & Hh1 & Hq1); [done..|].
  simpl. by apply IH.
Qed.

(** The ring buffer implements KEEP_LAST: after any sequence of pushes
    (accepted or refused), pops and clears, the history has made no access outside
    its array and holds exactly the samples of the abstract queue that appends and
    keeps the last [Depth], oldest first. *)
Theorem history_run_refines ops :
  Forall op_ok ops ->
  exists h, history_run history_init ops = Some h /\ history_wf h /\
            holds h (foldl queue_step [] ops).
Proof.
  apply history_run_holds; [apply history_init_wf|apply history_init_holds].
Qed.

(** The index [newest()] computes is the slot of the last held sample. *)
Lemma newest_index h :
  history_wf h -> size_ h <> 0 ->
  (if write_index_ h =? 0 then Depth - 1 else write_index_ h - 1)
  = slot_index h (size_ h - 1).
Proof.
  intros Hh H0. pose proof (wf_size _ Hh) as Hsz.
  pose proof (increment_ring h (size_ h - 1) Hh ltac:(lia)) as Hinc.
  replace (size_ h - 1 + 1) with (size_ h) in Hinc by lia.
  unfold slot_index in Hinc at 2. rewrite <- (wf_write _ Hh) in Hinc.
  pose proof (slot_index_range h (size_ h - 1)) as Hr.
  unfold increment in Hinc. rewrite add64_id in Hinc by lia. rewrite <- Hinc.
  destruct (decide (slot_index h (size_ h - 1) + 1 = Depth)) as [He|He].
  - rewrite He, Z_mod_same_full. simpl. lia.
  - rewrite Z.mod_small by lia.
    destruct (Z.eqb_spec (slot_index h (size_ h - 1) + 1) 0); lia.
Qed.

(** [oldest()] and [newest()] return the first and the last sample of that
    queue, and null when it is empty. *)
Theorem oldest_newest_refine h q :
  history_wf h -> holds h q ->
  (exists o, oldest h = Done o /\ sample_view <$> o = head q) /\
  (exists n, newest h = Done n /\ sample_view <$> n = last q).
Proof.
  intros Hh [Hq Hslots]. unfold oldest, newest, empty.
  destruct (Z.eqb_spec (size_ h) 0) as [H0|H0].
  - destruct q; simpl in *; [|lia]. split; by exists None.
  - pose proof (wf_size _ Hh) as Hsz. rewrite newest_index by done.
    destruct (Hslots 0) as (s & Hs & Hx); [lia|].
    destruct (Hslots (size_ h - 1)) as (t & Ht & Hy); [lia|].
    rewrite slot_0 in Hs by done. rewrite Hs, Ht. simpl.
    split; eexists; (split; [done|]); simpl.
    + destruct q; simpl in *; [lia|]. by injection Hx as ->.
    + rewrite last_lookup. apply mload_Some in Hy as [_ Hy].
      rewrite <- Hy. f_equal. lia.
Qed.
End KeepLastHistory.

Definition demo_history_ops : list history_op :=
  let md n := {| sequence_number := n; source_timestamp_ns := 10 * n |} in
  [Push (Some [1]) 1 (md 1); Push (Some [2; 2]) 2 (md 2); Push None 3 (md 3);
   Push (Some [4; 4; 4]) 3 (md 4); PopOldest; Push (Some [5]) 1 (md 5);
   Push (Some [6; 6; 6; 6; 6]) 5 (md 6); Push None 0 (md 7)].

Lemma demo_history_ops_ok : Forall op_ok demo_history_ops.
Proof.
  repeat constructor; cbn; try lia; try (by intros b [=]); by intros b [= <-].
Qed.

Lemma history_run_refines_witness :
  exists h, history_run 2 4 (history_init 2 4) demo_history_ops = Some h /\
    holds 2 h [([5], {| sequence_number := 5; source_timestamp_ns := 50 |});
               ([], {| sequence_number := 7; source_timestamp_ns := 70 |})].
Proof.
  destruct (history_run_refines 2 4 ltac:(lia) ltac:(lia) demo_history_ops demo_history_ops_ok)
    as (h & Hrun & _ & Hh).
  exists h. split; [exact Hrun|exact Hh].
Defined.

Lemma oldest_newest_refine_witness :
  (exists o, oldest (history_init 2 4) = Done o /\ sample_view <$> o = None) /\
  (exists n, newest 2 (history_init 2 4) = Done n /\ sample_view <$> n = None).
Proof.
  apply (oldest_newest_refine 2 4 ltac:(lia) (history_init 2 4) []).
  - apply history_init_wf; lia.
  - apply history_init_holds.
Defined.

End History.
