(* ===== verification/RuntimeLimits.v ===== *)
(** * Startup validation of resource limits

    [include/openrtdds/core/runtime_limits.hpp] and
    [src/core/runtime_limits.cpp]. *)
From S2P Require Import Prelude.

Module Limits.

Inductive LimitError : Set :=
  | LimitError_none
  | zero_participants
  | zero_topics
  | zero_endpoints
  | zero_samples
  | zero_payload
  | invalid_history_depth.

#[global] Instance LimitError_eq_dec : EqDecision LimitError.
Proof. solve_decision. Defined.

Record RuntimeLimits : Set := {
  max_participants : Z;
  max_topics : Z;
  max_writers : Z;
  max_readers : Z;
  max_samples : Z;
  max_payload_bytes : Z;
  history_depth : Z;
}.

(** The member initialisers of [RuntimeLimits]. *)
Definition RuntimeLimits_default : RuntimeLimits :=
  {| max_participants := 16; max_topics := 128; max_writers := 256;
     max_readers := 256; max_samples := 1024; max_payload_bytes := 64 * 1024;
     history_depth := 4 |}.

Definition validate (l : RuntimeLimits) : LimitError :=
  if max_participants l =? 0 then zero_participants
  else if max_topics l =? 0 then zero_topics
  else if (max_writers l =? 0) || (max_readers l =? 0) then zero_endpoints
  else if max_samples l =? 0 then zero_samples
  else if max_payload_bytes l =? 0 then zero_payload
  else if (history_depth l =? 0) || (max_samples l <? history_depth l)
       then invalid_history_depth
  else LimitError_none.

Definition limit_error_string (e : LimitError) : string :=
  match e with
  | LimitError_none => "none"
  | zero_participants => "max_participants must be nonzero"
  | zero_topics => "max_topics must be nonzero"
  | zero_endpoints => "max_writers and max_readers must be nonzero"
  | zero_samples => "max_samples must be nonzero"
  | zero_payload => "max_payload_bytes must be nonzero"
  | invalid_history_depth => "history_depth must be within max_samples"
  end.

(** The members are [size_t]. *)
Definition limits_typed (l : RuntimeLimits) : Prop :=
  Forall (fun x => 0 <= x < 2 ^ 64)
    [max_participants l; max_topics l; max_writers l; max_readers l;
     max_samples l; max_payload_bytes l; history_depth l].

(** What the error reports about the limits: each error names a bound that is
    violated while every bound checked before it holds. *)
Definition violated (l : RuntimeLimits) (e : LimitError) : Prop :=
  match e with
  | LimitError_none => False
  | zero_participants => max_participants l = 0
  | zero_topics => max_topics l = 0
  | zero_endpoints => max_writers l = 0 \/ max_readers l = 0
  | zero_samples => max_samples l = 0
  | zero_payload => max_payload_bytes l = 0
  | invalid_history_depth => history_depth l = 0 \/ max_samples l < history_depth l
  end.

Definition limits_usable (l : RuntimeLimits) : Prop :=
  0 < max_participants l /\ 0 < max_topics l /\ 0 < max_writers l /\
  0 < max_readers l /\ 0 < max_payload_bytes l /\
  0 < history_depth l <= max_samples l.

(** [validate] accepts exactly the limits with which every capacity is
    nonzero and the history depth fits into the samples; otherwise the error it
    returns names a bound that is violated. *)
Theorem validate_spec l :
  limits_typed l ->
  (validate l = LimitError_none <-> limits_usable l) /\
  (validate l <> LimitError_none -> violated l (validate l)).
Proof.
  intros Hty. unfold limits_typed in Hty.
  rewrite !Forall_cons in Hty. destruct Hty as (?&?&?&?&?&?&?&_).
  unfold validate, limits_usable.
  repeat (match goal with
    | |- context [if ?c then _ else _] => destruct c eqn:?
    end; simpl); bool_props; (split; [split; [|]|]); simpl; try done; try lia;
    intros; lia.
Qed.

Lemma validate_spec_witness :
  limits_typed RuntimeLimits_default /\
  ((validate RuntimeLimits_default = LimitError_none <->
    limits_usable RuntimeLimits_default) /\
   (validate RuntimeLimits_default <> LimitError_none ->
    violated RuntimeLimits_default (validate RuntimeLimits_default))).
Proof.
  assert (limits_typed RuntimeLimits_default) as H
    by (repeat constructor; simpl; lia).
  split; [exact H|]. apply (validate_spec RuntimeLimits_default). exact H.
Defined.

End Limits.
