(* ===== verification/StaticPool.v ===== *)
(** * Fixed-capacity object storage

    [include/openrtdds/core/static_pool.hpp].  A slot of [storage_] is raw
    memory: [None] until an object is constructed in it and again after its
    destructor has run.  Constructing over a live object (a leak) and
    destroying a slot without one are faults of the model. *)
From S2P Require Import Prelude.

Module Pool.

Section StaticPool.
Context {T : Type} (Capacity : nat).

Record StaticPool : Type := {
  storage_ : list (option T);
  used_ : list bool;
  size_ : Z;
}.

Definition pool_init : StaticPool :=
  {| storage_ := replicate Capacity None;
     used_ := replicate Capacity false; size_ := 0 |}.

(** [::new (&storage_[index]) T(args...)]; [value] is [None] when the
    constructor throws. *)
Definition construct (m : list (option T)) (index : nat) (value : T)
    : outcome unit (list (option T)) :=
  match m !! index with
  | Some None => Done (<[index := Some value]> m)
  | _ => Fault
  end.

(** [pointer_at(index)->~T()] *)
Definition destroy (m : list (option T)) (index : nat)
    : outcome unit (list (option T)) :=
  match m !! index with
  | Some (Some _) => Done (<[index := None]> m)
  | _ => Fault
  end.

(** [acquire]: the address of a slot is its index, [None] the null pointer.
    [Stop tt] is the exception of a throwing constructor; nothing has been
    recorded by then. *)
Definition acquire (p : StaticPool) (value : option T)
    : outcome unit (option nat * StaticPool) :=
  match list_find (fun u => u = false) (used_ p) with
  | Some (index, _) =>
      match value with
      | None => Stop tt
      | Some v =>
          storage' ← construct (storage_ p) index v;
          Done (Some index,
                {| storage_ := storage';
                   used_ := <[index := true]> (used_ p);
                   size_ := add64 (size_ p) 1 |})
      end
  | None => Done (None, p)
  end.

(** [release]: the argument is null, the address of a slot, or foreign (an
    index outside the pool). *)
Definition release (p : StaticPool) (object : option nat)
    : outcome unit (bool * StaticPool) :=
  match object with
  | None => Done (false, p)
  | Some obj =>
      match list_find (fun iu => iu.2 = true /\ iu.1 = obj)
              (imap pair (used_ p)) with
      | Some (index, _) =>
          storage' ← destroy (storage_ p) index;
          Done (true, {| storage_ := storage';
                         used_ := <[index := false]> (used_ p);
                         size_ := sub64 (size_ p) 1 |})
      | None => Done (false, p)
      end
  end.

(** One iteration of the loop of [clear]. *)
Definition clear_slot (index : nat) (mu : list (option T) * list bool)
    : outcome unit (list (option T) * list bool) :=
  let '(m, u) := mu in
  match u !! index with
  | Some true => m' ← destroy m index; Done (m', <[index := false]> u)
  | Some false => Done (m, u)
  | None => Fault
  end.

(** [clear], also the destructor. *)
Definition clear (p : StaticPool) : outcome unit StaticPool :=
  '(storage', used') ← for_each clear_slot (seq 0 Capacity) (storage_ p, used_ p);
  Done {| storage_ := storage'; used_ := used'; size_ := 0 |}.

Definition empty (p : StaticPool) : bool := size_ p =? 0.
Definition full (p : StaticPool) : bool := size_ p =? Z.of_nat Capacity.

(** ** The invariant: the flag of a slot tells whether an object lives in it,
    and [size_] counts the flags *)

Definition live (o : option T) : bool :=
  match o with Some _ => true | None => false end.

Definition count (l : list (option T)) : nat :=
  length (filter (fun o => live o = true) l).

Record pool_wf (p : StaticPool) : Prop := {
  wf_storage : length (storage_ p) = Capacity;
  wf_used : used_ p = live <$> storage_ p;
  wf_size : size_ p = Z.of_nat (count (storage_ p));
}.

(** The objects the pool owns, by address. *)
Definition object_at (p : StaticPool) (i : nat) : option T :=
  default None (storage_ p !! i).
End StaticPool.

Arguments StaticPool : clear implicits.

Section PoolFacts.
Context {T : Type} (Capacity : nat).
Context (Capacity_bound : 0 < Z.of_nat Capacity < 2 ^ 64).
Implicit Types p : StaticPool T.

Lemma count_insert_Some (l : list (option T)) i v :
  l !! i = Some None -> count (<[i := Some v]> l) = S (count l).
Proof.
  revert i. induction l as [|o l IH]; intros [|i] Hi; simpl in *; simplify_eq.
  - done.
  - unfold count in *. rewrite !filter_cons.
    destruct (decide (live o = true)); simpl; rewrite IH; done.
Qed.

Lemma count_insert_None (l : list (option T)) i v :
  l !! i = Some (Some v) -> S (count (<[i := None]> l)) = count l.
Proof.
  revert i. induction l as [|o l IH]; intros [|i] Hi; simpl in *; simplify_eq.
  - done.
  - unfold count in *. rewrite !filter_cons.
    destruct (decide (live o = true)); simpl; rewrite <- (IH i); done.
Qed.

Lemma count_le (l : list (option T)) : (count l <= length l)%nat.
Proof. apply length_filter. Qed.

Lemma count_full (l : list (option T)) :
  count l = length l <-> Forall (fun o => live o = true) l.
Proof.
  unfold count. induction l as [|o l IH]; simpl; [done|].
  rewrite filter_cons, Forall_cons. pose proof (count_le l).
  unfold count in *. destruct (decide (live o = true)); simpl; naive_solver lia.
Qed.

Lemma count_replicate_None n : count (replicate n (None : option T)) = 0%nat.
Proof. unfold count. by induction n. Qed.

Lemma pool_init_wf : pool_wf Capacity (pool_init (T:=T) Capacity).
Proof.
  split; simpl.
  - apply length_replicate.
  - by rewrite fmap_replicate.
  - by rewrite count_replicate_None.
Qed.

(** Acquiring: it fails exactly when the pool is full; otherwise the new
    address held no object, and only that slot changes. *)
Definition acquire_post p (v : T) (r : outcome unit (option nat * StaticPool T))
    : Prop :=
  match r with
  | Done (None, p') => p' = p /\ full Capacity p = true
  | Done (Some i, p') =>
      full Capacity p = false /\ pool_wf Capacity p' /\ (i < Capacity)%nat /\
      object_at p i = None /\ object_at p' i = Some v /\
      (forall j, j <> i -> object_at p' j = object_at p j) /\
      size_ p' = size_ p + 1
  | _ => False
  end.

(** [acquire] returns null exactly when the pool is full and otherwise
    constructs the object in a slot that held none; every other object keeps its
    address and value and the size grows by one. *)
Theorem acquire_spec p v :
  pool_wf Capacity p -> acquire_post p v (acquire p (Some v)).
Proof.
  intros [Hlen Hused Hsize]. unfold acquire, acquire_post, full.
  pose proof (count_le (storage_ p)) as Hle.
  destruct (list_find _ _) as [[i u]|] eqn:Hfind.
  - apply list_find_Some in Hfind as (Hi & -> & _).
    rewrite Hused, list_lookup_fmap in Hi.
    destruct (storage_ p !! i) as [[w|]|] eqn:Hslot; try done. clear Hi.
    assert (i < length (storage_ p))%nat as Hlt by (eapply lookup_lt_Some; eauto).
    pose proof (count_insert_Some _ i v Hslot) as Hcount.
    pose proof (count_le (<[i := Some v]> (storage_ p))) as Hle'.
    rewrite length_insert in Hle'.
    unfold construct. rewrite Hslot. simpl. unfold object_at. simpl.
    split_and!; try done; try lia.
    + split; simpl; [by rewrite length_insert| |].
      * by rewrite Hused, list_fmap_insert.
      * rewrite Hcount, add64_id by lia. lia.
    + by rewrite Hslot.
    + by rewrite list_lookup_insert_eq by done.
    + intros j Hj. by rewrite list_lookup_insert_ne by done.
    + apply add64_id. lia.
  - split; [done|]. apply Z.eqb_eq.
    rewrite Hsize. f_equal. rewrite <- Hlen. apply count_full.
    apply list_find_None in Hfind. rewrite Hused, Forall_fmap in Hfind.
    eapply Forall_impl; [exact Hfind|]. intros o Ho. simpl in Ho.
    by destruct (live o).
Qed.

(** Releasing: it succeeds exactly on the address of a live object, which it
    destroys; no other object is touched. *)
Definition release_post p (object : option nat)
    (r : outcome unit (bool * StaticPool T)) : Prop :=
  match r with
  | Done (true, p') => exists i, object = Some i /\
      is_Some (object_at p i) /\ object_at p' i = None /\
      (forall j, j <> i -> object_at p' j = object_at p j) /\
      size_ p' = size_ p - 1 /\ pool_wf Capacity p'
  | Done (false, p') =>
      p' = p /\ (forall i, object = Some i -> object_at p i = None)
  | _ => False
  end.

(** [release] destroys exactly the live object at the given address and
    frees its slot; null pointers, foreign pointers and addresses already
    released are refused without effect, so no object is destroyed twice. *)
Theorem release_spec p object :
  pool_wf Capacity p -> release_post p object (release p object).
Proof.
  intros [Hlen Hused Hsize]. destruct object as [obj|]; simpl; [|done].
  pose proof (count_le (storage_ p)) as Hle.
  destruct (list_find _ _) as [[i u]|] eqn:Hfind.
  - apply list_find_Some in Hfind as (Hi & [Hu Ho] & _).
    rewrite list_lookup_imap in Hi. apply fmap_Some in Hi as (b & Hb & ->).
    simpl in Hu, Ho. subst b obj.
    rewrite Hused, list_lookup_fmap in Hb.
    destruct (storage_ p !! i) as [[v|]|] eqn:Hslot; try done.
    assert (i < length (storage_ p))%nat by (eapply lookup_lt_Some; eauto).
    pose proof (count_insert_None _ i v Hslot) as Hcount.
    unfold destroy, release_post, object_at. rewrite Hslot. simpl.
    rewrite sub64_id by lia.
    exists i. rewrite Hslot. split_and!; try done.
    + by rewrite list_lookup_insert_eq by done.
    + intros j Hj. by rewrite list_lookup_insert_ne by done.
    + split; simpl; [by rewrite length_insert| |lia].
      by rewrite Hused, list_fmap_insert.
  - split; [done|]. intros i [= ->]. unfold object_at.
    apply list_find_None in Hfind.
    destruct (storage_ p !! i) as [[v|]|] eqn:Hslot; try done. exfalso.
    rewrite Forall_lookup in Hfind.
    apply (Hfind i (i, true)); [|done].
    by rewrite list_lookup_imap, Hused, list_lookup_fmap, Hslot.
Qed.
Lemma decide_cons {A} (i x : nat) xs (a b : A) :
  i <> x ->
  (if decide (i ∈ xs) then a else b) = (if decide (i ∈ x :: xs) then a else b).
Proof.
  intros Hne. destruct (decide (i ∈ xs)) as [Hin|Hin].
  - by rewrite decide_True by (by right).
  - by rewrite decide_False by (rewrite elem_of_cons; naive_solver).
Qed.

(** The loop of [clear] over any indices of the pool destroys exactly the
    live objects there. *)
Lemma clear_loop xs : forall (m : list (option T)),
  Forall (fun i => (i < length m)%nat) xs ->
  exists m', for_each clear_slot xs (m, live <$> m) = Done (m', live <$> m') /\
    length m' = length m /\
    forall i, m' !! i = if decide (i ∈ xs) 
      then (fun _ => None) <$> m !! i else m !! i.
Proof.
  induction xs as [|x xs IH]; intros m Hxs; simpl.
  - exists m. by split_and!.
  - apply Forall_cons in Hxs as [Hx Hxs].
    destruct (lookup_lt_is_Some_2 m x Hx) as [o Ho].
    rewrite list_lookup_fmap, Ho. simpl.
    destruct o as [v|]; simpl.
    + assert (destroy m x = Done (<[x := None]> m)) as ->
        by (unfold destroy; by rewrite Ho). simpl.
      replace (<[x := false]> (live <$> m)) with (live <$> <[x := None]> m)
        by (by rewrite list_fmap_insert).
      destruct (IH (<[x := None]> m)) as (m' & Hrun & Hlen & Hm').
      { rewrite length_insert. done. }
      exists m'. rewrite length_insert in Hlen.
      split; [exact Hrun|]. split; [done|].
      intros i. rewrite Hm'. destruct (decide (i = x)) as [->|Hne].
      * rewrite list_lookup_insert_eq, (decide_True (P:=x ∈ x :: xs)) by
          (done || by left).
        rewrite Ho. by case_decide.
      * rewrite list_lookup_insert_ne by done. by apply decide_cons.
    + destruct (IH m Hxs) as (m' & Hrun & Hlen & Hm').
      exists m'. split; [exact Hrun|]. split; [done|]. intros i. rewrite Hm'.
      destruct (decide (i = x)) as [->|Hne]; [|by apply decide_cons].
      rewrite (decide_True (P:=x ∈ x :: xs)) by (by left).
      rewrite Ho. by case_decide.
Qed.

(** Clearing destroys every live object once and leaves the pool empty. *)
(** [clear], which is also the destructor, destroys every live object once
    and leaves the pool in its initial state. *)
Theorem clear_spec p :
  pool_wf Capacity p ->
  clear Capacity p = Done (pool_init Capacity).
Proof.
  intros [Hlen Hused Hsize]. unfold clear. rewrite Hused.
  destruct (clear_loop (seq 0 Capacity) (storage_ p)) as (m' & -> & Hm' & Hall).
  { rewrite Hlen. apply Forall_seq. lia. }
  simpl. assert (m' = replicate Capacity None) as ->.
  { apply list_eq. intros i. rewrite Hall.
    destruct (decide (i < Capacity)%nat) as [Hi|Hi].
    - rewrite decide_True by (apply elem_of_seq; lia).
      rewrite lookup_replicate_2 by done.
      destruct (lookup_lt_is_Some_2 (storage_ p) i) as [o ->]; [lia|done].
    - rewrite decide_False by (rewrite elem_of_seq; lia).
      rewrite !lookup_ge_None_2; rewrite ?length_replicate; lia || done. }
  unfold pool_init. by rewrite fmap_replicate.
Qed.
End PoolFacts.

(** A pool of two slots, one of them in use. *)
Definition demo_pool : StaticPool nat :=
  {| storage_ := [None; Some 7%nat]; used_ := [false; true]; size_ := 1 |}.

Lemma demo_pool_wf : pool_wf 2 demo_pool.
Proof. by split. Qed.

Lemma acquire_spec_witness :
  acquire_post 2 demo_pool 9%nat (acquire demo_pool (Some 9%nat)) /\
  exists p, acquire demo_pool (Some 9%nat) = Done (Some 0%nat, p).
Proof.
  split; [apply (acquire_spec 2 ltac:(lia) demo_pool 9%nat demo_pool_wf)|by eexists].
Defined.

Lemma release_spec_witness :
  release_post 2 demo_pool (Some 1%nat) (release demo_pool (Some 1%nat)) /\
  exists p, release demo_pool (Some 1%nat) = Done (true, p).
Proof.
  split; [apply (release_spec 2 ltac:(lia) demo_pool (Some 1%nat) demo_pool_wf)|by eexists].
Defined.

Lemma clear_spec_witness : clear 2 demo_pool = Done (pool_init 2).
Proof. apply (clear_spec 2 ltac:(lia) demo_pool demo_pool_wf). Defined.

End Pool.
