(* ===== verification/Cdr.v ===== *)
(** * Bounded XCDR1 PLAIN_CDR writer and reader

    [include/openrtdds/serialization/cdr.hpp] and
    [src/serialization/cdr.cpp].  A method that returns [bool] and updates the
    object is a function of the object: [Done] is [return true], [Stop w] is
    [return false] with [w] the final state of the object, [Fault] an access
    outside the buffer. *)
From S2P Require Import Prelude Bytes.

Module Cdr.

Inductive CdrError : Set :=
  | CdrError_none
  | invalid_argument
  | not_initialized
  | overflow
  | underflow
  | unsupported_encoding
  | invalid_data
  | bound_exceeded.

#[global] Instance CdrError_eq_dec : EqDecision CdrError.
Proof. solve_decision. Defined.

Definition cdr_error_string (error : CdrError) : string :=
  match error with
  | CdrError_none => "none"
  | invalid_argument => "invalid argument"
  | not_initialized => "CDR encapsulation not initialized"
  | overflow => "output buffer overflow"
  | underflow => "input buffer underflow"
  | unsupported_encoding => "unsupported CDR encoding"
  | invalid_data => "invalid serialized data"
  | bound_exceeded => "declared bound exceeded"
  end.

Definition encapsulation_size : Z := 4.

Definition is_power_of_two (value : Z) : bool :=
  negb (value =? 0) && (Z.land value (sub64 value 1) =? 0).

(** [None]: the function returned [false] and left [result] alone. *)
Definition aligned_position (offset origin alignment : Z) : option Z :=
  if (offset <? origin) || negb (is_power_of_two alignment) then None
  else
    let relative := sub64 offset origin in
    let remainder := Z.land relative (sub64 alignment 1) in
    let padding := if remainder =? 0 then 0 else sub64 alignment remainder in
    if sub64 size_max padding <? offset then None
    else Some (add64 offset padding).

(** ** The writer *)

Record CdrWriter : Set := {
  buffer_ : option (list Z);
  capacity_ : Z;
  offset_ : Z;
  origin_ : Z;
  byte_order_ : ByteOrder;
  error_ : CdrError;
  initialized_ : bool;
}.

Definition w_fail_state (w : CdrWriter) (error : CdrError) : CdrWriter :=
  {| buffer_ := buffer_ w; capacity_ := capacity_ w; offset_ := offset_ w;
     origin_ := origin_ w; byte_order_ := byte_order_ w;
     error_ := if decide (error_ w = CdrError_none) then error else error_ w;
     initialized_ := initialized_ w |}.

(** [return fail(error);] *)
Definition w_fail {A} (w : CdrWriter) (error : CdrError) : outcome CdrWriter A :=
  Stop (w_fail_state w error).

Definition w_fail_if (c : bool) (w : CdrWriter) (error : CdrError)
    : outcome CdrWriter unit :=
  stop_if c (w_fail_state w error).

Definition null_with_size (buffer : option (list Z)) (size : Z) : bool :=
  match buffer with None => negb (size =? 0) | Some _ => false end.

Definition CdrWriter_new (buffer : option (list Z)) (capacity : Z) : CdrWriter :=
  {| buffer_ := buffer; capacity_ := capacity; offset_ := 0; origin_ := 0;
     byte_order_ := little_endian;
     error_ := if null_with_size buffer capacity then invalid_argument
               else CdrError_none;
     initialized_ := false |}.

Definition w_set_buffer (w : CdrWriter) (b : list Z) (offset : Z) : CdrWriter :=
  {| buffer_ := Some b; capacity_ := capacity_ w; offset_ := offset;
     origin_ := origin_ w; byte_order_ := byte_order_ w; error_ := error_ w;
     initialized_ := initialized_ w |}.

(** [CdrWriter::begin] *)
Definition w_begin (w : CdrWriter) (byte_order : ByteOrder)
    : outcome CdrWriter CdrWriter :=
  let w := {| buffer_ := buffer_ w; capacity_ := capacity_ w; offset_ := 0;
              origin_ := 0; byte_order_ := byte_order; error_ := CdrError_none;
              initialized_ := false |} in
  w_fail_if (null_with_size (buffer_ w) (capacity_ w)) w invalid_argument;;
  w_fail_if (negb (supported_byte_order byte_order)) w invalid_argument;;
  w_fail_if (capacity_ w <? encapsulation_size) w overflow;;
  b ← access (buffer_ w);
  b ← access (mstore b 0 0);
  b ← access (mstore b 1 (if is_little byte_order then 1 else 0));
  b ← access (mstore b 2 0);
  b ← access (mstore b 3 0);
  Done {| buffer_ := Some b; capacity_ := capacity_ w;
          offset_ := encapsulation_size; origin_ := encapsulation_size;
          byte_order_ := byte_order; error_ := CdrError_none;
          initialized_ := true |}.

(** [CdrWriter::reserve]: the start position and the writer with the padding
    zeroed. *)
Definition reserve (w : CdrWriter) (alignment width : Z)
    : outcome CdrWriter (Z * CdrWriter) :=
  stop_if (bool_decide (error_ w <> CdrError_none)) w;;
  w_fail_if (negb (initialized_ w)) w not_initialized;;
  match aligned_position (offset_ w) (origin_ w) alignment with
  | None => w_fail w overflow
  | Some start =>
      w_fail_if ((capacity_ w <? start) || (sub64 (capacity_ w) start <? width))
        w overflow;;
      b ← access (buffer_ w);
      b ← for_each (fun index b => access (mstore b index 0))
            (seqZ (offset_ w) (start - offset_ w)) b;
      Done (start, w_set_buffer w b (offset_ w))
  end.

Definition store_integral (w : CdrWriter) (start value width : Z)
    : outcome CdrWriter CdrWriter :=
  b ← access (buffer_ w);
  b ← store_loop b start value width (byte_order_ w);
  Done (w_set_buffer w b (offset_ w)).

Definition set_offset (w : CdrWriter) (offset : Z) : CdrWriter :=
  {| buffer_ := buffer_ w; capacity_ := capacity_ w; offset_ := offset;
     origin_ := origin_ w; byte_order_ := byte_order_ w; error_ := error_ w;
     initialized_ := initialized_ w |}.

Definition write_integral (w : CdrWriter) (value width alignment : Z)
    : outcome CdrWriter CdrWriter :=
  '(start, w) ← reserve w alignment width;
  w ← store_integral w start value width;
  Done (set_offset w (add64 start width)).

Definition write_uint8 (w : CdrWriter) (value : Z) := write_integral w value 1 1.
Definition write_bool (w : CdrWriter) (value : bool) :=
  write_uint8 w (if value then 1 else 0).
Definition cdr_write_uint16 (w : CdrWriter) (value : Z) := write_integral w value 2 2.
Definition write_int16 (w : CdrWriter) (value : Z) := cdr_write_uint16 w (u16 value).
Definition cdr_write_uint32 (w : CdrWriter) (value : Z) := write_integral w value 4 4.
Definition write_int32 (w : CdrWriter) (value : Z) := cdr_write_uint32 w (u32 value).
Definition cdr_write_uint64 (w : CdrWriter) (value : Z) := write_integral w value 8 8.
Definition write_int64 (w : CdrWriter) (value : Z) := cdr_write_uint64 w (u64 value).
(** A [float] or [double] is its IEEE-754 bit pattern, which is what
    [memcpy] stores into [bits]. *)
Definition write_float32 (w : CdrWriter) (bits : Z) := cdr_write_uint32 w bits.
Definition write_float64 (w : CdrWriter) (bits : Z) := cdr_write_uint64 w bits.

(** [if (size != 0U) std::memcpy(&buffer_[at], data, size);] *)
Definition copy_in (w : CdrWriter) (at_ : Z) (data : option (list Z)) (size : Z)
    : outcome CdrWriter CdrWriter :=
  if negb (size =? 0) then
    src ← access data;
    src ← access (mslice src 0 size);
    b ← access (buffer_ w);
    b ← access (mcopy b at_ src);
    Done (w_set_buffer w b (offset_ w))
  else Done w.

Definition write_bytes (w : CdrWriter) (data : option (list Z)) (size : Z)
    : outcome CdrWriter CdrWriter :=
  w_fail_if (null_with_size data size) w invalid_argument;;
  '(start, w) ← reserve w 1 size;
  w ← copy_in w start data size;
  Done (set_offset w (add64 start size)).

Definition write_string (w : CdrWriter) (value : option (list Z))
    (length_ max_characters : Z) : outcome CdrWriter CdrWriter :=
  w_fail_if (null_with_size value length_) w invalid_argument;;
  w_fail_if (max_characters <? length_) w bound_exceeded;;
  w_fail_if (u32_max <=? length_) w bound_exceeded;;
  let serialized_length := add64 length_ 1 in
  w_fail_if (size_max - 4 <? serialized_length) w bound_exceeded;;
  '(start, w) ← reserve w 4 (add64 4 serialized_length);
  w ← store_integral w start (u32 serialized_length) 4;
  w ← copy_in w (start + 4) value length_;
  b ← access (buffer_ w);
  b ← access (mstore b (start + 4 + length_) 0);
  Done (w_set_buffer w b (add64 (add64 start 4) serialized_length)).

(** ** The reader *)

Record CdrReader : Set := {
  rbuffer_ : option (list Z);
  rsize_ : Z;
  roffset_ : Z;
  rorigin_ : Z;
  rbyte_order_ : ByteOrder;
  rerror_ : CdrError;
  rinitialized_ : bool;
}.

Definition r_fail_state (r : CdrReader) (error : CdrError) : CdrReader :=
  {| rbuffer_ := rbuffer_ r; rsize_ := rsize_ r; roffset_ := roffset_ r;
     rorigin_ := rorigin_ r; rbyte_order_ := rbyte_order_ r;
     rerror_ := if decide (rerror_ r = CdrError_none) then error else rerror_ r;
     rinitialized_ := rinitialized_ r |}.

Definition r_fail {A} (r : CdrReader) (error : CdrError) : outcome CdrReader A :=
  Stop (r_fail_state r error).

Definition r_fail_if (c : bool) (r : CdrReader) (error : CdrError)
    : outcome CdrReader unit :=
  stop_if c (r_fail_state r error).

Definition r_set_offset (r : CdrReader) (offset : Z) : CdrReader :=
  {| rbuffer_ := rbuffer_ r; rsize_ := rsize_ r; roffset_ := offset;
     rorigin_ := rorigin_ r; rbyte_order_ := rbyte_order_ r;
     rerror_ := rerror_ r; rinitialized_ := rinitialized_ r |}.

Definition CdrReader_new (buffer : option (list Z)) (size : Z) : CdrReader :=
  {| rbuffer_ := buffer; rsize_ := size; roffset_ := 0; rorigin_ := 0;
     rbyte_order_ := little_endian;
     rerror_ := if null_with_size buffer size then invalid_argument
                else CdrError_none;
     rinitialized_ := false |}.

(** [remaining()] *)
Definition remaining (r : CdrReader) : Z :=
  if roffset_ r <=? rsize_ r then sub64 (rsize_ r) (roffset_ r) else 0.

(** [CdrReader::begin] *)
Definition r_begin (r : CdrReader) : outcome CdrReader CdrReader :=
  let r := {| rbuffer_ := rbuffer_ r; rsize_ := rsize_ r; roffset_ := 0;
              rorigin_ := 0; rbyte_order_ := rbyte_order_ r;
              rerror_ := CdrError_none; rinitialized_ := false |} in
  r_fail_if (null_with_size (rbuffer_ r) (rsize_ r)) r invalid_argument;;
  r_fail_if (rsize_ r <? encapsulation_size) r underflow;;
  b ← access (rbuffer_ r);
  b0 ← access (mload b 0);
  b1 ← access (mload b 1);
  r_fail_if (negb (b0 =? 0) || (negb (b1 =? 0) && negb (b1 =? 1))) r
    unsupported_encoding;;
  Done {| rbuffer_ := rbuffer_ r; rsize_ := rsize_ r;
          roffset_ := encapsulation_size; rorigin_ := encapsulation_size;
          rbyte_order_ := if b1 =? 1 then little_endian else big_endian;
          rerror_ := CdrError_none; rinitialized_ := true |}.

(** [CdrReader::locate]: [start] and [end]. *)
Definition locate (r : CdrReader) (alignment width : Z)
    : outcome CdrReader (Z * Z) :=
  stop_if (bool_decide (rerror_ r <> CdrError_none)) r;;
  r_fail_if (negb (rinitialized_ r)) r not_initialized;;
  match aligned_position (roffset_ r) (rorigin_ r) alignment with
  | None => r_fail r underflow
  | Some start =>
      r_fail_if ((rsize_ r <? start) || (sub64 (rsize_ r) start <? width)) r
        underflow;;
      Done (start, add64 start width)
  end.

Definition load_integral (r : CdrReader) (start width : Z) : outcome CdrReader Z :=
  b ← access (rbuffer_ r);
  load_loop b start width (rbyte_order_ r).

Definition read_integral (r : CdrReader) (width alignment : Z)
    : outcome CdrReader (Z * CdrReader) :=
  '(start, end_) ← locate r alignment width;
  value ← load_integral r start width;
  Done (value, r_set_offset r end_).

Definition read_uint8 (r : CdrReader) : outcome CdrReader (Z * CdrReader) :=
  '(decoded, r) ← read_integral r 1 1; Done (u8 decoded, r).

Definition read_bool (r : CdrReader) : outcome CdrReader (bool * CdrReader) :=
  let saved_offset := roffset_ r in
  '(encoded, r) ← read_uint8 r;
  r_fail_if (1 <? encoded) (r_set_offset r saved_offset) invalid_data;;
  Done (encoded =? 1, r).

Definition cdr_read_uint16 (r : CdrReader) : outcome CdrReader (Z * CdrReader) :=
  '(decoded, r) ← read_integral r 2 2; Done (u16 decoded, r).
Definition cdr_read_uint32 (r : CdrReader) : outcome CdrReader (Z * CdrReader) :=
  '(decoded, r) ← read_integral r 4 4; Done (u32 decoded, r).
Definition cdr_read_uint64 (r : CdrReader) : outcome CdrReader (Z * CdrReader) :=
  read_integral r 8 8.
Definition read_int16 (r : CdrReader) : outcome CdrReader (Z * CdrReader) :=
  '(bits, r) ← cdr_read_uint16 r; Done (signed 16 bits, r).
Definition read_int32 (r : CdrReader) : outcome CdrReader (Z * CdrReader) :=
  '(bits, r) ← cdr_read_uint32 r; Done (signed 32 bits, r).
Definition read_int64 (r : CdrReader) : outcome CdrReader (Z * CdrReader) :=
  '(bits, r) ← cdr_read_uint64 r; Done (signed 64 bits, r).
Definition read_float32 (r : CdrReader) : outcome CdrReader (Z * CdrReader) :=
  '(bits, r) ← cdr_read_uint32 r; Done (bits, r).
Definition read_float64 (r : CdrReader) : outcome CdrReader (Z * CdrReader) :=
  '(bits, r) ← cdr_read_uint64 r; Done (bits, r).

(** [read_bytes]: the destination after the call. *)
Definition read_bytes (r : CdrReader) (destination : option (list Z)) (size : Z)
    : outcome CdrReader (option (list Z) * CdrReader) :=
  r_fail_if (null_with_size destination size) r invalid_argument;;
  '(start, end_) ← locate r 1 size;
  destination ← (if negb (size =? 0) then
                   d ← access destination;
                   b ← access (rbuffer_ r);
                   src ← access (mslice b start size);
                   d ← access (mcopy d 0 src);
                   Done (Some d)
                 else Done destination);
  Done (destination, r_set_offset r end_).

(** The checks shared by [read_string] and [read_string_view] up to the
    character bound: [data_start], [serialized_length], [character_count]. *)
Definition string_header (r : CdrReader) (max_characters : Z)
    : outcome CdrReader (Z * Z * Z) :=
  '(length_start, data_start) ← locate r 4 4;
  serialized_length ← load_integral r length_start 4;
  r_fail_if (serialized_length =? 0) r invalid_data;;
  let character_count := sub64 serialized_length 1 in
  r_fail_if (max_characters <? character_count) r bound_exceeded;;
  Done (data_start, serialized_length, character_count).

Definition read_string (r : CdrReader) (destination : option (list Z))
    (destination_capacity max_characters : Z)
    : outcome CdrReader (option (list Z) * Z * CdrReader) :=
  r_fail_if (null_with_size destination destination_capacity) r invalid_argument;;
  '(data_start, serialized_length, character_count) ←
    string_header r max_characters;
  r_fail_if (destination_capacity <? serialized_length) r bound_exceeded;;
  r_fail_if ((rsize_ r <? data_start) ||
             (sub64 (rsize_ r) data_start <? serialized_length)) r underflow;;
  b ← access (rbuffer_ r);
  terminator ← access (mload b (data_start + serialized_length - 1));
  r_fail_if (negb (terminator =? 0)) r invalid_data;;
  d ← access destination;
  src ← access (mslice b data_start serialized_length);
  d ← access (mcopy d 0 src);
  Done (Some d, character_count,
        r_set_offset r (add64 data_start serialized_length)).

(** [read_string_view]: the view is the [length] bytes at [data]. *)
Definition read_string_view (r : CdrReader) (max_characters : Z)
    : outcome CdrReader (list Z * Z * CdrReader) :=
  '(data_start, serialized_length, character_count) ←
    string_header r max_characters;
  r_fail_if ((rsize_ r <? data_start) ||
             (sub64 (rsize_ r) data_start <? serialized_length)) r underflow;;
  b ← access (rbuffer_ r);
  terminator ← access (mload b (data_start + character_count));
  r_fail_if (negb (terminator =? 0)) r invalid_data;;
  view ← access (mslice b data_start character_count);
  Done (view, character_count,
        r_set_offset r (add64 data_start serialized_length)).

(** ** Alignment *)

(** Padding bytes before a field of [alignment] at [position] bytes behind the
    encapsulation header. *)
Definition padding (position alignment : Z) : Z := (- position) mod alignment.

Lemma is_power_of_two_pow2 k : 0 <= k < 64 -> is_power_of_two (2 ^ k) = true.
Proof.
  intros Hk. unfold is_power_of_two.
  assert (0 < 2 ^ k < 2 ^ 64)
    by (split; [apply Z.pow_pos_nonneg|apply Z.pow_lt_mono_r]; lia).
  destruct (Z.eqb_spec (2 ^ k) 0); [lia|]. rewrite sub64_id by lia.
  replace (2 ^ k - 1) with (Z.ones k) by (rewrite Z.ones_equiv; lia).
  rewrite Z.land_ones, Z_mod_same_full by lia. done.
Qed.

Lemma padding_cases position alignment :
  0 < alignment ->
  (if position mod alignment =? 0 then 0
   else alignment - position mod alignment) = padding position alignment.
Proof.
  intros. unfold padding.
  destruct (Z.eqb_spec (position mod alignment) 0).
  - by rewrite Z.mod_opp_l_z by lia.
  - by rewrite Z.mod_opp_l_nz by lia.
Qed.

Lemma padding_range position alignment :
  0 < alignment -> 0 <= padding position alignment < alignment.
Proof. apply Z.mod_pos_bound. Qed.

Lemma aligned_position_spec offset origin k :
  0 <= origin <= offset -> offset < 2 ^ 64 -> 0 <= k < 64 ->
  aligned_position offset origin (2 ^ k) =
  let start := offset + padding (offset - origin) (2 ^ k) in
  if size_max <? start then None else Some start.
Proof.
  intros Ho Hmax Hk. unfold aligned_position.
  rewrite is_power_of_two_pow2 by done.
  assert (0 < 2 ^ k < 2 ^ 64)
    by (split; [apply Z.pow_pos_nonneg|apply Z.pow_lt_mono_r]; lia).
  pose proof (padding_range (offset - origin) (2 ^ k)) as Hp.
  destruct (Z.ltb_spec offset origin); [lia|]. simpl.
  rewrite (sub64_id offset), (sub64_id (2 ^ k) 1) by lia.
  replace (2 ^ k - 1) with (Z.ones k) by (rewrite Z.ones_equiv; lia).
  rewrite Z.land_ones by lia.
  pose proof (Z.mod_pos_bound (offset - origin) (2 ^ k)).
  rewrite (sub64_id (2 ^ k)), padding_cases by lia.
  unfold size_max in *. rewrite sub64_id by lia.
  destruct (Z.ltb_spec (2 ^ 64 - 1 - padding (offset - origin) (2 ^ k)) offset),
    (Z.ltb_spec (2 ^ 64 - 1) (offset + padding (offset - origin) (2 ^ k)));
    try lia; [done|]. by rewrite add64_id by lia.
Qed.

(** ** What a writer emits *)

(** A writer after a successful [begin]: [p] is written, [r] is the rest of
    the buffer. *)
Record writer_at (w : CdrWriter) (p r : list Z) : Prop := {
  wa_error : error_ w = CdrError_none;
  wa_initialized : initialized_ w = true;
  wa_buffer : buffer_ w = Some (p ++ r);
  wa_offset : offset_ w = zlen p;
  wa_origin : origin_ w = 4;
  wa_order : supported_byte_order (byte_order_ w) = true;
  wa_capacity : zlen p <= capacity_ w <= zlen p + zlen r;
  wa_bound : capacity_ w < 2 ^ 64;
  wa_start : 4 <= zlen p;
}.

(** The writer after emitting [l]. *)
Definition emit (w : CdrWriter) (p r l : list Z) : CdrWriter :=
  w_set_buffer w ((p ++ l) ++ drop (length l) r) (zlen p + zlen l).

Lemma emit_at w p r l :
  writer_at w p r -> zlen p + zlen l <= capacity_ w ->
  writer_at (emit w p r l) (p ++ l) (drop (length l) r).
Proof.
  intros [] Hl. split; simpl; try done; rewrite ?length_app, ?length_drop; lia.
Qed.

Lemma emit_emit w p r l1 l2 :
  emit (emit w p r l1) (p ++ l1) (drop (length l1) r) l2 = emit w p r (l1 ++ l2).
Proof.
  unfold emit, w_set_buffer. simpl.
  rewrite drop_drop, <- !app_assoc, !length_app. f_equal. lia.
Qed.

Definition pad_bytes (p : list Z) (alignment : Z) : list Z :=
  replicate (Z.to_nat (padding (zlen p - 4) alignment)) 0.

Lemma pad_bytes_length p alignment :
  0 < alignment -> zlen (pad_bytes p alignment) = padding (zlen p - 4) alignment.
Proof.
  intros. unfold pad_bytes. rewrite length_replicate.
  pose proof (padding_range (zlen p - 4) alignment). lia.
Qed.

Lemma reserve_spec w p r k width :
  writer_at w p r -> 0 <= k < 64 -> 0 <= width ->
  let pad := pad_bytes p (2 ^ k) in
  reserve w (2 ^ k) width =
  if capacity_ w <? zlen p + zlen pad + width then w_fail w overflow
  else Done (zlen p + zlen pad,
             w_set_buffer w ((p ++ pad) ++ drop (length pad) r) (zlen p)).
Proof.
  intros Hw Hk Hwidth pad. destruct Hw as [He Hi Hb Ho Hor Hord Hc Hb64 Hs].
  assert (0 < 2 ^ k) by (apply Z.pow_pos_nonneg; lia).
  pose proof (padding_range (zlen p - 4) (2 ^ k)) as Hpad.
  pose proof (pad_bytes_length p (2 ^ k)) as Hlen. fold pad in Hlen.
  unfold reserve. rewrite He, Hi, Ho, Hor, Hb. simpl.
  rewrite aligned_position_spec by lia. simpl.
  unfold size_max. rewrite <- Hlen by done.
  destruct (Z.ltb_spec (2 ^ 64 - 1) (zlen p + zlen pad));
    destruct (Z.ltb_spec (capacity_ w) (zlen p + zlen pad + width)); try lia.
  - done.
  - destruct (Z.ltb_spec (capacity_ w) (zlen p + zlen pad)); simpl; [done|].
    rewrite sub64_id by lia.
    destruct (Z.ltb_spec (capacity_ w - (zlen p + zlen pad)) width);
      [done|lia].
  - destruct (Z.ltb_spec (capacity_ w) (zlen p + zlen pad)); simpl; [lia|].
    rewrite sub64_id by lia.
    destruct (Z.ltb_spec (capacity_ w - (zlen p + zlen pad)) width);
      [lia|]. simpl.
    replace (zlen p + zlen pad - zlen p) with (zlen pad) by lia.
    rewrite zero_run by lia. simpl.
    replace (replicate (length pad) 0) with pad; [done|].
    unfold pad, pad_bytes. by rewrite length_replicate.
Qed.

(** The bytes an integral of [width] bytes occupies behind [p]. *)
Definition integral_bytes (order : ByteOrder) (p : list Z) (width value : Z)
    : list Z :=
  pad_bytes p width ++ encode_uint order width value.

Lemma write_integral_spec w p r k value :
  writer_at w p r -> 0 <= k <= 3 ->
  let l := integral_bytes (byte_order_ w) p (2 ^ k) value in
  write_integral w value (2 ^ k) (2 ^ k) =
  if capacity_ w <? zlen p + zlen l then w_fail w overflow
  else Done (emit w p r l).
Proof.
  intros Hw Hk l. unfold write_integral.
  assert (0 < 2 ^ k) by (apply Z.pow_pos_nonneg; lia).
  rewrite (reserve_spec w p r k) by (done || lia).
  assert (zlen l = zlen (pad_bytes p (2 ^ k)) + 2 ^ k) as Hl.
  { unfold l, integral_bytes. rewrite length_app, encode_uint_length. lia. }
  rewrite Hl, Z.add_assoc.
  destruct (Z.ltb_spec (capacity_ w) (zlen p + zlen (pad_bytes p (2 ^ k)) + 2 ^ k));
    [done|]. simpl.
  unfold store_integral. simpl.
  pose proof (wa_capacity _ _ _ Hw). pose proof (wa_bound _ _ _ Hw).
  rewrite store_loop_snoc by (rewrite ?length_app, ?length_drop; lia). simpl.
  unfold set_offset, emit, w_set_buffer. simpl. f_equal. f_equal.
  - f_equal. unfold l, integral_bytes. rewrite drop_drop, <- !app_assoc.
    do 3 f_equal. by rewrite length_app, encode_uint_length.
  - rewrite add64_id by lia. lia.
Qed.

Lemma pad_bytes_1 p : pad_bytes p 1 = [].
Proof. unfold pad_bytes, padding. by rewrite Z.mod_1_r. Qed.

(** The guarded [memcpy] of [write_bytes] and [write_string]. *)
Lemma copy_in_spec w q s d n at_ :
  buffer_ w = Some (q ++ s) -> zlen q = at_ -> 0 <= n <= zlen d -> n <= zlen s ->
  copy_in w at_ (Some d) n
  = Done (w_set_buffer w ((q ++ take (Z.to_nat n) d) ++ drop (Z.to_nat n) s)
            (offset_ w)).
Proof.
  intros Hb Hq Hn Hs. unfold copy_in. destruct (Z.eqb_spec n 0) as [->|]; simpl.
  - rewrite take_0, drop_0, app_nil_r. unfold w_set_buffer.
    destruct w; simpl in *; by subst.
  - unfold mslice. destruct (Z.leb_spec 0 n); [|lia].
    destruct (Z.leb_spec (0 + n) (zlen d)); [simpl|lia].
    rewrite drop_0, Hb. simpl.
    rewrite mcopy_snoc by (rewrite ?length_take; lia). simpl.
    by rewrite length_take_le by lia.
Qed.

Lemma write_bytes_spec w p r data size :
  writer_at w p r -> 0 <= size <= zlen data ->
  let l := take (Z.to_nat size) data in
  write_bytes w (Some data) size =
  if capacity_ w <? zlen p + zlen l then w_fail w overflow
  else Done (emit w p r l).
Proof.
  intros Hw Hsize l. unfold write_bytes. simpl.
  assert (zlen l = size) as Hl by (unfold l; rewrite length_take; lia).
  change 1 with (2 ^ 0) at 1. rewrite (reserve_spec w p r 0) by (done || lia).
  change (2 ^ 0) with 1. rewrite pad_bytes_1. simpl. rewrite Z.add_0_r, Hl.
  destruct (Z.ltb_spec (capacity_ w) (zlen p + size)); [done|]. simpl.
  pose proof (wa_capacity _ _ _ Hw). pose proof (wa_bound _ _ _ Hw).
  rewrite app_nil_r, drop_0.
  rewrite (copy_in_spec _ p r data size) by (done || lia). simpl.
  unfold emit. rewrite Hl, add64_id by lia. fold l.
  replace (length l) with (Z.to_nat size) by lia. done.
Qed.

(** The bytes of a string of [chars] behind [p]: length, characters, NUL. *)
Definition string_bytes (order : ByteOrder) (p chars : list Z) : list Z :=
  integral_bytes order p 4 (zlen chars + 1) ++ chars ++ [0].

Lemma string_bytes_length order p chars :
  zlen (string_bytes order p chars)
  = zlen (pad_bytes p 4) + 4 + zlen chars + 1.
Proof.
  unfold string_bytes, integral_bytes.
  rewrite !length_app, encode_uint_length. simpl. lia.
Qed.

Lemma write_string_spec w p r chars max_characters :
  writer_at w p r -> zlen chars <= max_characters -> zlen chars < u32_max ->
  let l := string_bytes (byte_order_ w) p chars in
  write_string w (Some chars) (zlen chars) max_characters =
  if capacity_ w <? zlen p + zlen l then w_fail w overflow
  else Done (emit w p r l).
Proof.
  intros Hw Hmax H32 l. unfold write_string, u32_max in *. simpl.
  destruct (Z.ltb_spec max_characters (zlen chars)); [lia|].
  destruct (Z.leb_spec (2 ^ 32 - 1) (zlen chars)); [lia|]. simpl.
  rewrite (add64_id (zlen chars)) by lia. unfold size_max.
  destruct (Z.ltb_spec (2 ^ 64 - 1 - 4) (zlen chars + 1)); [lia|]. simpl.
  rewrite (add64_id 4), (u32_id (zlen chars + 1)) by lia.
  change 4 with (2 ^ 2) at 1. rewrite (reserve_spec w p r 2) by (done || lia).
  change (2 ^ 2) with 4.
  pose proof (string_bytes_length (byte_order_ w) p chars) as Hl. fold l in Hl.
  set (pad := pad_bytes p 4) in *. rewrite Hl.
  replace (zlen p + zlen pad + (4 + (zlen chars + 1)))
    with (zlen p + (zlen pad + 4 + zlen chars + 1)) by lia.
  destruct (Z.ltb_spec (capacity_ w) (zlen p + (zlen pad + 4 + zlen chars + 1)));
    [done|]. simpl.
  pose proof (wa_capacity _ _ _ Hw). pose proof (wa_bound _ _ _ Hw).
  unfold store_integral. simpl.
  rewrite store_loop_snoc by (rewrite ?length_app, ?length_drop; lia). simpl.
  set (enc := encode_uint (byte_order_ w) 4 (zlen chars + 1)).
  assert (length enc = 4%nat) as Henc by apply encode_uint_length.
  assert (l = pad ++ enc ++ chars ++ [0]) as ->
    by (unfold l, string_bytes, integral_bytes; by rewrite <- !app_assoc).
  clearbody enc. rewrite drop_drop.
  rewrite (copy_in_spec _ ((p ++ pad) ++ enc) _ chars (zlen chars)
    (zlen p + zlen pad + 4)) by
    (simpl; rewrite ?length_app, ?length_drop, ?Henc; (done || lia)).
  simpl. rewrite Nat2Z.id, firstn_all, drop_drop.
  rewrite mstore_mcopy, mcopy_snoc
    by (rewrite ?length_app, ?length_drop, ?Henc; simpl; lia). simpl.
  unfold emit, w_set_buffer. simpl. rewrite Hl. f_equal. f_equal.
  - f_equal. rewrite drop_drop, <- !app_assoc, !length_app, Henc. simpl.
    do 6 f_equal. lia.
  - rewrite !add64_id; rewrite ?add64_id; lia.
Qed.

#[local] Opaque encode_uint.

(** ** What a reader consumes *)

(** A reader after a successful [begin]: [p] is consumed, [rest] is left. *)
Record reader_at (r : CdrReader) (p rest : list Z) : Prop := {
  ra_error : rerror_ r = CdrError_none;
  ra_initialized : rinitialized_ r = true;
  ra_buffer : rbuffer_ r = Some (p ++ rest);
  ra_size : rsize_ r = zlen p + zlen rest;
  ra_offset : roffset_ r = zlen p;
  ra_origin : rorigin_ r = 4;
  ra_bound : rsize_ r < 2 ^ 64;
  ra_start : 4 <= zlen p;
}.

Definition consume (r : CdrReader) (p l : list Z) : CdrReader :=
  r_set_offset r (zlen p + zlen l).

Lemma consume_at r p l rest :
  reader_at r p (l ++ rest) -> reader_at (consume r p l) (p ++ l) rest.
Proof.
  intros []. split; simpl; rewrite <- ?app_assoc, ?length_app in *; try done; lia.
Qed.

Lemma locate_spec r p rest k width :
  reader_at r p rest -> 0 <= k < 64 -> 0 <= width ->
  let start := zlen p + zlen (pad_bytes p (2 ^ k)) in
  locate r (2 ^ k) width =
  if rsize_ r <? start + width then r_fail r underflow
  else Done (start, start + width).
Proof.
  intros [He Hi Hb Hsz Ho Hor H64 Hs] Hk Hw start.
  assert (0 < 2 ^ k) by (apply Z.pow_pos_nonneg; lia).
  pose proof (pad_bytes_length p (2 ^ k)) as Hlen.
  pose proof (padding_range (zlen p - 4) (2 ^ k)) as Hpad.
  unfold locate. rewrite He, Hi, Ho, Hor. simpl.
  rewrite aligned_position_spec by lia. simpl. rewrite <- Hlen by done.
  fold start. unfold size_max.
  destruct (Z.ltb_spec (2 ^ 64 - 1) start), (Z.ltb_spec (rsize_ r) (start + width));
    try lia; [done|..]; destruct (Z.ltb_spec (rsize_ r) start); simpl; try lia;
    try done; rewrite sub64_id by lia;
    destruct (Z.ltb_spec (rsize_ r - start) width); simpl; try lia; [done|].
  by rewrite add64_id by lia.
Qed.

Lemma read_integral_spec r p rest k value :
  let l := integral_bytes (rbyte_order_ r) p (2 ^ k) value in
  reader_at r p (l ++ rest) -> 0 <= k <= 3 -> 0 <= value < 2 ^ (8 * 2 ^ k) ->
  read_integral r (2 ^ k) (2 ^ k) = Done (value, consume r p l).
Proof.
  intros l Hr Hk Hv. unfold read_integral.
  assert (0 < 2 ^ k) by (apply Z.pow_pos_nonneg; lia).
  assert (zlen l = zlen (pad_bytes p (2 ^ k)) + 2 ^ k) as Hl.
  { unfold l, integral_bytes. rewrite length_app, encode_uint_length. lia. }
  rewrite (locate_spec r p (l ++ rest) k) by (done || lia).
  destruct Hr as [He Hi Hb Hsz Ho Hor H64 Hs]. rewrite length_app in Hsz.
  destruct (Z.ltb_spec (rsize_ r) (zlen p + zlen (pad_bytes p (2 ^ k)) + 2 ^ k));
    [lia|]. simpl.
  unfold load_integral. rewrite Hb. simpl.
  unfold l at 1, integral_bytes. rewrite <- !app_assoc, (app_assoc p).
  rewrite load_loop_encode by (rewrite ?length_app; lia). simpl.
  rewrite Z.mod_small by done. unfold consume. do 3 f_equal. lia.
Qed.

(** ** Typed values: one interface over the [write_*] and [read_*] methods *)

Inductive cdr_value : Set :=
  | VBool (b : bool)
  | VUint8 (v : Z) | VInt16 (v : Z) | VUint16 (v : Z) | VInt32 (v : Z)
  | VUint32 (v : Z) | VInt64 (v : Z) | VUint64 (v : Z)
  | VFloat32 (bits : Z) | VFloat64 (bits : Z)
  | VBytes (data : list Z)
  | VString (chars : list Z) (max_characters : Z).

Inductive cdr_type : Set :=
  | TBool | TUint8 | TInt16 | TUint16 | TInt32 | TUint32 | TInt64 | TUint64
  | TFloat32 | TFloat64 | TBytes (size : Z) | TString (max_characters : Z).

Definition type_of (v : cdr_value) : cdr_type :=
  match v with
  | VBool _ => TBool | VUint8 _ => TUint8 | VInt16 _ => TInt16
  | VUint16 _ => TUint16 | VInt32 _ => TInt32 | VUint32 _ => TUint32
  | VInt64 _ => TInt64 | VUint64 _ => TUint64 | VFloat32 _ => TFloat32
  | VFloat64 _ => TFloat64 | VBytes d => TBytes (zlen d)
  | VString _ m => TString m
  end.

Definition write_value (w : CdrWriter) (v : cdr_value) : outcome CdrWriter CdrWriter :=
  match v with
  | VBool b => write_bool w b
  | VUint8 v => write_uint8 w v
  | VInt16 v => write_int16 w v
  | VUint16 v => cdr_write_uint16 w v
  | VInt32 v => write_int32 w v
  | VUint32 v => cdr_write_uint32 w v
  | VInt64 v => write_int64 w v
  | VUint64 v => cdr_write_uint64 w v
  | VFloat32 b => write_float32 w b
  | VFloat64 b => write_float64 w b
  | VBytes d => write_bytes w (Some d) (zlen d)
  | VString c m => write_string w (Some c) (zlen c) m
  end.

Definition as_value {A} (f : A -> cdr_value)
    (m : outcome CdrReader (A * CdrReader)) : outcome CdrReader (cdr_value * CdrReader) :=
  '(a, r) ← m; Done (f a, r).

Definition read_value (r : CdrReader) (t : cdr_type)
    : outcome CdrReader (cdr_value * CdrReader) :=
  match t with
  | TBool => as_value VBool (read_bool r)
  | TUint8 => as_value VUint8 (read_uint8 r)
  | TInt16 => as_value VInt16 (read_int16 r)
  | TUint16 => as_value VUint16 (cdr_read_uint16 r)
  | TInt32 => as_value VInt32 (read_int32 r)
  | TUint32 => as_value VUint32 (cdr_read_uint32 r)
  | TInt64 => as_value VInt64 (read_int64 r)
  | TUint64 => as_value VUint64 (cdr_read_uint64 r)
  | TFloat32 => as_value VFloat32 (read_float32 r)
  | TFloat64 => as_value VFloat64 (read_float64 r)
  | TBytes n => as_value (fun d => VBytes (default [] d))
                  (read_bytes r (Some (replicate (Z.to_nat n) 0)) n)
  | TString m => '(view, _, r) ← read_string_view r m; Done (VString view m, r)
  end.

(** Values that fit their C++ type (and, for a string, its IDL bound). *)
Definition value_ok (v : cdr_value) : Prop :=
  match v with
  | VBool _ => True
  | VUint8 v => 0 <= v < 2 ^ 8
  | VInt16 v => - 2 ^ 15 <= v < 2 ^ 15
  | VUint16 v => 0 <= v < 2 ^ 16
  | VInt32 v => - 2 ^ 31 <= v < 2 ^ 31
  | VUint32 v | VFloat32 v => 0 <= v < 2 ^ 32
  | VInt64 v => - 2 ^ 63 <= v < 2 ^ 63
  | VUint64 v | VFloat64 v => 0 <= v < 2 ^ 64
  | VBytes _ => True
  | VString c m => zlen c <= m /\ zlen c < u32_max
  end.

(** The reference encoding of a value behind the bytes [p]. *)
Definition value_bytes (order : ByteOrder) (p : list Z) (v : cdr_value) : list Z :=
  match v with
  | VBool b => integral_bytes order p 1 (if b then 1 else 0)
  | VUint8 v => integral_bytes order p 1 v
  | VInt16 v => integral_bytes order p 2 (u16 v)
  | VUint16 v => integral_bytes order p 2 v
  | VInt32 v => integral_bytes order p 4 (u32 v)
  | VUint32 v | VFloat32 v => integral_bytes order p 4 v
  | VInt64 v => integral_bytes order p 8 (u64 v)
  | VUint64 v | VFloat64 v => integral_bytes order p 8 v
  | VBytes d => d
  | VString c _ => string_bytes order p c
  end.

(** A write of a valid value emits its reference encoding when that fits into
    the capacity and otherwise fails with [overflow], emitting nothing. *)
Lemma write_value_spec w p r v :
  writer_at w p r -> value_ok v ->
  let l := value_bytes (byte_order_ w) p v in
  write_value w v =
  if capacity_ w <? zlen p + zlen l then w_fail w overflow
  else Done (emit w p r l).
Proof.
  intros Hw Hv.
  destruct v; simpl in Hv |- *;
    try apply (write_integral_spec w p r 0); try apply (write_integral_spec w p r 1);
    try apply (write_integral_spec w p r 2); try apply (write_integral_spec w p r 3);
    try done.
  - pose proof (write_bytes_spec w p r data (zlen data) Hw) as Hspec.
    rewrite Nat2Z.id, firstn_all in Hspec. apply Hspec. lia.
  - by apply write_string_spec; destruct Hv.
Qed.

Lemma read_bytes_spec r p data rest :
  reader_at r p (data ++ rest) ->
  read_bytes r (Some (replicate (length data) 0)) (zlen data)
  = Done (Some data, consume r p data).
Proof.
  intros Hr. unfold read_bytes. simpl.
  change 1 with (2 ^ 0) at 1.
  rewrite (locate_spec r p (data ++ rest) 0) by (done || lia).
  change (2 ^ 0) with 1. rewrite pad_bytes_1. simpl. rewrite Z.add_0_r.
  destruct Hr as [He Hi Hb Hsz Ho Hor H64 Hs]. rewrite length_app in Hsz.
  destruct (Z.ltb_spec (rsize_ r) (zlen p + zlen data)); [lia|]. simpl.
  unfold consume. destruct (Z.eqb_spec (zlen data) 0) as [Hz|Hz]; simpl.
  - by destruct data.
  - rewrite Hb. simpl. rewrite mslice_app_exact by lia. simpl.
    rewrite mcopy_start by (rewrite length_replicate; lia).
    rewrite drop_ge, app_nil_r by (rewrite length_replicate; lia). done.
Qed.

(** The header of an encoded string, and where its characters are. *)
Lemma string_header_spec r p chars max_characters rest :
  let l := string_bytes (rbyte_order_ r) p chars in
  reader_at r p (l ++ rest) -> zlen chars <= max_characters ->
  zlen chars < u32_max ->
  exists pre, string_header r max_characters = Done (zlen pre, zlen chars + 1, zlen chars) /\
    rbuffer_ r = Some (pre ++ chars ++ [0] ++ rest) /\
    rsize_ r = zlen pre + zlen chars + 1 + zlen rest /\ rsize_ r < 2 ^ 64 /\
    zlen p + zlen l = zlen pre + zlen chars + 1.
Proof.
  intros l Hr Hmax H32. unfold string_header, u32_max in *.
  pose proof (string_bytes_length (rbyte_order_ r) p chars) as Hl. fold l in Hl.
  change 4 with (2 ^ 2) at 1.
  rewrite (locate_spec r p (l ++ rest) 2) by (done || lia).
  change (2 ^ 2) with 4.
  destruct Hr as [He Hi Hb Hsz Ho Hor H64 Hs]. rewrite length_app in Hsz.
  set (pad := pad_bytes p 4) in *.
  destruct (Z.ltb_spec (rsize_ r) (zlen p + zlen pad + 4)); [lia|]. simpl.
  set (size := encode_uint (rbyte_order_ r) 4 (zlen chars + 1)).
  assert (p ++ l ++ rest = (p ++ pad) ++ size ++ (chars ++ [0] ++ rest)) as Heq.
  { unfold l, string_bytes, integral_bytes. by rewrite <- !app_assoc. }
  rewrite Heq in Hb. unfold load_integral. rewrite Hb. simpl. unfold size.
  rewrite load_loop_encode by (rewrite ?length_app; lia). simpl.
  rewrite Z.mod_small by lia.
  destruct (Z.eqb_spec (zlen chars + 1) 0); [lia|]. simpl.
  rewrite sub64_id by lia. replace (zlen chars + 1 - 1) with (zlen chars) by lia.
  destruct (Z.ltb_spec max_characters (zlen chars)); [lia|]. simpl.
  exists ((p ++ pad) ++ size).
  assert (zlen ((p ++ pad) ++ size) = zlen p + zlen pad + 4) as ->
    by (unfold size; rewrite !length_app, encode_uint_length; lia).
  split_and!; [done|by rewrite <- !app_assoc|lia..].
Qed.

Lemma read_string_view_spec r p chars max_characters rest :
  let l := string_bytes (rbyte_order_ r) p chars in
  reader_at r p (l ++ rest) -> zlen chars <= max_characters ->
  zlen chars < u32_max ->
  read_string_view r max_characters = Done (chars, zlen chars, consume r p l).
Proof.
  intros l Hr Hmax H32.
  destruct (string_header_spec r p chars max_characters rest Hr Hmax H32)
    as (pre & Hh & Hb & Hsz & H64 & Hl). fold l in Hl.
  unfold read_string_view. rewrite Hh, Hb. simpl.
  destruct (Z.ltb_spec (rsize_ r) (zlen pre)); [lia|]. simpl. rewrite sub64_id by lia.
  destruct (Z.ltb_spec (rsize_ r - zlen pre) (zlen chars + 1)); [lia|]. simpl.
  rewrite app_assoc, mload_middle by (rewrite length_app; lia). simpl.
  rewrite <- app_assoc, mslice_app_exact by lia. simpl.
  rewrite add64_id by lia. unfold consume. by rewrite Hl, Z.add_assoc.
Qed.

(** [read_string] leaves the characters and their terminator at the start of the caller's
    array, and the rest of the array as it was. *)
Lemma read_string_spec r p chars max_characters rest d :
  let l := string_bytes (rbyte_order_ r) p chars in
  reader_at r p (l ++ rest) -> zlen chars <= max_characters ->
  zlen chars < u32_max -> zlen chars < zlen d ->
  read_string r (Some d) (zlen d) max_characters =
  Done (Some (chars ++ [0] ++ drop (S (length chars)) d), zlen chars, consume r p l).
Proof.
  intros l Hr Hmax H32 Hd.
  destruct (string_header_spec r p chars max_characters rest Hr Hmax H32)
    as (pre & Hh & Hb & Hsz & H64 & Hl). fold l in Hl.
  unfold read_string. rewrite Hh, Hb. simpl.
  destruct (Z.ltb_spec (zlen d) (zlen chars + 1)); [lia|]. simpl.
  destruct (Z.ltb_spec (rsize_ r) (zlen pre)); [lia|]. simpl. rewrite sub64_id by lia.
  destruct (Z.ltb_spec (rsize_ r - zlen pre) (zlen chars + 1)); [lia|]. simpl.
  rewrite app_assoc, mload_middle by (rewrite length_app; lia). simpl.
  assert ((pre ++ chars) ++ 0 :: rest = pre ++ (chars ++ [0]) ++ rest) as ->
    by (by rewrite <- !app_assoc).
  rewrite mslice_app_exact by (rewrite ?length_app; simpl; lia). simpl.
  rewrite mcopy_start by (rewrite length_app; simpl; lia). simpl.
  rewrite add64_id, length_app by lia. unfold consume. rewrite Hl, Z.add_assoc.
  do 3 f_equal. rewrite <- app_assoc. simpl. do 4 f_equal. lia.
Qed.

(** Rewrite a [read_integral] of width [2 ^ k] that reads the value [x]. *)
Ltac read_as k x tac :=
  let E := fresh in
  match goal with
  | H : reader_at ?r ?p (_ ++ ?rest) |- _ =>
      pose proof (read_integral_spec r p rest k x H) as E;
      let n := eval cbv in (2 ^ k) in change (2 ^ k) with n in E;
      rewrite E by tac; clear E
  end.

Lemma read_value_spec r p v rest :
  let l := value_bytes (rbyte_order_ r) p v in
  reader_at r p (l ++ rest) -> value_ok v ->
  read_value r (type_of v) = Done (v, consume r p l).
Proof.
  intros l Hr Hv. subst l. destruct v; simpl in *;
    unfold as_value, read_bool, read_int16, read_int32, read_int64, read_float32,
      read_float64, read_uint8, cdr_read_uint16, cdr_read_uint32, cdr_read_uint64.
  - read_as 0 (if b then 1 else 0) ltac:(done || (destruct b; simpl; lia)).
    by destruct b.
  - read_as 0 v ltac:(done || lia).
    simpl. by rewrite u8_id.
  - read_as 1 (u16 v) ltac:(done || apply Z.mod_pos_bound; lia).
    simpl. rewrite u16_id by (apply Z.mod_pos_bound; lia).
    unfold u16. by rewrite signed_roundtrip by lia.
  - read_as 1 v ltac:(done || lia).
    simpl. by rewrite u16_id.
  - read_as 2 (u32 v) ltac:(done || apply u32_range).
    simpl. rewrite u32_id by apply u32_range.
    unfold u32. by rewrite signed_roundtrip by lia.
  - read_as 2 v ltac:(done || lia).
    simpl. by rewrite u32_id.
  - read_as 3 (u64 v) ltac:(done || apply u64_range).
    simpl. unfold u64. by rewrite signed_roundtrip by lia.
  - by read_as 3 v ltac:(done || lia).
  - read_as 2 bits ltac:(done || lia).
    simpl. by rewrite u32_id.
  - by read_as 3 bits ltac:(done || lia).
  - rewrite Nat2Z.id. by rewrite (read_bytes_spec r p data rest).
  - by rewrite (read_string_view_spec r p chars max_characters rest)
      by (done || apply Hv).
Qed.

(** ** Whole payloads *)

Fixpoint write_all (w : CdrWriter) (vs : list cdr_value) : outcome CdrWriter CdrWriter :=
  match vs with
  | [] => Done w
  | v :: vs' => w' ← write_value w v; write_all w' vs'
  end.

Fixpoint read_all (r : CdrReader) (ts : list cdr_type)
    : outcome CdrReader (list cdr_value * CdrReader) :=
  match ts with
  | [] => Done ([], r)
  | t :: ts' =>
      '(v, r) ← read_value r t;
      '(vs, r) ← read_all r ts';
      Done (v :: vs, r)
  end.

Definition serialize (buffer : list Z) (order : ByteOrder) (vs : list cdr_value)
    : outcome CdrWriter CdrWriter :=
  w ← w_begin (CdrWriter_new (Some buffer) (zlen buffer)) order;
  write_all w vs.

Definition deserialize (payload : list Z) (ts : list cdr_type)
    : outcome CdrReader (list cdr_value * CdrReader) :=
  r ← r_begin (CdrReader_new (Some payload) (zlen payload));
  read_all r ts.

(** The bytes written so far: [size()] bytes at [data()]. *)
Definition written (w : CdrWriter) : list Z :=
  take (Z.to_nat (offset_ w)) (default [] (buffer_ w)).

Fixpoint all_bytes (order : ByteOrder) (p : list Z) (vs : list cdr_value) : list Z :=
  match vs with
  | [] => []
  | v :: vs' =>
      let l := value_bytes order p v in l ++ all_bytes order (p ++ l) vs'
  end.

Definition header_bytes (order : ByteOrder) : list Z :=
  [0; if is_little order then 1 else 0; 0; 0].

Definition payload_bytes (order : ByteOrder) (vs : list cdr_value) : list Z :=
  header_bytes order ++ all_bytes order (header_bytes order) vs.

Lemma write_all_fits vs : forall w p r,
  writer_at w p r -> Forall value_ok vs ->
  zlen p + zlen (all_bytes (byte_order_ w) p vs) <= capacity_ w ->
  write_all w vs = Done (emit w p r (all_bytes (byte_order_ w) p vs)).
Proof.
  induction vs as [|v vs IH]; intros w p r Hw Hvs Hfit; simpl in *.
  - unfold emit, w_set_buffer. rewrite app_nil_r, Z.add_0_r.
    destruct Hw, w; simpl in *; by subst.
  - apply Forall_cons in Hvs as [Hv Hvs].
    set (l := value_bytes (byte_order_ w) p v) in *. rewrite length_app in Hfit.
    rewrite (write_value_spec w p r v) by done. fold l.
    destruct (Z.ltb_spec (capacity_ w) (zlen p + zlen l)); [lia|]. simpl.
    rewrite (IH (emit w p r l) (p ++ l) (drop (length l) r)).
    + by rewrite emit_emit.
    + apply emit_at; [done|lia].
    + done.
    + simpl. rewrite length_app. lia.
Qed.

Lemma write_all_overflow vs : forall w p r,
  writer_at w p r -> Forall value_ok vs ->
  capacity_ w < zlen p + zlen (all_bytes (byte_order_ w) p vs) ->
  exists w' b, write_all w vs = Stop w' /\ error_ w' = overflow /\
    buffer_ w' = Some b /\ length b = (length p + length r)%nat.
Proof.
  induction vs as [|v vs IH]; intros w p r Hw Hvs Hfit; simpl in *.
  - destruct Hw; lia.
  - apply Forall_cons in Hvs as [Hv Hvs].
    set (l := value_bytes (byte_order_ w) p v) in *. rewrite length_app in Hfit.
    rewrite (write_value_spec w p r v) by done. fold l.
    destruct (Z.ltb_spec (capacity_ w) (zlen p + zlen l)).
    + destruct Hw. eexists _, (p ++ r). split_and!; [done|simpl..].
      * by rewrite wa_error0.
      * done.
      * by rewrite length_app.
    + simpl. edestruct (IH (emit w p r l)) as (w' & b & H1 & H2 & H3 & H4);
        [by apply emit_at; [|lia]|done|simpl; rewrite length_app; lia|].
      exists w', b. split_and!; try done. rewrite H4, length_app, length_drop.
      destruct Hw. lia.
Qed.

Lemma read_all_spec vs : forall r p rest,
  reader_at r p (all_bytes (rbyte_order_ r) p vs ++ rest) -> Forall value_ok vs ->
  read_all r (type_of <$> vs) =
  Done (vs, consume r p (all_bytes (rbyte_order_ r) p vs)).
Proof.
  induction vs as [|v vs IH]; intros r p rest Hr Hvs; csimpl in *.
  - unfold consume, r_set_offset. rewrite Z.add_0_r.
    destruct Hr, r; simpl in *; by subst.
  - apply Forall_cons in Hvs as [Hv Hvs].
    set (l := value_bytes (rbyte_order_ r) p v) in *.
    rewrite <- app_assoc in Hr.
    rewrite (read_value_spec r p v _ Hr) by done. simpl. fold l.
    apply consume_at in Hr. rewrite (IH (consume r p l) (p ++ l) rest) by done.
    simpl. unfold consume. simpl. do 3 f_equal. rewrite !length_app. lia.
Qed.

Lemma w_begin_spec buffer order :
  supported_byte_order order = true -> zlen buffer < 2 ^ 64 -> 4 <= zlen buffer ->
  exists w, w_begin (CdrWriter_new (Some buffer) (zlen buffer)) order = Done w /\
    writer_at w (header_bytes order) (drop 4 buffer) /\
    byte_order_ w = order /\ capacity_ w = zlen buffer.
Proof.
  intros Hord H64 Hlen. unfold w_begin. simpl. rewrite Hord. simpl.
  unfold encapsulation_size. destruct (Z.ltb_spec (zlen buffer) 4); [lia|]. simpl.
  do 4 mwrite. rewrite !drop_drop. eexists. split; [done|]. split; [|done].
  split; simpl; rewrite ?length_drop; try done; lia.
Qed.

Lemma r_begin_spec order rest :
  supported_byte_order order = true -> zlen rest + 4 < 2 ^ 64 ->
  exists r, r_begin (CdrReader_new (Some (header_bytes order ++ rest))
                       (zlen (header_bytes order ++ rest))) = Done r /\
    reader_at r (header_bytes order) rest /\ rbyte_order_ r = order.
Proof.
  intros Hord H64. unfold r_begin, encapsulation_size. simpl.
  destruct (Z.ltb_spec (Z.of_nat (S (S (S (S (length rest)))))) 4); [lia|]. simpl.
  destruct order; [..|done]; simpl; (eexists; split; [done|]; split; [|done]);
    split; simpl; try done; lia.
Qed.

(** Serialisation emits the reference encoding when it fits the buffer, and
    otherwise ends with [overflow]. *)
Lemma serialize_cases buffer order vs :
  supported_byte_order order = true -> zlen buffer < 2 ^ 64 ->
  Forall value_ok vs ->
  if zlen (payload_bytes order vs) <=? zlen buffer then
    exists w, serialize buffer order vs = Done w /\
      written w = payload_bytes order vs /\
      buffer_ w = Some (payload_bytes order vs ++
                        drop (length (payload_bytes order vs)) buffer) /\
      offset_ w = zlen (payload_bytes order vs)
  else exists w b, serialize buffer order vs = Stop w /\ error_ w = overflow /\
    buffer_ w = Some b /\ length b = length buffer.
Proof.
  intros Hord H64 Hvs. unfold serialize, payload_bytes.
  rewrite length_app. change (length (header_bytes order)) with 4%nat.
  destruct (decide (4 <= zlen buffer)) as [H4|H4]; cycle 1.
  { destruct (Z.leb_spec
      (Z.of_nat (4 + length (all_bytes order (header_bytes order) vs)))
      (zlen buffer)); [lia|].
    unfold w_begin, encapsulation_size. simpl. rewrite Hord. simpl.
    destruct (Z.ltb_spec (zlen buffer) 4); [|lia]. by eexists _, buffer. }
  destruct (w_begin_spec buffer order Hord H64 H4) as (w0 & Hb & Hat & <- & Hcap).
  rewrite Hb. cbn [mbind outcome_bind].
  set (p := header_bytes (byte_order_ w0)) in *.
  set (l := all_bytes (byte_order_ w0) p vs).
  assert (length p = 4%nat) as Hp by done.
  destruct (Z.leb_spec (Z.of_nat (4 + length l)) (zlen buffer)) as [Hfit|Hfit].
  - rewrite (write_all_fits vs w0 p (drop 4 buffer)) by (done || (fold l; lia)).
    fold l. eexists. split; [done|].
    unfold written, emit, w_set_buffer. cbn [offset_ buffer_ from_option id]. split_and!.
    + rewrite take_app_length'; [done|]. rewrite length_app. lia.
    + by rewrite drop_drop.
    + lia.
  - destruct (write_all_overflow vs w0 p (drop 4 buffer)) as (w & b & H1 & H2 & H3 & Hb');
      [done..|fold l; lia|]. exists w, b. split_and!; try done. rewrite Hb', length_drop. lia.
Qed.

(** For values that fit their C++ types, a writer over a caller's buffer
    produces exactly the reference XCDR1 encoding (encapsulation header,
    natural alignment relative to the header's end, zeroed padding, chosen
    byte order) and touches no byte behind it when the encoding fits the
    capacity; when it does not fit, the writer reports [overflow]. *)
Theorem cdr_serialize_exact buffer order vs :
  supported_byte_order order = true -> zlen buffer < 2 ^ 64 ->
  Forall value_ok vs ->
  if zlen (payload_bytes order vs) <=? zlen buffer then
    exists w, serialize buffer order vs = Done w /\
      written w = payload_bytes order vs /\
      buffer_ w = Some (payload_bytes order vs ++
                        drop (length (payload_bytes order vs)) buffer)
  else exists w, serialize buffer order vs = Stop w /\ error_ w = overflow.
Proof.
  intros Hord H64 Hvs. pose proof (serialize_cases buffer order vs Hord H64 Hvs) as Hc.
  destruct (_ <=? _); destruct Hc as (w & Hc); [|destruct Hc as (b & Hc)]; exists w; tauto.
Qed.

Definition sample_values : list cdr_value :=
  [VBool true; VUint32 305419896; VString [104; 105] 8; VInt64 (-2);
   VBytes [1; 2; 3]].

Lemma sample_values_ok : Forall value_ok sample_values.
Proof. repeat constructor; simpl; unfold u32_max; lia. Qed.

Lemma cdr_serialize_exact_witness :
  exists w, serialize (replicate 64 255) big_endian sample_values = Done w /\
    written w =
      [0; 0; 0; 0; 1; 0; 0; 0; 18; 52; 86; 120; 0; 0; 0; 3; 104; 105; 0;
       0; 255; 255; 255; 255; 255; 255; 255; 254; 1; 2; 3].
Proof.
  destruct (cdr_serialize_exact (replicate 64 255) big_endian sample_values)
    as (w & Hs & Hw & _); [done|done|apply sample_values_ok|].
  exists w. split; [exact Hs|]. rewrite Hw. vm_compute. reflexivity.
Defined.

(** A reader at the start of a payload, and at its end. *)
Lemma payload_reader order vs :
  supported_byte_order order = true -> zlen (payload_bytes order vs) < 2 ^ 64 ->
  let p := header_bytes order in
  exists r, r_begin (CdrReader_new (Some (payload_bytes order vs))
                       (zlen (payload_bytes order vs))) = Done r /\
    reader_at r p (all_bytes (rbyte_order_ r) p vs ++ []) /\ rbyte_order_ r = order /\
    rsize_ r = zlen p + zlen (all_bytes (rbyte_order_ r) p vs).
Proof.
  intros Hord Hfit p. unfold payload_bytes in *.
  rewrite length_app in Hfit. change (length (header_bytes order)) with 4%nat in Hfit.
  destruct (r_begin_spec order (all_bytes order p vs) Hord) as (r & Hrb & Hr & Hord');
    [fold p in Hfit; lia|].
  exists r. split; [done|]. rewrite Hord', app_nil_r. split_and!; [done..|].
  apply (ra_size _ _ _ Hr).
Qed.

Lemma all_consumed r p l :
  rsize_ r = zlen p + zlen l -> remaining (consume r p l) = 0.
Proof.
  intros Hsz. unfold remaining, consume, r_set_offset. cbn [roffset_ rsize_].
  rewrite Hsz, Z.leb_refl. unfold sub64. by rewrite Z.sub_diag.
Qed.

Lemma deserialize_payload order vs :
  supported_byte_order order = true -> zlen (payload_bytes order vs) < 2 ^ 64 ->
  Forall value_ok vs ->
  exists r, deserialize (payload_bytes order vs) (type_of <$> vs) = Done (vs, r) /\
    remaining r = 0.
Proof.
  intros Hord Hfit Hvs. destruct (payload_reader order vs Hord Hfit)
    as (r & Hrb & Hr & Hord' & Hsz). unfold deserialize. rewrite Hrb. cbn [mbind outcome_bind].
  rewrite (read_all_spec vs r _ [] Hr Hvs). eexists. split; [done|].
  by apply all_consumed.
Qed.

(** ** What a program asks a reader for *)

(** A typed read, or a string copied into an array of the caller. *)
Inductive cdr_request : Set :=
  | Typed (t : cdr_type)
  | Copied (destination : list Z) (max_characters : Z).

Inductive cdr_answer : Set :=
  | Value (v : cdr_value)
  | Text (destination : list Z) (length : Z).

Definition read_request (r : CdrReader) (q : cdr_request)
    : outcome CdrReader (cdr_answer * CdrReader) :=
  match q with
  | Typed t => '(v, r) ← read_value r t; Done (Value v, r)
  | Copied d m =>
      '(d, length, r) ← read_string r (Some d) (zlen d) m;
      Done (Text (default [] d) length, r)
  end.

Fixpoint read_requests (r : CdrReader) (qs : list cdr_request)
    : outcome CdrReader (list cdr_answer * CdrReader) :=
  match qs with
  | [] => Done ([], r)
  | q :: qs' =>
      '(a, r) ← read_request r q;
      '(rest, r) ← read_requests r qs';
      Done (a :: rest, r)
  end.

Definition deserialize_as (payload : list Z) (qs : list cdr_request)
    : outcome CdrReader (list cdr_answer * CdrReader) :=
  r ← r_begin (CdrReader_new (Some payload) (zlen payload));
  read_requests r qs.

(** The requests for a value: its type, or for a string an array with room for its
    characters and the terminator. *)
Definition asks_for (v : cdr_value) (q : cdr_request) : Prop :=
  match q with
  | Typed t => t = type_of v
  | Copied d m => exists chars, v = VString chars m /\ zlen chars < zlen d
  end.

(** What the answer must be. *)
Definition answer (v : cdr_value) (q : cdr_request) : cdr_answer :=
  match q, v with
  | Copied d _, VString chars _ =>
      Text (chars ++ [0] ++ drop (S (length chars)) d) (zlen chars)
  | _, _ => Value v
  end.

Lemma read_request_spec r p v q rest :
  let l := value_bytes (rbyte_order_ r) p v in
  reader_at r p (l ++ rest) -> value_ok v -> asks_for v q ->
  read_request r q = Done (answer v q, consume r p l).
Proof.
  intros l Hr Hv Hq. destruct q as [t|d m]; simpl in Hq |- *.
  - subst t. by rewrite (read_value_spec r p v rest).
  - destruct Hq as (chars & -> & Hd). destruct Hv as [Hm H32].
    by rewrite (read_string_spec r p chars m rest d).
Qed.

Lemma read_requests_spec vs qs : Forall2 asks_for vs qs -> forall r p rest,
  reader_at r p (all_bytes (rbyte_order_ r) p vs ++ rest) -> Forall value_ok vs ->
  read_requests r qs =
  Done (zip_with answer vs qs, consume r p (all_bytes (rbyte_order_ r) p vs)).
Proof.
  induction 1 as [|v q vs qs Hq _ IH]; intros r p rest Hr Hvs; csimpl in *.
  - unfold consume, r_set_offset. rewrite Z.add_0_r.
    destruct Hr, r; simpl in *; by subst.
  - apply Forall_cons in Hvs as [Hv Hvs].
    set (l := value_bytes (rbyte_order_ r) p v) in *.
    rewrite <- app_assoc in Hr.
    rewrite (read_request_spec r p v q _ Hr) by done. simpl. fold l.
    apply consume_at in Hr. rewrite (IH (consume r p l) (p ++ l) rest) by done.
    simpl. unfold consume. simpl. do 3 f_equal. rewrite !length_app. lia.
Qed.

Lemma deserialize_as_payload order vs qs :
  supported_byte_order order = true -> zlen (payload_bytes order vs) < 2 ^ 64 ->
  Forall value_ok vs -> Forall2 asks_for vs qs ->
  exists r, deserialize_as (payload_bytes order vs) qs = Done (zip_with answer vs qs, r) /\
    remaining r = 0.
Proof.
  intros Hord Hfit Hvs Hqs. destruct (payload_reader order vs Hord Hfit)
    as (r & Hrb & Hr & Hord' & Hsz). unfold deserialize_as. rewrite Hrb. cbn [mbind outcome_bind].
  rewrite (read_requests_spec vs qs Hqs r _ [] Hr Hvs). eexists. split; [done|].
  by apply all_consumed.
Qed.

(** C21: whatever list of typed values a writer serialised successfully, in either byte
    order, a reader given the written bytes and asked for them returns exactly those values
    and has consumed the whole payload.  A string may be asked for as a view or as a copy
    into the caller's array: then the array holds the characters, the terminating zero and
    behind it what it held before, and the reported length is that of the string. *)
Theorem cdr_roundtrip buffer order vs qs w :
  supported_byte_order order = true -> zlen buffer < 2 ^ 64 ->
  Forall value_ok vs -> Forall2 asks_for vs qs -> serialize buffer order vs = Done w ->
  exists r, deserialize_as (written w) qs = Done (zip_with answer vs qs, r) /\
            remaining r = 0.
Proof.
  intros Hord H64 Hvs Hqs Hser.
  pose proof (serialize_cases buffer order vs Hord H64 Hvs) as Hcases.
  destruct (Z.leb_spec (zlen (payload_bytes order vs)) (zlen buffer)) as [Hfit|Hfit];
    destruct Hcases as (w' & Hcases); [|destruct Hcases as (b & Hcases)];
    rewrite Hser in Hcases; destruct Hcases as (Hs & Hw & _); [|done].
  injection Hs as <-. rewrite Hw. apply deserialize_as_payload; [done|lia|done..].
Qed.

Definition sample_requests : list cdr_request :=
  [Typed TBool; Typed TUint32; Copied (replicate 5 255) 8; Typed TInt64; Typed (TBytes 3)].

Lemma cdr_roundtrip_witness :
  exists w r,
    serialize (replicate 64 0) little_endian sample_values = Done w /\
    deserialize_as (written w) sample_requests =
    Done ([Value (VBool true); Value (VUint32 305419896); Text [104; 105; 0; 255; 255] 2;
           Value (VInt64 (-2)); Value (VBytes [1; 2; 3])], r).
Proof.
  destruct (serialize (replicate 64 0) little_endian sample_values) as [| |w] eqn:Hs;
    [vm_compute in Hs; discriminate..|].
  destruct (cdr_roundtrip (replicate 64 0) little_endian sample_values sample_requests w)
    as (r & Hr & _); [done|done|apply sample_values_ok| |exact Hs|].
  - repeat constructor. exists [104; 105]. split; [reflexivity|simpl; lia].
  - exists w, r. split; [reflexivity|]. rewrite Hr. reflexivity.
Defined.

(** ** Sticky errors *)

Lemma w_fail_sticky w e : error_ w <> CdrError_none -> w_fail_state w e = w.
Proof.
  intros He. unfold w_fail_state. rewrite decide_False by done. by destruct w.
Qed.

Lemma r_fail_sticky r e : rerror_ r <> CdrError_none -> r_fail_state r e = r.
Proof.
  intros He. unfold r_fail_state. rewrite decide_False by done. by destruct r.
Qed.

Lemma reserve_sticky w a n : error_ w <> CdrError_none -> reserve w a n = Stop w.
Proof. intros He. unfold reserve. by rewrite bool_decide_true. Qed.

Lemma locate_sticky r a n : rerror_ r <> CdrError_none -> locate r a n = Stop r.
Proof. intros He. unfold locate. by rewrite bool_decide_true. Qed.

(** Once a CDR writer or reader has recorded an error, every further typed
    write or read fails and leaves the object (cursor, buffer and the first
    error) exactly as it was. *)
Theorem sticky_errors w r v t :
  (error_ w <> CdrError_none -> write_value w v = Stop w) /\
  (rerror_ r <> CdrError_none -> read_value r t = Stop r).
Proof.
  split; intros He.
  - destruct v; simpl; try (unfold write_bool, write_uint8, write_int16,
      cdr_write_uint16, write_int32, cdr_write_uint32, write_int64,
      cdr_write_uint64, write_float32, write_float64, cdr_write_uint32,
      cdr_write_uint64, write_integral; by rewrite reserve_sticky).
    + unfold write_bytes. simpl. by rewrite reserve_sticky.
    + unfold write_string, w_fail_if. rewrite !w_fail_sticky by done.
      simpl. destruct (max_characters <? zlen chars); simpl; [done|].
      destruct (u32_max <=? zlen chars); simpl; [done|].
      destruct (size_max - 4 <? _); simpl; [done|]. by rewrite reserve_sticky.
  - destruct t; simpl; try (unfold as_value, read_bool, read_int16, read_int32,
      read_int64, read_float32, read_float64, read_uint8, cdr_read_uint16,
      cdr_read_uint32, cdr_read_uint64, read_integral; by rewrite locate_sticky).
    + unfold as_value, read_bytes. simpl. by rewrite locate_sticky.
    + unfold read_string_view, string_header. by rewrite locate_sticky.
Qed.

(** ** Memory safety on untrusted input *)

Record reader_wf (r : CdrReader) : Prop := {
  rwf_size : 0 <= rsize_ r < 2 ^ 64;
  rwf_buffer : forall b, rbuffer_ r = Some b -> rsize_ r <= zlen b /\ bytes_ok b;
  rwf_ready : rinitialized_ r = true ->
    is_Some (rbuffer_ r) /\ 0 <= rorigin_ r <= roffset_ r /\
    roffset_ r <= rsize_ r;
}.

(** A read that fails changes nothing but the error flag; one that succeeds
    moves the cursor forward inside the input. *)
Definition read_post {A} (r : CdrReader) (m : outcome CdrReader (A * CdrReader))
    : Prop :=
  match m with
  | Fault => False
  | Stop r' => exists e, r' = r_fail_state r e
  | Done (_, r') => exists o, r' = r_set_offset r o /\ roffset_ r <= o <= rsize_ r
  end.

Lemma locate_cases r k width :
  reader_wf r -> 0 <= k < 64 -> 0 <= width ->
  (exists e, locate r (2 ^ k) width = Stop (r_fail_state r e)) \/
  (exists start b, locate r (2 ^ k) width = Done (start, start + width) /\
     rbuffer_ r = Some b /\ roffset_ r <= start /\ 0 <= start /\
     start + width <= rsize_ r /\ rsize_ r <= zlen b /\ bytes_ok b).
Proof.
  intros [H64 Hbuf Hready] Hk Hw. unfold locate.
  case_bool_decide as He; simpl.
  { left. exists underflow. by rewrite r_fail_sticky. }
  destruct (rinitialized_ r); simpl; [|by eauto].
  destruct Hready as [[b Hb] Ho]; [done|].
  rewrite aligned_position_spec by lia. simpl.
  pose proof (padding_range (roffset_ r - rorigin_ r) (2 ^ k)) as Hp.
  assert (0 < 2 ^ k) by (apply Z.pow_pos_nonneg; lia).
  set (start := roffset_ r + padding (roffset_ r - rorigin_ r) (2 ^ k)) in *.
  unfold size_max. destruct (Z.ltb_spec (2 ^ 64 - 1) start); [by eauto|].
  destruct (Z.ltb_spec (rsize_ r) start); simpl; [by eauto|].
  rewrite sub64_id by lia.
  destruct (Z.ltb_spec (rsize_ r - start) width); simpl; [by eauto|].
  right. exists start, b. rewrite add64_id by lia.
  destruct (Hbuf b Hb). split_and!; try done; lia.
Qed.

Lemma read_integral_post r k :
  reader_wf r -> 0 <= k <= 3 -> read_post r (read_integral r (2 ^ k) (2 ^ k)).
Proof.
  intros Hr Hk. assert (0 < 2 ^ k) by (apply Z.pow_pos_nonneg; lia).
  unfold read_integral.
  destruct (locate_cases r k (2 ^ k)) as [[e ->]|(st & b & -> & Hb & ?&?&?&?&?)];
    [done|lia..|by simpl; eauto|].
  simpl. unfold load_integral. rewrite Hb. simpl.
  destruct (load_loop b st (2 ^ k) (rbyte_order_ r)) eqn:Hload; simpl.
  - by apply (load_loop_safe (E:=CdrReader) b st (2 ^ k) (rbyte_order_ r)) in Hload;
      [|lia..].
  - by apply load_loop_no_stop in Hload.
  - exists (st + 2 ^ k). split; [done|lia].
Qed.

Lemma read_post_map {A B} (f : A -> B) r m :
  read_post r m -> read_post r ('(a, r') ← m; Done (f a, r')).
Proof. by destruct m as [| |[a r']]. Qed.

Lemma read_bool_post r : reader_wf r -> read_post r (read_bool r).
Proof.
  intros Hr. pose proof (read_integral_post r 0 Hr ltac:(lia)) as Hpost.
  change (2 ^ 0) with 1 in Hpost. unfold read_bool, read_uint8.
  destruct (read_integral r 1 1) as [| |[v r']]; simpl in *; [done..|].
  destruct Hpost as (o & -> & Ho).
  destruct (1 <? u8 v); simpl; [exists invalid_data|by eauto].
  by destruct r.
Qed.

Lemma read_bytes_post r d n :
  reader_wf r -> 0 <= n <= zlen d -> read_post r (read_bytes r (Some d) n).
Proof.
  intros Hr Hn. unfold read_bytes. simpl.
  pose proof (locate_cases r 0 n Hr) as Hl. change (2 ^ 0) with 1 in Hl.
  destruct Hl as [[e ->]|(st & b & -> & Hb & ?&?&?&?&?)]; [lia..|by simpl; eauto|].
  simpl. destruct (n =? 0); simpl; [by exists (st + n); split; [|lia]|].
  rewrite Hb. simpl.
  destruct (proj2 (mslice_is_Some b st n)) as [src Hsrc]; [lia|].
  rewrite Hsrc. simpl. apply mslice_length in Hsrc.
  destruct (proj2 (mcopy_is_Some d 0 src)) as [d' ->]; [lia|].
  simpl. exists (st + n). split; [done|lia].
Qed.

(** The length field of a string: a value between 1 and [2 ^ 32 - 1]. *)
Lemma string_header_cases r max_characters :
  reader_wf r ->
  (exists e, string_header r max_characters = Stop (r_fail_state r e)) \/
  (exists b start n, string_header r max_characters = Done (start, n, n - 1) /\
     rbuffer_ r = Some b /\ roffset_ r <= start /\ 0 <= start <= rsize_ r /\
     rsize_ r <= zlen b /\ 1 <= n < 2 ^ 32 /\ n - 1 <= max_characters).
Proof.
  intros Hr. unfold string_header.
  pose proof (locate_cases r 2 4 Hr) as Hl. change (2 ^ 2) with 4 in Hl.
  destruct Hl as [[e ->]|(st & b & -> & Hb & ?&?&?&?&Hok)];
    [lia..|by simpl; eauto|].
  simpl. unfold load_integral. rewrite Hb. simpl.
  destruct (load_loop b st 4 (rbyte_order_ r)) as [| |n] eqn:Hload; simpl.
  - by apply (load_loop_safe (E:=CdrReader)) in Hload; [|lia..].
  - by apply load_loop_no_stop in Hload.
  - apply load_loop_range in Hload; [|done|lia].
    destruct (Z.eqb_spec n 0); simpl; [by eauto|].
    rewrite sub64_id by lia.
    destruct (Z.ltb_spec max_characters (n - 1)); simpl; [by eauto|].
    right. exists b, (st + 4), n. split_and!; (done || lia).
Qed.

Lemma read_string_post r d capacity max_characters :
  reader_wf r -> 0 <= capacity <= zlen d ->
  read_post r (read_string r (Some d) capacity max_characters).
Proof.
  intros Hr Hd. unfold read_string. simpl.
  destruct (string_header_cases r max_characters Hr)
    as [[e ->]|(b & st & n & -> & Hb & ?&?&?&?&?)]; [by simpl; eauto|].
  pose proof (rwf_size r Hr). simpl.
  destruct (Z.ltb_spec capacity n); simpl; [by eauto|].
  destruct (Z.ltb_spec (rsize_ r) st); simpl; [by eauto|].
  rewrite sub64_id by lia.
  destruct (Z.ltb_spec (rsize_ r - st) n); simpl; [by eauto|].
  rewrite Hb. simpl.
  destruct (proj2 (mload_is_Some b (st + n - 1))) as [t ->]; [lia|]. simpl.
  destruct (t =? 0); simpl; [|by eauto].
  destruct (proj2 (mslice_is_Some b st n)) as [src Hsrc]; [lia|].
  rewrite Hsrc. simpl. apply mslice_length in Hsrc.
  destruct (proj2 (mcopy_is_Some d 0 src)) as [d' ->]; [lia|].
  simpl. exists (st + n). rewrite add64_id by lia. split; [done|lia].
Qed.

Lemma read_string_view_post r max_characters :
  reader_wf r -> read_post r (read_string_view r max_characters).
Proof.
  intros Hr. unfold read_string_view.
  destruct (string_header_cases r max_characters Hr)
    as [[e ->]|(b & st & n & -> & Hb & ?&?&?&?&?)]; [by simpl; eauto|].
  pose proof (rwf_size r Hr). simpl.
  destruct (Z.ltb_spec (rsize_ r) st); simpl; [by eauto|].
  rewrite sub64_id by lia.
  destruct (Z.ltb_spec (rsize_ r - st) n); simpl; [by eauto|].
  rewrite Hb. simpl.
  destruct (proj2 (mload_is_Some b (st + (n - 1)))) as [t ->]; [lia|]. simpl.
  destruct (t =? 0); simpl; [|by eauto].
  destruct (proj2 (mslice_is_Some b st (n - 1))) as [src ->]; [lia|]. simpl.
  exists (st + n). rewrite add64_id by lia. split; [done|lia].
Qed.

Definition type_ok (t : cdr_type) : Prop :=
  match t with TBytes n => 0 <= n | _ => True end.

Lemma read_value_post r t :
  reader_wf r -> type_ok t -> read_post r (read_value r t).
Proof.
  intros Hr Ht. pose proof (read_integral_post r) as Hint.
  destruct t; simpl; unfold as_value, read_int16, read_int32, read_int64,
      read_float32, read_float64, read_uint8, cdr_read_uint16, cdr_read_uint32,
      cdr_read_uint64; repeat apply read_post_map;
    first [ by apply read_bool_post
          | by apply (Hint 0); [|lia] | by apply (Hint 1); [|lia]
          | by apply (Hint 2); [|lia] | by apply (Hint 3); [|lia] | idtac ].
  - apply read_bytes_post; [done|]. simpl in Ht. rewrite length_replicate. lia.
  - pose proof (read_string_view_post r max_characters Hr).
    by destruct (read_string_view r max_characters) as [| |[[? ?] ?]].
Qed.

Lemma read_post_wf {A} r (m : outcome CdrReader (A * CdrReader)) a r' :
  reader_wf r -> read_post r m -> m = Done (a, r') -> reader_wf r'.
Proof.
  intros [] Hpost ->. destruct Hpost as (o & -> & Ho).
  split; simpl; [done..|]. intros Hi. destruct (rwf_ready0 Hi) as (?&?&?).
  split_and!; (done || lia).
Qed.

Lemma r_begin_wf payload r :
  bytes_ok payload -> zlen payload < 2 ^ 64 ->
  r_begin (CdrReader_new (Some payload) (zlen payload)) = Done r -> reader_wf r.
Proof.
  intros Hok H64 Hr. unfold r_begin, r_fail_if, encapsulation_size in Hr.
  simpl in Hr. destruct (Z.ltb_spec (zlen payload) 4); [done|]. inv_done.
  split; simpl; [lia|naive_solver lia|]. intros _. split_and!; [done|lia..].
Qed.

Lemma r_begin_safe payload :
  safe (r_begin (CdrReader_new (Some payload) (zlen payload))).
Proof.
  unfold r_begin, r_fail_if, encapsulation_size. simpl. repeat safe_step.
  all: try (apply safe_access, mload_is_Some); bool_props; lia.
Qed.

Lemma read_all_safe ts : forall r,
  reader_wf r -> Forall type_ok ts -> safe (read_all r ts).
Proof.
  induction ts as [|t ts IH]; intros r Hr Hts; simpl; [apply safe_Done|].
  apply Forall_cons in Hts as [Ht Hts].
  pose proof (read_value_post r t Hr Ht) as Hpost.
  apply safe_bind; [intros Hf; by rewrite Hf in Hpost|].
  intros [v r'] Hv. assert (reader_wf r') as Hr' by (by eapply read_post_wf).
  apply safe_bind; [by apply IH|]. intros [vs r''] _. apply safe_Done.
Qed.

(** Reading untrusted bytes never accesses memory outside the payload
    handed to the reader, whatever the bytes and the sequence of typed reads;
    each single read from a well-formed reader either fails, leaving the
    cursor where it was, or advances it inside the payload, and a string
    read never writes past the destination's capacity. *)
Theorem cdr_reader_untrusted payload ts r t d capacity max_characters :
  bytes_ok payload -> zlen payload < 2 ^ 64 -> Forall type_ok ts ->
  reader_wf r -> type_ok t -> 0 <= capacity <= zlen d ->
  safe (deserialize payload ts) /\
  read_post r (read_value r t) /\
  read_post r (read_string r (Some d) capacity max_characters).
Proof.
  intros Hok H64 Hts Hr Ht Hd. split_and!.
  - apply safe_bind; [apply r_begin_safe|]. intros r' Hr'.
    apply read_all_safe; [by eapply r_begin_wf|done].
  - by apply read_value_post.
  - by apply read_string_post.
Qed.

Lemma cdr_reader_untrusted_witness :
  safe (deserialize [0; 1; 9; 9; 255; 255; 255; 255] [TString 100; TBool]).
Proof.
  apply (cdr_reader_untrusted [0; 1; 9; 9; 255; 255; 255; 255] [TString 100; TBool]
    (CdrReader_new (Some []) 0) TBool [] 0 0);
    [repeat constructor; unfold byte_ok; lia|done|repeat constructor| |done|done].
  split; simpl; [lia| |done]. intros b [= <-]. split; [simpl; lia|constructor].
Defined.

End Cdr.
