(* ===== verification/Types.v ===== *)
(** * RTPS wire types

    [include/openrtdds/rtps/types.hpp].  A [std::array<std::uint8_t, N>] is the
    list of its bytes; [*_ok] states the length and the byte range that the
    C++ type gives. *)
From S2P Require Import Prelude Bytes.

Module Types.

Record ProtocolVersion : Set := { major : Z; minor : Z }.

Definition ProtocolVersion_default : ProtocolVersion := {| major := 2; minor := 5 |}.

Definition VendorId : Set := list Z.
Definition GuidPrefix : Set := list Z.
Definition EntityId : Set := list Z.

Definition VendorId_default : VendorId := replicate 2 0.
Definition GuidPrefix_default : GuidPrefix := replicate 12 0.
Definition EntityId_default : EntityId := replicate 4 0.

(** [operator==] on [EntityId] compares the four octets. *)
Definition entity_eqb (left_ right_ : EntityId) : bool :=
  bool_decide (left_ !! 0%nat = right_ !! 0%nat) &&
  bool_decide (left_ !! 1%nat = right_ !! 1%nat) &&
  bool_decide (left_ !! 2%nat = right_ !! 2%nat) &&
  bool_decide (left_ !! 3%nat = right_ !! 3%nat).

Definition entity_neqb (left_ right_ : EntityId) : bool :=
  negb (entity_eqb left_ right_).

Definition array_ok (n : nat) (l : list Z) : Prop := length l = n /\ bytes_ok l.

Definition version_ok (v : ProtocolVersion) : Prop :=
  byte_ok (major v) /\ byte_ok (minor v).

(** The version check that every builder and parser performs. *)
Definition supported_version (v : ProtocolVersion) : bool :=
  (major v =? 2) && negb (minor v =? 0) && (minor v <=? 5).

#[global] Instance ProtocolVersion_eq_dec : EqDecision ProtocolVersion.
Proof. solve_decision. Defined.

Lemma array_ok_zlen n l : array_ok n l -> zlen l = Z.of_nat n.
Proof. intros [-> _]. done. Qed.

Lemma entity_eqb_eq l r :
  length l = 4%nat -> length r = 4%nat -> entity_eqb l r = true <-> l = r.
Proof.
  intros Hl Hr.
  destruct l as [|? [|? [|? [|? [|]]]]]; try discriminate.
  destruct r as [|? [|? [|? [|? [|]]]]]; try discriminate.
  unfold entity_eqb. rewrite !andb_true_iff, !bool_decide_eq_true. naive_solver.
Qed.

(** The 20-byte RTPS message header. *)
Definition rtps_header_bytes (v : ProtocolVersion) (vendor prefix : list Z) : list Z :=
  [82; 84; 80; 83; major v; minor v] ++ vendor ++ prefix.

End Types.
