(* ===== verification/Locators.v ===== *)
(** * Locators and well-known ports

    The transport addresses of [include/openrtdds/rtps/spdp.hpp] and
    [src/rtps/spdp.cpp] that participant and endpoint discovery share:
    [Locator], [BoundedLocatorList] and the RTPS port mapping. *)
From S2P Require Import Prelude.
From S2P Require Import Bytes.
From S2P Require Import Types.

Module Locators.
Import Types.

Record Locator : Set := { kind : Z; port : Z; address : list Z }.

Definition Locator_default : Locator :=
  {| kind := 1; port := 0; address := replicate 16 0 |}.

#[global] Instance Locator_eq_dec : EqDecision Locator.
Proof. solve_decision. Defined.

(** The bitwise or of some octets. *)
Definition any_bits (octets : list Z) : Z := foldr Z.lor 0 octets.

(** [make_udp_v4_locator]: [None] is [false], which leaves the output alone. *)
Definition make_udp_v4_locator (octets : list Z) (port_ : Z) : option Locator :=
  if (port_ =? 0) || (any_bits (take 4 octets) =? 0) then None
  else Some {| kind := 1; port := port_; address := replicate 12 0 ++ take 4 octets |}.

Definition valid_udp_v4_locator (l : Locator) : bool :=
  if negb (kind l =? 1) || (port l =? 0) || (65535 <? port l) then false
  else forallb (fun octet => octet =? 0) (take 12 (address l)) &&
       negb (any_bits (take 4 (drop 12 (address l))) =? 0).

(** ** Ports *)

Record SpdpPortConfig : Set := {
  port_base : Z;
  domain_gain : Z;
  participant_gain : Z;
  multicast_offset : Z;
  unicast_offset : Z;
}.

Definition SpdpPortConfig_default : SpdpPortConfig :=
  {| port_base := 7400; domain_gain := 250; participant_gain := 2;
     multicast_offset := 0; unicast_offset := 10 |}.

Definition spdp_multicast_port (domain_id : Z) (config : SpdpPortConfig) : option Z :=
  let fixed := add64 (port_base config) (multicast_offset config) in
  if 65535 <? fixed then None
  else
    let remaining := sub64 65535 fixed in
    if negb (domain_gain config =? 0) && (remaining / domain_gain config <? domain_id)
    then None
    else
      let value := add64 fixed (mul64 (domain_gain config) domain_id) in
      if value =? 0 then None else Some (u16 value).

Definition spdp_unicast_port (domain_id participant_id : Z) (config : SpdpPortConfig)
    : option Z :=
  let fixed := add64 (port_base config) (unicast_offset config) in
  if 65535 <? fixed then None
  else
    let domain_term := mul64 (domain_gain config) domain_id in
    if sub64 65535 fixed <? domain_term then None
    else
      let partial := add64 fixed domain_term in
      let remaining := sub64 65535 partial in
      if negb (participant_gain config =? 0) &&
         (remaining / participant_gain config <? participant_id)
      then None
      else
        let value := add64 partial (mul64 (participant_gain config) participant_id) in
        if value =? 0 then None else Some (u16 value).

(** ** Bounded lists *)

Record BoundedLocatorList : Set := { values : list Locator; size : Z }.

Definition BoundedLocatorList_default (Capacity : Z) : BoundedLocatorList :=
  {| values := replicate (Z.to_nat Capacity) Locator_default; size := 0 |}.

(** [push_back]: [None] is [false]. *)
Definition push_back {E} (Capacity : Z) (l : BoundedLocatorList) (locator : Locator)
    : outcome E (option BoundedLocatorList) :=
  if Capacity <=? size l then Done None
  else
    vs ← access (mstore (values l) (size l) locator);
    Done (Some {| values := vs; size := add64 (size l) 1 |}).

(** The held locators. *)
Definition held (l : BoundedLocatorList) : list Locator :=
  take (Z.to_nat (size l)) (values l).

(** [valid_locators] of the discovery builders. *)
Definition valid_locators {E} (Capacity : Z) (l : BoundedLocatorList) : outcome E bool :=
  if Capacity <? size l then Done false
  else for_each (fun index valid =>
         locator ← access (mload (values l) index);
         Done (valid && valid_udp_v4_locator locator)) (seqZ 0 (size l)) true.

(** ** Facts *)

Definition locator_ok (l : Locator) : Prop :=
  - 2 ^ 31 <= kind l < 2 ^ 31 /\ 0 <= port l < 2 ^ 32 /\ array_ok 16 (address l).

Record list_wf (Capacity : Z) (l : BoundedLocatorList) : Prop := {
  lw_values : zlen (values l) = Capacity;
  lw_size : 0 <= size l <= Capacity;
}.

(** The members of a configuration are [std::uint32_t]. *)
Definition port_config_ok (config : SpdpPortConfig) : Prop :=
  Forall (fun x => 0 <= x < 2 ^ 32)
    [port_base config; domain_gain config; participant_gain config;
     multicast_offset config; unicast_offset config].

Lemma gain_fits r g d :
  0 <= r -> 0 <= g -> 0 <= d -> negb (g =? 0) && (r / g <? d) = negb (g * d <=? r).
Proof.
  intros Hr Hg Hd. destruct (Z.eqb_spec g 0) as [->|]; simpl.
  - destruct (Z.leb_spec (0 * d) r); [done|lia].
  - destruct (Z.ltb_spec (r / g) d) as [H|H], (Z.leb_spec (g * d) r) as [H'|H']; try done.
    + apply Z.div_le_lower_bound in H'; lia.
    + pose proof (Z.mul_div_le r g). nia.
Qed.

(** The RTPS port mapping is computed exactly: the functions return the
    sum of base, offset and gain terms whenever that sum is a valid UDP port and
    refuse otherwise, although they only compute with machine integers. *)
Theorem ports_exact config domain_id participant_id p :
  port_config_ok config -> 0 <= domain_id < 2 ^ 32 -> 0 <= participant_id < 2 ^ 32 ->
  (spdp_multicast_port domain_id config = Some p <->
     p = port_base config + multicast_offset config + domain_gain config * domain_id /\
     1 <= p <= 65535) /\
  (spdp_unicast_port domain_id participant_id config = Some p <->
     p = port_base config + unicast_offset config + domain_gain config * domain_id +
         participant_gain config * participant_id /\
     1 <= p <= 65535).
Proof.
  intros Hc Hd Hp. unfold port_config_ok in Hc. rewrite !Forall_cons in Hc.
  destruct Hc as (H1 & H2 & H3 & H4 & H5 & _).
  assert (0 <= domain_gain config * domain_id < 2 ^ 64) by nia.
  assert (0 <= participant_gain config * participant_id < 2 ^ 64) by nia.
  unfold spdp_multicast_port, spdp_unicast_port.
  rewrite !(add64_id (port_base config)), !mul64_id by lia.
  split.
  - destruct (Z.ltb_spec 65535 (port_base config + multicast_offset config));
      [split; [done|lia]|].
    rewrite sub64_id, gain_fits by lia.
    destruct (Z.leb_spec (domain_gain config * domain_id)
      (65535 - (port_base config + multicast_offset config))); cbn [negb];
      [|split; [done|lia]].
    rewrite add64_id by lia. rewrite u16_id by lia.
    destruct (Z.eqb_spec (port_base config + multicast_offset config +
      domain_gain config * domain_id) 0); [split; [done|lia]|].
    split; [intros [= <-]; lia|]. intros [-> _]. done.
  - destruct (Z.ltb_spec 65535 (port_base config + unicast_offset config));
      [split; [done|lia]|].
    rewrite (sub64_id 65535 (port_base config + unicast_offset config)) by lia.
    destruct (Z.ltb_spec (65535 - (port_base config + unicast_offset config))
      (domain_gain config * domain_id)); [split; [done|lia]|].
    rewrite (add64_id (port_base config + unicast_offset config)), sub64_id, gain_fits by lia.
    match goal with |- context [?a <=? ?b] => destruct (Z.leb_spec a b) end; cbn [negb];
      [|split; [done|lia]].
    rewrite add64_id by lia. rewrite u16_id by lia.
    match goal with |- context [?a =? 0] => destruct (Z.eqb_spec a 0) end;
      [split; [done|lia]|].
    split; [intros [= <-]; lia|]. intros [-> _]. done.
Qed.

Lemma ports_exact_witness :
  spdp_multicast_port 3 SpdpPortConfig_default = Some 8150 /\
  spdp_unicast_port 3 4 SpdpPortConfig_default = Some 8168.
Proof.
  assert (port_config_ok SpdpPortConfig_default) as H by (repeat constructor; cbn; lia).
  split.
  - apply (ports_exact SpdpPortConfig_default 3 4 8150 H); cbn; lia.
  - apply (ports_exact SpdpPortConfig_default 3 4 8168 H); cbn; lia.
Defined.

Lemma make_valid octets p l :
  length octets = 4%nat -> 0 <= p < 2 ^ 16 -> make_udp_v4_locator octets p = Some l ->
  valid_udp_v4_locator l = true /\ port l = p /\ drop 12 (address l) = octets.
Proof.
  intros Hlen Hp Hm. unfold make_udp_v4_locator in Hm.
  destruct (Z.eqb_spec p 0); [done|].
  rewrite (take_ge octets) in Hm by lia.
  destruct (any_bits octets =? 0) eqn:Ha; [done|]. injection Hm as <-.
  unfold valid_udp_v4_locator. cbn [kind port address].
  change (drop 12 (replicate 12 0 ++ octets)) with octets.
  rewrite (take_ge octets) by lia. rewrite Ha.
  destruct (Z.eqb_spec p 0), (Z.ltb_spec 65535 p); done || lia.
Qed.

Lemma valid_locators_spec {E} Capacity l :
  list_wf Capacity l ->
  valid_locators Capacity l =
  (Done (forallb valid_udp_v4_locator (held l)) : outcome E bool).
Proof.
  intros [Hv Hs]. unfold valid_locators, held.
  destruct (Z.ltb_spec Capacity (size l)); [lia|].
  assert (forall k n acc, 0 <= k -> k + Z.of_nat n <= zlen (values l) ->
    for_each (fun index valid =>
         locator ← access (mload (values l) index);
         Done (valid && valid_udp_v4_locator locator)) (seqZ k (Z.of_nat n)) acc =
    (Done (acc && forallb valid_udp_v4_locator (take n (drop (Z.to_nat k) (values l))))
     : outcome E bool)) as Hrun.
  { intros k n. revert k. induction n as [|n IH]; intros k acc Hk Hn.
    - cbn. by rewrite andb_true_r.
    - rewrite seqZ_cons by lia. cbn [for_each].
      destruct (proj2 (mload_is_Some (values l) k)) as [x Hx]; [lia|]. rewrite Hx.
      cbn [access mbind outcome_bind].
      replace (Z.pred (Z.of_nat (S n))) with (Z.of_nat n) by lia. rewrite IH by lia.
      apply mload_Some in Hx as [_ Hx].
      rewrite (drop_S _ _ _ Hx). cbn [take forallb].
      replace (Z.to_nat (Z.succ k)) with (S (Z.to_nat k)) by lia.
      by rewrite andb_assoc. }
  specialize (Hrun 0 (Z.to_nat (size l)) true).
  rewrite Z2Nat.id in Hrun by lia. rewrite Hrun by lia. done.
Qed.

Lemma valid_locators_typed {E} Capacity l :
  zlen (values l) = Capacity -> 0 <= size l ->
  valid_locators Capacity l =
  (Done ((size l <=? Capacity) && forallb valid_udp_v4_locator (held l)) : outcome E bool).
Proof.
  intros Hv Hs. destruct (Z.leb_spec (size l) Capacity).
  - rewrite valid_locators_spec by (split; lia). done.
  - unfold valid_locators. destruct (Z.ltb_spec Capacity (size l)); [done|lia].
Qed.

Lemma push_back_spec {E} Capacity l locator :
  list_wf Capacity l -> 0 <= Capacity < 2 ^ 64 ->
  if size l <? Capacity then exists l',
    push_back Capacity l locator = (Done (Some l') : outcome E _) /\
    list_wf Capacity l' /\ held l' = held l ++ [locator] /\
    (values l = held l ++ replicate (Z.to_nat (Capacity - size l)) Locator_default ->
     values l' = held l' ++ replicate (Z.to_nat (Capacity - size l')) Locator_default)
  else push_back Capacity l locator = (Done None : outcome E _).
Proof.
  intros [Hv Hs] HC. unfold push_back.
  destruct (Z.ltb_spec (size l) Capacity), (Z.leb_spec Capacity (size l)); try lia; [|done].
  unfold mstore. destruct (Z.leb_spec 0 (size l)), (Z.ltb_spec (size l) (zlen (values l)));
    try lia. cbn [andb access mbind outcome_bind]. rewrite add64_id by lia.
  eexists. split; [done|].
  assert (held {| values := <[Z.to_nat (size l) := locator]> (values l); size := size l + 1 |} =
    held l ++ [locator]) as Hheld.
  { unfold held. cbn [values size].
    replace (Z.to_nat (size l + 1)) with (S (Z.to_nat (size l))) by lia.
    rewrite (take_S_r _ _ locator) by (apply list_lookup_insert_eq; lia).
    by rewrite take_insert_ge by lia. }
  split; [split; cbn; rewrite ?length_insert; lia|]. split; [done|].
  intros Hdef. rewrite Hheld. cbn [values size].
  assert (length (held l) = Z.to_nat (size l)) as Hlen by (unfold held; rewrite length_take; lia).
  replace (Z.to_nat (Capacity - size l)) with (S (Z.to_nat (Capacity - (size l + 1)))) in Hdef by lia.
  rewrite Hdef at 1. rewrite <- Hlen, insert_app_r_alt, Nat.sub_diag by lia.
  cbn [replicate]. by rewrite <- app_assoc.
Qed.

(** The list that holds [xs] and nothing else. *)
Definition filled (Capacity : nat) (xs : list Locator) : BoundedLocatorList :=
  {| values := xs ++ replicate (Capacity - length xs) Locator_default; size := zlen xs |}.

Lemma filled_wf Capacity xs :
  (length xs <= Capacity)%nat -> list_wf (Z.of_nat Capacity) (filled Capacity xs).
Proof.
  intros H. split; cbn [filled values size]; [rewrite length_app, length_replicate|]; lia.
Qed.

Lemma held_filled Capacity xs : held (filled Capacity xs) = xs.
Proof. unfold held, filled. cbn. by rewrite Nat2Z.id, take_app_length. Qed.

Lemma push_filled {E} (Capacity : nat) xs x :
  (length xs < Capacity)%nat -> Z.of_nat Capacity < 2 ^ 64 ->
  push_back (Z.of_nat Capacity) (filled Capacity xs) x =
  (Done (Some (filled Capacity (xs ++ [x]))) : outcome E _).
Proof.
  intros Hlt HC. unfold push_back, filled. cbn [values size].
  destruct (Z.leb_spec (Z.of_nat Capacity) (zlen xs)); [lia|].
  rewrite mstore_mcopy.
  replace (Capacity - length xs)%nat with (S (Capacity - length (xs ++ [x])))%nat
    by (rewrite length_app; cbn; lia).
  cbn [replicate].
  rewrite mcopy_snoc by (cbn; lia). cbn [access mbind outcome_bind length drop].
  rewrite add64_id by lia. do 3 f_equal. rewrite length_app. cbn. lia.
Qed.

End Locators.
