(* ===== verification/MessageRouter.v ===== *)
(** * Routing a compound RTPS message

    [include/openrtdds/rtps/message_router.hpp] and
    [src/rtps/message_router.cpp]: one bounded walk over the submessages of a
    datagram that maintains the INFO_SRC / INFO_DST / INFO_TS context and
    selects one occurrence of a submessage kind. *)
From S2P Require Import Prelude Bytes Types.

Module Router.
Import Types.

Definition submessage_id_pad : Z := 1.
Definition submessage_id_acknack : Z := 6.
Definition submessage_id_heartbeat : Z := 7.
Definition submessage_id_info_timestamp : Z := 9.
Definition submessage_id_info_source : Z := 12.
Definition submessage_id_info_destination : Z := 14.
Definition submessage_id_data : Z := 21.

Inductive MessageRouteError : Set :=
  | route_none
  | invalid_argument
  | truncated
  | invalid_protocol
  | unsupported_version
  | malformed_submessage
  | invalid_info_submessage
  | submessage_not_found.

#[global] Instance MessageRouteError_eq_dec : EqDecision MessageRouteError.
Proof. solve_decision. Defined.

Definition route_error_string (error : MessageRouteError) : string :=
  match error with
  | route_none => "none"
  | invalid_argument => "invalid argument"
  | truncated => "truncated RTPS message"
  | invalid_protocol => "invalid RTPS protocol"
  | unsupported_version => "unsupported RTPS version"
  | malformed_submessage => "malformed RTPS submessage"
  | invalid_info_submessage => "invalid RTPS INFO submessage"
  | submessage_not_found => "RTPS submessage not found"
  end.

Record RtpsTimestamp : Set := { seconds : Z; fraction : Z }.

Definition RtpsTimestamp_default : RtpsTimestamp := {| seconds := 0; fraction := 0 |}.

(** [content] is the view's pointer together with the [content_size] bytes it
    is meant to be read through; [None] is [nullptr]. *)
Record RoutedSubmessageView : Set := {
  version : ProtocolVersion;
  vendor_id : VendorId;
  source_guid_prefix : GuidPrefix;
  destination_guid_prefix : GuidPrefix;
  has_destination : bool;
  source_timestamp : RtpsTimestamp;
  has_source_timestamp : bool;
  id : Z;
  flags : Z;
  byte_order : ByteOrder;
  content : option (list Z);
  content_size : Z;
  offset : Z;
}.

Definition RoutedSubmessageView_default : RoutedSubmessageView :=
  {| version := ProtocolVersion_default; vendor_id := VendorId_default;
     source_guid_prefix := GuidPrefix_default;
     destination_guid_prefix := GuidPrefix_default; has_destination := false;
     source_timestamp := RtpsTimestamp_default; has_source_timestamp := false;
     id := 0; flags := 0; byte_order := little_endian; content := None;
     content_size := 0; offset := 0 |}.

Definition header_size : Z := 20.
Definition submessage_header_size : Z := 4.
Definition endianness_flag : Z := 1.
Definition invalidate_flag : Z := 2.

(** [read_u16] and [read_u32] of this translation unit. *)
Definition read_u16 {E} (m : list Z) (at_ : Z) (order : ByteOrder) : outcome E Z :=
  read_uint16 m at_ order.
Definition read_u32 {E} (m : list Z) (at_ : Z) (order : ByteOrder) : outcome E Z :=
  read_uint32 m at_ order.

Definition nonzero_prefix (prefix : GuidPrefix) : bool :=
  existsb (fun octet => negb (octet =? 0)) prefix.

Record RouteContext : Set := {
  ctx_version : ProtocolVersion;
  ctx_vendor_id : VendorId;
  ctx_source : GuidPrefix;
  ctx_destination : GuidPrefix;
  ctx_has_destination : bool;
  ctx_timestamp : RtpsTimestamp;
  ctx_has_timestamp : bool;
}.

Definition set_destination (c : RouteContext) (d : GuidPrefix) : RouteContext :=
  {| ctx_version := ctx_version c; ctx_vendor_id := ctx_vendor_id c;
     ctx_source := ctx_source c; ctx_destination := d;
     ctx_has_destination := nonzero_prefix d; ctx_timestamp := ctx_timestamp c;
     ctx_has_timestamp := ctx_has_timestamp c |}.

Definition set_source (c : RouteContext) (v : ProtocolVersion) (vendor : VendorId)
    (source : GuidPrefix) : RouteContext :=
  {| ctx_version := v; ctx_vendor_id := vendor; ctx_source := source;
     ctx_destination := ctx_destination c;
     ctx_has_destination := ctx_has_destination c;
     ctx_timestamp := ctx_timestamp c; ctx_has_timestamp := ctx_has_timestamp c |}.

Definition set_timestamp (c : RouteContext) (t : RtpsTimestamp) (has : bool)
    : RouteContext :=
  {| ctx_version := ctx_version c; ctx_vendor_id := ctx_vendor_id c;
     ctx_source := ctx_source c; ctx_destination := ctx_destination c;
     ctx_has_destination := ctx_has_destination c; ctx_timestamp := t;
     ctx_has_timestamp := has |}.

(** [content] is the [content_size] bytes at [&message[content_offset]]. *)
Definition apply_info (id flags : Z) (order : ByteOrder) (content : list Z)
    (content_size : Z) (context : RouteContext)
    : outcome MessageRouteError RouteContext :=
  if id =? submessage_id_info_destination then
    stop_if (negb (content_size =? 12)) invalid_info_submessage;;
    d ← access (mslice content 0 12);
    Done (set_destination context d)
  else if id =? submessage_id_info_source then
    stop_if (negb (content_size =? 20)) invalid_info_submessage;;
    c4 ← access (mload content 4);
    c5 ← access (mload content 5);
    stop_if (negb (c4 =? 2) || (c5 =? 0) || (5 <? c5)) unsupported_version;;
    vendor ← access (mslice content 6 2);
    source ← access (mslice content 8 12);
    Done (set_source context {| major := c4; minor := c5 |} vendor source)
  else if id =? submessage_id_info_timestamp then
    if negb (Z.land flags invalidate_flag =? 0) then
      stop_if (negb (content_size =? 0)) invalid_info_submessage;;
      Done (set_timestamp context (ctx_timestamp context) false)
    else
      stop_if (negb (content_size =? 8)) invalid_info_submessage;;
      seconds_bits ← read_u32 content 0 order;
      fraction ← read_u32 content 4 order;
      Done (set_timestamp context
        {| seconds := i32_of_bits seconds_bits; fraction := fraction |} true)
  else Done context.

(** The local variables of [find_submessage]'s loop. *)
Record route_state : Set := {
  rs_context : RouteContext;
  rs_candidate : RoutedSubmessageView;
  rs_found : bool;
  rs_occurrence : Z;
  rs_offset : Z;
}.

Definition order_of_flags (flags : Z) : ByteOrder :=
  if negb (Z.land flags endianness_flag =? 0) then little_endian else big_endian.

Definition candidate_of (context : RouteContext) (id_ flags_ : Z)
    (order : ByteOrder) (content_ : list Z) (content_size_ offset_ : Z)
    : RoutedSubmessageView :=
  {| version := ctx_version context; vendor_id := ctx_vendor_id context;
     source_guid_prefix := ctx_source context;
     destination_guid_prefix := ctx_destination context;
     has_destination := ctx_has_destination context;
     source_timestamp := ctx_timestamp context;
     has_source_timestamp := ctx_has_timestamp context;
     id := id_; flags := flags_; byte_order := order;
     content := Some content_; content_size := content_size_; offset := offset_ |}.

(** One iteration of the [while] loop: the new locals and [extends_to_end]. *)
Definition route_step (message : list Z) (message_size wanted_id wanted_occurrence : Z)
    (s : route_state) : outcome MessageRouteError (route_state * bool) :=
  let offset := rs_offset s in
  stop_if (sub64 message_size offset <? submessage_header_size)
    malformed_submessage;;
  id ← access (mload message offset);
  flags ← access (mload message (offset + 1));
  let order := order_of_flags flags in
  declared ← read_u16 message (offset + 2) order;
  let content_offset := add64 offset submessage_header_size in
  let available := sub64 message_size content_offset in
  let '(content_size, extends_to_end) :=
    if declared =? 0 then
      if (id =? submessage_id_pad) || (id =? submessage_id_info_timestamp)
      then (0, false) else (available, true)
    else (declared, false) in
  stop_if (available <? content_size) truncated;;
  content ← access (mslice message content_offset content_size);
  let wanted := (id =? wanted_id) && (rs_occurrence s =? wanted_occurrence) in
  let candidate :=
    if wanted then candidate_of (rs_context s) id flags order content content_size offset
    else rs_candidate s in
  let occurrence :=
    if id =? wanted_id then add64 (rs_occurrence s) 1 else rs_occurrence s in
  context ← apply_info id flags order content content_size (rs_context s);
  Done ({| rs_context := context; rs_candidate := candidate;
           rs_found := rs_found s || wanted; rs_occurrence := occurrence;
           rs_offset := add64 content_offset content_size |}, extends_to_end).

(** The [while] loop; [fuel] bounds the iterations and running out of it is a
    fault, which [find_submessage_total] excludes. *)
Fixpoint route_loop (fuel : nat) (message : list Z)
    (message_size wanted_id wanted_occurrence : Z) (s : route_state)
    : outcome MessageRouteError route_state :=
  if rs_offset s <? message_size then
    match fuel with
    | O => Fault
    | S fuel' =>
        '(s', extends_to_end) ←
          route_step message message_size wanted_id wanted_occurrence s;
        if (extends_to_end : bool) then Done s'
        else route_loop fuel' message message_size wanted_id wanted_occurrence s'
    end
  else Done s.

Definition find_submessage_body (message : option (list Z))
    (message_size wanted_id wanted_occurrence : Z)
    : outcome MessageRouteError RoutedSubmessageView :=
  stop_if (match message with None => negb (message_size =? 0) | _ => false end)
    invalid_argument;;
  stop_if (message_size <? header_size) truncated;;
  m ← access message;
  m0 ← access (mload m 0);
  m1 ← access (mload m 1);
  m2 ← access (mload m 2);
  m3 ← access (mload m 3);
  stop_if (negb (m0 =? 82) || negb (m1 =? 84) || negb (m2 =? 80) || negb (m3 =? 83))
    invalid_protocol;;
  m4 ← access (mload m 4);
  m5 ← access (mload m 5);
  stop_if (negb (m4 =? 2) || (m5 =? 0) || (5 <? m5)) unsupported_version;;
  vendor ← access (mslice m 6 2);
  source ← access (mslice m 8 12);
  s ← route_loop (Z.to_nat message_size) m message_size wanted_id wanted_occurrence
        {| rs_context :=
             {| ctx_version := {| major := m4; minor := m5 |};
                ctx_vendor_id := vendor; ctx_source := source;
                ctx_destination := GuidPrefix_default;
                ctx_has_destination := false;
                ctx_timestamp := RtpsTimestamp_default;
                ctx_has_timestamp := false |};
           rs_candidate := RoutedSubmessageView_default;
           rs_found := false; rs_occurrence := 0; rs_offset := header_size |};
  stop_if (negb (rs_offset s =? message_size)) malformed_submessage;;
  stop_if (negb (rs_found s)) submessage_not_found;;
  Done (rs_candidate s).

Definition find_submessage (message : option (list Z))
    (message_size wanted_id wanted_occurrence : Z) (view : RoutedSubmessageView)
    : option (MessageRouteError * RoutedSubmessageView) :=
  commit route_none view
    (find_submessage_body message message_size wanted_id wanted_occurrence).

(** ** Safety and termination on arbitrary bytes *)

(** What a routed view promises to the parser that reads through it: the
    content pointer designates exactly [content_size] bytes. *)
Record view_ok (v : RoutedSubmessageView) (c : list Z) : Prop := {
  vo_content : content v = Some c;
  vo_size : content_size v = zlen c;
  vo_bytes : bytes_ok c;
  vo_bound : zlen c < 2 ^ 64;
  vo_order : supported_byte_order (byte_order v) = true;
}.

Record route_inv (message : list Z) (message_size : Z) (s : route_state) : Prop := {
  ri_offset : header_size <= rs_offset s <= message_size;
  ri_found : rs_found s = true -> exists c, view_ok (rs_candidate s) c;
}.

Lemma order_of_flags_supported f : supported_byte_order (order_of_flags f) = true.
Proof. unfold order_of_flags. by case_match. Qed.

Lemma apply_info_safe id flags order c ctx :
  safe (apply_info id flags order c (zlen c) ctx).
Proof.
  unfold apply_info, read_u32. repeat safe_step.
  all: bool_props;
    first [ apply safe_access, mload_is_Some; lia
          | apply safe_access, mslice_is_Some; lia
          | apply read_uint32_safe; lia ].
Qed.

Section Walk.
Context (message : list Z) (message_size : Z).
Context (Hsize : message_size < 2 ^ 64) (Hbuffer : message_size <= zlen message)
  (Hbytes : bytes_ok message).

Lemma route_step_safe wid wocc s :
  route_inv message message_size s -> rs_offset s < message_size ->
  safe (route_step message message_size wid wocc s).
Proof.
  intros [Ho _] Hlt. unfold route_step, header_size, submessage_header_size in *.
  rewrite (sub64_id message_size (rs_offset s)) by lia.
  apply safe_guard. intros Hrest%Z.ltb_ge.
  apply safe_bind; [apply safe_access, mload_is_Some; lia|]. intros i _.
  apply safe_bind; [apply safe_access, mload_is_Some; lia|]. intros f _.
  apply safe_bind; [apply read_uint16_safe; lia|]. intros d Hd.
  apply read_uint16_range in Hd; [|done]. cbv zeta.
  rewrite (add64_id (rs_offset s)), (sub64_id message_size) by lia.
  destruct (if d =? 0 then _ else _) as [cs ext] eqn:Hcs.
  assert (0 <= cs) by (repeat case_match; simplify_eq; lia).
  apply safe_guard. intros Hav%Z.ltb_ge.
  apply safe_bind; [apply safe_access, mslice_is_Some; lia|].
  intros c Hc%access_Done. apply mslice_length in Hc. subst cs.
  apply safe_bind; [apply apply_info_safe|]. intros ctx _. apply safe_Done.
Qed.

Lemma route_step_inv wid wocc s s' ext :
  route_inv message message_size s -> rs_offset s < message_size ->
  route_step message message_size wid wocc s = Done (s', ext) ->
  route_inv message message_size s' /\ rs_offset s + 4 <= rs_offset s'.
Proof.
  intros [Ho Hf] Hlt Hstep.
  unfold route_step, header_size, submessage_header_size, read_u16 in *.
  rewrite (sub64_id message_size (rs_offset s)) in Hstep by lia.
  apply guard_Done in Hstep as [Hrest%Z.ltb_ge Hstep].
  apply bind_Done_inv in Hstep as (i & Hi & Hstep).
  apply bind_Done_inv in Hstep as (f & Hfl & Hstep).
  apply bind_Done_inv in Hstep as (d & Hd & Hstep).
  apply read_uint16_range in Hd; [|done]. cbv zeta in Hstep.
  rewrite (add64_id (rs_offset s)), (sub64_id message_size) in Hstep by lia.
  destruct (if d =? 0 then _ else _) as [cs e] eqn:Hcs.
  assert (0 <= cs) by (repeat case_match; simplify_eq; lia).
  apply guard_Done in Hstep as [Hav%Z.ltb_ge Hstep].
  apply bind_Done_inv in Hstep as (c & Hc & Hstep). apply access_Done in Hc.
  apply bind_Done_inv in Hstep as (ctx & Hctx & [= <- _]).
  rewrite (add64_id (rs_offset s + 4)) by lia.
  split; [split|]; unfold header_size; simpl; [|intros Hfound|]; try lia.
  destruct ((i =? wid) && (rs_occurrence s =? wocc)).
  - exists c. apply mslice_length in Hc as Hcl.
    split; simpl; [done|lia|by eapply mslice_Forall|lia|
      apply order_of_flags_supported].
  - apply Hf. by rewrite orb_false_r in Hfound.
Qed.

Lemma route_loop_safe wid wocc fuel : forall s,
  route_inv message message_size s ->
  message_size - rs_offset s <= Z.of_nat fuel ->
  safe (route_loop fuel message message_size wid wocc s).
Proof.
  induction fuel as [|fuel IH]; intros s Hinv Hfuel; simpl;
    (destruct (Z.ltb_spec (rs_offset s) message_size); [|apply safe_Done]); [lia|].
  apply safe_bind; [by apply route_step_safe|]. intros [s' ext] Hstep.
  apply route_step_inv in Hstep as [Hinv' Hlt]; [|done..].
  destruct ext; [apply safe_Done|]. apply IH; [done|lia].
Qed.

Lemma route_loop_inv wid wocc fuel : forall s s',
  route_inv message message_size s ->
  route_loop fuel message message_size wid wocc s = Done s' ->
  route_inv message message_size s'.
Proof.
  induction fuel as [|fuel IH]; intros s s' Hinv; simpl;
    (destruct (Z.ltb_spec (rs_offset s) message_size); [|by intros [= <-]]); [done|].
  intros ([t ext] & Hstep & Hrest)%bind_Done_inv.
  apply route_step_inv in Hstep as [Hinv' _]; [|done..].
  destruct ext; [by simplify_eq|]. by eapply IH.
Qed.
End Walk.

Definition message_ok (message : option (list Z)) (message_size : Z) : Prop :=
  0 <= message_size < 2 ^ 64 /\
  forall m, message = Some m -> message_size <= zlen m /\ bytes_ok m.

Lemma find_body_safe message message_size wid wocc :
  message_ok message message_size ->
  safe (find_submessage_body message message_size wid wocc).
Proof.
  intros [Hsz Hm]. unfold find_submessage_body, header_size.
  apply safe_guard. intros Hnull. apply safe_guard. intros H20%Z.ltb_ge.
  destruct message as [m|]; [|apply negb_false_iff, Z.eqb_eq in Hnull; lia].
  destruct (Hm m eq_refl) as [Hlen Hok]. simpl.
  do 4 (apply safe_bind; [apply safe_access, mload_is_Some; lia|intros ? _]).
  apply safe_guard. intros _.
  do 2 (apply safe_bind; [apply safe_access, mload_is_Some; lia|intros ? _]).
  apply safe_guard. intros _.
  do 2 (apply safe_bind; [apply safe_access, mslice_is_Some; lia|intros ? _]).
  apply safe_bind; [|intros; repeat safe_step].
  apply route_loop_safe; [lia|done|done|split; simpl; [|done]|];
    unfold header_size; simpl; lia.
Qed.

Lemma apply_info_error id flags order c n ctx :
  apply_info id flags order c n ctx <> Stop route_none.
Proof.
  intros Hs. unfold apply_info, read_u32 in Hs. stop_cases Hs;
    by eapply read_uint32_no_stop.
Qed.

Lemma route_loop_error wid wocc fuel message message_size : forall s,
  route_loop fuel message message_size wid wocc s <> Stop route_none.
Proof.
  induction fuel as [|fuel IH]; intros s; simpl; (case_match; [|done]); [done|].
  intros [Hstep|([s' ext] & _ & Hrest)]%bind_Stop_inv.
  - unfold route_step, read_u16 in Hstep. cbv zeta in Hstep. stop_cases Hstep;
      first [by eapply read_uint16_no_stop | by eapply apply_info_error].
  - destruct ext; [done|]. by eapply IH.
Qed.

Lemma find_body_error message message_size wid wocc :
  find_submessage_body message message_size wid wocc <> Stop route_none.
Proof.
  intros Hs. unfold find_submessage_body in Hs. stop_cases Hs.
  by eapply route_loop_error.
Qed.

(** The interface of the router towards the parsers. *)
Lemma find_body_view message message_size wid wocc v :
  message_ok message message_size ->
  find_submessage_body message message_size wid wocc = Done v ->
  exists c, view_ok v c.
Proof.
  intros [Hsz Hm] Hbody. unfold find_submessage_body, header_size in Hbody.
  apply guard_Done in Hbody as [Hnull Hbody].
  apply guard_Done in Hbody as [H20%Z.ltb_ge Hbody].
  destruct message as [m|]; [|apply negb_false_iff, Z.eqb_eq in Hnull; lia].
  destruct (Hm m eq_refl) as [Hlen Hok].
  cbn [access mbind outcome_bind] in Hbody. inv_done.
  match goal with H : route_loop _ _ _ _ _ _ = Done ?t |- _ =>
    assert (route_inv m message_size t) as [_ Hf] end.
  - eapply route_loop_inv; [lia|done| |done].
    split; simpl; [unfold header_size; lia|done].
  - apply Hf. by apply negb_false_iff.
Qed.

(** ** Routing against the message grammar *)

(** A submessage as a value, and its two encodings: with its length declared,
    and as the last one of a message with the declared length 0. *)
Record submessage : Set := { sub_id : Z; sub_flags : Z; sub_content : list Z }.

Definition sub_order (x : submessage) : ByteOrder := order_of_flags (sub_flags x).

Definition encode_declared (x : submessage) (declared : Z) : list Z :=
  [sub_id x; sub_flags x] ++ encode_uint (sub_order x) 2 declared ++ sub_content x.

Definition encode_sub (x : submessage) : list Z :=
  encode_declared x (zlen (sub_content x)).

Definition encode_last (x : submessage) : list Z := encode_declared x 0.

Definition may_be_empty (x : submessage) : bool :=
  (sub_id x =? submessage_id_pad) || (sub_id x =? submessage_id_info_timestamp).

Definition sub_ok (x : submessage) : Prop :=
  zlen (sub_content x) <= u16_max /\
  (sub_content x = [] -> may_be_empty x = true).

Definition last_ok (x : submessage) : Prop := may_be_empty x = false.

Definition sub_info (x : submessage) (ctx : RouteContext)
    : outcome MessageRouteError RouteContext :=
  apply_info (sub_id x) (sub_flags x) (sub_order x) (sub_content x)
    (zlen (sub_content x)) ctx.

Definition sub_view (ctx : RouteContext) (x : submessage) (off : Z)
    : RoutedSubmessageView :=
  candidate_of ctx (sub_id x) (sub_flags x) (sub_order x) (sub_content x)
    (zlen (sub_content x)) off.

Definition sub_size (x : submessage) : Z := 4 + zlen (sub_content x).

(** The [n]-th submessage with the wanted id, seen in the context that the
    INFO submessages in front of it established. *)
Fixpoint nth_sub (wanted_id n : Z) (ctx : RouteContext) (off : Z)
    (xs : list submessage) : option RoutedSubmessageView :=
  match xs with
  | [] => None
  | x :: xs' =>
      if (sub_id x =? wanted_id) && (n =? 0) then Some (sub_view ctx x off)
      else match sub_info x ctx with
           | Done ctx' =>
               nth_sub wanted_id (if sub_id x =? wanted_id then n - 1 else n)
                 ctx' (off + sub_size x) xs'
           | _ => None
           end
  end.

(** What routing means: all INFO submessages must be valid, and the wanted
    occurrence must exist. *)
Definition routed (xs : list submessage) (wanted_id n : Z) (ctx : RouteContext)
    : outcome MessageRouteError RoutedSubmessageView :=
  _ ← for_each sub_info xs ctx;
  match nth_sub wanted_id n ctx header_size xs with
  | Some v => Done v
  | None => Stop submessage_not_found
  end.

Definition encode_message (header : list Z) (xs : list submessage)
    (tail_ : option submessage) : list Z :=
  header ++ mjoin (encode_sub <$> xs) ++ default [] (encode_last <$> tail_).

Definition initial_context (v : ProtocolVersion) (vendor source : list Z)
    : RouteContext :=
  {| ctx_version := v; ctx_vendor_id := vendor; ctx_source := source;
     ctx_destination := GuidPrefix_default; ctx_has_destination := false;
     ctx_timestamp := RtpsTimestamp_default; ctx_has_timestamp := false |}.

(** One iteration on a submessage value. *)
Definition next_state (wid wocc : Z) (x : submessage) (s : route_state)
    (context : RouteContext) : route_state :=
  let wanted := (sub_id x =? wid) && (rs_occurrence s =? wocc) in
  {| rs_context := context;
     rs_candidate := if wanted then sub_view (rs_context s) x (rs_offset s)
                     else rs_candidate s;
     rs_found := rs_found s || wanted;
     rs_occurrence := if sub_id x =? wid then add64 (rs_occurrence s) 1
                      else rs_occurrence s;
     rs_offset := rs_offset s + sub_size x |}.

Definition sub_step (wid wocc : Z) (x : submessage) (s : route_state)
    : outcome MessageRouteError route_state :=
  context ← sub_info x (rs_context s);
  Done (next_state wid wocc x s context).

#[local] Opaque encode_uint.

Lemma encode_declared_length x d : zlen (encode_declared x d) = sub_size x.
Proof.
  unfold encode_declared, sub_size. rewrite !length_app, encode_uint_length.
  simpl. lia.
Qed.

(** The fields of a submessage at offset [zlen p] of a message. *)
Lemma declared_fields {E} p x d r :
  0 <= d <= u16_max ->
  let m := p ++ encode_declared x d ++ r in
  mload m (zlen p) = Some (sub_id x) /\
  mload m (zlen p + 1) = Some (sub_flags x) /\
  read_uint16 m (zlen p + 2) (sub_order x) = (Done d : outcome E Z) /\
  mslice m (zlen p + 4) (zlen (sub_content x)) = Some (sub_content x).
Proof.
  intros Hd m. unfold u16_max, m, encode_declared in *.
  split_and!.
  - rewrite mload_app_r, Z.sub_diag by lia. done.
  - rewrite mload_app_r, Z.add_simpl_l by lia. done.
  - rewrite <- !app_assoc, (app_assoc p).
    apply read_uint16_encode; [rewrite length_app; simpl|]; lia.
  - rewrite <- !app_assoc, (app_assoc p), (app_assoc (p ++ _)).
    apply mslice_app_exact; [|done].
    rewrite !length_app, encode_uint_length. simpl. lia.
Qed.

Lemma route_step_declared p x d r size wid wocc s ext :
  zlen p = rs_offset s -> size = zlen (p ++ encode_declared x d ++ r) ->
  size < 2 ^ 64 -> 0 <= d <= u16_max ->
  (if d =? 0 then
     if may_be_empty x then sub_content x = [] /\ ext = false
     else r = [] /\ ext = true
   else d = zlen (sub_content x) /\ ext = false) ->
  route_step (p ++ encode_declared x d ++ r) size wid wocc s =
  (s' ← sub_step wid wocc x s; Done (s', ext)).
Proof.
  intros Hp Hsz H64 Hd Hcase. pose proof (encode_declared_length x d) as Hlen.
  destruct (declared_fields (E:=MessageRouteError) p x d r Hd) as (Hid & Hfl & Hdec & Hc).
  rewrite !length_app in Hsz. unfold sub_size in Hlen.
  set (m := p ++ encode_declared x d ++ r) in *. clearbody m.
  unfold route_step, submessage_header_size, read_u16, u16_max in *. cbv zeta.
  rewrite <- Hp, (sub64_id size (zlen p)) by lia.
  destruct (Z.ltb_spec (size - zlen p) 4); [lia|].
  rewrite Hid, Hfl. cbn [stop_if access mbind outcome_bind].
  fold (sub_order x). rewrite Hdec. cbn [mbind outcome_bind].
  rewrite (add64_id (zlen p) 4), (sub64_id size (zlen p + 4)) by lia.
  assert ((if d =? 0
    then if (sub_id x =? submessage_id_pad) || (sub_id x =? submessage_id_info_timestamp)
         then (0, false) else (size - (zlen p + 4), true)
    else (d, false)) = (zlen (sub_content x), ext)) as ->.
  { fold (may_be_empty x). destruct (d =? 0), (may_be_empty x);
      destruct Hcase as [Hc' ->]; rewrite ?Hc' in *; simpl in *; f_equal; lia. }
  destruct (Z.ltb_spec (size - (zlen p + 4)) (zlen (sub_content x))); [lia|].
  rewrite Hc. cbn [stop_if access mbind outcome_bind].
  unfold sub_step, sub_info, next_state, sub_view. rewrite <- Hp.
  destruct (apply_info _ _ _ _ _ _); cbn [mbind outcome_bind]; [done..|].
  rewrite (add64_id (zlen p + 4)) by lia. unfold sub_size. do 3 f_equal. lia.
Qed.

Lemma sub_step_offset wid wocc x s s' :
  sub_step wid wocc x s = Done s' -> rs_offset s' = rs_offset s + sub_size x.
Proof. unfold sub_step. by intros (c & _ & [= <-])%bind_Done_inv. Qed.

Lemma route_loop_last wid wocc tail_ s p fuel :
  zlen p = rs_offset s -> from_option last_ok True tail_ ->
  let m := p ++ default [] (encode_last <$> tail_) in
  zlen m < 2 ^ 64 -> 0 < Z.of_nat fuel \/ tail_ = None ->
  route_loop fuel m (zlen m) wid wocc s =
  for_each (sub_step wid wocc) (option_list tail_) s.
Proof.
  intros Hp Hok m H64 Hfuel. destruct tail_ as [x|]; simpl in *.
  - destruct fuel as [|fuel]; [naive_solver lia|]. subst m. simpl.
    pose proof (encode_declared_length x 0) as Hlen. unfold sub_size in Hlen.
    fold (encode_last x) in Hlen. rewrite length_app, <- Hp in *.
    destruct (Z.ltb_spec (zlen p) (Z.of_nat (length p + length (encode_last x)))); [|lia].
    pose proof (route_step_declared p x 0 [] (zlen (p ++ encode_last x)) wid wocc s true)
      as Hstep. fold (encode_last x) in Hstep. rewrite !app_nil_r, length_app in Hstep.
    rewrite Hstep; [|done|done|done|unfold u16_max; lia|].
    + by destruct (sub_step wid wocc x s).
    + rewrite Z.eqb_refl. by rewrite Hok.
  - subst m. rewrite app_nil_r, Hp in *. destruct fuel; simpl; by rewrite Z.ltb_irrefl.
Qed.

Lemma route_loop_encoded wid wocc xs : forall tail_ s p fuel,
  zlen p = rs_offset s -> Forall sub_ok xs -> from_option last_ok True tail_ ->
  let m := encode_message p xs tail_ in
  zlen m < 2 ^ 64 -> (length xs < fuel)%nat ->
  route_loop fuel m (zlen m) wid wocc s =
  for_each (sub_step wid wocc) (xs ++ option_list tail_) s.
Proof.
  induction xs as [|x xs IH]; intros tail_ s p fuel Hp Hxs Hok m H64 Hfuel.
  { apply route_loop_last; simpl in *; try done; lia. }
  apply Forall_cons in Hxs as [[Hx1 Hx2] Hxs].
  destruct fuel as [|fuel]; simpl in Hfuel; [lia|].
  pose proof (encode_declared_length x (zlen (sub_content x))) as Hlen.
  fold (encode_sub x) in Hlen. unfold sub_size in Hlen.
  set (r := mjoin (encode_sub <$> xs) ++ default [] (encode_last <$> tail_)).
  assert (m = p ++ encode_sub x ++ r) as Hm.
  { unfold m, encode_message, r. csimpl. by rewrite <- !app_assoc. }
  assert (m = encode_message (p ++ encode_sub x) xs tail_) as Hm'.
  { rewrite Hm. unfold encode_message. by rewrite <- !app_assoc. }
  cbn [route_loop app for_each]. rewrite <- Hp.
  assert (zlen m = zlen p + (zlen (encode_sub x) + zlen r)) as Hsz
    by (rewrite Hm, !length_app; lia).
  destruct (Z.ltb_spec (zlen p) (zlen m)); [|lia].
  rewrite Hm at 1. unfold encode_sub at 1.
  rewrite (route_step_declared p x _ r (zlen m) wid wocc s false).
  - destruct (sub_step wid wocc x s) as [| |s'] eqn:Hstep;
      cbn [mbind outcome_bind]; [done..|].
    apply sub_step_offset in Hstep. rewrite Hm' at 1 2.
    apply IH; [|done..|by rewrite <- Hm'|lia].
    rewrite length_app, Hstep. unfold sub_size. lia.
  - done.
  - by rewrite Hm.
  - done.
  - lia.
  - destruct (Z.eqb_spec (zlen (sub_content x)) 0) as [He|He]; [|done].
    destruct (sub_content x) eqn:Hc; [|done]. by rewrite Hx2.
Qed.

Definition subs_size (xs : list submessage) : Z :=
  foldr (fun x n => sub_size x + n) 0 xs.

Lemma nth_sub_negative wid n xs : forall ctx off,
  n < 0 -> nth_sub wid n ctx off xs = None.
Proof.
  revert n. induction xs as [|x xs IH]; intros n ctx off Hn; simpl; [done|].
  destruct (Z.eqb_spec n 0); [lia|]. rewrite andb_false_r.
  destruct (sub_info x ctx); [done..|]. apply IH. case_match; lia.
Qed.

(** The loop's locals after a walk over submessage values. *)
Lemma walk_result wid wocc xs : forall s,
  0 <= rs_occurrence s -> rs_occurrence s + zlen xs < 2 ^ 64 ->
  exists occ, for_each (sub_step wid wocc) xs s =
  (ctx ← for_each sub_info xs (rs_context s);
   let hit := nth_sub wid (wocc - rs_occurrence s) (rs_context s) (rs_offset s) xs in
   Done {| rs_context := ctx;
           rs_candidate := default (rs_candidate s) hit;
           rs_found := rs_found s || bool_decide (is_Some hit);
           rs_occurrence := occ;
           rs_offset := rs_offset s + subs_size xs |}).
Proof.
  induction xs as [|x xs IH]; intros s Hocc Hlen; cbn [for_each nth_sub].
  { exists (rs_occurrence s). cbn. rewrite orb_false_r, Z.add_0_r. by destruct s. }
  change (length (x :: xs)) with (S (length xs)) in Hlen.
  assert (sub_step wid wocc x s = (ctx ← sub_info x (rs_context s);
    Done (next_state wid wocc x s ctx))) as -> by done.
  destruct (sub_info x (rs_context s)) as [| |ctx]; cbn [mbind outcome_bind];
    [by exists 0..|].
  destruct (IH (next_state wid wocc x s ctx)) as [occ ->];
    unfold next_state; rewrite (add64_id (rs_occurrence s)) by lia;
    [cbn; case_match; lia..|].
  exists occ. cbn [rs_context rs_candidate rs_found rs_occurrence rs_offset].
  destruct (for_each sub_info xs ctx) as [| |ctx']; cbn [mbind outcome_bind]; [done..|].
  destruct (Z.eqb_spec (sub_id x) wid) as [Hid|Hid]; cbn [andb].
  - replace (wocc - (rs_occurrence s + 1)) with (wocc - rs_occurrence s - 1) by lia.
    destruct (Z.eqb_spec (rs_occurrence s) wocc) as [Hw|Hw],
      (Z.eqb_spec (wocc - rs_occurrence s) 0) as [Hw'|Hw']; try lia.
    + rewrite nth_sub_negative by lia. cbn. rewrite orb_true_r, Z.add_assoc. done.
    + rewrite orb_false_r. cbn. by rewrite Z.add_assoc.
  - rewrite orb_false_r. cbn. by rewrite Z.add_assoc.
Qed.

Lemma encode_message_length header xs tail_ :
  zlen (encode_message header xs tail_) =
  zlen header + subs_size (xs ++ option_list tail_).
Proof.
  unfold encode_message. rewrite length_app.
  enough (zlen (mjoin (encode_sub <$> xs) ++ default [] (encode_last <$> tail_)) =
          subs_size (xs ++ option_list tail_)) by lia.
  induction xs as [|x xs IH].
  - destruct tail_ as [x|]; [|done].
    change (zlen (encode_declared x 0) = sub_size x + 0).
    by rewrite encode_declared_length, Z.add_0_r.
  - change (mjoin (encode_sub <$> (x :: xs)))
      with (encode_sub x ++ mjoin (encode_sub <$> xs)).
    rewrite <- app_assoc, length_app, Nat2Z.inj_add, IH.
    unfold encode_sub at 1. by rewrite encode_declared_length.
Qed.

Lemma subs_size_length xs : 4 * zlen xs <= subs_size xs.
Proof.
  induction xs as [|x xs IH]; [done|]. cbn [subs_size foldr] in *.
  fold (subs_size xs). unfold sub_size. simpl length. lia.
Qed.

(** Routing an encoded message computes [routed] on its submessages. *)
Lemma find_body_encoded v vendor source xs tail_ wid wocc :
  supported_version v = true -> length vendor = 2%nat -> length source = 12%nat ->
  Forall sub_ok xs -> from_option last_ok True tail_ ->
  let m := encode_message (rtps_header_bytes v vendor source) xs tail_ in
  zlen m < 2 ^ 64 ->
  find_submessage_body (Some m) (zlen m) wid wocc =
  routed (xs ++ option_list tail_) wid wocc (initial_context v vendor source).
Proof.
  intros Hv Hven Hsrc Hxs Htail m H64.
  set (h := rtps_header_bytes v vendor source) in *.
  assert (zlen h = 20) as Hh
    by (unfold h, rtps_header_bytes; rewrite !length_app; simpl; lia).
  pose proof (encode_message_length h xs tail_) as Hlen. fold m in Hlen.
  pose proof (subs_size_length (xs ++ option_list tail_)) as Hsubs.
  rewrite length_app in Hsubs.
  assert (route_loop (Z.to_nat (zlen m)) m (zlen m) wid wocc
    {| rs_context := initial_context v vendor source;
       rs_candidate := RoutedSubmessageView_default; rs_found := false;
       rs_occurrence := 0; rs_offset := header_size |} =
    for_each (sub_step wid wocc) (xs ++ option_list tail_)
    {| rs_context := initial_context v vendor source;
       rs_candidate := RoutedSubmessageView_default; rs_found := false;
       rs_occurrence := 0; rs_offset := header_size |}) as Hloop.
  { apply route_loop_encoded; [done..|]. lia. }
  unfold find_submessage_body. change (zlen m <? header_size) with (zlen m <? 20).
  destruct (Z.ltb_spec (zlen m) 20); [lia|]. cbn [stop_if access mbind outcome_bind].
  assert (exists r, m = [82; 84; 80; 83; major v; minor v] ++ vendor ++ source ++ r)
    as [r Hm].
  { eexists. unfold m, encode_message, h, rtps_header_bytes. by rewrite <- !app_assoc. }
  assert (mload m 0 = Some 82 /\ mload m 1 = Some 84 /\ mload m 2 = Some 80 /\
    mload m 3 = Some 83 /\ mload m 4 = Some (major v) /\ mload m 5 = Some (minor v))
    as (-> & -> & -> & -> & -> & ->) by (rewrite Hm; done).
  assert (mslice m 6 2 = Some vendor) as Hvendor
    by (rewrite Hm; by apply mslice_app_exact; simpl; lia).
  assert (mslice m 8 12 = Some source) as Hsource.
  { rewrite Hm, (app_assoc _ vendor). apply mslice_app_exact; [|lia].
    rewrite length_app. simpl. lia. }
  clearbody m. cbn [stop_if access mbind outcome_bind Z.eqb negb orb Pos.eqb].
  assert (negb (major v =? 2) || (minor v =? 0) || (5 <? minor v) = false) as ->.
  { unfold supported_version in Hv. destruct (major v =? 2), (minor v =? 0); try done.
    simpl in *. apply Z.leb_le in Hv. by apply Z.ltb_ge. }
  cbn [stop_if mbind outcome_bind].
  rewrite Hvendor, Hsource. cbn [access mbind outcome_bind].
  replace {| major := major v; minor := minor v |} with v by (by destruct v).
  fold (initial_context v vendor source). rewrite Hloop.
  edestruct (walk_result wid wocc (xs ++ option_list tail_)) as [occ Hwalk];
    [| |rewrite Hwalk]; [done|cbn [rs_occurrence]; rewrite length_app; lia|].
  unfold routed. cbn [rs_context rs_candidate rs_found rs_occurrence rs_offset].
  destruct (for_each sub_info _ _) as [| |ctx']; cbn [mbind outcome_bind]; [done..|].
  cbn [rs_context rs_candidate rs_found rs_occurrence rs_offset].
  assert ((header_size + subs_size (xs ++ option_list tail_) =? zlen m) = true) as ->
    by (apply Z.eqb_eq; unfold header_size; lia).
  rewrite Z.sub_0_r.
  destruct (nth_sub wid wocc _ _ _); reflexivity.
Qed.

(** A message with a single submessage that is not an INFO submessage. *)
Definition is_info (id : Z) : bool :=
  (id =? submessage_id_info_destination) || (id =? submessage_id_info_source) ||
  (id =? submessage_id_info_timestamp).

Definition single_message (v : ProtocolVersion) (vendor source : list Z)
    (x : submessage) : list Z :=
  encode_message (rtps_header_bytes v vendor source) [x] None.

Lemma single_message_length v vendor source x :
  length vendor = 2%nat -> length source = 12%nat ->
  zlen (single_message v vendor source x) = 24 + zlen (sub_content x).
Proof.
  intros Hv Hs. unfold single_message. rewrite encode_message_length.
  unfold rtps_header_bytes, subs_size, sub_size. rewrite !length_app.
  cbn [length app option_list foldr]. simpl foldr. lia.
Qed.

Lemma find_single v vendor source x :
  supported_version v = true -> length vendor = 2%nat -> length source = 12%nat ->
  is_info (sub_id x) = false -> 0 < zlen (sub_content x) <= u16_max ->
  let m := single_message v vendor source x in
  find_submessage_body (Some m) (zlen m) (sub_id x) 0 =
  Done (sub_view (initial_context v vendor source) x header_size).
Proof.
  intros Hv Hven Hsrc Hinfo Hlen m.
  pose proof (single_message_length v vendor source x Hven Hsrc) as Hm.
  unfold u16_max in Hlen. unfold m, single_message in *.
  rewrite find_body_encoded; [|done..| |done|lia].
  - unfold routed. cbn [app option_list for_each nth_sub].
    rewrite !Z.eqb_refl. cbn [andb].
    assert (forall ctx, sub_info x ctx = Done ctx) as Hsub.
    { intros ctx. unfold sub_info, apply_info. unfold is_info in Hinfo.
      destruct (sub_id x =? submessage_id_info_destination); [done|].
      destruct (sub_id x =? submessage_id_info_source); [done|].
      destruct (sub_id x =? submessage_id_info_timestamp); done. }
    by rewrite Hsub.
  - constructor; [|constructor]. split; [unfold u16_max; lia|].
    intros Hnil. rewrite Hnil in Hlen. simpl in Hlen. lia.
Qed.

(** For every byte sequence, wanted id and occurrence, routing a message
    terminates (the walk needs at most one iteration per byte), reads nothing
    outside the message, changes the caller's view only when it succeeds, and
    a successful view designates exactly [content_size] bytes of content. *)
Theorem find_submessage_total message message_size wid wocc view :
  message_ok message message_size ->
  exists e v, find_submessage message message_size wid wocc view = Some (e, v) /\
    (e <> route_none -> v = view) /\
    (e = route_none -> exists c, view_ok v c).
Proof.
  intros Hm. pose proof (find_body_safe message message_size wid wocc Hm) as Hsafe.
  pose proof (find_body_view message message_size wid wocc) as Hview.
  pose proof (find_body_error message message_size wid wocc) as Herr.
  unfold find_submessage.
  destruct (find_submessage_body message message_size wid wocc) as [|e|v];
    simpl; [done|exists e, view|exists route_none, v]; naive_solver.
Qed.

Lemma find_submessage_total_witness :
  exists e v, find_submessage (Some (replicate 24 0)) 24 21 0
    RoutedSubmessageView_default = Some (e, v) /\
    (e <> route_none -> v = RoutedSubmessageView_default) /\
    (e = route_none -> exists c, view_ok v c).
Proof.
  apply (find_submessage_total (Some (replicate 24 0)) 24 21 0).
  split; [lia|]. intros m [= <-]. split; [done|].
  repeat constructor; lia.
Defined.

(** ** What the INFO submessages say *)

(** The INFO submessages of RTPS 2.5 as values. *)
Inductive info : Set :=
  | InfoDestination (prefix : GuidPrefix)
  | InfoSource (v : ProtocolVersion) (vendor : VendorId) (prefix : GuidPrefix)
  | InfoTimestamp (t : RtpsTimestamp)
  | InfoNoTimestamp
  | NoInfo.

(** The bytes of each of them; the second flag of an INFO_TS invalidates the timestamp.  Any
    other submessage says nothing. *)
Inductive says (x : submessage) : info -> Prop :=
  | says_destination prefix :
      sub_id x = 14 -> length prefix = 12%nat -> sub_content x = prefix ->
      says x (InfoDestination prefix)
  | says_source unused v vendor prefix :
      sub_id x = 12 -> length unused = 4%nat -> length vendor = 2%nat ->
      length prefix = 12%nat -> major v = 2 -> 1 <= minor v <= 5 ->
      sub_content x = unused ++ [major v; minor v] ++ vendor ++ prefix ->
      says x (InfoSource v vendor prefix)
  | says_timestamp t :
      sub_id x = 9 -> Z.testbit (sub_flags x) 1 = false ->
      - 2 ^ 31 <= seconds t < 2 ^ 31 -> 0 <= fraction t < 2 ^ 32 ->
      sub_content x = encode_uint (sub_order x) 4 (seconds t mod 2 ^ 32) ++
                      encode_uint (sub_order x) 4 (fraction t) ->
      says x (InfoTimestamp t)
  | says_no_timestamp :
      sub_id x = 9 -> Z.testbit (sub_flags x) 1 = true -> sub_content x = [] ->
      says x InfoNoTimestamp
  | says_nothing :
      sub_id x <> 14 -> sub_id x <> 12 -> sub_id x <> 9 -> says x NoInfo.

(** The error for an INFO submessage that says nothing meaningful. *)
Definition info_error (x : submessage) : MessageRouteError :=
  if decide (sub_id x = 12 /\ length (sub_content x) = 20%nat) then unsupported_version
  else invalid_info_submessage.

Definition info_destination (i : info) : option GuidPrefix :=
  match i with InfoDestination p => Some p | _ => None end.

Definition info_source (i : info) : option (ProtocolVersion * VendorId * GuidPrefix) :=
  match i with InfoSource v vendor p => Some (v, vendor, p) | _ => None end.

Definition info_timestamp (i : info) : option RtpsTimestamp :=
  match i with InfoTimestamp t => Some t | _ => None end.

Definition info_has_timestamp (i : info) : option bool :=
  match i with InfoTimestamp _ => Some true | InfoNoTimestamp => Some false | _ => None end.

(** The last thing said before a submessage, or the default. *)
Definition last_said {A} (f : info -> option A) (d : A) (infos : list info) : A :=
  default d (last (omap f infos)).

(** The view of a submessage at [off] behind [infos] in a message with the given header. *)
Definition view_behind (v : ProtocolVersion) (vendor source : list Z) (infos : list info)
    (x : submessage) (off : Z) : RoutedSubmessageView :=
  let '(v', vendor', source') := last_said info_source (v, vendor, source) infos in
  let destination := last_said info_destination (replicate 12 0) infos in
  {| version := v'; vendor_id := vendor'; source_guid_prefix := source';
     destination_guid_prefix := destination;
     has_destination := bool_decide (Exists (fun octet => octet <> 0) destination);
     source_timestamp := last_said info_timestamp {| seconds := 0; fraction := 0 |} infos;
     has_source_timestamp := last_said info_has_timestamp false infos;
     id := sub_id x; flags := sub_flags x;
     byte_order := if Z.testbit (sub_flags x) 0 then little_endian else big_endian;
     content := Some (sub_content x); content_size := zlen (sub_content x); offset := off |}.

(** The contexts of the code. *)
Definition context_behind (v : ProtocolVersion) (vendor source : list Z) (infos : list info)
    : RouteContext :=
  let '(v', vendor', source') := last_said info_source (v, vendor, source) infos in
  let destination := last_said info_destination (replicate 12 0) infos in
  {| ctx_version := v'; ctx_vendor_id := vendor'; ctx_source := source';
     ctx_destination := destination;
     ctx_has_destination := bool_decide (Exists (fun octet => octet <> 0) destination);
     ctx_timestamp := last_said info_timestamp {| seconds := 0; fraction := 0 |} infos;
     ctx_has_timestamp := last_said info_has_timestamp false infos |}.

Lemma last_said_snoc {A} (f : info -> option A) d infos i :
  last_said f d (infos ++ [i]) = default (last_said f d infos) (f i).
Proof.
  unfold last_said. rewrite omap_app. csimpl. destruct (f i) as [a|]; simpl.
  - by rewrite last_snoc.
  - by rewrite app_nil_r.
Qed.

Lemma nonzero_prefix_exists p : nonzero_prefix p = bool_decide (Exists (fun octet => octet <> 0) p).
Proof.
  unfold nonzero_prefix. apply eq_bool_prop_intro. rewrite Is_true_true, existsb_exists.
  rewrite Is_true_true, bool_decide_eq_true, Exists_exists. setoid_rewrite list_elem_of_In.
  by setoid_rewrite negb_true_iff; setoid_rewrite Z.eqb_neq.
Qed.

Lemma flag_set flags n : 0 <= n -> negb (Z.land flags (2 ^ n) =? 0) = Z.testbit flags n.
Proof.
  intros Hn. destruct (Z.testbit flags n) eqn:Hb.
  - apply negb_true_iff, Z.eqb_neq. intros H0.
    assert (Z.testbit (Z.land flags (2 ^ n)) n = false) as Hf by (by rewrite H0, Z.bits_0).
    rewrite Z.land_spec, Hb, Z.pow2_bits_true in Hf by done. done.
  - apply negb_false_iff, Z.eqb_eq. apply Z.bits_inj_0. intros k.
    rewrite Z.land_spec. destruct (decide (k = n)) as [->|Hk]; [by rewrite Hb|].
    by rewrite Z.pow2_bits_false, andb_false_r by done.
Qed.

Lemma first_flag flags : negb (Z.land flags 1 =? 0) = Z.testbit flags 0.
Proof. by apply (flag_set flags 0). Qed.

Lemma second_flag flags : negb (Z.land flags 2 =? 0) = Z.testbit flags 1.
Proof. by apply (flag_set flags 1). Qed.

(** The fields of an INFO_SRC. *)
Lemma source_fields unused v vendor prefix :
  length unused = 4%nat -> length vendor = 2%nat -> length prefix = 12%nat ->
  let c := unused ++ [major v; minor v] ++ vendor ++ prefix in
  mload c 4 = Some (major v) /\ mload c 5 = Some (minor v) /\
  mslice c 6 2 = Some vendor /\ mslice c 8 12 = Some prefix.
Proof.
  intros Hu Hv Hp c. unfold c. split_and!.
  - by rewrite mload_app_r by lia; rewrite Hu.
  - by rewrite mload_app_r by lia; rewrite Hu.
  - rewrite (app_assoc unused). apply mslice_app_exact; rewrite ?length_app; simpl; lia.
  - rewrite (app_assoc unused), (app_assoc _ vendor), <- (app_nil_r (_ ++ prefix)), <- app_assoc.
    apply mslice_app_exact; rewrite ?length_app; simpl; lia.
Qed.

Lemma source_split c :
  length c = 20%nat -> exists unused v vendor prefix,
    c = unused ++ [major v; minor v] ++ vendor ++ prefix /\ length unused = 4%nat /\
    length vendor = 2%nat /\ length prefix = 12%nat.
Proof.
  intros Hc. destruct c as [|c0 [|c1 [|c2 [|c3 [|c4 [|c5 [|c6 [|c7 c]]]]]]]]; try done.
  exists [c0; c1; c2; c3], {| major := c4; minor := c5 |}, [c6; c7], c.
  split_and!; [done..|]. simpl in Hc. lia.
Qed.

(** The fields of an INFO_TS. *)
Lemma timestamp_split order c :
  length c = 8%nat -> bytes_ok c -> exists t,
    c = encode_uint order 4 (seconds t mod 2 ^ 32) ++ encode_uint order 4 (fraction t) /\
    - 2 ^ 31 <= seconds t < 2 ^ 31 /\ 0 <= fraction t < 2 ^ 32.
Proof.
  intros Hl Hc. rewrite <- (take_drop 4 c) in Hc. apply Forall_app in Hc as [H1 H2].
  destruct (encode_uint32_onto order (take 4 c)) as (s & Hs & Es);
    [rewrite length_take; lia|done|].
  destruct (encode_uint32_onto order (drop 4 c)) as (f & Hf & Ef);
    [rewrite length_drop; lia|done|].
  exists {| seconds := signed 32 s; fraction := f |}. cbn [seconds fraction].
  assert (signed 32 s mod 2 ^ 32 = s /\ - 2 ^ 31 <= signed 32 s < 2 ^ 31) as [-> Hr].
  { unfold signed. destruct (Z.ltb_spec s (2 ^ (32 - 1))).
    - rewrite Z.mod_small by done. lia.
    - rewrite <- (Z.mod_unique (s - 2 ^ 32) (2 ^ 32) (-1) s) by lia. lia. }
  split; [|done]. rewrite <- Es, <- Ef. by rewrite take_drop.
Qed.

(** A meaningful INFO submessage does to the context what it says. *)
Lemma info_applied v vendor source infos x i :
  says x i ->
  sub_info x (context_behind v vendor source infos) =
  Done (context_behind v vendor source (infos ++ [i])).
Proof.
  intros Hx. unfold sub_info, apply_info, context_behind. rewrite !last_said_snoc.
  unfold submessage_id_info_destination, submessage_id_info_source, submessage_id_info_timestamp,
    invalidate_flag.
  destruct (last_said info_source (v, vendor, source) infos) as [[v' vendor'] source'].
  destruct Hx as [prefix -> Hl -> |unused w ven prefix -> Hu Hv Hp Hmaj Hmin Hc|
    t -> Hf Hs Hfr Hc| -> Hf -> |H1 H2 H3].
  - cbn [Z.eqb Pos.eqb]. rewrite (proj2 (Z.eqb_eq (zlen prefix) 12)) by lia.
    cbn [negb stop_if mbind outcome_bind].
    pose proof (mslice_app_exact [] prefix [] 0 12 eq_refl ltac:(lia)) as Hsl.
    rewrite app_nil_r in Hsl. cbn [app] in Hsl. rewrite Hsl. cbn.
    unfold set_destination. by rewrite nonzero_prefix_exists.
  - cbn [Z.eqb Pos.eqb]. rewrite Hc.
    assert (zlen (unused ++ [major w; minor w] ++ ven ++ prefix) = 20) as ->
      by (rewrite !length_app; simpl; lia).
    destruct (source_fields unused w ven prefix) as (-> & -> & -> & ->); [done..|].
    cbn [negb Z.eqb Pos.eqb access stop_if mbind outcome_bind]. rewrite Hmaj.
    destruct (Z.eqb_spec (minor w) 0), (Z.ltb_spec 5 (minor w)); try lia.
    cbn. destruct w; simpl in *. by subst.
  - cbn [Z.eqb Pos.eqb]. rewrite second_flag, Hf, Hc.
    rewrite length_app, !encode_uint_length. cbn [negb Z.eqb Pos.eqb].
    change (Z.of_nat (Z.to_nat 4 + Z.to_nat 4) =? 8) with true.
    cbn [negb stop_if mbind outcome_bind]. unfold read_u32.
    rewrite read_uint32_start by (apply Z.mod_pos_bound; lia). cbn [mbind outcome_bind].
    rewrite <- (app_nil_r (encode_uint _ 4 (fraction t))).
    rewrite read_uint32_encode by (rewrite ?encode_uint_length; done). cbn.
    unfold set_timestamp, i32_of_bits. cbn. rewrite (signed_roundtrip 32) by lia.
    by destruct t.
  - cbn [Z.eqb Pos.eqb]. by rewrite second_flag, Hf.
  - rewrite !(proj2 (Z.eqb_neq _ _)) by done. cbn. by rewrite ?app_nil_r.
Qed.

(** Any other INFO submessage is refused. *)
Lemma info_cases x :
  bytes_ok (sub_content x) ->
  (exists i, says x i) \/ (forall ctx, sub_info x ctx = Stop (info_error x)).
Proof.
  intros Hb. unfold sub_info, apply_info, info_error, submessage_id_info_destination,
    submessage_id_info_source, submessage_id_info_timestamp, invalidate_flag.
  destruct (Z.eqb_spec (sub_id x) 14) as [H14|H14].
  { rewrite decide_False by lia. destruct (Z.eqb_spec (zlen (sub_content x)) 12); [|by right].
    left. eexists. apply says_destination; [done| |done]. lia. }
  destruct (Z.eqb_spec (sub_id x) 12) as [H12|H12].
  { destruct (Z.eqb_spec (zlen (sub_content x)) 20) as [Hl|Hl]; cbn [negb stop_if mbind outcome_bind];
      [|right; rewrite decide_False by lia; done].
    rewrite decide_True by lia. destruct (source_split (sub_content x)) as (u & v & ve & p & Hc & Hu & Hv & Hp);
      [lia|].
    rewrite Hc in *. destruct (source_fields u v ve p Hu Hv Hp) as (-> & -> & _).
    cbn [access mbind outcome_bind].
    apply Forall_app in Hb as [_ Hb]. apply Forall_cons in Hb as [_ Hb].
    apply Forall_cons in Hb as [Hminor _]. unfold byte_ok in Hminor.
    destruct (Z.eqb_spec (major v) 2), (Z.eqb_spec (minor v) 0), (Z.ltb_spec 5 (minor v));
      cbn [negb orb]; try by right.
    left. exists (InfoSource v ve p). apply (says_source x u); (done || lia). }
  destruct (Z.eqb_spec (sub_id x) 9) as [H9|H9].
  { rewrite decide_False by lia. rewrite second_flag.
    destruct (Z.testbit (sub_flags x) 1) eqn:Hf.
    - destruct (Z.eqb_spec (zlen (sub_content x)) 0); [|by right].
      left. exists InfoNoTimestamp. apply says_no_timestamp; [done..|].
      by destruct (sub_content x).
    - destruct (Z.eqb_spec (zlen (sub_content x)) 8) as [Hl|]; [left|by right].
      destruct (timestamp_split (sub_order x) (sub_content x)) as (t & Hc & Ht & Hfr); [lia|done|].
      exists (InfoTimestamp t). by apply says_timestamp. }
  left. exists NoInfo. by apply says_nothing.
Qed.

Lemma info_refused x ctx :
  bytes_ok (sub_content x) -> (forall i, ~ says x i) -> sub_info x ctx = Stop (info_error x).
Proof. intros Hb Hn. destruct (info_cases x Hb) as [[i Hi]|Hs]; [by apply Hn in Hi|done]. Qed.

(** The submessages up to the first one that is refused. *)
Lemma said_prefix xs :
  Forall (fun x => bytes_ok (sub_content x)) xs ->
  exists pre rest infos, xs = pre ++ rest /\ Forall2 says pre infos /\
    from_option (fun x => forall ctx, sub_info x ctx = Stop (info_error x)) True (head rest).
Proof.
  induction 1 as [|x xs Hx _ IH]; [by exists [], [], []|].
  destruct (info_cases x Hx) as [[i Hi]|Hs]; [|by exists [], (x :: xs), []].
  destruct IH as (pre & rest & infos & -> & Hpre & Hrest).
  exists (x :: pre), rest, (i :: infos). split_and!; [done|by constructor|done].
Qed.

Lemma said_context v vendor source xs infos :
  Forall2 says xs infos -> forall before,
  for_each sub_info xs (context_behind v vendor source before) =
  Done (context_behind v vendor source (before ++ infos)).
Proof.
  induction 1 as [|x i xs infos Hx _ IH]; intros before; cbn [for_each].
  - by rewrite app_nil_r.
  - rewrite (info_applied v vendor source before x i Hx). cbn [mbind outcome_bind].
    by rewrite IH, <- app_assoc.
Qed.

(** How often an id occurs. *)
Definition occurrences (wid : Z) (xs : list submessage) : Z :=
  zlen (filter (fun x => sub_id x = wid) xs).

Lemma occurrences_cons wid x xs :
  occurrences wid (x :: xs) = (if sub_id x =? wid then 1 else 0) + occurrences wid xs.
Proof.
  unfold occurrences. rewrite filter_cons.
  destruct (Z.eqb_spec (sub_id x) wid); [rewrite decide_True by done|rewrite decide_False by done];
    simpl length; lia.
Qed.

Lemma nth_occurrence wid xs : forall n,
  0 <= n -> occurrences wid xs <= n \/
  exists p x q, xs = p ++ x :: q /\ sub_id x = wid /\ occurrences wid p = n.
Proof.
  induction xs as [|x xs IH]; intros n Hn; [by left|]. rewrite occurrences_cons.
  destruct (Z.eqb_spec (sub_id x) wid) as [Hx|Hx].
  - destruct (decide (n = 0)) as [->|Hn0]; [right; by exists [], x, xs|].
    destruct (IH (n - 1)) as [?|(p & y & q & -> & Hy & Hp)]; [lia|left; lia|].
    right. exists (x :: p), y, q. rewrite occurrences_cons, (proj2 (Z.eqb_eq _ _)) by done.
    split_and!; [done..|lia].
  - destruct (IH n Hn) as [?|(p & y & q & -> & Hy & Hp)]; [left; lia|].
    right. exists (x :: p), y, q. rewrite occurrences_cons.
    rewrite (proj2 (Z.eqb_neq _ _)) by done. split_and!; [done..|lia].
Qed.

Lemma nth_sub_found v vendor source wid x post pre infos :
  Forall2 says pre infos -> sub_id x = wid -> forall before off,
  nth_sub wid (occurrences wid pre) (context_behind v vendor source before) off (pre ++ x :: post)
  = Some (sub_view (context_behind v vendor source (before ++ infos)) x (off + subs_size pre)).
Proof.
  intros Hpre Hx. induction Hpre as [|y i pre infos Hy _ IH]; intros before off.
  - cbn. by rewrite (proj2 (Z.eqb_eq _ _) Hx), app_nil_r, Z.add_0_r.
  - cbn [app nth_sub]. rewrite (info_applied v vendor source before y i Hy).
    rewrite occurrences_cons. pose proof (Nat2Z.is_nonneg (length (filter (fun x => sub_id x = wid) pre))).
    fold (occurrences wid pre) in H.
    destruct (Z.eqb_spec (sub_id y) wid); cbn [andb].
    + destruct (Z.eqb_spec (1 + occurrences wid pre) 0); [lia|].
      replace (1 + occurrences wid pre - 1) with (occurrences wid pre) by lia.
      rewrite IH, <- app_assoc. cbn [app subs_size foldr]. fold (subs_size pre). do 2 f_equal. lia.
    + rewrite Z.add_0_l, IH, <- app_assoc. cbn [app subs_size foldr]. fold (subs_size pre).
      do 2 f_equal. lia.
Qed.

Lemma nth_sub_absent v vendor source wid xs infos :
  Forall2 says xs infos -> forall n before off,
  occurrences wid xs <= n ->
  nth_sub wid n (context_behind v vendor source before) off xs = None.
Proof.
  induction 1 as [|y i xs infos Hy _ IH]; intros n before off Hn; [done|]. cbn [nth_sub].
  rewrite occurrences_cons in Hn. unfold occurrences in Hn at 1.
  rewrite (info_applied v vendor source before y i Hy).
  destruct (Z.eqb_spec (sub_id y) wid); cbn [andb].
  - destruct (Z.eqb_spec n 0); [lia|]. apply IH. unfold occurrences. lia.
  - apply IH. unfold occurrences. lia.
Qed.

Lemma sub_view_behind v vendor source infos x off :
  sub_view (context_behind v vendor source infos) x off =
  view_behind v vendor source infos x off.
Proof.
  unfold sub_view, candidate_of, view_behind, context_behind, sub_order, order_of_flags,
    endianness_flag. rewrite first_flag.
  by destruct (last_said info_source (v, vendor, source) infos) as [[] ?].
Qed.

(** C37: routing is correct with respect to the RTPS message grammar.  A message is a header
    and any submessages, each with its declared length, the last one possibly with the
    open-ended length 0.  [find_submessage] reports the first INFO submessage that is not
    well formed (of the wrong size, or an INFO_SRC of an unsupported version) and leaves
    the caller's view alone.  When there is none it returns the wanted occurrence of the
    wanted id, with its place and content, the sender and version of the last INFO_SRC in
    front of it or else of the header, the last INFO_DST, the last INFO_TS and whether that
    timestamp is still valid; or it reports that there are too few occurrences. *)
Theorem find_submessage_routes v vendor source xs tail_ wid wocc view :
  supported_version v = true -> length vendor = 2%nat -> length source = 12%nat ->
  Forall sub_ok xs -> from_option last_ok True tail_ -> 0 <= wocc ->
  let all := xs ++ option_list tail_ in
  Forall (fun x => bytes_ok (sub_content x)) all ->
  let m := encode_message (rtps_header_bytes v vendor source) xs tail_ in
  zlen m < 2 ^ 64 ->
  let result := find_submessage (Some m) (zlen m) wid wocc view in
  exists pre rest infos, all = pre ++ rest /\ Forall2 says pre infos /\
    match rest with
    | x :: _ => (forall i, ~ says x i) /\ result = Some (info_error x, view)
    | [] =>
        (exists front x back, pre = front ++ x :: back /\ sub_id x = wid /\
           occurrences wid front = wocc /\
           result = Some (route_none,
             view_behind v vendor source (take (length front) infos) x (20 + subs_size front))) \/
        (occurrences wid pre <= wocc /\ result = Some (submessage_not_found, view))
    end.
Proof.
  intros Hv Hven Hsrc Hxs Htail Hocc all Hb m H64 result.
  assert (result = commit route_none view
    (routed all wid wocc (context_behind v vendor source []))) as ->.
  { unfold result, find_submessage, m. by rewrite find_body_encoded. }
  destruct (said_prefix all Hb) as (pre & rest & infos & Hall & Hpre & Hrest).
  exists pre, rest, infos. split; [done|]. split; [done|]. unfold routed. rewrite Hall.
  rewrite for_each_app, (said_context v vendor source pre infos Hpre). cbn [mbind outcome_bind].
  destruct rest as [|x rest]; cbn [for_each mbind outcome_bind].
  - rewrite app_nil_r. destruct (nth_occurrence wid pre wocc Hocc)
      as [Hno|(front & x & back & -> & Hx & Hn)].
    + right. split; [done|]. by rewrite (nth_sub_absent v vendor source wid pre infos Hpre wocc).
    + left. exists front, x, back. split_and!; [done..|].
      apply Forall2_app_inv_l in Hpre as (infos1 & infos2 & Hfront & _ & ->).
      rewrite <- Hn, (nth_sub_found v vendor source wid x back front infos1 Hfront Hx).
      rewrite (Forall2_length _ _ _ Hfront), take_app_length, sub_view_behind. done.
  - split; [|by rewrite (Hrest _)]. intros i Hi.
    pose proof (info_applied v vendor source [] x i Hi) as Ha. cbn in Hrest. by rewrite Hrest in Ha.
Qed.

(** A message with an INFO_DST, a PAD and an open-ended DATA. *)
Lemma find_submessage_routes_witness :
  let dst := {| sub_id := 14; sub_flags := 1; sub_content := replicate 12 7 |} in
  let pad := {| sub_id := 1; sub_flags := 0; sub_content := [] |} in
  let data := {| sub_id := 21; sub_flags := 5; sub_content := [1; 2; 3] |} in
  let m := encode_message
    (rtps_header_bytes ProtocolVersion_default [1; 2] (replicate 12 9))
    [dst; pad] (Some data) in
  exists front x infos,
    find_submessage (Some m) (zlen m) 21 0 RoutedSubmessageView_default =
      Some (route_none, view_behind ProtocolVersion_default [1; 2] (replicate 12 9)
        (take (length front) infos) x (20 + subs_size front)) /\
    sub_id x = 21 /\
    (fun '(_, view) => (destination_guid_prefix view, content view, offset view)) <$>
      find_submessage (Some m) (zlen m) 21 0 RoutedSubmessageView_default =
    Some (replicate 12 7, Some [1; 2; 3], 40).
Proof.
  intros dst pad data m.
  destruct (find_submessage_routes ProtocolVersion_default [1; 2] (replicate 12 9) [dst; pad]
    (Some data) 21 0 RoutedSubmessageView_default) as (pre & rest & infos & Hall & Hsays & Hr);
    [done|done|done|repeat constructor; simpl; unfold u16_max; naive_solver lia|done|lia
    |repeat constructor; unfold byte_ok; lia|vm_compute; done|].
  fold m in Hr. destruct rest as [|y rest].
  - destruct Hr as [(front & x & back & _ & Hx & _ & Hr)|[_ Hr]]; [|vm_compute in Hr; discriminate].
    exists front, x, infos. split_and!; [exact Hr|exact Hx|vm_compute; reflexivity].
  - destruct Hr as [_ Hr]. exfalso. revert Hr. unfold info_error.
    destruct (decide _); vm_compute; discriminate.
Defined.

End Router.
