(* ===== verification/DataMessage.v ===== *)
(** * RTPS DATA messages

    [include/openrtdds/rtps/data_message.hpp] and [src/rtps/data_message.cpp]:
    the builder of a message with one unfragmented DATA submessage, and the
    parser of the first DATA submessage of a compound message. *)
From S2P Require Import Prelude Bytes Types MessageRouter.

Module Data.
Import Types.

Inductive RtpsError : Set :=
  | rtps_none
  | invalid_argument
  | buffer_overflow
  | message_too_large
  | truncated
  | invalid_protocol
  | unsupported_version
  | unsupported_submessage
  | unsupported_feature
  | invalid_submessage
  | invalid_sequence_number
  | invalid_serialized_payload.

#[global] Instance RtpsError_eq_dec : EqDecision RtpsError.
Proof. solve_decision. Defined.

Definition rtps_error_string (error : RtpsError) : string :=
  match error with
  | rtps_none => "none"
  | invalid_argument => "invalid argument"
  | buffer_overflow => "output buffer overflow"
  | message_too_large => "message exceeds UDP payload limit"
  | truncated => "truncated RTPS message"
  | invalid_protocol => "invalid RTPS protocol header"
  | unsupported_version => "unsupported RTPS protocol version"
  | unsupported_submessage => "unsupported RTPS submessage"
  | unsupported_feature => "unsupported RTPS feature"
  | invalid_submessage => "invalid DATA submessage"
  | invalid_sequence_number => "invalid RTPS sequence number"
  | invalid_serialized_payload => "invalid or unsupported serialized payload"
  end.

Record DataMessageConfig : Set := {
  cfg_version : ProtocolVersion;
  cfg_vendor_id : VendorId;
  cfg_guid_prefix : GuidPrefix;
  cfg_reader_id : EntityId;
  cfg_writer_id : EntityId;
  cfg_sequence_number : Z;
  cfg_byte_order : ByteOrder;
}.

Record DataMessageBuilder : Set := {
  buffer_ : option (list Z);
  capacity_ : Z;
  size_ : Z;
  error_ : RtpsError;
}.

Record DataMessageView : Set := {
  version : ProtocolVersion;
  vendor_id : VendorId;
  guid_prefix : GuidPrefix;
  destination_guid_prefix : GuidPrefix;
  has_destination : bool;
  source_timestamp_seconds : Z;
  source_timestamp_fraction : Z;
  has_source_timestamp : bool;
  reader_id : EntityId;
  writer_id : EntityId;
  sequence_number : Z;
  submessage_byte_order : ByteOrder;
  serialized_payload : option (list Z);
  payload_size : Z;
}.

Definition DataMessageView_default : DataMessageView :=
  {| version := ProtocolVersion_default; vendor_id := VendorId_default;
     guid_prefix := GuidPrefix_default; destination_guid_prefix := GuidPrefix_default;
     has_destination := false; source_timestamp_seconds := 0;
     source_timestamp_fraction := 0; has_source_timestamp := false;
     reader_id := EntityId_default; writer_id := EntityId_default; sequence_number := 0;
     submessage_byte_order := little_endian; serialized_payload := None;
     payload_size := 0 |}.

Definition rtps_header_size : Z := 20.
Definition submessage_header_size : Z := 4.
Definition data_fixed_content_size : Z := 20.
Definition data_message_overhead : Z :=
  rtps_header_size + submessage_header_size + data_fixed_content_size.
Definition minimum_serialized_payload_size : Z := 4.
Definition maximum_udp_payload_size : Z := 65507.
Definition data_submessage_id : Z := 21.
Definition endianness_flag : Z := 1.
Definition inline_qos_flag : Z := 2.
Definition data_flag : Z := 4.
Definition key_flag : Z := 8.
Definition nonstandard_payload_flag : Z := 16.
Definition octets_to_inline_qos : Z := 16.

Definition route_error (error : Router.MessageRouteError) : RtpsError :=
  match error with
  | Router.route_none => rtps_none
  | Router.invalid_argument => invalid_argument
  | Router.truncated => truncated
  | Router.invalid_protocol => invalid_protocol
  | Router.unsupported_version => unsupported_version
  | Router.submessage_not_found => unsupported_submessage
  | Router.malformed_submessage | Router.invalid_info_submessage => invalid_submessage
  end.

Definition supported_serialized_payload {E} (payload : option (list Z)) (size : Z)
    : outcome E bool :=
  match payload with
  | None => Done false
  | Some p =>
      if minimum_serialized_payload_size <=? size then
        p0 ← access (mload p 0);
        if p0 =? 0 then
          p1 ← access (mload p 1);
          Done (p1 <=? 3)
        else Done false
      else Done false
  end.

Definition null_with_size (p : option (list Z)) (size : Z) : bool :=
  match p with None => negb (size =? 0) | Some _ => false end.

Definition DataMessageBuilder_new (buffer : option (list Z)) (capacity : Z)
    : DataMessageBuilder :=
  {| buffer_ := buffer; capacity_ := capacity; size_ := 0;
     error_ := if null_with_size buffer capacity then invalid_argument else rtps_none |}.

(** [return fail(error);] of a builder whose [error_] was reset. *)
Definition fail_state (b : DataMessageBuilder) (error : RtpsError) : DataMessageBuilder :=
  {| buffer_ := buffer_ b; capacity_ := capacity_ b; size_ := size_ b;
     error_ := if decide (error_ b = rtps_none) then error else error_ b |}.

Definition fail_if (c : bool) (b : DataMessageBuilder) (error : RtpsError)
    : outcome DataMessageBuilder unit :=
  stop_if c (fail_state b error).

(** The stores of [build], in source order. *)
Definition store_message {E} (m : list Z) (config : DataMessageConfig)
    (submessage_content_size : Z) (payload : list Z) : outcome E (list Z) :=
  let order := cfg_byte_order config in
  m ← access (mstore m 0 82);
  m ← access (mstore m 1 84);
  m ← access (mstore m 2 80);
  m ← access (mstore m 3 83);
  m ← access (mstore m 4 (major (cfg_version config)));
  m ← access (mstore m 5 (minor (cfg_version config)));
  m ← access (mcopy m 6 (cfg_vendor_id config));
  m ← access (mcopy m 8 (cfg_guid_prefix config));
  m ← access (mstore m 20 data_submessage_id);
  m ← access (mstore m 21 data_flag);
  m ← when (is_little order) (fun m => or_at m 21 endianness_flag) m;
  m ← write_uint16 m 22 (u16 submessage_content_size) order;
  m ← write_uint16 m 24 0 order;
  m ← write_uint16 m 26 octets_to_inline_qos order;
  m ← access (mcopy m 28 (cfg_reader_id config));
  m ← access (mcopy m 32 (cfg_writer_id config));
  m ← write_uint32 m 36 (u32 (Z.shiftr (cfg_sequence_number config) 32)) order;
  m ← write_uint32 m 40 (Z.land (cfg_sequence_number config) 4294967295) order;
  access (mcopy m 44 payload).

(** [DataMessageBuilder::build]: [Done] is [true]. *)
Definition build (b : DataMessageBuilder) (config : DataMessageConfig)
    (serialized_payload : option (list Z)) (payload_size : Z)
    : outcome DataMessageBuilder DataMessageBuilder :=
  let b := {| buffer_ := buffer_ b; capacity_ := capacity_ b; size_ := 0;
              error_ := rtps_none |} in
  fail_if (null_with_size (buffer_ b) (capacity_ b)) b invalid_argument;;
  fail_if (negb (major (cfg_version config) =? 2) || (minor (cfg_version config) =? 0)
           || (5 <? minor (cfg_version config))) b unsupported_version;;
  fail_if (negb (supported_byte_order (cfg_byte_order config))) b invalid_argument;;
  fail_if ((cfg_sequence_number config =? 0) || (i64_max <? cfg_sequence_number config))
    b invalid_sequence_number;;
  supported ← supported_serialized_payload serialized_payload payload_size;
  fail_if (negb supported) b invalid_serialized_payload;;
  fail_if (sub64 size_max data_message_overhead <? payload_size) b message_too_large;;
  let message_size := add64 data_message_overhead payload_size in
  fail_if (maximum_udp_payload_size <? message_size) b message_too_large;;
  fail_if (capacity_ b <? message_size) b buffer_overflow;;
  let submessage_content_size := add64 data_fixed_content_size payload_size in
  fail_if (u16_max <? submessage_content_size) b message_too_large;;
  m ← access (buffer_ b);
  payload ← access serialized_payload;
  payload ← access (mslice payload 0 payload_size);
  m ← store_message m config submessage_content_size payload;
  Done {| buffer_ := Some m; capacity_ := capacity_ b; size_ := message_size;
          error_ := rtps_none |}.

(** [parse_data_message] behind the call of [find_submessage]. *)
Definition parse_content (routed : Router.RoutedSubmessageView)
    : outcome RtpsError DataMessageView :=
  let flags := Router.flags routed in
  let byte_order := Router.byte_order routed in
  stop_if (Z.land flags data_flag =? 0) invalid_submessage;;
  stop_if (negb (Z.land flags (Z.lor (Z.lor inline_qos_flag key_flag)
                                 nonstandard_payload_flag) =? 0)) unsupported_feature;;
  let content_size := Router.content_size routed in
  stop_if (content_size <? data_fixed_content_size + minimum_serialized_payload_size)
    invalid_submessage;;
  content ← access (Router.content routed);
  extra_flags ← read_uint16 content 0 byte_order;
  stop_if (negb (extra_flags =? 0)) unsupported_feature;;
  inline_qos_offset ← read_uint16 content 2 byte_order;
  stop_if (inline_qos_offset <? octets_to_inline_qos) invalid_submessage;;
  let payload_offset := 4 + inline_qos_offset in
  stop_if ((content_size <? payload_offset) ||
           (sub64 content_size payload_offset <? minimum_serialized_payload_size))
    invalid_submessage;;
  sequence_high_bits ← read_uint32 content 12 byte_order;
  let sequence_high := i32_of_bits sequence_high_bits in
  sequence_low ← read_uint32 content 16 byte_order;
  stop_if (sequence_high <? 0) invalid_sequence_number;;
  let sequence_number := Z.lor (Z.shiftl (u32 sequence_high) 32) sequence_low in
  stop_if (sequence_number =? 0) invalid_sequence_number;;
  let payload_size := sub64 content_size payload_offset in
  payload ← access (mslice content payload_offset payload_size);
  supported ← supported_serialized_payload (Some payload) payload_size;
  stop_if (negb supported) invalid_serialized_payload;;
  reader ← access (mslice content 4 4);
  writer ← access (mslice content 8 4);
  Done {| version := Router.version routed;
          vendor_id := Router.vendor_id routed;
          guid_prefix := Router.source_guid_prefix routed;
          destination_guid_prefix := Router.destination_guid_prefix routed;
          has_destination := Router.has_destination routed;
          source_timestamp_seconds := Router.seconds (Router.source_timestamp routed);
          source_timestamp_fraction := Router.fraction (Router.source_timestamp routed);
          has_source_timestamp := Router.has_source_timestamp routed;
          reader_id := reader; writer_id := writer;
          sequence_number := sequence_number;
          submessage_byte_order := byte_order;
          serialized_payload := Some payload; payload_size := payload_size |}.

Definition parse_body (message : option (list Z)) (message_size : Z)
    : outcome RtpsError DataMessageView :=
  routed ← checked Router.route_none route_error
    (Router.find_submessage message message_size data_submessage_id 0
       Router.RoutedSubmessageView_default);
  parse_content routed.

Definition parse_data_message (message : option (list Z)) (message_size : Z)
    (view : DataMessageView) : option (RtpsError * DataMessageView) :=
  commit rtps_none view (parse_body message message_size).

(** ** What the builder emits *)

Definition data_flags (order : ByteOrder) : Z :=
  if is_little order then Z.lor data_flag endianness_flag else data_flag.

Definition data_content (config : DataMessageConfig) (payload : list Z) : list Z :=
  let order := cfg_byte_order config in
  encode_uint order 2 0 ++ encode_uint order 2 octets_to_inline_qos ++
  cfg_reader_id config ++ cfg_writer_id config ++
  encode_uint order 4 (high_half (cfg_sequence_number config)) ++
  encode_uint order 4 (low_half (cfg_sequence_number config)) ++ payload.

Definition data_submessage (config : DataMessageConfig) (payload : list Z)
    : Router.submessage :=
  {| Router.sub_id := data_submessage_id;
     Router.sub_flags := data_flags (cfg_byte_order config);
     Router.sub_content := data_content config payload |}.

Definition data_message_bytes (config : DataMessageConfig) (payload : list Z) : list Z :=
  Router.single_message (cfg_version config) (cfg_vendor_id config)
    (cfg_guid_prefix config) (data_submessage config payload).

(** Array members of the configuration have the sizes of their C++ types. *)
Record config_ok (config : DataMessageConfig) : Prop := {
  co_vendor : length (cfg_vendor_id config) = 2%nat;
  co_prefix : length (cfg_guid_prefix config) = 12%nat;
  co_reader : length (cfg_reader_id config) = 4%nat;
  co_writer : length (cfg_writer_id config) = 4%nat;
  co_sequence : 0 <= cfg_sequence_number config < 2 ^ 64;
}.

#[local] Opaque encode_uint.

Lemma data_content_length config payload :
  config_ok config -> length (data_content config payload) = (20 + length payload)%nat.
Proof.
  intros []. unfold data_content. rewrite !length_app, !encode_uint_length. lia.
Qed.

Lemma sub_order_data config payload :
  supported_byte_order (cfg_byte_order config) = true ->
  Router.sub_order (data_submessage config payload) = cfg_byte_order config.
Proof. by destruct config as [? ? ? ? ? ? []]. Qed.

Lemma data_message_bytes_eq config payload :
  supported_byte_order (cfg_byte_order config) = true ->
  data_message_bytes config payload =
  rtps_header_bytes (cfg_version config) (cfg_vendor_id config) (cfg_guid_prefix config)
  ++ [data_submessage_id; data_flags (cfg_byte_order config)]
  ++ encode_uint (cfg_byte_order config) 2 (zlen (data_content config payload))
  ++ data_content config payload.
Proof.
  intros Hord. unfold data_message_bytes, Router.single_message, Router.encode_message.
  change (mjoin (Router.encode_sub <$> [data_submessage config payload]))
    with (Router.encode_sub (data_submessage config payload) ++ []).
  cbn [default from_option fmap option_fmap option_map].
  rewrite !app_nil_r. unfold Router.encode_sub, Router.encode_declared.
  by rewrite sub_order_data.
Qed.

Lemma store_message_spec {E} m config payload :
  config_ok config -> supported_byte_order (cfg_byte_order config) = true ->
  let l := data_message_bytes config payload in
  (length l <= length m)%nat -> 20 + zlen payload <= u16_max ->
  store_message m config (20 + zlen payload) payload =
  (Done (l ++ drop (length l) m) : outcome E (list Z)).
Proof.
  intros Hcfg Hord l Hlen H16. unfold l in *. clear l.
  rewrite data_message_bytes_eq in * by done.
  assert (length (data_content config payload) = (20 + length payload)%nat) as Hc
    by (by apply data_content_length).
  destruct Hcfg as [H1 H2 H3 H4 H5]. unfold u16_max in H16.
  unfold rtps_header_bytes in *.
  rewrite !length_app, !encode_uint_length, Hc in Hlen. cbn [length] in Hlen.
  unfold store_message, data_flags. rewrite u16_id by lia.
  rewrite <- (app_nil_l m).
  do 10 put. destruct (is_little (cfg_byte_order config)); cbn [when mbind outcome_bind];
    repeat put.
  all: fold (high_half (cfg_sequence_number config));
    fold (low_half (cfg_sequence_number config)); rewrite app_nil_l, !drop_drop;
    (apply built_eq; [rewrite Hc; unfold data_content|]);
    [rewrite <- !app_assoc, Nat2Z.inj_add; done|].
  all: rewrite !length_app, !encode_uint_length, Hc; cbn [length]; lia.
Qed.

(** The encapsulation header the builder and the parser require. *)
Definition payload_supported (payload : list Z) : bool :=
  match payload with
  | p0 :: p1 :: _ :: _ :: _ => (p0 =? 0) && (p1 <=? 3)
  | _ => false
  end.

Lemma supported_payload_spec {E} payload :
  supported_serialized_payload (Some payload) (zlen payload) =
  (Done (payload_supported payload) : outcome E bool).
Proof.
  unfold supported_serialized_payload, minimum_serialized_payload_size.
  destruct (Z.leb_spec 4 (zlen payload)) as [H4|H4];
    destruct payload as [|p0 [|p1 [|p2 [|p3 payload]]]]; simpl in *; try lia; try done.
  change (mload (p0 :: p1 :: p2 :: p3 :: payload) 0) with (Some p0). simpl.
  change (mload (p0 :: p1 :: p2 :: p3 :: payload) 1) with (Some p1).
  by destruct (p0 =? 0).
Qed.

#[local] Opaque supported_serialized_payload.

Definition buildable (config : DataMessageConfig) (payload : list Z) (capacity : Z)
    : bool :=
  supported_version (cfg_version config) &&
  supported_byte_order (cfg_byte_order config) &&
  (1 <=? cfg_sequence_number config) && (cfg_sequence_number config <=? i64_max) &&
  payload_supported payload && (44 + zlen payload <=? 65507) &&
  (44 + zlen payload <=? capacity).

Lemma data_message_length config payload :
  config_ok config -> supported_byte_order (cfg_byte_order config) = true ->
  zlen (data_message_bytes config payload) = 44 + zlen payload.
Proof.
  intros Hcfg Hord. rewrite data_message_bytes_eq by done. unfold rtps_header_bytes.
  rewrite !length_app, encode_uint_length, data_content_length by done.
  destruct Hcfg. cbn [length]. lia.
Qed.

(** A builder over a caller's buffer of at least [capacity_] bytes. *)
Definition builder_ok (b : DataMessageBuilder) (m : list Z) : Prop :=
  buffer_ b = Some m /\ 0 <= capacity_ b <= zlen m /\ capacity_ b < 2 ^ 64.

(** A path on which [build] returned an error. *)
Ltac refuse := eexists; split; [|reflexivity]; discriminate.

Lemma build_cases b m config payload :
  builder_ok b m -> config_ok config -> zlen payload < 2 ^ 64 ->
  let l := data_message_bytes config payload in
  if buildable config payload (capacity_ b) then
    build b config (Some payload) (zlen payload) =
    Done {| buffer_ := Some (l ++ drop (length l) m); capacity_ := capacity_ b;
            size_ := zlen l; error_ := rtps_none |}
  else exists e, e <> rtps_none /\
    build b config (Some payload) (zlen payload) =
    Stop {| buffer_ := Some m; capacity_ := capacity_ b; size_ := 0; error_ := e |}.
Proof.
  intros (Hb & Hcap & H64) Hcfg Hp. cbv zeta.
  remember (data_message_bytes config payload) as l eqn:Heql.
  unfold build, buildable, supported_version.
  cbn [buffer_ capacity_]. rewrite Hb. cbn [null_with_size].
  unfold fail_if, fail_state. cbn [stop_if mbind outcome_bind buffer_ capacity_ size_ error_].
  rewrite decide_True by done.
  destruct (major (cfg_version config) =? 2); simpl; [|by refuse].
  destruct (minor (cfg_version config) =? 0); simpl; [by refuse|].
  rewrite (Z.ltb_antisym (minor (cfg_version config)) 5).
  destruct (minor (cfg_version config) <=? 5); simpl; [|by refuse].
  destruct (supported_byte_order (cfg_byte_order config)) eqn:Hord; simpl; [|by refuse].
  destruct Hcfg as [? ? ? ? Hseq] eqn:Hcfg'.
  destruct (Z.eqb_spec (cfg_sequence_number config) 0),
    (Z.leb_spec 1 (cfg_sequence_number config)); simpl; try lia; [by refuse|].
  rewrite (Z.ltb_antisym (cfg_sequence_number config) i64_max).
  destruct (cfg_sequence_number config <=? i64_max); simpl; [|by refuse].
  rewrite supported_payload_spec. simpl.
  destruct (payload_supported payload); simpl; [|by refuse].
  unfold data_message_overhead, rtps_header_size, submessage_header_size,
    data_fixed_content_size, maximum_udp_payload_size, size_max.
  change (20 + 4 + 20) with 44. rewrite sub64_id by lia.
  destruct (Z.ltb_spec (2 ^ 64 - 1 - 44) (zlen payload)); simpl.
  { destruct (Z.leb_spec (44 + zlen payload) 65507); [lia|]. simpl. by refuse. }
  rewrite (add64_id 44), (add64_id 20) by lia.
  rewrite (Z.ltb_antisym (44 + zlen payload) 65507).
  destruct (Z.leb_spec (44 + zlen payload) 65507); simpl; [|by refuse].
  rewrite (Z.ltb_antisym (44 + zlen payload) (capacity_ b)).
  destruct (Z.leb_spec (44 + zlen payload) (capacity_ b)); simpl; [|by refuse].
  unfold u16_max. destruct (Z.ltb_spec (2 ^ 16 - 1) (20 + zlen payload)); [lia|]. simpl.
  rewrite mslice_full. cbn [access mbind outcome_bind].
  pose proof (data_message_length config payload Hcfg Hord) as Hl.
  rewrite store_message_spec by (done || unfold u16_max; lia).
  cbn [mbind outcome_bind]. rewrite <- Heql in *. by rewrite Hl.
Qed.

(** The parser's view of a message the builder made. *)
Definition view_of (config : DataMessageConfig) (payload : list Z) : DataMessageView :=
  {| version := cfg_version config; vendor_id := cfg_vendor_id config;
     guid_prefix := cfg_guid_prefix config;
     destination_guid_prefix := GuidPrefix_default; has_destination := false;
     source_timestamp_seconds := 0; source_timestamp_fraction := 0;
     has_source_timestamp := false; reader_id := cfg_reader_id config;
     writer_id := cfg_writer_id config;
     sequence_number := cfg_sequence_number config;
     submessage_byte_order := cfg_byte_order config;
     serialized_payload := Some payload; payload_size := zlen payload |}.

Lemma find_submessage_checked {F} (g : Router.MessageRouteError -> F) m n wid wocc v :
  checked Router.route_none g (Router.find_submessage m n wid wocc v) =
  map_stop g (Router.find_submessage_body m n wid wocc).
Proof. apply checked_commit, Router.find_body_error. Qed.

(** The fields the parser reads from the content the builder wrote. *)
Lemma data_content_fields {E} config payload :
  config_ok config ->
  let order := cfg_byte_order config in
  let c := data_content config payload in
  read_uint16 c 0 order = (Done 0 : outcome E Z) /\
  read_uint16 c 2 order = (Done 16 : outcome E Z) /\
  read_uint32 c 12 order = (Done (high_half (cfg_sequence_number config)) : outcome E Z) /\
  read_uint32 c 16 order = (Done (low_half (cfg_sequence_number config)) : outcome E Z) /\
  mslice c 4 4 = Some (cfg_reader_id config) /\
  mslice c 8 4 = Some (cfg_writer_id config) /\
  mslice c 20 (zlen payload) = Some payload.
Proof.
  intros [? ? ? ? ?] order c. unfold c, data_content. fold order.
  pose proof (halves_range (cfg_sequence_number config)) as [Hh Hl].
  split_and!.
  - apply (read_uint16_encode []); [done|lia].
  - apply read_uint16_encode; [put_len|unfold octets_to_inline_qos; lia].
  - do 3 rewrite app_assoc. apply read_uint32_encode; [put_len|done].
  - do 4 rewrite app_assoc. apply read_uint32_encode; [put_len|done].
  - rewrite app_assoc. apply mslice_app_exact; put_len.
  - do 2 rewrite app_assoc. apply mslice_app_exact; put_len.
  - rewrite <- (app_nil_r payload) at 1. do 5 rewrite app_assoc.
    apply mslice_app_exact; put_len.
Qed.

Lemma parse_built config payload capacity :
  config_ok config -> buildable config payload capacity = true ->
  let l := data_message_bytes config payload in
  parse_body (Some l) (zlen l) = Done (view_of config payload).
Proof.
  intros Hcfg Hb l. unfold buildable in Hb. rewrite !andb_true_iff in Hb.
  destruct Hb as [[[[[[Hver Hord] Hs1%Z.leb_le] Hs2%Z.leb_le] Hpay] Hmax%Z.leb_le] _].
  pose proof (data_content_length config payload Hcfg) as Hc.
  pose proof (sub_order_data config payload Hord) as Hso.
  destruct (data_content_fields (E:=RtpsError) config payload Hcfg)
    as (F0 & F2 & F12 & F16 & F4 & F8 & F20).
  assert (4 <= zlen payload) as Hp4.
  { destruct payload as [|? [|? [|? [|? ?]]]]; try discriminate Hpay. simpl. lia. }
  destruct Hcfg as [H1 H2 H3 H4 H5].
  pose proof (high_half_small (cfg_sequence_number config)) as Hhigh.
  pose proof (halves_join (cfg_sequence_number config)) as Hjoin.
  unfold parse_body. rewrite find_submessage_checked.
  unfold l, data_message_bytes.
  pose proof (Router.find_single (cfg_version config) (cfg_vendor_id config)
    (cfg_guid_prefix config) (data_submessage config payload)) as Hfind.
  cbn [Router.sub_id data_submessage] in Hfind.
  rewrite Hfind; [|done..|cbn [Router.sub_content data_submessage]; rewrite Hc; unfold u16_max; lia].
  clear Hfind. cbn [map_stop mbind outcome_bind]. unfold parse_content, Router.sub_view.
  cbn [Router.candidate_of Router.flags Router.byte_order Router.content
    Router.content_size Router.sub_flags Router.sub_content data_submessage].
  change (Router.sub_order _) with
    (Router.sub_order (data_submessage config payload)). rewrite Hso.
  set (order := cfg_byte_order config) in *.
  assert ((Z.land (data_flags order) data_flag =? 0) = false) as ->
    by (by destruct order).
  assert ((Z.land (data_flags order) (Z.lor (Z.lor inline_qos_flag key_flag)
    nonstandard_payload_flag) =? 0) = true) as -> by (by destruct order).
  cbn [stop_if negb mbind outcome_bind].
  unfold data_fixed_content_size, minimum_serialized_payload_size, octets_to_inline_qos.
  rewrite Hc, Nat2Z.inj_add.
  destruct (Z.ltb_spec (Z.of_nat 20 + zlen payload) (20 + 4)); [lia|].
  cbn [stop_if access mbind outcome_bind].
  rewrite F0. cbn [stop_if negb mbind outcome_bind Z.eqb].
  rewrite F2. cbn [stop_if mbind outcome_bind Z.ltb Z.compare Pos.compare Pos.compare_cont].
  change (4 + 16) with 20. rewrite sub64_id by lia.
  replace (Z.of_nat 20 + zlen payload - 20) with (zlen payload) by lia.
  destruct (Z.ltb_spec (Z.of_nat 20 + zlen payload) 20); [lia|].
  destruct (Z.ltb_spec (zlen payload) 4); [lia|].
  cbn [stop_if orb mbind outcome_bind].
  rewrite F12. cbn [mbind outcome_bind]. rewrite F16. cbn [mbind outcome_bind].
  unfold i32_of_bits, signed. change (2 ^ (32 - 1)) with (2 ^ 31).
  destruct (Z.ltb_spec (high_half (cfg_sequence_number config)) (2 ^ 31)); [|lia].
  destruct (Z.ltb_spec (high_half (cfg_sequence_number config)) 0); [lia|].
  cbn [stop_if mbind outcome_bind]. rewrite u32_id, Hjoin by lia.
  destruct (Z.eqb_spec (cfg_sequence_number config) 0); [lia|].
  cbn [stop_if mbind outcome_bind]. rewrite F20. cbn [access mbind outcome_bind].
  rewrite supported_payload_spec, Hpay. cbn [stop_if negb mbind outcome_bind].
  rewrite F4, F8. done.
Qed.

#[local] Transparent supported_serialized_payload.

(** Only the first [n] bytes behind the payload pointer matter. *)
Lemma build_take b config buf n :
  0 <= n <= zlen buf ->
  build b config (Some buf) n = build b config (Some (take (Z.to_nat n) buf)) n.
Proof.
  intros Hn.
  assert (forall i, i < n -> mload (take (Z.to_nat n) buf) i = mload buf i) as Hload.
  { intros i Hi. unfold mload. destruct (Z.ltb_spec i 0); [done|].
    by rewrite lookup_take_lt by lia. }
  assert (mslice (take (Z.to_nat n) buf) 0 n = mslice buf 0 n) as Hslice.
  { unfold mslice. rewrite length_take.
    destruct (Z.leb_spec 0 n), (Z.leb_spec (0 + n) (zlen buf)),
      (Z.leb_spec (0 + n) (Z.of_nat (Z.to_nat n `min` length buf))); try lia.
    cbn. by rewrite !drop_0, take_take, Nat.min_id. }
  unfold build. cbn [access mbind outcome_bind]. rewrite Hslice.
  assert (supported_serialized_payload (Some buf) n =
    (supported_serialized_payload (Some (take (Z.to_nat n) buf)) n
     : outcome DataMessageBuilder bool)) as ->; [|done].
  unfold supported_serialized_payload, minimum_serialized_payload_size.
  destruct (Z.leb_spec 4 n); [|done]. by rewrite !Hload by lia.
Qed.

(** The bytes of a successful [build] parse back. *)
Lemma built_parses b m config payload b' :
  builder_ok b m -> config_ok config -> zlen payload < 2 ^ 64 ->
  build b config (Some payload) (zlen payload) = Done b' ->
  exists bytes, buffer_ b' = Some bytes /\ length bytes = length m /\
    0 <= size_ b' <= zlen bytes /\
    parse_body (Some (take (Z.to_nat (size_ b')) bytes)) (size_ b') =
    Done (view_of config payload).
Proof.
  intros Hb Hcfg Hp Hbuild.
  pose proof (build_cases b m config payload Hb Hcfg Hp) as Hcases.
  pose proof (parse_built config payload (capacity_ b) Hcfg) as Hparse.
  destruct (buildable config payload (capacity_ b)) eqn:Hok;
    [|destruct Hcases as (e & _ & Hs); rewrite Hs in Hbuild; discriminate].
  cbv zeta in Hcases, Hparse.
  assert (supported_byte_order (cfg_byte_order config) = true /\
          44 + zlen payload <= capacity_ b) as [Hord Hfit].
  { unfold buildable in Hok. rewrite !andb_true_iff, !Z.leb_le in Hok. tauto. }
  pose proof (data_message_length config payload Hcfg Hord) as Hlen.
  set (l := data_message_bytes config payload) in *. clearbody l.
  rewrite Hcases in Hbuild. injection Hbuild as <-. cbn [buffer_ size_].
  destruct Hb as (_ & Hcap & _). eexists. split; [done|].
  rewrite length_app, length_drop. split; [lia|]. split; [lia|].
  rewrite take_app_length' by lia. by apply Hparse.
Qed.

(** C25: DATA messages round-trip: whenever [build] succeeds for a configuration
    and a payload, the [size()] bytes it produced parse back to a view with the
    configuration's version, vendor, prefix, entity ids, sequence number and
    byte order, and exactly that payload. *)
Theorem data_message_roundtrip b m config payload b' view :
  builder_ok b m -> config_ok config -> zlen payload < 2 ^ 64 ->
  build b config (Some payload) (zlen payload) = Done b' ->
  exists bytes, buffer_ b' = Some bytes /\ length bytes = length m /\
    parse_data_message (Some (take (Z.to_nat (size_ b')) bytes)) (size_ b') view =
    Some (rtps_none, view_of config payload).
Proof.
  intros Hb Hcfg Hp Hbuild.
  destruct (built_parses b m config payload b' Hb Hcfg Hp Hbuild)
    as (bytes & H1 & H2 & _ & H3).
  exists bytes. split_and!; [done..|]. unfold parse_data_message. by rewrite H3.
Qed.

Definition sample_config : DataMessageConfig :=
  {| cfg_version := ProtocolVersion_default; cfg_vendor_id := [1; 2];
     cfg_guid_prefix := replicate 12 3; cfg_reader_id := [0; 0; 0; 4];
     cfg_writer_id := [0; 0; 0; 3]; cfg_sequence_number := 4294967301;
     cfg_byte_order := big_endian |}.

Lemma data_message_roundtrip_witness :
  exists b' bytes,
    build (DataMessageBuilder_new (Some (replicate 64 0)) 64) sample_config
      (Some [0; 1; 0; 0; 42]) 5 = Done b' /\
    buffer_ b' = Some bytes /\
    parse_data_message (Some (take (Z.to_nat (size_ b')) bytes)) (size_ b')
      (view_of sample_config []) =
    Some (rtps_none, view_of sample_config [0; 1; 0; 0; 42]).
Proof.
  destruct (build (DataMessageBuilder_new (Some (replicate 64 0)) 64) sample_config
    (Some [0; 1; 0; 0; 42]) 5) as [| |b'] eqn:Hb; [vm_compute in Hb; discriminate..|].
  destruct (data_message_roundtrip
    (DataMessageBuilder_new (Some (replicate 64 0)) 64) (replicate 64 0) sample_config
    [0; 1; 0; 0; 42] b' (view_of sample_config [])) as (bytes & H1 & H2 & H3);
    [done|by split|done|exact Hb|].
  exists b', bytes. split_and!; [done|exact H1|exact H3].
Defined.

(** [build] succeeds exactly when the version is 2.1 to 2.5, the byte order
    and the sequence number are valid, the payload carries a supported
    encapsulation header, and the message fits both a UDP datagram and the
    capacity; it then writes exactly the reference encoding and leaves the rest
    of the buffer alone. Otherwise it reports an error, keeps [size()] at 0 and
    leaves the whole buffer alone. *)
Theorem data_build_exact b m config payload :
  builder_ok b m -> config_ok config -> zlen payload < 2 ^ 64 ->
  let l := data_message_bytes config payload in
  if buildable config payload (capacity_ b) then
    build b config (Some payload) (zlen payload) =
    Done {| buffer_ := Some (l ++ drop (length l) m); capacity_ := capacity_ b;
            size_ := zlen l; error_ := rtps_none |}
  else exists e, e <> rtps_none /\
    build b config (Some payload) (zlen payload) =
    Stop {| buffer_ := Some m; capacity_ := capacity_ b; size_ := 0; error_ := e |}.
Proof. apply build_cases. Qed.

Lemma data_build_exact_witness :
  exists e, e <> rtps_none /\
    build (DataMessageBuilder_new (Some (replicate 48 0)) 48) sample_config
      (Some [0; 1; 0; 0; 42]) 5 =
    Stop {| buffer_ := Some (replicate 48 0); capacity_ := 48; size_ := 0;
            error_ := e |}.
Proof.
  apply (data_build_exact (DataMessageBuilder_new (Some (replicate 48 0)) 48)
    (replicate 48 0) sample_config [0; 1; 0; 0; 42]); [done|by split|done].
Defined.

(** ** Untrusted input *)

Lemma supported_payload_safe payload size :
  size <= zlen payload ->
  safe (supported_serialized_payload (Some payload) size : outcome RtpsError bool).
Proof.
  intros Hsz. unfold supported_serialized_payload, minimum_serialized_payload_size.
  destruct (Z.leb_spec 4 size); repeat safe_step;
    apply safe_access, mload_is_Some; lia.
Qed.

Lemma parse_content_safe routed c :
  Router.view_ok routed c -> safe (parse_content routed).
Proof.
  intros [Hc Hsz Hb H64 Hord]. unfold parse_content. rewrite Hc, Hsz.
  unfold data_fixed_content_size, minimum_serialized_payload_size, octets_to_inline_qos.
  apply safe_guard. intros _. apply safe_guard. intros _.
  apply safe_guard. intros H24%Z.ltb_ge. cbn [access mbind outcome_bind].
  apply safe_bind; [apply read_uint16_safe; lia|]. intros x _. apply safe_guard. intros _.
  apply safe_bind; [apply read_uint16_safe; lia|]. intros o Ho.
  apply read_uint16_range in Ho; [|done].
  apply safe_guard. intros H16%Z.ltb_ge. apply safe_guard.
  intros [Hoff%Z.ltb_ge Hmin%Z.ltb_ge]%orb_false_iff.
  rewrite sub64_id in Hmin |- * by lia.
  apply safe_bind; [apply read_uint32_safe; lia|]. intros h _.
  apply safe_bind; [apply read_uint32_safe; lia|]. intros l _.
  apply safe_guard. intros _. apply safe_guard. intros _.
  apply safe_bind; [apply safe_access, mslice_is_Some; lia|].
  intros pl Hpl%access_Done%mslice_length.
  apply safe_bind; [apply supported_payload_safe; lia|]. intros s _.
  apply safe_guard. intros _.
  do 2 (apply safe_bind; [apply safe_access, mslice_is_Some; lia|]; intros ? _).
  apply safe_Done.
Qed.

(** What a view promises to the reader that consumes it. *)
Record data_view_ok (v : DataMessageView) (payload : list Z) : Prop := {
  dv_sequence : 1 <= sequence_number v <= i64_max;
  dv_payload : serialized_payload v = Some payload;
  dv_size : payload_size v = zlen payload;
  dv_supported : payload_supported payload = true;
  dv_bytes : bytes_ok payload;
  dv_bound : zlen payload + 20 < 2 ^ 64;
  dv_reader : length (reader_id v) = 4%nat;
  dv_writer : length (writer_id v) = 4%nat;
}.

Lemma parse_content_view routed c v :
  Router.view_ok routed c -> parse_content routed = Done v ->
  exists payload, data_view_ok v payload.
Proof.
  intros [Hc Hsz Hb H64 Hord] Hv. unfold parse_content in Hv. rewrite Hc, Hsz in Hv.
  cbn [access mbind outcome_bind] in Hv. inv_done.
  match goal with H : mslice ?c ?i ?n = Some ?p,
      H' : supported_serialized_payload (Some ?p) ?n = Done _ |- _ =>
    pose proof (mslice_Forall _ _ _ _ _ Hb H) as Hpb; pose proof (mslice_length _ _ _ _ H) as Hpl;
    pose proof (proj1 (mslice_is_Some c i n) (mk_is_Some _ _ H)) as Hin;
    rewrite <- Hpl, supported_payload_spec in H'; injection H' as H'; exists p end.
  repeat match goal with H : mslice _ _ _ = Some _ |- _ =>
    apply mslice_length in H end.
  unfold octets_to_inline_qos in *.
  split; cbn [sequence_number serialized_payload payload_size reader_id writer_id];
    try done; try lia.
  - repeat match goal with H : read_uint32 _ _ _ = Done _ |- _ =>
      apply read_uint32_range in H; [|done] end.
    match goal with H : (i32_of_bits ?h <? 0) = false |- context [Z.lor _ ?l] =>
      apply Z.ltb_ge in H; unfold i32_of_bits, signed in *;
      change (2 ^ (32 - 1)) with (2 ^ 31) in *;
      destruct (Z.ltb_spec h (2 ^ 31)); [|lia];
      rewrite u32_id in * by lia; pose proof (join_range h l) end.
    match goal with H : (Z.lor _ _ =? 0) = false |- _ => apply Z.eqb_neq in H end. lia.
  - match goal with H : payload_supported _ = ?s |- _ => rewrite H end.
    by apply negb_false_iff.
Qed.

Lemma parse_body_error message message_size : parse_body message message_size <> Stop rtps_none.
Proof.
  unfold parse_body. rewrite find_submessage_checked. intros H.
  pose proof (Router.find_body_error message message_size data_submessage_id 0) as Hroute.
  destruct (Router.find_submessage_body _ _ _ _) as [|e|routed]; [done| |].
  - destruct e; try discriminate H. done.
  - cbn [map_stop mbind outcome_bind] in H. unfold parse_content in H. stop_cases H;
      try (by apply read_uint16_no_stop in H); try (by apply read_uint32_no_stop in H).
    unfold supported_serialized_payload in H. stop_cases H.
Qed.

Lemma parse_body_post message message_size :
  Router.message_ok message message_size ->
  match parse_body message message_size with
  | Fault => False
  | Stop e => e <> rtps_none
  | Done v => exists payload, data_view_ok v payload
  end.
Proof.
  intros Hm. pose proof (parse_body_error message message_size) as Herr.
  revert Herr. unfold parse_body. rewrite find_submessage_checked. intros Herr.
  pose proof (Router.find_body_safe message message_size data_submessage_id 0 Hm) as Hs.
  pose proof (Router.find_body_view message message_size data_submessage_id 0) as Hv.
  destruct (Router.find_submessage_body _ _ _ _) as [|e|routed]; simpl in *;
    [done|congruence|].
  destruct (Hv routed Hm eq_refl) as [c Hc].
  pose proof (parse_content_safe routed c Hc) as Hsafe.
  pose proof (parse_content_view routed c) as Hpost.
  destruct (parse_content routed) as [|e|v]; [done|congruence|by apply Hpost].
Qed.

(** Parsing an arbitrary datagram as DATA terminates without an access
    outside it; the caller's view changes only on success, and then carries a
    sequence number between 1 and 2^63-1 and a payload of exactly
    [payload_size] bytes with a supported encapsulation header. *)
Theorem data_parse_total message message_size view :
  Router.message_ok message message_size ->
  exists e v, parse_data_message message message_size view = Some (e, v) /\
    (v = view \/ exists payload, data_view_ok v payload).
Proof.
  intros Hm. pose proof (parse_body_post message message_size Hm) as Hpost.
  unfold parse_data_message. destruct (parse_body _ _) as [|e|v]; [done|by eauto|].
  exists rtps_none, v. split; [done|]. by right.
Qed.

Lemma data_parse_total_witness :
  exists e v, parse_data_message (Some (replicate 80 255)) 80
    (view_of sample_config []) = Some (e, v) /\
    (v = view_of sample_config [] \/ exists payload, data_view_ok v payload).
Proof.
  apply (data_parse_total (Some (replicate 80 255)) 80).
  split; [lia|]. intros m [= <-]. split; [done|]. repeat constructor; lia.
Defined.

End Data.
