(* ===== verification/ParameterList.v ===== *)
(** * Parameter lists

    The PL_CDR parameter lists that [src/rtps/spdp.cpp] and [src/rtps/sedp.cpp]
    write and read: [ParameterWriter], the parameters both protocols use, the
    loop over the parameters of a received payload, and durations.  The two
    translation units contain identical copies of the writer; an error code that
    differs between them is an argument here. *)
From S2P Require Import Prelude.
From S2P Require Import Bytes.
From S2P Require Import Types.
From S2P Require Import Locators.

Module Param.
Import Types Locators.

Definition pid_sentinel : Z := 1.
Definition must_understand_mask : Z := 16384.
Definition nanoseconds_per_second : Z := 1000000000.

(** The byte access helpers of the two translation units. *)
Definition write_u16 {E} : list Z -> Z -> Z -> ByteOrder -> outcome E (list Z) :=
  write_uint16.
Definition write_u32 {E} : list Z -> Z -> Z -> ByteOrder -> outcome E (list Z) :=
  write_uint32.
Definition read_u16 {E} : list Z -> Z -> ByteOrder -> outcome E Z := read_uint16.
Definition read_u32 {E} : list Z -> Z -> ByteOrder -> outcome E Z := read_uint32.

Definition nonzero_guid (prefix : GuidPrefix) : bool :=
  existsb (fun octet => negb (octet =? 0)) prefix.

(** [(size + 3U) & ~std::size_t{3U}] *)
Definition padded_size (size : Z) : Z := Z.land (add64 size 3) (2 ^ 64 - 4).

(** ** The writer *)

Record ParameterWriter : Set := {
  pw_buffer : list Z;
  pw_capacity : Z;
  pw_order : ByteOrder;
  pw_size : Z;
}.

Definition with_buffer (w : ParameterWriter) (m : list Z) (n : Z) : ParameterWriter :=
  {| pw_buffer := m; pw_capacity := pw_capacity w; pw_order := pw_order w; pw_size := n |}.

Definition ParameterWriter_new {E} (buffer : list Z) (capacity : Z) (order : ByteOrder)
    : outcome E ParameterWriter :=
  let w := {| pw_buffer := buffer; pw_capacity := capacity; pw_order := order;
              pw_size := 0 |} in
  if 4 <=? capacity then
    m ← access (mstore buffer 0 0);
    m ← access (mstore m 1 (if is_little order then 3 else 2));
    m ← access (mstore m 2 0);
    m ← access (mstore m 3 0);
    Done (with_buffer w m 4)
  else Done w.

(** [append]: the address of the value, [None] for [nullptr]. *)
Definition append {E} (w : ParameterWriter) (id value_size : Z)
    : outcome E (option Z * ParameterWriter) :=
  let length := padded_size value_size in
  if (u16_max <? length) || (pw_capacity w <? pw_size w) ||
     (sub64 (pw_capacity w) (pw_size w) <? add64 4 length)
  then Done (None, w)
  else
    m ← write_u16 (pw_buffer w) (pw_size w) id (pw_order w);
    m ← write_u16 m (pw_size w + 2) (u16 length) (pw_order w);
    m ← access (mcopy m (pw_size w + 4) (replicate (Z.to_nat length) 0));
    Done (Some (pw_size w + 4),
          with_buffer w m (add64 (pw_size w) (add64 4 length))).

(** Append a parameter and store its value with [fill]; a null address ends the
    construction with [overflow]. *)
Definition append_value {E} (overflow : E) (w : ParameterWriter) (id value_size : Z)
    (fill : list Z -> Z -> outcome E (list Z)) : outcome E ParameterWriter :=
  '(value, w) ← append w id value_size;
  match value with
  | None => Stop overflow
  | Some v => m ← fill (pw_buffer w) v; Done (with_buffer w m (pw_size w))
  end.

Definition finish {E} (overflow : E) (w : ParameterWriter) : outcome E ParameterWriter :=
  append_value overflow w pid_sentinel 0 (fun m _ => Done m).

Definition append_guid {E} (overflow : E) (w : ParameterWriter) (id : Z)
    (prefix : GuidPrefix) (entity : EntityId) : outcome E ParameterWriter :=
  append_value overflow w id 16 (fun m value =>
    m ← access (mcopy m value prefix);
    access (mcopy m (value + 12) entity)).

Definition append_string {E} (overflow : E) (w : ParameterWriter) (id : Z)
    (text : list Z) (size : Z) (order : ByteOrder) : outcome E ParameterWriter :=
  append_value overflow w id (add64 (add64 4 size) 1) (fun m value =>
    m ← write_u32 m value (u32 (size + 1)) order;
    chars ← access (mslice text 0 size);
    m ← access (mcopy m (value + 4) chars);
    access (mstore m (value + 4 + size) 0)).

Definition append_locator {E} (overflow : E) (w : ParameterWriter) (id : Z)
    (locator : Locator) (order : ByteOrder) : outcome E ParameterWriter :=
  append_value overflow w id 24 (fun m value =>
    m ← write_u32 m value (bits_of_i32 (kind locator)) order;
    m ← write_u32 m (value + 4) (port locator) order;
    access (mcopy m (value + 8) (address locator))).

(** One locator parameter per element of a list. *)
Definition append_list {E} (overflow : E) (w : ParameterWriter) (id : Z)
    (l : BoundedLocatorList) (order : ByteOrder) : outcome E ParameterWriter :=
  for_each (fun index w =>
      locator ← access (mload (values l) index);
      append_locator overflow w id locator order)
    (seqZ 0 (size l)) w.

(** ** Durations: seconds and a binary fraction *)

Definition duration_seconds (duration_ns : Z) : Z := duration_ns / nanoseconds_per_second.

Definition duration_fraction (duration_ns : Z) : Z :=
  u32 (u64 (Z.shiftl (duration_ns mod nanoseconds_per_second) 32) / nanoseconds_per_second).

Definition duration_of (seconds fraction : Z) : Z :=
  add64 (mul64 seconds nanoseconds_per_second)
        (Z.shiftr (mul64 fraction nanoseconds_per_second) 32).

(** The two words of a duration, once its seconds are known to fit. *)
Definition write_duration {E} (m : list Z) (value duration_ns : Z) (order : ByteOrder)
    : outcome E (list Z) :=
  m ← write_u32 m value (u32 (duration_seconds duration_ns)) order;
  write_u32 m (value + 4) (duration_fraction duration_ns) order.

Definition append_duration {E} (too_long : E) (m : list Z) (value duration_ns : Z)
    (order : ByteOrder) : outcome E (list Z) :=
  stop_if (i32_max <? duration_seconds duration_ns) too_long;;
  write_duration m value duration_ns order.

Definition parse_duration {E} (invalid : E) (value : list Z) (at_ : Z) (order : ByteOrder)
    : outcome E Z :=
  seconds_bits ← read_u32 value at_ order;
  let seconds := i32_of_bits seconds_bits in
  stop_if (seconds <? 0) invalid;;
  fraction ← read_u32 value (at_ + 4) order;
  Done (duration_of seconds fraction).

(** ** Reading *)

Section Parse.
Context {E S : Type} (malformed : E).
(** The [switch] on the parameter id; [value] is the parameter's [length] bytes. *)
Context (handle : Z -> list Z -> S -> outcome E S).

(** The [while] loop over the parameters; the flag is [seen_sentinel]. *)
Fixpoint parameter_loop (fuel : nat) (payload : list Z) (payload_size : Z)
    (order : ByteOrder) (offset : Z) (s : S) : outcome E (bool * S) :=
  if add64 offset 4 <=? payload_size then
    match fuel with
    | O => Fault
    | Datatypes.S fuel' =>
        id ← read_u16 payload offset order;
        length ← read_u16 payload (offset + 2) order;
        let offset := add64 offset 4 in
        if id =? pid_sentinel then Done (true, s)
        else
          stop_if (negb (Z.land length 3 =? 0) || (sub64 payload_size offset <? length))
            malformed;;
          value ← access (mslice payload offset length);
          s ← handle id value s;
          parameter_loop fuel' payload payload_size order (add64 offset length) s
    end
  else Done (false, s).
End Parse.

Definition append_parsed_locator {E} (malformed invalid bound : E) (Capacity : Z)
    (value : list Z) (order : ByteOrder) (output : BoundedLocatorList)
    : outcome E BoundedLocatorList :=
  stop_if (negb (zlen value =? 24)) malformed;;
  kind_bits ← read_u32 value 0 order;
  let kind_ := i32_of_bits kind_bits in
  if negb (kind_ =? 1) then Done output
  else
    port_ ← read_u32 value 4 order;
    address_ ← access (mslice value 8 16);
    let locator := {| kind := kind_; port := port_; address := address_ |} in
    stop_if (negb (valid_udp_v4_locator locator)) invalid;;
    pushed ← push_back Capacity output locator;
    match pushed with
    | None => Stop bound
    | Some output' => Done output'
    end.

(** ** The reference encoding *)

Definition padding (v : list Z) : list Z :=
  replicate (Z.to_nat (padded_size (zlen v) - zlen v)) 0.

Definition padded (v : list Z) : list Z := v ++ padding v.

Definition encode_param (order : ByteOrder) (id : Z) (v : list Z) : list Z :=
  encode_uint order 2 id ++ encode_uint order 2 (zlen (padded v)) ++ padded v.

Definition encode_params (order : ByteOrder) (ps : list (Z * list Z)) : list Z :=
  mjoin ((fun '(id, v) => encode_param order id v) <$> ps).

Definition encapsulation (order : ByteOrder) : list Z :=
  [0; if is_little order then 3 else 2; 0; 0].

Definition encode_list (order : ByteOrder) (ps : list (Z * list Z)) : list Z :=
  encapsulation order ++ encode_params order (ps ++ [(pid_sentinel, [])]).

Definition locator_bytes (order : ByteOrder) (l : Locator) : list Z :=
  encode_uint order 4 (bits_of_i32 (kind l)) ++ encode_uint order 4 (port l) ++ address l.

Definition string_bytes (order : ByteOrder) (text : list Z) : list Z :=
  encode_uint order 4 (zlen text + 1) ++ text ++ [0].

Definition duration_bytes (order : ByteOrder) (ns : Z) : list Z :=
  encode_uint order 4 (duration_seconds ns) ++ encode_uint order 4 (duration_fraction ns).

(** ** Sizes *)

Lemma padded_size_spec n : 0 <= n < 2 ^ 63 -> padded_size n = 4 * ((n + 3) / 4).
Proof.
  intros Hn. unfold padded_size. rewrite add64_id by lia.
  change (2 ^ 64 - 4) with (Z.shiftl (Z.ones 62) 2).
  assert (Z.land (n + 3) (Z.shiftl (Z.ones 62) 2) = Z.shiftl (Z.shiftr (n + 3) 2) 2) as ->.
  { apply Z.bits_inj'. intros k Hk. rewrite Z.land_spec, !Z.shiftl_spec by done.
    destruct (decide (k < 2)).
    - rewrite !(Z.testbit_neg_r _ (k - 2)) by lia. apply andb_false_r.
    - rewrite Z.shiftr_spec, Z.testbit_ones by lia.
      replace (k - 2 + 2) with k by lia.
      destruct (Z.leb_spec 0 (k - 2)), (Z.ltb_spec (k - 2) 62); cbn [andb]; try lia;
        rewrite ?andb_true_r, ?andb_false_r; [done|].
      symmetry. destruct (decide (n + 3 = 0)); [lia|].
      apply Z.bits_above_log2; [lia|]. apply Z.log2_lt_pow2; [lia|].
      assert (2 ^ 64 <= 2 ^ k) by (apply Z.pow_le_mono_r; lia). lia. }
  rewrite Z.shiftl_mul_pow2, Z.shiftr_div_pow2 by lia. change (2 ^ 2) with 4. lia.
Qed.

Lemma padded_size_bounds n :
  0 <= n < 2 ^ 63 -> n <= padded_size n <= n + 3 /\ padded_size n mod 4 = 0.
Proof.
  intros Hn. rewrite padded_size_spec by done.
  pose proof (Z.div_mod (n + 3) 4). pose proof (Z.mod_pos_bound (n + 3) 4).
  split; [lia|]. rewrite Z.mul_comm. apply Z.mod_mul. lia.
Qed.

Lemma padded_length v : zlen v < 2 ^ 63 -> zlen (padded v) = padded_size (zlen v).
Proof.
  intros Hv. pose proof (padded_size_bounds (zlen v)).
  unfold padded, padding. rewrite length_app, length_replicate. lia.
Qed.

Lemma encode_param_length order id v :
  zlen v < 2 ^ 63 -> zlen (encode_param order id v) = 4 + padded_size (zlen v).
Proof.
  intros Hv. unfold encode_param. rewrite !length_app, !encode_uint_length.
  pose proof (padded_length v Hv). lia.
Qed.

#[local] Opaque encode_uint.

(** ** What the writer produces *)

(** The writer has written the bytes [p] into its buffer of [capacity] bytes. *)
Record writer_at (w : ParameterWriter) (order : ByteOrder) (capacity : Z) (p : list Z)
    : Prop := {
  wa_order : pw_order w = order;
  wa_capacity : pw_capacity w = capacity;
  wa_length : zlen (pw_buffer w) = capacity;
  wa_size : pw_size w = zlen p;
  wa_written : take (length p) (pw_buffer w) = p;
}.

Lemma writer_at_split w order capacity p :
  writer_at w order capacity p -> exists r, pw_buffer w = p ++ r /\
    zlen p + zlen r = capacity.
Proof.
  intros [_ _ Hl _ Hw]. exists (drop (length p) (pw_buffer w)).
  assert (pw_buffer w = p ++ drop (length p) (pw_buffer w)) as Hb
    by (rewrite <- Hw at 1; by rewrite take_drop).
  split; [done|]. rewrite Hb, length_app in Hl. lia.
Qed.

Lemma writer_at_build w order capacity p r :
  pw_order w = order -> pw_capacity w = capacity -> pw_buffer w = p ++ r ->
  zlen p + zlen r = capacity -> pw_size w = zlen p -> writer_at w order capacity p.
Proof.
  intros H1 H2 H3 H4 H5. split; try done.
  - rewrite H3, length_app. lia.
  - by rewrite H3, take_app_length.
Qed.

Lemma writer_new_at {E} buffer capacity order :
  zlen buffer = capacity -> 4 <= capacity ->
  exists w, ParameterWriter_new buffer capacity order = (Done w : outcome E _) /\
    writer_at w order capacity (encapsulation order).
Proof.
  intros Hl Hc. unfold ParameterWriter_new.
  destruct (Z.leb_spec 4 capacity); [|lia].
  do 4 put. rewrite !drop_drop. cbn [length]. eexists. split; [done|].
  eapply (writer_at_build _ _ _ _ (drop 4 buffer)); try done.
  rewrite length_drop. cbn [length encapsulation]. lia.
Qed.

(** A fill that stores exactly the value [v]. *)
Definition fills {E} (fill : list Z -> Z -> outcome E (list Z)) (v : list Z) : Prop :=
  forall q r, (length v <= length r)%nat ->
    fill (q ++ r) (zlen q) = Done ((q ++ v) ++ drop (length v) r).

Lemma append_value_at {E} (overflow : E) w order capacity p id n v fill :
  writer_at w order capacity p -> capacity < 2 ^ 63 -> n = zlen v -> n <= 65000 ->
  zlen p + 4 + padded_size n <= capacity -> fills fill v ->
  exists w', append_value overflow w id n fill = Done w' /\
    writer_at w' order capacity (p ++ encode_param order id v).
Proof.
  intros Hw Hcap -> Hn Hfit Hfill.
  destruct (writer_at_split _ _ _ _ Hw) as (r & Hb & Hlen).
  destruct Hw as [Ho Hc _ Hs _].
  pose proof (padded_size_bounds (zlen v)) as Hpad.
  pose proof (padded_length v) as Hpl.
  unfold append_value, append. rewrite Hc, Hs, Hb, Ho. unfold u16_max.
  destruct (Z.ltb_spec (2 ^ 16 - 1) (padded_size (zlen v))); [lia|].
  destruct (Z.ltb_spec capacity (zlen p)); [lia|].
  rewrite sub64_id, (add64_id 4) by lia.
  destruct (Z.ltb_spec (capacity - zlen p) (4 + padded_size (zlen v))); [lia|].
  cbn [orb]. unfold write_u16.
  put. put. rewrite mcopy_snoc by (rewrite ?length_app, ?length_drop, ?encode_uint_length,
    ?length_replicate; cbn [length]; lia).
  cbn [access mbind outcome_bind pw_buffer with_buffer].
  rewrite u16_id, !drop_drop by lia. rewrite length_replicate.
  set (q := (p ++ encode_uint order 2 id) ++ encode_uint order 2 (padded_size (zlen v))).
  assert (zlen q = zlen p + 4) as Hq
    by (unfold q; rewrite !length_app, !encode_uint_length; cbn; lia).
  rewrite <- Hq, <- app_assoc.
  rewrite Hfill by (rewrite length_app, length_replicate; lia).
  cbn [mbind outcome_bind]. eexists. split; [done|].
  rewrite drop_app_le, drop_replicate by (rewrite length_replicate; lia).
  replace (Z.to_nat (padded_size (zlen v)) - length v)%nat
    with (Z.to_nat (padded_size (zlen v) - zlen v)) by lia.
  fold (padding v).
  eapply (writer_at_build _ _ _ _ (drop (Z.to_nat 2 + Z.to_nat 2 +
    Z.to_nat (padded_size (zlen v))) r)); cbn [pw_order pw_capacity pw_buffer pw_size with_buffer];
    try done.
  - unfold q, encode_param. rewrite Hpl by lia. unfold padded. rewrite <- !app_assoc. done.
  - rewrite length_app, length_drop.
    pose proof (encode_param_length order id v). lia.
  - rewrite length_app. pose proof (encode_param_length order id v).
    rewrite add64_id; lia.
Qed.

(** Fill bodies made of consecutive stores. *)
Ltac fill_stores := intros ?q ?r ?Hr; rewrite ?length_app, ?encode_uint_length in *;
  cbn [length] in *; unfold write_u32; repeat put; rewrite ?drop_drop, <- ?app_assoc;
  do 2 f_equal; rewrite ?length_app, ?encode_uint_length; cbn [length]; f_equal; lia.

Lemma u32_fills {E} order x :
  fills (fun m v => write_u32 m v x order : outcome E _) (encode_uint order 4 x).
Proof. fill_stores. Qed.

Lemma copy_fills {E} (v : list Z) :
  fills (fun m at_ => access (mcopy m at_ v) : outcome E _) v.
Proof. intros q r Hr. by rewrite mcopy_snoc. Qed.

Lemma guid_fills {E} prefix entity :
  length prefix = 12%nat ->
  fills (fun m value => m ← access (mcopy m value prefix);
           access (mcopy m (value + 12) entity) : outcome E _) (prefix ++ entity).
Proof.
  intros Hp q r Hr. rewrite length_app in Hr. put.
  rewrite mcopy_snoc by put_len. cbn [access]. rewrite drop_drop, <- !app_assoc.
  by rewrite length_app.
Qed.

Lemma locator_fills {E} order l :
  length (address l) = 16%nat ->
  fills (fun m value => m ← write_u32 m value (bits_of_i32 (kind l)) order;
           m ← write_u32 m (value + 4) (port l) order;
           access (mcopy m (value + 8) (address l)) : outcome E _) (locator_bytes order l).
Proof.
  intros Ha q r Hr. unfold locator_bytes, write_u32 in *.
  rewrite !length_app, !encode_uint_length in *. put. put. put.
  rewrite !drop_drop, <- !app_assoc. do 2 f_equal.
Qed.

Lemma string_fills {E} order text size :
  0 <= size <= zlen text -> size < 2 ^ 32 - 1 ->
  fills (fun m value => m ← write_u32 m value (u32 (size + 1)) order;
           chars ← access (mslice text 0 size);
           m ← access (mcopy m (value + 4) chars);
           access (mstore m (value + 4 + size) 0) : outcome E _)
    (string_bytes order (take (Z.to_nat size) text)).
Proof.
  intros Hs Hs32 q r Hr. unfold string_bytes, write_u32 in *.
  rewrite !length_app, !encode_uint_length in Hr. cbn [length] in Hr.
  assert (length (take (Z.to_nat size) text) = Z.to_nat size) as Ht
    by (rewrite length_take; lia).
  put. rewrite u32_id by lia.
  assert (mslice text 0 size = Some (take (Z.to_nat size) text)) as ->.
  { unfold mslice. destruct (Z.leb_spec 0 size), (Z.leb_spec (0 + size) (zlen text)); try lia.
    done. }
  cbn [access mbind outcome_bind]. put. rewrite mstore_mcopy, mcopy_snoc by put_len.
  cbn [access]. rewrite !drop_drop, <- !app_assoc, Ht, Z2Nat.id by lia.
  do 4 f_equal. rewrite !length_app, encode_uint_length, Ht. done.
Qed.

Lemma duration_fills {E} order ns :
  0 <= duration_seconds ns <= i32_max ->
  fills (fun m value => write_duration m value ns order : outcome E _)
    (duration_bytes order ns).
Proof.
  intros Hs. unfold i32_max in Hs. intros q r Hr. unfold duration_bytes, write_duration, write_u32 in *.
  rewrite !length_app, !encode_uint_length in *. rewrite u32_id by lia. put.
  rewrite write_uint32_snoc by put_len.
  rewrite !drop_drop, <- !app_assoc. done.
Qed.

Lemma locator_bytes_length order l :
  length (address l) = 16%nat -> zlen (locator_bytes order l) = 24.
Proof. intros Ha. unfold locator_bytes. rewrite !length_app, !encode_uint_length. lia. Qed.

Lemma text_bytes_length order text :
  zlen (string_bytes order text) = 4 + zlen text + 1.
Proof. unfold string_bytes. rewrite !length_app, encode_uint_length. cbn [length]. lia. Qed.

Section Appends.
Context {E : Type} (overflow : E).
Context (w : ParameterWriter) (order : ByteOrder) (capacity : Z) (p : list Z).
Context (Hw : writer_at w order capacity p) (Hcap : capacity < 2 ^ 63).

Lemma append_guid_at id prefix entity :
  length prefix = 12%nat -> length entity = 4%nat -> zlen p + 20 <= capacity ->
  exists w', append_guid overflow w id prefix entity = Done w' /\
    writer_at w' order capacity (p ++ encode_param order id (prefix ++ entity)).
Proof.
  intros H1 H2 H3. apply append_value_at; try done; try (rewrite ?length_app; lia).
  - change (padded_size 16) with 16. lia.
  - by apply guid_fills.
Qed.

Lemma append_string_at id text size :
  0 <= size <= zlen text -> size <= 64000 ->
  zlen p + 4 + padded_size (4 + size + 1) <= capacity ->
  exists w', append_string overflow w id text size order = Done w' /\
    writer_at w' order capacity
      (p ++ encode_param order id (string_bytes order (take (Z.to_nat size) text))).
Proof.
  intros H1 H2 H3. unfold append_string. rewrite !add64_id by (rewrite ?add64_id; lia).
  apply append_value_at; try done; try lia.
  - rewrite text_bytes_length, length_take. lia.
  - apply string_fills; lia.
Qed.

Lemma append_locator_at id l :
  length (address l) = 16%nat -> zlen p + 28 <= capacity ->
  exists w', append_locator overflow w id l order = Done w' /\
    writer_at w' order capacity (p ++ encode_param order id (locator_bytes order l)).
Proof.
  intros H1 H3. apply append_value_at; try done.
  - symmetry. by apply locator_bytes_length.
  - change (padded_size 24) with 24. lia.
  - by apply locator_fills.
Qed.

Lemma finish_at :
  zlen p + 4 <= capacity ->
  exists w', finish overflow w = Done w' /\
    writer_at w' order capacity (p ++ encode_param order pid_sentinel []).
Proof.
  intros Hfit. apply append_value_at; try done.
  - change (padded_size 0) with 0. lia.
  - intros q r _. by rewrite app_nil_r, drop_0.
Qed.
End Appends.

Definition locator_params (id : Z) (order : ByteOrder) (l : BoundedLocatorList)
    : list (Z * list Z) :=
  (fun x => (id, locator_bytes order x)) <$> held l.

Lemma encode_params_app order ps qs :
  encode_params order (ps ++ qs) = encode_params order ps ++ encode_params order qs.
Proof. unfold encode_params. by rewrite fmap_app, join_app. Qed.

Lemma encode_params_one order id v : encode_params order [(id, v)] = encode_param order id v.
Proof. unfold encode_params. cbn. apply app_nil_r. Qed.

Lemma append_list_at {E} (overflow : E) order capacity id l p w :
  writer_at w order capacity p -> capacity < 2 ^ 63 ->
  Forall (fun x => length (address x) = 16%nat) (held l) ->
  0 <= size l <= zlen (values l) -> zlen p + 28 * size l <= capacity ->
  exists w', append_list overflow w id l order = Done w' /\
    writer_at w' order capacity (p ++ encode_params order (locator_params id order l)).
Proof.
  intros Hw Hcap Hall Hsz Hfit. unfold append_list, locator_params.
  assert (forall n k p w, 0 <= k -> k + Z.of_nat n <= size l -> writer_at w order capacity p ->
    zlen p + 28 * Z.of_nat n <= capacity ->
    exists w', for_each (fun index w =>
        locator ← access (mload (values l) index);
        append_locator overflow w id locator order) (seqZ k (Z.of_nat n)) w = Done w' /\
      writer_at w' order capacity (p ++ encode_params order
        ((fun x => (id, locator_bytes order x)) <$> take n (drop (Z.to_nat k) (held l)))))
    as Hrun.
  { clear w p Hw Hfit. induction n as [|n IH]; intros k p w Hk Hn Hw Hfit.
    - exists w. cbn. by rewrite app_nil_r.
    - rewrite seqZ_cons by lia. cbn [for_each].
      destruct (proj2 (mload_is_Some (values l) k)) as [x Hx]; [lia|]. rewrite Hx.
      cbn [access mbind outcome_bind]. apply mload_Some in Hx as [_ Hx].
      assert (held l !! Z.to_nat k = Some x) as Hh
        by (unfold held; rewrite lookup_take_lt by lia; done).
      pose proof (Forall_lookup_1 _ _ _ _ Hall Hh) as Hax. cbn in Hax.
      destruct (append_locator_at overflow w order capacity p Hw Hcap id x Hax) as (w1 & -> & Hw1);
        [lia|]. cbn [mbind outcome_bind].
      replace (Z.pred (Z.of_nat (S n))) with (Z.of_nat n) by lia.
      destruct (IH (Z.succ k) _ w1 ltac:(lia) ltac:(lia) Hw1) as (w' & Hrun & Hw').
      { rewrite length_app. pose proof (encode_param_length order id (locator_bytes order x)) as He.
        rewrite locator_bytes_length in He by done. change (padded_size 24) with 24 in He. lia. }
      exists w'. split; [done|]. rewrite (drop_S _ _ _ Hh). cbn [take].
      rewrite fmap_cons. change ((id, locator_bytes order x) :: ?t) with
        ([(id, locator_bytes order x)] ++ t).
      rewrite encode_params_app, encode_params_one, app_assoc.
      by replace (S (Z.to_nat k)) with (Z.to_nat (Z.succ k)) by lia. }
  destruct (Hrun (Z.to_nat (size l)) 0 p w ltac:(lia) ltac:(lia) Hw ltac:(lia))
    as (w' & Hr & Hw').
  exists w'. rewrite Z2Nat.id in Hr by lia. split; [done|].
  rewrite drop_0, take_ge in Hw' by (unfold held; rewrite length_take; lia). done.
Qed.

(** ** What the loop reads *)

Section Loop.
Context {E S : Type} (malformed : E) (handle : Z -> list Z -> S -> outcome E S).

Definition param_ok '((id, v) : Z * list Z) : Prop :=
  0 <= id < 2 ^ 16 /\ id <> pid_sentinel /\ zlen v <= 65000.

Lemma land_3 n : Z.land n 3 = n mod 4.
Proof. change 3 with (Z.ones 2). by rewrite Z.land_ones. Qed.

Lemma loop_head {E'} order id v pre post :
  0 <= id < 2 ^ 16 -> zlen v <= 65000 ->
  let payload := pre ++ encode_param order id v ++ post in
  read_u16 payload (zlen pre) order = (Done id : outcome E' Z) /\
  read_u16 payload (zlen pre + 2) order = (Done (padded_size (zlen v)) : outcome E' Z) /\
  mslice payload (zlen pre + 4) (padded_size (zlen v)) = Some (padded v).
Proof.
  intros Hid Hv payload. pose proof (padded_size_bounds (zlen v)) as Hb.
  pose proof (padded_length v) as Hl.
  unfold payload, encode_param, read_u16. rewrite <- !app_assoc. split_and!.
  - by apply read_uint16_encode.
  - rewrite Hl by lia. rewrite app_assoc. apply read_uint16_encode; [put_len|lia].
  - rewrite !app_assoc, <- (app_assoc _ (padded v)).
    apply mslice_app_exact; [|lia].
    rewrite !length_app, !encode_uint_length. cbn [Z.to_nat]. lia.
Qed.

Lemma parameter_loop_encoded order post ps : forall fuel pre s,
  (length ps < fuel)%nat -> Forall param_ok ps ->
  let payload := pre ++ encode_params order (ps ++ [(pid_sentinel, [])]) ++ post in
  zlen payload < 2 ^ 63 ->
  parameter_loop malformed handle fuel payload (zlen payload) order (zlen pre) s =
  (s' ← for_each (fun '(id, v) s => handle id (padded v) s) ps s; Done (true, s')).
Proof.
  induction ps as [|[id v] ps IH]; intros [|fuel] pre s Hf Hps; cbn [length] in Hf; try lia;
    intros payload Hlen; cbn [parameter_loop].
  - assert (payload = pre ++ encode_param order pid_sentinel [] ++ post) as Hpay
      by (unfold payload; cbn [app]; by rewrite encode_params_one).
    destruct (loop_head (E':=E) order pid_sentinel [] pre post) as (H1 & H2 & _);
      [done|done|]. rewrite <- Hpay in *.
    assert (zlen pre + 4 <= zlen payload).
    { rewrite Hpay, !length_app. pose proof (encode_param_length order pid_sentinel []) as He.
      change (padded_size (zlen (@nil Z))) with 0 in He. cbn [length] in He. lia. }
    rewrite add64_id by lia. destruct (Z.leb_spec (zlen pre + 4) (zlen payload)); [|lia].
    rewrite H1, H2. done.
  - apply Forall_cons in Hps as [(Hid & Hne & Hv) Hps].
    pose proof (padded_size_bounds (zlen v)) as Hb.
    pose proof (encode_param_length order id v) as He.
    set (rest := encode_params order (ps ++ [(pid_sentinel, [])]) ++ post) in *.
    assert (payload = pre ++ encode_param order id v ++ rest) as Hpay.
    { unfold payload, rest. change ((id, v) :: ps) with ([(id, v)] ++ ps).
      by rewrite <- (app_assoc [_]), encode_params_app, encode_params_one, <- app_assoc. }
    destruct (loop_head (E':=E) order id v pre rest) as (H1 & H2 & H3); [done..|].
    rewrite <- Hpay in *.
    assert (zlen pre + 4 + padded_size (zlen v) <= zlen payload)
      by (rewrite Hpay, !length_app; lia).
    rewrite add64_id by lia. destruct (Z.leb_spec (zlen pre + 4) (zlen payload)); [|lia].
    rewrite H1, H2. cbn [mbind outcome_bind].
    destruct (Z.eqb_spec id pid_sentinel); [done|].
    rewrite land_3, sub64_id by lia. replace (padded_size (zlen v) mod 4) with 0 by lia.
    destruct (Z.ltb_spec (zlen payload - (zlen pre + 4)) (padded_size (zlen v))); [lia|].
    cbn [negb orb Z.eqb stop_if mbind outcome_bind]. rewrite H3.
    cbn [access mbind outcome_bind for_each].
    destruct (handle id (padded v) s) as [| |s']; cbn [mbind outcome_bind]; [done..|].
    assert (payload = (pre ++ encode_param order id v) ++ rest) as Hpay2
      by (by rewrite Hpay, app_assoc).
    specialize (IH fuel (pre ++ encode_param order id v) s' ltac:(lia) Hps).
    cbv zeta in IH. fold rest in IH. rewrite <- Hpay2 in IH. rewrite <- IH by lia.
    rewrite add64_id by lia. f_equal. rewrite length_app. lia.
Qed.

(** On arbitrary bytes the loop stays inside the payload and ends. *)
Lemma parameter_loop_post (Inv : S -> Prop) (Q : E -> Prop) payload order :
  Q malformed -> forall fuel offset s,
  bytes_ok payload -> zlen payload + 4 < 2 ^ 64 -> 0 <= offset <= zlen payload ->
  zlen payload - offset < Z.of_nat fuel ->
  (forall id v s, bytes_ok v -> Inv s ->
     match handle id v s with Fault => False | Stop e => Q e | Done s' => Inv s' end) ->
  Inv s ->
  match parameter_loop malformed handle fuel payload (zlen payload) order offset s with
  | Fault => False
  | Stop e => Q e
  | Done (_, s') => Inv s'
  end.
Proof.
  intros HQ.
  induction fuel as [|fuel IH]; intros offset s Hb Hlen Hoff Hfuel Hh Hs; [lia|].
  cbn [parameter_loop]. rewrite add64_id by lia.
  destruct (Z.leb_spec (offset + 4) (zlen payload)); [|done].
  unfold read_u16.
  destruct (read_uint16 payload offset order) as [|e|id] eqn:Hid.
  - by apply (read_uint16_safe (E:=E) payload offset order ltac:(lia) ltac:(lia)) in Hid.
  - by apply read_uint16_no_stop in Hid.
  - cbn [mbind outcome_bind].
    destruct (read_uint16 payload (offset + 2) order) as [|e|len] eqn:Hl.
    + by apply (read_uint16_safe (E:=E) payload (offset + 2) order ltac:(lia) ltac:(lia)) in Hl.
    + by apply read_uint16_no_stop in Hl.
    + cbn [mbind outcome_bind]. apply read_uint16_range in Hl; [|done].
      destruct (id =? pid_sentinel); [done|].
      rewrite sub64_id by lia.
      destruct (negb (Z.land len 3 =? 0)); cbn [orb stop_if mbind outcome_bind]; [done|].
      destruct (Z.ltb_spec (zlen payload - (offset + 4)) len);
        cbn [stop_if mbind outcome_bind]; [done|].
      destruct (proj2 (mslice_is_Some payload (offset + 4) len)) as [v Hv]; [lia|].
      rewrite Hv. cbn [access mbind outcome_bind].
      specialize (Hh id v s (mslice_Forall _ _ _ _ _ Hb Hv) Hs) as Hstep.
      destruct (handle id v s) as [| |s']; cbn [mbind outcome_bind]; [done..|].
      rewrite add64_id by lia. apply IH; (done || lia).
Qed.
End Loop.

(** ** Durations *)

Lemma duration_seconds_range ns : 0 <= ns -> 0 <= duration_seconds ns.
Proof. intros. apply Z.div_pos; unfold nanoseconds_per_second; lia. Qed.

Lemma duration_fraction_exact ns :
  duration_fraction ns =
    ns mod nanoseconds_per_second * 2 ^ 32 / nanoseconds_per_second /\
  0 <= duration_fraction ns < 2 ^ 32.
Proof.
  unfold duration_fraction, nanoseconds_per_second.
  pose proof (Z.mod_pos_bound ns 1000000000). rewrite Z.shiftl_mul_pow2 by lia.
  rewrite u64_id by lia.
  assert (0 <= ns mod 1000000000 * 2 ^ 32 / 1000000000 < 2 ^ 32).
  { split; [apply Z.div_pos; lia|]. apply Z.div_lt_upper_bound; lia. }
  by rewrite u32_id.
Qed.

(** A duration that went over the wire is at most one nanosecond short. *)
Lemma duration_roundtrip ns :
  0 <= ns -> duration_seconds ns <= i32_max ->
  let d := duration_of (duration_seconds ns) (duration_fraction ns) in
  ns - 1 <= d <= ns /\ (ns mod nanoseconds_per_second = 0 -> d = ns).
Proof.
  intros Hns Hs d. destruct (duration_fraction_exact ns) as [Hf Hfr].
  pose proof (duration_seconds_range ns Hns). unfold i32_max in Hs.
  unfold d, duration_of. unfold nanoseconds_per_second in *.
  rewrite !mul64_id, Z.shiftr_div_pow2 by lia.
  set (f := duration_fraction ns) in *.
  pose proof (Z.mod_pos_bound ns 1000000000 ltac:(lia)) as Hr.
  pose proof (Z.div_mod ns 1000000000 ltac:(lia)) as Hdm.
  unfold duration_seconds, nanoseconds_per_second in *.
  set (r := ns mod 1000000000) in *.
  pose proof (Z.div_mod (r * 2 ^ 32) 1000000000 ltac:(lia)) as H1.
  pose proof (Z.mod_pos_bound (r * 2 ^ 32) 1000000000 ltac:(lia)) as H2.
  rewrite <- Hf in H1.
  pose proof (Z.div_mod (f * 1000000000) (2 ^ 32) ltac:(lia)) as H3.
  pose proof (Z.mod_pos_bound (f * 1000000000) (2 ^ 32) ltac:(lia)) as H4.
  assert (r - 1 <= f * 1000000000 / 2 ^ 32 <= r) as Hb by lia.
  rewrite add64_id by lia. split; [lia|]. intros H0. lia.
Qed.

Lemma parse_duration_encoded {E} (invalid : E) order ns pre post :
  0 <= ns -> duration_seconds ns <= i32_max ->
  parse_duration invalid (pre ++ duration_bytes order ns ++ post) (zlen pre) order =
  Done (duration_of (duration_seconds ns) (duration_fraction ns)).
Proof.
  intros Hns Hs. pose proof (duration_seconds_range ns Hns). unfold i32_max in Hs.
  destruct (duration_fraction_exact ns) as [_ Hf].
  unfold parse_duration, duration_bytes, read_u32. rewrite <- !app_assoc.
  rewrite (read_uint32_encode pre _ (zlen pre) (duration_seconds ns)) by lia.
  cbn [mbind outcome_bind].
  assert (i32_of_bits (duration_seconds ns) = duration_seconds ns) as ->.
  { unfold i32_of_bits, signed. destruct (Z.ltb_spec (duration_seconds ns) (2 ^ (32 - 1))); lia. }
  destruct (Z.ltb_spec (duration_seconds ns) 0); [lia|]. cbn [stop_if mbind outcome_bind].
  rewrite app_assoc, read_uint32_encode by (put_len || lia). done.
Qed.

(** ** Parsed locators *)

Lemma valid_locator_fields l :
  valid_udp_v4_locator l = true -> kind l = 1 /\ port l <> 0 /\ port l <= 65535.
Proof.
  unfold valid_udp_v4_locator. destruct (Z.eqb_spec (kind l) 1); [|done].
  destruct (Z.eqb_spec (port l) 0); [done|]. by destruct (Z.ltb_spec 65535 (port l)).
Qed.

Lemma parsed_locator_encoded {E} (malformed invalid bound : E) Capacity order l output :
  valid_udp_v4_locator l = true -> length (address l) = 16%nat -> 0 <= port l ->
  append_parsed_locator malformed invalid bound Capacity (locator_bytes order l) order output =
  (pushed ← push_back Capacity output l;
   match pushed with None => Stop bound | Some output' => Done output' end).
Proof.
  intros Hv Ha H0. destruct (valid_locator_fields l Hv) as (Hk & _ & Hp).
  unfold append_parsed_locator. rewrite locator_bytes_length by done.
  cbn [Z.eqb Pos.eqb negb stop_if mbind outcome_bind]. unfold read_u32, locator_bytes.
  rewrite (read_uint32_start _ (bits_of_i32 (kind l))) by apply bits_of_i32_range.
  cbn [mbind outcome_bind]. rewrite i32_bits_roundtrip by lia. rewrite Hk.
  cbn [Z.eqb Pos.eqb negb].
  rewrite (read_uint32_encode (encode_uint order 4 (bits_of_i32 1)) (address l) 4 (port l))
    by (rewrite ?encode_uint_length; lia).
  cbn [mbind outcome_bind]. rewrite app_assoc.
  rewrite <- (app_nil_r (address l)) at 1.
  rewrite (mslice_app_exact _ (address l) [] 8 16)
    by (rewrite ?length_app, ?encode_uint_length; lia).
  cbn [access mbind outcome_bind].
  assert ({| kind := 1; port := port l; address := address l |} = l) as ->
    by (destruct l; cbn in *; by subst).
  by rewrite Hv.
Qed.

(** On arbitrary bytes: only valid locators are kept, and nothing outside the
    value is read. *)
Lemma parsed_locator_post {E} (malformed invalid bound : E) Capacity order value output :
  bytes_ok value -> list_wf Capacity output -> 0 <= Capacity < 2 ^ 64 ->
  Forall (fun l => valid_udp_v4_locator l = true /\ length (address l) = 16%nat) (held output) ->
  match append_parsed_locator malformed invalid bound Capacity value order output with
  | Fault => False
  | Stop _ => True
  | Done l => list_wf Capacity l /\
      Forall (fun l => valid_udp_v4_locator l = true /\ length (address l) = 16%nat) (held l)
  end.
Proof.
  intros Hb Hwf HC Hall. unfold append_parsed_locator, read_u32.
  destruct (Z.eqb_spec (zlen value) 24) as [Hl|]; cbn [negb stop_if mbind outcome_bind]; [|done].
  assert (forall at_, 0 <= at_ -> at_ + 4 <= 24 ->
    exists v, read_uint32 value at_ order = (Done v : outcome E Z)) as Hread.
  { intros at_ H1 H2. destruct (read_uint32 value at_ order) as [|e|v] eqn:Hr.
    - by apply (read_uint32_safe (E:=E) value at_ order) in Hr; [|lia..].
    - by apply read_uint32_no_stop in Hr.
    - by exists v. }
  destruct (Hread 0) as [k ->]; [lia..|]. cbn [mbind outcome_bind].
  destruct (negb (i32_of_bits k =? 1)); [done|].
  destruct (Hread 4) as [p ->]; [lia..|]. cbn [mbind outcome_bind].
  destruct (proj2 (mslice_is_Some value 8 16)) as [a Ha]; [lia|]. rewrite Ha.
  cbn [access mbind outcome_bind].
  set (l := {| kind := i32_of_bits k; port := p; address := a |}).
  destruct (valid_udp_v4_locator l) eqn:Hv; cbn [negb stop_if mbind outcome_bind]; [|done].
  pose proof (push_back_spec (E:=E) Capacity output l Hwf HC) as Hpush.
  destruct (size output <? Capacity); [|by rewrite Hpush].
  destruct Hpush as (l' & -> & Hwf' & Hheld & _). cbn [mbind outcome_bind].
  split; [done|]. rewrite Hheld. apply Forall_app. split; [done|].
  constructor; [|constructor]. split; [done|].
  apply mslice_length in Ha. cbn. lia.
Qed.

(** ** Lengths of encoded parameters *)

Lemma padded_aligned v n : zlen v = n -> padded_size n = n -> padded v = v.
Proof.
  intros Hv Hn. unfold padded, padding. rewrite Hv, Hn, Z.sub_diag. apply app_nil_r.
Qed.

Lemma grown p order id v n k :
  zlen v = n -> n < 2 ^ 63 -> 4 + padded_size n = k ->
  zlen (p ++ encode_param order id v) = zlen p + k.
Proof.
  intros Hv Hn Hk. rewrite length_app.
  pose proof (encode_param_length order id v ltac:(lia)). subst. lia.
Qed.

Lemma locator_params_length order id l :
  Forall (fun x => length (address x) = 16%nat) (held l) ->
  zlen (encode_params order (locator_params id order l)) = 28 * zlen (held l).
Proof.
  unfold locator_params. induction 1 as [|x xs Hx Hxs IH]; [done|].
  rewrite fmap_cons. change ((id, locator_bytes order x) :: ?t) with
    ([(id, locator_bytes order x)] ++ t).
  rewrite encode_params_app, encode_params_one, length_app.
  pose proof (encode_param_length order id (locator_bytes order x)) as He.
  rewrite locator_bytes_length in He by done. change (padded_size 24) with 24 in He.
  cbn [length]. lia.
Qed.

Lemma encode_params_count order ps :
  Forall param_ok ps -> 4 * zlen ps <= zlen (encode_params order ps).
Proof.
  induction 1 as [|[id v] ps (_ & _ & Hv) Hps IH]; [done|].
  change ((id, v) :: ps) with ([(id, v)] ++ ps).
  rewrite encode_params_app, encode_params_one, !length_app.
  pose proof (encode_param_length order id v). pose proof (padded_size_bounds (zlen v)).
  cbn [length]. lia.
Qed.

(** Running the loop over a whole encoded list, from behind the encapsulation. *)
Lemma loop_encoded {E S} (malformed : E) (handle : Z -> list Z -> S -> outcome E S)
    order ps s :
  Forall param_ok ps -> zlen (encode_list order ps) < 2 ^ 63 ->
  let payload := encode_list order ps in
  parameter_loop malformed handle (Datatypes.S (Z.to_nat (zlen payload))) payload
    (zlen payload) order 4 s =
  (s' ← for_each (fun '(id, v) s => handle id (padded v) s) ps s; Done (true, s')).
Proof.
  intros Hps Hlen payload.
  pose proof (parameter_loop_encoded malformed handle order [] ps
    (Datatypes.S (Z.to_nat (zlen payload))) (encapsulation order) s) as Hloop.
  pose proof (encode_params_count order ps Hps).
  assert (encapsulation order ++ encode_params order (ps ++ [(pid_sentinel, [])]) ++ [] =
    payload) as Hpay by (unfold payload, encode_list; by rewrite app_nil_r).
  cbv zeta in Hloop. rewrite Hpay in Hloop. apply Hloop; [|done|done].
  unfold payload, encode_list in *. rewrite encode_params_app, !length_app in *. lia.
Qed.

Lemma parse_duration_post {E} (invalid : E) value at_ order :
  bytes_ok value -> 0 <= at_ -> at_ + 8 <= zlen value ->
  match parse_duration invalid value at_ order with
  | Fault => False
  | Stop e => e = invalid
  | Done d => 0 <= d < 2 ^ 63
  end.
Proof.
  intros Hb H1 H2. unfold parse_duration, read_u32.
  destruct (read_uint32_Done (E:=E) value at_ order) as (s & -> & Hs); [done|lia..|].
  cbn [mbind outcome_bind]. destruct (Z.ltb_spec (i32_of_bits s) 0);
    cbn [stop_if mbind outcome_bind]; [done|].
  destruct (read_uint32_Done (E:=E) value (at_ + 4) order) as (f & -> & Hf); [done|lia..|].
  cbn [mbind outcome_bind]. unfold duration_of, nanoseconds_per_second.
  assert (0 <= i32_of_bits s < 2 ^ 31) as Hi.
  { unfold i32_of_bits, signed in *. destruct (Z.ltb_spec s (2 ^ (32 - 1))); lia. }
  rewrite !mul64_id, Z.shiftr_div_pow2 by lia.
  assert (0 <= f * 1000000000 / 2 ^ 32 < 1000000000).
  { split; [apply Z.div_pos; lia|apply Z.div_lt_upper_bound; lia]. }
  rewrite add64_id by lia. lia.
Qed.

End Param.
