(* ===== verification/ParameterFacts.v ===== *)
(** * Lemmas shared by the two discovery protocols

    What [ParameterList.v] leaves to its clients: performing one parameter of a
    payload after the other, reading locator lists back, and the partial
    correctness rules for parsers of untrusted parameters. *)
From S2P Require Import Prelude.
From S2P Require Import Bytes.
From S2P Require Import Types.
From S2P Require Import Locators.
From S2P Require Import ParameterList.

Module ParamFacts.
Import Types Locators Param.

#[local] Opaque encode_uint.

(** ** Locator lists *)

(** A locator list with the sizes and ranges of its C++ types. *)
Record list_typed (Capacity : Z) (l : BoundedLocatorList) : Prop := {
  lt_values : zlen (values l) = Capacity;
  lt_size : 0 <= size l < 2 ^ 64;
  lt_locators : Forall locator_ok (values l);
}.

(** A locator list that holds valid UDPv4 locators only. *)
Definition list_sound (Capacity : Z) (l : BoundedLocatorList) : Prop :=
  list_wf Capacity l /\
  Forall (fun x => valid_udp_v4_locator x = true /\ length (address x) = 16%nat) (held l).

(** The list can be announced. *)
Definition list_usable (Capacity : Z) (l : BoundedLocatorList) : Prop :=
  size l <= Capacity /\ Forall (fun x => valid_udp_v4_locator x = true) (held l).

Definition list_usableb (Capacity : Z) (l : BoundedLocatorList) : bool :=
  (size l <=? Capacity) && forallb valid_udp_v4_locator (held l).

Lemma list_usable_spec Capacity l : list_usableb Capacity l = true <-> list_usable Capacity l.
Proof.
  unfold list_usableb, list_usable. rewrite andb_true_iff, Z.leb_le, forallb_forall, Forall_forall.
  split; intros [H1 H2]; (split; [done|]); intros x Hx; apply H2, list_elem_of_In, Hx.
Qed.

Lemma held_addresses Capacity l :
  list_typed Capacity l -> Forall (fun x => length (address x) = 16%nat) (held l).
Proof.
  intros [_ _ Hl]. unfold held. apply Forall_take. eapply Forall_impl; [exact Hl|].
  intros x (_ & _ & Ha & _). done.
Qed.

Lemma held_length Capacity l :
  list_typed Capacity l -> size l <= Capacity -> zlen (held l) = size l.
Proof. intros [Hv Hs _] H4. unfold held. rewrite length_take. lia. Qed.

Lemma held_valid Capacity l :
  list_typed Capacity l -> list_usable Capacity l ->
  Forall (fun x => valid_udp_v4_locator x = true /\ locator_ok x) (held l) /\
  zlen (held l) <= Capacity.
Proof.
  intros Hl [H4 Hv]. pose proof (held_length _ l Hl H4). split; [|lia].
  apply Forall_and. split; [done|]. unfold held. apply Forall_take, Hl.
Qed.

Lemma held_nonempty Capacity l : list_wf Capacity l -> size l <> 0 -> held l <> [].
Proof.
  intros [Hv Hs] H0 Hh. apply (f_equal length) in Hh. unfold held in Hh.
  rewrite length_take in Hh. cbn in Hh. lia.
Qed.

Lemma filled_size Capacity n l :
  list_typed Capacity l -> size l <= Capacity -> size (filled n (held l)) = size l.
Proof. intros. cbn [filled size]. by eapply held_length. Qed.

Lemma default_list_sound Capacity :
  0 <= Capacity -> list_sound Capacity (BoundedLocatorList_default Capacity).
Proof.
  intros. split; [|constructor]. split; cbn; [rewrite length_replicate; lia|lia].
Qed.

Lemma locator_params_ok Capacity order id l :
  list_typed Capacity l -> 0 <= id < 2 ^ 16 -> id <> pid_sentinel ->
  Forall param_ok (locator_params id order l).
Proof.
  intros Hl H1 H2. unfold locator_params. apply Forall_fmap.
  eapply Forall_impl; [by eapply held_addresses|]. intros x Hx.
  change (param_ok (id, locator_bytes order x)). unfold param_ok.
  rewrite locator_bytes_length by done. split_and!; (done || lia).
Qed.

(** ** Writing the parameters of a payload *)

Lemma duration_bytes_length order ns : zlen (duration_bytes order ns) = 8.
Proof. unfold duration_bytes. by rewrite length_app, !encode_uint_length. Qed.

Lemma byte_fills {E} x : fills (fun m v => access (mstore m v x) : outcome E _) [x].
Proof. intros q r Hr. rewrite mstore_mcopy. by rewrite mcopy_snoc. Qed.

Lemma two_bytes_fill {E} x y :
  fills (fun m v => m ← access (mstore m v x); access (mstore m (v + 1) y) : outcome E _)
    [x; y].
Proof.
  intros q r Hr. cbn [length] in Hr. put. rewrite mstore_mcopy, mcopy_snoc by put_len.
  cbn [access]. by rewrite drop_drop, <- !app_assoc.
Qed.

Section Writing.
Context {E : Type} (overflow : E) (capacity : Z) (Hcapacity : capacity < 2 ^ 63).

(** One parameter with a fixed-size value. *)
Lemma put_at w order p id v n k (fill : list Z -> Z -> outcome E (list Z)) :
  writer_at w order capacity p -> zlen v = n -> n <= 100 ->
  4 + padded_size n = k -> zlen p + k <= capacity -> fills fill v ->
  exists w', append_value overflow w id n fill = Done w' /\
    writer_at w' order capacity (p ++ encode_param order id v) /\
    zlen (p ++ encode_param order id v) = zlen p + k.
Proof.
  intros Hw Hv Hn Hk Hfit Hf.
  destruct (append_value_at overflow w order capacity p id n v fill)
    as (w' & Hd & Hw'); [done|done|by symmetry|lia|lia|done|].
  exists w'. split_and!; [done..|]. by apply (grown _ _ _ _ n); [|lia|].
Qed.

Lemma put_guid_at w order p id prefix entity :
  writer_at w order capacity p -> length prefix = 12%nat -> length entity = 4%nat ->
  zlen p + 20 <= capacity ->
  exists w', append_guid overflow w id prefix entity = Done w' /\
    writer_at w' order capacity (p ++ encode_param order id (prefix ++ entity)) /\
    zlen (p ++ encode_param order id (prefix ++ entity)) = zlen p + 20.
Proof.
  intros Hw H1 H2 Hfit. apply put_at; try done; try (rewrite length_app; lia).
  by apply guid_fills.
Qed.

Lemma put_string_at w order p id text n :
  writer_at w order capacity p -> 0 <= n <= zlen text -> n <= 60000 ->
  zlen p + 12 + n <= capacity ->
  exists w', append_string overflow w id text n order = Done w' /\
    writer_at w' order capacity
      (p ++ encode_param order id (string_bytes order (take (Z.to_nat n) text))) /\
    zlen (p ++ encode_param order id (string_bytes order (take (Z.to_nat n) text))) <=
      zlen p + 12 + n.
Proof.
  intros Hw H1 H2 Hfit. pose proof (padded_size_bounds (4 + n + 1)) as Hpad.
  destruct (append_string_at overflow w order capacity p Hw Hcapacity id text n)
    as (w' & Hd & Hw'); [lia..|].
  exists w'. split_and!; [done..|].
  assert (zlen (take (Z.to_nat n) text) = n) as Hn by (rewrite length_take; lia).
  erewrite (grown _ _ _ _ _ _ (text_bytes_length _ _)); [|..|reflexivity]; rewrite Hn; lia.
Qed.

Lemma put_list_at Capacity w order p id l :
  writer_at w order capacity p -> list_typed Capacity l -> size l <= Capacity ->
  zlen p + 28 * size l <= capacity ->
  exists w', append_list overflow w id l order = Done w' /\
    writer_at w' order capacity (p ++ encode_params order (locator_params id order l)) /\
    zlen (p ++ encode_params order (locator_params id order l)) = zlen p + 28 * size l.
Proof.
  intros Hw Hl H4 Hfit.
  destruct (append_list_at overflow order capacity id l p w Hw)
    as (w' & Hd & Hw'); [done|by eapply held_addresses|destruct Hl; lia|done|].
  exists w'. split_and!; [done..|].
  rewrite length_app, Nat2Z.inj_add, locator_params_length by (by eapply held_addresses).
  by erewrite held_length.
Qed.
End Writing.

(** Perform the next parameter, whose value is [v]; the length and the stores of
    the value are left when they are not immediate. *)
Ltac put_param v :=
  match goal with Hw : writer_at ?w ?o ?c ?p
      |- context [append_value ?e ?w ?id ?n ?f] =>
    let w' := fresh "w" in let Hd := fresh "Hd" in let Hw' := fresh "Hw" in
    let Hl := fresh "Hl" in
    let k := eval vm_compute in (4 + padded_size n) in
    destruct (put_at e c ltac:(done) w o p id v n k f Hw) as (w' & Hd & Hw' & Hl);
      [try reflexivity|lia|reflexivity|lia| |
       rewrite Hd; cbn [mbind outcome_bind]; clear Hw Hd] end.

Ltac put_guid :=
  match goal with Hw : writer_at ?w ?o ?c ?p
      |- context [append_guid ?e ?w ?id ?g ?n] =>
    let w' := fresh "w" in let Hd := fresh "Hd" in let Hw' := fresh "Hw" in
    let Hl := fresh "Hl" in
    destruct (put_guid_at e c ltac:(done) w o p id g n Hw) as (w' & Hd & Hw' & Hl);
      [assumption || done|assumption || done|lia|
       rewrite Hd; cbn [mbind outcome_bind]; clear Hw Hd] end.

Ltac put_list H4 :=
  match goal with Hw : writer_at ?w ?o ?c ?p
      |- context [append_list ?e ?w ?id ?l ?o] =>
    match goal with Ht : list_typed ?n l |- _ =>
      let w' := fresh "w" in let Hd := fresh "Hd" in let Hw' := fresh "Hw" in
      let Hl := fresh "Hl" in
      destruct (put_list_at e c ltac:(done) n w o p id l Hw Ht) as (w' & Hd & Hw' & Hl);
        [exact H4|lia|rewrite Hd; cbn [mbind outcome_bind]; clear Hw Hd] end end.

(** ** Reading them back *)

Lemma read_word {E} order x :
  0 <= x < 2 ^ 32 -> read_u32 (encode_uint order 4 x) 0 order = (Done x : outcome E Z).
Proof.
  intros Hx. rewrite <- (app_nil_r (encode_uint order 4 x)). by apply read_uint32_start.
Qed.

Lemma padded_word order x : padded (encode_uint order 4 x) = encode_uint order 4 x.
Proof. apply (padded_aligned _ 4); [by rewrite encode_uint_length|done]. Qed.

Lemma guid_length (prefix entity : list Z) :
  length prefix = 12%nat -> length entity = 4%nat -> zlen (prefix ++ entity) = 16.
Proof. intros. rewrite length_app. lia. Qed.

Section Lists.
Context {E S : Type} (malformed invalid bound : E).
Context (n : nat) (n_bound : Z.of_nat n < 2 ^ 64).
Context (handle : Z -> list Z -> S -> outcome E S) (order : ByteOrder) (id : Z).
Context (get : S -> BoundedLocatorList) (set : S -> BoundedLocatorList -> S).
Context (handled : forall v s, handle id v s =
  (l ← append_parsed_locator malformed invalid bound (Z.of_nat n) v order (get s);
   Done (set s l))).
Context (get_set : forall s l, get (set s l) = l).
Context (set_set : forall s l l', set (set s l) l' = set s l').

(** The parameters of a nonempty list of locators extend the list under
    construction. *)
Lemma locators_run x xs : forall ys s,
  Forall (fun x => valid_udp_v4_locator x = true /\ locator_ok x) (x :: xs) ->
  (length ys + length (x :: xs) <= n)%nat -> get s = filled n ys ->
  for_each (fun '(id, v) s => handle id (padded v) s)
    ((fun x => (id, locator_bytes order x)) <$> x :: xs) s =
  Done (set s (filled n (ys ++ x :: xs))).
Proof.
  revert x. induction xs as [|x' xs IH]; intros x ys s Hxs Hlen Hget;
    apply Forall_cons in Hxs as [[Hv (Hk & Hp & Ha & _)] Hxs]; cbn [length] in Hlen;
    rewrite fmap_cons; cbn [for_each];
    rewrite (padded_aligned _ 24) by (done || by apply locator_bytes_length);
    rewrite handled, parsed_locator_encoded by (done || lia); rewrite Hget, push_filled by lia;
    cbn [mbind outcome_bind]; [done|].
  rewrite (IH x' (ys ++ [x])); [|done|rewrite length_app; cbn; lia|apply get_set].
  by rewrite set_set, <- app_assoc.
Qed.

(** The same for a list that may be empty, where setting is the identity. *)
Lemma locators_run_id ys xs s :
  Forall (fun x => valid_udp_v4_locator x = true /\ locator_ok x) xs ->
  (length ys + length xs <= n)%nat -> get s = filled n ys -> set s (get s) = s ->
  for_each (fun '(id, v) s => handle id (padded v) s)
    ((fun x => (id, locator_bytes order x)) <$> xs) s =
  Done (set s (filled n (ys ++ xs))).
Proof.
  intros Hxs Hlen Hget Hset. destruct xs as [|x xs].
  - cbn. by rewrite app_nil_r, <- Hget, Hset.
  - by apply locators_run.
Qed.
End Lists.

(** ** Untrusted parameters *)

Section Post.
Context {E S : Type} (ok : E) (Inv : S -> Prop).

(** The body does not fault, reports real errors only, and keeps [Inv]. *)
Definition post (o : outcome E S) : Prop :=
  match o with
  | Fault => False
  | Stop e => e <> ok
  | Done s => Inv s
  end.

Lemma post_guard c e (k : unit -> outcome E S) :
  e <> ok -> (c = false -> post (k tt)) -> post (stop_if c e ≫= k).
Proof. destruct c; cbn; auto. Qed.

Lemma post_load value at_ (k : Z -> outcome E S) :
  0 <= at_ < zlen value -> (forall x, post (k x)) -> post (access (mload value at_) ≫= k).
Proof. intros Hat Hk. destruct (proj2 (mload_is_Some value at_) Hat) as [x ->]. apply Hk. Qed.

Lemma post_slice (value : list Z) at_ n (k : list Z -> outcome E S) :
  0 <= at_ /\ 0 <= n /\ at_ + n <= zlen value -> (forall x, zlen x = n -> post (k x)) ->
  post (access (mslice value at_ n) ≫= k).
Proof.
  intros Hat Hk. destruct (proj2 (mslice_is_Some value at_ n) Hat) as [x Hx].
  rewrite Hx. apply Hk. by eapply mslice_length.
Qed.

Lemma post_word value at_ order (k : Z -> outcome E S) :
  bytes_ok value -> 0 <= at_ -> at_ + 4 <= zlen value ->
  (forall x, 0 <= x < 2 ^ 32 -> post (k x)) -> post (read_u32 value at_ order ≫= k).
Proof.
  intros Hb H1 H2 Hk. unfold read_u32.
  destruct (read_uint32_Done (E:=E) value at_ order Hb) as (x & -> & Hx); [lia..|]. by apply Hk.
Qed.

Lemma post_duration invalid value at_ order (k : Z -> outcome E S) :
  bytes_ok value -> 0 <= at_ -> at_ + 8 <= zlen value -> invalid <> ok ->
  (forall d, 0 <= d < 2 ^ 63 -> post (k d)) ->
  post (parse_duration invalid value at_ order ≫= k).
Proof.
  intros Hb H1 H2 Hi Hk. pose proof (parse_duration_post invalid value at_ order Hb H1 H2) as Hd.
  destruct (parse_duration _ _ _ _) as [|e|d]; [done|by subst|by apply Hk].
Qed.

Lemma post_locator malformed invalid bound Capacity value order l
    (k : BoundedLocatorList -> outcome E S) :
  bytes_ok value -> list_sound Capacity l -> 0 <= Capacity < 2 ^ 64 ->
  malformed <> ok -> invalid <> ok -> bound <> ok ->
  (forall l', list_sound Capacity l' -> post (k l')) ->
  post (append_parsed_locator malformed invalid bound Capacity value order l ≫= k).
Proof.
  intros Hb [Hwf Hv] HC Hm Hi Hbd Hk.
  pose proof (parsed_locator_post malformed invalid bound Capacity order value l Hb Hwf HC Hv)
    as Hpost.
  destruct (append_parsed_locator _ _ _ _ _ _ _) as [|e|l'] eqn:Hd; [done| |by apply Hk].
  cbn. clear Hpost. unfold append_parsed_locator in Hd.
  destruct (negb _); cbn in Hd; [congruence|].
  apply bind_Stop_inv in Hd as [Hd|(? & _ & Hd)]; [by apply read_uint32_no_stop in Hd|].
  destruct (negb _); [done|].
  apply bind_Stop_inv in Hd as [Hd|(? & _ & Hd)]; [by apply read_uint32_no_stop in Hd|].
  apply access_bind_Stop in Hd as (? & _ & Hd).
  destruct (negb _); cbn in Hd; [congruence|].
  apply bind_Stop_inv in Hd as [Hd|([?|] & _ & Hd)]; [|done|congruence].
  unfold push_back in Hd. destruct (_ <=? _); [done|]. by stop_cases Hd.
Qed.
End Post.

End ParamFacts.
