(* ===== verification/SlotTable.v ===== *)
(** * Fixed-capacity tables of optional slots

    The participant and the endpoint table of discovery share one shape: an
    array of entries with an [occupied] flag, searched linearly by a key, whose
    due entries are reported to the caller's array and reset.  This file holds
    the loops of that shape and their meaning as finite maps. *)
From stdpp Require Import gmap.
From S2P Require Import Prelude.

Module Slots.

(** What an entry type provides to the table: its flag, its key, and the value
    [Entry{}] of a reset entry. *)
Class Slot (E K : Type) `{Countable K} := {
  occupied : E -> bool;
  slot_key : E -> K;
  slot_empty : E;
  slot_empty_free : occupied slot_empty = false;
}.

Section Table.
Context {E K : Type} `{HS : Slot E K}.
Implicit Types (es : list E) (e x : E) (k : K).

Definition holds k e : bool := occupied e && bool_decide (slot_key e = k).

(** The first entry that satisfies the condition of a search loop. *)
Definition first_where (p : E -> bool) es : option (nat * E) :=
  list_find (fun e => p e = true) es.

(** The counting loop in front of a purge. *)
Definition count_due (due : E -> bool) es : Z :=
  foldl (fun n e => if occupied e && due e then add64 n 1 else n) 0 es.

(** The loop that reports every due entry to the array [out] of the caller,
    [None] for a null pointer, and resets it. *)
Fixpoint purge {N} (due : E -> bool) (name : E -> N) es (out : option (list N))
    (out_size size : Z) : option (list E * option (list N) * Z * Z) :=
  match es with
  | [] => Some ([], out, out_size, size)
  | e :: es' =>
      if negb (occupied e) || negb (due e) then
        '(es'', out, out_size, size) ← purge due name es' out out_size size;
        Some (e :: es'', out, out_size, size)
      else
        m ← out;
        m ← mstore m out_size (name e);
        '(es'', out, out_size, size) ←
          purge due name es' (Some m) (add64 out_size 1) (sub64 size 1);
        Some (slot_empty :: es'', out, out_size, size)
  end.

(** Both tables count the due entries, refuse a null array ([null_]) or one that is
    too small ([full_]), and only then purge. *)
Definition purge_checked {Err N} (null_ full_ : Err) (due : E -> bool) (name : E -> N) es
    (out : option (list N)) (out_capacity size : Z)
    : outcome Err (list E * option (list N) * Z * Z) :=
  let n := count_due due es in
  stop_if (negb (n =? 0) && match out with None => true | _ => false end) null_;;
  stop_if (out_capacity <? n) full_;;
  access (purge due name es out 0 size).

(** ** Meaning: the finite map of the occupied entries *)

Definition live es : list E := filter (fun e => occupied e = true) es.
Definition keys es : list K := slot_key <$> live es.
Definition contents es : gmap K E := list_to_map ((fun e => (slot_key e, e)) <$> live es).

(** The entries that a purge reports, in table order. *)
Definition due_entries (due : E -> bool) es : list E :=
  filter (fun e => due e = true) (live es).

Lemma live_cons_occupied e es : occupied e = true -> live (e :: es) = e :: live es.
Proof. intros. unfold live. by rewrite filter_cons_True. Qed.

Lemma live_cons_free e es : occupied e = false -> live (e :: es) = live es.
Proof. intros H'. unfold live. rewrite filter_cons_False by congruence. done. Qed.

Lemma contents_cons_occupied e es :
  occupied e = true -> contents (e :: es) = <[slot_key e := e]> (contents es).
Proof. intros. unfold contents. by rewrite live_cons_occupied. Qed.

Lemma contents_cons_free e es : occupied e = false -> contents (e :: es) = contents es.
Proof. intros. unfold contents. by rewrite live_cons_free. Qed.

Lemma keys_cons_occupied e es : occupied e = true -> keys (e :: es) = slot_key e :: keys es.
Proof. intros. unfold keys. by rewrite live_cons_occupied. Qed.

Lemma keys_cons_free e es : occupied e = false -> keys (e :: es) = keys es.
Proof. intros. unfold keys. by rewrite live_cons_free. Qed.

Lemma holds_true k e : holds k e = true <-> occupied e = true /\ slot_key e = k.
Proof. unfold holds. by rewrite andb_true_iff, bool_decide_eq_true. Qed.

Lemma first_where_cons p e es :
  first_where p (e :: es) =
  if p e then Some (0%nat, e) else prod_map S id <$> first_where p es.
Proof. unfold first_where. simpl. destruct (p e); by case_decide. Qed.

(** Case analysis on the flag of the entry at the front. *)
Ltac by_flag e := let He := fresh "He" in destruct (occupied e) eqn:He;
  [rewrite ?(live_cons_occupied e), ?(contents_cons_occupied e),
     ?(keys_cons_occupied e) by done
  |rewrite ?(live_cons_free e), ?(contents_cons_free e), ?(keys_cons_free e) by done].

(** A linear search by key is a lookup. *)
Lemma search_contents k es : snd <$> first_where (holds k) es = contents es !! k.
Proof.
  induction es as [|e es IH]; [done|]. rewrite first_where_cons.
  assert (occupied e = false -> holds k e = false) as Hfree
    by (unfold holds; by intros ->).
  by_flag e.
  - destruct (decide (slot_key e = k)) as [<-|Hk].
    + assert (holds (slot_key e) e = true) as -> by by apply holds_true.
      by rewrite lookup_insert_eq.
    + destruct (holds k e) eqn:Hh; [by apply holds_true in Hh as []|].
      rewrite lookup_insert_ne by done. rewrite <- IH.
      by destruct (first_where (holds k) es) as [[i x]|].
  - rewrite Hfree by done. rewrite <- IH.
    by destruct (first_where (holds k) es) as [[i x]|].
Qed.

Lemma first_where_cons_Some p e es i x :
  first_where p (e :: es) = Some (i, x) ->
  (p e = true /\ i = 0%nat /\ x = e) \/
  (p e = false /\ exists j, i = S j /\ first_where p es = Some (j, x)).
Proof.
  rewrite first_where_cons. destruct (p e); [intros [= <- <-]; by left|].
  destruct (first_where p es) as [[j y]|]; intros [= <- <-]. right. eauto.
Qed.

Lemma first_where_Some p es i x :
  first_where p es = Some (i, x) -> es !! i = Some x /\ p x = true.
Proof. intros (? & ? & ?)%list_find_Some. done. Qed.

(** Overwriting the entry found for [k]. *)
Lemma update_contents k es i x e :
  first_where (holds k) es = Some (i, x) -> occupied e = true -> slot_key e = k ->
  contents (<[i := e]> es) = <[k := e]> (contents es) /\
  keys (<[i := e]> es) = keys es.
Proof.
  intros Hf He Hk. revert i Hf.
  induction es as [|y es IH]; intros i Hf; [done|].
  apply first_where_cons_Some in Hf as [([Hy Hyk]%holds_true & -> & ->)|(Hy & j & -> & Hf)].
  - simpl. rewrite !contents_cons_occupied, !keys_cons_occupied by done.
    rewrite Hk, Hyk. by rewrite insert_insert_eq.
  - destruct (IH j Hf) as [IHc IHk]. simpl. by_flag y; rewrite IHc, IHk.
    + split; [|done]. apply insert_insert_ne. intros Heq.
      assert (holds k y = true) by (by apply holds_true). congruence.
    + done.
Qed.

(** Filling the first free entry. *)
Lemma add_contents k es i x e :
  first_where (fun e => negb (occupied e)) es = Some (i, x) -> contents es !! k = None ->
  occupied e = true -> slot_key e = k ->
  contents (<[i := e]> es) = <[k := e]> (contents es) /\
  keys (<[i := e]> es) ≡ₚ k :: keys es.
Proof.
  intros Hf Hnone He Hk. revert i Hf Hnone.
  induction es as [|y es IH]; intros i Hf Hnone; [done|].
  apply first_where_cons_Some in Hf as [(Hy & -> & ->)|(Hy & j & -> & Hf)].
  - apply negb_true_iff in Hy. simpl.
    rewrite !contents_cons_occupied, !keys_cons_occupied by done.
    rewrite contents_cons_free, keys_cons_free by done. by rewrite Hk.
  - apply negb_false_iff in Hy. revert Hnone. simpl.
    rewrite !contents_cons_occupied, !keys_cons_occupied by done.
    intros [Hnone Hne]%lookup_insert_None. destruct (IH j Hf Hnone) as [-> IHk].
    split; [by apply insert_insert_ne|]. rewrite IHk. apply Permutation_swap.
Qed.

(** Resetting the entry found for [k]. *)
Lemma remove_contents k es i x :
  NoDup (keys es) -> first_where (holds k) es = Some (i, x) ->
  contents (<[i := slot_empty]> es) = delete k (contents es) /\
  keys es ≡ₚ k :: keys (<[i := slot_empty]> es).
Proof.
  intros Hn Hf. revert i Hf.
  induction es as [|y es IH]; intros i Hf; [done|].
  apply first_where_cons_Some in Hf as [([Hy Hyk]%holds_true & -> & ->)|(Hy & j & -> & Hf)].
  - simpl. rewrite (contents_cons_free slot_empty), (keys_cons_free slot_empty)
      by apply slot_empty_free.
    rewrite contents_cons_occupied, keys_cons_occupied in * by done.
    apply NoDup_cons in Hn as [Hk _]. rewrite Hyk in *. split; [|done].
    rewrite delete_insert_eq, delete_id; [done|]. unfold contents, keys in *.
    rewrite <- not_elem_of_list_to_map. by rewrite <- list_fmap_compose.
  - simpl. by_flag y.
    + rewrite keys_cons_occupied in Hn by done. apply NoDup_cons in Hn as [_ Hn].
      destruct (IH Hn j Hf) as [-> IHk]. split.
      * rewrite delete_insert_ne; [done|]. intros Heq.
        assert (holds k y = true) by (by apply holds_true). congruence.
      * rewrite IHk. apply Permutation_swap.
    + rewrite keys_cons_free in Hn by done. by apply IH.
Qed.

Lemma keys_contents k es : contents es !! k = None <-> k ∉ keys es.
Proof.
  unfold contents, keys. rewrite <- not_elem_of_list_to_map.
  rewrite <- list_fmap_compose. done.
Qed.

(** No free entry: every slot is live. *)
Lemma no_free es :
  first_where (fun e => negb (occupied e)) es = None -> length (live es) = length es.
Proof.
  induction es as [|e es IH]; [done|]. rewrite first_where_cons.
  destruct (occupied e) eqn:He; simpl; [|done]. intros Hn.
  rewrite live_cons_occupied by done. simpl. rewrite IH; [done|].
  by destruct (first_where _ es).
Qed.

Lemma free_exists es i x :
  first_where (fun e => negb (occupied e)) es = Some (i, x) ->
  (length (live es) < length es)%nat.
Proof.
  revert i. induction es as [|e es IH]; intros i Hf; [done|].
  assert (length (live es) <= length es)%nat by apply length_filter.
  apply first_where_cons_Some in Hf as [(He & _ & _)|(He & j & _ & Hf)].
  - apply negb_true_iff in He. rewrite live_cons_free by done. simpl. lia.
  - apply negb_false_iff in He. rewrite live_cons_occupied by done. simpl.
    apply IH in Hf. lia.
Qed.

Lemma size_contents es : NoDup (keys es) -> size (contents es) = length (live es).
Proof.
  induction es as [|e es IH]; [intros _; apply map_size_empty|].
  by_flag e; [|done]. intros [Hk Hn]%NoDup_cons. rewrite map_size_insert_None.
  - simpl. by rewrite IH.
  - by apply keys_contents.
Qed.

Lemma contents_key k es e :
  contents es !! k = Some e -> occupied e = true /\ slot_key e = k /\ e ∈ es.
Proof.
  rewrite <- search_contents. destruct (first_where (holds k) es) as [[i x]|] eqn:Hf; [|done].
  simpl. intros [= ->]. apply first_where_Some in Hf as [Hi [? ?]%holds_true].
  split_and!; [done..|]. by eapply list_elem_of_lookup_2.
Qed.

(** ** The purge *)

Lemma count_due_spec due es :
  Z.of_nat (length es) < 2 ^ 64 -> count_due due es = Z.of_nat (length (due_entries due es)).
Proof.
  intros Hes. unfold count_due.
  enough (forall n, 0 <= n -> n + zlen es < 2 ^ 64 ->
    foldl (fun n e => if occupied e && due e then add64 n 1 else n) n es =
    n + zlen (due_entries due es)) as -> by lia.
  clear Hes. unfold due_entries.
  induction es as [|e es IH]; intros n Hn Hb; simpl in *; [lia|].
  by_flag e; simpl; [rewrite filter_cons|rewrite IH by lia; done].
  destruct (due e); [rewrite decide_True by done|rewrite decide_False by done].
  - rewrite add64_id, IH by lia. simpl. lia.
  - rewrite IH by lia. done.
Qed.

(** The purged table, as a function of the table. *)
Definition kept (due : E -> bool) es : list E :=
  (fun e => if occupied e && due e then slot_empty else e) <$> es.

Lemma purge_null {N} due (name : E -> N) es n size :
  due_entries due es = [] ->
  purge due name es None n size = Some (kept due es, None, n, size).
Proof.
  unfold due_entries. revert n size.
  induction es as [|e es IH]; intros n size Hd; [done|]. simpl.
  destruct (occupied e) eqn:He; simpl.
  - rewrite live_cons_occupied in Hd by done. rewrite filter_cons in Hd.
    destruct (due e); [by rewrite decide_True in Hd|]. rewrite decide_False in Hd by done.
    simpl. by rewrite IH.
  - rewrite live_cons_free in Hd by done. by rewrite IH.
Qed.

(** Given room for what is due, the purge stays within the caller's array and
    writes the reported names in table order, starting at [n]. *)
Lemma purge_spec {N} due (name : E -> N) es (done_ rest : list N) size :
  (length (due_entries due es) <= length rest)%nat ->
  zlen (done_ ++ rest) < 2 ^ 64 -> zlen (due_entries due es) <= size < 2 ^ 64 ->
  purge due name es (Some (done_ ++ rest)) (zlen done_) size =
  let names := name <$> due_entries due es in
  Some (kept due es, Some ((done_ ++ names) ++ drop (length names) rest),
        zlen (done_ ++ names), size - zlen names).
Proof.
  revert done_ rest size. unfold due_entries.
  induction es as [|e es IH]; intros done_ rest size; simpl.
  { rewrite app_nil_r. intros. do 2 f_equal. lia. }
  destruct (occupied e) eqn:He; simpl.
  2:{ rewrite live_cons_free by done. intros. by rewrite IH. }
  rewrite live_cons_occupied, filter_cons by done.
  destruct (due e); [rewrite decide_True by done|rewrite decide_False by done];
    simpl; [|intros; by rewrite IH].
  intros Hr Hb Hs. simpl in Hr, Hs. destruct rest as [|r rest]; [simpl in Hr; lia|].
  rewrite length_app in Hb. simpl in Hb, Hr.
  rewrite mstore_mcopy, (mcopy_snoc done_ (r :: rest) [name e]) by (simpl; lia). simpl.
  rewrite add64_id, sub64_id by lia.
  replace (zlen done_ + 1) with (zlen (done_ ++ [name e])) by (rewrite length_app; simpl; lia).
  rewrite drop_0, (IH (done_ ++ [name e]) rest)
    by (rewrite ?length_app; simpl; lia).
  cbn. rewrite <- !app_assoc. do 2 f_equal. unfold fmap. lia.
Qed.

Lemma kept_live due es : live (kept due es) = filter (fun e => due e = false) (live es).
Proof.
  induction es as [|e es IH]; [done|]. simpl.
  destruct (occupied e) eqn:He; simpl.
  - rewrite (live_cons_occupied e), filter_cons by done.
    destruct (due e); [rewrite decide_False by done|rewrite decide_True by done].
    + rewrite live_cons_free by apply slot_empty_free. done.
    + rewrite live_cons_occupied by done. by rewrite IH.
  - rewrite !live_cons_free by done. done.
Qed.

Lemma kept_keys due es : NoDup (keys es) -> NoDup (keys (kept due es)).
Proof.
  unfold keys. rewrite kept_live. induction (live es) as [|e l IH]; [done|].
  rewrite fmap_cons, NoDup_cons, filter_cons. intros [Hk Hn].
  case_decide; [|by apply IH]. rewrite fmap_cons, NoDup_cons. split; [|by apply IH].
  contradict Hk. apply list_elem_of_fmap in Hk as (x & -> & Hx).
  apply list_elem_of_filter in Hx as [_ Hx]. by apply list_elem_of_fmap_2.
Qed.

Lemma kept_length due es : length (kept due es) = length es.
Proof. apply length_fmap. Qed.

Lemma kept_live_length due es :
  Z.of_nat (length (live (kept due es))) =
  zlen (live es) - zlen (due_entries due es).
Proof.
  rewrite kept_live. unfold due_entries. induction (live es) as [|e l IH]; [done|].
  rewrite !filter_cons. destruct (due e); repeat case_decide; simpl in *; done || lia.
Qed.

(** The purge removes exactly the due entries from the map. *)
Lemma kept_contents due es :
  NoDup (keys es) -> contents (kept due es) = filter (fun ke => due ke.2 = false) (contents es).
Proof.
  induction es as [|e es IH]; intros Hn; [done|]. simpl.
  destruct (occupied e) eqn:He; simpl.
  - rewrite keys_cons_occupied in Hn by done. apply NoDup_cons in Hn as [Hk Hn].
    apply keys_contents in Hk. rewrite (contents_cons_occupied e) by done.
    destruct (due e) eqn:Hd.
    + rewrite contents_cons_free by apply slot_empty_free.
      rewrite map_filter_insert_False by (simpl; congruence).
      rewrite delete_id by done. by apply IH.
    + rewrite contents_cons_occupied by done.
      rewrite map_filter_insert_True by done. f_equal. by apply IH.
  - rewrite keys_cons_free in Hn by done. rewrite !contents_cons_free by done. by apply IH.
Qed.

(** ** A table of [capacity] entries and its counter *)

Record table_ok (capacity : nat) es (n : Z) : Prop := {
  to_length : length es = capacity;
  to_keys : NoDup (keys es);
  to_count : n = Z.of_nat (length (live es));
}.

Lemma table_ok_empty capacity : table_ok capacity (replicate capacity slot_empty) 0.
Proof.
  assert (live (replicate capacity slot_empty) = []) as Hl.
  { induction capacity as [|n IH]; [done|]. simpl.
    by rewrite live_cons_free by apply slot_empty_free. }
  split; [apply length_replicate|unfold keys; rewrite Hl; constructor|by rewrite Hl].
Qed.

Lemma table_ok_size capacity es n :
  table_ok capacity es n -> n = Z.of_nat (size (contents es)) /\ 0 <= n <= Z.of_nat capacity.
Proof.
  intros [H1 H2 ->]. rewrite size_contents by done. split; [done|].
  assert (length (live es) <= length es)%nat by apply length_filter. lia.
Qed.

Lemma table_ok_full capacity es n :
  table_ok capacity es n -> first_where (fun e => negb (occupied e)) es = None ->
  size (contents es) = capacity.
Proof. intros [H1 H2 ->] Hf. rewrite size_contents by done. by rewrite no_free. Qed.

Lemma table_ok_free capacity es n i x :
  table_ok capacity es n -> first_where (fun e => negb (occupied e)) es = Some (i, x) ->
  (size (contents es) < capacity)%nat.
Proof.
  intros [H1 H2 ->] Hf. rewrite size_contents, <- H1 by done. by eapply free_exists.
Qed.

Lemma table_ok_update capacity es n k i x e :
  table_ok capacity es n -> first_where (holds k) es = Some (i, x) ->
  occupied e = true -> slot_key e = k -> table_ok capacity (<[i := e]> es) n.
Proof.
  intros [H1 H2 ->] Hf He Hk. destruct (update_contents k es i x e Hf He Hk) as [_ Hkeys].
  split; [by rewrite length_insert|by rewrite Hkeys|].
  apply (f_equal length) in Hkeys. unfold keys in Hkeys. rewrite !length_fmap in Hkeys.
  by rewrite Hkeys.
Qed.

Lemma table_ok_add capacity es n k i x e :
  table_ok capacity es n ->
  first_where (fun e => negb (occupied e)) es = Some (i, x) -> contents es !! k = None ->
  occupied e = true -> slot_key e = k -> table_ok capacity (<[i := e]> es) (n + 1).
Proof.
  intros [H1 H2 ->] Hf Hn He Hk. destruct (add_contents k es i x e Hf Hn He Hk) as [_ Hkeys].
  split; [by rewrite length_insert| |].
  - rewrite Hkeys. apply NoDup_cons. split; [by apply keys_contents|done].
  - apply Permutation_length in Hkeys. unfold keys in Hkeys. simpl in Hkeys.
    rewrite !length_fmap in Hkeys. rewrite Hkeys. lia.
Qed.

Lemma table_ok_remove capacity es n k i x :
  table_ok capacity es n -> first_where (holds k) es = Some (i, x) ->
  table_ok capacity (<[i := slot_empty]> es) (n - 1).
Proof.
  intros [H1 H2 ->] Hf. destruct (remove_contents k es i x H2 Hf) as [_ Hkeys].
  split; [by rewrite length_insert| |].
  - rewrite Hkeys in H2. by apply NoDup_cons in H2 as [_ H2].
  - apply Permutation_length in Hkeys. unfold keys in Hkeys. simpl in Hkeys.
    rewrite !length_fmap in Hkeys. rewrite Hkeys. lia.
Qed.

Lemma table_ok_kept capacity es n due :
  table_ok capacity es n ->
  table_ok capacity (kept due es) (n - zlen (due_entries due es)).
Proof.
  intros [H1 H2 ->]. split; [by rewrite kept_length|by apply kept_keys|].
  by rewrite kept_live_length.
Qed.

(** What a purge reports are the keys of the due part of the map. *)
Lemma due_keys due es :
  NoDup (keys es) ->
  slot_key <$> due_entries due es ≡ₚ
  (map_to_list (filter (fun ke => due ke.2 = true) (contents es))).*1.
Proof.
  unfold due_entries. induction es as [|e es IH]; intros Hn; [done|].
  destruct (occupied e) eqn:He.
  - rewrite keys_cons_occupied in Hn by done. apply NoDup_cons in Hn as [Hk Hn].
    apply keys_contents in Hk. rewrite contents_cons_occupied, live_cons_occupied by done.
    rewrite filter_cons. destruct (due e) eqn:Hd.
    + rewrite decide_True, map_filter_insert_True by done.
      rewrite map_to_list_insert by (by apply map_lookup_filter_None_2; left).
      simpl. by rewrite <- IH.
    + rewrite decide_False, map_filter_insert_False by (simpl; congruence).
      rewrite delete_id by done. by apply IH.
  - rewrite keys_cons_free in Hn by done.
    rewrite contents_cons_free, live_cons_free by done. by apply IH.
Qed.

Lemma due_le_live due es : zlen (due_entries due es) <= zlen (live es).
Proof.
  assert (length (due_entries due es) <= length (live es))%nat by apply length_filter. lia.
Qed.
(** ** The whole removal *)

Definition due_part (due : E -> bool) es : gmap K E :=
  filter (fun ke => due ke.2 = true) (contents es).

Lemma due_part_size due es :
  NoDup (keys es) -> length (due_entries due es) = size (due_part due es).
Proof.
  intros Hk. pose proof (Permutation_length (due_keys due es Hk)) as Hl.
  by rewrite !length_fmap, length_map_to_list in Hl.
Qed.

(** The caller's array after [names] have been reported. *)
Definition reported {N} (names : list N) (out : option (list N)) : option (list N) :=
  (fun m => names ++ drop (length names) m) <$> out.

Lemma purge_checked_spec {Err N} (null_ full_ : Err) due (name : E -> N) es out cap capacity n :
  table_ok capacity es n -> Z.of_nat capacity < 2 ^ 64 ->
  (forall m, out = Some m -> cap <= zlen m < 2 ^ 64) ->
  let names := name <$> due_entries due es in
  purge_checked null_ full_ due name es out cap n =
  if decide (due_part due es <> ∅ /\ out = None) then Stop null_
  else if decide (cap < Z.of_nat (size (due_part due es))) then Stop full_
  else Done (kept due es, reported names out, zlen names, n - zlen (due_entries due es)).
Proof.
  intros Hok Hc Hout. pose proof Hok as [Hl Hk Hn].
  pose proof (due_part_size due es Hk) as Hsz. pose proof (due_le_live due es) as Hle.
  pose proof (table_ok_size _ _ _ Hok) as [_ Hb].
  unfold purge_checked. rewrite count_due_spec, Hsz by lia. set (P := due_part due es) in *.
  assert (Z.of_nat (size P) = 0 <-> P = ∅) as H0.
  { rewrite <- map_size_empty_iff. lia. }
  destruct (decide (P <> ∅ /\ out = None)) as [[Hne ->]|Hne].
  { destruct (Z.eqb_spec (Z.of_nat (size P)) 0); [tauto|done]. }
  assert (negb (Z.of_nat (size P) =? 0) && match out with None => true | _ => false end = false)
    as ->.
  { destruct out as [m|]; [apply andb_false_r|]. rewrite andb_true_r.
    apply negb_false_iff, Z.eqb_eq, H0. destruct (decide (P = ∅)); tauto. }
  cbn [stop_if mbind outcome_bind].
  destruct (Z.ltb_spec cap (Z.of_nat (size P))), (decide (cap < Z.of_nat (size P)));
    [done|lia..|]. cbn [stop_if mbind outcome_bind].
  destruct out as [m|].
  - destruct (Hout m eq_refl). pose proof (purge_spec due name es [] m n) as Hp.
    cbn [app length] in Hp. change (Z.of_nat 0) with 0 in Hp. rewrite Hp by lia.
    cbn. do 3 f_equal.
    rewrite length_fmap. lia.
  - assert (P = ∅) as He by (destruct (decide (P = ∅)); tauto).
    rewrite He, map_size_empty in Hsz. apply length_zero_iff_nil in Hsz.
    rewrite purge_null, He, map_size_empty, Hsz by done. cbn. by rewrite Z.sub_0_r.
Qed.
End Table.

End Slots.
