(* ===== verification/Spdp.v ===== *)
(** * Participant discovery messages (SPDP)

    [include/openrtdds/rtps/spdp.hpp] and [src/rtps/spdp.cpp]: the announcement
    builder and parser. *)
From S2P Require Import Prelude.
From S2P Require Import Bytes.
From S2P Require Import Types.
From S2P Require Import Locators.
From S2P Require Import MessageRouter.
From S2P Require Import DataMessage.
From S2P Require Import ParameterList.
From S2P Require Import ParameterFacts.

Module Spdp.
Import Types Locators Param ParamFacts.

Definition spdp_max_locators : Z := 4.
Definition spdp_max_entity_name : Z := 63.
Definition spdp_endpoint_participant_announcer : Z := 1.
Definition spdp_endpoint_participant_detector : Z := 2.

Inductive SpdpError : Set :=
  | spdp_none
  | invalid_argument
  | invalid_configuration
  | buffer_overflow
  | data_error
  | unsupported_representation
  | malformed_parameter
  | unknown_required_parameter
  | missing_required_parameter
  | duplicate_parameter
  | locator_bound_exceeded
  | invalid_locator
  | invalid_duration
  | invalid_identity
  | domain_mismatch
  | self_announcement
  | table_full
  | stale_announcement
  | time_regression
  | expiration_overflow
  | action_capacity_exceeded.

#[global] Instance SpdpError_eq_dec : EqDecision SpdpError.
Proof. solve_decision. Defined.

Definition spdp_error_string (error : SpdpError) : string :=
  match error with
  | spdp_none => "none"
  | invalid_argument => "invalid argument"
  | invalid_configuration => "invalid SPDP configuration"
  | buffer_overflow => "SPDP output buffer overflow"
  | data_error => "RTPS DATA operation failed"
  | unsupported_representation => "unsupported discovery representation"
  | malformed_parameter => "malformed SPDP parameter"
  | unknown_required_parameter => "unknown must-understand parameter"
  | missing_required_parameter => "missing required SPDP parameter"
  | duplicate_parameter => "duplicate singleton SPDP parameter"
  | locator_bound_exceeded => "SPDP locator bound exceeded"
  | invalid_locator => "invalid UDPv4 locator"
  | invalid_duration => "invalid participant lease duration"
  | invalid_identity => "invalid SPDP participant identity"
  | domain_mismatch => "SPDP domain mismatch"
  | self_announcement => "local participant announcement ignored"
  | table_full => "discovered participant table full"
  | stale_announcement => "stale participant announcement"
  | time_regression => "monotonic time regression"
  | expiration_overflow => "lease expiration overflow"
  | action_capacity_exceeded => "expiration output capacity exceeded"
  end.

Record SpdpResult : Set := { error : SpdpError; rtps_error : Data.RtpsError; bytes : Z }.

Definition pid_participant_lease_duration : Z := 2.
Definition pid_domain_id : Z := 15.
Definition pid_protocol_version : Z := 21.
Definition pid_vendor_id : Z := 22.
Definition pid_default_unicast_locator : Z := 49.
Definition pid_metatraffic_unicast_locator : Z := 50.
Definition pid_metatraffic_multicast_locator : Z := 51.
Definition pid_expects_inline_qos : Z := 67.
Definition pid_default_multicast_locator : Z := 72.
Definition pid_participant_guid : Z := 80.
Definition pid_builtin_endpoint_set : Z := 88.
Definition pid_entity_name : Z := 98.
Definition payload_capacity : Z := 768.

Definition entity_id_unknown : EntityId := [0; 0; 0; 0].
Definition entity_id_participant : EntityId := [0; 0; 1; 193].
Definition entity_id_spdp_writer : EntityId := [0; 1; 0; 194].
Definition entity_id_spdp_reader : EntityId := [0; 1; 0; 199].

Record SpdpParticipantData : Set := {
  protocol_version : ProtocolVersion;
  vendor_id : VendorId;
  guid_prefix : GuidPrefix;
  domain_id : Z;
  expects_inline_qos : bool;
  metatraffic_unicast : BoundedLocatorList;
  metatraffic_multicast : BoundedLocatorList;
  default_unicast : BoundedLocatorList;
  default_multicast : BoundedLocatorList;
  available_builtin_endpoints : Z;
  lease_duration_ns : Z;
  entity_name : list Z;
  entity_name_size : Z;
}.

Definition SpdpParticipantData_default : SpdpParticipantData :=
  {| protocol_version := ProtocolVersion_default; vendor_id := VendorId_default;
     guid_prefix := GuidPrefix_default; domain_id := 0; expects_inline_qos := false;
     metatraffic_unicast := BoundedLocatorList_default spdp_max_locators;
     metatraffic_multicast := BoundedLocatorList_default spdp_max_locators;
     default_unicast := BoundedLocatorList_default spdp_max_locators;
     default_multicast := BoundedLocatorList_default spdp_max_locators;
     available_builtin_endpoints :=
       Z.lor spdp_endpoint_participant_announcer spdp_endpoint_participant_detector;
     lease_duration_ns := 100000000000; entity_name := replicate 64 0;
     entity_name_size := 0 |}.

Definition set_protocol_version (p : SpdpParticipantData) (x : ProtocolVersion)
    : SpdpParticipantData :=
  {| protocol_version := x; vendor_id := vendor_id p; guid_prefix := guid_prefix p;
     domain_id := domain_id p; expects_inline_qos := expects_inline_qos p;
     metatraffic_unicast := metatraffic_unicast p;
     metatraffic_multicast := metatraffic_multicast p;
     default_unicast := default_unicast p; default_multicast := default_multicast p;
     available_builtin_endpoints := available_builtin_endpoints p;
     lease_duration_ns := lease_duration_ns p; entity_name := entity_name p;
     entity_name_size := entity_name_size p |}.

Definition set_vendor_id (p : SpdpParticipantData) (x : VendorId)
    : SpdpParticipantData :=
  {| protocol_version := protocol_version p; vendor_id := x;
     guid_prefix := guid_prefix p; domain_id := domain_id p;
     expects_inline_qos := expects_inline_qos p;
     metatraffic_unicast := metatraffic_unicast p;
     metatraffic_multicast := metatraffic_multicast p;
     default_unicast := default_unicast p; default_multicast := default_multicast p;
     available_builtin_endpoints := available_builtin_endpoints p;
     lease_duration_ns := lease_duration_ns p; entity_name := entity_name p;
     entity_name_size := entity_name_size p |}.

Definition set_guid_prefix (p : SpdpParticipantData) (x : GuidPrefix)
    : SpdpParticipantData :=
  {| protocol_version := protocol_version p; vendor_id := vendor_id p;
     guid_prefix := x; domain_id := domain_id p;
     expects_inline_qos := expects_inline_qos p;
     metatraffic_unicast := metatraffic_unicast p;
     metatraffic_multicast := metatraffic_multicast p;
     default_unicast := default_unicast p; default_multicast := default_multicast p;
     available_builtin_endpoints := available_builtin_endpoints p;
     lease_duration_ns := lease_duration_ns p; entity_name := entity_name p;
     entity_name_size := entity_name_size p |}.

Definition set_domain_id (p : SpdpParticipantData) (x : Z)
    : SpdpParticipantData :=
  {| protocol_version := protocol_version p; vendor_id := vendor_id p;
     guid_prefix := guid_prefix p; domain_id := x;
     expects_inline_qos := expects_inline_qos p;
     metatraffic_unicast := metatraffic_unicast p;
     metatraffic_multicast := metatraffic_multicast p;
     default_unicast := default_unicast p; default_multicast := default_multicast p;
     available_builtin_endpoints := available_builtin_endpoints p;
     lease_duration_ns := lease_duration_ns p; entity_name := entity_name p;
     entity_name_size := entity_name_size p |}.

Definition set_expects_inline_qos (p : SpdpParticipantData) (x : bool)
    : SpdpParticipantData :=
  {| protocol_version := protocol_version p; vendor_id := vendor_id p;
     guid_prefix := guid_prefix p; domain_id := domain_id p; expects_inline_qos := x;
     metatraffic_unicast := metatraffic_unicast p;
     metatraffic_multicast := metatraffic_multicast p;
     default_unicast := default_unicast p; default_multicast := default_multicast p;
     available_builtin_endpoints := available_builtin_endpoints p;
     lease_duration_ns := lease_duration_ns p; entity_name := entity_name p;
     entity_name_size := entity_name_size p |}.

Definition set_metatraffic_unicast (p : SpdpParticipantData) (x : BoundedLocatorList)
    : SpdpParticipantData :=
  {| protocol_version := protocol_version p; vendor_id := vendor_id p;
     guid_prefix := guid_prefix p; domain_id := domain_id p;
     expects_inline_qos := expects_inline_qos p; metatraffic_unicast := x;
     metatraffic_multicast := metatraffic_multicast p;
     default_unicast := default_unicast p; default_multicast := default_multicast p;
     available_builtin_endpoints := available_builtin_endpoints p;
     lease_duration_ns := lease_duration_ns p; entity_name := entity_name p;
     entity_name_size := entity_name_size p |}.

Definition set_metatraffic_multicast (p : SpdpParticipantData) (x : BoundedLocatorList)
    : SpdpParticipantData :=
  {| protocol_version := protocol_version p; vendor_id := vendor_id p;
     guid_prefix := guid_prefix p; domain_id := domain_id p;
     expects_inline_qos := expects_inline_qos p;
     metatraffic_unicast := metatraffic_unicast p; metatraffic_multicast := x;
     default_unicast := default_unicast p; default_multicast := default_multicast p;
     available_builtin_endpoints := available_builtin_endpoints p;
     lease_duration_ns := lease_duration_ns p; entity_name := entity_name p;
     entity_name_size := entity_name_size p |}.

Definition set_default_unicast (p : SpdpParticipantData) (x : BoundedLocatorList)
    : SpdpParticipantData :=
  {| protocol_version := protocol_version p; vendor_id := vendor_id p;
     guid_prefix := guid_prefix p; domain_id := domain_id p;
     expects_inline_qos := expects_inline_qos p;
     metatraffic_unicast := metatraffic_unicast p;
     metatraffic_multicast := metatraffic_multicast p; default_unicast := x;
     default_multicast := default_multicast p;
     available_builtin_endpoints := available_builtin_endpoints p;
     lease_duration_ns := lease_duration_ns p; entity_name := entity_name p;
     entity_name_size := entity_name_size p |}.

Definition set_default_multicast (p : SpdpParticipantData) (x : BoundedLocatorList)
    : SpdpParticipantData :=
  {| protocol_version := protocol_version p; vendor_id := vendor_id p;
     guid_prefix := guid_prefix p; domain_id := domain_id p;
     expects_inline_qos := expects_inline_qos p;
     metatraffic_unicast := metatraffic_unicast p;
     metatraffic_multicast := metatraffic_multicast p;
     default_unicast := default_unicast p; default_multicast := x;
     available_builtin_endpoints := available_builtin_endpoints p;
     lease_duration_ns := lease_duration_ns p; entity_name := entity_name p;
     entity_name_size := entity_name_size p |}.

Definition set_available_builtin_endpoints (p : SpdpParticipantData) (x : Z)
    : SpdpParticipantData :=
  {| protocol_version := protocol_version p; vendor_id := vendor_id p;
     guid_prefix := guid_prefix p; domain_id := domain_id p;
     expects_inline_qos := expects_inline_qos p;
     metatraffic_unicast := metatraffic_unicast p;
     metatraffic_multicast := metatraffic_multicast p;
     default_unicast := default_unicast p; default_multicast := default_multicast p;
     available_builtin_endpoints := x; lease_duration_ns := lease_duration_ns p;
     entity_name := entity_name p; entity_name_size := entity_name_size p |}.

Definition set_lease_duration_ns (p : SpdpParticipantData) (x : Z)
    : SpdpParticipantData :=
  {| protocol_version := protocol_version p; vendor_id := vendor_id p;
     guid_prefix := guid_prefix p; domain_id := domain_id p;
     expects_inline_qos := expects_inline_qos p;
     metatraffic_unicast := metatraffic_unicast p;
     metatraffic_multicast := metatraffic_multicast p;
     default_unicast := default_unicast p; default_multicast := default_multicast p;
     available_builtin_endpoints := available_builtin_endpoints p;
     lease_duration_ns := x; entity_name := entity_name p;
     entity_name_size := entity_name_size p |}.

Definition set_entity_name (p : SpdpParticipantData) (x : list Z) (n : Z)
    : SpdpParticipantData :=
  {| protocol_version := protocol_version p; vendor_id := vendor_id p;
     guid_prefix := guid_prefix p; domain_id := domain_id p;
     expects_inline_qos := expects_inline_qos p;
     metatraffic_unicast := metatraffic_unicast p;
     metatraffic_multicast := metatraffic_multicast p;
     default_unicast := default_unicast p; default_multicast := default_multicast p;
     available_builtin_endpoints := available_builtin_endpoints p;
     lease_duration_ns := lease_duration_ns p; entity_name := x;
     entity_name_size := n |}.

Record SpdpAnnouncementConfig : Set := {
  participant : SpdpParticipantData;
  sequence_number : Z;
  submessage_byte_order : ByteOrder;
  parameter_byte_order : ByteOrder;
}.

(** [SpdpMessageView] has the members of the configuration. *)
Definition SpdpMessageView : Set := SpdpAnnouncementConfig.

Record SpdpMessageBuilder : Set := {
  buffer_ : option (list Z);
  capacity_ : Z;
  size_ : Z;
  error_ : SpdpError;
  rtps_error_ : Data.RtpsError;
}.

Definition SpdpMessageBuilder_new (buffer : option (list Z)) (capacity : Z)
    : SpdpMessageBuilder :=
  {| buffer_ := buffer; capacity_ := capacity; size_ := 0;
     error_ := if Data.null_with_size buffer capacity then invalid_argument else spdp_none;
     rtps_error_ := Data.rtps_none |}.

(** ** The builder *)

Definition mandatory_endpoints : Z :=
  Z.lor spdp_endpoint_participant_announcer spdp_endpoint_participant_detector.

Definition invalid_participant (p : SpdpParticipantData) : bool :=
  negb (major (protocol_version p) =? 2) || (minor (protocol_version p) =? 0) ||
  (5 <? minor (protocol_version p)) || negb (nonzero_guid (guid_prefix p)) ||
  (spdp_max_entity_name <? entity_name_size p) || (lease_duration_ns p <? 2) ||
  negb (Z.land (available_builtin_endpoints p) mandatory_endpoints =? mandatory_endpoints) ||
  (size (default_unicast p) =? 0) ||
  (add64 (size (metatraffic_unicast p)) (size (metatraffic_multicast p)) =? 0).

(** The parameters, in source order. *)
Definition build_payload (p : SpdpParticipantData) (order : ByteOrder)
    : outcome SpdpError ParameterWriter :=
  let put := append_value buffer_overflow in
  w ← ParameterWriter_new (replicate (Z.to_nat payload_capacity) 0) payload_capacity order;
  w ← put w pid_protocol_version 2 (fun m value =>
        m ← access (mstore m value (major (protocol_version p)));
        access (mstore m (value + 1) (minor (protocol_version p))));
  w ← put w pid_vendor_id 2 (fun m value => access (mcopy m value (vendor_id p)));
  w ← put w pid_domain_id 4 (fun m value => write_u32 m value (domain_id p) order);
  w ← append_guid buffer_overflow w pid_participant_guid (guid_prefix p)
        entity_id_participant;
  w ← put w pid_expects_inline_qos 1 (fun m value =>
        access (mstore m value (if expects_inline_qos p then 1 else 0)));
  w ← put w pid_builtin_endpoint_set 4 (fun m value =>
        write_u32 m value (available_builtin_endpoints p) order);
  w ← put w pid_participant_lease_duration 8 (fun m value =>
        write_duration m value (lease_duration_ns p) order);
  w ← append_list buffer_overflow w pid_metatraffic_unicast_locator
        (metatraffic_unicast p) order;
  w ← append_list buffer_overflow w pid_metatraffic_multicast_locator
        (metatraffic_multicast p) order;
  w ← append_list buffer_overflow w pid_default_unicast_locator (default_unicast p) order;
  w ← append_list buffer_overflow w pid_default_multicast_locator
        (default_multicast p) order;
  w ← (if negb (entity_name_size p =? 0)
       then append_string buffer_overflow w pid_entity_name (entity_name p)
              (entity_name_size p) order
       else Done w);
  finish buffer_overflow w.

Definition all_locators_valid {E} (p : SpdpParticipantData) : outcome E bool :=
  a ← valid_locators spdp_max_locators (metatraffic_unicast p);
  b ← valid_locators spdp_max_locators (metatraffic_multicast p);
  c ← valid_locators spdp_max_locators (default_unicast p);
  d ← valid_locators spdp_max_locators (default_multicast p);
  Done (a && b && c && d).

Definition data_config (config : SpdpAnnouncementConfig) : Data.DataMessageConfig :=
  let p := participant config in
  {| Data.cfg_version := protocol_version p; Data.cfg_vendor_id := vendor_id p;
     Data.cfg_guid_prefix := guid_prefix p; Data.cfg_reader_id := entity_id_unknown;
     Data.cfg_writer_id := entity_id_spdp_writer;
     Data.cfg_sequence_number := sequence_number config;
     Data.cfg_byte_order := submessage_byte_order config |}.

(** [SpdpMessageBuilder::build]: [Done] is [true]. *)
Definition build (b : SpdpMessageBuilder) (config : SpdpAnnouncementConfig)
    : outcome SpdpMessageBuilder SpdpMessageBuilder :=
  let failed e :=
    {| buffer_ := buffer_ b; capacity_ := capacity_ b; size_ := 0; error_ := e;
       rtps_error_ := Data.rtps_none |} in
  let p := participant config in
  stop_if (Data.null_with_size (buffer_ b) (capacity_ b) ||
           negb (supported_byte_order (submessage_byte_order config)) ||
           negb (supported_byte_order (parameter_byte_order config)))
    (failed invalid_argument);;
  stop_if (invalid_participant p) (failed invalid_configuration);;
  valid ← all_locators_valid p;
  stop_if (negb valid) (failed invalid_locator);;
  stop_if (i32_max <? duration_seconds (lease_duration_ns p)) (failed invalid_duration);;
  parameters ← map_stop failed (build_payload p (parameter_byte_order config));
  built ← map_stop (fun d : Data.DataMessageBuilder =>
      {| buffer_ := Data.buffer_ d; capacity_ := capacity_ b; size_ := 0;
         error_ := data_error; rtps_error_ := Data.error_ d |})
    (Data.build (Data.DataMessageBuilder_new (buffer_ b) (capacity_ b))
       (data_config config) (Some (pw_buffer parameters)) (pw_size parameters));
  Done {| buffer_ := Data.buffer_ built; capacity_ := capacity_ b;
          size_ := Data.size_ built; error_ := spdp_none;
          rtps_error_ := Data.rtps_none |}.

(** ** The parser *)

(** The parsed members and the parameters seen: [seen_protocol] of the source is
    the membership of [pid_protocol_version], and so on. *)
Record parse_state : Set := { candidate : SpdpParticipantData; seen : list Z }.

Definition seen_before (id : Z) (s : parse_state) : bool := bool_decide (id ∈ seen s).

Definition mark (id : Z) (s : parse_state) (p : SpdpParticipantData) : parse_state :=
  {| candidate := p; seen := id :: seen s |}.

Definition parse_locator (value : list Z) (order : ByteOrder)
    : BoundedLocatorList -> outcome SpdpError BoundedLocatorList :=
  append_parsed_locator malformed_parameter invalid_locator locator_bound_exceeded
    spdp_max_locators value order.

Definition update (s : parse_state) (p : SpdpParticipantData) : parse_state :=
  {| candidate := p; seen := seen s |}.

(** The body of the case of [pid_entity_name]. *)
Definition parse_entity_name (value : list Z) (order : ByteOrder)
    (p : SpdpParticipantData) : outcome SpdpError SpdpParticipantData :=
  stop_if (zlen value <? 8) malformed_parameter;;
  string_size ← read_u32 value 0 order;
  stop_if ((string_size =? 0) || (zlen value - 4 <? string_size) ||
           (spdp_max_entity_name + 1 <? string_size)) malformed_parameter;;
  last ← access (mload value (4 + string_size - 1));
  stop_if (negb (last =? 0)) malformed_parameter;;
  let size := string_size - 1 in
  chars ← access (mslice value 4 size);
  name ← access (mcopy (entity_name p) 0 chars);
  Done (set_entity_name p name size).

(** The [switch] over the parameter id. *)
Definition handle (order : ByteOrder) (id : Z) (value : list Z) (s : parse_state)
    : outcome SpdpError parse_state :=
  let p := candidate s in
  let once := stop_if (seen_before id s) duplicate_parameter in
  let sized n := stop_if (negb (zlen value =? n)) malformed_parameter in
  if id =? 0 then Done s
  else if id =? pid_protocol_version then
    once;; sized 4;;
    v0 ← access (mload value 0);
    v1 ← access (mload value 1);
    Done (mark id s (set_protocol_version p {| major := v0; minor := v1 |}))
  else if id =? pid_vendor_id then
    once;; sized 4;;
    v ← access (mslice value 0 2);
    Done (mark id s (set_vendor_id p v))
  else if id =? pid_domain_id then
    once;; sized 4;;
    d ← read_u32 value 0 order;
    Done (mark id s (set_domain_id p d))
  else if id =? pid_participant_guid then
    once;; sized 16;;
    prefix ← access (mslice value 0 12);
    entity ← access (mslice value 12 4);
    stop_if (negb (bool_decide (entity = entity_id_participant))) invalid_identity;;
    Done (mark id s (set_guid_prefix p prefix))
  else if id =? pid_expects_inline_qos then
    once;; sized 4;;
    v0 ← access (mload value 0);
    stop_if (1 <? v0) malformed_parameter;;
    Done (mark id s (set_expects_inline_qos p (negb (v0 =? 0))))
  else if id =? pid_builtin_endpoint_set then
    once;; sized 4;;
    e ← read_u32 value 0 order;
    Done (mark id s (set_available_builtin_endpoints p e))
  else if id =? pid_participant_lease_duration then
    once;; sized 8;;
    lease ← parse_duration invalid_duration value 0 order;
    stop_if (lease =? 0) invalid_duration;;
    Done (mark id s (set_lease_duration_ns p lease))
  else if id =? pid_metatraffic_unicast_locator then
    l ← parse_locator value order (metatraffic_unicast p);
    Done (update s (set_metatraffic_unicast p l))
  else if id =? pid_metatraffic_multicast_locator then
    l ← parse_locator value order (metatraffic_multicast p);
    Done (update s (set_metatraffic_multicast p l))
  else if id =? pid_default_unicast_locator then
    l ← parse_locator value order (default_unicast p);
    Done (update s (set_default_unicast p l))
  else if id =? pid_default_multicast_locator then
    l ← parse_locator value order (default_multicast p);
    Done (update s (set_default_multicast p l))
  else if id =? pid_entity_name then
    once;;
    p' ← parse_entity_name value order p;
    Done (mark id s p')
  else
    stop_if (negb (Z.land id must_understand_mask =? 0)) unknown_required_parameter;;
    Done s.

(** The checks behind the loop. *)
Definition accept (data : Data.DataMessageView) (expected_domain_id : Z)
    (seen_sentinel : bool) (s : parse_state) : outcome SpdpError SpdpParticipantData :=
  let p := candidate s in
  stop_if (negb seen_sentinel) malformed_parameter;;
  stop_if (negb (seen_before pid_protocol_version s) || negb (seen_before pid_vendor_id s) ||
           negb (seen_before pid_participant_guid s) ||
           negb (seen_before pid_builtin_endpoint_set s) ||
           (size (default_unicast p) =? 0) ||
           (add64 (size (metatraffic_unicast p)) (size (metatraffic_multicast p)) =? 0))
    missing_required_parameter;;
  stop_if (negb (major (protocol_version p) =? 2) || (minor (protocol_version p) =? 0) ||
           (5 <? minor (protocol_version p)) || negb (nonzero_guid (guid_prefix p)) ||
           negb (bool_decide (guid_prefix p = Data.guid_prefix data)) ||
           negb (major (protocol_version p) =? major (Data.version data)) ||
           negb (minor (protocol_version p) =? minor (Data.version data)) ||
           negb (bool_decide (vendor_id p = Data.vendor_id data))) invalid_identity;;
  stop_if (negb (domain_id p =? expected_domain_id)) domain_mismatch;;
  Done p.

(** [parse_spdp_message] behind the call of [parse_data_message]. *)
Definition parse_announcement (data : Data.DataMessageView) (expected_domain_id : Z)
    : outcome SpdpError SpdpMessageView :=
  stop_if (entity_neqb (Data.writer_id data) entity_id_spdp_writer ||
           (entity_neqb (Data.reader_id data) entity_id_unknown &&
            entity_neqb (Data.reader_id data) entity_id_spdp_reader)) invalid_identity;;
  stop_if (Data.payload_size data <? 8) unsupported_representation;;
  payload ← access (Data.serialized_payload data);
  p0 ← access (mload payload 0);
  p1 ← access (mload payload 1);
  stop_if (negb (p0 =? 0) || (negb (p1 =? 2) && negb (p1 =? 3)))
    unsupported_representation;;
  let order := if p1 =? 3 then little_endian else big_endian in
  '(seen_sentinel, s) ← parameter_loop malformed_parameter (handle order)
    (S (Z.to_nat (Data.payload_size data))) payload (Data.payload_size data) order 4
    {| candidate := set_domain_id SpdpParticipantData_default expected_domain_id;
       seen := [] |};
  p ← accept data expected_domain_id seen_sentinel s;
  Done {| participant := p; sequence_number := Data.sequence_number data;
          submessage_byte_order := Data.submessage_byte_order data;
          parameter_byte_order := order |}.

Definition parse_body (message : option (list Z)) (message_size expected_domain_id : Z)
    : outcome (SpdpError * Data.RtpsError) SpdpMessageView :=
  data ← checked Data.rtps_none (pair data_error)
    (Data.parse_data_message message message_size Data.DataMessageView_default);
  map_stop (fun e => (e, Data.rtps_none)) (parse_announcement data expected_domain_id).

(** The result and the caller's view afterwards. *)
Definition parse_spdp_message (message : option (list Z))
    (message_size expected_domain_id : Z) (view : SpdpMessageView)
    : option (SpdpResult * SpdpMessageView) :=
  match parse_body message message_size expected_domain_id with
  | Fault => None
  | Stop (e, r) => Some ({| error := e; rtps_error := r; bytes := 0 |}, view)
  | Done v => Some ({| error := spdp_none; rtps_error := Data.rtps_none;
                       bytes := message_size |}, v)
  end.

(** ** The reference announcement *)

Record participant_ok (p : SpdpParticipantData) : Prop := {
  po_vendor : length (vendor_id p) = 2%nat;
  po_guid : length (guid_prefix p) = 12%nat;
  po_domain : 0 <= domain_id p < 2 ^ 32;
  po_mu : list_typed spdp_max_locators (metatraffic_unicast p);
  po_mm : list_typed spdp_max_locators (metatraffic_multicast p);
  po_du : list_typed spdp_max_locators (default_unicast p);
  po_dm : list_typed spdp_max_locators (default_multicast p);
  po_endpoints : 0 <= available_builtin_endpoints p < 2 ^ 32;
  po_lease : 0 <= lease_duration_ns p < 2 ^ 64;
  po_name : length (entity_name p) = 64%nat;
  po_name_size : 0 <= entity_name_size p < 2 ^ 64;
}.

Definition name_of (p : SpdpParticipantData) : list Z :=
  take (Z.to_nat (entity_name_size p)) (entity_name p).

Definition name_params (p : SpdpParticipantData) (order : ByteOrder) : list (Z * list Z) :=
  if entity_name_size p =? 0 then []
  else [(pid_entity_name, string_bytes order (name_of p))].

Definition spdp_params (p : SpdpParticipantData) (order : ByteOrder) : list (Z * list Z) :=
  [(pid_protocol_version, [major (protocol_version p); minor (protocol_version p)])] ++
  [(pid_vendor_id, vendor_id p)] ++
  [(pid_domain_id, encode_uint order 4 (domain_id p))] ++
  [(pid_participant_guid, guid_prefix p ++ entity_id_participant)] ++
  [(pid_expects_inline_qos, [if expects_inline_qos p then 1 else 0])] ++
  [(pid_builtin_endpoint_set, encode_uint order 4 (available_builtin_endpoints p))] ++
  [(pid_participant_lease_duration, duration_bytes order (lease_duration_ns p))] ++
  locator_params pid_metatraffic_unicast_locator order (metatraffic_unicast p) ++
  locator_params pid_metatraffic_multicast_locator order (metatraffic_multicast p) ++
  locator_params pid_default_unicast_locator order (default_unicast p) ++
  locator_params pid_default_multicast_locator order (default_multicast p) ++
  name_params p order.

Definition spdp_payload (p : SpdpParticipantData) (order : ByteOrder) : list Z :=
  encode_list order (spdp_params p order).

(** The participant has valid locators, at most four per list, and a lease that
    fits the wire format. *)
Record announceable (p : SpdpParticipantData) : Prop := {
  an_participant : invalid_participant p = false;
  an_lists : Forall (list_usable spdp_max_locators)
             [metatraffic_unicast p; metatraffic_multicast p; default_unicast p;
              default_multicast p];
  an_lease : duration_seconds (lease_duration_ns p) <= i32_max;
}.

#[local] Opaque encode_uint.

Lemma put_name_at w order q p :
  writer_at w order payload_capacity q -> length (entity_name p) = 64%nat ->
  0 <= entity_name_size p <= 63 -> zlen q + 76 <= payload_capacity ->
  exists w', (if negb (entity_name_size p =? 0)
     then append_string buffer_overflow w pid_entity_name (entity_name p)
            (entity_name_size p) order
     else Done w) = Done w' /\
    writer_at w' order payload_capacity (q ++ encode_params order (name_params p order)) /\
    zlen (q ++ encode_params order (name_params p order)) <= zlen q + 76.
Proof.
  intros Hw P10 A1 Hfit. unfold name_params.
  destruct (Z.eqb_spec (entity_name_size p) 0); cbn [negb].
  - eexists. split; [done|]. cbn. rewrite app_nil_r. split; [done|lia].
  - destruct (put_string_at buffer_overflow payload_capacity ltac:(done) w order q
      pid_entity_name (entity_name p) (entity_name_size p) Hw) as (w' & Hd & Hw' & Hl); [lia..|].
    exists w'. rewrite encode_params_one. split_and!; [done..|]. unfold name_of. lia.
Qed.

Lemma build_payload_at p order :
  participant_ok p -> announceable p ->
  exists w, build_payload p order = Done w /\
    writer_at w order payload_capacity (spdp_payload p order) /\
    zlen (spdp_payload p order) <= payload_capacity.
Proof.
  intros [P1 P2 P3 P4 P5 P6 P7 P8 P9 P10 P11] [A1 A2 A3].
  rewrite !Forall_cons in A2. destruct A2 as ([L1 _] & [L2 _] & [L3 _] & [L4 _] & _).
  unfold invalid_participant in A1. rewrite !orb_false_iff in A1.
  destruct A1 as [[[[[_ A1%Z.ltb_ge] _] _] _] _].
  pose proof (lt_size _ _ P4). pose proof (lt_size _ _ P5). pose proof (lt_size _ _ P6).
  pose proof (lt_size _ _ P7). unfold spdp_max_locators, spdp_max_entity_name in *.
  unfold build_payload.
  destruct (writer_new_at (E:=SpdpError) (replicate (Z.to_nat payload_capacity) 0)
    payload_capacity order) as (w0 & -> & Hw0); [by rewrite length_replicate|done|].
  cbn [mbind outcome_bind].
  assert (zlen (encapsulation order) = 4) as Hl0 by done.
  assert (payload_capacity = 768) as Hc by done.
  put_param [major (protocol_version p); minor (protocol_version p)]; [apply two_bytes_fill|].
  put_param (vendor_id p); [lia|apply copy_fills|].
  put_param (encode_uint order 4 (domain_id p)); [apply u32_fills|].
  put_guid.
  put_param [if expects_inline_qos p then 1 else 0]; [apply byte_fills|].
  put_param (encode_uint order 4 (available_builtin_endpoints p)); [apply u32_fills|].
  put_param (duration_bytes order (lease_duration_ns p)).
  { apply duration_fills. split; [|done]. apply duration_seconds_range. lia. }
  put_list L1. put_list L2. put_list L3. put_list L4.
  match goal with Hw : writer_at _ _ _ ?q |- _ =>
    destruct (put_name_at _ order q p Hw ltac:(lia) ltac:(lia) ltac:(lia))
      as (w12 & Hname & Hw12 & Hl12) end.
  rewrite Hname. cbn [mbind outcome_bind].
  destruct (finish_at buffer_overflow w12 order payload_capacity _ Hw12)
    as (w13 & Hd13 & Hw13); [done|lia|].
  exists w13. split; [done|].
  match type of Hw13 with writer_at _ _ _ ?q =>
    assert (spdp_payload p order = q) as -> end.
  { unfold spdp_payload, encode_list, spdp_params.
    rewrite !encode_params_app, !encode_params_one, <- !app_assoc. done. }
  split; [done|]. erewrite (grown _ _ _ _ 0 4); [|done..]. lia.
Qed.

(** ** [build] *)

Lemma all_locators_spec {E} p :
  participant_ok p ->
  all_locators_valid p = (Done (forallb (list_usableb spdp_max_locators)
    [metatraffic_unicast p; metatraffic_multicast p; default_unicast p; default_multicast p])
    : outcome E bool).
Proof.
  intros [_ _ _ [V1 S1 _] [V2 S2 _] [V3 S3 _] [V4 S4 _] _ _ _ _].
  unfold all_locators_valid.
  rewrite !valid_locators_typed by lia. cbn [mbind outcome_bind forallb].
  unfold list_usableb. by rewrite andb_true_r, !andb_assoc.
Qed.

Definition can_announce (config : SpdpAnnouncementConfig) (capacity : Z) : bool :=
  let p := participant config in
  supported_byte_order (parameter_byte_order config) &&
  negb (invalid_participant p) &&
  forallb (list_usableb spdp_max_locators)
    [metatraffic_unicast p; metatraffic_multicast p; default_unicast p;
     default_multicast p] &&
  (duration_seconds (lease_duration_ns p) <=? i32_max) &&
  Data.buildable (data_config config) (spdp_payload p (parameter_byte_order config)) capacity.

(** A builder over a caller's buffer of at least [capacity_] bytes. *)
Definition builder_ok (b : SpdpMessageBuilder) (m : list Z) : Prop :=
  buffer_ b = Some m /\ 0 <= capacity_ b <= zlen m /\ capacity_ b < 2 ^ 64.

Lemma announceable_spec p :
  negb (invalid_participant p) = true ->
  forallb (list_usableb spdp_max_locators)
    [metatraffic_unicast p; metatraffic_multicast p; default_unicast p;
     default_multicast p] = true ->
  duration_seconds (lease_duration_ns p) <= i32_max -> announceable p.
Proof.
  intros H1 H2 H3. split; [by apply negb_true_iff| |done].
  apply Forall_forall. intros l Hl. rewrite forallb_forall in H2.
  by apply list_usable_spec, H2, list_elem_of_In.
Qed.

Lemma data_config_ok config :
  participant_ok (participant config) -> 0 <= sequence_number config < 2 ^ 64 ->
  Data.config_ok (data_config config).
Proof. intros [] Hs. by split. Qed.

(** The data message [build] produces. *)
Definition announcement_bytes (config : SpdpAnnouncementConfig) : list Z :=
  Data.data_message_bytes (data_config config)
    (spdp_payload (participant config) (parameter_byte_order config)).

(** A path on which [build] returned an error. *)
Ltac refuse := do 2 eexists; split; [|split; [|reflexivity]]; discriminate.

Lemma spdp_build_cases b m config :
  builder_ok b m -> participant_ok (participant config) ->
  0 <= sequence_number config < 2 ^ 64 ->
  let l := announcement_bytes config in
  if can_announce config (capacity_ b) then
    build b config = Done {| buffer_ := Some (l ++ drop (length l) m);
      capacity_ := capacity_ b; size_ := zlen l; error_ := spdp_none;
      rtps_error_ := Data.rtps_none |}
  else exists e r, e <> spdp_none /\ e <> buffer_overflow /\
    build b config = Stop {| buffer_ := Some m; capacity_ := capacity_ b; size_ := 0;
      error_ := e; rtps_error_ := r |}.
Proof.
  intros (Hb & Hcap & H64) Hp Hseq l. unfold build, can_announce. rewrite Hb.
  cbn [Data.null_with_size orb].
  destruct (supported_byte_order (submessage_byte_order config)) eqn:Hso; cycle 1.
  { unfold Data.buildable. cbn [data_config Data.cfg_byte_order]. rewrite Hso.
    rewrite !andb_false_r. cbn. refuse. }
  destruct (supported_byte_order (parameter_byte_order config));
    cbn [negb orb andb stop_if mbind outcome_bind]; [|refuse].
  destruct (invalid_participant (participant config)) eqn:Hinv;
    cbn [negb orb andb stop_if mbind outcome_bind]; [refuse|].
  rewrite all_locators_spec by done. cbn [mbind outcome_bind].
  destruct (forallb _ [_; _; _; _]) eqn:Hlists; cbn [negb andb stop_if mbind outcome_bind];
    [|refuse].
  rewrite (Z.ltb_antisym _ i32_max).
  destruct (Z.leb_spec (duration_seconds (lease_duration_ns (participant config))) i32_max);
    cbn [negb andb stop_if mbind outcome_bind]; [|refuse].
  assert (announceable (participant config)) as Han
    by (apply announceable_spec; [by rewrite Hinv|done|done]).
  destruct (build_payload_at (participant config) (parameter_byte_order config) Hp Han)
    as (w & -> & [_ _ Hwl Hws Hwt] & Hle). cbn [map_stop mbind outcome_bind].
  rewrite Hws, Data.build_take by lia. rewrite Nat2Z.id, Hwt.
  pose proof (Data.build_cases (Data.DataMessageBuilder_new (Some m) (capacity_ b)) m
    (data_config config) (spdp_payload (participant config) (parameter_byte_order config)))
    as Hcases.
  cbn [Data.DataMessageBuilder_new Data.capacity_] in Hcases.
  specialize (Hcases ltac:(split; [done|cbn; lia]) (data_config_ok config Hp Hseq)
    ltac:(unfold payload_capacity in *; lia)).
  destruct (Data.buildable _ _ _); cbv zeta in Hcases.
  - rewrite Hcases. done.
  - destruct Hcases as (e & He & ->). cbn. refuse.
Qed.

(** ** What a receiver gets *)

Definition lease_received (ns : Z) : Z :=
  duration_of (duration_seconds ns) (duration_fraction ns).

Definition received (p : SpdpParticipantData) : SpdpParticipantData :=
  {| protocol_version := protocol_version p; vendor_id := vendor_id p;
     guid_prefix := guid_prefix p; domain_id := domain_id p;
     expects_inline_qos := expects_inline_qos p;
     metatraffic_unicast := filled 4 (held (metatraffic_unicast p));
     metatraffic_multicast := filled 4 (held (metatraffic_multicast p));
     default_unicast := filled 4 (held (default_unicast p));
     default_multicast := filled 4 (held (default_multicast p));
     available_builtin_endpoints := available_builtin_endpoints p;
     lease_duration_ns := lease_received (lease_duration_ns p);
     entity_name := name_of p ++ replicate (64 - length (name_of p)) 0;
     entity_name_size := entity_name_size p |}.

(** The loop of the parser over a list of parameters. *)
Abbreviation run order := (for_each (fun '(id, v) s => handle order id (padded v) s)).

(** The parameters of one of the four locator lists. *)
Lemma list_run order id (get : parse_state -> BoundedLocatorList)
    (set : parse_state -> BoundedLocatorList -> parse_state) xs s :
  (forall v s, handle order id v s = (l ← parse_locator v order (get s); Done (set s l))) ->
  (forall s l, get (set s l) = l) -> (forall s l l', set (set s l) l' = set s l') ->
  (forall s, set s (get s) = s) ->
  Forall (fun x => valid_udp_v4_locator x = true /\ locator_ok x) xs ->
  zlen xs <= spdp_max_locators -> get s = filled 4 [] ->
  run order ((fun x => (id, locator_bytes order x)) <$> xs) s = Done (set s (filled 4 xs)).
Proof.
  intros H1 H2 H3 H4 Hxs Hlen Hget. unfold spdp_max_locators in Hlen.
  by rewrite (locators_run_id malformed_parameter invalid_locator locator_bound_exceeded 4
    ltac:(done) (handle order) order id get set H1 H2 H3 [] xs s) by (done || cbn; lia).
Qed.

Lemma parse_name_encoded order name p :
  zlen name <= 63 -> entity_name p = replicate 64 0 ->
  parse_entity_name (padded (string_bytes order name)) order p =
  Done (set_entity_name p (name ++ replicate (64 - length name) 0) (zlen name)).
Proof.
  intros Hn Hp. unfold parse_entity_name.
  pose proof (text_bytes_length order name) as Hl.
  pose proof (padded_length (string_bytes order name)) as Hpl. rewrite Hl in Hpl.
  pose proof (padded_size_bounds (4 + zlen name + 1)) as Hb.
  assert (4 * ((4 + zlen name + 1 + 3) / 4) = padded_size (4 + zlen name + 1)) as Hps
    by (rewrite padded_size_spec; lia).
  destruct (Z.ltb_spec (zlen (padded (string_bytes order name))) 8) as [H8|H8].
  { rewrite Hpl in H8 by lia. pose proof (Z.div_mod (4 + zlen name + 1 + 3) 4 ltac:(lia)).
    pose proof (Z.mod_pos_bound (4 + zlen name + 1 + 3) 4 ltac:(lia)). lia. }
  cbn [stop_if mbind outcome_bind].
  assert (padded (string_bytes order name) =
    encode_uint order 4 (zlen name + 1) ++ name ++ [0] ++ padding (string_bytes order name))
    as Hpad by (unfold padded, string_bytes at 1; by rewrite <- !app_assoc).
  unfold read_u32. rewrite Hpad at 1. rewrite read_uint32_start by lia.
  cbn [mbind outcome_bind]. rewrite Hpl by lia. unfold spdp_max_entity_name.
  destruct (Z.eqb_spec (zlen name + 1) 0); [lia|].
  destruct (Z.ltb_spec (padded_size (4 + zlen name + 1) - 4) (zlen name + 1)); [lia|].
  destruct (Z.ltb_spec (63 + 1) (zlen name + 1)); [lia|].
  cbn [orb stop_if mbind outcome_bind]. rewrite Hpad.
  assert (mload (encode_uint order 4 (zlen name + 1) ++ name ++ [0] ++
    padding (string_bytes order name)) (4 + (zlen name + 1) - 1) = Some 0) as ->.
  { rewrite !mload_app_r by (rewrite ?encode_uint_length; lia).
    rewrite encode_uint_length.
    replace (4 + (zlen name + 1) - 1 - Z.of_nat (Z.to_nat 4) - zlen name) with 0 by lia. done. }
  cbn [access mbind outcome_bind Z.eqb negb stop_if].
  replace (zlen name + 1 - 1) with (zlen name) by lia.
  rewrite (mslice_app_exact _ name) by (rewrite ?encode_uint_length; lia).
  cbn [access mbind outcome_bind]. rewrite Hp, mcopy_start by (rewrite length_replicate; lia).
  cbn [access mbind outcome_bind]. by rewrite drop_replicate.
Qed.

(** The seven singleton parameters, from the initial parser state. *)
Definition fixed_params (p : SpdpParticipantData) (order : ByteOrder) : list (Z * list Z) :=
  [(pid_protocol_version, [major (protocol_version p); minor (protocol_version p)]);
   (pid_vendor_id, vendor_id p);
   (pid_domain_id, encode_uint order 4 (domain_id p));
   (pid_participant_guid, guid_prefix p ++ entity_id_participant);
   (pid_expects_inline_qos, [if expects_inline_qos p then 1 else 0]);
   (pid_builtin_endpoint_set, encode_uint order 4 (available_builtin_endpoints p));
   (pid_participant_lease_duration, duration_bytes order (lease_duration_ns p))].

Definition fixed_seen : list Z :=
  [pid_participant_lease_duration; pid_builtin_endpoint_set; pid_expects_inline_qos;
   pid_participant_guid; pid_domain_id; pid_vendor_id; pid_protocol_version].

Definition fixed_state (p : SpdpParticipantData) : parse_state :=
  {| candidate :=
       {| protocol_version := protocol_version p; vendor_id := vendor_id p;
          guid_prefix := guid_prefix p; domain_id := domain_id p;
          expects_inline_qos := expects_inline_qos p;
          metatraffic_unicast := filled 4 []; metatraffic_multicast := filled 4 [];
          default_unicast := filled 4 []; default_multicast := filled 4 [];
          available_builtin_endpoints := available_builtin_endpoints p;
          lease_duration_ns := lease_received (lease_duration_ns p);
          entity_name := replicate 64 0; entity_name_size := 0 |};
     seen := fixed_seen |}.

Lemma lease_received_bounds ns :
  2 <= ns -> duration_seconds ns <= i32_max ->
  1 <= lease_received ns /\ ns - 1 <= lease_received ns <= ns.
Proof. intros H1 H2. destruct (duration_roundtrip ns); [lia|done|]. unfold lease_received. lia. Qed.

Lemma handle_protocol order maj mi s :
  seen_before pid_protocol_version s = false ->
  handle order pid_protocol_version (padded [maj; mi]) s =
  Done (mark pid_protocol_version s
          (set_protocol_version (candidate s) {| major := maj; minor := mi |})).
Proof. intros Hs. unfold handle. cbn -[seen_before]. by rewrite Hs. Qed.

Lemma handle_vendor order v s :
  length v = 2%nat -> seen_before pid_vendor_id s = false ->
  handle order pid_vendor_id (padded v) s =
  Done (mark pid_vendor_id s (set_vendor_id (candidate s) v)).
Proof.
  intros Hv Hs. destruct v as [|a [|b [|]]]; try discriminate Hv.
  unfold handle. cbn -[seen_before]. by rewrite Hs.
Qed.

Lemma handle_inline order (x : bool) s :
  seen_before pid_expects_inline_qos s = false ->
  handle order pid_expects_inline_qos (padded [if x then 1 else 0]) s =
  Done (mark pid_expects_inline_qos s (set_expects_inline_qos (candidate s) x)).
Proof. intros Hs. unfold handle. cbn -[seen_before]. rewrite Hs. by destruct x. Qed.

Lemma handle_domain order x s :
  0 <= x < 2 ^ 32 -> seen_before pid_domain_id s = false ->
  handle order pid_domain_id (padded (encode_uint order 4 x)) s =
  Done (mark pid_domain_id s (set_domain_id (candidate s) x)).
Proof.
  intros Hx Hs. unfold handle. rewrite padded_word, encode_uint_length, Hs.
  cbn -[read_u32]. by rewrite read_word.
Qed.

Lemma handle_endpoints order x s :
  0 <= x < 2 ^ 32 -> seen_before pid_builtin_endpoint_set s = false ->
  handle order pid_builtin_endpoint_set (padded (encode_uint order 4 x)) s =
  Done (mark pid_builtin_endpoint_set s (set_available_builtin_endpoints (candidate s) x)).
Proof.
  intros Hx Hs. unfold handle. rewrite padded_word, encode_uint_length, Hs.
  cbn -[read_u32]. by rewrite read_word.
Qed.

Lemma handle_guid order g s :
  length g = 12%nat -> seen_before pid_participant_guid s = false ->
  handle order pid_participant_guid (padded (g ++ entity_id_participant)) s =
  Done (mark pid_participant_guid s (set_guid_prefix (candidate s) g)).
Proof.
  intros Hg Hs. assert (zlen (g ++ entity_id_participant) = 16) as Hl
    by (rewrite length_app; cbn [length entity_id_participant]; lia).
  unfold handle. rewrite (padded_aligned _ 16), Hl, Hs by done.
  cbn -[mslice entity_id_participant app].
  rewrite mslice_start, mslice_end by (done || lia).
  cbn -[entity_id_participant]. by rewrite bool_decide_true.
Qed.

Lemma handle_lease order ns s :
  2 <= ns -> duration_seconds ns <= i32_max ->
  seen_before pid_participant_lease_duration s = false ->
  handle order pid_participant_lease_duration (padded (duration_bytes order ns)) s =
  Done (mark pid_participant_lease_duration s
          (set_lease_duration_ns (candidate s) (lease_received ns))).
Proof.
  intros H1 H2 Hs. pose proof (lease_received_bounds ns H1 H2) as Hb.
  unfold handle. rewrite (padded_aligned _ 8), duration_bytes_length, Hs
    by (done || apply duration_bytes_length).
  cbn -[parse_duration duration_bytes].
  rewrite <- (app_nil_r (duration_bytes order ns)).
  pose proof (parse_duration_encoded invalid_duration order ns [] [] ltac:(lia) H2) as Hp.
  cbn [app] in Hp. change (zlen (@nil Z)) with 0 in Hp. rewrite Hp.
  cbn [mbind outcome_bind]. fold (lease_received ns).
  destruct (Z.eqb_spec (lease_received ns) 0); [lia|done].
Qed.

Lemma fixed_run p order :
  participant_ok p -> 2 <= lease_duration_ns p ->
  duration_seconds (lease_duration_ns p) <= i32_max ->
  run order (fixed_params p order)
    {| candidate := set_domain_id SpdpParticipantData_default (domain_id p); seen := [] |} =
  Done (fixed_state p).
Proof.
  intros [P1 P2 P3 _ _ _ _ P8 P9 _ _] H2 Hs. unfold fixed_params. cbn [for_each].
  rewrite handle_protocol by done. cbn [mbind outcome_bind].
  rewrite handle_vendor by done. cbn [mbind outcome_bind].
  rewrite handle_domain by done. cbn [mbind outcome_bind].
  rewrite handle_guid by done. cbn [mbind outcome_bind].
  rewrite handle_inline by done. cbn [mbind outcome_bind].
  rewrite handle_endpoints by done. cbn [mbind outcome_bind].
  rewrite handle_lease by done. cbn [mbind outcome_bind].
  unfold fixed_state, mark. cbn. by destruct (protocol_version p).
Qed.

Definition final_state (p : SpdpParticipantData) : parse_state :=
  {| candidate := received p;
     seen := if entity_name_size p =? 0 then fixed_seen else pid_entity_name :: fixed_seen |}.

Lemma name_run p order q sn :
  participant_ok p -> entity_name_size p <= spdp_max_entity_name ->
  entity_name q = replicate 64 0 -> entity_name_size q = 0 -> sn = fixed_seen ->
  run order (name_params p order) {| candidate := q; seen := sn |} =
  Done {| candidate := set_entity_name q
            (name_of p ++ replicate (64 - length (name_of p)) 0) (entity_name_size p);
          seen := if entity_name_size p =? 0 then fixed_seen
                  else pid_entity_name :: fixed_seen |}.
Proof.
  intros Hp Hn Hq Hq0 ->. unfold name_params, spdp_max_entity_name in *.
  pose proof (po_name_size p Hp). pose proof (po_name p Hp) as Hlen.
  assert (zlen (name_of p) = entity_name_size p) as Hz
    by (unfold name_of; rewrite length_take; lia).
  destruct (Z.eqb_spec (entity_name_size p) 0) as [H0|H0]; cbn [for_each].
  - destruct (name_of p); [|cbn in Hz; lia]. rewrite H0. destruct q. cbn in *. by subst.
  - unfold handle. cbn -[parse_entity_name string_bytes].
    rewrite parse_name_encoded by (done || lia). cbn [mbind outcome_bind].
    unfold mark. cbn [seen]. by rewrite Hz.
Qed.

Lemma params_run p order :
  participant_ok p -> announceable p ->
  run order (spdp_params p order)
    {| candidate := set_domain_id SpdpParticipantData_default (domain_id p); seen := [] |} =
  Done (final_state p).
Proof.
  intros Hp [A1 A2 A3]. pose proof Hp as [P1 P2 P3 P4 P5 P6 P7 P8 P9 P10 P11].
  rewrite !Forall_cons in A2. destruct A2 as (L1 & L2 & L3 & L4 & _).
  unfold invalid_participant in A1. rewrite !orb_false_iff in A1.
  destruct A1 as [[[[[_ A1%Z.ltb_ge] A2%Z.ltb_ge] _] _] _].
  change (spdp_params p order) with (fixed_params p order ++
    locator_params pid_metatraffic_unicast_locator order (metatraffic_unicast p) ++
    locator_params pid_metatraffic_multicast_locator order (metatraffic_multicast p) ++
    locator_params pid_default_unicast_locator order (default_unicast p) ++
    locator_params pid_default_multicast_locator order (default_multicast p) ++
    name_params p order).
  rewrite for_each_app, fixed_run by done. cbn [mbind outcome_bind].
  destruct (held_valid _ _ P4 L1) as [W1 C1]. destruct (held_valid _ _ P5 L2) as [W2 C2].
  destruct (held_valid _ _ P6 L3) as [W3 C3]. destruct (held_valid _ _ P7 L4) as [W4 C4].
  unfold locator_params.
  rewrite for_each_app, (list_run order pid_metatraffic_unicast_locator
    (fun s => metatraffic_unicast (candidate s)) (fun s l => update s (set_metatraffic_unicast (candidate s) l)))
    by (done || by intros [[] ?]).
  cbn [mbind outcome_bind].
  rewrite for_each_app, (list_run order pid_metatraffic_multicast_locator
    (fun s => metatraffic_multicast (candidate s)) (fun s l => update s (set_metatraffic_multicast (candidate s) l)))
    by (done || by intros [[] ?]).
  cbn [mbind outcome_bind].
  rewrite for_each_app, (list_run order pid_default_unicast_locator
    (fun s => default_unicast (candidate s)) (fun s l => update s (set_default_unicast (candidate s) l)))
    by (done || by intros [[] ?]).
  cbn [mbind outcome_bind].
  rewrite for_each_app, (list_run order pid_default_multicast_locator
    (fun s => default_multicast (candidate s)) (fun s l => update s (set_default_multicast (candidate s) l)))
    by (done || by intros [[] ?]).
  cbn [mbind outcome_bind]. unfold update. cbn [candidate seen].
  rewrite name_run by done. done.
Qed.

Lemma spdp_params_ok p order :
  participant_ok p -> announceable p -> Forall param_ok (spdp_params p order).
Proof.
  intros Hp [A1 A2 A3]. pose proof Hp as [P1 P2 P3 P4 P5 P6 P7 P8 P9 P10 P11].
  unfold invalid_participant in A1. rewrite !orb_false_iff in A1.
  destruct A1 as [[[[[_ A1%Z.ltb_ge] _] _] _] _]. unfold spdp_max_entity_name in A1.
  unfold spdp_params. rewrite !Forall_app, !Forall_singleton.
  assert (zlen (guid_prefix p ++ entity_id_participant) = 16) as Hg
    by (rewrite length_app; cbn [length entity_id_participant]; lia).
  split_and!; try (by eapply locator_params_ok); try done.
  - unfold param_ok. by rewrite P1.
  - unfold param_ok. by rewrite Hg.
  - unfold name_params. destruct (entity_name_size p =? 0); [constructor|].
    apply Forall_singleton. unfold param_ok. rewrite text_bytes_length.
    unfold name_of. rewrite length_take, P10. split_and!; (done || lia).
Qed.

Definition received_view (config : SpdpAnnouncementConfig) : SpdpMessageView :=
  {| participant := received (participant config);
     sequence_number := sequence_number config;
     submessage_byte_order := submessage_byte_order config;
     parameter_byte_order := parameter_byte_order config |}.

Lemma accept_received config payload :
  participant_ok (participant config) -> announceable (participant config) ->
  accept (Data.view_of (data_config config) payload) (domain_id (participant config)) true
    (final_state (participant config)) = Done (received (participant config)).
Proof.
  intros Hp [A1 A2 A3]. set (p := participant config) in *.
  pose proof Hp as [P1 P2 P3 P4 P5 P6 P7 P8 P9 P10 P11].
  rewrite !Forall_cons in A2. destruct A2 as ([L1 V1] & [L2 V2] & [L3 V3] & [L4 V4] & _).
  unfold invalid_participant in A1. rewrite !orb_false_iff, !negb_false_iff in A1.
  destruct A1 as [[[[[[[[B1 B2] B3] B4] _] _] _] B5] B6].
  assert (seen_before pid_protocol_version (final_state p) = true /\
    seen_before pid_vendor_id (final_state p) = true /\
    seen_before pid_participant_guid (final_state p) = true /\
    seen_before pid_builtin_endpoint_set (final_state p) = true) as (S1 & S2 & S3 & S4).
  { unfold seen_before, final_state. cbn [seen]. destruct (entity_name_size p =? 0); done. }
  unfold accept. rewrite S1, S2, S3, S4.
  cbn [final_state candidate received protocol_version vendor_id guid_prefix domain_id
    metatraffic_unicast metatraffic_multicast default_unicast
    Data.view_of data_config Data.guid_prefix Data.version Data.vendor_id Data.cfg_guid_prefix
    Data.cfg_version Data.cfg_vendor_id].
  fold p. rewrite !(filled_size spdp_max_locators) by done. rewrite B1, B2, B3, B4, B5, B6, !Z.eqb_refl.
  rewrite !bool_decide_true by done. done.
Qed.

Lemma parse_announcement_built config :
  participant_ok (participant config) -> announceable (participant config) ->
  supported_byte_order (parameter_byte_order config) = true ->
  parse_announcement (Data.view_of (data_config config)
      (spdp_payload (participant config) (parameter_byte_order config)))
    (domain_id (participant config)) = Done (received_view config).
Proof.
  intros Hp Ha Ho. set (p := participant config) in *.
  set (order := parameter_byte_order config) in *.
  pose proof (build_payload_at p order Hp Ha) as (_ & _ & _ & Hlen).
  unfold payload_capacity in Hlen.
  pose proof (loop_encoded malformed_parameter (handle order) order (spdp_params p order)
    {| candidate := set_domain_id SpdpParticipantData_default (domain_id p); seen := [] |}
    (spdp_params_ok p order Hp Ha)) as Hloop.
  fold (spdp_payload p order) in Hloop. specialize (Hloop ltac:(lia)). cbv zeta in Hloop.
  rewrite params_run in Hloop by done. cbn [mbind outcome_bind] in Hloop.
  assert (8 <= zlen (spdp_payload p order)) as H8.
  { unfold spdp_payload, encode_list. rewrite encode_params_app, encode_params_one, !length_app.
    pose proof (encode_param_length order pid_sentinel []) as He.
    change (padded_size (zlen (@nil Z))) with 0 in He. cbn [encapsulation length] in *. lia. }
  unfold parse_announcement.
  cbn [Data.view_of data_config Data.writer_id Data.reader_id Data.payload_size
    Data.serialized_payload Data.cfg_writer_id Data.cfg_reader_id].
  change (entity_neqb entity_id_spdp_writer entity_id_spdp_writer) with false.
  change (entity_neqb entity_id_unknown entity_id_unknown) with false.
  cbn [orb andb stop_if mbind outcome_bind].
  destruct (Z.ltb_spec (zlen (spdp_payload p order)) 8); [lia|].
  cbn [access stop_if mbind outcome_bind].
  change (mload (spdp_payload p order) 0) with (Some 0).
  change (mload (spdp_payload p order) 1) with (Some (if is_little order then 3 else 2)).
  cbn [access mbind outcome_bind].
  destruct order eqn:Horder; try discriminate Ho;
    cbn [is_little Z.eqb Pos.eqb negb orb andb stop_if mbind outcome_bind];
    rewrite Hloop; cbn [mbind outcome_bind];
    unfold p; rewrite accept_received by done; cbn [mbind outcome_bind];
    unfold received_view; fold order; by rewrite Horder.
Qed.

(** What a builder accepts is parsed as the participant that was announced. *)
Lemma announcement_parses config capacity :
  participant_ok (participant config) -> 0 <= sequence_number config < 2 ^ 64 ->
  can_announce config capacity = true ->
  parse_body (Some (announcement_bytes config)) (zlen (announcement_bytes config))
    (domain_id (participant config)) = Done (received_view config).
Proof.
  intros Hp Hseq Hcan. unfold can_announce in Hcan. rewrite !andb_true_iff, Z.leb_le in Hcan.
  destruct Hcan as [[[[Ho Hi] Hl] Hd] Hbld].
  unfold parse_body, Data.parse_data_message.
  rewrite checked_commit by apply Data.parse_body_error.
  unfold announcement_bytes.
  rewrite (Data.parse_built _ _ capacity (data_config_ok config Hp Hseq)) by done.
  cbn [map_stop mbind outcome_bind]. rewrite parse_announcement_built; [done|done| |done].
  by apply announceable_spec.
Qed.

(** C30: announcements round-trip: whenever [build] succeeds, the bytes it
    produced parse back, in the announced domain, to the announced participant
    with exactly its identity, endpoints, locator lists and name; only the lease
    loses up to one nanosecond in the wire format, and never becomes zero. *)
Theorem spdp_roundtrip b m config b' view :
  builder_ok b m -> participant_ok (participant config) ->
  0 <= sequence_number config < 2 ^ 64 -> build b config = Done b' ->
  exists bytes, buffer_ b' = Some bytes /\
    parse_spdp_message (Some (take (Z.to_nat (size_ b')) bytes)) (size_ b')
      (domain_id (participant config)) view =
    Some ({| error := spdp_none; rtps_error := Data.rtps_none; bytes := size_ b' |},
          received_view config) /\
    let sent := lease_duration_ns (participant config) in
    let got := lease_duration_ns (received (participant config)) in
    1 <= got /\ sent - 1 <= got <= sent.
Proof.
  intros Hb Hp Hseq Hbuild. pose proof (spdp_build_cases b m config Hb Hp Hseq) as Hcases.
  destruct (can_announce config (capacity_ b)) eqn:Hcan;
    [|destruct Hcases as (e & r & _ & _ & Hs); rewrite Hs in Hbuild; discriminate].
  pose proof (announcement_parses config _ Hp Hseq Hcan) as Hparse. cbv zeta in Hcases.
  remember (announcement_bytes config) as l eqn:Hbytes.
  rewrite Hcases in Hbuild. injection Hbuild as <-. cbn [buffer_ size_].
  eexists. split; [done|]. split.
  - rewrite take_app_length' by lia. unfold parse_spdp_message. by rewrite Hparse.
  - unfold can_announce in Hcan. rewrite !andb_true_iff, Z.leb_le in Hcan.
    destruct Hcan as [[[[_ Hi] _] Hd] _].
    cbn [received lease_duration_ns]. apply lease_received_bounds; [|done].
    apply negb_true_iff in Hi. unfold invalid_participant in Hi. rewrite !orb_false_iff in Hi.
    destruct Hi as [[[[_ H2%Z.ltb_ge] _] _] _]. done.
Qed.

(** ** Untrusted announcements *)

Record participant_sound (p : SpdpParticipantData) : Prop := {
  so_mu : list_sound spdp_max_locators (metatraffic_unicast p);
  so_mm : list_sound spdp_max_locators (metatraffic_multicast p);
  so_du : list_sound spdp_max_locators (default_unicast p);
  so_dm : list_sound spdp_max_locators (default_multicast p);
  so_lease : 1 <= lease_duration_ns p < 2 ^ 63;
  so_name : length (entity_name p) = 64%nat;
  so_name_size : 0 <= entity_name_size p <= spdp_max_entity_name;
}.

Lemma parse_name_post value order p :
  bytes_ok value -> participant_sound p ->
  match parse_entity_name value order p with
  | Fault => False
  | Stop e => e <> spdp_none
  | Done p' => participant_sound p'
  end.
Proof.
  intros Hb [S1 S2 S3 S4 S5 S6 S7]. unfold parse_entity_name, read_u32, spdp_max_entity_name.
  destruct (Z.ltb_spec (zlen value) 8); cbn [stop_if mbind outcome_bind]; [done|].
  destruct (read_uint32_Done (E:=SpdpError) value 0 order) as (n & -> & Hn); [done|lia..|].
  cbn [mbind outcome_bind].
  destruct (Z.eqb_spec n 0); cbn [orb stop_if mbind outcome_bind]; [done|].
  destruct (Z.ltb_spec (zlen value - 4) n); cbn [orb stop_if mbind outcome_bind]; [done|].
  destruct (Z.ltb_spec (63 + 1) n); cbn [orb stop_if mbind outcome_bind]; [done|].
  destruct (proj2 (mload_is_Some value (4 + n - 1))) as [x ->]; [lia|].
  cbn [access mbind outcome_bind].
  destruct (negb (x =? 0)); cbn [stop_if mbind outcome_bind]; [done|].
  destruct (proj2 (mslice_is_Some value 4 (n - 1))) as [c Hc]; [lia|]. rewrite Hc.
  apply mslice_length in Hc. cbn [access mbind outcome_bind].
  destruct (proj2 (mcopy_is_Some (entity_name p) 0 c)) as [m Hm]; [lia|]. rewrite Hm.
  apply mcopy_length in Hm. cbn [access mbind outcome_bind].
  split; cbn; try done; unfold spdp_max_entity_name; lia.
Qed.

(** A parser state whose candidate is sound. *)
Abbreviation handled_ok := (post spdp_none (fun s => participant_sound (candidate s))).

Lemma handle_post order id value s :
  bytes_ok value -> participant_sound (candidate s) -> handled_ok (handle order id value s).
Proof.
  intros Hb Hs. unfold handle. pose proof Hs as [S1 S2 S3 S4 S5 S6 S7].
  repeat match goal with |- handled_ok (if ?c then _ else _) => destruct c end; try done;
    try (apply post_guard; [done|intros _]);
    try (apply post_guard; [done|intros Hz%negb_false_iff%Z.eqb_eq]);
    try (apply post_locator; try done; intros l Hl; by split).
  - apply post_load; [lia|]. intros v0. apply post_load; [lia|]. intros v1. by split.
  - apply post_slice; [lia|]. intros v _. by split.
  - apply post_word; [done|lia..|]. intros v _. by split.
  - apply post_slice; [lia|]. intros g _. apply post_slice; [lia|]. intros e _.
    apply post_guard; [done|]. intros _. by split.
  - apply post_load; [lia|]. intros v. apply post_guard; [done|]. intros _. by split.
  - apply post_word; [done|lia..|]. intros v _. by split.
  - apply post_duration; [done|lia..|done|]. intros d Hd.
    apply post_guard; [done|]. intros H0%Z.eqb_neq. split; cbn; (done || lia).
  - pose proof (parse_name_post value order (candidate s) Hb Hs) as Hn.
    destruct (parse_entity_name _ _ _); [done..|]. exact Hn.
  - done.
Qed.

(** What an accepted announcement guarantees to the participant table. *)
Record view_sound (v : SpdpMessageView) (expected_domain_id : Z) : Prop := {
  vs_participant : participant_sound (participant v);
  vs_version : supported_version (protocol_version (participant v)) = true;
  vs_guid : nonzero_guid (guid_prefix (participant v)) = true;
  vs_domain : domain_id (participant v) = expected_domain_id;
  vs_default : held (default_unicast (participant v)) <> [];
  vs_metatraffic : held (metatraffic_unicast (participant v)) ++
                   held (metatraffic_multicast (participant v)) <> [];
  vs_sequence : 1 <= sequence_number v <= i64_max;
}.

Lemma default_sound expected :
  participant_sound (set_domain_id SpdpParticipantData_default expected).
Proof.
  pose proof (default_list_sound spdp_max_locators ltac:(done)) as Hl.
  split; cbn -[BoundedLocatorList_default]; try done; unfold spdp_max_entity_name; lia.
Qed.

Lemma accept_post data expected sentinel s :
  participant_sound (candidate s) ->
  match accept data expected sentinel s with
  | Fault => False
  | Stop e => e <> spdp_none
  | Done p => p = candidate s /\ supported_version (protocol_version p) = true /\
      nonzero_guid (guid_prefix p) = true /\ domain_id p = expected /\
      held (default_unicast p) <> [] /\
      held (metatraffic_unicast p) ++ held (metatraffic_multicast p) <> []
  end.
Proof.
  intros [[W1 _] [W2 _] [W3 _] _ _ _ _]. unfold accept.
  destruct sentinel; cbn [negb stop_if mbind outcome_bind]; [|done].
  match goal with |- context [stop_if ?c missing_required_parameter] =>
    destruct c eqn:Hm end; cbn [stop_if mbind outcome_bind]; [done|].
  match goal with |- context [stop_if ?c invalid_identity] =>
    destruct c eqn:Hi end; cbn [stop_if mbind outcome_bind]; [done|].
  match goal with |- context [stop_if ?c domain_mismatch] =>
    destruct c eqn:Hd end; cbn [stop_if mbind outcome_bind]; [done|].
  rewrite !orb_false_iff in Hm. rewrite !orb_false_iff in Hi. destruct Hm as [[_ M1%Z.eqb_neq] M2%Z.eqb_neq].
  destruct Hi as [[[[[[[I1 I2] I3%Z.ltb_ge] I4] _] _] _] _].
  apply negb_false_iff, Z.eqb_eq in Hd. apply negb_false_iff in I1, I4.
  pose proof (lw_size _ _ W1). pose proof (lw_size _ _ W2). unfold spdp_max_locators in *.
  rewrite add64_id in M2 by lia.
  split_and!; try done.
  - unfold supported_version. rewrite I1, I2. cbn. by apply Z.leb_le.
  - by eapply held_nonempty.
  - intros [H1 H2]%app_nil. destruct (decide (size (metatraffic_unicast (candidate s)) = 0)).
    + apply (held_nonempty 4 (metatraffic_multicast (candidate s))) in H2; (done || lia).
    + apply (held_nonempty 4 (metatraffic_unicast (candidate s))) in H1; (done || lia).
Qed.

Lemma parse_announcement_post data payload expected :
  Data.data_view_ok data payload ->
  match parse_announcement data expected with
  | Fault => False
  | Stop e => e <> spdp_none
  | Done v => view_sound v expected
  end.
Proof.
  intros [D1 D2 D3 D4 D5 D6 _ _]. unfold parse_announcement. rewrite D2, D3.
  destruct (entity_neqb _ _ || _); cbn [stop_if mbind outcome_bind]; [done|].
  destruct (Z.ltb_spec (zlen payload) 8); cbn [access stop_if mbind outcome_bind]; [done|].
  destruct (proj2 (mload_is_Some payload 0)) as [p0 ->]; [lia|].
  destruct (proj2 (mload_is_Some payload 1)) as [p1 ->]; [lia|].
  cbn [access mbind outcome_bind].
  destruct (negb (p0 =? 0) || _); cbn [stop_if mbind outcome_bind]; [done|].
  set (order := if p1 =? 3 then little_endian else big_endian).
  pose proof (parameter_loop_post malformed_parameter (handle order)
    (fun s => participant_sound (candidate s)) (fun e => e <> spdp_none) payload order
    ltac:(done) (S (Z.to_nat (zlen payload))) 4
    {| candidate := set_domain_id SpdpParticipantData_default expected; seen := [] |}
    D5 ltac:(lia) ltac:(lia) ltac:(lia) (handle_post order) (default_sound expected)) as Hloop.
  destruct (parameter_loop _ _ _ _ _ _ _ _) as [|e|[sentinel s]]; [done..|].
  cbn [mbind outcome_bind]. pose proof (accept_post data expected sentinel s Hloop) as Hacc.
  destruct (accept data expected sentinel s) as [|e|p]; [done..|]. cbn [mbind outcome_bind].
  destruct Hacc as (-> & ? & ? & ? & ? & ?). by split.
Qed.

(** Parsing an arbitrary datagram as an announcement terminates without an
    access outside it; the caller's view changes only on success, and then holds
    a participant of the expected domain with a supported version, a nonzero
    GUID, a positive lease, a name of at most 63 characters, and only valid
    UDPv4 locators, at least one for user data and one for discovery. *)
Theorem spdp_parse_sound message message_size expected_domain_id view :
  Router.message_ok message message_size ->
  exists r v, parse_spdp_message message message_size expected_domain_id view = Some (r, v) /\
    (error r <> spdp_none -> v = view) /\
    (error r = spdp_none -> view_sound v expected_domain_id).
Proof.
  intros Hm. pose proof (Data.parse_body_post message message_size Hm) as Hdata.
  unfold parse_spdp_message, parse_body, Data.parse_data_message.
  rewrite checked_commit by apply Data.parse_body_error.
  destruct (Data.parse_body message message_size) as [|e|data]; [done| |];
    cbn [map_stop mbind outcome_bind].
  { eexists _, _. split; [done|]. done. }
  destruct Hdata as [payload Hview].
  pose proof (parse_announcement_post data payload expected_domain_id Hview) as Hpost.
  destruct (parse_announcement data expected_domain_id) as [|e|v]; [done|..];
    cbn [map_stop mbind outcome_bind]; (eexists _, _; split; [done|]); done.
Qed.

(** [build] succeeds exactly on complete participants (supported version,
    nonzero GUID, both mandatory endpoints, usable locators, a lease of at least
    two nanoseconds that fits the wire format) whose message fits the caller's
    buffer, and then writes exactly the reference encoding. Otherwise it reports
    an error and leaves the buffer alone; the parameter list itself always fits,
    so [buffer_overflow] is never the error. *)
Theorem spdp_build_exact b m config :
  builder_ok b m -> participant_ok (participant config) ->
  0 <= sequence_number config < 2 ^ 64 ->
  let l := announcement_bytes config in
  if can_announce config (capacity_ b) then
    build b config = Done {| buffer_ := Some (l ++ drop (length l) m);
      capacity_ := capacity_ b; size_ := zlen l; error_ := spdp_none;
      rtps_error_ := Data.rtps_none |}
  else exists e r, e <> spdp_none /\ e <> buffer_overflow /\
    build b config = Stop {| buffer_ := Some m; capacity_ := capacity_ b; size_ := 0;
      error_ := e; rtps_error_ := r |}.
Proof. apply spdp_build_cases. Qed.

(** ** A concrete participant *)

Definition demo_locator : Locator :=
  {| kind := 1; port := 7410; address := replicate 12 0 ++ [192; 168; 0; 7] |}.

Definition demo_participant : SpdpParticipantData :=
  {| protocol_version := ProtocolVersion_default; vendor_id := [1; 2];
     guid_prefix := [1; 2; 3; 4; 5; 6; 7; 8; 9; 10; 11; 12]; domain_id := 3;
     expects_inline_qos := true; metatraffic_unicast := filled 4 [demo_locator];
     metatraffic_multicast := filled 4 []; default_unicast := filled 4 [demo_locator];
     default_multicast := filled 4 []; available_builtin_endpoints := 63;
     lease_duration_ns := 20000000001;
     entity_name := [114; 111; 98; 111; 116] ++ replicate 59 0; entity_name_size := 5 |}.

Definition demo_announcement : SpdpAnnouncementConfig :=
  {| participant := demo_participant; sequence_number := 9;
     submessage_byte_order := little_endian; parameter_byte_order := big_endian |}.

Lemma demo_participant_ok : participant_ok demo_participant.
Proof.
  assert (forall xs, xs = [] \/ xs = [demo_locator] -> list_typed 4 (filled 4 xs)) as Hl.
  { assert (locator_ok demo_locator /\ locator_ok Locator_default) as [H1 H2]
      by (split; split_and!; cbn; try lia; repeat constructor; lia).
    intros xs [-> | ->]; split; cbn; try lia; repeat constructor; done. }
  split; try (by apply Hl; auto); cbn; lia.
Qed.

Lemma spdp_roundtrip_witness :
  exists b' bytes,
    build (SpdpMessageBuilder_new (Some (replicate 512 0)) 512) demo_announcement = Done b' /\
    buffer_ b' = Some bytes /\
    parse_spdp_message (Some (take (Z.to_nat (size_ b')) bytes)) (size_ b') 3
      demo_announcement =
    Some ({| error := spdp_none; rtps_error := Data.rtps_none; bytes := size_ b' |},
          received_view demo_announcement).
Proof.
  destruct (build (SpdpMessageBuilder_new (Some (replicate 512 0)) 512) demo_announcement)
    as [| |b'] eqn:Hb; [vm_compute in Hb; discriminate..|].
  destruct (spdp_roundtrip (SpdpMessageBuilder_new (Some (replicate 512 0)) 512)
    (replicate 512 0) demo_announcement b' demo_announcement) as (bytes & H1 & H2 & _);
    [split; [done|cbn; lia]|apply demo_participant_ok|cbn; lia|exact Hb|].
  exists b', bytes. split_and!; [done|exact H1|exact H2].
Defined.

Lemma spdp_parse_sound_witness :
  exists r v, parse_spdp_message (Some (replicate 90 2)) 90 3 demo_announcement = Some (r, v) /\
    (error r <> spdp_none -> v = demo_announcement) /\
    (error r = spdp_none -> view_sound v 3).
Proof.
  apply (spdp_parse_sound (Some (replicate 90 2)) 90 3 demo_announcement).
  split; [lia|]. intros m [= <-]. split; [done|]. repeat constructor; lia.
Defined.

Lemma spdp_build_exact_witness :
  exists e r, e <> spdp_none /\ e <> buffer_overflow /\
    build (SpdpMessageBuilder_new (Some (replicate 50 0)) 50) demo_announcement =
    Stop {| buffer_ := Some (replicate 50 0); capacity_ := 50; size_ := 0;
            error_ := e; rtps_error_ := r |}.
Proof.
  apply (spdp_build_exact (SpdpMessageBuilder_new (Some (replicate 50 0)) 50)
    (replicate 50 0) demo_announcement); [split; [done|cbn; lia]|apply demo_participant_ok|cbn; lia].
Defined.

End Spdp.
