(* ===== verification/ParticipantTable.v ===== *)
(** * The table of discovered participants

    [DiscoveredParticipantTable] of [include/openrtdds/rtps/spdp.hpp]: a
    fixed-capacity table with leases, refined to a finite map from GUID prefixes
    to participants and a clock. *)
From stdpp Require Import gmap.
From S2P Require Import Prelude.
From S2P Require Import Bytes.
From S2P Require Import Types.
From S2P Require Import Locators.
From S2P Require Import SlotTable.
From S2P Require Import Spdp.

Module Participants.
Import Types Spdp Slots.

Inductive ParticipantUpdate : Set := update_none | added | refreshed.

Record ParticipantTableResult : Set := {
  error : SpdpError;
  update : ParticipantUpdate;
  index : Z;
}.

Record DiscoveredParticipant : Set := {
  data : SpdpParticipantData;
  entry_sequence : Z;
  last_seen_ns : Z;
  expires_at_ns : Z;
  entry_occupied : bool;
}.

Definition DiscoveredParticipant_default : DiscoveredParticipant :=
  {| data := SpdpParticipantData_default; entry_sequence := 0; last_seen_ns := 0;
     expires_at_ns := 0; entry_occupied := false |}.

#[global] Instance participant_slot : Slot DiscoveredParticipant GuidPrefix := {|
  occupied := entry_occupied;
  slot_key e := guid_prefix (data e);
  slot_empty := DiscoveredParticipant_default;
  slot_empty_free := eq_refl;
|}.

Record DiscoveredParticipantTable : Set := {
  local_guid_prefix_ : GuidPrefix;
  entries_ : list DiscoveredParticipant;
  size_ : Z;
  last_time_ns_ : Z;
}.

Section ParticipantTable.
Context (Capacity : nat).

Definition DiscoveredParticipantTable_new (local_guid_prefix : GuidPrefix)
    : DiscoveredParticipantTable :=
  {| local_guid_prefix_ := local_guid_prefix;
     entries_ := replicate Capacity DiscoveredParticipant_default;
     size_ := 0; last_time_ns_ := 0 |}.

Definition with_entry (t : DiscoveredParticipantTable) (i : nat)
    (e : DiscoveredParticipant) (size now_ns : Z) : DiscoveredParticipantTable :=
  {| local_guid_prefix_ := local_guid_prefix_ t; entries_ := <[i := e]> (entries_ t);
     size_ := size; last_time_ns_ := now_ns |}.

(** The entry of a known participant after an announcement that is not stale. *)
Definition refresh (entry : DiscoveredParticipant) (announcement : SpdpMessageView)
    (now_ns : Z) : DiscoveredParticipant :=
  let newer := entry_sequence entry <? sequence_number announcement in
  {| data := if newer then participant announcement else data entry;
     entry_sequence := if newer then sequence_number announcement else entry_sequence entry;
     last_seen_ns := now_ns;
     expires_at_ns := add64 now_ns (lease_duration_ns (participant announcement));
     entry_occupied := entry_occupied entry |}.

(** The entry of a participant seen for the first time. *)
Definition fresh_entry (announcement : SpdpMessageView) (now_ns : Z)
    : DiscoveredParticipant :=
  {| data := participant announcement; entry_sequence := sequence_number announcement;
     last_seen_ns := now_ns;
     expires_at_ns := add64 now_ns (lease_duration_ns (participant announcement));
     entry_occupied := true |}.

Definition rejected (e : SpdpError) (i : Z) : ParticipantTableResult :=
  {| error := e; update := update_none; index := i |}.

Definition upsert (t : DiscoveredParticipantTable) (announcement : SpdpMessageView)
    (now_ns : Z) : ParticipantTableResult * DiscoveredParticipantTable :=
  let guid := guid_prefix (participant announcement) in
  let lease := lease_duration_ns (participant announcement) in
  if now_ns <? last_time_ns_ t then (rejected time_regression 0, t)
  else if bool_decide (guid = local_guid_prefix_ t) then (rejected self_announcement 0, t)
  else if lease =? 0 then (rejected invalid_duration 0, t)
  else if sub64 size_max now_ns <? lease then (rejected expiration_overflow 0, t)
  else match first_where (holds guid) (entries_ t) with
  | Some (i, entry) =>
      if sequence_number announcement <? entry_sequence entry
      then (rejected stale_announcement (Z.of_nat i), t)
      else ({| error := spdp_none; update := refreshed; index := Z.of_nat i |},
            with_entry t i (refresh entry announcement now_ns) (size_ t) now_ns)
  | None =>
      match first_where (fun e => negb (occupied e)) (entries_ t) with
      | Some (i, _) =>
          ({| error := spdp_none; update := added; index := Z.of_nat i |},
           with_entry t i (fresh_entry announcement now_ns) (add64 (size_ t) 1) now_ns)
      | None => (rejected table_full 0, t)
      end
  end.

(** [now_ns >= entry.expires_at_ns] *)
Definition lapsed (now_ns : Z) (e : DiscoveredParticipant) : bool :=
  expires_at_ns e <=? now_ns.

(** [expire]: the error code, the table, the caller's array and [expired_size];
    [None] is a write outside that array. *)
Definition expire (t : DiscoveredParticipantTable) (now_ns : Z)
    (expired : option (list GuidPrefix)) (expired_capacity : Z)
    : option (SpdpError * DiscoveredParticipantTable * option (list GuidPrefix) * Z) :=
  if now_ns <? last_time_ns_ t then Some (time_regression, t, expired, 0)
  else match purge_checked invalid_argument action_capacity_exceeded (lapsed now_ns)
               (fun e => guid_prefix (data e)) (entries_ t) expired expired_capacity (size_ t) with
  | Fault => None
  | Stop e => Some (e, t, expired, 0)
  | Done (entries, expired, expired_size, size) =>
      Some (spdp_none,
            {| local_guid_prefix_ := local_guid_prefix_ t; entries_ := entries;
               size_ := size; last_time_ns_ := now_ns |}, expired, expired_size)
  end.

Definition find (t : DiscoveredParticipantTable) (guid : GuidPrefix)
    : option DiscoveredParticipant :=
  snd <$> first_where (holds guid) (entries_ t).

(** ** Specification: a map of leases *)

Record Membership : Set := {
  members : gmap GuidPrefix DiscoveredParticipant;
  clock : Z;
}.

Definition membership (t : DiscoveredParticipantTable) : Membership :=
  {| members := contents (entries_ t); clock := last_time_ns_ t |}.

Definition expiry (announcement : SpdpMessageView) (now_ns : Z) : Z :=
  now_ns + lease_duration_ns (participant announcement).

(** An announcement renews the lease; its data replaces the stored data only
    when its sequence number is larger. *)
Definition renewed (e : DiscoveredParticipant) (announcement : SpdpMessageView) (now_ns : Z)
    : DiscoveredParticipant :=
  if entry_sequence e <? sequence_number announcement then
    {| data := participant announcement; entry_sequence := sequence_number announcement;
       last_seen_ns := now_ns; expires_at_ns := expiry announcement now_ns;
       entry_occupied := true |}
  else
    {| data := data e; entry_sequence := entry_sequence e; last_seen_ns := now_ns;
       expires_at_ns := expiry announcement now_ns; entry_occupied := true |}.

Definition enrolled (announcement : SpdpMessageView) (now_ns : Z) : DiscoveredParticipant :=
  {| data := participant announcement; entry_sequence := sequence_number announcement;
     last_seen_ns := now_ns; expires_at_ns := expiry announcement now_ns;
     entry_occupied := true |}.

Definition spec_upsert (local : GuidPrefix) (M : Membership) (announcement : SpdpMessageView)
    (now_ns : Z) : SpdpError * ParticipantUpdate * Membership :=
  let guid := guid_prefix (participant announcement) in
  let join e := {| members := <[guid := e]> (members M); clock := now_ns |} in
  if decide (now_ns < clock M) then (time_regression, update_none, M)
  else if decide (guid = local) then (self_announcement, update_none, M)
  else if decide (lease_duration_ns (participant announcement) = 0)
  then (invalid_duration, update_none, M)
  else if decide (2 ^ 64 <= expiry announcement now_ns)
  then (expiration_overflow, update_none, M)
  else match members M !! guid with
  | Some e =>
      if decide (sequence_number announcement < entry_sequence e)
      then (stale_announcement, update_none, M)
      else (spdp_none, refreshed, join (renewed e announcement now_ns))
  | None =>
      if decide (size (members M) < Capacity)%nat
      then (spdp_none, added, join (enrolled announcement now_ns))
      else (table_full, update_none, M)
  end.

(** The members whose lease has run out at [now_ns]. *)
Definition overdue (now_ns : Z) (M : Membership) : gmap GuidPrefix DiscoveredParticipant :=
  filter (fun ke => expires_at_ns ke.2 <= now_ns) (members M).

Definition table_wf (t : DiscoveredParticipantTable) : Prop :=
  table_ok Capacity (entries_ t) (size_ t).

(** The machine-width facts that the types of the source give. *)
Definition announcement_ok (announcement : SpdpMessageView) (now_ns : Z) : Prop :=
  0 <= now_ns < 2 ^ 64 /\
  0 <= lease_duration_ns (participant announcement) < 2 ^ 64.

Context (Capacity_bound : Z.of_nat Capacity < 2 ^ 64).

Lemma new_wf local : table_wf (DiscoveredParticipantTable_new local).
Proof. exact (table_ok_empty (HS := participant_slot) Capacity). Qed.

Lemma refresh_renewed e a now :
  entry_occupied e = true -> 0 <= expiry a now < 2 ^ 64 -> refresh e a now = renewed e a now.
Proof.
  intros He Hx. unfold refresh, renewed. rewrite He, add64_id by done. by destruct (_ <? _).
Qed.

Lemma fresh_enrolled a now : 0 <= expiry a now < 2 ^ 64 -> fresh_entry a now = enrolled a now.
Proof. intros. unfold fresh_entry. by rewrite add64_id. Qed.

Lemma renewed_slot e a now :
  slot_key e = guid_prefix (participant a) ->
  occupied (renewed e a now) = true /\
  slot_key (renewed e a now) = guid_prefix (participant a).
Proof. intros. unfold renewed. by destruct (_ <? _). Qed.

Lemma overdue_part now t :
  due_part (lapsed now) (entries_ t) = overdue now (membership t).
Proof.
  apply map_filter_ext. intros k e _. unfold lapsed. cbn. by rewrite Z.leb_le.
Qed.

Lemma find_members t guid : find t guid = members (membership t) !! guid.
Proof. apply search_contents. Qed.

Lemma membership_is t m c :
  members (membership t) = m -> last_time_ns_ t = c ->
  membership t = {| members := m; clock := c |}.
Proof. by intros <- <-. Qed.

Lemma with_entry_lookup t i e n now :
  (i < length (entries_ t))%nat ->
  mload (entries_ (with_entry t i e n now)) (Z.of_nat i) = Some e.
Proof.
  intros Hi. unfold mload. destruct (Z.ltb_spec (Z.of_nat i) 0); [lia|].
  rewrite Nat2Z.id. by apply list_lookup_insert_eq.
Qed.

Lemma first_where_bound (p : DiscoveredParticipant -> bool) es i x :
  first_where p es = Some (i, x) -> (i < length es)%nat.
Proof. intros [H _]%first_where_Some. by eapply lookup_lt_Some. Qed.

(** Renewing the entry of a known participant. *)
Lemma refresh_step t a now i e :
  table_wf t -> 0 <= expiry a now < 2 ^ 64 ->
  first_where (holds (guid_prefix (participant a))) (entries_ t) = Some (i, e) ->
  let t' := with_entry t i (refresh e a now) (size_ t) now in
  table_wf t' /\
  members (membership t') =
    <[guid_prefix (participant a) := renewed e a now]> (members (membership t)) /\
  mload (entries_ t') (Z.of_nat i) = Some (renewed e a now).
Proof.
  intros Hwf Hx Hf. pose proof (first_where_Some _ _ _ _ Hf) as [_ [Ho Hk]%holds_true].
  rewrite refresh_renewed by done. destruct (renewed_slot e a now Hk) as [Ho' Hk'].
  split_and!.
  - eapply table_ok_update; [done..|exact Ho'|exact Hk'].
  - eapply update_contents; [done|exact Ho'|exact Hk'].
  - eapply with_entry_lookup, first_where_bound, Hf.
Qed.

(** Enrolling a new participant. *)
Lemma enrol_step t a now i e :
  table_wf t -> 0 <= expiry a now < 2 ^ 64 ->
  members (membership t) !! guid_prefix (participant a) = None ->
  first_where (fun e => negb (occupied e)) (entries_ t) = Some (i, e) ->
  let t' := with_entry t i (fresh_entry a now) (add64 (size_ t) 1) now in
  table_wf t' /\
  members (membership t') =
    <[guid_prefix (participant a) := enrolled a now]> (members (membership t)) /\
  mload (entries_ t') (Z.of_nat i) = Some (enrolled a now).
Proof.
  intros Hwf Hx Hn Hf. rewrite fresh_enrolled by done.
  pose proof (table_ok_size _ _ _ Hwf) as [Hs1 Hs2].
  pose proof (table_ok_free _ _ _ _ _ Hwf Hf) as Hs3.
  rewrite add64_id by lia. split_and!.
  - eapply table_ok_add; [done..|exact Hn|done|done].
  - eapply add_contents; [done|exact Hn|done|done].
  - eapply with_entry_lookup, first_where_bound, Hf.
Qed.

Lemma upsert_refines t announcement now_ns :
  table_wf t -> announcement_ok announcement now_ns ->
  let '(r, t') := upsert t announcement now_ns in
  table_wf t' /\ local_guid_prefix_ t' = local_guid_prefix_ t /\
  spec_upsert (local_guid_prefix_ t) (membership t) announcement now_ns =
    (error r, update r, membership t') /\
  (error r = spdp_none ->
   mload (entries_ t') (index r) = find t' (guid_prefix (participant announcement)) /\
   is_Some (find t' (guid_prefix (participant announcement)))).
Proof.
  intros Hwf [Hnow Hlease]. unfold upsert, spec_upsert. cbn [clock membership].
  destruct (Z.ltb_spec now_ns (last_time_ns_ t));
    [rewrite decide_True by done; done|rewrite decide_False by lia].
  destruct (decide (_ = local_guid_prefix_ t)) as [Hl|Hl];
    [by rewrite bool_decide_eq_true_2|rewrite bool_decide_eq_false_2 by done].
  destruct (Z.eqb_spec (lease_duration_ns (participant announcement)) 0);
    [by rewrite decide_True by done|rewrite decide_False by done].
  assert (sub64 size_max now_ns = 2 ^ 64 - 1 - now_ns) as ->
    by (unfold size_max in *; rewrite sub64_id by lia; done).
  unfold expiry. destruct (Z.ltb_spec (2 ^ 64 - 1 - now_ns)
    (lease_duration_ns (participant announcement)));
    [by rewrite decide_True by lia|rewrite decide_False by lia].
  assert (0 <= expiry announcement now_ns < 2 ^ 64) as Hx by (unfold expiry; lia).
  pose proof (search_contents (guid_prefix (participant announcement)) (entries_ t)) as Hsearch.
  change (contents (entries_ t)) with (members (membership t)) in Hsearch.
  rewrite <- Hsearch. destruct (first_where (holds _) (entries_ t)) as [[i e]|] eqn:Hf;
    cbn [fmap option_fmap option_map snd].
  - destruct (Z.ltb_spec (sequence_number announcement) (entry_sequence e));
      [by rewrite decide_True by done|rewrite decide_False by lia].
    destruct (refresh_step t announcement now_ns i e Hwf Hx Hf) as (Hok & Hmem & Hat).
    rewrite find_members, Hmem, lookup_insert_eq. split_and!; try done.
    by rewrite (membership_is _ _ now_ns Hmem).
  - destruct (first_where (fun e => negb (occupied e)) (entries_ t)) as [[i e]|] eqn:Hg.
    + rewrite decide_True by (by eapply table_ok_free).
      symmetry in Hsearch.
      destruct (enrol_step t announcement now_ns i e Hwf Hx Hsearch Hg) as (Hok & Hmem & Hat).
      rewrite find_members, Hmem, lookup_insert_eq. split_and!; try done.
      by rewrite (membership_is _ _ now_ns Hmem).
    + pose proof (table_ok_full _ _ _ Hwf Hg) as Hfull.
      change (contents (entries_ t)) with (members (membership t)) in Hfull.
      rewrite decide_False by lia. done.
Qed.

(** The error that [expire] reports, from the members and the caller's array. *)
Definition spec_expire_error (M : Membership) (now_ns : Z)
    (expired : option (list GuidPrefix)) (expired_capacity : Z) : SpdpError :=
  if decide (now_ns < clock M) then time_regression
  else if decide (overdue now_ns M <> ∅ /\ expired = None) then invalid_argument
  else if decide (expired_capacity < Z.of_nat (size (overdue now_ns M)))
  then action_capacity_exceeded else spdp_none.

(** The members that stay. *)
Definition unexpired (now_ns : Z) (M : Membership) : Membership :=
  {| members := filter (fun ke => now_ns < expires_at_ns ke.2) (members M); clock := now_ns |}.

Definition purged (t : DiscoveredParticipantTable) (now_ns : Z)
    : DiscoveredParticipantTable :=
  {| local_guid_prefix_ := local_guid_prefix_ t;
     entries_ := kept (lapsed now_ns) (entries_ t);
     size_ := size_ t - zlen (due_entries (lapsed now_ns) (entries_ t));
     last_time_ns_ := now_ns |}.

Lemma purged_spec t now :
  table_wf t -> table_wf (purged t now) /\
  membership (purged t now) = unexpired now (membership t).
Proof.
  intros Hwf. split; [by apply table_ok_kept|]. apply membership_is; [|done].
  unfold membership. cbn [members entries_ purged]. rewrite kept_contents by apply Hwf.
  apply map_filter_ext. intros k e _. unfold lapsed. cbn. by rewrite Z.leb_gt.
Qed.

Lemma expire_cases t now expired expired_capacity :
  table_wf t -> (forall m, expired = Some m -> expired_capacity <= zlen m < 2 ^ 64) ->
  let e := spec_expire_error (membership t) now expired expired_capacity in
  let names := slot_key <$> due_entries (lapsed now) (entries_ t) in
  expire t now expired expired_capacity =
  if decide (e = spdp_none)
  then Some (spdp_none, purged t now, reported names expired, zlen names)
  else Some (e, t, expired, 0).
Proof.
  intros Hwf Hcap. unfold expire, spec_expire_error. cbn [clock membership].
  destruct (Z.ltb_spec now (last_time_ns_ t)), (decide (now < last_time_ns_ t)); [done|lia..|].
  rewrite (purge_checked_spec _ _ _ _ _ _ _ Capacity) by done.
  rewrite overdue_part.
  destruct (decide (_ /\ expired = None)); [done|]. by destruct (decide (expired_capacity < _)).
Qed.

(** The participant table implements the map of leases: whatever an
    announcement and the clock are, [upsert] reports the error or the update and
    leaves the members and the time that the specification gives, keeps the table
    well formed, and on success returns the index of the participant's entry. *)
Theorem participant_upsert_refines t announcement now_ns :
  table_wf t -> announcement_ok announcement now_ns ->
  let '(r, t') := upsert t announcement now_ns in
  table_wf t' /\ local_guid_prefix_ t' = local_guid_prefix_ t /\
  spec_upsert (local_guid_prefix_ t) (membership t) announcement now_ns =
    (error r, update r, membership t') /\
  (error r = spdp_none ->
   mload (entries_ t') (index r) = find t' (guid_prefix (participant announcement)) /\
   is_Some (find t' (guid_prefix (participant announcement)))).
Proof. apply upsert_refines. Qed.

(** [expire] removes exactly the participants whose lease has run out: it
    never writes outside the caller's array, reports the error of the
    specification and then changes nothing; on success the members left are those
    whose lease is still running, and the array starts with each removed GUID
    prefix once, [expired_size] counting them, its remainder untouched. *)
Theorem participant_expire_refines t now_ns expired expired_capacity :
  table_wf t ->
  (forall m, expired = Some m -> expired_capacity <= zlen m < 2 ^ 64) ->
  exists e t' out n names, expire t now_ns expired expired_capacity = Some (e, t', out, n) /\
    e = spec_expire_error (membership t) now_ns expired expired_capacity /\
    (e <> spdp_none -> t' = t /\ out = expired /\ n = 0) /\
    (e = spdp_none -> table_wf t' /\ local_guid_prefix_ t' = local_guid_prefix_ t /\
       membership t' = unexpired now_ns (membership t) /\
       names ≡ₚ (map_to_list (overdue now_ns (membership t))).*1 /\
       n = zlen names /\ out = reported names expired).
Proof.
  intros Hwf Hcap. pose proof (expire_cases t now_ns expired expired_capacity Hwf Hcap) as He.
  cbv zeta in He. set (e := spec_expire_error _ _ _ _) in *.
  destruct (decide (e = spdp_none)) as [Hn|Hn].
  - destruct (purged_spec t now_ns Hwf) as [Hwf' Hmem].
    rewrite Hn. eexists _, _, _, _, (slot_key <$> due_entries (lapsed now_ns) (entries_ t)).
    split; [exact He|]. split_and!; [done..|intros _; split_and!; try done].
    rewrite <- overdue_part. apply due_keys, Hwf.
  - eexists _, _, _, _, []. split; [exact He|]. by split_and!.
Qed.

(** ** Runs of the table *)

Inductive table_step : DiscoveredParticipantTable -> DiscoveredParticipantTable -> Prop :=
  | step_upsert t announcement now_ns :
      announcement_ok announcement now_ns ->
      table_step t (upsert t announcement now_ns).2
  | step_expire t now_ns expired expired_capacity e t' out n :
      (forall m, expired = Some m -> expired_capacity <= zlen m < 2 ^ 64) ->
      expire t now_ns expired expired_capacity = Some (e, t', out, n) ->
      table_step t t'.

(** Every member is filed under its own prefix, which is not the local one, and
    holds a lease that started no later than the clock. *)
Record leases_ok (local : GuidPrefix) (M : Membership) : Prop := {
  lo_clock : 0 <= clock M;
  lo_local : members M !! local = None;
  lo_members : map_Forall (fun guid e => guid_prefix (data e) = guid /\
    0 <= last_seen_ns e <= clock M /\ last_seen_ns e < expires_at_ns e < 2 ^ 64) (members M);
}.

Lemma leases_later local M c :
  leases_ok local M -> clock M <= c -> leases_ok local {| members := members M; clock := c |}.
Proof.
  intros [H1 H2 H3] Hc. split; cbn; [lia|done|].
  eapply map_Forall_impl; [exact H3|]. cbn. intros. lia || naive_solver lia.
Qed.

Lemma leases_join local M c guid e :
  leases_ok local M -> clock M <= c -> guid <> local -> guid_prefix (data e) = guid ->
  last_seen_ns e = c -> c < expires_at_ns e < 2 ^ 64 ->
  leases_ok local {| members := <[guid := e]> (members M); clock := c |}.
Proof.
  intros HM Hc Hl Hg Hs Hx. pose proof (lo_clock _ _ HM).
  apply (leases_later _ _ c) in HM as [H1 H2 H3]; [|done].
  split; cbn in *; [done|by rewrite lookup_insert_ne|].
  apply map_Forall_insert_2; [|done]. split; [done|lia].
Qed.

Lemma spec_upsert_leases local M a now :
  leases_ok local M -> announcement_ok a now ->
  leases_ok local (spec_upsert local M a now).2.
Proof.
  intros HM [Hnow Hlease]. unfold spec_upsert.
  repeat (case_decide; [done|]).
  destruct (members M !! guid_prefix (participant a)) as [e|] eqn:He.
  - case_decide; [done|]. pose proof (lo_members _ _ HM _ _ He) as (Hg & _).
    unfold expiry in *. apply leases_join; unfold renewed; try done; try lia;
      destruct (entry_sequence e <? sequence_number a); cbn; unfold expiry; try done; lia.
  - case_decide; [|done]. apply leases_join; unfold expiry in *; cbn; unfold expiry; done || lia.
Qed.

Lemma unexpired_leases local M now :
  leases_ok local M -> clock M <= now -> leases_ok local (unexpired now M).
Proof.
  intros HM Hc. apply (leases_later _ _ now) in HM as [H1 H2 H3]; [|done].
  split; cbn in *; [done| |].
  - apply map_lookup_filter_None_2. by left.
  - intros g e [He _]%map_lookup_filter_Some. by apply H3.
Qed.

Definition run_ok (local : GuidPrefix) (t : DiscoveredParticipantTable) : Prop :=
  table_wf t /\ local_guid_prefix_ t = local /\ leases_ok local (membership t).

Lemma step_run_ok local t t' : table_step t t' -> run_ok local t -> run_ok local t'.
Proof.
  intros Hstep (Hwf & Hl & HM).
  destruct Hstep as [t a now Ha|t now expired cap e t' out n Hcap He].
  - pose proof (upsert_refines t a now Hwf Ha) as Hr.
    pose proof (spec_upsert_leases local (membership t) a now HM Ha) as Hm.
    destruct (upsert t a now) as [r t']. destruct Hr as (H1 & H2 & H3 & _).
    subst local. rewrite H3 in Hm. by split_and!.
  - rewrite expire_cases in He by done. destruct (decide _) as [Hn|Hn];
      injection He as <- <- <- <-; [|done].
    destruct (purged_spec t now Hwf) as [Hwf' Hmem].
    split; [done|]. split; [done|]. rewrite Hmem. apply unexpired_leases; [done|].
    revert Hn. unfold spec_expire_error. case_decide; [done|]. intros _. lia.
Qed.

Lemma rtc_run_ok local t t' : rtc table_step t t' -> run_ok local t -> run_ok local t'.
Proof. induction 1 as [|t t1 t2 Hs _ IH]; intros H; [done|]. by eapply IH, step_run_ok. Qed.

Lemma new_run_ok local : run_ok local (DiscoveredParticipantTable_new local).
Proof.
  split; [apply new_wf|]. split; [done|].
  assert (members (membership (DiscoveredParticipantTable_new local)) = ∅) as He.
  { apply map_size_empty_iff.
    pose proof (table_ok_size _ _ _ (new_wf local)) as [H _].
    cbn [size_ DiscoveredParticipantTable_new] in H. unfold membership. cbn [members]. lia. }
  split; rewrite ?He; [done|apply lookup_empty|apply map_Forall_empty].
Qed.

(** C26: whatever announcements arrive and whenever leases are expired, the
    participant table never lists the local participant, holds at most [Capacity]
    participants and counts them exactly, files each under its own prefix, and
    every lease it holds began no later than the table's clock and ends after it
    began, within 64 bits. *)
Theorem participant_table_invariant local_guid_prefix t :
  rtc table_step (DiscoveredParticipantTable_new local_guid_prefix) t ->
  find t local_guid_prefix = None /\
  size_ t = Z.of_nat (size (members (membership t))) /\ size_ t <= Z.of_nat Capacity /\
  forall guid e, find t guid = Some e ->
    guid_prefix (data e) = guid /\ 0 <= last_seen_ns e <= last_time_ns_ t /\
    last_seen_ns e < expires_at_ns e < 2 ^ 64.
Proof.
  intros Hrun. pose proof (rtc_run_ok _ _ _ Hrun (new_run_ok local_guid_prefix))
    as (Hwf & Hl & HM).
  pose proof (table_ok_size _ _ _ Hwf) as [Hs1 Hs2].
  split_and!; [rewrite find_members; apply HM|done|lia|].
  intros guid e. rewrite find_members. apply HM.
Qed.
End ParticipantTable.

(** ** A concrete table *)

Definition demo_view (first : Z) : SpdpMessageView :=
  {| participant := set_guid_prefix demo_participant (first :: replicate 11 0);
     sequence_number := 4; submessage_byte_order := little_endian;
     parameter_byte_order := little_endian |}.

Definition demo_local : GuidPrefix := 9 :: replicate 11 0.

Definition demo_table : DiscoveredParticipantTable :=
  (upsert (DiscoveredParticipantTable_new 2 demo_local) (demo_view 1) 1000).2.

Lemma demo_view_ok first now : 0 <= now < 2 ^ 64 -> announcement_ok (demo_view first) now.
Proof. intros. split; cbn; lia. Qed.

Lemma demo_table_wf : table_wf 2 demo_table.
Proof.
  pose proof (upsert_refines 2 ltac:(lia) (DiscoveredParticipantTable_new 2 demo_local)
    (demo_view 1) 1000 (new_wf 2 demo_local) (demo_view_ok 1 1000 ltac:(lia))) as Hr.
  unfold demo_table. destruct (upsert _ _ _) as [r t']. apply Hr.
Qed.

Lemma participant_upsert_refines_witness :
  let '(r, t') := upsert demo_table (demo_view 2) 5000 in
  error r = spdp_none /\ update r = added /\ size_ t' = 2 /\
  spec_upsert 2 demo_local (membership demo_table) (demo_view 2) 5000 =
    (error r, update r, membership t').
Proof.
  pose proof (participant_upsert_refines 2 ltac:(lia) demo_table (demo_view 2) 5000
    demo_table_wf (demo_view_ok 2 5000 ltac:(lia))) as Hr.
  assert ((fun x => (error x.1, update x.1, size_ x.2)) (upsert demo_table (demo_view 2) 5000) =
    (spdp_none, added, 2)) as Hv by (vm_compute; reflexivity).
  destruct (upsert demo_table (demo_view 2) 5000) as [r t'].
  destruct Hr as (_ & _ & Hspec & _). injection Hv as H1 H2 H3.
  exact (conj H1 (conj H2 (conj H3 Hspec))).
Defined.

Lemma participant_expire_refines_witness :
  exists t' out n names,
    expire demo_table 20000001001 (Some [[]; []]) 2 = Some (spdp_none, t', out, n) /\
    membership t' = unexpired 20000001001 (membership demo_table) /\
    out = reported names (Some [[]; []]) /\ n = zlen names.
Proof.
  destruct (participant_expire_refines 2 ltac:(lia) demo_table 20000001001 (Some [[]; []]) 2
    demo_table_wf) as (e & t' & out & n & names & He & H1 & H2 & H3);
    [intros m [= <-]; cbn; lia|].
  assert ((fun x => x.1.1.1) <$> expire demo_table 20000001001 (Some [[]; []]) 2 =
    Some spdp_none) as Hv by (vm_compute; reflexivity).
  rewrite He in Hv. injection Hv as ->.
  destruct (H3 eq_refl) as (_ & _ & Hm & _ & Hn & Ho).
  exists t', out, n, names. split_and!; done.
Defined.

Lemma participant_table_invariant_witness :
  find demo_table demo_local = None /\ size_ demo_table <= 2 /\
  exists e, find demo_table (1 :: replicate 11 0) = Some e /\ last_seen_ns e = 1000.
Proof.
  destruct (participant_table_invariant 2 ltac:(lia) demo_local demo_table) as (H1 & _ & H3 & _).
  { apply rtc_once. apply step_upsert. apply demo_view_ok. lia. }
  split_and!; [exact H1|exact H3|]. eexists. split; [reflexivity|vm_compute; reflexivity].
Defined.


End Participants.
