(* ===== verification/Sedp.v ===== *)
(** * Endpoint discovery messages (SEDP)

    [include/openrtdds/rtps/sedp.hpp] and [src/rtps/sedp.cpp]: the announcement
    builder and parser for writers and readers, and the matching of a local with
    a remote endpoint. *)
From S2P Require Import Prelude.
From S2P Require Import Bytes.
From S2P Require Import Types.
From S2P Require Import Locators.
From S2P Require Import MessageRouter.
From S2P Require Import DataMessage.
From S2P Require Import ParameterList.
From S2P Require Import ParameterFacts.

Module Sedp.
Import Types Locators Param ParamFacts.

Definition sedp_max_topic_name : Z := 255.
Definition sedp_max_type_name : Z := 255.
Definition sedp_max_locators : Z := 4.

Inductive EndpointKind : Set := writer | reader.

#[global] Instance EndpointKind_eq_dec : EqDecision EndpointKind.
Proof. solve_decision. Defined.

(** The two QoS enumerations have the underlying type [std::int32_t] and are
    created from received integers: a value is any such integer. *)
Definition ReliabilityKind : Set := Z.
Definition best_effort : ReliabilityKind := 1.
Definition reliable : ReliabilityKind := 2.

Definition DurabilityKind : Set := Z.
Definition volatile_durability : DurabilityKind := 0.
Definition transient_local : DurabilityKind := 1.

Inductive SedpError : Set :=
  | sedp_none
  | invalid_argument
  | invalid_configuration
  | buffer_overflow
  | rtps_failure
  | unsupported_representation
  | malformed_parameter
  | unknown_required_parameter
  | missing_required_parameter
  | duplicate_parameter
  | locator_bound_exceeded
  | invalid_locator
  | invalid_duration
  | invalid_identity
  | participant_mismatch
  | table_full
  | stale_announcement
  | endpoint_not_found
  | action_capacity_exceeded.

#[global] Instance SedpError_eq_dec : EqDecision SedpError.
Proof. solve_decision. Defined.

Definition sedp_error_string (error : SedpError) : string :=
  match error with
  | sedp_none => "none"
  | invalid_argument => "invalid argument"
  | invalid_configuration => "invalid SEDP configuration"
  | buffer_overflow => "SEDP output buffer overflow"
  | rtps_failure => "RTPS DATA operation failed"
  | unsupported_representation => "unsupported discovery representation"
  | malformed_parameter => "malformed SEDP parameter"
  | unknown_required_parameter => "unknown must-understand parameter"
  | missing_required_parameter => "missing required SEDP parameter"
  | duplicate_parameter => "duplicate singleton SEDP parameter"
  | locator_bound_exceeded => "SEDP locator bound exceeded"
  | invalid_locator => "invalid UDPv4 locator"
  | invalid_duration => "invalid reliability duration"
  | invalid_identity => "invalid SEDP endpoint identity"
  | participant_mismatch => "endpoint participant mismatch"
  | table_full => "discovered endpoint table full"
  | stale_announcement => "stale endpoint announcement"
  | endpoint_not_found => "endpoint not found"
  | action_capacity_exceeded => "endpoint action capacity exceeded"
  end.

Record SedpResult : Set := { error : SedpError; rtps_error : Data.RtpsError; bytes : Z }.

Definition pid_topic_name : Z := 5.
Definition pid_type_name : Z := 7.
Definition pid_reliability : Z := 26.
Definition pid_durability : Z := 29.
Definition pid_unicast_locator : Z := 47.
Definition pid_multicast_locator : Z := 48.
Definition pid_expects_inline_qos : Z := 67.
Definition pid_participant_guid : Z := 80.
Definition pid_endpoint_guid : Z := 90.
Definition payload_capacity : Z := 1280.

Definition entity_id_unknown : EntityId := [0; 0; 0; 0].
Definition entity_id_participant : EntityId := [0; 0; 1; 193].
Definition entity_id_publications_writer : EntityId := [0; 0; 3; 194].
Definition entity_id_publications_reader : EntityId := [0; 0; 3; 199].
Definition entity_id_subscriptions_writer : EntityId := [0; 0; 4; 194].
Definition entity_id_subscriptions_reader : EntityId := [0; 0; 4; 199].

Record SedpEndpointData : Set := {
  protocol_version : ProtocolVersion;
  vendor_id : VendorId;
  participant_guid_prefix : GuidPrefix;
  endpoint_id : EntityId;
  kind : EndpointKind;
  topic_name : list Z;
  topic_name_size : Z;
  type_name : list Z;
  type_name_size : Z;
  unicast_locators : BoundedLocatorList;
  multicast_locators : BoundedLocatorList;
  reliability : ReliabilityKind;
  durability : DurabilityKind;
  max_blocking_time_ns : Z;
  expects_inline_qos : bool;
}.

Definition SedpEndpointData_default : SedpEndpointData :=
  {| protocol_version := ProtocolVersion_default; vendor_id := VendorId_default;
     participant_guid_prefix := GuidPrefix_default; endpoint_id := EntityId_default;
     kind := writer; topic_name := replicate 256 0; topic_name_size := 0;
     type_name := replicate 256 0; type_name_size := 0;
     unicast_locators := BoundedLocatorList_default sedp_max_locators;
     multicast_locators := BoundedLocatorList_default sedp_max_locators;
     reliability := best_effort; durability := volatile_durability;
     max_blocking_time_ns := 100000000; expects_inline_qos := false |}.

Definition set_endpoint_id (e : SedpEndpointData) (x : EntityId) : SedpEndpointData :=
  {| protocol_version := protocol_version e; vendor_id := vendor_id e;
     participant_guid_prefix := participant_guid_prefix e; endpoint_id := x; kind :=
     kind e; topic_name := topic_name e; topic_name_size := topic_name_size e; type_name
     := type_name e; type_name_size := type_name_size e; unicast_locators :=
     unicast_locators e; multicast_locators := multicast_locators e; reliability :=
     reliability e; durability := durability e; max_blocking_time_ns :=
     max_blocking_time_ns e; expects_inline_qos := expects_inline_qos e |}.

Definition set_topic_name (e : SedpEndpointData) (x : list Z) (n : Z) : SedpEndpointData :=
  {| protocol_version := protocol_version e; vendor_id := vendor_id e;
     participant_guid_prefix := participant_guid_prefix e; endpoint_id := endpoint_id e;
     kind := kind e; topic_name := x; topic_name_size := n; type_name := type_name e;
     type_name_size := type_name_size e; unicast_locators := unicast_locators e;
     multicast_locators := multicast_locators e; reliability := reliability e;
     durability := durability e; max_blocking_time_ns := max_blocking_time_ns e;
     expects_inline_qos := expects_inline_qos e |}.

Definition set_type_name (e : SedpEndpointData) (x : list Z) (n : Z) : SedpEndpointData :=
  {| protocol_version := protocol_version e; vendor_id := vendor_id e;
     participant_guid_prefix := participant_guid_prefix e; endpoint_id := endpoint_id e;
     kind := kind e; topic_name := topic_name e; topic_name_size := topic_name_size e;
     type_name := x; type_name_size := n; unicast_locators := unicast_locators e;
     multicast_locators := multicast_locators e; reliability := reliability e;
     durability := durability e; max_blocking_time_ns := max_blocking_time_ns e;
     expects_inline_qos := expects_inline_qos e |}.

Definition set_reliability (e : SedpEndpointData) (x ns : Z) : SedpEndpointData :=
  {| protocol_version := protocol_version e; vendor_id := vendor_id e;
     participant_guid_prefix := participant_guid_prefix e; endpoint_id := endpoint_id e;
     kind := kind e; topic_name := topic_name e; topic_name_size := topic_name_size e;
     type_name := type_name e; type_name_size := type_name_size e; unicast_locators :=
     unicast_locators e; multicast_locators := multicast_locators e; reliability := x;
     durability := durability e; max_blocking_time_ns := ns; expects_inline_qos :=
     expects_inline_qos e |}.

Definition set_durability (e : SedpEndpointData) (x : Z) : SedpEndpointData :=
  {| protocol_version := protocol_version e; vendor_id := vendor_id e;
     participant_guid_prefix := participant_guid_prefix e; endpoint_id := endpoint_id e;
     kind := kind e; topic_name := topic_name e; topic_name_size := topic_name_size e;
     type_name := type_name e; type_name_size := type_name_size e; unicast_locators :=
     unicast_locators e; multicast_locators := multicast_locators e; reliability :=
     reliability e; durability := x; max_blocking_time_ns := max_blocking_time_ns e;
     expects_inline_qos := expects_inline_qos e |}.

Definition set_expects_inline_qos (e : SedpEndpointData) (x : bool) : SedpEndpointData :=
  {| protocol_version := protocol_version e; vendor_id := vendor_id e;
     participant_guid_prefix := participant_guid_prefix e; endpoint_id := endpoint_id e;
     kind := kind e; topic_name := topic_name e; topic_name_size := topic_name_size e;
     type_name := type_name e; type_name_size := type_name_size e; unicast_locators :=
     unicast_locators e; multicast_locators := multicast_locators e; reliability :=
     reliability e; durability := durability e; max_blocking_time_ns :=
     max_blocking_time_ns e; expects_inline_qos := x |}.

Definition set_unicast_locators (e : SedpEndpointData) (x : BoundedLocatorList) : SedpEndpointData :=
  {| protocol_version := protocol_version e; vendor_id := vendor_id e;
     participant_guid_prefix := participant_guid_prefix e; endpoint_id := endpoint_id e;
     kind := kind e; topic_name := topic_name e; topic_name_size := topic_name_size e;
     type_name := type_name e; type_name_size := type_name_size e; unicast_locators :=
     x; multicast_locators := multicast_locators e; reliability := reliability e;
     durability := durability e; max_blocking_time_ns := max_blocking_time_ns e;
     expects_inline_qos := expects_inline_qos e |}.

Definition set_multicast_locators (e : SedpEndpointData) (x : BoundedLocatorList) : SedpEndpointData :=
  {| protocol_version := protocol_version e; vendor_id := vendor_id e;
     participant_guid_prefix := participant_guid_prefix e; endpoint_id := endpoint_id e;
     kind := kind e; topic_name := topic_name e; topic_name_size := topic_name_size e;
     type_name := type_name e; type_name_size := type_name_size e; unicast_locators :=
     unicast_locators e; multicast_locators := x; reliability := reliability e;
     durability := durability e; max_blocking_time_ns := max_blocking_time_ns e;
     expects_inline_qos := expects_inline_qos e |}.


Record SedpAnnouncementConfig : Set := {
  endpoint : SedpEndpointData;
  reader_id : EntityId;
  sequence_number : Z;
  submessage_byte_order : ByteOrder;
  parameter_byte_order : ByteOrder;
}.

Record SedpMessageView : Set := {
  view_endpoint : SedpEndpointData;
  view_sequence_number : Z;
  view_submessage_byte_order : ByteOrder;
  view_parameter_byte_order : ByteOrder;
}.

Record SedpMessageBuilder : Set := {
  buffer_ : option (list Z);
  capacity_ : Z;
  size_ : Z;
  error_ : SedpError;
  rtps_error_ : Data.RtpsError;
}.

Definition SedpMessageBuilder_new (buffer : option (list Z)) (capacity : Z)
    : SedpMessageBuilder :=
  {| buffer_ := buffer; capacity_ := capacity; size_ := 0;
     error_ := if Data.null_with_size buffer capacity then invalid_argument else sedp_none;
     rtps_error_ := Data.rtps_none |}.

(** ** Validation *)

(** An element of a [std::array] of four octets. *)
Definition octet (id : EntityId) (i : nat) : Z := default 0 (id !! i).

Definition valid_endpoint_id (id : EntityId) (k : EndpointKind) : bool :=
  let entity_kind := octet id 3 in
  if Z.lor (Z.lor (octet id 0) (octet id 1)) (octet id 2) =? 0 then false
  else match k with
       | writer => (entity_kind =? 2) || (entity_kind =? 3)
       | reader => (entity_kind =? 4) || (entity_kind =? 7)
       end.

Definition valid_reliability (k : ReliabilityKind) : bool :=
  (k =? best_effort) || (k =? reliable).

Definition valid_durability (k : DurabilityKind) : bool :=
  (k =? volatile_durability) || (k =? transient_local).

(** The capacity of the array is its length. *)
Definition valid_text (text : list Z) (size : Z) : bool :=
  if (size =? 0) || (zlen text <=? size) then false
  else forallb (fun c => negb (c =? 0)) (take (Z.to_nat size) text).

(** ** The builder *)

Definition invalid_endpoint (e : SedpEndpointData) : bool :=
  negb (major (protocol_version e) =? 2) || (minor (protocol_version e) =? 0) ||
  (5 <? minor (protocol_version e)) || negb (nonzero_guid (participant_guid_prefix e)) ||
  negb (valid_endpoint_id (endpoint_id e) (kind e)) ||
  negb (valid_text (topic_name e) (topic_name_size e)) ||
  negb (valid_text (type_name e) (type_name_size e)) ||
  negb (valid_reliability (reliability e)) || negb (valid_durability (durability e)).

Definition builtin_reader (k : EndpointKind) : EntityId :=
  match k with
  | writer => entity_id_publications_reader
  | reader => entity_id_subscriptions_reader
  end.

Definition builtin_writer (k : EndpointKind) : EntityId :=
  match k with
  | writer => entity_id_publications_writer
  | reader => entity_id_subscriptions_writer
  end.

Definition invalid_announcement (config : SedpAnnouncementConfig) : bool :=
  let e := endpoint config in
  invalid_endpoint e ||
  (entity_neqb (reader_id config) entity_id_unknown &&
   entity_neqb (reader_id config) (builtin_reader (kind e))) ||
  (add64 (size (unicast_locators e)) (size (multicast_locators e)) =? 0).

(** The identity and the names, in source order; a [complete] that became false
    ends the construction with [buffer_overflow]. *)
Definition append_names (e : SedpEndpointData) (order : ByteOrder)
    : outcome SedpError ParameterWriter :=
  w ← ParameterWriter_new (replicate (Z.to_nat payload_capacity) 0) payload_capacity order;
  w ← append_guid buffer_overflow w pid_endpoint_guid (participant_guid_prefix e)
        (endpoint_id e);
  w ← append_guid buffer_overflow w pid_participant_guid (participant_guid_prefix e)
        entity_id_participant;
  w ← append_string buffer_overflow w pid_topic_name (topic_name e) (topic_name_size e) order;
  append_string buffer_overflow w pid_type_name (type_name e) (type_name_size e) order.

(** The quality of service and the locators. *)
Definition build_payload (e : SedpEndpointData) (order : ByteOrder)
    : outcome SedpError ParameterWriter :=
  w ← append_names e order;
  w ← append_value buffer_overflow w pid_reliability 12 (fun m value =>
        m ← write_u32 m value (bits_of_i32 (reliability e)) order;
        append_duration buffer_overflow m (value + 4) (max_blocking_time_ns e) order);
  w ← append_value buffer_overflow w pid_durability 4 (fun m value =>
        write_u32 m value (bits_of_i32 (durability e)) order);
  w ← append_value buffer_overflow w pid_expects_inline_qos 1 (fun m value =>
        access (mstore m value (if expects_inline_qos e then 1 else 0)));
  w ← append_list buffer_overflow w pid_unicast_locator (unicast_locators e) order;
  w ← append_list buffer_overflow w pid_multicast_locator (multicast_locators e) order;
  finish buffer_overflow w.

Definition data_config (config : SedpAnnouncementConfig) : Data.DataMessageConfig :=
  let e := endpoint config in
  {| Data.cfg_version := protocol_version e; Data.cfg_vendor_id := vendor_id e;
     Data.cfg_guid_prefix := participant_guid_prefix e;
     Data.cfg_reader_id := reader_id config;
     Data.cfg_writer_id := builtin_writer (kind e);
     Data.cfg_sequence_number := sequence_number config;
     Data.cfg_byte_order := submessage_byte_order config |}.

(** [SedpMessageBuilder::build]: [Done] is [true]. *)
Definition build (b : SedpMessageBuilder) (config : SedpAnnouncementConfig)
    : outcome SedpMessageBuilder SedpMessageBuilder :=
  let failed e :=
    {| buffer_ := buffer_ b; capacity_ := capacity_ b; size_ := 0; error_ := e;
       rtps_error_ := Data.rtps_none |} in
  let e := endpoint config in
  stop_if (Data.null_with_size (buffer_ b) (capacity_ b) ||
           negb (supported_byte_order (submessage_byte_order config)) ||
           negb (supported_byte_order (parameter_byte_order config)))
    (failed invalid_argument);;
  stop_if (invalid_announcement config) (failed invalid_configuration);;
  valid_u ← valid_locators sedp_max_locators (unicast_locators e);
  valid_m ← valid_locators sedp_max_locators (multicast_locators e);
  stop_if (negb valid_u || negb valid_m) (failed invalid_locator);;
  parameters ← map_stop failed (build_payload e (parameter_byte_order config));
  built ← map_stop (fun d : Data.DataMessageBuilder =>
      {| buffer_ := Data.buffer_ d; capacity_ := capacity_ b; size_ := 0;
         error_ := rtps_failure; rtps_error_ := Data.error_ d |})
    (Data.build (Data.DataMessageBuilder_new (buffer_ b) (capacity_ b))
       (data_config config) (Some (pw_buffer parameters)) (pw_size parameters));
  Done {| buffer_ := Data.buffer_ built; capacity_ := capacity_ b;
          size_ := Data.size_ built; error_ := sedp_none;
          rtps_error_ := Data.rtps_none |}.

(** ** The parser *)

(** The parsed members, the singleton parameters seen ([seen_endpoint] of the
    source is the membership of [pid_endpoint_guid], and so on), and
    [seen_locator]. *)
Record parse_state : Set := {
  candidate : SedpEndpointData;
  seen : list Z;
  seen_locator : bool;
}.

Definition seen_before (id : Z) (s : parse_state) : bool := bool_decide (id ∈ seen s).

Definition mark (id : Z) (s : parse_state) (e : SedpEndpointData) : parse_state :=
  {| candidate := e; seen := id :: seen s; seen_locator := seen_locator s |}.

Definition mark_locator (s : parse_state) (e : SedpEndpointData) : parse_state :=
  {| candidate := e; seen := seen s; seen_locator := true |}.

Definition parse_locator (value : list Z) (order : ByteOrder)
    : BoundedLocatorList -> outcome SedpError BoundedLocatorList :=
  append_parsed_locator malformed_parameter invalid_locator locator_bound_exceeded
    sedp_max_locators value order.

(** [parse_string]: the array and its size; the capacity is its length. *)
Definition parse_string (value : list Z) (order : ByteOrder) (output : list Z)
    : outcome SedpError (list Z * Z) :=
  stop_if (zlen value <? 8) malformed_parameter;;
  encoded_size ← read_u32 value 0 order;
  stop_if ((encoded_size <=? 1) || (zlen value - 4 <? encoded_size) ||
           (zlen output <? encoded_size)) malformed_parameter;;
  last ← access (mload value (4 + encoded_size - 1));
  stop_if (negb (last =? 0)) malformed_parameter;;
  chars ← access (mslice value 4 (encoded_size - 1));
  stop_if (existsb (fun c => c =? 0) chars) malformed_parameter;;
  output ← access (mcopy output 0 chars);
  Done (output, encoded_size - 1).

(** The [switch] over the parameter id. *)
Definition handle (expected_participant : GuidPrefix) (order : ByteOrder) (id : Z)
    (value : list Z) (s : parse_state) : outcome SedpError parse_state :=
  let e := candidate s in
  let once := stop_if (seen_before id s) duplicate_parameter in
  let sized n := stop_if (negb (zlen value =? n)) malformed_parameter in
  if id =? 0 then Done s
  else if id =? pid_endpoint_guid then
    once;; sized 16;;
    prefix ← access (mslice value 0 12);
    stop_if (negb (bool_decide (prefix = expected_participant))) participant_mismatch;;
    entity ← access (mslice value 12 4);
    Done (mark id s (set_endpoint_id e entity))
  else if id =? pid_participant_guid then
    once;; sized 16;;
    prefix ← access (mslice value 0 12);
    entity ← access (mslice value 12 4);
    stop_if (negb (bool_decide (prefix = expected_participant)) ||
             negb (bool_decide (entity = entity_id_participant))) participant_mismatch;;
    Done (mark id s e)
  else if id =? pid_topic_name then
    once;;
    '(name, n) ← parse_string value order (topic_name e);
    Done (mark id s (set_topic_name e name n))
  else if id =? pid_type_name then
    once;;
    '(name, n) ← parse_string value order (type_name e);
    Done (mark id s (set_type_name e name n))
  else if id =? pid_reliability then
    once;; sized 12;;
    bits ← read_u32 value 0 order;
    stop_if (negb (valid_reliability (i32_of_bits bits))) malformed_parameter;;
    ns ← parse_duration invalid_duration value 4 order;
    Done (mark id s (set_reliability e (i32_of_bits bits) ns))
  else if id =? pid_durability then
    once;; sized 4;;
    bits ← read_u32 value 0 order;
    stop_if (negb (valid_durability (i32_of_bits bits))) malformed_parameter;;
    Done (mark id s (set_durability e (i32_of_bits bits)))
  else if id =? pid_expects_inline_qos then
    once;; sized 4;;
    v0 ← access (mload value 0);
    stop_if (1 <? v0) malformed_parameter;;
    Done (mark id s (set_expects_inline_qos e (negb (v0 =? 0))))
  else if id =? pid_unicast_locator then
    l ← parse_locator value order (unicast_locators e);
    Done (mark_locator s (set_unicast_locators e l))
  else if id =? pid_multicast_locator then
    l ← parse_locator value order (multicast_locators e);
    Done (mark_locator s (set_multicast_locators e l))
  else
    stop_if (negb (Z.land id must_understand_mask =? 0)) unknown_required_parameter;;
    Done s.

(** The checks behind the loop. *)
Definition accept (seen_sentinel : bool) (s : parse_state)
    : outcome SedpError SedpEndpointData :=
  let e := candidate s in
  stop_if (negb seen_sentinel) malformed_parameter;;
  stop_if (negb (seen_before pid_endpoint_guid s) || negb (seen_before pid_topic_name s) ||
           negb (seen_before pid_type_name s) ||
           (seen_locator s &&
            (add64 (size (unicast_locators e)) (size (multicast_locators e)) =? 0)))
    missing_required_parameter;;
  stop_if (negb (valid_endpoint_id (endpoint_id e) (kind e))) invalid_identity;;
  Done e.

(** Which kind of endpoint the builtin writer announces. *)
Definition announced_kind (writer_id : EntityId) : option EndpointKind :=
  if entity_eqb writer_id entity_id_publications_writer then Some writer
  else if entity_eqb writer_id entity_id_subscriptions_writer then Some reader
  else None.

(** The members of the candidate that come from the DATA message. *)
Definition initial_endpoint (data : Data.DataMessageView) (expected_participant : GuidPrefix)
    (k : EndpointKind) : SedpEndpointData :=
  {| protocol_version := Data.version data; vendor_id := Data.vendor_id data;
     participant_guid_prefix := expected_participant; endpoint_id := EntityId_default;
     kind := k; topic_name := replicate 256 0; topic_name_size := 0;
     type_name := replicate 256 0; type_name_size := 0;
     unicast_locators := BoundedLocatorList_default sedp_max_locators;
     multicast_locators := BoundedLocatorList_default sedp_max_locators;
     reliability := best_effort; durability := volatile_durability;
     max_blocking_time_ns := 100000000; expects_inline_qos := false |}.

(** [parse_sedp_message] behind the call of [parse_data_message]. *)
Definition parse_announcement (data : Data.DataMessageView)
    (expected_participant : GuidPrefix) : outcome SedpError SedpMessageView :=
  k ← match announced_kind (Data.writer_id data) with
      | Some k => Done k
      | None => Stop invalid_identity
      end;
  stop_if (entity_neqb (Data.reader_id data) entity_id_unknown &&
           entity_neqb (Data.reader_id data) (builtin_reader k)) invalid_identity;;
  stop_if (negb (bool_decide (Data.guid_prefix data = expected_participant)))
    participant_mismatch;;
  stop_if (Data.payload_size data <? 8) unsupported_representation;;
  payload ← access (Data.serialized_payload data);
  p0 ← access (mload payload 0);
  p1 ← access (mload payload 1);
  stop_if (negb (p0 =? 0) || (negb (p1 =? 2) && negb (p1 =? 3)))
    unsupported_representation;;
  let order := if p1 =? 3 then little_endian else big_endian in
  '(seen_sentinel, s) ← parameter_loop malformed_parameter (handle expected_participant order)
    (S (Z.to_nat (Data.payload_size data))) payload (Data.payload_size data) order 4
    {| candidate := initial_endpoint data expected_participant k; seen := [];
       seen_locator := false |};
  e ← accept seen_sentinel s;
  Done {| view_endpoint := e; view_sequence_number := Data.sequence_number data;
          view_submessage_byte_order := Data.submessage_byte_order data;
          view_parameter_byte_order := order |}.

Definition parse_body (message : option (list Z)) (message_size : Z)
    (expected_participant : GuidPrefix)
    : outcome (SedpError * Data.RtpsError) SedpMessageView :=
  data ← checked Data.rtps_none (pair rtps_failure)
    (Data.parse_data_message message message_size Data.DataMessageView_default);
  map_stop (fun e => (e, Data.rtps_none)) (parse_announcement data expected_participant).

(** The result and the caller's view afterwards. *)
Definition parse_sedp_message (message : option (list Z)) (message_size : Z)
    (expected_participant : GuidPrefix) (view : SedpMessageView)
    : option (SedpResult * SedpMessageView) :=
  match parse_body message message_size expected_participant with
  | Fault => None
  | Stop (e, r) => Some ({| error := e; rtps_error := r; bytes := 0 |}, view)
  | Done v => Some ({| error := sedp_none; rtps_error := Data.rtps_none;
                       bytes := message_size |}, v)
  end.

(** ** Matching *)

Record LocalEndpointDescriptor : Set := {
  local_kind : EndpointKind;
  local_topic_name : option (list Z);
  local_topic_name_size : Z;
  local_type_name : option (list Z);
  local_type_name_size : Z;
  local_reliability : ReliabilityKind;
  local_durability : DurabilityKind;
}.

Inductive MatchStatus : Set :=
  | matched
  | invalid_local_endpoint
  | same_endpoint_kind
  | topic_mismatch
  | type_mismatch
  | reliability_incompatible
  | durability_incompatible.

#[global] Instance MatchStatus_eq_dec : EqDecision MatchStatus.
Proof. solve_decision. Defined.

Definition match_status_string (status : MatchStatus) : string :=
  match status with
  | matched => "matched"
  | invalid_local_endpoint => "invalid local endpoint"
  | same_endpoint_kind => "same endpoint kind"
  | topic_mismatch => "topic mismatch"
  | type_mismatch => "type mismatch"
  | reliability_incompatible => "reliability incompatible"
  | durability_incompatible => "durability incompatible"
  end.

(** [same_text]; the comparison reads [left_size] bytes behind either pointer. *)
Definition same_text {E} (left_ : list Z) (left_size : Z) (right_ : list Z) (right_size : Z)
    : outcome E bool :=
  if negb (left_size =? right_size) then Done false
  else if left_size =? 0 then Done true
  else
    l ← access (mslice left_ 0 left_size);
    r ← access (mslice right_ 0 left_size);
    Done (bool_decide (l = r)).

Definition evaluate_endpoint_match (local : LocalEndpointDescriptor)
    (remote : SedpEndpointData) : outcome MatchStatus MatchStatus :=
  let no_name (p : option (list Z)) := bool_decide (p = None) in
  stop_if (no_name (local_topic_name local) || no_name (local_type_name local) ||
           (local_topic_name_size local =? 0) ||
           (sedp_max_topic_name <? local_topic_name_size local) ||
           (local_type_name_size local =? 0) ||
           (sedp_max_type_name <? local_type_name_size local) ||
           negb (valid_reliability (local_reliability local)) ||
           negb (valid_durability (local_durability local))) invalid_local_endpoint;;
  stop_if (bool_decide (local_kind local = kind remote)) same_endpoint_kind;;
  topic ← access (local_topic_name local);
  same_topic ← same_text topic (local_topic_name_size local)
                 (topic_name remote) (topic_name_size remote);
  stop_if (negb same_topic) topic_mismatch;;
  type_ ← access (local_type_name local);
  same_type ← same_text type_ (local_type_name_size local)
                (type_name remote) (type_name_size remote);
  stop_if (negb same_type) type_mismatch;;
  let is_writer := bool_decide (local_kind local = writer) in
  let is_reader := bool_decide (local_kind local = reader) in
  let offered_reliability :=
    if is_writer then local_reliability local else reliability remote in
  let requested_reliability :=
    if is_reader then local_reliability local else reliability remote in
  stop_if (offered_reliability <? requested_reliability) reliability_incompatible;;
  let offered_durability := if is_writer then local_durability local else durability remote in
  let requested_durability :=
    if is_reader then local_durability local else durability remote in
  stop_if (offered_durability <? requested_durability) durability_incompatible;;
  Done matched.

(** ** The reference announcement *)

Record endpoint_ok (e : SedpEndpointData) : Prop := {
  eo_vendor : length (vendor_id e) = 2%nat;
  eo_guid : length (participant_guid_prefix e) = 12%nat;
  eo_id : length (endpoint_id e) = 4%nat;
  eo_topic : length (topic_name e) = 256%nat;
  eo_topic_size : 0 <= topic_name_size e < 2 ^ 64;
  eo_type : length (type_name e) = 256%nat;
  eo_type_size : 0 <= type_name_size e < 2 ^ 64;
  eo_unicast : list_typed sedp_max_locators (unicast_locators e);
  eo_multicast : list_typed sedp_max_locators (multicast_locators e);
  eo_reliability : - 2 ^ 31 <= reliability e < 2 ^ 31;
  eo_durability : - 2 ^ 31 <= durability e < 2 ^ 31;
  eo_blocking : 0 <= max_blocking_time_ns e < 2 ^ 64;
}.

Definition topic_of (e : SedpEndpointData) : list Z :=
  take (Z.to_nat (topic_name_size e)) (topic_name e).

Definition type_of (e : SedpEndpointData) : list Z :=
  take (Z.to_nat (type_name_size e)) (type_name e).

Definition reliability_bytes (e : SedpEndpointData) (order : ByteOrder) : list Z :=
  encode_uint order 4 (bits_of_i32 (reliability e)) ++
  duration_bytes order (max_blocking_time_ns e).

Definition sedp_params (e : SedpEndpointData) (order : ByteOrder) : list (Z * list Z) :=
  [(pid_endpoint_guid, participant_guid_prefix e ++ endpoint_id e)] ++
  [(pid_participant_guid, participant_guid_prefix e ++ entity_id_participant)] ++
  [(pid_topic_name, string_bytes order (topic_of e))] ++
  [(pid_type_name, string_bytes order (type_of e))] ++
  [(pid_reliability, reliability_bytes e order)] ++
  [(pid_durability, encode_uint order 4 (bits_of_i32 (durability e)))] ++
  [(pid_expects_inline_qos, [if expects_inline_qos e then 1 else 0])] ++
  locator_params pid_unicast_locator order (unicast_locators e) ++
  locator_params pid_multicast_locator order (multicast_locators e).

Definition sedp_payload (e : SedpEndpointData) (order : ByteOrder) : list Z :=
  encode_list order (sedp_params e order).

(** The endpoint has valid locators, at most four per list. *)
Record announceable (e : SedpEndpointData) : Prop := {
  ae_endpoint : invalid_endpoint e = false;
  ae_unicast : list_usable sedp_max_locators (unicast_locators e);
  ae_multicast : list_usable sedp_max_locators (multicast_locators e);
}.

#[local] Opaque encode_uint.

Lemma valid_text_spec text n :
  0 <= n < 2 ^ 64 -> valid_text text n = true ->
  1 <= n < zlen text /\ Forall (fun c => c <> 0) (take (Z.to_nat n) text).
Proof.
  intros Hn. unfold valid_text. destruct (Z.eqb_spec n 0); [done|].
  destruct (Z.leb_spec (zlen text) n); [done|]. cbn [orb]. rewrite forallb_forall.
  intros Hall. split; [lia|]. apply Forall_forall. intros c Hc.
  by apply Z.eqb_neq, negb_true_iff, Hall, list_elem_of_In.
Qed.

Lemma announceable_texts e :
  endpoint_ok e -> announceable e ->
  (1 <= topic_name_size e <= 255 /\ Forall (fun c => c <> 0) (topic_of e)) /\
  (1 <= type_name_size e <= 255 /\ Forall (fun c => c <> 0) (type_of e)).
Proof.
  intros He [Ha _ _]. unfold invalid_endpoint in Ha.
  rewrite !orb_false_iff, !negb_false_iff in Ha.
  destruct Ha as [[[[_ Ht] Hy] _] _].
  apply valid_text_spec in Ht as [Ht Hft]; [|apply He].
  apply valid_text_spec in Hy as [Hy Hfy]; [|apply He].
  rewrite (eo_topic _ He) in Ht. rewrite (eo_type _ He) in Hy. split; (split; [lia|done]).
Qed.

Lemma reliability_fills e order :
  0 <= duration_seconds (max_blocking_time_ns e) <= i32_max ->
  fills (fun m value =>
      m ← write_u32 m value (bits_of_i32 (reliability e)) order;
      append_duration buffer_overflow m (value + 4) (max_blocking_time_ns e) order)
    (reliability_bytes e order).
Proof.
  intros Hs q r Hr. unfold reliability_bytes in *. rewrite length_app, encode_uint_length in Hr.
  unfold write_u32. put. unfold append_duration.
  destruct (Z.ltb_spec i32_max (duration_seconds (max_blocking_time_ns e))); [lia|].
  cbn [stop_if mbind outcome_bind].
  replace (zlen q + 4) with (zlen (q ++ encode_uint order 4 (bits_of_i32 (reliability e))))
    by (rewrite length_app, encode_uint_length; lia).
  rewrite (duration_fills order _ Hs) by (rewrite length_drop; lia).
  by rewrite drop_drop, <- !app_assoc, length_app, encode_uint_length.
Qed.

(** A duration whose seconds need more than 31 bits ends the construction. *)
Lemma reliability_refused e order m value :
  i32_max < duration_seconds (max_blocking_time_ns e) -> 0 <= value -> value + 4 <= zlen m ->
  (m ← write_u32 m value (bits_of_i32 (reliability e)) order;
   append_duration buffer_overflow m (value + 4) (max_blocking_time_ns e) order) =
  Stop buffer_overflow.
Proof.
  intros Hs H1 H2. unfold write_u32, append_duration.
  destruct (Z.ltb_spec i32_max (duration_seconds (max_blocking_time_ns e))); [|lia].
  assert (m = take (Z.to_nat value) m ++ drop (Z.to_nat value) m) as -> by by rewrite take_drop.
  rewrite write_uint32_snoc by (rewrite ?length_take, ?length_drop; lia). done.
Qed.

Lemma reliability_bytes_length e order : zlen (reliability_bytes e order) = 12.
Proof.
  unfold reliability_bytes. rewrite length_app, encode_uint_length.
  pose proof (duration_bytes_length order (max_blocking_time_ns e)). lia.
Qed.

(** The writer after the four leading parameters, which always fit. *)
Lemma build_names_at e order :
  endpoint_ok e -> announceable e ->
  exists w p, append_names e order = Done w /\
    writer_at w order payload_capacity p /\ zlen p <= 578 /\
    p = encapsulation order ++ encode_params order
      ([(pid_endpoint_guid, participant_guid_prefix e ++ endpoint_id e)] ++
       [(pid_participant_guid, participant_guid_prefix e ++ entity_id_participant)] ++
       [(pid_topic_name, string_bytes order (topic_of e))] ++
       [(pid_type_name, string_bytes order (type_of e))]).
Proof.
  intros He Ha. destruct (announceable_texts e He Ha) as [[Ht _] [Hy _]].
  pose proof He as [E1 E2 E3 E4 _ E6 _ _ _ _ _ _].
  unfold append_names.
  destruct (writer_new_at (E:=SedpError) (replicate (Z.to_nat payload_capacity) 0)
    payload_capacity order) as (w0 & -> & Hw0); [by rewrite length_replicate|done|].
  cbn [mbind outcome_bind].
  assert (zlen (encapsulation order) = 4) as Hl0 by done.
  assert (payload_capacity = 1280) as Hc by done.
  put_guid. put_guid.
  match goal with Hw : writer_at ?w _ _ ?q |- _ =>
    destruct (put_string_at buffer_overflow payload_capacity ltac:(done) w order q
      pid_topic_name (topic_name e) (topic_name_size e) Hw) as (w3 & -> & Hw3 & Hl3); [lia..|] end.
  cbn [mbind outcome_bind].
  destruct (put_string_at buffer_overflow payload_capacity ltac:(done) w3 order _
    pid_type_name (type_name e) (type_name_size e) Hw3) as (w4 & Hd4 & Hw4 & Hl4); [lia..|].
  eexists w4, _. split; [done|]. split; [done|]. split; [lia|].
  rewrite !encode_params_app, !encode_params_one, <- !app_assoc. done.
Qed.

Lemma sedp_payload_built e order :
  endpoint_ok e -> announceable e -> duration_seconds (max_blocking_time_ns e) <= i32_max ->
  exists w, build_payload e order = Done w /\
    writer_at w order payload_capacity (sedp_payload e order) /\
    zlen (sedp_payload e order) <= payload_capacity.
Proof.
  intros He Ha Hs. destruct (build_names_at e order He Ha) as (w4 & p & Hn & Hw4 & Hp & Heq).
  pose proof He as [_ _ _ _ _ _ _ E8 E9 _ _ E12]. destruct Ha as [_ [L1 _] [L2 _]].
  pose proof (lt_size _ _ E8). pose proof (lt_size _ _ E9).
  unfold build_payload. rewrite Hn. cbn [mbind outcome_bind].
  assert (payload_capacity = 1280) as Hc by done. unfold sedp_max_locators in *.
  put_param (reliability_bytes e order).
  { apply reliability_fills. split; [|done]. apply duration_seconds_range. lia. }
  put_param (encode_uint order 4 (bits_of_i32 (durability e))); [apply u32_fills|].
  put_param [if expects_inline_qos e then 1 else 0]; [apply byte_fills|].
  put_list L1. put_list L2.
  match goal with Hw : writer_at ?w _ _ _ |- _ =>
    destruct (finish_at buffer_overflow w order payload_capacity _ Hw)
      as (w13 & Hd13 & Hw13); [done|lia|] end.
  exists w13. split; [done|].
  match type of Hw13 with writer_at _ _ _ ?q =>
    assert (sedp_payload e order = q) as -> end.
  { unfold sedp_payload, encode_list, sedp_params.
    rewrite Heq, !encode_params_app, !encode_params_one, <- !app_assoc. done. }
  split; [done|]. erewrite (grown _ _ _ _ 0 4); [|done..]. lia.
Qed.

(** The only way a payload is not completed. *)
Lemma build_payload_refused e order :
  endpoint_ok e -> announceable e -> i32_max < duration_seconds (max_blocking_time_ns e) ->
  build_payload e order = Stop buffer_overflow.
Proof.
  intros He Ha Hs. destruct (build_names_at e order He Ha) as (w & p & Hn & Hw & Hp & _).
  unfold build_payload. rewrite Hn. cbn [mbind outcome_bind].
  destruct (append_value_at buffer_overflow w order payload_capacity p pid_reliability 12
    (reliability_bytes e order)
    (fun m v => access (mcopy m v (reliability_bytes e order)))) as (w' & Hd & _).
  - done.
  - done.
  - by rewrite reliability_bytes_length.
  - lia.
  - change (padded_size 12) with 12. unfold payload_capacity. lia.
  - apply copy_fills.
  - revert Hd. unfold append_value.
    destruct (append w pid_reliability 12) as [|er|[[v|] w1]]; cbn [mbind outcome_bind]; try done.
    intros Hd. apply bind_Done_inv in Hd as (m' & Hm & _). apply access_Done in Hm.
    assert (is_Some (mcopy (pw_buffer w1) v (reliability_bytes e order))) as Hin by eauto.
    apply mcopy_is_Some in Hin. rewrite reliability_bytes_length in Hin.
    by rewrite (reliability_refused e order (pw_buffer w1) v) by lia.
Qed.

(** ** [build] *)

Definition can_announce (config : SedpAnnouncementConfig) (capacity : Z) : bool :=
  let e := endpoint config in
  supported_byte_order (parameter_byte_order config) &&
  negb (invalid_announcement config) &&
  list_usableb sedp_max_locators (unicast_locators e) &&
  list_usableb sedp_max_locators (multicast_locators e) &&
  (duration_seconds (max_blocking_time_ns e) <=? i32_max) &&
  Data.buildable (data_config config) (sedp_payload e (parameter_byte_order config)) capacity.

(** What makes an announcement complete. *)
Record complete (config : SedpAnnouncementConfig) : Prop := {
  cp_version : supported_version (protocol_version (endpoint config)) = true;
  cp_guid : Exists (fun o => o <> 0) (participant_guid_prefix (endpoint config));
  cp_id : valid_endpoint_id (endpoint_id (endpoint config)) (kind (endpoint config)) = true;
  cp_topic : 1 <= topic_name_size (endpoint config) <= sedp_max_topic_name /\
    Forall (fun c => c <> 0) (topic_of (endpoint config));
  cp_type : 1 <= type_name_size (endpoint config) <= sedp_max_type_name /\
    Forall (fun c => c <> 0) (type_of (endpoint config));
  cp_qos : (reliability (endpoint config) = 1 \/ reliability (endpoint config) = 2) /\
    (durability (endpoint config) = 0 \/ durability (endpoint config) = 1);
  cp_reader : reader_id config = [0; 0; 0; 0] \/
    reader_id config =
      [0; 0; match kind (endpoint config) with writer => 3 | reader => 4 end; 199];
  cp_locators :
    held (unicast_locators (endpoint config)) ++ held (multicast_locators (endpoint config)) <> [];
  cp_unicast : list_usable sedp_max_locators (unicast_locators (endpoint config));
  cp_multicast : list_usable sedp_max_locators (multicast_locators (endpoint config));
}.

(** A builder over a caller's buffer of at least [capacity_] bytes. *)
Definition builder_ok (b : SedpMessageBuilder) (m : list Z) : Prop :=
  buffer_ b = Some m /\ 0 <= capacity_ b <= zlen m /\ capacity_ b < 2 ^ 64.

Record config_ok (config : SedpAnnouncementConfig) : Prop := {
  co_endpoint : endpoint_ok (endpoint config);
  co_reader : length (reader_id config) = 4%nat;
  co_sequence : 0 <= sequence_number config < 2 ^ 64;
}.

Lemma announcement_endpoint config :
  invalid_announcement config = false -> invalid_endpoint (endpoint config) = false.
Proof. unfold invalid_announcement. rewrite !orb_false_iff. tauto. Qed.

Lemma sedp_data_config_ok config : config_ok config -> Data.config_ok (data_config config).
Proof.
  intros [[] ? ?]. split; try done. cbn. by destruct (kind (endpoint config)).
Qed.

(** The data message [build] produces. *)
Definition announcement_bytes (config : SedpAnnouncementConfig) : list Z :=
  Data.data_message_bytes (data_config config)
    (sedp_payload (endpoint config) (parameter_byte_order config)).

Ltac sedp_refuse := do 2 eexists; split; [|split; [|reflexivity]]; [discriminate|].

Lemma sedp_build_cases b m config :
  builder_ok b m -> config_ok config ->
  let l := announcement_bytes config in
  if can_announce config (capacity_ b) then
    build b config = Done {| buffer_ := Some (l ++ drop (length l) m);
      capacity_ := capacity_ b; size_ := zlen l; error_ := sedp_none;
      rtps_error_ := Data.rtps_none |}
  else exists e r, e <> sedp_none /\
    (e = buffer_overflow -> i32_max < duration_seconds (max_blocking_time_ns (endpoint config))) /\
    build b config = Stop {| buffer_ := Some m; capacity_ := capacity_ b; size_ := 0;
      error_ := e; rtps_error_ := r |}.
Proof.
  intros (Hb & Hcap & H64) Hcfg l. pose proof Hcfg as [He _ _].
  pose proof He as [_ _ _ _ _ _ _ [V1 S1 _] [V2 S2 _] _ _ _].
  unfold build, can_announce. rewrite Hb. cbn [Data.null_with_size orb].
  destruct (supported_byte_order (submessage_byte_order config)) eqn:Hso; cycle 1.
  { unfold Data.buildable. cbn [data_config Data.cfg_byte_order]. rewrite Hso.
    rewrite !andb_false_r. cbn. by sedp_refuse. }
  destruct (supported_byte_order (parameter_byte_order config));
    cbn [negb orb andb stop_if mbind outcome_bind]; [|by sedp_refuse].
  destruct (invalid_announcement config) eqn:Hinv;
    cbn [negb orb andb stop_if mbind outcome_bind]; [by sedp_refuse|].
  rewrite !valid_locators_typed by lia. cbn [mbind outcome_bind].
  fold (list_usableb sedp_max_locators (unicast_locators (endpoint config))).
  fold (list_usableb sedp_max_locators (multicast_locators (endpoint config))).
  destruct (list_usableb _ (unicast_locators _)) eqn:Hu;
    cbn [negb orb andb stop_if mbind outcome_bind]; [|by sedp_refuse].
  destruct (list_usableb _ (multicast_locators _)) eqn:Hm;
    cbn [negb orb andb stop_if mbind outcome_bind]; [|by sedp_refuse].
  assert (announceable (endpoint config)) as Han
    by (split; [by apply announcement_endpoint|by apply list_usable_spec..]).
  destruct (Z.leb_spec (duration_seconds (max_blocking_time_ns (endpoint config))) i32_max);
    cbn [andb]; cycle 1.
  { rewrite build_payload_refused by done. cbn. by sedp_refuse. }
  destruct (sedp_payload_built (endpoint config) (parameter_byte_order config))
    as (w & -> & [_ _ Hwl Hws Hwt] & Hle); [done..|]. cbn [map_stop mbind outcome_bind].
  rewrite Hws, Data.build_take by lia. rewrite Nat2Z.id, Hwt.
  pose proof (Data.build_cases (Data.DataMessageBuilder_new (Some m) (capacity_ b)) m
    (data_config config) (sedp_payload (endpoint config) (parameter_byte_order config)))
    as Hcases.
  cbn [Data.DataMessageBuilder_new Data.capacity_] in Hcases.
  specialize (Hcases ltac:(split; [done|cbn; lia]) (sedp_data_config_ok config Hcfg)
    ltac:(unfold payload_capacity in *; lia)).
  destruct (Data.buildable _ _ _); cbv zeta in Hcases.
  - rewrite Hcases. done.
  - destruct Hcases as (e & Hne & ->). cbn. by sedp_refuse.
Qed.

(** ** What a receiver gets *)

Definition blocking_received (ns : Z) : Z :=
  duration_of (duration_seconds ns) (duration_fraction ns).

Definition received (e : SedpEndpointData) : SedpEndpointData :=
  {| protocol_version := protocol_version e; vendor_id := vendor_id e;
     participant_guid_prefix := participant_guid_prefix e; endpoint_id := endpoint_id e;
     kind := kind e;
     topic_name := topic_of e ++ replicate (256 - length (topic_of e)) 0;
     topic_name_size := topic_name_size e;
     type_name := type_of e ++ replicate (256 - length (type_of e)) 0;
     type_name_size := type_name_size e;
     unicast_locators := filled 4 (held (unicast_locators e));
     multicast_locators := filled 4 (held (multicast_locators e));
     reliability := reliability e; durability := durability e;
     max_blocking_time_ns := blocking_received (max_blocking_time_ns e);
     expects_inline_qos := expects_inline_qos e |}.

Lemma parse_string_encoded order name :
  1 <= zlen name <= 255 -> Forall (fun c => c <> 0) name ->
  parse_string (padded (string_bytes order name)) order (replicate 256 0) =
  Done (name ++ replicate (256 - length name) 0, zlen name).
Proof.
  intros Hn Hz. unfold parse_string.
  pose proof (text_bytes_length order name) as Hl.
  pose proof (padded_length (string_bytes order name)) as Hpl. rewrite Hl in Hpl.
  pose proof (padded_size_bounds (4 + zlen name + 1)) as Hb.
  assert (padded (string_bytes order name) =
    encode_uint order 4 (zlen name + 1) ++ name ++ [0] ++ padding (string_bytes order name))
    as Hpad by (unfold padded, string_bytes at 1; by rewrite <- !app_assoc).
  assert (8 <= padded_size (4 + zlen name + 1)) as H8.
  { rewrite padded_size_spec by lia.
    pose proof (Z.div_mod (4 + zlen name + 1 + 3) 4 ltac:(lia)).
    pose proof (Z.mod_pos_bound (4 + zlen name + 1 + 3) 4 ltac:(lia)). lia. }
  rewrite Hpl by lia. destruct (Z.ltb_spec (padded_size (4 + zlen name + 1)) 8); [lia|].
  cbn [stop_if mbind outcome_bind]. unfold read_u32. rewrite Hpad.
  rewrite read_uint32_start by lia. cbn [mbind outcome_bind]. rewrite length_replicate.
  destruct (Z.leb_spec (zlen name + 1) 1); [lia|].
  destruct (Z.ltb_spec (padded_size (4 + zlen name + 1) - 4) (zlen name + 1)); [lia|].
  destruct (Z.ltb_spec (Z.of_nat 256) (zlen name + 1)); [lia|].
  cbn [orb stop_if mbind outcome_bind].
  assert (mload (encode_uint order 4 (zlen name + 1) ++ name ++ [0] ++
    padding (string_bytes order name)) (4 + (zlen name + 1) - 1) = Some 0) as ->.
  { rewrite !mload_app_r by (rewrite ?encode_uint_length; lia).
    rewrite encode_uint_length.
    replace (4 + (zlen name + 1) - 1 - Z.of_nat (Z.to_nat 4) - zlen name) with 0 by lia. done. }
  cbn [access mbind outcome_bind Z.eqb negb stop_if].
  replace (zlen name + 1 - 1) with (zlen name) by lia.
  rewrite (mslice_app_exact _ name) by (rewrite ?encode_uint_length; lia).
  cbn [access mbind outcome_bind].
  assert (existsb (fun c => c =? 0) name = false) as ->.
  { apply not_true_iff_false. rewrite existsb_exists. intros (c & Hc & Hc0%Z.eqb_eq).
    rewrite Forall_forall in Hz. by apply (Hz c); [apply list_elem_of_In|]. }
  cbn [stop_if mbind outcome_bind].
  rewrite mcopy_start by (rewrite length_replicate; lia).
  cbn [access mbind outcome_bind]. by rewrite drop_replicate.
Qed.

Section Handled.
Context (expected : GuidPrefix) (order : ByteOrder) (s : parse_state).

Lemma handle_endpoint_guid id :
  length expected = 12%nat -> length id = 4%nat -> seen_before pid_endpoint_guid s = false ->
  handle expected order pid_endpoint_guid (padded (expected ++ id)) s =
  Done (mark pid_endpoint_guid s (set_endpoint_id (candidate s) id)).
Proof.
  intros Hg Hi Hs. unfold handle.
  rewrite (padded_aligned _ 16), guid_length, Hs by (done || by apply guid_length).
  cbn -[mslice app]. rewrite mslice_start, mslice_end by (done || lia).
  cbn. by rewrite bool_decide_true.
Qed.

Lemma handle_participant_guid :
  length expected = 12%nat -> seen_before pid_participant_guid s = false ->
  handle expected order pid_participant_guid (padded (expected ++ entity_id_participant)) s =
  Done (mark pid_participant_guid s (candidate s)).
Proof.
  intros Hg Hs. unfold handle.
  rewrite (padded_aligned _ 16), guid_length, Hs by (done || by apply guid_length).
  cbn -[mslice app entity_id_participant].
  rewrite mslice_start, mslice_end by (done || lia).
  cbn -[entity_id_participant]. by rewrite !bool_decide_true.
Qed.

Lemma handle_topic name :
  1 <= zlen name <= 255 -> Forall (fun c => c <> 0) name ->
  topic_name (candidate s) = replicate 256 0 -> seen_before pid_topic_name s = false ->
  handle expected order pid_topic_name (padded (string_bytes order name)) s =
  Done (mark pid_topic_name s
    (set_topic_name (candidate s) (name ++ replicate (256 - length name) 0) (zlen name))).
Proof.
  intros Hn Hz Ht Hs. unfold handle. rewrite Hs. cbn -[parse_string].
  rewrite Ht. by rewrite parse_string_encoded.
Qed.

Lemma handle_type name :
  1 <= zlen name <= 255 -> Forall (fun c => c <> 0) name ->
  type_name (candidate s) = replicate 256 0 -> seen_before pid_type_name s = false ->
  handle expected order pid_type_name (padded (string_bytes order name)) s =
  Done (mark pid_type_name s
    (set_type_name (candidate s) (name ++ replicate (256 - length name) 0) (zlen name))).
Proof.
  intros Hn Hz Ht Hs. unfold handle. rewrite Hs. cbn -[parse_string].
  rewrite Ht. by rewrite parse_string_encoded.
Qed.

Lemma handle_reliability e :
  valid_reliability (reliability e) = true -> - 2 ^ 31 <= reliability e < 2 ^ 31 ->
  0 <= max_blocking_time_ns e -> duration_seconds (max_blocking_time_ns e) <= i32_max ->
  seen_before pid_reliability s = false ->
  handle expected order pid_reliability (padded (reliability_bytes e order)) s =
  Done (mark pid_reliability s (set_reliability (candidate s) (reliability e)
          (blocking_received (max_blocking_time_ns e)))).
Proof.
  intros Hv Hr H0 Hd Hs. unfold handle.
  rewrite (padded_aligned _ 12), reliability_bytes_length, Hs
    by (done || apply reliability_bytes_length).
  cbn -[read_u32 parse_duration reliability_bytes]. unfold reliability_bytes, read_u32.
  rewrite read_uint32_start by apply bits_of_i32_range. cbn [mbind outcome_bind].
  rewrite i32_bits_roundtrip, Hv by done. cbn [negb stop_if mbind outcome_bind].
  pose proof (parse_duration_encoded invalid_duration order (max_blocking_time_ns e)
    (encode_uint order 4 (bits_of_i32 (reliability e))) [] H0 Hd) as Hp.
  rewrite app_nil_r, encode_uint_length in Hp. change (Z.of_nat (Z.to_nat 4)) with 4 in Hp.
  by rewrite Hp.
Qed.

Lemma handle_durability x :
  valid_durability x = true -> - 2 ^ 31 <= x < 2 ^ 31 ->
  seen_before pid_durability s = false ->
  handle expected order pid_durability (padded (encode_uint order 4 (bits_of_i32 x))) s =
  Done (mark pid_durability s (set_durability (candidate s) x)).
Proof.
  intros Hv Hx Hs. unfold handle. rewrite padded_word, encode_uint_length, Hs.
  cbn -[read_u32]. rewrite read_word by apply bits_of_i32_range. cbn [mbind outcome_bind].
  by rewrite i32_bits_roundtrip, Hv.
Qed.

Lemma handle_inline_qos (x : bool) :
  seen_before pid_expects_inline_qos s = false ->
  handle expected order pid_expects_inline_qos (padded [if x then 1 else 0]) s =
  Done (mark pid_expects_inline_qos s (set_expects_inline_qos (candidate s) x)).
Proof. intros Hs. unfold handle. cbn -[seen_before]. rewrite Hs. by destruct x. Qed.

(** The parameters of one of the two locator lists. *)
Lemma endpoint_list_run id (get : parse_state -> BoundedLocatorList)
    (set : parse_state -> BoundedLocatorList -> parse_state) xs :
  (forall v s, handle expected order id v s =
     (l ← parse_locator v order (get s); Done (set s l))) ->
  (forall s l, get (set s l) = l) -> (forall s l l', set (set s l) l' = set s l') ->
  Forall (fun x => valid_udp_v4_locator x = true /\ locator_ok x) xs ->
  zlen xs <= sedp_max_locators -> get s = filled 4 [] ->
  for_each (fun '(id, v) s => handle expected order id (padded v) s)
    ((fun x => (id, locator_bytes order x)) <$> xs) s =
  Done (match xs with [] => s | _ => set s (filled 4 xs) end).
Proof.
  intros H1 H2 H3 Hxs Hlen Hget. unfold sedp_max_locators in Hlen. destruct xs as [|x xs]; [done|].
  by rewrite (locators_run malformed_parameter invalid_locator locator_bound_exceeded 4
    ltac:(done) (handle expected order) order id get set H1 H2 H3 x xs [] s)
    by (done || cbn in *; lia).
Qed.
End Handled.

Definition fixed_seen : list Z :=
  [pid_expects_inline_qos; pid_durability; pid_reliability; pid_type_name; pid_topic_name;
   pid_participant_guid; pid_endpoint_guid].

Definition final_state (e : SedpEndpointData) : parse_state :=
  {| candidate := received e; seen := fixed_seen; seen_locator := true |}.

Lemma sedp_params_run config order payload :
  config_ok config -> announceable (endpoint config) ->
  duration_seconds (max_blocking_time_ns (endpoint config)) <= i32_max ->
  held (unicast_locators (endpoint config)) ++ held (multicast_locators (endpoint config)) <> [] ->
  let e := endpoint config in
  for_each (fun '(id, v) s => handle (participant_guid_prefix e) order id (padded v) s)
    (sedp_params e order)
    {| candidate := initial_endpoint (Data.view_of (data_config config) payload)
         (participant_guid_prefix e) (kind e); seen := []; seen_locator := false |} =
  Done (final_state e).
Proof.
  intros [He _ _] Ha Hd Hne e. fold e in He, Ha, Hd, Hne.
  destruct (announceable_texts e He Ha) as [[Ht Hft] [Hy Hfy]].
  pose proof He as [E1 E2 E3 E4 E5 E6 E7 E8 E9 E10 E11 E12]. pose proof Ha as [A1 A2 A3].
  unfold invalid_endpoint in A1. rewrite !orb_false_iff, !negb_false_iff in A1.
  destruct A1 as [[_ Hrel] Hdur].
  assert (zlen (topic_of e) = topic_name_size e) as Hzt
    by (unfold topic_of; rewrite length_take; lia).
  assert (zlen (type_of e) = type_name_size e) as Hzy
    by (unfold type_of; rewrite length_take; lia).
  unfold sedp_params. cbn [app for_each].
  rewrite handle_endpoint_guid by done. cbn [mbind outcome_bind].
  rewrite handle_participant_guid by done. cbn [mbind outcome_bind].
  rewrite handle_topic by (done || lia). cbn [mbind outcome_bind].
  rewrite handle_type by (done || lia). cbn [mbind outcome_bind].
  rewrite handle_reliability by (done || lia). cbn [mbind outcome_bind].
  rewrite handle_durability by done. cbn [mbind outcome_bind].
  rewrite handle_inline_qos by done. cbn [mbind outcome_bind].
  destruct (held_valid _ _ E8 A2) as [W1 C1]. destruct (held_valid _ _ E9 A3) as [W2 C2].
  unfold locator_params.
  rewrite for_each_app, (endpoint_list_run _ _ _ pid_unicast_locator
    (fun s => unicast_locators (candidate s))
    (fun s l => mark_locator s (set_unicast_locators (candidate s) l))) by done.
  cbn [mbind outcome_bind].
  rewrite (endpoint_list_run _ _ _ pid_multicast_locator
    (fun s => multicast_locators (candidate s))
    (fun s l => mark_locator s (set_multicast_locators (candidate s) l)))
    by (done || by destruct (held (unicast_locators e))).
  unfold final_state, received. rewrite Hzt, Hzy.
  destruct (held (unicast_locators e)) as [|u us] eqn:Hu,
    (held (multicast_locators e)) as [|v vs] eqn:Hv; done.
Qed.

Lemma sedp_params_ok e order :
  endpoint_ok e -> announceable e -> Forall param_ok (sedp_params e order).
Proof.
  intros He Ha. destruct (announceable_texts e He Ha) as [[Ht _] [Hy _]].
  pose proof He as [E1 E2 E3 E4 E5 E6 E7 E8 E9 E10 E11 E12].
  unfold sedp_params. rewrite !Forall_app, !Forall_singleton.
  split_and!; try (by eapply locator_params_ok); try done; unfold param_ok;
    rewrite ?guid_length, ?text_bytes_length by done; try done;
    unfold topic_of, type_of; rewrite length_take; split_and!; (done || lia).
Qed.

Lemma announced_locators config :
  config_ok config -> invalid_announcement config = false ->
  announceable (endpoint config) ->
  size (unicast_locators (endpoint config)) + size (multicast_locators (endpoint config)) <> 0 /\
  held (unicast_locators (endpoint config)) ++
    held (multicast_locators (endpoint config)) <> [].
Proof.
  intros [He _ _] Hi [_ [L1 _] [L2 _]]. pose proof He as [_ _ _ _ _ _ _ E8 E9 _ _ _].
  unfold invalid_announcement in Hi. rewrite !orb_false_iff in Hi.
  destruct Hi as [_ H0%Z.eqb_neq].
  pose proof (lt_size _ _ E8). pose proof (lt_size _ _ E9). unfold sedp_max_locators in *.
  rewrite add64_id in H0 by lia. split; [done|]. intros [Hn1 Hn2]%app_nil.
  pose proof (held_length _ _ E8 L1) as N1. pose proof (held_length _ _ E9 L2) as N2.
  rewrite Hn1 in N1. rewrite Hn2 in N2. cbn in N1, N2. lia.
Qed.

Lemma sedp_accept_received config :
  config_ok config -> invalid_announcement config = false ->
  announceable (endpoint config) ->
  accept true (final_state (endpoint config)) = Done (received (endpoint config)).
Proof.
  intros Hc Hi Ha. destruct (announced_locators config Hc Hi Ha) as [Hsz _].
  pose proof (co_endpoint _ Hc) as [_ _ _ _ _ _ _ E8 E9 _ _ _].
  pose proof (lt_size _ _ E8). pose proof (lt_size _ _ E9).
  destruct Ha as [A1 [L1 _] [L2 _]]. unfold invalid_endpoint in A1.
  rewrite !orb_false_iff, !negb_false_iff in A1. destruct A1 as [[[[[_ Hid] _] _] _] _].
  unfold accept. cbn [final_state candidate received seen_locator unicast_locators
    multicast_locators endpoint_id kind].
  rewrite !(filled_size sedp_max_locators) by done. unfold sedp_max_locators in *.
  rewrite add64_id by lia. rewrite Hid.
  destruct (Z.eqb_spec (size (unicast_locators (endpoint config)) +
    size (multicast_locators (endpoint config))) 0); [lia|done].
Qed.

Definition received_view (config : SedpAnnouncementConfig) : SedpMessageView :=
  {| view_endpoint := received (endpoint config);
     view_sequence_number := sequence_number config;
     view_submessage_byte_order := submessage_byte_order config;
     view_parameter_byte_order := parameter_byte_order config |}.

Lemma announced_kind_builtin k : announced_kind (builtin_writer k) = Some k.
Proof. by destruct k. Qed.

Lemma sedp_announcement_built config :
  config_ok config -> invalid_announcement config = false ->
  announceable (endpoint config) ->
  duration_seconds (max_blocking_time_ns (endpoint config)) <= i32_max ->
  supported_byte_order (parameter_byte_order config) = true ->
  parse_announcement (Data.view_of (data_config config)
      (sedp_payload (endpoint config) (parameter_byte_order config)))
    (participant_guid_prefix (endpoint config)) = Done (received_view config).
Proof.
  intros Hc Hi Ha Hd Ho. set (e := endpoint config) in *.
  set (order := parameter_byte_order config) in *.
  pose proof (co_endpoint _ Hc) as He. fold e in He.
  destruct (announced_locators config Hc Hi Ha) as [_ Hne].
  pose proof (sedp_payload_built e order He Ha Hd) as (_ & _ & _ & Hlen).
  unfold payload_capacity in Hlen.
  set (data := Data.view_of (data_config config) (sedp_payload e order)).
  pose proof (loop_encoded malformed_parameter (handle (participant_guid_prefix e) order) order
    (sedp_params e order)
    {| candidate := initial_endpoint data (participant_guid_prefix e) (kind e); seen := [];
       seen_locator := false |} (sedp_params_ok e order He Ha)) as Hloop.
  fold (sedp_payload e order) in Hloop. specialize (Hloop ltac:(lia)). cbv zeta in Hloop.
  pose proof (sedp_params_run config order (sedp_payload e order) Hc Ha Hd Hne) as Hrun.
  cbv zeta in Hrun. fold e in Hrun. fold data in Hrun. rewrite Hrun in Hloop.
  cbn [mbind outcome_bind] in Hloop.
  assert (8 <= zlen (sedp_payload e order)) as H8.
  { unfold sedp_payload, encode_list. rewrite encode_params_app, encode_params_one, !length_app.
    pose proof (encode_param_length order pid_sentinel []) as Hep.
    change (padded_size (zlen (@nil Z))) with 0 in Hep. cbn [encapsulation length] in *. lia. }
  unfold parse_announcement.
  change (Data.writer_id data) with (builtin_writer (kind e)).
  change (Data.reader_id data) with (reader_id config).
  change (Data.guid_prefix data) with (participant_guid_prefix e).
  change (Data.payload_size data) with (zlen (sedp_payload e order)).
  change (Data.serialized_payload data) with (Some (sedp_payload e order)).
  rewrite announced_kind_builtin. cbn [mbind outcome_bind].
  pose proof Hi as Hr. unfold invalid_announcement in Hr. rewrite !orb_false_iff in Hr.
  destruct Hr as [[_ Hr] _]. fold e in Hr. rewrite Hr, bool_decide_true by done.
  cbn [negb stop_if mbind outcome_bind].
  destruct (Z.ltb_spec (zlen (sedp_payload e order)) 8); [lia|].
  cbn [access stop_if mbind outcome_bind].
  change (mload (sedp_payload e order) 0) with (Some 0).
  change (mload (sedp_payload e order) 1) with (Some (if is_little order then 3 else 2)).
  cbn [access mbind outcome_bind].
  destruct order eqn:Horder; try discriminate Ho;
    cbn [is_little Z.eqb Pos.eqb negb orb andb stop_if mbind outcome_bind];
    rewrite Hloop; cbn [mbind outcome_bind];
    unfold e; rewrite sedp_accept_received by done; cbn [mbind outcome_bind];
    unfold received_view; fold order; by rewrite Horder.
Qed.

(** C31: endpoint announcements round-trip: whenever [build] succeeds, the bytes
    it produced parse back, for the announcing participant, to the announced
    endpoint with exactly its identity, kind, topic and type name, quality of
    service and locators; only the blocking time loses up to one nanosecond. *)
Theorem sedp_roundtrip b m config b' view :
  builder_ok b m -> config_ok config -> build b config = Done b' ->
  exists bytes, buffer_ b' = Some bytes /\
    parse_sedp_message (Some (take (Z.to_nat (size_ b')) bytes)) (size_ b')
      (participant_guid_prefix (endpoint config)) view =
    Some ({| error := sedp_none; rtps_error := Data.rtps_none; bytes := size_ b' |},
          received_view config) /\
    let sent := max_blocking_time_ns (endpoint config) in
    let got := max_blocking_time_ns (received (endpoint config)) in
    sent - 1 <= got <= sent.
Proof.
  intros Hb Hc Hbuild. pose proof (sedp_build_cases b m config Hb Hc) as Hcases.
  pose proof (Data.parse_built (data_config config)
    (sedp_payload (endpoint config) (parameter_byte_order config)) (capacity_ b)
    (sedp_data_config_ok config Hc)) as Hparse.
  destruct (can_announce config (capacity_ b)) eqn:Hcan;
    [|destruct Hcases as (e & r & _ & _ & Hs); rewrite Hs in Hbuild; discriminate].
  unfold can_announce in Hcan. rewrite !andb_true_iff, Z.leb_le, !list_usable_spec in Hcan.
  destruct Hcan as [[[[[Ho Hi%negb_true_iff] Hu] Hm] Hd] Hbld].
  assert (announceable (endpoint config)) as Ha
    by (split; [by apply announcement_endpoint|done..]).
  cbv zeta in Hcases, Hparse. specialize (Hparse Hbld).
  change (Data.data_message_bytes _ _) with (announcement_bytes config) in Hparse.
  remember (announcement_bytes config) as l eqn:Hbytes.
  rewrite Hcases in Hbuild. injection Hbuild as <-. cbn [buffer_ size_].
  eexists. split; [done|]. split.
  - rewrite take_app_length' by lia. unfold parse_sedp_message, parse_body.
    unfold Data.parse_data_message. rewrite checked_commit by apply Data.parse_body_error.
    rewrite Hparse. cbn [map_stop mbind outcome_bind].
    by rewrite sedp_announcement_built.
  - cbn [received max_blocking_time_ns]. apply duration_roundtrip; [|done].
    apply (eo_blocking _ (co_endpoint _ Hc)).
Qed.

(** Everything [build] requires, for a buffer of [capacity] bytes. *)
Definition announces (config : SedpAnnouncementConfig) (capacity : Z) : Prop :=
  complete config /\
  supported_byte_order (submessage_byte_order config) = true /\
  supported_byte_order (parameter_byte_order config) = true /\
  1 <= sequence_number config <= i64_max /\
  max_blocking_time_ns (endpoint config) < 2 ^ 31 * 1000000000 /\
  44 + zlen (sedp_payload (endpoint config) (parameter_byte_order config)) <= capacity.

Lemma nonzero_guid_spec g : nonzero_guid g = true <-> Exists (fun o => o <> 0) g.
Proof.
  unfold nonzero_guid. rewrite existsb_exists, Exists_exists.
  split; intros (o & Ho & Hn); exists o; (split; [by apply list_elem_of_In|]).
  - by apply Z.eqb_neq, negb_true_iff.
  - by apply negb_true_iff, Z.eqb_neq.
Qed.

Lemma valid_text_iff text n :
  length text = 256%nat -> 0 <= n < 2 ^ 64 ->
  valid_text text n = true <->
  1 <= n <= 255 /\ Forall (fun c => c <> 0) (take (Z.to_nat n) text).
Proof.
  intros Hl Hn. split.
  - intros Hv. apply valid_text_spec in Hv as [H1 H2]; [|done]. split; [lia|done].
  - intros [H1 H2]. unfold valid_text. destruct (Z.eqb_spec n 0); [lia|].
    destruct (Z.leb_spec (zlen text) n); [lia|]. cbn [orb]. apply forallb_forall.
    intros c Hc. rewrite Forall_forall in H2. apply negb_true_iff, Z.eqb_neq, H2.
    by apply list_elem_of_In.
Qed.

Lemma duration_fits ns :
  0 <= ns -> duration_seconds ns <= i32_max <-> ns < 2 ^ 31 * 1000000000.
Proof.
  intros Hns. unfold duration_seconds, nanoseconds_per_second, i32_max.
  pose proof (Z.div_mod ns 1000000000 ltac:(lia)).
  pose proof (Z.mod_pos_bound ns 1000000000 ltac:(lia)). lia.
Qed.

Lemma entity_neqb_false l r :
  length l = 4%nat -> length r = 4%nat -> entity_neqb l r = false <-> l = r.
Proof. intros. unfold entity_neqb. rewrite negb_false_iff. by apply entity_eqb_eq. Qed.

Lemma invalid_endpoint_spec e :
  endpoint_ok e ->
  invalid_endpoint e = false <->
  supported_version (protocol_version e) = true /\
  Exists (fun o => o <> 0) (participant_guid_prefix e) /\
  valid_endpoint_id (endpoint_id e) (kind e) = true /\
  (1 <= topic_name_size e <= 255 /\ Forall (fun c => c <> 0) (topic_of e)) /\
  (1 <= type_name_size e <= 255 /\ Forall (fun c => c <> 0) (type_of e)) /\
  (reliability e = 1 \/ reliability e = 2) /\ (durability e = 0 \/ durability e = 1).
Proof.
  intros [E1 E2 E3 E4 E5 E6 E7 E8 E9 E10 E11 E12]. unfold invalid_endpoint, supported_version.
  rewrite !orb_false_iff, !negb_false_iff, nonzero_guid_spec, !valid_text_iff by done.
  rewrite !andb_true_iff, negb_true_iff, Z.leb_le, Z.ltb_ge.
  unfold valid_reliability, valid_durability. rewrite !orb_true_iff, !Z.eqb_eq.
  unfold topic_of, type_of, best_effort, reliable, volatile_durability, transient_local. tauto.
Qed.

Lemma complete_spec config :
  config_ok config ->
  complete config <->
  invalid_announcement config = false /\
  list_usable sedp_max_locators (unicast_locators (endpoint config)) /\
  list_usable sedp_max_locators (multicast_locators (endpoint config)).
Proof.
  intros Hc. pose proof Hc as [He Hr _]. pose proof (invalid_endpoint_spec _ He) as Hinv.
  assert (entity_neqb (reader_id config) entity_id_unknown &&
    entity_neqb (reader_id config) (builtin_reader (kind (endpoint config))) = false <->
    reader_id config = [0; 0; 0; 0] \/ reader_id config =
      [0; 0; match kind (endpoint config) with writer => 3 | reader => 4 end; 199]) as Hreader.
  { rewrite andb_false_iff, !entity_neqb_false by (done || by destruct (kind (endpoint config))).
    by destruct (kind (endpoint config)). }
  split.
  - intros [P1 P2 P3 P4 P5 P6 P7 P8 P9 P10]. split; [|done].
    unfold invalid_announcement. rewrite !orb_false_iff. split; [split|]; [tauto|tauto|].
    pose proof (eo_unicast _ He) as E8. pose proof (eo_multicast _ He) as E9.
    pose proof (held_length _ _ E8 (proj1 P9)) as N1.
    pose proof (held_length _ _ E9 (proj1 P10)) as N2.
    destruct P9 as [L1 _], P10 as [L2 _]. unfold sedp_max_locators in *.
    pose proof (lt_size _ _ E8). pose proof (lt_size _ _ E9). rewrite add64_id by lia.
    apply Z.eqb_neq. intros Hz. apply P8. apply app_nil. split; apply nil_length_inv; lia.
  - intros (Hi & Hu & Hm).
    assert (announceable (endpoint config)) as Ha
      by (split; [by apply announcement_endpoint|done..]).
    pose proof (announced_locators config Hc Hi Ha) as [_ Hne].
    unfold invalid_announcement in Hi. rewrite !orb_false_iff in Hi.
    destruct Hi as [[Hi1 Hi2] _]. apply Hinv in Hi1 as (P1 & P2 & P3 & P4 & P5 & P6).
    split; try done. by apply Hreader.
Qed.

Lemma payload_built_supported e order :
  supported_byte_order order = true -> Data.payload_supported (sedp_payload e order) = true.
Proof. by destruct order. Qed.

Lemma announces_spec config capacity :
  config_ok config -> can_announce config capacity = true <-> announces config capacity.
Proof.
  intros Hc. unfold can_announce, announces, Data.buildable.
  rewrite !andb_true_iff, !list_usable_spec, !Z.leb_le, negb_true_iff, complete_spec by done.
  rewrite duration_fits by apply (eo_blocking _ (co_endpoint _ Hc)).
  cbn [data_config Data.cfg_version Data.cfg_byte_order Data.cfg_sequence_number].
  split; [naive_solver|]. intros ((Hi & Hu & Hm) & Ho1 & Ho2 & Hs & Hd & Hfit).
  assert (announceable (endpoint config)) as Ha
    by (split; [by apply announcement_endpoint|done..]).
  pose proof (sedp_payload_built (endpoint config) (parameter_byte_order config)
    (co_endpoint _ Hc) Ha) as Hb.
  rewrite duration_fits in Hb by apply (eo_blocking _ (co_endpoint _ Hc)).
  destruct (Hb Hd) as (_ & _ & _ & Hlen). unfold payload_capacity in Hlen.
  pose proof (announcement_endpoint _ Hi) as Hv.
  apply invalid_endpoint_spec in Hv; [|apply Hc].
  split_and!; try done; try tauto; [by apply payload_built_supported|lia].
Qed.

(** C38: [build] succeeds exactly on complete endpoint announcements (supported
    version, nonzero participant GUID, an entity id of the announced kind, names of
    1 to 255 characters without NUL, known quality of service, a builtin reader,
    usable locators, a valid sequence number and a blocking time below 2^31
    seconds) whose message fits the caller's buffer, and then writes exactly the
    reference encoding. Otherwise it reports an error and leaves the buffer alone;
    the parameter list always fits its scratch buffer, so [buffer_overflow] is only
    ever the code of a blocking time that is too long. *)
Theorem sedp_build_exact b m config :
  builder_ok b m -> config_ok config ->
  let l := announcement_bytes config in
  (announces config (capacity_ b) ->
    build b config = Done {| buffer_ := Some (l ++ drop (length l) m);
      capacity_ := capacity_ b; size_ := zlen l; error_ := sedp_none;
      rtps_error_ := Data.rtps_none |}) /\
  (~ announces config (capacity_ b) -> exists e r, e <> sedp_none /\
    (e = buffer_overflow -> 2 ^ 31 * 1000000000 <= max_blocking_time_ns (endpoint config)) /\
    build b config = Stop {| buffer_ := Some m; capacity_ := capacity_ b; size_ := 0;
      error_ := e; rtps_error_ := r |}).
Proof.
  intros Hb Hc l. pose proof (sedp_build_cases b m config Hb Hc) as Hcases.
  pose proof (announces_spec config (capacity_ b) Hc) as Hspec.
  pose proof (duration_fits (max_blocking_time_ns (endpoint config))
    (proj1 (eo_blocking _ (co_endpoint _ Hc)))) as Hfit.
  destruct (can_announce config (capacity_ b)); cbv zeta in Hcases.
  - split; [done|]. intros Hn. by destruct Hn; apply Hspec.
  - split; [by intros Ha%Hspec|]. intros _. destruct Hcases as (e & r & H1 & H2 & H3).
    exists e, r. split_and!; [done| |done]. intros He%H2. lia.
Qed.

(** ** Untrusted announcements *)

(** What an accepted announcement guarantees to the endpoint table: names that
    are nonempty and free of NUL, known QoS values and valid locators. *)
Record endpoint_sound (e : SedpEndpointData) : Prop := {
  es_unicast : list_sound sedp_max_locators (unicast_locators e);
  es_multicast : list_sound sedp_max_locators (multicast_locators e);
  es_topic : length (topic_name e) = 256%nat /\ 0 <= topic_name_size e <= sedp_max_topic_name /\
    Forall (fun c => c <> 0) (topic_of e);
  es_type : length (type_name e) = 256%nat /\ 0 <= type_name_size e <= sedp_max_type_name /\
    Forall (fun c => c <> 0) (type_of e);
  es_reliability : valid_reliability (reliability e) = true;
  es_durability : valid_durability (durability e) = true;
  es_blocking : 0 <= max_blocking_time_ns e < 2 ^ 63;
  es_id : length (endpoint_id e) = 4%nat;
}.

(** The parser's state: the candidate is sound, keeps the announced kind and
    participant, and has the names that were seen. *)
Record state_sound (expected : GuidPrefix) (k : EndpointKind) (s : parse_state) : Prop := {
  ss_endpoint : endpoint_sound (candidate s);
  ss_kind : kind (candidate s) = k;
  ss_participant : participant_guid_prefix (candidate s) = expected;
  ss_topic : pid_topic_name ∈ seen s -> 1 <= topic_name_size (candidate s);
  ss_type : pid_type_name ∈ seen s -> 1 <= type_name_size (candidate s);
}.

Lemma parse_string_post {S} (Inv : S -> Prop) value order output
    (k : list Z * Z -> outcome SedpError S) :
  bytes_ok value -> length output = 256%nat ->
  (forall text n, length text = 256%nat -> 1 <= n <= 255 ->
     Forall (fun c => c <> 0) (take (Z.to_nat n) text) -> post sedp_none Inv (k (text, n))) ->
  post sedp_none Inv (parse_string value order output ≫= k).
Proof.
  intros Hb Ho Hk. unfold parse_string, read_u32.
  destruct (Z.ltb_spec (zlen value) 8); cbn [stop_if mbind outcome_bind]; [done|].
  destruct (read_uint32_Done (E:=SedpError) value 0 order) as (n & -> & Hn); [done|lia..|].
  cbn [mbind outcome_bind].
  destruct (Z.leb_spec n 1); cbn [orb stop_if mbind outcome_bind]; [done|].
  destruct (Z.ltb_spec (zlen value - 4) n); cbn [orb stop_if mbind outcome_bind]; [done|].
  destruct (Z.ltb_spec (zlen output) n); cbn [orb stop_if mbind outcome_bind]; [done|].
  destruct (proj2 (mload_is_Some value (4 + n - 1))) as [x ->]; [lia|].
  cbn [access mbind outcome_bind].
  destruct (negb (x =? 0)); cbn [stop_if mbind outcome_bind]; [done|].
  destruct (proj2 (mslice_is_Some value 4 (n - 1))) as [c Hc]; [lia|]. rewrite Hc.
  apply mslice_length in Hc. cbn [access mbind outcome_bind].
  destruct (existsb (fun c => c =? 0) c) eqn:He; cbn [stop_if mbind outcome_bind]; [done|].
  rewrite mcopy_start by lia. cbn [access mbind outcome_bind]. apply Hk; [|lia|].
  - rewrite length_app, length_drop. lia.
  - rewrite take_app_length' by lia. apply Forall_forall. intros a Hin ->.
    apply not_true_iff_false in He. apply He, existsb_exists. exists 0.
    split; [by apply list_elem_of_In|done].
Qed.

Lemma sedp_handle_post expected k order id value s :
  bytes_ok value -> state_sound expected k s ->
  post sedp_none (state_sound expected k) (handle expected order id value s).
Proof.
  intros Hb Hs. pose proof Hs as [[U M T Y R D B I] Hk Hp Ht Hy]. unfold handle.
  pose proof T as [T1 _]. pose proof Y as [Y1 _].
  assert (forall i, i <> pid_topic_name -> i <> pid_type_name -> forall e,
    endpoint_sound e -> kind e = k -> participant_guid_prefix e = expected ->
    topic_name_size e = topic_name_size (candidate s) ->
    type_name_size e = type_name_size (candidate s) -> state_sound expected k (mark i s e))
    as Hmark.
  { intros i H1 H2 e He Hke Hpe Hte Hye. split; cbn [candidate mark seen]; try done;
      rewrite ?Hte, ?Hye; intros [Heq|Hin]%elem_of_cons; (congruence || auto). }
  destruct (Z.eqb_spec id 0); [done|].
  destruct (Z.eqb_spec id pid_endpoint_guid) as [->|_].
  { apply post_guard; [done|]. intros _. apply post_guard; [done|].
    intros Hz%negb_false_iff%Z.eqb_eq. apply post_slice; [lia|]. intros g _.
    apply post_guard; [done|]. intros _. apply post_slice; [lia|]. intros i Hi.
    apply Hmark; try done. split; cbn; (done || lia). }
  destruct (Z.eqb_spec id pid_participant_guid) as [->|_].
  { apply post_guard; [done|]. intros _. apply post_guard; [done|].
    intros Hz%negb_false_iff%Z.eqb_eq. apply post_slice; [lia|]. intros g _.
    apply post_slice; [lia|]. intros i _. apply post_guard; [done|]. intros _.
    by apply Hmark. }
  destruct (Z.eqb_spec id pid_topic_name) as [->|_].
  { apply post_guard; [done|]. intros _. apply parse_string_post; [done..|].
    intros text len H1 H2 H3. split; cbn; try done; [|lia|].
    - split; try done. split; [done|]. unfold sedp_max_topic_name. split; [cbn; lia|done].
    - intros [H4|Hin]%elem_of_cons; [done|auto]. }
  destruct (Z.eqb_spec id pid_type_name) as [->|_].
  { apply post_guard; [done|]. intros _. apply parse_string_post; [done..|].
    intros text len H1 H2 H3. split; cbn; try done; [| |lia].
    - split; try done. split; [done|]. unfold sedp_max_type_name. split; [cbn; lia|done].
    - intros [H4|Hin]%elem_of_cons; [done|auto]. }
  destruct (Z.eqb_spec id pid_reliability) as [->|_].
  { apply post_guard; [done|]. intros _. apply post_guard; [done|].
    intros Hz%negb_false_iff%Z.eqb_eq. apply post_word; [done|lia..|]. intros v _.
    apply post_guard; [done|]. intros Hv%negb_false_iff.
    apply post_duration; [done|lia..|done|]. intros d Hd. by apply Hmark. }
  destruct (Z.eqb_spec id pid_durability) as [->|_].
  { apply post_guard; [done|]. intros _. apply post_guard; [done|].
    intros Hz%negb_false_iff%Z.eqb_eq. apply post_word; [done|lia..|]. intros v _.
    apply post_guard; [done|]. intros Hv%negb_false_iff. by apply Hmark. }
  destruct (Z.eqb_spec id pid_expects_inline_qos) as [->|_].
  { apply post_guard; [done|]. intros _. apply post_guard; [done|].
    intros Hz%negb_false_iff%Z.eqb_eq. apply post_load; [lia|]. intros v.
    apply post_guard; [done|]. intros _. by apply Hmark. }
  destruct (id =? pid_unicast_locator).
  { by apply post_locator. }
  destruct (id =? pid_multicast_locator).
  { by apply post_locator. }
  by apply post_guard.
Qed.

(** What a successful parse hands to its caller. *)
Record view_sound (v : SedpMessageView) (expected_participant : GuidPrefix) : Prop := {
  sv_endpoint : endpoint_sound (view_endpoint v);
  sv_participant : participant_guid_prefix (view_endpoint v) = expected_participant;
  sv_id : valid_endpoint_id (endpoint_id (view_endpoint v)) (kind (view_endpoint v)) = true;
  sv_names : 1 <= topic_name_size (view_endpoint v) /\ 1 <= type_name_size (view_endpoint v);
  sv_sequence : 1 <= view_sequence_number v <= i64_max;
}.

Lemma initial_sound data expected k :
  state_sound expected k
    {| candidate := initial_endpoint data expected k; seen := []; seen_locator := false |}.
Proof.
  pose proof (default_list_sound sedp_max_locators ltac:(done)) as Hl.
  split; cbn -[BoundedLocatorList_default]; (done || by intros ?%elem_of_nil).
Qed.

Lemma sedp_accept_post expected k sentinel s :
  state_sound expected k s ->
  match accept sentinel s with
  | Fault => False
  | Stop e => e <> sedp_none
  | Done e => e = candidate s /\ valid_endpoint_id (endpoint_id e) (kind e) = true /\
      1 <= topic_name_size e /\ 1 <= type_name_size e
  end.
Proof.
  intros [_ _ _ Ht Hy]. unfold accept.
  destruct sentinel; cbn [negb stop_if mbind outcome_bind]; [|done].
  match goal with |- context [stop_if ?c missing_required_parameter] =>
    destruct c eqn:Hm end; cbn [stop_if mbind outcome_bind]; [done|].
  destruct (valid_endpoint_id _ _) eqn:Hv; cbn [negb stop_if mbind outcome_bind]; [|done].
  rewrite !orb_false_iff, !negb_false_iff in Hm. destruct Hm as [[[_ H1] H2] _].
  unfold seen_before in H1, H2. rewrite bool_decide_eq_true in H1, H2.
  split_and!; auto.
Qed.

Lemma sedp_announcement_post data payload expected :
  Data.data_view_ok data payload ->
  match parse_announcement data expected with
  | Fault => False
  | Stop e => e <> sedp_none
  | Done v => view_sound v expected
  end.
Proof.
  intros [D1 D2 D3 D4 D5 D6 _ _]. unfold parse_announcement. rewrite D2, D3.
  destruct (announced_kind (Data.writer_id data)) as [k|]; cbn [mbind outcome_bind]; [|done].
  destruct (entity_neqb _ _ && _); cbn [stop_if mbind outcome_bind]; [done|].
  destruct (bool_decide _); cbn [negb stop_if mbind outcome_bind]; [|done].
  destruct (Z.ltb_spec (zlen payload) 8); cbn [access stop_if mbind outcome_bind]; [done|].
  destruct (proj2 (mload_is_Some payload 0)) as [p0 ->]; [lia|].
  destruct (proj2 (mload_is_Some payload 1)) as [p1 ->]; [lia|].
  cbn [access mbind outcome_bind].
  destruct (negb (p0 =? 0) || _); cbn [stop_if mbind outcome_bind]; [done|].
  set (order := if p1 =? 3 then little_endian else big_endian).
  pose proof (parameter_loop_post malformed_parameter (handle expected order)
    (state_sound expected k) (fun e => e <> sedp_none) payload order
    ltac:(done) (S (Z.to_nat (zlen payload))) 4
    {| candidate := initial_endpoint data expected k; seen := []; seen_locator := false |}
    D5 ltac:(lia) ltac:(lia) ltac:(lia) (sedp_handle_post expected k order)
    (initial_sound data expected k)) as Hloop.
  destruct (parameter_loop _ _ _ _ _ _ _ _) as [|e|[sentinel s]]; [done..|].
  cbn [mbind outcome_bind]. pose proof (sedp_accept_post expected k sentinel s Hloop) as Hacc.
  destruct (accept sentinel s) as [|e|e]; [done..|]. cbn [mbind outcome_bind].
  destruct Hacc as (-> & ? & ? & ?). destruct Hloop. by split.
Qed.

(** Parsing an arbitrary datagram as an endpoint announcement terminates
    without an access outside it; the caller's view changes only on success, and
    then holds an endpoint of the expected participant whose id fits its kind,
    with nonempty NUL-free names of at most 255 characters, known reliability and
    durability kinds and only valid UDPv4 locators. *)
Theorem sedp_parse_sound message message_size expected_participant view :
  Router.message_ok message message_size ->
  exists r v, parse_sedp_message message message_size expected_participant view = Some (r, v) /\
    (error r <> sedp_none -> v = view) /\
    (error r = sedp_none -> view_sound v expected_participant).
Proof.
  intros Hm. pose proof (Data.parse_body_post message message_size Hm) as Hdata.
  unfold parse_sedp_message, parse_body, Data.parse_data_message.
  rewrite checked_commit by apply Data.parse_body_error.
  destruct (Data.parse_body message message_size) as [|e|data]; [done| |];
    cbn [map_stop mbind outcome_bind].
  { eexists _, _. split; [done|]. done. }
  destruct Hdata as [payload Hview].
  pose proof (sedp_announcement_post data payload expected_participant Hview) as Hpost.
  destruct (parse_announcement data expected_participant) as [|e|v]; [done|..];
    cbn [map_stop mbind outcome_bind]; (eexists _, _; split; [done|]); done.
Qed.

(** ** Matching *)

(** The caller's names are at least as long as announced. *)
Record local_ok (local : LocalEndpointDescriptor) : Prop := {
  lc_topic : forall t, local_topic_name local = Some t ->
    0 <= local_topic_name_size local <= zlen t;
  lc_type : forall t, local_type_name local = Some t ->
    0 <= local_type_name_size local <= zlen t;
}.

Definition valid_local (local : LocalEndpointDescriptor) : Prop :=
  local_topic_name local <> None /\ local_type_name local <> None /\
  1 <= local_topic_name_size local <= sedp_max_topic_name /\
  1 <= local_type_name_size local <= sedp_max_type_name /\
  valid_reliability (local_reliability local) = true /\
  valid_durability (local_durability local) = true.

(** The name behind a pointer. *)
Definition name_at (p : option (list Z)) (n : Z) : list Z :=
  take (Z.to_nat n) (default [] p).

(** The writer offers at least what the reader requests. *)
Definition qos_compatible (k : EndpointKind) (local remote : Z) : Prop :=
  match k with writer => remote <= local | reader => local <= remote end.

Definition compatible (local : LocalEndpointDescriptor) (remote : SedpEndpointData) : Prop :=
  valid_local local /\ local_kind local <> kind remote /\
  name_at (local_topic_name local) (local_topic_name_size local) = topic_of remote /\
  name_at (local_type_name local) (local_type_name_size local) = type_of remote /\
  qos_compatible (local_kind local) (local_reliability local) (reliability remote) /\
  qos_compatible (local_kind local) (local_durability local) (durability remote).

Lemma same_text_spec {E} l n r k :
  0 <= n <= zlen l -> 0 <= k <= zlen r ->
  same_text l n r k = (Done (bool_decide (take (Z.to_nat n) l = take (Z.to_nat k) r))
    : outcome E bool).
Proof.
  intros Hl Hr. unfold same_text.
  destruct (Z.eqb_spec n k) as [<-|Hne]; cbn [negb].
  - destruct (Z.eqb_spec n 0) as [->|]; [by rewrite bool_decide_true|].
    assert (forall x : list Z, n <= zlen x -> mslice x 0 n = Some (take (Z.to_nat n) x)) as Hs.
    { intros x Hx. unfold mslice.
      destruct (Z.leb_spec 0 n), (Z.leb_spec (0 + n) (zlen x)); try lia. done. }
    by rewrite !Hs by lia.
  - rewrite bool_decide_false; [done|]. intros Heq%(f_equal length).
    rewrite !length_take in Heq. lia.
Qed.

Lemma valid_local_spec local :
  local_ok local ->
  bool_decide (local_topic_name local = None) || bool_decide (local_type_name local = None) ||
  (local_topic_name_size local =? 0) || (sedp_max_topic_name <? local_topic_name_size local) ||
  (local_type_name_size local =? 0) || (sedp_max_type_name <? local_type_name_size local) ||
  negb (valid_reliability (local_reliability local)) ||
  negb (valid_durability (local_durability local)) = false <-> valid_local local.
Proof.
  intros [Ht Hy]. unfold valid_local.
  rewrite !orb_false_iff, !negb_false_iff, !bool_decide_eq_false, !Z.eqb_neq, !Z.ltb_ge.
  destruct (local_topic_name local) as [t|]; [|naive_solver].
  destruct (local_type_name local) as [y|]; [|naive_solver].
  specialize (Ht t eq_refl). specialize (Hy y eq_refl). split; intros; split_and!; naive_solver lia.
Qed.

Lemma rxo_decide k local remote :
  let is_writer := bool_decide (k = writer) in
  let is_reader := bool_decide (k = reader) in
  ((if is_writer then local else remote) <? (if is_reader then local else remote)) = false <->
  qos_compatible k local remote.
Proof. destruct k; cbn; rewrite Z.ltb_ge; done. Qed.

Lemma match_cases local remote :
  local_ok local -> endpoint_sound remote ->
  evaluate_endpoint_match local remote <> Fault /\
  evaluate_endpoint_match local remote <> Stop matched /\
  (evaluate_endpoint_match local remote = Done matched <-> compatible local remote) /\
  (forall s, evaluate_endpoint_match local remote = Done s -> s = matched).
Proof.
  intros Hl Hr. pose proof (valid_local_spec local Hl) as Hvalid.
  destruct Hl as [Ht Hy]. destruct Hr as [_ _ (T1 & T2 & _) (Y1 & Y2 & _) _ _ _ _].
  unfold sedp_max_topic_name, sedp_max_type_name in T2, Y2.
  unfold evaluate_endpoint_match, compatible. cbv zeta.
  match type of Hvalid with ?c = false <-> _ => destruct c end;
    cbn [stop_if mbind outcome_bind].
  { split_and!; try done. split; [done|]. intros (Hv & _). by apply Hvalid in Hv. }
  pose proof (proj1 Hvalid eq_refl) as Hv. pose proof Hv as (H1 & H2 & _).
  destruct (local_topic_name local) as [t|] eqn:Htn; [|done].
  destruct (local_type_name local) as [y|] eqn:Hyn; [|done].
  specialize (Ht t eq_refl). specialize (Hy y eq_refl).
  destruct (bool_decide (local_kind local = kind remote)) eqn:Hk;
    [apply bool_decide_eq_true in Hk|apply bool_decide_eq_false in Hk];
    cbn [stop_if mbind outcome_bind access]; [naive_solver|].
  rewrite !same_text_spec by lia. cbn [stop_if mbind outcome_bind access].
  unfold name_at. cbn [default]. fold (topic_of remote). fold (type_of remote).
  destruct (bool_decide (_ = topic_of remote)) eqn:Htopic;
    [apply bool_decide_eq_true in Htopic|apply bool_decide_eq_false in Htopic];
    cbn [negb stop_if mbind outcome_bind access]; [|naive_solver].
  destruct (bool_decide (_ = type_of remote)) eqn:Htype;
    [apply bool_decide_eq_true in Htype|apply bool_decide_eq_false in Htype];
    cbn [negb stop_if mbind outcome_bind access]; [|naive_solver].
  pose proof (rxo_decide (local_kind local) (local_reliability local) (reliability remote))
    as Hrel.
  pose proof (rxo_decide (local_kind local) (local_durability local) (durability remote))
    as Hdur. cbv zeta in Hrel, Hdur.
  destruct (_ <? _) in Hrel |- *; cbn [stop_if mbind outcome_bind]; [naive_solver|].
  destruct (_ <? _) in Hdur |- *; cbn [stop_if mbind outcome_bind]; [naive_solver|].
  naive_solver.
Qed.

(** C39: matching decides compatibility: on well-formed names it never reads
    outside them, and reports [matched] exactly when the local endpoint is valid,
    the two are a writer and a reader of the same topic and type, and the writer
    offers at least the reliability and durability the reader requests. *)
Theorem endpoint_match_exact local remote :
  local_ok local -> endpoint_sound remote ->
  evaluate_endpoint_match local remote <> Fault /\
  evaluate_endpoint_match local remote <> Stop matched /\
  (evaluate_endpoint_match local remote = Done matched <-> compatible local remote) /\
  (forall s, evaluate_endpoint_match local remote = Done s -> s = matched).
Proof. apply match_cases. Qed.

(** The descriptor a participant uses for the endpoint it announces as [e]. *)
Definition descriptor_of (e : SedpEndpointData) : LocalEndpointDescriptor :=
  {| local_kind := kind e; local_topic_name := Some (topic_name e);
     local_topic_name_size := topic_name_size e; local_type_name := Some (type_name e);
     local_type_name_size := type_name_size e; local_reliability := reliability e;
     local_durability := durability e |}.

Lemma descriptor_ok e :
  endpoint_sound e -> 1 <= topic_name_size e -> 1 <= type_name_size e ->
  local_ok (descriptor_of e) /\ valid_local (descriptor_of e).
Proof.
  intros [_ _ (T1 & T2 & _) (Y1 & Y2 & _) R D _] Ht Hy.
  unfold sedp_max_topic_name, sedp_max_type_name in *. split.
  - split; cbn; intros t [= <-]; lia.
  - split_and!; cbn; try done; unfold sedp_max_topic_name, sedp_max_type_name; lia.
Qed.

Lemma compatible_symmetric a b :
  valid_local (descriptor_of a) -> compatible (descriptor_of b) a ->
  compatible (descriptor_of a) b.
Proof.
  intros Hv (_ & Hk & Ht & Hy & Hr & Hd). unfold compatible. cbn in *.
  split_and!; [done|by intros ?|by symmetry..| |]; destruct (kind a), (kind b); done.
Qed.

(** The two ends of a connection agree: participant A matches its endpoint
    against B's announcement exactly when B matches its endpoint against A's. *)
Theorem endpoint_match_symmetric a b :
  endpoint_sound a -> endpoint_sound b ->
  1 <= topic_name_size a -> 1 <= type_name_size a ->
  1 <= topic_name_size b -> 1 <= type_name_size b ->
  evaluate_endpoint_match (descriptor_of a) b = Done matched <->
  evaluate_endpoint_match (descriptor_of b) a = Done matched.
Proof.
  intros Ha Hb A1 A2 B1 B2.
  destruct (descriptor_ok a Ha A1 A2) as [La Va]. destruct (descriptor_ok b Hb B1 B2) as [Lb Vb].
  destruct (match_cases _ _ La Hb) as (_ & _ & Hab & _).
  destruct (match_cases _ _ Lb Ha) as (_ & _ & Hba & _).
  rewrite Hab, Hba. split; by apply compatible_symmetric.
Qed.

(** ** A concrete endpoint *)

Definition demo_locator : Locator :=
  {| Locators.kind := 1; port := 7411; address := replicate 12 0 ++ [10; 0; 0; 9] |}.

Definition demo_endpoint (k : EndpointKind) (rel : Z) : SedpEndpointData :=
  {| protocol_version := ProtocolVersion_default; vendor_id := [1; 2];
     participant_guid_prefix := [1; 2; 3; 4; 5; 6; 7; 8; 9; 10; 11; 12];
     endpoint_id := [0; 0; 9; match k with writer => 3 | reader => 4 end]; kind := k;
     topic_name := [114; 116] ++ replicate 254 0; topic_name_size := 2;
     type_name := [73; 109; 97] ++ replicate 253 0; type_name_size := 3;
     unicast_locators := filled 4 [demo_locator]; multicast_locators := filled 4 [];
     reliability := rel; durability := transient_local; max_blocking_time_ns := 250000001;
     expects_inline_qos := false |}.

Definition demo_config (ns : Z) : SedpAnnouncementConfig :=
  {| endpoint := set_reliability (demo_endpoint writer reliable) reliable ns;
     reader_id := entity_id_unknown; sequence_number := 5;
     submessage_byte_order := little_endian; parameter_byte_order := big_endian |}.

Lemma demo_lists_typed xs :
  xs = [] \/ xs = [demo_locator] -> list_typed 4 (filled 4 xs).
Proof.
  assert (locator_ok demo_locator /\ locator_ok Locator_default) as [H1 H2]
    by (split; split_and!; cbn; try lia; repeat constructor; lia).
  intros [-> | ->]; split; cbn; try lia; repeat constructor; done.
Qed.

Lemma demo_sedp_config_ok ns : 0 <= ns < 2 ^ 64 -> config_ok (demo_config ns).
Proof.
  intros. split; [|done|cbn; lia].
  split; try (apply demo_lists_typed; by auto); cbn -[Z.pow]; try done; lia.
Qed.

Lemma demo_endpoint_sound k rel :
  valid_reliability rel = true -> endpoint_sound (demo_endpoint k rel).
Proof.
  intros Hr. split.
  - split; [apply (filled_wf 4); cbn; lia|]. by repeat constructor.
  - split; [apply (filled_wf 4); cbn; lia|constructor].
  - split; [done|]. split; [cbn; unfold sedp_max_topic_name; lia|].
    change (topic_of _) with [114; 116]. by repeat constructor.
  - split; [done|]. split; [cbn; unfold sedp_max_type_name; lia|].
    change (type_of _) with [73; 109; 97]. by repeat constructor.
  - done.
  - done.
  - cbn. lia.
  - by destruct k.
Qed.

Lemma demo_builder_ok n :
  0 <= n < 2 ^ 64 ->
  builder_ok (SedpMessageBuilder_new (Some (replicate (Z.to_nat n) 0)) n)
    (replicate (Z.to_nat n) 0).
Proof.
  intros Hn. split; [done|]. cbn [capacity_ SedpMessageBuilder_new].
  rewrite length_replicate. lia.
Qed.

Definition demo_builder (n : Z) : SedpMessageBuilder :=
  SedpMessageBuilder_new (Some (replicate (Z.to_nat n) 0)) n.

Definition demo_sedp_view : SedpMessageView :=
  {| view_endpoint := SedpEndpointData_default; view_sequence_number := 0;
     view_submessage_byte_order := little_endian;
     view_parameter_byte_order := little_endian |}.

Lemma sedp_roundtrip_witness :
  exists b' bytes, build (demo_builder 512) (demo_config 250000001) = Done b' /\
    buffer_ b' = Some bytes /\
    parse_sedp_message (Some (take (Z.to_nat (size_ b')) bytes)) (size_ b')
      [1; 2; 3; 4; 5; 6; 7; 8; 9; 10; 11; 12] demo_sedp_view =
    Some ({| error := sedp_none; rtps_error := Data.rtps_none; bytes := size_ b' |},
          received_view (demo_config 250000001)).
Proof.
  destruct (build (demo_builder 512) (demo_config 250000001)) as [| |b'] eqn:Hb;
    [vm_compute in Hb; discriminate..|].
  destruct (sedp_roundtrip (demo_builder 512) (replicate (Z.to_nat 512) 0)
    (demo_config 250000001) b' demo_sedp_view (demo_builder_ok 512 ltac:(lia))
    (demo_sedp_config_ok 250000001 ltac:(lia)) Hb) as (bytes & H1 & H2 & _).
  exists b', bytes. split_and!; [done|exact H1|exact H2].
Defined.

Lemma sedp_build_exact_witness :
  exists e r, e <> sedp_none /\
    build (demo_builder 512) (demo_config (2 ^ 62)) =
    Stop {| buffer_ := Some (replicate (Z.to_nat 512) 0); capacity_ := 512; size_ := 0;
            error_ := e; rtps_error_ := r |}.
Proof.
  pose proof (sedp_build_exact (demo_builder 512) (replicate (Z.to_nat 512) 0)
    (demo_config (2 ^ 62)) (demo_builder_ok 512 ltac:(lia))
    (demo_sedp_config_ok (2 ^ 62) ltac:(lia))) as Hx.
  destruct Hx as [_ Hx]. destruct Hx as (e & r & H1 & _ & H2).
  { intros (_ & _ & _ & _ & H & _). vm_compute in H. discriminate. }
  exists e, r. split; [exact H1|exact H2].
Defined.

Lemma sedp_parse_sound_witness :
  exists r v, parse_sedp_message (Some (replicate 90 2)) 90 [] demo_sedp_view = Some (r, v) /\
    (error r <> sedp_none -> v = demo_sedp_view) /\
    (error r = sedp_none -> view_sound v []).
Proof.
  apply (sedp_parse_sound (Some (replicate 90 2)) 90 [] demo_sedp_view).
  split; [lia|]. intros m [= <-]. split; [done|]. repeat constructor; lia.
Defined.

Lemma endpoint_match_exact_witness :
  evaluate_endpoint_match (descriptor_of (demo_endpoint writer best_effort))
    (demo_endpoint reader reliable) = Stop reliability_incompatible /\
  ~ compatible (descriptor_of (demo_endpoint writer best_effort))
      (demo_endpoint reader reliable).
Proof.
  split; [vm_compute; reflexivity|].
  destruct (endpoint_match_exact (descriptor_of (demo_endpoint writer best_effort))
    (demo_endpoint reader reliable)) as (_ & _ & H & _);
    [by apply descriptor_ok; [apply demo_endpoint_sound|..]|by apply demo_endpoint_sound|].
  intros Hc. apply H in Hc. vm_compute in Hc. discriminate.
Defined.

Lemma endpoint_match_symmetric_witness :
  evaluate_endpoint_match (descriptor_of (demo_endpoint writer reliable))
    (demo_endpoint reader best_effort) = Done matched /\
  evaluate_endpoint_match (descriptor_of (demo_endpoint reader best_effort))
    (demo_endpoint writer reliable) = Done matched.
Proof.
  assert (evaluate_endpoint_match (descriptor_of (demo_endpoint writer reliable))
    (demo_endpoint reader best_effort) = Done matched) as H by (vm_compute; reflexivity).
  split; [exact H|]. revert H.
  apply (endpoint_match_symmetric (demo_endpoint writer reliable)
    (demo_endpoint reader best_effort)); try apply demo_endpoint_sound; (reflexivity || cbn; lia).
Defined.

End Sedp.
