(* ===== verification/EndpointTable.v ===== *)
(** * The table of discovered endpoints

    [DiscoveredEndpointTable] of [include/openrtdds/rtps/sedp.hpp], refined to a
    finite map from endpoint GUIDs to endpoints. *)
From stdpp Require Import gmap.
From S2P Require Import Prelude.
From S2P Require Import Bytes.
From S2P Require Import Types.
From S2P Require Import Locators.
From S2P Require Import SlotTable.
From S2P Require Import Sedp.

Module Endpoints.
Import Types Sedp Slots.

Inductive EndpointUpdate : Set := update_none | added | updated.

Record EndpointTableResult : Set := {
  error : SedpError;
  update : EndpointUpdate;
  index : Z;
}.

Record DiscoveredEndpoint : Set := {
  data : SedpEndpointData;
  entry_sequence : Z;
  entry_occupied : bool;
}.

Definition DiscoveredEndpoint_default : DiscoveredEndpoint :=
  {| data := SedpEndpointData_default; entry_sequence := 0; entry_occupied := false |}.

(** The GUID of an endpoint. *)
Definition Guid : Set := GuidPrefix * EntityId.

Definition guid_of (e : SedpEndpointData) : Guid :=
  (participant_guid_prefix e, endpoint_id e).

#[global] Instance endpoint_slot : Slot DiscoveredEndpoint Guid := {|
  occupied := entry_occupied;
  slot_key e := guid_of (data e);
  slot_empty := DiscoveredEndpoint_default;
  slot_empty_free := eq_refl;
|}.

Record DiscoveredEndpointTable : Set := {
  entries_ : list DiscoveredEndpoint;
  size_ : Z;
}.

Section EndpointTable.
Context (Capacity : nat).

Definition DiscoveredEndpointTable_new : DiscoveredEndpointTable :=
  {| entries_ := replicate Capacity DiscoveredEndpoint_default; size_ := 0 |}.

Definition entry_for (announcement : SedpMessageView) : DiscoveredEndpoint :=
  {| data := view_endpoint announcement;
     entry_sequence := view_sequence_number announcement; entry_occupied := true |}.

Definition rejected (e : SedpError) (i : Z) : EndpointTableResult :=
  {| error := e; update := update_none; index := i |}.

Definition upsert (t : DiscoveredEndpointTable) (announcement : SedpMessageView)
    : EndpointTableResult * DiscoveredEndpointTable :=
  match first_where (holds (guid_of (view_endpoint announcement))) (entries_ t) with
  | Some (i, entry) =>
      if view_sequence_number announcement <=? entry_sequence entry
      then (rejected stale_announcement (Z.of_nat i), t)
      else ({| error := sedp_none; update := updated; index := Z.of_nat i |},
            {| entries_ := <[i := {| data := view_endpoint announcement;
                                     entry_sequence := view_sequence_number announcement;
                                     entry_occupied := entry_occupied entry |}]> (entries_ t);
               size_ := size_ t |})
  | None =>
      match first_where (fun e => negb (occupied e)) (entries_ t) with
      | Some (i, _) =>
          ({| error := sedp_none; update := added; index := Z.of_nat i |},
           {| entries_ := <[i := entry_for announcement]> (entries_ t);
              size_ := add64 (size_ t) 1 |})
      | None => (rejected table_full 0, t)
      end
  end.

(** [entry.data.participant_guid_prefix.value == participant.value] *)
Definition belongs_to (participant : GuidPrefix) (e : DiscoveredEndpoint) : bool :=
  bool_decide (participant_guid_prefix (data e) = participant).

(** [remove_participant]: the error code, the table, the caller's array and
    [removed_size]; [None] is a write outside that array. *)
Definition remove_participant (t : DiscoveredEndpointTable) (participant : GuidPrefix)
    (removed : option (list EntityId)) (removed_capacity : Z)
    : option (SedpError * DiscoveredEndpointTable * option (list EntityId) * Z) :=
  match purge_checked invalid_argument action_capacity_exceeded (belongs_to participant)
          (fun e => endpoint_id (data e)) (entries_ t) removed removed_capacity (size_ t) with
  | Fault => None
  | Stop e => Some (e, t, removed, 0)
  | Done (entries, removed, removed_size, size) =>
      Some (sedp_none, {| entries_ := entries; size_ := size |}, removed, removed_size)
  end.

Definition find (t : DiscoveredEndpointTable) (participant : GuidPrefix) (endpoint : EntityId)
    : option DiscoveredEndpoint :=
  snd <$> first_where (holds (participant, endpoint)) (entries_ t).

(** ** Specification: a map of endpoints *)

Definition directory (t : DiscoveredEndpointTable) : gmap Guid DiscoveredEndpoint :=
  contents (entries_ t).

(** Only a larger sequence number replaces an endpoint. *)
Definition spec_upsert (D : gmap Guid DiscoveredEndpoint) (announcement : SedpMessageView)
    : SedpError * EndpointUpdate * gmap Guid DiscoveredEndpoint :=
  let guid := guid_of (view_endpoint announcement) in
  let D' := <[guid := {| data := view_endpoint announcement;
                         entry_sequence := view_sequence_number announcement;
                         entry_occupied := true |}]> D in
  match D !! guid with
  | Some e =>
      if decide (entry_sequence e < view_sequence_number announcement)
      then (sedp_none, updated, D') else (stale_announcement, update_none, D)
  | None =>
      if decide (size D < Capacity)%nat
      then (sedp_none, added, D') else (table_full, update_none, D)
  end.

Definition of_participant (participant : GuidPrefix) (D : gmap Guid DiscoveredEndpoint)
    : gmap Guid DiscoveredEndpoint :=
  filter (fun ke => ke.1.1 = participant) D.

Definition without_participant (participant : GuidPrefix) (D : gmap Guid DiscoveredEndpoint)
    : gmap Guid DiscoveredEndpoint :=
  filter (fun ke => ke.1.1 <> participant) D.

Definition spec_remove_error (D : gmap Guid DiscoveredEndpoint) (participant : GuidPrefix)
    (removed : option (list EntityId)) (removed_capacity : Z) : SedpError :=
  if decide (of_participant participant D <> ∅ /\ removed = None) then invalid_argument
  else if decide (removed_capacity < Z.of_nat (size (of_participant participant D)))
  then action_capacity_exceeded else sedp_none.

Definition table_wf (t : DiscoveredEndpointTable) : Prop :=
  table_ok Capacity (entries_ t) (size_ t).

Context (Capacity_bound : Z.of_nat Capacity < 2 ^ 64).

Lemma endpoint_table_new_wf : table_wf DiscoveredEndpointTable_new.
Proof. exact (table_ok_empty (HS := endpoint_slot) Capacity). Qed.

Lemma find_directory t participant endpoint :
  find t participant endpoint = directory t !! (participant, endpoint).
Proof. apply search_contents. Qed.

Lemma endpoint_upsert_cases t announcement :
  table_wf t ->
  let '(r, t') := upsert t announcement in
  table_wf t' /\
  spec_upsert (directory t) announcement = (error r, update r, directory t') /\
  (error r = sedp_none -> mload (entries_ t') (index r) = Some (entry_for announcement)).
Proof.
  intros Hwf. unfold upsert, spec_upsert.
  set (guid := guid_of (view_endpoint announcement)).
  pose proof (search_contents guid (entries_ t)) as Hsearch.
  change (contents (entries_ t)) with (directory t) in Hsearch. rewrite <- Hsearch.
  assert (forall p i x, first_where p (entries_ t) = Some (i, x) ->
    mload (<[i := entry_for announcement]> (entries_ t)) (Z.of_nat i) =
    Some (entry_for announcement)) as Hload.
  { intros p i x [Hi _]%first_where_Some. unfold mload.
    destruct (Z.ltb_spec (Z.of_nat i) 0); [lia|]. rewrite Nat2Z.id.
    apply list_lookup_insert_eq. by eapply lookup_lt_Some. }
  destruct (first_where (holds guid) (entries_ t)) as [[i e]|] eqn:Hf;
    cbn [fmap option_fmap option_map snd].
  - pose proof (first_where_Some _ _ _ _ Hf) as [_ [Ho Hk]%holds_true]. cbn in Ho.
    destruct (Z.leb_spec (view_sequence_number announcement) (entry_sequence e));
      [by rewrite decide_False by lia|rewrite decide_True by lia].
    rewrite Ho. fold (entry_for announcement). cbn [error update index entries_ size_].
    split_and!; [|unfold directory; cbn [entries_]; do 2 f_equal; symmetry|by intros _; eapply Hload].
    + eapply (table_ok_update _ _ _ guid); done.
    + eapply (update_contents guid); done.
  - destruct (first_where (fun e => negb (occupied e)) (entries_ t)) as [[i e]|] eqn:Hg.
    + rewrite decide_True by (by eapply table_ok_free).
      pose proof (table_ok_size _ _ _ Hwf) as [Hs1 Hs2].
      pose proof (table_ok_free _ _ _ _ _ Hwf Hg) as Hs3.
      rewrite add64_id by lia. symmetry in Hsearch. cbn [error update index entries_ size_].
      split_and!; [|unfold directory; cbn [entries_]; do 2 f_equal; symmetry|by intros _; eapply Hload].
      * eapply (table_ok_add _ _ _ guid); done.
      * eapply (add_contents guid); done.
    + pose proof (table_ok_full _ _ _ Hwf Hg) as Hfull.
      change (contents (entries_ t)) with (directory t) in Hfull.
      by rewrite decide_False by lia.
Qed.

(** The entries a removal reports are the participant's part of the map. *)
Lemma belongs_filter participant es b :
  filter (fun ke : Guid * DiscoveredEndpoint => belongs_to participant ke.2 = b) (contents es) =
  filter (fun ke => bool_decide (ke.1.1 = participant) = b) (contents es).
Proof.
  apply map_filter_ext. intros k e He. apply contents_key in He as (_ & <- & _). done.
Qed.

Lemma removed_part participant t :
  filter (fun ke : Guid * DiscoveredEndpoint => belongs_to participant ke.2 = true)
    (contents (entries_ t)) = of_participant participant (directory t).
Proof.
  rewrite belongs_filter. apply map_filter_ext. intros k e _. cbn. by rewrite bool_decide_eq_true.
Qed.

Lemma kept_part participant t :
  filter (fun ke : Guid * DiscoveredEndpoint => belongs_to participant ke.2 = false)
    (contents (entries_ t)) = without_participant participant (directory t).
Proof.
  rewrite belongs_filter. apply map_filter_ext. intros k e _. cbn. by rewrite bool_decide_eq_false.
Qed.

Definition removed_table (t : DiscoveredEndpointTable) (participant : GuidPrefix)
    : DiscoveredEndpointTable :=
  {| entries_ := kept (belongs_to participant) (entries_ t);
     size_ := size_ t - zlen (due_entries (belongs_to participant) (entries_ t)) |}.

Definition removed_ids (t : DiscoveredEndpointTable) (participant : GuidPrefix)
    : list EntityId :=
  (fun e => endpoint_id (data e)) <$> due_entries (belongs_to participant) (entries_ t).

Lemma removed_ids_spec t participant :
  table_wf t ->
  removed_ids t participant ≡ₚ
  (fun ke => ke.1.2) <$> map_to_list (of_participant participant (directory t)).
Proof.
  intros [_ Hk _]. rewrite <- removed_part.
  pose proof (due_keys (belongs_to participant) (entries_ t) Hk) as Hp.
  apply (fmap_Permutation snd) in Hp. rewrite <- !list_fmap_compose in Hp. exact Hp.
Qed.

Lemma remove_cases t participant removed cap :
  table_wf t -> (forall m, removed = Some m -> cap <= zlen m < 2 ^ 64) ->
  let e := spec_remove_error (directory t) participant removed cap in
  let ids := removed_ids t participant in
  remove_participant t participant removed cap =
  if decide (e = sedp_none)
  then Some (sedp_none, removed_table t participant, reported ids removed, zlen ids)
  else Some (e, t, removed, 0).
Proof.
  intros Hwf Hcap. unfold remove_participant, spec_remove_error. rewrite <- removed_part.
  rewrite (purge_checked_spec _ _ _ _ _ _ _ Capacity) by done.
  fold (due_part (belongs_to participant) (entries_ t)).
  destruct (decide (_ /\ removed = None)); [done|]. by destruct (decide (cap < _)).
Qed.

Lemma removed_table_spec t participant :
  table_wf t -> table_wf (removed_table t participant) /\
  directory (removed_table t participant) = without_participant participant (directory t).
Proof.
  intros Hwf. split; [by apply table_ok_kept|]. unfold directory at 1.
  cbn [entries_ removed_table]. rewrite kept_contents by apply Hwf. apply kept_part.
Qed.

(** C29: the endpoint table implements the map of endpoints: [upsert] reports the
    error or the update the specification gives and leaves the specified map, keeps
    the table well formed, and on success returns the index at which the announced
    endpoint is stored. *)
Theorem endpoint_upsert_refines t announcement :
  table_wf t ->
  let '(r, t') := upsert t announcement in
  table_wf t' /\
  spec_upsert (directory t) announcement = (error r, update r, directory t') /\
  (error r = sedp_none -> mload (entries_ t') (index r) = Some (entry_for announcement)).
Proof. apply endpoint_upsert_cases. Qed.

(** [remove_participant] removes exactly the endpoints of that participant:
    it never writes outside the caller's array, reports the error of the
    specification and then changes nothing; on success the endpoints left are the
    others, and the array starts with the entity id of each removed endpoint,
    [removed_size] counting them, its remainder untouched. *)
Theorem endpoint_remove_refines t participant removed removed_capacity :
  table_wf t ->
  (forall m, removed = Some m -> removed_capacity <= zlen m < 2 ^ 64) ->
  exists e t' out n ids,
    remove_participant t participant removed removed_capacity = Some (e, t', out, n) /\
    e = spec_remove_error (directory t) participant removed removed_capacity /\
    (e <> sedp_none -> t' = t /\ out = removed /\ n = 0) /\
    (e = sedp_none -> table_wf t' /\
       directory t' = without_participant participant (directory t) /\
       ids ≡ₚ (fun ke => ke.1.2) <$> map_to_list (of_participant participant (directory t)) /\
       n = zlen ids /\ out = reported ids removed).
Proof.
  intros Hwf Hcap. pose proof (remove_cases t participant removed removed_capacity Hwf Hcap) as He.
  cbv zeta in He. set (e := spec_remove_error _ _ _ _) in *.
  destruct (decide (e = sedp_none)) as [Hn|Hn].
  - destruct (removed_table_spec t participant Hwf) as [Hwf' Hdir].
    rewrite Hn. eexists _, _, _, _, (removed_ids t participant). split; [exact He|].
    split_and!; [done..|intros _; split_and!; try done]. by apply removed_ids_spec.
  - eexists _, _, _, _, []. split; [exact He|]. by split_and!.
Qed.
End EndpointTable.

(** ** A concrete table *)

Definition demo_announcement (k : EndpointKind) (n : Z) : SedpMessageView :=
  {| view_endpoint := demo_endpoint k reliable; view_sequence_number := n;
     view_submessage_byte_order := little_endian; view_parameter_byte_order := big_endian |}.

Definition demo_endpoints : DiscoveredEndpointTable :=
  (upsert (DiscoveredEndpointTable_new 3) (demo_announcement writer 7)).2.

Lemma demo_endpoints_wf : table_wf 3 demo_endpoints.
Proof.
  pose proof (endpoint_upsert_cases 3 ltac:(lia) (DiscoveredEndpointTable_new 3)
    (demo_announcement writer 7) (endpoint_table_new_wf 3)) as Hr.
  unfold demo_endpoints. destruct (upsert _ _) as [r t']. apply Hr.
Qed.

Lemma endpoint_upsert_refines_witness :
  let '(r, t') := upsert demo_endpoints (demo_announcement reader 1) in
  error r = sedp_none /\ update r = added /\ size_ t' = 2 /\
  spec_upsert 3 (directory demo_endpoints) (demo_announcement reader 1) =
    (error r, update r, directory t').
Proof.
  pose proof (endpoint_upsert_refines 3 ltac:(lia) demo_endpoints (demo_announcement reader 1)
    demo_endpoints_wf) as Hr.
  assert ((fun x => (error x.1, update x.1, size_ x.2))
    (upsert demo_endpoints (demo_announcement reader 1)) = (sedp_none, added, 2)) as Hv
    by (vm_compute; reflexivity).
  destruct (upsert demo_endpoints (demo_announcement reader 1)) as [r t'].
  destruct Hr as (_ & Hspec & _). injection Hv as H1 H2 H3.
  exact (conj H1 (conj H2 (conj H3 Hspec))).
Defined.

Lemma endpoint_remove_refines_witness :
  exists t' out n ids,
    remove_participant demo_endpoints [1; 2; 3; 4; 5; 6; 7; 8; 9; 10; 11; 12]
      (Some [[]; []]) 2 = Some (sedp_none, t', out, n) /\
    directory t' = without_participant [1; 2; 3; 4; 5; 6; 7; 8; 9; 10; 11; 12]
      (directory demo_endpoints) /\
    n = zlen ids /\ out = reported ids (Some [[]; []]).
Proof.
  destruct (endpoint_remove_refines 3 ltac:(lia) demo_endpoints
    [1; 2; 3; 4; 5; 6; 7; 8; 9; 10; 11; 12] (Some [[]; []]) 2 demo_endpoints_wf)
    as (e & t' & out & n & ids & He & H1 & H2 & H3); [intros m [= <-]; cbn; lia|].
  assert ((fun x => x.1.1.1) <$> remove_participant demo_endpoints
    [1; 2; 3; 4; 5; 6; 7; 8; 9; 10; 11; 12] (Some [[]; []]) 2 = Some sedp_none) as Hv
    by (vm_compute; reflexivity).
  rewrite He in Hv. injection Hv as ->.
  destruct (H3 eq_refl) as (_ & Hd & _ & Hn & Ho).
  exists t', out, n, ids. split_and!; done.
Defined.

End Endpoints.
