(* ===== verification/GraphCache.v ===== *)
(** * The ROS graph cache

    [include/openrtdds/rmw/graph_cache.hpp] and [src/rmw/graph_cache.cpp]: local
    and remote nodes and endpoints in fixed tables, the snapshot that announces the
    local ones, and its application at another participant.

    A [std::array<char, N>] is the list of its characters as bytes.  An operation
    that can fail returns before it changes the cache: [Stop] carries what it
    reports, [Done] the new cache. *)
From stdpp Require Import gmap.
From S2P Require Import Prelude Texts Bytes Types SlotTable.

Module Graph.
Import Texts Types Slots.

Definition graph_local_node_capacity : Z := 8.
Definition graph_local_endpoint_capacity : Z := 16.
Definition graph_remote_participant_capacity : Z := 16.
Definition graph_node_capacity : Z := 136.
Definition graph_endpoint_capacity : Z := 48.
Definition graph_node_name_capacity : Z := 64.
Definition graph_namespace_capacity : Z := 128.
Definition graph_enclave_capacity : Z := 256.
Definition graph_topic_name_capacity : Z := 256.
Definition graph_type_name_capacity : Z := 256.
Definition graph_wire_capacity : Z := 32768.

(** [enum class GraphEndpointKind : uint8_t]: a cast from a received octet may
    give any value. *)
Definition publisher : Z := 1.
Definition subscription : Z := 2.

Definition valid_kind (kind : Z) : bool := (kind =? publisher) || (kind =? subscription).

Inductive GraphError : Set :=
  | graph_none
  | invalid_argument
  | invalid_record
  | capacity_exceeded
  | duplicate_record
  | record_not_found
  | stale_snapshot
  | malformed_snapshot
  | buffer_overflow.

Inductive GraphUpdate : Set := unchanged | changed | rejected.

Definition graph_error_string (error : GraphError) : string :=
  match error with
  | graph_none => "none"
  | invalid_argument => "invalid_argument"
  | invalid_record => "invalid_record"
  | capacity_exceeded => "capacity_exceeded"
  | duplicate_record => "duplicate_record"
  | record_not_found => "record_not_found"
  | stale_snapshot => "stale_snapshot"
  | malformed_snapshot => "malformed_snapshot"
  | buffer_overflow => "buffer_overflow"
  end.

(** A character array together with the member that holds its length. *)
Record text : Set := { chars : list Z; text_size : Z }.

Definition text_default (capacity : Z) : text :=
  {| chars := replicate (Z.to_nat capacity) 0; text_size := 0 |}.

Record GraphNodeRecord : Set := {
  n_participant_prefix : GuidPrefix;
  n_node_id : Z;
  n_name : text;
  n_name_space : text;
  n_enclave : text;
  n_local : bool;
  n_occupied : bool;
}.

Record GraphEndpointRecord : Set := {
  e_participant_prefix : GuidPrefix;
  e_entity_id : EntityId;
  e_node_id : Z;
  e_kind : Z;
  e_ros_topic_name : text;
  e_ros_type_name : text;
  e_dds_topic_name : text;
  e_dds_type_name : text;
  e_ros_namespace_conventions : bool;
  e_local : bool;
  e_occupied : bool;
}.

Record RemoteGeneration : Set := {
  g_participant_prefix : GuidPrefix;
  g_generation : Z;
  g_occupied : bool;
}.

#[global] Instance text_eq_dec : EqDecision text.
Proof. solve_decision. Defined.
#[global] Instance GraphNodeRecord_eq_dec : EqDecision GraphNodeRecord.
Proof. unfold GuidPrefix, EntityId. solve_decision. Defined.
#[global] Instance GraphEndpointRecord_eq_dec : EqDecision GraphEndpointRecord.
Proof. unfold GuidPrefix, EntityId. solve_decision. Defined.

Definition GraphNodeRecord_default : GraphNodeRecord :=
  {| n_participant_prefix := GuidPrefix_default; n_node_id := 0;
     n_name := text_default graph_node_name_capacity;
     n_name_space := text_default graph_namespace_capacity;
     n_enclave := text_default graph_enclave_capacity; n_local := false;
     n_occupied := false |}.

Definition GraphEndpointRecord_default : GraphEndpointRecord :=
  {| e_participant_prefix := GuidPrefix_default; e_entity_id := EntityId_default;
     e_node_id := 0; e_kind := publisher;
     e_ros_topic_name := text_default graph_topic_name_capacity;
     e_ros_type_name := text_default graph_type_name_capacity;
     e_dds_topic_name := text_default graph_topic_name_capacity;
     e_dds_type_name := text_default graph_type_name_capacity;
     e_ros_namespace_conventions := true; e_local := false; e_occupied := false |}.

Definition RemoteGeneration_default : RemoteGeneration :=
  {| g_participant_prefix := GuidPrefix_default; g_generation := 0; g_occupied := false |}.

(** What identifies a record: the id alone for a local one, the participant and
    the id for a remote one. *)
Definition node_key (n : GraphNodeRecord) : Z + GuidPrefix * Z :=
  if n_local n then inl (n_node_id n) else inr (n_participant_prefix n, n_node_id n).

Definition endpoint_key (e : GraphEndpointRecord) : EntityId + GuidPrefix * EntityId :=
  if e_local e then inl (e_entity_id e) else inr (e_participant_prefix e, e_entity_id e).

#[global] Instance node_slot : Slot GraphNodeRecord (Z + list Z * Z) := {|
  occupied := n_occupied; slot_key := node_key; slot_empty := GraphNodeRecord_default;
  slot_empty_free := eq_refl |}.

#[global] Instance endpoint_slot : Slot GraphEndpointRecord (list Z + list Z * list Z) := {|
  occupied := e_occupied; slot_key := endpoint_key; slot_empty := GraphEndpointRecord_default;
  slot_empty_free := eq_refl |}.

#[global] Instance generation_slot : Slot RemoteGeneration (list Z) := {|
  occupied := g_occupied; slot_key := g_participant_prefix;
  slot_empty := RemoteGeneration_default; slot_empty_free := eq_refl |}.

Record GraphCache : Set := {
  nodes_ : list GraphNodeRecord;
  endpoints_ : list GraphEndpointRecord;
  remote_generations_ : list RemoteGeneration;
  generation_ : Z;
  local_generation_ : Z;
}.

Definition GraphCache_new : GraphCache :=
  {| nodes_ := replicate (Z.to_nat graph_node_capacity) GraphNodeRecord_default;
     endpoints_ := replicate (Z.to_nat graph_endpoint_capacity) GraphEndpointRecord_default;
     remote_generations_ :=
       replicate (Z.to_nat graph_remote_participant_capacity) RemoteGeneration_default;
     generation_ := 1; local_generation_ := 1 |}.

(** ** Helpers *)

Definition nonzero_prefix (prefix : GuidPrefix) : bool :=
  existsb (fun value => negb (value =? 0)) prefix.

Definition valid_entity (entity : EntityId) : bool :=
  negb (foldl Z.lor 0 entity =? 0).

(** [copy_text]: [None] is [return false]. *)
Definition copy_text {E} (capacity : Z) (input : option (list Z)) (empty_allowed : bool)
    : outcome E (option text) :=
  match input with
  | None => Done None
  | Some input =>
      size ← text_length (Z.to_nat capacity) input 0;
      if (capacity <=? size) || (negb empty_allowed && (size =? 0)) then Done None
      else
        source ← access (mslice input 0 size);
        candidate ← access (mcopy (replicate (Z.to_nat capacity) 0) 0 source);
        Done (Some {| chars := candidate; text_size := size |})
  end.

Definition read_text {E} (capacity : Z) (payload : list Z) (payload_size position size : Z)
    (empty_allowed : bool) : outcome E (option (text * Z)) :=
  if (capacity <=? size) || (negb empty_allowed && (size =? 0)) ||
     (payload_size <? position) || (sub64 payload_size position <? size) then Done None
  else
    source ← access (mslice payload position size);
    candidate ← access (mcopy (replicate (Z.to_nat capacity) 0) 0 source);
    Done (Some ({| chars := candidate; text_size := size |}, add64 position size)).

(** [if (!f(...)) return e;] *)
Definition require {E A} (e : E) (m : outcome E (option A)) : outcome E A :=
  o ← m; match o with Some a => Done a | None => Stop e end.

Definition write_u16 {E} (m : list Z) (at_ value : Z) : outcome E (list Z) :=
  write_uint16 m at_ value little_endian.
Definition write_u64 {E} (m : list Z) (at_ value : Z) : outcome E (list Z) :=
  store_loop m at_ value 8 little_endian.
Definition read_u16 {E} (m : list Z) (at_ : Z) : outcome E Z :=
  read_uint16 m at_ little_endian.
Definition read_u64 {E} (m : list Z) (at_ : Z) : outcome E Z :=
  load_loop m at_ 8 little_endian.

(** [reserve]: the position behind the reserved bytes. *)
Definition reserve (amount capacity position : Z) : option Z :=
  if (capacity <? position) || (sub64 capacity position <? amount) then None
  else Some (add64 position amount).

Definition next_generation (generation : Z) : Z :=
  if i64_max <=? generation then 1 else add64 generation 1.

Definition advance_generation (g : GraphCache) (local_change : bool) : GraphCache :=
  {| nodes_ := nodes_ g; endpoints_ := endpoints_ g;
     remote_generations_ := remote_generations_ g;
     generation_ := next_generation (generation_ g);
     local_generation_ := if local_change then next_generation (local_generation_ g)
                          else local_generation_ g |}.

Definition with_nodes (g : GraphCache) (nodes : list GraphNodeRecord) : GraphCache :=
  {| nodes_ := nodes; endpoints_ := endpoints_ g;
     remote_generations_ := remote_generations_ g; generation_ := generation_ g;
     local_generation_ := local_generation_ g |}.

Definition with_endpoints (g : GraphCache) (endpoints : list GraphEndpointRecord)
    : GraphCache :=
  {| nodes_ := nodes_ g; endpoints_ := endpoints;
     remote_generations_ := remote_generations_ g; generation_ := generation_ g;
     local_generation_ := local_generation_ g |}.

Definition is_free {E K} `{Slot E K} (e : E) : bool := negb (occupied e).

(** ** Local records *)

Definition add_local_node (g : GraphCache) (participant_prefix : GuidPrefix) (node_id : Z)
    (name name_space enclave : option (list Z)) : outcome GraphError GraphCache :=
  stop_if (negb (nonzero_prefix participant_prefix) || (node_id =? 0)) invalid_argument;;
  stop_if (existsb (holds (inl node_id)) (nodes_ g)) duplicate_record;;
  name ← require invalid_record (copy_text graph_node_name_capacity name false);
  name_space ← require invalid_record (copy_text graph_namespace_capacity name_space false);
  enclave ← require invalid_record (copy_text graph_enclave_capacity enclave false);
  let candidate :=
    {| n_participant_prefix := participant_prefix; n_node_id := node_id; n_name := name;
       n_name_space := name_space; n_enclave := enclave; n_local := true;
       n_occupied := true |} in
  match first_where is_free (nodes_ g) with
  | Some (i, _) =>
      Done (advance_generation (with_nodes g (<[i := candidate]> (nodes_ g))) true)
  | None => Stop capacity_exceeded
  end.

Definition remove_local_node (g : GraphCache) (node_id : Z) : outcome GraphError GraphCache :=
  stop_if (existsb (fun e => e_occupied e && e_local e && (e_node_id e =? node_id))
             (endpoints_ g)) invalid_record;;
  match first_where (holds (inl node_id)) (nodes_ g) with
  | Some (i, _) => Done (advance_generation
      (with_nodes g (<[i := GraphNodeRecord_default]> (nodes_ g))) true)
  | None => Stop record_not_found
  end.

Definition owns (participant_prefix : GuidPrefix) (node_id : Z) (n : GraphNodeRecord) : bool :=
  n_occupied n && n_local n && (n_node_id n =? node_id) &&
  bool_decide (n_participant_prefix n = participant_prefix).

Definition add_local_endpoint (g : GraphCache) (participant_prefix : GuidPrefix)
    (entity_id : EntityId) (node_id kind : Z)
    (ros_topic_name ros_type_name dds_topic_name dds_type_name : option (list Z))
    (ros_namespace_conventions : bool) : outcome GraphError GraphCache :=
  stop_if (negb (nonzero_prefix participant_prefix) || negb (valid_entity entity_id) ||
           (node_id =? 0) || negb (valid_kind kind)) invalid_argument;;
  stop_if (negb (existsb (owns participant_prefix node_id) (nodes_ g))) record_not_found;;
  stop_if (existsb (fun e => e_occupied e && e_local e && entity_eqb (e_entity_id e) entity_id)
             (endpoints_ g)) duplicate_record;;
  ros_topic_name ← require invalid_record
    (copy_text graph_topic_name_capacity ros_topic_name false);
  ros_type_name ← require invalid_record
    (copy_text graph_type_name_capacity ros_type_name false);
  dds_topic_name ← require invalid_record
    (copy_text graph_topic_name_capacity dds_topic_name false);
  dds_type_name ← require invalid_record
    (copy_text graph_type_name_capacity dds_type_name false);
  let candidate :=
    {| e_participant_prefix := participant_prefix; e_entity_id := entity_id;
       e_node_id := node_id; e_kind := kind; e_ros_topic_name := ros_topic_name;
       e_ros_type_name := ros_type_name; e_dds_topic_name := dds_topic_name;
       e_dds_type_name := dds_type_name;
       e_ros_namespace_conventions := ros_namespace_conventions; e_local := true;
       e_occupied := true |} in
  match first_where is_free (endpoints_ g) with
  | Some (i, _) =>
      Done (advance_generation (with_endpoints g (<[i := candidate]> (endpoints_ g))) true)
  | None => Stop capacity_exceeded
  end.

Definition remove_local_endpoint (g : GraphCache) (entity_id : EntityId)
    : outcome GraphError GraphCache :=
  match first_where (fun e => e_occupied e && e_local e && entity_eqb (e_entity_id e) entity_id)
          (endpoints_ g) with
  | Some (i, _) => Done (advance_generation
      (with_endpoints g (<[i := GraphEndpointRecord_default]> (endpoints_ g))) true)
  | None => Stop record_not_found
  end.

(** ** [snapshot] *)

Record GraphSnapshot : Set := {
  snap_nodes : list GraphNodeRecord;
  snap_endpoints : list GraphEndpointRecord;
  snap_node_count : Z;
  snap_endpoint_count : Z;
  snap_generation : Z;
}.

(** [for (entry : entries) if (entry.occupied) out[count++] = entry;] *)
Definition compact {Err E K} `{Slot E K} (entries out : list E) : outcome Err (list E * Z) :=
  for_each (fun entry '(out, count) =>
      if occupied entry then
        out ← access (mstore out count entry); Done (out, add64 count 1)
      else Done (out, count))
    entries (out, 0).

Definition snapshot {E} (g : GraphCache) : outcome E GraphSnapshot :=
  '(nodes, node_count) ← compact (nodes_ g)
    (replicate (Z.to_nat graph_node_capacity) GraphNodeRecord_default);
  '(endpoints, endpoint_count) ← compact (endpoints_ g)
    (replicate (Z.to_nat graph_endpoint_capacity) GraphEndpointRecord_default);
  Done {| snap_nodes := nodes; snap_endpoints := endpoints; snap_node_count := node_count;
          snap_endpoint_count := endpoint_count; snap_generation := generation_ g |}.

(** ** [serialize_local] *)

Definition kEncapsulation : list Z := [0; 1; 0; 0].
Definition kMagic : list Z := [79; 82; 84; 71].
Definition kVersion : Z := 1.
Definition kHeaderSize : Z := 24.
Definition kNodeHeaderSize : Z := 16.
Definition kEndpointHeaderSize : Z := 24.

Definition local_node (n : GraphNodeRecord) : bool := n_occupied n && n_local n.
Definition local_endpoint (e : GraphEndpointRecord) : bool := e_occupied e && e_local e.

(** The [std::uint16_t] counters. *)
Definition count16 {A} (p : A -> bool) (l : list A) : Z :=
  foldl (fun n x => if p x then u16 (n + 1) else n) 0 l.

(** [std::memcpy(&output[cursor], text.data(), text_size)] *)
Definition put_text {E} (m : list Z) (cursor : Z) (t : text) : outcome E (list Z) :=
  source ← access (mslice (chars t) 0 (text_size t));
  access (mcopy m cursor source).

(** What [serialize_local] hands back: the buffer and [output_size]. *)
Definition serialize_exit : Set := GraphError * list Z.

Definition write_header {E} (m : list Z) (node_count endpoint_count generation : Z)
    : outcome E (list Z) :=
  m ← access (mcopy m 0 kEncapsulation);
  m ← access (mcopy m 4 kMagic);
  m ← access (mstore m 8 kVersion);
  m ← access (mstore m 9 0);
  m ← write_u16 m 10 node_count;
  m ← write_u16 m 12 endpoint_count;
  m ← access (mstore m 14 0);
  m ← access (mstore m 15 0);
  write_u64 m 16 generation.

(** The body of the loop over the nodes. *)
Definition write_node (capacity : Z) (n : GraphNodeRecord) (state : list Z * Z)
    : outcome serialize_exit (list Z * Z) :=
  let '(m, start) := state in
  if negb (local_node n) then Done (m, start)
  else
    let record_size := add64 (add64 (add64 kNodeHeaderSize (text_size (n_name n)))
                                (text_size (n_name_space n))) (text_size (n_enclave n)) in
    match reserve record_size capacity start with
    | None => Stop (buffer_overflow, m)
    | Some position =>
        m ← write_u64 m start (n_node_id n);
        m ← write_u16 m (start + 8) (u16 (text_size (n_name n)));
        m ← write_u16 m (start + 10) (u16 (text_size (n_name_space n)));
        m ← write_u16 m (start + 12) (u16 (text_size (n_enclave n)));
        m ← access (mstore m (start + 14) 0);
        m ← access (mstore m (start + 15) 0);
        let cursor := start + kNodeHeaderSize in
        m ← put_text m cursor (n_name n);
        let cursor := cursor + text_size (n_name n) in
        m ← put_text m cursor (n_name_space n);
        let cursor := cursor + text_size (n_name_space n) in
        m ← put_text m cursor (n_enclave n);
        Done (m, position)
    end.

(** The body of the loop over the endpoints. *)
Definition write_endpoint (capacity : Z) (e : GraphEndpointRecord) (state : list Z * Z)
    : outcome serialize_exit (list Z * Z) :=
  let '(m, start) := state in
  if negb (local_endpoint e) then Done (m, start)
  else
    let record_size :=
      add64 (add64 (add64 (add64 kEndpointHeaderSize (text_size (e_ros_topic_name e)))
        (text_size (e_ros_type_name e))) (text_size (e_dds_topic_name e)))
        (text_size (e_dds_type_name e)) in
    match reserve record_size capacity start with
    | None => Stop (buffer_overflow, m)
    | Some position =>
        m ← write_u64 m start (e_node_id e);
        m ← access (mcopy m (start + 8) (e_entity_id e));
        m ← access (mstore m (start + 12) (e_kind e));
        m ← access (mstore m (start + 13) (if e_ros_namespace_conventions e then 1 else 0));
        m ← access (mstore m (start + 14) 0);
        m ← access (mstore m (start + 15) 0);
        m ← write_u16 m (start + 16) (u16 (text_size (e_ros_topic_name e)));
        m ← write_u16 m (start + 18) (u16 (text_size (e_ros_type_name e)));
        m ← write_u16 m (start + 20) (u16 (text_size (e_dds_topic_name e)));
        m ← write_u16 m (start + 22) (u16 (text_size (e_dds_type_name e)));
        let cursor := start + kEndpointHeaderSize in
        m ← put_text m cursor (e_ros_topic_name e);
        let cursor := cursor + text_size (e_ros_topic_name e) in
        m ← put_text m cursor (e_ros_type_name e);
        let cursor := cursor + text_size (e_ros_type_name e) in
        m ← put_text m cursor (e_dds_topic_name e);
        let cursor := cursor + text_size (e_dds_topic_name e) in
        m ← put_text m cursor (e_dds_type_name e);
        Done (m, position)
    end.

(** [generation] is set to [local_generation_ g] on every path; [output_size] is 0
    when [Stop] reports an error. *)
Definition serialize_local (g : GraphCache) (output : option (list Z)) (capacity : Z)
    : outcome serialize_exit (list Z * Z) :=
  match output with
  | None => Stop (invalid_argument, [])
  | Some m =>
      stop_if (capacity <? kHeaderSize) (invalid_argument, m);;
      let node_count := count16 local_node (nodes_ g) in
      let endpoint_count := count16 local_endpoint (endpoints_ g) in
      stop_if ((graph_local_node_capacity <? node_count) ||
               (graph_local_endpoint_capacity <? endpoint_count)) (capacity_exceeded, m);;
      m ← write_header m node_count endpoint_count (local_generation_ g);
      state ← for_each (write_node capacity) (nodes_ g) (m, kHeaderSize);
      for_each (write_endpoint capacity) (endpoints_ g) state
  end.

(** ** [apply_remote] *)

Definition refusal : Set := GraphUpdate * GraphError.
Definition malformed : refusal := (rejected, malformed_snapshot).
Definition is_null {A} (p : option A) : bool := match p with None => true | _ => false end.

(** The body of the loop over the announced nodes. *)
Definition read_node (participant_prefix : GuidPrefix) (payload : list Z) (payload_size : Z)
    (index : Z) (state : list GraphNodeRecord * Z)
    : outcome refusal (list GraphNodeRecord * Z) :=
  let '(incoming_nodes, start) := state in
  stop_if ((payload_size <? start) || (sub64 payload_size start <? kNodeHeaderSize)) malformed;;
  node_id ← read_u64 payload start;
  name_size ← read_u16 payload (start + 8);
  namespace_size ← read_u16 payload (start + 10);
  enclave_size ← read_u16 payload (start + 12);
  r0 ← access (mload payload (start + 14));
  r1 ← access (mload payload (start + 15));
  stop_if ((node_id =? 0) || negb (r0 =? 0) || negb (r1 =? 0)) malformed;;
  let position := add64 start kNodeHeaderSize in
  '(name, position) ← require malformed (read_text graph_node_name_capacity payload
     payload_size position name_size false);
  '(name_space, position) ← require malformed (read_text graph_namespace_capacity payload
     payload_size position namespace_size false);
  '(enclave, position) ← require malformed (read_text graph_enclave_capacity payload
     payload_size position enclave_size false);
  stop_if (existsb (fun previous => n_node_id previous =? node_id)
             (take (Z.to_nat index) incoming_nodes)) (rejected, duplicate_record);;
  incoming_nodes ← access (mstore incoming_nodes index
    {| n_participant_prefix := participant_prefix; n_node_id := node_id; n_name := name;
       n_name_space := name_space; n_enclave := enclave; n_local := false;
       n_occupied := true |});
  Done (incoming_nodes, position).

Definition node_exists (nodes : list GraphNodeRecord) (count node_id : Z) : bool :=
  existsb (fun n => n_node_id n =? node_id) (take (Z.to_nat count) nodes).

(** The body of the loop over the announced endpoints. *)
Definition read_endpoint (participant_prefix : GuidPrefix) (payload : list Z)
    (payload_size : Z) (incoming_nodes : list GraphNodeRecord) (node_count index : Z)
    (state : list GraphEndpointRecord * Z)
    : outcome refusal (list GraphEndpointRecord * Z) :=
  let '(incoming_endpoints, start) := state in
  stop_if ((payload_size <? start) || (sub64 payload_size start <? kEndpointHeaderSize))
    malformed;;
  node_id ← read_u64 payload start;
  entity_id ← access (mslice payload (start + 8) 4);
  kind ← access (mload payload (start + 12));
  conventions ← access (mload payload (start + 13));
  ros_topic_size ← read_u16 payload (start + 16);
  ros_type_size ← read_u16 payload (start + 18);
  dds_topic_size ← read_u16 payload (start + 20);
  dds_type_size ← read_u16 payload (start + 22);
  r0 ← access (mload payload (start + 14));
  r1 ← access (mload payload (start + 15));
  stop_if (negb (valid_entity entity_id) ||
           negb (node_exists incoming_nodes node_count node_id) || negb (valid_kind kind) ||
           (1 <? conventions) || negb (r0 =? 0) || negb (r1 =? 0)) malformed;;
  let position := add64 start kEndpointHeaderSize in
  '(ros_topic_name, position) ← require malformed (read_text graph_topic_name_capacity
     payload payload_size position ros_topic_size false);
  '(ros_type_name, position) ← require malformed (read_text graph_type_name_capacity
     payload payload_size position ros_type_size false);
  '(dds_topic_name, position) ← require malformed (read_text graph_topic_name_capacity
     payload payload_size position dds_topic_size false);
  '(dds_type_name, position) ← require malformed (read_text graph_type_name_capacity
     payload payload_size position dds_type_size false);
  stop_if (existsb (fun previous => entity_eqb (e_entity_id previous) entity_id)
             (take (Z.to_nat index) incoming_endpoints)) (rejected, duplicate_record);;
  incoming_endpoints ← access (mstore incoming_endpoints index
    {| e_participant_prefix := participant_prefix; e_entity_id := entity_id;
       e_node_id := node_id; e_kind := kind; e_ros_topic_name := ros_topic_name;
       e_ros_type_name := ros_type_name; e_dds_topic_name := dds_topic_name;
       e_dds_type_name := dds_type_name;
       e_ros_namespace_conventions := conventions =? 1; e_local := false;
       e_occupied := true |});
  Done (incoming_endpoints, position).

(** The snapshot a payload carries: the incoming records and its generation. *)
Record incoming : Set := {
  in_nodes : list GraphNodeRecord;
  in_endpoints : list GraphEndpointRecord;
  in_node_count : Z;
  in_endpoint_count : Z;
  in_generation : Z;
}.

(** [apply_remote] up to the comparison of [position] with [payload_size]. *)
Definition parse_snapshot (participant_prefix : GuidPrefix) (payload : option (list Z))
    (payload_size rtps_sequence_number : Z) : outcome refusal incoming :=
  stop_if (negb (nonzero_prefix participant_prefix) || is_null payload ||
           (payload_size <? kHeaderSize)) malformed;;
  payload ← access payload;
  encapsulation ← access (mslice payload 0 4);
  stop_if (negb (bool_decide (encapsulation = kEncapsulation))) malformed;;
  magic ← access (mslice payload 4 4);
  stop_if (negb (bool_decide (magic = kMagic))) malformed;;
  version ← access (mload payload 8);
  r9 ← access (mload payload 9);
  r14 ← access (mload payload 14);
  r15 ← access (mload payload 15);
  stop_if (negb (version =? kVersion) || negb (r9 =? 0) || negb (r14 =? 0) ||
           negb (r15 =? 0)) malformed;;
  node_count ← read_u16 payload 10;
  endpoint_count ← read_u16 payload 12;
  remote_generation ← read_u64 payload 16;
  stop_if ((graph_local_node_capacity <? node_count) ||
           (graph_local_endpoint_capacity <? endpoint_count) ||
           (remote_generation =? 0) || (i64_max <? remote_generation) ||
           negb (remote_generation =? rtps_sequence_number)) malformed;;
  '(incoming_nodes, position) ← for_each (read_node participant_prefix payload payload_size)
    (seqZ 0 node_count)
    (replicate (Z.to_nat graph_local_node_capacity) GraphNodeRecord_default, kHeaderSize);
  '(incoming_endpoints, position) ←
    for_each (read_endpoint participant_prefix payload payload_size incoming_nodes node_count)
      (seqZ 0 endpoint_count)
      (replicate (Z.to_nat graph_local_endpoint_capacity) GraphEndpointRecord_default, position);
  stop_if (negb (position =? payload_size)) malformed;;
  Done {| in_nodes := incoming_nodes; in_endpoints := incoming_endpoints;
          in_node_count := node_count; in_endpoint_count := endpoint_count;
          in_generation := remote_generation |}.

(** A remote record of [participant_prefix]. *)
Definition remote_node_of (participant_prefix : GuidPrefix) (n : GraphNodeRecord) : bool :=
  negb (n_local n) && bool_decide (n_participant_prefix n = participant_prefix).
Definition remote_endpoint_of (participant_prefix : GuidPrefix) (e : GraphEndpointRecord)
    : bool :=
  negb (e_local e) && bool_decide (e_participant_prefix e = participant_prefix).

(** The counters of the records that stay. *)
Definition remaining {E K} `{Slot E K} (due : E -> bool) (entries : list E) : Z :=
  foldl (fun n e => if occupied e && negb (due e) then add64 n 1 else n) 0 entries.

(** The loop that resets the records of one participant. *)
Definition reset_where {E K} `{Slot E K} (due : E -> bool) (entries : list E) : list E :=
  (fun e => if occupied e && due e then slot_empty else e) <$> entries.

(** The loop that stores one incoming record into the first free entry. *)
Definition place {E K} `{Slot E K} (entries : list E) (e : E) : list E :=
  match first_where is_free entries with
  | Some (i, _) => <[i := e]> entries
  | None => entries
  end.

Definition set_generation (participant_prefix : GuidPrefix) (generation : Z)
    (entries : list RemoteGeneration) (slot : nat) : list RemoteGeneration :=
  <[slot := {| g_participant_prefix := participant_prefix; g_generation := generation;
               g_occupied := true |}]> entries.

(** The changes of [apply_remote] once everything has been checked. *)
Definition install (g : GraphCache) (participant_prefix : GuidPrefix) (i : incoming)
    (slot : nat) : GraphCache :=
  advance_generation
    {| nodes_ := foldl place (reset_where (remote_node_of participant_prefix) (nodes_ g))
                   (take (Z.to_nat (in_node_count i)) (in_nodes i));
       endpoints_ := foldl place
                       (reset_where (remote_endpoint_of participant_prefix) (endpoints_ g))
                       (take (Z.to_nat (in_endpoint_count i)) (in_endpoints i));
       remote_generations_ := set_generation participant_prefix (in_generation i)
                                (remote_generations_ g) slot;
       generation_ := generation_ g; local_generation_ := local_generation_ g |} false.

Definition apply_remote (g : GraphCache) (participant_prefix : GuidPrefix)
    (payload : option (list Z)) (payload_size rtps_sequence_number : Z)
    : outcome refusal GraphCache :=
  i ← parse_snapshot participant_prefix payload payload_size rtps_sequence_number;
  let known := first_where (holds participant_prefix) (remote_generations_ g) in
  let free := first_where is_free (remote_generations_ g) in
  stop_if (match known with Some (_, e) => in_generation i <=? g_generation e | None => false end)
    (unchanged, stale_snapshot);;
  stop_if (is_null known && is_null free) (rejected, capacity_exceeded);;
  let remaining_nodes := remaining (remote_node_of participant_prefix) (nodes_ g) in
  let remaining_endpoints := remaining (remote_endpoint_of participant_prefix) (endpoints_ g) in
  stop_if ((sub64 graph_node_capacity remaining_nodes <? in_node_count i) ||
           (sub64 graph_endpoint_capacity remaining_endpoints <? in_endpoint_count i))
    (rejected, capacity_exceeded);;
  slot ← access (fst <$> match known with Some e => Some e | None => free end);
  Done (install g participant_prefix i slot).

(** ** [remove_remote_participant] *)

Definition drop_generation (participant_prefix : GuidPrefix) (entries : list RemoteGeneration)
    : list RemoteGeneration :=
  match first_where (holds participant_prefix) entries with
  | Some (i, _) => <[i := RemoteGeneration_default]> entries
  | None => entries
  end.

Definition remove_remote_participant (g : GraphCache) (participant_prefix : GuidPrefix)
    : GraphUpdate * GraphCache :=
  let found :=
    existsb (fun n => n_occupied n && remote_node_of participant_prefix n) (nodes_ g) ||
    existsb (fun e => e_occupied e && remote_endpoint_of participant_prefix e) (endpoints_ g) in
  let g := {| nodes_ := reset_where (remote_node_of participant_prefix) (nodes_ g);
              endpoints_ := reset_where (remote_endpoint_of participant_prefix) (endpoints_ g);
              remote_generations_ := drop_generation participant_prefix (remote_generations_ g);
              generation_ := generation_ g; local_generation_ := local_generation_ g |} in
  if found then (changed, advance_generation g false) else (unchanged, g).

End Graph.
