(* ===== verification/GraphFacts.v ===== *)
(** * What the graph cache guarantees

    The invariant of the cache over all its operations, its tables as finite maps,
    and the round trip of the local snapshot through [serialize_local] and
    [apply_remote]. *)
From stdpp Require Import gmap.
From S2P Require Import Prelude Texts Bytes Types SlotTable GraphCache.

Module GraphFacts.
Import Texts Types Slots Graph.

(** ** Texts *)

(** The array of [capacity] characters that holds [s]. *)
Definition text_of (capacity : Z) (s : list Z) : text :=
  {| chars := s ++ replicate (Z.to_nat capacity - length s) 0; text_size := zlen s |}.

(** A nonempty text that leaves room for a terminating NUL. *)
Definition text_ok (capacity : Z) (t : text) : Prop :=
  exists s, t = text_of capacity s /\ 1 <= zlen s < capacity.

Definition content (t : text) : list Z := take (Z.to_nat (text_size t)) (chars t).

Lemma content_of capacity s : content (text_of capacity s) = s.
Proof. unfold content, text_of. cbn [text_size chars]. by rewrite Nat2Z.id, take_app_length. Qed.

Lemma text_ok_content capacity t :
  text_ok capacity t -> t = text_of capacity (content t) /\ zlen (content t) = text_size t /\
    1 <= text_size t < capacity.
Proof. intros (s & -> & Hs). by rewrite content_of. Qed.

Lemma padded_copy capacity s :
  zlen s <= capacity ->
  mcopy (replicate (Z.to_nat capacity) 0) 0 s =
  Some (s ++ replicate (Z.to_nat capacity - length s) 0).
Proof.
  intros Hs. rewrite mcopy_start by (rewrite length_replicate; lia). by rewrite drop_replicate.
Qed.

Definition fits (capacity : Z) (s : list Z) : bool := (1 <=? zlen s) && (zlen s <? capacity).

Lemma copy_text_spec {E} capacity s input :
  0 <= capacity < 2 ^ 63 -> zlen s < 2 ^ 63 -> cstring input s ->
  copy_text capacity input false =
  (Done (if fits capacity s then Some (text_of capacity s) else None) : outcome E _).
Proof.
  intros Hc Hl (rest & -> & Hs). unfold copy_text, fits.
  rewrite (text_length_spec (Z.to_nat capacity) s rest []) by (done || (cbn; lia)).
  cbn [mbind outcome_bind length negb andb]. rewrite Z.add_0_l.
  destruct (Z.ltb_spec (zlen s) capacity).
  - replace (Nat.min (Z.to_nat capacity) (length s)) with (length s) by lia.
    destruct (Z.leb_spec capacity (zlen s)), (Z.eqb_spec (zlen s) 0), (Z.leb_spec 1 (zlen s));
      try lia; cbn [orb andb]; [done|].
    rewrite mslice_start by lia. cbn [access mbind outcome_bind].
    by rewrite padded_copy by lia.
  - replace (Nat.min (Z.to_nat capacity) (length s)) with (Z.to_nat capacity) by lia.
    destruct (Z.leb_spec capacity (Z.of_nat (Z.to_nat capacity))); [|lia].
    by rewrite andb_false_r.
Qed.

Lemma read_text_spec {E} capacity p s rest :
  1 <= zlen s < capacity -> capacity < 2 ^ 63 -> zlen (p ++ s ++ rest) < 2 ^ 64 ->
  read_text capacity (p ++ s ++ rest) (zlen (p ++ s ++ rest)) (zlen p) (zlen s) false =
  (Done (Some (text_of capacity s, zlen p + zlen s)) : outcome E _).
Proof.
  intros Hs Hc Hb. rewrite !length_app in Hb. unfold read_text. cbn [negb andb].
  rewrite !length_app, sub64_id by lia.
  destruct (Z.leb_spec capacity (zlen s)), (Z.eqb_spec (zlen s) 0),
    (Z.ltb_spec (Z.of_nat (length p + (length s + length rest))) (zlen p)),
    (Z.ltb_spec (Z.of_nat (length p + (length s + length rest)) - zlen p) (zlen s));
    try lia. cbn [orb].
  rewrite mslice_app_exact by done. cbn [access mbind outcome_bind].
  rewrite padded_copy by lia. cbn [access mbind outcome_bind]. by rewrite add64_id by lia.
Qed.

(** ** The wire format *)

Definition node_bytes (n : GraphNodeRecord) : list Z :=
  encode_uint little_endian 8 (n_node_id n) ++
  encode_uint little_endian 2 (text_size (n_name n)) ++
  encode_uint little_endian 2 (text_size (n_name_space n)) ++
  encode_uint little_endian 2 (text_size (n_enclave n)) ++ [0; 0] ++
  content (n_name n) ++ content (n_name_space n) ++ content (n_enclave n).

Definition endpoint_bytes (e : GraphEndpointRecord) : list Z :=
  encode_uint little_endian 8 (e_node_id e) ++ e_entity_id e ++
  [e_kind e; if e_ros_namespace_conventions e then 1 else 0; 0; 0] ++
  encode_uint little_endian 2 (text_size (e_ros_topic_name e)) ++
  encode_uint little_endian 2 (text_size (e_ros_type_name e)) ++
  encode_uint little_endian 2 (text_size (e_dds_topic_name e)) ++
  encode_uint little_endian 2 (text_size (e_dds_type_name e)) ++
  content (e_ros_topic_name e) ++ content (e_ros_type_name e) ++
  content (e_dds_topic_name e) ++ content (e_dds_type_name e).

Definition header_bytes (node_count endpoint_count generation : Z) : list Z :=
  kEncapsulation ++ kMagic ++ [kVersion; 0] ++ encode_uint little_endian 2 node_count ++
  encode_uint little_endian 2 endpoint_count ++ [0; 0] ++
  encode_uint little_endian 8 generation.

Definition local_nodes (g : GraphCache) : list GraphNodeRecord :=
  filter (fun n => local_node n = true) (nodes_ g).
Definition local_endpoints (g : GraphCache) : list GraphEndpointRecord :=
  filter (fun e => local_endpoint e = true) (endpoints_ g).

(** The announcement of the local part of the graph. *)
Definition snapshot_bytes (g : GraphCache) : list Z :=
  header_bytes (zlen (local_nodes g)) (zlen (local_endpoints g)) (local_generation_ g) ++
  mjoin (node_bytes <$> local_nodes g) ++ mjoin (endpoint_bytes <$> local_endpoints g).

(** Records as the operations create them. *)
Record node_ok (n : GraphNodeRecord) : Prop := {
  no_id : 0 < n_node_id n < 2 ^ 64;
  no_prefix : nonzero_prefix (n_participant_prefix n) = true;
  no_name : text_ok graph_node_name_capacity (n_name n);
  no_space : text_ok graph_namespace_capacity (n_name_space n);
  no_enclave : text_ok graph_enclave_capacity (n_enclave n);
}.

Record endpoint_ok (e : GraphEndpointRecord) : Prop := {
  eo_node : 0 < e_node_id e < 2 ^ 64;
  eo_length : length (e_entity_id e) = 4%nat;
  eo_entity : valid_entity (e_entity_id e) = true;
  eo_prefix : nonzero_prefix (e_participant_prefix e) = true;
  eo_kind : valid_kind (e_kind e) = true;
  eo_ros_topic : text_ok graph_topic_name_capacity (e_ros_topic_name e);
  eo_ros_type : text_ok graph_type_name_capacity (e_ros_type_name e);
  eo_dds_topic : text_ok graph_topic_name_capacity (e_dds_topic_name e);
  eo_dds_type : text_ok graph_type_name_capacity (e_dds_type_name e);
}.

#[local] Opaque encode_uint.

Lemma node_bytes_length n :
  node_ok n ->
  zlen (node_bytes n) =
    16 + text_size (n_name n) + text_size (n_name_space n) + text_size (n_enclave n) /\
  17 <= zlen (node_bytes n) <= 461.
Proof.
  intros [_ _ H1 H2 H3]. apply text_ok_content in H1 as (_ & L1 & R1).
  apply text_ok_content in H2 as (_ & L2 & R2). apply text_ok_content in H3 as (_ & L3 & R3).
  unfold node_bytes, graph_node_name_capacity, graph_namespace_capacity,
    graph_enclave_capacity in *.
  rewrite !length_app, !encode_uint_length. cbn [length]. lia.
Qed.

Lemma endpoint_bytes_length e :
  endpoint_ok e ->
  zlen (endpoint_bytes e) =
    24 + text_size (e_ros_topic_name e) + text_size (e_ros_type_name e) +
    text_size (e_dds_topic_name e) + text_size (e_dds_type_name e) /\
  25 <= zlen (endpoint_bytes e) <= 1044.
Proof.
  intros [_ H0 _ _ _ H1 H2 H3 H4]. apply text_ok_content in H1 as (_ & L1 & R1).
  apply text_ok_content in H2 as (_ & L2 & R2). apply text_ok_content in H3 as (_ & L3 & R3).
  apply text_ok_content in H4 as (_ & L4 & R4).
  unfold endpoint_bytes, graph_topic_name_capacity, graph_type_name_capacity in *.
  rewrite !length_app, !encode_uint_length. cbn [length]. lia.
Qed.

Lemma header_length a b c : zlen (header_bytes a b c) = 24.
Proof. unfold header_bytes. rewrite !length_app, !encode_uint_length. done. Qed.

(** ** Serialisation *)

Lemma write_u64_snoc {E} p r at_ value :
  zlen p = at_ -> (8 <= length r)%nat ->
  write_u64 (p ++ r) at_ value =
  (Done ((p ++ encode_uint little_endian 8 value) ++ drop 8 r) : outcome E (list Z)).
Proof. intros. apply store_loop_snoc; lia. Qed.

Lemma put_text_snoc {E} p r at_ capacity t :
  text_ok capacity t -> zlen p = at_ -> text_size t <= zlen r ->
  put_text (p ++ r) at_ t =
  (Done ((p ++ content t) ++ drop (length (content t)) r) : outcome E (list Z)).
Proof.
  intros (s & -> & Hs) Hp Hr. unfold put_text. cbn [text_of text_size chars] in *.
  rewrite mslice_start by done. cbn [access mbind outcome_bind].
  rewrite content_of, mcopy_snoc by (done || lia). done.
Qed.

Lemma graph_reserve_spec amount capacity position :
  0 <= position <= capacity -> 0 <= amount -> capacity < 2 ^ 64 ->
  reserve amount capacity position =
  if position + amount <=? capacity then Some (position + amount) else None.
Proof.
  intros. unfold reserve. rewrite sub64_id by lia.
  destruct (Z.ltb_spec capacity position), (Z.ltb_spec (capacity - position) amount),
    (Z.leb_spec (position + amount) capacity); try lia; cbn [orb]; [done|].
  by rewrite add64_id by lia.
Qed.

Lemma written_tail (x l r : list Z) n k : x = l -> n = k -> x ++ drop n r = l ++ drop k r.
Proof. by intros -> ->. Qed.

(** Sums of sizes, innermost first. *)
Ltac plain_sums :=
  repeat match goal with |- context [add64 ?a ?b] =>
    lazymatch a with context [add64 _ _] => fail | _ => rewrite (add64_id a b) by lia end end.

Ltac graph_put :=
  first [put | rewrite write_u64_snoc by put_len; cbn [mbind outcome_bind]
        | erewrite put_text_snoc; [cbn [mbind outcome_bind]|eassumption|put_len|put_len]].

Lemma write_header_spec {E} m a b c :
  (24 <= length m)%nat ->
  write_header m a b c = (Done (header_bytes a b c ++ drop 24 m) : outcome E (list Z)).
Proof.
  intros Hm. unfold write_header, kEncapsulation, kMagic, write_u16.
  rewrite <- (app_nil_l m). repeat graph_put.
  rewrite app_nil_l, !drop_drop. unfold header_bytes. by rewrite <- !app_assoc.
Qed.

Lemma write_node_spec capacity n p r :
  node_ok n -> local_node n = true -> zlen p <= capacity <= zlen (p ++ r) -> capacity < 2 ^ 64 ->
  write_node capacity n (p ++ r, zlen p) =
  if zlen (p ++ node_bytes n) <=? capacity
  then Done ((p ++ node_bytes n) ++ drop (length (node_bytes n)) r, zlen (p ++ node_bytes n))
  else Stop (buffer_overflow, p ++ r).
Proof.
  intros Hn Hl Hc H64. destruct (node_bytes_length n Hn) as [Hlen Hb].
  pose proof Hn as [_ _ T1 T2 T3].
  pose proof (text_ok_content _ _ T1) as (_ & L1 & R1).
  pose proof (text_ok_content _ _ T2) as (_ & L2 & R2).
  pose proof (text_ok_content _ _ T3) as (_ & L3 & R3).
  unfold graph_node_name_capacity, graph_namespace_capacity, graph_enclave_capacity in R1, R2, R3.
  unfold write_node. rewrite Hl. cbn [negb]. rewrite length_app in Hc.
  unfold kNodeHeaderSize. plain_sums. rewrite <- Hlen.
  rewrite graph_reserve_spec by lia. rewrite length_app, Nat2Z.inj_add.
  destruct (Z.leb_spec (zlen p + zlen (node_bytes n)) capacity); [|done].
  unfold write_u16. rewrite !u16_id by lia. repeat graph_put.
  rewrite !drop_drop. f_equal. f_equal. unfold node_bytes.
  apply written_tail; [by rewrite <- !app_assoc|].
  rewrite !length_app, !encode_uint_length. cbn [length]. lia.
Qed.

Lemma write_endpoint_spec capacity e p r :
  endpoint_ok e -> local_endpoint e = true -> zlen p <= capacity <= zlen (p ++ r) ->
  capacity < 2 ^ 64 ->
  write_endpoint capacity e (p ++ r, zlen p) =
  if zlen (p ++ endpoint_bytes e) <=? capacity
  then Done ((p ++ endpoint_bytes e) ++ drop (length (endpoint_bytes e)) r,
             zlen (p ++ endpoint_bytes e))
  else Stop (buffer_overflow, p ++ r).
Proof.
  intros He Hl Hc H64. destruct (endpoint_bytes_length e He) as [Hlen Hb].
  pose proof He as [_ Hent _ _ _ T1 T2 T3 T4].
  pose proof (text_ok_content _ _ T1) as (_ & L1 & R1).
  pose proof (text_ok_content _ _ T2) as (_ & L2 & R2).
  pose proof (text_ok_content _ _ T3) as (_ & L3 & R3).
  pose proof (text_ok_content _ _ T4) as (_ & L4 & R4).
  unfold graph_topic_name_capacity, graph_type_name_capacity in R1, R2, R3, R4.
  unfold write_endpoint. rewrite Hl. cbn [negb]. rewrite length_app in Hc.
  unfold kEndpointHeaderSize. plain_sums. rewrite <- Hlen.
  rewrite graph_reserve_spec by lia. rewrite length_app, Nat2Z.inj_add.
  destruct (Z.leb_spec (zlen p + zlen (endpoint_bytes e)) capacity); [|done].
  unfold write_u16. rewrite !u16_id by lia. repeat graph_put.
  rewrite !drop_drop. f_equal. f_equal. unfold endpoint_bytes.
  apply written_tail; [by rewrite <- !app_assoc|].
  rewrite !length_app, !encode_uint_length. cbn [length]. lia.
Qed.

(** [result] is the buffer [p ++ r] with [bs] behind [p], if [bs] fits. *)
Definition appended (capacity : Z) (p r bs : list Z)
    (result : outcome serialize_exit (list Z * Z)) : Prop :=
  if zlen (p ++ bs) <=? capacity
  then result = Done ((p ++ bs) ++ drop (length bs) r, zlen (p ++ bs))
  else exists m, result = Stop (buffer_overflow, m) /\ length m = length (p ++ r).

(** A loop that appends the encoding of every selected record. *)
Lemma write_run {A} (sel : A -> bool) (enc : A -> list Z)
    (body : A -> list Z * Z -> outcome serialize_exit (list Z * Z)) capacity l :
  (forall x state, sel x = false -> body x state = Done state) ->
  (forall x p r, x ∈ l -> sel x = true -> zlen p <= capacity <= zlen (p ++ r) ->
     body x (p ++ r, zlen p) =
     if zlen (p ++ enc x) <=? capacity
     then Done ((p ++ enc x) ++ drop (length (enc x)) r, zlen (p ++ enc x))
     else Stop (buffer_overflow, p ++ r)) ->
  forall p r, zlen p <= capacity <= zlen (p ++ r) ->
  appended capacity p r (mjoin (enc <$> filter (fun x => sel x = true) l))
    (for_each body l (p ++ r, zlen p)).
Proof.
  intros Hskip. unfold appended. induction l as [|x l IH]; intros Hbody p r Hc.
  { cbn. rewrite app_nil_r. destruct (Z.leb_spec (zlen p) capacity); [done|lia]. }
  cbn [for_each]. rewrite filter_cons. destruct (sel x) eqn:Hx.
  - rewrite decide_True by done. rewrite Hbody by (done || by left).
    change (mjoin (enc <$> x :: ?l')) with (enc x ++ mjoin (enc <$> l')).
    set (bs := mjoin _) in *. rewrite length_app in Hc.
    destruct (Z.leb_spec (zlen (p ++ enc x)) capacity) as [Hfit|Hfit]; cbn [mbind outcome_bind].
    + specialize (IH ltac:(intros; apply Hbody; [by right|done|done]) (p ++ enc x)
        (drop (length (enc x)) r)). fold bs in IH.
      assert (length ((p ++ enc x) ++ drop (length (enc x)) r) = length (p ++ r)) as Hlen
        by (rewrite !length_app, length_drop in *; lia).
      rewrite Hlen, length_app, drop_drop in IH. rewrite (app_assoc p), (length_app (enc x) bs).
      specialize (IH ltac:(rewrite !length_app in *; lia)).
      by rewrite <- length_app in IH.
    + destruct (Z.leb_spec (zlen (p ++ enc x ++ bs)) capacity) as [Hle|_].
      * rewrite !length_app in *. lia.
      * by eexists.
  - rewrite decide_False by congruence. rewrite Hskip by done. cbn [mbind outcome_bind].
    apply IH; [|done]. intros. apply Hbody; [by right|done|done].
Qed.

(** ** The invariant *)

Abbreviation node_map g := (contents (nodes_ g)).
Abbreviation endpoint_map g := (contents (endpoints_ g)).
Abbreviation generation_map g := (contents (remote_generations_ g)).

(** The node an endpoint belongs to. *)
Definition owner_key (e : GraphEndpointRecord) : Z + list Z * Z :=
  if e_local e then inl (e_node_id e) else inr (e_participant_prefix e, e_node_id e).

Record cache_ok (g : GraphCache) : Prop := {
  co_nodes : length (nodes_ g) = 136%nat;
  co_endpoints : length (endpoints_ g) = 48%nat;
  co_remotes : length (remote_generations_ g) = 16%nat;
  co_node_keys : NoDup (keys (nodes_ g));
  co_endpoint_keys : NoDup (keys (endpoints_ g));
  co_remote_keys : NoDup (keys (remote_generations_ g));
  co_node_ok : map_Forall (fun _ n => node_ok n) (node_map g);
  co_endpoint_ok : map_Forall (fun _ e => endpoint_ok e) (endpoint_map g);
  co_owner : map_Forall (fun _ e => exists n, node_map g !! owner_key e = Some n /\
    n_participant_prefix n = e_participant_prefix e) (endpoint_map g);
  co_known : map_Forall (fun _ n => n_local n = false ->
    is_Some (generation_map g !! n_participant_prefix n)) (node_map g);
  co_received : map_Forall (fun _ r => 1 <= g_generation r <= i64_max) (generation_map g);
  co_generation : 1 <= generation_ g <= i64_max;
  co_local_generation : 1 <= local_generation_ g <= i64_max;
}.

Lemma contents_elem {E K} `{Slot E K} (es : list E) e :
  NoDup (keys es) -> e ∈ es -> occupied e = true -> contents es !! slot_key e = Some e.
Proof.
  intros Hk He Ho. apply elem_of_list_to_map_1.
  - unfold keys in Hk. by rewrite <- list_fmap_compose.
  - apply list_elem_of_fmap. exists e. split; [done|]. by apply list_elem_of_filter.
Qed.

Lemma node_record_ok g n : cache_ok g -> n ∈ nodes_ g -> n_occupied n = true -> node_ok n.
Proof.
  intros Hg Hn Ho. apply (co_node_ok g Hg (node_key n)).
  by apply (contents_elem (nodes_ g) n (co_node_keys g Hg)).
Qed.

Lemma endpoint_record_ok g e :
  cache_ok g -> e ∈ endpoints_ g -> e_occupied e = true -> endpoint_ok e.
Proof.
  intros Hg He Ho. apply (co_endpoint_ok g Hg (endpoint_key e)).
  by apply (contents_elem (endpoints_ g) e (co_endpoint_keys g Hg)).
Qed.

Lemma count16_spec {A} (p : A -> bool) l :
  zlen l < 2 ^ 16 -> count16 p l = zlen (filter (fun x => p x = true) l).
Proof.
  intros Hl. unfold count16.
  enough (forall n, 0 <= n -> n + zlen l < 2 ^ 16 ->
    foldl (fun n x => if p x then u16 (n + 1) else n) n l =
    n + zlen (filter (fun x => p x = true) l)) as -> by lia.
  clear Hl. induction l as [|x l IH]; intros n Hn Hb; cbn [foldl length] in *; [cbn; lia|].
  rewrite filter_cons. destruct (p x); [rewrite decide_True by done|rewrite decide_False by done].
  - rewrite u16_id, IH by lia. cbn [length]. lia.
  - rewrite IH by lia. done.
Qed.

Lemma mjoin_length {A} (enc : A -> list Z) (hi : Z) l :
  (forall x, x ∈ l -> zlen (enc x) <= hi) -> zlen (mjoin (enc <$> l)) <= hi * zlen l.
Proof.
  induction l as [|x l IH]; intros Hx; [cbn; lia|].
  change (mjoin (enc <$> x :: l)) with (enc x ++ mjoin (enc <$> l)).
  rewrite length_app. pose proof (Hx x ltac:(by left)).
  specialize (IH ltac:(intros; apply Hx; by right)). cbn [length]. lia.
Qed.

Lemma local_node_elem g n : cache_ok g -> n ∈ local_nodes g -> node_ok n /\ n ∈ nodes_ g.
Proof.
  intros Hg [Hl Hn]%list_elem_of_filter. split; [|done]. unfold local_node in Hl.
  apply andb_true_iff in Hl as [Ho _]. by apply (node_record_ok g).
Qed.

Lemma local_endpoint_elem g e :
  cache_ok g -> e ∈ local_endpoints g -> endpoint_ok e /\ e ∈ endpoints_ g.
Proof.
  intros Hg [Hl He]%list_elem_of_filter. split; [|done]. unfold local_endpoint in Hl.
  apply andb_true_iff in Hl as [Ho _]. by apply (endpoint_record_ok g).
Qed.

(** What the local part may hold for it to be announced. *)
Definition announceable (g : GraphCache) : Prop :=
  zlen (local_nodes g) <= 8 /\ zlen (local_endpoints g) <= 16.

Lemma snapshot_bytes_bound g :
  cache_ok g -> announceable g -> zlen (snapshot_bytes g) <= 20416.
Proof.
  intros Hg [Hn He]. unfold snapshot_bytes. rewrite !length_app.
  pose proof (header_length (zlen (local_nodes g)) (zlen (local_endpoints g))
    (local_generation_ g)).
  pose proof (mjoin_length node_bytes 461 (local_nodes g)
    ltac:(intros n Hin; apply node_bytes_length, (local_node_elem g); done)).
  pose proof (mjoin_length endpoint_bytes 1044 (local_endpoints g)
    ltac:(intros e Hin; apply endpoint_bytes_length, (local_endpoint_elem g); done)).
  lia.
Qed.

Lemma write_nodes g capacity p r :
  cache_ok g -> zlen p <= capacity <= zlen (p ++ r) -> capacity < 2 ^ 64 ->
  appended capacity p r (mjoin (node_bytes <$> local_nodes g))
    (for_each (write_node capacity) (nodes_ g) (p ++ r, zlen p)).
Proof.
  intros Hg Hc H64. apply (write_run local_node); [| |done].
  - intros n [q q'] Hx. unfold write_node. by rewrite Hx.
  - intros n q q' Hin Hx Hq. apply write_node_spec; try done.
    apply (node_record_ok g); [done|done|]. by apply andb_true_iff in Hx as [? _].
Qed.

Lemma write_endpoints g capacity p r :
  cache_ok g -> zlen p <= capacity <= zlen (p ++ r) -> capacity < 2 ^ 64 ->
  appended capacity p r (mjoin (endpoint_bytes <$> local_endpoints g))
    (for_each (write_endpoint capacity) (endpoints_ g) (p ++ r, zlen p)).
Proof.
  intros Hg Hc H64. apply (write_run local_endpoint); [| |done].
  - intros e [q q'] Hx. unfold write_endpoint. by rewrite Hx.
  - intros e q q' Hin Hx Hq. apply write_endpoint_spec; try done.
    apply (endpoint_record_ok g); [done|done|]. by apply andb_true_iff in Hx as [? _].
Qed.

(** Two runs of appends are one. *)
Lemma appended_bind capacity p r bs bs' result (k : list Z * Z -> outcome serialize_exit _) :
  zlen (p ++ r) >= capacity -> appended capacity p r bs result ->
  (zlen (p ++ bs) <= capacity ->
   appended capacity (p ++ bs) (drop (length bs) r) bs'
     (k ((p ++ bs) ++ drop (length bs) r, zlen (p ++ bs)))) ->
  appended capacity p r (bs ++ bs') (result ≫= k).
Proof.
  unfold appended. intros Hr Hres Hk. rewrite length_app in Hr.
  destruct (Z.leb_spec (zlen (p ++ bs)) capacity) as [Hle|Hgt].
  - rewrite Hres. cbn [mbind outcome_bind]. specialize (Hk Hle).
    rewrite <- (app_assoc p bs bs'), drop_drop in Hk. rewrite (length_app bs bs').
    destruct (Z.leb_spec (zlen (p ++ bs ++ bs')) capacity); [done|].
    destruct Hk as (m & -> & Hm). eexists. split; [done|]. rewrite Hm.
    rewrite !length_app, length_drop in *. lia.
  - destruct Hres as (m & -> & Hm). cbn [mbind outcome_bind].
    destruct (Z.leb_spec (zlen (p ++ bs ++ bs')) capacity) as [Hle|_].
    + rewrite !length_app in *. lia.
    + by eexists.
Qed.

(** [serialize_local] writes [snapshot_bytes], or reports why it cannot. *)
Lemma serialize_local_cases g m capacity :
  cache_ok g -> announceable g -> 24 <= capacity <= zlen m -> capacity < 2 ^ 64 ->
  let l := snapshot_bytes g in
  if zlen l <=? capacity
  then serialize_local g (Some m) capacity = Done (l ++ drop (length l) m, zlen l)
  else exists m', serialize_local g (Some m) capacity = Stop (buffer_overflow, m') /\
    length m' = length m.
Proof.
  intros Hg [Hn He] Hc H64. unfold serialize_local, kHeaderSize, snapshot_bytes.
  destruct (Z.ltb_spec capacity 24); [lia|]. cbn [stop_if mbind outcome_bind].
  pose proof (co_nodes g Hg). pose proof (co_endpoints g Hg).
  rewrite !count16_spec by lia. fold (local_nodes g) (local_endpoints g).
  unfold graph_local_node_capacity, graph_local_endpoint_capacity.
  destruct (Z.ltb_spec 8 (zlen (local_nodes g))), (Z.ltb_spec 16 (zlen (local_endpoints g)));
    try lia. cbn [orb stop_if mbind outcome_bind].
  rewrite write_header_spec by lia. cbn [mbind outcome_bind].
  set (hd := header_bytes _ _ _). pose proof (header_length (zlen (local_nodes g))
    (zlen (local_endpoints g)) (local_generation_ g)) as Hhd. fold hd in Hhd.
  assert (length (hd ++ drop 24 m) = length m) as Hlm by (rewrite length_app, length_drop; lia).
  pose proof (appended_bind capacity hd (drop 24 m) (mjoin (node_bytes <$> local_nodes g))
    (mjoin (endpoint_bytes <$> local_endpoints g)) _ (for_each (write_endpoint capacity)
      (endpoints_ g)) ltac:(lia) (write_nodes g capacity hd (drop 24 m) Hg ltac:(lia) H64))
    as Happ.
  rewrite Hhd in Happ. unfold appended in Happ at 2. rewrite Hlm in Happ.
  rewrite (length_app hd), <- (drop_drop m _ (length hd)).
  replace (length hd) with 24%nat by lia. apply Happ.
  intros Hle. apply write_endpoints; [done| |done]. rewrite !length_app, !length_drop in *. lia.
Qed.

End GraphFacts.
