(* ===== verification/GraphInvariant.v ===== *)
(** * The invariant of the graph cache

    Every operation of the cache keeps [cache_ok]: keys are unique, records are well
    formed, every endpoint belongs to a node of the same participant, and every
    remote participant has a generation.  The local operations are insertions into
    and deletions from the finite maps of the tables, with their exact refusals. *)
From stdpp Require Import gmap.
From S2P Require Import Prelude Texts Bytes Types SlotTable GraphCache GraphFacts.

Module GraphInvariant.
Import Texts Types Slots Graph GraphFacts.

(** ** Filling a table *)

Section Place.
Context {E K : Type} `{HS : Slot E K}.
Implicit Types (es l : list E) (e : E) (k : K).

Definition keyed l : gmap K E := list_to_map ((fun e => (slot_key e, e)) <$> l).

Lemma keyed_lookup_None l k : k ∉ slot_key <$> l -> keyed l !! k = None.
Proof.
  intros Hk. unfold keyed. apply not_elem_of_list_to_map. by rewrite <- list_fmap_compose.
Qed.

Lemma keyed_Some l k e :
  NoDup (slot_key <$> l) -> keyed l !! k = Some e <-> slot_key e = k /\ e ∈ l.
Proof.
  intros Hn. unfold keyed. rewrite <- elem_of_list_to_map by (by rewrite <- list_fmap_compose).
  rewrite list_elem_of_fmap. naive_solver.
Qed.

Lemma place_ok capacity es n e :
  table_ok capacity es n -> n < Z.of_nat capacity -> contents es !! slot_key e = None ->
  occupied e = true ->
  table_ok capacity (place es e) (n + 1) /\
  contents (place es e) = <[slot_key e := e]> (contents es).
Proof.
  intros Ht Hn Hk He. unfold place.
  destruct (first_where is_free es) as [[i x]|] eqn:Hf.
  - split; [by eapply table_ok_add|by eapply add_contents].
  - pose proof (table_ok_full _ _ _ Ht Hf). destruct (table_ok_size _ _ _ Ht). lia.
Qed.

Lemma place_all capacity l : forall es n,
  table_ok capacity es n -> n + zlen l <= Z.of_nat capacity ->
  Forall (fun e => occupied e = true) l -> NoDup (slot_key <$> l) ->
  (forall e, e ∈ l -> contents es !! slot_key e = None) ->
  table_ok capacity (foldl place es l) (n + zlen l) /\
  contents (foldl place es l) = keyed l ∪ contents es.
Proof.
  induction l as [|e l IH]; intros es n Ht Hn Ho Hk Hfree.
  { cbn. rewrite Z.add_0_r. split; [done|]. unfold keyed. cbn. by rewrite map_empty_union. }
  apply Forall_cons in Ho as [He Ho]. rewrite fmap_cons in Hk. apply NoDup_cons in Hk as [Hke Hk].
  cbn [length foldl] in *.
  destruct (place_ok capacity es n e Ht ltac:(lia) (Hfree e ltac:(by left)) He) as [Ht' Hc'].
  destruct (IH (place es e) (n + 1) Ht' ltac:(lia) Ho Hk) as [Ht'' Hc''].
  { intros x Hx. rewrite Hc'. rewrite lookup_insert_ne; [apply Hfree; by right|].
    intros Heq. apply Hke. rewrite Heq. by apply list_elem_of_fmap_2. }
  replace (n + Z.of_nat (S (length l))) with (n + 1 + zlen l) by lia.
  split; [done|]. rewrite Hc'', Hc'. unfold keyed at 2. cbn.
  rewrite <- insert_union_l. symmetry. apply insert_union_r. by apply keyed_lookup_None.
Qed.

Lemma remaining_live due es :
  zlen es < 2 ^ 64 -> remaining due es = zlen (live (kept due es)).
Proof.
  intros Hb. unfold remaining.
  enough (forall n, 0 <= n -> n + zlen es < 2 ^ 64 ->
    foldl (fun n e => if occupied e && negb (due e) then add64 n 1 else n) n es =
    n + zlen (live (kept due es))) as -> by lia.
  clear Hb. induction es as [|e es IH]; intros n Hn Hb; cbn [foldl length kept fmap list_fmap] in *.
  { cbn. lia. }
  destruct (occupied e) eqn:He, (due e) eqn:Hd; cbn [andb negb].
  - rewrite live_cons_free by apply slot_empty_free. apply IH; lia.
  - rewrite live_cons_occupied by done. rewrite add64_id, IH by lia.
    cbn [length]. unfold kept. lia.
  - rewrite live_cons_free by done. apply IH; lia.
  - rewrite live_cons_free by done. apply IH; lia.
Qed.

Lemma existsb_holds k es : existsb (holds k) es = bool_decide (is_Some (contents es !! k)).
Proof.
  rewrite <- search_contents. induction es as [|e es IH]; [done|].
  rewrite first_where_cons. cbn [existsb]. destruct (holds k e); [done|]. rewrite IH.
  by destruct (first_where (holds k) es) as [[i x]|].
Qed.

Lemma first_where_ext p q es :
  (forall e, e ∈ es -> p e = q e) -> first_where p es = first_where q es.
Proof.
  intros Hpq. induction es as [|e es IH]; [done|]. rewrite !first_where_cons.
  rewrite Hpq by (by left). rewrite IH; [done|]. intros. apply Hpq. by right.
Qed.

Lemma existsb_ext_in (p q : E -> bool) es :
  (forall e, e ∈ es -> p e = q e) -> existsb p es = existsb q es.
Proof.
  intros Hpq. induction es as [|e es IH]; [done|]. cbn [existsb].
  rewrite Hpq by (by left). rewrite IH; [done|]. intros. apply Hpq. by right.
Qed.

(** A table from which the entries [due] have been reset, filled with [l]. *)
Lemma replace_all capacity due es n l :
  table_ok capacity es n -> zlen (live (kept due es)) + zlen l <= Z.of_nat capacity ->
  Forall (fun e => occupied e = true) l -> NoDup (slot_key <$> l) ->
  (forall e x, e ∈ l -> contents es !! slot_key e = Some x -> due x = true) ->
  table_ok capacity (foldl place (kept due es) l) (zlen (live (kept due es)) + zlen l) /\
  contents (foldl place (kept due es) l) =
    keyed l ∪ filter (fun ke => due ke.2 = false) (contents es).
Proof.
  intros Ht Hn Ho Hk Hdue. pose proof (to_keys _ _ _ Ht) as Hkeys.
  rewrite <- (kept_contents due es Hkeys). apply place_all; try done.
  - apply (table_ok_kept _ _ _ due) in Ht as [? ? _]. by split.
  - intros e He. rewrite kept_contents by done. apply map_lookup_filter_None.
    right. intros x Hx. cbn. rewrite (Hdue e x He Hx). done.
Qed.

End Place.

(** ** The local operations as map operations *)

(** What an argument of type [const char*] denotes: null, or a string. *)
Definition names (input : option (list Z)) (s : option (list Z)) : Prop :=
  match s with
  | None => input = None
  | Some s => cstring input s /\ zlen s < 2 ^ 63
  end.

Definition name_fits (capacity : Z) (s : option (list Z)) : bool :=
  match s with Some s => fits capacity s | None => false end.

Definition text_named (capacity : Z) (s : option (list Z)) : text :=
  text_of capacity (default [] s).

Lemma copy_named {E A} (e : E) capacity input s (k : text -> outcome E A) :
  0 <= capacity < 2 ^ 63 -> names input s ->
  (require e (copy_text capacity input false) ≫= k) =
  if name_fits capacity s then k (text_named capacity s) else Stop e.
Proof.
  intros Hc Hs. unfold require. destruct s as [s|]; cbn [names name_fits] in *.
  - destruct Hs as [Hs Hl]. rewrite (copy_text_spec capacity s input) by done.
    cbn [mbind outcome_bind]. by destruct (fits capacity s).
  - by rewrite Hs.
Qed.

Lemma text_named_ok capacity s : name_fits capacity s = true -> text_ok capacity (text_named capacity s).
Proof.
  destruct s as [s|]; [|done]. unfold name_fits, fits. intros [H1 H2]%andb_true_iff.
  exists s. split; [done|]. lia.
Qed.

Lemma nodes_table g : cache_ok g -> table_ok 136 (nodes_ g) (zlen (live (nodes_ g))).
Proof. intros Hg. split; [apply Hg|apply Hg|done]. Qed.

Lemma endpoints_table g : cache_ok g -> table_ok 48 (endpoints_ g) (zlen (live (endpoints_ g))).
Proof. intros Hg. split; [apply Hg|apply Hg|done]. Qed.

Lemma remotes_table g :
  cache_ok g -> table_ok 16 (remote_generations_ g) (zlen (live (remote_generations_ g))).
Proof. intros Hg. split; [apply Hg|apply Hg|done]. Qed.

Lemma graph_generation_range x : 1 <= x <= i64_max -> 1 <= next_generation x <= i64_max.
Proof.
  intros Hx. unfold next_generation, i64_max in *. destruct (Z.leb_spec (2 ^ 63 - 1) x); [lia|].
  rewrite add64_id by lia. lia.
Qed.

(** Local endpoints are searched by entity id. *)
Lemma local_search entity e :
  length entity = 4%nat -> (e_occupied e = true -> length (e_entity_id e) = 4%nat) ->
  e_occupied e && e_local e && entity_eqb (e_entity_id e) entity = holds (inl entity) e.
Proof.
  intros Hl He. unfold holds. cbn. unfold endpoint_key.
  destruct (e_occupied e), (e_local e); cbn [andb]; try done.
  apply eq_true_iff_eq. rewrite entity_eqb_eq, bool_decide_eq_true by auto.
  naive_solver.
Qed.

Lemma owns_spec g participant_prefix node_id :
  cache_ok g ->
  existsb (owns participant_prefix node_id) (nodes_ g) = true <->
  exists n, node_map g !! inl node_id = Some n /\ n_participant_prefix n = participant_prefix.
Proof.
  intros Hg. rewrite existsb_exists. unfold owns. split.
  - intros (n & Hn%list_elem_of_In & Ho). rewrite !andb_true_iff, bool_decide_eq_true in Ho.
    destruct Ho as [[[Ho Hl] Hi%Z.eqb_eq] Hp]. exists n. split; [|done].
    pose proof (contents_elem (nodes_ g) n (co_node_keys g Hg) Hn Ho) as Hc.
    cbn in Hc. unfold node_key in Hc. by rewrite Hl, Hi in Hc.
  - intros (n & Hn & Hp). apply contents_key in Hn as (Ho & Hk & Hin). exists n.
    split; [by apply list_elem_of_In|]. cbn in Ho, Hk. unfold node_key in Hk.
    destruct (n_local n); [|done]. injection Hk as ->.
    rewrite Ho, Z.eqb_refl, Hp. by rewrite bool_decide_true.
Qed.

(** The abstract graph: what a cache holds, without the order of its tables. *)
Record graph : Type := {
  gr_nodes : gmap (Z + list Z * Z) GraphNodeRecord;
  gr_endpoints : gmap (list Z + list Z * list Z) GraphEndpointRecord;
  gr_remotes : gmap (list Z) RemoteGeneration;
  gr_generation : Z;
  gr_local_generation : Z;
}.

Definition view (g : GraphCache) : graph :=
  {| gr_nodes := node_map g; gr_endpoints := endpoint_map g;
     gr_remotes := generation_map g; gr_generation := generation_ g;
     gr_local_generation := local_generation_ g |}.

Definition spec_add_node (v : graph) (participant_prefix : GuidPrefix) (node_id : Z)
    (name name_space enclave : option (list Z)) : GraphError + graph :=
  if negb (nonzero_prefix participant_prefix) || (node_id =? 0) then inl invalid_argument
  else if bool_decide (is_Some (gr_nodes v !! inl node_id)) then inl duplicate_record
  else if negb (name_fits 64 name && name_fits 128 name_space && name_fits 256 enclave)
  then inl invalid_record
  else if (136 <=? size (gr_nodes v))%nat then inl capacity_exceeded
  else inr {|
    gr_nodes := <[inl node_id :=
      {| n_participant_prefix := participant_prefix; n_node_id := node_id;
         n_name := text_named 64 name; n_name_space := text_named 128 name_space;
         n_enclave := text_named 256 enclave; n_local := true; n_occupied := true |}]>
      (gr_nodes v);
    gr_endpoints := gr_endpoints v; gr_remotes := gr_remotes v;
    gr_generation := next_generation (gr_generation v);
    gr_local_generation := next_generation (gr_local_generation v) |}.

(** A local node that a local endpoint belongs to cannot be removed. *)
Definition node_in_use (v : graph) (node_id : Z) : Prop :=
  map_Exists (fun _ e => e_local e = true /\ e_node_id e = node_id) (gr_endpoints v).

#[global] Instance node_in_use_dec v node_id : Decision (node_in_use v node_id).
Proof. unfold node_in_use. apply _. Defined.

Definition spec_remove_node (v : graph) (node_id : Z) : GraphError + graph :=
  if bool_decide (node_in_use v node_id) then inl invalid_record
  else if bool_decide (is_Some (gr_nodes v !! inl node_id)) then inr
    {| gr_nodes := delete (inl node_id) (gr_nodes v);
       gr_endpoints := gr_endpoints v; gr_remotes := gr_remotes v;
       gr_generation := next_generation (gr_generation v);
       gr_local_generation := next_generation (gr_local_generation v) |}
  else inl record_not_found.

Definition spec_add_endpoint (v : graph) (participant_prefix : GuidPrefix)
    (entity_id : EntityId) (node_id kind : Z)
    (ros_topic ros_type dds_topic dds_type : option (list Z)) (conventions : bool)
    : GraphError + graph :=
  if negb (nonzero_prefix participant_prefix) || negb (valid_entity entity_id) ||
     (node_id =? 0) || negb (valid_kind kind) then inl invalid_argument
  else if negb (bool_decide (n_participant_prefix <$> gr_nodes v !! inl node_id =
                             Some participant_prefix)) then inl record_not_found
  else if bool_decide (is_Some (gr_endpoints v !! inl entity_id)) then inl duplicate_record
  else if negb (name_fits 256 ros_topic && name_fits 256 ros_type &&
                name_fits 256 dds_topic && name_fits 256 dds_type) then inl invalid_record
  else if (48 <=? size (gr_endpoints v))%nat then inl capacity_exceeded
  else inr {|
    gr_nodes := gr_nodes v;
    gr_endpoints := <[inl entity_id :=
      {| e_participant_prefix := participant_prefix; e_entity_id := entity_id;
         e_node_id := node_id; e_kind := kind; e_ros_topic_name := text_named 256 ros_topic;
         e_ros_type_name := text_named 256 ros_type;
         e_dds_topic_name := text_named 256 dds_topic;
         e_dds_type_name := text_named 256 dds_type;
         e_ros_namespace_conventions := conventions; e_local := true;
         e_occupied := true |}]> (gr_endpoints v);
    gr_remotes := gr_remotes v;
    gr_generation := next_generation (gr_generation v);
    gr_local_generation := next_generation (gr_local_generation v) |}.

Definition spec_remove_endpoint (v : graph) (entity_id : EntityId) : GraphError + graph :=
  if bool_decide (is_Some (gr_endpoints v !! inl entity_id)) then inr
    {| gr_nodes := gr_nodes v; gr_endpoints := delete (inl entity_id) (gr_endpoints v);
       gr_remotes := gr_remotes v; gr_generation := next_generation (gr_generation v);
       gr_local_generation := next_generation (gr_local_generation v) |}
  else inl record_not_found.

(** The tables keep their length and hold no key twice. *)
Definition tables_ok (g : GraphCache) : Prop :=
  (exists n, table_ok 136 (nodes_ g) n) /\ (exists n, table_ok 48 (endpoints_ g) n) /\
  (exists n, table_ok 16 (remote_generations_ g) n).

(** The part of [cache_ok] that does not depend on the order of the tables. *)
Record graph_ok (v : graph) : Prop := {
  go_node_keys : map_Forall (fun k n => node_key n = k) (gr_nodes v);
  go_endpoint_keys : map_Forall (fun k e => endpoint_key e = k) (gr_endpoints v);
  go_nodes : map_Forall (fun _ n => node_ok n) (gr_nodes v);
  go_endpoints : map_Forall (fun _ e => endpoint_ok e) (gr_endpoints v);
  go_owner : map_Forall (fun _ e => exists n, gr_nodes v !! owner_key e = Some n /\
    n_participant_prefix n = e_participant_prefix e) (gr_endpoints v);
  go_known : map_Forall (fun _ n => n_local n = false ->
    is_Some (gr_remotes v !! n_participant_prefix n)) (gr_nodes v);
  go_received : map_Forall (fun _ r => 1 <= g_generation r <= i64_max) (gr_remotes v);
  go_generation : 1 <= gr_generation v <= i64_max;
  go_local_generation : 1 <= gr_local_generation v <= i64_max;
}.

Lemma cache_ok_split g : cache_ok g <-> tables_ok g /\ graph_ok (view g).
Proof.
  split.
  - intros Hg. split.
    + split_and!; eexists; [by apply nodes_table|by apply endpoints_table|by apply remotes_table].
    + destruct Hg. split; try done; intros k x Hx; by apply contents_key in Hx as (_ & ? & _).
  - intros [([? []] & [? []] & [? []]) []]. by split.
Qed.

(** A result of the cache implements a result of the specification. *)
Definition implements {E} (m : outcome E GraphCache) (r : E + graph) : Prop :=
  match r with
  | inl e => m = Stop e
  | inr v => exists g, m = Done g /\ view g = v /\ tables_ok g
  end.

Lemma implements_ok {E} (m : outcome E GraphCache) r g :
  implements m r -> (forall v, r = inr v -> graph_ok v) -> m = Done g -> cache_ok g.
Proof.
  destruct r as [e|v]; cbn; [by intros -> _ ?|].
  intros (g' & -> & Hv & Ht) Hr [= <-]. apply cache_ok_split. split; [done|].
  rewrite Hv. by apply Hr.
Qed.

Lemma tables_nodes g g' n :
  cache_ok g -> table_ok 136 (nodes_ g') n -> endpoints_ g' = endpoints_ g ->
  remote_generations_ g' = remote_generations_ g -> tables_ok g'.
Proof.
  intros Hg Ht He Hr. split_and!; [by eexists|rewrite He|rewrite Hr]; eexists;
    [by apply endpoints_table|by apply remotes_table].
Qed.

Lemma tables_endpoints g g' n :
  cache_ok g -> table_ok 48 (endpoints_ g') n -> nodes_ g' = nodes_ g ->
  remote_generations_ g' = remote_generations_ g -> tables_ok g'.
Proof.
  intros Hg Ht He Hr. split_and!; [rewrite He|by eexists|rewrite Hr]; eexists;
    [by apply nodes_table|by apply remotes_table].
Qed.

Ltac view_fields :=
  unfold view, advance_generation, with_nodes, with_endpoints;
  cbn [nodes_ endpoints_ remote_generations_ generation_ local_generation_
       gr_nodes gr_endpoints gr_remotes gr_generation gr_local_generation]; f_equal.

Lemma add_node_implements g participant_prefix node_id i1 i2 i3 s1 s2 s3 :
  cache_ok g -> names i1 s1 -> names i2 s2 -> names i3 s3 ->
  implements (add_local_node g participant_prefix node_id i1 i2 i3)
    (spec_add_node (view g) participant_prefix node_id s1 s2 s3).
Proof.
  intros Hg H1 H2 H3. unfold add_local_node, spec_add_node.
  destruct (negb _ || _); [by cbn|]. cbn [stop_if mbind outcome_bind].
  rewrite existsb_holds. cbn [view gr_nodes].
  case_bool_decide as Hd; [by cbn|]. cbn [stop_if mbind outcome_bind].
  rewrite (copy_named _ _ _ s1), (copy_named _ _ _ s2), (copy_named _ _ _ s3) by done.
  change graph_node_name_capacity with 64. change graph_namespace_capacity with 128.
  change graph_enclave_capacity with 256.
  destruct (name_fits 64 s1), (name_fits 128 s2), (name_fits 256 s3); try (by cbn). cbn [negb andb].
  pose proof (nodes_table g Hg) as Ht.
  destruct (first_where is_free (nodes_ g)) as [[i x]|] eqn:Hf.
  - pose proof (table_ok_free _ _ _ _ _ Ht Hf). destruct (Nat.leb_spec 136 (size (node_map g))); [lia|].
    eexists. split; [done|]. apply eq_None_not_Some in Hd. split.
    + view_fields. by apply (add_contents (inl node_id) _ _ x).
    + eapply (tables_nodes g); [done| |done..]. by eapply (table_ok_add _ _ _ (inl node_id)).
  - pose proof (table_ok_full _ _ _ Ht Hf). destruct (Nat.leb_spec 136 (size (node_map g))); [by cbn|lia].
Qed.

Lemma add_endpoint_implements g participant_prefix entity_id node_id kind
    i1 i2 i3 i4 s1 s2 s3 s4 conventions :
  cache_ok g -> length entity_id = 4%nat ->
  names i1 s1 -> names i2 s2 -> names i3 s3 -> names i4 s4 ->
  implements (add_local_endpoint g participant_prefix entity_id node_id kind i1 i2 i3 i4 conventions)
    (spec_add_endpoint (view g) participant_prefix entity_id node_id kind s1 s2 s3 s4 conventions).
Proof.
  intros Hg Hl H1 H2 H3 H4. unfold add_local_endpoint, spec_add_endpoint.
  destruct (negb _ || _ || _ || _); [by cbn|].
  cbn [stop_if mbind outcome_bind view gr_nodes gr_endpoints].
  replace (bool_decide (n_participant_prefix <$> node_map g !! inl node_id = Some participant_prefix))
    with (existsb (owns participant_prefix node_id) (nodes_ g)).
  2: { apply eq_true_iff_eq. rewrite (owns_spec _ _ _ Hg), bool_decide_eq_true, fmap_Some. naive_solver. }
  destruct (existsb (owns _ _) _); [|by cbn]. cbn [negb stop_if mbind outcome_bind].
  rewrite (existsb_ext_in _ (holds (inl entity_id))).
  2: { intros e He. apply local_search; [done|]. intros Ho. by apply (endpoint_record_ok g). }
  rewrite existsb_holds. unfold GuidPrefix, EntityId in *. case_bool_decide as Hd; [by cbn|]. cbn [stop_if mbind outcome_bind].
  rewrite (copy_named _ _ _ s1), (copy_named _ _ _ s2), (copy_named _ _ _ s3),
    (copy_named _ _ _ s4) by done.
  change graph_topic_name_capacity with 256. change graph_type_name_capacity with 256.
  destruct (name_fits 256 s1), (name_fits 256 s2), (name_fits 256 s3), (name_fits 256 s4);
    try (by cbn). cbn [negb andb].
  pose proof (endpoints_table g Hg) as Ht.
  destruct (first_where is_free (endpoints_ g)) as [[i x]|] eqn:Hf.
  - pose proof (table_ok_free _ _ _ _ _ Ht Hf).
    destruct (Nat.leb_spec 48 (size (endpoint_map g))); [lia|].
    eexists. split; [done|]. apply eq_None_not_Some in Hd. split.
    + view_fields. by apply (add_contents (inl entity_id) _ _ x).
    + eapply (tables_endpoints g); [done| |done..].
      by eapply (table_ok_add _ _ _ (inl entity_id)).
  - pose proof (table_ok_full _ _ _ Ht Hf).
    destruct (Nat.leb_spec 48 (size (endpoint_map g))); [by cbn|lia].
Qed.

Lemma remove_endpoint_implements g entity_id :
  cache_ok g -> length entity_id = 4%nat ->
  implements (remove_local_endpoint g entity_id) (spec_remove_endpoint (view g) entity_id).
Proof.
  intros Hg Hl. unfold remove_local_endpoint, spec_remove_endpoint. cbn [view gr_endpoints].
  rewrite (first_where_ext _ (holds (inl entity_id))).
  2: { intros e He. apply local_search; [done|]. intros Ho. by apply (endpoint_record_ok g). }
  rewrite <- search_contents.
  destruct (first_where _ (endpoints_ g)) as [[i x]|] eqn:Hf; cbn; [|done].
  eexists. split; [done|]. split.
  - view_fields. exact (proj1 (remove_contents (inl entity_id) _ i x (co_endpoint_keys g Hg) Hf)).
  - eapply (tables_endpoints g); [done| |done..].
    by apply (table_ok_remove _ _ _ (inl entity_id) _ x (endpoints_table g Hg)).
Qed.

Lemma in_use_spec g node_id :
  cache_ok g ->
  existsb (fun e => e_occupied e && e_local e && (e_node_id e =? node_id)) (endpoints_ g) =
  bool_decide (node_in_use (view g) node_id).
Proof.
  intros Hg. apply eq_true_iff_eq. rewrite existsb_exists, bool_decide_eq_true.
  unfold node_in_use, map_Exists. cbn [view gr_endpoints]. split.
  - intros (e & He%list_elem_of_In & Ho). rewrite !andb_true_iff in Ho.
    destruct Ho as [[Ho Hl] Hi%Z.eqb_eq]. exists (endpoint_key e), e. split_and!; [|done..].
    by apply (contents_elem (endpoints_ g) e (co_endpoint_keys g Hg)).
  - intros (k & e & (Ho & _ & Hin)%contents_key & Hl & Hi). exists e.
    split; [by apply list_elem_of_In|]. cbn in Ho. by rewrite Ho, Hl, Hi, Z.eqb_refl.
Qed.

Lemma remove_node_implements g node_id :
  cache_ok g -> implements (remove_local_node g node_id) (spec_remove_node (view g) node_id).
Proof.
  intros Hg. unfold remove_local_node, spec_remove_node. rewrite in_use_spec by done.
  case_bool_decide; [by cbn|]. cbn [stop_if mbind outcome_bind view gr_nodes].
  rewrite <- search_contents.
  destruct (first_where (holds (inl node_id)) (nodes_ g)) as [[i x]|] eqn:Hf; cbn; [|done].
  eexists. split; [done|]. split.
  - view_fields. exact (proj1 (remove_contents (inl node_id) _ i x (co_node_keys g Hg) Hf)).
  - eapply (tables_nodes g); [done| |done..].
    by apply (table_ok_remove _ _ _ (inl node_id) _ x (nodes_table g Hg)).
Qed.

(** ** The specification keeps [graph_ok] *)

Lemma spec_add_node_ok v participant_prefix node_id s1 s2 s3 v' :
  graph_ok v -> 0 <= node_id < 2 ^ 64 ->
  spec_add_node v participant_prefix node_id s1 s2 s3 = inr v' -> graph_ok v'.
Proof.
  intros Hv Hi. unfold spec_add_node.
  destruct (nonzero_prefix participant_prefix) eqn:Hp; [|done].
  destruct (Z.eqb_spec node_id 0) as [|Hnz]; [done|]. cbn [negb orb].
  case_bool_decide as Hd; [done|]. apply eq_None_not_Some in Hd.
  destruct (name_fits 64 s1) eqn:H1, (name_fits 128 s2) eqn:H2, (name_fits 256 s3) eqn:H3;
    try done. cbn [negb andb].
  destruct (Nat.leb_spec 136 (size (gr_nodes v))); [done|]. intros [= <-].
  destruct Hv as [K1 K2 O1 O2 Ow Kn Rc G1 G2].
  split; cbn [gr_nodes gr_endpoints gr_remotes gr_generation gr_local_generation];
    try done; try (by apply graph_generation_range).
  - by apply map_Forall_insert_2.
  - apply map_Forall_insert_2; [|done].
    split; cbn; [lia|done|by apply text_named_ok..].
  - intros k e (n & Hn & Hnp)%Ow. exists n. split; [|done].
    rewrite lookup_insert_ne; [done|]. intros Heq. congruence.
  - by apply map_Forall_insert_2.
Qed.

Lemma spec_remove_node_ok v node_id v' :
  graph_ok v -> spec_remove_node v node_id = inr v' -> graph_ok v'.
Proof.
  intros [K1 K2 O1 O2 Ow Kn Rc G1 G2]. unfold spec_remove_node.
  case_bool_decide as Hu; [done|]. case_bool_decide; [|done]. intros [= <-].
  split; cbn [gr_nodes gr_endpoints gr_remotes gr_generation gr_local_generation];
    try done; try (by apply graph_generation_range); try (by apply map_Forall_delete).
  intros k e He. destruct (Ow k e He) as (n & Hn & Hnp). exists n. split; [|done].
  rewrite lookup_delete_ne; [done|]. unfold owner_key. destruct (e_local e) eqn:Hl; [|done].
  intros [= Heq]. apply Hu. by exists k, e.
Qed.

Lemma spec_add_endpoint_ok v participant_prefix entity_id node_id kind s1 s2 s3 s4 conventions v' :
  graph_ok v -> 0 <= node_id < 2 ^ 64 -> length entity_id = 4%nat ->
  spec_add_endpoint v participant_prefix entity_id node_id kind s1 s2 s3 s4 conventions = inr v' ->
  graph_ok v'.
Proof.
  intros Hv Hi Hl. unfold spec_add_endpoint.
  destruct (nonzero_prefix participant_prefix) eqn:Hp; [|done].
  destruct (valid_entity entity_id) eqn:He; [|done].
  destruct (Z.eqb_spec node_id 0) as [|Hnz]; [done|]. destruct (valid_kind kind) eqn:Hk; [|done].
  cbn [negb orb]. case_bool_decide as Ho; [|done].
  apply fmap_Some in Ho as (n & Hn & Hnp). cbn [negb].
  case_bool_decide as Hd; [done|]. apply eq_None_not_Some in Hd.
  destruct (name_fits 256 s1) eqn:H1, (name_fits 256 s2) eqn:H2, (name_fits 256 s3) eqn:H3,
    (name_fits 256 s4) eqn:H4; try done. cbn [negb andb].
  destruct (Nat.leb_spec 48 (size (gr_endpoints v))); [done|]. intros [= <-].
  destruct Hv as [K1 K2 O1 O2 Ow Kn Rc G1 G2].
  split; cbn [gr_nodes gr_endpoints gr_remotes gr_generation gr_local_generation];
    try done; try (by apply graph_generation_range); apply map_Forall_insert_2; try done.
  - split; cbn; [lia|done..| | | |]; by apply text_named_ok.
  - by exists n.
Qed.

Lemma spec_remove_endpoint_ok v entity_id v' :
  graph_ok v -> spec_remove_endpoint v entity_id = inr v' -> graph_ok v'.
Proof.
  intros [K1 K2 O1 O2 Ow Kn Rc G1 G2]. unfold spec_remove_endpoint.
  case_bool_decide; [|done]. intros [= <-].
  split; cbn [gr_nodes gr_endpoints gr_remotes gr_generation gr_local_generation];
    try done; try (by apply graph_generation_range); by apply map_Forall_delete.
Qed.

End GraphInvariant.
