(* ===== verification/GraphExchange.v ===== *)
(** * Graph snapshots between participants

    What [apply_remote] does with any payload, the invariant over every sequence of
    operations, and the exchange itself: the snapshot of one cache, applied at
    another, makes the remote part of the second the local part of the first. *)
From stdpp Require Import gmap.
From S2P Require Import Prelude Texts Bytes Types SlotTable GraphCache GraphFacts GraphInvariant.

Module GraphExchange.
Import Texts Types Slots Graph GraphFacts GraphInvariant.

(** ** Parsing any payload *)

(** [m] does not fault, and what it completes with satisfies [P]; an error it
    returns satisfies [Q]. *)
Definition yields {E A} (Q : E -> Prop) (P : A -> Prop) (m : outcome E A) : Prop :=
  match m with Fault => False | Stop e => Q e | Done a => P a end.

Lemma yields_bind {E A B} Q (P' : A -> Prop) (P : B -> Prop) (m : outcome E A) k :
  yields Q P' m -> (forall a, P' a -> yields Q P (k a)) -> yields Q P (m ≫= k).
Proof. destruct m; cbn; auto. Qed.

Lemma yields_guard {E B} Q (P : B -> Prop) c (e : E) k :
  Q e -> (c = false -> yields Q P (k tt)) -> yields Q P (stop_if c e ≫= k).
Proof. destruct c; cbn; auto. Qed.

Lemma yields_load {E B} Q (P : B -> Prop) m i (k : Z -> outcome E B) :
  bytes_ok m -> 0 <= i < zlen m -> (forall x, 0 <= x < 256 -> yields Q P (k x)) ->
  yields Q P (access (mload m i) ≫= k).
Proof.
  intros Hm Hi Hk. apply mload_is_Some in Hi as [x Hx]. rewrite Hx. apply Hk.
  by apply (mload_Forall byte_ok m i).
Qed.

Lemma yields_slice {E B} Q (P : B -> Prop) (m : list Z) i n (k : list Z -> outcome E B) :
  0 <= i /\ 0 <= n /\ i + n <= zlen m -> (forall x, zlen x = n -> yields Q P (k x)) ->
  yields Q P (access (mslice m i n) ≫= k).
Proof.
  intros Hi Hk. apply mslice_is_Some in Hi as [x Hx]. rewrite Hx. apply Hk.
  by apply (mslice_length m i).
Qed.

Lemma yields_u16 {E B} Q (P : B -> Prop) m i (k : Z -> outcome E B) :
  bytes_ok m -> 0 <= i /\ i + 2 <= zlen m -> (forall x, 0 <= x < 2 ^ 16 -> yields Q P (k x)) ->
  yields Q P (read_u16 m i ≫= k).
Proof.
  intros Hm Hi Hk. unfold read_u16.
  pose proof (read_uint16_safe (E:=E) m i little_endian ltac:(lia) ltac:(lia)) as Hs.
  pose proof (read_uint16_no_stop (E:=E) m i little_endian) as Hn.
  pose proof (fun v => read_uint16_range (E:=E) m i little_endian v Hm) as Hr.
  destruct (read_uint16 m i little_endian) as [|e|v]; [by destruct Hs|by destruct (Hn e eq_refl)|].
  apply Hk. by apply Hr.
Qed.

Lemma yields_u64 {E B} Q (P : B -> Prop) m i (k : Z -> outcome E B) :
  bytes_ok m -> 0 <= i /\ i + 8 <= zlen m -> (forall x, 0 <= x < 2 ^ 64 -> yields Q P (k x)) ->
  yields Q P (read_u64 m i ≫= k).
Proof.
  intros Hm Hi Hk. unfold read_u64.
  pose proof (load_loop_safe (E:=E) m i 8 little_endian ltac:(lia) ltac:(lia)) as Hs.
  pose proof (load_loop_no_stop (E:=E) m i 8 little_endian) as Hn.
  pose proof (fun v => load_loop_range (E:=E) m i 8 little_endian v Hm ltac:(lia)) as Hr.
  destruct (load_loop m i 8 little_endian) as [|e|v]; [by destruct Hs|by destruct (Hn e eq_refl)|].
  apply Hk. by apply Hr.
Qed.

Lemma yields_seq {E T} Q (Inv : Z -> T -> Prop) (f : Z -> T -> outcome E T) n s :
  0 <= n -> (forall i s, 0 <= i < n -> Inv i s -> yields Q (Inv (i + 1)) (f i s)) ->
  Inv 0 s -> yields Q (Inv n) (for_each f (seqZ 0 n) s).
Proof.
  intros Hn Hf. enough (forall k i s, (i + Z.of_nat k = n) -> 0 <= i -> Inv i s ->
    yields Q (Inv n) (for_each f (seqZ i (Z.of_nat k)) s)) as Hk.
  { intros Hs. rewrite <- (Z2Nat.id n) at 2 by done. apply Hk; [lia|lia|done]. }
  clear s. induction k as [|k IH]; intros i s Hi H0 Hs.
  { cbn. rewrite Z.add_0_r in Hi. by subst. }
  rewrite seqZ_cons by lia. cbn [for_each].
  eapply yields_bind; [apply Hf; [lia|done]|]. intros s' Hs'.
  replace (Z.pred (Z.of_nat (S k))) with (Z.of_nat k) by lia.
  replace (Z.succ i) with (i + 1) by lia. apply IH; [lia|lia|done].
Qed.

Lemma yields_text {E B} Q (P : B -> Prop) (e : E) capacity payload payload_size position size k :
  0 <= capacity < 2 ^ 63 -> payload_size <= zlen payload -> payload_size < 2 ^ 64 ->
  0 <= position -> 0 <= size -> Q e ->
  (forall t position', text_ok capacity t -> position <= position' <= payload_size ->
     yields Q P (k (t, position'))) ->
  yields Q P (require e (read_text capacity payload payload_size position size false) ≫= k).
Proof.
  intros Hc Hp H64 Hpos Hsz He Hk. unfold require, read_text. cbn [negb andb].
  destruct (Z.leb_spec capacity size); [done|].
  destruct (Z.eqb_spec size 0); [done|].
  destruct (Z.ltb_spec payload_size position); [done|]. cbn [orb]. rewrite sub64_id by lia.
  destruct (Z.ltb_spec (payload_size - position) size); [done|].
  destruct (mslice_is_Some payload position size) as [_ [src Hsrc]]; [lia|]. rewrite Hsrc.
  apply mslice_length in Hsrc. cbn [access mbind outcome_bind].
  rewrite padded_copy by lia. cbn [access mbind outcome_bind]. rewrite add64_id by lia.
  apply Hk; [|lia]. exists src. unfold text_of. split; [by rewrite Hsrc|lia].
Qed.

(** The records a snapshot of [p] carries. *)
Definition incoming_node_ok (p : GuidPrefix) (n : GraphNodeRecord) : Prop :=
  node_ok n /\ n_participant_prefix n = p /\ n_local n = false /\ n_occupied n = true.
Definition incoming_endpoint_ok (p : GuidPrefix) (e : GraphEndpointRecord) : Prop :=
  endpoint_ok e /\ e_participant_prefix e = p /\ e_local e = false /\ e_occupied e = true.

(** The first [i] entries of the array, and the position behind them. *)
Definition nodes_read (p : GuidPrefix) (payload_size i : Z) (s : list GraphNodeRecord * Z)
    : Prop :=
  length s.1 = 8%nat /\ 24 <= s.2 <= payload_size /\
  Forall (incoming_node_ok p) (take (Z.to_nat i) s.1) /\
  NoDup (n_node_id <$> take (Z.to_nat i) s.1).

Definition endpoints_read (p : GuidPrefix) (ids : list Z) (payload_size i : Z)
    (s : list GraphEndpointRecord * Z) : Prop :=
  length s.1 = 16%nat /\ 24 <= s.2 <= payload_size /\
  Forall (fun e => incoming_endpoint_ok p e /\ e_node_id e ∈ ids) (take (Z.to_nat i) s.1) /\
  NoDup (e_entity_id <$> take (Z.to_nat i) s.1).

(** Refusals of the parser: nothing has been applied. *)
Definition refuses (r : refusal) : Prop := r = malformed \/ r = (rejected, duplicate_record).

Lemma existsb_false {A} (f : A -> bool) l : existsb f l = false <-> Forall (fun x => f x = false) l.
Proof.
  induction l as [|x l IH]; cbn [existsb]; [by split|].
  rewrite Forall_cons, orb_false_iff, IH. done.
Qed.

Lemma take_store {A} (l : list A) i x :
  0 <= i < zlen l ->
  mstore l i x = Some (<[Z.to_nat i := x]> l) /\
  take (Z.to_nat (i + 1)) (<[Z.to_nat i := x]> l) = take (Z.to_nat i) l ++ [x].
Proof.
  intros Hi. split.
  { unfold mstore. destruct (Z.leb_spec 0 i), (Z.ltb_spec i (zlen l)); done || lia. }
  replace (Z.to_nat (i + 1)) with (S (Z.to_nat i)) by lia.
  rewrite (take_S_r _ _ x) by (apply list_lookup_insert_eq; lia).
  f_equal. by rewrite take_insert_ge.
Qed.

Lemma node_exists_spec nodes count id :
  node_exists nodes count id = true <-> id ∈ n_node_id <$> take (Z.to_nat count) nodes.
Proof.
  unfold node_exists. rewrite existsb_exists, list_elem_of_fmap.
  split; intros (n & H1 & H2); exists n.
  - apply list_elem_of_In in H1. split; [lia|done].
  - apply list_elem_of_In in H2. split; [done|lia].
Qed.

Section Parse.
Context (p : GuidPrefix) (payload : list Z).
Context (Hp : nonzero_prefix p = true) (Hb : bytes_ok payload) (H64 : zlen payload < 2 ^ 63).

#[local] Hint Unfold refuses : core.
Ltac yields_step :=
  first
    [ apply yields_guard; [by auto|intros ?]
    | apply yields_u64; [done|lia|intros ? ?] | apply yields_u16; [done|lia|intros ? ?]
    | apply yields_load; [done|lia|intros ? ?] | apply yields_slice; [lia|intros ? ?] ].
Ltac yields_texts :=
  rewrite ?add64_id by lia;
  apply yields_text; [done|lia|lia|lia|lia|by auto|intros ? ? ? ?].

Lemma read_node_yields i s :
  0 <= i < 8 -> nodes_read p (zlen payload) i s ->
  yields refuses (nodes_read p (zlen payload) (i + 1)) (read_node p payload (zlen payload) i s).
Proof.
  destruct s as [ns start]. intros Hi (Hl & Hs & Hns & Hnd). cbn [fst snd] in *.
  unfold read_node, kNodeHeaderSize. rewrite sub64_id by lia.
  apply yields_guard; [by auto|]. intros Hlen. bool_props. clear Hlen.
  do 6 yields_step. yields_step. bool_props. do 3 yields_texts.
  apply yields_guard; [by auto|]. intros Hdup.
  edestruct (take_store ns i) as [-> Htake]; [lia|].
  cbn. unfold nodes_read. cbn [fst snd]. rewrite Htake, length_insert.
  split_and!; [done|lia|lia| |].
  - apply Forall_app. split; [done|]. apply Forall_singleton.
    split_and!; try done. split; cbn; done || lia.
  - rewrite fmap_app. apply NoDup_app. split_and!; [done| |apply NoDup_singleton].
    intros id Hid ->%list_elem_of_singleton. cbn in Hid.
    apply list_elem_of_fmap in Hid as (y & Hy & Hin).
    rewrite existsb_false, Forall_forall in Hdup. specialize (Hdup y Hin). lia.
Qed.
Lemma read_endpoint_yields nodes count start' i s :
  0 <= i < 16 -> nodes_read p (zlen payload) count (nodes, start') ->
  let ids := n_node_id <$> take (Z.to_nat count) nodes in
  endpoints_read p ids (zlen payload) i s ->
  yields refuses (endpoints_read p ids (zlen payload) (i + 1))
    (read_endpoint p payload (zlen payload) nodes count i s).
Proof.
  destruct s as [es start]. intros Hi (_ & _ & Hns & _) ids (Hl & Hs & Hes & Hnd).
  cbn [fst snd] in *. unfold read_endpoint, kEndpointHeaderSize. rewrite sub64_id by lia.
  apply yields_guard; [by auto|]. intros Hlen. bool_props. clear Hlen.
  yields_step. apply yields_slice; [lia|]. intros entity Hent. do 8 yields_step.
  apply yields_guard; [by auto|]. rewrite !orb_false_iff, !negb_false_iff.
  intros [[[[[Hval Hid%node_exists_spec] Hkind] _] _] _].
  do 4 yields_texts. apply yields_guard; [by auto|]. intros Hdup.
  edestruct (take_store es i) as [-> Htake]; [lia|].
  cbn [access mbind outcome_bind yields]. unfold endpoints_read. cbn [fst snd].
  rewrite Htake, length_insert. split_and!; [done|lia|lia| |].
  - apply Forall_app. split; [done|]. apply Forall_singleton. split; [|done].
    split_and!; try done. split; cbn; try done; [|lia].
    apply list_elem_of_fmap in Hid as (n & -> & Hn).
    rewrite Forall_forall in Hns. by apply Hns in Hn as [[] _].
  - rewrite fmap_app. apply NoDup_app. split_and!; [done| |apply NoDup_singleton].
    intros id' Hid' ->%list_elem_of_singleton. cbn in Hid'.
    apply list_elem_of_fmap in Hid' as (y & Hy & Hin).
    rewrite existsb_false, Forall_forall in Hdup. specialize (Hdup y Hin).
    rewrite Forall_forall in Hes. apply Hes in Hin as [[[] _] _].
    apply not_true_iff_false in Hdup. apply Hdup, entity_eqb_eq; [done|lia|done].
Qed.

(** What a parsed snapshot of [p] is. *)
Record incoming_ok (i : incoming) : Prop := {
  io_node_count : 0 <= in_node_count i <= 8;
  io_endpoint_count : 0 <= in_endpoint_count i <= 16;
  io_node_size : length (in_nodes i) = 8%nat;
  io_endpoint_size : length (in_endpoints i) = 16%nat;
  io_nodes : Forall (incoming_node_ok p) (take (Z.to_nat (in_node_count i)) (in_nodes i));
  io_ids : NoDup (n_node_id <$> take (Z.to_nat (in_node_count i)) (in_nodes i));
  io_endpoints : Forall (fun e => incoming_endpoint_ok p e /\
      e_node_id e ∈ n_node_id <$> take (Z.to_nat (in_node_count i)) (in_nodes i))
    (take (Z.to_nat (in_endpoint_count i)) (in_endpoints i));
  io_entities : NoDup (e_entity_id <$> take (Z.to_nat (in_endpoint_count i)) (in_endpoints i));
  io_generation : 1 <= in_generation i <= i64_max;
}.

Lemma parse_yields seq :
  yields refuses incoming_ok (parse_snapshot p (Some payload) (zlen payload) seq).
Proof.
  unfold parse_snapshot, kHeaderSize. rewrite Hp. cbn [negb orb is_null].
  apply yields_guard; [by auto|]. intros Hlen. bool_props. clear Hlen.
  do 9 yields_step. do 3 yields_step.
  apply yields_guard; [by auto|]. intros Hc. unfold graph_local_node_capacity,
    graph_local_endpoint_capacity in *. rewrite !orb_false_iff in Hc.
  destruct Hc as [[[[Hc1 Hc2] Hc3] Hc4] _]. bool_props.
  eapply yields_bind.
  { apply (yields_seq _ (nodes_read p (zlen payload))); [lia| |].
    - intros. apply read_node_yields; [lia|done].
    - unfold nodes_read. cbn. split_and!; first [done|lia|constructor]. }
  intros [ns pos] Hn. eapply yields_bind.
  { eapply (yields_seq _ (endpoints_read p _ (zlen payload))); [lia| |].
    - intros. eapply read_endpoint_yields; [lia|done|done].
    - destruct Hn as (_ & ? & _). unfold endpoints_read. cbn in *.
      split_and!; first [done|lia|constructor]. }
  intros [es pos'] He. yields_step. destruct Hn as (? & ? & ? & ?), He as (? & ? & ? & ?).
  cbn in *. split; cbn; try done; lia.
Qed.
End Parse.

(** ** Applying a snapshot *)

Definition sent_nodes (i : incoming) : list GraphNodeRecord :=
  take (Z.to_nat (in_node_count i)) (in_nodes i).
Definition sent_endpoints (i : incoming) : list GraphEndpointRecord :=
  take (Z.to_nat (in_endpoint_count i)) (in_endpoints i).

(** What a cache holds besides the records of the remote participant [p]. *)
Definition other_nodes (v : graph) (p : GuidPrefix) : gmap (Z + list Z * Z) GraphNodeRecord :=
  filter (fun ke => remote_node_of p ke.2 = false) (gr_nodes v).
Definition other_endpoints (v : graph) (p : GuidPrefix)
    : gmap (list Z + list Z * list Z) GraphEndpointRecord :=
  filter (fun ke => remote_endpoint_of p ke.2 = false) (gr_endpoints v).

(** The records of [p] replaced by those of the snapshot. *)
Definition applied (v : graph) (p : GuidPrefix) (i : incoming) : graph :=
  {| gr_nodes := keyed (sent_nodes i) ∪ other_nodes v p;
     gr_endpoints := keyed (sent_endpoints i) ∪ other_endpoints v p;
     gr_remotes := <[p := {| g_participant_prefix := p; g_generation := in_generation i;
                             g_occupied := true |}]> (gr_remotes v);
     gr_generation := next_generation (gr_generation v);
     gr_local_generation := gr_local_generation v |}.

(** The records of [p] are replaced by those of the snapshot, unless it is not newer
    than the last one or some table has no room for the result. *)
Definition spec_apply (v : graph) (p : GuidPrefix) (i : incoming) : refusal + graph :=
  let known := gr_remotes v !! p in
  if match known with Some r => in_generation i <=? g_generation r | None => false end
  then inl (unchanged, stale_snapshot)
  else if is_null known && (16 <=? size (gr_remotes v))%nat
  then inl (rejected, capacity_exceeded)
  else if (136 <? Z.of_nat (size (other_nodes v p)) + in_node_count i) ||
          (48 <? Z.of_nat (size (other_endpoints v p)) + in_endpoint_count i)
  then inl (rejected, capacity_exceeded)
  else inr (applied v p i).

Lemma spec_apply_inr v p i v' : spec_apply v p i = inr v' -> v' = applied v p i.
Proof. unfold spec_apply. intros. repeat case_match; congruence. Qed.

Lemma sent_node_key p i n :
  incoming_ok p i -> n ∈ sent_nodes i -> node_key n = inr (p, n_node_id n).
Proof.
  intros Hi Hn. pose proof (io_nodes p i Hi) as Hns. rewrite Forall_forall in Hns.
  destruct (Hns n Hn) as (_ & Hp & Hl & _). unfold node_key. by rewrite Hl, Hp.
Qed.

Lemma sent_endpoint_key p i e :
  incoming_ok p i -> e ∈ sent_endpoints i -> endpoint_key e = inr (p, e_entity_id e).
Proof.
  intros Hi He. pose proof (io_endpoints p i Hi) as Hes. rewrite Forall_forall in Hes.
  destruct (Hes e He) as ((_ & Hp & Hl & _) & _). unfold endpoint_key. by rewrite Hl, Hp.
Qed.

(** The table of a snapshot's records, by their ids. *)
Lemma NoDup_keyed {A K B} (f : A -> K) (id : A -> B) (c : B -> K) (l : list A) :
  (forall x, x ∈ l -> f x = c (id x)) -> (forall a b, c a = c b -> a = b) ->
  NoDup (id <$> l) -> NoDup (f <$> l).
Proof.
  intros Hf Hc Hn. rewrite (list_fmap_ext f (c ∘ id)) by (intros ? ? ?%list_elem_of_lookup_2; by apply Hf).
  rewrite list_fmap_compose. apply NoDup_fmap_2; [|done]. intros a b. apply Hc.
Qed.

Lemma sent_node_keys p i : incoming_ok p i -> NoDup (slot_key <$> sent_nodes i).
Proof.
  intros Hi. apply (NoDup_keyed _ n_node_id (fun id => inr (p, id)));
    [by intros; apply (sent_node_key p i)|by intros ? ? [= ?]|by apply Hi].
Qed.

Lemma sent_endpoint_keys p i : incoming_ok p i -> NoDup (slot_key <$> sent_endpoints i).
Proof.
  intros Hi. apply (NoDup_keyed _ e_entity_id (fun id => inr (p, id)));
    [by intros; apply (sent_endpoint_key p i)|by intros ? ? [= ?]|by apply Hi].
Qed.

Lemma remote_node_key p n : remote_node_of p n = true <-> exists id, node_key n = inr (p, id).
Proof.
  unfold remote_node_of, node_key. destruct (n_local n); cbn; [by split; [|intros [? ?]]|].
  rewrite bool_decide_eq_true. split; [intros ->; by eexists|by intros [? [= ? ?]]].
Qed.

Lemma remote_endpoint_key p e :
  remote_endpoint_of p e = true <-> exists id, endpoint_key e = inr (p, id).
Proof.
  unfold remote_endpoint_of, endpoint_key. destruct (e_local e); cbn; [by split; [|intros [? ?]]|].
  rewrite bool_decide_eq_true. split; [intros ->; by eexists|by intros [? [= ? ?]]].
Qed.

Lemma remaining_size {E K} `{Slot E K} capacity due (es : list E) n :
  table_ok capacity es n -> Z.of_nat capacity < 2 ^ 64 ->
  remaining due es = Z.of_nat (size (filter (fun ke => due ke.2 = false) (contents es))) /\
  remaining due es <= Z.of_nat capacity.
Proof.
  intros Ht Hc. pose proof (to_length _ _ _ Ht) as Hl.
  rewrite remaining_live by lia. rewrite <- kept_contents by apply Ht.
  rewrite size_contents by (apply kept_keys, Ht). split; [done|].
  pose proof (length_filter (fun e => occupied e = true) (kept due es)) as Hf.
  rewrite kept_length in Hf. unfold live. lia.
Qed.

Lemma replace_nodes g p i :
  cache_ok g -> incoming_ok p i ->
  remaining (remote_node_of p) (nodes_ g) + in_node_count i <= 136 ->
  (exists n, table_ok 136 (foldl place (kept (remote_node_of p) (nodes_ g)) (sent_nodes i)) n) /\
  contents (foldl place (kept (remote_node_of p) (nodes_ g)) (sent_nodes i)) =
    keyed (sent_nodes i) ∪ other_nodes (view g) p.
Proof.
  intros Hg Hi Hr. pose proof (nodes_table g Hg) as Ht. pose proof (to_length _ _ _ Ht) as Hlen.
  rewrite remaining_live in Hr by lia.
  assert (zlen (sent_nodes i) = in_node_count i) as Hl.
  { unfold sent_nodes. rewrite length_take, (io_node_size p i Hi).
    pose proof (io_node_count p i Hi). lia. }
  edestruct (replace_all 136 (remote_node_of p) (nodes_ g)) as [H1 H2].
  - done.
  - rewrite Hl. exact Hr.
  - eapply Forall_impl; [apply (io_nodes p i Hi)|]. by intros n (_ & _ & _ & ?).
  - by apply (sent_node_keys p).
  - intros n x Hn (_ & Hk & _)%contents_key. apply remote_node_key. eexists.
    cbn in Hk. by rewrite Hk, (sent_node_key p i).
  - split; [by eexists|done].
Qed.

Lemma replace_endpoints g p i :
  cache_ok g -> incoming_ok p i ->
  remaining (remote_endpoint_of p) (endpoints_ g) + in_endpoint_count i <= 48 ->
  (exists n, table_ok 48
    (foldl place (kept (remote_endpoint_of p) (endpoints_ g)) (sent_endpoints i)) n) /\
  contents (foldl place (kept (remote_endpoint_of p) (endpoints_ g)) (sent_endpoints i)) =
    keyed (sent_endpoints i) ∪ other_endpoints (view g) p.
Proof.
  intros Hg Hi Hr. pose proof (endpoints_table g Hg) as Ht. pose proof (to_length _ _ _ Ht) as Hlen.
  rewrite remaining_live in Hr by lia.
  assert (zlen (sent_endpoints i) = in_endpoint_count i) as Hl.
  { unfold sent_endpoints. rewrite length_take, (io_endpoint_size p i Hi).
    pose proof (io_endpoint_count p i Hi). lia. }
  edestruct (replace_all 48 (remote_endpoint_of p) (endpoints_ g)) as [H1 H2].
  - done.
  - rewrite Hl. exact Hr.
  - eapply Forall_impl; [apply (io_endpoints p i Hi)|]. by intros n ((_ & _ & _ & ?) & _).
  - by apply (sent_endpoint_keys p).
  - intros n x Hn (_ & Hk & _)%contents_key. apply remote_endpoint_key. eexists.
    cbn in Hk. by rewrite Hk, (sent_endpoint_key p i).
  - split; [by eexists|done].
Qed.

(** The entry that records the generation of [p]. *)
Lemma generation_slot_spec g (p : list Z) generation :
  cache_ok g ->
  let known := first_where (holds p) (remote_generations_ g) in
  let free := first_where is_free (remote_generations_ g) in
  match match known with Some e => Some e | None => free end with
  | Some (slot, _) =>
      (exists n, table_ok 16 (set_generation p generation (remote_generations_ g) slot) n) /\
      contents (set_generation p generation (remote_generations_ g) slot) =
        <[p := {| g_participant_prefix := p; g_generation := generation;
                  g_occupied := true |}]> (generation_map g) /\
      (generation_map g !! p = None -> (size (generation_map g) < 16)%nat)
  | None => generation_map g !! p = None /\ size (generation_map g) = 16%nat
  end.
Proof.
  intros Hg known free. pose proof (remotes_table g Hg) as Ht.
  pose proof (search_contents p (remote_generations_ g)) as Hs. fold known in Hs.
  unfold set_generation.
  destruct known as [[j x]|] eqn:Hk; cbn [fmap option_fmap option_map snd] in Hs.
  - split_and!; [| |by rewrite <- Hs].
    + eexists. by apply (table_ok_update _ _ _ p _ x _ Ht).
    + by apply (update_contents p _ j x).
  - destruct free as [[j x]|] eqn:Hf.
    + split_and!; [|by apply (add_contents p _ j x)|].
      * eexists. by apply (table_ok_add _ _ _ p _ x _ Ht).
      * intros _. by apply (table_ok_free _ _ _ _ _ Ht Hf).
    + split; [done|]. by apply (table_ok_full _ _ _ Ht).
Qed.

Lemma install_spec g p i slot :
  cache_ok g -> incoming_ok p i ->
  remaining (remote_node_of p) (nodes_ g) + in_node_count i <= 136 ->
  remaining (remote_endpoint_of p) (endpoints_ g) + in_endpoint_count i <= 48 ->
  let remotes := set_generation p (in_generation i) (remote_generations_ g) slot in
  (exists n, table_ok 16 remotes n) ->
  view (install g p i slot) =
    {| gr_nodes := keyed (sent_nodes i) ∪ other_nodes (view g) p;
       gr_endpoints := keyed (sent_endpoints i) ∪ other_endpoints (view g) p;
       gr_remotes := contents remotes; gr_generation := next_generation (generation_ g);
       gr_local_generation := local_generation_ g |} /\
  tables_ok (install g p i slot).
Proof.
  intros Hg Hi Hn He remotes Hr.
  destruct (replace_nodes g p i Hg Hi Hn) as [H1 H2].
  destruct (replace_endpoints g p i Hg Hi He) as [H3 H4].
  split; [|by split_and!]. rewrite <- H2, <- H4. done.
Qed.

(** The checks of [apply_remote] against the free entries of the generation table. *)
Lemma capacity_check g (p : list Z) :
  cache_ok g ->
  let known := first_where (holds p) (remote_generations_ g) in
  is_null known && is_null (first_where is_free (remote_generations_ g)) =
  is_null known && (16 <=? size (generation_map g))%nat.
Proof.
  intros Hg known. pose proof (generation_slot_spec g p 0 Hg) as Hs. cbv zeta in Hs.
  fold known in Hs. pose proof (search_contents p (remote_generations_ g)) as Hk.
  fold known in Hk. destruct known as [[j x]|]; [done|].
  destruct (first_where is_free (remote_generations_ g)) as [[j x]|]; cbn [is_null andb].
  - destruct Hs as (_ & _ & Hsz). specialize (Hsz (eq_sym Hk)).
    destruct (Nat.leb_spec 16 (size (generation_map g))); [lia|done].
  - destruct Hs as (_ & ->). done.
Qed.

Lemma apply_implements g p payload payload_size seq i :
  cache_ok g -> parse_snapshot p payload payload_size seq = Done i -> incoming_ok p i ->
  implements (apply_remote g p payload payload_size seq) (spec_apply (view g) p i).
Proof.
  intros Hg Hparse Hi. unfold apply_remote, spec_apply. rewrite Hparse.
  unfold GuidPrefix in *.
  cbn [mbind outcome_bind view gr_remotes]. rewrite (capacity_check g p Hg).
  pose proof (generation_slot_spec g p (in_generation i) Hg) as Hslot. cbv zeta in Hslot.
  rewrite <- search_contents.
  set (known := first_where (holds p) (remote_generations_ g)) in *.
  replace (match snd <$> known with Some r => in_generation i <=? g_generation r | None => false end)
    with (match known with Some (_, e) => in_generation i <=? g_generation e | None => false end)
    by by destruct known as [[? ?]|].
  replace (is_null (snd <$> known)) with (is_null known) by by destruct known.
  match goal with |- context [stop_if ?c (unchanged, stale_snapshot)] => destruct c end;
    [by cbn|]. cbn [stop_if mbind outcome_bind].
  destruct (is_null known && _) eqn:Hroom; [by cbn|]. cbn [stop_if mbind outcome_bind].
  pose proof (remaining_size 136 (remote_node_of p) _ _ (nodes_table g Hg) ltac:(lia)) as [Hn1 Hn2].
  pose proof (remaining_size 48 (remote_endpoint_of p) _ _ (endpoints_table g Hg) ltac:(lia))
    as [He1 He2].
  unfold graph_node_capacity, graph_endpoint_capacity.
  rewrite !sub64_id by lia. unfold other_nodes, other_endpoints. cbn [view gr_nodes gr_endpoints].
  rewrite <- Hn1, <- He1.
  destruct (Z.ltb_spec (136 - remaining (remote_node_of p) (nodes_ g)) (in_node_count i)),
    (Z.ltb_spec 136 (remaining (remote_node_of p) (nodes_ g) + in_node_count i)); try lia;
    [by cbn|].
  destruct (Z.ltb_spec (48 - remaining (remote_endpoint_of p) (endpoints_ g)) (in_endpoint_count i)),
    (Z.ltb_spec 48 (remaining (remote_endpoint_of p) (endpoints_ g) + in_endpoint_count i));
    try lia; [by cbn|]. cbn [orb stop_if mbind outcome_bind].
  destruct (match known with Some e => Some e | None => _ end) as [[slot x]|].
  - destruct Hslot as (Ht & Hc & _). cbn [fmap option_fmap option_map fst access implements].
    destruct (install_spec g p i slot Hg Hi) as [Hv Htab]; [done..|].
    eexists. split; [done|]. rewrite Hv, Hc. done.
  - destruct Hslot as [Hnone Hsz]. pose proof (search_contents p (remote_generations_ g)) as Hk.
    fold known in Hk. rewrite Hnone in Hk. rewrite Hsz in Hroom. by destruct known.
Qed.

Lemma keyed_Forall {E K} `{Slot E K} (P : K -> E -> Prop) l :
  NoDup (slot_key <$> l) -> (forall e, e ∈ l -> P (slot_key e) e) -> map_Forall P (keyed l).
Proof. intros Hn HP k e [<- He]%keyed_Some; [|done]. by apply HP. Qed.

Lemma filter_Forall {K A} `{Countable K} (P : K -> A -> Prop) (Q : K * A -> Prop)
    `{forall x, Decision (Q x)} (m : gmap K A) :
  map_Forall P m -> map_Forall P (filter Q m).
Proof. intros HP k x [Hx _]%map_lookup_filter_Some. by apply HP. Qed.

Lemma sent_node_lookup p i n :
  incoming_ok p i -> n ∈ sent_nodes i -> keyed (sent_nodes i) !! inr (p, n_node_id n) = Some n.
Proof.
  intros Hi Hn. apply keyed_Some; [by apply (sent_node_keys p)|].
  split; [by apply (sent_node_key p i)|done].
Qed.

(** Keys that do not belong to the remote participant. *)
Lemma sent_node_other p i k :
  incoming_ok p i -> (forall id, k <> inr (p, id)) -> keyed (sent_nodes i) !! k = None.
Proof.
  intros Hi Hk. apply keyed_lookup_None. intros (n & -> & Hn)%list_elem_of_fmap.
  by apply (Hk (n_node_id n)), (sent_node_key p i).
Qed.

Lemma sent_endpoint_other p i k :
  incoming_ok p i -> (forall id, k <> inr (p, id)) -> keyed (sent_endpoints i) !! k = None.
Proof.
  intros Hi Hk. apply keyed_lookup_None. intros (n & -> & Hn)%list_elem_of_fmap.
  by apply (Hk (e_entity_id n)), (sent_endpoint_key p i).
Qed.

Lemma other_node_lookup v p k :
  graph_ok v -> (forall id, k <> inr (p, id)) -> other_nodes v p !! k = gr_nodes v !! k.
Proof.
  intros Hv Hk. apply option_eq. intros n. unfold other_nodes.
  rewrite map_lookup_filter_Some. cbn. split; [by intros []|]. intros Hn. split; [done|].
  apply not_true_iff_false. intros [id Hid]%remote_node_key. apply (Hk id).
  exact (eq_trans (eq_sym (go_node_keys v Hv k n Hn)) Hid).
Qed.

Lemma other_endpoint_lookup v p k :
  graph_ok v -> (forall id, k <> inr (p, id)) -> other_endpoints v p !! k = gr_endpoints v !! k.
Proof.
  intros Hv Hk. apply option_eq. intros n. unfold other_endpoints.
  rewrite map_lookup_filter_Some. cbn. split; [by intros []|]. intros Hn. split; [done|].
  apply not_true_iff_false. intros [id Hid]%remote_endpoint_key. apply (Hk id).
  exact (eq_trans (eq_sym (go_endpoint_keys v Hv k n Hn)) Hid).
Qed.

Lemma other_owner v p k e :
  graph_ok v -> other_endpoints v p !! k = Some e -> forall id, owner_key e <> inr (p, id).
Proof.
  intros Hv [_ He]%map_lookup_filter_Some id. cbn in He. unfold owner_key, remote_endpoint_of in *.
  destruct (e_local e); [done|]. cbn in He. intros [= Hp _]. by rewrite bool_decide_true in He.
Qed.

Lemma apply_owner v p i :
  graph_ok v -> incoming_ok p i ->
  map_Forall (fun _ e => exists n, (keyed (sent_nodes i) ∪ other_nodes v p) !! owner_key e = Some n /\
    n_participant_prefix n = e_participant_prefix e)
    (keyed (sent_endpoints i) ∪ other_endpoints v p).
Proof.
  intros Hv Hi. apply map_Forall_union_2.
  - apply keyed_Forall; [by apply (sent_endpoint_keys p)|]. intros e He.
    pose proof (io_endpoints p i Hi) as Hes. rewrite Forall_forall in Hes.
    destruct (Hes e He) as ((_ & Hp & Hl & _) & (n & Hid & Hn)%list_elem_of_fmap).
    exists n. unfold owner_key. rewrite Hl, Hp, Hid. split.
    + by apply lookup_union_Some_l, (sent_node_lookup p i n).
    + pose proof (io_nodes p i Hi) as Hns. rewrite Forall_forall in Hns.
      by destruct (Hns n Hn) as (_ & ? & _).
  - intros k e He. pose proof (other_owner v p k e Hv He) as Ho.
    destruct (go_owner v Hv k e) as (n & Hn & Hnp).
    { by apply map_lookup_filter_Some in He as [? _]. }
    exists n. split; [|done]. rewrite lookup_union_r by (by apply (sent_node_other p)).
    by rewrite other_node_lookup.
Qed.

Lemma spec_apply_ok v p i v' :
  graph_ok v -> incoming_ok p i -> spec_apply v p i = inr v' -> graph_ok v'.
Proof.
  intros Hv Hi ->%spec_apply_inr. unfold applied.
  pose proof (io_nodes p i Hi) as Hns. rewrite Forall_forall in Hns.
  pose proof (io_endpoints p i Hi) as Hes. rewrite Forall_forall in Hes.
  split; cbn [gr_nodes gr_endpoints gr_remotes gr_generation gr_local_generation].
  - apply map_Forall_union_2; [by apply keyed_Forall; [apply (sent_node_keys p)|]|].
    by apply filter_Forall, go_node_keys.
  - apply map_Forall_union_2; [by apply keyed_Forall; [apply (sent_endpoint_keys p)|]|].
    by apply filter_Forall, go_endpoint_keys.
  - apply map_Forall_union_2; [apply keyed_Forall; [by apply (sent_node_keys p)|]|].
    + by intros n [? _]%Hns.
    + by apply filter_Forall, go_nodes.
  - apply map_Forall_union_2; [apply keyed_Forall; [by apply (sent_endpoint_keys p)|]|].
    + by intros n [[? _] _]%Hes.
    + by apply filter_Forall, go_endpoints.
  - by apply apply_owner.
  - apply map_Forall_union_2; [apply keyed_Forall; [by apply (sent_node_keys p)|]|].
    + intros n (_ & -> & _)%Hns _. rewrite lookup_insert_eq. by eexists.
    + apply filter_Forall. intros k n Hn Hl. apply lookup_insert_is_Some'. right.
      by apply (go_known v Hv k n).
  - apply map_Forall_insert_2; [apply Hi|apply Hv].
  - apply graph_generation_range, Hv.
  - apply Hv.
Qed.

(** ** Forgetting a participant *)

Definition forgotten (v : graph) (p : GuidPrefix) : graph :=
  {| gr_nodes := other_nodes v p; gr_endpoints := other_endpoints v p;
     gr_remotes := delete p (gr_remotes v);
     gr_generation := if bool_decide (other_nodes v p = gr_nodes v /\
                                      other_endpoints v p = gr_endpoints v)
                      then gr_generation v else next_generation (gr_generation v);
     gr_local_generation := gr_local_generation v |}.

Lemma none_due {E K} `{Slot E K} (due : E -> bool) es :
  NoDup (keys es) ->
  existsb (fun e => occupied e && due e) es = false <->
  filter (fun ke => due ke.2 = false) (contents es) = contents es.
Proof.
  intros Hn. rewrite existsb_false, Forall_forall. split.
  - intros Hd. apply map_filter_id. intros k e (Ho & _ & He)%contents_key. cbn.
    specialize (Hd e He). by rewrite Ho in Hd.
  - intros Heq e He. destruct (occupied e) eqn:Ho; [|done]. cbn.
    pose proof (contents_elem es e Hn He Ho) as Hc. rewrite <- Heq in Hc.
    by apply map_lookup_filter_Some in Hc as [_ ?].
Qed.

Lemma drop_generation_spec g p :
  cache_ok g ->
  (exists n, table_ok 16 (drop_generation p (remote_generations_ g)) n) /\
  contents (drop_generation p (remote_generations_ g)) = delete p (generation_map g).
Proof.
  intros Hg. unfold drop_generation. pose proof (remotes_table g Hg) as Ht.
  pose proof (search_contents p (remote_generations_ g)) as Hs.
  destruct (first_where (holds p) (remote_generations_ g)) as [[j x]|] eqn:Hf.
  - split; [eexists; by apply (table_ok_remove _ _ _ p _ x Ht)|].
    exact (proj1 (remove_contents p _ j x (co_remote_keys g Hg) Hf)).
  - split; [by eexists|]. by rewrite delete_id.
Qed.

(** Whether the cache held anything of [p]. *)
Lemma found_spec g p :
  cache_ok g ->
  existsb (fun n => n_occupied n && remote_node_of p n) (nodes_ g) ||
  existsb (fun e => e_occupied e && remote_endpoint_of p e) (endpoints_ g) =
  negb (bool_decide (other_nodes (view g) p = gr_nodes (view g) /\
                     other_endpoints (view g) p = gr_endpoints (view g))).
Proof.
  intros Hg. apply negb_sym, eq_true_iff_eq.
  rewrite negb_true_iff, orb_false_iff, bool_decide_eq_true.
  pose proof (none_due (remote_node_of p) (nodes_ g) (co_node_keys g Hg)) as Hn.
  pose proof (none_due (remote_endpoint_of p) (endpoints_ g) (co_endpoint_keys g Hg)) as He.
  split; (intros [? ?]; split; [by apply Hn|by apply He]).
Qed.

Lemma remove_implements g p :
  cache_ok g ->
  view (remove_remote_participant g p).2 = forgotten (view g) p /\
  tables_ok (remove_remote_participant g p).2 /\
  ((remove_remote_participant g p).1 = unchanged <->
   other_nodes (view g) p = node_map g /\ other_endpoints (view g) p = endpoint_map g).
Proof.
  intros Hg. unfold remove_remote_participant. rewrite found_spec by done.
  destruct (drop_generation_spec g p Hg) as [Htr Hr].
  set (g' := {| nodes_ := _ |}).
  assert (tables_ok g') as Ht.
  { split_and!; [eexists; apply table_ok_kept; by apply nodes_table|
      eexists; apply table_ok_kept; by apply endpoints_table|done]. }
  assert (node_map g' = other_nodes (view g) p) as Hkn by apply kept_contents, Hg.
  assert (endpoint_map g' = other_endpoints (view g) p) as Hke by apply kept_contents, Hg.
  assert (generation_map g' = delete p (generation_map g)) as Hkr by done.
  unfold forgotten. cbn [view gr_nodes gr_endpoints] in *.
  case_bool_decide; cbn [negb fst snd]; (split; [|split; [exact Ht|by split]]);
    unfold view at 1; cbn [advance_generation nodes_ endpoints_ remote_generations_];
    by rewrite Hkn, Hke, Hkr.
Qed.

End GraphExchange.
