(* ===== verification/GraphRoundtrip.v ===== *)
(** * The round trip of a graph snapshot

    The bytes that [serialize_local] writes at one participant parse, at another,
    to the local records of the first, tagged with its prefix. *)
From stdpp Require Import gmap.
From S2P Require Import Prelude Texts Bytes Types SlotTable GraphCache GraphFacts GraphInvariant.
From S2P Require Import GraphExchange.

Module GraphRoundtrip.
Import Texts Types Slots Graph GraphFacts GraphInvariant GraphExchange.

#[local] Opaque encode_uint.
Abbreviation le := (encode_uint little_endian).

(** ** Reading a field inside a buffer *)

Lemma u16_at {E} (m : list Z) a v b i :
  m = a ++ encode_uint little_endian 2 v ++ b -> zlen a = i -> 0 <= v < 2 ^ 16 ->
  read_u16 m i = (Done v : outcome E Z).
Proof. intros -> <- Hv. by apply read_uint16_encode. Qed.

Lemma u64_at {E} (m : list Z) a v b i :
  m = a ++ encode_uint little_endian 8 v ++ b -> zlen a = i -> 0 <= v < 2 ^ 64 ->
  read_u64 m i = (Done v : outcome E Z).
Proof.
  intros -> <- Hv. unfold read_u64. rewrite load_loop_encode by lia.
  f_equal. by apply Z.mod_small.
Qed.

Lemma byte_at (m : list Z) a (x : Z) b i : m = a ++ x :: b -> zlen a = i -> mload m i = Some x.
Proof. intros -> <-. rewrite mload_app_r by lia. by rewrite Z.sub_diag. Qed.

Lemma slice_at (m : list Z) a s b i n :
  m = a ++ s ++ b -> zlen a = i -> zlen s = n -> mslice m i n = Some s.
Proof. intros -> ? ?. by apply mslice_app_exact. Qed.

Lemma text_at {E B} (e : E) capacity m a t b i (k : text * Z -> outcome E B) :
  text_ok capacity t -> m = a ++ content t ++ b -> zlen a = i -> capacity < 2 ^ 63 ->
  zlen m < 2 ^ 63 ->
  (require e (read_text capacity m (zlen m) i (text_size t) false) ≫= k) =
  k (t, i + text_size t).
Proof.
  intros Ht -> <- Hc Hm. destruct (text_ok_content _ _ Ht) as (Heq & Hl & Hr).
  unfold require. rewrite <- Hl. rewrite read_text_spec by lia.
  cbn [mbind outcome_bind]. by rewrite <- Heq.
Qed.

Ltac piece := rewrite <- ?app_assoc; cbn [app]; reflexivity.
(** The side conditions of the rules above: the buffer is split as in [Hm], whose
    pieces are local definitions. *)
Ltac field :=
  first [ done | lia
        | match goal with H : ?m = _ |- ?m = _ => subst_pieces; rewrite H; piece end
        | subst_pieces; len ]
with subst_pieces := repeat match goal with x := _ : list Z |- _ => subst x end
with len := rewrite ?length_app, ?encode_uint_length; cbn [length]; lia.

(** The record of a snapshot: what a local record becomes at another participant. *)
Definition as_remote_node (p : GuidPrefix) (n : GraphNodeRecord) : GraphNodeRecord :=
  {| n_participant_prefix := p; n_node_id := n_node_id n; n_name := n_name n;
     n_name_space := n_name_space n; n_enclave := n_enclave n; n_local := false;
     n_occupied := true |}.

Definition as_remote_endpoint (p : GuidPrefix) (e : GraphEndpointRecord)
    : GraphEndpointRecord :=
  {| e_participant_prefix := p; e_entity_id := e_entity_id e; e_node_id := e_node_id e;
     e_kind := e_kind e; e_ros_topic_name := e_ros_topic_name e;
     e_ros_type_name := e_ros_type_name e; e_dds_topic_name := e_dds_topic_name e;
     e_dds_type_name := e_dds_type_name e;
     e_ros_namespace_conventions := e_ros_namespace_conventions e; e_local := false;
     e_occupied := true |}.

Lemma absent {A B} (test : A -> bool) (id : A -> B) b l :
  (forall x, test x = true -> id x = b) -> b ∉ id <$> l -> existsb test l = false.
Proof.
  intros Ht Hb. apply existsb_false, Forall_forall. intros x Hx.
  apply not_true_iff_false. intros Hid%Ht. apply Hb. rewrite <- Hid. by apply list_elem_of_fmap_2.
Qed.

Lemma absent_entity l b :
  length b = 4%nat -> Forall (fun x => length (e_entity_id x) = 4%nat) l ->
  b ∉ e_entity_id <$> l -> existsb (fun x => entity_eqb (e_entity_id x) b) l = false.
Proof.
  intros Hb Hl Hn. apply existsb_false, Forall_forall. intros x Hx.
  rewrite Forall_forall in Hl. apply not_true_iff_false.
  rewrite entity_eqb_eq by auto. intros Hid. apply Hn. rewrite <- Hid.
  by apply list_elem_of_fmap_2.
Qed.

Lemma read_node_at p m a n b index ns :
  node_ok n -> m = a ++ node_bytes n ++ b -> zlen m < 2 ^ 63 ->
  0 <= index < zlen ns -> n_node_id n ∉ n_node_id <$> take (Z.to_nat index) ns ->
  read_node p m (zlen m) index (ns, zlen a) =
  Done (<[Z.to_nat index := as_remote_node p n]> ns, zlen a + zlen (node_bytes n)).
Proof.
  intros Hn Hm Hb Hi Hnew. destruct (node_bytes_length n Hn) as [Hlen _].
  pose proof Hn as [Hid _ T1 T2 T3].
  pose proof (text_ok_content _ _ T1) as (_ & L1 & R1).
  pose proof (text_ok_content _ _ T2) as (_ & L2 & R2).
  pose proof (text_ok_content _ _ T3) as (_ & L3 & R3).
  unfold graph_node_name_capacity, graph_namespace_capacity, graph_enclave_capacity in R1, R2, R3.
  assert (zlen m = zlen a + zlen (node_bytes n) + zlen b) as Hml
    by (rewrite Hm, !length_app; lia).
  unfold read_node, kNodeHeaderSize. rewrite sub64_id by lia.
  destruct (Z.ltb_spec (zlen m) (zlen a)); [lia|].
  destruct (Z.ltb_spec (zlen m - zlen a) 16); [lia|]. cbn [orb stop_if mbind outcome_bind].
  unfold node_bytes in Hm.
  set (h1 := a ++ le 8 (n_node_id n)). set (h2 := h1 ++ le 2 (text_size (n_name n))).
  set (h3 := h2 ++ le 2 (text_size (n_name_space n))).
  set (h4 := h3 ++ le 2 (text_size (n_enclave n))). set (h5 := h4 ++ [0; 0]).
  set (h6 := h5 ++ content (n_name n)). set (h7 := h6 ++ content (n_name_space n)).
  erewrite (u64_at m a (n_node_id n) _ (zlen a)) by field. cbn [mbind outcome_bind].
  erewrite (u16_at m h1 (text_size (n_name n)) _ (zlen a + 8)) by field. cbn [mbind outcome_bind].
  erewrite (u16_at m h2 (text_size (n_name_space n)) _ (zlen a + 10)) by field.
  cbn [mbind outcome_bind].
  erewrite (u16_at m h3 (text_size (n_enclave n)) _ (zlen a + 12)) by field.
  cbn [mbind outcome_bind].
  erewrite (byte_at m h4 0 _ (zlen a + 14)) by field. cbn [access mbind outcome_bind].
  erewrite (byte_at m (h4 ++ [0]) 0 _ (zlen a + 15)) by field. cbn [access mbind outcome_bind].
  destruct (Z.eqb_spec (n_node_id n) 0); [lia|]. cbn [negb orb Z.eqb stop_if mbind outcome_bind].
  rewrite add64_id by lia.
  erewrite (text_at _ _ m h5 (n_name n)) by field.
  erewrite (text_at _ _ m h6 (n_name_space n)) by field.
  erewrite (text_at _ _ m h7 (n_enclave n)) by field.
  rewrite (absent _ n_node_id (n_node_id n)); [|by intros y; destruct (Z.eqb_spec (n_node_id y)
    (n_node_id n))|done]. cbn [stop_if mbind outcome_bind].
  rewrite (proj1 (take_store ns index _ Hi)). cbn [access mbind outcome_bind].
  unfold as_remote_node. f_equal. f_equal. lia.
Qed.

Lemma read_endpoint_at p m a e b index es nodes count :
  endpoint_ok e -> m = a ++ endpoint_bytes e ++ b -> zlen m < 2 ^ 63 ->
  0 <= index < zlen es -> e_node_id e ∈ n_node_id <$> take (Z.to_nat count) nodes ->
  Forall (fun x => length (e_entity_id x) = 4%nat) (take (Z.to_nat index) es) ->
  e_entity_id e ∉ e_entity_id <$> take (Z.to_nat index) es ->
  read_endpoint p m (zlen m) nodes count index (es, zlen a) =
  Done (<[Z.to_nat index := as_remote_endpoint p e]> es, zlen a + zlen (endpoint_bytes e)).
Proof.
  intros He Hm Hb Hi Hown H4 Hnew. destruct (endpoint_bytes_length e He) as [Hlen _].
  pose proof He as [Hid Hent Hval _ Hkind T1 T2 T3 T4].
  pose proof (text_ok_content _ _ T1) as (_ & L1 & R1).
  pose proof (text_ok_content _ _ T2) as (_ & L2 & R2).
  pose proof (text_ok_content _ _ T3) as (_ & L3 & R3).
  pose proof (text_ok_content _ _ T4) as (_ & L4 & R4).
  unfold graph_topic_name_capacity, graph_type_name_capacity in R1, R2, R3, R4.
  assert (zlen m = zlen a + zlen (endpoint_bytes e) + zlen b) as Hml
    by (rewrite Hm, !length_app; lia).
  unfold read_endpoint, kEndpointHeaderSize. rewrite sub64_id by lia.
  destruct (Z.ltb_spec (zlen m) (zlen a)); [lia|].
  destruct (Z.ltb_spec (zlen m - zlen a) 24); [lia|]. cbn [orb stop_if mbind outcome_bind].
  unfold endpoint_bytes in Hm. set (c := if e_ros_namespace_conventions e then 1 else 0) in *.
  set (h1 := a ++ le 8 (e_node_id e)). set (h2 := h1 ++ e_entity_id e).
  set (h3 := h2 ++ [e_kind e; c; 0; 0]). set (h4 := h3 ++ le 2 (text_size (e_ros_topic_name e))).
  set (h5 := h4 ++ le 2 (text_size (e_ros_type_name e))).
  set (h6 := h5 ++ le 2 (text_size (e_dds_topic_name e))).
  set (h7 := h6 ++ le 2 (text_size (e_dds_type_name e))).
  set (h8 := h7 ++ content (e_ros_topic_name e)). set (h9 := h8 ++ content (e_ros_type_name e)).
  set (h10 := h9 ++ content (e_dds_topic_name e)).
  erewrite (u64_at m a (e_node_id e) _ (zlen a)) by field. cbn [mbind outcome_bind].
  erewrite (slice_at m h1 (e_entity_id e) _ (zlen a + 8)) by field.
  cbn [access mbind outcome_bind].
  erewrite (byte_at m h2 (e_kind e) _ (zlen a + 12)) by field. cbn [access mbind outcome_bind].
  erewrite (byte_at m (h2 ++ [e_kind e]) c _ (zlen a + 13)) by field.
  cbn [access mbind outcome_bind].
  erewrite (u16_at m h3 (text_size (e_ros_topic_name e)) _ (zlen a + 16)) by field.
  cbn [mbind outcome_bind].
  erewrite (u16_at m h4 (text_size (e_ros_type_name e)) _ (zlen a + 18)) by field.
  cbn [mbind outcome_bind].
  erewrite (u16_at m h5 (text_size (e_dds_topic_name e)) _ (zlen a + 20)) by field.
  cbn [mbind outcome_bind].
  erewrite (u16_at m h6 (text_size (e_dds_type_name e)) _ (zlen a + 22)) by field.
  cbn [mbind outcome_bind].
  erewrite (byte_at m (h2 ++ [e_kind e; c]) 0 _ (zlen a + 14)) by field.
  cbn [access mbind outcome_bind].
  erewrite (byte_at m (h2 ++ [e_kind e; c; 0]) 0 _ (zlen a + 15)) by field.
  cbn [access mbind outcome_bind].
  rewrite Hval, Hkind, (proj2 (node_exists_spec nodes count (e_node_id e)) Hown).
  replace (1 <? c) with false by (unfold c; by destruct (e_ros_namespace_conventions e)).
  cbn [negb orb Z.eqb stop_if mbind outcome_bind]. rewrite add64_id by lia.
  erewrite (text_at _ _ m h7 (e_ros_topic_name e)) by field.
  erewrite (text_at _ _ m h8 (e_ros_type_name e)) by field.
  erewrite (text_at _ _ m h9 (e_dds_topic_name e)) by field.
  erewrite (text_at _ _ m h10 (e_dds_type_name e)) by field.
  rewrite (absent_entity _ (e_entity_id e)) by done. cbn [stop_if mbind outcome_bind].
  rewrite (proj1 (take_store es index _ Hi)). cbn [access mbind outcome_bind].
  replace (c =? 1) with (e_ros_namespace_conventions e)
    by (unfold c; by destruct (e_ros_namespace_conventions e)).
  unfold as_remote_endpoint. f_equal. f_equal. lia.
Qed.

(** ** The loops over the records *)

Section Run.
Context {R : Type} (enc : R -> list Z) (f : R -> R) (l0 : list R) (m : list Z) (capacity : nat).
Context (body : Z -> list R * Z -> outcome refusal (list R * Z)).
Hypothesis body_spec : forall before x after arr a b,
  l0 = before ++ x :: after -> m = a ++ enc x ++ b -> length arr = capacity ->
  take (length before) arr = f <$> before ->
  body (zlen before) (arr, zlen a) =
  Done (<[length before := f x]> arr, zlen a + zlen (enc x)).

(** The loop reads the encoded records one after the other. *)
Lemma read_run l : forall before arr a b,
  l0 = before ++ l -> m = a ++ mjoin (enc <$> l) ++ b -> length arr = capacity ->
  (length l0 <= capacity)%nat -> take (length before) arr = f <$> before ->
  exists arr', for_each body (seqZ (zlen before) (zlen l)) (arr, zlen a) =
    Done (arr', zlen a + zlen (mjoin (enc <$> l))) /\
    length arr' = capacity /\ take (length l0) arr' = f <$> l0.
Proof.
  induction l as [|x l IH]; intros before arr a b Hl Hm Hcap Hle Hb.
  { rewrite app_nil_r in Hl. subst before. exists arr. cbn. rewrite Z.add_0_r. done. }
  change (mjoin (enc <$> x :: l)) with (enc x ++ mjoin (enc <$> l)) in *.
  rewrite <- app_assoc in Hm. cbn [length]. rewrite seqZ_cons by lia. cbn [for_each].
  rewrite (body_spec before x l arr a _ Hl Hm Hcap Hb). cbn [mbind outcome_bind].
  rewrite Hl, length_app in Hle. cbn [length] in Hle.
  destruct (IH (before ++ [x]) (<[length before := f x]> arr) (a ++ enc x) b) as (arr' & Hrun & Hr).
  - by rewrite <- app_assoc.
  - by rewrite <- app_assoc.
  - by rewrite length_insert.
  - rewrite Hl, length_app. cbn [length]. lia.
  - rewrite length_app, fmap_app. cbn [length fmap list_fmap]. rewrite Nat.add_1_r.
    rewrite (take_S_r _ _ (f x)) by (apply list_lookup_insert_eq; lia).
    by rewrite take_insert_ge, Hb by lia.
  - exists arr'. split; [|done]. rewrite !length_app in Hrun. cbn [length] in Hrun.
    replace (Z.pred (Z.of_nat (S (length l)))) with (zlen l) by lia.
    replace (Z.succ (zlen before)) with (Z.of_nat (length before + 1)) by lia.
    replace (zlen a + zlen (enc x)) with (Z.of_nat (length a + length (enc x))) by lia.
    rewrite Hrun. do 2 f_equal. rewrite length_app. lia.
Qed.
End Run.

Lemma distinct_before {A B} (id : A -> B) before x after l :
  NoDup (id <$> l) -> l = before ++ x :: after -> id x ∉ id <$> before.
Proof.
  intros Hn ->. rewrite fmap_app, fmap_cons in Hn. apply NoDup_app in Hn as (_ & Hd & _).
  intros Hx. by apply (Hd _ Hx), list_elem_of_here.
Qed.

Lemma read_nodes p m a b l :
  Forall node_ok l -> NoDup (n_node_id <$> l) -> (length l <= 8)%nat ->
  m = a ++ mjoin (node_bytes <$> l) ++ b -> zlen m < 2 ^ 63 ->
  exists arr, for_each (read_node p m (zlen m)) (seqZ 0 (zlen l))
      (replicate 8 GraphNodeRecord_default, zlen a) =
    Done (arr, zlen a + zlen (mjoin (node_bytes <$> l))) /\
    length arr = 8%nat /\ take (length l) arr = as_remote_node p <$> l.
Proof.
  intros Hok Hn Hl Hm Hb. eapply (read_run node_bytes (as_remote_node p) l m 8 _) with (before := []);
    try done.
  intros before x after arr a' b' Hl0 Hm' Harr Hbefore.
  assert (x ∈ l) as Hx by (rewrite Hl0; apply elem_of_app; right; left).
  rewrite Forall_forall in Hok. rewrite Hl0, length_app in Hl. cbn [length] in Hl.
  rewrite (read_node_at p m a' x b'); [by rewrite Nat2Z.id|by apply Hok|done|done|lia|].
  rewrite Nat2Z.id, Hbefore, <- list_fmap_compose.
  by apply (distinct_before n_node_id before x after l).
Qed.

Lemma read_endpoints p m a b l nodes count :
  Forall endpoint_ok l -> NoDup (e_entity_id <$> l) -> (length l <= 16)%nat ->
  Forall (fun e => e_node_id e ∈ n_node_id <$> take (Z.to_nat count) nodes) l ->
  m = a ++ mjoin (endpoint_bytes <$> l) ++ b -> zlen m < 2 ^ 63 ->
  exists arr, for_each (read_endpoint p m (zlen m) nodes count) (seqZ 0 (zlen l))
      (replicate 16 GraphEndpointRecord_default, zlen a) =
    Done (arr, zlen a + zlen (mjoin (endpoint_bytes <$> l))) /\
    length arr = 16%nat /\ take (length l) arr = as_remote_endpoint p <$> l.
Proof.
  intros Hok Hn Hl Hown Hm Hb.
  eapply (read_run endpoint_bytes (as_remote_endpoint p) l m 16 _) with (before := []); try done.
  intros before x after arr a' b' Hl0 Hm' Harr Hbefore.
  assert (x ∈ l) as Hx by (rewrite Hl0; apply elem_of_app; right; left).
  rewrite Forall_forall in Hok, Hown. rewrite Hl0, length_app in Hl. cbn [length] in Hl.
  rewrite (read_endpoint_at p m a' x b');
    [by rewrite Nat2Z.id|by apply Hok|done|done|lia|by apply Hown|..];
    rewrite Nat2Z.id, Hbefore.
  - apply Forall_fmap, Forall_forall. intros y Hy.
    apply (eo_length y), Hok. rewrite Hl0. apply elem_of_app. by left.
  - rewrite <- list_fmap_compose. by apply (distinct_before e_entity_id before x after l).
Qed.

(** ** The local records of a cache *)

Lemma NoDup_fmap_filter {A B} (f : A -> B) (P : A -> Prop) `{forall x, Decision (P x)} l :
  NoDup (f <$> l) -> NoDup (f <$> filter P l).
Proof.
  induction l as [|x l IH]; [done|]. rewrite fmap_cons, NoDup_cons, filter_cons.
  intros [Hx Hn]. case_decide; [|by apply IH]. rewrite fmap_cons, NoDup_cons.
  split; [|by apply IH]. contradict Hx. apply list_elem_of_fmap in Hx as (y & -> & Hy).
  apply list_elem_of_filter in Hy as [_ Hy]. by apply list_elem_of_fmap_2.
Qed.

Lemma local_part {E K} `{Slot E K} (local : E -> bool) es :
  filter (fun e => occupied e && local e = true) es = filter (fun e => local e = true) (live es).
Proof.
  induction es as [|e es IH]; [done|]. rewrite filter_cons.
  destruct (occupied e) eqn:Ho.
  - rewrite live_cons_occupied, filter_cons by done.
    destruct (local e); repeat case_decide; try done. by rewrite IH.
  - rewrite live_cons_free by done. by case_decide.
Qed.

Lemma local_ids {E K B} `{Slot E K} (local : E -> bool) (id : E -> B) (c : B -> K) es :
  NoDup (keys es) -> (forall e, local e = true -> slot_key e = c (id e)) ->
  NoDup (id <$> filter (fun e => occupied e && local e = true) es).
Proof.
  intros Hn Hc. rewrite local_part. apply (NoDup_fmap_1 c). rewrite <- list_fmap_compose.
  unfold keys in Hn. apply (NoDup_fmap_filter _ (fun e => local e = true)) in Hn.
  erewrite list_fmap_ext; [exact Hn|]. intros i x Hx%list_elem_of_lookup_2.
  apply list_elem_of_filter in Hx as [Hx _]. cbn. by rewrite Hc.
Qed.

Lemma local_node_ids g : cache_ok g -> NoDup (n_node_id <$> local_nodes g).
Proof.
  intros Hg. refine (local_ids n_local n_node_id inl (nodes_ g) (co_node_keys g Hg) _).
  intros n Hn. cbn. unfold node_key. by rewrite Hn.
Qed.

Lemma local_endpoint_ids g : cache_ok g -> NoDup (e_entity_id <$> local_endpoints g).
Proof.
  intros Hg. refine (local_ids e_local e_entity_id inl (endpoints_ g) (co_endpoint_keys g Hg) _).
  intros e He. cbn. unfold endpoint_key. by rewrite He.
Qed.

Lemma local_node_lookup g id n :
  cache_ok g -> node_map g !! inl id = Some n <-> n ∈ local_nodes g /\ n_node_id n = id.
Proof.
  intros Hg. split.
  - intros (Ho & Hk & Hin)%contents_key. cbn in Ho, Hk. unfold node_key in Hk.
    destruct (n_local n) eqn:Hl; [|done]. injection Hk as Hk. split; [|done].
    apply list_elem_of_filter. unfold local_node. by rewrite Ho, Hl.
  - intros [[[Ho Hl]%andb_true_iff Hin]%list_elem_of_filter <-].
    pose proof (contents_elem (nodes_ g) n (co_node_keys g Hg) Hin Ho) as Hc.
    cbn in Hc. unfold node_key in Hc. by rewrite Hl in Hc.
Qed.

Lemma local_endpoint_lookup g id e :
  cache_ok g -> endpoint_map g !! inl id = Some e <-> e ∈ local_endpoints g /\ e_entity_id e = id.
Proof.
  intros Hg. split.
  - intros (Ho & Hk & Hin)%contents_key. cbn in Ho, Hk. unfold endpoint_key in Hk.
    destruct (e_local e) eqn:Hl; [|done]. injection Hk as Hk. split; [|done].
    apply list_elem_of_filter. unfold local_endpoint. by rewrite Ho, Hl.
  - intros [[[Ho Hl]%andb_true_iff Hin]%list_elem_of_filter <-].
    pose proof (contents_elem (endpoints_ g) e (co_endpoint_keys g Hg) Hin Ho) as Hc.
    cbn in Hc. unfold endpoint_key in Hc. by rewrite Hl in Hc.
Qed.

(** The node of a local endpoint is local. *)
Lemma local_owner g e :
  cache_ok g -> e ∈ local_endpoints g -> e_node_id e ∈ n_node_id <$> local_nodes g.
Proof.
  intros Hg He. pose proof He as [Hl Hin]%list_elem_of_filter.
  apply andb_true_iff in Hl as [Ho Hl].
  destruct (co_owner g Hg (endpoint_key e) e) as (n & Hn & _).
  { by apply (contents_elem (endpoints_ g) e (co_endpoint_keys g Hg)). }
  unfold owner_key in Hn. rewrite Hl in Hn.
  apply (local_node_lookup g) in Hn as [Hn <-]; [|done]. by apply list_elem_of_fmap_2.
Qed.

(** ** Parsing the bytes of [serialize_local] *)

Lemma header_parses nc ec gen rest :
  0 <= nc <= 8 -> 0 <= ec <= 16 -> 1 <= gen <= i64_max -> zlen rest < 2 ^ 62 ->
  let m := header_bytes nc ec gen ++ rest in
  mslice m 0 4 = Some kEncapsulation /\ mslice m 4 4 = Some kMagic /\
  mload m 8 = Some 1 /\ mload m 9 = Some 0 /\ mload m 14 = Some 0 /\ mload m 15 = Some 0 /\
  read_u16 m 10 = (Done nc : outcome refusal Z) /\ read_u16 m 12 = (Done ec : outcome refusal Z) /\
  read_u64 m 16 = (Done gen : outcome refusal Z).
Proof.
  intros Hn He Hg Hr m. unfold i64_max in Hg.
  assert (m = kEncapsulation ++ kMagic ++ [1; 0] ++ le 2 nc ++ le 2 ec ++ [0; 0] ++
    le 8 gen ++ rest) as Hm by (unfold m, header_bytes; by rewrite <- !app_assoc).
  clearbody m. set (h1 := kEncapsulation). set (h2 := h1 ++ kMagic). set (h3 := h2 ++ [1; 0]).
  set (h4 := h3 ++ le 2 nc). set (h5 := h4 ++ le 2 ec). set (h6 := h5 ++ [0; 0]).
  split_and!.
  - by apply (slice_at m [] kEncapsulation _ 0 4 Hm).
  - eapply (slice_at m h1 kMagic); field.
  - eapply (byte_at m h2 1); field.
  - eapply (byte_at m (h2 ++ [1]) 0); field.
  - eapply (byte_at m h5 0); field.
  - eapply (byte_at m (h5 ++ [0]) 0); field.
  - eapply (u16_at m h3 nc); field.
  - eapply (u16_at m h4 ec); field.
  - eapply (u64_at m h6 gen); field.
Qed.

(** What the bytes of [g] parse to. *)
Record parsed_as (g : GraphCache) (p : GuidPrefix) (i : incoming) : Prop := {
  pa_nodes : sent_nodes i = as_remote_node p <$> local_nodes g;
  pa_endpoints : sent_endpoints i = as_remote_endpoint p <$> local_endpoints g;
  pa_node_count : in_node_count i = zlen (local_nodes g);
  pa_endpoint_count : in_endpoint_count i = zlen (local_endpoints g);
  pa_generation : in_generation i = local_generation_ g;
  pa_ok : incoming_ok p i;
}.

Lemma parsed_intro g p nodes endpoints :
  cache_ok g -> announceable g -> nonzero_prefix p = true ->
  length nodes = 8%nat -> length endpoints = 16%nat ->
  take (length (local_nodes g)) nodes = as_remote_node p <$> local_nodes g ->
  take (length (local_endpoints g)) endpoints = as_remote_endpoint p <$> local_endpoints g ->
  parsed_as g p {| in_nodes := nodes; in_endpoints := endpoints;
                   in_node_count := zlen (local_nodes g);
                   in_endpoint_count := zlen (local_endpoints g);
                   in_generation := local_generation_ g |}.
Proof.
  intros Hg [Ha1 Ha2] Hp Hn8 He16 Hn He.
  split; try done; unfold sent_nodes, sent_endpoints;
    cbn [in_nodes in_endpoints in_node_count in_endpoint_count]; try (by rewrite Nat2Z.id).
  split; cbn [in_nodes in_endpoints in_node_count in_endpoint_count in_generation]; try done;
    try lia; try (by apply Hg); rewrite ?Nat2Z.id, ?Hn, ?He.
  - apply Forall_fmap, Forall_forall. intros n Hin.
    destruct (local_node_elem g n Hg Hin) as [[] _]. by split_and!.
  - rewrite <- list_fmap_compose. by apply local_node_ids.
  - apply Forall_fmap, Forall_forall. intros e Hin.
    destruct (local_endpoint_elem g e Hg Hin) as [[] _]. split; [by split_and!|].
    rewrite <- list_fmap_compose. exact (local_owner g e Hg Hin).
  - rewrite <- list_fmap_compose. by apply local_endpoint_ids.
Qed.

(** A payload whose header is well formed and whose records fill it. *)
Lemma parse_reads p m nc ec gen ns es pos :
  let rest := drop 24 m in
  m = header_bytes nc ec gen ++ rest -> nonzero_prefix p = true ->
  0 <= nc <= 8 -> 0 <= ec <= 16 -> 1 <= gen <= i64_max -> zlen m < 2 ^ 62 ->
  for_each (read_node p m (zlen m)) (seqZ 0 nc)
    (replicate 8 GraphNodeRecord_default, 24) = Done (ns, pos) ->
  for_each (read_endpoint p m (zlen m) ns nc) (seqZ 0 ec)
    (replicate 16 GraphEndpointRecord_default, pos) = Done (es, zlen m) ->
  parse_snapshot p (Some m) (zlen m) gen =
  Done {| in_nodes := ns; in_endpoints := es; in_node_count := nc; in_endpoint_count := ec;
          in_generation := gen |}.
Proof.
  intros rest Hm Hp Hn He Hg Hb Hns Hes. pose proof (header_length nc ec gen) as Hhd.
  assert (zlen m = 24 + zlen rest) as Hlen by (rewrite Hm, length_app; lia).
  destruct (header_parses nc ec gen rest) as (F0 & F4 & F8 & F9 & F14 & F15 & F10 & F12 & F16);
    [done..|lia|]. rewrite <- Hm in *.
  unfold parse_snapshot, kHeaderSize. rewrite Hp. cbn [negb orb is_null].
  destruct (Z.ltb_spec (zlen m) 24); [lia|]. cbn [stop_if mbind outcome_bind access].
  rewrite F0, F4, F8, F9, F14, F15. cbn [access mbind outcome_bind].
  rewrite !bool_decide_true by done. change kVersion with 1.
  cbn [negb orb Z.eqb Pos.eqb stop_if mbind outcome_bind].
  rewrite F10, F12. cbn [mbind outcome_bind]. rewrite F16. cbn [mbind outcome_bind].
  unfold graph_local_node_capacity, graph_local_endpoint_capacity. rewrite Z.eqb_refl.
  destruct (Z.ltb_spec 8 nc), (Z.ltb_spec 16 ec), (Z.eqb_spec gen 0), (Z.ltb_spec i64_max gen);
    try lia. cbn [negb orb stop_if mbind outcome_bind].
  change (Z.to_nat 8) with 8%nat. change (Z.to_nat 16) with 16%nat.
  rewrite Hns. cbn [mbind outcome_bind]. rewrite Hes. cbn [mbind outcome_bind].
  by rewrite Z.eqb_refl.
Qed.

Lemma snapshot_parses g p :
  cache_ok g -> announceable g -> nonzero_prefix p = true ->
  exists i, parse_snapshot p (Some (snapshot_bytes g)) (zlen (snapshot_bytes g))
    (local_generation_ g) = Done i /\ parsed_as g p i.
Proof.
  intros Hg Ha Hp. pose proof (snapshot_bytes_bound g Hg Ha) as Hbound.
  pose proof Ha as [Ha1 Ha2]. pose proof (co_local_generation g Hg) as Hgen.
  set (nb := mjoin (node_bytes <$> local_nodes g)).
  set (eb := mjoin (endpoint_bytes <$> local_endpoints g)).
  set (hd := header_bytes (zlen (local_nodes g)) (zlen (local_endpoints g)) (local_generation_ g)).
  assert (snapshot_bytes g = hd ++ nb ++ eb) as Hm by done.
  pose proof (header_length (zlen (local_nodes g)) (zlen (local_endpoints g)) (local_generation_ g))
    as Hhd. fold hd in Hhd. set (m := snapshot_bytes g) in *.
  assert (zlen m = 24 + zlen nb + zlen eb) as Hlen by (rewrite Hm, !length_app; lia).
  destruct (read_nodes p m hd eb (local_nodes g)) as (ns & Hns & Hn8 & Hnt);
    [|by apply local_node_ids|lia|done|lia|].
  { apply Forall_forall. intros n Hn. by apply (local_node_elem g). }
  destruct (read_endpoints p m (hd ++ nb) [] (local_endpoints g) ns (zlen (local_nodes g)))
    as (es & Hes & He16 & Het); [|by apply local_endpoint_ids|lia| | |lia|].
  { apply Forall_forall. intros e He. by apply (local_endpoint_elem g). }
  { apply Forall_forall. intros e He. rewrite Nat2Z.id, Hnt, <- list_fmap_compose.
    exact (local_owner g e Hg He). }
  { by rewrite app_nil_r, <- app_assoc. }
  eexists. split; [|by apply parsed_intro; [..|exact Hnt|exact Het]].
  eapply parse_reads; try done; [lia|lia|lia|]. fold nb eb in Hes |- *.
  rewrite length_app, Nat2Z.inj_add in Hes. rewrite Hes. do 2 f_equal. lia.
Qed.

End GraphRoundtrip.
