(* ===== verification/GraphSync.v ===== *)
(** * The graph cache as a replicated map

    The theorems of the graph cache: its invariant over every sequence of operations,
    its behaviour on untrusted payloads, the local operations as map operations, and
    the agreement of a receiver with the newest snapshot delivered to it, whatever the
    order, loss and repetition of the deliveries. *)
From stdpp Require Import gmap.
From S2P Require Import Prelude Texts Bytes Types SlotTable GraphCache GraphFacts GraphInvariant.
From S2P Require Import GraphExchange GraphRoundtrip.

Module GraphSync.
Import Texts Types Slots Graph GraphFacts GraphInvariant GraphExchange GraphRoundtrip.

(** ** Snapshots of one participant *)

(** [g] holds, as the records of the remote participant [p], the local records of [s]. *)
Definition replicates (g : GraphCache) (p : list Z) (s : GraphCache) : Prop :=
  (forall id, node_map g !! inr (p, id) = as_remote_node p <$> node_map s !! inl id) /\
  (forall id, endpoint_map g !! inr (p, id) = as_remote_endpoint p <$> endpoint_map s !! inl id).

(** Everything that is not a record of [p] is as in [g]. *)
Definition untouched (g g' : GraphCache) (p : list Z) : Prop :=
  (forall k, (forall id, k <> inr (p, id)) -> node_map g' !! k = node_map g !! k) /\
  (forall k, (forall id, k <> inr (p, id)) -> endpoint_map g' !! k = endpoint_map g !! k) /\
  (forall q, q <> p -> generation_map g' !! q = generation_map g !! q).

(** Whatever [p] may announce fits besides the other records of [g]. *)
Definition has_room (g : GraphCache) (p : list Z) : Prop :=
  (is_Some (generation_map g !! p) \/ (size (generation_map g) < 16)%nat) /\
  (size (other_nodes (view g) p) <= 128)%nat /\ (size (other_endpoints (view g) p) <= 32)%nat.

Lemma applied_untouched g g' p i :
  cache_ok g -> incoming_ok p i -> view g' = applied (view g) p i -> untouched g g' p.
Proof.
  intros Hg Hi Hv. apply cache_ok_split in Hg as [_ Hok].
  assert (node_map g' = gr_nodes (applied (view g) p i)) as Hn by (by rewrite <- Hv).
  assert (endpoint_map g' = gr_endpoints (applied (view g) p i)) as He by (by rewrite <- Hv).
  assert (generation_map g' = gr_remotes (applied (view g) p i)) as Hr by (by rewrite <- Hv).
  split_and!.
  - intros k Hk. rewrite Hn. cbn [applied gr_nodes].
    rewrite lookup_union_r by (by apply (sent_node_other p)). by rewrite other_node_lookup.
  - intros k Hk. rewrite He. cbn [applied gr_endpoints].
    rewrite lookup_union_r by (by apply (sent_endpoint_other p)). by rewrite other_endpoint_lookup.
  - intros q Hq. rewrite Hr. cbn [applied gr_remotes]. by rewrite lookup_insert_ne.
Qed.

Lemma other_nodes_own v (p : list Z) id : graph_ok v -> other_nodes v p !! inr (p, id) = None.
Proof.
  intros Hv. apply map_lookup_filter_None. right. intros n Hn. cbn.
  apply not_false_iff_true, remote_node_key. exists id. by apply (go_node_keys v Hv).
Qed.

Lemma other_endpoints_own v (p : list Z) id : graph_ok v -> other_endpoints v p !! inr (p, id) = None.
Proof.
  intros Hv. apply map_lookup_filter_None. right. intros n Hn. cbn.
  apply not_false_iff_true, remote_endpoint_key. exists id. by apply (go_endpoint_keys v Hv).
Qed.

Lemma key_cases {A B} (p : list Z) (k : A + list Z * B) :
  (exists id, k = inr (p, id)) \/ (forall id, k <> inr (p, id)).
Proof.
  destruct k as [a|[q b]]; [by right|]. destruct (decide (q = p)) as [->|Hq].
  - left. by exists b.
  - right. by intros id [= ? _].
Qed.

(** What is kept besides [p] depends only on what is not of [p]. *)
Lemma other_eq g g' (p : list Z) :
  cache_ok g -> cache_ok g' -> untouched g g' p ->
  other_nodes (view g') p = other_nodes (view g) p /\
  other_endpoints (view g') p = other_endpoints (view g) p.
Proof.
  intros [_ Hg]%cache_ok_split [_ Hg']%cache_ok_split (Hn & He & _). split; apply map_eq; intros k;
    destruct (key_cases p k) as [[id ->]|Hk].
  - by rewrite !other_nodes_own.
  - rewrite !other_node_lookup by done. by apply Hn.
  - by rewrite !other_endpoints_own.
  - rewrite !other_endpoint_lookup by done. by apply He.
Qed.

(** The remote records of [p] are the announced ones. *)
Lemma applied_replicates g g' p i s :
  cache_ok g -> cache_ok s -> parsed_as s p i -> view g' = applied (view g) p i ->
  replicates g' p s.
Proof.
  intros [_ Hok]%cache_ok_split Hs [Hpn Hpe _ _ _ Hi] Hv.
  assert (node_map g' = gr_nodes (applied (view g) p i)) as Hn by (by rewrite <- Hv).
  assert (endpoint_map g' = gr_endpoints (applied (view g) p i)) as He by (by rewrite <- Hv).
  split; intros id; [rewrite Hn|rewrite He]; cbn [applied gr_nodes gr_endpoints];
    rewrite lookup_union_l by (by apply other_nodes_own || by apply other_endpoints_own);
    apply option_eq; intros x; rewrite keyed_Some, fmap_Some.
  - rewrite Hpn, list_elem_of_fmap. split.
    + intros [Hk (n & -> & Hin)]. exists n. split; [|done].
      apply (local_node_lookup s id n Hs). split; [done|]. by injection Hk.
    + intros (n & [Hin Hid]%(local_node_lookup s id n Hs) & ->). split; [|by exists n].
      cbn. unfold node_key. cbn. by rewrite Hid.
  - by apply (sent_node_keys p).
  - rewrite Hpe, list_elem_of_fmap. split.
    + intros [Hk (n & -> & Hin)]. exists n. split; [|done].
      apply (local_endpoint_lookup s id n Hs). split; [done|]. by injection Hk.
    + intros (n & [Hin Hid]%(local_endpoint_lookup s id n Hs) & ->). split; [|by exists n].
      cbn. unfold endpoint_key. cbn. by rewrite Hid.
  - by apply (sent_endpoint_keys p).
Qed.

Lemma spec_apply_cases g (p : list Z) i :
  has_room g p -> in_node_count i <= 8 -> in_endpoint_count i <= 16 ->
  (exists r, generation_map g !! p = Some r /\ in_generation i <= g_generation r /\
    spec_apply (view g) p i = inl (unchanged, stale_snapshot)) \/
  ((forall r, generation_map g !! p = Some r -> g_generation r < in_generation i) /\
    spec_apply (view g) p i = inr (applied (view g) p i)).
Proof.
  intros (Hr1 & Hr2 & Hr3) Hn He. unfold spec_apply. cbn [view gr_remotes].
  unfold GuidPrefix in *.
  destruct (Z.ltb_spec 136 (Z.of_nat (size (other_nodes (view g) p)) + in_node_count i)); [lia|].
  destruct (Z.ltb_spec 48 (Z.of_nat (size (other_endpoints (view g) p)) + in_endpoint_count i));
    [lia|]. cbn [orb].
  destruct (generation_map g !! p) as [r|] eqn:Hr.
  - destruct (Z.leb_spec (in_generation i) (g_generation r)).
    + left. by exists r.
    + right. split; [by intros ? [= <-]|done].
  - right. split; [done|]. destruct Hr1 as [[? ?]|Hsz]; [done|]. cbn [is_null andb].
    destruct (Nat.leb_spec 16 (size (generation_map g))); [lia|done].
Qed.

(** The delivery of one snapshot: stale, or the new state of [p]. *)
Lemma snapshot_applied g (p : list Z) s :
  cache_ok g -> has_room g p -> cache_ok s -> announceable s -> nonzero_prefix p = true ->
  let result := apply_remote g p (Some (snapshot_bytes s)) (zlen (snapshot_bytes s))
                  (local_generation_ s) in
  (exists r, generation_map g !! p = Some r /\ local_generation_ s <= g_generation r /\
    result = Stop (unchanged, stale_snapshot)) \/
  (exists g', result = Done g' /\ cache_ok g' /\ replicates g' p s /\ untouched g g' p /\
    (forall r, generation_map g !! p = Some r -> g_generation r < local_generation_ s) /\
    (exists r, generation_map g' !! p = Some r /\ g_generation r = local_generation_ s)).
Proof.
  intros Hg Hroom Hs Ha Hp. cbv zeta.
  destruct (snapshot_parses s p Hs Ha Hp) as (i & Hparse & Hpa).
  pose proof Hpa as [_ _ Hnc Hec Hgen Hi]. destruct Ha as [Ha1 Ha2].
  pose proof (apply_implements g p _ _ _ i Hg Hparse Hi) as Himp.
  destruct (spec_apply_cases g p i Hroom ltac:(lia) ltac:(lia)) as [(r & Hr & Hle & Hspec)|[Hlt Hspec]];
    rewrite Hspec in Himp.
  { left. exists r. split_and!; [done|lia|done]. }
  right. destruct Himp as (g' & Hres & Hv & Ht). pose proof Hg as [_ Hok]%cache_ok_split.
  assert (cache_ok g') as Hg'.
  { apply cache_ok_split. split; [done|]. rewrite Hv. by apply (spec_apply_ok (view g) p i). }
  rewrite Hgen in Hlt. exists g'. split; [done|]. split; [done|].
  split; [by apply (applied_replicates g g' p i)|].
  split; [by apply (applied_untouched g g' p i)|]. split; [done|].
  assert (generation_map g' = gr_remotes (applied (view g) p i)) as -> by (by rewrite <- Hv).
  cbn [applied gr_remotes]. rewrite lookup_insert_eq. by eexists.
Qed.

(** ** Deliveries in any order *)

(** The receiver applies the snapshots that reach it; a refused one changes nothing. *)
Definition deliver (p : list Z) (g s : GraphCache) : GraphCache :=
  match apply_remote g p (Some (snapshot_bytes s)) (zlen (snapshot_bytes s))
          (local_generation_ s) with
  | Done g' => g'
  | _ => g
  end.

(** The records of [p] in [g] and its generation. *)
Definition agrees (g : GraphCache) (p : list Z) (s : GraphCache) : Prop :=
  replicates g p s /\
  exists r, generation_map g !! p = Some r /\ g_generation r = local_generation_ s.

Lemma untouched_trans g g' g'' p : untouched g g' p -> untouched g' g'' p -> untouched g g'' p.
Proof.
  intros (H1 & H2 & H3) (H1' & H2' & H3'). split_and!; intros k Hk.
  - by rewrite H1', H1.
  - by rewrite H2', H2.
  - by rewrite H3', H3.
Qed.

Lemma has_room_kept g g' (p : list Z) :
  cache_ok g -> cache_ok g' -> untouched g g' p -> is_Some (generation_map g' !! p) ->
  has_room g p -> has_room g' p.
Proof.
  intros Hg Hg' Hu Hr (_ & H1 & H2). destruct (other_eq g g' p Hg Hg' Hu) as [Hn He].
  unfold has_room. rewrite Hn, He. split_and!; [by left|done..].
Qed.

(** One more delivery keeps the receiver at the newest snapshot. *)
Lemma deliver_step (p : list Z) s s' g :
  cache_ok g -> has_room g p -> cache_ok s' -> announceable s' -> nonzero_prefix p = true ->
  agrees g p s ->
  cache_ok (deliver p g s') /\ has_room (deliver p g s') p /\ untouched g (deliver p g s') p /\
  agrees (deliver p g s') p
    (if local_generation_ s <? local_generation_ s' then s' else s).
Proof.
  intros Hg Hroom Hs Ha Hp [Hrep (r & Hr & Hgen)]. unfold deliver.
  destruct (snapshot_applied g p s' Hg Hroom Hs Ha Hp)
    as [(r1 & Hr1 & Hle & ->)|(g' & -> & Hg' & Hrep' & Hu' & Hlt & r' & Hr' & Hgen')].
  - assert (r1 = r) as -> by congruence.
    destruct (Z.ltb_spec (local_generation_ s) (local_generation_ s')); [lia|].
    split_and!; try done. by split; [|exists r].
  - specialize (Hlt r Hr).
    destruct (Z.ltb_spec (local_generation_ s) (local_generation_ s')); [|lia].
    split_and!; [done| |done|by split; [|exists r']].
    by apply (has_room_kept g); [..|exists r'|].
Qed.

(** The newest of the snapshots, the earliest one among equals. *)
Definition newest (s : GraphCache) (l : list GraphCache) : GraphCache :=
  foldl (fun s s' => if local_generation_ s <? local_generation_ s' then s' else s) s l.

Lemma newest_spec l : forall s,
  newest s l ∈ s :: l /\
  Forall (fun s' => local_generation_ s' <= local_generation_ (newest s l)) (s :: l).
Proof.
  induction l as [|x l IH]; intros s; cbn [newest foldl].
  { split; [left|]. apply Forall_singleton. lia. }
  destruct (IH (if local_generation_ s <? local_generation_ x then x else s)) as [Hin Hall].
  unfold newest in *.
  destruct (Z.ltb_spec (local_generation_ s) (local_generation_ x));
    apply Forall_cons in Hall as [Hx Hall].
  - split; [by right|]. rewrite !Forall_cons. split_and!; [lia|done|done].
  - split; [apply elem_of_cons in Hin as [->|?]; [left|by right; right]|].
    rewrite !Forall_cons. split_and!; [done|lia|done].
Qed.

Lemma deliver_run (p : list Z) l : forall s g,
  cache_ok g -> has_room g p -> nonzero_prefix p = true -> agrees g p s ->
  Forall (fun s => cache_ok s /\ announceable s) l ->
  let g' := foldl (deliver p) g l in
  cache_ok g' /\ untouched g g' p /\ agrees g' p (newest s l).
Proof.
  induction l as [|x l IH]; intros s g Hg Hroom Hp Hs Hl; [done|].
  apply Forall_cons in Hl as [[Hx Hxa] Hl]. cbn [foldl newest].
  destruct (deliver_step p s x g Hg Hroom Hx Hxa Hp Hs) as (H1 & H2 & H3 & H4).
  destruct (IH _ _ H1 H2 Hp H4 Hl) as (H5 & H6 & H7). split_and!; [done| |done..].
  by apply (untouched_trans _ (deliver p g x)).
Qed.

(** ** Every sequence of operations *)

Lemma forgotten_ok v p : graph_ok v -> graph_ok (forgotten v p).
Proof.
  intros Hv. pose proof Hv as [K1 K2 O1 O2 Ow Kn Rc G1 G2].
  split; cbn [forgotten gr_nodes gr_endpoints gr_remotes gr_generation gr_local_generation];
    try done; try (by apply filter_Forall).
  - intros k e He. pose proof (other_owner v p k e Hv He) as Ho.
    pose proof He as [He' _]%map_lookup_filter_Some.
    destruct (Ow k e He') as (n & Hn & Hp). exists n. by rewrite other_node_lookup.
  - intros k n [Hn Hr]%map_lookup_filter_Some Hl. cbn in Hr.
    destruct (Kn k n Hn Hl) as [r Hg]. exists r. rewrite lookup_delete_ne; [done|].
    intros ->. unfold remote_node_of in Hr. rewrite Hl, bool_decide_true in Hr; done.
  - by apply map_Forall_delete.
  - case_bool_decide; [done|]. by apply graph_generation_range.
Qed.

Lemma new_ok : cache_ok GraphCache_new.
Proof.
  apply cache_ok_split. split.
  - split_and!; exists 0; [exact (table_ok_empty 136)|exact (table_ok_empty 48)|
      exact (table_ok_empty 16)].
  - assert (node_map GraphCache_new = ∅) as Hn by (by vm_compute).
    assert (endpoint_map GraphCache_new = ∅) as He by (by vm_compute).
    assert (generation_map GraphCache_new = ∅) as Hr by (by vm_compute).
    split; cbn [view gr_nodes gr_endpoints gr_remotes gr_generation gr_local_generation];
      rewrite ?Hn, ?He, ?Hr; try apply map_Forall_empty; done.
Qed.

(** What [apply_remote] does with the bytes of any payload. *)
Lemma apply_yields g (p : list Z) payload seq :
  cache_ok g -> bytes_ok payload -> zlen payload < 2 ^ 63 ->
  yields (fun '(update, error) => update <> changed /\ error <> graph_none)
    (fun g' => cache_ok g' /\ untouched g g' p /\ exists i,
       parse_snapshot p (Some payload) (zlen payload) seq = Done i /\
       incoming_ok p i /\ view g' = applied (view g) p i)
    (apply_remote g p (Some payload) (zlen payload) seq).
Proof.
  intros Hg Hb Hl. destruct (nonzero_prefix p) eqn:Hp.
  - pose proof (parse_yields p payload Hp Hb Hl seq) as Hparse.
    destruct (parse_snapshot p (Some payload) (zlen payload) seq) as [|r|i] eqn:Hres; [done|..].
    + unfold apply_remote. rewrite Hres. cbn. by destruct Hparse as [->| ->].
    + cbn in Hparse. pose proof (apply_implements g p _ _ _ i Hg Hres Hparse) as Himp.
      destruct (spec_apply (view g) p i) as [[u e]|v] eqn:Hspec.
      * cbn in Himp. rewrite Himp. cbn. unfold spec_apply in Hspec. by repeat case_match; simplify_eq.
      * pose proof (spec_apply_inr _ _ _ _ Hspec) as ->. destruct Himp as (g' & -> & Hv & Ht).
        cbn. split; [|split; [by apply (applied_untouched g g' p i)|by exists i]].
        apply cache_ok_split. split; [done|]. rewrite Hv. pose proof Hg as [_ Hok]%cache_ok_split.
        by apply (spec_apply_ok (view g) p i).
  - unfold apply_remote, parse_snapshot. by rewrite Hp.
Qed.

(** The calls of the program on its cache that change it. *)
Inductive graph_step : GraphCache -> GraphCache -> Prop :=
  | step_add_node g participant_prefix node_id i1 i2 i3 s1 s2 s3 g' :
      0 <= node_id < 2 ^ 64 -> names i1 s1 -> names i2 s2 -> names i3 s3 ->
      add_local_node g participant_prefix node_id i1 i2 i3 = Done g' -> graph_step g g'
  | step_remove_node g node_id g' :
      remove_local_node g node_id = Done g' -> graph_step g g'
  | step_add_endpoint g participant_prefix entity_id node_id kind i1 i2 i3 i4 s1 s2 s3 s4
      conventions g' :
      0 <= node_id < 2 ^ 64 -> length entity_id = 4%nat ->
      names i1 s1 -> names i2 s2 -> names i3 s3 -> names i4 s4 ->
      add_local_endpoint g participant_prefix entity_id node_id kind i1 i2 i3 i4 conventions =
        Done g' -> graph_step g g'
  | step_remove_endpoint g entity_id g' :
      length entity_id = 4%nat -> remove_local_endpoint g entity_id = Done g' -> graph_step g g'
  | step_apply g participant_prefix payload seq g' :
      bytes_ok payload -> zlen payload < 2 ^ 63 ->
      apply_remote g participant_prefix (Some payload) (zlen payload) seq = Done g' ->
      graph_step g g'
  | step_forget g participant_prefix :
      graph_step g (remove_remote_participant g participant_prefix).2.

Lemma graph_step_ok g g' : graph_step g g' -> cache_ok g -> cache_ok g'.
Proof.
  intros Hstep Hg. pose proof Hg as [_ Hok]%cache_ok_split. destruct Hstep.
  - eapply implements_ok; [by apply (add_node_implements g participant_prefix node_id i1 i2 i3 s1 s2 s3)| |done].
    intros v Hv. by apply spec_add_node_ok in Hv.
  - eapply implements_ok; [by apply (remove_node_implements g node_id)| |done].
    intros v Hv. by apply spec_remove_node_ok in Hv.
  - eapply implements_ok; [by apply (add_endpoint_implements g participant_prefix entity_id node_id kind
      i1 i2 i3 i4 s1 s2 s3 s4 conventions)| |done].
    intros v Hv. by apply spec_add_endpoint_ok in Hv.
  - eapply implements_ok; [by apply (remove_endpoint_implements g entity_id)| |done].
    intros v Hv. by apply spec_remove_endpoint_ok in Hv.
  - pose proof (apply_yields g participant_prefix payload seq Hg) as Hy.
    rewrite H1 in Hy. by apply Hy.
  - destruct (remove_implements g participant_prefix Hg) as (Hv & Ht & _).
    apply cache_ok_split. split; [done|]. rewrite Hv. by apply forgotten_ok.
Qed.

(** ** The snapshot handed to the application *)

Lemma compact_run {Err E K} `{Slot E K} (es : list E) : forall p r,
  (length (live es) <= length r)%nat -> zlen (p ++ r) < 2 ^ 64 ->
  for_each (fun entry '(out, count) =>
      if occupied entry then
        out ← access (mstore out count entry); Done (out, add64 count 1)
      else Done (out, count)) es (p ++ r, zlen p) =
  (Done ((p ++ live es) ++ drop (length (live es)) r, zlen (p ++ live es)) : outcome Err _).
Proof.
  induction es as [|e es IH]; intros p r Hr Hb; [cbn; by rewrite app_nil_r|].
  cbn [for_each]. destruct (occupied e) eqn:He.
  - rewrite (live_cons_occupied e es He) in *. cbn [length] in *. rewrite length_app in Hb.
    rewrite mstore_mcopy, (mcopy_snoc p r [e]) by (done || cbn; lia). cbn [access mbind outcome_bind].
    rewrite add64_id by lia.
    replace (zlen p + 1) with (zlen (p ++ [e])) by (rewrite length_app; cbn; lia).
    cbn [length]. rewrite IH by (rewrite ?length_app, length_drop; cbn [length]; lia).
    rewrite drop_drop, <- !app_assoc. done.
  - rewrite (live_cons_free e es He) in *. by apply IH.
Qed.

Lemma compact_spec {Err E K} `{Slot E K} (es : list E) n d :
  (length es <= n)%nat -> Z.of_nat n < 2 ^ 64 ->
  compact es (replicate n d) =
  (Done (live es ++ replicate (n - length (live es)) d, zlen (live es)) : outcome Err _).
Proof.
  intros Hn Hb. pose proof (length_filter (fun e => occupied e = true) es) as Hl.
  fold (live es) in Hl.
  pose proof (compact_run (Err:=Err) es [] (replicate n d)) as Hrun. cbn [app length] in Hrun.
  change (Z.of_nat 0) with 0 in Hrun. unfold compact. rewrite Hrun by (rewrite length_replicate; lia). by rewrite drop_replicate.
Qed.

(** ** Theorems *)

(** What [s] sends: the bytes [serialize_local] writes into a wire buffer. *)
Definition announcement (s : GraphCache) : list Z :=
  match serialize_local s (Some (replicate (Z.to_nat graph_wire_capacity) 0)) graph_wire_capacity with
  | Done (m, n) => take (Z.to_nat n) m
  | _ => []
  end.

Lemma announcement_spec s : cache_ok s -> announceable s -> announcement s = snapshot_bytes s.
Proof.
  intros Hs Ha. unfold announcement, graph_wire_capacity. pose proof (snapshot_bytes_bound s Hs Ha).
  set (buffer := replicate (Z.to_nat 32768) 0).
  assert (length buffer = Z.to_nat 32768) as Hlen by apply length_replicate.
  pose proof (serialize_local_cases s buffer 32768 Hs Ha ltac:(lia) ltac:(lia)) as Hc. cbv zeta in Hc.
  destruct (Z.leb_spec (zlen (snapshot_bytes s)) 32768); [|lia]. rewrite Hc.
  by rewrite Nat2Z.id, take_app_length.
Qed.

(** The receiver hands each announcement to [apply_remote]; a refused one changes
    nothing. *)
Definition receive (p : list Z) (g s : GraphCache) : GraphCache :=
  match apply_remote g p (Some (announcement s)) (zlen (announcement s)) (local_generation_ s) with
  | Done g' => g'
  | _ => g
  end.

Lemma receive_all p l g :
  Forall (fun s => cache_ok s /\ announceable s) l ->
  foldl (receive p) g l = foldl (deliver p) g l.
Proof.
  revert g. induction l as [|s l IH]; intros g Hl; [done|].
  apply Forall_cons in Hl as [[Hs Ha] Hl]. cbn [foldl]. rewrite IH by done.
  f_equal. unfold receive, deliver. by rewrite announcement_spec.
Qed.

(** C4: Graph replicas converge.  A participant announces its local graph after its
    changes, each announcement being the bytes [serialize_local] wrote for the state
    at that time; a receiver that has room for the participant applies whichever
    announcements reach it, in any order, with any losses and repetitions.  It then
    holds, as the remote records of that participant, exactly the local nodes and
    endpoints of the newest announced state that reached it, and none of its local
    records nor of those of other participants has changed. *)
Theorem graph_converges (p : list Z) g s l :
  cache_ok g -> has_room g p -> generation_map g !! p = None -> nonzero_prefix p = true ->
  Forall (fun s => cache_ok s /\ announceable s) (s :: l) ->
  let g' := foldl (receive p) g (s :: l) in
  cache_ok g' /\ untouched g g' p /\
  exists n, n ∈ s :: l /\ (forall s', s' ∈ s :: l -> local_generation_ s' <= local_generation_ n) /\
    replicates g' p n.
Proof.
  intros Hg Hroom Hnew Hp Hl. cbv zeta. rewrite receive_all by done.
  apply Forall_cons in Hl as [[Hs Ha] Hl]. cbn [foldl].
  destruct (snapshot_applied g p s Hg Hroom Hs Ha Hp)
    as [(r & Hr & _)|(g1 & Hd & Hg1 & Hrep & Hu & _ & r & Hr & Hgen)]; [congruence|].
  assert (deliver p g s = g1) as -> by (unfold deliver; by rewrite Hd).
  assert (has_room g1 p) as Hroom1 by (by apply (has_room_kept g); [..|exists r|]).
  destruct (deliver_run p l s g1 Hg1 Hroom1 Hp) as (H1 & H2 & H3 & _); [by split; [|exists r]|done|].
  split_and!; [done|by apply (untouched_trans g g1)..|].
  destruct (newest_spec l s) as [Hin Hall]. exists (newest s l). split_and!; [done| |done..].
  intros s' Hs'. rewrite Forall_forall in Hall. by apply Hall.
Qed.

(** C27: The invariant of the graph cache: whatever sequence of operations has been
    applied to a new cache, untrusted payloads included, no key occurs twice, every
    record is well formed, every endpoint belongs to a node of the same participant
    that the cache holds, every remote participant has a recorded generation, and the
    generations stay positive 63-bit numbers. *)
Theorem graph_invariant g : rtc graph_step GraphCache_new g -> cache_ok g.
Proof.
  intros Hsteps. refine (rtc_ind_r cache_ok GraphCache_new _ _ g Hsteps).
  - apply new_ok.
  - intros g1 g2 _ Hstep Hg1. by apply (graph_step_ok g1).
Qed.

(** [apply_remote] on untrusted bytes: for every payload it neither faults nor
    corrupts the cache.  Either it refuses (reporting an error, the cache unchanged),
    or the payload was a well-formed snapshot and the records of that participant are
    exactly those of the snapshot, while no local record and no record of another
    participant has changed. *)
Theorem graph_apply_untrusted g (p : list Z) payload seq :
  cache_ok g -> bytes_ok payload -> zlen payload < 2 ^ 63 ->
  match apply_remote g p (Some payload) (zlen payload) seq with
  | Fault => False
  | Stop (update, error) => update <> changed /\ error <> graph_none
  | Done g' => cache_ok g' /\ untouched g g' p /\ exists i,
      parse_snapshot p (Some payload) (zlen payload) seq = Done i /\
      incoming_ok p i /\ view g' = applied (view g) p i
  end.
Proof. apply apply_yields. Qed.


(** The graph snapshot for the application is exact: it lists every occupied node
    and endpoint entry once, in table order, with the counts and the generation, and
    default entries behind them. *)
Theorem graph_snapshot_exact g :
  cache_ok g ->
  (snapshot g : outcome GraphError GraphSnapshot) =
  Done {| snap_nodes := live (nodes_ g) ++
            replicate (136 - length (live (nodes_ g))) GraphNodeRecord_default;
          snap_endpoints := live (endpoints_ g) ++
            replicate (48 - length (live (endpoints_ g))) GraphEndpointRecord_default;
          snap_node_count := Z.of_nat (size (node_map g));
          snap_endpoint_count := Z.of_nat (size (endpoint_map g));
          snap_generation := generation_ g |}.
Proof.
  intros Hg. unfold snapshot, graph_node_capacity, graph_endpoint_capacity.
  pose proof (co_nodes g Hg). pose proof (co_endpoints g Hg).
  rewrite (compact_spec (nodes_ g)) by lia. cbn [mbind outcome_bind].
  rewrite (compact_spec (endpoints_ g)) by lia. cbn [mbind outcome_bind].
  by rewrite !size_contents by apply Hg.
Qed.

(** ** A concrete exchange *)

Definition demo_prefix : list Z := replicate 12 7.
Definition demo_name : option (list Z) := Some [110; 0].
Definition demo_topic : option (list Z) := Some [114; 116; 0].
Definition demo_entity : list Z := [0; 0; 1; 3].

Definition done_or {E A} (d : A) (m : outcome E A) : A := match m with Done a => a | _ => d end.

Definition demo_node : GraphCache := Eval vm_compute in
  done_or GraphCache_new
    (add_local_node GraphCache_new demo_prefix 1 demo_name demo_name demo_name).
Definition demo_graph : GraphCache := Eval vm_compute in
  done_or demo_node
    (add_local_endpoint demo_node demo_prefix demo_entity 1 publisher demo_topic demo_name
       demo_topic demo_name true).

Lemma demo_name_names : names demo_name (Some [110]).
Proof. split; [|done]. exists []. split; [done|]. by repeat constructor. Qed.

Lemma demo_topic_names : names demo_topic (Some [114; 116]).
Proof. split; [|done]. exists []. split; [done|]. by repeat constructor. Qed.

Lemma demo_steps : graph_step GraphCache_new demo_node /\ graph_step demo_node demo_graph.
Proof.
  split.
  - eapply (step_add_node GraphCache_new demo_prefix 1 demo_name demo_name demo_name);
      [lia|apply demo_name_names..|by vm_compute].
  - eapply (step_add_endpoint demo_node demo_prefix demo_entity 1 publisher demo_topic demo_name
      demo_topic demo_name _ _ _ _ true);
      [lia|done|apply demo_topic_names|apply demo_name_names|apply demo_topic_names
      |apply demo_name_names|by vm_compute].
Qed.

Lemma demo_caches : Forall (fun s => cache_ok s /\ announceable s) [demo_graph; demo_node; demo_graph].
Proof.
  destruct demo_steps as [H1 H2]. pose proof (graph_step_ok _ _ H1 new_ok) as Hn.
  pose proof (graph_step_ok _ _ H2 Hn) as Hg.
  assert (announceable demo_node) by (split; vm_compute; discriminate).
  assert (announceable demo_graph) by (split; vm_compute; discriminate).
  repeat (apply Forall_cons; split; [split; assumption|]). by apply Forall_nil.
Qed.

Lemma demo_room : has_room GraphCache_new demo_prefix.
Proof. split_and!; [right|..]; vm_compute; lia. Qed.

Lemma graph_converges_witness :
  exists n, n ∈ [demo_graph; demo_node; demo_graph] /\
    replicates (foldl (receive demo_prefix) GraphCache_new [demo_graph; demo_node; demo_graph])
      demo_prefix n.
Proof.
  destruct (graph_converges demo_prefix GraphCache_new demo_graph [demo_node; demo_graph])
    as (_ & _ & n & H1 & _ & H2);
    [apply new_ok|apply demo_room|by vm_compute|done|apply demo_caches|].
  by exists n.
Defined.

Lemma graph_invariant_witness : cache_ok demo_graph.
Proof.
  apply graph_invariant. destruct demo_steps as [H1 H2].
  by apply (rtc_l _ _ demo_node), rtc_once.
Defined.

(** A payload that is not a snapshot is refused. *)
Lemma graph_apply_untrusted_witness :
  match apply_remote GraphCache_new demo_prefix (Some [1; 2; 3]) 3 1 with
  | Stop (update, error) => update <> changed /\ error <> graph_none
  | _ => False
  end.
Proof.
  assert (bytes_ok [1; 2; 3]) as Hb by (repeat constructor; lia).
  pose proof (graph_apply_untrusted GraphCache_new demo_prefix [1; 2; 3] 1 new_ok Hb eq_refl) as H.
  change (zlen [1; 2; 3]) with 3 in H.
  destruct (apply_remote GraphCache_new demo_prefix (Some [1; 2; 3]) 3 1) eqn:Hr; [done|done|].
  by vm_compute in Hr.
Defined.


Lemma graph_snapshot_exact_witness :
  (snapshot GraphCache_new : outcome GraphError GraphSnapshot) <> Fault.
Proof. rewrite (graph_snapshot_exact GraphCache_new new_ok). discriminate. Defined.

End GraphSync.
