(* ===== verification/ReliabilityMessages.v ===== *)
(** * HEARTBEAT and ACKNACK messages

    [include/openrtdds/rtps/reliability_messages.hpp] and
    [src/rtps/reliability_messages.cpp]: the bounded sequence-number bitmap,
    the builders and the parsers of the two control submessages of the
    reliability protocol. *)
From S2P Require Import Prelude Bytes Types MessageRouter.

Module RelMsg.
Import Types.

Inductive ReliabilityMessageError : Set :=
  | rel_none
  | invalid_argument
  | buffer_overflow
  | truncated
  | invalid_protocol
  | unsupported_version
  | unsupported_submessage
  | unsupported_feature
  | invalid_submessage
  | invalid_sequence_number
  | bitmap_bound_exceeded.

#[global] Instance ReliabilityMessageError_eq_dec : EqDecision ReliabilityMessageError.
Proof. solve_decision. Defined.

Definition reliability_error_string (error : ReliabilityMessageError) : string :=
  match error with
  | rel_none => "none"
  | invalid_argument => "invalid argument"
  | buffer_overflow => "output buffer overflow"
  | truncated => "truncated RTPS reliability message"
  | invalid_protocol => "invalid RTPS protocol header"
  | unsupported_version => "unsupported RTPS protocol version"
  | unsupported_submessage => "unsupported RTPS submessage"
  | unsupported_feature => "unsupported RTPS reliability feature"
  | invalid_submessage => "invalid RTPS reliability submessage"
  | invalid_sequence_number => "invalid RTPS sequence number"
  | bitmap_bound_exceeded => "ACKNACK bitmap exceeds 256 bits"
  end.

Definition valid_sequence_number (sequence_number : Z) : bool :=
  negb (sequence_number =? 0) && (sequence_number <=? i64_max).

(** ** The sequence-number bitmap *)

Definition maximum_bits : Z := 256.
Definition maximum_words : nat := 8.

Record SequenceNumberSet : Set := {
  bitmap_base_ : Z;
  num_bits_ : Z;
  bitmap_ : list Z;
}.

Definition SequenceNumberSet_default : SequenceNumberSet :=
  {| bitmap_base_ := 1; num_bits_ := 0; bitmap_ := replicate maximum_words 0 |}.

Definition bitmap_base (s : SequenceNumberSet) : Z := bitmap_base_ s.
Definition num_bits (s : SequenceNumberSet) : Z := num_bits_ s.
Definition word_count (s : SequenceNumberSet) : Z := add32 (num_bits_ s) 31 / 32.

Definition word {E} (s : SequenceNumberSet) (index : Z) : outcome E Z :=
  if index <? word_count s then access (mload (bitmap_ s) index) else Done 0.

(** [None]: [reset] returned [false] and left the set alone. *)
Definition reset (bitmap_base num_bits : Z) : option SequenceNumberSet :=
  if negb (valid_sequence_number bitmap_base) || (maximum_bits <? num_bits) then None
  else if negb (num_bits =? 0) && (sub64 i64_max (sub32 num_bits 1) <? bitmap_base)
  then None
  else Some {| bitmap_base_ := bitmap_base; num_bits_ := num_bits;
               bitmap_ := replicate maximum_words 0 |}.

(** [set]: [Stop tt] is [return false]. *)
Definition set (s : SequenceNumberSet) (offset : Z) : outcome unit SequenceNumberSet :=
  stop_if (num_bits_ s <=? offset) tt;;
  let word_index := offset / 32 in
  let bit_index := offset mod 32 in
  w ← access (mload (bitmap_ s) word_index);
  b ← access (mstore (bitmap_ s) word_index (Z.lor w (Z.shiftl 1 (31 - bit_index))));
  Done {| bitmap_base_ := bitmap_base_ s; num_bits_ := num_bits_ s; bitmap_ := b |}.

Definition test {E} (s : SequenceNumberSet) (offset : Z) : outcome E bool :=
  if num_bits_ s <=? offset then Done false
  else
    w ← access (mload (bitmap_ s) (offset / 32));
    Done (negb (Z.land w (Z.shiftl 1 (31 - offset mod 32)) =? 0)).

(** [static_cast<void>(s.set(offset))] *)
Definition set_ignored {E} (s : SequenceNumberSet) (offset : Z)
    : outcome E SequenceNumberSet :=
  match set s offset with Fault => Fault | Stop _ => Done s | Done s' => Done s' end.

(** ** Messages *)

Record ReliabilityMessageHeader : Set := {
  version : ProtocolVersion;
  vendor_id : VendorId;
  guid_prefix : GuidPrefix;
  submessage_byte_order : ByteOrder;
}.

Record HeartbeatConfig : Set := {
  hb_header : ReliabilityMessageHeader;
  hb_reader_id : EntityId;
  hb_writer_id : EntityId;
  hb_first : Z;
  hb_last : Z;
  hb_count : Z;
  hb_final_flag : bool;
  hb_liveliness_flag : bool;
}.

Record AckNackConfig : Set := {
  an_header : ReliabilityMessageHeader;
  an_reader_id : EntityId;
  an_writer_id : EntityId;
  an_reader_state : SequenceNumberSet;
  an_count : Z;
  an_final_flag : bool;
}.

(** [HeartbeatView] and [AckNackView] have the members of the configurations. *)
Definition HeartbeatView : Set := HeartbeatConfig.
Definition AckNackView : Set := AckNackConfig.

Record ReliabilityMessageBuilder : Set := {
  buffer_ : option (list Z);
  capacity_ : Z;
  size_ : Z;
  error_ : ReliabilityMessageError;
}.

Definition null_with_size (p : option (list Z)) (size : Z) : bool :=
  match p with None => negb (size =? 0) | Some _ => false end.

Definition ReliabilityMessageBuilder_new (buffer : option (list Z)) (capacity : Z)
    : ReliabilityMessageBuilder :=
  {| buffer_ := buffer; capacity_ := capacity; size_ := 0;
     error_ := if null_with_size buffer capacity then invalid_argument else rel_none |}.

Definition fail_state (b : ReliabilityMessageBuilder) (error : ReliabilityMessageError)
    : ReliabilityMessageBuilder :=
  {| buffer_ := buffer_ b; capacity_ := capacity_ b; size_ := 0;
     error_ := if decide (error_ b = rel_none) then error else error_ b |}.

Definition fail_if (c : bool) (b : ReliabilityMessageBuilder)
    (error : ReliabilityMessageError) : outcome ReliabilityMessageBuilder unit :=
  stop_if c (fail_state b error).

(** [size_ = 0U; error_ = none;] *)
Definition reset_builder (b : ReliabilityMessageBuilder) : ReliabilityMessageBuilder :=
  {| buffer_ := buffer_ b; capacity_ := capacity_ b; size_ := 0; error_ := rel_none |}.

Definition finish (b : ReliabilityMessageBuilder) (m : list Z) (size : Z)
    : ReliabilityMessageBuilder :=
  {| buffer_ := Some m; capacity_ := capacity_ b; size_ := size; error_ := error_ b |}.

Definition rtps_header_size : Z := 20.
Definition submessage_header_size : Z := 4.
Definition heartbeat_content_size : Z := 28.
Definition heartbeat_message_size : Z :=
  rtps_header_size + submessage_header_size + heartbeat_content_size.
Definition acknack_fixed_content_size : Z := 24.
Definition acknack_submessage_id : Z := 6.
Definition heartbeat_submessage_id : Z := 7.
Definition endianness_flag : Z := 1.
Definition final_flag : Z := 2.
Definition liveliness_flag : Z := 4.
Definition group_info_flag : Z := 8.

Definition write_int32 {E} (m : list Z) (at_ value : Z) (order : ByteOrder)
    : outcome E (list Z) :=
  write_uint32 m at_ (bits_of_i32 value) order.

Definition write_sequence_number {E} (m : list Z) (at_ sequence_number : Z)
    (order : ByteOrder) : outcome E (list Z) :=
  m ← write_uint32 m at_ (u32 (Z.shiftr sequence_number 32)) order;
  write_uint32 m (at_ + 4) (Z.land sequence_number 4294967295) order.

Definition read_int32 {E} (m : list Z) (at_ : Z) (order : ByteOrder) : outcome E Z :=
  bits ← read_uint32 m at_ order; Done (i32_of_bits bits).

(** [read_sequence_number]: [None] is [return false]. *)
Definition read_sequence_number {E} (m : list Z) (at_ : Z) (order : ByteOrder)
    (allow_zero : bool) : outcome E (option Z) :=
  high_bits ← read_uint32 m at_ order;
  if i32_of_bits high_bits <? 0 then Done None
  else
    low ← read_uint32 m (at_ + 4) order;
    let candidate := Z.lor (Z.shiftl high_bits 32) low in
    if (negb allow_zero && (candidate =? 0)) || (i64_max <? candidate)
    then Done None else Done (Some candidate).

Definition write_rtps_header {E} (m : list Z) (header : ReliabilityMessageHeader)
    : outcome E (list Z) :=
  m ← access (mstore m 0 82);
  m ← access (mstore m 1 84);
  m ← access (mstore m 2 80);
  m ← access (mstore m 3 83);
  m ← access (mstore m 4 (major (version header)));
  m ← access (mstore m 5 (minor (version header)));
  m ← access (mcopy m 6 (vendor_id header));
  access (mcopy m 8 (guid_prefix header)).

(** [begin]: the buffer with the RTPS header. *)
Definition begin (b : ReliabilityMessageBuilder) (header : ReliabilityMessageHeader)
    (message_size : Z) : outcome ReliabilityMessageBuilder (list Z) :=
  fail_if (null_with_size (buffer_ b) (capacity_ b)) b invalid_argument;;
  fail_if (negb (supported_version (version header))) b unsupported_version;;
  fail_if (negb (supported_byte_order (submessage_byte_order header))) b
    invalid_argument;;
  fail_if (capacity_ b <? message_size) b buffer_overflow;;
  m ← access (buffer_ b);
  write_rtps_header m header.

(** [buffer_[21] = 0U;] and the conditional [buffer_[21] |= ...] that follow it
    in both builders; ACKNACK has no liveliness flag. *)
Definition write_flags {E} (m : list Z) (order : ByteOrder) (final_ liveliness : bool)
    : outcome E (list Z) :=
  m ← access (mstore m 21 0);
  m ← when (is_little order) (fun m => or_at m 21 endianness_flag) m;
  m ← when final_ (fun m => or_at m 21 final_flag) m;
  when liveliness (fun m => or_at m 21 liveliness_flag) m.

Definition build_heartbeat (b : ReliabilityMessageBuilder) (config : HeartbeatConfig)
    : outcome ReliabilityMessageBuilder ReliabilityMessageBuilder :=
  let b := reset_builder b in
  fail_if (negb (valid_sequence_number (hb_first config)) || (i64_max <? hb_last config)
           || (hb_last config <? sub64 (hb_first config) 1)) b invalid_sequence_number;;
  m ← begin b (hb_header config) heartbeat_message_size;
  let order := submessage_byte_order (hb_header config) in
  m ← access (mstore m 20 heartbeat_submessage_id);
  m ← write_flags m order (hb_final_flag config) (hb_liveliness_flag config);
  m ← write_uint16 m 22 (u16 heartbeat_content_size) order;
  m ← access (mcopy m 24 (hb_reader_id config));
  m ← access (mcopy m 28 (hb_writer_id config));
  m ← write_sequence_number m 32 (hb_first config) order;
  m ← write_sequence_number m 40 (hb_last config) order;
  m ← write_int32 m 48 (hb_count config) order;
  Done (finish b m heartbeat_message_size).

(** The loop over the bitmap words; the state is the buffer and [offset]. *)
Definition write_words {E} (m : list Z) (s : SequenceNumberSet) (offset : Z)
    (order : ByteOrder) : outcome E (list Z * Z) :=
  for_each (fun index '(m, offset) =>
      w ← word s index;
      m ← write_uint32 m offset w order;
      Done (m, add64 offset 4))
    (seqZ 0 (word_count s)) (m, offset).

Definition build_acknack (b : ReliabilityMessageBuilder) (config : AckNackConfig)
    : outcome ReliabilityMessageBuilder ReliabilityMessageBuilder :=
  let b := reset_builder b in
  let state := an_reader_state config in
  fail_if (negb (valid_sequence_number (bitmap_base state))) b invalid_sequence_number;;
  fail_if (maximum_bits <? num_bits state) b bitmap_bound_exceeded;;
  let content_size := acknack_fixed_content_size + word_count state * 4 in
  let message_size := rtps_header_size + submessage_header_size + content_size in
  m ← begin b (an_header config) message_size;
  let order := submessage_byte_order (an_header config) in
  m ← access (mstore m 20 acknack_submessage_id);
  m ← write_flags m order (an_final_flag config) false;
  m ← write_uint16 m 22 (u16 content_size) order;
  m ← access (mcopy m 24 (an_reader_id config));
  m ← access (mcopy m 28 (an_writer_id config));
  m ← write_sequence_number m 32 (bitmap_base state) order;
  m ← write_uint32 m 40 (num_bits state) order;
  '(m, offset) ← write_words m state 44 order;
  m ← write_int32 m offset (an_count config) order;
  Done (finish b m message_size).

(** ** Parsers *)

Record ParsedPrefix : Set := {
  pp_header : ReliabilityMessageHeader;
  pp_byte_order : ByteOrder;
  pp_flags : Z;
  pp_content_size : Z;
  pp_content : option (list Z);
}.

Definition route_error (error : Router.MessageRouteError) : ReliabilityMessageError :=
  match error with
  | Router.route_none => rel_none
  | Router.invalid_argument => invalid_argument
  | Router.truncated => truncated
  | Router.invalid_protocol => invalid_protocol
  | Router.unsupported_version => unsupported_version
  | Router.submessage_not_found => unsupported_submessage
  | Router.malformed_submessage | Router.invalid_info_submessage => invalid_submessage
  end.

Definition prefix_of (routed : Router.RoutedSubmessageView) : ParsedPrefix :=
  {| pp_header :=
       {| version := Router.version routed; vendor_id := Router.vendor_id routed;
          guid_prefix := Router.source_guid_prefix routed;
          submessage_byte_order := Router.byte_order routed |};
     pp_byte_order := Router.byte_order routed; pp_flags := Router.flags routed;
     pp_content_size := Router.content_size routed;
     pp_content := Router.content routed |}.

Definition parse_prefix (message : option (list Z))
    (message_size expected_submessage_id : Z)
    : outcome ReliabilityMessageError ParsedPrefix :=
  stop_if (null_with_size message message_size) invalid_argument;;
  routed ← checked Router.route_none route_error
    (Router.find_submessage message message_size expected_submessage_id 0
       Router.RoutedSubmessageView_default);
  Done (prefix_of routed).

(** [parse_heartbeat_message] behind [parse_prefix]. *)
Definition parse_heartbeat_content (prefix : ParsedPrefix)
    : outcome ReliabilityMessageError HeartbeatView :=
  let flags := pp_flags prefix in
  let order := pp_byte_order prefix in
  stop_if (negb (Z.land flags group_info_flag =? 0)) unsupported_feature;;
  stop_if (negb (Z.land flags (255 - Z.lor (Z.lor endianness_flag final_flag)
                                       liveliness_flag) =? 0)) unsupported_feature;;
  stop_if (negb (pp_content_size prefix =? heartbeat_content_size)) invalid_submessage;;
  content ← access (pp_content prefix);
  reader ← access (mslice content 0 4);
  writer ← access (mslice content 4 4);
  first ← read_sequence_number content 8 order false;
  match first with
  | None => Stop invalid_sequence_number
  | Some first =>
      last ← read_sequence_number content 16 order true;
      match last with
      | None => Stop invalid_sequence_number
      | Some last =>
          stop_if (last <? sub64 first 1) invalid_sequence_number;;
          count ← read_int32 content 24 order;
          Done {| hb_header := pp_header prefix; hb_reader_id := reader;
                  hb_writer_id := writer; hb_first := first; hb_last := last;
                  hb_count := count;
                  hb_final_flag := negb (Z.land flags final_flag =? 0);
                  hb_liveliness_flag := negb (Z.land flags liveliness_flag =? 0) |}
      end
  end.

Definition parse_heartbeat_body (message : option (list Z)) (message_size : Z)
    : outcome ReliabilityMessageError HeartbeatView :=
  prefix ← parse_prefix message message_size heartbeat_submessage_id;
  parse_heartbeat_content prefix.

Definition parse_heartbeat_message (message : option (list Z)) (message_size : Z)
    (view : HeartbeatView) : option (ReliabilityMessageError * HeartbeatView) :=
  commit rel_none view (parse_heartbeat_body message message_size).

(** The two nested loops that fill the bitmap; the state is the set and
    [offset]. *)
Definition read_word_bits {E} (w word_index num_bits : Z) (s : SequenceNumberSet)
    : outcome E SequenceNumberSet :=
  for_each (fun bit_index s =>
      let bit_offset := add32 (u32 (word_index * 32)) bit_index in
      if (bit_offset <? num_bits) &&
         negb (Z.land w (Z.shiftl 1 (31 - bit_index)) =? 0)
      then set_ignored s bit_offset else Done s)
    (seqZ 0 32) s.

Definition read_words {E} (content : list Z) (order : ByteOrder)
    (word_count num_bits : Z) (s : SequenceNumberSet) (offset : Z)
    : outcome E (SequenceNumberSet * Z) :=
  for_each (fun word_index '(s, offset) =>
      w ← read_uint32 content offset order;
      s ← read_word_bits w word_index num_bits s;
      Done (s, add64 offset 4))
    (seqZ 0 word_count) (s, offset).

(** [parse_acknack_message] behind [parse_prefix]. *)
Definition parse_acknack_content (prefix : ParsedPrefix)
    : outcome ReliabilityMessageError AckNackView :=
  let flags := pp_flags prefix in
  let order := pp_byte_order prefix in
  stop_if (negb (Z.land flags (255 - Z.lor endianness_flag final_flag) =? 0))
    unsupported_feature;;
  stop_if (pp_content_size prefix <? acknack_fixed_content_size) invalid_submessage;;
  content ← access (pp_content prefix);
  base ← read_sequence_number content 8 order false;
  match base with
  | None => Stop invalid_sequence_number
  | Some bitmap_base =>
      num_bits ← read_uint32 content 16 order;
      stop_if (maximum_bits <? num_bits) bitmap_bound_exceeded;;
      let word_count := add32 num_bits 31 / 32 in
      let expected_content_size := acknack_fixed_content_size + word_count * 4 in
      stop_if (negb (pp_content_size prefix =? expected_content_size))
        invalid_submessage;;
      reader ← access (mslice content 0 4);
      writer ← access (mslice content 4 4);
      match reset bitmap_base num_bits with
      | None => Stop invalid_sequence_number
      | Some s =>
          '(s, offset) ← read_words content order word_count num_bits s 20;
          count ← read_int32 content offset order;
          Done {| an_header := pp_header prefix; an_reader_id := reader;
                  an_writer_id := writer; an_reader_state := s; an_count := count;
                  an_final_flag := negb (Z.land flags final_flag =? 0) |}
      end
  end.

Definition parse_acknack_body (message : option (list Z)) (message_size : Z)
    : outcome ReliabilityMessageError AckNackView :=
  prefix ← parse_prefix message message_size acknack_submessage_id;
  parse_acknack_content prefix.

Definition parse_acknack_message (message : option (list Z)) (message_size : Z)
    (view : AckNackView) : option (ReliabilityMessageError * AckNackView) :=
  commit rel_none view (parse_acknack_body message message_size).

(** ** The bitmap as a set of offsets *)

(** Membership of [offset], most significant bit of word 0 first. *)
Definition sns_bit (s : SequenceNumberSet) (offset : Z) : bool :=
  match mload (bitmap_ s) (offset / 32) with
  | Some w => Z.testbit w (31 - offset mod 32)
  | None => false
  end.

Record sns_wf (s : SequenceNumberSet) : Prop := {
  sw_length : length (bitmap_ s) = maximum_words;
  sw_words : Forall (fun w => 0 <= w < 2 ^ 32) (bitmap_ s);
  sw_base : 1 <= bitmap_base_ s;
  sw_bits : 0 <= num_bits_ s <= maximum_bits;
  sw_last : bitmap_base_ s + num_bits_ s - 1 <= i64_max;
  sw_clear : forall o, num_bits_ s <= o -> sns_bit s o = false;
}.

Lemma land_bit w k : 0 <= k -> negb (Z.land w (Z.shiftl 1 k) =? 0) = Z.testbit w k.
Proof.
  intros Hk. rewrite Z.shiftl_1_l.
  destruct (Z.testbit w k) eqn:Hw.
  - apply negb_true_iff, Z.eqb_neq. intros Hz.
    assert (Z.testbit (Z.land w (2 ^ k)) k = false) as Hf by (rewrite Hz; apply Z.testbit_0_l).
    rewrite Z.land_spec, Hw, Z.pow2_bits_true in Hf by done. done.
  - apply negb_false_iff, Z.eqb_eq, Z.bits_inj'. intros j Hj.
    rewrite Z.land_spec, Z.testbit_0_l.
    destruct (decide (j = k)) as [->|]; [by rewrite Hw|].
    rewrite Z.pow2_bits_false by done. apply andb_false_r.
Qed.

Lemma div_mod_32 o : 0 <= o < 256 -> 0 <= o / 32 < 8 /\ 0 <= o mod 32 < 32.
Proof.
  intros Ho. split; [|apply Z.mod_pos_bound; lia].
  split; [apply Z.div_pos; lia|apply Z.div_lt_upper_bound; lia].
Qed.

Lemma word_loads s i : sns_wf s -> 0 <= i < 8 -> exists w,
  mload (bitmap_ s) i = Some w /\ 0 <= w < 2 ^ 32.
Proof.
  intros Hs Hi. destruct (proj2 (mload_is_Some (bitmap_ s) i)) as [w Hw].
  { rewrite (sw_length s Hs). unfold maximum_words. lia. }
  exists w. split; [done|]. by eapply (mload_Forall _ _ _ _ (sw_words s Hs)).
Qed.

Lemma test_bit {E} s o :
  sns_wf s -> 0 <= o -> test s o = (Done (sns_bit s o) : outcome E bool).
Proof.
  intros Hs Ho. unfold test. pose proof (sw_bits s Hs) as Hb. unfold maximum_bits in Hb.
  destruct (Z.leb_spec (num_bits_ s) o); [by rewrite sw_clear|].
  destruct (div_mod_32 o) as [Hd Hm]; [lia|]. unfold sns_bit.
  destruct (word_loads s (o / 32) Hs Hd) as (w & -> & _). simpl.
  by rewrite land_bit by lia.
Qed.

Definition same_window (s s' : SequenceNumberSet) : Prop :=
  bitmap_base_ s' = bitmap_base_ s /\ num_bits_ s' = num_bits_ s.

Lemma set_spec s o :
  sns_wf s -> 0 <= o < num_bits_ s ->
  exists s', set s o = Done s' /\ sns_wf s' /\ same_window s s' /\
    forall o', 0 <= o' -> sns_bit s' o' = (o' =? o) || sns_bit s o'.
Proof.
  intros Hs Ho. unfold set. destruct (Z.leb_spec (num_bits_ s) o); [lia|].
  pose proof (sw_bits s Hs) as Hb. unfold maximum_bits in Hb.
  destruct (div_mod_32 o) as [Hd Hm]; [lia|].
  destruct (word_loads s (o / 32) Hs Hd) as (w & Hw & Hwr). rewrite Hw. simpl.
  pose proof (sw_length s Hs) as Hlen. unfold maximum_words in Hlen.
  unfold mstore. destruct (Z.leb_spec 0 (o / 32)), (Z.ltb_spec (o / 32) (zlen (bitmap_ s)));
    try lia. simpl.
  eexists. split; [done|].
  assert (forall o', 0 <= o' ->
    sns_bit {| bitmap_base_ := bitmap_base_ s; num_bits_ := num_bits_ s;
      bitmap_ := <[Z.to_nat (o / 32) :=
        Z.lor w (Z.shiftl 1 (31 - o mod 32))]> (bitmap_ s) |} o'
    = (o' =? o) || sns_bit s o') as Hbit.
  { intros o' Ho'. unfold sns_bit. cbn [bitmap_].
    rewrite mload_insert by (try lia; apply Z.div_pos; lia).
    pose proof (Z.div_mod o 32). pose proof (Z.div_mod o' 32).
    pose proof (Z.mod_pos_bound o' 32).
    destruct (Z.eqb_spec (o' / 32) (o / 32)) as [Heq|Hne].
    - rewrite Heq, Hw, Z.lor_spec, Z.shiftl_1_l, orb_comm. f_equal.
      destruct (Z.eqb_spec o' o) as [->|].
      + by rewrite Z.pow2_bits_true by lia.
      + rewrite Z.pow2_bits_false; [done|lia].
    - destruct (Z.eqb_spec o' o) as [->|]; [done|]. done. }
  split; [|done]. destruct Hs as [W1 W2 W3 W4 W5 W6].
  split; cbn [bitmap_ bitmap_base_ num_bits_]; try done.
  - by rewrite length_insert.
  - apply Forall_insert; [done|]. apply lor_range; [lia|done|].
    rewrite Z.shiftl_1_l. split; [apply Z.pow_nonneg; lia|].
    apply Z.pow_lt_mono_r; lia.
  - intros o' Ho'. rewrite Hbit by lia. rewrite (W6 o') by lia.
    destruct (Z.eqb_spec o' o); [lia|done].
Qed.

Lemma reset_spec base n s :
  0 <= base < 2 ^ 64 -> 0 <= n < 2 ^ 32 ->
  reset base n = Some s <->
  (1 <= base /\ n <= maximum_bits /\ base <= i64_max /\ base + n - 1 <= i64_max) /\
  s = {| bitmap_base_ := base; num_bits_ := n; bitmap_ := replicate maximum_words 0 |}.
Proof.
  intros Hb Hn. unfold reset, valid_sequence_number, maximum_bits, i64_max in *.
  destruct (Z.eqb_spec base 0), (Z.leb_spec base (2 ^ 63 - 1)), (Z.ltb_spec 256 n);
    simpl; try naive_solver lia.
  destruct (Z.eqb_spec n 0) as [->|]; simpl; [naive_solver lia|].
  unfold sub32. rewrite u32_id by lia. rewrite sub64_id by lia.
  destruct (Z.ltb_spec (2 ^ 63 - 1 - (n - 1)) base); simpl; naive_solver lia.
Qed.

Lemma cleared_bit base n o :
  sns_bit {| bitmap_base_ := base; num_bits_ := n;
             bitmap_ := replicate maximum_words 0 |} o = false.
Proof.
  unfold sns_bit. cbn [bitmap_]. destruct (mload _ _) as [w|] eqn:Hw; [|done].
  apply mload_Some in Hw as [_ Hw]. apply lookup_replicate in Hw as [-> _].
  apply Z.testbit_0_l.
Qed.

Lemma reset_wf base n s :
  0 <= base < 2 ^ 64 -> 0 <= n < 2 ^ 32 -> reset base n = Some s ->
  sns_wf s /\ forall o, sns_bit s o = false.
Proof.
  intros Hb Hn ((H1 & H2 & H3 & H4) & ->)%reset_spec; [|done..].
  split; [|intros; apply cleared_bit].
  split; cbn [bitmap_ bitmap_base_ num_bits_]; try done; try lia.
  - repeat constructor; lia.
  - intros. apply cleared_bit.
Qed.

(** Equal windows and equal members make equal bitmaps. *)
Lemma sns_ext s s' :
  sns_wf s -> sns_wf s' -> same_window s s' ->
  (forall o, 0 <= o < 256 -> sns_bit s' o = sns_bit s o) -> s' = s.
Proof.
  intros Hs Hs' [Hbase Hnum] Hbits. destruct s as [b n m], s' as [b' n' m'].
  simpl in *. subst. f_equal. apply (list_eq_same_length _ _ 8);
    [by apply (sw_length _ Hs)|by apply (sw_length _ Hs')|].
  intros i x y Hi Hx Hy. apply Z.bits_inj'. intros k Hk.
  assert (0 <= x < 2 ^ 32) by (by apply (Forall_lookup_1 _ m' i x (sw_words _ Hs'))).
  assert (0 <= y < 2 ^ 32) by (by apply (Forall_lookup_1 _ m i y (sw_words _ Hs))).
  destruct (decide (k < 32)) as [Hk32|Hk32].
  - specialize (Hbits (32 * Z.of_nat i + (31 - k))).
    unfold sns_bit in Hbits. cbn [bitmap_] in Hbits.
    replace ((32 * Z.of_nat i + (31 - k)) / 32) with (Z.of_nat i) in Hbits
      by (apply Z.div_unique with (31 - k); lia).
    replace ((32 * Z.of_nat i + (31 - k)) mod 32) with (31 - k) in Hbits
      by (apply Z.mod_unique with (Z.of_nat i); lia).
    unfold mload in Hbits. destruct (Z.ltb_spec (Z.of_nat i) 0); [lia|].
    rewrite Nat2Z.id, Hx, Hy in Hbits.
    replace (31 - (31 - k)) with k in Hbits by lia. apply Hbits. lia.
  - assert (forall z, 0 <= z < 2 ^ 32 -> Z.testbit z k = false) as Hhigh.
    { intros z Hz. rewrite <- (Z.mod_small z (2 ^ 32)) by done.
      apply Z.mod_pow2_bits_high. lia. }
    by rewrite !Hhigh.
Qed.

(** ** Filling a bitmap from words *)

Definition bit_step {E} (w word_index num_bits bit_index : Z) (s : SequenceNumberSet)
    : outcome E SequenceNumberSet :=
  let bit_offset := add32 (u32 (word_index * 32)) bit_index in
  if (bit_offset <? num_bits) && negb (Z.land w (Z.shiftl 1 (31 - bit_index)) =? 0)
  then set_ignored s bit_offset else Done s.

(** [s'] is [s] with the members selected by [P] added. *)
Definition extended (s s' : SequenceNumberSet) (P : Z -> bool) : Prop :=
  sns_wf s' /\ same_window s s' /\
  forall o, 0 <= o -> sns_bit s' o = sns_bit s o || P o.

Lemma extended_trans s s1 s2 P Q R :
  extended s s1 P -> extended s1 s2 Q ->
  (forall o, 0 <= o -> P o || Q o = R o) -> extended s s2 R.
Proof.
  intros (_ & [Hb1 Hn1] & H1) (Hwf & [Hb2 Hn2] & H2) HR. split_and!; [done| |].
  - split; congruence.
  - intros o Ho. by rewrite H2, H1, <- orb_assoc, HR.
Qed.

Lemma extended_refl s P :
  sns_wf s -> (forall o, 0 <= o -> P o = false) -> extended s s P.
Proof.
  intros Hs HP. split_and!; [done..|]. intros o Ho. by rewrite HP, orb_false_r.
Qed.

Lemma bit_step_spec {E} w wi n i s :
  sns_wf s -> num_bits_ s = n -> 0 <= wi < 8 -> 0 <= i < 32 ->
  exists s', bit_step w wi n i s = (Done s' : outcome E _) /\
    extended s s' (fun o => (o / 32 =? wi) && (o mod 32 =? i) &&
                            ((o <? n) && Z.testbit w (31 - o mod 32))).
Proof.
  intros Hs Hn Hwi Hi. unfold bit_step. rewrite land_bit by lia.
  rewrite (u32_id (wi * 32)), add32_id by lia.
  assert ((wi * 32 + i) / 32 = wi) as Hd by (symmetry; apply Z.div_unique with i; lia).
  assert ((wi * 32 + i) mod 32 = i) as Hm by (symmetry; apply Z.mod_unique with wi; lia).
  assert (forall o, 0 <= o -> (o / 32 =? wi) && (o mod 32 =? i) = (o =? wi * 32 + i))
    as Hsel.
  { intros o Ho. pose proof (Z.div_mod o 32).
    destruct (Z.eqb_spec o (wi * 32 + i)) as [->|Hne].
    - by rewrite Hd, Hm, !Z.eqb_refl.
    - destruct (Z.eqb_spec (o / 32) wi), (Z.eqb_spec (o mod 32) i); try done. lia. }
  destruct (Z.ltb_spec (wi * 32 + i) n) as [Hlt|Hge]; simpl.
  - destruct (Z.testbit w (31 - i)) eqn:Hw.
    + destruct (set_spec s (wi * 32 + i)) as (s' & Hset & Hwf & Hwin & Hbits);
        [done|lia|].
      exists s'. unfold set_ignored. rewrite Hset. split; [done|].
      split_and!; [done..|]. intros o Ho. rewrite Hbits, Hsel, orb_comm by done.
      f_equal. destruct (Z.eqb_spec o (wi * 32 + i)) as [->|]; [|done].
      rewrite Hm, Hw. destruct (Z.ltb_spec (wi * 32 + i) n); [done|lia].
    + exists s. split; [done|]. apply extended_refl; [done|]. intros o Ho.
      rewrite Hsel by done. destruct (Z.eqb_spec o (wi * 32 + i)) as [->|]; [|done].
      rewrite Hm, Hw. apply andb_false_r.
  - exists s. split; [done|]. apply extended_refl; [done|]. intros o Ho.
    rewrite Hsel by done. destruct (Z.eqb_spec o (wi * 32 + i)) as [->|]; [|done].
    destruct (Z.ltb_spec (wi * 32 + i) n); [lia|done].
Qed.

(** A loop whose body extends the set by [P i] extends it by their union. *)
Lemma extended_run {E} (f : Z -> SequenceNumberSet -> outcome E SequenceNumberSet)
    (P : Z -> Z -> bool) n l : forall s,
  (forall i s, i ∈ l -> sns_wf s -> num_bits_ s = n ->
     exists s', f i s = Done s' /\ extended s s' (P i)) ->
  sns_wf s -> num_bits_ s = n ->
  exists s', for_each f l s = Done s' /\
    extended s s' (fun o => existsb (fun i => P i o) l).
Proof.
  induction l as [|i l IH]; intros s Hf Hs Hn; simpl.
  - exists s. split; [done|]. by apply extended_refl.
  - destruct (Hf i s) as (s1 & -> & He1); [set_solver|done..|]. simpl.
    destruct (IH s1) as (s2 & -> & He2).
    + intros j t Hj. apply Hf. set_solver.
    + apply He1.
    + destruct He1 as (_ & [_ ->] & _). done.
    + exists s2. split; [done|]. by eapply extended_trans.
Qed.

Lemma existsb_eq_seq n x : 0 <= x ->
  existsb (fun i => x =? i) (seqZ 0 n) = (x <? n).
Proof.
  intros Hx. apply eq_true_iff_eq. rewrite existsb_exists, Z.ltb_lt. split.
  - intros (i & Hi%list_elem_of_In%elem_of_seqZ & ->%Z.eqb_eq). lia.
  - intros Hlt. exists x. split; [|apply Z.eqb_refl].
    apply list_elem_of_In, elem_of_seqZ. lia.
Qed.

Lemma existsb_factor {A} (f : A -> bool) b c l :
  existsb (fun i => b && f i && c) l = b && existsb f l && c.
Proof.
  induction l as [|i l IH]; simpl; [by rewrite andb_false_r|]. rewrite IH.
  destruct b, c, (f i), (existsb f l); done.
Qed.

Lemma read_word_bits_spec {E} w wi n s :
  sns_wf s -> num_bits_ s = n -> 0 <= wi < 8 ->
  exists s', read_word_bits w wi n s = (Done s' : outcome E _) /\
    extended s s' (fun o => (o / 32 =? wi) && ((o <? n) && Z.testbit w (31 - o mod 32))).
Proof.
  intros Hs Hn Hwi. unfold read_word_bits.
  destruct (extended_run (E:=E) (bit_step w wi n)
    (fun i o => (o / 32 =? wi) && (o mod 32 =? i) &&
                ((o <? n) && Z.testbit w (31 - o mod 32))) n (seqZ 0 32) s)
    as (s' & Hrun & He); [|done..|].
  - intros i t Hi%elem_of_seqZ Ht Htn. apply bit_step_spec; [done..|lia].
  - exists s'. split; [exact Hrun|]. destruct He as (Hwf & Hwin & Hbits).
    split_and!; [done..|]. intros o Ho. rewrite Hbits by done. f_equal.
    pose proof (Z.mod_pos_bound o 32).
    rewrite existsb_factor, existsb_eq_seq by lia.
    destruct (Z.ltb_spec (o mod 32) 32); [|lia]. by rewrite andb_true_r.
Qed.

(** The outer loop, for content whose words at offset 20 are [W]. *)
Lemma read_words_spec {E} content order W n s :
  sns_wf s -> num_bits_ s = n -> (forall o, sns_bit s o = false) ->
  let wc := add32 n 31 / 32 in
  (forall i, 0 <= i < wc ->
     read_uint32 content (20 + 4 * i) order = (Done (W i) : outcome E Z)) ->
  exists s', read_words content order wc n s 20 = (Done (s', 20 + 4 * wc) : outcome E _) /\
    sns_wf s' /\ same_window s s' /\
    forall o, 0 <= o -> sns_bit s' o = (o <? n) && Z.testbit (W (o / 32)) (31 - o mod 32).
Proof.
  intros Hs Hn Hclear wc Hread. pose proof (sw_bits s Hs) as Hb.
  unfold maximum_bits in Hb. rewrite Hn in Hb.
  assert (wc = (n + 31) / 32) as Hwc by (unfold wc; by rewrite add32_id by lia).
  pose proof (Z.div_mod (n + 31) 32). pose proof (Z.mod_pos_bound (n + 31) 32).
  assert (0 <= wc <= 8) as Hwcr by lia.
  assert (forall k : nat, Z.of_nat k <= wc -> exists s',
    read_words content order (Z.of_nat k) n s 20 =
      (Done (s', 20 + 4 * Z.of_nat k) : outcome E _) /\
    extended s s' (fun o => (o / 32 <? Z.of_nat k) &&
      ((o <? n) && Z.testbit (W (o / 32)) (31 - o mod 32)))) as Hrun.
  { unfold read_words. induction k as [|k IH]; intros Hk.
    - exists s. split; [done|]. apply extended_refl; [done|]. intros o Ho.
      pose proof (Z.div_pos o 32). destruct (Z.ltb_spec (o / 32) (Z.of_nat 0)); [lia|done].
    - destruct IH as (s1 & Hl & He); [lia|].
      rewrite seqZ_S, for_each_app, Hl. cbn [mbind outcome_bind for_each].
      rewrite Z.add_0_l, Hread by lia. cbn [mbind outcome_bind].
      destruct (read_word_bits_spec (E:=E) (W (Z.of_nat k)) (Z.of_nat k) n s1)
        as (s2 & -> & He2); [apply He| |lia|].
      { destruct He as (_ & [_ ->] & _). done. }
      cbn [mbind outcome_bind]. rewrite add64_id by lia.
      exists s2. split; [do 2 f_equal; lia|]. eapply extended_trans; [done..|].
      intros o Ho. simpl. destruct (Z.eqb_spec (o / 32) (Z.of_nat k)) as [->|].
      + destruct (Z.ltb_spec (Z.of_nat k) (Z.of_nat k)),
          (Z.ltb_spec (Z.of_nat k) (Z.of_nat (S k))); try lia. done.
      + rewrite orb_false_r. destruct (Z.ltb_spec (o / 32) (Z.of_nat k)),
          (Z.ltb_spec (o / 32) (Z.of_nat (S k))); try lia; done. }
  destruct (Hrun (Z.to_nat wc)) as (s' & Hl & Hwf & Hwin & Hbits); [lia|].
  rewrite Z2Nat.id in * by lia. exists s'. split_and!; [done..|].
  intros o Ho. rewrite Hbits, Hclear by done. simpl.
  destruct (Z.ltb_spec o n); [|by rewrite andb_false_r].
  pose proof (Z.div_mod o 32). pose proof (Z.mod_pos_bound o 32).
  destruct (Z.ltb_spec (o / 32) wc); [done|lia].
Qed.

(** ** What the builders emit *)

#[local] Opaque encode_uint.

Definition sequence_bytes (order : ByteOrder) (sequence_number : Z) : list Z :=
  encode_uint order 4 (high_half sequence_number) ++
  encode_uint order 4 (low_half sequence_number).

Definition message_flags (order : ByteOrder) (final_ liveliness : bool) : Z :=
  Z.lor (Z.lor (if is_little order then endianness_flag else 0)
           (if final_ then final_flag else 0))
    (if liveliness then liveliness_flag else 0).

Definition heartbeat_content (config : HeartbeatConfig) : list Z :=
  let order := submessage_byte_order (hb_header config) in
  hb_reader_id config ++ hb_writer_id config ++
  sequence_bytes order (hb_first config) ++ sequence_bytes order (hb_last config) ++
  encode_uint order 4 (bits_of_i32 (hb_count config)).

Definition words_bytes (order : ByteOrder) (ws : list Z) : list Z :=
  mjoin (encode_uint order 4 <$> ws).

Definition used_words (s : SequenceNumberSet) : list Z :=
  take (Z.to_nat (word_count s)) (bitmap_ s).

Definition acknack_content (config : AckNackConfig) : list Z :=
  let order := submessage_byte_order (an_header config) in
  let s := an_reader_state config in
  an_reader_id config ++ an_writer_id config ++
  sequence_bytes order (bitmap_base_ s) ++ encode_uint order 4 (num_bits_ s) ++
  words_bytes order (used_words s) ++
  encode_uint order 4 (bits_of_i32 (an_count config)).

Definition control_message (header : ReliabilityMessageHeader) (id flags : Z)
    (content : list Z) : list Z :=
  Router.single_message (version header) (vendor_id header) (guid_prefix header)
    {| Router.sub_id := id; Router.sub_flags := flags; Router.sub_content := content |}.

Record header_ok (h : ReliabilityMessageHeader) : Prop := {
  ho_vendor : length (vendor_id h) = 2%nat;
  ho_prefix : length (guid_prefix h) = 12%nat;
  ho_version : supported_version (version h) = true;
  ho_order : supported_byte_order (submessage_byte_order h) = true;
}.

Lemma words_bytes_length order ws : length (words_bytes order ws) = (4 * length ws)%nat.
Proof.
  unfold words_bytes. induction ws as [|w ws IH]; [done|].
  change (mjoin (encode_uint order 4 <$> w :: ws))
    with (encode_uint order 4 w ++ mjoin (encode_uint order 4 <$> ws)).
  rewrite length_app, encode_uint_length, IH. cbn [length]. lia.
Qed.

Lemma message_flags_order order f l :
  supported_byte_order order = true ->
  Router.order_of_flags (message_flags order f l) = order.
Proof. by destruct order, f, l. Qed.

Lemma control_message_eq h id order f l content :
  supported_byte_order order = true ->
  control_message h id (message_flags order f l) content =
  rtps_header_bytes (version h) (vendor_id h) (guid_prefix h) ++
  [id; message_flags order f l] ++ encode_uint order 2 (zlen content) ++ content.
Proof.
  intros Hord. unfold control_message, Router.single_message, Router.encode_message.
  cbn [default from_option fmap option_fmap option_map list_fmap mjoin list_join].
  rewrite !app_nil_r. unfold Router.encode_sub, Router.encode_declared, Router.sub_order.
  cbn [Router.sub_id Router.sub_flags Router.sub_content].
  by rewrite message_flags_order.
Qed.

Lemma write_flags_snoc {E} p r order f l :
  zlen p = 21 -> (1 <= length r)%nat ->
  write_flags (p ++ r) order f l =
  (Done ((p ++ [message_flags order f l]) ++ drop 1 r) : outcome E (list Z)).
Proof.
  intros Hp Hr. unfold write_flags, message_flags. put.
  destruct (is_little order), f, l; cbn [when mbind outcome_bind];
    rewrite ?or_at_last by done; cbn [mbind outcome_bind];
    rewrite ?or_at_last by done; cbn [mbind outcome_bind];
    rewrite ?or_at_last by done; done.
Qed.

Lemma write_sequence_snoc {E} p r at_ n order :
  zlen p = at_ -> (8 <= length r)%nat ->
  write_sequence_number (p ++ r) at_ n order =
  (Done ((p ++ sequence_bytes order n) ++ drop 8 r) : outcome E (list Z)).
Proof.
  intros Hp Hr. unfold write_sequence_number, sequence_bytes.
  do 2 put. by rewrite drop_drop, <- !app_assoc.
Qed.

Lemma write_rtps_header_spec {E} m h :
  length (vendor_id h) = 2%nat -> length (guid_prefix h) = 12%nat ->
  (20 <= length m)%nat ->
  write_rtps_header m h =
  (Done (rtps_header_bytes (version h) (vendor_id h) (guid_prefix h) ++ drop 20 m)
   : outcome E (list Z)).
Proof.
  intros Hv Hg Hm. unfold write_rtps_header, rtps_header_bytes.
  rewrite <- (app_nil_l m). repeat put. rewrite app_nil_l, !drop_drop. f_equal.
  rewrite <- !app_assoc. cbn [app]. do 8 f_equal. f_equal. f_equal.
  cbn [length]. lia.
Qed.

Lemma rtps_header_length v vendor prefix :
  length vendor = 2%nat -> length prefix = 12%nat ->
  length (rtps_header_bytes v vendor prefix) = 20%nat.
Proof. intros. unfold rtps_header_bytes. rewrite !length_app. cbn [length]. lia. Qed.

(** A builder over a caller's buffer of at least [capacity_] bytes. *)
Definition builder_ok (b : ReliabilityMessageBuilder) (m : list Z) : Prop :=
  buffer_ b = Some m /\ 0 <= capacity_ b <= zlen m /\ capacity_ b < 2 ^ 64.

Lemma begin_cases b m header n :
  builder_ok b m -> error_ b = rel_none ->
  length (vendor_id header) = 2%nat -> length (guid_prefix header) = 12%nat ->
  20 <= n ->
  if supported_version (version header) &&
     supported_byte_order (submessage_byte_order header) && (n <=? capacity_ b)
  then begin b header n =
       Done (rtps_header_bytes (version header) (vendor_id header) (guid_prefix header)
             ++ drop 20 m)
  else exists e, e <> rel_none /\
       begin b header n = Stop {| buffer_ := Some m; capacity_ := capacity_ b;
                                  size_ := 0; error_ := e |}.
Proof.
  intros (Hb & Hcap & H64) He Hv Hg Hn. unfold begin, fail_if, fail_state.
  rewrite He, Hb, decide_True by done. cbn [null_with_size stop_if mbind outcome_bind].
  destruct (supported_version _); cbn [andb negb stop_if mbind outcome_bind];
    [|by eexists; split; [|done]].
  destruct (supported_byte_order _); cbn [andb negb stop_if mbind outcome_bind];
    [|by eexists; split; [|done]].
  rewrite Z.ltb_antisym. destruct (Z.leb_spec n (capacity_ b));
    cbn [andb negb stop_if access mbind outcome_bind]; [|by eexists; split; [|done]].
  apply write_rtps_header_spec; [done..|lia].
Qed.

(** What a successful build leaves in the builder. *)
Definition built (b : ReliabilityMessageBuilder) (m l : list Z)
    : ReliabilityMessageBuilder :=
  {| buffer_ := Some (l ++ drop (length l) m); capacity_ := capacity_ b;
     size_ := zlen l; error_ := rel_none |}.

Definition refused (b : ReliabilityMessageBuilder) (m : list Z)
    (r : outcome ReliabilityMessageBuilder ReliabilityMessageBuilder) : Prop :=
  exists e, e <> rel_none /\
    r = Stop {| buffer_ := Some m; capacity_ := capacity_ b; size_ := 0; error_ := e |}.

Record heartbeat_config_ok (config : HeartbeatConfig) : Prop := {
  hc_vendor : length (vendor_id (hb_header config)) = 2%nat;
  hc_prefix : length (guid_prefix (hb_header config)) = 12%nat;
  hc_reader : length (hb_reader_id config) = 4%nat;
  hc_writer : length (hb_writer_id config) = 4%nat;
  hc_first : 0 <= hb_first config < 2 ^ 64;
  hc_last : 0 <= hb_last config < 2 ^ 64;
  hc_count : - 2 ^ 31 <= hb_count config < 2 ^ 31;
}.

Definition header_supported (h : ReliabilityMessageHeader) : bool :=
  supported_version (version h) && supported_byte_order (submessage_byte_order h).

(** A range of sequence numbers a HEARTBEAT may announce; [last = first - 1]
    says that the writer holds nothing. *)
Definition range_ok (first last : Z) : bool :=
  (1 <=? first) && (first <=? i64_max) && (first - 1 <=? last) && (last <=? i64_max).

Definition heartbeat_bytes (config : HeartbeatConfig) : list Z :=
  control_message (hb_header config) heartbeat_submessage_id
    (message_flags (submessage_byte_order (hb_header config)) (hb_final_flag config)
       (hb_liveliness_flag config)) (heartbeat_content config).

Lemma heartbeat_content_length config :
  heartbeat_config_ok config -> length (heartbeat_content config) = 28%nat.
Proof.
  intros []. unfold heartbeat_content, sequence_bytes.
  rewrite !length_app, !encode_uint_length. lia.
Qed.

Lemma heartbeat_bytes_length config :
  heartbeat_config_ok config -> zlen (heartbeat_bytes config) = 52.
Proof.
  intros Hc. unfold heartbeat_bytes, control_message.
  rewrite Router.single_message_length by apply Hc. cbn [Router.sub_content].
  by rewrite heartbeat_content_length.
Qed.

Lemma range_check first last :
  0 <= first < 2 ^ 64 -> 0 <= last < 2 ^ 64 ->
  negb (valid_sequence_number first) || (i64_max <? last) ||
    (last <? sub64 first 1) = negb (range_ok first last).
Proof.
  intros Hf Hl. unfold valid_sequence_number, range_ok, i64_max.
  destruct (Z.eqb_spec first 0) as [->|]; [done|]. rewrite sub64_id by lia.
  destruct (Z.leb_spec first (2 ^ 63 - 1)), (Z.leb_spec 1 first),
    (Z.leb_spec (first - 1) last), (Z.leb_spec last (2 ^ 63 - 1)),
    (Z.ltb_spec (2 ^ 63 - 1) last), (Z.ltb_spec last (first - 1)); simpl; try done; lia.
Qed.

Lemma build_heartbeat_cases b m config :
  builder_ok b m -> heartbeat_config_ok config ->
  if range_ok (hb_first config) (hb_last config) && header_supported (hb_header config)
     && (52 <=? capacity_ b)
  then build_heartbeat b config = Done (built b m (heartbeat_bytes config))
  else refused b m (build_heartbeat b config).
Proof.
  intros Hb Hc. unfold build_heartbeat, refused. rewrite range_check by apply Hc.
  pose proof (heartbeat_bytes_length config Hc) as Hlen.
  pose proof (heartbeat_content_length config Hc) as Hcl.
  destruct (range_ok _ _); cbn [andb negb fail_if stop_if mbind outcome_bind];
    [|destruct Hb as (Hb & _); by eexists; rewrite <- Hb; split; [|done]].
  change (capacity_ b) with (capacity_ (reset_builder b)) at 1.
  pose proof (begin_cases (reset_builder b) m (hb_header config) heartbeat_message_size
    Hb eq_refl (hc_vendor _ Hc) (hc_prefix _ Hc) ltac:(done)) as Hbegin.
  change heartbeat_message_size with 52 in *. fold (header_supported (hb_header config)) in Hbegin.
  destruct (header_supported (hb_header config) && _) eqn:Hok; cycle 1.
  { destruct Hbegin as (e & He & ->). by exists e. }
  rewrite Hbegin. cbn [mbind outcome_bind].
  apply andb_true_iff in Hok as [Hh Hcap%Z.leb_le].
  apply andb_true_iff in Hh as [_ Hord].
  destruct Hb as (_ & Hm & _). cbn [capacity_ reset_builder] in Hcap.
  unfold built, heartbeat_bytes in *. rewrite control_message_eq in * by done.
  pose proof (rtps_header_length (version (hb_header config)) _ _ (hc_vendor _ Hc)
    (hc_prefix _ Hc)) as Hhl.
  destruct Hc as [C1 C2 C3 C4 C5 C6 C7].
  set (hdr := rtps_header_bytes _ _ _) in *. clearbody hdr.
  set (order := submessage_byte_order (hb_header config)) in *.
  change (u16 heartbeat_content_size) with 28. unfold write_int32.
  put. rewrite write_flags_snoc by put_len. cbn [mbind outcome_bind]. do 3 put.
  do 2 (rewrite write_sequence_snoc by (unfold sequence_bytes; put_len);
        cbn [mbind outcome_bind]).
  rewrite write_uint32_snoc by (unfold sequence_bytes; put_len).
  cbn [mbind outcome_bind]. unfold finish. cbn [capacity_ error_ reset_builder].
  rewrite Hlen, Hcl, !drop_drop. do 3 f_equal. apply built_list.
  - unfold heartbeat_content. fold order. by rewrite <- !app_assoc.
  - rewrite !length_app, encode_uint_length, Hcl. cbn [length]. lia.
Qed.

(** ** HEARTBEAT round trip *)

Lemma sequence_bytes_length order n : length (sequence_bytes order n) = 8%nat.
Proof. unfold sequence_bytes. by rewrite length_app, !encode_uint_length. Qed.

Lemma read_sequence_encode {E} p r at_ n order allow_zero :
  zlen p = at_ -> 0 <= n <= i64_max -> (allow_zero = false -> n <> 0) ->
  read_sequence_number (p ++ sequence_bytes order n ++ r) at_ order allow_zero =
  (Done (Some n) : outcome E _).
Proof.
  intros Hp Hn Hz. unfold read_sequence_number, sequence_bytes, i64_max in *.
  pose proof (halves_range n) as [Hh Hl]. pose proof (high_half_small n Hn).
  rewrite <- !app_assoc, (read_uint32_encode p _ at_) by done.
  cbn [mbind outcome_bind].
  unfold i32_of_bits, signed. change (2 ^ (32 - 1)) with (2 ^ 31).
  destruct (Z.ltb_spec (high_half n) (2 ^ 31)); [|lia].
  destruct (Z.ltb_spec (high_half n) 0); [lia|].
  rewrite (app_assoc p), read_uint32_encode by (try put_len; done).
  cbn [mbind outcome_bind]. rewrite halves_join by lia.
  destruct (Z.ltb_spec (2 ^ 63 - 1) n); [lia|]. rewrite orb_false_r.
  destruct allow_zero; [done|]. destruct (Z.eqb_spec n 0); [by destruct Hz|done].
Qed.

Lemma read_int32_encode {E} p r at_ v order :
  zlen p = at_ -> - 2 ^ 31 <= v < 2 ^ 31 ->
  read_int32 (p ++ encode_uint order 4 (bits_of_i32 v) ++ r) at_ order =
  (Done v : outcome E Z).
Proof.
  intros Hp Hv. unfold read_int32.
  rewrite read_uint32_encode by (done || apply bits_of_i32_range).
  cbn [mbind outcome_bind]. by rewrite i32_bits_roundtrip.
Qed.

Lemma heartbeat_fields {E} config :
  heartbeat_config_ok config ->
  range_ok (hb_first config) (hb_last config) = true ->
  let c := heartbeat_content config in
  let order := submessage_byte_order (hb_header config) in
  mslice c 0 4 = Some (hb_reader_id config) /\
  mslice c 4 4 = Some (hb_writer_id config) /\
  read_sequence_number c 8 order false = (Done (Some (hb_first config)) : outcome E _) /\
  read_sequence_number c 16 order true = (Done (Some (hb_last config)) : outcome E _) /\
  read_int32 c 24 order = (Done (hb_count config) : outcome E _).
Proof.
  intros [C1 C2 C3 C4 C5 C6 C7] Hr c order. unfold range_ok in Hr.
  rewrite !andb_true_iff, !Z.leb_le in Hr.
  unfold c, heartbeat_content. fold order. split_and!.
  - apply (mslice_app_exact []); [done|lia].
  - apply mslice_app_exact; put_len.
  - rewrite app_assoc. apply read_sequence_encode; [put_len|lia|lia].
  - do 2 rewrite app_assoc. apply read_sequence_encode; [|lia|done].
    rewrite !length_app, sequence_bytes_length. lia.
  - rewrite <- (app_nil_r (encode_uint order 4 (bits_of_i32 (hb_count config)))).
    do 3 rewrite app_assoc. apply read_int32_encode; [|done].
    rewrite !length_app, !sequence_bytes_length. lia.
Qed.

Lemma control_routed h id order f l content :
  header_ok h -> submessage_byte_order h = order ->
  Router.is_info id = false -> 0 < zlen content <= u16_max ->
  let m := control_message h id (message_flags order f l) content in
  parse_prefix (Some m) (zlen m) id =
  Done {| pp_header := h; pp_byte_order := order; pp_flags := message_flags order f l;
          pp_content_size := zlen content; pp_content := Some content |}.
Proof.
  intros [Hv Hg Hver Hord] <- Hinfo Hlen m. unfold parse_prefix.
  cbn [null_with_size stop_if mbind outcome_bind].
  unfold Router.find_submessage. rewrite checked_commit by apply Router.find_body_error.
  unfold m, control_message.
  pose proof (Router.find_single (version h) (vendor_id h) (guid_prefix h)
    {| Router.sub_id := id;
       Router.sub_flags := message_flags (submessage_byte_order h) f l;
       Router.sub_content := content |}) as Hfind.
  cbn [Router.sub_id Router.sub_content] in Hfind. rewrite Hfind by done.
  cbn [map_stop mbind outcome_bind]. unfold prefix_of, Router.sub_view, Router.sub_order.
  cbn. rewrite message_flags_order by done. by destruct h.
Qed.

Lemma heartbeat_parses config :
  heartbeat_config_ok config -> range_ok (hb_first config) (hb_last config) = true ->
  header_supported (hb_header config) = true ->
  parse_heartbeat_body (Some (heartbeat_bytes config)) (zlen (heartbeat_bytes config)) =
  Done config.
Proof.
  intros Hc Hr Hh.
  apply andb_true_iff in Hh as [Hver Hord].
  destruct (heartbeat_fields (E:=ReliabilityMessageError) config Hc Hr)
    as (F0 & F4 & F8 & F16 & F24).
  pose proof (heartbeat_content_length config Hc) as Hcl.
  unfold parse_heartbeat_body, heartbeat_bytes.
  rewrite control_routed; [|split; (done || apply Hc)|done|done|rewrite Hcl; done].
  cbn [mbind outcome_bind]. unfold parse_heartbeat_content.
  cbn [pp_flags pp_byte_order pp_content_size pp_content pp_header].
  set (order := submessage_byte_order (hb_header config)) in *.
  set (fl := message_flags order (hb_final_flag config) (hb_liveliness_flag config)).
  assert ((Z.land fl group_info_flag =? 0) = true /\
    (Z.land fl (255 - Z.lor (Z.lor endianness_flag final_flag) liveliness_flag) =? 0)
      = true /\
    negb (Z.land fl final_flag =? 0) = hb_final_flag config /\
    negb (Z.land fl liveliness_flag =? 0) = hb_liveliness_flag config)
    as (-> & -> & -> & ->).
  { unfold fl. by destruct order, (hb_final_flag config), (hb_liveliness_flag config). }
  rewrite Hcl. change (Z.of_nat 28 =? heartbeat_content_size) with true.
  cbn [negb stop_if access mbind outcome_bind].
  rewrite F0, F4. cbn [access mbind outcome_bind].
  rewrite F8. cbn [mbind outcome_bind]. rewrite F16. cbn [mbind outcome_bind].
  unfold range_ok in Hr. rewrite !andb_true_iff, !Z.leb_le in Hr. unfold i64_max in Hr.
  rewrite sub64_id by lia.
  destruct (Z.ltb_spec (hb_last config) (hb_first config - 1)); [lia|].
  cbn [stop_if mbind outcome_bind]. rewrite F24. by destruct config.
Qed.

(** HEARTBEAT messages round-trip: whenever [build_heartbeat] succeeds, the
    bytes it produced parse back to the header, entity ids, sequence-number
    range, count and flags it was given; it succeeds exactly for a supported
    header, a valid range and a capacity of 52 bytes, and otherwise leaves the
    buffer alone. *)
Theorem heartbeat_roundtrip b m config view :
  builder_ok b m -> heartbeat_config_ok config ->
  if range_ok (hb_first config) (hb_last config) && header_supported (hb_header config)
     && (52 <=? capacity_ b)
  then build_heartbeat b config = Done (built b m (heartbeat_bytes config)) /\
       parse_heartbeat_message (Some (heartbeat_bytes config))
         (zlen (heartbeat_bytes config)) view = Some (rel_none, config)
  else refused b m (build_heartbeat b config).
Proof.
  intros Hb Hc. pose proof (build_heartbeat_cases b m config Hb Hc) as Hcases.
  destruct (range_ok _ _) eqn:Hr; [|done].
  destruct (header_supported (hb_header config)) eqn:Hh; [|done].
  destruct (52 <=? capacity_ b); [|done]. split; [exact Hcases|].
  unfold parse_heartbeat_message. by rewrite heartbeat_parses.
Qed.

Definition sample_header (order : ByteOrder) : ReliabilityMessageHeader :=
  {| version := ProtocolVersion_default; vendor_id := [1; 2];
     guid_prefix := replicate 12 3; submessage_byte_order := order |}.

Definition sample_heartbeat : HeartbeatConfig :=
  {| hb_header := sample_header little_endian; hb_reader_id := [0; 0; 0; 4];
     hb_writer_id := [0; 0; 0; 3]; hb_first := 5; hb_last := 4; hb_count := -7;
     hb_final_flag := true; hb_liveliness_flag := false |}.

Lemma heartbeat_roundtrip_witness :
  build_heartbeat (ReliabilityMessageBuilder_new (Some (replicate 60 0)) 60)
    sample_heartbeat =
  Done (built (ReliabilityMessageBuilder_new (Some (replicate 60 0)) 60)
    (replicate 60 0) (heartbeat_bytes sample_heartbeat)) /\
  parse_heartbeat_message (Some (heartbeat_bytes sample_heartbeat))
    (zlen (heartbeat_bytes sample_heartbeat)) sample_heartbeat =
  Some (rel_none, sample_heartbeat).
Proof.
  apply (heartbeat_roundtrip
    (ReliabilityMessageBuilder_new (Some (replicate 60 0)) 60) (replicate 60 0)
    sample_heartbeat sample_heartbeat); [done|by split].
Defined.

(** ** ACKNACK round trip *)

Lemma word_count_range s : sns_wf s ->
  word_count s = (num_bits_ s + 31) / 32 /\ 0 <= word_count s <= 8 /\
  num_bits_ s <= 32 * word_count s.
Proof.
  intros Hs. pose proof (sw_bits s Hs) as Hb. unfold maximum_bits in Hb.
  unfold word_count. rewrite add32_id by lia.
  pose proof (Z.div_mod (num_bits_ s + 31) 32).
  pose proof (Z.mod_pos_bound (num_bits_ s + 31) 32). lia.
Qed.

Lemma used_words_length s : sns_wf s -> zlen (used_words s) = word_count s.
Proof.
  intros Hs. pose proof (word_count_range s Hs). pose proof (sw_length s Hs) as Hl.
  unfold maximum_words in Hl. unfold used_words. rewrite length_take. lia.
Qed.

Lemma words_bytes_app order ws ws' :
  words_bytes order (ws ++ ws') = words_bytes order ws ++ words_bytes order ws'.
Proof.
  unfold words_bytes. rewrite fmap_app.
  induction (encode_uint order 4 <$> ws) as [|x l IH]; [done|].
  cbn [app mjoin list_join]. rewrite <- app_assoc. f_equal. exact IH.
Qed.

Lemma words_bytes_one order w : words_bytes order [w] = encode_uint order 4 w.
Proof. apply app_nil_r. Qed.

Lemma write_words_snoc {E} s p r at_ order :
  sns_wf s -> zlen p = at_ -> 0 <= at_ <= 2 ^ 32 -> 4 * word_count s <= zlen r ->
  let l := words_bytes order (used_words s) in
  write_words (p ++ r) s at_ order =
  (Done ((p ++ l) ++ drop (length l) r, at_ + zlen l) : outcome E _).
Proof.
  intros Hs Hp Hat Hr l. pose proof (word_count_range s Hs) as (_ & Hwc & _).
  pose proof (sw_length s Hs) as Hl. unfold maximum_words in Hl.
  assert (forall k : nat, Z.of_nat k <= word_count s ->
    let l := words_bytes order (take k (bitmap_ s)) in
    for_each (fun index '(m, offset) =>
      w ← word s index; m ← write_uint32 m offset w order; Done (m, add64 offset 4))
      (seqZ 0 (Z.of_nat k)) (p ++ r, at_) =
    (Done ((p ++ l) ++ drop (length l) r, at_ + zlen l) : outcome E _)) as Hrun.
  { induction k as [|k IH]; intros Hk l'.
    - cbn. by rewrite app_nil_r, drop_0, Z.add_0_r.
    - rewrite seqZ_S, for_each_app, IH by lia. cbn [mbind outcome_bind for_each].
      destruct (word_loads s (Z.of_nat k) Hs) as (w & Hw & _); [lia|].
      unfold word. rewrite Z.add_0_l.
      destruct (Z.ltb_spec (Z.of_nat k) (word_count s)); [|lia].
      rewrite Hw. cbn [access mbind outcome_bind].
      assert (l' = words_bytes order (take k (bitmap_ s)) ++ encode_uint order 4 w) as ->.
      { unfold l'. apply mload_Some in Hw as [_ Hw]. rewrite Nat2Z.id in Hw.
        rewrite (take_S_r _ _ w) by done. by rewrite words_bytes_app, words_bytes_one. }
      assert (length (words_bytes order (take k (bitmap_ s))) = (4 * k)%nat) as Hwl
        by (rewrite words_bytes_length, length_take; lia).
      rewrite write_uint32_snoc by (rewrite ?length_app, ?length_drop; lia).
      cbn [mbind outcome_bind]. rewrite add64_id by lia.
      rewrite !length_app, encode_uint_length, drop_drop, <- !app_assoc.
      do 2 f_equal. lia. }
  specialize (Hrun (Z.to_nat (word_count s))). rewrite Z2Nat.id in Hrun by lia.
  apply Hrun. lia.
Qed.

Record acknack_config_ok (config : AckNackConfig) : Prop := {
  ac_vendor : length (vendor_id (an_header config)) = 2%nat;
  ac_prefix : length (guid_prefix (an_header config)) = 12%nat;
  ac_reader : length (an_reader_id config) = 4%nat;
  ac_writer : length (an_writer_id config) = 4%nat;
  ac_state : sns_wf (an_reader_state config);
  ac_base : bitmap_base_ (an_reader_state config) <= i64_max;
  ac_count : - 2 ^ 31 <= an_count config < 2 ^ 31;
}.

Definition acknack_bytes (config : AckNackConfig) : list Z :=
  control_message (an_header config) acknack_submessage_id
    (message_flags (submessage_byte_order (an_header config)) (an_final_flag config)
       false) (acknack_content config).

Lemma acknack_content_length config :
  acknack_config_ok config ->
  zlen (acknack_content config) = 24 + 4 * word_count (an_reader_state config).
Proof.
  intros [C1 C2 C3 C4 C5 C6 C7]. pose proof (used_words_length _ C5).
  unfold acknack_content. rewrite !length_app, sequence_bytes_length,
    words_bytes_length, !encode_uint_length. lia.
Qed.

Lemma acknack_bytes_length config :
  acknack_config_ok config ->
  zlen (acknack_bytes config) = 48 + 4 * word_count (an_reader_state config).
Proof.
  intros Hc. unfold acknack_bytes, control_message.
  rewrite Router.single_message_length by apply Hc. cbn [Router.sub_content].
  rewrite acknack_content_length by done. lia.
Qed.

Lemma build_acknack_cases b m config :
  builder_ok b m -> acknack_config_ok config ->
  if header_supported (an_header config) &&
     (48 + 4 * word_count (an_reader_state config) <=? capacity_ b)
  then build_acknack b config = Done (built b m (acknack_bytes config))
  else refused b m (build_acknack b config).
Proof.
  intros Hb Hc. unfold build_acknack, refused.
  pose proof (acknack_bytes_length config Hc) as Hlen.
  pose proof (acknack_content_length config Hc) as Hcl.
  pose proof (ac_state _ Hc) as Hs. pose proof (ac_base _ Hc) as Hbase.
  pose proof (word_count_range _ Hs) as (_ & Hwc & _).
  pose proof (sw_base _ Hs). pose proof (sw_bits _ Hs) as Hbits.
  unfold bitmap_base, num_bits, valid_sequence_number.
  destruct (Z.eqb_spec (bitmap_base_ (an_reader_state config)) 0); [lia|].
  destruct (Z.leb_spec (bitmap_base_ (an_reader_state config)) i64_max); [|lia].
  destruct (Z.ltb_spec maximum_bits (num_bits_ (an_reader_state config))); [lia|].
  cbn [andb negb fail_if stop_if mbind outcome_bind].
  change (capacity_ b) with (capacity_ (reset_builder b)) at 1.
  set (wc := word_count (an_reader_state config)) in *.
  replace (rtps_header_size + submessage_header_size +
    (acknack_fixed_content_size + wc * 4)) with (48 + 4 * wc) by
    (unfold rtps_header_size, submessage_header_size, acknack_fixed_content_size; lia).
  pose proof (begin_cases (reset_builder b) m (an_header config) (48 + 4 * wc)
    Hb eq_refl (ac_vendor _ Hc) (ac_prefix _ Hc) ltac:(lia)) as Hbegin.
  fold (header_supported (an_header config)) in Hbegin.
  destruct (header_supported (an_header config) && _) eqn:Hok; cycle 1.
  { destruct Hbegin as (e & He & ->). by exists e. }
  rewrite Hbegin. cbn [mbind outcome_bind].
  apply andb_true_iff in Hok as [Hh Hcap%Z.leb_le].
  apply andb_true_iff in Hh as [_ Hord].
  destruct Hb as (_ & Hm & _). cbn [capacity_ reset_builder] in Hcap.
  unfold built, acknack_bytes in *. rewrite control_message_eq in * by done.
  pose proof (rtps_header_length (version (an_header config)) _ _ (ac_vendor _ Hc)
    (ac_prefix _ Hc)) as Hhl.
  destruct Hc as [C1 C2 C3 C4 C5 C6 C7].
  set (hdr := rtps_header_bytes _ _ _) in *. clearbody hdr.
  set (order := submessage_byte_order (an_header config)) in *.
  unfold acknack_fixed_content_size. rewrite u16_id by lia. unfold write_int32.
  put. rewrite write_flags_snoc by put_len. cbn [mbind outcome_bind]. do 3 put.
  rewrite write_sequence_snoc by put_len. cbn [mbind outcome_bind].
  rewrite write_uint32_snoc by (unfold sequence_bytes; put_len).
  cbn [mbind outcome_bind].
  pose proof (used_words_length _ Hs) as Hul. fold wc in Hul.
  pose proof (words_bytes_length order (used_words (an_reader_state config))) as Hwl.
  rewrite write_words_snoc by first [done | lia | fold wc; unfold sequence_bytes; put_len].
  cbn [mbind outcome_bind].
  rewrite write_uint32_snoc by (unfold sequence_bytes; put_len).
  cbn [mbind outcome_bind]. unfold finish. cbn [capacity_ error_ reset_builder].
  rewrite Hlen, Hcl, !drop_drop. do 3 f_equal. apply built_list.
  - unfold acknack_content. fold order. by rewrite (Z.mul_comm wc 4), <- !app_assoc.
  - rewrite !length_app, encode_uint_length. cbn [length]. lia.
Qed.

Lemma words_read {E} p r s order i :
  sns_wf s -> 0 <= i < word_count s ->
  exists w, mload (bitmap_ s) i = Some w /\
    read_uint32 (p ++ words_bytes order (used_words s) ++ r) (zlen p + 4 * i) order =
    (Done w : outcome E Z).
Proof.
  intros Hs Hi. pose proof (word_count_range s Hs) as (_ & Hwc & _).
  pose proof (sw_length s Hs) as Hl. unfold maximum_words in Hl.
  destruct (word_loads s i Hs) as (w & Hw & Hwr); [lia|]. exists w. split; [done|].
  apply mload_Some in Hw as [_ Hw].
  assert (used_words s !! Z.to_nat i = Some w) as Hu
    by (unfold used_words; rewrite lookup_take_lt by lia; done).
  rewrite <- (take_drop_middle (used_words s) (Z.to_nat i) w) by done.
  change (w :: drop (S (Z.to_nat i)) (used_words s))
    with ([w] ++ drop (S (Z.to_nat i)) (used_words s)).
  rewrite !words_bytes_app, words_bytes_one, <- !app_assoc, (app_assoc p).
  apply read_uint32_encode; [|done].
  rewrite length_app, words_bytes_length, length_take.
  apply lookup_lt_Some in Hu. lia.
Qed.

Lemma acknack_fields {E} config :
  acknack_config_ok config ->
  let c := acknack_content config in
  let order := submessage_byte_order (an_header config) in
  let s := an_reader_state config in
  mslice c 0 4 = Some (an_reader_id config) /\
  mslice c 4 4 = Some (an_writer_id config) /\
  read_sequence_number c 8 order false = (Done (Some (bitmap_base_ s)) : outcome E _) /\
  read_uint32 c 16 order = (Done (num_bits_ s) : outcome E _) /\
  (forall i, 0 <= i < word_count s -> exists w, mload (bitmap_ s) i = Some w /\
     read_uint32 c (20 + 4 * i) order = (Done w : outcome E _)) /\
  read_int32 c (20 + 4 * word_count s) order = (Done (an_count config) : outcome E _).
Proof.
  intros [C1 C2 C3 C4 C5 C6 C7] c order s. fold s in C5, C6.
  pose proof (sw_base _ C5) as H1. pose proof (sw_bits _ C5) as Hb.
  unfold maximum_bits in Hb. unfold c, acknack_content. fold order s. split_and!.
  - apply (mslice_app_exact []); [done|lia].
  - apply mslice_app_exact; put_len.
  - rewrite app_assoc. apply read_sequence_encode; [put_len|lia|lia].
  - do 2 rewrite app_assoc. apply read_uint32_encode; [|lia].
    rewrite !length_app, sequence_bytes_length. lia.
  - intros i Hi. do 3 rewrite app_assoc.
    destruct (words_read (E:=E) (((an_reader_id config ++ an_writer_id config) ++
      sequence_bytes order (bitmap_base_ s)) ++ encode_uint order 4 (num_bits_ s))
      (encode_uint order 4 (bits_of_i32 (an_count config))) s order i C5 Hi)
      as (w & Hw & Hread).
    exists w. split; [done|]. rewrite <- Hread. f_equal.
    rewrite !length_app, sequence_bytes_length, encode_uint_length. lia.
  - pose proof (used_words_length s C5).
    rewrite <- (app_nil_r (encode_uint order 4 (bits_of_i32 (an_count config)))).
    do 4 rewrite app_assoc. apply read_int32_encode; [|done].
    rewrite !length_app, sequence_bytes_length, words_bytes_length, encode_uint_length.
    lia.
Qed.

Lemma acknack_parses config :
  acknack_config_ok config -> header_supported (an_header config) = true ->
  parse_acknack_body (Some (acknack_bytes config)) (zlen (acknack_bytes config)) =
  Done config.
Proof.
  intros Hc Hh. apply andb_true_iff in Hh as [Hver Hord].
  destruct (acknack_fields (E:=ReliabilityMessageError) config Hc)
    as (F0 & F4 & F8 & F16 & FW & FC).
  pose proof (acknack_content_length config Hc) as Hcl.
  pose proof (ac_state _ Hc) as Hs. pose proof (ac_base _ Hc) as Hbase.
  pose proof (word_count_range _ Hs) as (_ & Hwc & _).
  pose proof (sw_base _ Hs). pose proof (sw_bits _ Hs) as Hbits.
  pose proof (sw_last _ Hs). unfold i64_max, maximum_bits in *.
  unfold parse_acknack_body, acknack_bytes.
  rewrite control_routed; [|split; (done || apply Hc)|done|done|unfold u16_max; lia].
  cbn [mbind outcome_bind]. unfold parse_acknack_content.
  cbn [pp_flags pp_byte_order pp_content_size pp_content pp_header].
  set (order := submessage_byte_order (an_header config)) in *.
  set (s := an_reader_state config) in *.
  set (fl := message_flags order (an_final_flag config) false).
  assert ((Z.land fl (255 - Z.lor endianness_flag final_flag) =? 0) = true /\
    negb (Z.land fl final_flag =? 0) = an_final_flag config) as (-> & ->).
  { unfold fl. by destruct order, (an_final_flag config). }
  rewrite Hcl. unfold acknack_fixed_content_size.
  destruct (Z.ltb_spec (24 + 4 * word_count s) 24); [lia|].
  cbn [negb stop_if access mbind outcome_bind]. rewrite F8. cbn [mbind outcome_bind].
  rewrite F16. cbn [mbind outcome_bind].
  fold (word_count s). unfold maximum_bits.
  destruct (Z.ltb_spec 256 (num_bits_ s)); [lia|].
  destruct (Z.eqb_spec (24 + 4 * word_count s) (24 + word_count s * 4)); [|lia].
  cbn [negb stop_if mbind outcome_bind]. rewrite F0, F4. cbn [access mbind outcome_bind].
  set (s0 := {| bitmap_base_ := bitmap_base_ s; num_bits_ := num_bits_ s;
                bitmap_ := replicate maximum_words 0 |}).
  assert (reset (bitmap_base_ s) (num_bits_ s) = Some s0) as Hreset.
  { apply reset_spec; [lia..|]. unfold maximum_bits, i64_max.
    split_and!; [lia..|done]. }
  rewrite Hreset. apply reset_wf in Hreset as [Hwf0 Hclear]; [|lia..].
  destruct (read_words_spec (E:=ReliabilityMessageError) (acknack_content config) order
    (fun i => default 0 (mload (bitmap_ s) i)) (num_bits_ s) s0)
    as (s' & Hrun & Hwf' & Hwin & Hs'); [done..| |].
  { intros i Hi. destruct (FW i Hi) as (w & -> & Hr). exact Hr. }
  fold (word_count s) in Hrun. rewrite Hrun. cbn [mbind outcome_bind].
  assert (s' = s) as ->.
  { apply sns_ext; [done|done|exact Hwin|]. intros o Ho. rewrite Hs' by lia.
    destruct (Z.ltb_spec o (num_bits_ s)); [|by rewrite sw_clear].
    unfold sns_bit. destruct (div_mod_32 o) as [Hd _]; [lia|].
    by destruct (word_loads s (o / 32) Hs Hd) as (w & -> & _). }
  rewrite FC. by destruct config.
Qed.

(** ACKNACK messages round-trip: whenever [build_acknack] succeeds, the
    bytes it produced parse back to the header, entity ids, bitmap base, number
    of bits, exactly the same set of requested offsets, count and final flag; it
    succeeds exactly for a supported header and a sufficient capacity. *)
Theorem acknack_roundtrip b m config view :
  builder_ok b m -> acknack_config_ok config ->
  if header_supported (an_header config) &&
     (48 + 4 * word_count (an_reader_state config) <=? capacity_ b)
  then build_acknack b config = Done (built b m (acknack_bytes config)) /\
       parse_acknack_message (Some (acknack_bytes config)) (zlen (acknack_bytes config))
         view = Some (rel_none, config)
  else refused b m (build_acknack b config).
Proof.
  intros Hb Hc. pose proof (build_acknack_cases b m config Hb Hc) as Hcases.
  destruct (header_supported (an_header config)) eqn:Hh; [|done].
  destruct (48 + 4 * word_count (an_reader_state config) <=? capacity_ b); [|done].
  split; [exact Hcases|]. unfold parse_acknack_message. by rewrite acknack_parses.
Qed.

(** Offsets 0 and 33 of a window of 40 sequence numbers. *)
Definition sample_acknack : AckNackConfig :=
  {| an_header := sample_header big_endian; an_reader_id := [0; 0; 0; 4];
     an_writer_id := [0; 0; 0; 3];
     an_reader_state :=
       {| bitmap_base_ := 10; num_bits_ := 40;
          bitmap_ := [2147483648; 1073741824; 0; 0; 0; 0; 0; 0] |};
     an_count := 3; an_final_flag := false |}.

Lemma sample_acknack_state : sns_wf (an_reader_state sample_acknack).
Proof.
  destruct (reset_wf 10 40 {| bitmap_base_ := 10; num_bits_ := 40;
    bitmap_ := replicate maximum_words 0 |}) as [Hwf _]; [lia..|done|].
  apply (set_spec _ 0) in Hwf as (s1 & Hs1 & Hwf & Hwin & _); [|simpl; lia].
  vm_compute in Hs1. injection Hs1 as <-.
  apply (set_spec _ 33) in Hwf as (s2 & Hs2 & Hwf & _ & _); [|simpl; lia].
  vm_compute in Hs2. injection Hs2 as <-. exact Hwf.
Qed.

Lemma acknack_roundtrip_witness :
  build_acknack (ReliabilityMessageBuilder_new (Some (replicate 60 0)) 60)
    sample_acknack =
  Done (built (ReliabilityMessageBuilder_new (Some (replicate 60 0)) 60)
    (replicate 60 0) (acknack_bytes sample_acknack)) /\
  parse_acknack_message (Some (acknack_bytes sample_acknack))
    (zlen (acknack_bytes sample_acknack)) sample_acknack =
  Some (rel_none, sample_acknack).
Proof.
  apply (acknack_roundtrip
    (ReliabilityMessageBuilder_new (Some (replicate 60 0)) 60) (replicate 60 0)
    sample_acknack sample_acknack); [done|].
  split; try done. apply sample_acknack_state.
Defined.

(** ** The bitmap as a bounded set *)

Lemma set_ignored_spec {E} s o :
  sns_wf s -> 0 <= o ->
  exists s', set_ignored s o = (Done s' : outcome E _) /\
    extended s s' (fun x => (x =? o) && (x <? num_bits_ s)).
Proof.
  intros Hs Ho. unfold set_ignored. destruct (Z.ltb_spec o (num_bits_ s)) as [Hlt|Hge].
  - destruct (set_spec s o Hs) as (s' & -> & Hwf & Hwin & Hbits); [lia|].
    exists s'. split; [done|]. split_and!; [done..|]. intros x Hx. rewrite Hbits by done.
    rewrite orb_comm. f_equal. destruct (Z.eqb_spec x o) as [->|]; [|done].
    destruct (Z.ltb_spec o (num_bits_ s)); [done|lia].
  - exists s. unfold set. destruct (Z.leb_spec (num_bits_ s) o); [|lia]. split; [done|].
    apply extended_refl; [done|]. intros x Hx. destruct (Z.eqb_spec x o) as [->|]; [|done].
    destruct (Z.ltb_spec o (num_bits_ s)); [lia|done].
Qed.

(** The bitmap implements a set of offsets bounded by its window: after any
    successful [reset] and any sequence of [set] calls, [test] answers true
    exactly for the offsets that were set and lie below [num_bits]; no call
    touches memory outside the eight words. *)
Theorem bitmap_members base n s offsets o :
  0 <= base < 2 ^ 64 -> 0 <= n < 2 ^ 32 -> reset base n = Some s ->
  Forall (fun i => 0 <= i) offsets -> 0 <= o ->
  exists s', for_each (fun i s => set_ignored s i) offsets s = (Done s' : outcome unit _) /\
    test s' o = (Done (existsb (fun i => o =? i) offsets && (o <? n)) : outcome unit _).
Proof.
  intros Hb Hn Hr Hoff Ho. assert (num_bits_ s = n) as Hns
    by (apply reset_spec in Hr as [_ ->]; done).
  apply reset_wf in Hr as [Hwf Hclear]; [|done..].
  destruct (extended_run (E:=unit) (fun i s => set_ignored s i)
    (fun i x => true && (x =? i) && (x <? n)) n offsets s) as (s' & Hrun & He);
    [|done..|].
  - intros i t Hi Ht <-. apply set_ignored_spec; [done|].
    by apply (Forall_forall (fun i => 0 <= i) offsets).
  - exists s'. split; [done|]. destruct He as (Hwf' & _ & Hbits).
    rewrite test_bit by done. by rewrite Hbits, Hclear, existsb_factor by done.
Qed.

Lemma bitmap_members_witness :
  exists s', for_each (fun i s => set_ignored s i) [3; 300; 255]
      {| bitmap_base_ := 7; num_bits_ := 256; bitmap_ := replicate 8 0 |}
      = (Done s' : outcome unit _) /\ test s' 255 = (Done true : outcome unit _).
Proof.
  apply (bitmap_members 7 256 _ [3; 300; 255] 255); [lia|lia|done| |lia].
  repeat constructor; lia.
Defined.

(** ** Untrusted input *)

Lemma read_sequence_safe {E} c at_ order allow_zero :
  0 <= at_ -> at_ + 8 <= zlen c ->
  safe (read_sequence_number c at_ order allow_zero : outcome E _).
Proof.
  intros. unfold read_sequence_number. repeat safe_step; apply read_uint32_safe; lia.
Qed.

Lemma read_sequence_range {E} c at_ order allow_zero n :
  bytes_ok c ->
  read_sequence_number c at_ order allow_zero = (Done (Some n) : outcome E _) ->
  0 <= n <= i64_max /\ (allow_zero = false -> n <> 0).
Proof.
  intros Hc Hr. unfold read_sequence_number in Hr.
  apply bind_Done_inv in Hr as (h & Hh & Hr). case_match; [done|].
  apply bind_Done_inv in Hr as (l & Hl & Hr).
  apply read_uint32_range in Hh; [|done]. apply read_uint32_range in Hl; [|done].
  destruct ((negb allow_zero && _) || _) eqn:Hg; [done|]. injection Hr as <-.
  apply orb_false_iff in Hg as [Hz Hm%Z.ltb_ge]. split.
  - split; [|done]. apply Z.lor_nonneg. rewrite Z.shiftl_nonneg. lia.
  - intros ->. by apply Z.eqb_neq in Hz.
Qed.

(** What a routed prefix promises to the two content parsers. *)
Record prefix_ok (p : ParsedPrefix) (c : list Z) : Prop := {
  po_content : pp_content p = Some c;
  po_size : pp_content_size p = zlen c;
  po_bytes : bytes_ok c;
}.

Lemma parse_prefix_safe message message_size id :
  Router.message_ok message message_size -> safe (parse_prefix message message_size id).
Proof.
  intros Hm. unfold parse_prefix. apply safe_guard. intros _.
  unfold Router.find_submessage. rewrite checked_commit by apply Router.find_body_error.
  apply safe_bind; [|intros; apply safe_Done].
  by apply safe_map_stop, Router.find_body_safe.
Qed.

Lemma parse_prefix_ok message message_size id p :
  Router.message_ok message message_size ->
  parse_prefix message message_size id = Done p -> exists c, prefix_ok p c.
Proof.
  intros Hm Hp. unfold parse_prefix, Router.find_submessage in Hp.
  apply guard_Done in Hp as [_ Hp].
  rewrite checked_commit in Hp by apply Router.find_body_error.
  apply bind_Done_inv in Hp as (v & Hv%map_stop_Done & [= <-]).
  apply Router.find_body_view in Hv as [c []]; [|done]. by exists c.
Qed.

Lemma parse_heartbeat_content_safe p c :
  prefix_ok p c -> safe (parse_heartbeat_content p).
Proof.
  intros [Hc Hsz Hb]. unfold parse_heartbeat_content. rewrite Hc, Hsz.
  apply safe_guard. intros _. apply safe_guard. intros _. apply safe_guard.
  intros H28%negb_false_iff%Z.eqb_eq. unfold heartbeat_content_size in H28.
  cbn [access mbind outcome_bind]. unfold read_int32. repeat safe_step.
  all: first [ apply safe_access, mslice_is_Some; lia | apply read_sequence_safe; lia
             | apply read_uint32_safe; lia ].
Qed.

Lemma parse_heartbeat_content_ok p c v :
  prefix_ok p c -> parse_heartbeat_content p = Done v ->
  range_ok (hb_first v) (hb_last v) = true.
Proof.
  intros [Hc Hsz Hb] Hv. unfold parse_heartbeat_content in Hv. rewrite Hc in Hv.
  cbn [access mbind outcome_bind] in Hv. inv_done.
  repeat (case_match; [|done]; inv_done). cbn [hb_first hb_last].
  repeat match goal with H : read_sequence_number _ _ _ _ = Done (Some _) |- _ =>
    apply read_sequence_range in H as [? ?]; [|done] end.
  unfold range_ok, i64_max in *. rewrite !andb_true_iff, !Z.leb_le.
  match goal with H : (_ <? sub64 _ 1) = false |- _ =>
    rewrite sub64_id in H by lia; apply Z.ltb_ge in H end. lia.
Qed.

Lemma read_words_safe {E} content order n s :
  sns_wf s -> num_bits_ s = n -> (forall o, sns_bit s o = false) -> bytes_ok content ->
  let wc := add32 n 31 / 32 in
  20 + 4 * wc <= zlen content ->
  exists s', read_words content order wc n s 20 = (Done (s', 20 + 4 * wc) : outcome E _) /\
    sns_wf s' /\ same_window s s'.
Proof.
  intros Hs Hn Hclear Hok wc Hlen.
  set (W i := match (read_uint32 content (20 + 4 * i) order : outcome E Z) with
              | Done w => w | _ => 0 end).
  destruct (read_words_spec (E:=E) content order W n s) as (s' & Hrun & Hwf & Hwin & _);
    [done..| |by exists s'].
  intros i Hi. fold wc in Hi. unfold W.
  pose proof (read_uint32_safe (E:=E) content (20 + 4 * i) order) as Hsafe.
  pose proof (read_uint32_no_stop (E:=E) content (20 + 4 * i) order) as Hns.
  destruct (read_uint32 content (20 + 4 * i) order) as [|e|]; [|by destruct (Hns e)|done].
  exfalso. apply Hsafe; [lia..|done].
Qed.

Lemma parse_acknack_content_post p c :
  prefix_ok p c ->
  match parse_acknack_content p with
  | Fault => False
  | Stop _ => True
  | Done v => sns_wf (an_reader_state v) /\ length (an_reader_id v) = 4%nat
  end.
Proof.
  intros [Hc Hsz Hb]. unfold parse_acknack_content. rewrite Hc, Hsz.
  destruct (Z.land (pp_flags p) (255 - _) =? 0); cbn [negb stop_if mbind outcome_bind]; [|done].
  unfold acknack_fixed_content_size, maximum_bits.
  destruct (Z.ltb_spec (zlen c) 24); cbn [stop_if access mbind outcome_bind]; [done|].
  pose proof (read_sequence_safe (E:=ReliabilityMessageError) c 8 (pp_byte_order p) false)
    as Hs1.
  destruct (read_sequence_number c 8 (pp_byte_order p) false) as [| |[base|]] eqn:Hbase;
    cbn [mbind outcome_bind]; [by apply Hs1; [lia|lia|done]|done| |done].
  apply read_sequence_range in Hbase as [Hbr Hb0]; [|done]. unfold i64_max in Hbr.
  pose proof (read_uint32_safe (E:=ReliabilityMessageError) c 16 (pp_byte_order p)) as Hs2.
  destruct (read_uint32 c 16 (pp_byte_order p)) as [| |n] eqn:Hn;
    cbn [mbind outcome_bind]; [by apply Hs2; [lia|lia|done]|done|].
  apply read_uint32_range in Hn; [|done].
  destruct (Z.ltb_spec 256 n); cbn [stop_if mbind outcome_bind]; [done|].
  destruct (Z.eqb_spec (zlen c) (24 + add32 n 31 / 32 * 4));
    cbn [negb stop_if mbind outcome_bind]; [|done].
  destruct (proj2 (mslice_is_Some c 0 4)) as [rd Hrd]; [lia|].
  destruct (proj2 (mslice_is_Some c 4 4)) as [wr ->]; [lia|].
  rewrite Hrd. apply mslice_length in Hrd. cbn [access mbind outcome_bind].
  destruct (reset base n) as [s|] eqn:Hr; [|done].
  assert (num_bits_ s = n) as Hns by (apply reset_spec in Hr as [_ ->]; done || lia).
  apply reset_wf in Hr as [Hwf Hclear]; [|lia..].
  rewrite add32_id in * by lia. pose proof (Z.div_pos (n + 31) 32).
  destruct (read_words_safe (E:=ReliabilityMessageError) c (pp_byte_order p) n s)
    as (s' & Hrun & Hwf' & _); [done..|rewrite add32_id; lia|].
  rewrite add32_id in Hrun by lia. rewrite Hrun. cbn [mbind outcome_bind].
  pose proof (read_uint32_safe (E:=ReliabilityMessageError) c
    (20 + 4 * ((n + 31) / 32)) (pp_byte_order p)) as Hs3. unfold read_int32.
  destruct (read_uint32 c (20 + 4 * ((n + 31) / 32)) (pp_byte_order p));
    cbn [mbind outcome_bind]; [by apply Hs3; [lia|lia|done]|done|].
  cbn [an_reader_state an_reader_id]. split; [done|lia].
Qed.

Lemma parse_prefix_error message message_size id :
  parse_prefix message message_size id <> Stop rel_none.
Proof.
  unfold parse_prefix, Router.find_submessage.
  rewrite checked_commit by apply Router.find_body_error. intros H.
  pose proof (Router.find_body_error message message_size id 0) as Hroute.
  destruct (null_with_size message message_size); [done|].
  by destruct (Router.find_submessage_body _ _ _ _) as [|[] |].
Qed.

Lemma read_sequence_no_stop {E} c at_ order allow_zero e :
  read_sequence_number c at_ order allow_zero <> (Stop e : outcome E _).
Proof.
  unfold read_sequence_number. intros H. stop_cases H;
    by apply read_uint32_no_stop in H.
Qed.

Lemma read_words_no_stop {E} c order wc n s offset e :
  read_words c order wc n s offset <> (Stop e : outcome E _).
Proof.
  apply for_each_no_stop. intros i [t o] e' H. stop_cases H;
    [by apply read_uint32_no_stop in H|]. revert H. apply for_each_no_stop.
  clear. intros j t e. cbv zeta. destruct (_ && _); [|done]. unfold set_ignored.
  destruct (set t _); discriminate.
Qed.

Lemma parse_heartbeat_body_error message message_size :
  parse_heartbeat_body message message_size <> Stop rel_none.
Proof.
  unfold parse_heartbeat_body, parse_heartbeat_content, read_int32. intros H. stop_cases H;
    first [by apply parse_prefix_error in H|by apply read_sequence_no_stop in H
          |by apply read_uint32_no_stop in H].
Qed.

Lemma parse_acknack_body_error message message_size :
  parse_acknack_body message message_size <> Stop rel_none.
Proof.
  unfold parse_acknack_body, parse_acknack_content, read_int32. intros H. stop_cases H;
    first [by apply parse_prefix_error in H|by apply read_sequence_no_stop in H
          |by apply read_uint32_no_stop in H|by apply read_words_no_stop in H].
Qed.

(** What the two parsers promise for an arbitrary datagram. *)
Lemma parse_heartbeat_body_post message message_size :
  Router.message_ok message message_size ->
  match parse_heartbeat_body message message_size with
  | Fault => False
  | Stop e => e <> rel_none
  | Done v => range_ok (hb_first v) (hb_last v) = true
  end.
Proof.
  intros Hm. pose proof (parse_heartbeat_body_error message message_size) as He.
  revert He. unfold parse_heartbeat_body.
  pose proof (parse_prefix_safe message message_size heartbeat_submessage_id Hm) as Hs.
  pose proof (parse_prefix_ok message message_size heartbeat_submessage_id) as Hok.
  destruct (parse_prefix _ _ _) as [|e|p]; cbn [mbind outcome_bind]; [done|congruence|].
  destruct (Hok p Hm eq_refl) as [c Hc].
  pose proof (parse_heartbeat_content_safe p c Hc) as Hsafe.
  pose proof (parse_heartbeat_content_ok p c) as Hpost.
  destruct (parse_heartbeat_content p) as [|e|v]; [done|congruence|by auto].
Qed.

Lemma parse_acknack_body_post message message_size :
  Router.message_ok message message_size ->
  match parse_acknack_body message message_size with
  | Fault => False
  | Stop e => e <> rel_none
  | Done v => sns_wf (an_reader_state v)
  end.
Proof.
  intros Hm. pose proof (parse_acknack_body_error message message_size) as He.
  revert He. unfold parse_acknack_body.
  pose proof (parse_prefix_safe message message_size acknack_submessage_id Hm) as Hs.
  pose proof (parse_prefix_ok message message_size acknack_submessage_id) as Hok.
  destruct (parse_prefix _ _ _) as [|e|p]; cbn [mbind outcome_bind]; [done|congruence|].
  destruct (Hok p Hm eq_refl) as [c Hc].
  pose proof (parse_acknack_content_post p c Hc) as Hpost.
  destruct (parse_acknack_content p) as [|e|v]; [done|congruence|by destruct Hpost].
Qed.

(** Parsing an arbitrary datagram as HEARTBEAT or ACKNACK terminates
    without an access outside it and changes the caller's view only on success;
    an accepted HEARTBEAT announces a valid range (first between 1 and 2^63-1,
    last at least first-1), and an accepted ACKNACK carries a well-formed bitmap
    of at most 256 bits whose last sequence number does not exceed 2^63-1. *)
Theorem control_parse_total message message_size hv av :
  Router.message_ok message message_size ->
  (exists e v, parse_heartbeat_message message message_size hv = Some (e, v) /\
     (v = hv \/ range_ok (hb_first v) (hb_last v) = true)) /\
  (exists e v, parse_acknack_message message message_size av = Some (e, v) /\
     (v = av \/ sns_wf (an_reader_state v))).
Proof.
  intros Hm. unfold parse_heartbeat_message, parse_acknack_message. split.
  - pose proof (parse_heartbeat_body_post message message_size Hm) as Hpost.
    destruct (parse_heartbeat_body _ _) as [|e|v]; [done|by eauto|].
    exists rel_none, v. by split; [|right].
  - pose proof (parse_acknack_body_post message message_size Hm) as Hpost.
    destruct (parse_acknack_body _ _) as [|e|v]; [done|by eauto|].
    exists rel_none, v. by split; [|right].
Qed.

Lemma control_parse_total_witness :
  (exists e v, parse_heartbeat_message (Some (replicate 70 255)) 70 sample_heartbeat =
     Some (e, v) /\ (v = sample_heartbeat \/ range_ok (hb_first v) (hb_last v) = true)) /\
  (exists e v, parse_acknack_message (Some (replicate 70 255)) 70 sample_acknack =
     Some (e, v) /\ (v = sample_acknack \/ sns_wf (an_reader_state v))).
Proof.
  apply (control_parse_total (Some (replicate 70 255)) 70 sample_heartbeat sample_acknack).
  split; [lia|]. intros m [= <-]. split; [done|]. repeat constructor; lia.
Defined.

End RelMsg.
