(* ===== verification/ReliabilityState.v ===== *)
(** * Shared parts of the reliability state machines

    [include/openrtdds/rtps/reliability_state.hpp] up to the two state
    machines, and [src/rtps/reliability_state.cpp]: error codes, actions, the
    bounded action buffer and the wrapping control counts. *)
From S2P Require Import Prelude Bytes Types KeepLastHistory ReliabilityMessages.

Module Rel.
Import Types.

Inductive ReliabilityError : Set :=
  | rel_ok
  | invalid_configuration
  | invalid_argument
  | unexpected_peer
  | invalid_sequence_number
  | non_monotonic_sequence
  | payload_too_large
  | history_full
  | action_capacity_exceeded
  | stale_control
  | duplicate_data
  | stale_data
  | receive_window_exceeded
  | time_regression
  | gap_not_repairable.

#[global] Instance ReliabilityError_eq_dec : EqDecision ReliabilityError.
Proof. solve_decision. Defined.

Definition reliability_state_error_string (error : ReliabilityError) : string :=
  match error with
  | rel_ok => "none"
  | invalid_configuration => "invalid reliability configuration"
  | invalid_argument => "invalid argument"
  | unexpected_peer => "control message does not match configured peer"
  | invalid_sequence_number => "invalid reliability sequence number"
  | non_monotonic_sequence => "writer sequence number is not monotonic"
  | payload_too_large => "payload exceeds reliability history capacity"
  | history_full => "reliable writer history is full"
  | action_capacity_exceeded => "reliability action capacity exceeded"
  | stale_control => "duplicate or stale reliability control message"
  | duplicate_data => "duplicate DATA sequence"
  | stale_data => "stale DATA sequence"
  | receive_window_exceeded => "DATA sequence exceeds bounded receive window"
  | time_regression => "monotonic time regressed"
  | gap_not_repairable => "writer history no longer covers reader gap"
  end.

Inductive ReliabilityActionKind : Set :=
  | action_none
  | send_data
  | retransmit_data
  | send_acknack
  | sample_received
  | sample_delivered
  | sample_failed.

Inductive RepairFailure : Set :=
  | repair_none
  | repair_limit_exceeded
  | repair_window_expired.

#[global] Instance ReliabilityActionKind_eq_dec : EqDecision ReliabilityActionKind.
Proof. solve_decision. Defined.
#[global] Instance RepairFailure_eq_dec : EqDecision RepairFailure.
Proof. solve_decision. Defined.

(** [data] points into the writer's storage: [Some k] is
    [records_[k].sample.data()], [None] is [nullptr]. *)
Record ReliabilityAction : Set := {
  kind : ReliabilityActionKind;
  sequence_number : Z;
  reader_id : EntityId;
  writer_id : EntityId;
  data : option Z;
  data_size : Z;
  reader_state : RelMsg.SequenceNumberSet;
  control_count : Z;
  failure : RepairFailure;
  final_flag : bool;
}.

Definition ReliabilityAction_default : ReliabilityAction :=
  {| kind := action_none; sequence_number := 0; reader_id := EntityId_default;
     writer_id := EntityId_default; data := None; data_size := 0;
     reader_state := RelMsg.SequenceNumberSet_default; control_count := 0;
     failure := repair_none; final_flag := false |}.

(** An action about one sample, all other members defaulted. *)
Definition sample_action (k : ReliabilityActionKind) (seq : Z) (d : option Z)
    (size : Z) (f : RepairFailure) : ReliabilityAction :=
  {| kind := k; sequence_number := seq; reader_id := EntityId_default;
     writer_id := EntityId_default; data := d; data_size := size;
     reader_state := RelMsg.SequenceNumberSet_default; control_count := 0;
     failure := f; final_flag := false |}.

(** ** The bounded action buffer *)

Record ReliabilityActionBuffer : Set := {
  actions_ : list ReliabilityAction;
  asize_ : Z;
}.

Definition ActionBuffer_init (Capacity : Z) : ReliabilityActionBuffer :=
  {| actions_ := replicate (Z.to_nat Capacity) ReliabilityAction_default; asize_ := 0 |}.

Definition push {E} (Capacity : Z) (b : ReliabilityActionBuffer) (action : ReliabilityAction)
    : outcome E (bool * ReliabilityActionBuffer) :=
  if asize_ b =? Capacity then Done (false, b)
  else
    m ← access (mstore (actions_ b) (asize_ b) action);
    Done (true, {| actions_ := m; asize_ := add64 (asize_ b) 1 |}).

(** [static_cast<void>(actions.push(action));] *)
Definition push_ignored {E} (Capacity : Z) (b : ReliabilityActionBuffer)
    (action : ReliabilityAction) : outcome E ReliabilityActionBuffer :=
  '(_, b) ← push Capacity b action; Done b.

Definition clear (b : ReliabilityActionBuffer) : ReliabilityActionBuffer :=
  {| actions_ := actions_ b; asize_ := 0 |}.

Definition remaining (Capacity : Z) (b : ReliabilityActionBuffer) : Z :=
  sub64 Capacity (asize_ b).

(** The actions a caller sees: [operator[]] below [size()]. *)
Definition contents (b : ReliabilityActionBuffer) : list ReliabilityAction :=
  take (Z.to_nat (asize_ b)) (actions_ b).

Record buffer_wf (Capacity : Z) (b : ReliabilityActionBuffer) : Prop := {
  bw_capacity : 0 < Capacity < 2 ^ 64;
  bw_array : zlen (actions_ b) = Capacity;
  bw_size : 0 <= asize_ b <= Capacity;
}.

Lemma remaining_spec C b : buffer_wf C b -> remaining C b = C - asize_ b.
Proof. intros []. unfold remaining. rewrite sub64_id; lia. Qed.

Lemma init_buffer_wf C : 0 < C < 2 ^ 64 -> buffer_wf C (ActionBuffer_init C).
Proof.
  intros. split; simpl; rewrite ?length_replicate; lia.
Qed.

Lemma push_ignored_spec {E} C b a :
  buffer_wf C b -> asize_ b < C ->
  exists b', push_ignored C b a = (Done b' : outcome E _) /\ buffer_wf C b' /\
    contents b' = contents b ++ [a] /\ asize_ b' = asize_ b + 1.
Proof.
  intros [HC Ha Hs] Hlt. unfold push_ignored, push.
  destruct (Z.eqb_spec (asize_ b) C); [lia|]. unfold mstore.
  destruct (Z.leb_spec 0 (asize_ b)); [|lia].
  destruct (Z.ltb_spec (asize_ b) (zlen (actions_ b))); [|lia]. simpl.
  eexists. split; [done|]. rewrite add64_id by lia.
  unfold contents. cbn [actions_ asize_]. split_and!.
  - split; simpl; rewrite ?length_insert; lia.
  - rewrite insert_take_drop by lia.
    replace (Z.to_nat (asize_ b + 1)) with (Z.to_nat (asize_ b) + 1)%nat by lia.
    rewrite take_app_ge by (rewrite length_take; lia).
    f_equal. rewrite length_take.
    replace (Z.to_nat (asize_ b) + 1 - _)%nat with 1%nat by lia. done.
  - done.
Qed.

(** The sequence numbers of the actions of one kind, in order. *)
Definition seqs_of (k : ReliabilityActionKind) (actions : list ReliabilityAction) : list Z :=
  sequence_number <$> filter (fun a => kind a = k) actions.

Lemma seqs_of_app k l1 l2 : seqs_of k (l1 ++ l2) = seqs_of k l1 ++ seqs_of k l2.
Proof. unfold seqs_of. by rewrite filter_app, fmap_app. Qed.

(** ** Control counts *)

Definition control_count_is_newer (candidate reference : Z) : bool :=
  let difference := sub32 (bits_of_i32 candidate) (bits_of_i32 reference) in
  negb (difference =? 0) && (difference <? 2147483648).

Definition next_control_count (count : Z) : Z :=
  i32_of_bits (add32 (bits_of_i32 count) 1).

(** [n] increments of a count. *)
Fixpoint count_after (n : nat) (count : Z) : Z :=
  match n with O => count | S n' => next_control_count (count_after n' count) end.

Lemma next_control_count_bits count :
  bits_of_i32 (next_control_count count) = add32 (bits_of_i32 count) 1.
Proof.
  unfold next_control_count, i32_of_bits, signed, bits_of_i32, add32.
  pose proof (u32_range (u32 count + 1)). unfold u32 in *.
  change (2 ^ (32 - 1)) with (2 ^ 31).
  case_match; [by rewrite Z.mod_small|].
  rewrite <- (Z.mod_add _ 1), Z.mod_small; lia.
Qed.

Lemma count_after_bits n count :
  bits_of_i32 (count_after n count) = u32 (bits_of_i32 count + Z.of_nat n).
Proof.
  induction n as [|n IH]; simpl.
  - rewrite Z.add_0_r. unfold bits_of_i32, u32. by rewrite Zmod_mod.
  - rewrite next_control_count_bits, IH. unfold add32, u32.
    rewrite Zplus_mod_idemp_l. f_equal. lia.
Qed.

Lemma newer_difference n count :
  sub32 (bits_of_i32 (count_after n count)) (bits_of_i32 count) = u32 (Z.of_nat n).
Proof.
  rewrite count_after_bits. unfold sub32, u32.
  rewrite Zminus_mod_idemp_l. f_equal. lia.
Qed.

(** Control counts are compared correctly across wrap-around: the value of
    a counter after [n] increments is newer than its value before for every
    [n] from 1 to 2^31-1, never newer than itself, and the older value is not
    newer than the later one. *)
Theorem control_counts_wrap n count :
  (0 < n)%nat -> Z.of_nat n < 2 ^ 31 ->
  control_count_is_newer (count_after n count) count = true /\
  control_count_is_newer count (count_after n count) = false /\
  control_count_is_newer count count = false.
Proof.
  intros Hn Hmax. unfold control_count_is_newer.
  rewrite newer_difference. rewrite (u32_id (Z.of_nat n)) by lia.
  assert (sub32 (bits_of_i32 count) (bits_of_i32 (count_after n count))
          = 2 ^ 32 - Z.of_nat n) as ->.
  { rewrite count_after_bits. unfold sub32, u32.
    rewrite Zminus_mod_idemp_r.
    replace (bits_of_i32 count - (bits_of_i32 count + Z.of_nat n))
      with (- Z.of_nat n) by lia.
    rewrite <- (Z.mod_add _ 1), Z.mod_small by lia. lia. }
  replace (sub32 (bits_of_i32 count) (bits_of_i32 count)) with 0
    by (unfold sub32; by rewrite Z.sub_diag).
  split_and!; [..|done].
  - destruct (Z.eqb_spec (Z.of_nat n) 0), (Z.ltb_spec (Z.of_nat n) 2147483648);
      simpl; try done; lia.
  - destruct (Z.ltb_spec (2 ^ 32 - Z.of_nat n) 2147483648); [lia|].
    apply andb_false_r.
Qed.

Lemma control_counts_wrap_witness :
  control_count_is_newer (count_after 3 2147483647) 2147483647 = true /\
  control_count_is_newer 2147483647 (count_after 3 2147483647) = false /\
  control_count_is_newer 2147483647 2147483647 = false.
Proof. apply (control_counts_wrap 3 2147483647); lia. Defined.

Definition valid_state_sequence (sequence_number : Z) : bool :=
  negb (sequence_number =? 0) && (sequence_number <? i64_max).

End Rel.
