(* ===== verification/ReliableWriter.v ===== *)
(** * The reliable writer state machine

    [ReliableWriter] of [include/openrtdds/rtps/reliability_state.hpp]: a bounded
    history of unacknowledged samples in a fixed array that [on_acknack] and
    [on_timer] compact in place.  Actions point into that array. *)
From S2P Require Import Prelude.
From S2P Require Import Bytes.
From S2P Require Import Types.
From S2P Require Import KeepLastHistory.
From S2P Require Import ReliabilityMessages.
From S2P Require Import ReliabilityState.

Module Writer.
Import Types Rel.

Record ReliableWriterConfig : Set := {
  w_reader_id : EntityId;
  w_writer_id : EntityId;
  max_repair_attempts : Z;
  repair_window_ns : Z;
}.

Record WriterRecord : Set := {
  sample : History.BoundedSample;
  first_send_ns : Z;
  repair_attempts : Z;
}.

Inductive Decision : Set := keep | deliver | repair | fail_window | fail_attempts.

#[global] Instance Decision_eq_dec : EqDecision Decision.
Proof. solve_decision. Defined.

Record ReliableWriter : Set := {
  config_ : ReliableWriterConfig;
  records_ : list WriterRecord;
  size_ : Z;
  last_sequence_number_ : Z;
  heartbeat_count_ : Z;
  last_acknack_count_ : Z;
  valid_ : bool;
  acknack_count_initialized_ : bool;
}.

Definition record_sequence (r : WriterRecord) : Z :=
  History.sequence_number (History.metadata_ (sample r)).

Definition with_records (w : ReliableWriter) (rs : list WriterRecord) (n : Z)
    : ReliableWriter :=
  {| config_ := config_ w; records_ := rs; size_ := n;
     last_sequence_number_ := last_sequence_number_ w;
     heartbeat_count_ := heartbeat_count_ w;
     last_acknack_count_ := last_acknack_count_ w; valid_ := valid_ w;
     acknack_count_initialized_ := acknack_count_initialized_ w |}.

Section Writer.
Context (HistoryDepth MaxPayloadBytes ActionCapacity : Z).
Context (Depth_pos : 0 < HistoryDepth < 2 ^ 64).
Context (Max_pos : 0 < MaxPayloadBytes < 2 ^ 64).

Definition record_init : WriterRecord :=
  {| sample := History.BoundedSample_init MaxPayloadBytes; first_send_ns := 0;
     repair_attempts := 0 |}.

Definition ReliableWriter_new (config : ReliableWriterConfig) : ReliableWriter :=
  {| config_ := config;
     records_ := replicate (Z.to_nat HistoryDepth) record_init;
     size_ := 0; last_sequence_number_ := 0; heartbeat_count_ := 0;
     last_acknack_count_ := 0; valid_ := negb (repair_window_ns config =? 0);
     acknack_count_initialized_ := false |}.

(** The result of [record.sample.assign] in [write]'s error codes. *)
Definition assign_error (e : History.HistoryError) : ReliabilityError :=
  match e with
  | History.HistoryError_none => rel_ok
  | History.HistoryError_invalid_argument => invalid_argument
  | History.HistoryError_payload_too_large => payload_too_large
  end.

Definition write (w : ReliableWriter) (payload : option (list Z))
    (payload_size sequence_number now_ns : Z) (actions : ReliabilityActionBuffer)
    : outcome ReliabilityError (ReliableWriter * ReliabilityActionBuffer) :=
  stop_if (negb (valid_ w)) invalid_configuration;;
  stop_if (RelMsg.null_with_size payload payload_size) invalid_argument;;
  stop_if (MaxPayloadBytes <? payload_size) payload_too_large;;
  stop_if (negb (valid_state_sequence sequence_number)) invalid_sequence_number;;
  stop_if (negb (last_sequence_number_ w =? 0) &&
           (sequence_number <=? last_sequence_number_ w)) non_monotonic_sequence;;
  stop_if (size_ w =? HistoryDepth) history_full;;
  stop_if (remaining ActionCapacity actions =? 0) action_capacity_exceeded;;
  record ← access (mload (records_ w) (size_ w));
  s ← map_stop assign_error
        (History.assign MaxPayloadBytes (sample record) payload payload_size
           {| History.sequence_number := sequence_number;
              History.source_timestamp_ns := now_ns |});
  records ← access (mstore (records_ w) (size_ w)
              {| sample := s; first_send_ns := now_ns; repair_attempts := 0 |});
  actions ← push_ignored ActionCapacity actions
    (sample_action send_data sequence_number (Some (size_ w))
       (History.sample_size_ s) repair_none);
  Done ({| config_ := config_ w; records_ := records; size_ := add64 (size_ w) 1;
           last_sequence_number_ := sequence_number;
           heartbeat_count_ := heartbeat_count_ w;
           last_acknack_count_ := last_acknack_count_ w; valid_ := valid_ w;
           acknack_count_initialized_ := acknack_count_initialized_ w |}, actions).

(** The decision on one record in the first loop of [on_acknack]. *)
Definition decide_record (config : ReliableWriterConfig) (acknack : RelMsg.AckNackView)
    (now_ns : Z) (record : WriterRecord) : outcome ReliabilityError Decision :=
  let state := RelMsg.an_reader_state acknack in
  let sequence_number := record_sequence record in
  if sequence_number <? RelMsg.bitmap_base state then Done deliver
  else
    let offset := sub64 sequence_number (RelMsg.bitmap_base state) in
    if offset <? RelMsg.num_bits state then
      bit ← RelMsg.test state (u32 offset);
      if negb bit then Done deliver
      else
        stop_if (now_ns <? first_send_ns record) time_regression;;
        let elapsed := sub64 now_ns (first_send_ns record) in
        if repair_window_ns config <=? elapsed then Done fail_window
        else if max_repair_attempts config <=? repair_attempts record
        then Done fail_attempts else Done repair
    else Done keep.

(** The first loop: [decisions] and [required_actions]. *)
Definition decide_all (w : ReliableWriter) (acknack : RelMsg.AckNackView) (now_ns : Z)
    : outcome ReliabilityError (list Decision * Z) :=
  for_each (fun index '(decisions, required_actions) =>
      record ← access (mload (records_ w) index);
      decision ← decide_record (config_ w) acknack now_ns record;
      decisions ← access (mstore decisions index decision);
      Done (decisions, if decide (decision = keep) then required_actions
                       else add64 required_actions 1))
    (seqZ 0 (size_ w)) (replicate (Z.to_nat HistoryDepth) keep, 0).

(** [if (destination != index) records_[destination] = records_[index];] *)
Definition move_record {E} (records : list WriterRecord) (destination index : Z)
    : outcome E (list WriterRecord) :=
  if negb (destination =? index) then
    record ← access (mload records index);
    access (mstore records destination record)
  else Done records.

(** The locals of the compacting loops. *)
Record compaction : Set := {
  c_records : list WriterRecord;
  c_destination : Z;
  c_actions : ReliabilityActionBuffer;
}.

(** The body of the second loop of [on_acknack]. *)
Definition apply_decision (decisions : list Decision) (index : Z) (c : compaction)
    : outcome ReliabilityError compaction :=
  decision ← access (mload decisions index);
  record ← access (mload (c_records c) index);
  let sequence_number := record_sequence record in
  if bool_decide (decision = keep) || bool_decide (decision = repair) then
    records ← move_record (c_records c) (c_destination c) index;
    '(records, actions) ←
      (if bool_decide (decision = repair) then
         retained ← access (mload records (c_destination c));
         let retained := {| sample := sample retained;
                            first_send_ns := first_send_ns retained;
                            repair_attempts := u8 (repair_attempts retained + 1) |} in
         records ← access (mstore records (c_destination c) retained);
         actions ← push_ignored ActionCapacity (c_actions c)
           (sample_action retransmit_data sequence_number (Some (c_destination c))
              (History.sample_size_ (sample retained)) repair_none);
         Done (records, actions)
       else Done (records, c_actions c));
    Done {| c_records := records; c_destination := add64 (c_destination c) 1;
            c_actions := actions |}
  else
    let action :=
      if bool_decide (decision = deliver) then
        sample_action sample_delivered sequence_number None 0 repair_none
      else
        sample_action sample_failed sequence_number None 0
          (if bool_decide (decision = fail_window) then repair_window_expired
           else repair_limit_exceeded) in
    actions ← push_ignored ActionCapacity (c_actions c) action;
    Done {| c_records := c_records c; c_destination := c_destination c;
            c_actions := actions |}.

Definition on_acknack (w : ReliableWriter) (acknack : RelMsg.AckNackView) (now_ns : Z)
    (actions : ReliabilityActionBuffer)
    : outcome ReliabilityError (ReliableWriter * ReliabilityActionBuffer) :=
  stop_if (negb (valid_ w)) invalid_configuration;;
  stop_if (entity_neqb (RelMsg.an_reader_id acknack) (w_reader_id (config_ w)) ||
           entity_neqb (RelMsg.an_writer_id acknack) (w_writer_id (config_ w)))
    unexpected_peer;;
  stop_if (acknack_count_initialized_ w &&
           negb (control_count_is_newer (RelMsg.an_count acknack)
                   (last_acknack_count_ w))) stale_control;;
  '(decisions, required_actions) ← decide_all w acknack now_ns;
  stop_if (remaining ActionCapacity actions <? required_actions)
    action_capacity_exceeded;;
  c ← for_each (apply_decision decisions) (seqZ 0 (size_ w))
        {| c_records := records_ w; c_destination := 0; c_actions := actions |};
  Done ({| config_ := config_ w; records_ := c_records c; size_ := c_destination c;
           last_sequence_number_ := last_sequence_number_ w;
           heartbeat_count_ := heartbeat_count_ w;
           last_acknack_count_ := RelMsg.an_count acknack; valid_ := valid_ w;
           acknack_count_initialized_ := true |}, c_actions c).

(** The first loop of [on_timer]: the number of expired records. *)
Definition count_expired (w : ReliableWriter) (now_ns : Z) : outcome ReliabilityError Z :=
  for_each (fun index expired =>
      record ← access (mload (records_ w) index);
      stop_if (now_ns <? first_send_ns record) time_regression;;
      Done (if repair_window_ns (config_ w) <=? sub64 now_ns (first_send_ns record)
            then add64 expired 1 else expired))
    (seqZ 0 (size_ w)) 0.

(** The body of the second loop of [on_timer]. *)
Definition expire_record (config : ReliableWriterConfig) (now_ns index : Z)
    (c : compaction) : outcome ReliabilityError compaction :=
  record ← access (mload (c_records c) index);
  if repair_window_ns config <=? sub64 now_ns (first_send_ns record) then
    actions ← push_ignored ActionCapacity (c_actions c)
      (sample_action sample_failed (record_sequence record) None 0
         repair_window_expired);
    Done {| c_records := c_records c; c_destination := c_destination c;
            c_actions := actions |}
  else
    records ← move_record (c_records c) (c_destination c) index;
    Done {| c_records := records; c_destination := add64 (c_destination c) 1;
            c_actions := c_actions c |}.

Definition on_timer (w : ReliableWriter) (now_ns : Z) (actions : ReliabilityActionBuffer)
    : outcome ReliabilityError (ReliableWriter * ReliabilityActionBuffer) :=
  stop_if (negb (valid_ w)) invalid_configuration;;
  expired ← count_expired w now_ns;
  stop_if (remaining ActionCapacity actions <? expired) action_capacity_exceeded;;
  c ← for_each (expire_record (config_ w) now_ns) (seqZ 0 (size_ w))
        {| c_records := records_ w; c_destination := 0; c_actions := actions |};
  Done (with_records w (c_records c) (c_destination c), c_actions c).

Definition fill_heartbeat (w : ReliableWriter) (heartbeat : RelMsg.HeartbeatConfig)
    : outcome ReliabilityError (ReliableWriter * RelMsg.HeartbeatConfig) :=
  stop_if (negb (valid_ w)) invalid_configuration;;
  first ← (if size_ w =? 0 then Done (add64 (last_sequence_number_ w) 1)
           else record ← access (mload (records_ w) 0); Done (record_sequence record));
  let count := next_control_count (heartbeat_count_ w) in
  Done ({| config_ := config_ w; records_ := records_ w; size_ := size_ w;
           last_sequence_number_ := last_sequence_number_ w;
           heartbeat_count_ := count; last_acknack_count_ := last_acknack_count_ w;
           valid_ := valid_ w;
           acknack_count_initialized_ := acknack_count_initialized_ w |},
        {| RelMsg.hb_header := RelMsg.hb_header heartbeat;
           RelMsg.hb_reader_id := w_reader_id (config_ w);
           RelMsg.hb_writer_id := w_writer_id (config_ w);
           RelMsg.hb_first := first; RelMsg.hb_last := last_sequence_number_ w;
           RelMsg.hb_count := count;
           RelMsg.hb_final_flag := RelMsg.hb_final_flag heartbeat;
           RelMsg.hb_liveliness_flag := RelMsg.hb_liveliness_flag heartbeat |}).

(** ** In-place compaction as a list function *)

(** What an iteration does to its record: the record it retains, if any, and
    the action it emits, which may point at the slot the record moves to. *)
Definition effect : Set := option WriterRecord * option (Z -> ReliabilityAction).

Definition one_if {A} (o : option A) : Z := match o with Some _ => 1 | None => 0 end.

Definition retained (es : list effect) : list WriterRecord := omap fst es.

Fixpoint emitted (es : list effect) (destination : Z) : list ReliabilityAction :=
  match es with
  | [] => []
  | (keeps, emits) :: es' =>
      option_list ((fun a => a destination) <$> emits) ++
      emitted es' (destination + one_if keeps)
  end.

Definition emissions (es : list effect) : Z :=
  zlen (omap snd es).

(** The loop state at index [k]. *)
Record loop_ok (c : compaction) (k : Z) : Prop := {
  lo_records : zlen (c_records c) = HistoryDepth;
  lo_destination : 0 <= c_destination c <= k;
  lo_actions : buffer_wf ActionCapacity (c_actions c);
}.

Definition kept (c : compaction) : list WriterRecord :=
  take (Z.to_nat (c_destination c)) (c_records c).

(** [body] at [index] has the effect [e] on the record [r] found there. *)
Definition has_effect (body : Z -> compaction -> outcome ReliabilityError compaction)
    (index : Z) (r : WriterRecord) (e : effect) : Prop :=
  forall c, loop_ok c index -> index < HistoryDepth ->
    mload (c_records c) index = Some r ->
    (is_Some (snd e) -> asize_ (c_actions c) < ActionCapacity) ->
    exists c', body index c = Done c' /\ buffer_wf ActionCapacity (c_actions c') /\
      c_records c' = match fst e with
                     | Some r' => <[Z.to_nat (c_destination c) := r']> (c_records c)
                     | None => c_records c
                     end /\
      c_destination c' = c_destination c + one_if (fst e) /\
      contents (c_actions c') = contents (c_actions c) ++
        option_list ((fun a => a (c_destination c)) <$> snd e) /\
      asize_ (c_actions c') = asize_ (c_actions c) + one_if (snd e).

Lemma has_effect_step k (e : effect) c c' :
  loop_ok c k -> k < HistoryDepth -> buffer_wf ActionCapacity (c_actions c') ->
  c_records c' = match fst e with
                 | Some r' => <[Z.to_nat (c_destination c) := r']> (c_records c)
                 | None => c_records c
                 end ->
  c_destination c' = c_destination c + one_if (fst e) ->
  loop_ok c' (k + 1) /\ kept c' = kept c ++ option_list (fst e) /\
  forall j, (Z.to_nat k < j)%nat -> c_records c' !! j = c_records c !! j.
Proof.
  intros [Hl Hd Ha] Hk Hb Hrec Hdest. destruct e as [[r'|] a]; cbn [fst one_if] in *.
  - split_and!.
    + split; [rewrite Hrec, length_insert|..]; (done || lia).
    + unfold kept. rewrite Hdest, Hrec.
      replace (Z.to_nat (c_destination c + 1)) with (S (Z.to_nat (c_destination c))) by lia.
      rewrite (take_S_r _ _ r') by (apply list_lookup_insert_eq; lia).
      by rewrite take_insert_ge by lia.
    + intros j Hj. rewrite Hrec, list_lookup_insert_ne by lia. done.
  - rewrite Z.add_0_r in Hdest. split_and!.
    + split; rewrite ?Hrec, ?Hdest; (done || lia).
    + unfold kept. by rewrite Hrec, Hdest, app_nil_r.
    + by rewrite Hrec.
Qed.

Lemma compaction_run body es : forall k c,
  loop_ok c k -> k + zlen es <= HistoryDepth ->
  (forall j e, es !! j = Some e -> exists r,
     c_records c !! (Z.to_nat k + j)%nat = Some r /\
     has_effect body (k + Z.of_nat j) r e) ->
  asize_ (c_actions c) + emissions es <= ActionCapacity ->
  exists c', for_each body (seqZ k (zlen es)) c = Done c' /\
    loop_ok c' (k + zlen es) /\ kept c' = kept c ++ retained es /\
    contents (c_actions c') = contents (c_actions c) ++ emitted es (c_destination c) /\
    forall P : WriterRecord -> Prop, Forall P (c_records c) ->
      Forall (fun e => from_option P True (fst e)) es -> Forall P (c_records c').
Proof.
  induction es as [|e es IH]; intros k c Hc Hlen Hes Hcap.
  { exists c. cbn. rewrite !app_nil_r, Z.add_0_r. done. }
  change (length (e :: es)) with (S (length es)) in *.
  rewrite seqZ_cons by lia. replace (Z.pred (Z.of_nat (S (length es)))) with (zlen es) by lia.
  destruct (Hes 0%nat e eq_refl) as (r & Hr & Heff).
  rewrite Nat.add_0_r in Hr. rewrite Z.add_0_r in Heff.
  pose proof (lo_destination c k Hc) as Hd.
  assert (emissions (e :: es) = one_if (snd e) + emissions es) as Hem.
  { unfold emissions. destruct e as [? []]; cbn [omap list_omap snd length one_if]; lia. }
  assert (0 <= emissions es) by (unfold emissions; lia).
  assert (mload (c_records c) k = Some r) as Hload by (apply mload_Some; split; [lia|done]).
  destruct (Heff c) as (c' & Hbody & Hbuf & Hrec & Hdest & Hcont & Hsz);
    [done|lia|done| |].
  { destruct e as [? [a|]]; cbn [snd one_if] in *; [intros _; lia|by intros []]. }
  cbn [for_each]. rewrite Hbody. cbn [mbind outcome_bind].
  destruct (has_effect_step k e c c') as (Hok & Hkept & Hrest); [done||lia..|].
  destruct (IH (Z.succ k) c') as (c'' & Hrun & Hok' & Hkept' & Hcont' & HP).
  - done.
  - lia.
  - intros j e' Hj. destruct (Hes (S j) e' Hj) as (r' & Hr' & Heff').
    exists r'. split.
    + rewrite Hrest by lia. rewrite <- Hr'. f_equal. lia.
    + replace (Z.succ k + Z.of_nat j) with (k + Z.of_nat (S j)) by lia. done.
  - rewrite Hsz. lia.
  - exists c''. split; [done|]. split_and!.
    + replace (k + Z.of_nat (S (length es))) with (Z.succ k + zlen es) by lia. done.
    + rewrite Hkept', Hkept, <- app_assoc. f_equal. by destruct e as [[]].
    + rewrite Hcont', Hcont, <- app_assoc, Hdest. f_equal.
      by destruct e as [[] []].
    + intros P Hrecs [He Hes']%Forall_cons. apply HP; [|done]. rewrite Hrec.
      destruct e as [[r'|] a]; [|done]. by apply Forall_insert.
Qed.

Lemma move_record_spec {E} rs d i r :
  0 <= d <= i -> mload rs i = Some r ->
  move_record rs d i = (Done (<[Z.to_nat d := r]> rs) : outcome E _).
Proof.
  intros Hd Hr. unfold move_record. assert (0 <= i < zlen rs) as Hi
    by (apply mload_is_Some; by eexists).
  destruct (Z.eqb_spec d i) as [->|Hne]; simpl.
  - apply mload_Some in Hr as [_ Hr]. by rewrite list_insert_id.
  - rewrite Hr. simpl. unfold mstore.
    destruct (Z.leb_spec 0 d), (Z.ltb_spec d (zlen rs)); try lia. done.
Qed.

(** ** [on_acknack] *)

Definition bump (r : WriterRecord) : WriterRecord :=
  {| sample := sample r; first_send_ns := first_send_ns r;
     repair_attempts := repair_attempts r + 1 |}.

Definition decision_effect (d : Decision) (r : WriterRecord) : effect :=
  let seq := record_sequence r in
  match d with
  | keep => (Some r, None)
  | repair => (Some (bump r), Some (fun k => sample_action retransmit_data seq (Some k)
                 (History.sample_size_ (sample r)) repair_none))
  | deliver => (None, Some (fun _ => sample_action sample_delivered seq None 0 repair_none))
  | fail_window =>
      (None, Some (fun _ => sample_action sample_failed seq None 0 repair_window_expired))
  | fail_attempts =>
      (None, Some (fun _ => sample_action sample_failed seq None 0 repair_limit_exceeded))
  end.

Lemma apply_decision_drops ds i d r :
  mload ds i = Some d -> d <> keep -> d <> repair ->
  has_effect (apply_decision ds) i r (decision_effect d r).
Proof.
  intros Hd Hk Hrep c [Hl Hdst Ha] Hi Hr Hcap. unfold apply_decision.
  rewrite Hd, Hr. cbn [access mbind outcome_bind].
  rewrite (bool_decide_false (d = keep)), (bool_decide_false (d = repair)) by done.
  cbn [orb]. destruct d; try done; cbn [decision_effect fst snd one_if] in *;
    (edestruct (push_ignored_spec (E:=ReliabilityError) ActionCapacity (c_actions c)) as (b & Hb & Hwf & Hc & Hn);
     [done|by apply Hcap|]);
    rewrite Hb; cbn [mbind outcome_bind]; (eexists; split; [done|]);
    cbn [c_records c_destination c_actions]; rewrite Z.add_0_r; done.
Qed.

Lemma apply_decision_keeps ds i r :
  mload ds i = Some keep -> has_effect (apply_decision ds) i r (decision_effect keep r).
Proof.
  intros Hd c [Hl Hdst Ha] Hi Hr Hcap. unfold apply_decision.
  rewrite Hd, Hr. cbn [access mbind outcome_bind].
  rewrite bool_decide_true by done. cbn [orb].
  rewrite (move_record_spec _ _ _ r) by done. cbn [mbind outcome_bind].
  rewrite bool_decide_false by done. cbn [mbind outcome_bind].
  eexists; split; [done|]. cbn. rewrite add64_id by lia.
  rewrite app_nil_r, Z.add_0_r. done.
Qed.

Lemma apply_decision_repairs ds i r :
  mload ds i = Some repair -> 0 <= repair_attempts r < 255 ->
  has_effect (apply_decision ds) i r (decision_effect repair r).
Proof.
  intros Hd Hrep c [Hl Hdst Ha] Hi Hr Hcap. unfold apply_decision.
  rewrite Hd, Hr. cbn [access mbind outcome_bind].
  rewrite (bool_decide_true (repair = repair)), orb_true_r by done.
  rewrite (move_record_spec _ _ _ r) by done. cbn [mbind outcome_bind].
  assert (mload (<[Z.to_nat (c_destination c):=r]> (c_records c)) (c_destination c) = Some r)
    as -> by (apply mload_Some; split; [lia|]; apply list_lookup_insert_eq; lia).
  cbn [access mbind outcome_bind]. rewrite u8_id by lia.
  unfold mstore at 1. rewrite length_insert.
  destruct (Z.leb_spec 0 (c_destination c)), (Z.ltb_spec (c_destination c) (zlen (c_records c)));
    try lia. cbn [andb access mbind outcome_bind].
  edestruct (push_ignored_spec (E:=ReliabilityError) ActionCapacity (c_actions c)) as (b & Hb & Hwf & Hc & Hn);
    [done|by apply Hcap|].
  rewrite Hb. cbn [mbind outcome_bind]. eexists; split; [done|].
  cbn [c_records c_destination c_actions decision_effect fst snd one_if].
  rewrite add64_id by lia. rewrite list_insert_insert_eq. done.
Qed.

Lemma apply_decision_effect ds i d r :
  mload ds i = Some d -> (d = repair -> 0 <= repair_attempts r < 255) ->
  has_effect (apply_decision ds) i r (decision_effect d r).
Proof.
  intros Hd Hr. destruct d; try (by apply apply_decision_drops).
  - by apply apply_decision_keeps.
  - by apply apply_decision_repairs; [|apply Hr].
Qed.

(** The decisions on a list of records, in order, with the early return. *)
Fixpoint decide_list (config : ReliableWriterConfig) (acknack : RelMsg.AckNackView)
    (now_ns : Z) (rs : list WriterRecord) : outcome ReliabilityError (list Decision) :=
  match rs with
  | [] => Done []
  | r :: rs' =>
      d ← decide_record config acknack now_ns r;
      ds ← decide_list config acknack now_ns rs';
      Done (d :: ds)
  end.

Definition needed (ds : list Decision) : Z := zlen (filter (fun d => d <> keep) ds).

Definition live (w : ReliableWriter) : list WriterRecord :=
  take (Z.to_nat (size_ w)) (records_ w).

Lemma decide_run w ack now rs : forall pre post ds0 rest n,
  records_ w = pre ++ rs ++ post -> length ds0 = length pre ->
  (length rs <= length rest)%nat -> 0 <= n -> n + zlen rs < 2 ^ 64 ->
  for_each (fun index '(decisions, required_actions) =>
      record ← access (mload (records_ w) index);
      decision ← decide_record (config_ w) ack now record;
      decisions ← access (mstore decisions index decision);
      Done (decisions, if decide (decision = keep) then required_actions
                       else add64 required_actions 1))
    (seqZ (zlen pre) (zlen rs)) (ds0 ++ rest, n) =
  (ds ← decide_list (config_ w) ack now rs;
   Done ((ds0 ++ ds) ++ drop (length rs) rest, n + needed ds)).
Proof.
  induction rs as [|r rs IH]; intros pre post ds0 rest n Hrec Hlen Hrest Hn Hmax.
  { cbn. by rewrite app_nil_r, drop_0, Z.add_0_r. }
  change (length (r :: rs)) with (S (length rs)) in *.
  rewrite seqZ_cons by lia. cbn [for_each decide_list].
  assert (mload (records_ w) (zlen pre) = Some r) as ->
    by (rewrite Hrec, mload_app_r, Z.sub_diag by lia; done).
  cbn [access mbind outcome_bind].
  destruct (decide_record (config_ w) ack now r) as [| |d]; cbn [mbind outcome_bind];
    [done..|].
  assert (mstore (ds0 ++ rest) (zlen pre) d = Some ((ds0 ++ [d]) ++ drop 1 rest)) as ->
    by (rewrite mstore_mcopy, mcopy_snoc by (cbn; lia); done).
  cbn [access mbind outcome_bind].
  replace (Z.pred (Z.of_nat (S (length rs)))) with (zlen rs) by lia.
  assert (records_ w = (pre ++ [r]) ++ rs ++ post) as Hrec'
    by (rewrite Hrec; by rewrite <- app_assoc).
  specialize (IH (pre ++ [r]) post (ds0 ++ [d]) (drop 1 rest)
    (if decide (d = keep) then n else add64 n 1) Hrec').
  replace (zlen (pre ++ [r])) with (Z.succ (zlen pre)) in IH
    by (rewrite length_app; cbn; lia).
  rewrite IH; clear IH.
  - destruct (decide_list (config_ w) ack now rs) as [| |ds]; cbn [mbind outcome_bind];
      [done..|].
    rewrite drop_drop, <- !app_assoc. f_equal. f_equal. unfold needed.
    rewrite filter_cons. destruct (decide (d = keep)) as [->|Hd].
    + rewrite decide_False by tauto. done.
    + rewrite decide_True by done. rewrite add64_id by lia. cbn [length]. lia.
  - rewrite !length_app. cbn. lia.
  - rewrite length_drop. lia.
  - destruct (decide (d = keep)); [done|]. rewrite add64_id; lia.
  - destruct (decide (d = keep)); [lia|]. rewrite add64_id; lia.
Qed.

Lemma decide_all_spec w ack now :
  zlen (records_ w) = HistoryDepth -> 0 <= size_ w <= HistoryDepth ->
  decide_all w ack now =
  (ds ← decide_list (config_ w) ack now (live w);
   Done (ds ++ replicate (Z.to_nat HistoryDepth - Z.to_nat (size_ w)) keep, needed ds)).
Proof.
  intros Hrec Hsz. unfold decide_all.
  assert (zlen (live w) = size_ w) as Hl by (unfold live; rewrite length_take; lia).
  pose proof (decide_run w ack now (live w) [] (drop (Z.to_nat (size_ w)) (records_ w)) []
    (replicate (Z.to_nat HistoryDepth) keep) 0) as Hrun.
  cbn [length app] in Hrun. rewrite Hl in Hrun. change (Z.of_nat 0) with 0 in Hrun.
  rewrite Hrun; clear Hrun.
  - destruct (decide_list _ _ _ _) as [| |ds]; cbn [mbind outcome_bind]; [done..|].
    rewrite drop_replicate. do 2 f_equal. f_equal. f_equal. lia.
  - symmetry. apply take_drop.
  - done.
  - rewrite length_replicate. lia.
  - done.
  - lia.
Qed.

Lemma decide_list_Done config ack now rs ds :
  decide_list config ack now rs = Done ds <->
  Forall2 (fun r d => decide_record config ack now r = Done d) rs ds.
Proof.
  revert ds. induction rs as [|r rs IH]; intros ds; simpl.
  - split; [intros [= <-]; constructor|]. by inversion 1.
  - split.
    + intros (d & Hd & (ds' & Hds & [= <-])%bind_Done_inv)%bind_Done_inv.
      constructor; [done|]. by apply IH.
    + inversion 1 as [|? d ? ds' Hd Hds]; subst. rewrite Hd. simpl.
      apply IH in Hds. by rewrite Hds.
Qed.

(** ** The writer invariant *)

Record record_ok (config : ReliableWriterConfig) (last : Z) (r : WriterRecord) : Prop := {
  ro_sequence : 1 <= record_sequence r <= last;
  ro_first_send : 0 <= first_send_ns r < 2 ^ 64;
  ro_attempts : 0 <= repair_attempts r <= max_repair_attempts config;
}.

Record writer_wf (w : ReliableWriter) : Prop := {
  ww_records : zlen (records_ w) = HistoryDepth;
  ww_size : 0 <= size_ w <= HistoryDepth;
  ww_samples : Forall (fun r => History.sample_wf MaxPayloadBytes (sample r)) (records_ w);
  ww_live : Forall (record_ok (config_ w) (last_sequence_number_ w)) (live w);
  ww_sorted : StronglySorted Z.lt (record_sequence <$> live w);
  ww_last : 0 <= last_sequence_number_ w < i64_max;
  ww_attempts : 0 <= max_repair_attempts (config_ w) <= 255;
  ww_window : 0 <= repair_window_ns (config_ w) < 2 ^ 64;
  ww_valid : valid_ w = negb (repair_window_ns (config_ w) =? 0);
}.

(** ** What the effects of one call have in common *)

Definition terminal (a : ReliabilityAction) : Prop :=
  (kind a = sample_delivered \/ kind a = sample_failed) /\ data a = None.

Inductive effect_ok (config : ReliableWriterConfig) (r : WriterRecord) : effect -> Prop :=
  | effect_keep : effect_ok config r (Some r, None)
  | effect_repair :
      repair_attempts r < max_repair_attempts config ->
      effect_ok config r (Some (bump r),
        Some (fun k => sample_action retransmit_data (record_sequence r) (Some k)
                         (History.sample_size_ (sample r)) repair_none))
  | effect_finish a :
      terminal a -> sequence_number a = record_sequence r ->
      effect_ok config r (None, Some (fun _ => a)).

(** Samples reported as delivered or failed. *)
Definition finished (actions : list ReliabilityAction) : list Z :=
  sequence_number <$> filter
    (fun a => kind a = sample_delivered \/ kind a = sample_failed) actions.

Lemma finished_app l1 l2 : finished (l1 ++ l2) = finished l1 ++ finished l2.
Proof. unfold finished. by rewrite filter_app, fmap_app. Qed.

Lemma emitted_some o f es d :
  emitted ((o, Some f) :: es) d = f d :: emitted es (d + one_if o).
Proof. done. Qed.

Lemma emitted_none o es d : emitted ((o, None) :: es) d = emitted es (d + one_if o).
Proof. done. Qed.

Lemma retained_some r a es : retained ((Some r, a) :: es) = r :: retained es.
Proof. done. Qed.

Lemma retained_none a es : retained ((None, a) :: es) = retained es.
Proof. done. Qed.

Lemma finished_one a l :
  terminal a -> finished (a :: l) = sequence_number a :: finished l.
Proof. intros [Hk _]. unfold finished. by rewrite filter_cons_True. Qed.

Lemma finished_other a l :
  kind a <> sample_delivered -> kind a <> sample_failed ->
  finished (a :: l) = finished l.
Proof. intros H1 H2. unfold finished. rewrite filter_cons_False; [done|by intros [?|?]]. Qed.

Section Effects.
Context (config : ReliableWriterConfig).

Lemma retained_sublist rs es :
  Forall2 (effect_ok config) rs es ->
  sublist (record_sequence <$> retained es) (record_sequence <$> rs).
Proof.
  induction 1 as [|r e rs es He Hes IH]; [constructor|].
  destruct He; csimpl; constructor; exact IH.
Qed.

Lemma retained_ok last rs es :
  Forall2 (effect_ok config) rs es -> Forall (record_ok config last) rs ->
  Forall (record_ok config last) (retained es).
Proof.
  induction 1 as [|r e rs es He Hes IH]; intros Hrs; [constructor|].
  apply Forall_cons in Hrs as [[H1 H2 H3] Hrs].
  destruct He; csimpl; try constructor; try (by apply IH); [by split|].
  split; cbn; [done..|lia].
Qed.

(** Every record is either retained or reported exactly once. *)
Lemma effects_conserve rs es d :
  Forall2 (effect_ok config) rs es ->
  (record_sequence <$> retained es) ++ finished (emitted es d) ≡ₚ record_sequence <$> rs.
Proof using Type.
  intros Hes. revert d. induction Hes as [|r e rs es He Hes IH]; intros d; [done|].
  destruct He as [|Hlt|a Ha Hseq];
    rewrite ?emitted_some, ?emitted_none, ?retained_some, ?retained_none, ?fmap_cons.
  - by apply Permutation_cons, IH.
  - rewrite finished_other by done. by apply Permutation_cons, IH.
  - rewrite finished_one, Hseq by done. rewrite <- Permutation_middle.
    by apply Permutation_cons, IH.
Qed.
End Effects.

(** What a call that goes over the live records has done to them. *)
Record swept (w w' : ReliableWriter) (a a' : ReliabilityActionBuffer)
    (es : list effect) : Prop := {
  sp_effects : Forall2 (effect_ok (config_ w)) (live w) es;
  sp_live : live w' = retained es;
  sp_actions : contents a' = contents a ++ emitted es 0;
  sp_wf : writer_wf w';
  sp_buffer : buffer_wf ActionCapacity a';
  sp_config : config_ w' = config_ w;
  sp_last : last_sequence_number_ w' = last_sequence_number_ w;
}.

(** The second loop of [on_acknack] and [on_timer], once the space for the
    actions is known to suffice. *)
Lemma sweep w a body es :
  writer_wf w -> buffer_wf ActionCapacity a ->
  Forall2 (effect_ok (config_ w)) (live w) es ->
  (forall i r e, live w !! i = Some r -> es !! i = Some e ->
     has_effect body (Z.of_nat i) r e) ->
  asize_ a + emissions es <= ActionCapacity ->
  exists c, for_each body (seqZ 0 (size_ w))
      {| c_records := records_ w; c_destination := 0; c_actions := a |} = Done c /\
    forall w', records_ w' = c_records c -> size_ w' = c_destination c ->
      config_ w' = config_ w -> valid_ w' = valid_ w ->
      last_sequence_number_ w' = last_sequence_number_ w ->
      swept w w' a (c_actions c) es.
Proof.
  intros Hw Ha Hes Hbody Hcap. pose proof (ww_records w Hw) as Hrec.
  pose proof (ww_size w Hw) as Hsz.
  assert (zlen (live w) = size_ w) as Hl by (unfold live; rewrite length_take; lia).
  pose proof (Forall2_length _ _ _ Hes) as Hlen.
  destruct (compaction_run body es 0
    {| c_records := records_ w; c_destination := 0; c_actions := a |})
    as (c & Hrun & Hok & Hkept & Hcont & HP).
  - split; cbn; [done|lia|done].
  - lia.
  - intros j e He. destruct (Forall2_lookup_r _ _ _ _ _ Hes He) as (r & Hr & _).
    exists r. split; [|by apply Hbody]. cbn. unfold live in Hr.
    by apply lookup_take_Some in Hr as [? _].
  - done.
  - rewrite <- Hl, Hlen. exists c. split; [done|].
    intros w' Hrecs Hsize Hcfg Hval Hlast.
    assert (live w' = retained es) as Hlive.
    { unfold live. rewrite Hrecs, Hsize. exact Hkept. }
    split; try done; [|apply Hok].
    pose proof (retained_sublist _ _ _ Hes) as Hsub. destruct Hw, Hok.
    split; rewrite ?Hcfg, ?Hlast, ?Hval, ?Hlive; try done.
    + by rewrite Hrecs.
    + rewrite Hsize. lia.
    + rewrite Hrecs. apply HP; [done|]. apply Forall_lookup_2. intros i e He.
      destruct (Forall2_lookup_r _ _ _ _ _ Hes He) as (r & Hr & Heff).
      assert (History.sample_wf MaxPayloadBytes (sample r)) as Hwf.
      { apply (Forall_lookup_1 (fun r => History.sample_wf MaxPayloadBytes (sample r))
          (records_ w) i r); [done|]. unfold live in Hr.
        by apply lookup_take_Some in Hr as [? _]. }
      by destruct Heff.
    + by eapply retained_ok.
    + by eapply sorted_sublist.
Qed.

Lemma decide_record_ok config last ack now r :
  RelMsg.sns_wf (RelMsg.an_reader_state ack) -> record_ok config last r ->
  last < i64_max ->
  match decide_record config ack now r with
  | Fault => False
  | Stop e => e = time_regression
  | Done d => effect_ok config r (decision_effect d r)
  end.
Proof.
  intros Hs [Hseq Hsend Hatt] Hlast. unfold i64_max in Hlast.
  unfold decide_record, RelMsg.bitmap_base, RelMsg.num_bits.
  set (s := RelMsg.an_reader_state ack) in *.
  pose proof (RelMsg.sw_base s Hs). pose proof (RelMsg.sw_bits s Hs) as Hb.
  unfold RelMsg.maximum_bits in Hb.
  assert (forall a, terminal a -> sequence_number a = record_sequence r ->
    effect_ok config r (None, Some (fun _ => a))) as Hfin by (by constructor).
  destruct (Z.ltb_spec (record_sequence r) (RelMsg.bitmap_base_ s));
    [apply Hfin; [split; [by left|]|]; done|].
  rewrite sub64_id by lia.
  destruct (Z.ltb_spec (record_sequence r - RelMsg.bitmap_base_ s) (RelMsg.num_bits_ s));
    [|constructor].
  rewrite u32_id, RelMsg.test_bit by (done || lia). cbn [mbind outcome_bind].
  destruct (RelMsg.sns_bit s _); cbn [negb];
    [|apply Hfin; [split; [by left|]|]; done].
  destruct (now <? first_send_ns r); cbn [stop_if mbind outcome_bind]; [done|].
  destruct (repair_window_ns config <=? _); [apply Hfin; [split; [by right|]|]; done|].
  destruct (Z.leb_spec (max_repair_attempts config) (repair_attempts r));
    [apply Hfin; [split; [by right|]|]; done|]. by constructor.
Qed.

Lemma decide_list_ok config last ack now rs :
  RelMsg.sns_wf (RelMsg.an_reader_state ack) -> Forall (record_ok config last) rs ->
  last < i64_max ->
  match decide_list config ack now rs with
  | Fault => False
  | Stop e => e = time_regression
  | Done ds => Forall2 (effect_ok config) rs (zip_with decision_effect ds rs) /\
               needed ds = emissions (zip_with decision_effect ds rs)
  end.
Proof.
  intros Hs Hrs Hlast. induction Hrs as [|r rs Hr Hrs IH]; cbn [decide_list].
  { split; [constructor|done]. }
  pose proof (decide_record_ok config last ack now r Hs Hr Hlast) as Hd.
  destruct (decide_record config ack now r) as [|e|d]; cbn [mbind outcome_bind]; [done..|].
  destruct (decide_list config ack now rs) as [|e|ds]; cbn [mbind outcome_bind]; [done..|].
  destruct IH as [IH1 IH2]. cbn [zip_with]. split; [by constructor|].
  unfold needed, emissions in *. rewrite filter_cons.
  destruct d; [rewrite decide_False by tauto|rewrite decide_True by done..];
    cbn [decision_effect omap list_omap snd length]; fold (omap (M:=list) (A:=effect) snd);
    lia.
Qed.

(** The outcome of [on_acknack]: it never faults, and a call that succeeds has
    applied one decision to every live record. *)
Lemma on_acknack_post w ack now a :
  writer_wf w -> buffer_wf ActionCapacity a ->
  RelMsg.sns_wf (RelMsg.an_reader_state ack) ->
  match on_acknack w ack now a with
  | Fault => False
  | Stop _ => True
  | Done (w', a') => exists ds,
      Forall2 (fun r d => decide_record (config_ w) ack now r = Done d) (live w) ds /\
      swept w w' a a' (zip_with decision_effect ds (live w))
  end.
Proof.
  intros Hw Ha Hs. unfold on_acknack.
  destruct (valid_ w) eqn:Hv; cbn [negb stop_if mbind outcome_bind]; [|done].
  destruct (entity_neqb _ _ || _); cbn [stop_if mbind outcome_bind]; [done|].
  destruct (acknack_count_initialized_ w && _); cbn [stop_if mbind outcome_bind]; [done|].
  rewrite decide_all_spec by apply Hw.
  pose proof (decide_list_ok (config_ w) (last_sequence_number_ w) ack now (live w) Hs
    (ww_live w Hw) (proj2 (ww_last w Hw))) as Hds.
  pose proof (proj1 (decide_list_Done (config_ w) ack now (live w)
    match decide_list (config_ w) ack now (live w) with Done ds => ds | _ => [] end)) as Hall.
  destruct (decide_list (config_ w) ack now (live w)) as [|e|ds];
    cbn [mbind outcome_bind]; [done..|].
  destruct Hds as [Heff Hneed]. specialize (Hall eq_refl).
  rewrite remaining_spec by done.
  destruct (Z.ltb_spec (ActionCapacity - asize_ a) (needed ds));
    cbn [stop_if mbind outcome_bind]; [done|].
  pose proof (Forall2_length _ _ _ Hall) as Hlen.
  destruct (sweep w a (apply_decision
    (ds ++ replicate (Z.to_nat HistoryDepth - Z.to_nat (size_ w)) keep))
    (zip_with decision_effect ds (live w))) as (c & Hrun & Hpost);
    [done..| |lia|].
  - intros i r e Hr He. apply lookup_zip_with_Some in He as (d & r' & -> & Hd & Hr').
    rewrite Hr in Hr'. injection Hr' as <-.
    apply apply_decision_effect.
    + apply mload_Some. split; [lia|]. rewrite Nat2Z.id. by apply lookup_app_l_Some.
    + intros ->. pose proof (ww_attempts w Hw).
      assert (record_ok (config_ w) (last_sequence_number_ w) r) as [_ _ Hatt]
        by (by eapply Forall_lookup_1; [apply Hw|]).
      assert (effect_ok (config_ w) r (decision_effect repair r)) as He.
      { eapply Forall2_lookup_lr; [exact Heff|done|].
        apply lookup_zip_with_Some. by exists repair, r. }
      inversion He; lia.
  - rewrite Hrun. cbn [mbind outcome_bind]. exists ds. split; [done|]. by apply Hpost.
Qed.

(** ** [on_timer] *)

Definition expired (config : ReliableWriterConfig) (now : Z) (r : WriterRecord) : bool :=
  repair_window_ns config <=? now - first_send_ns r.

Definition expiry_effect (config : ReliableWriterConfig) (now : Z) (r : WriterRecord)
    : effect :=
  if expired config now r then
    (None, Some (fun _ => sample_action sample_failed (record_sequence r) None 0
                            repair_window_expired))
  else (Some r, None).

Lemma expiry_effect_ok config now r : effect_ok config r (expiry_effect config now r).
Proof.
  unfold expiry_effect. destruct (expired config now r); constructor; [|done].
  split; [by right|done].
Qed.

Lemma expire_record_effect config now i r :
  0 <= first_send_ns r <= now -> now < 2 ^ 64 ->
  has_effect (expire_record config now) i r (expiry_effect config now r).
Proof.
  intros Hsend Hnow c [Hl Hd Ha] Hi Hr Hcap. unfold expire_record, expiry_effect, expired in *.
  rewrite Hr. cbn [access mbind outcome_bind]. rewrite sub64_id by lia.
  destruct (repair_window_ns config <=? now - first_send_ns r).
  - edestruct (push_ignored_spec (E:=ReliabilityError) ActionCapacity (c_actions c))
      as (b & Hb & Hwf & Hc & Hn); [done|by apply Hcap|].
    rewrite Hb. cbn [mbind outcome_bind]. eexists; split; [done|].
    cbn [c_records c_destination c_actions fst snd one_if]. rewrite Z.add_0_r. done.
  - rewrite (move_record_spec _ _ _ r) by done. cbn [mbind outcome_bind].
    eexists; split; [done|]. cbn. rewrite add64_id by lia.
    rewrite app_nil_r, Z.add_0_r. done.
Qed.

Lemma count_run w now rs : forall k n,
  (forall i r, rs !! i = Some r -> mload (records_ w) (k + Z.of_nat i) = Some r) ->
  Forall (fun r => 0 <= first_send_ns r < 2 ^ 64) rs -> 0 <= now < 2 ^ 64 ->
  0 <= n -> n + zlen rs < 2 ^ 64 ->
  for_each (fun index expired =>
      record ← access (mload (records_ w) index);
      stop_if (now <? first_send_ns record) time_regression;;
      Done (if repair_window_ns (config_ w) <=? sub64 now (first_send_ns record)
            then add64 expired 1 else expired)) (seqZ k (zlen rs)) n =
  if forallb (fun r => first_send_ns r <=? now) rs
  then Done (n + emissions (expiry_effect (config_ w) now <$> rs))
  else Stop time_regression.
Proof.
  induction rs as [|r rs IH]; intros k n Hrs Hsend Hnow Hn Hmax.
  { cbn. by rewrite Z.add_0_r. }
  change (length (r :: rs)) with (S (length rs)) in *.
  apply Forall_cons in Hsend as [Hr Hsend].
  rewrite seqZ_cons by lia. cbn [for_each forallb].
  assert (mload (records_ w) k = Some r) as ->
    by (rewrite <- (Hrs 0%nat r eq_refl); f_equal; lia).
  cbn [access mbind outcome_bind]. rewrite (Z.ltb_antisym _ now).
  destruct (Z.leb_spec (first_send_ns r) now); cbn [negb andb stop_if mbind outcome_bind];
    [|done].
  rewrite sub64_id by lia.
  replace (Z.pred (Z.of_nat (S (length rs)))) with (zlen rs) by lia.
  assert (emissions (expiry_effect (config_ w) now <$> r :: rs) =
    (if expired (config_ w) now r then 1 else 0) +
    emissions (expiry_effect (config_ w) now <$> rs)) as ->.
  { unfold emissions. rewrite fmap_cons. unfold expiry_effect at 1.
    destruct (expired (config_ w) now r); cbn [omap list_omap snd length];
      fold (omap (M:=list) (A:=effect) snd); lia. }
  unfold expired.
  destruct (repair_window_ns (config_ w) <=? now - first_send_ns r);
    rewrite ?add64_id by lia; (rewrite IH; [|intros i r' Hi|done|done|lia|lia]).
  2, 4: rewrite <- (Hrs (S i) r' Hi); f_equal; lia.
  all: destruct (forallb _ rs); [f_equal; lia|done].
Qed.

(** When [on_timer] succeeds. *)
Definition timer_ready (w : ReliableWriter) (now : Z) (a : ReliabilityActionBuffer) : bool :=
  valid_ w && forallb (fun r => first_send_ns r <=? now) (live w) &&
  (asize_ a + emissions (expiry_effect (config_ w) now <$> live w) <=? ActionCapacity).

Lemma on_timer_cases w now a :
  writer_wf w -> buffer_wf ActionCapacity a -> 0 <= now < 2 ^ 64 ->
  if timer_ready w now a then
    exists w' a', on_timer w now a = Done (w', a') /\
      swept w w' a a' (expiry_effect (config_ w) now <$> live w)
  else exists e, on_timer w now a = Stop e /\ e <> rel_ok.
Proof.
  intros Hw Ha Hnow. unfold on_timer, count_expired, timer_ready.
  destruct (valid_ w) eqn:Hv; cbn [negb andb stop_if mbind outcome_bind]; [|by eauto].
  pose proof (ww_records w Hw) as Hrec. pose proof (ww_size w Hw) as Hsz.
  assert (zlen (live w) = size_ w) as Hl by (unfold live; rewrite length_take; lia).
  pose proof (ww_live w Hw) as Hlive.
  pose proof (count_run w now (live w) 0 0) as Hc. rewrite Hl in Hc.
  rewrite Hc; clear Hc; [|..|done|lia|lia].
  2: { intros i r Hr. apply mload_Some. split; [lia|]. unfold live in Hr.
       rewrite Z.add_0_l, Nat2Z.id. by apply lookup_take_Some in Hr as [? _]. }
  2: { eapply Forall_impl; [exact Hlive|]. by intros r []. }
  destruct (forallb _ (live w)) eqn:Hall; cbn [andb mbind outcome_bind]; [|by eauto].
  rewrite Z.add_0_l, remaining_spec by done.
  destruct (Z.ltb_spec (ActionCapacity - asize_ a)
    (emissions (expiry_effect (config_ w) now <$> live w))),
    (Z.leb_spec (asize_ a + emissions (expiry_effect (config_ w) now <$> live w))
      ActionCapacity); try lia; cbn [stop_if mbind outcome_bind]; [by eauto|].
  destruct (sweep w a (expire_record (config_ w) now)
    (expiry_effect (config_ w) now <$> live w)) as (c & Hrun & Hpost); [done..| | |lia|].
  - apply Forall2_fmap_r, Forall_Forall2_diag, Forall_forall. intros r _.
    apply expiry_effect_ok.
  - intros i r e Hr He. rewrite list_lookup_fmap, Hr in He. injection He as <-.
    apply forallb_forall with (x := r) in Hall; [|by eapply list_elem_of_In, list_elem_of_lookup_2].
    assert (record_ok (config_ w) (last_sequence_number_ w) r) as [_ ? _]
      by (by eapply Forall_lookup_1).
    apply expire_record_effect; lia.
  - rewrite Hrun. cbn [mbind outcome_bind]. eexists _, _. split; [done|]. by apply Hpost.
Qed.

(** ** [write] *)

(** When [write] accepts a sample. *)
Definition accepts (w : ReliableWriter) (payload : option (list Z))
    (payload_size sequence_number : Z) (a : ReliabilityActionBuffer) : bool :=
  valid_ w && negb (RelMsg.null_with_size payload payload_size) &&
  (payload_size <=? MaxPayloadBytes) && (1 <=? sequence_number) &&
  (sequence_number <? i64_max) && (last_sequence_number_ w <? sequence_number) &&
  (size_ w <? HistoryDepth) && (asize_ a <? ActionCapacity).

Record written (w w' : ReliableWriter) (a a' : ReliabilityActionBuffer)
    (payload : option (list Z)) (payload_size seq now : Z) (r : WriterRecord) : Prop := {
  wn_live : live w' = live w ++ [r];
  wn_sample : History.sample_view (sample r) =
    (take (Z.to_nat payload_size) (default [] payload),
     {| History.sequence_number := seq; History.source_timestamp_ns := now |});
  wn_size : History.sample_size_ (sample r) = payload_size;
  wn_send : first_send_ns r = now;
  wn_attempts : repair_attempts r = 0;
  wn_actions : contents a' = contents a ++
    [sample_action send_data seq (Some (zlen (live w))) payload_size repair_none];
  wn_last : last_sequence_number_ w' = seq;
  wn_config : config_ w' = config_ w;
  wn_wf : writer_wf w';
  wn_buffer : buffer_wf ActionCapacity a';
}.

Lemma live_length w : writer_wf w -> zlen (live w) = size_ w.
Proof.
  intros Hw. pose proof (ww_records w Hw). pose proof (ww_size w Hw).
  unfold live. rewrite length_take. lia.
Qed.

Lemma write_store w r w' :
  writer_wf w -> size_ w < HistoryDepth ->
  History.sample_wf MaxPayloadBytes (sample r) ->
  record_ok (config_ w) (record_sequence r) r -> record_sequence r < i64_max ->
  last_sequence_number_ w < record_sequence r ->
  records_ w' = <[Z.to_nat (size_ w) := r]> (records_ w) -> size_ w' = size_ w + 1 ->
  last_sequence_number_ w' = record_sequence r -> config_ w' = config_ w ->
  valid_ w' = valid_ w ->
  live w' = live w ++ [r] /\ writer_wf w'.
Proof.
  intros Hw Hsz Hs Hr Hmax Hlast Hrecs Hsize Hlast' Hcfg Hval.
  pose proof (ww_records w Hw) as Hlen. pose proof (ww_size w Hw) as Hsz0.
  assert (live w' = live w ++ [r]) as Hlive.
  { unfold live. rewrite Hrecs, Hsize.
    replace (Z.to_nat (size_ w + 1)) with (S (Z.to_nat (size_ w))) by lia.
    rewrite (take_S_r _ _ r) by (apply list_lookup_insert_eq; lia).
    by rewrite take_insert_ge by lia. }
  split; [done|]. destruct Hw. pose proof (ro_sequence _ _ _ Hr) as Hrs.
  split; rewrite ?Hcfg, ?Hval, ?Hlast', ?Hlive; try done.
  - by rewrite Hrecs, length_insert.
  - lia.
  - rewrite Hrecs. by apply Forall_insert.
  - apply Forall_app. split; [|by apply Forall_singleton].
    eapply Forall_impl; [exact ww_live0|]. intros x []. split; (done || lia).
  - rewrite fmap_app. apply StronglySorted_app_2; [|done|repeat constructor].
    intros x y Hx Hy. apply list_elem_of_singleton in Hy as ->.
    apply list_elem_of_fmap in Hx as (q & -> & Hq).
    rewrite Forall_forall in ww_live0. pose proof (ro_sequence _ _ _ (ww_live0 q Hq)). lia.
  - lia.
Qed.

Lemma write_post w payload payload_size seq now a :
  writer_wf w -> buffer_wf ActionCapacity a -> History.readable payload payload_size ->
  0 <= seq < 2 ^ 64 -> 0 <= now < 2 ^ 64 ->
  if accepts w payload payload_size seq a then
    exists w' a' r, write w payload payload_size seq now a = Done (w', a') /\
      written w w' a a' payload payload_size seq now r
  else exists e, write w payload payload_size seq now a = Stop e /\ e <> rel_ok.
Proof.
  intros Hw Ha Hread Hseq Hnow. unfold write, accepts, valid_state_sequence.
  destruct (valid_ w) eqn:Hvalid; cbn [andb negb stop_if mbind outcome_bind];
    [|by eauto].
  destruct (RelMsg.null_with_size payload payload_size) eqn:Hnull;
    cbn [andb negb stop_if mbind outcome_bind]; [by eauto|].
  rewrite (Z.ltb_antisym payload_size MaxPayloadBytes).
  destruct (Z.leb_spec payload_size MaxPayloadBytes);
    cbn [andb negb stop_if mbind outcome_bind]; [|by eauto].
  destruct (Z.eqb_spec seq 0), (Z.leb_spec 1 seq); try lia;
    cbn [andb negb stop_if mbind outcome_bind]; [by eauto|].
  destruct (Z.ltb_spec seq i64_max); cbn [andb negb stop_if mbind outcome_bind];
    [|by eauto].
  pose proof (ww_last w Hw) as Hlast. pose proof (ww_size w Hw) as Hsz.
  destruct (Z.ltb_spec (last_sequence_number_ w) seq) as [Hlt|Hge]; cbn [andb]; cycle 1.
  { destruct (Z.eqb_spec (last_sequence_number_ w) 0); [lia|].
    destruct (Z.leb_spec seq (last_sequence_number_ w)); [|lia].
    cbn [andb negb stop_if mbind outcome_bind]. by eauto. }
  destruct (Z.leb_spec seq (last_sequence_number_ w)); [lia|]. rewrite andb_false_r.
  cbn [stop_if mbind outcome_bind].
  destruct (Z.ltb_spec (size_ w) HistoryDepth), (Z.eqb_spec (size_ w) HistoryDepth);
    try lia; cbn [andb stop_if mbind outcome_bind]; [|by eauto].
  rewrite remaining_spec by done. pose proof (bw_size _ _ Ha).
  destruct (Z.ltb_spec (asize_ a) ActionCapacity),
    (Z.eqb_spec (ActionCapacity - asize_ a) 0); try lia;
    cbn [stop_if mbind outcome_bind]; [|by eauto].
  pose proof (ww_records w Hw) as Hlen.
  destruct (proj2 (mload_is_Some (records_ w) (size_ w))) as [old Hold]; [lia|].
  rewrite Hold. cbn [access mbind outcome_bind].
  assert (History.sample_wf MaxPayloadBytes (sample old)) as Hswf.
  { apply (mload_Forall (fun r => History.sample_wf MaxPayloadBytes (sample r))
      (records_ w) (size_ w) old); [apply Hw|done]. }
  set (md := {| History.sequence_number := seq; History.source_timestamp_ns := now |}).
  pose proof (History.assign_Done MaxPayloadBytes (sample old) payload payload_size md)
    as Hassign.
  pose proof (History.assign_spec MaxPayloadBytes (sample old) payload payload_size md
    Hswf Hread) as Hspec.
  assert (exists s, History.assign MaxPayloadBytes (sample old) payload payload_size md
    = Done s /\ History.sample_size_ s = payload_size /\ History.metadata_ s = md)
    as (s & Hs & Hssz & Hsmd).
  { rewrite Hspec. destruct payload as [p|].
    - destruct (Z.ltb_spec MaxPayloadBytes payload_size); [lia|]. by eexists.
    - unfold RelMsg.null_with_size in Hnull. apply negb_false_iff in Hnull.
      rewrite Hnull. destruct (Z.ltb_spec MaxPayloadBytes 0); [lia|].
      apply Z.eqb_eq in Hnull. eexists. split; [done|]. by rewrite Hnull. }
  rewrite Hs. cbn [map_stop mbind outcome_bind].
  destruct (Hassign s Hswf Hread Hs) as [Hsw Hview].
  unfold mstore. destruct (Z.leb_spec 0 (size_ w)), (Z.ltb_spec (size_ w) (zlen (records_ w)));
    try lia. cbn [andb access mbind outcome_bind].
  edestruct (push_ignored_spec (E:=ReliabilityError) ActionCapacity a)
    as (b & Hb & Hbwf & Hc & _); [done|lia|].
  rewrite Hb. cbn [mbind outcome_bind].
  set (r := {| sample := s; first_send_ns := now; repair_attempts := 0 |}).
  assert (record_sequence r = seq) as Hrseq by (unfold record_sequence, r; cbn [sample]; by rewrite Hsmd).
  eexists _, b, r. split; [done|]. rewrite add64_id by lia.
  match goal with |- written w ?x _ _ _ _ _ _ _ =>
    destruct (write_store w r x) as [Hlive Hwf'] end;
    rewrite ?Hrseq; try done; try (by symmetry).
  { pose proof (ww_attempts w Hw). split; cbn; [rewrite Hrseq|..]; lia. }
  split; try done. rewrite Hc, Hssz, live_length by done. done.
Qed.

End Writer.
End Writer.
