(* ===== verification/WriterTrace.v ===== *)
(** * What a reliable writer guarantees over its whole life

    The operations of [ReliableWriter] driven by an arbitrary sequence of calls;
    the caller drains the action buffer whenever it likes.  The theorems are
    about the log of all actions ever emitted. *)
From S2P Require Import Prelude.
From S2P Require Import Bytes.
From S2P Require Import Types.
From S2P Require Import KeepLastHistory.
From S2P Require Import ReliabilityMessages.
From S2P Require Import ReliabilityState.
From S2P Require Import ReliableWriter.

Module WriterTrace.
Import Types Rel Writer.

(** ** Actions of one sweep *)

Definition retransmits (s : Z) (actions : list ReliabilityAction) : Z :=
  zlen (filter (fun a => kind a = retransmit_data /\ sequence_number a = s) actions).

Lemma retransmits_app s l1 l2 :
  retransmits s (l1 ++ l2) = retransmits s l1 + retransmits s l2.
Proof. unfold retransmits. rewrite filter_app, length_app. lia. Qed.

Lemma retransmits_cons s a l :
  retransmits s (a :: l) =
  (if decide (kind a = retransmit_data /\ sequence_number a = s) then 1 else 0) +
  retransmits s l.
Proof.
  unfold retransmits. rewrite filter_cons. destruct (decide _); cbn [length]; lia.
Qed.

Lemma retransmits_nonneg s l : 0 <= retransmits s l.
Proof. unfold retransmits. lia. Qed.

Section Sweep.
Context (config : ReliableWriterConfig).

Lemma sweep_no_sends rs es d :
  Forall2 (effect_ok config) rs es -> seqs_of send_data (emitted es d) = [].
Proof.
  intros Hes. revert d. induction Hes as [|r e rs es He Hes IH]; intros d; [done|].
  destruct He as [|Hlt|a [[Hk|Hk] _] Hseq]; rewrite ?emitted_some, ?emitted_none;
    [apply IH|..]; unfold seqs_of in *; rewrite filter_cons_False;
    try apply IH; cbn; congruence.
Qed.

Lemma sweep_foreign rs es d s :
  Forall2 (effect_ok config) rs es -> s ∉ (record_sequence <$> rs) ->
  retransmits s (emitted es d) = 0.
Proof.
  intros Hes. revert d. induction Hes as [|r e rs es He Hes IH]; intros d Hs; [done|].
  rewrite fmap_cons, not_elem_of_cons in Hs. destruct Hs as [Hr Hs].
  destruct He as [|Hlt|a [[Hk|Hk] _] Hseq]; rewrite ?emitted_some, ?emitted_none;
    [by apply IH|..]; rewrite retransmits_cons, IH by done; case_decide as Hd; try done;
    cbn in Hd; destruct Hd; congruence.
Qed.

(** A sweep retransmits a sample at most once, only below its repair limit, and
    counts the retransmission in the record it retains. *)
Lemma sweep_retransmits rs es d :
  Forall2 (effect_ok config) rs es -> NoDup (record_sequence <$> rs) ->
  (forall r', r' ∈ retained es -> exists r, r ∈ rs /\
     record_sequence r = record_sequence r' /\
     repair_attempts r' = repair_attempts r + retransmits (record_sequence r') (emitted es d)) /\
  (forall s, retransmits s (emitted es d) = 0 \/
     retransmits s (emitted es d) = 1 /\ exists r, r ∈ rs /\ record_sequence r = s /\
       repair_attempts r < max_repair_attempts config).
Proof.
  intros Hes. revert d.
  induction Hes as [|r e rs es He Hes IH]; intros d Hnd.
  { split; [|by left]. intros r' Hr'. by apply not_elem_of_nil in Hr'. }
  rewrite fmap_cons, NoDup_cons in Hnd. destruct Hnd as [Hfresh Hnd].
  destruct He as [|Hlt|a [Hk _] Hseq];
    rewrite ?emitted_some, ?emitted_none, ?retained_some, ?retained_none;
    edestruct IH as [IH1 IH2]; [done| |done| |done|].
  - split.
    + intros r' [->|Hr']%elem_of_cons.
      * exists r. rewrite (sweep_foreign rs es) by done.
        split_and!; [by left|done|lia].
      * destruct (IH1 r' Hr') as (q & Hq & ? & ?). exists q. by split_and!; [right|..].
    + intros s. destruct (IH2 s) as [H0|(H1 & q & Hq & ?)]; [by left|right].
      split; [done|]. exists q. by split; [right|].
  - split.
    + intros r' [->|Hr']%elem_of_cons.
      * exists r. change (record_sequence (bump r)) with (record_sequence r).
        rewrite retransmits_cons, (sweep_foreign rs es), decide_True by done.
        split_and!; [by left|done|done].
      * destruct (IH1 r' Hr') as (q & Hq & Hqs & Hqa). exists q.
        rewrite retransmits_cons, decide_False; [by split_and!; [right|..]|].
        intros [_ Heq]. cbn in Heq. apply Hfresh, list_elem_of_fmap.
        exists q. by rewrite Hqs.
    + intros s. rewrite retransmits_cons. case_decide as Hd; cbn in Hd.
      * destruct Hd as [_ <-]. right. rewrite (sweep_foreign rs es) by done.
        split; [done|]. exists r. by split_and!; [left|..].
      * destruct (IH2 s) as [H0|(H1 & q & Hq & ?)]; [by left|right].
        split; [done|]. exists q. by split; [right|].
  - assert (kind a <> retransmit_data) as Hnr by (destruct Hk; congruence).
    split.
    + intros r' Hr'. rewrite retransmits_cons, decide_False by tauto.
      destruct (IH1 r' Hr') as (q & Hq & ? & ?). exists q. by split_and!; [right|..].
    + intros s. rewrite retransmits_cons, decide_False by tauto.
      destruct (IH2 s) as [H0|(H1 & q & Hq & ?)]; [by left|right].
      split; [done|]. exists q. by split; [right|].
Qed.

(** Data pointers emitted by a sweep designate the slots the compaction has
    moved the retransmitted samples to. *)
Lemma sweep_points rs es d x k :
  Forall2 (effect_ok config) rs es -> x ∈ emitted es d -> data x = Some k ->
  d <= k /\ exists r, retained es !! Z.to_nat (k - d) = Some r /\
    record_sequence r = sequence_number x /\
    History.sample_size_ (sample r) = data_size x.
Proof.
  intros Hes. revert d. induction Hes as [|r e rs es He Hes IH]; intros d Hx Hk.
  { by apply not_elem_of_nil in Hx. }
  destruct He as [|Hlt|a [_ Ha] Hseq];
    rewrite ?emitted_some, ?emitted_none, ?retained_some, ?retained_none in *;
    cbn [one_if] in *.
  - destruct (IH (d + 1) Hx Hk) as (Hd & q & Hq & ?). split; [lia|]. exists q.
    replace (Z.to_nat (k - d)) with (S (Z.to_nat (k - (d + 1)))) by lia. done.
  - apply elem_of_cons in Hx as [->|Hx].
    + cbn in Hk. injection Hk as <-. split; [lia|]. exists (bump r).
      rewrite Z.sub_diag. done.
    + destruct (IH (d + 1) Hx Hk) as (Hd & q & Hq & ?). split; [lia|]. exists q.
      replace (Z.to_nat (k - d)) with (S (Z.to_nat (k - (d + 1)))) by lia. done.
  - rewrite Z.add_0_r in *. apply elem_of_cons in Hx as [->|Hx]; [congruence|].
    by apply IH.
Qed.
End Sweep.

(** ** Runs *)

Inductive writer_op : Set :=
  | Write (payload : option (list Z)) (payload_size seq now : Z)
  | AckNack (acknack : RelMsg.AckNackView) (now : Z)
  | Timer (now : Z)
  | Heartbeat (heartbeat : RelMsg.HeartbeatConfig)
  | Drain.

Section Trace.
Context (HistoryDepth MaxPayloadBytes ActionCapacity : Z).
Context (Depth_pos : 0 < HistoryDepth < 2 ^ 64).
Context (Max_pos : 0 < MaxPayloadBytes < 2 ^ 64).
Context (Capacity_pos : 0 < ActionCapacity < 2 ^ 64).

(** The writer, the action buffer and the actions drained so far. *)
Record machine : Set := {
  m_writer : ReliableWriter;
  m_actions : ReliabilityActionBuffer;
  m_drained : list ReliabilityAction;
}.

Definition machine_init (config : ReliableWriterConfig) : machine :=
  {| m_writer := ReliableWriter_new HistoryDepth MaxPayloadBytes config;
     m_actions := ActionBuffer_init ActionCapacity; m_drained := [] |}.

(** Every action emitted so far. *)
Definition log (m : machine) : list ReliabilityAction := m_drained m ++ contents (m_actions m).

Definition committed (m : machine)
    (r : outcome ReliabilityError (ReliableWriter * ReliabilityActionBuffer)) : option machine :=
  '(_, (w, a)) ← commit rel_ok (m_writer m, m_actions m) r;
  Some {| m_writer := w; m_actions := a; m_drained := m_drained m |}.

(** A call that returns an error changes nothing; [None] is a fault. *)
Definition writer_step (m : machine) (op : writer_op) : option machine :=
  let w := m_writer m in
  let a := m_actions m in
  match op with
  | Write p n seq now => committed m
      (write HistoryDepth MaxPayloadBytes ActionCapacity w p n seq now a)
  | AckNack ack now => committed m (on_acknack HistoryDepth ActionCapacity w ack now a)
  | Timer now => committed m (on_timer ActionCapacity w now a)
  | Heartbeat hb =>
      '(_, (w, _)) ← commit rel_ok (w, hb) (fill_heartbeat w hb);
      Some {| m_writer := w; m_actions := a; m_drained := m_drained m |}
  | Drain => Some {| m_writer := w; m_actions := clear a;
                     m_drained := m_drained m ++ contents a |}
  end.

Fixpoint writer_run (m : machine) (ops : list writer_op) : option machine :=
  match ops with
  | [] => Some m
  | op :: ops' => m' ← writer_step m op; writer_run m' ops'
  end.

(** Arguments within their C++ types; an ACKNACK as the parser delivers it. *)
Definition op_ok (op : writer_op) : Prop :=
  match op with
  | Write p n seq now => History.readable p n /\ 0 <= seq < 2 ^ 64 /\ 0 <= now < 2 ^ 64
  | AckNack ack now => RelMsg.sns_wf (RelMsg.an_reader_state ack) /\ 0 <= now < 2 ^ 64
  | Timer now => 0 <= now < 2 ^ 64
  | Heartbeat _ | Drain => True
  end.

Definition config_ok (config : ReliableWriterConfig) : Prop :=
  0 <= max_repair_attempts config <= 255 /\ 0 <= repair_window_ns config < 2 ^ 64.

Abbreviation wf := (writer_wf HistoryDepth MaxPayloadBytes).

Record machine_inv (config : ReliableWriterConfig) (m : machine) : Prop := {
  mi_wf : wf (m_writer m);
  mi_buffer : buffer_wf ActionCapacity (m_actions m);
  mi_config : config_ (m_writer m) = config;
  mi_conserved : (record_sequence <$> live (m_writer m)) ++ finished (log m)
    ≡ₚ seqs_of send_data (log m);
  mi_sent_sorted : StronglySorted Z.lt (seqs_of send_data (log m));
  mi_sent_last : Forall (fun s => 1 <= s <= last_sequence_number_ (m_writer m))
    (seqs_of send_data (log m));
  mi_attempts : forall r, r ∈ live (m_writer m) ->
    repair_attempts r = retransmits (record_sequence r) (log m);
  mi_limit : forall s, retransmits s (log m) <= max_repair_attempts config;
  mi_unsent : forall s, last_sequence_number_ (m_writer m) < s -> retransmits s (log m) = 0;
}.

Lemma init_inv config : config_ok config -> machine_inv config (machine_init config).
Proof.
  intros [Hatt Hwin]. assert (log (machine_init config) = []) as Hlog by done.
  split; rewrite ?Hlog; try done; try (by repeat constructor).
  - split; cbn -[i64_max]; rewrite ?length_replicate; try done; try lia.
    + apply Forall_replicate. split; cbn; rewrite ?length_replicate; lia.
    + constructor.
  - by apply init_buffer_wf.
  - intros r Hr. by apply not_elem_of_nil in Hr.
  - intros s. change (0 <= max_repair_attempts config). lia.
Qed.

Lemma sorted_nodup (l : list Z) : StronglySorted Z.lt l -> NoDup l.
Proof.
  induction 1 as [|x l Hl IH Hx]; constructor; [|done].
  intros Hin. rewrite Forall_forall in Hx. specialize (Hx x Hin). lia.
Qed.

(** A sweep over the live records keeps the invariant. *)
Lemma swept_inv config m w' a' es :
  machine_inv config m ->
  swept HistoryDepth MaxPayloadBytes ActionCapacity
    (m_writer m) w' (m_actions m) a' es ->
  machine_inv config {| m_writer := w'; m_actions := a'; m_drained := m_drained m |}.
Proof.
  intros [I1 I2 I3 I4 I5 I6 I7 I8 I9] [S1 S2 S3 S4 S5 S6 S7].
  assert (log {| m_writer := w'; m_actions := a'; m_drained := m_drained m |} =
          log m ++ emitted es 0) as Hlog
    by (unfold log; cbn; by rewrite S3, app_assoc).
  rewrite I3 in *. pose proof (ww_sorted _ _ _ I1) as Hsorted.
  destruct (sweep_retransmits config _ es 0 S1 (sorted_nodup _ Hsorted)) as [R1 R2].
  split; cbn [m_writer m_actions]; rewrite ?Hlog, ?seqs_of_app, ?finished_app,
    ?(sweep_no_sends config _ es 0 S1), ?app_nil_r, ?S7; try done.
  - rewrite S2, <- I4, <- (effects_conserve config _ es 0 S1).
    rewrite (Permutation_app_comm (finished (log m))), app_assoc. done.
  - intros r' Hr'. rewrite S2 in Hr'. destruct (R1 r' Hr') as (r & Hr & Hs & Ha).
    rewrite retransmits_app, Ha, (I7 r Hr), Hs. done.
  - intros s. rewrite retransmits_app.
    destruct (R2 s) as [->|(-> & r & Hr & <- & Hlt)]; [specialize (I8 s); lia|].
    rewrite <- (I7 r Hr). lia.
  - intros s Hs. rewrite retransmits_app, I9 by done.
    rewrite (sweep_foreign config (live (m_writer m)) es); [done..|].
    intros (r & -> & Hr)%list_elem_of_fmap.
    pose proof (ww_live _ _ _ I1) as Hl. rewrite Forall_forall in Hl.
    pose proof (ro_sequence _ _ _ (Hl r Hr)). lia.
Qed.

Lemma written_inv config m w' a' p n seq now r :
  machine_inv config m -> last_sequence_number_ (m_writer m) < seq -> 1 <= seq ->
  written HistoryDepth MaxPayloadBytes ActionCapacity
    (m_writer m) w' (m_actions m) a' p n seq now r ->
  machine_inv config {| m_writer := w'; m_actions := a'; m_drained := m_drained m |}.
Proof.
  intros [I1 I2 I3 I4 I5 I6 I7 I8 I9] Hlast Hseq [W1 W2 WS W3 W4 W5 W6 W7 W8 W9].
  set (act := sample_action send_data seq (Some (zlen (live (m_writer m)))) n repair_none)
    in *.
  assert (log {| m_writer := w'; m_actions := a'; m_drained := m_drained m |} =
          log m ++ [act]) as Hlog by (unfold log; cbn; by rewrite W5, app_assoc).
  assert (record_sequence r = seq) as Hr.
  { unfold record_sequence. unfold History.sample_view in W2. by injection W2 as _ ->. }
  assert (forall s, retransmits s (log m ++ [act]) = retransmits s (log m)) as Hrt.
  { intros s. rewrite retransmits_app, retransmits_cons, decide_False by (by intros []).
    change (retransmits s []) with 0. lia. }
  split; cbn [m_writer m_actions]; rewrite ?Hlog, ?seqs_of_app, ?finished_app, ?W6; try done.
  - by rewrite W7.
  - rewrite W1, fmap_app. csimpl. rewrite Hr. cbn.
    rewrite <- I4, app_nil_r, <- !app_assoc. apply Permutation_app_head.
    apply Permutation_app_comm.
  - apply StronglySorted_app_2; [|done|repeat constructor].
    intros x y Hx Hy. change (seqs_of send_data [act]) with [seq] in Hy. apply list_elem_of_singleton in Hy as ->.
    rewrite Forall_forall in I6. specialize (I6 x Hx). lia.
  - change (seqs_of send_data [act]) with [seq]. apply Forall_app.
    split; [|apply Forall_singleton; lia].
    eapply Forall_impl; [exact I6|]. cbn. lia.
  - intros q Hq. rewrite Hrt. rewrite W1 in Hq.
    apply elem_of_app in Hq as [Hq|Hq]; [by apply I7|].
    apply list_elem_of_singleton in Hq as ->.
    by rewrite W4, Hr, I9.
  - intros s. by rewrite Hrt.
  - intros s Hs. rewrite Hrt. apply I9. lia.
Qed.

Lemma heartbeat_inv config m hb w' hb' :
  machine_inv config m -> fill_heartbeat (m_writer m) hb = Done (w', hb') ->
  machine_inv config {| m_writer := w'; m_actions := m_actions m;
                        m_drained := m_drained m |}.
Proof.
  intros [I1 I2 I3 I4 I5 I6 I7 I8 I9] Hf. unfold fill_heartbeat in Hf. inv_done.
  split; try done. by destruct I1.
Qed.

Lemma drain_inv config m :
  machine_inv config m ->
  machine_inv config {| m_writer := m_writer m; m_actions := clear (m_actions m);
                        m_drained := m_drained m ++ contents (m_actions m) |}.
Proof.
  intros [I1 I2 I3 I4 I5 I6 I7 I8 I9].
  assert (log {| m_writer := m_writer m; m_actions := clear (m_actions m);
                 m_drained := m_drained m ++ contents (m_actions m) |} = log m) as Hlog
    by (apply app_nil_r).
  split; rewrite ?Hlog; try done. destruct I2. split; cbn; (done || lia).
Qed.

Lemma fill_heartbeat_safe w hb : wf w -> safe (fill_heartbeat w hb).
Proof.
  intros Hw. unfold fill_heartbeat. pose proof (ww_size _ _ _ Hw).
  pose proof (ww_records _ _ _ Hw).
  destruct (Z.eqb_spec (size_ w) 0); repeat safe_step.
  apply safe_access, mload_is_Some. lia.
Qed.

Lemma writer_step_inv config m op :
  machine_inv config m -> op_ok op ->
  exists m', writer_step m op = Some m' /\ machine_inv config m'.
Proof.
  intros Hm Hop. pose proof (mi_wf _ _ Hm) as Hw. pose proof (mi_buffer _ _ Hm) as Hb.
  assert (machine_inv config {| m_writer := m_writer m; m_actions := m_actions m;
                                m_drained := m_drained m |}) as Hm' by (by destruct m).
  destruct op as [p n seq now|ack now|now|hb|]; cbn [op_ok writer_step] in *;
    unfold committed.
  - destruct Hop as (Hread & Hseq & Hnow).
    pose proof (write_post HistoryDepth MaxPayloadBytes ActionCapacity Depth_pos Max_pos
      (m_writer m) p n seq now (m_actions m) Hw Hb Hread Hseq Hnow) as Hpost.
    destruct (accepts _ _ _ _ _ _ _ _) eqn:Hacc.
    + destruct Hpost as (w' & a' & r & -> & Hwr). eexists. split; [done|].
      unfold accepts in Hacc. rewrite !andb_true_iff, !Z.ltb_lt, !Z.leb_le in Hacc.
      eapply written_inv; [done| | |exact Hwr]; lia.
    + destruct Hpost as (e & -> & _). by eexists.
  - pose proof (on_acknack_post HistoryDepth MaxPayloadBytes ActionCapacity Depth_pos Max_pos
      (m_writer m) ack now (m_actions m) Hw Hb (proj1 Hop)) as Hpost.
    destruct (on_acknack _ _ _ _ _ _) as [|e|[w' a']]; [done|by eexists|].
    destruct Hpost as (ds & _ & Hs). eexists. split; [done|]. by eapply swept_inv.
  - pose proof (on_timer_cases HistoryDepth MaxPayloadBytes ActionCapacity Depth_pos
      (m_writer m) now (m_actions m) Hw Hb Hop) as Hpost.
    destruct (timer_ready _ _ _ _).
    + destruct Hpost as (w' & a' & -> & Hs). eexists. split; [done|]. by eapply swept_inv.
    + destruct Hpost as (e & -> & _). by eexists.
  - pose proof (fill_heartbeat_safe (m_writer m) hb Hw) as Hsafe.
    pose proof (heartbeat_inv config m hb) as Hinv.
    destruct (fill_heartbeat (m_writer m) hb) as [|e|[w' hb']]; [done|by eexists|].
    eexists. split; [done|]. by eapply Hinv.
  - eexists. split; [done|]. by apply drain_inv.
Qed.

Lemma writer_run_inv config ops : forall m,
  machine_inv config m -> Forall op_ok ops ->
  exists m', writer_run m ops = Some m' /\ machine_inv config m'.
Proof.
  induction ops as [|op ops IH]; intros m Hm Hops; [by eauto|].
  apply Forall_cons in Hops as [Hop Hops]. cbn [writer_run].
  destruct (writer_step_inv config m op Hm Hop) as (m1 & -> & Hm1). by apply IH.
Qed.

(** ** What is reported as delivered *)

(** The ACKNACK state [st] acknowledges the sequence number [s]. *)
Definition ack_covers (st : RelMsg.SequenceNumberSet) (s : Z) : bool :=
  (s <? RelMsg.bitmap_base_ st) ||
  ((s - RelMsg.bitmap_base_ st <? RelMsg.num_bits_ st) &&
   negb (RelMsg.sns_bit st (s - RelMsg.bitmap_base_ st))).

(** What the writer owes a held sample on an ACKNACK with state [st]. *)
Definition verdict (config : ReliableWriterConfig) (st : RelMsg.SequenceNumberSet)
    (now : Z) (r : WriterRecord) : Decision :=
  if ack_covers st (record_sequence r) then deliver
  else if record_sequence r - RelMsg.bitmap_base_ st <? RelMsg.num_bits_ st then
    if expired config now r then fail_window
    else if max_repair_attempts config <=? repair_attempts r then fail_attempts
    else repair
  else keep.

Lemma decide_verdict config last ack now r d :
  RelMsg.sns_wf (RelMsg.an_reader_state ack) -> record_ok config last r ->
  last < i64_max -> now < 2 ^ 64 -> decide_record config ack now r = Done d ->
  d = verdict config (RelMsg.an_reader_state ack) now r.
Proof using Type.
  intros Hs [Hseq Hsend Hatt] Hlast Hnow. unfold i64_max in Hlast.
  unfold decide_record, verdict, ack_covers, expired, RelMsg.bitmap_base, RelMsg.num_bits.
  set (s := RelMsg.an_reader_state ack) in *.
  pose proof (RelMsg.sw_base s Hs). pose proof (RelMsg.sw_bits s Hs) as Hb.
  unfold RelMsg.maximum_bits in Hb.
  destruct (Z.ltb_spec (record_sequence r) (RelMsg.bitmap_base_ s)); [by intros [= <-]|].
  rewrite sub64_id by lia.
  destruct (Z.ltb_spec (record_sequence r - RelMsg.bitmap_base_ s) (RelMsg.num_bits_ s));
    [|by intros [= <-]].
  rewrite u32_id, RelMsg.test_bit by (done || lia). cbn [mbind outcome_bind].
  destruct (RelMsg.sns_bit s _); cbn [negb andb orb]; [|by intros [= <-]].
  destruct (Z.ltb_spec now (first_send_ns r)); cbn [stop_if mbind outcome_bind]; [done|].
  rewrite sub64_id by lia. repeat case_match; by intros [= <-].
Qed.

Lemma emitted_delivered ds : forall rs d y,
  y ∈ emitted (zip_with decision_effect ds rs) d -> kind y = sample_delivered ->
  exists i r, rs !! i = Some r /\ ds !! i = Some deliver /\
    sequence_number y = record_sequence r.
Proof using Type.
  induction ds as [|dc ds IH]; intros [|r rs] d y Hy Hk;
    try (by apply not_elem_of_nil in Hy).
  assert (forall d', y ∈ emitted (zip_with decision_effect ds rs) d' ->
    exists i r', (r :: rs) !! i = Some r' /\ (dc :: ds) !! i = Some deliver /\
      sequence_number y = record_sequence r') as Hrest.
  { intros d' Hin. destruct (IH rs d' y Hin Hk) as (i & q & ? & ? & ?).
    by exists (S i), q. }
  cbn [zip_with] in Hy. destruct dc; cbn [decision_effect] in Hy;
    rewrite ?emitted_some, ?emitted_none in Hy; [by eapply Hrest|..];
    apply elem_of_cons in Hy as [->|Hy]; try (exact (Hrest _ Hy)); try done.
  by exists 0%nat, r.
Qed.

(** The action that reports the decision [d] on [r]. *)
Definition answers (d : Decision) (r : WriterRecord) (y : ReliabilityAction) : Prop :=
  exists f k, snd (decision_effect d r) = Some f /\ y = f k.

Lemma emitted_answers ds : forall rs d i r dc,
  rs !! i = Some r -> ds !! i = Some dc ->
  (dc = keep \/ exists y, y ∈ emitted (zip_with decision_effect ds rs) d /\ answers dc r y) /\
  (dc = keep -> r ∈ retained (zip_with decision_effect ds rs)).
Proof using Type.
  induction ds as [|x ds IH]; intros [|q rs] d [|i] r dc Hr Hd; try done.
  - injection Hr as ->. injection Hd as ->. split.
    + destruct dc; [by left|right..]; cbn [zip_with decision_effect]; rewrite emitted_some;
        eexists; (split; [by left|by eexists _, d]).
    + intros ->. cbn. by left.
  - cbn in Hr, Hd. cbn [zip_with]. split.
    + destruct (decision_effect x q) as [o [f|]]; rewrite ?emitted_some, ?emitted_none;
        edestruct (IH rs) as [[?|(y & Hy & ?)] _]; try done; try (by left); right; exists y;
        (split; [|done]); [right; exact Hy|exact Hy].
    + intros ->. pose proof (proj2 (IH rs d i r keep Hr Hd) eq_refl) as Hin.
      destruct (decision_effect x q) as [[q'|] f]; rewrite ?retained_some, ?retained_none;
        [by right|done].
Qed.

Lemma expiry_no_delivery config now rs : forall d y,
  y ∈ emitted (expiry_effect config now <$> rs) d -> kind y <> sample_delivered.
Proof using Type.
  induction rs as [|r rs IH]; intros d y Hy; [by apply not_elem_of_nil in Hy|].
  rewrite fmap_cons in Hy. unfold expiry_effect at 1 in Hy.
  destruct (expired config now r); rewrite ?emitted_some, ?emitted_none in Hy;
    [apply elem_of_cons in Hy as [->|Hy]; [done|]|]; by eapply IH.
Qed.

(** A successful [on_acknack] settles every held sample by its verdict. *)
Lemma acknack_verdicts w ack now a w' a' :
  wf w -> buffer_wf ActionCapacity a -> RelMsg.sns_wf (RelMsg.an_reader_state ack) ->
  0 <= now < 2 ^ 64 ->
  on_acknack HistoryDepth ActionCapacity w ack now a = Done (w', a') ->
  exists new, contents a' = contents a ++ new /\ forall r, r ∈ live w ->
    let d := verdict (config_ w) (RelMsg.an_reader_state ack) now r in
    (d = keep /\ r ∈ live w') \/ (d <> keep /\ exists y, y ∈ new /\ answers d r y).
Proof.
  intros Hw Ha Hs Hnow Hd.
  pose proof (on_acknack_post HistoryDepth MaxPayloadBytes ActionCapacity Depth_pos Max_pos
    w ack now a Hw Ha Hs) as Hpost. rewrite Hd in Hpost.
  destruct Hpost as (ds & Hds & [_ S2 S3 _ _ _ _]). eexists. split; [exact S3|].
  intros r Hr d. apply list_elem_of_lookup in Hr as [i Hi].
  destruct (Forall2_lookup_l _ _ _ _ _ Hds Hi) as (d' & Hd' & Hdec).
  assert (d' = d) as -> by (eapply decide_verdict; [done| |apply Hw|lia|done];
    exact (Forall_lookup_1 _ _ _ _ (ww_live _ _ _ Hw) Hi)).
  destruct (emitted_answers ds (live w) 0 i r d Hi Hd') as [Hy Hk].
  destruct (decide (d = keep)) as [e|Hne]; [left; rewrite S2; auto|right].
  split; [done|]. by destruct Hy.
Qed.

(** The log only grows, and a sample is reported as delivered only in answer to
    an ACKNACK that acknowledges it. *)
Lemma writer_step_log config m op m' :
  machine_inv config m -> op_ok op -> writer_step m op = Some m' ->
  exists new, log m' = log m ++ new /\
    forall y, y ∈ new -> kind y = sample_delivered ->
      exists ack now, op = AckNack ack now /\ 1 <= sequence_number y /\
        ack_covers (RelMsg.an_reader_state ack) (sequence_number y) = true.
Proof.
  intros Hm Hop Hstep. pose proof (mi_wf _ _ Hm) as Hw. pose proof (mi_buffer _ _ Hm) as Hb.
  assert (forall w' a' new, m' = {| m_writer := w'; m_actions := a'; m_drained := m_drained m |} ->
    contents a' = contents (m_actions m) ++ new -> log m' = log m ++ new) as Hlog.
  { intros w' a' new -> Ha. unfold log. cbn. by rewrite Ha, app_assoc. }
  assert (forall w', m' = {| m_writer := w'; m_actions := m_actions m;
      m_drained := m_drained m |} -> log m' = log m ++ []) as Hsame
    by (intros w' ->; by rewrite app_nil_r).
  assert (forall y : ReliabilityAction, y ∈ [] -> kind y = sample_delivered ->
    exists ack now, op = AckNack ack now /\ 1 <= sequence_number y /\
      ack_covers (RelMsg.an_reader_state ack) (sequence_number y) = true) as Hnone
    by (by intros y ?%not_elem_of_nil).
  destruct op as [p n seq now|ack now|now|hb|]; cbn [op_ok writer_step] in *;
    unfold committed in Hstep.
  - destruct Hop as (Hread & Hseq & Hnow).
    pose proof (write_post HistoryDepth MaxPayloadBytes ActionCapacity Depth_pos Max_pos
      (m_writer m) p n seq now (m_actions m) Hw Hb Hread Hseq Hnow) as Hpost.
    destruct (accepts _ _ _ _ _ _ _ _).
    + destruct Hpost as (w' & a' & r & Hd & Hwr). rewrite Hd in Hstep. injection Hstep as <-.
      eexists. split; [eapply Hlog, Hwr; done|].
      by intros y ->%list_elem_of_singleton.
    + destruct Hpost as (e & Hd & _). rewrite Hd in Hstep. injection Hstep as <-.
      exists []. split; [by eapply Hsame|done].
  - pose proof (on_acknack_post HistoryDepth MaxPayloadBytes ActionCapacity Depth_pos Max_pos
      (m_writer m) ack now (m_actions m) Hw Hb (proj1 Hop)) as Hpost.
    destruct (on_acknack _ _ _ _ _ _) as [|e|[w' a']]; [done| |]; injection Hstep as <-.
    { exists []. split; [by eapply Hsame|done]. }
    destruct Hpost as (ds & Hds & Hs). eexists. split; [eapply Hlog, Hs; done|].
    intros y Hy Hk. destruct (emitted_delivered _ _ _ _ Hy Hk) as (i & r & Hr & Hd & ->).
    pose proof (Forall_lookup_1 _ _ _ _ (ww_live _ _ _ Hw) Hr) as Hrok.
    exists ack, now. split; [done|]. split; [apply Hrok|].
    pose proof (decide_verdict _ _ _ _ _ _ (proj1 Hop) Hrok (proj2 (ww_last _ _ _ Hw))
      (proj2 (proj2 Hop)) (Forall2_lookup_lr _ _ _ _ _ _ Hds Hr Hd)) as Hv.
    unfold verdict in Hv. by repeat case_match.
  - pose proof (on_timer_cases HistoryDepth MaxPayloadBytes ActionCapacity Depth_pos
      (m_writer m) now (m_actions m) Hw Hb Hop) as Hpost.
    destruct (timer_ready _ _ _ _).
    + destruct Hpost as (w' & a' & Hd & Hs). rewrite Hd in Hstep. injection Hstep as <-.
      eexists. split; [eapply Hlog, Hs; done|].
      intros y Hy Hk. by apply expiry_no_delivery in Hy.
    + destruct Hpost as (e & Hd & _). rewrite Hd in Hstep. injection Hstep as <-.
      exists []. split; [by eapply Hsame|done].
  - destruct (fill_heartbeat (m_writer m) hb) as [|e|[w' hb']]; [done|..];
      injection Hstep as <-; exists []; (split; [by eapply Hsame|done]).
  - injection Hstep as <-. exists []. split; [|done]. unfold log. cbn.
    by rewrite !app_nil_r.
Qed.

(** C12: no sample is ever lost or reported twice. Over any sequence of writes,
    acknowledgements, timer ticks, heartbeats and drains of the action buffer,
    whether the calls succeed or return errors, the writer never accesses memory
    outside its arrays, and the sequence numbers it accepted (those it emitted
    [send_data] for, all distinct) are exactly those it still holds together with
    those it reported as delivered or failed, each exactly once. *)
Theorem writer_conserves_samples config ops :
  config_ok config -> Forall op_ok ops ->
  exists m, writer_run (machine_init config) ops = Some m /\
    NoDup (seqs_of send_data (log m)) /\
    (record_sequence <$> live (m_writer m)) ++ finished (log m)
      ≡ₚ seqs_of send_data (log m).
Proof.
  intros Hc Hops. destruct (writer_run_inv config ops (machine_init config)
    (init_inv config Hc) Hops) as (m & Hrun & Hm).
  exists m. split_and!; [done|apply sorted_nodup|]; apply Hm.
Qed.

(** Repairs are bounded: over any such sequence of calls a sample is
    retransmitted at most [max_repair_attempts] times. *)
Theorem writer_bounds_repairs config ops s :
  config_ok config -> Forall op_ok ops ->
  exists m, writer_run (machine_init config) ops = Some m /\
    retransmits s (log m) <= max_repair_attempts config.
Proof.
  intros Hc Hops. destruct (writer_run_inv config ops (machine_init config)
    (init_inv config Hc) Hops) as (m & Hrun & Hm).
  exists m. split; [done|]. apply Hm.
Qed.

(** Every [data] pointer handed out designates the right sample: after a
    successful [write], [on_acknack] (which compacts the record array in place
    while it emits retransmissions) or [on_timer], each new action with a data
    pointer points at a slot of the live history that holds the sample with the
    action's sequence number and size. *)
Theorem action_pointers_valid w a w' a' :
  wf w -> buffer_wf ActionCapacity a ->
  (exists p n seq now, History.readable p n /\ 0 <= seq < 2 ^ 64 /\ 0 <= now < 2 ^ 64 /\
     write HistoryDepth MaxPayloadBytes ActionCapacity w p n seq now a = Done (w', a')) \/
  (exists ack now, RelMsg.sns_wf (RelMsg.an_reader_state ack) /\
     on_acknack HistoryDepth ActionCapacity w ack now a = Done (w', a')) \/
  (exists now, 0 <= now < 2 ^ 64 /\ on_timer ActionCapacity w now a = Done (w', a')) ->
  exists new, contents a' = contents a ++ new /\
    forall x k, x ∈ new -> data x = Some k -> 0 <= k /\ exists r,
      live w' !! Z.to_nat k = Some r /\ record_sequence r = sequence_number x /\
      History.sample_size_ (sample r) = data_size x.
Proof.
  intros Hw Ha Hcall.
  assert (forall es, swept HistoryDepth MaxPayloadBytes ActionCapacity w w' a a' es ->
    exists new, contents a' = contents a ++ new /\
    forall x k, x ∈ new -> data x = Some k -> 0 <= k /\ exists r,
      live w' !! Z.to_nat k = Some r /\ record_sequence r = sequence_number x /\
      History.sample_size_ (sample r) = data_size x) as Hswept.
  { intros es [S1 S2 S3 _ _ _ _]. exists (emitted es 0). split; [done|].
    intros x k Hx Hk. destruct (sweep_points _ _ _ _ _ _ S1 Hx Hk) as (H0 & r & Hr & ?).
    rewrite Z.sub_0_r in Hr. split; [done|]. exists r. by rewrite S2. }
  destruct Hcall as [(p & n & seq & now & Hread & Hseq & Hnow & Hd)|
    [(ack & now & Hs & Hd)|(now & Hnow & Hd)]].
  - pose proof (write_post HistoryDepth MaxPayloadBytes ActionCapacity Depth_pos Max_pos
      w p n seq now a Hw Ha Hread Hseq Hnow) as Hpost. rewrite Hd in Hpost.
    destruct (accepts _ _ _ _ _ _ _ _); [|by destruct Hpost as (e & [=] & _)].
    destruct Hpost as (w1 & a1 & r & [= <- <-] & [W1 W2 WS W3 W4 W5 W6 W7 W8 W9]).
    eexists. split; [exact W5|]. intros x k Hx Hk. apply list_elem_of_singleton in Hx as ->.
    cbn in Hk. injection Hk as <-. split; [lia|]. exists r.
    rewrite W1, Nat2Z.id, lookup_app_r, Nat.sub_diag by lia. split; [done|].
    unfold History.sample_view in W2. injection W2 as Hbytes Hmd.
    unfold record_sequence. by rewrite Hmd.
  - pose proof (on_acknack_post HistoryDepth MaxPayloadBytes ActionCapacity Depth_pos Max_pos
      w ack now a Hw Ha Hs) as Hpost. rewrite Hd in Hpost.
    destruct Hpost as (ds & _ & Hsw). by eapply Hswept.
  - pose proof (on_timer_cases HistoryDepth MaxPayloadBytes ActionCapacity Depth_pos
      w now a Hw Ha Hnow) as Hpost. rewrite Hd in Hpost.
    destruct (timer_ready _ _ _ _); [|by destruct Hpost as (e & [=] & _)].
    destruct Hpost as (w1 & a1 & [= <- <-] & Hs). by eapply Hswept.
Qed.

Lemma expiry_retained config now rs :
  retained (expiry_effect config now <$> rs) =
  filter (fun r => expired config now r = false) rs.
Proof.
  induction rs as [|r rs IH]; [done|]. rewrite fmap_cons, filter_cons.
  unfold expiry_effect at 1. destruct (expired config now r); rewrite ?retained_none,
    ?retained_some, IH; [rewrite decide_False by done|rewrite decide_True by done]; done.
Qed.

Lemma expiry_emitted config now rs d :
  emitted (expiry_effect config now <$> rs) d =
  (fun r => sample_action sample_failed (record_sequence r) None 0 repair_window_expired)
    <$> filter (fun r => expired config now r = true) rs.
Proof.
  revert d. induction rs as [|r rs IH]; intros d; [done|]. rewrite fmap_cons, filter_cons.
  unfold expiry_effect at 1. destruct (expired config now r);
    rewrite ?emitted_none, ?emitted_some, IH;
    [rewrite decide_True by done|rewrite decide_False by done]; done.
Qed.

(** Deadlines are enforced exactly: a successful [on_timer] keeps, in order,
    precisely the samples first sent less than [repair_window_ns] ago and reports
    each of the others once as failed with [repair_window_expired]; it fails
    without effect precisely when the configuration is invalid, the clock went
    backwards for some held sample, or the actions do not fit. *)
Theorem timer_expires w now a :
  wf w -> buffer_wf ActionCapacity a -> 0 <= now < 2 ^ 64 ->
  let old := filter (fun r => expired (config_ w) now r = true) (live w) in
  if valid_ w && forallb (fun r => first_send_ns r <=? now) (live w) &&
     (asize_ a + zlen old <=? ActionCapacity)
  then exists w' a', on_timer ActionCapacity w now a = Done (w', a') /\ wf w' /\
    live w' = filter (fun r => expired (config_ w) now r = false) (live w) /\
    contents a' = contents a ++
      ((fun r => sample_action sample_failed (record_sequence r) None 0
                   repair_window_expired) <$> old)
  else exists e, on_timer ActionCapacity w now a = Stop e /\ e <> rel_ok.
Proof.
  intros Hw Ha Hnow old.
  pose proof (on_timer_cases HistoryDepth MaxPayloadBytes ActionCapacity Depth_pos
    w now a Hw Ha Hnow) as Hcases. unfold timer_ready in Hcases.
  assert (emissions (expiry_effect (config_ w) now <$> live w) = zlen old) as Hem.
  { unfold emissions, old. generalize (live w) as rs. clear.
    induction rs as [|r rs IH]; [done|]. rewrite fmap_cons, filter_cons.
    unfold expiry_effect at 1. destruct (expired (config_ w) now r);
      [rewrite decide_True by done|rewrite decide_False by done];
      cbn [omap list_omap snd length]; fold (omap (M:=list) (A:=effect) snd); lia. }
  rewrite Hem in Hcases.
  destruct (valid_ w && _ && _); [|done].
  destruct Hcases as (w' & a' & Hd & [S1 S2 S3 S4 S5 S6 S7]). exists w', a'.
  rewrite S2, S3, expiry_retained, expiry_emitted. done.
Qed.

(** Heartbeats announce what the writer holds: [fill_heartbeat] of a valid
    writer always produces a range the message builder accepts, whose last number
    is the last one written and which starts at the oldest held sample (or is
    empty, [first = last + 1], when none is held), so it covers exactly the held
    samples; its count is newer than that of the previous heartbeat. *)
Theorem heartbeat_covers_history w hb :
  wf w -> valid_ w = true ->
  exists w' hb', fill_heartbeat w hb = Done (w', hb') /\ wf w' /\ live w' = live w /\
    RelMsg.range_ok (RelMsg.hb_first hb') (RelMsg.hb_last hb') = true /\
    RelMsg.hb_last hb' = last_sequence_number_ w /\
    Forall (fun r => RelMsg.hb_first hb' <= record_sequence r <= RelMsg.hb_last hb') (live w) /\
    head (record_sequence <$> live w) =
      (if size_ w =? 0 then None else Some (RelMsg.hb_first hb')) /\
    control_count_is_newer (RelMsg.hb_count hb') (heartbeat_count_ w) = true.
Proof.
  intros Hw Hv. pose proof (ww_records _ _ _ Hw) as Hrec. pose proof (ww_size _ _ _ Hw) as Hsz.
  pose proof (ww_last _ _ _ Hw) as Hlast. pose proof (ww_live _ _ _ Hw) as Hlive.
  pose proof (ww_sorted _ _ _ Hw) as Hsorted.
  pose proof (live_length _ _ Depth_pos w Hw) as Hlen.
  assert (forall w', records_ w' = records_ w -> size_ w' = size_ w ->
    config_ w' = config_ w -> last_sequence_number_ w' = last_sequence_number_ w ->
    valid_ w' = valid_ w -> wf w' /\ live w' = live w) as Hsame.
  { intros w' H1 H2 H3 H4 H5. assert (live w' = live w) as Hl
      by (unfold live; by rewrite H1, H2).
    split; [|done]. destruct Hw. split; rewrite ?H1, ?H2, ?H3, ?H4, ?H5, ?Hl; done. }
  assert (forall c, control_count_is_newer (next_control_count c) c = true) as Hnew.
  { intros c. unfold control_count_is_newer. change (next_control_count c)
      with (count_after 1 c). by rewrite newer_difference. }
  unfold fill_heartbeat. rewrite Hv. cbn [negb stop_if mbind outcome_bind].
  unfold i64_max in Hlast.
  destruct (Z.eqb_spec (size_ w) 0) as [H0|H0].
  - rewrite add64_id by lia. cbn [mbind outcome_bind]. eexists _, _. split; [done|].
    destruct (live w) as [|r l] eqn:Hl; [|cbn in Hlen; lia].
    edestruct Hsame as [Hwf' Hl']; [| | | | |split_and!; [exact Hwf'|exact Hl'|..]];
      try done; try apply Hnew; try apply Forall_nil_2;
      cbn [RelMsg.hb_first RelMsg.hb_last RelMsg.hb_count].
    unfold RelMsg.range_ok, i64_max. rewrite !andb_true_iff, !Z.leb_le. lia.
  - destruct (proj2 (mload_is_Some (records_ w) 0)) as [r Hr]; [lia|].
    rewrite Hr. cbn [access mbind outcome_bind]. eexists _, _. split; [done|].
    assert (exists l, live w = r :: l) as [l Hl].
    { apply mload_Some in Hr as [_ Hr]. unfold live. destruct (records_ w) as [|x rs]; [done|].
      injection Hr as ->. replace (Z.to_nat (size_ w)) with (S (Z.to_nat (size_ w - 1))) by lia.
      by eexists. }
    rewrite Hl in Hlive, Hsorted. apply Forall_cons in Hlive as [[Hr1 _ _] Hlive].
    edestruct Hsame as [Hwf' Hl']; [| | | | |split_and!; [exact Hwf'|exact Hl'|..]];
      try done; try apply Hnew; cbn [RelMsg.hb_first RelMsg.hb_last RelMsg.hb_count].
    + unfold RelMsg.range_ok, i64_max. rewrite !andb_true_iff, !Z.leb_le. lia.
    + rewrite Hl. constructor; [lia|]. rewrite fmap_cons in Hsorted.
      apply StronglySorted_inv in Hsorted as [_ Hmin].
      rewrite Forall_forall in Hmin. rewrite Forall_forall in Hlive.
      apply Forall_forall. intros q Hq.
      specialize (Hmin (record_sequence q) (list_elem_of_fmap_2 _ _ _ Hq)).
      pose proof (ro_sequence _ _ _ (Hlive q Hq)). lia.
    + by rewrite Hl.
Qed.

(** [write] accepts a sample exactly when the configuration and the payload
    are valid, the sequence number is above every earlier one (and below 2^63-1),
    and both the history and the action buffer have room; it then appends exactly
    that sample, holding a copy of the payload, and emits one [send_data] for it.
    Otherwise it returns an error and changes nothing. *)
Theorem write_exact w payload payload_size seq now a :
  wf w -> buffer_wf ActionCapacity a -> History.readable payload payload_size ->
  0 <= seq < 2 ^ 64 -> 0 <= now < 2 ^ 64 ->
  if accepts HistoryDepth MaxPayloadBytes ActionCapacity w payload payload_size seq a then
    exists w' a' r,
      write HistoryDepth MaxPayloadBytes ActionCapacity w payload payload_size seq now a =
        Done (w', a') /\
      written HistoryDepth MaxPayloadBytes ActionCapacity w w' a a' payload payload_size
        seq now r
  else exists e,
    write HistoryDepth MaxPayloadBytes ActionCapacity w payload payload_size seq now a =
      Stop e /\ e <> rel_ok.
Proof. intros. by apply write_post. Qed.

End Trace.

(** ** A concrete writer: two samples of at most four bytes, four actions *)

Definition demo_config : ReliableWriterConfig :=
  {| w_reader_id := [0; 0; 1; 4]; w_writer_id := [0; 0; 1; 3];
     max_repair_attempts := 1; repair_window_ns := 1000 |}.

Definition demo_writer : ReliableWriter := ReliableWriter_new 2 4 demo_config.

Definition demo_actions : ReliabilityActionBuffer := ActionBuffer_init 4.

Definition demo_ops : list writer_op :=
  [Write (Some [7; 8]) 2 1 10; Write None 0 5 20; Write (Some [9]) 1 6 30; Timer 1015; Drain].

Lemma demo_config_ok : config_ok demo_config.
Proof. split; cbn; lia. Qed.

Lemma demo_ops_ok : Forall op_ok demo_ops.
Proof.
  repeat constructor; cbn; try lia; try (by intros b [=]); intros b [= <-]; cbn; lia.
Qed.

Lemma demo_wf : writer_wf 2 4 demo_writer.
Proof. apply (mi_wf 2 4 4 demo_config (machine_init 2 4 4 demo_config)), init_inv;
  [lia..|apply demo_config_ok]. Qed.

Lemma demo_buffer : buffer_wf 4 demo_actions.
Proof. by apply init_buffer_wf. Qed.

Lemma writer_conserves_samples_witness :
  exists m, writer_run 2 4 4 (machine_init 2 4 4 demo_config) demo_ops = Some m /\
    seqs_of send_data (log m) = [1; 5] /\
    (record_sequence <$> live (m_writer m)) ++ finished (log m) ≡ₚ [1; 5].
Proof.
  destruct (writer_conserves_samples 2 4 4 ltac:(lia) ltac:(lia) ltac:(lia)
    demo_config demo_ops demo_config_ok demo_ops_ok) as (m & Hm & _ & Hp).
  exists m. split; [exact Hm|].
  assert (seqs_of send_data (log m) = [1; 5]) as Hs.
  { revert Hm. vm_compute. by intros [= <-]. }
  split; [exact Hs|]. rewrite <- Hs. exact Hp.
Defined.

Lemma writer_bounds_repairs_witness :
  exists m, writer_run 2 4 4 (machine_init 2 4 4 demo_config) demo_ops = Some m /\
    retransmits 1 (log m) <= 1.
Proof.
  apply (writer_bounds_repairs 2 4 4 ltac:(lia) ltac:(lia) ltac:(lia)
    demo_config demo_ops 1 demo_config_ok demo_ops_ok).
Defined.

Lemma action_pointers_valid_witness :
  exists w' a' new,
    write 2 4 4 demo_writer (Some [7; 8]) 2 1 10 demo_actions = Done (w', a') /\
    contents a' = contents demo_actions ++ new /\
    forall x k, x ∈ new -> data x = Some k -> 0 <= k /\ exists r,
      live w' !! Z.to_nat k = Some r /\ record_sequence r = sequence_number x /\
      History.sample_size_ (sample r) = data_size x.
Proof.
  destruct (write 2 4 4 demo_writer (Some [7; 8]) 2 1 10 demo_actions) as [| |[w' a']] eqn:Hd;
    [vm_compute in Hd; discriminate..|].
  destruct (action_pointers_valid 2 4 4 ltac:(lia) ltac:(lia) demo_writer demo_actions w' a'
    demo_wf demo_buffer) as (new & Hn & Hall).
  - left. exists (Some [7; 8]), 2, 1, 10. split_and!; [|lia..|exact Hd].
    split; [lia|]. intros b [= <-]. done.
  - exists w', a', new. split_and!; [done..|]. exact Hall.
Defined.

Lemma timer_expires_witness :
  exists w' a', on_timer 4 demo_writer 5000 demo_actions = Done (w', a') /\
    writer_wf 2 4 w' /\ live w' = [].
Proof.
  destruct (timer_expires 2 4 4 ltac:(lia) demo_writer 5000 demo_actions demo_wf
    demo_buffer ltac:(lia)) as (w' & a' & Hd & Hw & Hl & _).
  exists w', a'. split_and!; [exact Hd|exact Hw|exact Hl].
Defined.

Lemma heartbeat_covers_history_witness :
  exists w' hb', fill_heartbeat demo_writer RelMsg.sample_heartbeat = Done (w', hb') /\
    RelMsg.range_ok (RelMsg.hb_first hb') (RelMsg.hb_last hb') = true.
Proof.
  destruct (heartbeat_covers_history 2 4 ltac:(lia) demo_writer RelMsg.sample_heartbeat demo_wf eq_refl)
    as (w' & hb' & H1 & _ & _ & H2 & _).
  exists w', hb'. split; [exact H1|exact H2].
Defined.

Lemma write_exact_witness :
  exists w' a' r, write 2 4 4 demo_writer (Some [7; 8]) 2 1 10 demo_actions = Done (w', a') /\
    written 2 4 4 demo_writer w' demo_actions a' (Some [7; 8]) 2 1 10 r.
Proof.
  apply (write_exact 2 4 4 ltac:(lia) ltac:(lia) demo_writer (Some [7; 8]) 2 1 10 demo_actions
    demo_wf demo_buffer); [|lia..].
  split; [lia|]. intros b [= <-]. done.
Defined.

End WriterTrace.
