(* ===== verification/ReliableReader.v ===== *)
(** * The reliable reader state machine

    [ReliableReader] of [include/openrtdds/rtps/reliability_state.hpp]: a ring of
    flags over a bounded receive window, refined to the set of sequence numbers
    received so far. *)
From S2P Require Import Prelude Bytes Types ReliabilityMessages ReliabilityState.

Module Reader.
Import Types Rel.

Record ReliableReaderConfig : Set := {
  r_reader_id : EntityId;
  r_writer_id : EntityId;
  initial_sequence_number : Z;
}.

Record ReliableReader : Set := {
  config_ : ReliableReaderConfig;
  received_ : list bool;
  base_ : Z;
  base_index_ : Z;
  acknack_count_ : Z;
  last_heartbeat_count_ : Z;
  valid_ : bool;
  heartbeat_count_initialized_ : bool;
}.

Section Reader.
Context (WindowBits ActionCapacity : Z).
Context (Window_pos : 0 < WindowBits <= 256).

Definition ReliableReader_new (config : ReliableReaderConfig) : ReliableReader :=
  {| config_ := config; received_ := replicate (Z.to_nat WindowBits) false;
     base_ := initial_sequence_number config; base_index_ := 0; acknack_count_ := 0;
     last_heartbeat_count_ := 0;
     valid_ := valid_state_sequence (initial_sequence_number config);
     heartbeat_count_initialized_ := false |}.

Definition with_window (r : ReliableReader) (received : list bool) (base base_index : Z)
    : ReliableReader :=
  {| config_ := config_ r; received_ := received; base_ := base; base_index_ := base_index;
     acknack_count_ := acknack_count_ r; last_heartbeat_count_ := last_heartbeat_count_ r;
     valid_ := valid_ r; heartbeat_count_initialized_ := heartbeat_count_initialized_ r |}.

(** [while (received_[base_index_]) ...]; running out of [fuel] is a fault. *)
Fixpoint advance {E} (fuel : nat) (r : ReliableReader) : outcome E ReliableReader :=
  flag ← access (mload (received_ r) (base_index_ r));
  if (flag : bool) then
    match fuel with
    | O => Fault
    | S fuel' =>
        received ← access (mstore (received_ r) (base_index_ r) false);
        advance fuel' (with_window r received (add64 (base_ r) 1)
                         (add64 (base_index_ r) 1 mod WindowBits))
    end
  else Done r.

Definition on_data (r : ReliableReader) (sequence_number : Z)
    (actions : ReliabilityActionBuffer)
    : outcome ReliabilityError (ReliableReader * ReliabilityActionBuffer) :=
  stop_if (negb (valid_ r)) invalid_configuration;;
  stop_if (negb (valid_state_sequence sequence_number)) invalid_sequence_number;;
  stop_if (sequence_number <? base_ r) stale_data;;
  let offset := sub64 sequence_number (base_ r) in
  stop_if (WindowBits <=? offset) receive_window_exceeded;;
  let slot := add64 (base_index_ r) offset mod WindowBits in
  flag ← access (mload (received_ r) slot);
  stop_if flag duplicate_data;;
  stop_if (remaining ActionCapacity actions =? 0) action_capacity_exceeded;;
  received ← access (mstore (received_ r) slot true);
  actions ← push_ignored ActionCapacity actions
    (sample_action sample_received sequence_number None 0 repair_none);
  r ← advance (Z.to_nat WindowBits) (with_window r received (base_ r) (base_index_ r));
  Done (r, actions).

Definition valid_heartbeat_range (heartbeat : RelMsg.HeartbeatView) : bool :=
  negb (RelMsg.hb_first heartbeat =? 0) && (RelMsg.hb_first heartbeat <=? i64_max) &&
  (RelMsg.hb_last heartbeat <=? i64_max) &&
  (sub64 (RelMsg.hb_first heartbeat) 1 <=? RelMsg.hb_last heartbeat).

(** [static_cast<void>(state.reset(base, num_bits));] *)
Definition reset_ignored (s : RelMsg.SequenceNumberSet) (base num_bits : Z)
    : RelMsg.SequenceNumberSet :=
  default s (RelMsg.reset base num_bits).

(** The loop that requests the offsets not yet received. *)
Definition request_missing {E} (r : ReliableReader) (num_bits : Z)
    (s : RelMsg.SequenceNumberSet) : outcome E RelMsg.SequenceNumberSet :=
  for_each (fun offset s =>
      let slot := add64 (base_index_ r) offset mod WindowBits in
      flag ← access (mload (received_ r) slot);
      if negb flag then RelMsg.set_ignored s offset else Done s)
    (seqZ 0 num_bits) s.

(** The state of the ACKNACK that answers [heartbeat], and its final flag. *)
Definition response_state {E} (r : ReliableReader) (heartbeat : RelMsg.HeartbeatView)
    (writer_covers_base : bool) : outcome E (RelMsg.SequenceNumberSet * bool) :=
  if writer_covers_base then
    let available := add64 (sub64 (RelMsg.hb_last heartbeat) (base_ r)) 1 in
    let num_bits := u32 (if available <? WindowBits then available else WindowBits) in
    let s := reset_ignored RelMsg.SequenceNumberSet_default (base_ r) num_bits in
    s ← request_missing r num_bits s;
    Done (s, false)
  else Done (reset_ignored RelMsg.SequenceNumberSet_default (base_ r) 0, true).

Definition acknack_action (r : ReliableReader) (state : RelMsg.SequenceNumberSet)
    (final_ : bool) : ReliabilityAction :=
  {| kind := send_acknack; sequence_number := 0;
     reader_id := r_reader_id (config_ r); writer_id := r_writer_id (config_ r);
     data := None; data_size := 0; reader_state := state;
     control_count := next_control_count (acknack_count_ r); failure := repair_none;
     final_flag := final_ |}.

Definition with_counts (r : ReliableReader) (acknack_count heartbeat_count : Z)
    : ReliableReader :=
  {| config_ := config_ r; received_ := received_ r; base_ := base_ r;
     base_index_ := base_index_ r; acknack_count_ := acknack_count;
     last_heartbeat_count_ := heartbeat_count; valid_ := valid_ r;
     heartbeat_count_initialized_ := true |}.

Definition on_heartbeat (r : ReliableReader) (heartbeat : RelMsg.HeartbeatView)
    (actions : ReliabilityActionBuffer)
    : outcome ReliabilityError (ReliableReader * ReliabilityActionBuffer) :=
  stop_if (negb (valid_ r)) invalid_configuration;;
  stop_if (negb (valid_heartbeat_range heartbeat)) invalid_sequence_number;;
  stop_if (entity_neqb (RelMsg.hb_reader_id heartbeat) (r_reader_id (config_ r)) ||
           entity_neqb (RelMsg.hb_writer_id heartbeat) (r_writer_id (config_ r)))
    unexpected_peer;;
  stop_if (heartbeat_count_initialized_ r &&
           negb (control_count_is_newer (RelMsg.hb_count heartbeat)
                   (last_heartbeat_count_ r))) stale_control;;
  stop_if ((base_ r <=? RelMsg.hb_last heartbeat) && (base_ r <? RelMsg.hb_first heartbeat))
    gap_not_repairable;;
  let writer_covers_base := base_ r <=? RelMsg.hb_last heartbeat in
  let response_required := writer_covers_base || negb (RelMsg.hb_final_flag heartbeat) in
  stop_if (response_required && (remaining ActionCapacity actions =? 0))
    action_capacity_exceeded;;
  if response_required then
    '(state, final_) ← response_state r heartbeat writer_covers_base;
    actions ← push_ignored ActionCapacity actions (acknack_action r state final_);
    Done (with_counts r (next_control_count (acknack_count_ r)) (RelMsg.hb_count heartbeat),
          actions)
  else
    Done (with_counts r (acknack_count_ r) (RelMsg.hb_count heartbeat), actions).

(** ** The window as a set of sequence numbers *)

Definition slot_of (r : ReliableReader) (offset : Z) : Z :=
  (base_index_ r + offset) mod WindowBits.

(** [s] is in the window and flagged as received. *)
Definition flagged (r : ReliableReader) (s : Z) : bool :=
  (base_ r <=? s) && (s <? base_ r + WindowBits) &&
  default false (mload (received_ r) (slot_of r (s - base_ r))).

(** [s] has been received: everything below [base_] has. *)
Definition got (r : ReliableReader) (s : Z) : bool := (s <? base_ r) || flagged r s.

(** The ring part of the invariant; it also holds inside [on_data]'s loop. *)
Record ring_ok (r : ReliableReader) : Prop := {
  rg_length : zlen (received_ r) = WindowBits;
  rg_index : 0 <= base_index_ r < WindowBits;
  rg_base : 1 <= base_ r <= i64_max;
  rg_flagged : forall s, flagged r s = true -> s < i64_max;
}.

Lemma slot_range r o : ring_ok r -> 0 <= slot_of r o < zlen (received_ r).
Proof. intros []. rewrite rg_length0. apply Z.mod_pos_bound. lia. Qed.

Lemma slot_loads r o : ring_ok r -> exists b, mload (received_ r) (slot_of r o) = Some b.
Proof. intros Hr. apply mload_is_Some. by apply slot_range. Qed.

Lemma slot_inj r i j :
  ring_ok r -> 0 <= i < WindowBits -> 0 <= j < WindowBits ->
  slot_of r i = slot_of r j -> i = j.
Proof. intros [] ? ?. by apply ring_inj; lia. Qed.

Lemma default_load r o b :
  mload (received_ r) (slot_of r o) = Some b ->
  flagged r (base_ r + o) = (0 <=? o) && (o <? WindowBits) && b.
Proof.
  intros Hb. unfold flagged. replace (base_ r + o - base_ r) with o by lia. rewrite Hb.
  destruct (Z.leb_spec (base_ r) (base_ r + o)), (Z.leb_spec 0 o),
    (Z.ltb_spec (base_ r + o) (base_ r + WindowBits)), (Z.ltb_spec o WindowBits);
    try lia; done.
Qed.

(** Writing one flag changes membership of one sequence number only. *)
Lemma flag_update r o b s :
  ring_ok r -> 0 <= o < WindowBits ->
  flagged (with_window r (<[Z.to_nat (slot_of r o) := b]> (received_ r)) (base_ r)
             (base_index_ r)) s =
  if s =? base_ r + o then b else flagged r s.
Proof.
  intros Hr Ho. unfold flagged, slot_of. cbn [with_window base_ base_index_ received_].
  fold (slot_of r (s - base_ r)). fold (slot_of r o).
  destruct (Z.leb_spec (base_ r) s), (Z.ltb_spec s (base_ r + WindowBits));
    cbn [andb]; destruct (Z.eqb_spec s (base_ r + o)) as [->|Hne]; try lia; try done.
  - replace (base_ r + o - base_ r) with o by lia.
    rewrite mload_insert, Z.eqb_refl; [done|by apply slot_range|].
    by apply (slot_range r o).
  - rewrite mload_insert; [|by apply slot_range|by apply (slot_range r)].
    destruct (Z.eqb_spec (slot_of r (s - base_ r)) (slot_of r o)) as [He|]; [|done].
    apply slot_inj in He; [lia|done|lia|done].
Qed.

(** Sliding the window over a base whose flag was cleared. *)
Lemma slide r s :
  ring_ok r -> flagged r (base_ r) = false ->
  flagged (with_window r (received_ r) (base_ r + 1) ((base_index_ r + 1) mod WindowBits)) s
  = flagged r s.
Proof.
  intros Hr Hbase. pose proof Hr as [Hl Hi Hb Hf]. unfold i64_max in Hb.
  unfold flagged, slot_of. cbn [with_window base_ base_index_ received_].
  rewrite Z.add_mod_idemp_l by lia.
  replace (base_index_ r + 1 + (s - (base_ r + 1))) with (base_index_ r + (s - base_ r)) by lia.
  fold (slot_of r (s - base_ r)).
  destruct (Z.leb_spec (base_ r) s), (Z.leb_spec (base_ r + 1) s),
    (Z.ltb_spec s (base_ r + WindowBits)), (Z.ltb_spec s (base_ r + 1 + WindowBits));
    try lia; try done; cbn [andb].
  - assert (s = base_ r + WindowBits) as -> by lia.
    replace (base_ r + WindowBits - base_ r) with WindowBits by lia.
    assert (slot_of r WindowBits = slot_of r 0) as ->.
    { unfold slot_of. rewrite Z.add_0_r, ring_wrap, Z.mod_small by lia. done. }
    unfold flagged in Hbase. rewrite Z.sub_diag in Hbase.
    destruct (Z.leb_spec (base_ r) (base_ r)), (Z.ltb_spec (base_ r) (base_ r + WindowBits));
      try lia. done.
  - assert (s = base_ r) as -> by lia. rewrite Z.sub_diag.
    unfold flagged in Hbase. rewrite Z.sub_diag in Hbase.
    destruct (Z.leb_spec (base_ r) (base_ r)), (Z.ltb_spec (base_ r) (base_ r + WindowBits));
      try lia. cbn [andb] in Hbase. by rewrite Hbase.
Qed.

Definition count_flags (l : list bool) : nat := length (filter (fun b => b = true) l).

Lemma count_flags_clear l i :
  l !! i = Some true -> count_flags l = S (count_flags (<[i := false]> l)).
Proof.
  intros Hi. unfold count_flags. rewrite insert_take_drop by (by eapply lookup_lt_Some).
  rewrite <- (take_drop_middle l i true) at 1 by done.
  rewrite !filter_app, !filter_cons, !length_app.
  rewrite decide_True by done. rewrite decide_False by done. cbn. lia.
Qed.

Definition same_control (r r' : ReliableReader) : Prop :=
  config_ r' = config_ r /\ valid_ r' = valid_ r /\
  acknack_count_ r' = acknack_count_ r /\
  last_heartbeat_count_ r' = last_heartbeat_count_ r /\
  heartbeat_count_initialized_ r' = heartbeat_count_initialized_ r.

(** One iteration of the loop: membership is unchanged, the base moves on. *)
Lemma advance_step r :
  ring_ok r -> flagged r (base_ r) = true ->
  let r' := with_window r (<[Z.to_nat (base_index_ r) := false]> (received_ r))
              (base_ r + 1) ((base_index_ r + 1) mod WindowBits) in
  ring_ok r' /\ forall s, got r' s = got r s.
Proof.
  intros Hr Hflag. pose proof Hr as [Hl Hi Hb Hf]. pose proof (Hf _ Hflag) as Hlt.
  assert (slot_of r 0 = base_index_ r) as H0
    by (unfold slot_of; rewrite Z.add_0_r, Z.mod_small by lia; done).
  set (r1 := with_window r (<[Z.to_nat (base_index_ r) := false]> (received_ r))
    (base_ r) (base_index_ r)).
  assert (forall s, flagged r1 s = if s =? base_ r then false else flagged r s) as Hr1.
  { intros s. unfold r1. rewrite <- H0 at 1. rewrite flag_update by (done || lia).
    by rewrite Z.add_0_r. }
  assert (ring_ok r1) as Hok1.
  { split; cbn; [by rewrite length_insert|done|done|]. intros s. rewrite Hr1.
    destruct (s =? base_ r); [done|apply Hf]. }
  assert (flagged r1 (base_ r1) = false) as Hbase1
    by (rewrite Hr1; cbn; by rewrite Z.eqb_refl).
  pose proof (fun s => slide r1 s Hok1 Hbase1) as Hslide. cbn in Hslide. split.
  - split; cbn; [by rewrite length_insert|apply Z.mod_pos_bound; lia|lia|].
    intros s. rewrite Hslide, Hr1. destruct (s =? base_ r); [done|apply Hf].
  - intros s. unfold got. rewrite Hslide, Hr1. cbn.
    destruct (Z.ltb_spec s (base_ r + 1)), (Z.ltb_spec s (base_ r)),
      (Z.eqb_spec s (base_ r)) as [->|]; try lia; cbn; try done.
Qed.

Lemma advance_spec {E} fuel : forall r,
  ring_ok r -> (count_flags (received_ r) <= fuel)%nat ->
  exists r', advance fuel r = (Done r' : outcome E _) /\ ring_ok r' /\
    flagged r' (base_ r') = false /\ base_ r <= base_ r' /\ same_control r r' /\
    forall s, got r' s = got r s.
Proof.
  induction fuel as [|fuel IH]; intros r Hr Hfuel;
    pose proof Hr as [Hl Hi Hb Hf];
    assert (slot_of r 0 = base_index_ r) as H0
      by (unfold slot_of; rewrite Z.add_0_r, Z.mod_small by lia; done);
    destruct (slot_loads r 0 Hr) as [b Hload]; pose proof (default_load r 0 b Hload) as Hfl;
    rewrite H0 in Hload; rewrite Z.add_0_r in Hfl;
    (destruct (Z.ltb_spec 0 WindowBits); [|lia]); cbn [Z.leb Z.compare andb] in Hfl;
    cbn [advance]; rewrite Hload; cbn [access mbind outcome_bind]; destruct b.
  - exfalso. apply mload_Some in Hload as [_ Hload].
    apply count_flags_clear in Hload. lia.
  - exists r. by split_and!.
  - unfold mstore. destruct (Z.leb_spec 0 (base_index_ r)),
      (Z.ltb_spec (base_index_ r) (zlen (received_ r))); try lia.
    cbn [andb access mbind outcome_bind]. unfold i64_max in Hb. rewrite !add64_id by lia.
    destruct (advance_step r Hr Hfl) as [Hok Hgot].
    apply mload_Some in Hload as [_ Hload]. apply count_flags_clear in Hload.
    edestruct IH as (r' & Hadv & Hok' & Hend & Hle & Hsame & Hgot'); [exact Hok|cbn [received_ with_window]; lia|].
    exists r'. split; [exact Hadv|]. cbn in Hle. split_and!; try done; [lia|].
    intros s. by rewrite Hgot', Hgot.
  - exists r. by split_and!.
Qed.

(** ** [on_data] *)

(** The reader between calls: the base itself is still missing. *)
Record reader_wf (r : ReliableReader) : Prop := {
  rw_ring : ring_ok r;
  rw_base : flagged r (base_ r) = false;
  rw_valid : valid_ r = true;
}.

(** Why [on_data] refuses a sequence number. *)
Definition refusal (r : ReliableReader) (seq : Z) (a : ReliabilityActionBuffer)
    : option ReliabilityError :=
  if negb (valid_state_sequence seq) then Some invalid_sequence_number
  else if seq <? base_ r then Some stale_data
  else if base_ r + WindowBits <=? seq then Some receive_window_exceeded
  else if got r seq then Some duplicate_data
  else if ActionCapacity <=? asize_ a then Some action_capacity_exceeded
  else None.

Record received (r r' : ReliableReader) (a a' : ReliabilityActionBuffer) (seq : Z)
    : Prop := {
  rc_wf : reader_wf r';
  rc_control : same_control r r';
  rc_base : base_ r <= base_ r';
  rc_got : forall s, got r' s = (s =? seq) || got r s;
  rc_actions : contents a' = contents a ++
    [sample_action sample_received seq None 0 repair_none];
  rc_buffer : buffer_wf ActionCapacity a';
}.

Lemma on_data_cases r seq a :
  reader_wf r -> buffer_wf ActionCapacity a -> 0 <= seq < 2 ^ 64 ->
  match refusal r seq a with
  | Some e => on_data r seq a = Stop e
  | None => exists r' a', on_data r seq a = Done (r', a') /\ received r r' a a' seq
  end.
Proof.
  intros [Hr Hbase Hv] Ha Hseq. unfold on_data, refusal. rewrite Hv.
  cbn [negb stop_if mbind outcome_bind].
  destruct (valid_state_sequence seq) eqn:Hvs; cbn [negb stop_if mbind outcome_bind];
    [|done].
  unfold valid_state_sequence in Hvs. apply andb_true_iff in Hvs as [_ Hmax%Z.ltb_lt].
  destruct (Z.ltb_spec seq (base_ r)) as [|Hge]; cbn [stop_if mbind outcome_bind]; [done|].
  pose proof Hr as [Hl Hi Hb Hf]. unfold i64_max in *. rewrite sub64_id by lia.
  destruct (Z.leb_spec (base_ r + WindowBits) seq), (Z.leb_spec WindowBits (seq - base_ r));
    try lia; cbn [stop_if mbind outcome_bind]; [done|].
  rewrite add64_id by lia. fold (slot_of r (seq - base_ r)).
  destruct (slot_loads r (seq - base_ r) Hr) as [b Hload].
  pose proof (default_load r _ b Hload) as Hfl.
  replace (base_ r + (seq - base_ r)) with seq in Hfl by lia.
  assert (got r seq = b) as Hgot.
  { unfold got. rewrite Hfl. destruct (Z.ltb_spec seq (base_ r)); [lia|].
    destruct (Z.leb_spec 0 (seq - base_ r)), (Z.ltb_spec (seq - base_ r) WindowBits);
      try lia. done. }
  rewrite Hload, Hgot. cbn [access mbind outcome_bind].
  destruct b; cbn [stop_if mbind outcome_bind]; [done|].
  rewrite remaining_spec by done. pose proof (bw_size _ _ Ha).
  destruct (Z.leb_spec ActionCapacity (asize_ a)),
    (Z.eqb_spec (ActionCapacity - asize_ a) 0); try lia;
    cbn [stop_if mbind outcome_bind]; [done|].
  pose proof (slot_range r (seq - base_ r) Hr) as Hslot. unfold mstore.
  destruct (Z.leb_spec 0 (slot_of r (seq - base_ r))),
    (Z.ltb_spec (slot_of r (seq - base_ r)) (zlen (received_ r))); try lia.
  cbn [andb access mbind outcome_bind].
  edestruct (push_ignored_spec (E:=ReliabilityError) ActionCapacity a)
    as (a' & Hpush & Hawf & Hcont & _); [done|lia|].
  rewrite Hpush. cbn [mbind outcome_bind].
  set (r1 := with_window r _ _ _).
  assert (forall s, flagged r1 s = if s =? seq then true else flagged r s) as Hr1.
  { intros s. unfold r1. rewrite flag_update by (done || lia).
    by replace (base_ r + (seq - base_ r)) with seq by lia. }
  assert (ring_ok r1) as Hok1.
  { split; cbn [r1 with_window received_ base_ base_index_];
      [by rewrite length_insert|done|done|].
    intros s. rewrite Hr1. destruct (Z.eqb_spec s seq) as [->|]; [done|apply Hf]. }
  destruct (advance_spec (E:=ReliabilityError) (Z.to_nat WindowBits) r1 Hok1)
    as (r' & Hadv & Hok' & Hend & Hle & Hsame & Hgot').
  { unfold count_flags. etrans; [apply length_filter|]. pose proof (rg_length _ Hok1). lia. }
  rewrite Hadv. cbn [mbind outcome_bind]. exists r', a'. split; [done|].
  assert (same_control r r') as Hsc by exact Hsame.
  split; try done.
  - split; [done|done|]. destruct Hsc as (_ & -> & _). done.
  - intros s. rewrite Hgot'. unfold got. rewrite Hr1. cbn [r1 with_window base_].
    destruct (Z.eqb_spec s seq) as [->|]; [|done]. apply orb_true_r.
Qed.

(** ** [on_heartbeat] *)

Lemma request_missing_spec {E} r n :
  ring_ok r -> 0 <= n <= WindowBits -> base_ r + n - 1 <= i64_max ->
  exists s, request_missing r n (reset_ignored RelMsg.SequenceNumberSet_default (base_ r) n)
    = (Done s : outcome E _) /\ RelMsg.sns_wf s /\
    RelMsg.bitmap_base_ s = base_ r /\ RelMsg.num_bits_ s = n /\
    forall o, 0 <= o -> RelMsg.sns_bit s o = (o <? n) && negb (got r (base_ r + o)).
Proof.
  intros Hr Hn Hmax. pose proof Hr as [Hl Hi Hb Hf]. unfold i64_max in *.
  set (s0 := {| RelMsg.bitmap_base_ := base_ r; RelMsg.num_bits_ := n;
                RelMsg.bitmap_ := replicate RelMsg.maximum_words 0 |}).
  assert (RelMsg.reset (base_ r) n = Some s0) as Hreset.
  { apply RelMsg.reset_spec; [lia..|]. unfold RelMsg.maximum_bits, i64_max.
    split_and!; [lia..|done]. }
  unfold reset_ignored. rewrite Hreset. cbn [default from_option].
  apply RelMsg.reset_wf in Hreset as [Hwf0 Hclear]; [|lia..].
  destruct (RelMsg.extended_run (E:=E) (fun offset s =>
      let slot := add64 (base_index_ r) offset mod WindowBits in
      flag ← access (mload (received_ r) slot);
      if negb flag then RelMsg.set_ignored s offset else Done s)
    (fun i o => true && (o =? i) && ((o <? n) && negb (got r (base_ r + o)))) n (seqZ 0 n) s0)
    as (s & Hrun & He); [|done..|].
  - intros i t Hin%elem_of_seqZ Ht Htn. cbv zeta. rewrite add64_id by lia.
    fold (slot_of r i). destruct (slot_loads r i Hr) as [b Hload]. rewrite Hload.
    cbn [access mbind outcome_bind]. pose proof (default_load r i b Hload) as Hfl.
    assert (got r (base_ r + i) = b) as Hgot.
    { unfold got. rewrite Hfl. destruct (Z.ltb_spec (base_ r + i) (base_ r)); [lia|].
      destruct (Z.leb_spec 0 i), (Z.ltb_spec i WindowBits); try lia. done. }
    destruct b; cbn [negb].
    + exists t. split; [done|]. apply RelMsg.extended_refl; [done|]. intros o Ho.
      destruct (Z.eqb_spec o i) as [->|]; [|done]. rewrite Hgot. cbn. apply andb_false_r.
    + destruct (RelMsg.set_ignored_spec (E:=E) t i Ht) as (t' & -> & Hext); [lia|].
      exists t'. split; [done|]. destruct Hext as (H1 & H2 & H3). split_and!; [done..|].
      intros o Ho. rewrite H3, Htn by done. f_equal.
      destruct (Z.eqb_spec o i) as [->|]; [|done]. rewrite Hgot. cbn.
      by rewrite andb_true_r.
  - exists s. split; [exact Hrun|]. destruct He as (H1 & [H2 H3] & H4).
    split_and!; [done..|]. intros o Ho. rewrite H4, Hclear by done.
    rewrite RelMsg.existsb_factor, RelMsg.existsb_eq_seq by done. cbn.
    by destruct (o <? n).
Qed.

(** What an ACKNACK requests: [missing] of the first [n] numbers at the base. *)
Record requests (r : ReliableReader) (n : Z) (x : ReliabilityAction) : Prop := {
  rq_kind : kind x = send_acknack;
  rq_reader : reader_id x = r_reader_id (config_ r);
  rq_writer : writer_id x = r_writer_id (config_ r);
  rq_wf : RelMsg.sns_wf (reader_state x);
  rq_base : RelMsg.bitmap_base_ (reader_state x) = base_ r;
  rq_bits : RelMsg.num_bits_ (reader_state x) = n;
  rq_missing : forall o, 0 <= o ->
    RelMsg.sns_bit (reader_state x) o = (o <? n) && negb (got r (base_ r + o));
  rq_count : control_count x = next_control_count (acknack_count_ r);
  rq_final : final_flag x = (n =? 0);
}.

(** How many numbers the answer to a heartbeat covers. *)
Definition covered (r : ReliableReader) (last : Z) : Z :=
  if base_ r <=? last then Z.min (last - base_ r + 1) WindowBits else 0.

Lemma response_state_spec {E} r hb :
  ring_ok r -> 0 <= RelMsg.hb_last hb <= i64_max ->
  exists s f, response_state r hb (base_ r <=? RelMsg.hb_last hb)
    = (Done (s, f) : outcome E _) /\
    requests r (covered r (RelMsg.hb_last hb)) (acknack_action r s f).
Proof.
  intros Hr Hlast. pose proof Hr as [Hl Hi Hb Hf]. unfold response_state, covered.
  unfold i64_max in *. destruct (Z.leb_spec (base_ r) (RelMsg.hb_last hb)).
  - rewrite sub64_id by lia. rewrite add64_id by lia.
    set (n := Z.min (RelMsg.hb_last hb - base_ r + 1) WindowBits).
    assert (u32 (if RelMsg.hb_last hb - base_ r + 1 <? WindowBits
      then RelMsg.hb_last hb - base_ r + 1 else WindowBits) = n) as ->.
    { unfold n. destruct (Z.ltb_spec (RelMsg.hb_last hb - base_ r + 1) WindowBits);
        rewrite u32_id; lia. }
    destruct (request_missing_spec (E:=E) r n Hr) as (s & -> & H1 & H2 & H3 & H4);
      [lia|unfold i64_max; lia|].
    cbn [mbind outcome_bind]. exists s, false. split; [done|]. split; try done.
    cbn. destruct (Z.eqb_spec n 0); [lia|done].
  - destruct (request_missing_spec (E:=E) r 0 Hr) as (s & Hs & H1 & H2 & H3 & H4);
      [lia|unfold i64_max; lia|].
    cbn in Hs. injection Hs as <-. by eexists _, true.
Qed.

Lemma on_heartbeat_post r hb a :
  reader_wf r -> buffer_wf ActionCapacity a ->
  0 <= RelMsg.hb_first hb < 2 ^ 64 -> 0 <= RelMsg.hb_last hb < 2 ^ 64 ->
  match on_heartbeat r hb a with
  | Fault => False
  | Stop e => e <> rel_ok
  | Done (r', a') =>
      reader_wf r' /\ buffer_wf ActionCapacity a' /\ config_ r' = config_ r /\
      base_ r' = base_ r /\ (forall s, got r' s = got r s) /\
      if (base_ r <=? RelMsg.hb_last hb) || negb (RelMsg.hb_final_flag hb)
      then exists x, contents a' = contents a ++ [x] /\
             requests r (covered r (RelMsg.hb_last hb)) x /\
             acknack_count_ r' = control_count x
      else contents a' = contents a
  end.
Proof.
  intros [Hr Hbase Hv] Ha Hfirst Hlast. unfold on_heartbeat. rewrite Hv.
  cbn [negb stop_if mbind outcome_bind].
  destruct (valid_heartbeat_range hb) eqn:Hrange; cbn [negb stop_if mbind outcome_bind];
    [|done].
  destruct (entity_neqb _ _ || _); cbn [stop_if mbind outcome_bind]; [done|].
  destruct (heartbeat_count_initialized_ r && _); cbn [stop_if mbind outcome_bind]; [done|].
  destruct ((base_ r <=? RelMsg.hb_last hb) && _); cbn [stop_if mbind outcome_bind]; [done|].
  assert (RelMsg.hb_last hb <= i64_max) as Hmax.
  { unfold valid_heartbeat_range in Hrange. rewrite !andb_true_iff, !Z.leb_le in Hrange.
    lia. }
  assert (forall c h, reader_wf (with_counts r c h)) as Hwc.
  { intros c h. destruct Hr as [R1 R2 R3 R4]. split; [by split|done|done]. }
  destruct ((base_ r <=? RelMsg.hb_last hb) || negb (RelMsg.hb_final_flag hb)) eqn:Hreq;
    cbn [andb stop_if mbind outcome_bind]; [|by split_and!].
  rewrite remaining_spec by done. pose proof (bw_size _ _ Ha).
  destruct (Z.eqb_spec (ActionCapacity - asize_ a) 0); cbn [stop_if mbind outcome_bind];
    [done|].
  destruct (response_state_spec (E:=ReliabilityError) r hb Hr) as (s & f & -> & Hx);
    [lia|]. cbn [mbind outcome_bind].
  destruct (push_ignored_spec (E:=ReliabilityError) ActionCapacity a (acknack_action r s f))
    as (a' & -> & Hawf & Hcont & _); [done|lia|].
  cbn [mbind outcome_bind]. split_and!; try done. by eexists.
Qed.

End Reader.
End Reader.
