(* ===== verification/ReliabilityProtocol.v ===== *)
(** * The reliability protocol end to end

    A reliable reader driven by arbitrary calls, and a reliable writer and a
    reliable reader connected by a network that may lose, duplicate, delay and
    reorder messages. *)
From stdpp Require Import relations.
From S2P Require Import Prelude.
From S2P Require Import Bytes.
From S2P Require Import Types.
From S2P Require Import KeepLastHistory.
From S2P Require Import ReliabilityMessages.
From S2P Require Import ReliabilityState.
From S2P Require Import ReliableWriter.
From S2P Require Import WriterTrace.
From S2P Require Import ReliableReader.

Module Protocol.
Import Types Rel.

(** ** Reader runs *)

Inductive reader_op : Set :=
  | Data (seq : Z)
  | HeartbeatIn (heartbeat : RelMsg.HeartbeatView)
  | DrainReader.

Section ReaderRun.
Context (WindowBits ActionCapacity : Z).
Context (Window_pos : 0 < WindowBits <= 256).
Context (Capacity_pos : 0 < ActionCapacity < 2 ^ 64).

Record reader_machine : Set := {
  rm_reader : Reader.ReliableReader;
  rm_actions : ReliabilityActionBuffer;
  rm_drained : list ReliabilityAction;
}.

Definition reader_init (config : Reader.ReliableReaderConfig) : reader_machine :=
  {| rm_reader := Reader.ReliableReader_new WindowBits config;
     rm_actions := ActionBuffer_init ActionCapacity; rm_drained := [] |}.

Definition rlog (m : reader_machine) : list ReliabilityAction :=
  rm_drained m ++ contents (rm_actions m).

Definition rcommitted (m : reader_machine)
    (o : outcome ReliabilityError (Reader.ReliableReader * ReliabilityActionBuffer))
    : option reader_machine :=
  '(_, (r, a)) ← commit rel_ok (rm_reader m, rm_actions m) o;
  Some {| rm_reader := r; rm_actions := a; rm_drained := rm_drained m |}.

Definition reader_step (m : reader_machine) (op : reader_op) : option reader_machine :=
  match op with
  | Data seq => rcommitted m
      (Reader.on_data WindowBits ActionCapacity (rm_reader m) seq (rm_actions m))
  | HeartbeatIn hb => rcommitted m
      (Reader.on_heartbeat WindowBits ActionCapacity (rm_reader m) hb (rm_actions m))
  | DrainReader => Some {| rm_reader := rm_reader m; rm_actions := clear (rm_actions m);
                           rm_drained := rm_drained m ++ contents (rm_actions m) |}
  end.

Fixpoint reader_run (m : reader_machine) (ops : list reader_op) : option reader_machine :=
  match ops with
  | [] => Some m
  | op :: ops' => m' ← reader_step m op; reader_run m' ops'
  end.

Definition rop_ok (op : reader_op) : Prop :=
  match op with
  | Data seq => 0 <= seq < 2 ^ 64
  | HeartbeatIn hb => 0 <= RelMsg.hb_first hb < 2 ^ 64 /\ 0 <= RelMsg.hb_last hb < 2 ^ 64
  | DrainReader => True
  end.

(** The samples the reader has reported to the application. *)
Definition got_log (m : reader_machine) : list Z := seqs_of sample_received (rlog m).

(** An ACKNACK acknowledges only what the reader had received. *)
Definition acknowledges (x : ReliabilityAction) (s : Z) : bool :=
  WriterTrace.ack_covers (reader_state x) s.

Record reader_inv (config : Reader.ReliableReaderConfig) (m : reader_machine) : Prop := {
  ri_wf : Reader.reader_wf WindowBits (rm_reader m);
  ri_buffer : buffer_wf ActionCapacity (rm_actions m);
  ri_config : Reader.config_ (rm_reader m) = config;
  ri_unique : NoDup (got_log m);
  ri_got : forall s, Reader.initial_sequence_number config <= s ->
    (s ∈ got_log m <-> Reader.got WindowBits (rm_reader m) s = true);
  ri_low : Forall (fun s => Reader.initial_sequence_number config <= s) (got_log m);
  ri_start : Reader.initial_sequence_number config <= Reader.base_ (rm_reader m);
  ri_acks : forall x, x ∈ rlog m -> kind x = send_acknack ->
    RelMsg.sns_wf (reader_state x) /\
    forall s, Reader.initial_sequence_number config <= s -> acknowledges x s = true ->
      s ∈ got_log m;
}.

Lemma reader_init_inv config :
  valid_state_sequence (Reader.initial_sequence_number config) = true ->
  0 <= Reader.initial_sequence_number config ->
  reader_inv config (reader_init config).
Proof.
  intros Hv H0. assert (rlog (reader_init config) = []) as Hlog by done.
  assert (forall s, Reader.flagged WindowBits (rm_reader (reader_init config)) s = false)
    as Hflag.
  { intros s. unfold Reader.flagged. cbn. destruct (mload _ _) as [b|] eqn:Hb;
      cbn; [|apply andb_false_r].
    apply mload_Some in Hb as [_ Hb]. apply lookup_replicate in Hb as [-> _].
    apply andb_false_r. }
  unfold valid_state_sequence in Hv. apply andb_true_iff in Hv as [H1 H2%Z.ltb_lt].
  apply negb_true_iff, Z.eqb_neq in H1.
  split; unfold got_log; rewrite ?Hlog; try done; try (by constructor).
  - split; [split| |]; cbn; try (rewrite ?length_replicate; lia).
    + intros s Hs. by rewrite Hflag in Hs.
    + apply Hflag.
    + unfold valid_state_sequence. apply andb_true_iff.
      by rewrite negb_true_iff, Z.eqb_neq, Z.ltb_lt.
  - by apply init_buffer_wf.
  - intros s Hs. unfold Reader.got. rewrite Hflag. cbn.
    destruct (Z.ltb_spec s (Reader.initial_sequence_number config)); [lia|].
    cbn. split; [by intros ?%not_elem_of_nil|done].
  - intros x Hx. by apply not_elem_of_nil in Hx.
Qed.

Lemma data_inv config m seq r' a' :
  reader_inv config m ->
  Reader.refusal WindowBits ActionCapacity (rm_reader m) seq (rm_actions m) = None ->
  Reader.received WindowBits ActionCapacity (rm_reader m) r' (rm_actions m) a' seq ->
  reader_inv config {| rm_reader := r'; rm_actions := a'; rm_drained := rm_drained m |}.
Proof.
  intros [I1 I2 I3 I4 I5 I6 I7 I8] Href [R1 R2 R3 R4 R5 R6].
  set (m' := {| rm_reader := r'; rm_actions := a'; rm_drained := rm_drained m |}).
  set (act := sample_action sample_received seq None 0 repair_none) in *.
  assert (rlog m' = rlog m ++ [act]) as Hlog by (unfold rlog; cbn; by rewrite R5, app_assoc).
  assert (got_log m' = got_log m ++ [seq]) as Hgl
    by (unfold got_log; rewrite Hlog, seqs_of_app; done).
  unfold Reader.refusal in Href.
  destruct (negb (valid_state_sequence seq)); [done|].
  destruct (Z.ltb_spec seq (Reader.base_ (rm_reader m))); [done|].
  destruct (_ <=? seq); [done|].
  destruct (Reader.got WindowBits (rm_reader m) seq) eqn:Hng; [done|]. clear Href.
  assert (seq ∉ got_log m) as Hfresh.
  { intros Hin. apply I5 in Hin; [congruence|]. lia. }
  split; cbn [rm_reader rm_actions m']; rewrite ?Hgl; try done.
  - destruct R2 as (-> & _). done.
  - apply NoDup_app. split_and!; [done| |apply NoDup_singleton].
    intros x Hx ->%list_elem_of_singleton. done.
  - intros s Hs. rewrite R4, elem_of_app, list_elem_of_singleton, I5, orb_true_iff,
      Z.eqb_eq by done. tauto.
  - apply Forall_app. split; [done|]. apply Forall_singleton. lia.
  - lia.
  - intros x Hx Hk. rewrite Hlog in Hx. apply elem_of_app in Hx as [Hx|Hx].
    + destruct (I8 x Hx Hk) as [Hwf Hack]. split; [done|]. intros s Hs Ha.
      rewrite elem_of_app. left. by apply Hack.
    + apply list_elem_of_singleton in Hx as ->. done.
Qed.

(** The ACKNACK the reader emits acknowledges only received samples. *)
Lemma requests_acknowledge r n x s :
  Reader.requests WindowBits r n x -> acknowledges x s = true -> 0 <= n <= WindowBits ->
  Reader.got WindowBits r s = true.
Proof.
  intros [_ _ _ _ Hb Hn Hm _ _] Ha Hr. unfold acknowledges, WriterTrace.ack_covers in Ha. rewrite Hb, Hn in Ha.
  destruct (Z.ltb_spec s (Reader.base_ r)).
  - unfold Reader.got. destruct (Z.ltb_spec s (Reader.base_ r)); [done|lia].
  - cbn in Ha. apply andb_true_iff in Ha as [Hlt Hbit]. rewrite Hm, Hlt in Hbit by lia.
    replace (Reader.base_ r + (s - Reader.base_ r)) with s in Hbit by lia.
    by destruct (Reader.got WindowBits r s).
Qed.

Lemma heartbeat_in_inv config m hb r' a' :
  reader_inv config m -> rop_ok (HeartbeatIn hb) ->
  Reader.on_heartbeat WindowBits ActionCapacity (rm_reader m) hb (rm_actions m) =
    Done (r', a') ->
  reader_inv config {| rm_reader := r'; rm_actions := a'; rm_drained := rm_drained m |}.
Proof.
  intros [I1 I2 I3 I4 I5 I6 I7 I8] [Hf Hl] Hd.
  pose proof (Reader.on_heartbeat_post WindowBits ActionCapacity Window_pos
    (rm_reader m) hb (rm_actions m) I1 I2 Hf Hl) as Hpost. rewrite Hd in Hpost.
  destruct Hpost as (R1 & R2 & R3 & R4 & R5 & Hresp).
  set (m' := {| rm_reader := r'; rm_actions := a'; rm_drained := rm_drained m |}).
  assert (got_log m' = got_log m /\ forall x, x ∈ rlog m' -> kind x = send_acknack ->
    x ∈ rlog m \/ Reader.requests WindowBits (rm_reader m)
      (Reader.covered WindowBits (rm_reader m) (RelMsg.hb_last hb)) x) as [Hgl Hnew].
  { unfold got_log, rlog. cbn [m' rm_actions rm_drained].
    destruct ((_ <=? _) || _).
    - destruct Hresp as (x & -> & Hx & _). pose proof (Reader.rq_kind _ _ _ _ Hx) as Hk.
      rewrite app_assoc, (seqs_of_app _ _ [x]). split.
      + unfold seqs_of at 2. rewrite filter_cons_False by (rewrite Hk; discriminate).
        apply app_nil_r.
      + intros y Hy _. apply elem_of_app in Hy as [Hy|Hy]; [by left|right].
        by apply list_elem_of_singleton in Hy as ->.
    - rewrite Hresp. split; [done|]. by left. }
  split; cbn [rm_reader rm_actions m']; rewrite ?Hgl, ?R3, ?R4; try done.
  - intros s Hs. rewrite R5. by apply I5.
  - intros x Hx Hk. destruct (Hnew x Hx Hk) as [Hold|Hreq]; [by apply I8|].
    split; [apply Hreq|]. intros s Hs Ha. apply I5; [done|].
    eapply requests_acknowledge; [exact Hreq|done|].
    unfold Reader.covered. destruct (Z.leb_spec (Reader.base_ (rm_reader m))
      (RelMsg.hb_last hb)); lia.
Qed.

Lemma reader_step_inv config m op :
  reader_inv config m -> rop_ok op ->
  exists m', reader_step m op = Some m' /\ reader_inv config m'.
Proof.
  intros Hm Hop. pose proof Hm as [I1 I2 I3 I4 I5 I6 I7 I8].
  assert (reader_inv config {| rm_reader := rm_reader m; rm_actions := rm_actions m;
                               rm_drained := rm_drained m |}) as Hm' by (by destruct m).
  destruct op as [seq|hb|]; cbn [reader_step rop_ok] in *; unfold rcommitted.
  - pose proof (Reader.on_data_cases WindowBits ActionCapacity Window_pos
      (rm_reader m) seq (rm_actions m) I1 I2 Hop) as Hcases.
    destruct (Reader.refusal _ _ _ _ _) eqn:Href; [rewrite Hcases; by eexists|].
    destruct Hcases as (r' & a' & -> & Hrec). eexists. split; [done|].
    by eapply data_inv.
  - pose proof (Reader.on_heartbeat_post WindowBits ActionCapacity Window_pos
      (rm_reader m) hb (rm_actions m) I1 I2 (proj1 Hop) (proj2 Hop)) as Hpost.
    pose proof (heartbeat_in_inv config m hb) as Hinv.
    destruct (Reader.on_heartbeat _ _ _ _ _) as [|e|[r' a']]; [done|by eexists|].
    eexists. split; [done|]. by apply Hinv.
  - eexists. split; [done|].
    assert (rlog {| rm_reader := rm_reader m; rm_actions := clear (rm_actions m);
      rm_drained := rm_drained m ++ contents (rm_actions m) |} = rlog m) as Hlog
      by apply app_nil_r.
    split; unfold got_log in *; rewrite ?Hlog; try done.
    destruct I2. split; cbn; (done || lia).
Qed.

Lemma reader_run_inv config ops : forall m,
  reader_inv config m -> Forall rop_ok ops ->
  exists m', reader_run m ops = Some m' /\ reader_inv config m'.
Proof.
  induction ops as [|op ops IH]; intros m Hm Hops; [by eauto|].
  apply Forall_cons in Hops as [Hop Hops]. cbn [reader_run].
  destruct (reader_step_inv config m op Hm Hop) as (m1 & -> & Hm1). by apply IH.
Qed.

(** C14: exactly-once reception without gaps: over any sequence of DATA arrivals
    (in any order, with duplicates and losses) and heartbeats, the reader reports
    every sequence number at most once; [next_expected_sequence()] is the first
    number not yet reported, everything between the initial number and it has
    been reported, and the reader never faults. *)
Theorem reader_exactly_once config ops :
  valid_state_sequence (Reader.initial_sequence_number config) = true ->
  0 <= Reader.initial_sequence_number config -> Forall rop_ok ops ->
  exists m, reader_run (reader_init config) ops = Some m /\
    NoDup (got_log m) /\
    (Reader.base_ (rm_reader m) ∉ got_log m) /\
    forall s, Reader.initial_sequence_number config <= s < Reader.base_ (rm_reader m) ->
      s ∈ got_log m.
Proof.
  intros Hv H0 Hops.
  destruct (reader_run_inv config ops (reader_init config)) as (m & Hrun & Hm);
    [by apply reader_init_inv|done|].
  exists m. destruct Hm as [I1 I2 I3 I4 I5 I6 I7 I8]. split_and!; [done..| |].
  - rewrite I5 by done. unfold Reader.got. rewrite Z.ltb_irrefl.
    by rewrite (Reader.rw_base _ _ I1).
  - intros s Hs. apply I5; [lia|]. unfold Reader.got.
    destruct (Z.ltb_spec s (Reader.base_ (rm_reader m))); [done|lia].
Qed.

(** [on_data] classifies every arrival: it refuses an invalid sequence
    number, one below the base ([stale_data]), one beyond the window, one already
    flagged ([duplicate_data]) or one that cannot be reported, each with its own
    error; otherwise the reader afterwards has received exactly that number in
    addition, the base has advanced over everything received without a gap, and
    one [sample_received] was emitted. *)
Theorem on_data_exact r seq a :
  Reader.reader_wf WindowBits r -> buffer_wf ActionCapacity a -> 0 <= seq < 2 ^ 64 ->
  match Reader.refusal WindowBits ActionCapacity r seq a with
  | Some e => Reader.on_data WindowBits ActionCapacity r seq a = Stop e
  | None => exists r' a', Reader.on_data WindowBits ActionCapacity r seq a = Done (r', a') /\
      Reader.received WindowBits ActionCapacity r r' a a' seq
  end.
Proof. by apply Reader.on_data_cases. Qed.

(** Negative acknowledgements are exact: a heartbeat that needs an answer is
    answered by one ACKNACK whose bitmap starts at the first missing number,
    covers the announced numbers up to the window size, and requests exactly the
    numbers not yet received; heartbeats never change what has been received, and
    a refused heartbeat changes nothing. *)
Theorem on_heartbeat_exact r hb a r' a' :
  Reader.reader_wf WindowBits r -> buffer_wf ActionCapacity a ->
  0 <= RelMsg.hb_first hb < 2 ^ 64 -> 0 <= RelMsg.hb_last hb < 2 ^ 64 ->
  Reader.on_heartbeat WindowBits ActionCapacity r hb a = Done (r', a') ->
  Reader.reader_wf WindowBits r' /\ Reader.base_ r' = Reader.base_ r /\
  (forall s, Reader.got WindowBits r' s = Reader.got WindowBits r s) /\
  if (Reader.base_ r <=? RelMsg.hb_last hb) || negb (RelMsg.hb_final_flag hb)
  then exists x, contents a' = contents a ++ [x] /\
    Reader.requests WindowBits r (Reader.covered WindowBits r (RelMsg.hb_last hb)) x /\
    Reader.acknack_count_ r' = control_count x
  else contents a' = contents a.
Proof.
  intros Hr Ha Hf Hl Hd.
  pose proof (Reader.on_heartbeat_post WindowBits ActionCapacity Window_pos r hb a
    Hr Ha Hf Hl) as Hpost. rewrite Hd in Hpost. tauto.
Qed.

End ReaderRun.

(** ** A writer and a reader over an unreliable network *)

Section System.
Context (Depth MaxPayload WCapacity Window RCapacity : Z).
Context (Depth_pos : 0 < Depth < 2 ^ 64) (Max_pos : 0 < MaxPayload < 2 ^ 64).
Context (WCap_pos : 0 < WCapacity < 2 ^ 64).
Context (Window_pos : 0 < Window <= 256) (RCap_pos : 0 < RCapacity < 2 ^ 64).

Record system : Set := {
  sys_writer : WriterTrace.machine;
  sys_reader : reader_machine;
}.

(** The ACKNACK message sent for an action, as the writer's parser delivers it. *)
Definition ack_of (header : RelMsg.ReliabilityMessageHeader) (x : ReliabilityAction)
    : RelMsg.AckNackView :=
  {| RelMsg.an_header := header; RelMsg.an_reader_id := reader_id x;
     RelMsg.an_writer_id := writer_id x; RelMsg.an_reader_state := reader_state x;
     RelMsg.an_count := control_count x; RelMsg.an_final_flag := final_flag x |}.

Definition local_op (op : WriterTrace.writer_op) : Prop :=
  match op with WriterTrace.AckNack _ _ => False | _ => True end.

(** Any DATA the writer ever sent may arrive at any time, any number of times or
    never; so may any ACKNACK the reader ever emitted, and any heartbeat. *)
Inductive sys_step : system -> system -> Prop :=
  | step_writer s op w' :
      local_op op -> WriterTrace.op_ok op ->
      WriterTrace.writer_step Depth MaxPayload WCapacity (sys_writer s) op = Some w' ->
      sys_step s {| sys_writer := w'; sys_reader := sys_reader s |}
  | step_acknack s header x now w' :
      x ∈ rlog (sys_reader s) -> kind x = send_acknack -> 0 <= now < 2 ^ 64 ->
      WriterTrace.writer_step Depth MaxPayload WCapacity (sys_writer s)
        (WriterTrace.AckNack (ack_of header x) now) = Some w' ->
      sys_step s {| sys_writer := w'; sys_reader := sys_reader s |}
  | step_data s seq r' :
      seq ∈ seqs_of send_data (WriterTrace.log (sys_writer s)) ->
      reader_step Window RCapacity (sys_reader s) (Data seq) = Some r' ->
      sys_step s {| sys_writer := sys_writer s; sys_reader := r' |}
  | step_heartbeat s hb r' :
      rop_ok (HeartbeatIn hb) ->
      reader_step Window RCapacity (sys_reader s) (HeartbeatIn hb) = Some r' ->
      sys_step s {| sys_writer := sys_writer s; sys_reader := r' |}
  | step_drain s r' :
      reader_step Window RCapacity (sys_reader s) DrainReader = Some r' ->
      sys_step s {| sys_writer := sys_writer s; sys_reader := r' |}.

Definition sys_init (wc : Writer.ReliableWriterConfig) (rc : Reader.ReliableReaderConfig)
    : system :=
  {| sys_writer := WriterTrace.machine_init Depth MaxPayload WCapacity wc;
     sys_reader := reader_init Window RCapacity rc |}.

Definition delivered (s : system) : list Z :=
  seqs_of sample_delivered (WriterTrace.log (sys_writer s)).

Record sys_inv wc rc (s : system) : Prop := {
  si_writer : WriterTrace.machine_inv Depth MaxPayload WCapacity wc (sys_writer s);
  si_reader : reader_inv Window RCapacity rc (sys_reader s);
  si_delivered : forall n, n ∈ delivered s -> n ∈ got_log (sys_reader s);
  si_sent : forall n, n ∈ got_log (sys_reader s) ->
    n ∈ seqs_of send_data (WriterTrace.log (sys_writer s));
}.

Abbreviation sent s := (seqs_of send_data (WriterTrace.log (sys_writer s))).

Lemma seqs_of_elem k l n :
  n ∈ seqs_of k l <-> exists y, y ∈ l /\ kind y = k /\ sequence_number y = n.
Proof using Type.
  unfold seqs_of. rewrite list_elem_of_fmap. split.
  - intros (y & -> & [Hk Hy]%list_elem_of_filter). by exists y.
  - intros (y & Hy & Hk & <-). exists y. split; [done|]. by apply list_elem_of_filter.
Qed.

Lemma sys_init_inv wc rc :
  WriterTrace.config_ok wc -> Reader.initial_sequence_number rc = 1 ->
  sys_inv wc rc (sys_init wc rc).
Proof.
  intros Hw Hr. split; [by apply WriterTrace.init_inv| | |].
  - apply reader_init_inv; rewrite ?Hr; done.
  - by intros n ?%not_elem_of_nil.
  - by intros n ?%not_elem_of_nil.
Qed.

(** A step of the writer that reports as delivered only what the reader has
    received keeps the invariant. *)
Lemma writer_move wc rc s op w' :
  sys_inv wc rc s -> WriterTrace.op_ok op ->
  WriterTrace.writer_step Depth MaxPayload WCapacity (sys_writer s) op = Some w' ->
  (forall ack now n, op = WriterTrace.AckNack ack now -> 1 <= n ->
     WriterTrace.ack_covers (RelMsg.an_reader_state ack) n = true ->
     n ∈ got_log (sys_reader s)) ->
  sys_inv wc rc {| sys_writer := w'; sys_reader := sys_reader s |}.
Proof.
  intros [W R D S] Hop Hstep Hack.
  destruct (WriterTrace.writer_step_inv Depth MaxPayload WCapacity Depth_pos Max_pos
    WCap_pos wc (sys_writer s) op W Hop) as (w1 & Hw1 & Hinv).
  rewrite Hstep in Hw1. injection Hw1 as <-.
  destruct (WriterTrace.writer_step_log Depth MaxPayload WCapacity Depth_pos Max_pos
    wc (sys_writer s) op w' W Hop Hstep) as (new & Hlog & Hnew).
  split; [done..| |]; unfold delivered in *; cbn [sys_writer sys_reader];
    rewrite Hlog, seqs_of_app.
  - intros n [Hn|Hn]%elem_of_app; [by apply D|].
    apply seqs_of_elem in Hn as (y & Hy & Hk & <-).
    destruct (Hnew y Hy Hk) as (ack & now & -> & H1 & Hc). by eapply Hack.
  - intros n Hn. apply elem_of_app. left. by apply S.
Qed.

(** The DATA numbers in the network are valid arguments of [on_data]. *)
Lemma sent_ok wc rc s n :
  sys_inv wc rc s -> n ∈ sent s -> 0 <= n < 2 ^ 64.
Proof using Type.
  intros [W _ _ _] Hn.
  pose proof (proj1 (Forall_forall _ _) (WriterTrace.mi_sent_last _ _ _ _ _ W) n Hn) as Hr.
  pose proof (Writer.ww_last _ _ _ (WriterTrace.mi_wf _ _ _ _ _ W)) as Hl.
  unfold i64_max in Hl. cbn in Hr. lia.
Qed.

(** What a step of the reader adds to the received samples. *)
Lemma reader_step_got config m op m' :
  reader_inv Window RCapacity config m -> rop_ok op ->
  reader_step Window RCapacity m op = Some m' ->
  forall n, (n ∈ got_log m -> n ∈ got_log m') /\
    (n ∈ got_log m' -> n ∈ got_log m \/ op = Data n).
Proof.
  intros Hm Hop Hstep n. pose proof Hm as [I1 I2 I3 I4 I5 I6 I7 I8].
  destruct op as [seq|hb|]; cbn [reader_step rop_ok] in *; unfold rcommitted in Hstep.
  - pose proof (Reader.on_data_cases Window RCapacity Window_pos
      (rm_reader m) seq (rm_actions m) I1 I2 Hop) as Hcases.
    destruct (Reader.refusal _ _ _ _ _) eqn:Href.
    { rewrite Hcases in Hstep. injection Hstep as <-. by eauto. }
    destruct Hcases as (r' & a' & Hd & Hrec). rewrite Hd in Hstep. injection Hstep as <-.
    unfold got_log, rlog. cbn [rm_actions rm_drained].
    rewrite (Reader.rc_actions _ _ _ _ _ _ _ Hrec), app_assoc,
      (seqs_of_app _ _ [_]), elem_of_app. split; [by left|]. intros [?|Hn]; [by left|right].
    apply list_elem_of_singleton in Hn as ->. done.
  - pose proof (Reader.on_heartbeat_post Window RCapacity Window_pos
      (rm_reader m) hb (rm_actions m) I1 I2 (proj1 Hop) (proj2 Hop)) as Hpost.
    destruct (Reader.on_heartbeat _ _ _ _ _) as [|e|[r' a']]; [done|..]; injection Hstep as <-;
      [by eauto|].
    destruct Hpost as (_ & _ & _ & _ & _ & Hresp).
    enough (got_log {| rm_reader := r'; rm_actions := a'; rm_drained := rm_drained m |} =
      got_log m) as -> by eauto.
    unfold got_log, rlog. cbn [rm_actions rm_drained].
    destruct ((_ <=? _) || _); [|by rewrite Hresp].
    destruct Hresp as (x & -> & Hx & _). pose proof (Reader.rq_kind _ _ _ _ Hx) as Hk.
    rewrite app_assoc, (seqs_of_app _ _ [x]). unfold seqs_of at 2.
    rewrite filter_cons_False by (rewrite Hk; discriminate). apply app_nil_r.
  - injection Hstep as <-. unfold got_log, rlog. cbn. rewrite app_nil_r. by eauto.
Qed.

Lemma reader_move wc rc s op r' :
  sys_inv wc rc s -> rop_ok op ->
  reader_step Window RCapacity (sys_reader s) op = Some r' ->
  (forall n, op = Data n -> n ∈ sent s) ->
  sys_inv wc rc {| sys_writer := sys_writer s; sys_reader := r' |}.
Proof.
  intros [W R D S] Hop Hstep Hdata.
  destruct (reader_step_inv Window RCapacity Window_pos RCap_pos rc (sys_reader s) op R Hop)
    as (r1 & Hr1 & Hinv).
  rewrite Hstep in Hr1. injection Hr1 as <-.
  pose proof (reader_step_got rc (sys_reader s) op r' R Hop Hstep) as Hgot.
  split; [done..| |]; cbn [sys_writer sys_reader].
  - intros n Hn. by apply Hgot, D.
  - intros n Hn. destruct (proj2 (Hgot n) Hn) as [?|Hop']; [by apply S|by apply Hdata].
Qed.

Lemma sys_step_inv wc rc s s' :
  Reader.initial_sequence_number rc = 1 -> sys_inv wc rc s -> sys_step s s' ->
  sys_inv wc rc s'.
Proof.
  intros H1 Hinv Hstep. destruct Hstep as [s op w' Hloc Hop Hs|s h x now w' Hx Hk Hnow Hs|
    s seq r' Hseq Hs|s hb r' Hop Hs|s r' Hs].
  - apply (writer_move wc rc s op w' Hinv Hop Hs). by intros ack now n ->.
  - destruct (ri_acks _ _ _ _ (si_reader _ _ _ Hinv) x Hx Hk) as [Hwf Hack].
    apply (writer_move wc rc s (WriterTrace.AckNack (ack_of h x) now) w' Hinv
      (conj Hwf Hnow) Hs). intros ack t n [= <- <-] Hn Hc.
    apply Hack; [lia|done].
  - apply (reader_move wc rc s (Data seq) r' Hinv (sent_ok _ _ _ _ Hinv Hseq) Hs).
    by intros n [= <-].
  - by apply (reader_move wc rc s _ r' Hinv Hop Hs).
  - by apply (reader_move wc rc s DrainReader r' Hinv I Hs).
Qed.

(** C5: end-to-end reliability: a writer and a reader exchange messages over a
    network that may lose, duplicate, delay and reorder them. In every reachable
    state the reader has reported every sample at most once and only samples the
    writer sent, and every sample the writer has reported as delivered has been
    received by the reader. *)
Theorem delivery_is_sound wc rc s :
  WriterTrace.config_ok wc -> Reader.initial_sequence_number rc = 1 ->
  rtc sys_step (sys_init wc rc) s ->
  NoDup (got_log (sys_reader s)) /\
  (forall n, n ∈ got_log (sys_reader s) -> n ∈ sent s) /\
  (forall n, n ∈ delivered s -> n ∈ got_log (sys_reader s)).
Proof.
  intros Hw Hr Hrun.
  assert (sys_inv wc rc s) as [_ R D S].
  { pose proof (sys_init_inv wc rc Hw Hr) as Hinit.
    induction Hrun as [|x y z Hxy _ IH]; [done|]. apply IH. by eapply sys_step_inv. }
  split_and!; [apply R|done|done].
Qed.

Lemma repair_round_settles r hb ar r' ar' x header w now aw w' aw' :
  Reader.reader_wf Window r -> buffer_wf RCapacity ar ->
  0 <= RelMsg.hb_first hb < 2 ^ 64 -> 0 <= RelMsg.hb_last hb < 2 ^ 64 ->
  Reader.on_heartbeat Window RCapacity r hb ar = Done (r', ar') ->
  contents ar' = contents ar ++ [x] ->
  Writer.writer_wf Depth MaxPayload w -> buffer_wf WCapacity aw -> 0 <= now < 2 ^ 64 ->
  Writer.on_acknack Depth WCapacity w (ack_of header x) now aw = Done (w', aw') ->
  exists new, contents aw' = contents aw ++ new /\
  forall rec, rec ∈ Writer.live w ->
    let s := Writer.record_sequence rec in
    let report k f := sample_action k s None 0 f in
    if Reader.base_ r + Reader.covered Window r (RelMsg.hb_last hb) <=? s
    then rec ∈ Writer.live w'
    else if Reader.got Window r s then report sample_delivered repair_none ∈ new
    else if Writer.expired (Writer.config_ w) now rec
    then report sample_failed repair_window_expired ∈ new
    else if Writer.max_repair_attempts (Writer.config_ w) <=? Writer.repair_attempts rec
    then report sample_failed repair_limit_exceeded ∈ new
    else exists k, sample_action retransmit_data s (Some k)
           (History.sample_size_ (Writer.sample rec)) repair_none ∈ new.
Proof.
  intros Hr Har Hf Hl Hh Hx Hw Haw Hnow Hack.
  assert (Reader.requests Window r (Reader.covered Window r (RelMsg.hb_last hb)) x) as Hreq.
  { pose proof (Reader.on_heartbeat_post Window RCapacity Window_pos r hb ar Hr Har Hf Hl)
      as Hpost. rewrite Hh in Hpost. destruct Hpost as (_ & _ & _ & _ & _ & Hresp).
    destruct ((_ <=? _) || _).
    - destruct Hresp as (y & Hy & Hreq & _). rewrite Hx in Hy.
      apply app_inj_2 in Hy as [_ [= ->]]; done.
    - rewrite Hx in Hresp. apply (f_equal length) in Hresp.
      rewrite length_app in Hresp. cbn in Hresp. lia. }
  destruct (WriterTrace.acknack_verdicts Depth MaxPayload WCapacity Depth_pos Max_pos
    w (ack_of header x) now aw w' aw' Hw Haw (Reader.rq_wf _ _ _ _ Hreq) Hnow Hack)
    as (new & Hnew & Hall).
  exists new. split; [done|]. intros rec Hrec s report. specialize (Hall rec Hrec).
  destruct Hreq as [_ _ _ _ Hb Hn Hm _ _].
  unfold WriterTrace.verdict, WriterTrace.ack_covers in Hall.
  cbn [ack_of RelMsg.an_reader_state] in Hall. rewrite Hb, Hn in Hall. fold s in Hall.
  unfold Reader.got. set (n := Reader.covered Window r (RelMsg.hb_last hb)) in *.
  assert (0 <= n) by (unfold n, Reader.covered; destruct (Z.leb_spec (Reader.base_ r)
    (RelMsg.hb_last hb)); lia).
  destruct (Z.ltb_spec s (Reader.base_ r)), (Z.leb_spec (Reader.base_ r + n) s); try lia;
    cbn [orb] in *.
  - destruct Hall as [[[=] _]|(_ & y & Hy & f & k & [= <-] & ->)]. exact Hy.
  - destruct (Z.ltb_spec (s - Reader.base_ r) n); [lia|]. cbn [andb] in Hall.
    by destruct Hall as [[_ ?]|[[] _]].
  - destruct (Z.ltb_spec (s - Reader.base_ r) n); [|lia].
    rewrite Hm in Hall by lia. destruct (Z.ltb_spec (s - Reader.base_ r) n); [|lia].
    replace (Reader.base_ r + (s - Reader.base_ r)) with s in Hall by lia.
    unfold Reader.got in Hall. destruct (Z.ltb_spec s (Reader.base_ r)); [lia|].
    cbn [orb andb] in Hall. rewrite negb_involutive in Hall.
    destruct (Reader.flagged Window r s); [|destruct (Writer.expired _ _ _);
      [|destruct (_ <=? Writer.repair_attempts rec)]];
      destruct Hall as [[[=] _]|(_ & y & Hy & f & k & [= <-] & ->)]; try exact Hy.
    by exists k.
Qed.

(** C9: one repair round settles every sample the reader knows about: when the
    reader answers a heartbeat and the writer accepts that answer, each held
    sample in the answered range is reported as delivered if the reader has it;
    if the reader misses it, it is retransmitted with its own payload, or reported
    as failed because its repair window expired or its repair attempts are used
    up. Held samples beyond the range stay held. *)
Theorem repair_round r hb ar r' ar' x header w now aw w' aw' :
  Reader.reader_wf Window r -> buffer_wf RCapacity ar ->
  0 <= RelMsg.hb_first hb < 2 ^ 64 -> 0 <= RelMsg.hb_last hb < 2 ^ 64 ->
  Reader.on_heartbeat Window RCapacity r hb ar = Done (r', ar') ->
  contents ar' = contents ar ++ [x] ->
  Writer.writer_wf Depth MaxPayload w -> buffer_wf WCapacity aw -> 0 <= now < 2 ^ 64 ->
  Writer.on_acknack Depth WCapacity w (ack_of header x) now aw = Done (w', aw') ->
  exists new, contents aw' = contents aw ++ new /\
  forall rec, rec ∈ Writer.live w ->
    let s := Writer.record_sequence rec in
    let report k f := sample_action k s None 0 f in
    if Reader.base_ r + Reader.covered Window r (RelMsg.hb_last hb) <=? s
    then rec ∈ Writer.live w'
    else if Reader.got Window r s then report sample_delivered repair_none ∈ new
    else if Writer.expired (Writer.config_ w) now rec
    then report sample_failed repair_window_expired ∈ new
    else if Writer.max_repair_attempts (Writer.config_ w) <=? Writer.repair_attempts rec
    then report sample_failed repair_limit_exceeded ∈ new
    else exists k, sample_action retransmit_data s (Some k)
           (History.sample_size_ (Writer.sample rec)) repair_none ∈ new.
Proof. apply repair_round_settles. Qed.

End System.

(** ** A concrete exchange: sample 1 is lost and repaired *)

Definition demo_reader_config : Reader.ReliableReaderConfig :=
  {| Reader.r_reader_id := [0; 0; 1; 4]; Reader.r_writer_id := [0; 0; 1; 3];
     Reader.initial_sequence_number := 1 |}.

Definition demo_reader : Reader.ReliableReader :=
  Reader.ReliableReader_new 8 demo_reader_config.

Definition demo_heartbeat (count : Z) : RelMsg.HeartbeatView :=
  {| RelMsg.hb_header := RelMsg.sample_header big_endian;
     RelMsg.hb_reader_id := [0; 0; 1; 4]; RelMsg.hb_writer_id := [0; 0; 1; 3];
     RelMsg.hb_first := 1; RelMsg.hb_last := 2; RelMsg.hb_count := count;
     RelMsg.hb_final_flag := false; RelMsg.hb_liveliness_flag := false |}.

Lemma demo_reader_wf : Reader.reader_wf 8 demo_reader.
Proof. by apply (ri_wf 8 4 demo_reader_config (reader_init 8 4 demo_reader_config)),
  reader_init_inv. Qed.

Definition demo_reader_ops : list reader_op :=
  [Data 3; Data 3; HeartbeatIn (demo_heartbeat 1); Data 1; DrainReader; Data 9; Data 2].

Lemma reader_exactly_once_witness :
  exists m, reader_run 8 4 (reader_init 8 4 demo_reader_config) demo_reader_ops = Some m /\
    NoDup (got_log m) /\ got_log m = [3; 1; 9; 2].
Proof.
  destruct (reader_exactly_once 8 4 ltac:(lia) ltac:(lia) demo_reader_config demo_reader_ops
    eq_refl ltac:(done)) as (m & Hm & Hn & _); [repeat constructor; done|].
  exists m. split_and!; [exact Hm|exact Hn|]. revert Hm. vm_compute. by intros [= <-].
Defined.

Lemma on_data_exact_witness :
  exists r' a', Reader.on_data 8 4 demo_reader 2 WriterTrace.demo_actions = Done (r', a') /\
    Reader.received 8 4 demo_reader r' WriterTrace.demo_actions a' 2.
Proof.
  exact (on_data_exact 8 4 ltac:(lia) demo_reader 2 WriterTrace.demo_actions demo_reader_wf
    WriterTrace.demo_buffer ltac:(lia)).
Defined.

Lemma on_heartbeat_exact_witness :
  exists r' a' x,
    Reader.on_heartbeat 8 4 demo_reader (demo_heartbeat 1) WriterTrace.demo_actions =
      Done (r', a') /\
    contents a' = [x] /\ Reader.requests 8 demo_reader 2 x.
Proof.
  destruct (Reader.on_heartbeat 8 4 demo_reader (demo_heartbeat 1) WriterTrace.demo_actions)
    as [| |[r' a']] eqn:Hd; [vm_compute in Hd; discriminate..|].
  destruct (on_heartbeat_exact 8 4 ltac:(lia) ltac:(lia) demo_reader (demo_heartbeat 1)
    WriterTrace.demo_actions r' a' demo_reader_wf WriterTrace.demo_buffer
    ltac:(done) ltac:(done) Hd) as (_ & _ & _ & x & Hx & Hreq & _).
  exists r', a', x. split_and!; [done|exact Hx|exact Hreq].
Defined.

(** Write 1, deliver it, answer a heartbeat, process the answer. *)
Lemma delivery_is_sound_witness :
  exists s, rtc (sys_step 2 4 4 8 4) (sys_init 2 4 4 8 4 WriterTrace.demo_config
      demo_reader_config) s /\
    delivered s = [1] /\ 1 ∈ got_log (sys_reader s).
Proof.
  assert (exists s, rtc (sys_step 2 4 4 8 4) (sys_init 2 4 4 8 4 WriterTrace.demo_config
    demo_reader_config) s /\ delivered s = [1]) as (s & Hrun & Hd).
  { eexists. split.
    - eapply rtc_l.
      { eapply (step_writer _ _ _ _ _ _ (WriterTrace.Write (Some [7; 8]) 2 1 10));
          [exact I| |vm_compute; reflexivity].
        split; [split; [lia|by intros b [= <-]]|lia]. }
      eapply rtc_l.
      { eapply (step_data _ _ _ _ _ _ 1); [by left|vm_compute; reflexivity]. }
      eapply rtc_l.
      { eapply (step_heartbeat _ _ _ _ _ _ (demo_heartbeat 1)); [done|vm_compute; reflexivity]. }
      eapply rtc_once.
      eapply (step_acknack _ _ _ _ _ _ (RelMsg.sample_header big_endian) _ 20);
        [right; by left|done|done|vm_compute; reflexivity].
    - reflexivity. }
  exists s. split_and!; [exact Hrun|exact Hd|].
  destruct (delivery_is_sound 2 4 4 8 4 ltac:(lia) ltac:(lia) ltac:(lia) ltac:(lia) ltac:(lia)
    WriterTrace.demo_config demo_reader_config s WriterTrace.demo_config_ok eq_refl Hrun)
    as (_ & _ & Hgot).
  apply Hgot. rewrite Hd. by left.
Defined.

(** The writer after writing sample 1, which the reader has not received. *)
Lemma repair_round_witness :
  exists w a w' a' new x header,
    Writer.write 2 4 4 WriterTrace.demo_writer (Some [7; 8]) 2 1 10
      WriterTrace.demo_actions = Done (w, a) /\
    Writer.on_acknack 2 4 w (ack_of header x) 20 a = Done (w', a') /\
    contents a' = contents a ++ new /\
    exists k, sample_action retransmit_data 1 (Some k) 2 repair_none ∈ new.
Proof.
  destruct (Writer.write_post 2 4 4 ltac:(lia) ltac:(lia) WriterTrace.demo_writer
    (Some [7; 8]) 2 1 10 WriterTrace.demo_actions WriterTrace.demo_wf
    WriterTrace.demo_buffer) as (w & a & rec & Hw & Hwr);
    [split; [lia|by intros b [= <-]]|lia..|].
  destruct (Reader.on_heartbeat 8 4 demo_reader (demo_heartbeat 1) WriterTrace.demo_actions)
    as [| |[r' ar]] eqn:Hh; [vm_compute in Hh; discriminate..|].
  destruct (contents ar) as [|x [|? ?]] eqn:Hx;
    [vm_compute in Hh; injection Hh as <- <-; vm_compute in Hx; discriminate| |
     vm_compute in Hh; injection Hh as <- <-; vm_compute in Hx; discriminate].
  set (h := RelMsg.sample_header big_endian).
  destruct (Writer.on_acknack 2 4 w (ack_of h x) 20 a) as [| |[w' a']] eqn:Hk;
    [vm_compute in Hw, Hh; injection Hw as <- <-; injection Hh as <- <-;
     vm_compute in Hx; injection Hx as <-; vm_compute in Hk; discriminate..|].
  destruct (repair_round 2 4 4 8 4 ltac:(lia) ltac:(lia) ltac:(lia) demo_reader
    (demo_heartbeat 1) WriterTrace.demo_actions r' ar x h w 20 a w' a' demo_reader_wf
    WriterTrace.demo_buffer ltac:(done) ltac:(done) Hh Hx (Writer.wn_wf _ _ _ _ _ _ _ _ _ _ _ _ Hwr)
    (Writer.wn_buffer _ _ _ _ _ _ _ _ _ _ _ _ Hwr) ltac:(lia) Hk) as (new & Hn & Hall).
  exists w, a, w', a', new, x, h. split_and!; [done..|].
  assert (rec ∈ Writer.live w) as Hrec by (rewrite (Writer.wn_live _ _ _ _ _ _ _ _ _ _ _ _ Hwr); by left).
  specialize (Hall rec Hrec). revert Hall. destruct Hwr as [_ Hv Hsz Hsd Hat _ _ Hc _ _].
  unfold History.sample_view in Hv. injection Hv as _ Hmd.
  unfold Writer.record_sequence, Writer.expired. rewrite Hmd, Hsz, Hsd, Hat, Hc.
  by vm_compute.
Defined.

End Protocol.
