(* ===== verification/StaticEntities.v ===== *)
(** * Static DDS entities

    [include/openrtdds/dds/static_entities.hpp] and [src/dds/static_entities.cpp]:
    participants, topics, and the [DataWriter] and [DataReader] that compose CDR
    serialisation, DATA and control messages and the reliability state machines.

    An operation that returns a [DdsResult] and updates members or caller memory
    ends in an [exit] with all of them: [Stop] when the result is an error, [Done]
    when it is not.  The sample's type support is user code: the class
    [TypeSupport] has its operations and [FieldwiseTypeSupport] what they do. *)
From S2P Require Import Prelude Bytes Types KeepLastHistory Cdr DataMessage.
From S2P Require Import ReliabilityMessages ReliabilityState ReliableWriter ReliableReader.

Module Dds.
Import Types.

Inductive DdsError : Set :=
  | dds_none
  | invalid_participant
  | invalid_topic
  | invalid_endpoint
  | serialization_failed
  | deserialization_failed
  | rtps_data_failed
  | reliability_message_failed
  | reliability_state_failed
  | unexpected_participant
  | unexpected_endpoint
  | invalid_action.

Definition dds_error_string (error : DdsError) : string :=
  match error with
  | dds_none => "none"
  | invalid_participant => "invalid static domain participant"
  | invalid_topic => "invalid static topic or type binding"
  | invalid_endpoint => "invalid static endpoint configuration"
  | serialization_failed => "typed sample serialization failed"
  | deserialization_failed => "typed sample deserialization failed"
  | rtps_data_failed => "RTPS DATA operation failed"
  | reliability_message_failed => "RTPS reliability message operation failed"
  | reliability_state_failed => "reliability state operation failed"
  | unexpected_participant => "RTPS message came from an unexpected participant"
  | unexpected_endpoint => "RTPS message used an unexpected endpoint"
  | invalid_action => "action cannot be converted to an RTPS DATA message"
  end.

Record DdsResult : Set := {
  error : DdsError;
  cdr_error : Cdr.CdrError;
  rtps_error : Data.RtpsError;
  reliability_message_error : RelMsg.ReliabilityMessageError;
  reliability_error : Rel.ReliabilityError;
  bytes : Z;
  sequence_number : Z;
}.

Definition DdsResult_default : DdsResult :=
  {| error := dds_none; cdr_error := Cdr.CdrError_none; rtps_error := Data.rtps_none;
     reliability_message_error := RelMsg.rel_none; reliability_error := Rel.rel_ok;
     bytes := 0; sequence_number := 0 |}.

Definition ok (result : DdsResult) : bool :=
  match error result with dds_none => true | _ => false end.

(** Results with one error member set. *)
Definition error_result (e : DdsError) : DdsResult :=
  {| error := e; cdr_error := Cdr.CdrError_none; rtps_error := Data.rtps_none;
     reliability_message_error := RelMsg.rel_none; reliability_error := Rel.rel_ok;
     bytes := 0; sequence_number := 0 |}.

Definition cdr_result (e : DdsError) (c : Cdr.CdrError) : DdsResult :=
  {| error := e; cdr_error := c; rtps_error := Data.rtps_none;
     reliability_message_error := RelMsg.rel_none; reliability_error := Rel.rel_ok;
     bytes := 0; sequence_number := 0 |}.

Definition rtps_result (e : Data.RtpsError) : DdsResult :=
  {| error := rtps_data_failed; cdr_error := Cdr.CdrError_none; rtps_error := e;
     reliability_message_error := RelMsg.rel_none; reliability_error := Rel.rel_ok;
     bytes := 0; sequence_number := 0 |}.

Definition message_result (e : RelMsg.ReliabilityMessageError) : DdsResult :=
  {| error := reliability_message_failed; cdr_error := Cdr.CdrError_none;
     rtps_error := Data.rtps_none; reliability_message_error := e;
     reliability_error := Rel.rel_ok; bytes := 0; sequence_number := 0 |}.

Definition reliability_result (e : Rel.ReliabilityError) : DdsResult :=
  {| error := reliability_state_failed; cdr_error := Cdr.CdrError_none;
     rtps_error := Data.rtps_none; reliability_message_error := RelMsg.rel_none;
     reliability_error := e; bytes := 0; sequence_number := 0 |}.

Definition success (n seq : Z) : DdsResult :=
  {| error := dds_none; cdr_error := Cdr.CdrError_none; rtps_error := Data.rtps_none;
     reliability_message_error := RelMsg.rel_none; reliability_error := Rel.rel_ok;
     bytes := n; sequence_number := seq |}.

(** ** Configurations and validity *)

Record DomainParticipantConfig : Set := {
  domain_id : Z;
  version : ProtocolVersion;
  vendor_id : VendorId;
  guid_prefix : GuidPrefix;
}.

Definition nonzero_guid_prefix (prefix : GuidPrefix) : bool :=
  existsb (fun octet => negb (octet =? 0)) prefix.

Definition nonzero_entity_id (id : EntityId) : bool :=
  existsb (fun octet => negb (octet =? 0)) id.

Record DomainParticipant : Set := { dp_config_ : DomainParticipantConfig; dp_valid_ : bool }.

Definition DomainParticipant_new (config : DomainParticipantConfig) : DomainParticipant :=
  {| dp_config_ := config;
     dp_valid_ := (major (version config) =? 2) && negb (minor (version config) =? 0) &&
       (minor (version config) <=? 5) && nonzero_guid_prefix (guid_prefix config) |}.

Record Publisher : Set := { pub_participant_ : DomainParticipantConfig; pub_valid_ : bool }.

Definition Publisher_new (participant : DomainParticipant) : Publisher :=
  {| pub_participant_ := dp_config_ participant; pub_valid_ := dp_valid_ participant |}.

Record Subscriber : Set := { sub_participant_ : DomainParticipantConfig; sub_valid_ : bool }.

Definition Subscriber_new (participant : DomainParticipant) : Subscriber :=
  {| sub_participant_ := dp_config_ participant; sub_valid_ := dp_valid_ participant |}.

Record TopicConfig : Set := { topic_id : Z; topic_type_id : Z }.

(** The user's [TypeSupport] for [Sample]: [Stop] is [return false]. *)
Class TypeSupport (Sample : Type) := {
  type_id : Z;
  Sample_default : Sample;
  serialize : Sample -> Cdr.CdrWriter -> outcome Cdr.CdrWriter Cdr.CdrWriter;
  deserialize : Cdr.CdrReader -> Sample -> outcome Cdr.CdrReader (Sample * Cdr.CdrReader);
}.

Record Topic : Set := { topic_config_ : TopicConfig; topic_valid_ : bool }.

Definition Topic_new {Sample} `{TypeSupport Sample} (config : TopicConfig) : Topic :=
  {| topic_config_ := config;
     topic_valid_ := negb (topic_id config =? 0) && negb (topic_type_id config =? 0) &&
       (topic_type_id config =? type_id) |}.

Record StaticEndpointConfig : Set := {
  reader_id : EntityId;
  writer_id : EntityId;
  remote_guid_prefix : GuidPrefix;
  byte_order : ByteOrder;
}.

Record ReliableWriterQos : Set := { qos_max_repair_attempts : Z; qos_repair_window_ns : Z }.

Definition ReliableWriterQos_default : ReliableWriterQos :=
  {| qos_max_repair_attempts := 2; qos_repair_window_ns := 100000000 |}.

Definition valid_endpoint (endpoint : StaticEndpointConfig) : bool :=
  nonzero_entity_id (reader_id endpoint) && nonzero_entity_id (writer_id endpoint) &&
  nonzero_guid_prefix (remote_guid_prefix endpoint) &&
  supported_byte_order (byte_order endpoint).

(** [std::array::operator==] *)
Definition same_guid_prefix (left_ right_ : GuidPrefix) : bool := bool_decide (left_ = right_).

Definition make_writer_config (endpoint : StaticEndpointConfig) (qos : ReliableWriterQos)
    : Writer.ReliableWriterConfig :=
  {| Writer.w_reader_id := reader_id endpoint; Writer.w_writer_id := writer_id endpoint;
     Writer.max_repair_attempts := qos_max_repair_attempts qos;
     Writer.repair_window_ns := qos_repair_window_ns qos |}.

Definition make_reader_config (endpoint : StaticEndpointConfig)
    : Reader.ReliableReaderConfig :=
  {| Reader.r_reader_id := reader_id endpoint; Reader.r_writer_id := writer_id endpoint;
     Reader.initial_sequence_number := 1 |}.

(** The order of the checks in the two [invalid_result] methods. *)
Definition invalid_result (endpoint_valid topic_valid : bool) : DdsResult :=
  if negb endpoint_valid then error_result invalid_endpoint
  else if negb topic_valid then error_result invalid_topic
  else error_result invalid_participant.

Definition message_header (participant : DomainParticipantConfig) (order : ByteOrder)
    : RelMsg.ReliabilityMessageHeader :=
  {| RelMsg.version := version participant; RelMsg.vendor_id := vendor_id participant;
     RelMsg.guid_prefix := guid_prefix participant;
     RelMsg.submessage_byte_order := order |}.

Definition header_default : RelMsg.ReliabilityMessageHeader :=
  {| RelMsg.version := ProtocolVersion_default; RelMsg.vendor_id := VendorId_default;
     RelMsg.guid_prefix := GuidPrefix_default;
     RelMsg.submessage_byte_order := little_endian |}.

(** [rtps::HeartbeatView heartbeat{};] *)
Definition HeartbeatView_default : RelMsg.HeartbeatView :=
  {| RelMsg.hb_header := header_default; RelMsg.hb_reader_id := EntityId_default;
     RelMsg.hb_writer_id := EntityId_default; RelMsg.hb_first := 0; RelMsg.hb_last := 0;
     RelMsg.hb_count := 0; RelMsg.hb_final_flag := false;
     RelMsg.hb_liveliness_flag := false |}.

(** [rtps::AckNackView acknack{};] *)
Definition AckNackView_default : RelMsg.AckNackView :=
  {| RelMsg.an_header := header_default; RelMsg.an_reader_id := EntityId_default;
     RelMsg.an_writer_id := EntityId_default;
     RelMsg.an_reader_state := RelMsg.SequenceNumberSet_default; RelMsg.an_count := 0;
     RelMsg.an_final_flag := false |}.

(** The state [build_heartbeat] hands to [fill_heartbeat]; the other members are
    those of [rtps::HeartbeatConfig{}]. *)
Definition heartbeat_request (header : RelMsg.ReliabilityMessageHeader) (final_flag : bool)
    : RelMsg.HeartbeatConfig :=
  {| RelMsg.hb_header := header; RelMsg.hb_reader_id := EntityId_default;
     RelMsg.hb_writer_id := EntityId_default; RelMsg.hb_first := 1; RelMsg.hb_last := 0;
     RelMsg.hb_count := 1; RelMsg.hb_final_flag := final_flag;
     RelMsg.hb_liveliness_flag := false |}.

(** ** The writer *)

Record DataWriter : Set := {
  participant_ : DomainParticipantConfig;
  topic_ : TopicConfig;
  endpoint_ : StaticEndpointConfig;
  serialized_ : list Z;
  reliability_ : Writer.ReliableWriter;
  next_sequence_ : Z;
  participant_valid_ : bool;
  dw_topic_valid_ : bool;
  endpoint_valid_ : bool;
  valid_ : bool;
}.

Definition with_serialized (w : DataWriter) (cdr : Cdr.CdrWriter) : DataWriter :=
  {| participant_ := participant_ w; topic_ := topic_ w; endpoint_ := endpoint_ w;
     serialized_ := default (serialized_ w) (Cdr.buffer_ cdr);
     reliability_ := reliability_ w; next_sequence_ := next_sequence_ w;
     participant_valid_ := participant_valid_ w; dw_topic_valid_ := dw_topic_valid_ w;
     endpoint_valid_ := endpoint_valid_ w; valid_ := valid_ w |}.

Definition with_reliability (w : DataWriter) (r : Writer.ReliableWriter) (next : Z)
    : DataWriter :=
  {| participant_ := participant_ w; topic_ := topic_ w; endpoint_ := endpoint_ w;
     serialized_ := serialized_ w; reliability_ := r; next_sequence_ := next;
     participant_valid_ := participant_valid_ w; dw_topic_valid_ := dw_topic_valid_ w;
     endpoint_valid_ := endpoint_valid_ w; valid_ := valid_ w |}.

Definition dw_invalid_result (w : DataWriter) : DdsResult :=
  invalid_result (endpoint_valid_ w) (dw_topic_valid_ w).

Definition make_data_config (w : DataWriter) (seq : Z) : Data.DataMessageConfig :=
  {| Data.cfg_version := version (participant_ w);
     Data.cfg_vendor_id := vendor_id (participant_ w);
     Data.cfg_guid_prefix := guid_prefix (participant_ w);
     Data.cfg_reader_id := reader_id (endpoint_ w);
     Data.cfg_writer_id := writer_id (endpoint_ w);
     Data.cfg_sequence_number := seq; Data.cfg_byte_order := byte_order (endpoint_ w) |}.

Section DataWriter.
Context {Sample : Type} `{TypeSupport Sample}.
Context (HistoryDepth MaxSerializedBytes : Z).

Definition DataWriter_new (publisher : Publisher) (topic : Topic)
    (endpoint : StaticEndpointConfig) (qos : ReliableWriterQos) : DataWriter :=
  let endpoint_valid := valid_endpoint endpoint && negb (qos_repair_window_ns qos =? 0) in
  {| participant_ := pub_participant_ publisher; topic_ := topic_config_ topic;
     endpoint_ := endpoint;
     serialized_ := replicate (Z.to_nat MaxSerializedBytes) 0;
     reliability_ := Writer.ReliableWriter_new HistoryDepth MaxSerializedBytes
                       (make_writer_config endpoint qos);
     next_sequence_ := 1; participant_valid_ := pub_valid_ publisher;
     dw_topic_valid_ := topic_valid_ topic; endpoint_valid_ := endpoint_valid;
     valid_ := pub_valid_ publisher && topic_valid_ topic && endpoint_valid |}.

(** [write]: the result, the writer and the caller's datagram buffer. *)
Definition write_exit : Set := DdsResult * DataWriter * option (list Z).

Definition write (w : DataWriter) (sample : Sample) (now_ns : Z)
    (datagram : option (list Z)) (capacity : Z) : outcome write_exit write_exit :=
  stop_if (negb (valid_ w)) (dw_invalid_result w, w, datagram);;
  cdr ← map_stop (fun cdr => (cdr_result serialization_failed (Cdr.error_ cdr),
                              with_serialized w cdr, datagram))
    (cdr ← Cdr.w_begin (Cdr.CdrWriter_new (Some (serialized_ w)) (zlen (serialized_ w)))
             (byte_order (endpoint_ w));
     serialize sample cdr);
  let w := with_serialized w cdr in
  b ← map_stop (fun b => (rtps_result (Data.error_ b), w, Data.buffer_ b))
    (Data.build (Data.DataMessageBuilder_new datagram capacity)
       (make_data_config w (next_sequence_ w)) (Cdr.buffer_ cdr) (Cdr.offset_ cdr));
  '(r, _) ← map_stop (fun e => (reliability_result e, w, Data.buffer_ b))
    (Writer.write HistoryDepth MaxSerializedBytes 1 (reliability_ w) (Cdr.buffer_ cdr)
       (Cdr.offset_ cdr) (next_sequence_ w) now_ns (Rel.ActionBuffer_init 1));
  Done (success (Data.size_ b) (next_sequence_ w),
        with_reliability w r (add64 (next_sequence_ w) 1), Data.buffer_ b).

(** [build_data_action] is [const]: the result and the datagram buffer. *)
Definition data_exit : Set := DdsResult * option (list Z).

Definition carries_data (action : Rel.ReliabilityAction) : bool :=
  bool_decide (Rel.kind action = Rel.send_data) ||
  bool_decide (Rel.kind action = Rel.retransmit_data).

Definition build_data_action (w : DataWriter) (action : Rel.ReliabilityAction)
    (datagram : option (list Z)) (capacity : Z) : outcome data_exit data_exit :=
  stop_if (negb (valid_ w)) (dw_invalid_result w, datagram);;
  stop_if (negb (carries_data action) || bool_decide (Rel.data action = None) ||
           (Rel.data_size action <? 4)) (error_result invalid_action, datagram);;
  slot ← access (Rel.data action);
  record ← access (mload (Writer.records_ (reliability_ w)) slot);
  b ← map_stop (fun b => (rtps_result (Data.error_ b), Data.buffer_ b))
    (Data.build (Data.DataMessageBuilder_new datagram capacity)
       (make_data_config w (Rel.sequence_number action))
       (Some (History.payload_ (Writer.sample record))) (Rel.data_size action));
  Done (success (Data.size_ b) (Rel.sequence_number action), Data.buffer_ b).

Definition build_heartbeat (w : DataWriter) (datagram : option (list Z)) (capacity : Z)
    (final_flag : bool) : outcome write_exit write_exit :=
  stop_if (negb (valid_ w)) (dw_invalid_result w, w, datagram);;
  '(r, heartbeat) ← map_stop (fun e => (reliability_result e, w, datagram))
    (Writer.fill_heartbeat (reliability_ w)
       (heartbeat_request (message_header (participant_ w) (byte_order (endpoint_ w)))
          final_flag));
  let w := with_reliability w r (next_sequence_ w) in
  b ← map_stop (fun b => (message_result (RelMsg.error_ b), w, RelMsg.buffer_ b))
    (RelMsg.build_heartbeat (RelMsg.ReliabilityMessageBuilder_new datagram capacity)
       heartbeat);
  Done (success (RelMsg.size_ b) (RelMsg.hb_last heartbeat), w, RelMsg.buffer_ b).

(** The template parameter of [on_acknack] and [on_timer]. *)
Context (ActionCapacity : Z).

Definition control_exit : Set := DdsResult * DataWriter * Rel.ReliabilityActionBuffer.

Definition on_acknack (w : DataWriter) (datagram : option (list Z)) (size now_ns : Z)
    (actions : Rel.ReliabilityActionBuffer) : outcome control_exit control_exit :=
  stop_if (negb (valid_ w)) (dw_invalid_result w, w, actions);;
  acknack ← checked RelMsg.rel_none (fun e => (message_result e, w, actions))
    (RelMsg.parse_acknack_message datagram size AckNackView_default);
  stop_if (negb (same_guid_prefix (RelMsg.guid_prefix (RelMsg.an_header acknack))
                   (remote_guid_prefix (endpoint_ w))))
    (error_result unexpected_participant, w, actions);;
  '(r, actions) ← map_stop (fun e => (reliability_result e, w, actions))
    (Writer.on_acknack HistoryDepth ActionCapacity (reliability_ w) acknack now_ns actions);
  Done (DdsResult_default, with_reliability w r (next_sequence_ w), actions).

Definition on_timer (w : DataWriter) (now_ns : Z) (actions : Rel.ReliabilityActionBuffer)
    : outcome control_exit control_exit :=
  stop_if (negb (valid_ w)) (dw_invalid_result w, w, actions);;
  '(r, actions) ← map_stop (fun e => (reliability_result e, w, actions))
    (Writer.on_timer ActionCapacity (reliability_ w) now_ns actions);
  Done (DdsResult_default, with_reliability w r (next_sequence_ w), actions).

Definition history_size (w : DataWriter) : Z := Writer.size_ (reliability_ w).

End DataWriter.

(** ** The reader *)

Record DataReader : Set := {
  dr_participant_ : DomainParticipantConfig;
  dr_topic_ : TopicConfig;
  dr_endpoint_ : StaticEndpointConfig;
  dr_reliability_ : Reader.ReliableReader;
  dr_participant_valid_ : bool;
  dr_topic_valid_ : bool;
  dr_endpoint_valid_ : bool;
  dr_valid_ : bool;
}.

Definition dr_with_reliability (r : DataReader) (state : Reader.ReliableReader)
    : DataReader :=
  {| dr_participant_ := dr_participant_ r; dr_topic_ := dr_topic_ r;
     dr_endpoint_ := dr_endpoint_ r; dr_reliability_ := state;
     dr_participant_valid_ := dr_participant_valid_ r;
     dr_topic_valid_ := dr_topic_valid_ r; dr_endpoint_valid_ := dr_endpoint_valid_ r;
     dr_valid_ := dr_valid_ r |}.

Definition dr_invalid_result (r : DataReader) : DdsResult :=
  invalid_result (dr_endpoint_valid_ r) (dr_topic_valid_ r).

(** The ACKNACK [on_heartbeat] builds from the action it was given. *)
Definition acknack_reply (r : DataReader) (action : Rel.ReliabilityAction)
    : RelMsg.AckNackConfig :=
  {| RelMsg.an_header :=
       message_header (dr_participant_ r) (byte_order (dr_endpoint_ r));
     RelMsg.an_reader_id := Rel.reader_id action;
     RelMsg.an_writer_id := Rel.writer_id action;
     RelMsg.an_reader_state := Rel.reader_state action;
     RelMsg.an_count := Rel.control_count action;
     RelMsg.an_final_flag := Rel.final_flag action |}.

Section DataReader.
Context {Sample : Type} `{TypeSupport Sample}.
Context (WindowBits : Z).

Definition DataReader_new (subscriber : Subscriber) (topic : Topic)
    (endpoint : StaticEndpointConfig) : DataReader :=
  {| dr_participant_ := sub_participant_ subscriber; dr_topic_ := topic_config_ topic;
     dr_endpoint_ := endpoint;
     dr_reliability_ := Reader.ReliableReader_new WindowBits (make_reader_config endpoint);
     dr_participant_valid_ := sub_valid_ subscriber; dr_topic_valid_ := topic_valid_ topic;
     dr_endpoint_valid_ := valid_endpoint endpoint;
     dr_valid_ := sub_valid_ subscriber && topic_valid_ topic && valid_endpoint endpoint |}.

(** [take]: the result, the reader and the caller's sample. *)
Definition take_exit : Type := DdsResult * DataReader * Sample.

Definition take_sample (r : DataReader) (datagram : option (list Z)) (size : Z)
    (sample : Sample) : outcome take_exit take_exit :=
  stop_if (negb (dr_valid_ r)) (dr_invalid_result r, r, sample);;
  view ← checked Data.rtps_none (fun e => (rtps_result e, r, sample))
    (Data.parse_data_message datagram size Data.DataMessageView_default);
  stop_if (negb (same_guid_prefix (Data.guid_prefix view)
                   (remote_guid_prefix (dr_endpoint_ r))))
    (error_result unexpected_participant, r, sample);;
  stop_if (entity_neqb (Data.reader_id view) (reader_id (dr_endpoint_ r)) ||
           entity_neqb (Data.writer_id view) (writer_id (dr_endpoint_ r)))
    (error_result unexpected_endpoint, r, sample);;
  '(candidate, _) ←
    map_stop (fun cdr => (cdr_result deserialization_failed (Cdr.rerror_ cdr), r, sample))
      (cdr ← Cdr.r_begin (Cdr.CdrReader_new (Data.serialized_payload view)
                            (Data.payload_size view));
       deserialize cdr Sample_default);
  '(state, _) ← map_stop (fun e => (reliability_result e, r, sample))
    (Reader.on_data WindowBits 1 (dr_reliability_ r) (Data.sequence_number view)
       (Rel.ActionBuffer_init 1));
  Done (success size (Data.sequence_number view), dr_with_reliability r state, candidate).

(** [on_heartbeat]: the result, the reader and the response buffer. *)
Definition heartbeat_exit : Set := DdsResult * DataReader * option (list Z).

Definition on_heartbeat (r : DataReader) (datagram : option (list Z)) (size : Z)
    (response : option (list Z)) (response_capacity : Z)
    : outcome heartbeat_exit heartbeat_exit :=
  stop_if (negb (dr_valid_ r)) (dr_invalid_result r, r, response);;
  heartbeat ← checked RelMsg.rel_none (fun e => (message_result e, r, response))
    (RelMsg.parse_heartbeat_message datagram size HeartbeatView_default);
  stop_if (negb (same_guid_prefix (RelMsg.guid_prefix (RelMsg.hb_header heartbeat))
                   (remote_guid_prefix (dr_endpoint_ r))))
    (error_result unexpected_participant, r, response);;
  '(state, actions) ← map_stop (fun e => (reliability_result e, r, response))
    (Reader.on_heartbeat WindowBits 1 (dr_reliability_ r) heartbeat
       (Rel.ActionBuffer_init 1));
  let r := dr_with_reliability r state in
  if Rel.asize_ actions =? 0 then Done (DdsResult_default, r, response)
  else
    action ← access (mload (Rel.actions_ actions) 0);
    b ← map_stop (fun b => (message_result (RelMsg.error_ b), r, RelMsg.buffer_ b))
      (RelMsg.build_acknack (RelMsg.ReliabilityMessageBuilder_new response response_capacity)
         (acknack_reply r action));
    Done (success (RelMsg.size_ b) 0, r, RelMsg.buffer_ b).

Definition next_expected_sequence (r : DataReader) : Z := Reader.base_ (dr_reliability_ r).

End DataReader.
End Dds.
