(* ===== verification/DdsDelivery.v ===== *)
(** * What the static DDS entities deliver

    Theorems about [DataWriter] and [DataReader]: every datagram a writer makes,
    for a first transmission or a repair, decodes at the reader it is meant for to
    the very sample the application wrote, and the control messages connect the
    two reliability state machines.  Proved against the interface
    [FieldwiseTypeSupport] of the user's sample type. *)
From S2P Require Import Prelude Bytes Types KeepLastHistory Cdr MessageRouter DataMessage.
From S2P Require Import ReliabilityMessages ReliabilityState ReliableWriter WriterTrace.
From S2P Require Import ReliableReader ReliabilityProtocol StaticEntities.

Module Delivery.
Import Types Dds.

(** What the entities rely on: the type support writes the members of a sample
    with the [write_*] methods in a fixed order and reads them back with the
    matching [read_*] methods in the same order. *)
Class FieldwiseTypeSupport (Sample : Type) `{TypeSupport Sample} := {
  fields : Sample -> list Cdr.cdr_value;
  schema : list Cdr.cdr_type;
  sample_ok : Sample -> Prop;
  schema_ok : Forall Cdr.type_ok schema;
  fields_schema s : sample_ok s -> Cdr.type_of <$> fields s = schema;
  fields_ok s : sample_ok s -> Forall Cdr.value_ok (fields s);
  serialize_fields s w : serialize s w = Cdr.write_all w (fields s);
  deserialize_fields s r r' d :
    Cdr.read_all r schema = Done (fields s, r') -> deserialize r d = Done (s, r');
  deserialize_safe r d : safe (Cdr.read_all r schema) -> safe (deserialize r d);
}.

(** Array members of the configurations have the sizes of their C++ types. *)
Record participant_ok (p : DomainParticipantConfig) : Prop := {
  po_vendor : length (vendor_id p) = 2%nat;
  po_prefix : length (guid_prefix p) = 12%nat;
}.

Record endpoint_ok (e : StaticEndpointConfig) : Prop := {
  eo_reader : length (reader_id e) = 4%nat;
  eo_writer : length (writer_id e) = 4%nat;
  eo_remote : length (remote_guid_prefix e) = 12%nat;
}.

Definition qos_ok (q : ReliableWriterQos) : Prop :=
  0 <= qos_max_repair_attempts q <= 255 /\ 0 <= qos_repair_window_ns q < 2 ^ 64.

Section Entities.
Context {Sample : Type} {TS : TypeSupport Sample} {FTS : FieldwiseTypeSupport Sample}.
Context (HistoryDepth MaxSerializedBytes : Z).
Context (Depth_pos : 0 < HistoryDepth < 2 ^ 64).
Context (Max_pos : 4 <= MaxSerializedBytes < 2 ^ 64).

(** ** The writer's invariant *)

Record writer_ok (w : DataWriter) : Prop := {
  wo_participant : participant_ok (participant_ w);
  wo_endpoint : endpoint_ok (endpoint_ w);
  wo_serialized : zlen (serialized_ w) = MaxSerializedBytes;
  wo_reliability : Writer.writer_wf HistoryDepth MaxSerializedBytes (reliability_ w);
  wo_reader : Writer.w_reader_id (Writer.config_ (reliability_ w)) = reader_id (endpoint_ w);
  wo_writer : Writer.w_writer_id (Writer.config_ (reliability_ w)) = writer_id (endpoint_ w);
  wo_next : next_sequence_ w = Writer.last_sequence_number_ (reliability_ w) + 1;
  wo_version : valid_ w = true -> supported_version (version (participant_ w)) = true;
  wo_order : valid_ w = true -> supported_byte_order (byte_order (endpoint_ w)) = true;
  wo_window : valid_ w = true -> Writer.valid_ (reliability_ w) = true;
}.

(** The members the constructor fixes. *)
Definition same_entity (w w' : DataWriter) : Prop :=
  participant_ w' = participant_ w /\ topic_ w' = topic_ w /\ endpoint_ w' = endpoint_ w /\
  valid_ w' = valid_ w /\ endpoint_valid_ w' = endpoint_valid_ w /\
  dw_topic_valid_ w' = dw_topic_valid_ w /\ participant_valid_ w' = participant_valid_ w.

Lemma DataWriter_new_ok config topic endpoint qos :
  participant_ok config -> endpoint_ok endpoint -> qos_ok qos ->
  writer_ok (DataWriter_new HistoryDepth MaxSerializedBytes
    (Publisher_new (DomainParticipant_new config)) topic endpoint qos).
Proof.
  intros Hp He [Hq1 Hq2]. split; cbn [DataWriter_new participant_ endpoint_ serialized_
    reliability_ next_sequence_ valid_]; try done.
  - rewrite length_replicate. lia.
  - apply (WriterTrace.mi_wf _ _ _ _ _ (WriterTrace.init_inv HistoryDepth MaxSerializedBytes 1
      Depth_pos ltac:(lia) ltac:(lia) (make_writer_config endpoint qos) (conj Hq1 Hq2))).
  - rewrite !andb_true_iff. cbn. unfold supported_version. rewrite !andb_true_iff. tauto.
  - rewrite !andb_true_iff. unfold valid_endpoint. rewrite !andb_true_iff. tauto.
  - rewrite !andb_true_iff. cbn. tauto.
Qed.

Definition payload_of (w : DataWriter) (s : Sample) : list Z :=
  Cdr.payload_bytes (byte_order (endpoint_ w)) (fields s).

(** The datagram that carries [s] as sample number [seq] of [w]. *)
Definition datagram_of (w : DataWriter) (seq : Z) (s : Sample) : list Z :=
  Data.data_message_bytes (make_data_config w seq) (payload_of w s).

Lemma make_data_config_ok w seq :
  participant_ok (participant_ w) -> endpoint_ok (endpoint_ w) -> 0 <= seq < 2 ^ 64 ->
  Data.config_ok (make_data_config w seq).
Proof. intros [] [] ?. by split. Qed.

Lemma payload_header order vs : exists b l, Cdr.payload_bytes order vs = 0 :: b :: 0 :: 0 :: l /\
  (b = 0 \/ b = 1).
Proof.
  unfold Cdr.payload_bytes, Cdr.header_bytes. eexists _, _. split; [done|].
  destruct (is_little order); auto.
Qed.

Lemma payload_fine order vs :
  Data.payload_supported (Cdr.payload_bytes order vs) = true /\
  4 <= zlen (Cdr.payload_bytes order vs).
Proof.
  destruct (payload_header order vs) as (b & l & -> & Hb). split; [|cbn [length]; lia].
  by destruct Hb as [-> | ->].
Qed.

Definition fits_datagram (w : DataWriter) (s : Sample) (capacity : Z) : bool :=
  (44 + zlen (payload_of w s) <=? 65507) && (44 + zlen (payload_of w s) <=? capacity).

Lemma data_buildable w seq s capacity :
  writer_ok w -> valid_ w = true -> 1 <= seq <= i64_max ->
  Data.buildable (make_data_config w seq) (payload_of w s) capacity =
  fits_datagram w s capacity.
Proof.
  intros Hw Hv Hseq. unfold Data.buildable, fits_datagram.
  cbn [make_data_config Data.cfg_version Data.cfg_byte_order Data.cfg_sequence_number].
  unfold payload_of. rewrite (wo_version w Hw Hv), (wo_order w Hw Hv), (proj1 (payload_fine _ _)).
  destruct (Z.leb_spec 1 seq), (Z.leb_spec seq i64_max); try lia.
Qed.

(** ** [write] *)

Lemma serialize_stage w s :
  writer_ok w -> valid_ w = true -> sample_ok s ->
  let m := cdr ← Cdr.w_begin (Cdr.CdrWriter_new (Some (serialized_ w)) (zlen (serialized_ w)))
                  (byte_order (endpoint_ w)); serialize s cdr in
  let p := payload_of w s in
  if zlen p <=? MaxSerializedBytes then exists cdr, m = Done cdr /\
    Cdr.buffer_ cdr = Some (p ++ drop (length p) (serialized_ w)) /\ Cdr.offset_ cdr = zlen p
  else exists cdr b, m = Stop cdr /\ Cdr.error_ cdr = Cdr.overflow /\
    Cdr.buffer_ cdr = Some b /\ length b = length (serialized_ w).
Proof.
  intros Hw Hv Hs m p. pose proof (wo_serialized w Hw) as Hlen.
  assert (m = Cdr.serialize (serialized_ w) (byte_order (endpoint_ w)) (fields s)) as ->.
  { unfold m, Cdr.serialize. destruct (Cdr.w_begin _ _); cbn; [done..|]. apply serialize_fields. }
  pose proof (Cdr.serialize_cases (serialized_ w) (byte_order (endpoint_ w)) (fields s)
    (wo_order w Hw Hv) ltac:(lia) (fields_ok s Hs)) as Hc.
  rewrite Hlen in Hc. fold (payload_of w s) in Hc. fold p in Hc. destruct (_ <=? _); [|done].
  destruct Hc as (cdr & H1 & _ & H2 & H3). by exists cdr.
Qed.

(** A DATA message whose payload is the first bytes of a longer buffer. *)
Lemma build_stage w seq s buf m capacity :
  writer_ok w -> valid_ w = true -> 1 <= seq <= i64_max ->
  take (length (payload_of w s)) buf = payload_of w s ->
  0 <= capacity <= zlen m -> capacity < 2 ^ 64 -> zlen (payload_of w s) < 2 ^ 64 ->
  let r := Data.build (Data.DataMessageBuilder_new (Some m) capacity) (make_data_config w seq)
             (Some buf) (zlen (payload_of w s)) in
  let l := datagram_of w seq s in
  if fits_datagram w s capacity then
    r = Done {| Data.buffer_ := Some (l ++ drop (length l) m); Data.capacity_ := capacity;
                Data.size_ := zlen l; Data.error_ := Data.rtps_none |}
  else exists e, e <> Data.rtps_none /\
    r = Stop {| Data.buffer_ := Some m; Data.capacity_ := capacity; Data.size_ := 0;
                Data.error_ := e |}.
Proof.
  intros Hw Hv Hseq Hbuf Hcap H64 Hp r l. unfold r.
  assert (length (payload_of w s) <= length buf)%nat as Hle
    by (rewrite <- Hbuf at 1; rewrite length_take; lia).
  rewrite Data.build_take, Nat2Z.id, Hbuf by lia.
  rewrite <- (data_buildable w seq s capacity Hw Hv Hseq). unfold i64_max in Hseq.
  apply (Data.build_cases (Data.DataMessageBuilder_new (Some m) capacity) m); [done| |done].
  apply make_data_config_ok; [apply Hw|apply Hw|lia].
Qed.

Lemma datagram_length w seq s :
  writer_ok w -> valid_ w = true -> 1 <= seq <= i64_max ->
  zlen (datagram_of w seq s) = 44 + zlen (payload_of w s).
Proof.
  intros Hw Hv Hseq. unfold i64_max in Hseq. apply Data.data_message_length.
  - apply make_data_config_ok; [apply Hw|apply Hw|lia].
  - exact (wo_order w Hw Hv).
Qed.

Lemma datagram_in_buffer w seq s (m : list Z) capacity :
  writer_ok w -> valid_ w = true -> 1 <= seq <= i64_max ->
  fits_datagram w s capacity = true -> capacity <= zlen m ->
  let l := datagram_of w seq s in length (l ++ drop (length l) m) = length m.
Proof.
  intros Hw Hv Hseq Hfit Hcap l. pose proof (datagram_length w seq s Hw Hv Hseq).
  unfold fits_datagram in Hfit. rewrite andb_true_iff, !Z.leb_le in Hfit.
  rewrite length_app, length_drop. unfold l. lia.
Qed.

(** When [write] publishes [s], and otherwise the error it reports. *)
Definition publish_error (w : DataWriter) (s : Sample) (capacity : Z) : DdsError :=
  if negb (zlen (payload_of w s) <=? MaxSerializedBytes) then serialization_failed
  else if negb (fits_datagram w s capacity) then rtps_data_failed
  else if (next_sequence_ w <? i64_max) && (history_size w <? HistoryDepth) then dds_none
  else reliability_state_failed.

(** The record that holds [s] as sample number [seq]. *)
Definition holds (w : DataWriter) (s : Sample) (seq : Z) (rec : Writer.WriterRecord) : Prop :=
  Writer.record_sequence rec = seq /\
  History.sample_size_ (Writer.sample rec) = zlen (payload_of w s) /\
  take (length (payload_of w s)) (History.payload_ (Writer.sample rec)) = payload_of w s.

Record published (w w' : DataWriter) (s : Sample) : Prop := {
  pb_same : same_entity w w';
  pb_ok : writer_ok w';
  pb_next : next_sequence_ w' = next_sequence_ w + 1;
  pb_live : exists rec, Writer.live (reliability_ w') = Writer.live (reliability_ w) ++ [rec] /\
    holds w s (next_sequence_ w) rec;
}.

(** What a failed [write] keeps. *)
Record unpublished (w w' : DataWriter) : Prop := {
  up_same : same_entity w w';
  up_ok : writer_ok w';
  up_next : next_sequence_ w' = next_sequence_ w;
  up_reliability : reliability_ w' = reliability_ w;
}.

Lemma with_serialized_ok w cdr b :
  writer_ok w -> Cdr.buffer_ cdr = Some b -> length b = length (serialized_ w) ->
  unpublished w (with_serialized w cdr).
Proof.
  intros [W1 W2 W3 W4 W5 W6 W7 W8 W9 W10] Hb Hlen.
  split; [done| |done|done]. split; try done. cbn [with_serialized serialized_].
  rewrite Hb. cbn [default from_option]. unfold id. lia.
Qed.

Lemma reliability_accepts w s buf :
  writer_ok w -> valid_ w = true -> zlen (payload_of w s) <= MaxSerializedBytes ->
  Writer.accepts HistoryDepth MaxSerializedBytes 1 (reliability_ w) (Some buf)
    (zlen (payload_of w s)) (next_sequence_ w) (Rel.ActionBuffer_init 1) =
  (next_sequence_ w <? i64_max) && (history_size w <? HistoryDepth).
Proof.
  intros Hw Hv Hp. unfold Writer.accepts. rewrite (wo_window w Hw Hv).
  pose proof (Writer.ww_last _ _ _ (wo_reliability w Hw)) as Hl. rewrite (wo_next w Hw).
  cbn [RelMsg.null_with_size negb andb]. unfold history_size.
  destruct (Z.leb_spec (zlen (payload_of w s)) MaxSerializedBytes); [|lia].
  destruct (Z.leb_spec 1 (Writer.last_sequence_number_ (reliability_ w) + 1)); [|lia].
  destruct (Z.ltb_spec (Writer.last_sequence_number_ (reliability_ w))
    (Writer.last_sequence_number_ (reliability_ w) + 1)); [|lia].
  by rewrite !andb_true_r.
Qed.

Lemma written_published w w1 rel' a' s buf now rec :
  unpublished w w1 -> valid_ w = true -> zlen (payload_of w s) <= MaxSerializedBytes ->
  take (length (payload_of w s)) buf = payload_of w s -> next_sequence_ w < i64_max ->
  Writer.written HistoryDepth MaxSerializedBytes 1 (reliability_ w) rel'
    (Rel.ActionBuffer_init 1) a' (Some buf) (zlen (payload_of w s)) (next_sequence_ w) now rec ->
  published w (with_reliability w1 rel' (next_sequence_ w + 1)) s.
Proof.
  intros [Us Uo Un Ur] Hv Hp Hbuf Hnext [L Hview Hsize _ _ _ Hlast Hcfg Hwf _].
  destruct Us as (U1 & U2 & U3 & U4 & U5 & U6 & U7).
  split; [by split_and!| |done|].
  - destruct Uo as [W1 W2 W3 W4 W5 W6 W7 W8 W9 W10]. rewrite Ur in *.
    split; cbn [with_reliability participant_ endpoint_ serialized_ reliability_
      next_sequence_ valid_]; rewrite ?Hcfg; try done; [by rewrite Hlast|].
    intros Hv'. rewrite (Writer.ww_valid _ _ _ Hwf), Hcfg, <- (Writer.ww_valid _ _ _ W4).
    by apply W10.
  - exists rec. split; [exact L|]. unfold History.sample_view in Hview.
    apply pair_eq in Hview as [Hd Hm]. split_and!; [|done|].
    + unfold Writer.record_sequence. by rewrite Hm.
    + rewrite Hsize, Nat2Z.id in Hd. cbn [default from_option] in Hd. by rewrite Hd.
Qed.

Lemma write_cases w s now m capacity :
  writer_ok w -> valid_ w = true -> sample_ok s -> 0 <= now < 2 ^ 64 ->
  0 <= capacity <= zlen m -> capacity < 2 ^ 64 ->
  let l := datagram_of w (next_sequence_ w) s in
  match publish_error w s capacity with
  | dds_none => exists w',
      write HistoryDepth MaxSerializedBytes w s now (Some m) capacity =
      Done (success (zlen l) (next_sequence_ w), w', Some (l ++ drop (length l) m)) /\
      published w w' s
  | e => exists result w' m',
      write HistoryDepth MaxSerializedBytes w s now (Some m) capacity =
      Stop (result, w', Some m') /\
      error result = e /\ bytes result = 0 /\ length m' = length m /\ unpublished w w'
  end.
Proof.
  intros Hw Hv Hs Hnow Hcap H64 l. unfold write. rewrite Hv.
  cbn [negb stop_if mbind outcome_bind].
  pose proof (serialize_stage w s Hw Hv Hs) as Hser. cbv zeta in Hser.
  unfold publish_error.
  destruct (Z.leb_spec (zlen (payload_of w s)) MaxSerializedBytes) as [Hp|Hp]; cbn [negb].
  2: { destruct Hser as (cdr & b & -> & He & Hb & Hlen). cbn [map_stop mbind outcome_bind].
       eexists _, _, m. split; [done|]. split_and!; try done.
       by eapply with_serialized_ok. }
  destruct Hser as (cdr & -> & Hb & Ho). cbn [map_stop mbind outcome_bind].
  pose proof (with_serialized_ok w cdr _ Hw Hb) as Hun.
  rewrite length_app, length_drop in Hun. pose proof (wo_serialized w Hw) as Hlen.
  specialize (Hun ltac:(lia)). set (w1 := with_serialized w cdr) in *.
  rewrite Hb, Ho. set (buf := payload_of w s ++ _) in *.
  assert (take (length (payload_of w s)) buf = payload_of w s) as Hbuf
    by (unfold buf; by rewrite take_app_length).
  pose proof (Writer.ww_last _ _ _ (wo_reliability w Hw)) as Hlast.
  pose proof (wo_next w Hw) as Hnext. change (next_sequence_ w1) with (next_sequence_ w).
  pose proof (build_stage w (next_sequence_ w) s buf m capacity Hw Hv ltac:(lia) Hbuf Hcap H64
    ltac:(lia)) as Hbuild. cbv zeta in Hbuild.
  change (make_data_config w1) with (make_data_config w).
  change (reliability_ w1) with (reliability_ w).
  destruct (fits_datagram w s capacity) eqn:Hfit; cbn [negb].
  2: { destruct Hbuild as (e & He & ->). cbn [map_stop mbind outcome_bind].
       by eexists _, _, m. }
  rewrite Hbuild. cbn [map_stop mbind outcome_bind Data.buffer_ Data.size_]. fold l.
  assert (length (l ++ drop (length l) m) = length m) as Hml
    by (apply (datagram_in_buffer w _ s m capacity); (done || lia)).
  pose proof (Writer.write_post HistoryDepth MaxSerializedBytes 1 Depth_pos ltac:(lia)
    (reliability_ w) (Some buf) (zlen (payload_of w s)) (next_sequence_ w) now
    (Rel.ActionBuffer_init 1) (wo_reliability w Hw) (Rel.init_buffer_wf 1 ltac:(lia))) as Hrel.
  rewrite (reliability_accepts w s buf Hw Hv Hp) in Hrel.
  assert (History.readable (Some buf) (zlen (payload_of w s))) as Hread.
  { split; [lia|]. intros b [= <-]. unfold buf. rewrite length_app. lia. }
  unfold i64_max in Hlast. specialize (Hrel Hread ltac:(lia) Hnow).
  destruct (Z.ltb_spec (next_sequence_ w) i64_max) as [Hlt|]; cbn [andb] in *;
    [destruct (history_size w <? HistoryDepth)|].
  - destruct Hrel as (rel' & a' & rec & -> & Hwr). cbn [map_stop mbind outcome_bind].
    unfold i64_max in Hlt. rewrite add64_id by lia. eexists. split; [done|].
    by eapply written_published.
  - destruct Hrel as (e & -> & _). cbn [map_stop mbind outcome_bind].
    eexists _, w1, _. split; [done|]. by split_and!.
  - destruct Hrel as (e & -> & _). cbn [map_stop mbind outcome_bind].
    eexists _, w1, _. split; [done|]. by split_and!.
Qed.

(** [write] publishes a sample exactly when its encoding fits the writer's
    buffer, the message fits a UDP datagram and the caller's capacity, and the
    reliable history has room. It then returns the sample's datagram at the start of
    the caller's buffer, leaves the rest of that buffer alone, advances the sequence
    number by one and holds the encoding for repairs. Otherwise it reports the stage
    that failed with zero bytes and keeps the sequence number and the history. *)
Theorem dds_write_exact w s now m capacity :
  writer_ok w -> valid_ w = true -> sample_ok s -> 0 <= now < 2 ^ 64 ->
  0 <= capacity <= zlen m -> capacity < 2 ^ 64 ->
  let l := datagram_of w (next_sequence_ w) s in
  match publish_error w s capacity with
  | dds_none => exists w',
      write HistoryDepth MaxSerializedBytes w s now (Some m) capacity =
      Done (success (zlen l) (next_sequence_ w), w', Some (l ++ drop (length l) m)) /\
      published w w' s
  | e => exists result w' m',
      write HistoryDepth MaxSerializedBytes w s now (Some m) capacity =
      Stop (result, w', Some m') /\
      error result = e /\ bytes result = 0 /\ length m' = length m /\ unpublished w w'
  end.
Proof using FTS Depth_pos Max_pos. apply write_cases. Qed.

(** ** [build_data_action], [on_acknack] and [on_timer] *)

Context (ActionCapacity : Z).
Context (Capacity_pos : 0 < ActionCapacity < 2 ^ 64).

Lemma data_action_cases w s x k rec m capacity :
  writer_ok w -> valid_ w = true -> carries_data x = true -> Rel.data x = Some k -> 0 <= k ->
  Writer.live (reliability_ w) !! Z.to_nat k = Some rec ->
  holds w s (Rel.sequence_number x) rec ->
  Rel.data_size x = History.sample_size_ (Writer.sample rec) ->
  1 <= Rel.sequence_number x <= i64_max -> zlen (payload_of w s) < 2 ^ 64 ->
  0 <= capacity <= zlen m -> capacity < 2 ^ 64 ->
  let l := datagram_of w (Rel.sequence_number x) s in
  if fits_datagram w s capacity then
    build_data_action w x (Some m) capacity =
    Done (success (zlen l) (Rel.sequence_number x), Some (l ++ drop (length l) m))
  else exists e, build_data_action w x (Some m) capacity = Stop (rtps_result e, Some m).
Proof.
  intros Hw Hv Hk Hd Hk0 Hlive (_ & Hsz & Hpay) Hsize Hseq Hp Hcap H64 l.
  unfold build_data_action. rewrite Hv, Hk, Hd, Hsize, Hsz.
  pose proof (proj2 (payload_fine (byte_order (endpoint_ w)) (fields s))) as H4.
  fold (payload_of w s) in H4. destruct (Z.ltb_spec (zlen (payload_of w s)) 4); [lia|].
  rewrite bool_decide_false by done. cbn [negb orb stop_if access mbind outcome_bind].
  assert (mload (Writer.records_ (reliability_ w)) k = Some rec) as ->.
  { apply mload_Some. split; [done|]. unfold Writer.live in Hlive.
    by apply lookup_take_Some in Hlive as [? _]. }
  cbn [access mbind outcome_bind].
  pose proof (build_stage w (Rel.sequence_number x) s _ m capacity Hw Hv Hseq Hpay Hcap H64 Hp)
    as Hb. cbv zeta in Hb. destruct (fits_datagram w s capacity).
  - by rewrite Hb.
  - destruct Hb as (e & _ & ->). by exists e.
Qed.

(** An operation on the reliability state that keeps the writer's identity. *)
Lemma with_reliability_ok w rel' :
  writer_ok w -> Writer.writer_wf HistoryDepth MaxSerializedBytes rel' ->
  Writer.config_ rel' = Writer.config_ (reliability_ w) ->
  Writer.last_sequence_number_ rel' = Writer.last_sequence_number_ (reliability_ w) ->
  writer_ok (with_reliability w rel' (next_sequence_ w)).
Proof.
  intros [W1 W2 W3 W4 W5 W6 W7 W8 W9 W10] Hwf Hcfg Hlast.
  split; cbn [with_reliability participant_ endpoint_ serialized_ reliability_
    next_sequence_ valid_]; rewrite ?Hcfg, ?Hlast; try done.
  intros Hv. rewrite (Writer.ww_valid _ _ _ Hwf), Hcfg, <- (Writer.ww_valid _ _ _ W4).
  by apply W10.
Qed.

Abbreviation swept := (Writer.swept HistoryDepth MaxSerializedBytes ActionCapacity).

Lemma acknack_cases w datagram size now a :
  writer_ok w -> valid_ w = true -> Router.message_ok datagram size -> 0 <= now < 2 ^ 64 ->
  Rel.buffer_wf ActionCapacity a ->
  match on_acknack HistoryDepth ActionCapacity w datagram size now a with
  | Fault => False
  | Stop (result, w', a') => error result <> dds_none /\ w' = w /\ a' = a
  | Done (result, w', a') => result = DdsResult_default /\ writer_ok w' /\
      exists rel' es, w' = with_reliability w rel' (next_sequence_ w) /\
        swept (reliability_ w) rel' a a' es
  end.
Proof.
  intros Hw Hv Hm Hnow Ha. unfold on_acknack. rewrite Hv. cbn [negb stop_if mbind outcome_bind].
  unfold RelMsg.parse_acknack_message.
  rewrite checked_commit by apply RelMsg.parse_acknack_body_error.
  pose proof (RelMsg.parse_acknack_body_post datagram size Hm) as Hp.
  destruct (RelMsg.parse_acknack_body datagram size) as [|e|ack];
    cbn [map_stop mbind outcome_bind]; [done|done|].
  destruct (same_guid_prefix _ _); cbn [negb stop_if mbind outcome_bind]; [|done].
  pose proof (Writer.on_acknack_post HistoryDepth MaxSerializedBytes ActionCapacity Depth_pos
    ltac:(lia) (reliability_ w) ack now a (wo_reliability w Hw) Ha Hp) as Hpost.
  destruct (Writer.on_acknack _ _ _ _ _ _) as [|e|[rel' a']];
    cbn [map_stop mbind outcome_bind]; [done|done|].
  destruct Hpost as (ds & _ & Hs). split; [done|]. split; [|by eexists _, _].
  by apply with_reliability_ok; [..|apply Hs|apply Hs|apply Hs].
Qed.

Lemma timer_cases w now a :
  writer_ok w -> valid_ w = true -> 0 <= now < 2 ^ 64 -> Rel.buffer_wf ActionCapacity a ->
  match on_timer ActionCapacity w now a with
  | Fault => False
  | Stop (result, w', a') => error result <> dds_none /\ w' = w /\ a' = a
  | Done (result, w', a') => result = DdsResult_default /\ writer_ok w' /\
      exists rel' es, w' = with_reliability w rel' (next_sequence_ w) /\
        swept (reliability_ w) rel' a a' es
  end.
Proof.
  intros Hw Hv Hnow Ha. unfold on_timer. rewrite Hv. cbn [negb stop_if mbind outcome_bind].
  pose proof (Writer.on_timer_cases HistoryDepth MaxSerializedBytes ActionCapacity Depth_pos
    (reliability_ w) now a (wo_reliability w Hw) Ha Hnow) as Hpost.
  destruct (Writer.timer_ready _ _ _ _).
  - destruct Hpost as (rel' & a' & -> & Hs). cbn [map_stop mbind outcome_bind].
    split; [done|]. split; [|by eexists _, _].
    by apply with_reliability_ok; [..|apply Hs|apply Hs|apply Hs].
  - by destruct Hpost as (e & -> & _).
Qed.

(** Sweeps move records and count repairs, but never touch a sample. *)
Lemma retained_samples config rs es rec :
  Forall2 (Writer.effect_ok config) rs es -> rec ∈ Writer.retained es ->
  exists r, r ∈ rs /\ Writer.sample rec = Writer.sample r.
Proof using Type.
  intros Hes. induction Hes as [|r e rs es He _ IH]; intros Hin;
    [by apply not_elem_of_nil in Hin|].
  destruct He; rewrite ?Writer.retained_some, ?Writer.retained_none in Hin;
    [apply elem_of_cons in Hin as [->|Hin]..|].
  1,3: by exists r; split; [left|].
  all: destruct (IH Hin) as (q & Hq & ?); exists q; by split; [right|].
Qed.

(** The data actions of a sweep. *)
Lemma emitted_kinds config rs es d x :
  Forall2 (Writer.effect_ok config) rs es -> x ∈ Writer.emitted es d ->
  if carries_data x then exists k, Rel.data x = Some k else Writer.terminal x.
Proof using Type.
  intros Hes. revert d. induction Hes as [|r e rs es He _ IH]; intros d Hin;
    [by apply not_elem_of_nil in Hin|].
  destruct He as [|Hlt|a Ht Hseq]; rewrite ?Writer.emitted_some, ?Writer.emitted_none in Hin;
    [by eapply IH| |]; apply elem_of_cons in Hin as [->|Hin]; try (by eapply IH).
  - cbn. by eexists.
  - assert (carries_data a = false) as ->; [|done].
    unfold carries_data. destruct Ht as [[-> | ->] _]; done.
Qed.

(** ** [build_heartbeat] *)

(** A HEARTBEAT of [w] that announces [first] to [last]. *)
Record announces (w : DataWriter) (final_flag : bool) (hb : RelMsg.HeartbeatConfig) : Prop := {
  an_ok : RelMsg.heartbeat_config_ok hb;
  an_range : RelMsg.range_ok (RelMsg.hb_first hb) (RelMsg.hb_last hb) = true;
  an_header : RelMsg.hb_header hb = message_header (participant_ w) (byte_order (endpoint_ w));
  an_reader : RelMsg.hb_reader_id hb = reader_id (endpoint_ w);
  an_writer : RelMsg.hb_writer_id hb = writer_id (endpoint_ w);
  an_last : RelMsg.hb_last hb = Writer.last_sequence_number_ (reliability_ w);
  an_covers : forall rec, rec ∈ Writer.live (reliability_ w) ->
    RelMsg.hb_first hb <= Writer.record_sequence rec <= RelMsg.hb_last hb;
  an_final : RelMsg.hb_final_flag hb = final_flag;
}.

Lemma next_control_count_range count : - 2 ^ 31 <= Rel.next_control_count count < 2 ^ 31.
Proof using Type.
  unfold Rel.next_control_count, i32_of_bits, signed, add32.
  pose proof (u32_range (bits_of_i32 count + 1)). change (2 ^ (32 - 1)) with (2 ^ 31).
  case_match eqn:Hlt; [apply Z.ltb_lt in Hlt|apply Z.ltb_ge in Hlt]; lia.
Qed.

Lemma first_live w rs :
  Writer.writer_wf HistoryDepth MaxSerializedBytes w -> Writer.live w = rs ->
  (if Writer.size_ w =? 0 then rs = []
   else exists rec rs', mload (Writer.records_ w) 0 = Some rec /\ rs = rec :: rs').
Proof.
  intros Hw <-.
  pose proof (Writer.live_length HistoryDepth MaxSerializedBytes Depth_pos w Hw) as Hl.
  unfold Writer.live in *. destruct (Z.eqb_spec (Writer.size_ w) 0) as [Hz|Hz].
  - apply nil_length_inv. lia.
  - pose proof (Writer.ww_size _ _ _ Hw).
    destruct (Writer.records_ w) as [|rec rest] eqn:Hr; [rewrite take_nil in Hl; cbn in Hl; lia|].
    exists rec, (take (Z.to_nat (Writer.size_ w) - 1) rest). split; [done|].
    replace (Z.to_nat (Writer.size_ w)) with (S (Z.to_nat (Writer.size_ w) - 1)) at 1 by lia.
    done.
Qed.

Lemma heartbeat_filled w final_flag :
  writer_ok w -> valid_ w = true ->
  exists rel' hb,
    Writer.fill_heartbeat (reliability_ w) (heartbeat_request
      (message_header (participant_ w) (byte_order (endpoint_ w))) final_flag) =
      Done (rel', hb) /\
    writer_ok (with_reliability w rel' (next_sequence_ w)) /\
    Writer.live rel' = Writer.live (reliability_ w) /\
    Writer.config_ rel' = Writer.config_ (reliability_ w) /\ announces w final_flag hb.
Proof.
  intros Hw Hv. pose proof (wo_reliability w Hw) as Hrel.
  unfold Writer.fill_heartbeat. rewrite (wo_window w Hw Hv).
  cbn [negb stop_if mbind outcome_bind].
  pose proof (Writer.ww_last _ _ _ Hrel) as Hlast. unfold i64_max in Hlast.
  pose proof (next_control_count_range (Writer.heartbeat_count_ (reliability_ w))) as Hcount.
  set (first := if Writer.size_ (reliability_ w) =? 0 then
    Writer.last_sequence_number_ (reliability_ w) + 1 else
    match Writer.live (reliability_ w) with rec :: _ => Writer.record_sequence rec | [] => 0 end).
  assert ((if Writer.size_ (reliability_ w) =? 0
    then Done (add64 (Writer.last_sequence_number_ (reliability_ w)) 1)
    else record ← access (mload (Writer.records_ (reliability_ w)) 0);
         Done (Writer.record_sequence record)) = (Done first : outcome Rel.ReliabilityError Z) /\
    1 <= first <= Writer.last_sequence_number_ (reliability_ w) + 1 /\
    forall rec, rec ∈ Writer.live (reliability_ w) -> first <= Writer.record_sequence rec <=
      Writer.last_sequence_number_ (reliability_ w)) as (-> & Hf & Hc).
  { pose proof (first_live (reliability_ w) _ Hrel eq_refl) as Hfl.
    pose proof (Writer.ww_live _ _ _ Hrel) as Hall. pose proof (Writer.ww_sorted _ _ _ Hrel) as Hso.
    unfold first. destruct (Writer.size_ (reliability_ w) =? 0).
    - rewrite Hfl, add64_id by lia. split_and!; [done|lia|lia|].
      intros rec Hin. by apply not_elem_of_nil in Hin.
    - destruct Hfl as (rec & rs & Hload & Hrs). rewrite Hload, Hrs in *.
      rewrite fmap_cons in Hso. inversion_clear Hso as [|? ? Hs Hlt].
      apply Forall_cons in Hall as [[Hseq _ _] Hrest]. split_and!; [done|lia|lia|].
      intros q [->|Hq]%elem_of_cons; [lia|]. rewrite Forall_fmap in Hlt. rewrite Forall_forall in Hlt, Hrest.
      specialize (Hlt q Hq). destruct (Hrest q Hq). cbn in Hlt. lia. }
  cbn [mbind outcome_bind]. eexists _, _. split; [done|]. split_and!.
  - apply with_reliability_ok; [done| |done|done].
    pose proof (Writer.ww_valid _ _ _ Hrel) as Hval. rewrite (wo_window w Hw Hv) in Hval.
    by destruct Hrel.
  - done.
  - done.
  - destruct Hw as [[] [] _ _ Hr1 Hr2 _ _ _ _]. split; cbn; try done.
    + split; cbn; rewrite ?Hr1, ?Hr2; try done; lia.
    + unfold RelMsg.range_ok, i64_max. rewrite !andb_true_iff, !Z.leb_le. lia.
Qed.

Lemma heartbeat_cases w m capacity final_flag :
  writer_ok w -> valid_ w = true -> 0 <= capacity <= zlen m -> capacity < 2 ^ 64 ->
  exists rel' hb,
    let w' := with_reliability w rel' (next_sequence_ w) in
    let l := RelMsg.heartbeat_bytes hb in
    writer_ok w' /\ Writer.live rel' = Writer.live (reliability_ w) /\
    Writer.config_ rel' = Writer.config_ (reliability_ w) /\ announces w final_flag hb /\
    if 52 <=? capacity then build_heartbeat w (Some m) capacity final_flag =
      Done (success (zlen l) (RelMsg.hb_last hb), w', Some (l ++ drop (length l) m))
    else exists e, e <> RelMsg.rel_none /\ build_heartbeat w (Some m) capacity final_flag =
      Stop (message_result e, w', Some m).
Proof.
  intros Hw Hv Hcap H64.
  destruct (heartbeat_filled w final_flag Hw Hv) as (rel' & hb & Hfill & Hok & Hlive & Hcfg & Han).
  exists rel', hb. cbv zeta. split_and!; [done..|].
  unfold build_heartbeat. rewrite Hv. cbn [negb stop_if mbind outcome_bind]. rewrite Hfill.
  cbn [map_stop mbind outcome_bind].
  pose proof (RelMsg.build_heartbeat_cases
    (RelMsg.ReliabilityMessageBuilder_new (Some m) capacity) m hb
    (conj eq_refl (conj Hcap H64)) (an_ok _ _ _ Han)) as Hb.
  rewrite (an_range _ _ _ Han), (an_header _ _ _ Han) in Hb.
  unfold RelMsg.header_supported in Hb.
  cbn [message_header RelMsg.version RelMsg.submessage_byte_order] in Hb.
  rewrite (wo_version w Hw Hv), (wo_order w Hw Hv) in Hb.
  cbn [andb RelMsg.capacity_ RelMsg.ReliabilityMessageBuilder_new] in Hb.
  destruct (52 <=? capacity).
  - by rewrite Hb.
  - destruct Hb as (e & He & ->). by exists e.
Qed.

(** ** A writer at work *)

(** Calls of the application, each with the caller's buffer and its capacity. *)
Inductive writer_call : Type :=
  | CallWrite (s : Sample) (now : Z) (m : list Z) (capacity : Z)
  | CallAckNack (datagram : option (list Z)) (size now : Z) (m : list Z) (capacity : Z)
  | CallTimer (now : Z)
  | CallHeartbeat (m : list Z) (capacity : Z) (final_flag : bool).

Definition buffer_of (m : list Z) (capacity : Z) : Prop :=
  0 <= capacity <= zlen m /\ capacity < 2 ^ 64.

Definition call_ok (c : writer_call) : Prop :=
  match c with
  | CallWrite s now m capacity => sample_ok s /\ 0 <= now < 2 ^ 64 /\ buffer_of m capacity
  | CallAckNack datagram size now m capacity =>
      Router.message_ok datagram size /\ 0 <= now < 2 ^ 64 /\ buffer_of m capacity
  | CallTimer now => 0 <= now < 2 ^ 64
  | CallHeartbeat m capacity _ => buffer_of m capacity
  end.

(** The writer, the samples it accepted in order, and the DATA datagrams it made
    so far with their sequence numbers. *)
Record session : Type := {
  se_writer : DataWriter;
  se_log : list Sample;
  se_sent : list (Z * list Z);
}.

(** The datagram of a result: [result.bytes] bytes of the buffer. *)
Definition produced (result : DdsResult) (m : option (list Z)) : Z * list Z :=
  (sequence_number result, take (Z.to_nat (bytes result)) (default [] m)).

(** [build_data_action] for each action the caller got; a refused one is skipped. *)
Fixpoint resend (w : DataWriter) (m : list Z) (capacity : Z)
    (actions : list Rel.ReliabilityAction) : option (list (Z * list Z)) :=
  match actions with
  | [] => Some []
  | x :: actions' =>
      rest ← resend w m capacity actions';
      match build_data_action w x (Some m) capacity with
      | Fault => None
      | Stop _ => Some rest
      | Done (result, m') => Some (produced result m' :: rest)
      end
  end.

Definition session_step (s : session) (c : writer_call) : option session :=
  let w := se_writer s in
  let a := Rel.ActionBuffer_init ActionCapacity in
  let quiet w' := Some {| se_writer := w'; se_log := se_log s; se_sent := se_sent s |} in
  match c with
  | CallWrite x now m capacity =>
      match write HistoryDepth MaxSerializedBytes w x now (Some m) capacity with
      | Fault => None
      | Stop (_, w', _) => quiet w'
      | Done (result, w', m') =>
          Some {| se_writer := w'; se_log := se_log s ++ [x];
                  se_sent := se_sent s ++ [produced result m'] |}
      end
  | CallAckNack datagram size now m capacity =>
      match on_acknack HistoryDepth ActionCapacity w datagram size now a with
      | Fault => None
      | Stop (_, w', _) => quiet w'
      | Done (_, w', a') =>
          out ← resend w' m capacity (Rel.contents a');
          Some {| se_writer := w'; se_log := se_log s; se_sent := se_sent s ++ out |}
      end
  | CallTimer now =>
      match on_timer ActionCapacity w now a with
      | Fault => None
      | Stop (_, w', _) | Done (_, w', _) => quiet w'
      end
  | CallHeartbeat m capacity final_flag =>
      match build_heartbeat w (Some m) capacity final_flag with
      | Fault => None
      | Stop (_, w', _) | Done (_, w', _) => quiet w'
      end
  end.

Fixpoint session_run (s : session) (cs : list writer_call) : option session :=
  match cs with
  | [] => Some s
  | c :: cs' => s' ← session_step s c; session_run s' cs'
  end.

(** Sample [n] of the log, and the datagram that carries it. *)
Definition logged (log : list Sample) (n : Z) (x : Sample) : Prop :=
  1 <= n /\ log !! Z.to_nat (n - 1) = Some x.

Definition genuine (w : DataWriter) (log : list Sample) (d : Z * list Z) : Prop :=
  exists x, logged log d.1 x /\ d.2 = datagram_of w d.1 x /\ d.1 <= i64_max /\
    44 + zlen (payload_of w x) <= 65507.

Record session_inv (w0 : DataWriter) (s : session) : Prop := {
  sn_writer : writer_ok (se_writer s);
  sn_same : same_entity w0 (se_writer s);
  sn_next : next_sequence_ (se_writer s) = zlen (se_log s) + 1;
  sn_log : Forall sample_ok (se_log s);
  sn_live : forall rec, rec ∈ Writer.live (reliability_ (se_writer s)) ->
    exists x, logged (se_log s) (Writer.record_sequence rec) x /\
      holds w0 x (Writer.record_sequence rec) rec;
  sn_sent : Forall (genuine w0 (se_log s)) (se_sent s);
}.

Lemma same_entity_datagram w w' n x :
  same_entity w w' -> datagram_of w' n x = datagram_of w n x /\ payload_of w' x = payload_of w x.
Proof using Type.
  intros (H1 & _ & H3 & _). unfold datagram_of, payload_of, make_data_config. by rewrite H1, H3.
Qed.

Lemma same_entity_trans w1 w2 w3 : same_entity w1 w2 -> same_entity w2 w3 -> same_entity w1 w3.
Proof using Type.
  intros (H1 & H2 & H3 & H4 & H5 & H6 & H7) (I1 & I2 & I3 & I4 & I5 & I6 & I7).
  unfold same_entity.
  by rewrite I1, I2, I3, I4, I5, I6, I7.
Qed.

Lemma logged_app log x n y : logged log n y -> logged (log ++ [x]) n y.
Proof using Type. intros [? Hl]. split; [done|]. by apply lookup_app_l_Some. Qed.

Lemma genuine_app w log x d : genuine w log d -> genuine w (log ++ [x]) d.
Proof using Type. intros (y & Hy & ?). exists y. split; [by apply logged_app|done]. Qed.

Lemma produced_datagram n l m :
  produced (success (zlen l) n) (Some (l ++ drop (length l) m)) = (n, l).
Proof using Type.
  unfold produced. cbn [success sequence_number bytes default from_option].
  unfold id. by rewrite Nat2Z.id, take_app_length.
Qed.

Lemma resend_genuine w0 w log m capacity actions :
  writer_ok w -> valid_ w = true -> same_entity w0 w -> buffer_of m capacity ->
  (forall rec, rec ∈ Writer.live (reliability_ w) ->
     exists x, logged log (Writer.record_sequence rec) x /\
       holds w0 x (Writer.record_sequence rec) rec) ->
  (forall x, x ∈ actions -> if carries_data x then exists k rec, Rel.data x = Some k /\ 0 <= k /\
     Writer.live (reliability_ w) !! Z.to_nat k = Some rec /\
     Writer.record_sequence rec = Rel.sequence_number x /\
     History.sample_size_ (Writer.sample rec) = Rel.data_size x else Writer.terminal x) ->
  exists out, resend w m capacity actions = Some out /\ Forall (genuine w0 log) out.
Proof.
  intros Hw Hv Hsame [Hcap H64] Hlive. induction actions as [|x actions IH]; intros Hx;
    [by exists []|].
  destruct IH as (out & Hout & Hgen); [by intros y Hy; apply Hx; right|].
  cbn [resend]. rewrite Hout. cbn [mbind option_bind].
  specialize (Hx x (list_elem_of_here x actions)). destruct (carries_data x) eqn:Hk.
  - destruct Hx as (k & rec & Hd & Hk0 & Hr & Hseq & Hsz).
    destruct (Hlive rec (list_elem_of_lookup_2 _ _ _ Hr)) as (s & Hlog & Hh).
    destruct (same_entity_datagram w0 w (Rel.sequence_number x) s Hsame) as [Edg Epl].
    pose proof (Forall_lookup_1 _ _ _ _ (Writer.ww_live _ _ _ (wo_reliability w Hw)) Hr)
      as [Hrs _ _].
    pose proof (Writer.ww_last _ _ _ (wo_reliability w Hw)) as Hlast.
    assert (History.sample_wf MaxSerializedBytes (Writer.sample rec)) as [_ Hswf].
    { unfold Writer.live in Hr. apply lookup_take_Some in Hr as [Hr _].
      exact (Forall_lookup_1 (fun q => History.sample_wf MaxSerializedBytes (Writer.sample q))
        _ _ _ (Writer.ww_samples _ _ _ (wo_reliability w Hw)) Hr). }
    pose proof Hh as (_ & Hps & Hpay).
    pose proof (data_action_cases w s x k rec m capacity Hw Hv Hk Hd Hk0 Hr) as Hcases.
    cbv zeta in Hcases. unfold holds in Hcases. rewrite Edg, Epl, <- Hseq in Hcases.
    specialize (Hcases Hh (eq_sym Hsz) ltac:(lia) ltac:(lia) Hcap H64).
    destruct (fits_datagram w s capacity) eqn:Hfit.
    + rewrite Hcases, produced_datagram. eexists. split; [done|]. constructor; [|done].
      exists s. cbn [fst snd]. unfold fits_datagram in Hfit.
      rewrite Epl, andb_true_iff, !Z.leb_le in Hfit. split_and!; try done; lia.
    + destruct Hcases as (e & ->). by exists out.
  - unfold build_data_action. rewrite Hv, Hk. cbn. by exists out.
Qed.

Lemma swept_session w0 s rel' a' es :
  session_inv w0 s -> valid_ w0 = true ->
  swept (reliability_ (se_writer s)) rel' (Rel.ActionBuffer_init ActionCapacity) a' es ->
  let w' := with_reliability (se_writer s) rel' (next_sequence_ (se_writer s)) in
  writer_ok w' ->
  session_inv w0 {| se_writer := w'; se_log := se_log s; se_sent := se_sent s |} /\
  (forall m capacity, buffer_of m capacity -> exists out,
     resend w' m capacity (Rel.contents a') = Some out /\ Forall (genuine w0 (se_log s)) out).
Proof.
  intros [I1 I2 I3 I4 I5 I6] Hv Hs w' Hw'.
  assert (forall rec, rec ∈ Writer.live rel' -> exists x,
    logged (se_log s) (Writer.record_sequence rec) x /\
    holds w0 x (Writer.record_sequence rec) rec) as Hlive.
  { intros rec Hrec. rewrite (Writer.sp_live _ _ _ _ _ _ _ _ Hs) in Hrec.
    destruct (retained_samples _ _ _ _ (Writer.sp_effects _ _ _ _ _ _ _ _ Hs) Hrec)
      as (q & Hq & Heq).
    unfold holds, Writer.record_sequence. rewrite Heq. exact (I5 q Hq). }
  assert (same_entity w0 w') as Hsame' by (eapply same_entity_trans; [exact I2|done]).
  split; [by split|]. intros m capacity Hb.
  apply resend_genuine; try done.
  - destruct Hsame' as (_ & _ & _ & -> & _). done.
  - intros x Hx. rewrite (Writer.sp_actions _ _ _ _ _ _ _ _ Hs) in Hx. cbn in Hx.
    pose proof (emitted_kinds _ _ _ _ _ (Writer.sp_effects _ _ _ _ _ _ _ _ Hs) Hx) as Hkind.
    destruct (carries_data x); [|done]. destruct Hkind as [k Hk].
    destruct (WriterTrace.sweep_points _ _ _ _ _ _ (Writer.sp_effects _ _ _ _ _ _ _ _ Hs) Hx Hk)
      as (Hk0 & r & Hr & Hseq & Hsz).
    exists k, r. rewrite Z.sub_0_r in Hr. cbn [w' with_reliability reliability_].
    rewrite (Writer.sp_live _ _ _ _ _ _ _ _ Hs). by split_and!.
Qed.

Lemma write_session w0 s x now m capacity :
  session_inv w0 s -> valid_ w0 = true -> call_ok (CallWrite x now m capacity) ->
  exists s', session_step s (CallWrite x now m capacity) = Some s' /\ session_inv w0 s'.
Proof.
  intros Hs Hv (Hx & Hnow & Hcap & H64). pose proof Hs as [I1 I2 I3 I4 I5 I6].
  set (w := se_writer s) in *.
  assert (valid_ w = true) as Hvw by (destruct I2 as (_ & _ & _ & -> & _); done).
  pose proof (write_cases w x now m capacity I1 Hvw Hx Hnow Hcap H64) as Hc. cbv zeta in Hc.
  cbn [session_step]. fold w.
  destruct (publish_error w x capacity) eqn:Hpe;
    try (destruct Hc as (res & w' & m' & -> & _ & _ & _ & [U1 U2 U3 U4]);
      (eexists; split; [done|]; split; cbn [se_writer se_log se_sent]; try done;
        [by eapply same_entity_trans|by rewrite U3|by rewrite U4])).
  destruct Hc as (w' & -> & [P1 P2 P3 (rec & P4 & P5)]). eexists. split; [done|].
  destruct (same_entity_datagram w0 w (next_sequence_ w) x I2) as [Edg Epl].
  assert (logged (se_log s ++ [x]) (next_sequence_ w) x) as Hlogged.
  { rewrite I3. split; [lia|]. rewrite lookup_app_r by lia.
    replace (Z.to_nat _ - length (se_log s))%nat with 0%nat by lia. done. }
  split; cbn [se_writer se_log se_sent]; [done|by eapply same_entity_trans|..].
  - rewrite P3, I3, length_app. cbn. lia.
  - apply Forall_app. by split; [|apply Forall_singleton].
  - intros q Hq. rewrite P4 in Hq. apply elem_of_app in Hq as [Hq|Hq].
    + destruct (I5 q Hq) as (y & Hy & ?). exists y. split; [by apply logged_app|done].
    + apply list_elem_of_singleton in Hq as ->. exists x.
      pose proof P5 as (-> & _). split; [done|]. unfold holds in *. by rewrite Epl in P5.
  - apply Forall_app. split.
    + eapply Forall_impl; [exact I6|]. intros d. apply genuine_app.
    + apply Forall_singleton. rewrite produced_datagram. exists x. cbn [fst snd].
      unfold publish_error, fits_datagram in Hpe. rewrite Epl in Hpe.
      pose proof (Writer.ww_last _ _ _ (wo_reliability w I1)) as Hlast.
      pose proof (wo_next w I1).
      split_and!; [done|by rewrite Edg|lia|].
      destruct (_ <=? MaxSerializedBytes); [|done].
      destruct (Z.leb_spec (44 + zlen (payload_of w0 x)) 65507); [lia|done].
Qed.

Lemma session_step_inv w0 s c :
  session_inv w0 s -> valid_ w0 = true -> call_ok c ->
  exists s', session_step s c = Some s' /\ session_inv w0 s'.
Proof.
  intros Hs Hv Hc. pose proof (sn_writer _ _ Hs) as Hw.
  assert (valid_ (se_writer s) = true) as Hvw
    by (destruct (sn_same _ _ Hs) as (_ & _ & _ & -> & _); done).
  assert (session_inv w0 {| se_writer := se_writer s; se_log := se_log s;
    se_sent := se_sent s |}) as Hs0 by (by destruct s).
  pose proof (Rel.init_buffer_wf ActionCapacity Capacity_pos) as Ha.
  destruct c as [x now m capacity|datagram size now m capacity|now|m capacity f];
    [by apply write_session|..]; cbn [session_step call_ok] in *.
  - destruct Hc as (Hm & Hnow & Hb).
    pose proof (acknack_cases (se_writer s) datagram size now _ Hw Hvw Hm Hnow Ha) as Hpost.
    destruct (on_acknack _ _ _ _ _ _ _) as [|[[? w'] ?]|[[? w'] a']]; [done|..].
    + destruct Hpost as (_ & -> & _). by eexists.
    + destruct Hpost as (_ & Hw' & rel' & es & -> & Hsw).
      destruct (swept_session w0 s rel' a' es Hs Hv Hsw Hw') as [Hinv Hre].
      destruct (Hre m capacity Hb) as (out & -> & Hgen). eexists. split; [done|].
      destruct Hinv. split; try done. cbn [se_sent se_log]. apply Forall_app. by split.
  - pose proof (timer_cases (se_writer s) now _ Hw Hvw Hc Ha) as Hpost.
    destruct (on_timer _ _ _ _) as [|[[? w'] ?]|[[? w'] a']]; [done|..].
    + destruct Hpost as (_ & -> & _). by eexists.
    + destruct Hpost as (_ & Hw' & rel' & es & -> & Hsw).
      destruct (swept_session w0 s rel' a' es Hs Hv Hsw Hw') as [Hinv _]. by eexists.
  - destruct Hc as [Hcap H64].
    destruct (heartbeat_cases (se_writer s) m capacity f Hw Hvw Hcap H64)
      as (rel' & hb & Hw' & Hlive & _ & _ & Hb).
    assert (session_inv w0 {| se_writer := with_reliability (se_writer s) rel'
      (next_sequence_ (se_writer s)); se_log := se_log s; se_sent := se_sent s |}) as Hinv.
    { destruct Hs. split; try done; cbn [se_writer se_log with_reliability reliability_].
      by rewrite Hlive. }
    destruct (52 <=? capacity); [rewrite Hb|destruct Hb as (e & _ & ->)]; by eexists.
Qed.

Lemma session_run_inv w0 cs : forall s,
  session_inv w0 s -> valid_ w0 = true -> Forall call_ok cs ->
  exists s', session_run s cs = Some s' /\ session_inv w0 s'.
Proof.
  induction cs as [|c cs IH]; intros s Hs Hv Hcs; [by eauto|].
  apply Forall_cons in Hcs as [Hc Hcs]. cbn [session_run].
  destruct (session_step_inv w0 s c Hs Hv Hc) as (s1 & -> & Hs1). by apply IH.
Qed.

(** ** [take] *)

Context (WindowBits : Z).
Context (Window_pos : 0 < WindowBits <= 256).

Record reader_ok (r : DataReader) : Prop := {
  ro_participant : participant_ok (dr_participant_ r);
  ro_endpoint : endpoint_ok (dr_endpoint_ r);
  ro_reliability : Reader.reader_wf WindowBits (dr_reliability_ r);
  ro_reader : Reader.r_reader_id (Reader.config_ (dr_reliability_ r)) =
    reader_id (dr_endpoint_ r);
  ro_writer : Reader.r_writer_id (Reader.config_ (dr_reliability_ r)) =
    writer_id (dr_endpoint_ r);
  ro_version : dr_valid_ r = true -> supported_version (version (dr_participant_ r)) = true;
  ro_order : dr_valid_ r = true -> supported_byte_order (byte_order (dr_endpoint_ r)) = true;
}.

Lemma DataReader_new_ok config topic endpoint :
  participant_ok config -> endpoint_ok endpoint ->
  reader_ok (DataReader_new WindowBits (Subscriber_new (DomainParticipant_new config))
    topic endpoint).
Proof using Window_pos.
  clear Depth_pos Max_pos Capacity_pos.
  intros Hp He. split; cbn [DataReader_new dr_participant_ dr_endpoint_ dr_reliability_
    dr_valid_]; try done.
  - apply (Protocol.ri_wf WindowBits 1 (make_reader_config endpoint)
      (Protocol.reader_init WindowBits 1 (make_reader_config endpoint))).
    by apply Protocol.reader_init_inv.
  - rewrite !andb_true_iff. cbn. unfold supported_version. rewrite !andb_true_iff. tauto.
  - rewrite !andb_true_iff. unfold valid_endpoint. rewrite !andb_true_iff. tauto.
Qed.

(** [r] is the reader that [w] writes to, and [w] the writer [r] listens to. *)
Record connected (w : DataWriter) (r : DataReader) : Prop := {
  cn_writer_prefix : remote_guid_prefix (dr_endpoint_ r) = guid_prefix (participant_ w);
  cn_reader_prefix : remote_guid_prefix (endpoint_ w) = guid_prefix (dr_participant_ r);
  cn_reader : reader_id (dr_endpoint_ r) = reader_id (endpoint_ w);
  cn_writer : writer_id (dr_endpoint_ r) = writer_id (endpoint_ w);
}.

Lemma entity_neqb_refl e : length e = 4%nat -> entity_neqb e e = false.
Proof. intros. unfold entity_neqb. apply negb_false_iff. by apply entity_eqb_eq. Qed.

Lemma deserialize_stage order s :
  sample_ok s -> supported_byte_order order = true ->
  let p := Cdr.payload_bytes order (fields s) in zlen p < 2 ^ 64 ->
  exists cdr, (cdr ← Cdr.r_begin (Cdr.CdrReader_new (Some p) (zlen p));
               deserialize cdr Sample_default) = Done (s, cdr).
Proof using FTS.
  intros Hs Hord p Hp.
  destruct (Cdr.deserialize_payload order (fields s) Hord Hp (fields_ok s Hs))
    as (cdr & Hd & _).
  exists cdr. unfold Cdr.deserialize in Hd. fold p in Hd.
  apply bind_Done_inv in Hd as (r0 & -> & Hr). cbn [mbind outcome_bind].
  rewrite fields_schema in Hr by done. by apply deserialize_fields.
Qed.

(** What a reader does with sample [seq]: the reliability state machine decides
    whether it is delivered. *)
Record accepted (r r' : DataReader) (seq : Z) : Prop := {
  ac_ok : reader_ok r';
  ac_fixed : exists st, r' = dr_with_reliability r st;
  ac_got : forall n, Reader.got WindowBits (dr_reliability_ r') n =
    (n =? seq) || Reader.got WindowBits (dr_reliability_ r) n;
}.

Lemma deliver_cases r seq :
  reader_ok r -> 0 <= seq < 2 ^ 64 ->
  let a := Rel.ActionBuffer_init 1 in
  match Reader.refusal WindowBits 1 (dr_reliability_ r) seq a with
  | Some e => Reader.on_data WindowBits 1 (dr_reliability_ r) seq a = Stop e
  | None => exists st a', Reader.on_data WindowBits 1 (dr_reliability_ r) seq a = Done (st, a') /\
      accepted r (dr_with_reliability r st) seq
  end.
Proof using Window_pos.
  clear Depth_pos Max_pos Capacity_pos.
  intros Hr Hseq a. pose proof (Reader.on_data_cases WindowBits 1 Window_pos
    (dr_reliability_ r) seq a (ro_reliability r Hr) (Rel.init_buffer_wf 1 ltac:(lia)) Hseq)
    as Hc.
  destruct (Reader.refusal _ _ _ _ _); [done|]. destruct Hc as (st & a' & Hd & Hrec).
  exists st, a'. split; [done|]. destruct Hrec as [Hwf (Hcfg & _) _ Hgot _ _].
  destruct Hr. split; [|by exists st|exact Hgot].
  split; cbn [dr_with_reliability dr_participant_ dr_endpoint_ dr_reliability_ dr_valid_];
    rewrite ?Hcfg; done.
Qed.

Lemma take_datagram w r seq s s0 :
  writer_ok w -> valid_ w = true -> reader_ok r -> dr_valid_ r = true -> connected w r ->
  sample_ok s -> 1 <= seq <= i64_max -> 44 + zlen (payload_of w s) <= 65507 ->
  let l := datagram_of w seq s in
  match Reader.refusal WindowBits 1 (dr_reliability_ r) seq (Rel.ActionBuffer_init 1) with
  | Some e => take_sample WindowBits r (Some l) (zlen l) s0 = Stop (reliability_result e, r, s0)
  | None => exists r', take_sample WindowBits r (Some l) (zlen l) s0 =
      Done (success (zlen l) seq, r', s) /\ accepted r r' seq
  end.
Proof using FTS Window_pos Depth_pos Max_pos.
  clear Capacity_pos.
  intros Hw Hv Hr Hrv Hc Hs Hseq Hp l. unfold take_sample. rewrite Hrv.
  cbn [negb stop_if mbind outcome_bind].
  assert (Data.config_ok (make_data_config w seq)) as Hcfg
    by (unfold i64_max in Hseq; apply make_data_config_ok; [apply Hw|apply Hw|lia]).
  pose proof (Data.parse_built (make_data_config w seq) (payload_of w s) 65507 Hcfg) as Hparse.
  rewrite data_buildable in Hparse by done. unfold fits_datagram in Hparse.
  assert ((44 + zlen (payload_of w s) <=? 65507) = true) as Hle by (by apply Z.leb_le).
  rewrite Hle in Hparse. specialize (Hparse eq_refl). cbv zeta in Hparse.
  unfold Data.parse_data_message. rewrite checked_commit by apply Data.parse_body_error.
  change (Data.data_message_bytes _ _) with l in Hparse. rewrite Hparse.
  cbn [map_stop mbind outcome_bind Data.view_of Data.guid_prefix Data.reader_id Data.writer_id
    Data.serialized_payload Data.payload_size Data.sequence_number make_data_config
    Data.cfg_guid_prefix Data.cfg_reader_id Data.cfg_writer_id Data.cfg_sequence_number].
  unfold same_guid_prefix. rewrite (cn_writer_prefix w r Hc), bool_decide_true by done.
  rewrite (cn_reader w r Hc), (cn_writer w r Hc).
  rewrite !entity_neqb_refl by apply Hw. cbn [negb orb stop_if mbind outcome_bind].
  destruct (deserialize_stage (byte_order (endpoint_ w)) s Hs (wo_order w Hw Hv)) as (cdr & Hd);
    [unfold payload_of in Hp; lia|].
  unfold payload_of. rewrite Hd. cbn [map_stop mbind outcome_bind].
  unfold i64_max in Hseq. pose proof (deliver_cases r seq Hr ltac:(lia)) as Hdel. cbv zeta in Hdel.
  destruct (Reader.refusal _ _ _ _ _); [by rewrite Hdel|].
  destruct Hdel as (st & a' & -> & Hacc). cbn [map_stop mbind outcome_bind]. by eexists.
Qed.

(** ** Control messages between a connected writer and reader *)

Lemma contents_head a x l :
  Rel.buffer_wf 1 a -> Rel.contents a = x :: l ->
  Rel.asize_ a = 1 /\ l = [] /\ mload (Rel.actions_ a) 0 = Some x.
Proof using Type.
  intros [_ Hl Hs] Hc. unfold Rel.contents in Hc.
  pose proof (f_equal length Hc) as Hlen. rewrite length_take in Hlen. cbn [length] in Hlen.
  split_and!; [lia|apply nil_length_inv; lia|]. apply mload_Some. split; [lia|].
  rewrite <- (lookup_take_lt _ (Z.to_nat (Rel.asize_ a))) by lia. by rewrite Hc.
Qed.

(** The ACKNACK [r] answers with when its state machine emitted [x]. *)
Definition reply_of (r : DataReader) (x : Rel.ReliabilityAction) : RelMsg.AckNackConfig :=
  Protocol.ack_of (message_header (dr_participant_ r) (byte_order (dr_endpoint_ r))) x.

Lemma reply_ok r n x :
  reader_ok r -> dr_valid_ r = true ->
  Reader.requests WindowBits (dr_reliability_ r) n x ->
  RelMsg.acknack_config_ok (reply_of r x) /\
  RelMsg.header_supported (RelMsg.an_header (reply_of r x)) = true.
Proof.
  intros Hr Hv [Q1 Q2 Q3 Q4 Q5 Q6 Q7 Q8 Q9].
  pose proof (Reader.rg_base _ _ (Reader.rw_ring _ _ (ro_reliability r Hr))) as Hbase.
  pose proof (ro_participant r Hr) as []. pose proof (ro_endpoint r Hr) as [].
  split.
  - split; cbn [reply_of Protocol.ack_of RelMsg.an_header RelMsg.an_reader_id
      RelMsg.an_writer_id RelMsg.an_reader_state RelMsg.an_count message_header
      RelMsg.vendor_id RelMsg.guid_prefix]; try done.
    + by rewrite Q2, (ro_reader r Hr).
    + by rewrite Q3, (ro_writer r Hr).
    + rewrite Q5. lia.
    + rewrite Q8. apply next_control_count_range.
  - unfold RelMsg.header_supported. cbn.
    by rewrite (ro_version r Hr Hv), (ro_order r Hr Hv).
Qed.

Lemma heartbeat_reply w r f hb m capacity :
  writer_ok w -> valid_ w = true -> reader_ok r -> dr_valid_ r = true -> connected w r ->
  announces w f hb -> 0 <= capacity <= zlen m -> capacity < 2 ^ 64 ->
  let l := RelMsg.heartbeat_bytes hb in
  let result := on_heartbeat WindowBits r (Some l) (zlen l) (Some m) capacity in
  match Reader.on_heartbeat WindowBits 1 (dr_reliability_ r) hb (Rel.ActionBuffer_init 1) with
  | Fault => False
  | Stop e => result = Stop (reliability_result e, r, Some m)
  | Done (st, a) =>
      let r' := dr_with_reliability r st in
      reader_ok r' /\
      (Rel.contents a = [] /\ result = Done (DdsResult_default, r', Some m) \/
       exists x, Rel.contents a = [x] /\
         RelMsg.acknack_config_ok (reply_of r x) /\
         RelMsg.header_supported (RelMsg.an_header (reply_of r x)) = true /\
         let l' := RelMsg.acknack_bytes (reply_of r x) in
         if 48 + 4 * RelMsg.word_count (Rel.reader_state x) <=? capacity
         then result = Done (success (zlen l') 0, r', Some (l' ++ drop (length l') m))
         else exists e, e <> RelMsg.rel_none /\ result = Stop (message_result e, r', Some m))
  end.
Proof.
  intros Hw Hv Hr Hrv Hc Han Hcap H64 l result. unfold result, on_heartbeat. rewrite Hrv.
  cbn [negb stop_if mbind outcome_bind]. unfold RelMsg.parse_heartbeat_message.
  rewrite checked_commit by apply RelMsg.parse_heartbeat_body_error. unfold l.
  assert (RelMsg.header_supported (RelMsg.hb_header hb) = true) as Hh.
  { rewrite (an_header _ _ _ Han). unfold RelMsg.header_supported. cbn.
    by rewrite (wo_version w Hw Hv), (wo_order w Hw Hv). }
  rewrite (RelMsg.heartbeat_parses hb (an_ok _ _ _ Han) (an_range _ _ _ Han) Hh).
  cbn [map_stop mbind outcome_bind]. rewrite (an_header _ _ _ Han). unfold same_guid_prefix.
  cbn [message_header RelMsg.guid_prefix].
  rewrite (cn_writer_prefix w r Hc), bool_decide_true by done.
  cbn [negb stop_if mbind outcome_bind].
  pose proof (Reader.on_heartbeat_post WindowBits 1 Window_pos (dr_reliability_ r) hb
    (Rel.ActionBuffer_init 1) (ro_reliability r Hr) (Rel.init_buffer_wf 1 ltac:(lia))
    (RelMsg.hc_first _ (an_ok _ _ _ Han)) (RelMsg.hc_last _ (an_ok _ _ _ Han))) as Hpost.
  destruct (Reader.on_heartbeat _ _ _ _ _) as [|e|[st a]]; cbn [map_stop mbind outcome_bind];
    [done|done|].
  destruct Hpost as (Hwf & Ha & Hcfg & _ & _ & Hresp). cbv zeta. split.
  { destruct Hr. split; cbn [dr_with_reliability dr_participant_ dr_endpoint_ dr_reliability_
      dr_valid_]; rewrite ?Hcfg; done. }
  destruct (_ || _).
  - right. destruct Hresp as (x & Hx & Hreq & _). cbn in Hx. exists x. split; [done|].
    destruct (reply_ok r _ x Hr Hrv Hreq) as [Hok Hsup]. split_and!; [done..|].
    destruct (contents_head a x [] Ha Hx) as (Hsz & _ & Hload). rewrite Hsz, Hload.
    cbn [Z.eqb access mbind outcome_bind].
    change (acknack_reply (dr_with_reliability r st) x) with (reply_of r x).
    pose proof (RelMsg.build_acknack_cases
      (RelMsg.ReliabilityMessageBuilder_new (Some m) capacity) m (reply_of r x)
      (conj eq_refl (conj Hcap H64)) Hok) as Hb. rewrite Hsup in Hb.
    cbn [andb RelMsg.capacity_ RelMsg.ReliabilityMessageBuilder_new] in Hb.
    change (RelMsg.an_reader_state (reply_of r x)) with (Rel.reader_state x) in Hb.
    destruct (_ <=? capacity); [by rewrite Hb|]. destruct Hb as (e & He & ->). by exists e.
  - left. change (Rel.contents (Rel.ActionBuffer_init 1)) with (@nil Rel.ReliabilityAction) in Hresp.
    split; [done|]. destruct Ha as [_ Hla Hsa].
    pose proof (f_equal length Hresp) as Hz. unfold Rel.contents in Hz.
    rewrite length_take in Hz. cbn [length] in Hz.
    destruct (Z.eqb_spec (Rel.asize_ a) 0); [done|lia].
Qed.

(** The writer's side of the exchange: the reply reaches its state machine. *)
Lemma reply_processed w r x now a :
  valid_ w = true -> connected w r ->
  RelMsg.acknack_config_ok (reply_of r x) ->
  RelMsg.header_supported (RelMsg.an_header (reply_of r x)) = true ->
  let l := RelMsg.acknack_bytes (reply_of r x) in
  on_acknack HistoryDepth ActionCapacity w (Some l) (zlen l) now a =
  ('(rel', a') ← map_stop (fun e => (reliability_result e, w, a))
     (Writer.on_acknack HistoryDepth ActionCapacity (reliability_ w) (reply_of r x) now a);
   Done (DdsResult_default, with_reliability w rel' (next_sequence_ w), a')).
Proof using Type.
  intros Hv Hc Hok Hsup l. unfold on_acknack. rewrite Hv.
  cbn [negb stop_if mbind outcome_bind]. unfold RelMsg.parse_acknack_message, l.
  rewrite checked_commit by apply RelMsg.parse_acknack_body_error.
  rewrite RelMsg.acknack_parses by done. cbn [map_stop mbind outcome_bind].
  unfold same_guid_prefix. cbn [reply_of Protocol.ack_of RelMsg.an_header message_header
    RelMsg.guid_prefix].
  by rewrite (cn_reader_prefix w r Hc), bool_decide_true.
Qed.

(** ** Untrusted datagrams *)

Lemma deserialize_stage_safe view payload :
  Data.data_view_ok view payload ->
  safe (cdr ← Cdr.r_begin (Cdr.CdrReader_new (Data.serialized_payload view)
                             (Data.payload_size view)); deserialize cdr Sample_default).
Proof using FTS.
  intros [_ V2 V3 _ V5 V6 _ _]. rewrite V2, V3.
  apply safe_bind; [apply Cdr.r_begin_safe|]. intros cdr Hb.
  apply deserialize_safe, Cdr.read_all_safe; [|apply schema_ok].
  eapply Cdr.r_begin_wf; [done|lia|exact Hb].
Qed.

(** Whatever bytes arrive, [take] never accesses memory outside them. It
    changes the reader and the caller's sample only when it succeeds, and then the
    datagram came from the configured participant for this reader from this writer,
    its sequence number was in the receive window and not received before, and that
    number is all the reader's state gains. *)
Theorem dds_take_untrusted r datagram size x0 :
  reader_ok r -> Router.message_ok datagram size ->
  match take_sample WindowBits r datagram size x0 with
  | Fault => False
  | Stop (result, r', x) => error result <> dds_none /\ bytes result = 0 /\ r' = r /\ x = x0
  | Done (result, r', x) => exists view,
      Data.parse_body datagram size = Done view /\
      result = success size (Data.sequence_number view) /\
      Data.guid_prefix view = remote_guid_prefix (dr_endpoint_ r) /\
      Data.reader_id view = reader_id (dr_endpoint_ r) /\
      Data.writer_id view = writer_id (dr_endpoint_ r) /\
      Reader.got WindowBits (dr_reliability_ r) (Data.sequence_number view) = false /\
      Data.sequence_number view < Reader.base_ (dr_reliability_ r) + WindowBits /\
      accepted r r' (Data.sequence_number view)
  end.
Proof using FTS Window_pos.
  clear Depth_pos Max_pos Capacity_pos.
  intros Hr Hm. unfold take_sample.
  destruct (dr_valid_ r); cbn [negb stop_if mbind outcome_bind];
    [|unfold dr_invalid_result, invalid_result; by repeat case_match].
  unfold Data.parse_data_message. rewrite checked_commit by apply Data.parse_body_error.
  pose proof (Data.parse_body_post datagram size Hm) as Hp.
  destruct (Data.parse_body datagram size) as [|e|view]; cbn [map_stop mbind outcome_bind];
    [done|done|]. destruct Hp as [payload Hview].
  unfold same_guid_prefix. case_bool_decide as Hpre; cbn [negb stop_if mbind outcome_bind];
    [|done].
  destruct (entity_neqb _ _ || _) eqn:Hids; cbn [stop_if mbind outcome_bind]; [done|].
  apply orb_false_iff in Hids as [I1 I2]. unfold entity_neqb in I1, I2.
  apply negb_false_iff in I1, I2.
  pose proof (ro_endpoint r Hr) as []. pose proof Hview as [V1 _ _ _ _ _ V7 V8].
  apply entity_eqb_eq in I1, I2; try done.
  pose proof (deserialize_stage_safe view payload Hview) as Hsafe.
  destruct (_ ≫= _) as [|cdr|[x cdr]]; cbn [map_stop mbind outcome_bind]; [done|done|].
  unfold i64_max in V1. pose proof (deliver_cases r (Data.sequence_number view) Hr ltac:(lia))
    as Hdel. cbv zeta in Hdel.
  destruct (Reader.refusal _ _ _ _ _) eqn:Href; [by rewrite Hdel|].
  destruct Hdel as (st & a & -> & Hacc). cbn [map_stop mbind outcome_bind]. exists view.
  unfold Reader.refusal in Href.
  destruct (negb _); [done|]. destruct (_ <? _); [done|].
  destruct (Z.leb_spec (Reader.base_ (dr_reliability_ r) + WindowBits) (Data.sequence_number view));
    [done|]. destruct (Reader.got _ _ _); [done|]. by split_and!.
Qed.

(** C1: every datagram carries what the application wrote. Let a writer make any
    sequence of calls (writes, acknowledgements with arbitrary bytes, timer ticks,
    heartbeats) with any buffers. It never accesses memory outside them, and each
    DATA datagram it made, whether a first transmission or a repair of a sample that
    in-place compaction has moved since, decodes at any connected reader to exactly
    the sample that was the [n]th one accepted by [write]; the reader takes it with
    sequence number [n], unless its reliability state refuses that number, in which
    case the reader and the caller's sample keep their values. *)
Theorem dds_samples_intact config topic endpoint qos cs :
  participant_ok config -> endpoint_ok endpoint -> qos_ok qos ->
  let w0 := DataWriter_new HistoryDepth MaxSerializedBytes
              (Publisher_new (DomainParticipant_new config)) topic endpoint qos in
  valid_ w0 = true -> Forall call_ok cs ->
  exists s, session_run {| se_writer := w0; se_log := []; se_sent := [] |} cs = Some s /\
    forall n l, (n, l) ∈ se_sent s -> exists x, logged (se_log s) n x /\
      forall r x0, reader_ok r -> dr_valid_ r = true -> connected w0 r ->
        match Reader.refusal WindowBits 1 (dr_reliability_ r) n (Rel.ActionBuffer_init 1) with
        | Some e => take_sample WindowBits r (Some l) (zlen l) x0 =
            Stop (reliability_result e, r, x0)
        | None => exists r', take_sample WindowBits r (Some l) (zlen l) x0 =
            Done (success (zlen l) n, r', x) /\ accepted r r' n
        end.
Proof.
  intros Hp He Hq w0 Hv Hcs.
  pose proof (DataWriter_new_ok config topic endpoint qos Hp He Hq) as Hw.
  assert (session_inv w0 {| se_writer := w0; se_log := []; se_sent := [] |}) as Hinit.
  { split; cbn [se_writer se_log se_sent]; try done.
    intros rec Hrec. by apply not_elem_of_nil in Hrec. }
  destruct (session_run_inv w0 cs _ Hinit Hv Hcs) as (s & Hrun & Hs).
  exists s. split; [done|]. intros n l Hin.
  pose proof (proj1 (Forall_forall _ _) (sn_sent _ _ Hs) (n, l) Hin)
    as (x & Hx & Hl & Hn & Hfit).
  cbn [fst snd] in *. exists x. split; [done|]. intros r x0 Hr Hrv Hc. rewrite Hl.
  destruct Hx as [H1 Hx]. apply take_datagram; try done.
  exact (Forall_lookup_1 _ _ _ _ (sn_log _ _ Hs) Hx).
Qed.

Lemma Done_triple {E A B C} (a a' : A) (b b' : B) (c c' : C) :
  (Done (a, b, Some c) : outcome E _) = Done (a', b', Some c') -> a = a' /\ b = b' /\ c = c'.
Proof using Type. by intros [= -> -> ->]. Qed.

Lemma live_unique w rec rec' :
  Writer.writer_wf HistoryDepth MaxSerializedBytes w ->
  rec ∈ Writer.live w -> rec' ∈ Writer.live w ->
  Writer.record_sequence rec = Writer.record_sequence rec' -> rec = rec'.
Proof using Type.
  intros Hw [i Hi]%list_elem_of_lookup [j Hj]%list_elem_of_lookup Heq.
  pose proof (WriterTrace.sorted_nodup _ (Writer.ww_sorted _ _ _ Hw)) as Hnd.
  assert (i = j) as ->; [|congruence].
  eapply (NoDup_lookup (Writer.record_sequence <$> Writer.live w)); [done|..];
    rewrite list_lookup_fmap; [by rewrite Hi|by rewrite Hj, Heq].
Qed.

(** A repair action of a sweep rebuilds the datagram of the sample it repairs. *)
Lemma repair_action_rebuilds w rel' a es x rec :
  let w' := with_reliability w rel' (next_sequence_ w) in
  writer_ok w -> valid_ w = true -> writer_ok w' ->
  swept (reliability_ w) rel' (Rel.ActionBuffer_init ActionCapacity) a es ->
  rec ∈ Writer.live (reliability_ w) -> x ∈ Rel.contents a -> carries_data x = true ->
  Rel.sequence_number x = Writer.record_sequence rec ->
  forall s m capacity, holds w s (Writer.record_sequence rec) rec ->
    fits_datagram w s capacity = true -> buffer_of m capacity ->
    let l := datagram_of w (Writer.record_sequence rec) s in
    build_data_action w' x (Some m) capacity =
    Done (success (zlen l) (Writer.record_sequence rec), Some (l ++ drop (length l) m)).
Proof.
  intros w' Hw Hv Hw' Hs Hrec Hx Hcar Hseq s m capacity Hh Hfit [Hcap H64] l.
  change (Rel.contents a) with ([] ++ Rel.contents a) in Hx.
  rewrite (Writer.sp_actions _ _ _ _ _ _ _ _ Hs) in Hx. cbn [app] in Hx.
  change (Rel.contents (Rel.ActionBuffer_init ActionCapacity))
    with (@nil Rel.ReliabilityAction) in Hx. cbn [app] in Hx.
  pose proof (emitted_kinds _ _ _ _ _ (Writer.sp_effects _ _ _ _ _ _ _ _ Hs) Hx) as Hkind.
  rewrite Hcar in Hkind. destruct Hkind as [k Hk].
  destruct (WriterTrace.sweep_points _ _ _ _ _ _ (Writer.sp_effects _ _ _ _ _ _ _ _ Hs) Hx Hk)
    as (Hk0 & q & Hq & Hqs & Hqz).
  rewrite Z.sub_0_r, <- (Writer.sp_live _ _ _ _ _ _ _ _ Hs) in Hq.
  assert (Writer.sample q = Writer.sample rec) as Hsam.
  { pose proof (list_elem_of_lookup_2 _ _ _ Hq) as Hin.
    rewrite (Writer.sp_live _ _ _ _ _ _ _ _ Hs) in Hin.
    destruct (retained_samples _ _ _ _ (Writer.sp_effects _ _ _ _ _ _ _ _ Hs) Hin)
      as (q' & Hq' & Heq). rewrite Heq. f_equal.
    apply (live_unique (reliability_ w)); [apply Hw|done|done|].
    rewrite <- Hseq, <- Hqs. unfold Writer.record_sequence. by rewrite Heq. }
  pose proof (Forall_forall (Writer.record_ok (Writer.config_ (reliability_ w))
    (Writer.last_sequence_number_ (reliability_ w))) (Writer.live (reliability_ w))) as [Hall _].
  destruct (Hall (Writer.ww_live _ _ _ (wo_reliability w Hw)) rec Hrec) as [Hrs _ _].
  pose proof (Writer.ww_last _ _ _ (wo_reliability w Hw)) as Hlast.
  unfold fits_datagram in Hfit. pose proof Hfit as [Hf _]%andb_true_iff. apply Z.leb_le in Hf.
  pose proof (data_action_cases w' s x k q m capacity Hw' Hv Hcar Hk Hk0 Hq) as Hc.
  change (payload_of w' s) with (payload_of w s) in Hc.
  change (fits_datagram w' s capacity) with (fits_datagram w s capacity) in Hc.
  unfold holds, Writer.record_sequence, fits_datagram in Hc. rewrite Hsam in Hc.
  fold (Writer.record_sequence rec) in Hc. rewrite Hseq in Hc.
  change (payload_of w' s) with (payload_of w s) in Hc. rewrite Hfit in Hc.
  rewrite Hsam in Hqz. apply Hc; try done; lia.
Qed.

(** C7: one control exchange over the wire settles every held sample. A writer
    builds a heartbeat, a connected reader answers it and the writer processes the
    answer, each working on the bytes the other produced. Then each sample the
    writer held in the answered range has been reported as delivered if the reader
    had taken it; if not, as failed because its repair window expired or its repair
    attempts are used up, or there is a repair action from which
    [build_data_action] rebuilds the datagram of the sample's first transmission
    byte for byte. Samples beyond the range stay held. *)
Theorem dds_repair_exchange w r f m1 c1 res1 w1 d1 m2 c2 res2 r' d2 now res3 w2 a :
  writer_ok w -> valid_ w = true -> reader_ok r -> dr_valid_ r = true -> connected w r ->
  buffer_of m1 c1 -> buffer_of m2 c2 -> 0 <= now < 2 ^ 64 ->
  build_heartbeat w (Some m1) c1 f = Done (res1, w1, Some d1) ->
  on_heartbeat WindowBits r (Some (take (Z.to_nat (bytes res1)) d1)) (bytes res1) (Some m2) c2
    = Done (res2, r', Some d2) ->
  0 < bytes res2 ->
  on_acknack HistoryDepth ActionCapacity w1 (Some (take (Z.to_nat (bytes res2)) d2))
    (bytes res2) now (Rel.ActionBuffer_init ActionCapacity) = Done (res3, w2, a) ->
  forall rec, rec ∈ Writer.live (reliability_ w) ->
    let st := dr_reliability_ r in
    let n := Writer.record_sequence rec in
    let last := Writer.last_sequence_number_ (reliability_ w) in
    let config := Writer.config_ (reliability_ w) in
    let report k e := Rel.sample_action k n None 0 e in
    if Reader.base_ st + Reader.covered WindowBits st last <=? n
    then rec ∈ Writer.live (reliability_ w2)
    else if Reader.got WindowBits st n
    then report Rel.sample_delivered Rel.repair_none ∈ Rel.contents a
    else if Writer.expired config now rec
    then report Rel.sample_failed Rel.repair_window_expired ∈ Rel.contents a
    else if Writer.max_repair_attempts config <=? Writer.repair_attempts rec
    then report Rel.sample_failed Rel.repair_limit_exceeded ∈ Rel.contents a
    else exists x, x ∈ Rel.contents a /\
      forall s m capacity, holds w s n rec -> fits_datagram w s capacity = true ->
        buffer_of m capacity ->
        let l := datagram_of w n s in
        build_data_action w2 x (Some m) capacity =
        Done (success (zlen l) n, Some (l ++ drop (length l) m)).
Proof.
  intros Hw Hv Hr Hrv Hc [Hc1 H1] [Hc2 H2] Hnow Hhb Hre Hpos Hack rec Hrec.
  destruct (heartbeat_cases w m1 c1 f Hw Hv Hc1 H1) as (rel1 & hb & Hw1 & Hlive & Hcfg & Han & Hb).
  destruct (52 <=? c1); [|destruct Hb as (e & _ & Hb)]; rewrite Hhb in Hb; [|discriminate].
  apply Done_triple in Hb as (-> & -> & ->).
  cbn [success bytes] in Hre. rewrite Nat2Z.id, take_app_length in Hre.
  pose proof (heartbeat_reply w r f hb m2 c2 Hw Hv Hr Hrv Hc Han Hc2 H2) as Hrep.
  cbv zeta in Hrep. rewrite Hre in Hrep.
  destruct (Reader.on_heartbeat _ _ _ _ _) as [|e|[st ar]] eqn:Hon; [done|discriminate|].
  destruct Hrep as [Hr' [[_ Hd]|(x & Hx & Hok & Hsup & Hd)]];
    [apply Done_triple in Hd as (-> & _ & _); cbn in Hpos; lia|].
  destruct (_ <=? c2); [|destruct Hd as (e & _ & Hd); discriminate].
  apply Done_triple in Hd as (-> & -> & ->).
  cbn [success bytes] in Hack. rewrite Nat2Z.id, take_app_length in Hack.
  set (w1 := with_reliability w rel1 (next_sequence_ w)) in *.
  assert (connected w1 r) as Hc' by (by destruct Hc).
  rewrite (reply_processed w1 r x now _ Hv Hc' Hok Hsup) in Hack.
  apply bind_Done_inv in Hack as ([rel2 a2] & Hw2%map_stop_Done & [= <- <- <-]).
  destruct (Protocol.repair_round_settles HistoryDepth MaxSerializedBytes ActionCapacity
    WindowBits 1 Depth_pos ltac:(lia) Window_pos (dr_reliability_ r) hb
    (Rel.ActionBuffer_init 1) st ar x _ rel1 now (Rel.ActionBuffer_init ActionCapacity) rel2 a2
    (ro_reliability r Hr) (Rel.init_buffer_wf 1 ltac:(lia))
    (RelMsg.hc_first _ (an_ok _ _ _ Han)) (RelMsg.hc_last _ (an_ok _ _ _ Han)) Hon Hx
    (wo_reliability w1 Hw1) (Rel.init_buffer_wf _ Capacity_pos) Hnow Hw2) as (new & Hnew & Hall).
  change (Rel.contents (Rel.ActionBuffer_init ActionCapacity))
    with (@nil Rel.ReliabilityAction) in Hnew. cbn [app] in Hnew. subst new.
  rewrite Hlive, Hcfg, (an_last _ _ _ Han) in Hall. specialize (Hall rec Hrec). cbv zeta in *.
  cbn [with_reliability reliability_].
  repeat match goal with |- if ?c then _ else _ => destruct c; [exact Hall|] end.
  destruct Hall as (k & Hk).
  eexists. split; [exact Hk|].
  pose proof (Writer.on_acknack_post HistoryDepth MaxSerializedBytes ActionCapacity Depth_pos
    ltac:(lia) rel1 (reply_of r x) now _ (wo_reliability w1 Hw1)
    (Rel.init_buffer_wf _ Capacity_pos) (RelMsg.ac_state _ Hok)) as Hpost.
  cbn [w1 with_reliability reliability_] in Hw2. rewrite Hw2 in Hpost.
  destruct Hpost as (ds & _ & Hsw).
  eapply (repair_action_rebuilds w1 rel2 a2); [exact Hw1|exact Hv| |exact Hsw| |exact Hk|done|done].
  - by apply with_reliability_ok; [..|apply Hsw|apply Hsw|apply Hsw].
  - cbn [w1 with_reliability reliability_]. by rewrite Hlive.
Qed.

End Entities.

(** ** A concrete sample type: a vehicle state with three members *)

Record VehicleState : Set := { timestamp_ns : Z; velocity_mps : Z; mode : Z }.

#[global] Instance VehicleStateTypeSupport : TypeSupport VehicleState := {
  type_id := 1448301617;
  Sample_default := {| timestamp_ns := 0; velocity_mps := 0; mode := 0 |};
  serialize sample writer :=
    writer ← Cdr.cdr_write_uint64 writer (timestamp_ns sample);
    writer ← Cdr.write_float32 writer (velocity_mps sample);
    Cdr.write_int32 writer (mode sample);
  deserialize reader sample :=
    '(timestamp, reader) ← Cdr.cdr_read_uint64 reader;
    '(velocity, reader) ← Cdr.read_float32 reader;
    '(mode, reader) ← Cdr.read_int32 reader;
    Done ({| timestamp_ns := timestamp; velocity_mps := velocity; mode := mode |}, reader);
}.

#[global, program] Instance VehicleStateFieldwise : FieldwiseTypeSupport VehicleState := {
  fields s := [Cdr.VUint64 (timestamp_ns s); Cdr.VFloat32 (velocity_mps s); Cdr.VInt32 (mode s)];
  schema := [Cdr.TUint64; Cdr.TFloat32; Cdr.TInt32];
  sample_ok s := 0 <= timestamp_ns s < 2 ^ 64 /\ 0 <= velocity_mps s < 2 ^ 32 /\
    - 2 ^ 31 <= mode s < 2 ^ 31;
}.
Next Obligation. repeat constructor. Qed.
Next Obligation. done. Qed.
Next Obligation. intros s (H1 & H2 & H3). repeat constructor; cbn; lia. Qed.
Next Obligation.
  intros s w. cbn [serialize VehicleStateTypeSupport Cdr.write_all Cdr.write_value].
  destruct (Cdr.cdr_write_uint64 _ _) as [| |w1]; [done..|]. cbn [mbind outcome_bind].
  destruct (Cdr.write_float32 _ _) as [| |w2]; [done..|]. cbn [mbind outcome_bind].
  by destruct (Cdr.write_int32 _ _).
Qed.
Next Obligation.
  intros s r r' d. cbn [deserialize VehicleStateTypeSupport Cdr.read_all Cdr.read_value].
  unfold Cdr.as_value. destruct (Cdr.cdr_read_uint64 r) as [| |[t r1]]; [done..|].
  cbn [mbind outcome_bind]. destruct (Cdr.read_float32 r1) as [| |[v r2]]; [done..|].
  cbn [mbind outcome_bind]. destruct (Cdr.read_int32 r2) as [| |[m r3]]; [done..|].
  cbn [mbind outcome_bind]. intros [= -> -> -> ->]. by destruct s.
Qed.
Next Obligation.
  intros r d. unfold safe. cbn [deserialize VehicleStateTypeSupport Cdr.read_all Cdr.read_value].
  unfold Cdr.as_value. destruct (Cdr.cdr_read_uint64 r) as [| |[t r1]]; [done..|].
  cbn [mbind outcome_bind]. destruct (Cdr.read_float32 r1) as [| |[v r2]]; [done..|].
  cbn [mbind outcome_bind]. by destruct (Cdr.read_int32 r2) as [| |[m r3]].
Qed.

Definition demo_config (seed : Z) : DomainParticipantConfig :=
  {| domain_id := 7; version := ProtocolVersion_default; vendor_id := [18; 52];
     guid_prefix := seqZ seed 12 |}.

Definition demo_topic : Topic := Topic_new {| topic_id := 4097; topic_type_id := 1448301617 |}.

Definition demo_endpoint (remote : GuidPrefix) : StaticEndpointConfig :=
  {| reader_id := [0; 0; 1; 4]; writer_id := [0; 0; 2; 3]; remote_guid_prefix := remote;
     byte_order := little_endian |}.

Definition demo_writer : DataWriter :=
  DataWriter_new 2 32 (Publisher_new (DomainParticipant_new (demo_config 16))) demo_topic
    (demo_endpoint (seqZ 64 12)) ReliableWriterQos_default.

Definition demo_reader : DataReader :=
  DataReader_new 8 (Subscriber_new (DomainParticipant_new (demo_config 64))) demo_topic
    (demo_endpoint (seqZ 16 12)).

Definition demo_sample : VehicleState :=
  {| timestamp_ns := 123456789; velocity_mps := 1099431936; mode := -2 |}.

Definition demo_buffer : list Z := replicate 128 0.

Lemma demo_writer_ok : writer_ok 2 32 demo_writer.
Proof. by apply DataWriter_new_ok. Qed.

Lemma demo_reader_ok : reader_ok 8 demo_reader.
Proof. by apply DataReader_new_ok. Qed.

Lemma demo_connected : connected demo_writer demo_reader.
Proof. by split. Qed.

Lemma demo_sample_ok : sample_ok demo_sample.
Proof. cbn. lia. Qed.

Lemma dds_write_exact_witness :
  exists w', write 2 32 demo_writer demo_sample 10 (Some demo_buffer) 128 =
    Done (success 64 1, w', Some (datagram_of demo_writer 1 demo_sample ++ replicate 64 0)) /\
    published 2 32 demo_writer w' demo_sample.
Proof.
  exact (dds_write_exact 2 32 ltac:(lia) ltac:(lia) demo_writer demo_sample 10 demo_buffer 128
    demo_writer_ok eq_refl demo_sample_ok ltac:(lia) ltac:(done) ltac:(lia)).
Defined.

Lemma dds_samples_intact_witness :
  exists s l r', session_run 2 32 4
      {| se_writer := demo_writer; se_log := []; se_sent := [] |}
      [CallWrite demo_sample 10 demo_buffer 128] = Some s /\
    (1, l) ∈ se_sent s /\
    take_sample 8 demo_reader (Some l) (zlen l) Sample_default =
    Done (success (zlen l) 1, r', demo_sample).
Proof.
  destruct (dds_samples_intact 2 32 ltac:(lia) ltac:(lia) 4 ltac:(lia) 8 ltac:(lia)
    (demo_config 16) demo_topic (demo_endpoint (seqZ 64 12)) ReliableWriterQos_default
    [CallWrite demo_sample 10 demo_buffer 128]) as (s & Hrun & Hall);
    [done|done|done|done|by repeat constructor|].
  assert (exists l, (1, l) ∈ se_sent s /\ se_log s = [demo_sample]) as (l & Hl & Hlog).
  { revert Hrun. vm_compute. intros [= <-]. eexists. split; [by left|done]. }
  destruct (Hall 1 l Hl) as (x & [_ Hx] & Htake). rewrite Hlog in Hx. injection Hx as <-.
  destruct (Htake demo_reader Sample_default demo_reader_ok eq_refl demo_connected)
    as (r' & Ht & _).
  exists s, l, r'. split_and!; [exact Hrun|exact Hl|exact Ht].
Defined.

Lemma dds_take_untrusted_witness :
  match take_sample 8 demo_reader (Some (replicate 80 255)) 80 demo_sample with
  | Stop (_, r', x) => r' = demo_reader /\ x = demo_sample
  | _ => False
  end.
Proof.
  pose proof (dds_take_untrusted 8 ltac:(lia) demo_reader (Some (replicate 80 255)) 80
    demo_sample demo_reader_ok) as Hall.
  destruct (take_sample 8 demo_reader (Some (replicate 80 255)) 80 demo_sample)
    as [|[[res r'] x]|] eqn:Ht; [vm_compute in Ht; discriminate| |vm_compute in Ht; discriminate].
  apply Hall. split; [lia|]. intros m [= <-]. split; [done|]. repeat constructor; lia.
Defined.

(** The writer after [write], and the messages of one exchange. *)
Definition demo_written : DataWriter :=
  match write 2 32 demo_writer demo_sample 10 (Some demo_buffer) 128 with
  | Done (_, w, _) => w | _ => demo_writer
  end.

Lemma demo_published : published 2 32 demo_writer demo_written demo_sample.
Proof.
  destruct (write_cases 2 32 ltac:(lia) ltac:(lia) demo_writer demo_sample 10 demo_buffer 128
    demo_writer_ok eq_refl demo_sample_ok ltac:(lia) ltac:(done) ltac:(lia)) as (w & Hw & Hp).
  unfold demo_written. by rewrite Hw.
Qed.

Lemma dds_repair_exchange_witness :
  exists res1 w1 d1 res2 r' d2 res3 w2 a x,
    build_heartbeat demo_written (Some demo_buffer) 128 false = Done (res1, w1, Some d1) /\
    on_heartbeat 8 demo_reader (Some (take (Z.to_nat (bytes res1)) d1)) (bytes res1)
      (Some demo_buffer) 128 = Done (res2, r', Some d2) /\
    on_acknack 2 4 w1 (Some (take (Z.to_nat (bytes res2)) d2)) (bytes res2) 20
      (Rel.ActionBuffer_init 4) = Done (res3, w2, a) /\
    x ∈ Rel.contents a /\
    let l := datagram_of demo_writer 1 demo_sample in
    build_data_action w2 x (Some demo_buffer) 128 =
    Done (success (zlen l) 1, Some (l ++ drop (length l) demo_buffer)).
Proof.
  destruct (build_heartbeat demo_written (Some demo_buffer) 128 false)
    as [| |[[res1 w1] [d1|]]] eqn:H1; try (vm_compute in H1; discriminate).
  destruct (on_heartbeat 8 demo_reader (Some (take (Z.to_nat (bytes res1)) d1)) (bytes res1)
    (Some demo_buffer) 128) as [| |[[res2 r'] [d2|]]] eqn:H2;
    try (vm_compute in H1; injection H1 as <- <- <-; vm_compute in H2; discriminate).
  destruct (on_acknack 2 4 w1 (Some (take (Z.to_nat (bytes res2)) d2)) (bytes res2) 20
    (Rel.ActionBuffer_init 4)) as [| |[[res3 w2] a]] eqn:H3;
    try (vm_compute in H1; injection H1 as <- <- <-; vm_compute in H2;
         injection H2 as <- <- <-; vm_compute in H3; discriminate).
  assert (0 < bytes res2) as Hpos
    by (vm_compute in H1; injection H1 as <- <- <-; vm_compute in H2;
        injection H2 as <- <- <-; vm_compute; reflexivity).
  destruct demo_published as [Hsame Hok _ (rec & Hlive & Hh)].
  assert (rec ∈ Writer.live (reliability_ demo_written)) as Hrec
    by (rewrite Hlive; apply elem_of_app; right; by left).
  assert (valid_ demo_written = true) as Hv by (vm_compute; reflexivity).
  assert (connected demo_written demo_reader) as Hc by (split; vm_compute; reflexivity).
  assert (buffer_of demo_buffer 128) as Hb by (unfold buffer_of; cbn; lia).
  pose proof (dds_repair_exchange 2 32 ltac:(lia) ltac:(lia) 4 ltac:(lia) 8 ltac:(lia)
    demo_written demo_reader false demo_buffer 128 res1 w1 d1 demo_buffer 128 res2 r' d2 20
    res3 w2 a Hok Hv demo_reader_ok eq_refl Hc Hb Hb ltac:(lia) H1 H2 Hpos H3 rec Hrec) as Hall.
  assert (Writer.record_sequence rec = 1 /\ Writer.first_send_ns rec = 10 /\
    Writer.repair_attempts rec = 0) as (E1 & E2 & E3).
  { assert (rec = default (Writer.record_init 32)
      (Writer.live (reliability_ demo_written) !! 0%nat)) as -> by (rewrite Hlive; reflexivity).
    vm_compute. split_and!; reflexivity. }
  revert Hall. cbv zeta. unfold Writer.expired. rewrite E1, E2, E3.
  repeat match goal with |- (if ?c then _ else _) -> _ =>
    assert (c = false) as -> by (vm_compute; reflexivity) end.
  intros (x & Hx & Hbuild).
  exists res1, w1, d1, res2, r', d2, res3, w2, a, x.
  split; [reflexivity|]. split; [exact H2|]. split; [exact H3|]. split; [exact Hx|].
  destruct (same_entity_datagram _ _ 1 demo_sample Hsame) as [<- Epl].
  apply Hbuild; [|vm_compute; reflexivity|exact Hb]. unfold holds. rewrite Epl.
  split; [exact E1|]. apply Hh.
Defined.

End Delivery.
