(* ===== verification/Foundation.v ===== *)
(** * The adapter context

    [include/openrtdds/rmw/foundation.hpp] and [src/rmw/foundation.cpp]: the life cycle
    of a context, and its node and guard-condition slots behind generation-checked
    handles.

    The template parameters of [AdapterContext] are the variables of a section.  Every
    operation that fails returns before it changes the context: [Stop] carries the error
    it reports, [Done] the new context and what the call hands out. *)
From stdpp Require Import list.
From S2P Require Import Prelude Texts.

Module Foundation.
Import Texts.

Definition kImplementationIdentifier : list Z :=
  [114; 109; 119; 95; 111; 112; 101; 110; 114; 116; 100; 100; 115; 95; 99; 112; 112; 0].
Definition kMaxPortableDomainId : Z := 232.

Inductive AdapterError : Set :=
  | adapter_none
  | invalid_argument
  | incorrect_implementation
  | invalid_limits
  | invalid_domain
  | invalid_state
  | resource_exhausted
  | name_too_long
  | stale_handle
  | unsupported.

#[global] Instance AdapterError_eq_dec : EqDecision AdapterError.
Proof. solve_decision. Defined.

Definition adapter_error_string (error : AdapterError) : string :=
  match error with
  | adapter_none => "none"
  | invalid_argument => "invalid_argument"
  | incorrect_implementation => "incorrect_implementation"
  | invalid_limits => "invalid_limits"
  | invalid_domain => "invalid_domain"
  | invalid_state => "invalid_state"
  | resource_exhausted => "resource_exhausted"
  | name_too_long => "name_too_long"
  | stale_handle => "stale_handle"
  | unsupported => "unsupported"
  end.

Inductive ContextState : Set := zero | initialized | active | shutting_down | finalizable.

#[global] Instance ContextState_eq_dec : EqDecision ContextState.
Proof. solve_decision. Defined.

Record AdapterLimits : Set := { max_nodes : Z; max_guard_conditions : Z }.
Definition AdapterLimits_default : AdapterLimits :=
  {| max_nodes := 8; max_guard_conditions := 16 |}.

Definition validate (limits : AdapterLimits) (node_capacity guard_condition_capacity : Z)
    : AdapterError :=
  if (max_nodes limits =? 0) || (max_guard_conditions limits =? 0) then invalid_limits
  else if (node_capacity <? max_nodes limits) ||
          (guard_condition_capacity <? max_guard_conditions limits) then invalid_limits
  else adapter_none.

(** [implementation_identifier] is the memory behind the pointer. *)
Record AdapterConfig : Set := {
  limits : AdapterLimits;
  domain_id : Z;
  implementation_identifier : option (list Z);
}.

(** [NodeHandle] and [GuardConditionHandle]. *)
Record Handle : Set := {
  h_slot : Z;
  slot_generation : Z;
  h_context_generation : Z;
}.

Record NodeSlot : Set := {
  name : list Z;
  name_space : list Z;
  n_generation : Z;
  n_used : bool;
}.

Record GuardConditionSlot : Set := {
  trigger_generation : Z;
  g_generation : Z;
  g_used : bool;
}.

Record AdapterContext : Set := {
  nodes_ : list NodeSlot;
  guard_conditions_ : list GuardConditionSlot;
  limits_ : AdapterLimits;
  wake_generation_ : Z;
  node_count_ : Z;
  guard_condition_count_ : Z;
  context_generation_ : Z;
  domain_id_ : Z;
  state_ : ContextState;
}.

(** ** Helpers *)

Definition next_generation (current : Z) : Z :=
  if current =? u32_max then 1 else add32 current 1.

(** The successor [advance_atomic] stores. *)
Definition next_wake (current : Z) : Z :=
  if current =? size_max then 1 else add64 current 1.

(** The loop of [advance_atomic]: an attempt finds [cell] in the atomic and may fail
    spuriously; a failed attempt reloads [current].  The result is what the cell holds
    after the attempt that succeeds; [None] while none has. *)
Fixpoint advance_loop (current : Z) (attempts : list (Z * bool)) : option Z :=
  match attempts with
  | [] => None
  | (cell, spurious) :: attempts' =>
      if negb spurious && (cell =? current) then Some (next_wake current)
      else advance_loop cell attempts'
  end.

(** [advance_atomic] without interference. *)
Definition advance_atomic (value : Z) : Z := default value (advance_loop value [(value, false)]).

(** The characters of the identifier are compared up to and including its NUL. *)
Fixpoint identifier_loop {E} (candidate : list Z) (index : Z) (expected : list Z)
    : outcome E bool :=
  match expected with
  | [] => Done false
  | c :: expected' =>
      x ← access (mload candidate index);
      if negb (x =? c) then Done false
      else if c =? 0 then Done true
      else identifier_loop candidate (index + 1) expected'
  end.

Definition identifier_matches {E} (candidate : option (list Z)) : outcome E bool :=
  match candidate with
  | None => Done false
  | Some candidate => identifier_loop candidate 0 kImplementationIdentifier
  end.

Definition bounded_length {E} (value : list Z) (capacity : Z) : outcome E Z :=
  text_length (Z.to_nat capacity) value 0.

Definition copy_bounded {E} (source : list Z) (length : Z) (destination : list Z)
    : outcome E (list Z) :=
  destination ← for_each (fun index d => c ← access (mload source index);
                                         access (mstore d index c))
                  (seqZ 0 length) destination;
  access (mstore destination length 0).

Definition in_states (s : ContextState) (l : list ContextState) : bool :=
  existsb (fun x => bool_decide (x = s)) l.

Section Context_.
Context (NodeCapacity GuardConditionCapacity MaxNodeNameBytes MaxNamespaceBytes : Z).

Definition NodeSlot_default : NodeSlot :=
  {| name := replicate (Z.to_nat MaxNodeNameBytes) 0;
     name_space := replicate (Z.to_nat MaxNamespaceBytes) 0; n_generation := 0;
     n_used := false |}.
Definition GuardConditionSlot_default : GuardConditionSlot :=
  {| trigger_generation := 0; g_generation := 0; g_used := false |}.

Definition AdapterContext_new : AdapterContext :=
  {| nodes_ := replicate (Z.to_nat NodeCapacity) NodeSlot_default;
     guard_conditions_ :=
       replicate (Z.to_nat GuardConditionCapacity) GuardConditionSlot_default;
     limits_ := AdapterLimits_default; wake_generation_ := 0; node_count_ := 0;
     guard_condition_count_ := 0; context_generation_ := 0; domain_id_ := 0;
     state_ := zero |}.

Definition with_state (c : AdapterContext) (s : ContextState) : AdapterContext :=
  {| nodes_ := nodes_ c; guard_conditions_ := guard_conditions_ c; limits_ := limits_ c;
     wake_generation_ := wake_generation_ c; node_count_ := node_count_ c;
     guard_condition_count_ := guard_condition_count_ c;
     context_generation_ := context_generation_ c; domain_id_ := domain_id_ c;
     state_ := s |}.

Definition with_nodes (c : AdapterContext) (nodes : list NodeSlot) (count : Z)
    : AdapterContext :=
  {| nodes_ := nodes; guard_conditions_ := guard_conditions_ c; limits_ := limits_ c;
     wake_generation_ := wake_generation_ c; node_count_ := count;
     guard_condition_count_ := guard_condition_count_ c;
     context_generation_ := context_generation_ c; domain_id_ := domain_id_ c;
     state_ := state_ c |}.

Definition with_guards (c : AdapterContext) (guards : list GuardConditionSlot) (count : Z)
    : AdapterContext :=
  {| nodes_ := nodes_ c; guard_conditions_ := guards; limits_ := limits_ c;
     wake_generation_ := wake_generation_ c; node_count_ := node_count_ c;
     guard_condition_count_ := count; context_generation_ := context_generation_ c;
     domain_id_ := domain_id_ c; state_ := state_ c |}.

Definition with_wake (c : AdapterContext) (wake : Z) : AdapterContext :=
  {| nodes_ := nodes_ c; guard_conditions_ := guard_conditions_ c; limits_ := limits_ c;
     wake_generation_ := wake; node_count_ := node_count_ c;
     guard_condition_count_ := guard_condition_count_ c;
     context_generation_ := context_generation_ c; domain_id_ := domain_id_ c;
     state_ := state_ c |}.

(** ** The life cycle *)

Definition initialize (c : AdapterContext) (config : AdapterConfig)
    : outcome AdapterError AdapterContext :=
  stop_if (negb (bool_decide (state_ c = zero))) invalid_state;;
  matches ← identifier_matches (implementation_identifier config);
  stop_if (negb matches)
    match implementation_identifier config with
    | None => invalid_argument
    | Some _ => incorrect_implementation
    end;;
  let limits_error := validate (limits config) NodeCapacity GuardConditionCapacity in
  stop_if (negb (bool_decide (limits_error = adapter_none))) limits_error;;
  stop_if (kMaxPortableDomainId <? domain_id config) invalid_domain;;
  Done {| nodes_ := nodes_ c; guard_conditions_ := guard_conditions_ c;
          limits_ := limits config; wake_generation_ := 0; node_count_ := node_count_ c;
          guard_condition_count_ := guard_condition_count_ c;
          context_generation_ := next_generation (context_generation_ c);
          domain_id_ := domain_id config; state_ := initialized |}.

Definition shutdown (c : AdapterContext) : outcome AdapterError AdapterContext :=
  stop_if (negb (in_states (state_ c) [initialized; active])) invalid_state;;
  Done (with_wake
    (with_state c (if (node_count_ c =? 0) && (guard_condition_count_ c =? 0)
                   then finalizable else shutting_down))
    (advance_atomic (wake_generation_ c))).

Definition finalize (c : AdapterContext) : outcome AdapterError AdapterContext :=
  stop_if (negb (bool_decide (state_ c = finalizable))) invalid_state;;
  Done {| nodes_ := nodes_ c; guard_conditions_ := guard_conditions_ c;
          limits_ := AdapterLimits_default; wake_generation_ := 0;
          node_count_ := node_count_ c; guard_condition_count_ := guard_condition_count_ c;
          context_generation_ := context_generation_ c; domain_id_ := 0; state_ := zero |}.

Definition update_state_after_release (c : AdapterContext) : AdapterContext :=
  if (node_count_ c =? 0) && (guard_condition_count_ c =? 0)
  then with_state c (if bool_decide (state_ c = shutting_down) then finalizable
                     else initialized)
  else c.

(** ** Nodes *)

Definition valid_node_handle (c : AdapterContext) (handle : Handle) : bool :=
  if negb (h_context_generation handle =? context_generation_ c) ||
     (NodeCapacity <=? h_slot handle) then false
  else match mload (nodes_ c) (h_slot handle) with
       | Some slot => n_used slot && (n_generation slot =? slot_generation handle)
       | None => false
       end.

Definition create_node (c : AdapterContext) (name_ name_space_ : option (list Z))
    : outcome AdapterError (AdapterContext * Handle) :=
  stop_if (negb (in_states (state_ c) [initialized; active])) invalid_state;;
  match name_, name_space_ with
  | Some name_, Some name_space_ =>
      n0 ← access (mload name_ 0);
      stop_if (n0 =? 0) invalid_argument;;
      s0 ← access (mload name_space_ 0);
      stop_if (s0 =? 0) invalid_argument;;
      name_length ← bounded_length name_ MaxNodeNameBytes;
      namespace_length ← bounded_length name_space_ MaxNamespaceBytes;
      stop_if ((MaxNodeNameBytes <=? name_length) || (MaxNamespaceBytes <=? namespace_length))
        name_too_long;;
      stop_if (max_nodes (limits_ c) <=? node_count_ c) resource_exhausted;;
      match list_find (fun slot => n_used slot = false) (nodes_ c) with
      | Some (index, slot) =>
          stored_name ← copy_bounded name_ name_length (name slot);
          stored_space ← copy_bounded name_space_ namespace_length (name_space slot);
          let generation := next_generation (n_generation slot) in
          let slot := {| name := stored_name; name_space := stored_space;
                         n_generation := generation; n_used := true |} in
          Done (with_state
                  (with_nodes c (<[index := slot]> (nodes_ c)) (add64 (node_count_ c) 1)) active,
                {| h_slot := u16 (Z.of_nat index); slot_generation := generation;
                   h_context_generation := context_generation_ c |})
      | None => Stop resource_exhausted
      end
  | _, _ => Stop invalid_argument
  end.

Definition destroy_node (c : AdapterContext) (handle : Handle)
    : outcome AdapterError AdapterContext :=
  stop_if (negb (in_states (state_ c) [active; shutting_down])) invalid_state;;
  stop_if (negb (valid_node_handle c handle)) stale_handle;;
  slot ← access (mload (nodes_ c) (h_slot handle));
  cleared_name ← access (mstore (name slot) 0 0);
  cleared_space ← access (mstore (name_space slot) 0 0);
  nodes ← access (mstore (nodes_ c) (h_slot handle)
    {| name := cleared_name; name_space := cleared_space;
       n_generation := n_generation slot; n_used := false |});
  Done (update_state_after_release (with_nodes c nodes (sub64 (node_count_ c) 1))).

(** ** Guard conditions *)

Definition valid_guard_condition_handle (c : AdapterContext) (handle : Handle) : bool :=
  if negb (h_context_generation handle =? context_generation_ c) ||
     (GuardConditionCapacity <=? h_slot handle) then false
  else match mload (guard_conditions_ c) (h_slot handle) with
       | Some slot => g_used slot && (g_generation slot =? slot_generation handle)
       | None => false
       end.

Definition create_guard_condition (c : AdapterContext)
    : outcome AdapterError (AdapterContext * Handle) :=
  stop_if (negb (in_states (state_ c) [initialized; active])) invalid_state;;
  stop_if (max_guard_conditions (limits_ c) <=? guard_condition_count_ c) resource_exhausted;;
  match list_find (fun slot => g_used slot = false) (guard_conditions_ c) with
  | Some (index, slot) =>
      let generation := next_generation (g_generation slot) in
      let slot := {| trigger_generation := 0; g_generation := generation; g_used := true |} in
      Done (with_state (with_guards c (<[index := slot]> (guard_conditions_ c))
                          (add64 (guard_condition_count_ c) 1)) active,
            {| h_slot := u16 (Z.of_nat index); slot_generation := generation;
               h_context_generation := context_generation_ c |})
  | None => Stop resource_exhausted
  end.

Definition destroy_guard_condition (c : AdapterContext) (handle : Handle)
    : outcome AdapterError AdapterContext :=
  stop_if (negb (in_states (state_ c) [active; shutting_down])) invalid_state;;
  stop_if (negb (valid_guard_condition_handle c handle)) stale_handle;;
  slot ← access (mload (guard_conditions_ c) (h_slot handle));
  guards ← access (mstore (guard_conditions_ c) (h_slot handle)
    {| trigger_generation := 0; g_generation := g_generation slot; g_used := false |});
  Done (update_state_after_release
          (with_guards c guards (sub64 (guard_condition_count_ c) 1))).

Definition trigger_guard_condition (c : AdapterContext) (handle : Handle)
    : outcome AdapterError AdapterContext :=
  stop_if (negb (in_states (state_ c) [initialized; active])) invalid_state;;
  stop_if (negb (valid_guard_condition_handle c handle)) stale_handle;;
  slot ← access (mload (guard_conditions_ c) (h_slot handle));
  guards ← access (mstore (guard_conditions_ c) (h_slot handle)
    {| trigger_generation := advance_atomic (trigger_generation slot);
       g_generation := g_generation slot; g_used := g_used slot |});
  Done (with_wake (with_guards c guards (guard_condition_count_ c))
          (advance_atomic (wake_generation_ c))).

(** [current] and [ready]. *)
Definition observe_guard_condition (c : AdapterContext) (handle : Handle) (last_observed : Z)
    : outcome AdapterError (Z * bool) :=
  stop_if (negb (in_states (state_ c) [initialized; active])) invalid_state;;
  stop_if (negb (valid_guard_condition_handle c handle)) stale_handle;;
  slot ← access (mload (guard_conditions_ c) (h_slot handle));
  Done (trigger_generation slot, negb (trigger_generation slot =? last_observed)).

End Context_.

End Foundation.
