(* ===== verification/FoundationFacts.v ===== *)
(** * What the adapter context guarantees

    The invariant of the context over every sequence of calls, the protection its
    generation counters give against stale handles, and what a guard-condition trigger
    promises to an observer. *)
From stdpp Require Import list relations.
From S2P Require Import Prelude Texts Foundation.

Module FoundationFacts.
Import Texts Foundation.

(** ** Generations *)

Lemma next_generation_range g : 0 <= g <= u32_max -> 1 <= next_generation g <= u32_max.
Proof.
  unfold next_generation, u32_max. intros Hg. destruct (Z.eqb_spec g (2 ^ 32 - 1)); [lia|].
  rewrite add32_id by lia. lia.
Qed.

Lemma next_wake_range v : 0 <= v <= size_max -> 1 <= next_wake v <= size_max.
Proof.
  unfold next_wake, size_max. intros Hv. destruct (Z.eqb_spec v (2 ^ 64 - 1)); [lia|].
  rewrite add64_id by lia. lia.
Qed.

(** Both counters run through [1 .. M] and start at 0. *)
Section Cycle.
Context (M : Z) (next : Z -> Z).
Context (HM : 0 < M) (Hnext : forall g, 0 <= g <= M -> next g = if g =? M then 1 else g + 1).

Lemma iter_closed n g :
  1 <= g <= M -> Nat.iter n next g = (g - 1 + Z.of_nat n) mod M + 1.
Proof using HM Hnext.
  intros Hg. induction n as [|n IH].
  { change (Nat.iter 0 next g) with g. change (Z.of_nat 0) with 0.
    rewrite Z.add_0_r, Z.mod_small by lia. lia. }
  rewrite Nat.iter_succ, IH.
  pose proof (Z.mod_pos_bound (g - 1 + Z.of_nat n) M HM) as Hb. rewrite Hnext by lia.
  assert (g - 1 + Z.of_nat (S n) = g - 1 + Z.of_nat n + 1) as -> by lia.
  rewrite <- (Z.add_mod_idemp_l (g - 1 + Z.of_nat n)) by lia.
  destruct (Z.eqb_spec ((g - 1 + Z.of_nat n) mod M + 1) M) as [He|He].
  - rewrite He, Z.mod_same by lia. lia.
  - rewrite (Z.mod_small (_ + 1)) by lia. done.
Qed.

(** A value does not come back before all the others have been used. *)
Lemma iter_distinct n g :
  0 <= g <= M -> (0 < n)%nat -> Z.of_nat n < M -> Nat.iter n next g <> g.
Proof using HM Hnext.
  intros Hg Hn Hlt Heq. destruct (decide (g = 0)) as [->|Hz].
  - destruct n as [|n]; [lia|]. rewrite Nat.iter_succ_r, (Hnext 0) in Heq by lia.
    destruct (Z.eqb_spec 0 M); [lia|]. rewrite iter_closed in Heq by lia.
    pose proof (Z.mod_pos_bound (0 + 1 - 1 + Z.of_nat n) M HM). lia.
  - rewrite iter_closed in Heq by lia.
    pose proof (Z.div_mod (g - 1 + Z.of_nat n) M ltac:(lia)) as Hd.
    assert ((g - 1 + Z.of_nat n) mod M = g - 1) as Hm by lia. rewrite Hm in Hd.
    set (q := (g - 1 + Z.of_nat n) / M) in *.
    assert (M * q = Z.of_nat n) as Hmul by lia. clear Hd Hm Heq Hnext.
    destruct (Z.le_gt_cases q 0); nia.
Qed.
End Cycle.

Lemma generations_distinct n g :
  0 <= g <= u32_max -> (0 < n)%nat -> Z.of_nat n < u32_max -> Nat.iter n next_generation g <> g.
Proof.
  apply iter_distinct; [done|]. intros x Hx. unfold next_generation, u32_max in *.
  destruct (Z.eqb_spec x (2 ^ 32 - 1)); [done|]. by apply add32_id; lia.
Qed.

Lemma wakes_distinct n g :
  0 <= g <= size_max -> (0 < n)%nat -> Z.of_nat n < size_max -> Nat.iter n next_wake g <> g.
Proof.
  apply iter_distinct; [done|]. intros x Hx. unfold next_wake, size_max in *.
  destruct (Z.eqb_spec x (2 ^ 64 - 1)); [done|]. by apply add64_id; lia.
Qed.

(** The retry loop of [advance_atomic]: when an attempt succeeds, the cell goes from
    the value that attempt found to its successor, whatever happened before. *)
Lemma advance_loop_linearizes attempts : forall current v,
  advance_loop current attempts = Some v ->
  exists before cell after, attempts = before ++ (cell, false) :: after /\ v = next_wake cell.
Proof.
  induction attempts as [|[cell spurious] attempts IH]; intros current v; cbn [advance_loop]; [done|].
  destruct (negb spurious && (cell =? current)) eqn:Hw.
  - intros [= <-]. apply andb_true_iff in Hw as [Hs ->%Z.eqb_eq].
    destruct spurious; [done|]. by exists [], current, attempts.
  - intros (before & x & after & -> & ->)%IH. by exists ((cell, spurious) :: before), x, after.
Qed.

Lemma advance_atomic_next v : advance_atomic v = next_wake v.
Proof. unfold advance_atomic. cbn. by rewrite Z.eqb_refl. Qed.

(** ** Counting slots *)

Section Count.
Context {A : Type} (used : A -> bool).
Implicit Types (l : list A) (x y : A).

Definition used_count l : Z := zlen (filter (fun x => used x = true) l).

Lemma used_count_cons x l : used_count (x :: l) = Z.b2z (used x) + used_count l.
Proof. unfold used_count. rewrite filter_cons. destruct (used x); case_decide; cbn [length Z.b2z]; done || lia. Qed.

Lemma used_count_insert l i x y :
  l !! i = Some x ->
  used_count (<[i := y]> l) = used_count l - Z.b2z (used x) + Z.b2z (used y).
Proof.
  revert i. induction l as [|z l IH]; intros [|i] Hi; cbn in Hi; try done.
  - injection Hi as ->. change (<[0%nat := y]> (x :: l)) with (y :: l). rewrite !used_count_cons. lia.
  - change (<[S i := y]> (z :: l)) with (z :: <[i := y]> l).
    rewrite !used_count_cons, (IH i Hi). lia.
Qed.

Lemma used_count_range l : 0 <= used_count l <= zlen l.
Proof. unfold used_count. pose proof (length_filter (fun x => used x = true) l). lia. Qed.

Lemma used_count_pos l i x : l !! i = Some x -> used x = true -> 1 <= used_count l.
Proof.
  intros Hi Hx. pose proof (used_count_insert l i x x Hi). unfold used_count.
  assert (x ∈ filter (fun x => used x = true) l) as Hin
    by (apply list_elem_of_filter; split; [done|by eapply list_elem_of_lookup_2]).
  destruct (filter _ l); [by apply not_elem_of_nil in Hin|cbn [length]; lia].
Qed.

Lemma used_count_replicate n x : used x = false -> used_count (replicate n x) = 0.
Proof. intros Hx. induction n as [|n IH]; [done|]. cbn [replicate]. by rewrite used_count_cons, Hx, IH. Qed.

(** A count below the capacity leaves a free slot. *)
Lemma free_slot l :
  used_count l < zlen l -> is_Some (list_find (fun x => used x = false) l).
Proof.
  intros Hlt. destruct (list_find (fun x => used x = false) l) eqn:Hf; [done|].
  apply list_find_None in Hf. exfalso. revert Hlt. clear -Hf.
  induction l as [|x l IH]; [done|]. apply Forall_cons in Hf as [Hx Hl].
  rewrite used_count_cons. specialize (IH Hl). destruct (used x); [|done]. cbn [length Z.b2z]. lia.
Qed.

Lemma list_find_free l i x :
  list_find (fun x => used x = false) l = Some (i, x) -> l !! i = Some x /\ used x = false.
Proof. intros (? & ? & _)%list_find_Some. done. Qed.
End Count.

(** ** Names *)

Lemma copy_run {E} tail s2 : forall s1 d,
  (length s2 <= length d)%nat ->
  for_each (fun index d => c ← access (mload (s1 ++ s2 ++ tail) index); access (mstore d index c))
    (seqZ (zlen s1) (zlen s2)) (s1 ++ d) =
  (Done ((s1 ++ s2) ++ drop (length s2) d) : outcome E (list Z)).
Proof.
  induction s2 as [|c s2 IH]; intros s1 d Hd; [cbn; by rewrite app_nil_r|].
  cbn [length] in *. rewrite seqZ_cons by lia. cbn [for_each].
  rewrite mload_app_r, Z.sub_diag by lia. change (mload ((c :: s2) ++ tail) 0) with (Some c).
  cbn [access mbind outcome_bind].
  rewrite mstore_mcopy, (mcopy_snoc s1 d [c]) by (done || cbn [length]; lia).
  cbn [access mbind outcome_bind].
  specialize (IH (s1 ++ [c]) (drop 1 d)). rewrite length_drop, length_app, drop_drop in IH.
  rewrite <- !(app_assoc s1) in IH. cbn [app length] in IH.
  replace (Z.succ (zlen s1)) with (Z.of_nat (length s1 + 1)) by lia.
  replace (Z.pred (Z.of_nat (S (length s2)))) with (zlen s2) by lia.
  rewrite <- !(app_assoc s1). apply IH. lia.
Qed.

Lemma copy_bounded_spec {E} m s d :
  cstring (Some m) s -> (length s < length d)%nat ->
  copy_bounded m (zlen s) d =
  (Done (s ++ 0 :: drop (S (length s)) d) : outcome E (list Z)).
Proof.
  intros (rest & [= ->] & _) Hd. unfold copy_bounded.
  pose proof (copy_run (E:=E) (0 :: rest) s [] d ltac:(lia)) as Hrun. cbn [app length] in Hrun.
  change (Z.of_nat 0) with 0 in Hrun. rewrite Hrun. cbn [mbind outcome_bind].
  rewrite mstore_mcopy, (mcopy_snoc s _ [0]) by (rewrite ?length_drop; cbn [length]; lia).
  cbn [access length]. rewrite drop_drop, <- app_assoc, Nat.add_1_r. done.
Qed.

Lemma bounded_length_spec {E} m s capacity :
  cstring (Some m) s -> zlen s < 2 ^ 63 -> 0 <= capacity < 2 ^ 63 ->
  bounded_length m capacity = (Done (Z.min capacity (zlen s)) : outcome E Z).
Proof.
  intros (rest & [= ->] & Hs) Hl Hc. unfold bounded_length.
  pose proof (text_length_spec (E:=E) (Z.to_nat capacity) s rest [] Hs) as Hlen.
  cbn [app length] in Hlen. change (Z.of_nat 0) with 0 in Hlen. rewrite Hlen by lia. f_equal. lia.
Qed.

(** The array of a slot holds [s]. *)
Definition holds_name (capacity : Z) (array s : list Z) : Prop :=
  zlen array = capacity /\ exists rest, array = s ++ 0 :: rest.

(** ** The invariant *)

Section Invariant.
Context (NodeCapacity GuardConditionCapacity MaxNodeNameBytes MaxNamespaceBytes : Z).
Context (Hn : 0 < NodeCapacity <= 65535) (Hg : 0 < GuardConditionCapacity <= 65535).
Context (Hname : 1 < MaxNodeNameBytes < 2 ^ 63) (Hspace : 1 < MaxNamespaceBytes < 2 ^ 63).

Definition node_slot_ok (slot : NodeSlot) : Prop :=
  zlen (name slot) = MaxNodeNameBytes /\ zlen (name_space slot) = MaxNamespaceBytes /\
  0 <= n_generation slot <= u32_max /\ (n_used slot = true -> 1 <= n_generation slot).

Definition guard_slot_ok (slot : GuardConditionSlot) : Prop :=
  0 <= trigger_generation slot <= size_max /\ 0 <= g_generation slot <= u32_max /\
  (g_used slot = true -> 1 <= g_generation slot).

(** Nodes and guard conditions exist exactly in the two states that have any. *)
Definition populated (s : ContextState) : bool := in_states s [active; shutting_down].

Record context_ok (c : AdapterContext) : Prop := {
  ao_nodes : zlen (nodes_ c) = NodeCapacity;
  ao_guards : zlen (guard_conditions_ c) = GuardConditionCapacity;
  ao_node_slots : Forall node_slot_ok (nodes_ c);
  ao_guard_slots : Forall guard_slot_ok (guard_conditions_ c);
  ao_node_count : node_count_ c = used_count n_used (nodes_ c);
  ao_guard_count : guard_condition_count_ c = used_count g_used (guard_conditions_ c);
  ao_populated : populated (state_ c) = negb ((node_count_ c =? 0) && (guard_condition_count_ c =? 0));
  ao_limits : state_ c <> zero ->
    node_count_ c <= max_nodes (limits_ c) <= NodeCapacity /\
    guard_condition_count_ c <= max_guard_conditions (limits_ c) <= GuardConditionCapacity;
  ao_domain : 0 <= domain_id_ c <= kMaxPortableDomainId;
  ao_generation : 0 <= context_generation_ c <= u32_max;
}.

Lemma new_context_ok :
  context_ok (AdapterContext_new NodeCapacity GuardConditionCapacity MaxNodeNameBytes MaxNamespaceBytes).
Proof.
  split; cbn [AdapterContext_new nodes_ guard_conditions_ limits_ wake_generation_ node_count_
    guard_condition_count_ context_generation_ domain_id_ state_];
    rewrite ?length_replicate, ?used_count_replicate; try done; try (unfold u32_max, kMaxPortableDomainId; lia).
  - apply Forall_replicate. unfold node_slot_ok. cbn. rewrite !length_replicate. unfold u32_max.
    split_and!; done || lia.
  - apply Forall_replicate. unfold guard_slot_ok. cbn. unfold u32_max, size_max.
    split_and!; done || lia.
Qed.

(** One slot replaced, with the state that goes with the new count. *)
Lemma with_nodes_ok c i old new s :
  let n := node_count_ c - Z.b2z (n_used old) + Z.b2z (n_used new) in
  context_ok c -> nodes_ c !! i = Some old -> node_slot_ok new -> state_ c <> zero ->
  n <= max_nodes (limits_ c) ->
  populated s = negb ((n =? 0) && (guard_condition_count_ c =? 0)) ->
  context_ok (with_state (with_nodes c (<[i := new]> (nodes_ c)) n) s).
Proof.
  intros n [L1 L2 S1 S2 C1 C2 P Lim D G] Hi Hnew Hz Hmax Hs. specialize (Lim Hz).
  split; cbn [with_state with_nodes nodes_ guard_conditions_ limits_ node_count_
    guard_condition_count_ context_generation_ domain_id_ state_]; try done.
  - by rewrite length_insert.
  - by apply Forall_insert.
  - unfold n. rewrite (used_count_insert n_used _ _ old) by done. lia.
  - lia.
Qed.

Lemma with_guards_ok c i old new s :
  let n := guard_condition_count_ c - Z.b2z (g_used old) + Z.b2z (g_used new) in
  context_ok c -> guard_conditions_ c !! i = Some old -> guard_slot_ok new -> state_ c <> zero ->
  n <= max_guard_conditions (limits_ c) ->
  populated s = negb ((node_count_ c =? 0) && (n =? 0)) ->
  context_ok (with_state (with_guards c (<[i := new]> (guard_conditions_ c)) n) s).
Proof.
  intros n [L1 L2 S1 S2 C1 C2 P Lim D G] Hi Hnew Hz Hmax Hs. specialize (Lim Hz).
  split; cbn [with_state with_guards nodes_ guard_conditions_ limits_ node_count_
    guard_condition_count_ context_generation_ domain_id_ state_]; try done.
  - by rewrite length_insert.
  - by apply Forall_insert.
  - unfold n. rewrite (used_count_insert g_used _ _ old) by done. lia.
  - lia.
Qed.

Lemma with_wake_ok c wake : context_ok c -> context_ok (with_wake c wake).
Proof. intros []. by split. Qed.

Definition released (c : AdapterContext) : ContextState :=
  if (node_count_ c =? 0) && (guard_condition_count_ c =? 0)
  then if bool_decide (state_ c = shutting_down) then finalizable else initialized
  else state_ c.

Lemma release_state c : update_state_after_release c = with_state c (released c).
Proof. unfold update_state_after_release, released. case_match; [done|by destruct c]. Qed.

Lemma released_populated c :
  populated (state_ c) = true ->
  populated (released c) = negb ((node_count_ c =? 0) && (guard_condition_count_ c =? 0)).
Proof.
  intros Hp. unfold released. destruct ((node_count_ c =? 0) && _); [|done].
  by case_bool_decide.
Qed.

(** A valid handle designates a used slot of its generation. *)
Lemma valid_node_slot c handle :
  0 <= h_slot handle -> valid_node_handle NodeCapacity c handle = true ->
  exists slot, mload (nodes_ c) (h_slot handle) = Some slot /\
    nodes_ c !! Z.to_nat (h_slot handle) = Some slot /\ n_used slot = true /\
    n_generation slot = slot_generation handle.
Proof.
  intros H0. unfold valid_node_handle. case_match; [done|].
  destruct (mload (nodes_ c) (h_slot handle)) as [slot|] eqn:Hm; [|done].
  intros [Hu Hge%Z.eqb_eq]%andb_true_iff. exists slot.
  by apply mload_Some in Hm as [_ ?].
Qed.

Lemma valid_guard_slot c handle :
  0 <= h_slot handle -> valid_guard_condition_handle GuardConditionCapacity c handle = true ->
  exists slot, mload (guard_conditions_ c) (h_slot handle) = Some slot /\
    guard_conditions_ c !! Z.to_nat (h_slot handle) = Some slot /\ g_used slot = true /\
    g_generation slot = slot_generation handle.
Proof.
  intros H0. unfold valid_guard_condition_handle. case_match; [done|].
  destruct (mload (guard_conditions_ c) (h_slot handle)) as [slot|] eqn:Hm; [|done].
  intros [Hu Hge%Z.eqb_eq]%andb_true_iff. exists slot.
  by apply mload_Some in Hm as [_ ?].
Qed.

Lemma store_at {A} (l : list A) i x y :
  0 <= i -> l !! Z.to_nat i = Some x -> mstore l i y = Some (<[Z.to_nat i := y]> l).
Proof.
  intros H0 Hi. apply lookup_lt_Some in Hi. unfold mstore.
  destruct (Z.leb_spec 0 i), (Z.ltb_spec i (zlen l)); done || lia.
Qed.

(** The slot a destroyed node leaves. *)
Definition cleared_node (slot : NodeSlot) : NodeSlot :=
  {| name := <[0%nat := 0]> (name slot); name_space := <[0%nat := 0]> (name_space slot);
     n_generation := n_generation slot; n_used := false |}.

Lemma destroy_node_exact c handle :
  context_ok c -> 0 <= h_slot handle ->
  destroy_node NodeCapacity c handle =
  if negb (in_states (state_ c) [active; shutting_down]) then Stop invalid_state
  else if negb (valid_node_handle NodeCapacity c handle) then Stop stale_handle
  else match nodes_ c !! Z.to_nat (h_slot handle) with
       | Some slot => Done (update_state_after_release
           (with_nodes c (<[Z.to_nat (h_slot handle) := cleared_node slot]> (nodes_ c))
             (node_count_ c - 1)))
       | None => Fault
       end.
Proof.
  intros Hc H0. unfold destroy_node. destruct (in_states _ _); [|done].
  destruct (valid_node_handle NodeCapacity c handle) eqn:Hv; [|done].
  destruct (valid_node_slot c handle H0 Hv) as (slot & Hm & Hi & Hu & _).
  cbn [negb stop_if mbind outcome_bind]. rewrite Hm, Hi. cbn [access mbind outcome_bind].
  pose proof (ao_node_slots c Hc) as Hs. rewrite Forall_forall in Hs.
  destruct (Hs slot ltac:(by eapply list_elem_of_lookup_2)) as (L1 & L2 & _).
  assert (is_Some (name slot !! Z.to_nat 0)) as [x1 Hx1] by (apply lookup_lt_is_Some; lia).
  assert (is_Some (name_space slot !! Z.to_nat 0)) as [x2 Hx2] by (apply lookup_lt_is_Some; lia).
  rewrite (store_at (name slot) 0 x1 0), (store_at (name_space slot) 0 x2 0) by done.
  cbn [access mbind outcome_bind]. rewrite (store_at (nodes_ c) _ slot) by done.
  cbn [access mbind outcome_bind]. do 3 f_equal. apply sub64_id.
  pose proof (used_count_pos n_used _ _ slot Hi Hu). pose proof (used_count_range n_used (nodes_ c)).
  rewrite (ao_node_count c Hc). rewrite (ao_nodes c Hc) in *. lia.
Qed.

(** The slot of a new node. *)
Definition named_node (slot : NodeSlot) (s1 s2 : list Z) : NodeSlot :=
  {| name := s1 ++ 0 :: drop (S (length s1)) (name slot);
     name_space := s2 ++ 0 :: drop (S (length s2)) (name_space slot);
     n_generation := next_generation (n_generation slot); n_used := true |}.

Lemma first_char m s :
  cstring (Some m) s ->
  exists c, mload m 0 = Some c /\ (c =? 0) = (zlen s =? 0).
Proof.
  intros (rest & [= ->] & Hs). destruct s as [|c s]; [by exists 0|].
  exists c. split; [done|]. apply Forall_cons in Hs as [Hc _]. cbn [length].
  destruct (Z.eqb_spec c 0), (Z.eqb_spec (Z.of_nat (S (length s))) 0); done || lia.
Qed.

Lemma create_node_exact c m1 m2 s1 s2 :
  context_ok c -> cstring (Some m1) s1 -> cstring (Some m2) s2 ->
  zlen s1 < 2 ^ 63 -> zlen s2 < 2 ^ 63 ->
  create_node MaxNodeNameBytes MaxNamespaceBytes c (Some m1) (Some m2) =
  if negb (in_states (state_ c) [initialized; active]) then Stop invalid_state
  else if (zlen s1 =? 0) || (zlen s2 =? 0) then Stop invalid_argument
  else if (MaxNodeNameBytes <=? zlen s1) || (MaxNamespaceBytes <=? zlen s2) then Stop name_too_long
  else if max_nodes (limits_ c) <=? node_count_ c then Stop resource_exhausted
  else match list_find (fun slot => n_used slot = false) (nodes_ c) with
       | Some (index, slot) =>
           Done (with_state (with_nodes c (<[index := named_node slot s1 s2]> (nodes_ c))
                               (node_count_ c + 1)) active,
                 {| h_slot := Z.of_nat index;
                    slot_generation := next_generation (n_generation slot);
                    h_context_generation := context_generation_ c |})
       | None => Stop resource_exhausted
       end.
Proof.
  intros Hc H1 H2 L1 L2. unfold create_node. destruct (in_states _ _); [|done].
  cbn [negb stop_if mbind outcome_bind].
  destruct (first_char m1 s1 H1) as (c1 & -> & E1).
  destruct (first_char m2 s2 H2) as (c2 & -> & E2).
  cbn [access mbind outcome_bind]. rewrite E1, E2.
  destruct (zlen s1 =? 0); [done|]. destruct (zlen s2 =? 0); [done|].
  cbn [orb stop_if mbind outcome_bind].
  rewrite (bounded_length_spec m1 s1), (bounded_length_spec m2 s2) by (done || lia).
  cbn [mbind outcome_bind].
  destruct (Z.leb_spec MaxNodeNameBytes (Z.min MaxNodeNameBytes (zlen s1))),
    (Z.leb_spec MaxNodeNameBytes (zlen s1)); try lia; [done|].
  destruct (Z.leb_spec MaxNamespaceBytes (Z.min MaxNamespaceBytes (zlen s2))),
    (Z.leb_spec MaxNamespaceBytes (zlen s2)); try lia; [done|].
  cbn [orb stop_if mbind outcome_bind]. rewrite !Z.min_r by lia.
  destruct (max_nodes (limits_ c) <=? node_count_ c); [done|]. cbn [stop_if mbind outcome_bind].
  destruct (list_find _ (nodes_ c)) as [[index slot]|] eqn:Hf; [|done].
  apply (list_find_free n_used) in Hf as [Hi Hu].
  pose proof (ao_node_slots c Hc) as Hs. rewrite Forall_forall in Hs.
  destruct (Hs slot ltac:(by eapply list_elem_of_lookup_2)) as (N1 & N2 & _).
  rewrite (copy_bounded_spec m1 s1), (copy_bounded_spec m2 s2) by (done || lia).
  cbn [mbind outcome_bind]. apply lookup_lt_Some in Hi. pose proof (ao_nodes c Hc) as HN.
  rewrite u16_id by lia. rewrite add64_id; [done|].
  rewrite (ao_node_count c Hc). pose proof (used_count_range n_used (nodes_ c)). lia.
Qed.

Lemma named_node_ok slot s1 s2 :
  node_slot_ok slot -> zlen s1 < MaxNodeNameBytes -> zlen s2 < MaxNamespaceBytes ->
  node_slot_ok (named_node slot s1 s2).
Proof.
  intros (L1 & L2 & G1 & _) H1 H2. unfold node_slot_ok, named_node. cbn [name name_space n_generation n_used].
  pose proof (next_generation_range (n_generation slot) G1).
  rewrite !length_app. cbn [length]. rewrite !length_drop. split_and!; lia.
Qed.

Lemma create_guard_exact c :
  context_ok c ->
  create_guard_condition c =
  if negb (in_states (state_ c) [initialized; active]) then Stop invalid_state
  else if max_guard_conditions (limits_ c) <=? guard_condition_count_ c then Stop resource_exhausted
  else match list_find (fun slot => g_used slot = false) (guard_conditions_ c) with
       | Some (index, slot) =>
           let generation := next_generation (g_generation slot) in
           Done (with_state (with_guards c
                   (<[index := {| trigger_generation := 0; g_generation := generation;
                                  g_used := true |}]> (guard_conditions_ c))
                   (guard_condition_count_ c + 1)) active,
                 {| h_slot := Z.of_nat index; slot_generation := generation;
                    h_context_generation := context_generation_ c |})
       | None => Stop resource_exhausted
       end.
Proof.
  intros Hc. unfold create_guard_condition. destruct (in_states _ _); [|done].
  cbn [negb stop_if mbind outcome_bind].
  destruct (max_guard_conditions (limits_ c) <=? guard_condition_count_ c); [done|].
  cbn [stop_if mbind outcome_bind].
  destruct (list_find _ (guard_conditions_ c)) as [[index slot]|] eqn:Hf; [|done].
  apply (list_find_free g_used) in Hf as [Hi Hu]. apply lookup_lt_Some in Hi.
  pose proof (ao_guards c Hc) as HG. cbv zeta. rewrite u16_id by lia. rewrite add64_id; [done|].
  rewrite (ao_guard_count c Hc). pose proof (used_count_range g_used (guard_conditions_ c)). lia.
Qed.

(** The calls that touch the slot of a valid guard-condition handle. *)
Lemma guard_call_exact c handle {A} (f : GuardConditionSlot -> outcome AdapterError A) :
  0 <= h_slot handle -> valid_guard_condition_handle GuardConditionCapacity c handle = true ->
  exists slot, guard_conditions_ c !! Z.to_nat (h_slot handle) = Some slot /\ g_used slot = true /\
    (slot ← access (mload (guard_conditions_ c) (h_slot handle)); f slot) = f slot /\
    forall new, mstore (guard_conditions_ c) (h_slot handle) new =
      Some (<[Z.to_nat (h_slot handle) := new]> (guard_conditions_ c)).
Proof.
  intros H0 Hv. destruct (valid_guard_slot c handle H0 Hv) as (slot & Hm & Hi & Hu & _).
  exists slot. rewrite Hm. split_and!; try done. intros new. by apply (store_at _ _ slot).
Qed.

(** ** Every sequence of calls *)

(** What the caller may pass: strings that end, unsigned limits and domain. *)
Definition config_ok (config : AdapterConfig) : Prop :=
  0 <= max_nodes (limits config) /\ 0 <= max_guard_conditions (limits config) /\
  0 <= domain_id config.

Inductive adapter_step (c : AdapterContext) : AdapterContext -> Prop :=
  | step_initialize config c' :
      config_ok config -> initialize NodeCapacity GuardConditionCapacity c config = Done c' ->
      adapter_step c c'
  | step_shutdown c' : shutdown c = Done c' -> adapter_step c c'
  | step_finalize c' : finalize c = Done c' -> adapter_step c c'
  | step_create_node m1 m2 s1 s2 c' handle :
      cstring (Some m1) s1 -> cstring (Some m2) s2 -> zlen s1 < 2 ^ 63 -> zlen s2 < 2 ^ 63 ->
      create_node MaxNodeNameBytes MaxNamespaceBytes c (Some m1) (Some m2) = Done (c', handle) ->
      adapter_step c c'
  | step_destroy_node handle c' :
      0 <= h_slot handle -> destroy_node NodeCapacity c handle = Done c' -> adapter_step c c'
  | step_create_guard c' handle :
      create_guard_condition c = Done (c', handle) -> adapter_step c c'
  | step_destroy_guard handle c' :
      0 <= h_slot handle -> destroy_guard_condition GuardConditionCapacity c handle = Done c' ->
      adapter_step c c'
  | step_trigger handle c' :
      0 <= h_slot handle -> trigger_guard_condition GuardConditionCapacity c handle = Done c' ->
      adapter_step c c'.

Lemma states_not_zero s l : in_states s l = true -> in_states zero l = false -> s <> zero.
Proof. intros H Hl ->. congruence. Qed.

Lemma create_node_ok c m1 m2 s1 s2 c' handle :
  context_ok c -> cstring (Some m1) s1 -> cstring (Some m2) s2 ->
  zlen s1 < 2 ^ 63 -> zlen s2 < 2 ^ 63 ->
  create_node MaxNodeNameBytes MaxNamespaceBytes c (Some m1) (Some m2) = Done (c', handle) ->
  context_ok c' /\ exists index slot, nodes_ c !! index = Some slot /\ n_used slot = false /\
    nodes_ c' = <[index := named_node slot s1 s2]> (nodes_ c) /\
    context_generation_ c' = context_generation_ c /\
    handle = {| h_slot := Z.of_nat index; slot_generation := next_generation (n_generation slot);
                h_context_generation := context_generation_ c |}.
Proof.
  intros Hc H1 H2 L1 L2. rewrite (create_node_exact c m1 m2 s1 s2) by done.
  destruct (in_states (state_ c) _) eqn:Hst; [|done]. cbn [negb].
  destruct (_ || _); [done|].
  destruct (Z.leb_spec MaxNodeNameBytes (zlen s1)); [done|].
  destruct (Z.leb_spec MaxNamespaceBytes (zlen s2)); [done|]. cbn [orb].
  destruct (Z.leb_spec (max_nodes (limits_ c)) (node_count_ c)); [done|].
  destruct (list_find _ (nodes_ c)) as [[index slot]|] eqn:Hf; [|done]. intros [= <- <-].
  apply (list_find_free n_used) in Hf as [Hi Hu]. split; [|by exists index, slot].
  pose proof (ao_node_slots c Hc) as Hs. rewrite Forall_forall in Hs.
  pose proof (Hs slot ltac:(by eapply list_elem_of_lookup_2)) as Hslot.
  pose proof (used_count_range n_used (nodes_ c)) as Hr. rewrite <- (ao_node_count c Hc) in Hr.
  pose proof (with_nodes_ok c index slot (named_node slot s1 s2) active) as Hok.
  rewrite Hu in Hok. cbn [named_node n_used Z.b2z] in Hok. rewrite Z.sub_0_r in Hok.
  apply Hok; try done; [by apply named_node_ok| |lia|].
  - by apply (states_not_zero _ _ Hst).
  - destruct (Z.eqb_spec (node_count_ c + 1) 0); [lia|done].
Qed.

Lemma destroy_node_ok c handle c' :
  context_ok c -> 0 <= h_slot handle -> destroy_node NodeCapacity c handle = Done c' ->
  context_ok c' /\ valid_node_handle NodeCapacity c handle = true /\
  exists slot, nodes_ c !! Z.to_nat (h_slot handle) = Some slot /\
    n_generation slot = slot_generation handle /\ n_used slot = true /\
    nodes_ c' = <[Z.to_nat (h_slot handle) := cleared_node slot]> (nodes_ c) /\
    context_generation_ c' = context_generation_ c.
Proof.
  intros Hc H0. rewrite destroy_node_exact by done.
  destruct (in_states (state_ c) _) eqn:Hst; [|done].
  destruct (valid_node_handle NodeCapacity c handle) eqn:Hv; [|done]. cbn [negb].
  destruct (valid_node_slot c handle H0 Hv) as (slot & _ & Hi & Hu & Hgen). rewrite Hi.
  intros [= <-]. rewrite release_state. split; [|split; [done|by exists slot]].
  pose proof (ao_node_slots c Hc) as Hs. rewrite Forall_forall in Hs.
  destruct (Hs slot ltac:(by eapply list_elem_of_lookup_2)) as (N1 & N2 & G1 & _).
  set (c1 := with_nodes c _ _). assert (state_ c <> zero) as Hz
    by (by apply (states_not_zero _ _ Hst)).
  pose proof (with_nodes_ok c (Z.to_nat (h_slot handle)) slot (cleared_node slot) (released c1)) as Hok.
  rewrite Hu in Hok. cbn [cleared_node n_used Z.b2z] in Hok. rewrite Z.add_0_r in Hok.
  apply Hok; try done.
  - unfold node_slot_ok, cleared_node. cbn. by rewrite !length_insert.
  - pose proof (ao_limits c Hc Hz). lia.
  - exact (released_populated c1 Hst).
Qed.

Lemma create_guard_ok c c' handle :
  context_ok c -> create_guard_condition c = Done (c', handle) ->
  context_ok c' /\ nodes_ c' = nodes_ c /\ context_generation_ c' = context_generation_ c.
Proof.
  intros Hc. rewrite create_guard_exact by done.
  destruct (in_states (state_ c) _) eqn:Hst; [|done]. cbn [negb].
  destruct (Z.leb_spec (max_guard_conditions (limits_ c)) (guard_condition_count_ c)); [done|].
  destruct (list_find _ (guard_conditions_ c)) as [[index slot]|] eqn:Hf; [|done].
  cbv zeta. intros [= <- _]. apply (list_find_free g_used) in Hf as [Hi Hu]. split; [|done].
  pose proof (ao_guard_slots c Hc) as Hs. rewrite Forall_forall in Hs.
  destruct (Hs slot ltac:(by eapply list_elem_of_lookup_2)) as (T1 & G1 & _).
  pose proof (used_count_range g_used (guard_conditions_ c)) as Hr.
  rewrite <- (ao_guard_count c Hc) in Hr.
  set (new := {| trigger_generation := 0 |}).
  pose proof (with_guards_ok c index slot new active) as Hok.
  rewrite Hu in Hok. cbn [new g_used Z.b2z] in Hok. rewrite Z.sub_0_r in Hok.
  apply Hok; try done; [|by apply (states_not_zero _ _ Hst)|lia|].
  - pose proof (next_generation_range _ G1). unfold guard_slot_ok, new, size_max. cbn.
    split_and!; done || lia.
  - destruct (Z.eqb_spec (guard_condition_count_ c + 1) 0); [lia|].
    by destruct (node_count_ c =? 0).
Qed.

Lemma destroy_guard_ok c handle c' :
  context_ok c -> 0 <= h_slot handle ->
  destroy_guard_condition GuardConditionCapacity c handle = Done c' ->
  context_ok c' /\ nodes_ c' = nodes_ c /\ context_generation_ c' = context_generation_ c.
Proof.
  intros Hc H0. unfold destroy_guard_condition.
  destruct (in_states (state_ c) _) eqn:Hst; [|done].
  destruct (valid_guard_condition_handle GuardConditionCapacity c handle) eqn:Hv; [|done].
  cbn [negb stop_if mbind outcome_bind].
  destruct (valid_guard_slot c handle H0 Hv) as (slot & -> & Hi & Hu & _).
  cbn [access mbind outcome_bind]. rewrite (store_at _ _ slot) by done. cbn [access mbind outcome_bind].
  intros [= <-]. rewrite release_state. split; [|done].
  pose proof (ao_guard_slots c Hc) as Hs. rewrite Forall_forall in Hs.
  destruct (Hs slot ltac:(by eapply list_elem_of_lookup_2)) as (T1 & G1 & _).
  pose proof (used_count_pos g_used _ _ slot Hi Hu) as Hp.
  pose proof (used_count_range g_used (guard_conditions_ c)) as Hr.
  rewrite <- (ao_guard_count c Hc), (ao_guards c Hc) in *. rewrite sub64_id by lia.
  assert (state_ c <> zero) as Hz by (by apply (states_not_zero _ _ Hst)).
  set (new := {| trigger_generation := 0 |}). set (c1 := with_guards c _ _).
  pose proof (with_guards_ok c (Z.to_nat (h_slot handle)) slot new (released c1)) as Hok.
  rewrite Hu in Hok. cbn [new g_used Z.b2z] in Hok. rewrite Z.add_0_r in Hok.
  apply Hok; try done.
  - pose proof (ao_limits c Hc Hz). lia.
  - exact (released_populated c1 Hst).
Qed.

(** The slot of a triggered guard condition. *)
Definition triggered (slot : GuardConditionSlot) : GuardConditionSlot :=
  {| trigger_generation := next_wake (trigger_generation slot);
     g_generation := g_generation slot; g_used := g_used slot |}.

Lemma trigger_exact c handle :
  0 <= h_slot handle ->
  trigger_guard_condition GuardConditionCapacity c handle =
  if negb (in_states (state_ c) [initialized; active]) then Stop invalid_state
  else if negb (valid_guard_condition_handle GuardConditionCapacity c handle) then Stop stale_handle
  else match guard_conditions_ c !! Z.to_nat (h_slot handle) with
       | Some slot => Done (with_wake (with_guards c
           (<[Z.to_nat (h_slot handle) := triggered slot]> (guard_conditions_ c))
           (guard_condition_count_ c)) (next_wake (wake_generation_ c)))
       | None => Fault
       end.
Proof.
  intros H0. unfold trigger_guard_condition. destruct (in_states _ _); [|done].
  destruct (valid_guard_condition_handle GuardConditionCapacity c handle) eqn:Hv; [|done].
  destruct (valid_guard_slot c handle H0 Hv) as (slot & Hm & Hi & Hu & _).
  cbn [negb stop_if mbind outcome_bind]. rewrite Hm, Hi. cbn [access mbind outcome_bind].
  rewrite (store_at _ _ slot) by done. cbn [access mbind outcome_bind].
  by rewrite !advance_atomic_next.
Qed.

Lemma trigger_ok c handle c' :
  context_ok c -> 0 <= h_slot handle ->
  trigger_guard_condition GuardConditionCapacity c handle = Done c' ->
  context_ok c' /\ nodes_ c' = nodes_ c /\ context_generation_ c' = context_generation_ c.
Proof.
  intros Hc H0. rewrite trigger_exact by done.
  destruct (in_states (state_ c) _) eqn:Hst; [|done].
  destruct (valid_guard_condition_handle GuardConditionCapacity c handle) eqn:Hv; [|done].
  destruct (valid_guard_slot c handle H0 Hv) as (slot & _ & Hi & Hu & _). cbn [negb]. rewrite Hi.
  intros [= <-]. split; [|done]. apply with_wake_ok.
  pose proof (ao_guard_slots c Hc) as Hs. rewrite Forall_forall in Hs.
  destruct (Hs slot ltac:(by eapply list_elem_of_lookup_2)) as (T1 & G1 & U1).
  assert (state_ c <> zero) as Hz by (by apply (states_not_zero _ _ Hst)).
  pose proof (with_guards_ok c (Z.to_nat (h_slot handle)) slot (triggered slot) (state_ c)) as Hok.
  cbn [triggered g_used] in Hok. rewrite Z.sub_add in Hok.
  assert (forall c0, with_state c0 (state_ c0) = c0) as Hid by by intros [].
  rewrite <- (Hid (with_guards c _ _)). apply Hok; try done.
  - pose proof (next_wake_range _ T1). unfold guard_slot_ok. cbn. split_and!; done || lia.
  - by pose proof (ao_limits c Hc Hz) as [_ [? _]].
  - apply Hc.
Qed.

Lemma initialize_ok c config c' :
  context_ok c -> config_ok config ->
  initialize NodeCapacity GuardConditionCapacity c config = Done c' ->
  context_ok c' /\ nodes_ c' = nodes_ c.
Proof.
  intros Hc (C1 & C2 & C3) Hi. unfold initialize in Hi. inv_done. split; [|done].
  apply negb_false_iff, bool_decide_eq_true in H, H1. apply Z.ltb_ge in H2.
  destruct Hc as [L1 L2 S1 S2 N1 N2 P Lim D G]. rewrite H in P.
  assert (node_count_ c = 0 /\ guard_condition_count_ c = 0) as [Z1 Z2].
  { destruct (Z.eqb_spec (node_count_ c) 0), (Z.eqb_spec (guard_condition_count_ c) 0); done. }
  unfold validate in H1.
  destruct (Z.eqb_spec (max_nodes (limits config)) 0), (Z.eqb_spec (max_guard_conditions (limits config)) 0),
    (Z.ltb_spec NodeCapacity (max_nodes (limits config))),
    (Z.ltb_spec GuardConditionCapacity (max_guard_conditions (limits config))); try done.
  split; cbn [nodes_ guard_conditions_ limits_ node_count_ guard_condition_count_
    context_generation_ domain_id_ state_]; try done.
  - intros _. lia.
  - pose proof (next_generation_range _ G). lia.
Qed.

Lemma shutdown_ok c c' :
  context_ok c -> shutdown c = Done c' -> context_ok c' /\ nodes_ c' = nodes_ c.
Proof.
  intros Hc Hs. unfold shutdown in Hs. inv_done. split; [|done]. apply with_wake_ok.
  apply negb_false_iff in H. assert (state_ c <> zero) as Hz by (by apply (states_not_zero _ _ H)).
  destruct Hc as [L1 L2 S1 S2 N1 N2 P Lim D G].
  split; cbn [with_state nodes_ guard_conditions_ limits_ node_count_ guard_condition_count_
    context_generation_ domain_id_ state_]; try done.
  - by destruct ((node_count_ c =? 0) && (guard_condition_count_ c =? 0)).
  - intros _. by apply Lim.
Qed.

Lemma finalize_ok c c' :
  context_ok c -> finalize c = Done c' -> context_ok c' /\ nodes_ c' = nodes_ c.
Proof.
  intros Hc Hs. unfold finalize in Hs. inv_done. split; [|done].
  apply negb_false_iff, bool_decide_eq_true in H.
  destruct Hc as [L1 L2 S1 S2 N1 N2 P Lim D G]. rewrite H in P. by split.
Qed.

Lemma adapter_step_ok c c' : context_ok c -> adapter_step c c' -> context_ok c'.
Proof.
  intros Hc Hstep. destruct Hstep as [config c' H1 H2|c' H|c' H|m1 m2 s1 s2 c' h H1 H2 L1 L2 H
    |h c' H0 H|c' h H|h c' H0 H|h c' H0 H].
  - by apply initialize_ok in H2 as [? _].
  - by apply shutdown_ok in H as [? _].
  - by apply finalize_ok in H as [? _].
  - by apply (create_node_ok c m1 m2 s1 s2) in H as [? _].
  - by apply destroy_node_ok in H as [? _].
  - by apply create_guard_ok in H as [? _].
  - by apply destroy_guard_ok in H as [? _].
  - by apply trigger_ok in H as [? _].
Qed.

(** ** Stale handles *)

(** [i]'s slot has been used again [j <= k] times since generation [g] was released. *)
Definition reused (k : nat) (i : nat) (g : Z) (nodes : list NodeSlot) : Prop :=
  exists slot j, nodes !! i = Some slot /\ (j <= k)%nat /\
    n_generation slot = Nat.iter j next_generation g /\ (j = 0%nat -> n_used slot = false).

Lemma reused_mono k k' i g nodes : (k <= k')%nat -> reused k i g nodes -> reused k' i g nodes.
Proof. intros Hk (slot & j & H1 & H2 & H3). exists slot, j. split; [done|]. split; [lia|done]. Qed.

Lemma reused_step k i g c c' :
  context_ok c -> adapter_step c c' -> reused k i g (nodes_ c) -> reused (S k) i g (nodes_ c').
Proof.
  intros Hc Hstep Hr. pose proof (reused_mono k (S k) i g _ ltac:(lia) Hr) as HrS.
  destruct Hstep as [config c' H1 H2|c' H|c' H|m1 m2 s1 s2 c' h H1 H2 L1 L2 H
    |h c' H0 H|c' h H|h c' H0 H|h c' H0 H].
  - by apply initialize_ok in H2 as [_ ->].
  - by apply shutdown_ok in H as [_ ->].
  - by apply finalize_ok in H as [_ ->].
  - apply (create_node_ok c m1 m2 s1 s2) in H as (_ & i' & slot' & Hi' & _ & -> & _); [|done..].
    destruct Hr as (slot & j & Hi & Hj & Hg' & _). destruct (decide (i' = i)) as [->|Hne].
    + assert (slot' = slot) as -> by congruence.
      exists (named_node slot s1 s2), (S j). split_and!; [|lia|by cbn; rewrite Hg'|done].
      apply list_lookup_insert_eq. by apply lookup_lt_Some in Hi.
    + destruct HrS as (slot0 & j0 & Hi0 & ?). exists slot0, j0.
      by rewrite list_lookup_insert_ne.
  - apply destroy_node_ok in H as (_ & _ & slot' & Hi' & _ & _ & -> & _); [|done..].
    destruct HrS as (slot & j & Hi & Hj & Hg' & Hu).
    destruct (decide (Z.to_nat (h_slot h) = i)) as [Heq|Hne].
    + rewrite Heq in *. assert (slot' = slot) as -> by congruence.
      exists (cleared_node slot), j. split_and!; [|done..].
      apply list_lookup_insert_eq. by apply lookup_lt_Some in Hi.
    + exists slot, j. by rewrite list_lookup_insert_ne.
  - by apply create_guard_ok in H as (_ & -> & _).
  - by apply destroy_guard_ok in H as (_ & -> & _).
  - by apply trigger_ok in H as (_ & -> & _).
Qed.

Lemma reused_steps n : forall k i g c c',
  context_ok c -> nsteps adapter_step n c c' -> reused k i g (nodes_ c) ->
  reused (k + n) i g (nodes_ c').
Proof.
  induction n as [|n IH]; intros k i g c c' Hc Hsteps Hr.
  - inversion Hsteps; subst. by rewrite Nat.add_0_r.
  - inversion Hsteps as [|? ? c1 ? Hstep Hrest]; subst.
    rewrite <- Nat.add_succ_comm. apply (IH (S k) i g c1); [by eapply adapter_step_ok|done|].
    by apply (reused_step k i g c).
Qed.

(** The triggers of a guard condition. *)
Inductive triggered_times (handle : Handle) : nat -> AdapterContext -> AdapterContext -> Prop :=
  | triggered_none c : triggered_times handle 0 c c
  | triggered_again n c c1 c' :
      trigger_guard_condition GuardConditionCapacity c handle = Done c1 ->
      triggered_times handle n c1 c' -> triggered_times handle (S n) c c'.

(** A trigger changes nothing but the counter of the slot and the wake counter. *)
Lemma trigger_slot c handle c' slot :
  0 <= h_slot handle -> guard_conditions_ c !! Z.to_nat (h_slot handle) = Some slot ->
  trigger_guard_condition GuardConditionCapacity c handle = Done c' ->
  guard_conditions_ c' !! Z.to_nat (h_slot handle) = Some (triggered slot) /\
  state_ c' = state_ c /\ context_generation_ c' = context_generation_ c.
Proof.
  intros H0 Hi. rewrite trigger_exact by done. do 2 (case_match; [done|]). rewrite Hi.
  intros [= <-]. split; [|done]. apply list_lookup_insert_eq. by apply lookup_lt_Some in Hi.
Qed.

Lemma triggered_slot handle n c c' : triggered_times handle n c c' -> forall slot,
  0 <= h_slot handle -> guard_conditions_ c !! Z.to_nat (h_slot handle) = Some slot ->
  (exists slot', guard_conditions_ c' !! Z.to_nat (h_slot handle) = Some slot' /\
    trigger_generation slot' = Nat.iter n next_wake (trigger_generation slot) /\
    g_generation slot' = g_generation slot /\ g_used slot' = g_used slot) /\
  state_ c' = state_ c /\ context_generation_ c' = context_generation_ c.
Proof.
  induction 1 as [c|n c c1 c' Hstep Hrest IH]; intros slot H0 Hi; [split; [by exists slot|done]|].
  destruct (trigger_slot c handle c1 slot H0 Hi Hstep) as (Hi1 & <- & <-).
  destruct (IH (triggered slot) H0 Hi1) as [(slot' & Hi' & Ht & Hr) Hs].
  split; [|done]. exists slot'. by rewrite Nat.iter_succ_r.
Qed.

Lemma observe_exact c handle last :
  0 <= h_slot handle ->
  observe_guard_condition GuardConditionCapacity c handle last =
  if negb (in_states (state_ c) [initialized; active]) then Stop invalid_state
  else if negb (valid_guard_condition_handle GuardConditionCapacity c handle) then Stop stale_handle
  else match guard_conditions_ c !! Z.to_nat (h_slot handle) with
       | Some slot => Done (trigger_generation slot, negb (trigger_generation slot =? last))
       | None => Fault
       end.
Proof.
  intros H0. unfold observe_guard_condition. destruct (in_states _ _); [|done].
  destruct (valid_guard_condition_handle GuardConditionCapacity c handle) eqn:Hv; [|done].
  destruct (valid_guard_slot c handle H0 Hv) as (slot & Hm & Hi & _).
  cbn [negb stop_if mbind outcome_bind]. by rewrite Hm, Hi.
Qed.

(** C35: The invariant of an adapter context over every sequence of its calls: the
    counters are the numbers of used slots and never exceed the configured limits,
    which never exceed the capacities; nodes and guard conditions exist exactly in the
    states [active] and [shutting_down], so a context is [finalizable] (or [zero])
    only when all of them are gone; names stay within their arrays and every used slot
    has a nonzero generation. *)
Theorem adapter_invariant c :
  rtc adapter_step
    (AdapterContext_new NodeCapacity GuardConditionCapacity MaxNodeNameBytes MaxNamespaceBytes) c ->
  context_ok c.
Proof.
  intros Hsteps. refine (rtc_ind_r context_ok _ new_context_ok _ c Hsteps).
  intros c1 c2 _ Hstep Hc1. by apply (adapter_step_ok c1).
Qed.

(** Node handles.  A handle handed out by [create_node] is valid and its slot holds
    the given name and namespace, NUL-terminated.  Once [destroy_node] has accepted a
    handle it stays invalid through every following sequence of fewer than [2^32 - 1]
    calls, however often its slot is used again: no later node can be reached, and so
    none can be destroyed, through it. *)
Theorem node_handles c :
  context_ok c ->
  (forall m1 m2 s1 s2 c' handle, cstring (Some m1) s1 -> cstring (Some m2) s2 ->
     zlen s1 < 2 ^ 63 -> zlen s2 < 2 ^ 63 ->
     create_node MaxNodeNameBytes MaxNamespaceBytes c (Some m1) (Some m2) = Done (c', handle) ->
     valid_node_handle NodeCapacity c' handle = true /\
     exists slot, mload (nodes_ c') (h_slot handle) = Some slot /\
       holds_name MaxNodeNameBytes (name slot) s1 /\
       holds_name MaxNamespaceBytes (name_space slot) s2) /\
  (forall handle c' n c'', 0 <= h_slot handle ->
     destroy_node NodeCapacity c handle = Done c' -> nsteps adapter_step n c' c'' ->
     Z.of_nat n < u32_max -> valid_node_handle NodeCapacity c'' handle = false).
Proof.
  intros Hc. split.
  - intros m1 m2 s1 s2 c' handle H1 H2 L1 L2 Hcreate.
    destruct (create_node_ok c m1 m2 s1 s2 c' handle) as (Hc' & i & slot & Hi & _ & Hnodes & Hgen & ->);
      [done..|].
    pose proof (lookup_lt_Some _ _ _ Hi) as Hlt. pose proof (ao_nodes c Hc) as HN.
    assert (mload (nodes_ c') (Z.of_nat i) = Some (named_node slot s1 s2)) as Hm.
    { apply mload_Some. split; [lia|]. rewrite Nat2Z.id, Hnodes. by apply list_lookup_insert_eq. }
    split.
    + unfold valid_node_handle. cbn [h_slot h_context_generation slot_generation].
      rewrite Hgen, Z.eqb_refl, Hm. destruct (Z.leb_spec NodeCapacity (Z.of_nat i)); [lia|].
      cbn. by rewrite Z.eqb_refl.
    + exists (named_node slot s1 s2). split; [done|].
      pose proof (ao_node_slots c' Hc') as Hs. rewrite Forall_forall in Hs.
      destruct (Hs (named_node slot s1 s2)) as (N1 & N2 & _).
      { apply mload_Some in Hm as [_ Hm]. by eapply list_elem_of_lookup_2. }
      split; (split; [done|by eexists]).
  - intros handle c' n c'' H0 Hdestroy Hsteps Hlt.
    destruct (destroy_node_ok c handle c') as (Hc' & _ & slot & Hi & Hgen & Hu & Hnodes & _); [done..|].
    assert (reused 0 (Z.to_nat (h_slot handle)) (slot_generation handle) (nodes_ c')) as Hr.
    { exists (cleared_node slot), 0%nat. split_and!; [|done|by cbn|done]. rewrite Hnodes.
      apply list_lookup_insert_eq. by apply lookup_lt_Some in Hi. }
    destruct (reused_steps n _ _ _ _ _ Hc' Hsteps Hr) as (slot' & j & Hi' & Hj & Hg' & Hj0).
    unfold valid_node_handle. case_match; [done|]. destruct (mload _ _) as [x|] eqn:Hm; [|done].
    apply mload_Some in Hm as [_ Hm]. assert (x = slot') as -> by congruence.
    destruct j as [|j]; [by rewrite Hj0|]. apply andb_false_iff. right. apply Z.eqb_neq.
    rewrite Hg'. apply generations_distinct; [|lia..].
    pose proof (ao_node_slots c Hc) as Hs. rewrite Forall_forall in Hs.
    destruct (Hs slot ltac:(by eapply list_elem_of_lookup_2)) as (_ & _ & G1 & _). lia.
Qed.

(** A guard-condition trigger is not lost: an observer that saw the counter, and
    asks again after the condition has been triggered at least once (and fewer than
    [2^64 - 1] times) through the same handle, gets an answer, and the answer is that
    it is ready. *)
Theorem guard_trigger_seen c handle last current ready n c' :
  context_ok c -> 0 <= h_slot handle ->
  observe_guard_condition GuardConditionCapacity c handle last = Done (current, ready) ->
  triggered_times handle n c c' -> (0 < n)%nat -> Z.of_nat n < size_max ->
  exists current',
    observe_guard_condition GuardConditionCapacity c' handle current = Done (current', true).
Proof.
  intros Hc H0. rewrite !observe_exact by done.
  destruct (in_states (state_ c) _) eqn:Hst; [|done].
  destruct (valid_guard_condition_handle GuardConditionCapacity c handle) eqn:Hv; [|done].
  destruct (valid_guard_slot c handle H0 Hv) as (slot & _ & Hi & Hu & Hgen). cbn [negb].
  rewrite Hi. intros [= <- _] Htr Hn0 Hlt.
  destruct (triggered_slot handle n c c' Htr slot H0 Hi) as [(slot' & Hi' & Ht & Hg' & Hu') [-> Hcg]].
  assert (valid_guard_condition_handle GuardConditionCapacity c' handle = true) as ->.
  { unfold valid_guard_condition_handle in *. rewrite Hcg. case_match; [done|].
    assert (mload (guard_conditions_ c') (h_slot handle) = Some slot') as -> by (by apply mload_Some).
    rewrite Hu', Hu, Hg', Hgen. by rewrite Z.eqb_refl. }
  rewrite Hst, Hi'. cbn [negb]. eexists. f_equal. f_equal. apply negb_true_iff, Z.eqb_neq.
  rewrite Ht. apply wakes_distinct; [|done..].
  pose proof (ao_guard_slots c Hc) as Hs. rewrite Forall_forall in Hs.
  by destruct (Hs slot ltac:(by eapply list_elem_of_lookup_2)) as (T1 & _).
Qed.

End Invariant.

(** ** A concrete context *)

Definition demo_config : AdapterConfig :=
  {| limits := {| max_nodes := 2; max_guard_conditions := 2 |}; domain_id := 7;
     implementation_identifier := Some kImplementationIdentifier |}.
Definition demo_new : AdapterContext := AdapterContext_new 2 2 4 4.
Definition or_new {E A} (m : outcome E A) (d : A) : A := match m with Done a => a | _ => d end.
Definition demo_initialized : AdapterContext := Eval vm_compute in
  or_new (initialize 2 2 demo_new demo_config) demo_new.
Definition demo_node : AdapterContext * Handle := Eval vm_compute in
  or_new (create_node 4 4 demo_initialized (Some [110; 0]) (Some [47; 0]))
    (demo_new, {| h_slot := 0; slot_generation := 0; h_context_generation := 0 |}).
Definition demo_guard : AdapterContext * Handle := Eval vm_compute in
  or_new (create_guard_condition demo_node.1) demo_node.
Definition demo_triggered : AdapterContext := Eval vm_compute in
  or_new (trigger_guard_condition 2 demo_guard.1 demo_guard.2) demo_guard.1.

Lemma demo_string c : c <> 0 -> cstring (Some [c; 0]) [c].
Proof. intros Hc. exists []. split; [done|]. by repeat constructor. Qed.

Lemma demo_context_steps :
  adapter_step 2 2 4 4 demo_new demo_initialized /\
  adapter_step 2 2 4 4 demo_initialized demo_node.1 /\
  adapter_step 2 2 4 4 demo_node.1 demo_guard.1.
Proof.
  split_and!.
  - by apply (step_initialize 2 2 4 4 _ demo_config); [|vm_compute].
  - by apply (step_create_node 2 2 4 4 _ [110; 0] [47; 0] [110] [47] _ demo_node.2);
      [apply demo_string|apply demo_string|..|vm_compute].
  - by apply (step_create_guard 2 2 4 4 _ _ demo_guard.2); vm_compute.
Qed.

Lemma adapter_invariant_witness : context_ok 2 2 4 4 demo_guard.1.
Proof.
  destruct demo_context_steps as (H1 & H2 & H3).
  apply (adapter_invariant 2 2 4 4); [lia..|].
  apply (rtc_l _ _ demo_initialized); [done|]. apply (rtc_l _ _ demo_node.1); [done|].
  by apply rtc_once.
Defined.

Lemma demo_context_ok : context_ok 2 2 4 4 demo_node.1 /\ context_ok 2 2 4 4 demo_guard.1.
Proof.
  destruct demo_context_steps as (H1 & H2 & H3).
  assert (context_ok 2 2 4 4 demo_new) as H0 by (apply new_context_ok; lia).
  assert (context_ok 2 2 4 4 demo_initialized) as Hi by (by eapply (adapter_step_ok 2 2 4 4); [lia..| |]).
  assert (context_ok 2 2 4 4 demo_node.1) as Hn by (by eapply (adapter_step_ok 2 2 4 4); [lia..| |]).
  split; [done|]. by eapply (adapter_step_ok 2 2 4 4); [lia..| |].
Qed.

Lemma node_handles_witness :
  exists c', destroy_node 2 demo_node.1 demo_node.2 = Done c' /\
    valid_node_handle 2 c' demo_node.2 = false.
Proof.
  eexists. split; [vm_compute; reflexivity|].
  destruct (node_handles 2 2 4 4 ltac:(lia) ltac:(lia) ltac:(lia) ltac:(lia) demo_node.1
    (proj1 demo_context_ok)) as [_ H].
  eapply (H demo_node.2 _ 0%nat); [done|vm_compute; reflexivity|constructor|done].
Defined.

Lemma guard_trigger_seen_witness :
  exists current', observe_guard_condition 2 demo_triggered demo_guard.2 0 = Done (current', true).
Proof.
  apply (guard_trigger_seen 2 2 4 4 demo_guard.1 demo_guard.2 0 0 false 1 demo_triggered
    (proj2 demo_context_ok)); [done|by vm_compute| |lia|done].
  by apply (triggered_again 2 _ 0 _ demo_triggered); [vm_compute|constructor].
Defined.

End FoundationFacts.
