(* ===== verification/Introspection.v ===== *)
(** * The introspection interface of ROS 2

    [rmw_openrtdds_cpp/src/type_support.cpp] and [xcdr1_codec.cpp] walk over descriptors
    that the ROS 2 interface generator produces ([rosidl_typesupport_introspection_c] and
    [_cpp], not part of the repository) and over the messages those describe.  This file
    holds the data both sides share: the fields of a descriptor that the adapter reads, the
    generated accessors as functions a descriptor carries, and the memory of a message.

    The C and the C++ descriptors have the same fields; the adapter's templates are
    instantiated with both, and differ only in how a string is stored. *)
From stdpp Require Import list.
From S2P Require Import Prelude.

Module Introspection.

#[local] Set Warnings "-register-all".

(** ** The memory of a message

    An object of arithmetic type is its object representation, an unsigned integer of
    [width] bytes; [memcpy] to and from it keeps the bits.  [rosidl_runtime_c__String] has
    a pointer to [capacity] or more characters, [std::string] its characters and capacity.
    An array or sequence holds its elements and is reached through the accessors of its
    descriptor only.  A message holds its fields by their offsets. *)
Inductive storage : Type :=
  | Boolean (value : bool)
  | Scalar (width bits : Z)
  | CString (data : option (list Z)) (size : N) (capacity : Z)
  | CppString (chars : list Z) (capacity : Z)
  | Array (elements : list storage)
  | Struct (fields : list (Z * storage)).

Fixpoint lookup_field (fields : list (Z * storage)) (offset : Z) : option storage :=
  match fields with
  | [] => None
  | (o, s) :: fields' => if o =? offset then Some s else lookup_field fields' offset
  end.

Fixpoint update_field (fields : list (Z * storage)) (offset : Z) (s : storage)
    : list (Z * storage) :=
  match fields with
  | [] => []
  | (o, s') :: fields' =>
      if o =? offset then (o, s) :: fields' else (o, s') :: update_field fields' offset s
  end.

(** [static_cast<uint8_t*>(message) + offset], read and written. *)
Definition field_at (message : storage) (offset : Z) : option storage :=
  match message with Struct fields => lookup_field fields offset | _ => None end.

Definition set_field (message : storage) (offset : Z) (field : storage) : storage :=
  match message with Struct fields => Struct (update_field fields offset field) | s => s end.

(** ** Descriptors *)

(** The type ids the adapter names; [ROS_TYPE_other] stands for every other id
    ([LONG_DOUBLE], [WCHAR], [WSTRING] and unknown values). *)
Inductive ros_type : Set :=
  | ROS_TYPE_BOOLEAN | ROS_TYPE_CHAR | ROS_TYPE_OCTET | ROS_TYPE_UINT8 | ROS_TYPE_INT8
  | ROS_TYPE_UINT16 | ROS_TYPE_INT16 | ROS_TYPE_FLOAT | ROS_TYPE_UINT32 | ROS_TYPE_INT32
  | ROS_TYPE_DOUBLE | ROS_TYPE_UINT64 | ROS_TYPE_INT64 | ROS_TYPE_STRING
  | ROS_TYPE_MESSAGE | ROS_TYPE_other (id : Z).

#[global] Instance ros_type_eq_dec : EqDecision ros_type.
Proof. solve_decision. Defined.

(** [rosidl_message_type_support_t]: [data] is the address of a member table, [func]
    whether the dispatch function is present. *)
Record type_support : Type := {
  typesupport_identifier : option (list Z);
  data : option Z;
  func : bool;
}.

(** [MessageMember].  [get_function] hands out a pointer to an element, here the element
    and what the field becomes when the element is overwritten; [fetch_function] copies an
    element out, [assign_function] copies one in. *)
Record MessageMember : Type := {
  name_ : option (list Z);
  type_id_ : ros_type;
  string_upper_bound_ : Z;
  members_ : option type_support;
  is_array_ : bool;
  array_size_ : Z;
  is_upper_bound_ : bool;
  m_offset_ : Z;
  size_function : option (storage -> Z);
  get_const_function : option (storage -> Z -> option storage);
  get_function : option (storage -> Z -> option (storage * (storage -> storage)));
  fetch_function : option (storage -> Z -> storage);
  assign_function : option (storage -> Z -> storage -> storage);
}.

(** [MessageMembers] *)
Record MessageMembers : Type := {
  message_namespace_ : option (list Z);
  message_name_ : option (list Z);
  member_count_ : Z;
  size_of_ : Z;
  member_table_ : option (list MessageMember);
}.

(** What the adapter uses of the ROS 2 libraries: the two identifiers, the member tables in
    memory, and [get_message_typesupport_handle]. *)
Class RosRuntime : Type := {
  c_identifier : list Z;
  cpp_identifier : list Z;
  members_at : Z -> MessageMembers;
  get_message_typesupport_handle : type_support -> list Z -> option type_support;
}.

(** ** What the generator promises *)

(** The memory behind a [const char*] ends its text with a NUL. *)
Definition terminated (text : list Z) : Prop := 0 ∈ text.

(** The accessors of an array field behave as those of an array. *)
Record lawful_accessors (m : MessageMember) : Prop := {
  la_size size l : size_function m = Some size -> size (Array l) = zlen l;
  la_get_const get l i : get_const_function m = Some get -> get (Array l) i = mload l i;
  la_get get l i x : get_function m = Some get -> mload l i = Some x ->
    exists put, get (Array l) i = Some (x, put) /\
      forall y, put y = Array (<[Z.to_nat i := y]> l);
  la_fetch fetch l i x : fetch_function m = Some fetch -> mload l i = Some x ->
    fetch (Array l) i = x;
  la_assign assign l i x y : assign_function m = Some assign -> mload l i = Some x ->
    assign (Array l) i y = Array (<[Z.to_nat i := y]> l);
}.

(** The accessors the generator provides: pointers to the elements, or, for booleans that
    are packed into bits, copies. *)
Definition complete_accessors (m : MessageMember) : Prop :=
  is_Some (size_function m) /\
  ((is_Some (get_const_function m) /\ is_Some (get_function m)) \/
   (type_id_ m = ROS_TYPE_BOOLEAN /\ is_Some (fetch_function m) /\
    is_Some (assign_function m))).

(** A member table that matches its counts, with sizes and texts of their C types. *)
Record descriptor_ok (t : MessageMembers) : Prop := {
  do_count : 0 <= member_count_ t < 2 ^ 32;
  do_table l : member_table_ t = Some l -> zlen l = member_count_ t;
  do_namespace s : message_namespace_ t = Some s -> terminated s;
  do_name s : message_name_ t = Some s -> terminated s;
  do_members l m : member_table_ t = Some l -> m ∈ l ->
    0 <= array_size_ m < 2 ^ 64 /\ 0 <= string_upper_bound_ m < 2 ^ 64 /\
    (forall h s, members_ m = Some h -> typesupport_identifier h = Some s ->
       terminated s);
}.

(** Generated descriptors, with array accessors where fields are arrays. *)
Class GeneratedTypes `{RosRuntime} : Prop := {
  gt_c_identifier : terminated c_identifier;
  gt_cpp_identifier : terminated cpp_identifier;
  gt_tables p : descriptor_ok (members_at p);
  gt_accessors p l m : member_table_ (members_at p) = Some l -> m ∈ l ->
    is_array_ m = true -> lawful_accessors m /\ complete_accessors m;
}.

(** ** Lemmas on fields *)

Lemma lookup_update_field l o o' s s' :
  lookup_field l o = Some s' ->
  lookup_field (update_field l o s) o' = if o' =? o then Some s else lookup_field l o'.
Proof.
  induction l as [|[k x] l IH]; simpl; [done|]. intros Hl.
  destruct (Z.eqb_spec k o) as [->|Hk]; simpl.
  - rewrite (Z.eqb_sym o o'). by destruct (Z.eqb_spec o' o).
  - rewrite IH by done. destruct (Z.eqb_spec k o'); [|done].
    by destruct (Z.eqb_spec o' o); [lia|].
Qed.

Lemma field_set_field s o o' x y :
  field_at s o = Some y ->
  field_at (set_field s o x) o' = if o' =? o then Some x else field_at s o'.
Proof. destruct s; simpl; try done. apply lookup_update_field. Qed.

(** ** The shape of a message: what writing values into it does not change *)

Fixpoint shape (s : storage) : storage :=
  match s with
  | Boolean _ => Boolean false
  | Scalar w _ => Scalar w 0
  | CString d _ c => CString ((fun b => replicate (length b) 0) <$> d) 0%N c
  | CppString _ c => CppString [] c
  | Array l => Array (map shape l)
  | Struct l => Struct (map (fun kv => (kv.1, shape kv.2)) l)
  end.

Lemma lookup_field_shape l o :
  lookup_field (map (fun kv => (kv.1, shape kv.2)) l) o = shape <$> lookup_field l o.
Proof. induction l as [|[k x] l IH]; simpl; [done|]. by destruct (k =? o). Qed.

Lemma field_at_shape s o : field_at (shape s) o = shape <$> field_at s o.
Proof. destruct s; simpl; try done. apply lookup_field_shape. Qed.

Lemma shape_field s s' o x :
  shape s = shape s' -> field_at s o = Some x ->
  exists x', field_at s' o = Some x' /\ shape x = shape x'.
Proof.
  intros Hs Hx. pose proof (field_at_shape s o) as H1. rewrite Hx, Hs, field_at_shape in H1.
  destruct (field_at s' o) as [x'|]; simplify_eq/=. by exists x'.
Qed.

Lemma shape_set_field s o x y :
  field_at s o = Some y -> shape x = shape y -> shape (set_field s o x) = shape s.
Proof.
  destruct s as [| | | | |l]; simpl; try done. intros Hl Hx. f_equal.
  induction l as [|[k z] l IH]; simpl in *; [done|].
  destruct (k =? o); simplify_eq/=; [by rewrite Hx|]. by rewrite IH.
Qed.

Lemma shape_insert l (i : nat) x y :
  l !! i = Some y -> shape x = shape y -> map shape (<[i := x]> l) = map shape l.
Proof.
  intros Hl Hx. change (shape <$> <[i := x]> l = shape <$> l). rewrite list_fmap_insert, Hx.
  apply list_insert_id. by rewrite list_lookup_fmap, Hl.
Qed.

Lemma shape_lookup l l' (i : nat) x :
  map shape l = map shape l' -> l !! i = Some x ->
  exists x', l' !! i = Some x' /\ shape x = shape x'.
Proof.
  intros Hs Hx. assert ((shape <$> l) !! i = (shape <$> l') !! i) as H by (by f_equal).
  rewrite !list_lookup_fmap, Hx in H. destruct (l' !! i) as [x'|]; simplify_eq/=. by exists x'.
Qed.

End Introspection.
