(* ===== verification/SampleTypes.v ===== *)
(** * The message types of the repository's codec tests

    [rmw_openrtdds_cpp/test/test_xcdr1_codec.cpp] builds descriptors by hand: a C message
    with scalars, a bounded string, a fixed array, a bounded sequence and a nested message,
    and a C++ message with a [std::vector<bool>].  They instantiate the introspection
    interface, together with a table that refers to itself. *)
From stdpp Require Import list.
From S2P Require Import Prelude Introspection.

Module SampleTypes.
Import Introspection.

Definition text (s : string) : list Z :=
  map (fun a => Z.of_nat (Ascii.nat_of_ascii a)) (String.list_ascii_of_string s) ++ [0].

Definition elements (s : storage) : list storage :=
  match s with Array l => l | _ => [] end.

(** A field that is not an array. *)
Definition plain (name : string) (t : ros_type) (offset bound : Z)
    (nested : option type_support) : MessageMember :=
  {| name_ := Some (text name); type_id_ := t; string_upper_bound_ := bound;
     members_ := nested; is_array_ := false; array_size_ := 0; is_upper_bound_ := false;
     m_offset_ := offset; size_function := None; get_const_function := None;
     get_function := None; fetch_function := None; assign_function := None |}.

Definition element_pointer (s : storage) (i : Z) : option (storage * (storage -> storage)) :=
  (fun x => (x, fun y => Array (<[Z.to_nat i := y]> (elements s)))) <$> mload (elements s) i.

(** An array with pointers to its elements. *)
Definition array_of (name : string) (t : ros_type) (offset size : Z) (bounded : bool)
    : MessageMember :=
  {| name_ := Some (text name); type_id_ := t; string_upper_bound_ := 0;
     members_ := None; is_array_ := true; array_size_ := size; is_upper_bound_ := bounded;
     m_offset_ := offset; size_function := Some (fun s => zlen (elements s));
     get_const_function := Some (fun s i => mload (elements s) i);
     get_function := Some element_pointer; fetch_function := None;
     assign_function := None |}.

(** A [std::vector<bool>]. *)
Definition bool_vector (name : string) (offset size : Z) : MessageMember :=
  {| name_ := Some (text name); type_id_ := ROS_TYPE_BOOLEAN; string_upper_bound_ := 0;
     members_ := None; is_array_ := true; array_size_ := size; is_upper_bound_ := true;
     m_offset_ := offset; size_function := Some (fun s => zlen (elements s));
     get_const_function := None; get_function := None;
     fetch_function := Some (fun s i => default (Boolean false) (mload (elements s) i));
     assign_function :=
       Some (fun s i x => Array (<[Z.to_nat i := x]> (elements s))) |}.

Definition sample_c : list Z := text "rosidl_typesupport_introspection_c".
Definition sample_cpp : list Z := text "rosidl_typesupport_introspection_cpp".

Definition handle_of (identifier : list Z) (table : Z) : type_support :=
  {| typesupport_identifier := Some identifier; data := Some table; func := false |}.

Definition table_with (ns name : string) (size : Z) (fields : list MessageMember)
    : MessageMembers :=
  {| message_namespace_ := Some (text ns); message_name_ := Some (text name);
     member_count_ := zlen fields; size_of_ := size; member_table_ := Some fields |}.

Definition c_fields : list MessageMember :=
  [plain "count" ROS_TYPE_UINT32 0 0 None; plain "stamp" ROS_TYPE_DOUBLE 8 0 None;
   plain "frame" ROS_TYPE_STRING 16 5 None; array_of "flags" ROS_TYPE_UINT8 40 3 false;
   array_of "samples" ROS_TYPE_INT16 48 2 true;
   plain "child" ROS_TYPE_MESSAGE 72 0 (Some (handle_of sample_c 2))].

Definition cpp_fields : list MessageMember :=
  [plain "count" ROS_TYPE_UINT32 0 0 None; plain "frame" ROS_TYPE_STRING 8 8 None;
   bool_vector "enabled" 40 3].

Definition sample_table (address : Z) : MessageMembers :=
  if address =? 1 then table_with "codec_msgs__msg" "Bounded" 80 c_fields
  else if address =? 2 then
    table_with "codec_msgs__msg" "Child" 4 [plain "value" ROS_TYPE_UINT32 0 0 None]
  else if address =? 3 then table_with "codec_msgs::msg" "CppBounded" 80 cpp_fields
  else if address =? 4 then
    table_with "codec_msgs__msg" "Node" 16
      [plain "next" ROS_TYPE_MESSAGE 0 0 (Some (handle_of sample_c 4))]
  else table_with "" "" 0 [].

#[export] Instance sample_runtime : RosRuntime := {
  c_identifier := sample_c;
  cpp_identifier := sample_cpp;
  members_at := sample_table;
  get_message_typesupport_handle := fun _ _ => None;
}.

Definition c_handle : type_support := handle_of sample_c 1.
Definition cpp_handle : type_support := handle_of sample_cpp 3.
Definition cyclic_handle : type_support := handle_of sample_c 4.

Lemma text_terminated s : terminated (text s).
Proof. unfold terminated, text. set_solver. Qed.

(** The conditions on a field, checked for each field of the tables. *)
Definition field_ok (m : MessageMember) : Prop :=
  (0 <= array_size_ m < 2 ^ 64 /\ 0 <= string_upper_bound_ m < 2 ^ 64 /\
   (forall h s, members_ m = Some h -> typesupport_identifier h = Some s ->
      terminated s)) /\
  (is_array_ m = true -> lawful_accessors m /\ complete_accessors m).

Lemma array_of_ok name t offset size bounded :
  0 <= size < 2 ^ 64 -> field_ok (array_of name t offset size bounded).
Proof.
  intros Hs. split; [split_and!; simpl; (done || lia)|]. intros _. split.
  - split; intros * [= <-]; try done. intros Hx. unfold element_pointer. cbn [elements].
    rewrite Hx. by eexists.
  - split; [by eexists|left; by split; eexists].
Qed.

Lemma bool_vector_ok name offset size :
  0 <= size < 2 ^ 64 -> field_ok (bool_vector name offset size).
Proof.
  intros Hs. split; [split_and!; simpl; (done || lia)|]. intros _. split.
  - split; intros * [= <-]; try done. intros Hx. cbn [elements]. by rewrite Hx.
  - split; [by eexists|right]. split_and!; [done|by eexists..].
Qed.

Lemma plain_ok name t offset bound nested :
  0 <= bound < 2 ^ 64 ->
  (forall h s, nested = Some h -> typesupport_identifier h = Some s -> terminated s) ->
  field_ok (plain name t offset bound nested).
Proof. intros Hb Hn. split; [split_and!; simpl; (done || lia)|done]. Qed.

Lemma sample_fields address l m :
  member_table_ (sample_table address) = Some l -> m ∈ l -> field_ok m.
Proof.
  assert (forall i (x : Z), typesupport_identifier (handle_of i x) = Some i) as Hid by done.
  unfold sample_table. intros Hl. revert m. apply Forall_forall.
  repeat case_match; injection Hl as <-; unfold c_fields, cpp_fields;
    repeat first [apply Forall_nil_2 | apply Forall_cons_2];
    first [apply array_of_ok | apply bool_vector_ok | apply plain_ok]; try lia; try done;
    intros h s [= <-] [= <-]; apply text_terminated.
Qed.

#[export] Instance sample_generated : GeneratedTypes.
Proof.
  split.
  - apply text_terminated.
  - apply text_terminated.
  - intros p. simpl. split.
    + unfold sample_table. repeat case_match; simpl; lia.
    + unfold sample_table. intros l. repeat case_match; by intros [= <-].
    + unfold sample_table. intros s. repeat case_match; intros [= <-]; apply text_terminated.
    + unfold sample_table. intros s. repeat case_match; intros [= <-]; apply text_terminated.
    + intros l m Hl Hm. by apply (sample_fields p l m).
  - intros p l m Hl Hm. by apply (sample_fields p l m).
Qed.

End SampleTypes.
