(* ===== verification/TypeSupport.v ===== *)
(** * Analysis of ROS message types

    [rmw_openrtdds_cpp/include/rmw_openrtdds_cpp/type_support.hpp] and
    [rmw_openrtdds_cpp/src/type_support.cpp]: the bounded maximum of the XCDR1 encoding of
    a message type, and the DDS names of its topics.

    A function that reports its error through a reference and returns [false] is [Stop] of
    that error; its outputs are then unchanged.  [analyze_members] is recursive through
    descriptors that may be cyclic: its fuel is the nesting limit plus one, and a call that
    runs out of it is a [Fault]. *)
From stdpp Require Import list.
From S2P Require Import Prelude Introspection.

Module TypeSupport.
Import Introspection.

Definition kDdsNameCapacity : Z := 256.
Definition kMaximumTypeNestingDepth : Z := 16.
Definition kXcdr1EncapsulationSize : Z := 4.

Inductive TypeSupportLanguage : Set := introspection_c | introspection_cpp.

#[global] Instance TypeSupportLanguage_eq_dec : EqDecision TypeSupportLanguage.
Proof. solve_decision. Defined.

Inductive TypeSupportError : Set :=
  | ts_none
  | ts_invalid_argument
  | unsupported_identifier
  | invalid_members
  | unsupported_field
  | unbounded_type
  | recursive_type
  | nesting_limit_exceeded
  | ts_arithmetic_overflow
  | sample_limit_exceeded
  | invalid_name
  | name_limit_exceeded.

#[global] Instance TypeSupportError_eq_dec : EqDecision TypeSupportError.
Proof. solve_decision. Defined.

(** [enum class RosChannel : uint8_t]; the code checks for values outside the
    enumerators. *)
Inductive RosChannel : Set :=
  | topic | service_request | service_response | raw_channel (value : Z).

Record TypeSupportInfo : Type := {
  language : TypeSupportLanguage;
  maximum_serialized_size : Z;
  maximum_alignment : Z;
  maximum_nesting_depth : Z;
  dds_type_name : list Z;
}.

Record DdsNames : Type := {
  topic_name : list Z;
  type_name : list Z;
  ros_type_name : list Z;
}.

Definition type_support_error_string (error : TypeSupportError) : string :=
  match error with
  | ts_none => "none"
  | ts_invalid_argument => "invalid_argument"
  | unsupported_identifier => "unsupported_identifier"
  | invalid_members => "invalid_members"
  | unsupported_field => "unsupported_field"
  | unbounded_type => "unbounded_type"
  | recursive_type => "recursive_type"
  | nesting_limit_exceeded => "nesting_limit_exceeded"
  | ts_arithmetic_overflow => "arithmetic_overflow"
  | sample_limit_exceeded => "sample_limit_exceeded"
  | invalid_name => "invalid_name"
  | name_limit_exceeded => "name_limit_exceeded"
  end.

(** ** The analysis *)

Record AnalysisState : Type := {
  offset : Z;
  a_maximum_alignment : Z;
  maximum_depth : Z;
  body_limit : Z;
  stack : list (option Z);
  a_error : TypeSupportError;
}.

Definition AnalysisState_init (limit : Z) : AnalysisState :=
  {| offset := 0; a_maximum_alignment := 1; maximum_depth := 0; body_limit := limit;
     stack := replicate (Z.to_nat kMaximumTypeNestingDepth) None; a_error := ts_none |}.

(** [return fail(state, error);] *)
Definition failed (state : AnalysisState) (error : TypeSupportError) : AnalysisState :=
  {| offset := offset state; a_maximum_alignment := a_maximum_alignment state;
     maximum_depth := maximum_depth state; body_limit := body_limit state;
     stack := stack state; a_error := error |}.

Definition fail_if (c : bool) (state : AnalysisState) (error : TypeSupportError)
    : outcome AnalysisState unit :=
  stop_if c (failed state error).

Definition set_stack (state : AnalysisState) (s : list (option Z)) : AnalysisState :=
  {| offset := offset state; a_maximum_alignment := a_maximum_alignment state;
     maximum_depth := maximum_depth state; body_limit := body_limit state;
     stack := s; a_error := a_error state |}.

Definition append_aligned (state : AnalysisState) (alignment width : Z)
    : outcome AnalysisState AnalysisState :=
  fail_if ((alignment =? 0) || negb (Z.land alignment (sub64 alignment 1) =? 0)) state
    invalid_members;;
  let remainder := offset state mod alignment in
  let padding := if remainder =? 0 then 0 else sub64 alignment remainder in
  fail_if ((sub64 size_max (offset state) <? padding) ||
           (sub64 size_max (add64 (offset state) padding) <? width)) state
    ts_arithmetic_overflow;;
  let next := add64 (add64 (offset state) padding) width in
  fail_if (body_limit state <? next) state sample_limit_exceeded;;
  Done {| offset := next;
          a_maximum_alignment :=
            if a_maximum_alignment state <? alignment then alignment
            else a_maximum_alignment state;
          maximum_depth := maximum_depth state; body_limit := body_limit state;
          stack := stack state; a_error := a_error state |}.

(** [None] is [return false]; otherwise [alignment] and [width]. *)
Definition scalar_layout (type_id : ros_type) : option (Z * Z) :=
  match type_id with
  | ROS_TYPE_BOOLEAN | ROS_TYPE_CHAR | ROS_TYPE_OCTET | ROS_TYPE_UINT8
  | ROS_TYPE_INT8 => Some (1, 1)
  | ROS_TYPE_UINT16 | ROS_TYPE_INT16 => Some (2, 2)
  | ROS_TYPE_FLOAT | ROS_TYPE_UINT32 | ROS_TYPE_INT32 => Some (4, 4)
  | ROS_TYPE_DOUBLE | ROS_TYPE_UINT64 | ROS_TYPE_INT64 => Some (8, 8)
  | _ => None
  end.

(** [std::strcmp(a, b) == 0] *)
Fixpoint same_text {E} (a b : list Z) : outcome E bool :=
  match a, b with
  | x :: a', y :: b' =>
      if x =? y then if x =? 0 then Done true else same_text a' b' else Done false
  | _, _ => Fault
  end.

Section Analysis.
Context `{RosRuntime}.

(** [Done None] is [return false]. *)
Definition identifier_language {E} (identifier : option (list Z))
    : outcome E (option TypeSupportLanguage) :=
  match identifier with
  | None => Done None
  | Some text =>
      c ← same_text text c_identifier;
      if c : bool then Done (Some introspection_c)
      else
        cpp ← same_text text cpp_identifier;
        if cpp : bool then Done (Some introspection_cpp) else Done None
  end.

(** [analyze_element]; [nested] is the recursive call of [analyze_members]. *)
Definition analyze_element (nested : option Z -> Z -> AnalysisState ->
      outcome AnalysisState AnalysisState)
    (member : MessageMember) (language : TypeSupportLanguage) (depth : Z)
    (state : AnalysisState) : outcome AnalysisState AnalysisState :=
  match scalar_layout (type_id_ member) with
  | Some (alignment, width) => append_aligned state alignment width
  | None =>
      if decide (type_id_ member = ROS_TYPE_STRING) then
        fail_if (string_upper_bound_ member =? 0) state unbounded_type;;
        fail_if (u32_max <=? string_upper_bound_ member) state ts_arithmetic_overflow;;
        let wire_characters := add64 (string_upper_bound_ member) 1 in
        state ← append_aligned state 4 4;
        append_aligned state 1 wire_characters
      else if decide (type_id_ member = ROS_TYPE_MESSAGE) then
        match members_ member with
        | None => Stop (failed state invalid_members)
        | Some handle =>
            nested_language ← identifier_language (typesupport_identifier handle);
            fail_if (bool_decide (nested_language <> Some language) ||
                     bool_decide (data handle = None)) state unsupported_identifier;;
            nested (data handle) (add64 depth 1) state
        end
      else Stop (failed state unsupported_field)
  end.

(** The element count of a member, behind the length field of a sequence. *)
Definition analyze_count (member : MessageMember) (state : AnalysisState)
    : outcome AnalysisState (Z * AnalysisState) :=
  if is_array_ member then
    if is_upper_bound_ member then
      fail_if (array_size_ member =? 0) state invalid_members;;
      fail_if (u32_max <? array_size_ member) state ts_arithmetic_overflow;;
      state ← append_aligned state 4 4;
      Done (array_size_ member, state)
    else
      fail_if (array_size_ member =? 0) state unbounded_type;;
      Done (array_size_ member, state)
  else Done (1, state).

Definition analyze_member (nested : option Z -> Z -> AnalysisState ->
      outcome AnalysisState AnalysisState)
    (member : MessageMember) (language : TypeSupportLanguage) (depth : Z)
    (state : AnalysisState) : outcome AnalysisState AnalysisState :=
  fail_if (bool_decide (name_ member = None)) state invalid_members;;
  '(count, state) ← analyze_count member state;
  for_each (fun _ => analyze_element nested member language depth) (seqZ 0 count) state.

Definition members_invalid (t : MessageMembers) : bool :=
  bool_decide (message_name_ t = None) || bool_decide (message_namespace_ t = None) ||
  (negb (member_count_ t =? 0) && (size_of_ t =? 0)) ||
  (negb (member_count_ t =? 0) && negb (bool_decide (is_Some (member_table_ t)))).

Fixpoint analyze_members (fuel : nat) (language : TypeSupportLanguage)
    (members : option Z) (depth : Z) (state : AnalysisState)
    : outcome AnalysisState AnalysisState :=
  match fuel, members with
  | O, _ => Fault
  | S _, None => Stop (failed state invalid_members)
  | S fuel, Some address =>
      let t := members_at address in
      fail_if (members_invalid t) state invalid_members;;
      fail_if (kMaximumTypeNestingDepth <? depth) state nesting_limit_exceeded;;
      for_each (fun index _ =>
          entry ← access (mload (stack state) index);
          fail_if (bool_decide (entry = Some address)) state recursive_type)
        (seqZ 0 (depth - 1)) tt;;
      s ← access (mstore (stack state) (depth - 1) (Some address));
      let state := {| offset := offset state;
                      a_maximum_alignment := a_maximum_alignment state;
                      maximum_depth := if maximum_depth state <? depth then depth
                                       else maximum_depth state;
                      body_limit := body_limit state; stack := s;
                      a_error := a_error state |} in
      state ← for_each (fun index state =>
          table ← access (member_table_ t);
          member ← access (mload table index);
          fail_if (size_of_ t <=? m_offset_ member) state invalid_members;;
          analyze_member (analyze_members fuel language) member language depth state)
        (seqZ 0 (member_count_ t)) state;
      s ← access (mstore (stack state) (depth - 1) None);
      Done (set_stack state s)
  end.

Definition analysis_fuel : nat := S (Z.to_nat kMaximumTypeNestingDepth).

(** ** Names *)

(** A [std::array<char, kDdsNameCapacity>] under construction: [char*& output] as an
    index into it, and [remaining]. *)
Record name_cursor : Type := {
  candidate : list Z;
  output : Z;
  name_remaining : Z;
}.

Definition name_cursor_init : name_cursor :=
  {| candidate := replicate (Z.to_nat kDdsNameCapacity) 0; output := 0;
     name_remaining := kDdsNameCapacity |}.

(** [Stop tt] is [return false]. *)
Definition append_character (value : Z) (c : name_cursor) : outcome unit name_cursor :=
  stop_if (name_remaining c <=? 1) tt;;
  text ← access (mstore (candidate c) (output c) value);
  text ← access (mstore text (output c + 1) 0);
  Done {| candidate := text; output := output c + 1;
          name_remaining := sub64 (name_remaining c) 1 |}.

Definition underscore : Z := 95.
Definition colon : Z := 58.
Definition slash : Z := 47.

(** The loop of [append_text]; [value] is the memory from [value + index] on. *)
Fixpoint append_characters (value : list Z) (convert_c_namespace : bool)
    (c : name_cursor) : outcome unit name_cursor :=
  match value with
  | [] => Fault
  | x :: rest =>
      if x =? 0 then Done c
      else if convert_c_namespace && (x =? underscore) then
        match rest with
        | [] => Fault
        | y :: rest' =>
            if y =? underscore then
              c ← append_character colon c;
              c ← append_character colon c;
              append_characters rest' convert_c_namespace c
            else
              c ← append_character x c;
              append_characters rest convert_c_namespace c
        end
      else
        c ← append_character x c;
        append_characters rest convert_c_namespace c
  end.

Definition append_text (value : option (list Z)) (convert_c_namespace : bool)
    (c : name_cursor) : outcome unit name_cursor :=
  match value with
  | None => Stop tt
  | Some value => append_characters value convert_c_namespace c
  end.

(** A [static_cast<const MessageMembers*>(type_support->data)] that is read. *)
Definition table_of (members : option Z) : option MessageMembers := members_at <$> members.

(** [text[0]] *)
Definition first_character {E} (text : option (list Z)) : outcome E Z :=
  text ← access text;
  access (mload text 0).

(** The checks at the start of [build_type_name] and [build_ros_type_name]. *)
Definition name_missing (members : option Z) : outcome unit MessageMembers :=
  match table_of members with
  | None => Stop tt
  | Some t =>
      stop_if (bool_decide (message_namespace_ t = None) ||
               bool_decide (message_name_ t = None)) tt;;
      first ← first_character (message_name_ t);
      stop_if (first =? 0) tt;;
      Done t
  end.

Definition build_type_name (members : option Z) (convert_c_namespace : bool)
    : outcome unit (list Z) :=
  t ← name_missing members;
  let c := name_cursor_init in
  first ← first_character (message_namespace_ t);
  c ← (if negb (first =? 0) then
         c ← append_text (message_namespace_ t) convert_c_namespace c;
         append_text (Some [colon; colon; 0]) false c
       else Done c);
  c ← append_text (Some [100; 100; 115; 95; colon; colon; 0]) false c;
  c ← append_text (message_name_ t) false c;
  c ← append_character underscore c;
  Done (candidate c).

(** The loop of [build_ros_type_name] over the namespace. *)
Fixpoint append_namespace (name_space : list Z) (convert_c_namespace : bool)
    (c : name_cursor) : outcome unit name_cursor :=
  match name_space with
  | [] => Fault
  | x :: rest =>
      if x =? 0 then Done c
      else if (convert_c_namespace && (x =? underscore)) ||
              (negb convert_c_namespace && (x =? colon)) then
        match rest with
        | [] => Fault
        | y :: rest' =>
            if y =? x then
              c ← append_character slash c;
              append_namespace rest' convert_c_namespace c
            else
              c ← append_character x c;
              append_namespace rest convert_c_namespace c
        end
      else
        c ← append_character x c;
        append_namespace rest convert_c_namespace c
  end.

Definition build_ros_type_name (members : option Z) (convert_c_namespace : bool)
    : outcome unit (list Z) :=
  t ← name_missing members;
  let c := name_cursor_init in
  name_space ← access (message_namespace_ t);
  c ← append_namespace name_space convert_c_namespace c;
  first ← access (mload name_space 0);
  c ← (if negb (first =? 0) then append_character slash c else Done c);
  c ← append_text (message_name_ t) false c;
  Done (candidate c).

Definition derive_ros_type_name (ts : option type_support)
    (language : TypeSupportLanguage) : outcome unit (list Z) :=
  match ts with
  | None => Stop tt
  | Some handle =>
      stop_if (bool_decide (data handle = None)) tt;;
      build_ros_type_name (data handle) (bool_decide (language = introspection_c))
  end.

Definition derive_type_name (ts : option type_support)
    : outcome TypeSupportError (TypeSupportLanguage * list Z) :=
  match ts with
  | None => Stop ts_invalid_argument
  | Some handle =>
      stop_if (bool_decide (data handle = None)) ts_invalid_argument;;
      found ← identifier_language (typesupport_identifier handle);
      match found with
      | None => Stop unsupported_identifier
      | Some language =>
          t ← access (table_of (data handle));
          stop_if (bool_decide (message_namespace_ t = None) ||
                   bool_decide (message_name_ t = None)) invalid_members;;
          first ← first_character (message_name_ t);
          stop_if (first =? 0) invalid_name;;
          name ← map_stop (fun _ => name_limit_exceeded)
                   (build_type_name (data handle)
                      (bool_decide (language = introspection_c)));
          Done (language, name)
      end
  end.

(** ** The public functions *)

(** [Stop] is a null result. *)
Definition resolve_type_support (ts : option type_support)
    : outcome TypeSupportError type_support :=
  match ts with
  | None => Stop ts_invalid_argument
  | Some handle =>
      stop_if (bool_decide (typesupport_identifier handle = None)) ts_invalid_argument;;
      found ← identifier_language (typesupport_identifier handle);
      match found with
      | Some _ =>
          stop_if (bool_decide (data handle = None)) ts_invalid_argument;;
          Done handle
      | None =>
          stop_if (negb (func handle)) unsupported_identifier;;
          let usable := fun h => match h with
                                 | Some r => if decide (data r = None) then None else Some r
                                 | None => None
                                 end in
          match usable (get_message_typesupport_handle handle c_identifier) with
          | Some resolved_c => Done resolved_c
          | None =>
              match usable (get_message_typesupport_handle handle cpp_identifier) with
              | Some resolved_cpp => Done resolved_cpp
              | None => Stop unsupported_identifier
              end
          end
      end
  end.

Definition analyze_type_support (ts : option type_support) (maximum_sample_size : Z)
    : outcome TypeSupportError TypeSupportInfo :=
  match ts with
  | None => Stop ts_invalid_argument
  | Some handle =>
      stop_if (bool_decide (data handle = None) ||
               (maximum_sample_size <? kXcdr1EncapsulationSize)) ts_invalid_argument;;
      '(language, name) ← derive_type_name ts;
      state ← map_stop a_error
                (analyze_members analysis_fuel language (data handle) 1
                   (AnalysisState_init
                      (sub64 maximum_sample_size kXcdr1EncapsulationSize)));
      Done {| language := language;
              maximum_serialized_size := add64 (offset state) kXcdr1EncapsulationSize;
              maximum_alignment := a_maximum_alignment state;
              maximum_nesting_depth := maximum_depth state;
              dds_type_name := name |}
  end.

(** The prefix and the suffix of a channel's topics. *)
Definition channel_affixes (channel : RosChannel) : option (list Z * list Z) :=
  match channel with
  | topic => Some ([114; 116; 0], [0])
  | service_request => Some ([114; 113; 0], [82; 101; 113; 117; 101; 115; 116; 0])
  | service_response => Some ([114; 114; 0], [82; 101; 112; 108; 121; 0])
  | raw_channel _ => None
  end.

Definition map_ros_to_dds_names (ts : option type_support) (channel : RosChannel)
    (ros_name : option (list Z)) (avoid_ros_namespace_conventions : bool)
    : outcome TypeSupportError DdsNames :=
  stop_if (bool_decide (ros_name = None)) invalid_name;;
  first ← first_character ros_name;
  stop_if (first =? 0) invalid_name;;
  match channel_affixes channel with
  | None => Stop ts_invalid_argument
  | Some (prefix, suffix) =>
      '(language, name) ← derive_type_name ts;
      ros_type ← map_stop (fun _ => name_limit_exceeded) (derive_ros_type_name ts language);
      c ← map_stop (fun _ => name_limit_exceeded)
            (c ← (if negb avoid_ros_namespace_conventions
                  then append_text (Some prefix) false name_cursor_init
                  else Done name_cursor_init);
             c ← append_text ros_name false c;
             append_text (Some suffix) false c);
      Done {| topic_name := candidate c; type_name := name; ros_type_name := ros_type |}
  end.
End Analysis.

End TypeSupport.
