(* ===== verification/TypeSupportFacts.v ===== *)
(** * The analysis of message types terminates and stays within its limits

    Facts about [TypeSupport.v].  Descriptors may refer to each other in cycles; the
    analysis keeps the tables it is inside of on a stack and stops at the nesting limit, so
    every analysis returns. *)
From stdpp Require Import list.
From S2P Require Import Prelude Bytes Cdr Introspection TypeSupport.

Module TypeSupportFacts.
Import Introspection TypeSupport.

(** ** Steps of the analysis *)

Record state_ok (st : AnalysisState) : Prop := {
  so_offset : 0 <= offset st <= body_limit st;
  so_limit : body_limit st < 2 ^ 64;
  so_stack : zlen (stack st) = kMaximumTypeNestingDepth;
  so_depth : maximum_depth st <= kMaximumTypeNestingDepth;
}.

(** What a successful step of the analysis keeps. *)
Record extends (st st' : AnalysisState) : Prop := {
  ex_ok : state_ok st';
  ex_limit : body_limit st' = body_limit st;
  ex_offset : offset st <= offset st';
}.

Lemma extends_refl st : state_ok st -> extends st st.
Proof. by split. Qed.

Lemma extends_trans st1 st2 st3 : extends st1 st2 -> extends st2 st3 -> extends st1 st3.
Proof. intros [] []. split; [done|congruence|lia]. Qed.

(** A step that returns, and keeps the state in order when it succeeds. *)
Definition steps {A} (get : A -> AnalysisState) (st : AnalysisState)
    (m : outcome AnalysisState A) : Prop :=
  match m with Fault => False | Stop _ => True | Done a => extends st (get a) end.

Lemma steps_bind {A B} (f : A -> AnalysisState) (g : B -> AnalysisState) st m k :
  steps f st m -> (forall a, extends st (f a) -> steps g (f a) (k a)) ->
  steps g st (m ≫= k).
Proof.
  intros Hm Hk. destruct m as [| |a]; simpl in *; [done..|].
  specialize (Hk a Hm). destruct (k a); simpl in *; [done..|]. by eapply extends_trans.
Qed.

Lemma steps_guard {A} (f : A -> AnalysisState) st c st0 e k :
  (c = false -> steps f st (k tt)) -> steps f st (fail_if c st0 e ≫= k).
Proof. by destruct c; [|intros Hk; apply Hk]. Qed.

Lemma steps_for_each {I} (body : I -> AnalysisState -> outcome AnalysisState AnalysisState)
    xs st :
  state_ok st ->
  (forall i st', i ∈ xs -> extends st st' -> steps id st' (body i st')) ->
  steps id st (for_each body xs st).
Proof.
  revert st. induction xs as [|i xs IH]; intros st Hst Hbody; simpl;
    [by apply extends_refl|].
  apply (steps_bind id id).
  - apply Hbody; [by left|by apply extends_refl].
  - intros st1 H1. apply IH; [apply H1|]. intros j st' Hj Hex.
    apply Hbody; [by right|by eapply extends_trans].
Qed.

Lemma append_aligned_spec st k width :
  state_ok st -> 0 <= k <= 3 -> 0 <= width < 2 ^ 64 ->
  let next := offset st + Cdr.padding (offset st) (2 ^ k) + width in
  if next <=? body_limit st then
    exists st', append_aligned st (2 ^ k) width = Done st' /\ offset st' = next /\
      body_limit st' = body_limit st /\ stack st' = stack st /\
      maximum_depth st' = maximum_depth st
  else exists e, append_aligned st (2 ^ k) width = Stop (failed st e) /\
    e = if size_max <? next then ts_arithmetic_overflow else sample_limit_exceeded.
Proof.
  intros [Ho Hl Hs Hd] Hk Hw next. subst next. unfold append_aligned, fail_if.
  assert (2 ^ k = 1 \/ 2 ^ k = 2 \/ 2 ^ k = 4 \/ 2 ^ k = 8) as Hcases.
  { assert (k = 0 \/ k = 1 \/ k = 2 \/ k = 3) as [->|[->|[->| ->]]] by lia; lia. }
  assert (0 < 2 ^ k <= 8) as Hpow by lia.
  assert ((2 ^ k =? 0) || negb (Z.land (2 ^ k) (sub64 (2 ^ k) 1) =? 0) = false) as ->
    by (destruct Hcases as [->|[->|[->| ->]]]; done).
  simpl.
  pose proof (Z.mod_pos_bound (offset st) (2 ^ k)) as Hm.
  rewrite (sub64_id (2 ^ k)) by lia.
  rewrite Cdr.padding_cases by lia.
  pose proof (Cdr.padding_range (offset st) (2 ^ k)) as Hp.
  set (pad := Cdr.padding (offset st) (2 ^ k)) in *. unfold size_max.
  rewrite (sub64_id _ (offset st)) by lia.
  destruct (Z.leb_spec (offset st + pad + width) (body_limit st)).
  - destruct (Z.ltb_spec (2 ^ 64 - 1 - offset st) pad); [lia|].
    rewrite (add64_id (offset st) pad), sub64_id by lia.
    destruct (Z.ltb_spec (2 ^ 64 - 1 - (offset st + pad)) width); [lia|]. simpl.
    rewrite add64_id by lia.
    destruct (Z.ltb_spec (body_limit st) (offset st + pad + width)); [lia|]. simpl.
    eexists. by split.
  - destruct (Z.ltb_spec (2 ^ 64 - 1 - offset st) pad); simpl.
    { eexists. split; [done|]. destruct (Z.ltb_spec (2 ^ 64 - 1) (offset st + pad + width)); [done|lia]. }
    rewrite (add64_id (offset st) pad), sub64_id by lia.
    destruct (Z.ltb_spec (2 ^ 64 - 1 - (offset st + pad)) width); simpl.
    { eexists. split; [done|]. destruct (Z.ltb_spec (2 ^ 64 - 1) (offset st + pad + width)); [done|lia]. }
    rewrite add64_id by lia.
    destruct (Z.ltb_spec (body_limit st) (offset st + pad + width)); [simpl|lia].
    eexists. split; [done|].
    destruct (Z.ltb_spec (2 ^ 64 - 1) (offset st + pad + width)); [lia|done].
Qed.

Lemma append_aligned_steps st k width :
  state_ok st -> 0 <= k <= 3 -> 0 <= width < 2 ^ 64 ->
  steps id st (append_aligned st (2 ^ k) width).
Proof.
  intros Hst Hk Hw. pose proof (append_aligned_spec st k width Hst Hk Hw) as Hs. cbv zeta in Hs.
  pose proof (Cdr.padding_range (offset st) (2 ^ k)) as Hp.
  assert (0 < 2 ^ k) by (apply Z.pow_pos_nonneg; lia).
  destruct Hst. destruct (Z.leb_spec (offset st + Cdr.padding (offset st) (2 ^ k) + width)
    (body_limit st)).
  - destruct Hs as (st' & -> & ? & ? & Hstack & Hdepth). split; [split|..]; unfold id;
    rewrite ?Hstack, ?Hdepth; done || lia.
  - by destruct Hs as (e & -> & _).
Qed.

(** The layouts of scalars are powers of two. *)
Lemma scalar_layout_pow2 t a w :
  scalar_layout t = Some (a, w) -> exists k, 0 <= k <= 3 /\ a = 2 ^ k /\ w = 2 ^ k.
Proof.
  destruct t; intros [= <- <-];
    solve [by exists 0 | by exists 1 | by exists 2 | by exists 3].
Qed.

Lemma same_text_safe {E} a b :
  terminated a -> terminated b -> exists r, same_text a b = (Done r : outcome E bool).
Proof.
  unfold terminated. revert b. induction a as [|x a IH]; intros b Ha Hb; [set_solver|].
  destruct b as [|y b]; [set_solver|]. simpl.
  destruct (Z.eqb_spec x y) as [->|]; [|by eauto].
  destruct (Z.eqb_spec y 0); [by eauto|]. apply IH; set_solver.
Qed.

Section Runtime.
Context `{GeneratedTypes}.

Lemma identifier_language_safe {E} text :
  (forall s, text = Some s -> terminated s) ->
  exists r, identifier_language text = (Done r : outcome E _).
Proof.
  intros Ht. destruct text as [s|]; simpl; [|by eauto].
  destruct (same_text_safe (E:=E) s c_identifier) as [c ->];
    [by apply Ht|apply gt_c_identifier|]. simpl. destruct c; [by eauto|].
  destruct (same_text_safe (E:=E) s cpp_identifier) as [cpp ->];
    [by apply Ht|apply gt_cpp_identifier|]. simpl. destruct cpp; by eauto.
Qed.

Section Nested.
Context (nested : option Z -> Z -> AnalysisState -> outcome AnalysisState AnalysisState).
Context (depth : Z).
Hypothesis nested_steps : forall t st,
  state_ok st -> steps id st (nested t (add64 depth 1) st).

Lemma analyze_element_steps m lang st :
  state_ok st -> 0 <= string_upper_bound_ m < 2 ^ 64 ->
  (forall h s, members_ m = Some h -> typesupport_identifier h = Some s -> terminated s) ->
  steps id st (analyze_element nested m lang depth st).
Proof.
  intros Hst Hb Hid. unfold analyze_element.
  destruct (scalar_layout (type_id_ m)) as [[a w]|] eqn:Hl.
  { apply scalar_layout_pow2 in Hl as (k & Hk & -> & ->).
    apply append_aligned_steps; [done..|]. split; [lia|].
    apply Z.pow_lt_mono_r; lia. }
  case_decide.
  { apply steps_guard; intros _. apply steps_guard; intros Hu.
    apply Z.leb_gt in Hu. unfold u32_max in *. rewrite add64_id by lia.
    apply (steps_bind id id).
    - apply (append_aligned_steps st 2); [done|lia..].
    - intros st1 []. apply (append_aligned_steps st1 0); [done|lia..]. }
  case_decide; [|done]. destruct (members_ m) as [h|] eqn:Hm; [|done].
  destruct (identifier_language_safe (E:=AnalysisState) (typesupport_identifier h))
    as [r ->]; [by eauto|].
  cbn [mbind outcome_bind]. apply steps_guard; intros _. by apply nested_steps.
Qed.

Lemma analyze_count_steps m st :
  state_ok st -> 0 <= array_size_ m < 2 ^ 64 ->
  steps snd st (analyze_count m st).
Proof.
  intros Hst Hb. unfold analyze_count. destruct (is_array_ m); [|by apply extends_refl].
  destruct (is_upper_bound_ m).
  - apply steps_guard; intros _. apply steps_guard; intros _. apply (steps_bind id snd).
    + apply (append_aligned_steps st 2); [done|lia..].
    + intros st1 []. by apply extends_refl.
  - apply steps_guard; intros _. by apply extends_refl.
Qed.

Lemma analyze_member_steps m lang st :
  state_ok st -> 0 <= array_size_ m < 2 ^ 64 -> 0 <= string_upper_bound_ m < 2 ^ 64 ->
  (forall h s, members_ m = Some h -> typesupport_identifier h = Some s -> terminated s) ->
  steps id st (analyze_member nested m lang depth st).
Proof.
  intros Hst Ha Hb Hid. unfold analyze_member. apply steps_guard; intros _.
  apply (steps_bind snd id); [by apply analyze_count_steps|].
  intros [n st1] Hex; simpl in *. apply steps_for_each; [apply Hex|].
  intros i st' _ Hex'. apply analyze_element_steps; [apply Hex'|done..].
Qed.
End Nested.

(** The scan of the stack reads only what is on it. *)
Lemma stack_scan_steps st address depth :
  state_ok st -> 1 <= depth <= kMaximumTypeNestingDepth ->
  for_each (fun index _ =>
      entry ← access (mload (stack st) index);
      fail_if (bool_decide (entry = Some address)) st recursive_type)
    (seqZ 0 (depth - 1)) tt <> Fault.
Proof.
  intros Hst Hd. apply (for_each_safe _ (fun _ => True)); [|done].
  intros i [] Hi%elem_of_seqZ _. split; [|done].
  destruct (proj2 (mload_is_Some (stack st) i)) as [x ->];
    [rewrite (so_stack st Hst); lia|]. apply safe_stop_if.
Qed.

Lemma analyze_members_steps fuel : forall lang members depth st,
  state_ok st -> 1 <= depth -> kMaximumTypeNestingDepth + 2 <= depth + Z.of_nat fuel ->
  depth <= kMaximumTypeNestingDepth + 1 ->
  steps id st (analyze_members fuel lang members depth st).
Proof.
  unfold kMaximumTypeNestingDepth.
  induction fuel as [|fuel IH]; intros lang members depth st Hst Hd Hf Hmax; [lia|].
  simpl. destruct members as [p|]; [|done].
  apply steps_guard; intros Hvalid. apply steps_guard; intros Hdepth.
  apply Z.ltb_ge in Hdepth. unfold kMaximumTypeNestingDepth in Hdepth.
  pose proof (stack_scan_steps st p depth Hst) as Hscan.
  unfold kMaximumTypeNestingDepth in Hscan.
  destruct (for_each _ _ tt) as [| |[]] eqn:Hloop; simpl; [by apply Hscan; [lia|]|done|].
  clear Hscan Hloop.
  assert (forall (st : AnalysisState) x, zlen (stack st) = 16 ->
            is_Some (mstore (stack st) (depth - 1) x)) as Hstore.
  { intros st0 x Hlen. apply mstore_is_Some. lia. }
  destruct (Hstore st (Some p)) as [s Hs]; [apply Hst|]. rewrite Hs. simpl.
  pose proof (mstore_length _ _ _ _ Hs) as Hls.
  set (st1 := {| offset := offset st |}).
  assert (extends st st1) as Hex1.
  { destruct Hst. unfold kMaximumTypeNestingDepth in *.
    split; [split|..]; subst st1; simpl; try (done || lia || congruence);
      unfold kMaximumTypeNestingDepth; [lia|].
    destruct (Z.ltb_spec (maximum_depth st) depth); lia. }
  pose proof (gt_tables p) as Ht.
  match goal with |- steps id st (for_each ?body ?xs st1 ≫= _) =>
    assert (steps id st1 (for_each body xs st1)) as Hwalk end.
  { apply steps_for_each; [apply Hex1|]. intros i st' Hi%elem_of_seqZ Hex.
    destruct (member_table_ (members_at p)) as [l|] eqn:Hl; simpl; cycle 1.
    { unfold members_invalid in Hvalid. rewrite Hl in Hvalid.
      destruct (Z.eqb_spec (member_count_ (members_at p)) 0); [lia|].
      rewrite !orb_false_iff in Hvalid. by destruct Hvalid as [_ Hvalid]. }
    destruct (proj2 (mload_is_Some l i)) as [m Hm];
      [rewrite (do_table _ Ht l) by done; lia|].
    rewrite Hm. simpl. apply steps_guard; intros _.
    apply mload_Some in Hm as [_ Hm]. apply list_elem_of_lookup_2 in Hm.
    destruct (do_members _ Ht l m Hl Hm) as (? & ? & ?).
    apply analyze_member_steps; [|apply Hex|done..].
    intros t0 st0 Hst0. rewrite add64_id by lia. apply IH; [done|lia..]. }
  destruct (for_each _ _ st1) as [| |st2]; simpl in *; [done..|].
  destruct (Hstore st2 None) as [s2 Hs2]; [apply Hwalk|]. rewrite Hs2. simpl.
  apply mstore_length in Hs2.
  eapply extends_trans; [exact Hex1|]. destruct Hwalk as [[] ? ?].
  split; [split|..]; simpl; (done || lia || congruence).
Qed.

End Runtime.

End TypeSupportFacts.
