(* ===== verification/TypeNames.v ===== *)
(** * The DDS names of ROS topics and types

    What the name functions of [TypeSupport.v] produce: the names of the ROS-over-DDS
    convention when they fit their arrays, [name_limit_exceeded] when they do not, and
    different topics for different channels and ROS names. *)
From stdpp Require Import list.
From S2P Require Import Prelude Introspection SampleTypes TypeSupport TypeSupportFacts.

Module TypeNames.
Import Introspection TypeSupport TypeSupportFacts.

(** ** Reference definitions *)

(** The characters of a C string in memory. *)
Fixpoint text_of (memory : list Z) : list Z :=
  match memory with
  | [] => []
  | x :: rest => if x =? 0 then [] else x :: text_of rest
  end.

(** A text with every doubled [mark], scanned from the left, replaced by [by_]. *)
Fixpoint replace_doubled (mark : Z) (by_ text : list Z) : list Z :=
  match text with
  | [] => []
  | x :: rest =>
      match rest with
      | y :: rest' =>
          if (x =? mark) && (y =? mark) then by_ ++ replace_doubled mark by_ rest'
          else x :: replace_doubled mark by_ rest
      | [] => [x]
      end
  end.

(** A name in its array. *)
Definition padded (s : list Z) : list Z := s ++ replicate (256 - length s) 0.

Definition cursor_of (s : list Z) : name_cursor :=
  {| candidate := padded s; output := zlen s; name_remaining := 256 - zlen s |}.

Definition dds_type_text (c_namespace : bool) (ns name : list Z) : list Z :=
  (if decide (text_of ns = []) then []
   else (if c_namespace then replace_doubled underscore [colon; colon] (text_of ns)
         else text_of ns) ++ [colon; colon]) ++
  [100; 100; 115; 95; colon; colon] ++ text_of name ++ [underscore].

Definition ros_type_text (c_namespace : bool) (ns name : list Z) : list Z :=
  replace_doubled (if c_namespace then underscore else colon) [slash] (text_of ns) ++
  (if decide (text_of ns = []) then [] else [slash]) ++ text_of name.

Definition channel_topic (channel : RosChannel) (conventions : bool) (ros_name : list Z)
    : list Z :=
  match channel_affixes channel with
  | Some (prefix, suffix) =>
      (if conventions then text_of prefix else []) ++ text_of ros_name ++ text_of suffix
  | None => []
  end.

(** A result of the convention: a name when it fits, an error when it does not. *)
Definition fitting {A} (s : list Z) (a : A) : outcome unit A :=
  if zlen s <=? 255 then Done a else Stop tt.

(** ** Appending *)

Lemma append_character_spec v s :
  zlen s <= 255 ->
  append_character v (cursor_of s) = fitting (s ++ [v]) (cursor_of (s ++ [v])).
Proof.
  intros Hs. unfold append_character, fitting, cursor_of. cbn [name_remaining candidate output].
  rewrite length_app. cbn [length].
  destruct (Z.leb_spec (256 - zlen s) 1) as [Hfull|Hroom]; simpl.
  { destruct (Z.leb_spec (Z.of_nat (length s + 1)) 255); [lia|done]. }
  destruct (Z.leb_spec (Z.of_nat (length s + 1)) 255); [|lia].
  unfold padded. rewrite mstore_mcopy, mcopy_snoc by (rewrite ?length_replicate; simpl; lia).
  cbn [access mbind outcome_bind length]. rewrite drop_replicate.
  rewrite mstore_mcopy, mcopy_snoc
    by (rewrite ?length_app, ?length_replicate; simpl; lia).
  cbn [access mbind outcome_bind length]. rewrite drop_replicate, sub64_id by lia.
  rewrite length_app. cbn [length]. f_equal. f_equal; [|lia..].
  rewrite <- (app_assoc (s ++ [v])). f_equal.
  replace (256 - (length s + 1))%nat with (S (256 - length s - 1 - 1)) by lia. done.
Qed.

Lemma fitting_bind {A B} s s' (a : A) (k : A -> outcome unit B) b :
  (exists tail, s' = s ++ tail) -> (zlen s <= 255 -> k a = fitting s' b) ->
  (fitting s a ≫= k) = fitting s' b.
Proof.
  intros [tail ->] Hk. unfold fitting in *. destruct (Z.leb_spec (zlen s) 255); [by apply Hk|].
  simpl. rewrite length_app. by destruct (Z.leb_spec (Z.of_nat (length s + length tail)) 255);
    [lia|].
Qed.

(** The next character, then the rest. *)
Lemma append_then {B} v s s' (k : name_cursor -> outcome unit B) b :
  zlen s <= 255 -> (exists tail, s' = (s ++ [v]) ++ tail) ->
  (zlen (s ++ [v]) <= 255 -> k (cursor_of (s ++ [v])) = fitting s' b) ->
  (append_character v (cursor_of s) ≫= k) = fitting s' b.
Proof. intros Hs Ht Hk. rewrite append_character_spec by done. by apply fitting_bind. Qed.

Lemma terminated_tail x rest : terminated (x :: rest) -> x <> 0 -> terminated rest.
Proof. unfold terminated. set_solver. Qed.

(** ** The scans of [append_text] and [build_ros_type_name] as one *)

Fixpoint scan (mark : option Z) (by_ text : list Z) (c : name_cursor)
    : outcome unit name_cursor :=
  match text with
  | [] => Fault
  | x :: rest =>
      if x =? 0 then Done c
      else if decide (mark = Some x) then
        match rest with
        | [] => Fault
        | y :: rest' =>
            if y =? x then
              c ← for_each append_character by_ c;
              scan mark by_ rest' c
            else
              c ← append_character x c;
              scan mark by_ rest c
        end
      else
        c ← append_character x c;
        scan mark by_ rest c
  end.

Definition replaced (mark : option Z) (by_ text : list Z) : list Z :=
  match mark with Some m => replace_doubled m by_ text | None => text end.

(** Induction over a text by one character or two. *)
Lemma text_ind (P : list Z -> Prop) :
  P [] -> (forall x, P [x]) -> (forall x y l, P l -> P (y :: l) -> P (x :: y :: l)) ->
  forall l, P l.
Proof.
  intros H0 H1 H2 l. enough (P l /\ forall x, P (x :: l)) by tauto.
  induction l as [|y l [IH1 IH2]]; [by auto|]. split; [by apply IH2|].
  intros x. by apply H2.
Qed.

Lemma scan_unfold mark by_ x rest c :
  scan mark by_ (x :: rest) c =
  if x =? 0 then Done c
  else if decide (mark = Some x) then
    match rest with
    | [] => Fault
    | y :: rest' =>
        if y =? x then c ← for_each append_character by_ c; scan mark by_ rest' c
        else c ← append_character x c; scan mark by_ rest c
    end
  else c ← append_character x c; scan mark by_ rest c.
Proof. reflexivity. Qed.

Lemma append_characters_unfold x rest b c :
  append_characters (x :: rest) b c =
  if x =? 0 then Done c
  else if b && (x =? underscore) then
    match rest with
    | [] => Fault
    | y :: rest' =>
        if y =? underscore then
          c ← append_character colon c; c ← append_character colon c;
          append_characters rest' b c
        else c ← append_character x c; append_characters rest b c
    end
  else c ← append_character x c; append_characters rest b c.
Proof. reflexivity. Qed.

Lemma append_namespace_unfold x rest b c :
  append_namespace (x :: rest) b c =
  if x =? 0 then Done c
  else if (b && (x =? underscore)) || (negb b && (x =? colon)) then
    match rest with
    | [] => Fault
    | y :: rest' =>
        if y =? x then c ← append_character slash c; append_namespace rest' b c
        else c ← append_character x c; append_namespace rest b c
    end
  else c ← append_character x c; append_namespace rest b c.
Proof. reflexivity. Qed.

Lemma append_characters_scan text c_namespace : forall c,
  append_characters text c_namespace c =
  scan (if c_namespace : bool then Some underscore else None) [colon; colon] text c.
Proof.
  induction text as [|x|x y l IH1 IH2] using text_ind; intros c; [done|..];
    rewrite append_characters_unfold, scan_unfold.
  - destruct (x =? 0); [done|]. destruct c_namespace; [|by rewrite decide_False].
    simpl. destruct (Z.eqb_spec x underscore) as [->|]; [by rewrite decide_True|].
    by rewrite decide_False by congruence.
  - destruct (x =? 0); [done|]. destruct c_namespace; cbn [andb].
    + destruct (Z.eqb_spec x underscore) as [->|].
      * rewrite decide_True by done. destruct (y =? underscore); cbn [for_each].
        { destruct (append_character colon c) as [| |c1]; cbn [mbind outcome_bind]; [done..|].
          destruct (append_character colon c1) as [| |c2]; cbn [mbind outcome_bind]; [done..|]. exact (IH1 c2). }
        destruct (append_character underscore c) as [| |c1]; cbn [mbind outcome_bind]; [done..|]. exact (IH2 c1).
      * rewrite decide_False by congruence.
        destruct (append_character x c) as [| |c1]; cbn [mbind outcome_bind]; [done..|]. exact (IH2 c1).
    + rewrite decide_False by done.
      destruct (append_character x c) as [| |c1]; cbn [mbind outcome_bind]; [done..|]. exact (IH2 c1).
Qed.

Lemma append_namespace_scan text c_namespace : forall c,
  append_namespace text c_namespace c =
  scan (Some (if c_namespace : bool then underscore else colon)) [slash] text c.
Proof.
  set (mark := if c_namespace then underscore else colon).
  assert (forall x, (c_namespace && (x =? underscore)) ||
            (negb c_namespace && (x =? colon)) = bool_decide (Some mark = Some x)) as Hmark.
  { intros x. subst mark. destruct c_namespace; simpl; rewrite ?orb_false_r;
      (match goal with |- Z.eqb ?a ?b = _ => destruct (Z.eqb_spec a b) end);
      case_bool_decide; congruence. }
  induction text as [|x|x y l IH1 IH2] using text_ind; intros c; [done|..];
    rewrite append_namespace_unfold, scan_unfold, Hmark.
  - destruct (x =? 0); [done|]. case_bool_decide as Hm;
      [by rewrite decide_True|by rewrite decide_False].
  - destruct (x =? 0); [done|].
    case_bool_decide as Hm; [rewrite decide_True by done|rewrite decide_False by done].
    + destruct (y =? x); cbn [for_each]; (destruct (append_character _ c) as [| |c1]; cbn [mbind outcome_bind]; [done..|]);
        [exact (IH1 c1)|exact (IH2 c1)].
    + destruct (append_character x c) as [| |c1]; cbn [mbind outcome_bind]; [done..|]. exact (IH2 c1).
Qed.

Lemma append_all_spec l : forall s,
  zlen s <= 255 ->
  for_each append_character l (cursor_of s) = fitting (s ++ l) (cursor_of (s ++ l)).
Proof.
  induction l as [|x l IH]; intros s Hs; cbn [for_each].
  - rewrite app_nil_r. unfold fitting. destruct (Z.leb_spec (zlen s) 255); [done|lia].
  - apply append_then; [done|exists l; by rewrite <- app_assoc|].
    intros H1. rewrite IH by done. by rewrite <- app_assoc.
Qed.

Lemma replaced_cons mark by_ x y l :
  mark <> Some x \/ y <> x ->
  replaced mark by_ (x :: y :: l) = x :: replaced mark by_ (y :: l).
Proof.
  destruct mark as [m|]; [|done]. intros Hm. cbn [replaced replace_doubled].
  destruct (Z.eqb_spec x m) as [->|], (Z.eqb_spec y m) as [->|]; simpl; try done.
  destruct Hm; congruence.
Qed.

Lemma scan_spec mark by_ text : forall s,
  terminated text -> zlen s <= 255 ->
  scan mark by_ text (cursor_of s) =
  fitting (s ++ replaced mark by_ (text_of text))
    (cursor_of (s ++ replaced mark by_ (text_of text))).
Proof.
  assert (forall mark by_, replaced mark by_ [] = []) as Hnil by (by intros []).
  assert (forall mark by_ x, replaced mark by_ [x] = [x]) as Hsing by (by intros []).
  assert (forall s, zlen s <= 255 -> Done (cursor_of s) =
            fitting (s ++ []) (cursor_of (s ++ []))) as Hdone.
  { intros s Hs. unfold fitting. rewrite app_nil_r.
    by destruct (Z.leb_spec (zlen s) 255); [|lia]. }
  induction text as [|x|x y l IH1 IH2] using text_ind; intros s Ht Hs; [set_solver|..];
    rewrite scan_unfold; cbn [text_of]; (destruct (Z.eqb_spec x 0) as [->|Hx]; [by rewrite Hnil, <- Hdone|]).
  { unfold terminated in Ht. set_solver. }
  pose proof (terminated_tail _ _ Ht Hx) as Hrest.
  assert ((mark <> Some x \/ y <> x) ->
    (c ← append_character x (cursor_of s); scan mark by_ (y :: l) c) =
    fitting (s ++ replaced mark by_ (x :: text_of (y :: l)))
      (cursor_of (s ++ replaced mark by_ (x :: text_of (y :: l))))) as Hone.
  { intros Hm. assert (replaced mark by_ (x :: text_of (y :: l)) =
      [x] ++ replaced mark by_ (text_of (y :: l))) as ->.
    { cbn [text_of]. destruct (y =? 0); [by rewrite Hsing, Hnil|by apply replaced_cons]. }
    apply append_then; [done|eexists; by rewrite <- app_assoc|].
    intros H1. rewrite IH2 by done. by rewrite <- app_assoc. }
  case_decide as Hm; [|by apply Hone; left].
  destruct (Z.eqb_spec y x) as [->|Hy]; [|by apply Hone; right].
  cbn [text_of]. destruct (Z.eqb_spec x 0); [done|].
  destruct mark as [m|]; [|done]. injection Hm as ->. cbn [replaced replace_doubled].
  rewrite Z.eqb_refl. cbn [andb].
  rewrite append_all_spec by done. apply fitting_bind; [eexists; by rewrite <- app_assoc|].
  intros H1. rewrite IH1; [|by eapply terminated_tail|done]. cbn [replaced].
  by rewrite <- app_assoc.
Qed.

Lemma append_text_spec text c_namespace s :
  terminated text -> zlen s <= 255 ->
  let t := replaced (if c_namespace : bool then Some underscore else None) [colon; colon]
             (text_of text) in
  append_text (Some text) c_namespace (cursor_of s) = fitting (s ++ t) (cursor_of (s ++ t)).
Proof.
  intros Ht Hs t. cbn [append_text]. rewrite append_characters_scan. by apply scan_spec.
Qed.
(** ** Whole names *)

Lemma text_of_first memory :
  terminated memory ->
  exists x, mload memory 0 = Some x /\ (x =? 0) = bool_decide (text_of memory = []).
Proof.
  intros Ht. destruct memory as [|x l]; [set_solver|]. exists x. split; [done|].
  simpl. by destruct (Z.eqb_spec x 0).
Qed.

Lemma fitting_Done {A} s (a : A) : zlen s <= 255 -> Done a = fitting s a.
Proof. intros. unfold fitting. by destruct (Z.leb_spec (zlen s) 255); [|lia]. Qed.

Section Names.
Context `{GeneratedTypes}.
Context (p : Z) (ns nm : list Z).
Hypothesis (Hns : message_namespace_ (members_at p) = Some ns)
  (Hnm : message_name_ (members_at p) = Some nm) (Hname : text_of nm <> []).

Lemma ns_terminated : terminated ns.
Proof. by apply (do_namespace _ (gt_tables p)). Qed.

Lemma nm_terminated : terminated nm.
Proof. by apply (do_name _ (gt_tables p)). Qed.

Lemma name_missing_spec : name_missing (Some p) = Done (members_at p).
Proof.
  unfold name_missing, table_of, first_character.
  cbn [fmap option_fmap option_map]. rewrite Hns, Hnm. cbn [access mbind outcome_bind].
  destruct (text_of_first nm nm_terminated) as (x & Hload & Hx).
  cbn [bool_decide decide stop_if orb mbind outcome_bind]. rewrite Hload.
  cbn [access mbind outcome_bind]. by rewrite Hx, bool_decide_false.
Qed.

Lemma cursor_init : name_cursor_init = cursor_of [].
Proof. reflexivity. Qed.

Lemma empty_fits : zlen ([] : list Z) <= 255.
Proof. simpl. lia. Qed.

(** Append a C string, then go on. *)
Lemma append_text_then {B} text b s t s' (k : name_cursor -> outcome unit B) a :
  terminated text -> zlen s <= 255 ->
  replaced (if b : bool then Some underscore else None) [colon; colon] (text_of text) = t ->
  (exists tail, s' = (s ++ t) ++ tail) ->
  (zlen (s ++ t) <= 255 -> k (cursor_of (s ++ t)) = fitting s' a) ->
  (append_text (Some text) b (cursor_of s) ≫= k) = fitting s' a.
Proof.
  intros Ht Hs <- Htail Hk. rewrite append_text_spec by done. by apply fitting_bind.
Qed.

(** The part of a type name behind its namespace. *)
Lemma type_name_tail s :
  zlen s <= 255 ->
  let t := s ++ [100; 100; 115; 95; colon; colon] ++ text_of nm ++ [underscore] in
  (c ← append_text (Some [100; 100; 115; 95; colon; colon; 0]) false (cursor_of s);
   c ← append_text (Some nm) false c;
   c ← append_character underscore c; Done (candidate c)) = fitting t (padded t).
Proof.
  intros Hs t. subst t.
  eapply append_text_then; [unfold terminated; set_solver|done|reflexivity|
    eexists; by rewrite <- app_assoc|].
  intros H1. eapply append_text_then; [apply nm_terminated|done|reflexivity|
    eexists; by rewrite <- !app_assoc|].
  intros H2. apply append_then; [done|exists []; by rewrite app_nil_r, <- !app_assoc|].
  intros H3. rewrite <- !app_assoc in *. cbn [candidate cursor_of]. by apply fitting_Done.
Qed.

Lemma build_type_name_spec b :
  build_type_name (Some p) b = fitting (dds_type_text b ns nm) (padded (dds_type_text b ns nm)).
Proof.
  unfold build_type_name. rewrite name_missing_spec. cbn [mbind outcome_bind].
  rewrite Hns, Hnm, cursor_init. unfold first_character. cbn [access mbind outcome_bind].
  destruct (text_of_first ns ns_terminated) as (x & -> & Hx). cbn [access mbind outcome_bind].
  rewrite Hx. unfold dds_type_text. case_bool_decide as Hempty; cbn [negb].
  - rewrite decide_True by done. apply (type_name_tail []), empty_fits.
  - rewrite decide_False by done. rewrite outcome_bind_assoc.
    eapply append_text_then; [apply ns_terminated|apply empty_fits|reflexivity|
      destruct b; eexists; by rewrite <- !app_assoc|].
    intros H1. eapply append_text_then; [unfold terminated; set_solver|done|reflexivity|
      destruct b; eexists; by rewrite <- !app_assoc|].
    intros H2. rewrite type_name_tail by done. by destruct b; rewrite <- !app_assoc.
Qed.

Lemma build_ros_type_name_spec b :
  build_ros_type_name (Some p) b =
  fitting (ros_type_text b ns nm) (padded (ros_type_text b ns nm)).
Proof.
  unfold build_ros_type_name. rewrite name_missing_spec. cbn [mbind outcome_bind].
  rewrite Hns, Hnm, cursor_init. cbn [access mbind outcome_bind].
  rewrite append_namespace_scan, scan_spec by (apply ns_terminated || apply empty_fits).
  unfold ros_type_text. apply fitting_bind; [eexists; by rewrite <- app_assoc|].
  intros H1. destruct (text_of_first ns ns_terminated) as (x & -> & Hx).
  cbn [access mbind outcome_bind app] in *. rewrite Hx.
  set (t := replaced _ _ (text_of ns)) in *.
  assert (forall s, zlen s <= 255 ->
    (c ← append_text (Some nm) false (cursor_of s); Done (candidate c)) =
    fitting (s ++ text_of nm) (padded (s ++ text_of nm))) as Htail.
  { intros s Hs. eapply append_text_then; [apply nm_terminated|done|reflexivity|
      exists []; by rewrite app_nil_r|].
    intros H2. cbn [candidate cursor_of]. by apply fitting_Done. }
  case_bool_decide as Hempty; cbn [negb].
  - rewrite decide_True by done. by apply Htail.
  - rewrite decide_False by done.
    apply append_then; [done|exists (text_of nm); by rewrite <- !app_assoc|].
    intros H2. rewrite Htail by done. by rewrite <- !app_assoc.
Qed.
End Names.

(** ** The public functions *)

(** Run the checks for null pointers that are not null. *)
Ltac not_null :=
  repeat first
    [ match goal with |- context [bool_decide (Some ?x = None)] =>
        rewrite (bool_decide_false (Some x = None)) by done end
    | progress cbn [access mbind outcome_bind stop_if orb negb fmap option_fmap option_map] ].

Section Public.
Context `{GeneratedTypes}.

Lemma derive_type_name_spec h p lang ns nm :
  data h = Some p ->
  identifier_language (typesupport_identifier h) =
    (Done (Some lang) : outcome TypeSupportError _) ->
  message_namespace_ (members_at p) = Some ns -> message_name_ (members_at p) = Some nm ->
  text_of nm <> [] ->
  let t := dds_type_text (bool_decide (lang = introspection_c)) ns nm in
  derive_type_name (Some h) =
  if zlen t <=? 255 then Done (lang, padded t) else Stop name_limit_exceeded.
Proof.
  intros Hp Hlang Hns Hnm Hname t. unfold derive_type_name, table_of. rewrite Hp.
  not_null. rewrite Hlang. not_null.
  rewrite (build_type_name_spec p ns nm) by done. rewrite Hns, Hnm. unfold first_character.
  not_null. destruct (text_of_first nm) as (x & -> & Hx); [by apply (do_name _ (gt_tables p))|].
  cbn [access mbind outcome_bind]. rewrite Hx, (bool_decide_false (text_of nm = [])) by done. fold t.
  unfold fitting. by destruct (zlen t <=? 255).
Qed.

(** Every handle with terminated texts gets a name or an error. *)
Lemma derive_type_name_total h :
  (forall s, typesupport_identifier h = Some s -> terminated s) ->
  derive_type_name (Some h) <> Fault.
Proof.
  intros Hid. pose proof (derive_type_name_spec h) as Hspec.
  pose proof (identifier_language_safe (E:=TypeSupportError) _ Hid) as [r Hr].
  rewrite Hr in Hspec. unfold derive_type_name, table_of in *.
  destruct (data h) as [p|]; [|done]. revert Hspec. not_null. rewrite Hr. intros Hspec.
  cbn [mbind outcome_bind]. destruct r as [lang|]; [|done]. not_null.
  destruct (message_namespace_ (members_at p)) as [ns|] eqn:Hns; [|done].
  destruct (message_name_ (members_at p)) as [nm|] eqn:Hnm; [|done].
  destruct (decide (text_of nm = [])) as [Hempty|Hname].
  - not_null. unfold first_character. not_null.
    destruct (text_of_first nm) as (x & -> & Hx); [by apply (do_name _ (gt_tables p))|].
    cbn [access mbind outcome_bind]. by rewrite Hx, (bool_decide_true (text_of nm = [])).
  - specialize (Hspec p lang ns nm eq_refl eq_refl Hns Hnm Hname). cbv zeta in Hspec.
    revert Hspec. not_null. intros ->. by case_match.
Qed.

Lemma text_of_nil_first memory :
  terminated memory -> text_of memory <> [] ->
  exists x, (first_character (Some memory) : outcome TypeSupportError Z) = Done x /\
    (x =? 0) = false.
Proof.
  intros Ht Hne. destruct (text_of_first memory Ht) as (x & Hload & Hx).
  exists x. unfold first_character. cbn [access mbind outcome_bind].
  rewrite Hload. split; [done|]. by rewrite Hx, bool_decide_false.
Qed.

(** The topic name alone. *)
Lemma topic_name_spec channel prefix suffix ros_name avoid :
  channel_affixes channel = Some (prefix, suffix) -> terminated ros_name ->
  let t := channel_topic channel (negb avoid) ros_name in
  (c ← (if negb avoid then append_text (Some prefix) false name_cursor_init
        else Done name_cursor_init);
   c ← append_text (Some ros_name) false c;
   append_text (Some suffix) false c) = fitting t (cursor_of t).
Proof.
  intros Hc Ht t. subst t. unfold channel_topic. rewrite Hc.
  assert (terminated prefix /\ terminated suffix) as [Hpre Hsuf]
    by (destruct channel; simplify_eq; unfold terminated; set_solver).
  rewrite cursor_init.
  assert (forall s, zlen s <= 255 ->
    (c ← append_text (Some ros_name) false (cursor_of s);
     append_text (Some suffix) false c) =
    fitting (s ++ text_of ros_name ++ text_of suffix)
      (cursor_of (s ++ text_of ros_name ++ text_of suffix))) as Htail.
  { intros s Hs. eapply append_text_then; [done|done|reflexivity|
      eexists; by rewrite <- !app_assoc|].
    intros H1. rewrite append_text_spec by done. cbn [replaced]. by rewrite <- !app_assoc. }
  destruct avoid; cbn [negb].
  - apply (Htail []), empty_fits.
  - eapply append_text_then; [done|apply empty_fits|reflexivity|
      eexists; by rewrite <- !app_assoc|].
    intros H1. by apply Htail.
Qed.

(** For a type with a namespace and a name, [map_ros_to_dds_names] returns the names
    of the ROS-over-DDS convention (the channel's prefix and suffix around the ROS name,
    the namespace with its separators converted, [dds_::] before and [_] behind the type)
    in zero-padded arrays exactly when each of them fits, and reports
    [name_limit_exceeded] otherwise. *)
Theorem map_names_exact h p lang ns nm channel prefix suffix ros_name avoid :
  data h = Some p ->
  identifier_language (typesupport_identifier h) =
    (Done (Some lang) : outcome TypeSupportError _) ->
  message_namespace_ (members_at p) = Some ns -> message_name_ (members_at p) = Some nm ->
  text_of nm <> [] -> channel_affixes channel = Some (prefix, suffix) ->
  terminated ros_name -> text_of ros_name <> [] ->
  let c := bool_decide (lang = introspection_c) in
  let dds := dds_type_text c ns nm in
  let ros := ros_type_text c ns nm in
  let t := channel_topic channel (negb avoid) ros_name in
  map_ros_to_dds_names (Some h) channel (Some ros_name) avoid =
  if (zlen dds <=? 255) && (zlen ros <=? 255) && (zlen t <=? 255)
  then Done {| topic_name := padded t; type_name := padded dds;
               ros_type_name := padded ros |}
  else Stop name_limit_exceeded.
Proof.
  intros Hp Hlang Hns Hnm Hname Hc Hros Hros' c dds ros t.
  unfold map_ros_to_dds_names. not_null.
  destruct (text_of_nil_first ros_name Hros Hros') as (x & -> & Hx).
  cbn [mbind outcome_bind]. rewrite Hx, Hc. cbn [stop_if mbind outcome_bind].
  rewrite (derive_type_name_spec h p lang ns nm) by done. fold c dds.
  destruct (zlen dds <=? 255); [|done]. cbn [mbind outcome_bind andb].
  unfold derive_ros_type_name. rewrite Hp. not_null.
  rewrite (build_ros_type_name_spec p ns nm) by done. fold c ros. unfold fitting at 1.
  destruct (zlen ros <=? 255); [|done]. cbn [map_stop mbind outcome_bind andb].
  rewrite (topic_name_spec channel prefix suffix ros_name avoid) by done. fold t.
  unfold fitting. by destruct (zlen t <=? 255).
Qed.
End Public.

(** ** Different topics *)

Lemma text_of_nonzero memory : Forall (fun c => c <> 0) (text_of memory).
Proof. induction memory as [|x l IH]; simpl; [done|]. by destruct (Z.eqb_spec x 0); constructor. Qed.

Lemma text_of_app_zero s rest : Forall (fun c => c <> 0) s -> text_of (s ++ 0 :: rest) = s.
Proof.
  induction 1 as [|x s Hx Hs IH]; [done|]. simpl. destruct (Z.eqb_spec x 0); [done|].
  by rewrite IH.
Qed.

Lemma text_of_padded s : Forall (fun c => c <> 0) s -> zlen s <= 255 -> text_of (padded s) = s.
Proof.
  unfold padded. intros Hs Hlen.
  replace (256 - length s)%nat with (S (255 - length s)) by lia. by apply text_of_app_zero.
Qed.

Lemma channel_topic_nonzero channel b ros_name :
  Forall (fun c => c <> 0) (channel_topic channel b ros_name).
Proof.
  unfold channel_topic. destruct (channel_affixes channel) as [[x y]|]; [|constructor].
  apply Forall_app; split; [destruct b; [apply text_of_nonzero|constructor]|].
  apply Forall_app; split; apply text_of_nonzero.
Qed.

Lemma channel_topic_inj channel1 channel2 n1 n2 :
  is_Some (channel_affixes channel1) -> is_Some (channel_affixes channel2) ->
  channel_topic channel1 true n1 = channel_topic channel2 true n2 ->
  channel1 = channel2 /\ text_of n1 = text_of n2.
Proof.
  intros [a1 H1] [a2 H2] Heq. unfold channel_topic in Heq.
  destruct channel1, channel2; simplify_eq/=; (split; [done|]); try done;
    by eapply app_inv_tail.
Qed.

Section Distinct.
Context `{GeneratedTypes}.

(** The names of a topic that was mapped. *)
Lemma map_names_topic h channel ros_name avoid n :
  terminated ros_name ->
  map_ros_to_dds_names (Some h) channel (Some ros_name) avoid = Done n ->
  is_Some (channel_affixes channel) /\
  topic_name n = padded (channel_topic channel (negb avoid) ros_name) /\
  zlen (channel_topic channel (negb avoid) ros_name) <= 255.
Proof.
  intros Ht Hmap. unfold map_ros_to_dds_names in Hmap. inv_done.
  destruct (channel_affixes channel) as [[pre suf]|] eqn:Hc; [|done].
  inv_done. destruct a0 as [lang name]. inv_done.
  apply map_stop_Done in Ha2. pose proof (topic_name_spec channel pre suf ros_name avoid Hc Ht) as Hs.
  cbv zeta in Hs. rewrite Hs in Ha2. unfold fitting in Ha2.
  destruct (Z.leb_spec (zlen (channel_topic channel (negb avoid) ros_name)) 255); [|done].
  injection Ha2 as <-. by split_and!; [eexists|..].
Qed.

(** C33: under the naming convention two mapped names share a DDS topic only if they are of
    one channel (topic, service request or service response) and have one ROS name: the
    topics of a service and those of plain topics never collide. *)
Theorem topics_distinct h1 h2 channel1 channel2 name1 name2 n1 n2 :
  terminated name1 -> terminated name2 ->
  map_ros_to_dds_names (Some h1) channel1 (Some name1) false = Done n1 ->
  map_ros_to_dds_names (Some h2) channel2 (Some name2) false = Done n2 ->
  topic_name n1 = topic_name n2 ->
  channel1 = channel2 /\ text_of name1 = text_of name2.
Proof.
  intros Ht1 Ht2 Hm1 Hm2 Heq.
  apply map_names_topic in Hm1 as (Hc1 & Hn1 & Hl1); [|done].
  apply map_names_topic in Hm2 as (Hc2 & Hn2 & Hl2); [|done].
  apply channel_topic_inj; [done..|].
  rewrite <- (text_of_padded _ (channel_topic_nonzero channel1 true name1)) by done.
  rewrite <- (text_of_padded _ (channel_topic_nonzero channel2 true name2)) by done.
  simpl in *. congruence.
Qed.
End Distinct.

(** ** On the types of the tests *)

Import SampleTypes.

Lemma map_names_exact_witness :
  map_ros_to_dds_names (Some SampleTypes.c_handle) service_request
    (Some (SampleTypes.text "/add")) false =
  Done {| topic_name := padded (text_of (SampleTypes.text "rq/addRequest"));
          type_name := padded (text_of (SampleTypes.text "codec_msgs::msg::dds_::Bounded_"));
          ros_type_name := padded (text_of (SampleTypes.text "codec_msgs/msg/Bounded")) |}.
Proof.
  rewrite (map_names_exact SampleTypes.c_handle 1 introspection_c
    (SampleTypes.text "codec_msgs__msg") (SampleTypes.text "Bounded") service_request
    [114; 113; 0] [82; 101; 113; 117; 101; 115; 116; 0] (SampleTypes.text "/add") false);
    [by vm_compute|done|by vm_compute|done|done|done|done|apply SampleTypes.text_terminated|done].
Defined.

Lemma topics_distinct_witness :
  exists n1 n2,
    map_ros_to_dds_names (Some SampleTypes.c_handle) topic
      (Some (SampleTypes.text "/scan")) false = Done n1 /\
    map_ros_to_dds_names (Some SampleTypes.cpp_handle) topic
      (Some (SampleTypes.text "/scan" ++ [7])) false = Done n2 /\
    topic_name n1 = topic_name n2 /\
    text_of (SampleTypes.text "/scan") = text_of (SampleTypes.text "/scan" ++ [7]).
Proof.
  destruct (map_ros_to_dds_names (Some SampleTypes.c_handle) topic
              (Some (SampleTypes.text "/scan")) false) as [| |n1] eqn:Hn1;
    [vm_compute in Hn1; discriminate..|].
  destruct (map_ros_to_dds_names (Some SampleTypes.cpp_handle) topic
              (Some (SampleTypes.text "/scan" ++ [7])) false) as [| |n2] eqn:Hn2;
    [vm_compute in Hn2; discriminate..|].
  assert (topic_name n1 = topic_name n2) as Heq.
  { vm_compute in Hn1, Hn2. injection Hn1 as <-. by injection Hn2 as <-. }
  exists n1, n2. split_and!; [done..|].
  apply (topics_distinct SampleTypes.c_handle SampleTypes.cpp_handle topic topic
    (SampleTypes.text "/scan") (SampleTypes.text "/scan" ++ [7]) n1 n2);
    [apply SampleTypes.text_terminated| |exact Hn1|exact Hn2|exact Heq].
  apply elem_of_app. left. apply SampleTypes.text_terminated.
Defined.

End TypeNames.
