(* ===== verification/CodecSpec.v ===== *)
(** * What a message holds

    The reference definitions the codec of [Xcdr1Codec.v] is measured against: the sequence
    of CDR values a message denotes, the storage a message type asks for, and a destination
    that has room for the contents of a message. *)
From stdpp Require Import list.
From S2P Require Import Prelude Bytes Cdr Introspection TypeSupport.

Module CodecSpec.
Import Introspection TypeSupport.

(** ** Scalars *)

(** The width of a scalar other than a boolean, and the CDR value of its representation. *)
Definition scalar_codec (t : ros_type) : option (Z * (Z -> Cdr.cdr_value)) :=
  match t with
  | ROS_TYPE_CHAR | ROS_TYPE_OCTET | ROS_TYPE_UINT8 | ROS_TYPE_INT8 =>
      Some (1, Cdr.VUint8)
  | ROS_TYPE_UINT16 => Some (2, Cdr.VUint16)
  | ROS_TYPE_INT16 => Some (2, fun b => Cdr.VInt16 (signed 16 b))
  | ROS_TYPE_FLOAT => Some (4, Cdr.VFloat32)
  | ROS_TYPE_UINT32 => Some (4, Cdr.VUint32)
  | ROS_TYPE_INT32 => Some (4, fun b => Cdr.VInt32 (signed 32 b))
  | ROS_TYPE_DOUBLE => Some (8, Cdr.VFloat64)
  | ROS_TYPE_UINT64 => Some (8, Cdr.VUint64)
  | ROS_TYPE_INT64 => Some (8, fun b => Cdr.VInt64 (signed 64 b))
  | _ => None
  end.

Definition scalar_value (t : ros_type) (s : storage) : option Cdr.cdr_value :=
  if decide (t = ROS_TYPE_BOOLEAN) then
    match s with Boolean b => Some (Cdr.VBool b) | _ => None end
  else
    match scalar_codec t, s with
    | Some (width, f), Scalar w bits =>
        if w =? width then Some (f (bits mod 2 ^ (8 * width))) else None
    | _, _ => None
    end.

(** The characters of a string field; [None] where a C string is inconsistent. *)
Definition string_content (lang : TypeSupportLanguage) (s : storage) : option (list Z) :=
  match lang, s with
  | introspection_c, CString None size _ => if (size =? 0)%N then Some [] else None
  | introspection_c, CString (Some text) size capacity =>
      if (Z.of_N size <? capacity) && bool_decide (mload text (Z.of_N size) = Some 0)
      then Some (take (N.to_nat size) text) else None
  | introspection_cpp, CppString chars _ => Some chars
  | _, _ => None
  end.

(** ** The values of a message *)

(** Two parts of a message, if both have a value. *)
Definition opt_app {A} (a b : option (list A)) : option (list A) :=
  x ← a; y ← b; Some (x ++ y).

Fixpoint opt_concat {A B} (f : A -> option (list B)) (l : list A) : option (list B) :=
  match l with
  | [] => Some []
  | x :: l' => opt_app (f x) (opt_concat f l')
  end.

Definition element_count_ok (m : MessageMember) (n : Z) : bool :=
  (if is_upper_bound_ m then n <=? array_size_ m else n =? array_size_ m) &&
  (n <=? u32_max).

Section Values.
Context `{RosRuntime} (lang : TypeSupportLanguage).

Definition nested_table (m : MessageMember) : option Z :=
  h ← members_ m; data h.

Definition value_values (nested : Z -> storage -> option (list Cdr.cdr_value))
    (m : MessageMember) (s : storage) : option (list Cdr.cdr_value) :=
  if decide (type_id_ m = ROS_TYPE_STRING) then
    chars ← string_content lang s;
    if zlen chars <=? string_upper_bound_ m
    then Some [Cdr.VString chars (string_upper_bound_ m)] else None
  else if decide (type_id_ m = ROS_TYPE_MESSAGE) then
    p ← nested_table m; nested p s
  else (fun v => [v]) <$> scalar_value (type_id_ m) s.

Definition array_values (nested : Z -> storage -> option (list Cdr.cdr_value))
    (m : MessageMember) (s : storage) : option (list Cdr.cdr_value) :=
  match s with
  | Array l =>
      if element_count_ok m (zlen l) then
        opt_app (Some (if is_upper_bound_ m then [Cdr.VUint32 (zlen l)] else []))
          (opt_concat (value_values nested m) l)
      else None
  | _ => None
  end.

Definition field_values (nested : Z -> storage -> option (list Cdr.cdr_value))
    (message : storage) (m : MessageMember) : option (list Cdr.cdr_value) :=
  s ← field_at message (m_offset_ m);
  (if is_array_ m then array_values else value_values) nested m s.

(** The members of a table. *)
Definition fields_of (p : Z) : list MessageMember :=
  default [] (member_table_ (members_at p)).

Fixpoint message_values (fuel : nat) (p : Z) (message : storage)
    : option (list Cdr.cdr_value) :=
  match fuel with
  | O => None
  | S fuel => opt_concat (field_values (message_values fuel) message) (fields_of p)
  end.

(** ** Storage of the right shape *)

Definition laid_value (nested : Z -> storage -> Prop) (m : MessageMember) (s : storage)
    : Prop :=
  if decide (type_id_ m = ROS_TYPE_STRING) then
    match lang, s with
    | introspection_c, CString d _ capacity =>
        0 <= capacity < 2 ^ 64 /\ forall text, d = Some text -> capacity <= zlen text
    | introspection_cpp, CppString _ capacity => 0 <= capacity < 2 ^ 64
    | _, _ => False
    end
  else if decide (type_id_ m = ROS_TYPE_MESSAGE) then
    exists p, nested_table m = Some p /\ nested p s
  else if decide (type_id_ m = ROS_TYPE_BOOLEAN) then exists b, s = Boolean b
  else match scalar_codec (type_id_ m) with
       | Some (width, _) => exists bits, s = Scalar width bits
       | None => True
       end.

Definition laid_array (nested : Z -> storage -> Prop) (m : MessageMember) (s : storage)
    : Prop :=
  exists l, s = Array l /\ forall x, x ∈ l -> laid_value nested m x.

Definition laid_field (nested : Z -> storage -> Prop) (message : storage)
    (m : MessageMember) : Prop :=
  exists s, field_at message (m_offset_ m) = Some s /\
    (if is_array_ m then laid_array else laid_value) nested m s.

(** A message laid out as its type asks: the table lists its members, every field is there
    and has the right kind; nothing is said about what it holds. *)
Fixpoint laid_out (fuel : nat) (p : Z) (message : storage) : Prop :=
  match fuel with
  | O => False
  | S fuel => zlen (fields_of p) = member_count_ (members_at p) /\
      forall m, m ∈ fields_of p -> laid_field (laid_out fuel) message m
  end.

(** ** Destinations with room *)

Definition room_value (nested : Z -> storage -> storage -> Prop) (m : MessageMember)
    (src dst : storage) : Prop :=
  if decide (type_id_ m = ROS_TYPE_STRING) then
    forall chars, string_content lang src = Some chars ->
    match dst with
    | CString d _ capacity => is_Some d /\ zlen chars < capacity
    | CppString _ capacity => zlen chars <= capacity
    | _ => False
    end
  else if decide (type_id_ m = ROS_TYPE_MESSAGE) then
    forall p, nested_table m = Some p -> nested p src dst
  else True.

Definition room_field (nested : Z -> storage -> storage -> Prop) (src dst : storage)
    (m : MessageMember) : Prop :=
  forall s d, field_at src (m_offset_ m) = Some s -> field_at dst (m_offset_ m) = Some d ->
  if is_array_ m then
    forall l, s = Array l -> exists l', d = Array l' /\ Forall2 (room_value nested m) l l'
  else room_value nested m s d.

(** [dst] can take what [src] holds: sequences have its lengths, strings capacity for its
    characters. *)
Fixpoint has_room (fuel : nat) (p : Z) (src dst : storage) : Prop :=
  match fuel with
  | O => False
  | S fuel => forall m, m ∈ fields_of p -> room_field (has_room fuel) src dst m
  end.

(** Fields of a message do not overlap. *)
Definition disjoint_fields : Prop := forall p, NoDup (m_offset_ <$> fields_of p).
End Values.

(** ** Lemmas *)

Lemma opt_app_Some {A} (a b : option (list A)) l :
  opt_app a b = Some l <-> exists x y, a = Some x /\ b = Some y /\ l = x ++ y.
Proof. unfold opt_app. destruct a, b; naive_solver. Qed.

Lemma opt_concat_ext {A B} (f g : A -> option (list B)) l :
  (forall x, x ∈ l -> f x = g x) -> opt_concat f l = opt_concat g l.
Proof.
  induction l as [|x l IH]; intros Hfg; simpl; [done|].
  rewrite Hfg by set_solver. rewrite IH; [done|]. set_solver.
Qed.

Lemma opt_concat_app {A B} (f : A -> option (list B)) l1 l2 :
  opt_concat f (l1 ++ l2) = opt_app (opt_concat f l1) (opt_concat f l2).
Proof.
  induction l1 as [|x l1 IH]; simpl; [by unfold opt_app; destruct (opt_concat f l2)|].
  rewrite IH. unfold opt_app. destruct (f x), (opt_concat f l1), (opt_concat f l2); simpl;
    try done. by rewrite app_assoc.
Qed.

(** The analysis and the codec agree on the scalars. *)
Lemma scalar_codec_layout t width f :
  scalar_codec t = Some (width, f) -> scalar_layout t = Some (width, width).
Proof. destruct t; simpl; naive_solver. Qed.

Lemma signed_range w b :
  0 < w -> 0 <= b < 2 ^ w -> - 2 ^ (w - 1) <= signed w b < 2 ^ (w - 1).
Proof.
  intros Hw Hb. unfold signed.
  assert (2 ^ w = 2 * 2 ^ (w - 1)) by (rewrite <- Z.pow_succ_r by lia; f_equal; lia).
  destruct (Z.ltb_spec b (2 ^ (w - 1))); lia.
Qed.

Lemma scalar_codec_ok t width f b :
  scalar_codec t = Some (width, f) -> 0 <= b < 2 ^ (8 * width) -> Cdr.value_ok (f b).
Proof.
  destruct t; intros [= <- <-]; simpl; intros Hb; try done;
    try apply (signed_range 16); try apply (signed_range 32); try apply (signed_range 64);
    done || lia.
Qed.

Lemma scalar_value_ok t s v : scalar_value t s = Some v -> Cdr.value_ok v.
Proof.
  unfold scalar_value. case_decide; [destruct s; by intros [= <-]|].
  destruct (scalar_codec t) as [[width f]|] eqn:Hc; [|done].
  destruct s; try done. destruct (Z.eqb_spec width0 width); [|done]. intros [= <-].
  eapply scalar_codec_ok; [done|]. apply Z.mod_pos_bound.
  apply Z.pow_pos_nonneg; [lia|]. destruct t; try done; injection Hc as <- _; lia.
Qed.

End CodecSpec.
