(* ===== verification/Xcdr1Codec.v ===== *)
(** * The XCDR1 codec of ROS messages

    [rmw_openrtdds_cpp/include/rmw_openrtdds_cpp/xcdr1_codec.hpp] and
    [rmw_openrtdds_cpp/src/xcdr1_codec.cpp]: messages are written and read by walking over
    their descriptors, with the CDR writer and reader of [Cdr.v].

    [return false] is [Stop] of the [CodecResult] the call leaves behind, together with
    what it may have changed: the writer, or the message being filled.  The walk is
    recursive through nested messages without a bound of its own; it runs with the fuel of
    the analysis that accepted the type. *)
From stdpp Require Import list.
From S2P Require Import Prelude Bytes Cdr Introspection TypeSupport.

Module Codec.
Import Introspection TypeSupport.

(** [enum class CodecByteOrder : uint8_t]; the code checks for other values. *)
Inductive CodecByteOrder : Set :=
  | codec_big_endian | codec_little_endian | raw_codec_byte_order (value : Z).

Inductive CodecError : Set :=
  | codec_none
  | codec_invalid_argument
  | type_support_rejected
  | invalid_message_storage
  | callback_missing
  | field_bound_exceeded
  | destination_size_mismatch
  | output_too_small
  | input_truncated
  | codec_unsupported_encoding
  | invalid_wire_data
  | trailing_data
  | cdr_failure.

#[global] Instance CodecError_eq_dec : EqDecision CodecError.
Proof. solve_decision. Defined.

Record CodecResult : Set := {
  c_error : CodecError;
  type_support_error : TypeSupportError;
  bytes_processed : Z;
}.

Definition codec_error_string (error : CodecError) : string :=
  match error with
  | codec_none => "none"
  | codec_invalid_argument => "invalid_argument"
  | type_support_rejected => "type_support_rejected"
  | invalid_message_storage => "invalid_message_storage"
  | callback_missing => "callback_missing"
  | field_bound_exceeded => "field_bound_exceeded"
  | destination_size_mismatch => "destination_size_mismatch"
  | output_too_small => "output_too_small"
  | input_truncated => "input_truncated"
  | codec_unsupported_encoding => "unsupported_encoding"
  | invalid_wire_data => "invalid_wire_data"
  | trailing_data => "trailing_data"
  | cdr_failure => "cdr_failure"
  end.

(** [fail(result, error, bytes)] on a result that was reset by the public function. *)
Definition codec_fail (error : CodecError) (bytes : Z) : CodecResult :=
  {| c_error := error; type_support_error := ts_none; bytes_processed := bytes |}.

Definition map_cdr_error (error : Cdr.CdrError) : CodecError :=
  match error with
  | Cdr.overflow => output_too_small
  | Cdr.underflow => input_truncated
  | Cdr.unsupported_encoding => codec_unsupported_encoding
  | Cdr.invalid_data => invalid_wire_data
  | Cdr.bound_exceeded => field_bound_exceeded
  | Cdr.invalid_argument | Cdr.not_initialized | Cdr.CdrError_none => cdr_failure
  end.

Definition writer_failure (w : Cdr.CdrWriter) : CodecResult :=
  codec_fail (map_cdr_error (Cdr.error_ w)) (Cdr.offset_ w).

Definition reader_failure (r : Cdr.CdrReader) : CodecResult :=
  codec_fail (map_cdr_error (Cdr.rerror_ r)) (Cdr.roffset_ r).

(** ** Access to the fields of a message *)

(** [load_value<bool>], [load_value<T>] for the other types: the representation. *)
Definition load_bool {E} (s : storage) : outcome E bool :=
  match s with Boolean b => Done b | _ => Fault end.

Definition load_value {E} (width : Z) (s : storage) : outcome E Z :=
  match s with
  | Scalar w bits => if w =? width then Done (bits mod 2 ^ (8 * width)) else Fault
  | _ => Fault
  end.

Definition store_bool {E} (s : storage) (value : bool) : outcome E storage :=
  match s with Boolean _ => Done (Boolean value) | _ => Fault end.

Definition store_value {E} (width : Z) (s : storage) (bits : Z) : outcome E storage :=
  match s with
  | Scalar w _ => if w =? width then Done (Scalar width bits) else Fault
  | _ => Fault
  end.

(** ** Serialisation *)

(** What a step of the serialisation returns. *)
Abbreviation written_by := (outcome (CodecResult * Cdr.CdrWriter) Cdr.CdrWriter).

(** [success ? true : writer_failure(writer, result)] *)
Definition codec_write (m : outcome Cdr.CdrWriter Cdr.CdrWriter) : written_by :=
  map_stop (fun w => (writer_failure w, w)) m.

(** [return fail(result, error, writer.size());] *)
Definition write_fail_if (c : bool) (error : CodecError) (w : Cdr.CdrWriter)
    : outcome (CodecResult * Cdr.CdrWriter) unit :=
  stop_if c (codec_fail error (Cdr.offset_ w), w).

Definition write_scalar (type_id : ros_type) (value : storage) (w : Cdr.CdrWriter)
    : written_by :=
  match type_id with
  | ROS_TYPE_BOOLEAN => v ← load_bool value; codec_write (Cdr.write_bool w v)
  | ROS_TYPE_CHAR | ROS_TYPE_OCTET | ROS_TYPE_UINT8 | ROS_TYPE_INT8 =>
      v ← load_value 1 value; codec_write (Cdr.write_uint8 w v)
  | ROS_TYPE_UINT16 => v ← load_value 2 value; codec_write (Cdr.cdr_write_uint16 w v)
  | ROS_TYPE_INT16 =>
      v ← load_value 2 value; codec_write (Cdr.write_int16 w (signed 16 v))
  | ROS_TYPE_FLOAT => v ← load_value 4 value; codec_write (Cdr.write_float32 w v)
  | ROS_TYPE_UINT32 => v ← load_value 4 value; codec_write (Cdr.cdr_write_uint32 w v)
  | ROS_TYPE_INT32 =>
      v ← load_value 4 value; codec_write (Cdr.write_int32 w (signed 32 v))
  | ROS_TYPE_DOUBLE => v ← load_value 8 value; codec_write (Cdr.write_float64 w v)
  | ROS_TYPE_UINT64 => v ← load_value 8 value; codec_write (Cdr.cdr_write_uint64 w v)
  | ROS_TYPE_INT64 =>
      v ← load_value 8 value; codec_write (Cdr.write_int64 w (signed 64 v))
  | _ => Stop (codec_fail type_support_rejected (Cdr.offset_ w), w)
  end.

Section Walk.
Context `{RosRuntime} (language : TypeSupportLanguage).

(** [nested_members]: the table behind [member.members_->data]. *)
Definition nested_members {E} (member : MessageMember) : outcome E Z :=
  handle ← access (members_ member);
  access (data handle).

(** The characters of a string field: [data] and [length], after the checks on the C
    representation. *)
Definition string_view (value : storage) (w : Cdr.CdrWriter)
    : outcome (CodecResult * Cdr.CdrWriter) (option (list Z) * Z) :=
  match language, value with
  | introspection_c, CString None size _ =>
      write_fail_if (negb (Z.of_N size =? 0)) invalid_message_storage w;;
      Done (None, Z.of_N size)
  | introspection_c, CString (Some text) size capacity =>
      write_fail_if (capacity <=? Z.of_N size) invalid_message_storage w;;
      last ← access (mload text (Z.of_N size));
      write_fail_if (negb (last =? 0)) invalid_message_storage w;;
      Done (Some text, Z.of_N size)
  | introspection_cpp, CppString chars _ => Done (Some chars, zlen chars)
  | _, _ => Fault
  end.

(** [nested] is the recursive call of [serialize_members]. *)
Definition serialize_value (nested : Z -> storage -> Cdr.CdrWriter -> written_by)
    (member : MessageMember) (value : storage) (w : Cdr.CdrWriter) : written_by :=
  if decide (type_id_ member = ROS_TYPE_STRING) then
    '(text, length_) ← string_view value w;
    write_fail_if (string_upper_bound_ member <? length_) field_bound_exceeded w;;
    codec_write (Cdr.write_string w text length_ (string_upper_bound_ member))
  else if decide (type_id_ member = ROS_TYPE_MESSAGE) then
    table ← nested_members member;
    nested table value w
  else write_scalar (type_id_ member) value w.

(** The element at [index], through [get_const_function] or [fetch_function]. *)
Definition element_of (member : MessageMember) (field : storage) (index : Z)
    : option storage :=
  match get_const_function member, fetch_function member with
  | Some get, _ => get field index
  | None, Some fetch => Some (fetch field index)
  | None, None => None
  end.

Definition serialize_array (nested : Z -> storage -> Cdr.CdrWriter -> written_by)
    (member : MessageMember) (field : storage) (w : Cdr.CdrWriter) : written_by :=
  match size_function member with
  | None => Stop (codec_fail callback_missing (Cdr.offset_ w), w)
  | Some size =>
      write_fail_if
        (bool_decide (get_const_function member = None) &&
         (bool_decide (type_id_ member <> ROS_TYPE_BOOLEAN) ||
          bool_decide (fetch_function member = None))) callback_missing w;;
      let count := size field in
      write_fail_if
        ((is_upper_bound_ member && (array_size_ member <? count)) ||
         (negb (is_upper_bound_ member) && negb (count =? array_size_ member)) ||
         (u32_max <? count)) field_bound_exceeded w;;
      w ← (if is_upper_bound_ member
           then codec_write (Cdr.cdr_write_uint32 w (u32 count)) else Done w);
      for_each (fun index w =>
          match element_of member field index with
          | None => Stop (codec_fail invalid_message_storage (Cdr.offset_ w), w)
          | Some element => serialize_value nested member element w
          end) (seqZ 0 count) w
  end.

Fixpoint serialize_members (fuel : nat) (members : Z) (message : storage)
    (w : Cdr.CdrWriter) : written_by :=
  match fuel with
  | O => Fault
  | S fuel =>
      let t := members_at members in
      for_each (fun index w =>
          table ← access (member_table_ t);
          member ← access (mload table index);
          field ← access (field_at message (m_offset_ member));
          (if is_array_ member then serialize_array else serialize_value)
            (serialize_members fuel) member field w)
        (seqZ 0 (member_count_ t)) w
  end.

(** ** Deserialisation *)

(** A pass over a destination: on failure the result and the destination as it was left;
    otherwise the reader behind the value and the destination. *)
Abbreviation pass := (outcome (CodecResult * storage) (Cdr.CdrReader * storage)).

(** A pass over a part of [whole], which [put] returns into it. *)
Definition inside (put : storage -> storage) (m : pass) : pass :=
  match m with
  | Fault => Fault
  | Stop (result, s) => Stop (result, put s)
  | Done (r, s) => Done (r, put s)
  end.

(** [return reader_failure(reader, result);] *)
Definition codec_read {A} (destination : storage)
    (m : outcome Cdr.CdrReader (A * Cdr.CdrReader))
    : outcome (CodecResult * storage) (A * Cdr.CdrReader) :=
  map_stop (fun r => (reader_failure r, destination)) m.

Definition read_fail_if (c : bool) (error : CodecError) (r : Cdr.CdrReader)
    (destination : storage) : outcome (CodecResult * storage) unit :=
  stop_if c (codec_fail error (Cdr.roffset_ r), destination).

(** [if (success && apply) store_value(destination, value);] *)
Definition read_bits (width : Z) (m : outcome Cdr.CdrReader (Z * Cdr.CdrReader))
    (destination : storage) (apply_ : bool) : pass :=
  '(value, r) ← codec_read destination m;
  destination ← (if apply_ then store_value width destination (value mod 2 ^ (8 * width))
                 else Done destination);
  Done (r, destination).

Definition read_scalar (type_id : ros_type) (r : Cdr.CdrReader) (destination : storage)
    (apply_ : bool) : pass :=
  match type_id with
  | ROS_TYPE_BOOLEAN =>
      '(value, r) ← codec_read destination (Cdr.read_bool r);
      destination ← (if apply_ then store_bool destination value else Done destination);
      Done (r, destination)
  | ROS_TYPE_CHAR | ROS_TYPE_OCTET | ROS_TYPE_UINT8 | ROS_TYPE_INT8 =>
      read_bits 1 (Cdr.read_uint8 r) destination apply_
  | ROS_TYPE_UINT16 => read_bits 2 (Cdr.cdr_read_uint16 r) destination apply_
  | ROS_TYPE_INT16 => read_bits 2 (Cdr.read_int16 r) destination apply_
  | ROS_TYPE_FLOAT => read_bits 4 (Cdr.read_float32 r) destination apply_
  | ROS_TYPE_UINT32 => read_bits 4 (Cdr.cdr_read_uint32 r) destination apply_
  | ROS_TYPE_INT32 => read_bits 4 (Cdr.read_int32 r) destination apply_
  | ROS_TYPE_DOUBLE => read_bits 8 (Cdr.read_float64 r) destination apply_
  | ROS_TYPE_UINT64 => read_bits 8 (Cdr.cdr_read_uint64 r) destination apply_
  | ROS_TYPE_INT64 => read_bits 8 (Cdr.read_int64 r) destination apply_
  | _ => Stop (codec_fail type_support_rejected (Cdr.roffset_ r), destination)
  end.

(** [std::string::resize] to at most the capacity does not allocate and cannot throw; with
    the copy behind it the string holds the characters of the view. *)
Definition process_string (member : MessageMember) (value : storage) (r : Cdr.CdrReader)
    (apply_ : bool) : pass :=
  '((view, length_), r) ←
    codec_read value (Cdr.read_string_view r (string_upper_bound_ member));
  match language, value with
  | introspection_c, CString None _ _ =>
      Stop (codec_fail invalid_message_storage (Cdr.roffset_ r), value)
  | introspection_c, CString (Some text) size capacity =>
      read_fail_if (capacity <=? length_) invalid_message_storage r value;;
      if apply_ then
        text ← (if negb (length_ =? 0) then access (mcopy text 0 view) else Done text);
        text ← access (mstore text length_ 0);
        Done (r, CString (Some text) (Z.to_N length_) capacity)
      else Done (r, value)
  | introspection_cpp, CppString chars capacity =>
      read_fail_if (capacity <? length_) invalid_message_storage r value;;
      if apply_ then Done (r, CppString view capacity) else Done (r, value)
  | _, _ => Fault
  end.

(** [nested] is the recursive call of [process_members]. *)
Definition process_value (nested : Z -> storage -> Cdr.CdrReader -> pass)
    (member : MessageMember) (value : storage) (r : Cdr.CdrReader) (apply_ : bool) : pass :=
  if decide (type_id_ member = ROS_TYPE_STRING) then process_string member value r apply_
  else if decide (type_id_ member = ROS_TYPE_MESSAGE) then
    table ← nested_members member;
    nested table value r
  else read_scalar (type_id_ member) r value apply_.

(** One iteration of the element loop.  Without [apply] the element is read through
    [get_const_function] and nothing is put back; without accessors to the elements the
    value goes through a local [boolean], which is assigned when it was read. *)
Definition process_element (nested : Z -> storage -> Cdr.CdrReader -> pass)
    (member : MessageMember) (apply_ : bool) (index : Z) (field : storage)
    (r : Cdr.CdrReader) : pass :=
  let missing := Stop (codec_fail invalid_message_storage (Cdr.roffset_ r), field) in
  if apply_ then
    match get_function member with
    | Some get =>
        match get field index with
        | None => missing
        | Some (element, put) =>
            inside put (process_value nested member element r apply_)
        end
    | None =>
        assign ← access (assign_function member);
        '(r, boolean) ← map_stop (fun '(result, _) => (result, field))
                          (process_value nested member (Boolean false) r apply_);
        Done (r, assign field index boolean)
    end
  else
    match get_const_function member with
    | Some get =>
        match get field index with
        | None => missing
        | Some element =>
            inside (fun _ => field) (process_value nested member element r apply_)
        end
    | None => inside (fun _ => field) (process_value nested member (Boolean false) r apply_)
    end.

(** The element count on the wire, or the fixed one. *)
Definition read_count (member : MessageMember) (field : storage) (r : Cdr.CdrReader)
    : outcome (CodecResult * storage) (Z * Cdr.CdrReader) :=
  if is_upper_bound_ member then
    '(count, r) ← codec_read field (Cdr.cdr_read_uint32 r);
    read_fail_if (array_size_ member <? count) field_bound_exceeded r field;;
    Done (count, r)
  else Done (array_size_ member, r).

Definition process_array (nested : Z -> storage -> Cdr.CdrReader -> pass)
    (member : MessageMember) (field : storage) (r : Cdr.CdrReader) (apply_ : bool) : pass :=
  match size_function member with
  | None => Stop (codec_fail callback_missing (Cdr.roffset_ r), field)
  | Some size =>
      '(count, r) ← read_count member field r;
      read_fail_if (negb (size field =? count)) destination_size_mismatch r field;;
      let direct := if apply_ then bool_decide (is_Some (get_function member))
                    else bool_decide (is_Some (get_const_function member)) in
      read_fail_if
        (negb direct && (bool_decide (type_id_ member <> ROS_TYPE_BOOLEAN) ||
                         bool_decide (assign_function member = None)))
        callback_missing r field;;
      for_each (fun index '(r, field) => process_element nested member apply_ index field r)
        (seqZ 0 count) (r, field)
  end.

Fixpoint process_members (fuel : nat) (apply_ : bool) (members : Z) (message : storage)
    (r : Cdr.CdrReader) : pass :=
  match fuel with
  | O => Fault
  | S fuel =>
      let t := members_at members in
      for_each (fun index '(r, message) =>
          table ← access (member_table_ t);
          member ← access (mload table index);
          field ← access (field_at message (m_offset_ member));
          inside (set_field message (m_offset_ member))
            (let nested := process_members fuel apply_ in
             if is_array_ member then process_array nested member field r apply_
             else process_value nested member field r apply_))
        (seqZ 0 (member_count_ t)) (r, message)
  end.
End Walk.

(** ** The public functions *)

Section Public.
Context `{RosRuntime}.

(** The result of the call, and the buffer. *)
Definition serialize_xcdr1 (ts : option type_support) (ros_message : option storage)
    (buffer : option (list Z)) (capacity : Z) (byte_order : CodecByteOrder)
    : outcome (CodecResult * option (list Z)) (CodecResult * option (list Z)) :=
  let cdr_order := match byte_order with
                   | codec_little_endian => little_endian
                   | _ => big_endian
                   end in
  stop_if (bool_decide (ts = None \/ ros_message = None \/ buffer = None) ||
           match byte_order with raw_codec_byte_order _ => true | _ => false end)
    (codec_fail codec_invalid_argument 0, buffer);;
  match analyze_type_support ts capacity with
  | Fault => Fault
  | Stop type_error =>
      Stop ({| c_error := type_support_rejected; type_support_error := type_error;
               bytes_processed := 0 |}, buffer)
  | Done info =>
      w ← map_stop (fun w => (writer_failure w, Cdr.buffer_ w))
            (Cdr.w_begin (Cdr.CdrWriter_new buffer capacity) cdr_order);
      handle ← access ts;
      members ← access (data handle);
      message ← access ros_message;
      w ← map_stop (fun '(result, w) => (result, Cdr.buffer_ w))
            (serialize_members (language info) analysis_fuel members message w);
      Done ({| c_error := codec_none; type_support_error := ts_none;
               bytes_processed := Cdr.offset_ w |}, Cdr.buffer_ w)
  end.

(** The result of the call, and the message. *)
Definition deserialize_xcdr1 (ts : option type_support) (buffer : option (list Z))
    (size maximum_sample_size : Z) (ros_message : option storage)
    : outcome (CodecResult * option storage) (CodecResult * option storage) :=
  let with_message {A} (m : outcome (CodecResult * storage) A)
        : outcome (CodecResult * option storage) A :=
    map_stop (fun '(result, s) => (result, Some s)) m in
  let unread {A} (m : outcome Cdr.CdrReader A)
        : outcome (CodecResult * option storage) A :=
    map_stop (fun r => (reader_failure r, ros_message)) m in
  stop_if (bool_decide (ts = None \/ buffer = None \/ ros_message = None) ||
           (maximum_sample_size <? size))
    (codec_fail codec_invalid_argument 0, ros_message);;
  match analyze_type_support ts maximum_sample_size with
  | Fault => Fault
  | Stop type_error =>
      Stop ({| c_error := type_support_rejected; type_support_error := type_error;
               bytes_processed := 0 |}, ros_message)
  | Done info =>
      validator ← unread (Cdr.r_begin (Cdr.CdrReader_new buffer size));
      handle ← access ts;
      members ← access (data handle);
      message ← access ros_message;
      '(validator, message) ←
        with_message (process_members (language info) analysis_fuel false members message
                        validator);
      stop_if (negb (Cdr.remaining validator =? 0))
        (codec_fail trailing_data (Cdr.roffset_ validator), Some message);;
      r ← unread (Cdr.r_begin (Cdr.CdrReader_new buffer size));
      '(r, message) ←
        with_message (process_members (language info) analysis_fuel true members message r);
      Done ({| c_error := codec_none; type_support_error := ts_none;
               bytes_processed := Cdr.roffset_ r |}, Some message)
  end.
End Public.

End Codec.
