(* ===== verification/CodecSerialize.v ===== *)
(** * Serialisation of ROS messages

    A type that the analysis accepts is serialised within the size it computed: the writer
    and the analysis walk over the descriptors in step, and the writer is never ahead. *)
From stdpp Require Import list.
From S2P Require Import Prelude Bytes Cdr Introspection TypeSupport TypeSupportFacts CodecSpec Xcdr1Codec.

Module CodecSerialize.
Import Introspection TypeSupport TypeSupportFacts CodecSpec Codec.

(** ** Sequences of values *)

Lemma all_bytes_app order vs1 vs2 : forall p,
  Cdr.all_bytes order p (vs1 ++ vs2) =
  Cdr.all_bytes order p vs1 ++ Cdr.all_bytes order (p ++ Cdr.all_bytes order p vs1) vs2.
Proof.
  induction vs1 as [|v vs1 IH]; intros p; simpl; [by rewrite app_nil_r|].
  by rewrite IH, <- !app_assoc.
Qed.

(** What the loops of the two walks share: the writer [w] has written [pre], and the
    analysis is at [offset], not before it. *)
Record tracks (w : Cdr.CdrWriter) (pre rest : list Z) (st : AnalysisState) : Prop := {
  tr_writer : Cdr.writer_at w pre rest;
  tr_offset : zlen pre - 4 <= offset st;
  tr_state : state_ok st;
  tr_capacity : body_limit st + 4 <= Cdr.capacity_ w;
}.

(** A step of the serialisation emits the values and stays behind the analysis, or the
    message has no values and the step reports which field is wrong. *)
Definition emits (w : Cdr.CdrWriter) (pre rest : list Z) (st' : AnalysisState)
    (m : written_by) (values : option (list Cdr.cdr_value)) : Prop :=
  match values with
  | Some vs =>
      Forall Cdr.value_ok vs /\
      let l := Cdr.all_bytes (Cdr.byte_order_ w) pre vs in
      m = Done (Cdr.emit w pre rest l) /\ zlen pre + zlen l - 4 <= offset st'
  | None =>
      exists e n w' b, m = Stop (codec_fail e n, w') /\ Cdr.buffer_ w' = Some b /\
        length b = (length pre + length rest)%nat /\
        (e = invalid_message_storage \/ e = field_bound_exceeded)
  end.

Lemma emit_nil w pre rest : Cdr.writer_at w pre rest -> Cdr.emit w pre rest [] = w.
Proof.
  intros []. unfold Cdr.emit, Cdr.w_set_buffer. rewrite app_nil_r, Z.add_0_r.
  destruct w; simpl in *; by subst.
Qed.

Lemma emits_nil w pre rest st :
  tracks w pre rest st -> emits w pre rest st (Done w) (Some []).
Proof.
  intros []. split; [constructor|]. simpl. rewrite emit_nil by done. split; [done|lia].
Qed.

Lemma emits_extends w pre rest st st' m vs :
  emits w pre rest st m vs -> extends st st' -> emits w pre rest st' m vs.
Proof.
  destruct vs as [vs|]; [|done]. simpl. intros (Hok & Hm & Hl) []. split_and!; [done..|lia].
Qed.

(** Two steps of the serialisation along two steps of the analysis. *)
Lemma emits_bind w pre rest st1 st2 m k vs1 vs2 :
  Cdr.writer_at w pre rest -> state_ok st1 -> body_limit st1 + 4 <= Cdr.capacity_ w ->
  emits w pre rest st1 m vs1 ->
  (forall w' pre' rest', tracks w' pre' rest' st1 ->
     Cdr.byte_order_ w' = Cdr.byte_order_ w -> Cdr.capacity_ w' = Cdr.capacity_ w ->
     emits w' pre' rest' st2 (k w') vs2) ->
  emits w pre rest st2 (m ≫= k) (opt_app vs1 vs2).
Proof.
  intros Hw Hst Hcap Hm Hk. destruct vs1 as [vs1|]; simpl in Hm; cycle 1.
  { destruct Hm as (e & n & w' & b & -> & Hb & He). by exists e, n, w', b. }
  destruct Hm as (Hok1 & -> & Hl1). set (l1 := Cdr.all_bytes _ pre vs1) in *.
  cbn [mbind outcome_bind].
  assert (tracks (Cdr.emit w pre rest l1) (pre ++ l1) (drop (length l1) rest) st1) as Htr.
  { destruct Hst. split; [|rewrite length_app; lia|done|done].
    apply Cdr.emit_at; [done|]. lia. }
  specialize (Hk _ _ _ Htr eq_refl eq_refl).
  pose proof (Cdr.wa_capacity _ _ _ Hw) as Hc.
  assert (length (pre ++ l1) + length (drop (length l1) rest) = length pre + length rest)%nat
    as Hlen.
  { rewrite length_app, length_drop. destruct Hst. lia. }
  destruct vs2 as [vs2|]; simpl in Hk |- *.
  - destruct Hk as (Hok2 & -> & Hl2). split; [by apply Forall_app|].
    rewrite all_bytes_app, Cdr.emit_emit. fold l1. split; [done|].
    rewrite !length_app in *. lia.
  - by rewrite Hlen in Hk.
Qed.

(** Writing one CDR value along an analysis that has room for it. *)
Lemma emits_value w pre rest st v m :
  Cdr.writer_at w pre rest -> Cdr.value_ok v -> m = codec_write (Cdr.write_value w v) ->
  zlen pre + zlen (Cdr.value_bytes (Cdr.byte_order_ w) pre v) - 4 <= offset st ->
  state_ok st -> body_limit st + 4 <= Cdr.capacity_ w ->
  emits w pre rest st m (Some [v]).
Proof.
  intros Hw Hv -> Hfit [] Hcap. split; [by repeat constructor|]. simpl.
  rewrite app_nil_r. split; [|done]. rewrite (Cdr.write_value_spec w pre rest v) by done.
  set (l := Cdr.value_bytes _ pre v) in *.
  by destruct (Z.ltb_spec (Cdr.capacity_ w) (zlen pre + zlen l)); [lia|].
Qed.

(** ** Alignment *)

(** The end of an aligned field grows with where it starts. *)
Lemma aligned_mono o o' a :
  0 < a -> o <= o' -> o + Cdr.padding o a <= o' + Cdr.padding o' a.
Proof.
  intros Ha Ho. unfold Cdr.padding.
  pose proof (Z.mod_pos_bound (- o) a Ha). pose proof (Z.mod_pos_bound (- o') a Ha).
  pose proof (Z.div_mod (- o) a). pose proof (Z.div_mod (- o') a).
  assert (a * (- o' / a) <= a * (- o / a)); [|lia].
  apply Z.mul_le_mono_nonneg_l; [lia|]. apply Z.div_le_mono; lia.
Qed.

(** An integral of [2 ^ k] bytes, when the analysis appended as many. *)
Lemma integral_fits order w pre rest st st' k v :
  tracks w pre rest st -> 0 <= k <= 3 ->
  append_aligned st (2 ^ k) (2 ^ k) = Done st' ->
  zlen pre + zlen (Cdr.integral_bytes order pre (2 ^ k) v) - 4 <= offset st'.
Proof.
  intros [Hw Ho Hst Hcap] Hk Happ.
  assert (0 < 2 ^ k < 2 ^ 64)
    by (split; [apply Z.pow_pos_nonneg|apply Z.pow_lt_mono_r]; lia).
  pose proof (append_aligned_spec st k (2 ^ k) Hst Hk ltac:(lia)) as Hs. cbv zeta in Hs.
  rewrite Happ in Hs. destruct (Z.leb_spec (offset st + Cdr.padding (offset st) (2 ^ k) + 2 ^ k)
    (body_limit st)); [|by destruct Hs as (? & ? & _)].
  destruct Hs as (st1 & [= <-] & -> & _).
  unfold Cdr.integral_bytes. rewrite length_app, encode_uint_length.
  pose proof (Cdr.pad_bytes_length pre (2 ^ k) ltac:(lia)).
  pose proof (aligned_mono (zlen pre - 4) (offset st) (2 ^ k) ltac:(lia) Ho). lia.
Qed.

Lemma append_aligned_extends st st' k width :
  state_ok st -> 0 <= k <= 3 -> 0 <= width < 2 ^ 64 ->
  append_aligned st (2 ^ k) width = Done st' -> extends st st'.
Proof.
  intros Hst Hk Hw Happ. pose proof (append_aligned_steps st k width Hst Hk Hw) as Hs.
  by rewrite Happ in Hs.
Qed.

Lemma tracks_emits_value w pre rest st st' k v m :
  tracks w pre rest st -> 0 <= k <= 3 -> Cdr.value_ok v ->
  m = codec_write (Cdr.write_value w v) ->
  (exists x, Cdr.value_bytes (Cdr.byte_order_ w) pre v =
             Cdr.integral_bytes (Cdr.byte_order_ w) pre (2 ^ k) x) ->
  append_aligned st (2 ^ k) (2 ^ k) = Done st' ->
  emits w pre rest st' m (Some [v]).
Proof.
  intros Htr Hk Hv Hm [x Hx] Happ. pose proof Htr as [Hw Ho Hst Hcap].
  assert (extends st st') as [].
  { eapply append_aligned_extends; [done|done| |done].
    split; [lia|apply Z.pow_lt_mono_r; lia]. }
  eapply emits_value; [done..| |done|congruence]. rewrite Hx. by eapply integral_fits.
Qed.

(** ** Scalars and strings *)

Lemma write_scalar_codec t width f s w :
  scalar_codec t = Some (width, f) ->
  write_scalar t s w = (v ← load_value width s; codec_write (Cdr.write_value w (f v))).
Proof. by destruct t; intros [= <- <-]. Qed.

Lemma scalar_codec_bytes t width f order pre b :
  scalar_codec t = Some (width, f) ->
  exists k x, 0 <= k <= 3 /\ width = 2 ^ k /\
    Cdr.value_bytes order pre (f b) = Cdr.integral_bytes order pre (2 ^ k) x.
Proof.
  destruct t; intros [= <- <-];
    solve [by eexists 0, _ | by eexists 1, _ | by eexists 2, _ | by eexists 3, _].
Qed.

Lemma scalar_codec_width t width f : scalar_codec t = Some (width, f) -> 0 < width.
Proof. destruct t; try done; intros [= <- _]; lia. Qed.

(** The analysis of a scalar and what the code writes for it. *)
Lemma write_scalar_emits lang nested m s w pre rest st st' :
  tracks w pre rest st ->
  (exists a, scalar_layout (type_id_ m) = Some (a, a) /\ append_aligned st a a = Done st') ->
  laid_value lang nested m s ->
  emits w pre rest st' (write_scalar (type_id_ m) s w)
    ((fun v => [v]) <$> scalar_value (type_id_ m) s).
Proof.
  intros Htr (a & Hl & Happ) Hlaid. unfold laid_value in Hlaid.
  rewrite !decide_False in Hlaid by (intros Heq; by rewrite Heq in Hl).
  unfold scalar_value. case_decide as Hb.
  { destruct Hlaid as [b ->]. rewrite Hb in *. injection Hl as <-.
    cbn [fmap option_fmap option_map].
    eapply (tracks_emits_value _ _ _ st st' 0); [done|lia|done|done|by eexists|done]. }
  destruct (scalar_codec (type_id_ m)) as [[width f]|] eqn:Hc; cycle 1.
  { by destruct (type_id_ m). }
  destruct Hlaid as [bits ->]. pose proof (scalar_codec_layout _ _ _ Hc) as Hl'.
  rewrite Hl in Hl'. injection Hl' as ->.
  rewrite (write_scalar_codec _ _ _ _ _ Hc). cbn [load_value]. rewrite Z.eqb_refl.
  cbn [fmap option_fmap option_map mbind outcome_bind].
  pose proof (scalar_codec_width _ _ _ Hc).
  destruct (scalar_codec_bytes _ _ _ (Cdr.byte_order_ w) pre (bits mod 2 ^ (8 * width)) Hc)
    as (k & x & Hk & Hw & Hx).
  eapply (tracks_emits_value _ _ _ st st' k); [done|done| |done|by eexists|by rewrite <- Hw].
  eapply scalar_codec_ok; [done|]. apply Z.mod_pos_bound, Z.pow_pos_nonneg; lia.
Qed.

(** The guarded copy takes the first [length] characters of what [data] points to. *)
Lemma write_string_prefix w text n bound :
  0 <= n <= zlen text ->
  Cdr.write_string w (Some text) n bound =
  Cdr.write_value w (Cdr.VString (take (Z.to_nat n) text) bound).
Proof.
  intros Hn. simpl. unfold Cdr.write_string.
  assert (zlen (take (Z.to_nat n) text) = n) as -> by (rewrite length_take; lia).
  cbn [Cdr.null_with_size]. do 4 (destruct (Cdr.w_fail_if _ _ _); [done..|]; cbn [mbind outcome_bind]).
  destruct (Cdr.reserve _ _ _) as [| |[start w1]]; simpl; [done..|].
  destruct (Cdr.store_integral _ _ _ _) as [| |w2]; simpl; [done..|].
  unfold Cdr.copy_in. destruct (Z.eqb_spec n 0); [done|]. simpl.
  rewrite <- (take_drop (Z.to_nat n) text) at 1.
  rewrite mslice_start by (rewrite length_take; lia).
  pose proof (mslice_full (take (Z.to_nat n) text)) as Hfull.
  rewrite length_take in Hfull. replace (Z.of_nat (Z.to_nat n `min` length text)) with n in Hfull by lia.
  by rewrite Hfull.
Qed.

Lemma write_string_null w bound :
  Cdr.write_string w None 0 bound = Cdr.write_value w (Cdr.VString [] bound).
Proof. reflexivity. Qed.

Lemma tracks_stop w pre rest st st' e :
  tracks w pre rest st -> e = invalid_message_storage \/ e = field_bound_exceeded ->
  emits w pre rest st' (Stop (codec_fail e (Cdr.offset_ w), w)) None.
Proof.
  intros [[] ? ? ?] He. eexists _, _, _, _. split_and!; [done|done|by rewrite length_app|done].
Qed.

(** A string field: the checks of the code are those of [string_content]. *)
Lemma string_view_spec lang nested m s w :
  type_id_ m = ROS_TYPE_STRING -> laid_value lang nested m s ->
  match string_content lang s with
  | Some chars => exists text, string_view lang s w = Done (text, zlen chars) /\
      forall bound, Cdr.write_string w text (zlen chars) bound =
                    Cdr.write_value w (Cdr.VString chars bound)
  | None => string_view lang s w = Stop (codec_fail invalid_message_storage (Cdr.offset_ w), w)
  end.
Proof.
  intros Ht Hlaid. unfold laid_value in Hlaid. rewrite decide_True in Hlaid by done.
  destruct lang, s as [| |[text|] size capacity|chars capacity| |]; try done; simpl.
  - destruct Hlaid as [Hcap Htext]. specialize (Htext text eq_refl).
    unfold write_fail_if.
    destruct (Z.ltb_spec (Z.of_N size) capacity), (Z.leb_spec capacity (Z.of_N size));
      try lia; simpl; [|done].
    destruct (proj2 (mload_is_Some text (Z.of_N size))) as [c Hc]; [lia|].
    rewrite Hc. simpl. case_bool_decide as Hz.
    + injection Hz as ->. simpl. exists (Some text).
      rewrite length_take. replace (Z.of_nat (N.to_nat size `min` length text)) with (Z.of_N size) by lia.
      split; [done|]. intros bound. rewrite write_string_prefix by lia.
      replace (Z.to_nat (Z.of_N size)) with (N.to_nat size) by lia.
      cbn [Cdr.write_value]. f_equal. rewrite length_take. lia.
    + destruct (Z.eqb_spec c 0) as [->|]; [done|]. done.
  - unfold write_fail_if. destruct size as [|p]; simpl; [|done].
    exists None. split; [done|]. intros. apply write_string_null.
  - exists (Some chars). split; [done|]. intros. done.
Qed.

Section Walk.
Context `{GeneratedTypes} (lang : TypeSupportLanguage).

(** The analysis of a string, and the string that is written. *)
Lemma string_emits m chars w pre rest st st1 st2 :
  tracks w pre rest st -> zlen chars <= string_upper_bound_ m ->
  string_upper_bound_ m < u32_max ->
  append_aligned st 4 4 = Done st1 ->
  append_aligned st1 1 (string_upper_bound_ m + 1) = Done st2 ->
  emits w pre rest st2
    (codec_write (Cdr.write_value w (Cdr.VString chars (string_upper_bound_ m))))
    (Some [Cdr.VString chars (string_upper_bound_ m)]).
Proof.
  intros Htr Hb Hmax H1 H2. pose proof Htr as [Hw Ho Hst Hcap].
  unfold u32_max in *.
  assert (extends st st1) as [Hok1 Hlim1 Hoff1]
    by (by eapply (append_aligned_extends st st1 2 4)).
  assert (extends st1 st2) as [Hok2 Hlim2 Hoff2]
    by (eapply (append_aligned_extends st1 st2 0 _); [done|lia| |exact H2]; lia).
  eapply emits_value; [done| |done| |done|congruence]; [simpl; unfold u32_max; lia|].
  simpl. pose proof (Cdr.string_bytes_length (Cdr.byte_order_ w) pre chars).
  pose proof (integral_fits (Cdr.byte_order_ w) w pre rest st st1 2 0 Htr ltac:(lia) H1) as Hi.
  unfold Cdr.integral_bytes in Hi. rewrite length_app, encode_uint_length in Hi.
  pose proof (append_aligned_spec st1 0 (string_upper_bound_ m + 1) Hok1 ltac:(lia) ltac:(lia)) as Hs.
  change (2 ^ 0) with 1 in Hs. cbv zeta in Hs. rewrite H2 in Hs.
  pose proof (Cdr.padding_range (offset st1) 1 ltac:(lia)).
  destruct (Z.leb_spec (offset st1 + Cdr.padding (offset st1) 1 + (string_upper_bound_ m + 1))
    (body_limit st1)); [|by destruct Hs as (? & ? & _)].
  destruct Hs as (? & [= <-] & Hoff & _). change (2 ^ 2) with 4 in Hi. lia.
Qed.

Section Nested.
Context (an : option Z -> Z -> AnalysisState -> outcome AnalysisState AnalysisState)
  (sn : Z -> storage -> Cdr.CdrWriter -> written_by)
  (vn : Z -> storage -> option (list Cdr.cdr_value))
  (ln : Z -> storage -> Prop) (depth : Z).
Hypothesis an_steps : forall t st, state_ok st -> steps id st (an t (add64 depth 1) st).
Hypothesis nested_emits : forall p msg w pre rest st st',
  tracks w pre rest st -> an (Some p) (add64 depth 1) st = Done st' -> ln p msg ->
  emits w pre rest st' (sn p msg w) (vn p msg).

(** The sizes of a descriptor's field. *)
Definition field_sizes (m : MessageMember) : Prop :=
  0 <= array_size_ m < 2 ^ 64 /\ 0 <= string_upper_bound_ m < 2 ^ 64 /\
  (forall h s, members_ m = Some h -> typesupport_identifier h = Some s -> terminated s).

Lemma element_extends m st st' :
  state_ok st -> field_sizes m -> analyze_element an m lang depth st = Done st' ->
  extends st st'.
Proof.
  intros Hst (Ha & Hb & Hid) Han.
  pose proof (analyze_element_steps an depth an_steps m lang st Hst Hb Hid) as Hs.
  by rewrite Han in Hs.
Qed.

Lemma value_emits m s w pre rest st st' :
  tracks w pre rest st -> field_sizes m -> analyze_element an m lang depth st = Done st' ->
  laid_value lang ln m s ->
  emits w pre rest st' (serialize_value lang sn m s w) (value_values lang vn m s).
Proof.
  intros Htr (Ha & Hb & Hid) Han Hlaid. unfold serialize_value, value_values.
  unfold analyze_element in Han.
  destruct (scalar_layout (type_id_ m)) as [[a a']|] eqn:Hl.
  { rewrite !decide_False by (intros Heq; by rewrite Heq in Hl).
    destruct (scalar_layout_pow2 _ _ _ Hl) as (k & Hk & -> & ->).
    eapply write_scalar_emits; eauto. }
  case_decide as Hstr.
  { unfold fail_if in Han. inv_done. bool_props. rewrite add64_id in Han by (unfold u32_max in *; lia).
    pose proof (string_view_spec lang ln m s w Hstr Hlaid) as Hview.
    destruct (string_content lang s) as [chars|]; cbn [mbind option_bind].
    - destruct Hview as (text & -> & Hwrite). cbn [mbind outcome_bind]. unfold write_fail_if.
      destruct (Z.ltb_spec (string_upper_bound_ m) (zlen chars)) as [Hlong|Hshort].
      + destruct (Z.leb_spec (zlen chars) (string_upper_bound_ m)); [lia|].
        by apply (tracks_stop w pre rest st); [|right].
      + destruct (Z.leb_spec (zlen chars) (string_upper_bound_ m)); [|lia].
        cbn [stop_if mbind outcome_bind]. rewrite Hwrite. by eapply string_emits.
    - rewrite Hview. cbn [mbind outcome_bind]. by apply (tracks_stop w pre rest st); [|left]. }
  case_decide as Hmsg; [|done].
  unfold laid_value in Hlaid. rewrite decide_False, decide_True in Hlaid by done.
  destruct Hlaid as (p & Hp & Hlaid). rewrite Hp. unfold nested_table in Hp.
  unfold nested_members. destruct (members_ m) as [h|]; [|done]. simpl in Hp.
  cbn [access mbind outcome_bind option_bind]. rewrite Hp in *.
  cbn [access mbind outcome_bind option_bind]. unfold fail_if in Han. inv_done. eauto.
Qed.

Lemma elements_emits m l : forall (xs : list Z) w pre rest st st',
  tracks w pre rest st -> field_sizes m -> (length l <= length xs)%nat ->
  for_each (fun _ => analyze_element an m lang depth) xs st = Done st' ->
  (forall x, x ∈ l -> laid_value lang ln m x) ->
  emits w pre rest st' (for_each (fun x w => serialize_value lang sn m x w) l w)
    (opt_concat (value_values lang vn m) l).
Proof.
  induction l as [|x l IH]; intros xs w pre rest st st' Htr Hm Hlen Han Hlaid.
  - assert (steps id st (for_each (fun _ : Z => analyze_element an m lang depth) xs st)) as Hs.
    { apply steps_for_each; [apply Htr|]. intros i st0 _ Hex.
      destruct Hm as (? & ? & ?). by apply analyze_element_steps; [|apply Hex|..]. }
    rewrite Han in Hs. eapply emits_extends; [by apply emits_nil|done].
  - destruct xs as [|i xs]; [simpl in Hlen; lia|]. simpl in Han.
    apply bind_Done_inv in Han as (st1 & Hst1 & Han).
    pose proof (element_extends m st st1 (tr_state _ _ _ _ Htr) Hm Hst1) as [Hok Hlim Hoff].
    pose proof (tr_capacity _ _ _ _ Htr). cbn [for_each opt_concat].
    eapply (emits_bind w pre rest st1 st'); [apply Htr|done|lia| |].
    + eapply value_emits; [done..|]. apply Hlaid. set_solver.
    + intros w' pre' rest' Htr' _ _. apply (IH xs w' pre' rest' st1 st'); [done|done|simpl in Hlen; lia|done|set_solver].
Qed.

(** The loop over the elements of an array goes through its accessors. *)
Lemma element_loop m l w :
  lawful_accessors m -> complete_accessors m ->
  for_each (fun index w =>
      match element_of m (Array l) index with
      | None => Stop (codec_fail invalid_message_storage (Cdr.offset_ w), w)
      | Some element => serialize_value lang sn m element w
      end) (seqZ 0 (zlen l)) w =
  for_each (fun x w => serialize_value lang sn m x w) l w.
Proof.
  intros Hlaw [_ Hcomp].
  rewrite <- (for_each_load (fun x w => serialize_value lang sn m x w) l). apply for_each_ext.
  intros i w' Hi%elem_of_seqZ.
  destruct (proj2 (mload_is_Some l i)) as [x Hx]; [lia|]. rewrite Hx.
  cbn [access mbind outcome_bind]. unfold element_of.
  destruct (get_const_function m) as [get|] eqn:Hget.
  - by rewrite (la_get_const _ Hlaw get l i Hget), Hx.
  - destruct Hcomp as [[[? ?] _]|(_ & [fetch Hf] & _)]; [done|].
    by rewrite Hf, (la_fetch _ Hlaw fetch l i x Hf Hx).
Qed.

Lemma array_emits m s w pre rest st st1 st' n :
  tracks w pre rest st -> field_sizes m -> is_array_ m = true ->
  lawful_accessors m -> complete_accessors m ->
  analyze_count m st = Done (n, st1) ->
  for_each (fun _ => analyze_element an m lang depth) (seqZ 0 n) st1 = Done st' ->
  laid_array lang ln m s ->
  emits w pre rest st' (serialize_array lang sn m s w) (array_values lang vn m s).
Proof.
  intros Htr Hm Harr Hlaw Hcomp Hcount Han (l & -> & Hlaid).
  unfold serialize_array, array_values. destruct (Hcomp) as [[size Hsize] Hacc].
  rewrite Hsize, (la_size _ Hlaw size l Hsize).
  assert (bool_decide (get_const_function m = None) &&
    (bool_decide (type_id_ m <> ROS_TYPE_BOOLEAN) ||
     bool_decide (fetch_function m = None)) = false) as ->.
  { destruct Hacc as [[[g ->] _]|(Ht & [f Hf] & _)]; [done|].
    rewrite Hf. rewrite (bool_decide_false (type_id_ m <> _)) by tauto.
    by rewrite (bool_decide_false (Some f = None)), andb_false_r. }
  unfold write_fail_if. cbn [stop_if mbind outcome_bind].
  assert ((is_upper_bound_ m && (array_size_ m <? zlen l) ||
           negb (is_upper_bound_ m) && negb (zlen l =? array_size_ m) ||
           (u32_max <? zlen l)) = negb (element_count_ok m (zlen l))) as ->.
  { unfold element_count_ok. rewrite negb_andb, <- !Z.ltb_antisym. f_equal.
    destruct (is_upper_bound_ m); simpl; rewrite ?orb_false_r; [apply Z.ltb_antisym|done]. }
  destruct (element_count_ok m (zlen l)) eqn:Hcnt; cbn [negb stop_if mbind outcome_bind]; cycle 1.
  { by apply (tracks_stop w pre rest st); [|right]. }
  unfold element_count_ok in Hcnt. apply andb_prop in Hcnt as [Hsz H32].
  apply Z.leb_le in H32. unfold u32_max in H32.
  rewrite u32_id by lia. unfold analyze_count in Hcount. rewrite Harr in Hcount.
  pose proof (tr_capacity _ _ _ _ Htr) as Hcap.
  destruct (is_upper_bound_ m) eqn:Hub; unfold fail_if in Hcount; inv_done; simplify_eq.
  - apply Z.leb_le in Hsz.
    assert (extends st st1) as [Hok Hlim Hoff]
      by (by eapply (append_aligned_extends st st1 2 4); [apply Htr|lia..|]).
    eapply (emits_bind w pre rest st1 st' _ _ (Some [_])); [apply Htr|done|lia| |].
    + eapply (tracks_emits_value _ _ _ st st1 2); [done|lia| |done|by eexists|done].
      simpl. lia.
    + intros w' pre' rest' Htr' _ _. rewrite element_loop by done.
      eapply elements_emits; [done|done| |done|done]. rewrite length_seqZ. lia.
  - apply Z.eqb_eq in Hsz. cbn [mbind outcome_bind]. rewrite element_loop by done.
    assert (forall o : option (list Cdr.cdr_value), opt_app (Some []) o = o) as ->
      by (by intros []).
    eapply elements_emits; [done|done| |done|done]. rewrite length_seqZ. lia.
Qed.

Lemma field_emits m message w pre rest st st' :
  tracks w pre rest st -> field_sizes m ->
  (is_array_ m = true -> lawful_accessors m /\ complete_accessors m) ->
  analyze_member an m lang depth st = Done st' -> laid_field lang ln message m ->
  emits w pre rest st'
    (field ← access (field_at message (m_offset_ m));
     (if is_array_ m then serialize_array lang else serialize_value lang) sn m field w)
    (field_values lang vn message m).
Proof.
  intros Htr Hm Hacc Han (s & Hs & Hlaid). unfold field_values. rewrite Hs. simpl.
  unfold analyze_member, fail_if in Han. inv_done. destruct a as [n st1].
  destruct (is_array_ m) eqn:Harr.
  - destruct Hacc as [Hlaw Hcomp]; [done|]. by eapply array_emits.
  - unfold analyze_count in Ha. rewrite Harr in Ha. injection Ha as <- <-.
    simpl in Han. apply bind_Done_inv in Han as (st2 & Han & [= <-]). by eapply value_emits.
Qed.
End Nested.

(** A successful analysis of a table is a successful analysis of its members. *)
Lemma analyze_members_inv fuel p depth st st' :
  state_ok st -> 1 <= depth ->
  analyze_members (S fuel) lang (Some p) depth st = Done st' ->
  depth <= kMaximumTypeNestingDepth /\ members_invalid (members_at p) = false /\
  zlen (fields_of p) = member_count_ (members_at p) /\
  exists st1 st2, state_ok st1 /\ offset st1 = offset st /\ body_limit st1 = body_limit st /\
    for_each (fun m st =>
        fail_if (size_of_ (members_at p) <=? m_offset_ m) st invalid_members;;
        analyze_member (analyze_members fuel lang) m lang depth st) (fields_of p) st1
      = Done st2 /\
    offset st' = offset st2 /\ body_limit st' = body_limit st2.
Proof.
  intros Hst Hd Han. cbn [analyze_members] in Han. unfold fail_if in *.
  apply guard_Done in Han as [Hinv Han]. apply guard_Done in Han as [Hdepth Han].
  apply Z.ltb_ge in Hdepth. inv_done.
  assert (zlen (fields_of p) = member_count_ (members_at p)) as Hcount.
  { unfold fields_of. destruct (member_table_ (members_at p)) as [l|] eqn:Hl; simpl;
      [by apply (do_table _ (gt_tables p))|].
    unfold members_invalid in Hinv. rewrite Hl, !orb_false_iff in Hinv.
    destruct Hinv as [_ Hinv]. destruct (Z.eqb_spec (member_count_ (members_at p)) 0); [done|].
    done. }
  split_and!; [done..|]. eexists _, _. split; [|split; [|split; [|split; [|split]]]].
  4: { rewrite <- for_each_load, Hcount. rewrite <- Ha1. apply for_each_ext.
    intros i st0 Hi. apply elem_of_seqZ in Hi. unfold fields_of.
    destruct (member_table_ (members_at p)) as [l|] eqn:Hl; simpl; [done|].
    unfold fields_of in Hcount. rewrite Hl in Hcount. simpl in Hcount. lia. }
  all: try done. destruct Hst. apply mstore_length in Ha0.
  split; simpl; [done..|congruence|]. destruct (maximum_depth st <? depth); lia.
Qed.

Lemma serialize_members_emits fuel : forall p depth msg w pre rest st st',
  kMaximumTypeNestingDepth + 2 <= depth + Z.of_nat fuel ->
  1 <= depth <= kMaximumTypeNestingDepth + 1 ->
  tracks w pre rest st -> analyze_members fuel lang (Some p) depth st = Done st' ->
  laid_out lang fuel p msg ->
  emits w pre rest st' (serialize_members lang fuel p msg w)
    (message_values lang fuel p msg).
Proof.
  unfold kMaximumTypeNestingDepth.
  induction fuel as [|fuel IH]; intros p depth msg w pre rest st st' Hf Hd Htr Han Hlaid;
    [done|].
  apply analyze_members_inv in Han as (Hdepth & _ & Hcount & st1 & st2 & Hok1 & Ho1 & Hl1 &
    Hwalk & Ho2 & Hl2); [|apply Htr|lia].
  unfold kMaximumTypeNestingDepth in Hdepth.
  assert (tracks w pre rest st1) as Htr1.
  { destruct Htr. split; [done|lia|done|lia]. }
  cbn [serialize_members message_values]. destruct Hlaid as [_ Hlaid].
  assert (for_each (fun index w =>
      table ← access (member_table_ (members_at p));
      member ← access (mload table index);
      field ← access (field_at msg (m_offset_ member));
      (if is_array_ member then serialize_array lang else serialize_value lang)
        (serialize_members lang fuel) member field w)
    (seqZ 0 (member_count_ (members_at p))) w =
    for_each (fun m w => field ← access (field_at msg (m_offset_ m));
      (if is_array_ m then serialize_array lang else serialize_value lang)
        (serialize_members lang fuel) m field w) (fields_of p) w) as ->.
  { symmetry. rewrite <- for_each_load, Hcount. apply for_each_ext. intros i w0 Hi%elem_of_seqZ.
    unfold fields_of in *. destruct (member_table_ (members_at p)); simpl in *; [done|lia]. }
  enough (forall l w pre rest st1, l ⊆ fields_of p -> tracks w pre rest st1 ->
    for_each (fun m st =>
        fail_if (size_of_ (members_at p) <=? m_offset_ m) st invalid_members;;
        analyze_member (analyze_members fuel lang) m lang depth st) l st1 = Done st2 ->
    emits w pre rest st2
      (for_each (fun m w => field ← access (field_at msg (m_offset_ m));
        (if is_array_ m then serialize_array lang else serialize_value lang)
          (serialize_members lang fuel) m field w) l w)
      (opt_concat (field_values lang (message_values lang fuel) msg) l)) as Hgen.
  { specialize (Hgen (fields_of p) w pre rest st1 ltac:(done) Htr1 Hwalk).
    unfold emits in *. by rewrite Ho2. }
  clear - IH Hf Hd Hdepth Hlaid H0.
  intros l. induction l as [|m l IHl]; intros w pre rest st1 Hl Htr1 Hwalk.
  { injection Hwalk as <-. by apply emits_nil. }
  cbn [for_each opt_concat] in *. unfold fail_if in Hwalk. inv_done.
  assert (m ∈ fields_of p) as Hm by set_solver.
  assert (field_sizes m /\ (is_array_ m = true -> lawful_accessors m /\ complete_accessors m))
    as [Hsizes Hacc].
  { unfold fields_of in Hm. destruct (member_table_ (members_at p)) as [t|] eqn:Ht;
      simpl in Hm; [|set_solver].
    split; [by apply (do_members _ (gt_tables p) t)|by apply (gt_accessors p t)]. }
  assert (forall t st, state_ok st ->
    steps id st (analyze_members fuel lang t (add64 depth 1) st)) as Hsteps.
  { intros t st0 Hst0. rewrite add64_id by lia.
    apply analyze_members_steps; unfold kMaximumTypeNestingDepth; [done|lia..]. }
  assert (extends st1 a) as [Hoka Hlima Hoffa].
  { destruct Hsizes as (? & ? & ?).
    pose proof (analyze_member_steps (analyze_members fuel lang) depth Hsteps m lang st1) as Hs.
    rewrite Ha in Hs. apply Hs; [apply Htr1|done..]. }
  pose proof (tr_capacity _ _ _ _ Htr1).
  eapply (emits_bind w pre rest a st2); [apply Htr1|done|lia| |].
  - eapply field_emits; [exact Hsteps| |done|done|done|done|by apply Hlaid].
    intros p' msg' w' pre' rest' sta stb Htra Hana Hlaida. rewrite add64_id in Hana by lia.
    eapply IH; [..|done|done|done]; lia.
  - intros w' pre' rest' Htr' _ _. apply (IHl w' pre' rest' a); [set_solver|done|done].
Qed.
End Walk.

End CodecSerialize.
