(* ===== verification/CodecDeserialize.v ===== *)
(** * Deserialisation of ROS messages

    The two passes of [deserialize_xcdr1].  The first changes nothing; when it succeeds the
    second succeeds as well, whatever the first bytes were, because storing values keeps the
    shape of the destination and only its shape is checked. *)
From stdpp Require Import list.
From S2P Require Import Prelude Bytes Cdr Introspection TypeSupport TypeSupportFacts CodecSpec Xcdr1Codec.

Module CodecDeserialize.
Import Introspection TypeSupport TypeSupportFacts CodecSpec Codec.

(** ** The two passes side by side *)

(** A reader in the middle of a payload of [n] bytes. *)
Definition reading (n : Z) (r : Cdr.CdrReader) : Prop :=
  Cdr.reader_wf r /\ Cdr.rsize_ r = n /\ Cdr.rinitialized_ r = true.

Lemma reading_wf n r : reading n r -> Cdr.reader_wf r.
Proof. by intros []. Qed.

Lemma reading_next {A} n r (m : outcome Cdr.CdrReader (A * Cdr.CdrReader)) x r1 :
  reading n r -> Cdr.read_post r m -> m = Done (x, r1) -> reading n r1.
Proof.
  intros (Hr & Hn & Hi) Hpost Hm. split; [by eapply Cdr.read_post_wf|].
  subst m. by destruct Hpost as (o & -> & _).
Qed.

(** [v] is the first pass over [s], [a] the second over a destination of the same shape. *)
Definition validates (n : Z) (s : storage) (v a : outcome (CodecResult * storage) (Cdr.CdrReader * storage))
    : Prop :=
  match v with
  | Fault => False
  | Stop (_, s1) => s1 = s
  | Done (r1, s1) =>
      s1 = s /\ reading n r1 /\ exists s2, a = Done (r1, s2) /\ shape s2 = shape s
  end.

(** A read from a well-formed reader, as both passes do it. *)
Lemma validates_read {A} n r s s' (m : outcome Cdr.CdrReader (A * Cdr.CdrReader)) kv ka :
  reading n r -> Cdr.read_post r m ->
  (forall x r1, m = Done (x, r1) -> reading n r1 ->
     validates n s (kv (x, r1)) (ka (x, r1))) ->
  validates n s (codec_read s m ≫= kv) (codec_read s' m ≫= ka).
Proof.
  intros Hr Hpost Hk. destruct m as [|r1|[x r1]] eqn:Hm; simpl in *; [done..|].
  apply Hk; [done|]. by apply (reading_next n r (Done (x, r1)) x r1).
Qed.

Lemma validates_guard n c e r s s' kv ka :
  (c = false -> validates n s (kv tt) (ka tt)) ->
  validates n s (read_fail_if c e r s ≫= kv) (read_fail_if c e r s' ≫= ka).
Proof. by destruct c; [|intros Hk; apply Hk]. Qed.

Lemma read_bits_validates n r width m bits s' :
  reading n r -> Cdr.read_post r m -> shape s' = Scalar width 0 ->
  validates n (Scalar width bits) (read_bits width m (Scalar width bits) false)
    (read_bits width m s' true).
Proof.
  intros Hr Hpost Hs. unfold read_bits. apply (validates_read n r); [done..|].
  intros x r1 _ Hr1. split_and!; [done..|]. destruct s'; simplify_eq/=.
  rewrite Z.eqb_refl. simpl. by eexists.
Qed.

(** Every scalar read is a [read_value] of [Cdr.v]. *)
Lemma scalar_read_posts r :
  Cdr.reader_wf r ->
  Cdr.read_post r (Cdr.read_uint8 r) /\ Cdr.read_post r (Cdr.cdr_read_uint16 r) /\
  Cdr.read_post r (Cdr.read_int16 r) /\ Cdr.read_post r (Cdr.read_float32 r) /\
  Cdr.read_post r (Cdr.cdr_read_uint32 r) /\ Cdr.read_post r (Cdr.read_int32 r) /\
  Cdr.read_post r (Cdr.read_float64 r) /\ Cdr.read_post r (Cdr.cdr_read_uint64 r) /\
  Cdr.read_post r (Cdr.read_int64 r).
Proof.
  intros Hr.
  assert (forall A (f : A -> Cdr.cdr_value) m,
    Cdr.read_post r (Cdr.as_value f m) -> Cdr.read_post r m) as Hm.
  { intros A f m. by destruct m as [| |[x r1]]. }
  split_and!;
    [ apply (Hm _ Cdr.VUint8), (Cdr.read_value_post r Cdr.TUint8)
    | apply (Hm _ Cdr.VUint16), (Cdr.read_value_post r Cdr.TUint16)
    | apply (Hm _ Cdr.VInt16), (Cdr.read_value_post r Cdr.TInt16)
    | apply (Hm _ Cdr.VFloat32), (Cdr.read_value_post r Cdr.TFloat32)
    | apply (Hm _ Cdr.VUint32), (Cdr.read_value_post r Cdr.TUint32)
    | apply (Hm _ Cdr.VInt32), (Cdr.read_value_post r Cdr.TInt32)
    | apply (Hm _ Cdr.VFloat64), (Cdr.read_value_post r Cdr.TFloat64)
    | apply (Hm _ Cdr.VUint64), (Cdr.read_value_post r Cdr.TUint64)
    | apply (Hm _ Cdr.VInt64), (Cdr.read_value_post r Cdr.TInt64) ]; done.
Qed.

Lemma scalar_validates n lang nested m s s' r :
  reading n r -> type_id_ m <> ROS_TYPE_STRING -> type_id_ m <> ROS_TYPE_MESSAGE ->
  laid_value lang nested m s -> shape s' = shape s ->
  validates n s (read_scalar (type_id_ m) r s false) (read_scalar (type_id_ m) r s' true).
Proof.
  intros Hr Hstr Hmsg Hlaid Hs. unfold laid_value in Hlaid.
  rewrite !decide_False in Hlaid by done.
  destruct (scalar_read_posts r (reading_wf _ _ Hr)) as (?&?&?&?&?&?&?&?&?).
  case_decide as Hb.
  { destruct Hlaid as [b ->]. rewrite Hb. simpl.
    apply (validates_read n r); [done|by apply Cdr.read_bool_post, (reading_wf n)|].
    intros x r1 _ Hr1. split_and!; [done..|]. destruct s'; simplify_eq/=. by eexists. }
  destruct (scalar_codec (type_id_ m)) as [[width f]|] eqn:Hc; [|by destruct (type_id_ m)].
  destruct Hlaid as [bits ->]. simpl in Hs.
  destruct (type_id_ m); try done; injection Hc as <- <-; by apply (read_bits_validates n r).
Qed.

Lemma read_string_view_length r bound view k r1 :
  Cdr.read_string_view r bound = Done ((view, k), r1) -> zlen view = k.
Proof.
  unfold Cdr.read_string_view. intros Hv. apply bind_Done_inv in Hv as ([[st len] cnt] & _ & Hv).
  unfold Cdr.r_fail_if in Hv. inv_done. by eapply mslice_length.
Qed.

Lemma string_validates n lang nested m s s' r :
  reading n r -> type_id_ m = ROS_TYPE_STRING ->
  laid_value lang nested m s -> shape s' = shape s ->
  validates n s (process_string lang m s r false) (process_string lang m s' r true).
Proof.
  intros Hr Hstr Hlaid Hs. unfold laid_value in Hlaid. rewrite decide_True in Hlaid by done.
  unfold process_string. apply (validates_read n r); [done|by apply Cdr.read_string_view_post, (reading_wf n)|].
  intros [view k] r1 Hview Hr1. apply read_string_view_length in Hview.
  destruct lang, s as [| |[text|] size capacity|chars capacity| |]; try done;
    destruct s' as [| |[text'|] size' capacity'|chars' capacity'| |]; simplify_eq/=; try done.
  - apply validates_guard. intros Hc%Z.leb_gt. split_and!; [done..|].
    destruct Hlaid as [Hcap Htext]. specialize (Htext text eq_refl).
    assert (length text' = length text) as Hlen.
    { apply (f_equal length) in Hs. by rewrite !length_replicate in Hs. }
    assert (exists t1, (if negb (zlen view =? 0) then access (mcopy text' 0 view)
                        else Done text') = (Done t1 : outcome (CodecResult * storage) _) /\
              length t1 = length text) as (t1 & -> & Ht1).
    { destruct (Z.eqb_spec (zlen view) 0); simpl; [by exists text'|].
      destruct (proj2 (mcopy_is_Some text' 0 view)) as [t1 Ht1]; [lia|].
      rewrite Ht1. exists t1. split; [done|]. apply mcopy_length in Ht1. congruence. }
    cbn [mbind outcome_bind].
    destruct (proj2 (mstore_is_Some t1 (zlen view) 0)) as [t2 Ht2]; [lia|].
    rewrite Ht2. apply mstore_length in Ht2. cbn [access mbind outcome_bind].
    eexists. split; [done|]. simpl. do 3 f_equal. congruence.
  - apply validates_guard. intros Hc. split_and!; [done..|]. by eexists.
Qed.

(** A pass over a part of [x]. *)
Lemma validates_inside n s x getv put v a :
  getv s = x -> (forall s2, shape s2 = shape s -> shape (put s2) = shape x) ->
  validates n s v a -> validates n x (inside getv v) (inside put a).
Proof.
  intros <- Hput Hva. destruct v as [|[res s1]|[r1 s1]]; simpl in *; [done|by f_equal|].
  destruct Hva as (-> & Hr & s2 & -> & Hs2). simpl. split_and!; [done..|].
  eexists. split; [done|]. by apply Hput.
Qed.

Section Walk.
Context `{GeneratedTypes} (lang : TypeSupportLanguage) (n : Z).

Section Nested.
Context (ln : Z -> storage -> Prop)
  (pv pa : Z -> storage -> Cdr.CdrReader ->
     outcome (CodecResult * storage) (Cdr.CdrReader * storage)).
Hypothesis nested_validates : forall p s s' r,
  reading n r -> ln p s -> shape s' = shape s -> validates n s (pv p s r) (pa p s' r).

Lemma value_validates m s s' r :
  reading n r -> laid_value lang ln m s -> shape s' = shape s ->
  validates n s (process_value lang pv m s r false) (process_value lang pa m s' r true).
Proof.
  intros Hr Hlaid Hs. unfold process_value.
  case_decide as Hstr; [by eapply string_validates|].
  case_decide as Hmsg; [|by eapply scalar_validates].
  unfold laid_value in Hlaid. rewrite decide_False, decide_True in Hlaid by done.
  destruct Hlaid as (p & Hp & Hlaid). unfold nested_table in Hp. unfold nested_members.
  destruct (members_ m) as [h|]; [|done]. simpl in *. rewrite Hp. simpl. by apply nested_validates.
Qed.

Lemma element_validates m l l' i r :
  reading n r -> lawful_accessors m -> complete_accessors m ->
  (forall x, x ∈ l -> laid_value lang ln m x) -> map shape l' = map shape l ->
  0 <= i < zlen l ->
  validates n (Array l) (process_element lang pv m false i (Array l) r)
    (process_element lang pa m true i (Array l') r).
Proof.
  intros Hr Hlaw Hcomp Hlaid Hs Hi.
  destruct (proj2 (mload_is_Some l i)) as [x Hx]; [done|].
  pose proof Hx as [_ Hxl]%mload_Some.
  destruct (shape_lookup l l' (Z.to_nat i) x) as (x' & Hx' & Hsx); [done..|].
  assert (mload l' i = Some x') as Hxm by (apply mload_Some; split; [lia|done]).
  assert (forall y, shape y = shape x -> shape (Array (<[Z.to_nat i := y]> l')) = shape (Array l))
    as Hput.
  { intros y Hy. simpl. rewrite (shape_insert l' _ y x') by congruence. by rewrite Hs. }
  assert (laid_value lang ln m x) as Hlx by (by eapply Hlaid, list_elem_of_lookup_2).
  assert (type_id_ m = ROS_TYPE_BOOLEAN -> shape x = shape (Boolean false)) as Hbool.
  { intros Ht. unfold laid_value in Hlx. rewrite Ht in Hlx.
    by destruct Hlx as [b ->]. }
  destruct Hcomp as [_ Hcomp]. unfold process_element.
  assert (get_const_function m = None -> type_id_ m = ROS_TYPE_BOOLEAN) as Hnc.
  { intros Hn. rewrite Hn in Hcomp. destruct Hcomp as [[[? ?] _]|[? _]]; done. }
  assert (get_function m = None ->
    type_id_ m = ROS_TYPE_BOOLEAN /\ is_Some (assign_function m)) as Hng.
  { intros Hn. rewrite Hn in Hcomp. destruct Hcomp as [[_ [? ?]]|(? & _ & ?)]; done. }
  (* the element the first pass reads *)
  assert (exists e, shape e = shape x /\ laid_value lang ln m e /\
    match get_const_function m with
    | Some get => match get (Array l) i with
                  | Some e0 => inside (fun _ => Array l) (process_value lang pv m e0 r false)
                  | None => Stop (codec_fail invalid_message_storage (Cdr.roffset_ r), Array l)
                  end
    | None => inside (fun _ => Array l) (process_value lang pv m (Boolean false) r false)
    end = inside (fun _ => Array l) (process_value lang pv m e r false)) as (e & He & Hle & ->).
  { destruct (get_const_function m) as [get|] eqn:Hg.
    - exists x. rewrite (la_get_const _ Hlaw get l i Hg), Hx. done.
    - specialize (Hnc eq_refl). exists (Boolean false). split_and!; [by rewrite Hbool| |done].
      unfold laid_value. rewrite Hnc. simpl. by eexists. }
  destruct (get_function m) as [get|] eqn:Hg.
  - destruct (la_get _ Hlaw get l' i x' Hg Hxm) as (put & -> & Hputx).
    apply (validates_inside n e); [done| |].
    + intros s2 Hs2. rewrite Hputx. apply Hput. congruence.
    + apply value_validates; [done..|congruence].
  - destruct Hng as [Ht [assign Hassign]]; [done|]. rewrite Hassign. cbn [access mbind outcome_bind].
    pose proof (value_validates m e (Boolean false) r Hr Hle) as Hv.
    rewrite He, Hbool in Hv by done. specialize (Hv eq_refl).
    destruct (process_value lang pv m e r false) as [|[res s1]|[r1 s1]]; simpl in *; [done..|].
    destruct Hv as (-> & Hr1 & s2 & -> & Hs2). simpl. split_and!; [done..|].
    eexists. split; [done|].
    rewrite (la_assign _ Hlaw assign l' i x' s2 Hassign Hxm). apply Hput. congruence.
Qed.

(** The loop over the elements. *)
Lemma elements_validates m l xs : forall l' r,
  reading n r -> lawful_accessors m -> complete_accessors m ->
  (forall x, x ∈ l -> laid_value lang ln m x) -> map shape l' = map shape l ->
  (forall i, i ∈ xs -> 0 <= i < zlen l) ->
  validates n (Array l)
    (for_each (fun i '(r, f) => process_element lang pv m false i f r) xs (r, Array l))
    (for_each (fun i '(r, f) => process_element lang pa m true i f r) xs (r, Array l')).
Proof.
  induction xs as [|i xs IH]; intros l' r Hr Hlaw Hcomp Hlaid Hs Hxs; cbn [for_each].
  { split_and!; [done..|]. eexists. split; [done|]. simpl. by rewrite Hs. }
  pose proof (element_validates m l l' i r Hr Hlaw Hcomp Hlaid Hs) as He.
  specialize (He ltac:(apply Hxs; set_solver)).
  destruct (process_element lang pv m false i (Array l) r) as [|[res s1]|[r1 s1]]; [done..|].
  destruct He as (-> & Hr1 & s2 & -> & Hs2). cbn [mbind outcome_bind].
  destruct s2 as [| | | |l2|]; try done. injection Hs2 as Hs2.
  apply IH; [done..|set_solver].
Qed.

Lemma array_validates m s s' r :
  reading n r -> lawful_accessors m -> complete_accessors m ->
  laid_array lang ln m s -> shape s' = shape s ->
  validates n s (process_array lang pv m s r false) (process_array lang pa m s' r true).
Proof.
  intros Hr Hlaw Hcomp (l & -> & Hlaid) Hs. destruct s' as [| | | |l'|]; try done.
  injection Hs as Hs. pose proof (f_equal length Hs) as Hlen. rewrite !length_map in Hlen.
  unfold process_array. destruct (Hcomp) as [[size Hsize] Hacc]. rewrite Hsize.
  assert (forall (kv ka : _ -> outcome _ _),
    (forall k r1, reading n r1 -> validates n (Array l) (kv (k, r1)) (ka (k, r1))) ->
    validates n (Array l) (read_count m (Array l) r ≫= kv) (read_count m (Array l') r ≫= ka))
    as Hcount.
  { intros kv ka Hk. unfold read_count. destruct (is_upper_bound_ m); [|by apply Hk].
    rewrite !outcome_bind_assoc. apply (validates_read n r); [done| |].
    - by destruct (scalar_read_posts r (reading_wf _ _ Hr)) as (?&?&?&?&?&?).
    - intros x r1 _ Hr1. rewrite !outcome_bind_assoc. apply validates_guard.
      intros _. by apply Hk. }
  apply Hcount. intros k r1 Hr1.
  rewrite !(la_size _ Hlaw size) by done. rewrite Hlen.
  apply validates_guard. intros Hn. apply negb_false_iff, Z.eqb_eq in Hn. subst k.
  assert (forall (f g : bool), (f = false -> type_id_ m = ROS_TYPE_BOOLEAN /\
            is_Some (assign_function m)) -> negb f && (bool_decide (type_id_ m <> ROS_TYPE_BOOLEAN) ||
            bool_decide (assign_function m = None)) = false) as Hdirect.
  { intros [] _ Hf; [done|]. destruct Hf as [Ht [a ->]]; [done|].
    rewrite (bool_decide_false (type_id_ m <> _)) by tauto. by rewrite bool_decide_false. }
  rewrite !Hdirect; [|exact true|..|exact true|].
  - simpl. apply elements_validates; try done. intros i Hi%elem_of_seqZ. lia.
  - intros Hf%bool_decide_eq_false. destruct Hacc as [[_ ?]|(? & _ & ?)]; done.
  - intros Hf%bool_decide_eq_false. destruct Hacc as [[? _]|(? & _ & ?)]; done.
Qed.
End Nested.

Lemma set_field_id s o x : field_at s o = Some x -> set_field s o x = s.
Proof.
  destruct s as [| | | | |l]; simpl; try done. intros Hl. f_equal.
  induction l as [|[k y] l IH]; simpl in *; [done|].
  destruct (k =? o); simplify_eq/=; [done|]. by rewrite IH.
Qed.

(** The body of the loop over the members. *)
Definition process_field (fuel : nat) (ap : bool) (m : MessageMember) (r : Cdr.CdrReader)
    (message : storage) : outcome (CodecResult * storage) (Cdr.CdrReader * storage) :=
  field ← access (field_at message (m_offset_ m));
  inside (set_field message (m_offset_ m))
    (if is_array_ m then process_array lang (process_members lang fuel ap) m field r ap
     else process_value lang (process_members lang fuel ap) m field r ap).

Lemma process_field_at fuel ap m r s x :
  field_at s (m_offset_ m) = Some x ->
  process_field fuel ap m r s =
  inside (set_field s (m_offset_ m))
    (if is_array_ m then process_array lang (process_members lang fuel ap) m x r ap
     else process_value lang (process_members lang fuel ap) m x r ap).
Proof. unfold process_field. by intros ->. Qed.

Lemma process_members_loop fuel ap p s r :
  zlen (fields_of p) = member_count_ (members_at p) ->
  process_members lang (S fuel) ap p s r =
  for_each (fun m '(r, message) => process_field fuel ap m r message) (fields_of p) (r, s).
Proof.
  intros Hcount. cbn [process_members]. symmetry. rewrite <- for_each_load, Hcount.
  apply for_each_ext. intros i [r1 s1] Hi%elem_of_seqZ. unfold fields_of in *.
  destruct (member_table_ (members_at p)); simpl in *; [done|lia].
Qed.

Lemma process_members_validates fuel : forall p s s' r,
  reading n r -> laid_out lang fuel p s -> shape s' = shape s ->
  validates n s (process_members lang fuel false p s r) (process_members lang fuel true p s' r).
Proof.
  induction fuel as [|fuel IH]; intros p s s' r Hr Hlaid Hs; [done|].
  destruct Hlaid as [Hcount Hlaid].
  rewrite !process_members_loop by done.
  enough (forall l s' r, l ⊆ fields_of p -> reading n r -> shape s' = shape s ->
    validates n s
      (for_each (fun m '(r, message) => process_field fuel false m r message) l (r, s))
      (for_each (fun m '(r, message) => process_field fuel true m r message) l (r, s')))
    as Hgen by (by apply Hgen).
  clear Hs s' Hr r. induction l as [|m l IHl]; intros s' r Hl Hr Hs; cbn [for_each].
  { split_and!; [done..|]. by eexists. }
  assert (m ∈ fields_of p) as Hm by set_solver.
  destruct (Hlaid m Hm) as (x & Hx & Hlx).
  destruct (shape_field s s' (m_offset_ m) x) as (x' & Hx' & Hsx); [done..|].
  rewrite (process_field_at _ _ _ _ _ _ Hx), (process_field_at _ _ _ _ _ _ Hx').
  match goal with |- validates _ _ (inside _ ?v ≫= _) (inside _ ?a ≫= _) =>
    assert (validates n x v a) as Hv end.
  { destruct (is_array_ m) eqn:Harr.
    - assert (lawful_accessors m /\ complete_accessors m) as [Hlaw Hcomp].
      { unfold fields_of in Hm. destruct (member_table_ (members_at p)) as [t|] eqn:Ht;
          simpl in Hm; [|set_solver]. by apply (gt_accessors p t). }
      by apply (array_validates (laid_out lang fuel)).
    - by apply (value_validates (laid_out lang fuel)). }
  apply (validates_inside n x s (set_field s (m_offset_ m)) (set_field s' (m_offset_ m))) in Hv;
    [|by apply set_field_id|intros s2 Hs2; rewrite (shape_set_field s' _ s2 x'); congruence].
  match goal with |- validates _ _ (?v ≫= _) (?a ≫= _) =>
    destruct v as [|[res s1]|[r1 s1]]; simpl in Hv; [done|done|] end.
  destruct Hv as (-> & Hr1 & s2 & -> & Hs2). cbn [mbind outcome_bind].
  apply IHl; [set_solver|done..].
Qed.
End Walk.

End CodecDeserialize.
