(* ===== verification/CodecRoundtrip.v ===== *)
(** * What deserialisation stores

    Reading the encoding of a message into a destination with room for it leaves the values
    of the message there. *)
From stdpp Require Import list.
From S2P Require Import Prelude Bytes Cdr Introspection TypeSupport TypeSupportFacts CodecSpec Xcdr1Codec CodecSerialize CodecDeserialize.

Module CodecRoundtrip.
Import Introspection TypeSupport TypeSupportFacts CodecSpec Codec CodecSerialize CodecDeserialize.

(** A pass over [s] that reads the encoding of [vs]: it consumes the encoding, and the
    second pass leaves a destination with [P]. *)
Definition decodes (r : Cdr.CdrReader) (pre : list Z) (vs : list Cdr.cdr_value)
    (apply_ : bool) (s : storage) (P : storage -> Prop)
    (m : outcome (CodecResult * storage) (Cdr.CdrReader * storage)) : Prop :=
  exists s', m = Done (Cdr.consume r pre (Cdr.all_bytes (Cdr.rbyte_order_ r) pre vs), s') /\
    if apply_ then P s' else s' = s.

Lemma consume_consume r pre l1 l2 :
  Cdr.consume (Cdr.consume r pre l1) (pre ++ l1) l2 = Cdr.consume r pre (l1 ++ l2).
Proof.
  unfold Cdr.consume, Cdr.r_set_offset. simpl. rewrite !length_app. f_equal. lia.
Qed.

Lemma consume_nil r pre rest : Cdr.reader_at r pre rest -> Cdr.consume r pre [] = r.
Proof.
  intros []. unfold Cdr.consume, Cdr.r_set_offset. rewrite Z.add_0_r.
  destruct r; simpl in *; by subst.
Qed.

(** ** Scalars *)

Lemma signed_mod w b : 0 < w -> 0 <= b < 2 ^ w -> signed w b mod 2 ^ w = b.
Proof.
  intros Hw Hb. unfold signed. destruct (b <? 2 ^ (w - 1)); [by apply Z.mod_small|].
  rewrite <- (Z.mod_add (b - 2 ^ w) 1), Z.mod_small by lia. lia.
Qed.

Lemma read_codec t width f b r r1 dest ap :
  scalar_codec t = Some (width, f) -> 0 <= b < 2 ^ (8 * width) ->
  Cdr.read_value r (Cdr.type_of (f b)) = Done (f b, r1) ->
  read_scalar t r dest ap =
  (d ← (if ap : bool then store_value width dest b else Done dest); Done (r1, d)).
Proof.
  intros Hc Hb Hread.
  destruct t; try done; injection Hc as <- <-; cbn [Cdr.type_of Cdr.read_value] in Hread;
    unfold Cdr.as_value in Hread; cbn [read_scalar]; unfold read_bits, codec_read;
    (match type of Hread with (?m ≫= _) = _ => destruct m as [| |[x r']]; try done end);
    cbn [mbind outcome_bind] in Hread; injection Hread as -> ->;
    cbn [map_stop mbind outcome_bind];
    first [ rewrite Z.mod_small by done; reflexivity
          | rewrite (signed_mod 16) by (done || lia); reflexivity
          | rewrite (signed_mod 32) by (done || lia); reflexivity
          | rewrite (signed_mod 64) by (done || lia); reflexivity ].
Qed.

(** Reading the encoding of one value. *)
Lemma read_one r pre v rest :
  Cdr.reader_at r pre (Cdr.all_bytes (Cdr.rbyte_order_ r) pre [v] ++ rest) ->
  Cdr.value_ok v ->
  Cdr.read_value r (Cdr.type_of v) =
  Done (v, Cdr.consume r pre (Cdr.all_bytes (Cdr.rbyte_order_ r) pre [v])).
Proof.
  simpl. rewrite app_nil_r. apply Cdr.read_value_spec.
Qed.

Lemma scalar_decodes lang nested m src dst r pre rest v ap :
  scalar_value (type_id_ m) src = Some v ->
  type_id_ m <> ROS_TYPE_STRING -> type_id_ m <> ROS_TYPE_MESSAGE ->
  laid_value lang nested m dst ->
  Cdr.reader_at r pre (Cdr.all_bytes (Cdr.rbyte_order_ r) pre [v] ++ rest) ->
  decodes r pre [v] ap dst (fun d => scalar_value (type_id_ m) d = Some v)
    (read_scalar (type_id_ m) r dst ap).
Proof.
  intros Hv Hstr Hmsg Hlaid Hr. pose proof (scalar_value_ok _ _ _ Hv) as Hok.
  pose proof (read_one r pre v rest Hr Hok) as Hread. unfold decodes.
  set (r1 := Cdr.consume r pre _) in *. clearbody r1.
  unfold laid_value in Hlaid. rewrite !decide_False in Hlaid by done.
  unfold scalar_value in *. case_decide as Hb.
  { destruct Hlaid as [b' ->]. destruct src as [b| | | | |]; try done. injection Hv as <-.
    rewrite Hb. cbn [Cdr.type_of Cdr.read_value] in Hread. unfold Cdr.as_value in Hread.
    cbn [read_scalar]. unfold codec_read.
    destruct (Cdr.read_bool r) as [| |[x r']]; try done. cbn [mbind outcome_bind] in Hread.
    injection Hread as -> ->. by destruct ap; simpl; eexists. }
  destruct (scalar_codec (type_id_ m)) as [[width f]|] eqn:Hc; [|done].
  destruct src as [|w bits| | | |]; try done.
  destruct (Z.eqb_spec w width) as [->|]; [|done]. injection Hv as <-.
  destruct Hlaid as [bits' ->].
  pose proof (scalar_codec_width _ _ _ Hc).
  assert (0 <= bits mod 2 ^ (8 * width) < 2 ^ (8 * width)) as Hrange
    by (apply Z.mod_pos_bound, Z.pow_pos_nonneg; lia).
  rewrite (read_codec _ _ _ _ _ _ _ _ Hc Hrange Hread).
  destruct ap; simpl; rewrite ?Z.eqb_refl; simpl; (eexists; split; [done|]); [|done].
  simpl. rewrite Z.eqb_refl. by rewrite (Z.mod_small _ _ Hrange).
Qed.

(** ** Strings *)

Lemma string_decodes lang ln nested m src dst chars r pre rest ap :
  string_content lang src = Some chars -> zlen chars <= string_upper_bound_ m ->
  zlen chars < u32_max -> type_id_ m = ROS_TYPE_STRING ->
  laid_value lang ln m dst -> room_value lang nested m src dst ->
  let v := Cdr.VString chars (string_upper_bound_ m) in
  Cdr.reader_at r pre (Cdr.all_bytes (Cdr.rbyte_order_ r) pre [v] ++ rest) ->
  decodes r pre [v] ap dst (fun d => string_content lang d = Some chars)
    (process_string lang m dst r ap).
Proof.
  intros Hc Hb H32 Hstr Hlaid Hroom v Hr. unfold decodes. simpl in *. rewrite app_nil_r in *.
  unfold process_string. rewrite (Cdr.read_string_view_spec r pre chars _ rest) by done.
  set (r1 := Cdr.consume r pre _). clearbody r1.
  unfold codec_read. cbn [map_stop mbind outcome_bind].
  unfold laid_value in Hlaid. unfold room_value in Hroom.
  rewrite decide_True in Hlaid, Hroom by done. specialize (Hroom chars Hc).
  destruct lang, dst as [| |d size capacity|chars' capacity| |]; try done.
  - destruct Hroom as [[text ->] Hroom]. destruct Hlaid as [Hcap Htext].
    specialize (Htext text eq_refl). unfold read_fail_if.
    destruct (Z.leb_spec capacity (zlen chars)); [lia|]. cbn [stop_if mbind outcome_bind].
    destruct ap; [|by eexists].
    assert (exists t1, (if negb (zlen chars =? 0) then access (mcopy text 0 chars)
                        else Done text) = (Done (chars ++ t1) : outcome (CodecResult * storage) _) /\
              length (chars ++ t1) = length text) as (t1 & -> & Ht1).
    { destruct (Z.eqb_spec (zlen chars) 0) as [Hz|Hz]; simpl.
      - destruct chars; [by exists text|done].
      - rewrite mcopy_start by lia. exists (drop (length chars) text). split; [done|].
        rewrite length_app, length_drop. lia. }
    cbn [mbind outcome_bind]. rewrite length_app in Ht1.
    destruct t1 as [|c t1]; [simpl in Ht1; lia|].
    rewrite mstore_mcopy, mcopy_snoc by (simpl; lia). cbn [access mbind outcome_bind].
    eexists. split; [done|]. simpl. rewrite Z2N.id by lia.
    destruct (Z.ltb_spec (zlen chars) capacity); [|lia]. rewrite mload_last by done. simpl.
    f_equal. rewrite <- app_assoc. replace (N.to_nat (Z.to_N (zlen chars))) with (length chars) by lia.
    apply take_app_length.
  - unfold read_fail_if. destruct (Z.ltb_spec capacity (zlen chars)); [lia|]. simpl.
    destruct ap; by eexists.
Qed.

Section Walk.
Context `{GeneratedTypes} (lang : TypeSupportLanguage).

Section Nested.
Context (ln : Z -> storage -> Prop) (vn : Z -> storage -> option (list Cdr.cdr_value))
  (rn : Z -> storage -> storage -> Prop) (apply_ : bool)
  (pn : Z -> storage -> Cdr.CdrReader ->
     outcome (CodecResult * storage) (Cdr.CdrReader * storage)).
Hypothesis nested_decodes : forall p src dst vs r pre rest,
  vn p src = Some vs -> Forall Cdr.value_ok vs -> ln p dst -> rn p src dst ->
  Cdr.reader_at r pre (Cdr.all_bytes (Cdr.rbyte_order_ r) pre vs ++ rest) ->
  decodes r pre vs apply_ dst (fun d => vn p d = Some vs) (pn p dst r).

Lemma value_decodes m src dst vs r pre rest :
  value_values lang vn m src = Some vs -> Forall Cdr.value_ok vs ->
  laid_value lang ln m dst -> room_value lang rn m src dst ->
  Cdr.reader_at r pre (Cdr.all_bytes (Cdr.rbyte_order_ r) pre vs ++ rest) ->
  decodes r pre vs apply_ dst (fun d => value_values lang vn m d = Some vs)
    (process_value lang pn m dst r apply_).
Proof.
  intros Hvs Hok Hlaid Hroom Hr. unfold value_values, process_value in *.
  case_decide as Hstr; [|case_decide as Hmsg].
  - apply bind_Some in Hvs as (chars & Hc & Hvs).
    destruct (Z.leb_spec (zlen chars) (string_upper_bound_ m)); [|done]. injection Hvs as <-.
    apply Forall_singleton in Hok as [_ H32].
    destruct (string_decodes lang ln rn m src dst chars r pre rest apply_) as (s' & Hs' & HP);
      [done..|]. exists s'. split; [done|]. destruct apply_; [|done]. simpl.
    rewrite HP. simpl. by destruct (Z.leb_spec (zlen chars) (string_upper_bound_ m)); [|lia].
  - unfold laid_value in Hlaid. rewrite decide_False, decide_True in Hlaid by done.
    unfold room_value in Hroom. rewrite decide_False, decide_True in Hroom by done.
    destruct Hlaid as (p & Hp & Hlaid). rewrite Hp in *. cbn [mbind option_bind] in *.
    unfold nested_members. unfold nested_table in Hp. destruct (members_ m) as [h|]; [|done].
    cbn [access mbind outcome_bind option_bind] in *. rewrite Hp. cbn [access mbind outcome_bind].
    by apply (nested_decodes p src dst vs r pre rest); auto.
  - destruct (scalar_value (type_id_ m) src) as [v|] eqn:Hv; [|done]. injection Hvs as <-.
    destruct (scalar_decodes lang ln m src dst r pre rest v apply_) as (s' & Hs' & HP);
      [done..|]. exists s'. split; [done|]. destruct apply_; [|done]. simpl. by rewrite HP.
Qed.

(** One element of an array whose first elements are done. *)
Lemma element_decodes m q x l src vs r pre rest :
  lawful_accessors m -> complete_accessors m ->
  value_values lang vn m src = Some vs -> Forall Cdr.value_ok vs ->
  laid_value lang ln m x -> room_value lang rn m src x ->
  Cdr.reader_at r pre (Cdr.all_bytes (Cdr.rbyte_order_ r) pre vs ++ rest) ->
  exists y, process_element lang pn m apply_ (zlen q) (Array (q ++ x :: l)) r =
    Done (Cdr.consume r pre (Cdr.all_bytes (Cdr.rbyte_order_ r) pre vs), Array (q ++ y :: l)) /\
    if apply_ then value_values lang vn m y = Some vs else y = x.
Proof.
  intros Hlaw [_ Hcomp] Hvs Hok Hlaid Hroom Hr.
  assert (forall y : storage, <[Z.to_nat (zlen q) := y]> (q ++ x :: l) = q ++ y :: l) as Hins.
  { intros y. rewrite Nat2Z.id. by rewrite insert_app_r_alt, Nat.sub_diag by lia. }
  assert (mload (q ++ x :: l) (zlen q) = Some x) as Hload
    by (rewrite mload_app_r, Z.sub_diag by lia; done).
  assert (type_id_ m = ROS_TYPE_BOOLEAN ->
    decodes r pre vs apply_ (Boolean false) (fun d => value_values lang vn m d = Some vs)
      (process_value lang pn m (Boolean false) r apply_)) as Hfalse.
  { intros Ht. apply (value_decodes m src (Boolean false) vs r pre rest); try done;
      unfold laid_value, room_value; rewrite Ht; simpl; [by eexists|done]. }
  pose proof (value_decodes m src x vs r pre rest Hvs Hok Hlaid Hroom Hr) as Hx.
  clear nested_decodes. unfold process_element. destruct apply_.
  - destruct (get_function m) as [get|] eqn:Hg.
    + destruct (la_get _ Hlaw get _ (zlen q) x Hg Hload) as (put & -> & Hput).
      destruct Hx as (y & -> & Hy). exists y. simpl. by rewrite Hput, Hins.
    + destruct Hcomp as [[_ [? ?]]|(Ht & _ & [assign Ha])]; [done|]. rewrite Ha.
      destruct Hfalse as (y & Hy & Hvy); [done|]. cbn [access mbind outcome_bind]. rewrite Hy.
      exists y. simpl. by rewrite (la_assign _ Hlaw assign _ _ x y Ha Hload), Hins.
  - exists x. split; [|done]. destruct (get_const_function m) as [get|] eqn:Hg.
    + rewrite (la_get_const _ Hlaw get _ _ Hg), Hload. by destruct Hx as (y & -> & _).
    + destruct Hcomp as [[[? ?] _]|(Ht & _)]; [done|].
      by destruct Hfalse as (y & -> & _).
Qed.

Lemma elements_decodes m srcs : forall q l vs r pre rest,
  lawful_accessors m -> complete_accessors m ->
  opt_concat (value_values lang vn m) srcs = Some vs -> Forall Cdr.value_ok vs ->
  (forall x, x ∈ l -> laid_value lang ln m x) -> Forall2 (room_value lang rn m) srcs l ->
  Cdr.reader_at r pre (Cdr.all_bytes (Cdr.rbyte_order_ r) pre vs ++ rest) ->
  exists l', for_each (fun i '(r, f) => process_element lang pn m apply_ i f r)
      (seqZ (zlen q) (zlen l)) (r, Array (q ++ l)) =
    Done (Cdr.consume r pre (Cdr.all_bytes (Cdr.rbyte_order_ r) pre vs), Array (q ++ l')) /\
    length l' = length l /\
    if apply_ then opt_concat (value_values lang vn m) l' = Some vs else l' = l.
Proof.
  induction srcs as [|src srcs IH]; intros q l vs r pre rest Hlaw Hcomp Hvs Hok Hlaid Hroom Hr.
  { apply Forall2_nil_inv_l in Hroom as ->. injection Hvs as <-. exists [].
    simpl. rewrite (consume_nil r pre rest) by done. by destruct apply_. }
  apply Forall2_cons_inv_l in Hroom as (x & l1 & Hx & Hroom & ->).
  apply opt_app_Some in Hvs as (vs1 & vs2 & Hvs1 & Hvs2 & ->).
  apply Forall_app in Hok as [Hok1 Hok2]. rewrite all_bytes_app in Hr |- *.
  set (b1 := Cdr.all_bytes (Cdr.rbyte_order_ r) pre vs1) in *.
  set (b2 := Cdr.all_bytes (Cdr.rbyte_order_ r) (pre ++ b1) vs2) in *.
  rewrite <- app_assoc in Hr.
  rewrite seqZ_cons by (simpl; lia). cbn [for_each].
  destruct (element_decodes m q x l1 src vs1 r pre (b2 ++ rest)) as (y & -> & Hy);
    try done; [apply Hlaid; set_solver|]. cbn [mbind outcome_bind]. fold b1.
  pose proof (Cdr.consume_at _ _ _ _ Hr) as Hr1.
  destruct (IH (q ++ [y]) l1 vs2 (Cdr.consume r pre b1) (pre ++ b1) rest)
    as (l' & Hl' & Hlen & HP); [done..|set_solver|done|done|].
  rewrite <- !app_assoc in Hl'. simpl app in Hl'. rewrite length_app in Hl'. simpl length in Hl'.
  exists (y :: l'). replace (Z.succ (zlen q)) with (Z.of_nat (length q + 1)) by lia.
  replace (Z.pred (zlen (x :: l1))) with (zlen l1) by (simpl; lia).
  rewrite Hl'. change (Cdr.rbyte_order_ (Cdr.consume r pre b1)) with (Cdr.rbyte_order_ r).
  fold b2. rewrite consume_consume. split; [done|]. simpl. split; [by rewrite Hlen|].
  destruct apply_; [|by subst]. simpl. by rewrite Hy, HP.
Qed.

Lemma array_decodes m src dst vs r pre rest :
  lawful_accessors m -> complete_accessors m ->
  array_values lang vn m src = Some vs -> Forall Cdr.value_ok vs ->
  laid_array lang ln m dst ->
  (forall l, src = Array l ->
     exists l', dst = Array l' /\ Forall2 (room_value lang rn m) l l') ->
  Cdr.reader_at r pre (Cdr.all_bytes (Cdr.rbyte_order_ r) pre vs ++ rest) ->
  decodes r pre vs apply_ dst (fun d => array_values lang vn m d = Some vs)
    (process_array lang pn m dst r apply_).
Proof.
  intros Hlaw Hcomp Hvs Hok (l & -> & Hlaid) Hroom Hr.
  destruct src as [| | | |ls|]; try done. cbn [array_values] in *.
  destruct (Hroom ls eq_refl) as (? & [= <-] & Hr2). clear Hroom.
  pose proof (Forall2_length _ _ _ Hr2) as Hlen.
  destruct (element_count_ok m (zlen ls)) eqn:Hcnt; [|done].
  apply opt_app_Some in Hvs as (vs1 & vs2 & [= <-] & Hvs2 & ->).
  apply Forall_app in Hok as [Hok1 Hok2]. rewrite all_bytes_app in Hr.
  unfold process_array. destruct (Hcomp) as [[size Hsize] Hacc]. rewrite Hsize.
  pose proof Hcnt as Hcnt'. unfold element_count_ok in Hcnt'. apply andb_prop in Hcnt' as [Hsz H32].
  apply Z.leb_le in H32. unfold u32_max in H32.
  set (vs1 := if is_upper_bound_ m then [Cdr.VUint32 (zlen ls)] else []) in *.
  set (b1 := Cdr.all_bytes (Cdr.rbyte_order_ r) pre vs1) in *. rewrite <- app_assoc in Hr.
  assert (read_count m (Array l) r = Done (zlen l, Cdr.consume r pre b1)) as ->.
  { unfold read_count. rewrite <- Hlen. destruct (is_upper_bound_ m); cycle 1.
    - apply Z.eqb_eq in Hsz. rewrite <- Hsz. f_equal. f_equal. subst b1 vs1. simpl.
      by rewrite (consume_nil r pre _ Hr).
    - pose proof (read_one r pre (Cdr.VUint32 (zlen ls)) _ Hr) as Hread.
      cbn [Cdr.type_of Cdr.read_value] in Hread. unfold Cdr.as_value in Hread.
      unfold codec_read. destruct (Cdr.cdr_read_uint32 r) as [| |[x r1]];
        cbn [mbind outcome_bind] in Hread; try (by specialize (Hread ltac:(simpl; lia))).
      specialize (Hread ltac:(simpl; lia)). injection Hread as -> ->. fold b1.
      cbn [map_stop mbind outcome_bind]. apply Z.leb_le in Hsz. unfold read_fail_if.
      by destruct (Z.ltb_spec (array_size_ m) (zlen ls)); [lia|]. }
  cbn [mbind outcome_bind]. rewrite (la_size _ Hlaw size l Hsize), Z.eqb_refl.
  unfold read_fail_if. cbn [negb stop_if mbind outcome_bind].
  assert (negb (if apply_ then bool_decide (is_Some (get_function m))
                else bool_decide (is_Some (get_const_function m))) &&
          (bool_decide (type_id_ m <> ROS_TYPE_BOOLEAN) ||
           bool_decide (assign_function m = None)) = false) as ->.
  { destruct Hacc as [[Hgc Hg]|(Ht & _ & [a ->])].
    - destruct apply_; by rewrite bool_decide_true.
    - rewrite (bool_decide_false (type_id_ m <> _)) by tauto.
      by rewrite (bool_decide_false (Some a = None)), andb_false_r. }
  cbn [stop_if mbind outcome_bind].
  destruct (elements_decodes m ls [] l vs2 (Cdr.consume r pre b1) (pre ++ b1) rest)
    as (l' & Hl' & Hlen' & HP); [done..|by apply Cdr.consume_at|].
  simpl app in Hl'. change (zlen ([] : list storage)) with 0 in Hl'.
  exists (Array l'). split; [|destruct apply_; [|by rewrite HP]].
  - rewrite Hl', all_bytes_app. fold b1. by rewrite consume_consume.
  - cbn [array_values]. rewrite Hlen', <- Hlen, Hcnt. fold vs1. by rewrite HP.
Qed.
End Nested.

Lemma field_values_ext vn s1 s2 m :
  field_at s1 (m_offset_ m) = field_at s2 (m_offset_ m) ->
  field_values lang vn s1 m = field_values lang vn s2 m.
Proof. unfold field_values. by intros ->. Qed.

Lemma process_members_decodes fuel : disjoint_fields ->
  forall ap p src dst vs r pre rest,
  message_values lang fuel p src = Some vs -> Forall Cdr.value_ok vs ->
  laid_out lang fuel p dst -> has_room lang fuel p src dst ->
  Cdr.reader_at r pre (Cdr.all_bytes (Cdr.rbyte_order_ r) pre vs ++ rest) ->
  decodes r pre vs ap dst (fun d => message_values lang fuel p d = Some vs)
    (process_members lang fuel ap p dst r).
Proof.
  intros Hdisj. induction fuel as [|fuel IH];
    intros ap p src dst vs r pre rest Hvs Hok Hlaid Hroom Hr; [done|].
  destruct Hlaid as [Hcount Hlaid]. rewrite process_members_loop by done.
  cbn [message_values has_room] in *.
  enough (forall l dst vs r pre rest, l ⊆ fields_of p -> NoDup (m_offset_ <$> l) ->
    opt_concat (field_values lang (message_values lang fuel) src) l = Some vs ->
    Forall Cdr.value_ok vs -> (forall m, m ∈ l -> laid_field lang (laid_out lang fuel) dst m) ->
    (forall m, m ∈ l -> room_field lang (has_room lang fuel) src dst m) ->
    Cdr.reader_at r pre (Cdr.all_bytes (Cdr.rbyte_order_ r) pre vs ++ rest) ->
    decodes r pre vs ap dst (fun d =>
        opt_concat (field_values lang (message_values lang fuel) d) l = Some vs /\
        forall o, o ∉ m_offset_ <$> l -> field_at d o = field_at dst o)
      (for_each (fun m '(r, message) => process_field lang fuel ap m r message) l (r, dst)))
    as Hgen.
  { destruct (Hgen (fields_of p) dst vs r pre rest) as (d & Hd & HP); try done.
    exists d. split; [done|]. destruct ap; [apply HP|done]. }
  clear Hvs Hok Hlaid Hroom Hr vs r pre rest dst.
  induction l as [|m l IHl]; intros dst vs r pre rest Hl Hnd Hvs Hok Hlaid Hroom Hr.
  { injection Hvs as <-. exists dst. simpl. rewrite (consume_nil r pre rest) by done.
    by destruct ap. }
  apply opt_app_Some in Hvs as (vs1 & vs2 & Hvs1 & Hvs2 & ->).
  apply Forall_app in Hok as [Hok1 Hok2]. rewrite all_bytes_app in Hr.
  set (b1 := Cdr.all_bytes (Cdr.rbyte_order_ r) pre vs1) in *. rewrite <- app_assoc in Hr.
  destruct (Hlaid m) as (x & Hx & Hlx); [set_solver|].
  pose proof (Hroom m ltac:(set_solver)) as Hrm.
  pose proof Hvs1 as Hvs1'. unfold field_values in Hvs1'. apply bind_Some in Hvs1' as (sx & Hsx & Hvx).
  specialize (Hrm sx x Hsx Hx).
  (* the field *)
  assert (decodes r pre vs1 ap x
    (fun d => (if is_array_ m then array_values lang else value_values lang)
                (message_values lang fuel) m d = Some vs1)
    (if is_array_ m then process_array lang (process_members lang fuel ap) m x r ap
     else process_value lang (process_members lang fuel ap) m x r ap)) as (y & Hy & HPy).
  { destruct (is_array_ m) eqn:Harr.
    - assert (lawful_accessors m /\ complete_accessors m) as [Hlaw Hcomp].
      { assert (m ∈ fields_of p) as Hm by set_solver. unfold fields_of in Hm.
        destruct (member_table_ (members_at p)) as [t|] eqn:Ht; simpl in Hm; [|set_solver].
        by apply (gt_accessors p t). }
      by eapply (array_decodes (laid_out lang fuel) _ (has_room lang fuel) ap _ (IH ap)).
    - by eapply (value_decodes (laid_out lang fuel) _ (has_room lang fuel) ap _ (IH ap)). }
  set (d1 := set_field dst (m_offset_ m) y).
  rewrite fmap_cons in Hnd. apply NoDup_cons in Hnd as [Hnotin Hnd].
  assert (forall o, field_at d1 o = if o =? m_offset_ m then Some y else field_at dst o) as Hd1
    by (intros o; by eapply field_set_field).
  assert (forall m', m' ∈ l -> field_at d1 (m_offset_ m') = field_at dst (m_offset_ m')) as Hsame.
  { intros m' Hm'. rewrite Hd1. destruct (Z.eqb_spec (m_offset_ m') (m_offset_ m)) as [Heq|];
      [|done]. destruct Hnotin. rewrite <- Heq. by apply list_elem_of_fmap_2. }
  destruct (IHl d1 vs2 (Cdr.consume r pre b1) (pre ++ b1) rest) as (d & Hd & HPd); try done.
  { set_solver. }
  { intros m' Hm'. destruct (Hlaid m') as (z & Hz & Hlz); [set_solver|].
    exists z. by rewrite Hsame. }
  { intros m' Hm' s z Hs Hz. rewrite Hsame in Hz by done. apply (Hroom m'); [set_solver|done..]. }
  { by apply Cdr.consume_at. }
  exists d. cbn [for_each]. rewrite (process_field_at _ _ _ _ _ _ _ Hx), Hy. cbn [inside mbind outcome_bind]. fold d1.
  fold b1. rewrite Hd, all_bytes_app. fold b1. rewrite consume_consume. split; [done|].
  destruct ap.
  - destruct HPd as [HPd Hout]. split.
    + cbn [opt_concat]. rewrite HPd. unfold field_values at 1.
      rewrite Hout, Hd1, Z.eqb_refl by done. cbn [mbind option_bind]. by rewrite HPy.
    + intros o Ho. rewrite fmap_cons in Ho. rewrite Hout by set_solver.
      rewrite Hd1. destruct (Z.eqb_spec o (m_offset_ m)); [set_solver|done].
  - subst y d. by apply set_field_id.
Qed.
End Walk.

End CodecRoundtrip.
