(* ===== verification/CodecTheorems.v ===== *)
(** * The codec of ROS messages: theorems

    The public functions of [type_support.cpp] and [xcdr1_codec.cpp]: analysis of any
    descriptors returns; an accepted message is encoded exactly and within the analysed
    maximum; a decoded message holds what was encoded; whatever bytes arrive, a message is
    filled completely or left alone. *)
From stdpp Require Import list.
From S2P Require Import Prelude Bytes Cdr Introspection SampleTypes TypeSupport TypeSupportFacts TypeNames CodecSpec Xcdr1Codec CodecSerialize CodecDeserialize CodecRoundtrip.

Module CodecTheorems.
Import Introspection TypeSupport TypeSupportFacts CodecSpec Codec CodecSerialize CodecDeserialize CodecRoundtrip.

(** ** The analysis *)

Lemma init_state_ok limit :
  0 <= limit < 2 ^ 64 -> state_ok (AnalysisState_init limit).
Proof. intros Hl. split; simpl; (done || lia). Qed.

Section Runtime.
Context `{GeneratedTypes}.

Lemma analyze_start lang members limit :
  0 <= limit < 2 ^ 64 ->
  steps id (AnalysisState_init limit)
    (analyze_members analysis_fuel lang members 1 (AnalysisState_init limit)).
Proof.
  intros Hl. apply analyze_members_steps; [by apply init_state_ok|..];
    unfold kMaximumTypeNestingDepth, analysis_fuel, kMaximumTypeNestingDepth; simpl; lia.
Qed.

(** What an accepted type says about the walk over its members. *)
Lemma analyze_type_support_inv h limit info :
  0 <= limit < 2 ^ 64 -> analyze_type_support (Some h) limit = Done info ->
  exists p st, data h = Some p /\ 4 <= limit /\
    analyze_members analysis_fuel (language info) (Some p) 1 (AnalysisState_init (limit - 4))
      = Done st /\
    extends (AnalysisState_init (limit - 4)) st /\
    maximum_serialized_size info = offset st + 4 /\
    maximum_nesting_depth info = maximum_depth st.
Proof.
  intros Hl Han. unfold analyze_type_support, kXcdr1EncapsulationSize in Han. inv_done.
  destruct a as [lang name]. apply orb_false_iff in H1 as [Hd H4].
  apply bool_decide_eq_false in Hd. apply Z.ltb_ge in H4.
  apply bind_Done_inv in Han as (st & Hst & [= <-]). apply map_stop_Done in Hst.
  rewrite sub64_id in Hst by lia. destruct (data h) as [p|]; [|done].
  pose proof (analyze_start lang (Some p) (limit - 4) ltac:(lia)) as Hex.
  rewrite Hst in Hex. exists p, st. simpl. split_and!; try done.
  destruct Hex as [[] Hlim ?]. simpl in Hlim. unfold id in *. rewrite add64_id by lia. done.
Qed.

(** C28: the analysis of a message type always returns, also when the descriptors refer to
    each other in cycles or nest too deeply: it ends in an error or in a maximum size
    between the encapsulation header and the limit, for a type nested at most 16 deep. *)
Theorem analyze_returns h limit :
  (forall s, typesupport_identifier h = Some s -> terminated s) -> 0 <= limit < 2 ^ 64 ->
  match analyze_type_support (Some h) limit with
  | Fault => False
  | Stop _ => True
  | Done info => kXcdr1EncapsulationSize <= maximum_serialized_size info <= limit /\
                 maximum_nesting_depth info <= kMaximumTypeNestingDepth
  end.
Proof.
  intros Hid Hl. destruct (analyze_type_support (Some h) limit) as [| |info] eqn:Han; [|done|].
  - unfold analyze_type_support in Han.
    destruct (stop_if _ _) as [| |[]] eqn:Hg; [by destruct (_ || _)|done|].
    cbn [mbind outcome_bind] in Han. apply stop_if_Done, orb_false_iff in Hg as [_ H4].
    apply Z.ltb_ge in H4. unfold kXcdr1EncapsulationSize in *.
    pose proof (TypeNames.derive_type_name_total h Hid) as Hname.
    destruct (derive_type_name (Some h)) as [| |[lang name]]; [done..|].
    cbn [mbind outcome_bind] in Han. rewrite sub64_id in Han by lia.
    pose proof (analyze_start lang (data h) (limit - 4) ltac:(lia)) as Hex.
    by destruct (analyze_members _ _ _ _ _).
  - apply analyze_type_support_inv in Han as (p & st & _ & H4 & _ & [Hok Hlim _] & -> & ->);
      [|done]. simpl in Hlim. unfold id, kXcdr1EncapsulationSize in *. destruct Hok. lia.
Qed.

(** ** Serialisation *)

Definition cdr_order (order : CodecByteOrder) : ByteOrder :=
  match order with codec_little_endian => little_endian | _ => big_endian end.

Definition codec_order_ok (order : CodecByteOrder) : Prop :=
  order = codec_big_endian \/ order = codec_little_endian.

Definition codec_success (bytes : Z) : CodecResult :=
  {| c_error := codec_none; type_support_error := ts_none; bytes_processed := bytes |}.

(** The walk over a message that is laid out, with the buffer that was analysed. *)
Lemma serialize_walk h p buffer info msg order w :
  zlen buffer < 2 ^ 64 -> data h = Some p ->
  analyze_type_support (Some h) (zlen buffer) = Done info ->
  laid_out (language info) analysis_fuel p msg ->
  Cdr.writer_at w (Cdr.header_bytes (cdr_order order)) (drop 4 buffer) ->
  Cdr.capacity_ w = zlen buffer ->
  exists st, maximum_serialized_size info = offset st + 4 /\
    emits w (Cdr.header_bytes (cdr_order order)) (drop 4 buffer) st
      (serialize_members (language info) analysis_fuel p msg w)
      (message_values (language info) analysis_fuel p msg).
Proof.
  intros H64 Hp Han Hlaid Hw Hcap.
  apply analyze_type_support_inv in Han as (p' & st & Hp' & H4 & Han & Hex & Hsize & _);
    [|lia]. rewrite Hp in Hp'. injection Hp' as <-.
  exists st. split; [done|].
  apply (serialize_members_emits _ analysis_fuel p 1 msg w _ _ (AnalysisState_init (zlen buffer - 4)));
    try done; try (unfold kMaximumTypeNestingDepth, analysis_fuel, kMaximumTypeNestingDepth; simpl; lia).
  split; [done| |by apply init_state_ok; lia|simpl; lia]. simpl. lia.
Qed.

Lemma serialize_outcome h p buffer info msg order :
  zlen buffer < 2 ^ 64 -> data h = Some p -> codec_order_ok order ->
  analyze_type_support (Some h) (zlen buffer) = Done info ->
  laid_out (language info) analysis_fuel p msg ->
  match message_values (language info) analysis_fuel p msg with
  | Some vs =>
      let l := Cdr.payload_bytes (cdr_order order) vs in
      serialize_xcdr1 (Some h) (Some msg) (Some buffer) (zlen buffer) order =
        Done (codec_success (zlen l), Some (l ++ drop (length l) buffer)) /\
      zlen l <= maximum_serialized_size info <= zlen buffer /\ Forall Cdr.value_ok vs
  | None =>
      exists e n b,
        serialize_xcdr1 (Some h) (Some msg) (Some buffer) (zlen buffer) order =
          Stop (codec_fail e n, Some b) /\ length b = length buffer /\
        (e = invalid_message_storage \/ e = field_bound_exceeded)
  end.
Proof.
  intros H64 Hp Hord Han Hlaid.
  pose proof (analyze_type_support_inv h (zlen buffer) info ltac:(lia) Han)
    as (_ & st' & _ & H4 & _ & [Hok Hlim _] & Hmax & _).
  assert (supported_byte_order (cdr_order order) = true) as Hsup by (by destruct Hord as [-> | ->]).
  destruct (Cdr.w_begin_spec buffer (cdr_order order) Hsup H64 H4) as (w & Hw & Hat & Ho & Hc).
  destruct (serialize_walk h p buffer info msg order w) as (st & Hst & Hem); [done..|].
  assert (serialize_xcdr1 (Some h) (Some msg) (Some buffer) (zlen buffer) order =
    (w ← map_stop (fun '(result, w) => (result, Cdr.buffer_ w))
           (serialize_members (language info) analysis_fuel p msg w);
     Done (codec_success (Cdr.offset_ w), Cdr.buffer_ w))) as ->.
  { unfold serialize_xcdr1. rewrite bool_decide_false by (intros [|[]]; discriminate).
    unfold cdr_order in Hw.
    destruct Hord as [-> | ->]; cbn [orb stop_if mbind outcome_bind]; rewrite Han, Hw;
      cbn [map_stop access mbind outcome_bind]; by rewrite Hp. }
  destruct (message_values (language info) analysis_fuel p msg) as [vs|].
  - destruct Hem as (Hok' & -> & Hlen). cbn [map_stop mbind outcome_bind].
    unfold Cdr.payload_bytes. rewrite Ho in *.
    set (hd := Cdr.header_bytes (cdr_order order)) in *.
    set (l := Cdr.all_bytes (cdr_order order) hd vs) in *.
    assert (length hd = 4%nat) as Hhd by done. rewrite length_app, Hhd. split; [|split; [|done]].
    + unfold Cdr.emit, Cdr.w_set_buffer. cbn [Cdr.offset_ Cdr.buffer_].
      rewrite drop_drop. do 3 f_equal. unfold codec_success. f_equal. lia.
    + simpl in Hlim. unfold id in *. destruct Hok. lia.
  - destruct Hem as (e & n & w' & b & -> & Hb & Hlen & He). exists e, n, b.
    cbn [map_stop mbind outcome_bind]. rewrite Hb. split_and!; [done| |done].
    rewrite Hlen, length_drop. change (length (Cdr.header_bytes (cdr_order order))) with 4%nat.
    lia.
Qed.

(** C17: for a message laid out as its type asks, [serialize_xcdr1] into a buffer that the
    analysis accepts writes exactly the XCDR1 encoding of the message's values, at most the
    analysed maximum of bytes, and leaves the rest of the buffer alone; a message that has
    no values (an inconsistent C string, a string or sequence beyond its bound, an array of
    the wrong length) is reported as such.  It never runs out of the buffer. *)
Theorem codec_serialize_exact h p buffer info msg order :
  zlen buffer < 2 ^ 64 -> data h = Some p -> codec_order_ok order ->
  analyze_type_support (Some h) (zlen buffer) = Done info ->
  laid_out (language info) analysis_fuel p msg ->
  match message_values (language info) analysis_fuel p msg with
  | Some vs =>
      let l := Cdr.payload_bytes (cdr_order order) vs in
      serialize_xcdr1 (Some h) (Some msg) (Some buffer) (zlen buffer) order =
        Done (codec_success (zlen l), Some (l ++ drop (length l) buffer)) /\
      zlen l <= maximum_serialized_size info <= zlen buffer
  | None =>
      exists e n b,
        serialize_xcdr1 (Some h) (Some msg) (Some buffer) (zlen buffer) order =
          Stop (codec_fail e n, Some b) /\ length b = length buffer /\
        (e = invalid_message_storage \/ e = field_bound_exceeded)
  end.
Proof.
  intros H64 Hp Hord Han Hlaid.
  pose proof (serialize_outcome h p buffer info msg order H64 Hp Hord Han Hlaid) as Hs.
  destruct (message_values _ _ p msg); [|done]. by destruct Hs as (? & ? & _).
Qed.

(** ** Deserialisation *)

(** The parts of [deserialize_xcdr1] behind its checks. *)
Lemma deserialize_unfold h p bytes limit info msg :
  zlen bytes <= limit -> data h = Some p -> analyze_type_support (Some h) limit = Done info ->
  deserialize_xcdr1 (Some h) (Some bytes) (zlen bytes) limit (Some msg) =
  match Cdr.r_begin (Cdr.CdrReader_new (Some bytes) (zlen bytes)) with
  | Fault => Fault
  | Stop r => Stop (reader_failure r, Some msg)
  | Done r =>
      '(v, s) ← map_stop (fun '(result, s) => (result, Some s))
                  (process_members (language info) analysis_fuel false p msg r);
      stop_if (negb (Cdr.remaining v =? 0))
        (codec_fail trailing_data (Cdr.roffset_ v), Some s);;
      '(r, s) ← map_stop (fun '(result, s) => (result, Some s))
                  (process_members (language info) analysis_fuel true p s r);
      Done (codec_success (Cdr.roffset_ r), Some s)
  end.
Proof.
  intros Hsize Hp Han. unfold deserialize_xcdr1. rewrite bool_decide_false by (intros [|[]]; discriminate).
  destruct (Z.ltb_spec limit (zlen bytes)); [lia|]. cbn [orb stop_if mbind outcome_bind].
  rewrite Han. destruct (Cdr.r_begin _) as [| |r]; [done..|].
  cbn [map_stop access mbind outcome_bind]. rewrite Hp. cbn [access mbind outcome_bind].
  destruct (map_stop _ (process_members (language info) analysis_fuel false p msg r))
    as [| |[v s]]; cbn [mbind outcome_bind]; [done..|].
  by destruct (stop_if _ _).
Qed.

(** [deserialize_xcdr1] on arbitrary bytes. *)
Lemma deserialize_outcome h p bytes limit info msg :
  bytes_ok bytes -> zlen bytes < 2 ^ 64 -> zlen bytes <= limit -> data h = Some p ->
  analyze_type_support (Some h) limit = Done info ->
  laid_out (language info) analysis_fuel p msg ->
  match deserialize_xcdr1 (Some h) (Some bytes) (zlen bytes) limit (Some msg) with
  | Fault => False
  | Stop (result, m) => m = Some msg
  | Done (result, m) =>
      result = codec_success (zlen bytes) /\
      exists msg', m = Some msg' /\ shape msg' = shape msg
  end.
Proof.
  intros Hbytes H64 Hsize Hp Han Hlaid. rewrite (deserialize_unfold h p _ _ info) by done.
  pose proof (Cdr.r_begin_safe bytes) as Hsafe.
  pose proof (Cdr.r_begin_wf bytes) as Hwf.
  destruct (Cdr.r_begin _) as [|r|r] eqn:Hr; [done..|].
  assert (reading (zlen bytes) r) as Hreading.
  { split; [by apply Hwf|]. unfold Cdr.r_begin, Cdr.r_fail_if in Hr. by inv_done. }
  pose proof (process_members_validates (language info) (zlen bytes) analysis_fuel p msg msg r
    Hreading Hlaid eq_refl) as Hv.
  destruct (process_members _ _ false p msg r) as [|[res s]|[v s]];
    cbn [map_stop mbind outcome_bind]; [done|by simpl in Hv; subst s|].
  destruct Hv as (-> & (Hv & Hn & Hi) & s2 & Hs2 & Hshape).
  destruct (negb (Cdr.remaining v =? 0)) eqn:Hrem; cbn [stop_if mbind outcome_bind]; [done|].
  rewrite Hs2. cbn [map_stop mbind outcome_bind].
  split; [|by exists s2]. f_equal. apply negb_false_iff, Z.eqb_eq in Hrem.
  destruct Hv as [Hs64 _ Hready]. destruct (Hready Hi) as (_ & Ho & Hos).
  unfold Cdr.remaining in Hrem. rewrite (proj2 (Z.leb_le _ _)) in Hrem by done.
  rewrite sub64_id in Hrem by lia. lia.
Qed.

(** C8: whatever bytes arrive, [deserialize_xcdr1] into a message laid out as its type
    asks stays within the bytes and the message, and either reports an error and leaves the
    message exactly as it was, or fills it, keeping its shape, and has consumed every
    byte. *)
Theorem codec_atomic h p bytes limit info msg :
  bytes_ok bytes -> zlen bytes < 2 ^ 64 -> zlen bytes <= limit -> data h = Some p ->
  analyze_type_support (Some h) limit = Done info ->
  laid_out (language info) analysis_fuel p msg ->
  match deserialize_xcdr1 (Some h) (Some bytes) (zlen bytes) limit (Some msg) with
  | Fault => False
  | Stop (result, m) => m = Some msg
  | Done (result, m) =>
      result = codec_success (zlen bytes) /\
      exists msg', m = Some msg' /\ shape msg' = shape msg
  end.
Proof. apply deserialize_outcome. Qed.

Lemma analyze_language h limit1 limit2 info1 info2 :
  analyze_type_support (Some h) limit1 = Done info1 ->
  analyze_type_support (Some h) limit2 = Done info2 -> language info1 = language info2.
Proof.
  unfold analyze_type_support. intros H1 H2.
  destruct (derive_type_name (Some h)) as [| |[lang name]]; inv_done; try done.
Qed.

(** Both passes over the encoding of [vs]. *)
Lemma deserialize_payload_values h p limit info src dst order vs :
  data h = Some p -> codec_order_ok order -> disjoint_fields ->
  analyze_type_support (Some h) limit = Done info ->
  laid_out (language info) analysis_fuel p dst ->
  has_room (language info) analysis_fuel p src dst ->
  message_values (language info) analysis_fuel p src = Some vs -> Forall Cdr.value_ok vs ->
  let l := Cdr.payload_bytes (cdr_order order) vs in
  zlen l <= limit -> zlen l < 2 ^ 64 ->
  exists dst',
    deserialize_xcdr1 (Some h) (Some l) (zlen l) limit (Some dst)
      = Done (codec_success (zlen l), Some dst') /\
    message_values (language info) analysis_fuel p dst' = Some vs.
Proof.
  intros Hp Hord Hdisj Han Hdst Hroom Hvs Hok l Hfit H64. subst l.
  assert (supported_byte_order (cdr_order order) = true) as Hsup by (by destruct Hord as [-> | ->]).
  rewrite (deserialize_unfold h p _ _ info) by done. unfold Cdr.payload_bytes in *.
  set (hd := Cdr.header_bytes (cdr_order order)) in *.
  set (b := Cdr.all_bytes (cdr_order order) hd vs) in *.
  rewrite length_app in H64. change (length hd) with 4%nat in H64.
  destruct (Cdr.r_begin_spec (cdr_order order) b Hsup) as (r & Hr & Hat & Ho); [lia|].
  fold hd in Hr, Hat. rewrite Hr.
  assert (forall ap, exists s, process_members (language info) analysis_fuel ap p dst r =
    Done (Cdr.consume r hd b, s) /\
    if ap then message_values (language info) analysis_fuel p s = Some vs else s = dst) as Hpass.
  { intros ap. pose proof (process_members_decodes (language info) analysis_fuel Hdisj ap p src dst
      vs r hd []) as Hd. unfold decodes in Hd. rewrite Ho, app_nil_r in Hd. by apply Hd. }
  destruct (Hpass false) as (s & -> & ->). destruct (Hpass true) as (dst' & Hd & Hvals).
  cbn [map_stop mbind outcome_bind].
  pose proof (Cdr.ra_size _ _ _ Hat) as Hsize.
  assert (Cdr.remaining (Cdr.consume r hd b) = 0) as ->.
  { unfold Cdr.remaining, Cdr.consume, Cdr.r_set_offset. cbn [Cdr.roffset_ Cdr.rsize_].
    rewrite Hsize, Z.leb_refl, sub64_id; lia. }
  cbn [negb Z.eqb stop_if mbind outcome_bind]. rewrite Hd. cbn [map_stop mbind outcome_bind].
  exists dst'. split; [|done]. rewrite length_app. do 3 f_equal.
  unfold codec_success, Cdr.consume, Cdr.r_set_offset. cbn [Cdr.roffset_]. f_equal. lia.
Qed.

(** C6: a message that was serialised is deserialised into any destination of its type
    with room for it (sequences of the same lengths, strings with the capacity), in either
    byte order: the call succeeds, consumes the whole payload, and the destination holds
    the values of the message. *)
Theorem codec_roundtrip h p buffer limit info info' src dst order result out :
  zlen buffer < 2 ^ 64 -> data h = Some p -> codec_order_ok order ->
  disjoint_fields ->
  analyze_type_support (Some h) (zlen buffer) = Done info ->
  laid_out (language info) analysis_fuel p src ->
  laid_out (language info) analysis_fuel p dst ->
  has_room (language info) analysis_fuel p src dst ->
  serialize_xcdr1 (Some h) (Some src) (Some buffer) (zlen buffer) order
    = Done (result, Some out) ->
  analyze_type_support (Some h) limit = Done info' -> bytes_processed result <= limit ->
  exists dst',
    deserialize_xcdr1 (Some h) (Some (take (Z.to_nat (bytes_processed result)) out))
      (bytes_processed result) limit (Some dst)
      = Done (codec_success (bytes_processed result), Some dst') /\
    message_values (language info) analysis_fuel p dst' =
    message_values (language info) analysis_fuel p src.
Proof.
  intros H64 Hp Hord Hdisj Han Hsrc Hdst Hroom Hser Han' Hfit.
  pose proof (serialize_outcome h p buffer info src order H64 Hp Hord Han Hsrc) as Hs.
  destruct (message_values _ _ p src) as [vs|] eqn:Hvs; cycle 1.
  { destruct Hs as (e & n & b & Hs & _). by rewrite Hser in Hs. }
  destruct Hs as (Hs & Hmax & Hok). remember (Cdr.payload_bytes (cdr_order order) vs) as l eqn:Hl.
  rewrite Hser in Hs. injection Hs as -> ->.
  cbn [bytes_processed codec_success] in *. rewrite Nat2Z.id, take_app_length.
  rewrite (analyze_language h _ _ _ _ Han Han') in *.
  subst l. apply (deserialize_payload_values h p limit info' src); try done. lia.
Qed.
End Runtime.

(** ** On the types of the tests *)

Import SampleTypes.

(** [source] of [test_c_round_trip], and an empty destination. *)
Definition c_message (count stamp : Z) (frame : list Z) (size : N) (flags samples : list Z)
    (child : Z) : storage :=
  Struct [(0, Scalar 4 count); (8, Scalar 8 stamp); (16, CString (Some frame) size 6);
          (40, Array (Scalar 1 <$> flags)); (48, Array (Scalar 2 <$> samples));
          (72, Struct [(0, Scalar 4 child)])].

Definition c_source : storage :=
  c_message 7 4623226492472524800 [109; 97; 112; 0; 0; 0] 3 [1; 2; 3] [65534; 9] 42.
Definition c_destination : storage :=
  c_message 999 0 [0; 0; 0; 0; 0; 0] 0 [0; 0; 0] [0; 0] 0.

(** Unfold a statement about every field of a table that is a list of constants. *)
Ltac each_field :=
  repeat match goal with
  | |- forall m, m ∈ _ -> _ => apply Forall_forall
  | |- Forall _ (_ :: _) => apply Forall_cons_2
  | |- Forall _ [] => apply Forall_nil_2
  end.

Lemma c_message_laid count stamp frame size flags samples child :
  6 <= zlen frame ->
  laid_out introspection_c analysis_fuel 1
    (c_message count stamp frame size flags samples child).
Proof.
  intros Hf. change analysis_fuel with 17%nat. split; [done|].
  change (fields_of 1) with c_fields. unfold c_fields. each_field.
  - exists (Scalar 4 count). split; [done|]. by eexists.
  - exists (Scalar 8 stamp). split; [done|]. by eexists.
  - exists (CString (Some frame) size 6). split; [done|].
    split; [lia|]. by intros text [= <-].
  - exists (Array (Scalar 1 <$> flags)). split; [done|]. eexists. split; [done|].
    intros x (b & -> & _)%list_elem_of_fmap. by eexists.
  - exists (Array (Scalar 2 <$> samples)). split; [done|]. eexists. split; [done|].
    intros x (b & -> & _)%list_elem_of_fmap. by eexists.
  - exists (Struct [(0, Scalar 4 child)]). split; [done|]. exists 2. split; [done|].
    split; [done|]. change (fields_of 2) with [plain "value" ROS_TYPE_UINT32 0 0 None].
    each_field. exists (Scalar 4 child). split; [done|]. by eexists.
Qed.

Lemma analyze_returns_witness :
  analyze_type_support (Some cyclic_handle) 1024 = Stop recursive_type /\
  match analyze_type_support (Some cyclic_handle) 1024 with
  | Fault => False
  | Stop _ => True
  | Done info => kXcdr1EncapsulationSize <= maximum_serialized_size info <= 1024 /\
                 maximum_nesting_depth info <= kMaximumTypeNestingDepth
  end.
Proof.
  split; [by vm_compute|]. apply (analyze_returns cyclic_handle 1024); [|lia].
  intros s [= <-]. apply text_terminated.
Defined.

Lemma codec_serialize_exact_witness :
  exists out, serialize_xcdr1 (Some c_handle) (Some c_source) (Some (replicate 48 0)) 48
    codec_little_endian = Done (codec_success 44, Some out) /\
    take 16 out = [0; 1; 0; 0; 7; 0; 0; 0; 0; 0; 0; 0; 0; 0; 0; 0].
Proof.
  destruct (analyze_type_support (Some c_handle) (zlen (replicate 48 0))) as [| |info] eqn:Han;
    [vm_compute in Han; discriminate..|].
  assert (language info = introspection_c) as Hlang.
  { vm_compute in Han. by injection Han as <-. }
  pose proof (codec_serialize_exact c_handle 1 (replicate 48 0) info c_source
    codec_little_endian) as Hs.
  rewrite Hlang in Hs.
  destruct (message_values introspection_c analysis_fuel 1 c_source) as [vs|] eqn:Hvs;
    [|vm_compute in Hvs; discriminate].
  destruct Hs as [Hs _]; [done|done|by right|done|by apply c_message_laid|].
  vm_compute in Hvs. injection Hvs as <-. eexists. split; [exact Hs|]. by vm_compute.
Defined.

Lemma codec_atomic_witness :
  exists result,
    deserialize_xcdr1 (Some c_handle) (Some [0; 1; 0; 0; 7; 0; 0; 0; 9]) 9 48
      (Some c_destination) = Stop (result, Some c_destination).
Proof.
  destruct (analyze_type_support (Some c_handle) 48) as [| |info] eqn:Han;
    [vm_compute in Han; discriminate..|].
  assert (language info = introspection_c) as Hlang.
  { vm_compute in Han. by injection Han as <-. }
  pose proof (codec_atomic c_handle 1 [0; 1; 0; 0; 7; 0; 0; 0; 9] 48 info c_destination) as Ha.
  rewrite Hlang in Ha. change (zlen [0; 1; 0; 0; 7; 0; 0; 0; 9]) with 9 in Ha.
  destruct (deserialize_xcdr1 (Some c_handle) (Some [0; 1; 0; 0; 7; 0; 0; 0; 9]) 9 48
    (Some c_destination)) as [|[result m]|[result m]] eqn:Hd;
    [vm_compute in Hd; discriminate| |vm_compute in Hd; discriminate].
  exists result. rewrite Ha; [done| |done|done|done|done|by apply c_message_laid].
  repeat constructor; unfold byte_ok; lia.
Defined.

Lemma sample_disjoint : disjoint_fields.
Proof.
  intros p. unfold fields_of. cbn [members_at sample_runtime]. unfold sample_table.
  repeat case_match; apply (bool_decide_unpack _); by vm_compute.
Qed.

Lemma c_room : has_room introspection_c analysis_fuel 1 c_source c_destination.
Proof.
  change analysis_fuel with 17%nat. cbn [has_room].
  change (fields_of 1) with c_fields. unfold c_fields. each_field; intros s d [= <-] [= <-].
  - done.
  - done.
  - intros chars [= <-]. split; [by eexists|]. by vm_compute.
  - intros l [= <-]. eexists. split; [done|]. by repeat constructor.
  - intros l [= <-]. eexists. split; [done|]. by repeat constructor.
  - intros p [= <-]. change (fields_of 2) with [plain "value" ROS_TYPE_UINT32 0 0 None].
    cbn [has_room]. each_field. by intros s d [= <-] [= <-].
Qed.

(** [test_c_round_trip] *)
Lemma codec_roundtrip_witness :
  exists out dst',
    serialize_xcdr1 (Some c_handle) (Some c_source) (Some (replicate 48 0)) 48
      codec_big_endian = Done (codec_success 44, Some out) /\
    deserialize_xcdr1 (Some c_handle) (Some (take 44 out)) 44 48 (Some c_destination)
      = Done (codec_success 44, Some dst') /\
    message_values introspection_c analysis_fuel 1 dst' =
    message_values introspection_c analysis_fuel 1 c_source.
Proof.
  destruct (serialize_xcdr1 (Some c_handle) (Some c_source) (Some (replicate 48 0)) 48
    codec_big_endian) as [| |[result out]] eqn:Hser; [vm_compute in Hser; discriminate..|].
  assert (result = codec_success 44 /\ exists o, out = Some o) as [-> [o ->]].
  { vm_compute in Hser. injection Hser as <- <-. split; [done|by eexists]. }
  destruct (analyze_type_support (Some c_handle) 48) as [| |info] eqn:Han;
    [vm_compute in Han; discriminate..|].
  assert (language info = introspection_c) as Hlang.
  { vm_compute in Han. by injection Han as <-. }
  destruct (codec_roundtrip c_handle 1 (replicate 48 0) 48 info info c_source c_destination
    codec_big_endian (codec_success 44) o) as (dst' & Hd & Hv);
    rewrite ?Hlang; [done|done|by left|apply sample_disjoint|exact Han|
      by apply c_message_laid|by apply c_message_laid|apply c_room|exact Hser|exact Han|
      simpl; lia|].
  rewrite Hlang in Hv. exists o, dst'. split; [done|]. split; [exact Hd|exact Hv].
Defined.

End CodecTheorems.
