(* ===== verification/Qos.v ===== *)
(** * QoS normalisation, planning and compatibility

    [rmw_openrtdds_cpp/include/rmw_openrtdds_cpp/qos.hpp] and
    [rmw_openrtdds_cpp/src/qos.cpp].  The policies are those of the ROS 2 header
    [rmw/types.h]; the constructors ending in [_other] stand for values outside the
    enumerators.  A function that reports through [error] and returns [false] is [Stop] of
    that error, with its output unchanged. *)
From stdpp Require Import list.
From S2P Require Import Prelude TypeSupport.

Module Qos.

(** ** The profile of the rmw interface *)

Inductive rmw_qos_history_policy : Set :=
  | HISTORY_SYSTEM_DEFAULT | HISTORY_KEEP_LAST | HISTORY_KEEP_ALL | HISTORY_UNKNOWN
  | HISTORY_other (value : Z).

Inductive rmw_qos_reliability_policy : Set :=
  | RELIABILITY_SYSTEM_DEFAULT | RELIABILITY_RELIABLE | RELIABILITY_BEST_EFFORT
  | RELIABILITY_UNKNOWN | RELIABILITY_BEST_AVAILABLE | RELIABILITY_other (value : Z).

Inductive rmw_qos_durability_policy : Set :=
  | DURABILITY_SYSTEM_DEFAULT | DURABILITY_TRANSIENT_LOCAL | DURABILITY_VOLATILE
  | DURABILITY_UNKNOWN | DURABILITY_BEST_AVAILABLE | DURABILITY_other (value : Z).

(** [LIVELINESS_value_2] is the deprecated enumerator the code refers to by value. *)
Inductive rmw_qos_liveliness_policy : Set :=
  | LIVELINESS_SYSTEM_DEFAULT | LIVELINESS_AUTOMATIC | LIVELINESS_value_2
  | LIVELINESS_MANUAL_BY_TOPIC | LIVELINESS_UNKNOWN | LIVELINESS_BEST_AVAILABLE
  | LIVELINESS_other (value : Z).

#[global] Instance history_eq_dec : EqDecision rmw_qos_history_policy.
Proof. solve_decision. Defined.
#[global] Instance reliability_eq_dec : EqDecision rmw_qos_reliability_policy.
Proof. solve_decision. Defined.
#[global] Instance durability_eq_dec : EqDecision rmw_qos_durability_policy.
Proof. solve_decision. Defined.
#[global] Instance liveliness_eq_dec : EqDecision rmw_qos_liveliness_policy.
Proof. solve_decision. Defined.

Record rmw_time_t : Set := { sec : Z; nsec : Z }.

Record rmw_qos_profile_t : Set := {
  history : rmw_qos_history_policy;
  depth : Z;
  reliability : rmw_qos_reliability_policy;
  durability : rmw_qos_durability_policy;
  deadline : rmw_time_t;
  lifespan : rmw_time_t;
  liveliness : rmw_qos_liveliness_policy;
  liveliness_lease_duration : rmw_time_t;
  avoid_ros_namespace_conventions : bool;
}.

(** ** The adapter's types *)

(** [enum class EndpointRole : uint8_t]; the code checks for other values. *)
Inductive EndpointRole : Set := publisher | subscription | raw_role (value : Z).

#[global] Instance EndpointRole_eq_dec : EqDecision EndpointRole.
Proof. solve_decision. Defined.

Inductive QosError : Set :=
  | qos_none
  | qos_invalid_argument
  | invalid_policy
  | unsupported_best_available
  | unsupported_history
  | unsupported_durability
  | unsupported_deadline
  | unsupported_lifespan
  | unsupported_liveliness
  | unsupported_lease_duration
  | depth_out_of_range
  | sample_size_out_of_range
  | history_bytes_out_of_range
  | qos_arithmetic_overflow.

#[global] Instance QosError_eq_dec : EqDecision QosError.
Proof. solve_decision. Defined.

Definition qos_error_string (error : QosError) : string :=
  match error with
  | qos_none => "none"
  | qos_invalid_argument => "invalid_argument"
  | invalid_policy => "invalid_policy"
  | unsupported_best_available => "unsupported_best_available"
  | unsupported_history => "unsupported_history"
  | unsupported_durability => "unsupported_durability"
  | unsupported_deadline => "unsupported_deadline"
  | unsupported_lifespan => "unsupported_lifespan"
  | unsupported_liveliness => "unsupported_liveliness"
  | unsupported_lease_duration => "unsupported_lease_duration"
  | depth_out_of_range => "depth_out_of_range"
  | sample_size_out_of_range => "sample_size_out_of_range"
  | history_bytes_out_of_range => "history_bytes_out_of_range"
  | qos_arithmetic_overflow => "arithmetic_overflow"
  end.

Record QosLimits : Set := {
  default_history_depth : Z;
  maximum_history_depth : Z;
  maximum_sample_size : Z;
  maximum_history_bytes : Z;
}.

Definition QosLimits_default : QosLimits :=
  {| default_history_depth := 10; maximum_history_depth := 1024;
     maximum_sample_size := 64 * 1024; maximum_history_bytes := 64 * 1024 * 1024 |}.

Record NormalizedQos : Set := { profile : rmw_qos_profile_t }.

Record EndpointResourcePlan : Set := {
  role : EndpointRole;
  qos : NormalizedQos;
  maximum_serialized_sample_size : Z;
  history_sample_slots : Z;
  history_storage_bytes : Z;
  reliability_repair_slots : Z;
}.

(** ** Normalisation *)

Definition kUnspecified : rmw_time_t := {| sec := 0; nsec := 0 |}.
Definition kInfinite : rmw_time_t := {| sec := 9223372036; nsec := 854775807 |}.
Definition kBestAvailable : rmw_time_t := {| sec := 9223372036; nsec := 854775806 |}.

Definition time_equal (left right : rmw_time_t) : bool :=
  (sec left =? sec right) && (nsec left =? nsec right).

Definition valid_time (value : rmw_time_t) : bool := nsec value <? 1000000000.

Definition deterministic_infinite (value : rmw_time_t) : bool :=
  time_equal value kUnspecified || time_equal value kInfinite.

Definition normalize_profile (input : rmw_qos_profile_t) (limits : QosLimits)
    : outcome QosError rmw_qos_profile_t :=
  stop_if ((default_history_depth limits =? 0) || (maximum_history_depth limits =? 0) ||
           (maximum_history_depth limits <? default_history_depth limits) ||
           (maximum_sample_size limits =? 0) || (maximum_history_bytes limits =? 0))
    qos_invalid_argument;;
  '(h, d) ← match history input with
            | HISTORY_SYSTEM_DEFAULT => Done (HISTORY_KEEP_LAST, default_history_depth limits)
            | HISTORY_KEEP_LAST => Done (history input, depth input)
            | HISTORY_KEEP_ALL => Stop unsupported_history
            | HISTORY_UNKNOWN | HISTORY_other _ => Stop invalid_policy
            end;
  stop_if ((d =? 0) || (maximum_history_depth limits <? d)) depth_out_of_range;;
  rel ← match reliability input with
        | RELIABILITY_SYSTEM_DEFAULT => Done RELIABILITY_RELIABLE
        | RELIABILITY_RELIABLE | RELIABILITY_BEST_EFFORT => Done (reliability input)
        | RELIABILITY_BEST_AVAILABLE => Stop unsupported_best_available
        | RELIABILITY_UNKNOWN | RELIABILITY_other _ => Stop invalid_policy
        end;
  dur ← match durability input with
        | DURABILITY_SYSTEM_DEFAULT => Done DURABILITY_VOLATILE
        | DURABILITY_VOLATILE => Done (durability input)
        | DURABILITY_TRANSIENT_LOCAL => Stop unsupported_durability
        | DURABILITY_BEST_AVAILABLE => Stop unsupported_best_available
        | DURABILITY_UNKNOWN | DURABILITY_other _ => Stop invalid_policy
        end;
  stop_if (negb (valid_time (deadline input))) qos_invalid_argument;;
  stop_if (time_equal (deadline input) kBestAvailable) unsupported_best_available;;
  stop_if (negb (deterministic_infinite (deadline input))) unsupported_deadline;;
  stop_if (negb (valid_time (lifespan input))) qos_invalid_argument;;
  stop_if (negb (deterministic_infinite (lifespan input))) unsupported_lifespan;;
  live ← match liveliness input with
         | LIVELINESS_SYSTEM_DEFAULT => Done LIVELINESS_AUTOMATIC
         | LIVELINESS_AUTOMATIC => Done (liveliness input)
         | LIVELINESS_BEST_AVAILABLE => Stop unsupported_best_available
         | LIVELINESS_value_2 | LIVELINESS_MANUAL_BY_TOPIC => Stop unsupported_liveliness
         | LIVELINESS_UNKNOWN | LIVELINESS_other _ => Stop invalid_policy
         end;
  stop_if (negb (valid_time (liveliness_lease_duration input))) qos_invalid_argument;;
  stop_if (time_equal (liveliness_lease_duration input) kBestAvailable)
    unsupported_best_available;;
  stop_if (negb (deterministic_infinite (liveliness_lease_duration input)))
    unsupported_lease_duration;;
  Done {| history := h; depth := d; reliability := rel; durability := dur;
          deadline := kInfinite; lifespan := kInfinite; liveliness := live;
          liveliness_lease_duration := kInfinite;
          avoid_ros_namespace_conventions := avoid_ros_namespace_conventions input |}.

Definition normalize_qos (input : rmw_qos_profile_t) (limits : QosLimits)
    : outcome QosError NormalizedQos :=
  p ← normalize_profile input limits;
  Done {| profile := p |}.

(** ** Resource plans *)

Definition plan_endpoint_resources (input : rmw_qos_profile_t)
    (type : TypeSupport.TypeSupportInfo) (role : EndpointRole) (limits : QosLimits)
    : outcome QosError EndpointResourcePlan :=
  let size := TypeSupport.maximum_serialized_size type in
  stop_if (bool_decide (role <> publisher) && bool_decide (role <> subscription))
    qos_invalid_argument;;
  normalized ← normalize_qos input limits;
  let slots := depth (profile normalized) in
  stop_if ((size =? 0) || (maximum_sample_size limits <? size)) sample_size_out_of_range;;
  stop_if (size_max / size <? slots) qos_arithmetic_overflow;;
  let history_bytes := mul64 slots size in
  stop_if (maximum_history_bytes limits <? history_bytes) history_bytes_out_of_range;;
  Done {| role := role; qos := normalized; maximum_serialized_sample_size := size;
          history_sample_slots := slots; history_storage_bytes := history_bytes;
          reliability_repair_slots :=
            if bool_decide (role = publisher) &&
               bool_decide (reliability (profile normalized) = RELIABILITY_RELIABLE)
            then slots else 0 |}.

(** ** Compatibility *)

Definition qos_compatible (pub sub : NormalizedQos) : bool :=
  if bool_decide (reliability (profile pub) = RELIABILITY_BEST_EFFORT) &&
     bool_decide (reliability (profile sub) = RELIABILITY_RELIABLE) then false
  else if bool_decide (durability (profile pub) = DURABILITY_VOLATILE) &&
          bool_decide (durability (profile sub) = DURABILITY_TRANSIENT_LOCAL) then false
  else true.

Record CompatibilityFindings : Set := {
  reliability_error : bool;
  durability_error : bool;
  deadline_error : bool;
  liveliness_error : bool;
  lease_error : bool;
  reliability_warning : bool;
  durability_warning : bool;
  deadline_warning : bool;
  liveliness_warning : bool;
  lease_warning : bool;
}.

Definition ambiguous_reliability (value : rmw_qos_reliability_policy) : bool :=
  bool_decide (value = RELIABILITY_SYSTEM_DEFAULT) ||
  bool_decide (value = RELIABILITY_UNKNOWN) ||
  bool_decide (value = RELIABILITY_BEST_AVAILABLE).

Definition ambiguous_durability (value : rmw_qos_durability_policy) : bool :=
  bool_decide (value = DURABILITY_SYSTEM_DEFAULT) ||
  bool_decide (value = DURABILITY_UNKNOWN) ||
  bool_decide (value = DURABILITY_BEST_AVAILABLE).

Definition ambiguous_liveliness (value : rmw_qos_liveliness_policy) : bool :=
  bool_decide (value = LIVELINESS_SYSTEM_DEFAULT) ||
  bool_decide (value = LIVELINESS_UNKNOWN) ||
  bool_decide (value = LIVELINESS_BEST_AVAILABLE).

Definition ambiguous_duration (value : rmw_time_t) : bool :=
  (sec value =? 9223372036) && (nsec value =? 854775806).

Definition unspecified_duration (value : rmw_time_t) : bool :=
  (sec value =? 0) && (nsec value =? 0).

Definition compare_time (left right : rmw_time_t) : Z :=
  if negb (sec left =? sec right) then if sec left <? sec right then -1 else 1
  else if negb (nsec left =? nsec right) then if nsec left <? nsec right then -1 else 1
  else 0.

(** The warning of an ambiguous enumerated policy: [weak] is what a publisher may offer
    too little with, [strong] what a subscription may ask too much with. *)
Definition policy_warning {A} `{EqDecision A} (ambiguous : A -> bool) (weak strong : A)
    (pub sub : A) : bool :=
  (ambiguous pub && ambiguous sub) || (ambiguous pub && bool_decide (sub = strong)) ||
  (bool_decide (pub = weak) && ambiguous sub).

Definition duration_error (pub sub : rmw_time_t) : bool :=
  (unspecified_duration pub && negb (unspecified_duration sub)) ||
  (negb (unspecified_duration pub) && negb (unspecified_duration sub) &&
   (0 <? compare_time pub sub)).

Definition check_findings (pub sub : rmw_qos_profile_t) : CompatibilityFindings :=
  let reliability_w := policy_warning ambiguous_reliability RELIABILITY_BEST_EFFORT
                         RELIABILITY_RELIABLE (reliability pub) (reliability sub) in
  let durability_w := policy_warning ambiguous_durability DURABILITY_VOLATILE
                        DURABILITY_TRANSIENT_LOCAL (durability pub) (durability sub) in
  let deadline_w := ambiguous_duration (deadline pub) || ambiguous_duration (deadline sub) in
  let liveliness_w := policy_warning ambiguous_liveliness LIVELINESS_AUTOMATIC
                        LIVELINESS_MANUAL_BY_TOPIC (liveliness pub) (liveliness sub) in
  let lease_w := ambiguous_duration (liveliness_lease_duration pub) ||
                 ambiguous_duration (liveliness_lease_duration sub) in
  {| reliability_error :=
       negb reliability_w && (bool_decide (reliability pub = RELIABILITY_BEST_EFFORT) &&
                              bool_decide (reliability sub = RELIABILITY_RELIABLE));
     durability_error :=
       negb durability_w && (bool_decide (durability pub = DURABILITY_VOLATILE) &&
                             bool_decide (durability sub = DURABILITY_TRANSIENT_LOCAL));
     deadline_error := negb deadline_w && duration_error (deadline pub) (deadline sub);
     liveliness_error :=
       negb liveliness_w && (bool_decide (liveliness pub = LIVELINESS_AUTOMATIC) &&
                             bool_decide (liveliness sub = LIVELINESS_MANUAL_BY_TOPIC));
     lease_error := negb lease_w && duration_error (liveliness_lease_duration pub)
                                      (liveliness_lease_duration sub);
     reliability_warning := reliability_w; durability_warning := durability_w;
     deadline_warning := deadline_w; liveliness_warning := liveliness_w;
     lease_warning := lease_w |}.

(** The copying loop of [append_reason]; [message] holds the characters of a literal, and
    [used + 1U < capacity] is checked before each of them. *)
Fixpoint append_message (reason : list Z) (capacity used : Z) (message : list Z)
    : outcome unit (list Z * Z) :=
  match message with
  | [] => Done (reason, used)
  | c :: message' =>
      if used + 1 <? capacity then
        reason ← access (mstore reason used c);
        append_message reason capacity (used + 1) message'
      else Done (reason, used)
  end.

Definition semicolon : Z := 59.

(** The two buffers-or-null of [append_reason]: [reason] and [used]. *)
Definition append_reason (capacity : Z) (message : list Z) (state : option (list Z) * Z)
    : outcome unit (option (list Z) * Z) :=
  match state with
  | (None, used) => Done (None, used)
  | (Some reason, used) =>
      if capacity =? 0 then Done (Some reason, used)
      else if negb (used =? 0) && negb (used + 1 <? capacity) then Done (Some reason, used)
      else
        '(reason, used) ←
          (if negb (used =? 0) then
             reason ← access (mstore reason used semicolon);
             reason ← access (mstore reason (used + 1) 0);
             Done (reason, used + 1)
           else Done (reason, used));
        '(reason, used) ← append_message reason capacity used message;
        reason ← access (mstore reason used 0);
        Done (Some reason, used)
  end.

Definition characters (s : string) : list Z :=
  map (fun a => Z.of_nat (Ascii.nat_of_ascii a)) (String.list_ascii_of_string s).

(** The messages in the order in which they are appended. *)
Definition reasons (f : CompatibilityFindings) : list (bool * string) :=
  [(reliability_error f, "publisher reliability does not satisfy subscription");
   (durability_error f, "publisher durability does not satisfy subscription");
   (deadline_error f, "publisher deadline does not satisfy subscription");
   (liveliness_error f, "publisher liveliness does not satisfy subscription");
   (lease_error f, "publisher lease duration does not satisfy subscription");
   (reliability_warning f,
    "reliability contains system-default, unknown, or best-available");
   (durability_warning f,
    "durability contains system-default, unknown, or best-available");
   (deadline_warning f, "deadline contains best-available");
   (liveliness_warning f,
    "liveliness contains system-default, unknown, or best-available");
   (lease_warning f, "lease duration contains best-available")].

Inductive rmw_qos_compatibility : Set :=
  | QOS_COMPATIBILITY_OK | QOS_COMPATIBILITY_WARNING | QOS_COMPATIBILITY_ERROR.

Definition has_error (f : CompatibilityFindings) : bool :=
  reliability_error f || durability_error f || deadline_error f || liveliness_error f ||
  lease_error f.

Definition has_warning (f : CompatibilityFindings) : bool :=
  reliability_warning f || durability_warning f || deadline_warning f ||
  liveliness_warning f || lease_warning f.

Definition compatibility_of (f : CompatibilityFindings) : rmw_qos_compatibility :=
  if has_error f then QOS_COMPATIBILITY_ERROR
  else if has_warning f then QOS_COMPATIBILITY_WARNING else QOS_COMPATIBILITY_OK.

(** [Stop tt] is [RMW_RET_INVALID_ARGUMENT]; [output] tells whether [compatibility] is not
    null.  Otherwise the compatibility and the reason buffer after the call. *)
Definition rmw_qos_profile_check_compatible (pub sub : rmw_qos_profile_t) (output : bool)
    (reason : option (list Z)) (reason_size : Z)
    : outcome unit (rmw_qos_compatibility * option (list Z)) :=
  stop_if (negb output) tt;;
  stop_if (bool_decide (reason = None) && negb (reason_size =? 0)) tt;;
  stop_if ((1000000000 <=? nsec (deadline pub)) || (1000000000 <=? nsec (deadline sub)) ||
           (1000000000 <=? nsec (liveliness_lease_duration pub)) ||
           (1000000000 <=? nsec (liveliness_lease_duration sub))) tt;;
  let findings := check_findings pub sub in
  reason ← match reason with
           | Some r => if negb (reason_size =? 0) then
                         r ← access (mstore r 0 0); Done (Some r)
                       else Done reason
           | None => Done None
           end;
  '(reason, _) ← for_each (fun '(found, message) state =>
      if found : bool then append_reason reason_size (characters message) state
      else Done state) (reasons findings) (reason, 0);
  Done (compatibility_of findings, reason).

End Qos.
