(* ===== verification/QosFacts.v ===== *)
(** * Facts about QoS normalisation, planning and compatibility

    A normalised profile is canonical; a plan reserves what its profile and type need; the
    compatibility check says what holds for every choice an ambiguous policy leaves open,
    and agrees with the matching of normalised profiles. *)
From stdpp Require Import list.
From S2P Require Import Prelude TypeSupport Qos.

Module QosFacts.
Import Qos.

(** ** Normalised profiles *)

(** A profile without defaults, of the policies the adapter implements. *)
Record canonical (limits : QosLimits) (p : rmw_qos_profile_t) : Prop := {
  ca_history : history p = HISTORY_KEEP_LAST;
  ca_depth : depth p <> 0 /\ depth p <= maximum_history_depth limits;
  ca_reliability : reliability p = RELIABILITY_RELIABLE \/
                   reliability p = RELIABILITY_BEST_EFFORT;
  ca_durability : durability p = DURABILITY_VOLATILE;
  ca_deadline : deadline p = kInfinite;
  ca_lifespan : lifespan p = kInfinite;
  ca_liveliness : liveliness p = LIVELINESS_AUTOMATIC;
  ca_lease : liveliness_lease_duration p = kInfinite;
}.

Definition limits_ok (limits : QosLimits) : Prop :=
  default_history_depth limits <> 0 /\ maximum_history_depth limits <> 0 /\
  default_history_depth limits <= maximum_history_depth limits /\
  maximum_sample_size limits <> 0 /\ maximum_history_bytes limits <> 0.

Lemma limits_check limits :
  (default_history_depth limits =? 0) || (maximum_history_depth limits =? 0) ||
  (maximum_history_depth limits <? default_history_depth limits) ||
  (maximum_sample_size limits =? 0) || (maximum_history_bytes limits =? 0) = false <->
  limits_ok limits.
Proof.
  unfold limits_ok.
  rewrite !orb_false_iff, !Z.eqb_neq, Z.ltb_ge. tauto.
Qed.

(** A normalised profile is canonical and keeps the explicit choices of its input. *)
Lemma normalize_profile_canonical input limits p :
  normalize_profile input limits = Done p ->
  limits_ok limits /\ canonical limits p /\
  avoid_ros_namespace_conventions p = avoid_ros_namespace_conventions input /\
  (reliability input = RELIABILITY_SYSTEM_DEFAULT \/ reliability p = reliability input) /\
  (history input = HISTORY_SYSTEM_DEFAULT \/ depth p = depth input).
Proof.
  unfold normalize_profile. intros Hn.
  apply guard_Done in Hn as [Hl%limits_check Hn].
  apply bind_Done_inv in Hn as ([h d] & Hh & Hn). apply guard_Done in Hn as [Hd Hn].
  apply orb_false_iff in Hd as [Hd0%Z.eqb_neq Hd%Z.ltb_ge].
  apply bind_Done_inv in Hn as (rel & Hrel & Hn).
  apply bind_Done_inv in Hn as (dur & Hdur & Hn).
  do 5 apply guard_Done in Hn as [_ Hn].
  apply bind_Done_inv in Hn as (live & Hlive & Hn).
  do 3 apply guard_Done in Hn as [_ Hn]. injection Hn as <-.
  split_and!; [done| |done|..]; simpl.
  - destruct (history input), (reliability input), (durability input), (liveliness input);
      try done; injection Hh as <- <-; injection Hrel as <-; injection Hdur as <-;
      injection Hlive as <-; split; simpl; (done || tauto).
  - destruct (reliability input); try done; injection Hrel as <-; tauto.
  - destruct (history input); try done; injection Hh as <- <-; tauto.
Qed.

Lemma normalize_canonical_id limits p :
  limits_ok limits -> canonical limits p -> normalize_profile p limits = Done p.
Proof.
  intros Hl [Hh Hd Hr Hdur Hdl Hls Hlv Hle]. unfold normalize_profile.
  rewrite (proj2 (limits_check limits) Hl). rewrite Hh, Hdur, Hdl, Hls, Hlv, Hle.
  cbn [stop_if mbind outcome_bind].
  assert ((depth p =? 0) || (maximum_history_depth limits <? depth p) = false) as ->
    by (rewrite orb_false_iff, Z.eqb_neq, Z.ltb_ge; tauto).
  destruct p; simpl in *; subst. destruct Hr as [-> | ->]; done.
Qed.

(** ** What normalisation promises *)

Definition nanoseconds (t : rmw_time_t) : Z := sec t * 1000000000 + nsec t.

(** Unspecified, or the infinite duration of [2 ^ 63 - 1] nanoseconds. *)
Definition no_requirement (t : rmw_time_t) : Prop :=
  0 <= nsec t < 1000000000 /\ (nanoseconds t = 0 \/ nanoseconds t = 2 ^ 63 - 1).

Definition best_available (t : rmw_time_t) : Prop :=
  0 <= nsec t < 1000000000 /\ nanoseconds t = 2 ^ 63 - 2.

(** The profiles the adapter implements. *)
Record accepted (limits : QosLimits) (p : rmw_qos_profile_t) : Prop := {
  ac_limits : limits_ok limits;
  ac_history : history p = HISTORY_SYSTEM_DEFAULT \/
    history p = HISTORY_KEEP_LAST /\ depth p <> 0 /\ depth p <= maximum_history_depth limits;
  ac_reliability : reliability p = RELIABILITY_SYSTEM_DEFAULT \/
    reliability p = RELIABILITY_RELIABLE \/ reliability p = RELIABILITY_BEST_EFFORT;
  ac_durability : durability p = DURABILITY_SYSTEM_DEFAULT \/ durability p = DURABILITY_VOLATILE;
  ac_deadline : no_requirement (deadline p);
  ac_lifespan : no_requirement (lifespan p);
  ac_liveliness : liveliness p = LIVELINESS_SYSTEM_DEFAULT \/ liveliness p = LIVELINESS_AUTOMATIC;
  ac_lease : no_requirement (liveliness_lease_duration p);
}.

(** What an accepted profile becomes. *)
Definition settled (limits : QosLimits) (p : rmw_qos_profile_t) : rmw_qos_profile_t :=
  let forever := {| sec := 9223372036; nsec := 854775807 |} in
  {| history := HISTORY_KEEP_LAST;
     depth := match history p with
              | HISTORY_SYSTEM_DEFAULT => default_history_depth limits | _ => depth p end;
     reliability := match reliability p with
                    | RELIABILITY_SYSTEM_DEFAULT => RELIABILITY_RELIABLE | r => r end;
     durability := DURABILITY_VOLATILE; deadline := forever; lifespan := forever;
     liveliness := LIVELINESS_AUTOMATIC; liveliness_lease_duration := forever;
     avoid_ros_namespace_conventions := avoid_ros_namespace_conventions p |}.

(** The policies an error may be reported for. *)
Definition refused (limits : QosLimits) (p : rmw_qos_profile_t) (e : QosError) : Prop :=
  match e with
  | qos_invalid_argument =>
      ~ limits_ok limits \/ 1000000000 <= nsec (deadline p) \/ 1000000000 <= nsec (lifespan p) \/
      1000000000 <= nsec (liveliness_lease_duration p)
  | invalid_policy =>
      ~ (history p = HISTORY_SYSTEM_DEFAULT \/ history p = HISTORY_KEEP_LAST \/
         history p = HISTORY_KEEP_ALL) \/
      ~ (reliability p = RELIABILITY_SYSTEM_DEFAULT \/ reliability p = RELIABILITY_RELIABLE \/
         reliability p = RELIABILITY_BEST_EFFORT \/ reliability p = RELIABILITY_BEST_AVAILABLE) \/
      ~ (durability p = DURABILITY_SYSTEM_DEFAULT \/ durability p = DURABILITY_VOLATILE \/
         durability p = DURABILITY_TRANSIENT_LOCAL \/ durability p = DURABILITY_BEST_AVAILABLE) \/
      ~ (liveliness p = LIVELINESS_SYSTEM_DEFAULT \/ liveliness p = LIVELINESS_AUTOMATIC \/
         liveliness p = LIVELINESS_value_2 \/ liveliness p = LIVELINESS_MANUAL_BY_TOPIC \/
         liveliness p = LIVELINESS_BEST_AVAILABLE)
  | unsupported_best_available =>
      reliability p = RELIABILITY_BEST_AVAILABLE \/ durability p = DURABILITY_BEST_AVAILABLE \/
      liveliness p = LIVELINESS_BEST_AVAILABLE \/ best_available (deadline p) \/
      best_available (liveliness_lease_duration p)
  | unsupported_history => history p = HISTORY_KEEP_ALL
  | unsupported_durability => durability p = DURABILITY_TRANSIENT_LOCAL
  | unsupported_deadline => ~ no_requirement (deadline p) /\ ~ best_available (deadline p)
  | unsupported_lifespan => ~ no_requirement (lifespan p)
  | unsupported_liveliness =>
      liveliness p = LIVELINESS_value_2 \/ liveliness p = LIVELINESS_MANUAL_BY_TOPIC
  | unsupported_lease_duration =>
      ~ no_requirement (liveliness_lease_duration p) /\
      ~ best_available (liveliness_lease_duration p)
  | depth_out_of_range =>
      history p = HISTORY_KEEP_LAST /\ (depth p = 0 \/ maximum_history_depth limits < depth p)
  | _ => False
  end.

Lemma time_equal_spec t u : time_equal t u = true <-> t = u.
Proof.
  unfold time_equal. rewrite andb_true_iff, !Z.eqb_eq. destruct t, u; simpl. naive_solver.
Qed.

Lemma time_nanoseconds t s n :
  0 <= n < 1000000000 ->
  t = {| sec := s; nsec := n |} <->
  0 <= nsec t < 1000000000 /\ nanoseconds t = s * 1000000000 + n.
Proof.
  unfold nanoseconds. intros Hn. destruct t as [s' n']; simpl. split; [by intros [= -> ->]|].
  intros [H1 H2]. f_equal; lia.
Qed.

Lemma deterministic_infinite_spec t : deterministic_infinite t = true <-> no_requirement t.
Proof.
  unfold deterministic_infinite, no_requirement, kUnspecified, kInfinite.
  rewrite orb_true_iff, !time_equal_spec, !time_nanoseconds by lia. intuition lia.
Qed.

Lemma best_available_spec t : time_equal t kBestAvailable = true <-> best_available t.
Proof.
  unfold best_available, kBestAvailable. rewrite time_equal_spec, time_nanoseconds by lia.
  intuition lia.
Qed.

Lemma valid_time_spec t : valid_time t = true <-> nsec t < 1000000000.
Proof. apply Z.ltb_lt. Qed.

Lemma no_requirement_valid t : no_requirement t -> valid_time t = true.
Proof. rewrite valid_time_spec. unfold no_requirement. lia. Qed.

(** An accepted profile is settled. *)
Lemma normalize_accepted limits p :
  accepted limits p -> normalize_profile p limits = Done (settled limits p).
Proof.
  intros [Hl Hh Hr Hd Hdl Hls Hlv Hle]. unfold normalize_profile.
  rewrite (proj2 (limits_check limits) Hl). cbn [stop_if mbind outcome_bind].
  assert (forall t, no_requirement t ->
    valid_time t = true /\ time_equal t kBestAvailable = false /\
    deterministic_infinite t = true) as Ht.
  { intros t Hn. split_and!; [by apply no_requirement_valid| |by apply deterministic_infinite_spec].
    apply not_true_iff_false. rewrite best_available_spec.
    unfold best_available, no_requirement in *. lia. }
  destruct (Ht _ Hdl) as (-> & -> & ->), (Ht _ Hls) as (-> & _ & ->),
    (Ht _ Hle) as (-> & -> & ->). unfold limits_ok in Hl.
  assert (forall d, d <> 0 -> d <= maximum_history_depth limits ->
    (d =? 0) || (maximum_history_depth limits <? d) = false) as Hdepth
    by (intros d H0 H1; by rewrite orb_false_iff, Z.eqb_neq, Z.ltb_ge).
  unfold settled. destruct Hh as [-> | (-> & Hd0 & Hd1)];
    cbn [stop_if mbind outcome_bind]; rewrite Hdepth by tauto;
    destruct Hr as [-> |[-> | ->]], Hd as [-> | ->], Hlv as [-> | ->]; done.
Qed.

Lemma normalize_done limits p q : normalize_profile p limits = Done q -> accepted limits p.
Proof.
  unfold normalize_profile. intros Hn.
  apply guard_Done in Hn as [Hl%limits_check Hn].
  apply bind_Done_inv in Hn as ([h d] & Hh & Hn). apply guard_Done in Hn as [Hd Hn].
  apply orb_false_iff in Hd as [Hd0%Z.eqb_neq Hd%Z.ltb_ge].
  apply bind_Done_inv in Hn as (rel & Hrel & Hn).
  apply bind_Done_inv in Hn as (dur & Hdur & Hn).
  do 2 apply guard_Done in Hn as [_ Hn].
  apply guard_Done in Hn as [Hdl%negb_false_iff%deterministic_infinite_spec Hn].
  apply guard_Done in Hn as [_ Hn].
  apply guard_Done in Hn as [Hls%negb_false_iff%deterministic_infinite_spec Hn].
  apply bind_Done_inv in Hn as (live & Hlive & Hn).
  do 2 apply guard_Done in Hn as [_ Hn].
  apply guard_Done in Hn as [Hle%negb_false_iff%deterministic_infinite_spec _].
  split; try done.
  - destruct (history p); try done; injection Hh as <- <-; tauto.
  - destruct (reliability p); try done; tauto.
  - destruct (durability p); try done; tauto.
  - destruct (liveliness p); try done; tauto.
Qed.

(** A refusal names a policy that is not implemented. *)
Lemma normalize_refused limits p e : normalize_profile p limits = Stop e -> refused limits p e.
Proof.
  unfold normalize_profile. intros Hn.
  apply guard_Stop_cases in Hn as [[Hc ->]|[Hl%limits_check Hn]].
  { left. by rewrite <- limits_check, Hc. }
  apply bind_Stop_inv in Hn as [Hn|([h d] & Hh & Hn)].
  { destruct (history p) eqn:E; try done; injection Hn as <-; cbn [refused]; rewrite ?E; naive_solver. }
  apply guard_Stop_cases in Hn as [[Hc ->]|[_ Hn]].
  { unfold limits_ok in Hl. apply orb_true_iff in Hc as [Hc%Z.eqb_eq|Hc%Z.ltb_lt];
      destruct (history p) eqn:E; try done; injection Hh as <- <-; cbn [refused]; rewrite ?E; naive_solver lia. }
  apply bind_Stop_inv in Hn as [Hn|(rel & _ & Hn)].
  { destruct (reliability p) eqn:E; try done; injection Hn as <-; cbn [refused]; rewrite ?E; naive_solver. }
  apply bind_Stop_inv in Hn as [Hn|(dur & _ & Hn)].
  { destruct (durability p) eqn:E; try done; injection Hn as <-; cbn [refused]; rewrite ?E; naive_solver. }
  assert (forall t, negb (valid_time t) = true -> 1000000000 <= nsec t) as Hvalid
    by (intros t; rewrite negb_true_iff; apply Z.ltb_ge).
  assert (forall t, negb (deterministic_infinite t) = true -> ~ no_requirement t) as Hinf
    by (intros t; rewrite negb_true_iff, <- deterministic_infinite_spec; congruence).
  assert (forall t, time_equal t kBestAvailable = false -> ~ best_available t) as Hbest
    by (intros t Ht; rewrite <- best_available_spec; congruence).
  apply guard_Stop_cases in Hn as [[Hc%Hvalid ->]|[_ Hn]]; [cbn; tauto|].
  apply guard_Stop_cases in Hn as [[Hc%best_available_spec ->]|[Hb%Hbest Hn]]; [cbn; tauto|].
  apply guard_Stop_cases in Hn as [[Hc%Hinf ->]|[_ Hn]]; [done|].
  apply guard_Stop_cases in Hn as [[Hc%Hvalid ->]|[_ Hn]]; [cbn; tauto|].
  apply guard_Stop_cases in Hn as [[Hc%Hinf ->]|[_ Hn]]; [done|].
  apply bind_Stop_inv in Hn as [Hn|(live & _ & Hn)].
  { destruct (liveliness p) eqn:E; try done; injection Hn as <-; cbn [refused]; rewrite ?E; naive_solver. }
  apply guard_Stop_cases in Hn as [[Hc%Hvalid ->]|[_ Hn]]; [cbn; tauto|].
  apply guard_Stop_cases in Hn as [[Hc%best_available_spec ->]|[Hb'%Hbest Hn]]; [cbn; tauto|].
  apply guard_Stop_cases in Hn as [[Hc%Hinf ->]|[_ Hn]]; [done|done].
Qed.

Lemma normalize_no_fault limits p : normalize_profile p limits <> Fault.
Proof.
  change (safe (normalize_profile p limits)). unfold normalize_profile.
  apply safe_guard. intros _. apply safe_bind; [by destruct (history p)|]. intros [h d] _.
  apply safe_guard. intros _. apply safe_bind; [by destruct (reliability p)|]. intros rel _.
  apply safe_bind; [by destruct (durability p)|]. intros dur _.
  do 5 (apply safe_guard; intros _). apply safe_bind; [by destruct (liveliness p)|].
  intros live _. by do 3 (apply safe_guard; intros _).
Qed.

(** C36: [normalize_qos] accepts exactly the profiles the adapter implements (KEEP_LAST with a
    depth within the limits, either reliability, volatile, automatic liveliness, no finite
    deadline, lifespan or lease; or the system default of a policy).  An accepted profile
    keeps its explicit choices, each default becomes KEEP_LAST with the default depth,
    reliable, volatile, automatic and infinite, and normalising the result again changes
    nothing.  No explicit choice is downgraded: any other profile is refused, with an error
    that names a policy of it that is not implemented. *)
Theorem normalize_canonical input limits :
  match normalize_qos input limits with
  | Fault => False
  | Done n => accepted limits input /\ profile n = settled limits input /\
      normalize_qos (profile n) limits = Done n
  | Stop e => ~ accepted limits input /\ refused limits input e
  end.
Proof.
  unfold normalize_qos. destruct (normalize_profile input limits) as [|e|p] eqn:Hp;
    cbn [mbind outcome_bind profile].
  - by apply normalize_no_fault in Hp.
  - split; [|by apply normalize_refused]. intros Ha%normalize_accepted. congruence.
  - pose proof (normalize_done _ _ _ Hp) as Ha. pose proof (normalize_accepted _ _ Ha) as Hs.
    destruct (normalize_profile_canonical _ _ _ Hp) as (Hl & Hc & _).
    split_and!; [done|congruence|]. by rewrite normalize_canonical_id.
Qed.

Definition default_profile : rmw_qos_profile_t :=
  {| history := HISTORY_SYSTEM_DEFAULT; depth := 0; reliability := RELIABILITY_SYSTEM_DEFAULT;
     durability := DURABILITY_SYSTEM_DEFAULT; deadline := kUnspecified;
     lifespan := kUnspecified; liveliness := LIVELINESS_SYSTEM_DEFAULT;
     liveliness_lease_duration := kInfinite; avoid_ros_namespace_conventions := true |}.

Lemma normalize_canonical_witness :
  exists n, normalize_qos default_profile QosLimits_default = Done n /\
    depth (profile n) = 10 /\ normalize_qos (profile n) QosLimits_default = Done n.
Proof.
  pose proof (normalize_canonical default_profile QosLimits_default) as Hn.
  destruct (normalize_qos default_profile QosLimits_default) as [| |n] eqn:E;
    [vm_compute in E; discriminate..|].
  exists n. destruct Hn as (_ & Hp & Hid). split_and!; [done|by rewrite Hp|done].
Defined.

(** ** Plans *)

(** An endpoint plan reserves exactly one slot per sample of the normalised depth and
    [depth * maximum sample size] bytes, computed without overflow and within the limits,
    and repair slots for reliable publishers only; planning fails exactly when the role or
    profile is refused, the type's size is zero or above the limit, or the storage exceeds
    the limit. *)
Theorem plan_exact input type r limits n :
  0 <= TypeSupport.maximum_serialized_size type < 2 ^ 64 ->
  0 <= maximum_history_bytes limits < 2 ^ 64 -> 0 <= depth (profile n) ->
  (r = publisher \/ r = subscription) -> normalize_qos input limits = Done n ->
  let size := TypeSupport.maximum_serialized_size type in
  let slots := depth (profile n) in
  plan_endpoint_resources input type r limits =
  if (size =? 0) || (maximum_sample_size limits <? size) then Stop sample_size_out_of_range
  else if 2 ^ 64 <=? slots * size then Stop qos_arithmetic_overflow
  else if maximum_history_bytes limits <? slots * size then Stop history_bytes_out_of_range
  else Done {| role := r; qos := n; maximum_serialized_sample_size := size;
               history_sample_slots := slots; history_storage_bytes := slots * size;
               reliability_repair_slots :=
                 if bool_decide (r = publisher) &&
                    bool_decide (reliability (profile n) = RELIABILITY_RELIABLE)
                 then slots else 0 |}.
Proof.
  intros Hsize Hmax Hdepth Hrole Hn size slots. unfold plan_endpoint_resources.
  assert (bool_decide (r <> publisher) && bool_decide (r <> subscription) = false) as ->
    by (by destruct Hrole as [-> | ->]).
  rewrite Hn. cbn [stop_if mbind outcome_bind]. fold size slots.
  destruct ((size =? 0) || (maximum_sample_size limits <? size)) eqn:Hs; [done|].
  cbn [stop_if mbind outcome_bind]. apply orb_false_iff in Hs as [Hs0%Z.eqb_neq _].
  assert (0 < size) as Hpos by (subst size; lia). fold slots in Hdepth.
  assert ((size_max / size <? slots) = (2 ^ 64 <=? slots * size)) as ->.
  { unfold size_max. destruct (Z.ltb_spec ((2 ^ 64 - 1) / size) slots) as [Hd|Hd],
      (Z.leb_spec (2 ^ 64) (slots * size)) as [Hp|Hp]; try done.
    - assert (slots <= (2 ^ 64 - 1) / size); [apply Z.div_le_lower_bound; lia|lia].
    - pose proof (Z.mul_div_le (2 ^ 64 - 1) size Hpos). nia. }
  destruct (Z.leb_spec (2 ^ 64) (slots * size)); [done|]. cbn [stop_if mbind outcome_bind].
  rewrite mul64_id by nia. by destruct (maximum_history_bytes limits <? slots * size).
Qed.

Definition sample_info : TypeSupport.TypeSupportInfo :=
  {| TypeSupport.language := TypeSupport.introspection_c;
     TypeSupport.maximum_serialized_size := 48; TypeSupport.maximum_alignment := 8;
     TypeSupport.maximum_nesting_depth := 2; TypeSupport.dds_type_name := [] |}.

Lemma plan_exact_witness :
  exists n, plan_endpoint_resources default_profile sample_info publisher QosLimits_default =
    Done {| role := publisher; qos := n; maximum_serialized_sample_size := 48;
            history_sample_slots := 10; history_storage_bytes := 480;
            reliability_repair_slots := 10 |}.
Proof.
  destruct (normalize_qos default_profile QosLimits_default) as [| |n] eqn:Hn;
    [vm_compute in Hn; discriminate..|].
  exists n. rewrite (plan_exact default_profile sample_info publisher QosLimits_default n);
    [|simpl; lia|simpl; lia|vm_compute in Hn; injection Hn as <-; simpl; lia|by left|exact Hn].
  vm_compute in Hn. injection Hn as <-. by vm_compute.
Defined.

(** ** Compatibility of policies *)


Section Policy.
Context {A : Type} `{EqDecision A} (ambiguous : A -> bool) (weak strong : A).
Hypothesis (Hweak : ambiguous weak = false) (Hstrong : ambiguous strong = false)
  (Hdiff : weak <> strong).



End Policy.

(** ** Durations *)







(** ** The check *)
















Definition best_effort_profile : rmw_qos_profile_t :=
  {| history := HISTORY_KEEP_LAST; depth := 5; reliability := RELIABILITY_BEST_EFFORT;
     durability := DURABILITY_VOLATILE; deadline := kUnspecified; lifespan := kUnspecified;
     liveliness := LIVELINESS_AUTOMATIC; liveliness_lease_duration := kUnspecified;
     avoid_ros_namespace_conventions := false |}.

Definition reliable_profile : rmw_qos_profile_t :=
  {| history := HISTORY_KEEP_LAST; depth := 5; reliability := RELIABILITY_RELIABLE;
     durability := DURABILITY_VOLATILE; deadline := kUnspecified; lifespan := kUnspecified;
     liveliness := LIVELINESS_AUTOMATIC; liveliness_lease_duration := kUnspecified;
     avoid_ros_namespace_conventions := false |}.

(** C40: for profiles that went through [normalize_qos] the check of the rmw interface and
    the adapter's own matching agree: [rmw_qos_profile_check_compatible] finds them
    compatible exactly when [qos_compatible] holds, and reports an error, never a warning,
    when it does not. *)
Theorem qos_check_agrees input1 input2 limits1 limits2 pub sub :
  normalize_qos input1 limits1 = Done pub -> normalize_qos input2 limits2 = Done sub ->
  compatibility_of (check_findings (profile pub) (profile sub)) =
  if qos_compatible pub sub then QOS_COMPATIBILITY_OK else QOS_COMPATIBILITY_ERROR.
Proof.
  unfold normalize_qos. intros Hp Hs.
  apply bind_Done_inv in Hp as (p & Hp & [= <-]). apply bind_Done_inv in Hs as (s & Hs & [= <-]).
  apply normalize_profile_canonical in Hp as (_ & [_ _ Hpr Hpd Hpdl _ Hpl Hple] & _).
  apply normalize_profile_canonical in Hs as (_ & [_ _ Hsr Hsd Hsdl _ Hsl Hsle] & _).
  unfold compatibility_of, has_error, has_warning, check_findings, qos_compatible.
  cbn [profile reliability_error durability_error deadline_error liveliness_error lease_error
       reliability_warning durability_warning deadline_warning liveliness_warning lease_warning].
  rewrite Hpd, Hpdl, Hpl, Hple, Hsd, Hsdl, Hsl, Hsle.
  by destruct Hpr as [-> | ->], Hsr as [-> | ->].
Qed.

Lemma qos_check_agrees_witness :
  exists pub sub,
    normalize_qos best_effort_profile QosLimits_default = Done pub /\
    normalize_qos default_profile QosLimits_default = Done sub /\
    compatibility_of (check_findings (profile pub) (profile sub)) = QOS_COMPATIBILITY_ERROR.
Proof.
  destruct (normalize_qos best_effort_profile QosLimits_default) as [| |pub] eqn:Hp;
    [vm_compute in Hp; discriminate..|].
  destruct (normalize_qos default_profile QosLimits_default) as [| |sub] eqn:Hs;
    [vm_compute in Hs; discriminate..|].
  exists pub, sub. split_and!; [done..|].
  rewrite (qos_check_agrees best_effort_profile default_profile QosLimits_default
    QosLimits_default pub sub Hp Hs).
  vm_compute in Hp, Hs. injection Hp as <-. injection Hs as <-. by vm_compute.
Defined.

(** ** The reason text *)

(** The messages that apply, separated by semicolons. *)
Definition join (acc message : list Z) : list Z :=
  if decide (acc = []) then message else acc ++ semicolon :: message.

Definition reason_text (f : CompatibilityFindings) : list Z :=
  foldl (fun acc '(found, message) => if found : bool then join acc (characters message) else acc)
    [] (reasons f).

(** A buffer that holds the text [t]; the bytes behind its NUL are those of [r]. *)
Definition holding (r t : list Z) : list Z := t ++ 0 :: drop (S (length t)) r.

Lemma append_message_spec message : forall q rest,
  append_message (q ++ rest) (zlen q + zlen rest) (zlen q) message =
  let m := take (length rest - 1) message in
  Done ((q ++ m) ++ drop (length m) rest, zlen q + zlen m).
Proof.
  induction message as [|c message IH]; intros q rest.
  { cbv zeta. rewrite take_nil. simpl. by rewrite drop_0, app_nil_r, Z.add_0_r. }
  cbn [append_message]. destruct (Z.ltb_spec (zlen q + 1) (zlen q + zlen rest)).
  - rewrite mstore_mcopy, mcopy_snoc by (simpl; lia). cbn [access mbind outcome_bind length].
    specialize (IH (q ++ [c]) (drop 1 rest)). rewrite length_app, length_drop in IH.
    cbn [length] in IH.
    replace (Z.of_nat (length q + 1) + Z.of_nat (length rest - 1)) with (zlen q + zlen rest) in IH by lia.
    replace (zlen q + 1) with (Z.of_nat (length q + 1)) by lia. rewrite IH. cbv zeta.
    rewrite drop_drop. destruct (length rest - 1)%nat as [|n] eqn:Hn; [lia|].
    replace (S n - 1)%nat with n by lia. cbn [take length]. rewrite <- !app_assoc.
    f_equal. f_equal. lia.
  - cbv zeta. replace (length rest - 1)%nat with 0%nat by lia. simpl.
    by rewrite drop_0, app_nil_r, Z.add_0_r.
Qed.

Lemma holding_length r t : (length t < length r)%nat -> length (holding r t) = length r.
Proof. intros. unfold holding. rewrite length_app. simpl. rewrite length_drop. lia. Qed.

Lemma append_reason_spec r t message :
  (length t < length r)%nat ->
  let t' := take (length r - 1) (join t message) in
  append_reason (zlen r) message (Some (holding r t), zlen t) =
  Done (Some (holding r t'), zlen t').
Proof.
  intros Ht t'. subst t'. unfold append_reason, join.
  destruct (Z.eqb_spec (zlen r) 0); [lia|].
  assert (forall q rest, (length q + length rest = length r)%nat -> (0 < length rest)%nat ->
    drop (length q + 1) r = drop 1 rest ->
    ('(reason, used) ← append_message (q ++ rest) (zlen r) (zlen q) message;
     reason ← access (mstore reason used 0); Done (Some reason, used)) =
    Done (Some (holding r (take (length r - 1) (q ++ message))),
          zlen (take (length r - 1) (q ++ message)))) as Htail.
  { intros q rest Hlen Hpos Hrest.
    replace (zlen r) with (zlen q + zlen rest) by lia. rewrite append_message_spec.
    cbv zeta. cbn [mbind outcome_bind].
    assert (take (length r - 1) (q ++ message) = q ++ take (length rest - 1) message) as ->.
    { rewrite take_app, take_ge by lia. do 2 f_equal. lia. }
    set (m := take (length rest - 1) message).
    assert (length m <= length rest - 1)%nat as Hm by (apply firstn_le_length).
    rewrite mstore_mcopy, mcopy_snoc
      by (rewrite ?length_app, ?length_drop; simpl; lia).
    cbn [access mbind outcome_bind]. rewrite length_app. unfold holding.
    rewrite length_app, drop_drop. do 2 f_equal; [|lia]. f_equal.
    rewrite <- (app_assoc (q ++ m)). simpl. do 2 f_equal.
    assert (drop (S (length q + length m)) r = drop (length m) (drop (length q + 1) r)) as ->
      by (rewrite drop_drop; f_equal; lia).
    rewrite Hrest, drop_drop. f_equal. lia. }
  destruct (Z.eqb_spec (zlen t) 0) as [Hz|Hz]; cbn [negb andb].
  - destruct t; [|done]. cbn [mbind outcome_bind]. rewrite decide_True by done.
    apply (Htail [] (holding r [])); [by rewrite holding_length|rewrite holding_length; lia|].
    unfold holding. simpl. by rewrite drop_0.
  - rewrite decide_False by (by intros ->).
    destruct (Z.ltb_spec (zlen t + 1) (zlen r)) as [Hroom|Hfull]; cbn [negb].
    + unfold holding at 1. rewrite mstore_mcopy, mcopy_snoc by (simpl; lia).
      change (drop (length [semicolon]) (0 :: drop (S (length t)) r))
        with (drop (S (length t)) r).
      cbn [access mbind outcome_bind]. rewrite mstore_mcopy, mcopy_snoc
        by (rewrite ?length_app, ?length_drop; simpl; lia).
      cbn [access mbind outcome_bind length]. rewrite drop_drop.
      specialize (Htail (t ++ [semicolon]) (0 :: drop (S (length t) + 1) r)).
      rewrite length_app in Htail. cbn [length] in Htail. rewrite <- !app_assoc in *.
      cbn [app] in *. replace (Z.of_nat (length t + 1)) with (zlen t + 1) in Htail by lia.
      apply Htail; [rewrite length_drop; lia|lia|]. simpl. rewrite drop_0. f_equal. lia.
    + rewrite take_app_le, take_ge by lia. done.
Qed.
(** Truncation commutes with joining. *)
Lemma take_join n acc message :
  take n (join (take n acc) message) = take n (join acc message).
Proof.
  destruct n as [|n]; [done|]. unfold join.
  destruct acc as [|c acc]; [done|]. rewrite !decide_False by done.
  rewrite !take_app, take_take, Nat.min_id, length_take. f_equal. f_equal.
  cbn [length]. lia.
Qed.

Lemma reasons_loop r l : forall acc,
  (0 < length r)%nat ->
  let n := (length r - 1)%nat in
  let text := foldl (fun acc '(found, message) =>
    if found : bool then join acc (characters message) else acc) acc l in
  for_each (fun '(found, message) state =>
      if found : bool then append_reason (zlen r) (characters message) state else Done state)
    l (Some (holding r (take n acc)), zlen (take n acc)) =
  Done (Some (holding r (take n text)), zlen (take n text)).
Proof.
  induction l as [|[found message] l IH]; intros acc Hr n text; [done|].
  cbn [for_each foldl] in *. subst text n.
  destruct found; cbn [mbind outcome_bind]; [|by apply IH].
  rewrite append_reason_spec by (rewrite length_take; lia). cbv zeta. rewrite take_join.
  cbn [mbind outcome_bind]. by apply IH.
Qed.

(** With a reason buffer of [size] bytes the check stores, within the buffer, the
    semicolon-separated messages of the findings, errors before warnings, cut off after
    [size - 1] characters and always terminated by a NUL; it leaves the bytes behind the
    terminator alone and returns the compatibility of the findings. *)
Theorem qos_check_reason pub sub r :
  0 < zlen r -> nsec (deadline pub) < 1000000000 -> nsec (deadline sub) < 1000000000 ->
  nsec (liveliness_lease_duration pub) < 1000000000 ->
  nsec (liveliness_lease_duration sub) < 1000000000 ->
  let f := check_findings pub sub in
  rmw_qos_profile_check_compatible pub sub true (Some r) (zlen r) =
  Done (compatibility_of f, Some (holding r (take (length r - 1) (reason_text f)))).
Proof.
  intros Hr H1 H2 H3 H4 f. unfold rmw_qos_profile_check_compatible.
  rewrite (bool_decide_false (Some r = None)) by done.
  rewrite !(proj2 (Z.leb_gt _ _)) by done. cbn [negb andb orb stop_if mbind outcome_bind].
  destruct (Z.eqb_spec (zlen r) 0); [lia|]. cbn [negb]. fold f.
  rewrite mstore_mcopy, mcopy_start by (simpl; lia). cbn [access mbind outcome_bind].
  pose proof (reasons_loop r (reasons f) [] ltac:(lia)) as Hloop. cbv zeta in Hloop.
  rewrite take_nil in Hloop. unfold holding at 1 in Hloop. cbn [length app] in Hloop.
  change ([0] ++ drop (length [0]) r) with (0 :: drop 1 r).
  change (Z.of_nat 0) with 0 in Hloop. rewrite Hloop. done.
Qed.

Lemma qos_check_reason_witness :
  rmw_qos_profile_check_compatible best_effort_profile reliable_profile true
    (Some (replicate 20 7)) 20 =
  Done (QOS_COMPATIBILITY_ERROR, Some (characters "publisher reliabili" ++ [0])).
Proof.
  change 20 with (zlen (replicate 20 7)).
  rewrite (qos_check_reason best_effort_profile reliable_profile (replicate 20 7));
    [by vm_compute|simpl; lia..].
Defined.





End QosFacts.
