(* ===== verification/AnalysisLimit.v ===== *)
(** * The analysed maximum is a sufficient limit

    A type that [analyze_type_support] accepts under some limit is accepted, with the same
    result, under every limit from its own maximum on.  Publishers rely on it: they analyse
    a type with the adapter's limit, allocate the maximum, and serialise into that buffer,
    where the codec analyses the type again. *)
From stdpp Require Import list.
From S2P Require Import Prelude Bytes Cdr Introspection TypeSupport TypeSupportFacts TypeNames CodecTheorems.

Module AnalysisLimit.
Import Introspection TypeSupport TypeSupportFacts.

Definition with_limit (L : Z) (st : AnalysisState) : AnalysisState :=
  {| offset := offset st; a_maximum_alignment := a_maximum_alignment st;
     maximum_depth := maximum_depth st; body_limit := L; stack := stack st;
     a_error := a_error st |}.

Section Limit.
Context `{GeneratedTypes} (L : Z).
Hypothesis L_range : 0 <= L < 2 ^ 64.

(** [m'] is [m] under the limit [L]: what succeeds and ends within it still succeeds. *)
Definition tight {A} (get : A -> AnalysisState) (re : A -> A)
    (m m' : outcome AnalysisState A) : Prop :=
  forall a, m = Done a -> offset (get a) <= L -> m' = Done (re a).

Lemma tight_bind {A B} (f : A -> AnalysisState) (g : B -> AnalysisState) ra rb st m m' k k' :
  steps f st m -> tight f ra m m' ->
  (forall a, extends st (f a) -> steps g (f a) (k a) /\ tight g rb (k a) (k' (ra a))) ->
  tight g rb (m ≫= k) (m' ≫= k').
Proof.
  intros Hs Hm Hk b (a & Ha & Hb)%bind_Done_inv HL. rewrite Ha in Hs. simpl in Hs.
  destruct (Hk a Hs) as [Hsk Htk]. rewrite Hb in Hsk. simpl in Hsk.
  rewrite (Hm a Ha) by (destruct Hsk; lia). by apply Htk.
Qed.

Lemma tight_guard {A} (g : A -> AnalysisState) re c st st' e k k' :
  (c = false -> tight g re (k tt) (k' tt)) ->
  tight g re (fail_if c st e ≫= k) (fail_if c st' e ≫= k').
Proof. by destruct c; [|intros Hk; apply Hk]. Qed.

Lemma tight_for_each {I} (body : I -> AnalysisState -> outcome AnalysisState AnalysisState)
    xs st :
  state_ok st ->
  (forall i st', i ∈ xs -> extends st st' ->
     steps id st' (body i st') /\
     tight id (with_limit L) (body i st') (body i (with_limit L st'))) ->
  tight id (with_limit L) (for_each body xs st) (for_each body xs (with_limit L st)).
Proof.
  revert st. induction xs as [|i xs IH]; intros st Hst Hb; simpl;
    [by intros a [= <-] _|].
  apply (tight_bind id id (with_limit L) (with_limit L) st).
  - by apply Hb; [left|apply extends_refl].
  - by apply Hb; [left|apply extends_refl].
  - intros st1 H1. assert (forall i st', i ∈ xs -> extends (id st1) st' ->
      steps id st' (body i st') /\
      tight id (with_limit L) (body i st') (body i (with_limit L st'))) as Hrest.
    { intros j st' Hj Hex. apply Hb; [by right|by eapply extends_trans]. }
    split.
    + apply steps_for_each; [apply H1|]. intros j st' Hj Hex. by apply Hrest.
    + apply IH; [apply H1|done].
Qed.

Lemma append_aligned_tight st k width :
  state_ok st -> 0 <= k <= 3 -> 0 <= width < 2 ^ 64 ->
  tight id (with_limit L) (append_aligned st (2 ^ k) width)
    (append_aligned (with_limit L st) (2 ^ k) width).
Proof.
  intros Hst Hk Hw st' Hst' HL. unfold append_aligned, fail_if in *.
  cbn [with_limit offset body_limit stack a_maximum_alignment maximum_depth a_error] in *.
  inv_done. unfold id in HL. cbn [offset] in HL.
  rewrite H1, H2. cbn [stop_if mbind outcome_bind].
  rewrite (proj2 (Z.ltb_ge L _)) by done. done.
Qed.

Section Nested.
Context (nested : option Z -> Z -> AnalysisState -> outcome AnalysisState AnalysisState).
Context (depth : Z).
Hypothesis nested_steps : forall t st,
  state_ok st -> steps id st (nested t (add64 depth 1) st).
Hypothesis nested_tight : forall t st,
  state_ok st -> tight id (with_limit L) (nested t (add64 depth 1) st)
                   (nested t (add64 depth 1) (with_limit L st)).

Lemma analyze_element_tight m lang st :
  state_ok st -> 0 <= string_upper_bound_ m < 2 ^ 64 ->
  tight id (with_limit L) (analyze_element nested m lang depth st)
    (analyze_element nested m lang depth (with_limit L st)).
Proof.
  intros Hst Hb. unfold analyze_element.
  destruct (scalar_layout (type_id_ m)) as [[a w]|] eqn:Hl.
  { apply scalar_layout_pow2 in Hl as (k & Hk & -> & ->).
    apply append_aligned_tight; [done..|]. split; [lia|]. apply Z.pow_lt_mono_r; lia. }
  case_decide.
  { apply tight_guard; intros _. apply tight_guard; intros Hu.
    apply Z.leb_gt in Hu. unfold u32_max in *. rewrite add64_id by lia.
    apply (tight_bind id id (with_limit L) (with_limit L) st).
    - apply (append_aligned_steps st 2); [done|lia..].
    - apply (append_aligned_tight st 2); [done|lia..].
    - intros st1 []. split; [apply (append_aligned_steps st1 0)|
        apply (append_aligned_tight st1 0)]; (done || lia). }
  case_decide; [|by intros a]. destruct (members_ m) as [h|] eqn:Hm; [|by intros a].
  destruct (identifier_language (typesupport_identifier h)) as [| |r]; [by intros a..|].
  cbn [mbind outcome_bind]. apply tight_guard; intros _. by apply nested_tight.
Qed.

Lemma analyze_count_tight m st :
  state_ok st ->
  tight snd (fun '(n, st) => (n, with_limit L st)) (analyze_count m st)
    (analyze_count m (with_limit L st)).
Proof.
  intros Hst. unfold analyze_count.
  destruct (is_array_ m); [|by intros [n s] [= <- <-] _].
  destruct (is_upper_bound_ m).
  - apply tight_guard; intros _. apply tight_guard; intros _.
    apply (tight_bind id snd (with_limit L) _ st).
    + apply (append_aligned_steps st 2); [done|lia..].
    + apply (append_aligned_tight st 2); [done|lia..].
    + intros st1 []. split; [by apply extends_refl|by intros [n s] [= <- <-] _].
  - apply tight_guard; intros _. by intros [n s] [= <- <-] _.
Qed.

Lemma analyze_member_tight m lang st :
  state_ok st -> 0 <= array_size_ m < 2 ^ 64 -> 0 <= string_upper_bound_ m < 2 ^ 64 ->
  (forall h s, members_ m = Some h -> typesupport_identifier h = Some s -> terminated s) ->
  tight id (with_limit L) (analyze_member nested m lang depth st)
    (analyze_member nested m lang depth (with_limit L st)).
Proof.
  intros Hst Ha Hb Hid. unfold analyze_member. apply tight_guard; intros _.
  apply (tight_bind snd id (fun '(n, st) => (n, with_limit L st)) _ st);
    [by apply analyze_count_steps|by apply analyze_count_tight|].
  intros [n st1] Hex. cbn [snd] in *. split.
  - apply steps_for_each; [apply Hex|]. intros i st' _ Hex'.
    apply analyze_element_steps; [done|apply Hex'|done..].
  - apply tight_for_each; [apply Hex|]. intros i st' _ Hex'. split.
    + apply analyze_element_steps; [done|apply Hex'|done..].
    + apply analyze_element_tight; [apply Hex'|done].
Qed.
End Nested.

(** The scan of the stack does not depend on the limit. *)
Lemma stack_scan_tight st address xs :
  for_each (fun index _ =>
      entry ← access (mload (stack st) index);
      fail_if (bool_decide (entry = Some address)) st recursive_type) xs tt = Done tt ->
  for_each (fun index _ =>
      entry ← access (mload (stack (with_limit L st)) index);
      fail_if (bool_decide (entry = Some address)) (with_limit L st) recursive_type) xs tt
  = Done tt.
Proof.
  induction xs as [|i xs IH]; simpl; [done|].
  destruct (mload (stack st) i) as [x|]; simpl; [|done].
  destruct (bool_decide (x = Some address)); simpl; [done|]. apply IH.
Qed.

Lemma analyze_members_tight fuel : forall lang members depth st,
  state_ok st -> 1 <= depth -> kMaximumTypeNestingDepth + 2 <= depth + Z.of_nat fuel ->
  depth <= kMaximumTypeNestingDepth + 1 ->
  tight id (with_limit L) (analyze_members fuel lang members depth st)
    (analyze_members fuel lang members depth (with_limit L st)).
Proof.
  unfold kMaximumTypeNestingDepth.
  induction fuel as [|fuel IH]; intros lang members depth st Hst Hd Hf Hmax; [lia|].
  pose proof (analyze_members_steps (S fuel) lang members depth st Hst Hd Hf Hmax) as Hall.
  simpl in *. destruct members as [p|]; [|by intros a].
  intros st' Hst' HL. rewrite Hst' in Hall. simpl in Hall. unfold id in HL.
  unfold fail_if in *. apply guard_Done in Hst' as [Hvalid Hst'].
  apply guard_Done in Hst' as [Hdepth Hst']. rewrite Hvalid, Hdepth. simpl.
  apply Z.ltb_ge in Hdepth. unfold kMaximumTypeNestingDepth in Hdepth.
  apply bind_Done_inv in Hst' as ([] & Hscan & Hst').
  pose proof (stack_scan_tight st p _ Hscan) as Hscan'. unfold fail_if in Hscan'.
  simpl in Hscan'. rewrite Hscan'. clear Hscan Hscan'. simpl.
  apply bind_Done_inv in Hst' as (s & Hs & Hst'). rewrite Hs. simpl.
  apply access_Done, mstore_length in Hs.
  set (st1 := {| offset := offset st; body_limit := body_limit st |}) in Hst'.
  set (st2 := {| offset := offset st; body_limit := L |}).
  change st2 with (with_limit L st1).
  assert (extends st st1) as Hex1.
  { destruct Hst. unfold kMaximumTypeNestingDepth in *.
    split; [split|..]; subst st1; simpl; try (done || lia || congruence);
      unfold kMaximumTypeNestingDepth; [lia|].
    destruct (Z.ltb_spec (maximum_depth st) depth); lia. }
  pose proof (gt_tables p) as Ht.
  apply bind_Done_inv in Hst' as (st3 & Hwalk & Hend).
  apply bind_Done_inv in Hend as (s3 & Hs3 & [= <-]).
  assert (forall i st', i ∈ seqZ 0 (member_count_ (members_at p)) -> extends st1 st' ->
    let body i state :=
      table ← access (member_table_ (members_at p));
      member ← access (mload table i);
      stop_if (size_of_ (members_at p) <=? m_offset_ member) (failed state invalid_members);;
      analyze_member (analyze_members fuel lang) member lang depth state in
    steps id st' (body i st') /\ tight id (with_limit L) (body i st') (body i (with_limit L st')))
    as Hbody.
  { intros i st4 Hi%elem_of_seqZ Hex. cbv zeta.
    destruct (member_table_ (members_at p)) as [l|] eqn:Hl; simpl; cycle 1.
    { unfold members_invalid in Hvalid. rewrite Hl in Hvalid.
      destruct (Z.eqb_spec (member_count_ (members_at p)) 0); [lia|].
      rewrite !orb_false_iff in Hvalid. by destruct Hvalid as [_ Hvalid]. }
    destruct (proj2 (mload_is_Some l i)) as [m Hm];
      [rewrite (do_table _ Ht l) by done; lia|].
    rewrite Hm. simpl. apply mload_Some in Hm as [_ Hm]. apply list_elem_of_lookup_2 in Hm.
    destruct (do_members _ Ht l m Hl Hm) as (? & ? & ?).
    split; [apply steps_guard|apply tight_guard]; intros _.
    - apply analyze_member_steps; [|apply Hex|done..].
      intros t0 st0 Hst0. rewrite add64_id by lia.
      apply analyze_members_steps; unfold kMaximumTypeNestingDepth; [done|lia..].
    - apply analyze_member_tight; [| |apply Hex|done..]; intros t0 st0 Hst0;
        rewrite add64_id by lia;
        [apply analyze_members_steps|apply IH]; unfold kMaximumTypeNestingDepth;
        (done || lia). }
  rewrite (tight_for_each _ (seqZ 0 (member_count_ (members_at p))) st1
             ltac:(apply Hex1) Hbody st3 Hwalk); [|done].
  simpl. rewrite Hs3. done.
Qed.

(** An accepted type under another limit that its maximum respects. *)
Lemma analyze_under h limit info :
  0 <= limit < 2 ^ 64 -> analyze_type_support (Some h) limit = Done info ->
  maximum_serialized_size info - kXcdr1EncapsulationSize <= L ->
  0 <= L + kXcdr1EncapsulationSize < 2 ^ 64 ->
  analyze_type_support (Some h) (L + kXcdr1EncapsulationSize) = Done info.
Proof.
  intros Hlim Han HL H64. unfold analyze_type_support, kXcdr1EncapsulationSize in *.
  apply guard_Done in Han as [Hg Han]. apply orb_false_iff in Hg as [Hd H4].
  apply Z.ltb_ge in H4.
  rewrite Hd, (proj2 (Z.ltb_ge (L + 4) 4)) by lia. cbn [orb stop_if mbind outcome_bind].
  apply bind_Done_inv in Han as ([lang name] & -> & Han). cbn [mbind outcome_bind].
  rewrite sub64_id in Han by lia. rewrite sub64_id by lia.
  apply bind_Done_inv in Han as (st & Hst & [= <-]). apply map_stop_Done in Hst.
  pose proof (CodecTheorems.analyze_start lang (data h) (limit - 4) ltac:(lia)) as Hs.
  rewrite Hst in Hs. simpl in Hs. unfold id in Hs.
  pose proof (so_offset _ (ex_ok _ _ Hs)) as Ho. rewrite (ex_limit _ _ Hs) in Ho. simpl in Ho.
  replace (L + 4 - 4) with L by lia.
  change (AnalysisState_init L) with (with_limit L (AnalysisState_init (limit - 4))).
  rewrite (analyze_members_tight analysis_fuel lang (data h) 1 _
    (CodecTheorems.init_state_ok (limit - 4) ltac:(lia)) ltac:(lia) ltac:(done) ltac:(done) st Hst).
  - done.
  - unfold id. simpl in HL. rewrite add64_id in HL by lia. lia.
Qed.
End Limit.

(** The size the analysis reports is enough as a limit: a type accepted
    under some limit is accepted, with the same result, under every limit from its maximum
    on. *)
Lemma analyze_any_limit `{GeneratedTypes} h limit limit' info :
  0 <= limit < 2 ^ 64 -> analyze_type_support (Some h) limit = Done info ->
  maximum_serialized_size info <= limit' < 2 ^ 64 ->
  analyze_type_support (Some h) limit' = Done info.
Proof.
  intros Hlim Han H'.
  pose proof (CodecTheorems.analyze_type_support_inv h limit info Hlim Han)
    as (p & st & _ & _ & _ & [[Ho _ _ _] _ _] & Hm & _).
  replace limit' with (limit' - kXcdr1EncapsulationSize + kXcdr1EncapsulationSize) by lia.
  eapply (analyze_under (limit' - kXcdr1EncapsulationSize)); try done;
    unfold kXcdr1EncapsulationSize; lia.
Qed.
End AnalysisLimit.
