(* ===== verification/SampleRing.v ===== *)
(** * Rings of serialised samples

    Publishers and subscriptions of the ROS binding keep their samples in the same way: an
    array of metadata, a block of memory with [capacity] bytes for each slot, and indices
    that run around.  This file relates such a ring to the list of its samples. *)
From stdpp Require Import list.
From S2P Require Import Prelude.

Module SampleRing.

(** ** Memory regions *)

Section Regions.
Context {A : Type}.
Implicit Types (m src s : list A) (i j n : Z).

Lemma mslice_Some m i n s :
  mslice m i n = Some s <->
  0 <= i /\ 0 <= n /\ i + n <= zlen m /\ s = take (Z.to_nat n) (drop (Z.to_nat i) m).
Proof.
  unfold mslice. destruct (Z.leb_spec 0 i), (Z.leb_spec 0 n), (Z.leb_spec (i + n) (zlen m));
    simpl; (split; [intros [= <-]|intros (? & ? & ? & ->)]); try done; lia.
Qed.

Lemma mload_mslice m i n s k :
  mslice m i n = Some s -> 0 <= k < n -> mload s k = mload m (i + k).
Proof.
  intros (Hi & Hn & Hl & ->)%mslice_Some Hk. unfold mload.
  destruct (Z.ltb_spec k 0), (Z.ltb_spec (i + k) 0); try lia.
  rewrite lookup_take_lt, lookup_drop by lia. f_equal. lia.
Qed.

(** Writing a region and reading another one. *)
Lemma mslice_mcopy_disjoint m m' i src j n :
  mcopy m i src = Some m' -> j + n <= i \/ i + zlen src <= j ->
  mslice m' j n = mslice m j n.
Proof.
  intros Hc Hd. pose proof (mcopy_length _ _ _ _ Hc) as Hlen. unfold mslice. rewrite Hlen.
  destruct (Z.leb_spec 0 j), (Z.leb_spec 0 n), (Z.leb_spec (j + n) (zlen m)); simpl; try done.
  unfold mcopy in Hc. destruct (Z.leb_spec 0 i), (Z.leb_spec (i + zlen src) (zlen m));
    simpl in Hc; try done. injection Hc as <-. f_equal.
  apply list_eq. intros k. destruct (decide (k < Z.to_nat n)%nat) as [Hk|Hk].
  2:{ rewrite !lookup_take_ge by lia. done. }
  rewrite !lookup_take_lt, !lookup_drop by lia. destruct Hd as [Hd|Hd].
  - rewrite lookup_app_l by (rewrite length_take; lia). by rewrite lookup_take_lt by lia.
  - rewrite lookup_app_r by (rewrite length_take; lia).
    rewrite length_take, lookup_app_r by lia. rewrite lookup_drop. f_equal. lia.
Qed.

(** Reading back what was written. *)
Lemma mslice_mcopy_same m m' i src :
  mcopy m i src = Some m' -> mslice m' i (zlen src) = Some src.
Proof.
  unfold mcopy. destruct (Z.leb_spec 0 i), (Z.leb_spec (i + zlen src) (zlen m));
    simpl; [intros [= <-]|done..]. apply mslice_app_exact; [|done]. rewrite length_take. lia.
Qed.

(** Reading a part at the start of what was written. *)
Lemma mslice_mcopy_prefix m m' i src n :
  mcopy m i src = Some m' -> 0 <= n <= zlen src ->
  mslice m' i n = Some (take (Z.to_nat n) src).
Proof.
  unfold mcopy. destruct (Z.leb_spec 0 i), (Z.leb_spec (i + zlen src) (zlen m));
    simpl; [intros [= <-] Hn|done..].
  rewrite <- (take_drop (Z.to_nat n) src) at 1. rewrite <- app_assoc.
  apply mslice_app_exact; [rewrite length_take; lia|rewrite length_take; lia].
Qed.

(** Two adjacent regions read as one. *)
Lemma mslice_split m i n1 n2 s1 s2 :
  0 <= n1 -> 0 <= n2 -> mslice m i n1 = Some s1 -> mslice m (i + n1) n2 = Some s2 ->
  mslice m i (n1 + n2) = Some (s1 ++ s2).
Proof.
  intros H1 H2 (Hi & _ & Hl1 & ->)%mslice_Some (_ & _ & Hl2 & ->)%mslice_Some.
  apply mslice_Some. split_and!; [lia..|].
  rewrite !Z2Nat.inj_add, <- drop_drop by lia. apply take_take_drop.
Qed.

(** Storing elements one behind the other. *)
Lemma mcopy_cons m i x src :
  0 <= i -> i + 1 + zlen src <= zlen m ->
  (m' ← mcopy m i [x]; mcopy m' (i + 1) src) = mcopy m i (x :: src).
Proof.
  intros Hi Hl. assert (m = take (Z.to_nat i) m ++ drop (Z.to_nat i) m) as Hm
    by (by rewrite take_drop).
  assert (zlen (take (Z.to_nat i) m) = i) as Ht by (rewrite length_take; lia).
  assert (length (drop (Z.to_nat i) m) = (length m - Z.to_nat i)%nat) as Hd by apply length_drop.
  rewrite Hm, !mcopy_snoc by (simpl; lia). cbn [mbind option_bind].
  rewrite mcopy_snoc by (rewrite ?length_app, ?length_drop; simpl; lia).
  f_equal. rewrite drop_drop, <- !app_assoc. done.
Qed.

Lemma for_each_mstore {E} (f : Z -> A) k n m i :
  0 <= i + k -> 0 <= n -> i + k + n <= zlen m ->
  for_each (fun j m => access (mstore m (i + j) (f j))) (seqZ k n) m =
  (access (mcopy m (i + k) (f <$> seqZ k n)) : outcome E (list A)).
Proof.
  intros Hk Hn. revert k m Hk. pattern n. apply natlike_ind; [|clear n Hn|done].
  - intros k m Hk Hl. unfold mcopy. cbn [seqZ fmap list_fmap length for_each].
    rewrite (proj2 (Z.leb_le 0 (i + k))), (proj2 (Z.leb_le _ (zlen m))) by (simpl; lia).
    cbn [andb app access]. rewrite Nat.add_0_r. f_equal. symmetry. apply take_drop.
  - intros n Hn IH k m Hk Hl. rewrite seqZ_cons by lia. cbn [for_each fmap list_fmap].
    rewrite mstore_mcopy.
    assert (zlen (f <$> seqZ (k + 1) n) = n) as Hf by (rewrite length_fmap, length_seqZ; lia).
    replace (Z.pred (Z.succ n)) with n by lia. replace (Z.succ k) with (k + 1) by lia.
    rewrite <- (mcopy_cons m (i + k) (f k) (f <$> seqZ (k + 1) n)) by lia.
    destruct (mcopy m (i + k) [f k]) as [m1|] eqn:Hm1; simpl; [|done].
    apply mcopy_length in Hm1. rewrite IH by lia. do 2 f_equal. lia.
Qed.
End Regions.

(** ** Slots *)

Section Slots.
Context {M : Type} (size_of : M -> Z) (base capacity : Z).
Implicit Types (memory payload : list Z) (mds : list M) (md : M).

(** The sample in slot [i]: its metadata and its bytes, which fit the slot. *)
Definition slot_at memory mds (i : Z) : option (M * list Z) :=
  md ← mload mds i;
  if (0 <=? size_of md) && (size_of md <=? capacity) then
    payload ← mslice memory (base + i * capacity) (size_of md);
    Some (md, payload)
  else None.

Lemma slot_at_store memory memory' mds mds' md payload i j :
  0 <= i -> 0 <= j -> size_of md = zlen payload -> zlen payload <= capacity ->
  mcopy memory (base + i * capacity) payload = Some memory' ->
  mstore mds i md = Some mds' ->
  slot_at memory' mds' j = if j =? i then Some (md, payload) else slot_at memory mds j.
Proof.
  intros Hi Hj Hsize Hcap Hm Hs. unfold slot_at. unfold mstore in Hs.
  destruct (Z.leb_spec 0 i), (Z.ltb_spec i (zlen mds)); simpl in Hs; try done.
  injection Hs as <-. rewrite mload_insert by lia. destruct (Z.eqb_spec j i) as [->|Hne].
  - simpl. rewrite Hsize, (proj2 (Z.leb_le 0 _)), (proj2 (Z.leb_le _ capacity)) by lia. simpl.
    by rewrite (mslice_mcopy_same _ _ _ _ Hm).
  - destruct (mload mds j) as [x|]; simpl; [|done].
    destruct (Z.leb_spec 0 (size_of x)), (Z.leb_spec (size_of x) capacity); simpl; try done.
    by rewrite (mslice_mcopy_disjoint _ _ _ _ _ _ Hm) by nia.
Qed.

Lemma slot_at_other memory memory' mds src i j :
  mcopy memory i src = Some memory' -> i + zlen src <= base -> 0 <= j -> 0 <= capacity ->
  slot_at memory' mds j = slot_at memory mds j.
Proof.
  intros Hm Hb Hj Hc. unfold slot_at. destruct (mload mds j) as [x|]; simpl; [|done].
  destruct (_ && _); [|done]. by rewrite (mslice_mcopy_disjoint _ _ _ _ _ _ Hm) by nia.
Qed.

Lemma slot_at_size memory mds i md payload :
  slot_at memory mds i = Some (md, payload) ->
  mload mds i = Some md /\ size_of md = zlen payload /\ zlen payload <= capacity /\
  mslice memory (base + i * capacity) (zlen payload) = Some payload.
Proof.
  unfold slot_at. destruct (mload mds i) as [x|]; simpl; [|done].
  destruct (Z.leb_spec 0 (size_of x)), (Z.leb_spec (size_of x) capacity); simpl; try done.
  destruct (mslice memory _ _) as [s|] eqn:Hs; simpl; [|done]. intros [= -> ->].
  pose proof (mslice_length _ _ _ _ Hs) as Hl. rewrite Hl. by split_and!.
Qed.
End Slots.

(** ** Rings *)

Section Ring.
Context {A : Type} (n : Z).
Hypothesis n_pos : 0 < n.
Implicit Types (get : Z -> option A) (q : list A).

(** [q] is what the ring holds, from [head] on. *)
Record ring (head : Z) get q : Prop := {
  ring_head : 0 <= head < n;
  ring_size : zlen q <= n;
  ring_holds k x : mload q k = Some x -> get ((head + k) mod n) = Some x;
}.

Lemma ring_empty head get : 0 <= head < n -> ring head get [].
Proof. intros Hh. split; [done|simpl; lia|]. intros k x [_ Hx]%mload_Some. done. Qed.

Lemma ring_push_room head get get' q x :
  ring head get q -> zlen q < n ->
  (forall i, 0 <= i < n -> get' i = if i =? (head + zlen q) mod n then Some x else get i) ->
  ring head get' (q ++ [x]).
Proof.
  intros [Hh Hs Hq] Hroom Hat. split; [done|rewrite length_app; simpl; lia|].
  intros k y Hk. pose proof (proj1 (mload_is_Some _ _) (mk_is_Some _ _ Hk)) as Hr.
  rewrite length_app in Hr. simpl in Hr.
  rewrite Hat by (apply Z.mod_pos_bound; lia).
  destruct (decide (k = zlen q)) as [->|Hne].
  - rewrite Z.eqb_refl. rewrite mload_app_r, Z.sub_diag in Hk by lia. done.
  - destruct (Z.eqb_spec ((head + k) mod n) ((head + zlen q) mod n)) as [Heq|_].
    + apply ring_inj in Heq; lia.
    + rewrite mload_app_l in Hk by lia. by apply Hq.
Qed.

Lemma ring_push_full head get get' q x :
  ring head get q -> zlen q = n ->
  (forall i, 0 <= i < n -> get' i = if i =? head then Some x else get i) ->
  ring ((head + 1) mod n) get' (drop 1 q ++ [x]).
Proof.
  intros [Hh Hs Hq] Hfull Hat.
  split; [apply Z.mod_pos_bound; lia|rewrite length_app, length_drop; simpl; lia|].
  intros k y Hk. pose proof (proj1 (mload_is_Some _ _) (mk_is_Some _ _ Hk)) as Hr.
  rewrite length_app, length_drop in Hr. simpl in Hr.
  rewrite Z.add_mod_idemp_l by lia. replace (head + 1 + k) with (head + (k + 1)) by lia.
  rewrite Hat by (apply Z.mod_pos_bound; lia).
  destruct (decide (k = n - 1)) as [->|Hne].
  - replace (head + (n - 1 + 1)) with (head + n) by lia. rewrite ring_wrap, Z.eqb_refl by lia.
    rewrite mload_app_r in Hk by (rewrite length_drop; lia).
    replace (n - 1 - _) with 0 in Hk by (rewrite length_drop; lia). done.
  - destruct (Z.eqb_spec ((head + (k + 1)) mod n) head) as [Heq|_].
    + assert ((head + (k + 1)) mod n = (head + 0) mod n) as Hc.
      { rewrite Z.add_0_r, (Z.mod_small head) by lia. done. }
      apply ring_inj in Hc; lia.
    + apply Hq. rewrite mload_app_l in Hk by (rewrite length_drop; lia).
      apply mload_Some in Hk as [? Hk]. rewrite lookup_drop in Hk. apply mload_Some.
      split; [lia|]. rewrite <- Hk. f_equal. lia.
Qed.

Lemma ring_drop head get q (j : Z) :
  ring head get q -> 0 <= j <= zlen q ->
  ring ((head + j) mod n) get (drop (Z.to_nat j) q).
Proof.
  intros [Hh Hs Hq] Hj. split; [apply Z.mod_pos_bound; lia|rewrite length_drop; lia|].
  intros k y [? Hk]%mload_Some. rewrite lookup_drop in Hk.
  rewrite Z.add_mod_idemp_l, <- Z.add_assoc by lia. apply Hq. apply mload_Some.
  split; [lia|]. rewrite <- Hk. f_equal. lia.
Qed.

Lemma ring_ext head get get' q :
  ring head get q -> (forall i, 0 <= i < n -> get' i = get i) -> ring head get' q.
Proof.
  intros [Hh Hs Hq] Hat. split; [done..|]. intros k x Hk.
  rewrite Hat by (apply Z.mod_pos_bound; lia). by apply Hq.
Qed.

(** What a KEEP_LAST queue of [n] becomes with one more sample. *)
Definition keep_last q (x : A) : list A :=
  if zlen q <? n then q ++ [x] else drop 1 q ++ [x].

Lemma keep_last_length q x : zlen q <= n -> zlen (keep_last q x) = Z.min n (zlen q + 1).
Proof.
  intros Hq. unfold keep_last.
  destruct (Z.ltb_spec (zlen q) n); rewrite length_app, ?length_drop; simpl; lia.
Qed.

Lemma ring_keep_last head get get' q x :
  ring head get q ->
  (forall i, 0 <= i < n -> get' i = if i =? (head + zlen q) mod n then Some x else get i) ->
  ring (if zlen q <? n then head else (head + 1) mod n) get' (keep_last q x).
Proof.
  intros Hr Hget. unfold keep_last. pose proof (ring_size _ _ _ Hr) as Hs.
  destruct (Z.ltb_spec (zlen q) n); [by eapply ring_push_room|].
  assert (zlen q = n) as Hn by lia. eapply ring_push_full; [done..|].
  rewrite Hn, ring_wrap in Hget by apply Hr. done.
Qed.

(** The elements of the new queue, counted from its end. *)
Lemma keep_last_load q x k y :
  zlen q <= n -> mload (keep_last q x) k = Some y ->
  (k = zlen (keep_last q x) - 1 /\ y = x) \/
  exists j, mload q j = Some y /\ k - zlen (keep_last q x) = j - zlen q - 1.
Proof.
  intros Hq Hk. rewrite keep_last_length by done. unfold keep_last in Hk.
  assert (forall l, mload (l ++ [x]) k = Some y ->
    k < zlen l /\ mload l k = Some y \/ k = zlen l /\ y = x) as Hsnoc.
  { intros l Hl. destruct (decide (k < zlen l)) as [?|Hge]; [left|right].
    - by rewrite mload_app_l in Hl.
    - rewrite mload_app_r in Hl by lia.
      pose proof (proj1 (mload_is_Some _ _) (mk_is_Some _ _ Hl)) as Hr. simpl in Hr.
      replace (k - zlen l) with 0 in Hl by lia. injection Hl as <-. split; [lia|done]. }
  destruct (Z.ltb_spec (zlen q) n); apply Hsnoc in Hk as [[? Hk]|[-> ->]];
    rewrite ?length_drop in *; [right|left|right|left].
  - exists k. split; [done|lia].
  - split; [lia|done].
  - exists (k + 1). apply mload_Some in Hk as [? Hk]. rewrite lookup_drop in Hk. split; [|lia].
    apply mload_Some. split; [lia|]. rewrite <- Hk. f_equal. lia.
  - split; [lia|done].
Qed.
End Ring.

End SampleRing.
