(* ===== verification/Endpoint.v ===== *)
(** * What publishers and subscriptions of the ROS binding share

    [rmw_openrtdds_cpp/src/internal.hpp] and the parts that [publisher.cpp] and
    [subscription.cpp] repeat: return codes, global identifiers, the envelope of service
    samples, and the matched-endpoint status behind the events of [events.cpp]. *)
From stdpp Require Import list.
From S2P Require Import Prelude Types TypeSupport.

Module Endpoint.
Import Types.

(** The return codes of [rmw/ret_types.h] that the binding uses. *)
Inductive rmw_ret_t : Set :=
  | RMW_RET_OK | RMW_RET_ERROR | RMW_RET_TIMEOUT | RMW_RET_UNSUPPORTED | RMW_RET_BAD_ALLOC
  | RMW_RET_INVALID_ARGUMENT | RMW_RET_INCORRECT_RMW_IMPLEMENTATION.

#[global] Instance rmw_ret_eq_dec : EqDecision rmw_ret_t.
Proof. solve_decision. Defined.

#[global] Instance RosChannel_eq_dec : EqDecision TypeSupport.RosChannel.
Proof. solve_decision. Defined.

(** [RMW_GID_STORAGE_SIZE] of [rmw/types.h] *)
Definition gid_storage_size : Z := 16.
Definition kServiceCorrelationSize : Z := gid_storage_size + 8.

(** [rmw_request_id_t] *)
Record rmw_request_id_t : Set := {
  writer_guid : list Z;
  request_sequence : Z;
}.

#[global] Instance rmw_request_id_eq_dec : EqDecision rmw_request_id_t.
Proof. solve_decision. Defined.

(** [data] of [make_gid], [make_rmw_gid] and the result of [make_guid]: zero-initialised
    storage into which the prefix and the entity id are copied. *)
Definition make_gid {E} (prefix : GuidPrefix) (entity : EntityId) : outcome E (list Z) :=
  gid ← access (mcopy (replicate (Z.to_nat gid_storage_size) 0) 0 prefix);
  access (mcopy gid (zlen prefix) entity).

(** [checked_add]; [None] is [false]. *)
Definition checked_add (left right : Z) : option Z :=
  if sub64 size_max right <? left then None else Some (add64 left right).

(** [++g; if (g == 0U) g = 1U;] on a 64-bit generation *)
Definition next_generation (g : Z) : Z :=
  let g := add64 g 1 in if g =? 0 then 1 else g.

(** ** Matched endpoints *)

(** [matched_*], [total_matched_*] and [match_generation] of an endpoint. *)
Record MatchStatus : Set := {
  matched : Z;
  total_matched : Z;
  match_generation : Z;
}.

Definition MatchStatus_init : MatchStatus :=
  {| matched := 0; total_matched := 0; match_generation := 1 |}.

(** The number of transitions, and the status; waiters are notified when it changed. *)
Definition set_match_count (count : Z) (s : MatchStatus) : Z * MatchStatus :=
  if negb (count =? matched s) then
    (if matched s <? count then sub64 count (matched s) else sub64 (matched s) count,
     {| matched := count;
        total_matched := if matched s <? count
                         then add64 (total_matched s) (sub64 count (matched s))
                         else total_matched s;
        match_generation := next_generation (match_generation s) |})
  else (0, s).

(** ** Global identifiers *)

Lemma make_gid_spec {E} prefix entity :
  length prefix = 12%nat -> length entity = 4%nat ->
  make_gid prefix entity = (Done (prefix ++ entity) : outcome E _).
Proof.
  intros Hp He. unfold make_gid, gid_storage_size. change (Z.to_nat 16) with 16%nat.
  rewrite mcopy_start by (rewrite length_replicate; lia). cbn [access mbind outcome_bind].
  rewrite mcopy_snoc by (rewrite ?length_drop, ?length_replicate; lia).
  rewrite drop_drop, drop_replicate, Hp, He, app_nil_r. done.
Qed.

Lemma checked_add_spec left right :
  0 <= left < 2 ^ 64 -> 0 <= right < 2 ^ 64 ->
  checked_add left right = if left + right <? 2 ^ 64 then Some (left + right) else None.
Proof.
  intros Hl Hr. unfold checked_add, size_max. rewrite sub64_id by lia.
  destruct (Z.ltb_spec (2 ^ 64 - 1 - right) left), (Z.ltb_spec (left + right) (2 ^ 64));
    try lia; [done|]. by rewrite add64_id by lia.
Qed.

End Endpoint.
