(* ===== verification/Publisher.v ===== *)
(** * Publishers of the ROS binding

    [rmw_openrtdds_cpp/src/publisher.cpp]: the storage of a publisher, its announcement,
    [publish_sample] with the KEEP_LAST history, and what the network thread reads from it.

    A publisher owns one block of memory.  [staging], [data_message_staging], [data_message]
    and [history] point into it and are offsets here.  The members that creation sets and
    nothing changes afterwards are a record of their own, [PublisherSetup].  The handle
    checks in front of the operations ([valid_publisher] and null arguments), the registry
    of the context and the allocator are not modelled. *)
From stdpp Require Import list.
From S2P Require Import Prelude Types Bytes Texts DataMessage Locators Sedp Introspection TypeSupport Xcdr1Codec Qos Endpoint.

Module Publisher.
Import Types Texts Locators Introspection TypeSupport Codec Endpoint.

Definition kMaximumSampleSize : Z := 65000.
Definition kDataMessageOverhead : Z := 44.
Definition kSedpCapacity : Z := 2048.
Definition kMaximumHistoryDepth : Z := 1024.
Definition kVendor : VendorId := [1; 66].
Definition kProtocol : ProtocolVersion := {| major := 2; minor := 3 |}.
Definition kUnknownReader : EntityId := [0; 0; 0; 0].
Definition kPublicationsReader : EntityId := [0; 0; 3; 199].

Record PublisherSampleMetadata : Set := {
  sequence_number : Z;
  source_timestamp_ns : Z;
  serialized_size : Z;
}.

Definition PublisherSampleMetadata_default : PublisherSampleMetadata :=
  {| sequence_number := 0; source_timestamp_ns := 0; serialized_size := 0 |}.

Record PublisherSetup : Type := {
  type_support : Introspection.type_support;
  type_info : TypeSupportInfo;
  names : DdsNames;
  channel : RosChannel;
  resources : Qos.EndpointResourcePlan;
  participant_prefix : GuidPrefix;
  writer_id : EntityId;
  gid : list Z;
  serialized_capacity : Z;
  staging : Z;
  data_message_staging : Z;
  data_message : Z;
  history : Z;
}.

Record PublisherData : Type := {
  setup : PublisherSetup;
  memory : list Z;
  history_metadata : list PublisherSampleMetadata;
  sedp : list Z;
  sedp_size : Z;
  data_message_size : Z;
  history_size : Z;
  history_next : Z;
  next_sequence : Z;
  match_status : MatchStatus;
  last_sample : PublisherSampleMetadata;
}.

Definition set_memory (d : PublisherData) (m : list Z) : PublisherData :=
  {| setup := setup d; memory := m; history_metadata := history_metadata d; sedp := sedp d;
     sedp_size := sedp_size d; data_message_size := data_message_size d;
     history_size := history_size d; history_next := history_next d;
     next_sequence := next_sequence d; match_status := match_status d;
     last_sample := last_sample d |}.

Definition history_sample_slots (d : PublisherData) : Z :=
  Qos.history_sample_slots (resources (setup d)).

(** ** Creation *)

Definition writer_id_of (slot_index : Z) : EntityId := [0; 0; u8 (add64 slot_index 1); 3].

(** The capacities computed by [create_publisher_endpoint]: [serialized_capacity],
    [data_capacity] and [runtime_bytes]; [runtime_bytes = 0] means no storage. *)
Definition storage_sizes (channel : RosChannel) (type_info : TypeSupportInfo)
    (history_slots : Z) : Z * Z * Z :=
  let size := maximum_serialized_size type_info in
  let capacity := if bool_decide (channel <> topic)
                  then default 0 (checked_add size kServiceCorrelationSize) else size in
  if capacity =? 0 then (capacity, 0, 0) else
  match checked_add capacity kDataMessageOverhead with
  | None => (capacity, 0, 0)
  | Some data_capacity =>
      let runtime :=
        packets ← checked_add data_capacity data_capacity;
        bytes ← checked_add capacity packets;
        if size_max / capacity <? history_slots then None
        else checked_add bytes (mul64 history_slots capacity) in
      (capacity, data_capacity, default 0 runtime)
  end.

(** [std::strlen] on one of the name arrays, and the copy of that many characters into a
    zeroed name of the announcement. *)
Definition strlen {E} (text : list Z) : outcome E Z :=
  text_length (S (length text)) text 0.

Definition copy_name {E} (text : list Z) : outcome E (list Z * Z) :=
  n ← strlen text;
  chars ← access (mslice text 0 n);
  name ← access (mcopy (replicate 256 0) 0 chars);
  Done (name, n).

(** [config] of [build_sedp], before its locator. *)
Definition announced_reliability (resources : Qos.EndpointResourcePlan)
    : Sedp.ReliabilityKind :=
  if decide (Qos.reliability (Qos.profile (Qos.qos resources)) = Qos.RELIABILITY_RELIABLE)
  then Sedp.reliable else Sedp.best_effort.

Definition sedp_endpoint (s : PublisherSetup) (topic_ : list Z * Z) (type_ : list Z * Z)
    (locators : BoundedLocatorList) : Sedp.SedpEndpointData :=
  {| Sedp.protocol_version := kProtocol; Sedp.vendor_id := kVendor;
     Sedp.participant_guid_prefix := participant_prefix s;
     Sedp.endpoint_id := writer_id s; Sedp.kind := Sedp.writer;
     Sedp.topic_name := topic_.1; Sedp.topic_name_size := topic_.2;
     Sedp.type_name := type_.1; Sedp.type_name_size := type_.2;
     Sedp.unicast_locators := locators;
     Sedp.multicast_locators := BoundedLocatorList_default Sedp.sedp_max_locators;
     Sedp.reliability := announced_reliability (resources s);
     Sedp.durability := Sedp.volatile_durability;
     Sedp.max_blocking_time_ns := 100000000; Sedp.expects_inline_qos := false |}.

(** [build_sedp] into the zeroed announcement buffer: [None] is [false], otherwise the
    buffer and the size of the message. *)
Definition build_sedp {E} (s : PublisherSetup) (user_port : Z)
    : outcome E (option (list Z * Z)) :=
  topic_ ← copy_name (topic_name (names s));
  type_ ← copy_name (type_name (names s));
  match make_udp_v4_locator [127; 0; 0; 1] user_port with
  | None => Done None
  | Some locator =>
      pushed ← push_back Sedp.sedp_max_locators
                 (BoundedLocatorList_default Sedp.sedp_max_locators) locator;
      match pushed with
      | None => Done None
      | Some locators =>
          match Sedp.build
                  (Sedp.SedpMessageBuilder_new
                     (Some (replicate (Z.to_nat kSedpCapacity) 0)) kSedpCapacity)
                  {| Sedp.endpoint := sedp_endpoint s topic_ type_ locators;
                     Sedp.reader_id := kPublicationsReader; Sedp.sequence_number := 1;
                     Sedp.submessage_byte_order := little_endian;
                     Sedp.parameter_byte_order := little_endian |} with
          | Fault => Fault
          | Stop _ => Done None
          | Done b => buffer ← access (Sedp.buffer_ b); Done (Some (buffer, Sedp.size_ b))
          end
      end
  end.

(** The members [create_publisher_endpoint] fills in once the type, the names and the
    resources are settled and the block [storage] is allocated; [None] is the failure of
    [build_sedp]. *)
Definition create_publisher_data {E} (ts : Introspection.type_support)
    (info : TypeSupportInfo) (dds_names : DdsNames) (ch : RosChannel)
    (plan : Qos.EndpointResourcePlan) (prefix : GuidPrefix) (user_port slot_index : Z)
    (storage : list Z) : outcome E (option PublisherData) :=
  let '(capacity, data_capacity, _) :=
    storage_sizes ch info (Qos.history_sample_slots plan) in
  id ← make_gid prefix (writer_id_of slot_index);
  let s := {| type_support := ts; type_info := info; names := dds_names; channel := ch;
              resources := plan; participant_prefix := prefix;
              writer_id := writer_id_of slot_index; gid := id;
              serialized_capacity := capacity; staging := 0;
              data_message_staging := capacity; data_message := capacity + data_capacity;
              history := capacity + data_capacity + data_capacity |} in
  announcement ← build_sedp s user_port;
  Done (match announcement with
        | None => None
        | Some (buffer, size) => Some
            {| setup := s; memory := storage;
               history_metadata := replicate (Z.to_nat kMaximumHistoryDepth)
                                     PublisherSampleMetadata_default;
               sedp := buffer; sedp_size := size; data_message_size := 0;
               history_size := 0; history_next := 0; next_sequence := 1;
               match_status := MatchStatus_init;
               last_sample := PublisherSampleMetadata_default |}
        end).

(** ** Publishing *)

(** [timestamp_now]; [clock] is the result of [clock_gettime]: seconds and nanoseconds. *)
Definition timestamp_now (clock : option (Z * Z)) : option Z :=
  match clock with
  | None => None
  | Some (tv_sec, tv_nsec) =>
      if tv_sec <? 0 then None
      else if size_max / 1000000000 <? tv_sec then None
      else Some (add64 (mul64 tv_sec 1000000000) tv_nsec)
  end.

(** The envelope of a service sample at the start of [staging]: the client's GUID and the
    sequence number, least significant byte first. *)
Definition write_correlation {E} (m : list Z) (staging_ : Z) (id : rmw_request_id_t)
    : outcome E (list Z) :=
  guid ← access (mslice (writer_guid id) 0 gid_storage_size);
  m ← access (mcopy m staging_ guid);
  let sequence := u64 (request_sequence id) in
  for_each (fun index m =>
      access (mstore m (staging_ + gid_storage_size + index)
                (u8 (Z.shiftr sequence (index * 8)))))
    (seqZ 0 8) m.

Definition data_config (s : PublisherSetup) (sequence : Z) : Data.DataMessageConfig :=
  {| Data.cfg_version := kProtocol; Data.cfg_vendor_id := kVendor;
     Data.cfg_guid_prefix := participant_prefix s; Data.cfg_reader_id := kUnknownReader;
     Data.cfg_writer_id := writer_id s; Data.cfg_sequence_number := sequence;
     Data.cfg_byte_order := little_endian |}.

(** The stores behind a successful [builder.build], in source order. *)
Definition store_sample (d : PublisherData) (m : list Z) (size message_size timestamp : Z)
    : outcome (rmw_ret_t * PublisherData) PublisherData :=
  let s := setup d in
  let slots := history_sample_slots d in
  let index := history_next d in
  payload ← access (mslice m (staging s) size);
  m ← access (mcopy m (history s + index * serialized_capacity s) payload);
  let metadata := {| sequence_number := next_sequence d; source_timestamp_ns := timestamp;
                     serialized_size := size |} in
  message ← access (mslice m (data_message_staging s) message_size);
  m ← access (mcopy m (data_message s) message);
  all ← access (mstore (history_metadata d) index metadata);
  if slots =? 0 then Fault else
  Done {| setup := s; memory := m; history_metadata := all; sedp := sedp d;
          sedp_size := sedp_size d; data_message_size := message_size;
          history_size := if history_size d <? slots then add64 (history_size d) 1
                          else history_size d;
          history_next := add64 index 1 mod slots;
          next_sequence := add64 (next_sequence d) 1; match_status := match_status d;
          last_sample := metadata |}.

(** The part of [publish_sample] behind the staging: the DATA message of the [size] bytes
    in the staging area is built, and the sample goes to the history. *)
Definition emit_sample (d : PublisherData) (m : list Z) (size : Z) (clock : option (Z * Z))
    : outcome (rmw_ret_t * PublisherData) PublisherData :=
  let s := setup d in
  stop_if (i64_max <=? next_sequence d) (RMW_RET_ERROR, set_memory d m);;
  let capacity := add64 (serialized_capacity s) kDataMessageOverhead in
  out ← access (mslice m (data_message_staging s) capacity);
  payload ← access (mslice m (staging s) size);
  match Data.build (Data.DataMessageBuilder_new (Some out) capacity)
          (data_config s (next_sequence d)) (Some payload) size with
  | Fault => Fault
  | Stop b =>
      out ← access (Data.buffer_ b);
      m ← access (mcopy m (data_message_staging s) out);
      Stop (RMW_RET_ERROR, set_memory d m)
  | Done b =>
      out ← access (Data.buffer_ b);
      m ← access (mcopy m (data_message_staging s) out);
      match timestamp_now clock with
      | None => Stop (RMW_RET_ERROR, set_memory d m)
      | Some timestamp => store_sample (set_memory d m) m size (Data.size_ b) timestamp
      end
  end.

Section Publish.
Context `{RosRuntime}.

(** Serialisation into the staging area, at [payload_offset]: the codec's result and the
    publisher. *)
Definition stage_message (d : PublisherData) (ros_message : storage) (payload_offset : Z)
    : outcome (rmw_ret_t * PublisherData) (Z * list Z) :=
  let s := setup d in
  let capacity := maximum_serialized_size (type_info s) in
  let at_ := staging s + payload_offset in
  region ← access (mslice (memory d) at_ capacity);
  match serialize_xcdr1 (Some (type_support s)) (Some ros_message) (Some region) capacity
          codec_little_endian with
  | Fault => Fault
  | Stop (_, out) =>
      out ← access out;
      m ← access (mcopy (memory d) at_ out);
      Stop (RMW_RET_ERROR, set_memory d m)
  | Done (codec, out) =>
      out ← access out;
      m ← access (mcopy (memory d) at_ out);
      Done (bytes_processed codec, m)
  end.

(** [publish_sample].  [shutdown] is the flag of the context; [Stop] returns an error with
    what the call left behind, [Done] is [RMW_RET_OK], after which the network thread is
    notified. *)
Definition publish_sample (d : PublisherData) (shutdown : bool)
    (ros_message : option storage) (request_id : option rmw_request_id_t)
    (clock : option (Z * Z)) : outcome (rmw_ret_t * PublisherData) PublisherData :=
  let s := setup d in
  match ros_message with
  | None => Stop (RMW_RET_INVALID_ARGUMENT, d)
  | Some message =>
      let service_sample := bool_decide (channel s <> topic) in
      stop_if (xorb service_sample (bool_decide (is_Some request_id)))
        (RMW_RET_INVALID_ARGUMENT, d);;
      stop_if shutdown (RMW_RET_ERROR, d);;
      let payload_offset := if service_sample then kServiceCorrelationSize else 0 in
      '(written, m) ← stage_message d message payload_offset;
      m ← match request_id with
          | Some id => write_correlation m (staging s) id
          | None => Done m
          end;
      emit_sample d m (add64 payload_offset written) clock
  end.
End Publish.

(** [rmw_publish] and [publish_service_sample] for a valid handle; [allocation] tells
    whether an allocation object was passed. *)
Definition rmw_publish `{RosRuntime} (d : PublisherData) (shutdown : bool)
    (ros_message : option storage) (allocation : bool) (clock : option (Z * Z))
    : outcome (rmw_ret_t * PublisherData) PublisherData :=
  stop_if (bool_decide (ros_message = None)) (RMW_RET_INVALID_ARGUMENT, d);;
  stop_if allocation (RMW_RET_UNSUPPORTED, d);;
  publish_sample d shutdown ros_message None clock.

Definition publish_service_sample `{RosRuntime} (d : PublisherData) (shutdown : bool)
    (request_id : rmw_request_id_t) (ros_message : option storage) (clock : option (Z * Z))
    : outcome (rmw_ret_t * PublisherData) PublisherData :=
  publish_sample d shutdown ros_message (Some request_id) clock.

(** ** The network's side *)

(** The candidate of the selection loop: [selected] and [selected_sequence]. *)
Definition select_next {E} (d : PublisherData) (oldest after_sequence : Z)
    : outcome E (Z * Z) :=
  let slots := history_sample_slots d in
  for_each (fun offset '(selected, selected_sequence) =>
      let index := (oldest + offset) mod slots in
      md ← access (mload (history_metadata d) index);
      Done (if (after_sequence <? sequence_number md) &&
               (sequence_number md <? selected_sequence)
            then (index, sequence_number md) else (selected, selected_sequence)))
    (seqZ 0 (history_size d)) (slots, size_max).

(** [publisher_network_copy_next]: [Stop] of the packet buffer is [false]; otherwise the
    sequence number, the size of the packet and the buffer. *)
Definition publisher_network_copy_next (d : PublisherData) (after_sequence : Z)
    (packet : option (list Z)) (capacity : Z)
    : outcome (option (list Z)) (Z * Z * option (list Z)) :=
  let s := setup d in
  stop_if (bool_decide (packet = None)) packet;;
  stop_if (history_size d =? 0) packet;;
  let slots := history_sample_slots d in
  if slots =? 0 then Fault else
  let oldest := sub64 (add64 (history_next d) slots) (history_size d) mod slots in
  '(selected, _) ← select_next d oldest after_sequence;
  stop_if (selected =? slots) packet;;
  md ← access (mload (history_metadata d) selected);
  payload ← access (mslice (memory d) (history s + selected * serialized_capacity s)
                      (serialized_size md));
  match Data.build (Data.DataMessageBuilder_new packet capacity)
          (data_config s (sequence_number md)) (Some payload) (serialized_size md) with
  | Fault => Fault
  | Stop b => Stop (Data.buffer_ b)
  | Done b => Done (sequence_number md, Data.size_ b, Data.buffer_ b)
  end.

Definition publisher_network_set_match_count (d : PublisherData) (count : Z)
    : Z * PublisherData :=
  let '(transitions, status) := set_match_count count (match_status d) in
  (transitions,
   {| setup := setup d; memory := memory d; history_metadata := history_metadata d;
      sedp := sedp d; sedp_size := sedp_size d; data_message_size := data_message_size d;
      history_size := history_size d; history_next := history_next d;
      next_sequence := next_sequence d; match_status := status;
      last_sample := last_sample d |}).

End Publisher.
