(* ===== verification/Subscription.v ===== *)
(** * Subscriptions of the ROS binding

    [rmw_openrtdds_cpp/src/subscription.cpp]: DATA messages are checked, filtered by the
    writer's last sequence number and queued in a KEEP_LAST ring; the application takes
    them one by one, as a sequence, or as service samples.

    As for publishers, the members that creation sets are a record of their own, and the
    handle checks, the registry of the context and the allocator are not modelled. *)
From stdpp Require Import list.
From S2P Require Import Prelude Types Bytes DataMessage Locators Sedp Introspection TypeSupport Xcdr1Codec Qos Endpoint Publisher.

Module Subscription.
Import Types Locators Introspection TypeSupport Codec Endpoint.

Definition kWriterStateCapacity : Z := 16.
Definition kSubscriptionsReader : EntityId := [0; 0; 4; 199].

(** [rmw_time_point_value_t] is a 64-bit signed integer. *)
Definition time_max : Z := i64_max.

Record SubscriptionSampleMetadata : Set := {
  publisher_gid : list Z;
  publication_sequence_number : Z;
  reception_sequence_number : Z;
  source_timestamp_ns : Z;
  received_timestamp_ns : Z;
  serialized_size : Z;
}.

Definition SubscriptionSampleMetadata_default : SubscriptionSampleMetadata :=
  {| publisher_gid := replicate 16 0; publication_sequence_number := 0;
     reception_sequence_number := 0; source_timestamp_ns := 0; received_timestamp_ns := 0;
     serialized_size := 0 |}.

Record WriterState : Set := {
  guid : list Z;
  last_sequence : Z;
  occupied : bool;
}.

Definition WriterState_default : WriterState :=
  {| guid := replicate 16 0; last_sequence := 0; occupied := false |}.

Inductive SubscriptionReceiveError : Set :=
  | receive_none
  | receive_invalid_argument
  | inactive_context
  | invalid_timestamp
  | rtps_parse_failed
  | wrong_reader
  | invalid_writer
  | payload_too_large
  | writer_table_full
  | reception_sequence_exhausted.

#[global] Instance SubscriptionReceiveError_eq_dec : EqDecision SubscriptionReceiveError.
Proof. solve_decision. Defined.

Definition receive_error_string (error : SubscriptionReceiveError) : string :=
  match error with
  | receive_none => "none"
  | receive_invalid_argument => "invalid_argument"
  | inactive_context => "inactive_context"
  | invalid_timestamp => "invalid_timestamp"
  | rtps_parse_failed => "rtps_parse_failed"
  | wrong_reader => "wrong_reader"
  | invalid_writer => "invalid_writer"
  | payload_too_large => "payload_too_large"
  | writer_table_full => "writer_table_full"
  | reception_sequence_exhausted => "reception_sequence_exhausted"
  end.

Record SubscriptionReceiveResult : Set := {
  error : SubscriptionReceiveError;
  rtps_error : Data.RtpsError;
  accepted : bool;
  ignored_local : bool;
  duplicate_or_stale : bool;
  dropped_oldest : bool;
  result_publication : Z;
  result_reception : Z;
}.

(** A result with an error, or with none of the flags. *)
Definition receive_result (e : SubscriptionReceiveError) (r : Data.RtpsError)
    : SubscriptionReceiveResult :=
  {| error := e; rtps_error := r; accepted := false; ignored_local := false;
     duplicate_or_stale := false; dropped_oldest := false; result_publication := 0;
     result_reception := 0 |}.

(** [ignore_local_publications] is an option of the subscription's handle. *)
Record SubscriptionSetup : Type := {
  ignore_local_publications : bool;
  type_support : Introspection.type_support;
  type_info : TypeSupportInfo;
  names : DdsNames;
  channel : RosChannel;
  resources : Qos.EndpointResourcePlan;
  participant_prefix : GuidPrefix;
  reader_id : EntityId;
  reader_guid : list Z;
  serialized_capacity : Z;
}.

Record SubscriptionData : Type := {
  setup : SubscriptionSetup;
  history : list Z;
  history_metadata : list SubscriptionSampleMetadata;
  writers : list WriterState;
  sedp : list Z;
  sedp_size : Z;
  history_head : Z;
  history_size : Z;
  observed_writer_count : Z;
  next_reception_sequence : Z;
  accepted_samples : Z;
  dropped_samples : Z;
  match_status : MatchStatus;
}.

Definition history_sample_slots (d : SubscriptionData) : Z :=
  Qos.history_sample_slots (resources (setup d)).

(** ** Creation *)

Definition reader_id_of (slot_index : Z) : EntityId := [0; 0; u8 (add64 slot_index 1); 4].

(** [serialized_capacity] and [history_storage_bytes] of [create_subscription_endpoint]. *)
Definition storage_sizes (channel : RosChannel) (type_info : TypeSupportInfo)
    (history_slots : Z) : Z * Z :=
  let size := maximum_serialized_size type_info in
  let capacity :=
    if bool_decide (channel <> topic) && (size <=? sub64 size_max kServiceCorrelationSize)
    then add64 size kServiceCorrelationSize
    else if bool_decide (channel <> topic) then 0 else size in
  (capacity,
   if negb (capacity =? 0) && (history_slots <=? size_max / capacity)
   then mul64 history_slots capacity else 0).

Definition sedp_endpoint (s : SubscriptionSetup) (topic_ : list Z * Z) (type_ : list Z * Z)
    (locators : BoundedLocatorList) : Sedp.SedpEndpointData :=
  {| Sedp.protocol_version := Publisher.kProtocol; Sedp.vendor_id := Publisher.kVendor;
     Sedp.participant_guid_prefix := participant_prefix s;
     Sedp.endpoint_id := reader_id s; Sedp.kind := Sedp.reader;
     Sedp.topic_name := topic_.1; Sedp.topic_name_size := topic_.2;
     Sedp.type_name := type_.1; Sedp.type_name_size := type_.2;
     Sedp.unicast_locators := locators;
     Sedp.multicast_locators := BoundedLocatorList_default Sedp.sedp_max_locators;
     Sedp.reliability := Publisher.announced_reliability (resources s);
     Sedp.durability := Sedp.volatile_durability;
     Sedp.max_blocking_time_ns := 100000000; Sedp.expects_inline_qos := false |}.

Definition build_sedp {E} (s : SubscriptionSetup) (user_port : Z)
    : outcome E (option (list Z * Z)) :=
  topic_ ← Publisher.copy_name (topic_name (names s));
  type_ ← Publisher.copy_name (type_name (names s));
  match make_udp_v4_locator [127; 0; 0; 1] user_port with
  | None => Done None
  | Some locator =>
      pushed ← push_back Sedp.sedp_max_locators
                 (BoundedLocatorList_default Sedp.sedp_max_locators) locator;
      match pushed with
      | None => Done None
      | Some locators =>
          match Sedp.build
                  (Sedp.SedpMessageBuilder_new
                     (Some (replicate (Z.to_nat Publisher.kSedpCapacity) 0))
                     Publisher.kSedpCapacity)
                  {| Sedp.endpoint := sedp_endpoint s topic_ type_ locators;
                     Sedp.reader_id := kSubscriptionsReader; Sedp.sequence_number := 1;
                     Sedp.submessage_byte_order := little_endian;
                     Sedp.parameter_byte_order := little_endian |} with
          | Fault => Fault
          | Stop _ => Done None
          | Done b => buffer ← access (Sedp.buffer_ b); Done (Some (buffer, Sedp.size_ b))
          end
      end
  end.

(** The members [create_subscription_endpoint] fills in once the type, the names and the
    resources are settled and the block [storage] is allocated. *)
Definition create_subscription_data {E} (ignore_local : bool)
    (ts : Introspection.type_support) (info : TypeSupportInfo) (dds_names : DdsNames)
    (ch : RosChannel) (plan : Qos.EndpointResourcePlan) (prefix : GuidPrefix)
    (user_port slot_index : Z) (storage : list Z) : outcome E (option SubscriptionData) :=
  let '(capacity, _) := storage_sizes ch info (Qos.history_sample_slots plan) in
  id ← make_gid prefix (reader_id_of slot_index);
  let s := {| ignore_local_publications := ignore_local; type_support := ts;
              type_info := info; names := dds_names; channel := ch; resources := plan;
              participant_prefix := prefix; reader_id := reader_id_of slot_index;
              reader_guid := id; serialized_capacity := capacity |} in
  announcement ← build_sedp s user_port;
  Done (match announcement with
        | None => None
        | Some (buffer, size) => Some
            {| setup := s; history := storage;
               history_metadata := replicate (Z.to_nat Publisher.kMaximumHistoryDepth)
                                     SubscriptionSampleMetadata_default;
               writers := replicate (Z.to_nat kWriterStateCapacity) WriterState_default;
               sedp := buffer; sedp_size := size; history_head := 0; history_size := 0;
               observed_writer_count := 0; next_reception_sequence := 1;
               accepted_samples := 0; dropped_samples := 0;
               match_status := MatchStatus_init |}
        end).

(** ** Receiving *)

Definition nonzero_prefix (prefix : GuidPrefix) : bool :=
  existsb (fun value => negb (value =? 0)) prefix.

Definition valid_writer_id {E} (entity : EntityId) : outcome E bool :=
  e0 ← access (mload entity 0);
  e1 ← access (mload entity 1);
  e2 ← access (mload entity 2);
  e3 ← access (mload entity 3);
  Done (negb (Z.lor (Z.lor e0 e1) e2 =? 0) && ((e3 =? 2) || (e3 =? 3))).

Definition rtps_timestamp_ns (view : Data.DataMessageView) : Z :=
  if negb (Data.has_source_timestamp view) || (Data.source_timestamp_seconds view <? 0)
  then 0
  else
    let seconds := Data.source_timestamp_seconds view in
    let fractional :=
      Z.shiftr (mul64 (Data.source_timestamp_fraction view) 1000000000) 32 in
    add64 (mul64 seconds 1000000000) fractional.

(** The loop over [data->writers]: the index of the writer's entry, or else of the first
    free one. *)
Fixpoint find_writer (gid : list Z) (index : Z) (free : option Z) (l : list WriterState)
    : option Z * option Z :=
  match l with
  | [] => (None, free)
  | state :: l' =>
      if negb (occupied state) then
        find_writer gid (index + 1) (match free with None => Some index | _ => free end) l'
      else if bool_decide (guid state = gid) then (Some index, free)
      else find_writer gid (index + 1) free l'
  end.

(** The update of [data] with an accepted sample.  The result is the index it went to. *)
Definition store_sample {E} (d : SubscriptionData) (writer_gid : list Z)
    (writer_entry : Z) (new_writer : bool) (sequence source received : Z)
    (payload : list Z) : outcome E (SubscriptionData * bool) :=
  let s := setup d in
  let slots := history_sample_slots d in
  if slots =? 0 then Fault else
  let room := history_size d <? slots in
  let index := if room then add64 (history_head d) (history_size d) mod slots
               else history_head d in
  memory ← access (mcopy (history d) (index * serialized_capacity s) payload);
  let md := {| publisher_gid := writer_gid; publication_sequence_number := sequence;
               reception_sequence_number := next_reception_sequence d;
               source_timestamp_ns := source; received_timestamp_ns := received;
               serialized_size := zlen payload |} in
  all ← access (mstore (history_metadata d) index md);
  entry ← access (mload (writers d) writer_entry);
  table ← access (mstore (writers d) writer_entry
            {| guid := if new_writer then writer_gid else guid entry;
               last_sequence := sequence;
               occupied := new_writer || occupied entry |});
  Done ({| setup := s; history := memory; history_metadata := all; writers := table;
           sedp := sedp d; sedp_size := sedp_size d;
           history_head := if room then history_head d
                           else add64 (history_head d) 1 mod slots;
           history_size := if room then add64 (history_size d) 1 else history_size d;
           observed_writer_count := if new_writer then add64 (observed_writer_count d) 1
                                    else observed_writer_count d;
           next_reception_sequence := add64 (next_reception_sequence d) 1;
           accepted_samples := add64 (accepted_samples d) 1;
           dropped_samples := if room then dropped_samples d
                              else add64 (dropped_samples d) 1;
           match_status := match_status d |}, negb room).

(** What a parsed message leads to: the checks on its addressing and size, in the order of
    the source. *)
Definition check_view (d : SubscriptionData) (view : Data.DataMessageView)
    (source_timestamp : Z) : outcome SubscriptionReceiveResult Z :=
  let s := setup d in
  let refuse e := receive_result e Data.rtps_none in
  stop_if ((Data.has_destination view &&
            negb (bool_decide (Data.destination_guid_prefix view = participant_prefix s)))
           || (negb (bool_decide (Data.reader_id view = Publisher.kUnknownReader)) &&
               negb (bool_decide (Data.reader_id view = reader_id s))))
    (refuse wrong_reader);;
  known ← (if nonzero_prefix (Data.guid_prefix view) then valid_writer_id (Data.writer_id view)
           else Done false);
  stop_if (negb known) (refuse invalid_writer);;
  stop_if ((Data.payload_size view =? 0) ||
           (serialized_capacity s <? Data.payload_size view)) (refuse payload_too_large);;
  let resolved := if source_timestamp =? 0 then rtps_timestamp_ns view
                  else source_timestamp in
  stop_if (time_max <? resolved) (refuse invalid_timestamp);;
  Done resolved.

(** The part under the subscription's lock. *)
Definition receive_view (d : SubscriptionData) (view : Data.DataMessageView)
    (resolved received_timestamp : Z)
    : outcome SubscriptionReceiveResult (SubscriptionReceiveResult * SubscriptionData) :=
  let s := setup d in
  let sequence := Data.sequence_number view in
  let found ignored stale :=
    {| error := receive_none; rtps_error := Data.rtps_none; accepted := false;
       ignored_local := ignored; duplicate_or_stale := stale; dropped_oldest := false;
       result_publication := sequence; result_reception := 0 |} in
  if ignore_local_publications s &&
     bool_decide (Data.guid_prefix view = participant_prefix s)
  then Done (found true false, d)
  else
    writer_gid ← make_gid (Data.guid_prefix view) (Data.writer_id view);
    let '(writer, free_writer) := find_writer writer_gid 0 None (writers d) in
    stale ← match writer with
            | Some i => state ← access (mload (writers d) i);
                        Done (sequence <=? last_sequence state)
            | None => Done false
            end;
    if (stale : bool) then Done (found false true, d)
    else match writer, free_writer with
    | None, None => Stop (receive_result writer_table_full Data.rtps_none)
    | Some entry, _ | None, Some entry =>
        stop_if (next_reception_sequence d =? size_max)
          (receive_result reception_sequence_exhausted Data.rtps_none);;
        bytes ← access (Data.serialized_payload view);
        payload ← access (mslice bytes 0 (Data.payload_size view));
        '(d', dropped) ← store_sample d writer_gid entry (bool_decide (writer = None))
                           sequence resolved received_timestamp payload;
        Done ({| error := receive_none; rtps_error := Data.rtps_none; accepted := true;
                 ignored_local := false; duplicate_or_stale := false;
                 dropped_oldest := dropped; result_publication := sequence;
                 result_reception := next_reception_sequence d |}, d')
    end.

(** [receive_data_message] for a valid handle: [Stop] is [false], with the subscription
    unchanged; an accepted sample wakes up the waiters. *)
Definition receive_data_message (d : SubscriptionData) (shutdown : bool)
    (message : option (list Z)) (message_size source_timestamp received_timestamp : Z)
    : outcome SubscriptionReceiveResult (SubscriptionReceiveResult * SubscriptionData) :=
  let refuse e := receive_result e Data.rtps_none in
  stop_if (bool_decide (message = None) || (message_size =? 0))
    (refuse receive_invalid_argument);;
  stop_if shutdown (refuse inactive_context);;
  stop_if ((received_timestamp =? 0) || (time_max <? received_timestamp) ||
           (time_max <? source_timestamp)) (refuse invalid_timestamp);;
  view ← checked Data.rtps_none (receive_result rtps_parse_failed)
           (Data.parse_data_message message message_size Data.DataMessageView_default);
  resolved ← check_view d view source_timestamp;
  receive_view d view resolved received_timestamp.

(** [subscription_network_receive] for a valid handle: the returned flag and the
    subscription. *)
Definition subscription_network_receive {E} (d : SubscriptionData) (shutdown : bool)
    (packet : option (list Z)) (packet_size received_timestamp : Z)
    : outcome E (bool * SubscriptionData) :=
  match receive_data_message d shutdown packet packet_size received_timestamp
          received_timestamp with
  | Fault => Fault
  | Stop _ => Done (false, d)
  | Done (result, d') =>
      Done (accepted result || duplicate_or_stale result || ignored_local result, d')
  end.

Definition subscription_wait_ready (d : SubscriptionData) : bool :=
  negb (history_size d =? 0).

Definition subscription_network_set_match_count (d : SubscriptionData) (count : Z)
    : Z * SubscriptionData :=
  let '(transitions, status) := set_match_count count (match_status d) in
  (transitions,
   {| setup := setup d; history := history d; history_metadata := history_metadata d;
      writers := writers d; sedp := sedp d; sedp_size := sedp_size d;
      history_head := history_head d; history_size := history_size d;
      observed_writer_count := observed_writer_count d;
      next_reception_sequence := next_reception_sequence d;
      accepted_samples := accepted_samples d; dropped_samples := dropped_samples d;
      match_status := status |}).

(** ** Taking *)

(** [rmw_message_info_t] without [from_intra_process], which is always false. *)
Record rmw_message_info_t : Set := {
  source_timestamp : Z;
  received_timestamp : Z;
  info_publication : Z;
  info_reception : Z;
  info_gid : list Z;
}.

Definition message_info (md : SubscriptionSampleMetadata) : rmw_message_info_t :=
  {| source_timestamp := signed 64 (source_timestamp_ns md);
     received_timestamp := signed 64 (received_timestamp_ns md);
     info_publication := publication_sequence_number md;
     info_reception := reception_sequence_number md;
     info_gid := publisher_gid md |}.

(** [history_head = (history_head + n) % slots; history_size -= n;] *)
Definition consume (d : SubscriptionData) (n : Z) : SubscriptionData :=
  {| setup := setup d; history := history d; history_metadata := history_metadata d;
     writers := writers d; sedp := sedp d; sedp_size := sedp_size d;
     history_head := add64 (history_head d) n mod history_sample_slots d;
     history_size := sub64 (history_size d) n;
     observed_writer_count := observed_writer_count d;
     next_reception_sequence := next_reception_sequence d;
     accepted_samples := accepted_samples d; dropped_samples := dropped_samples d;
     match_status := match_status d |}.

(** The metadata of the sample at [index] and the bytes behind the pointer to it. *)
Definition sample_at {E} (d : SubscriptionData) (index : Z)
    : outcome E (SubscriptionSampleMetadata * list Z) :=
  md ← access (mload (history_metadata d) index);
  memory ← access (mslice (history d) (index * serialized_capacity (setup d))
                     (serialized_size md));
  Done (md, memory).

Section Take.
Context `{RosRuntime}.

(** Decoding one sample of the history into a message: [Stop] holds the message as the
    codec left it. *)
Definition decode_into (s : SubscriptionSetup) (bytes : list Z) (size : Z)
    (message : storage) : outcome storage storage :=
  match deserialize_xcdr1 (Some (type_support s)) (Some bytes) size
          (maximum_serialized_size (type_info s)) (Some message) with
  | Fault => Fault
  | Stop (_, out) => m ← access out; Stop m
  | Done (_, out) => access out
  end.

(** [take_one]: an error returns the code, the value of [*taken] if it was written, and the
    message.  Otherwise [*taken] with the message, the information if it was asked for, and
    the subscription. *)
Definition take_one (d : SubscriptionData) (shutdown : bool) (ros_message : option storage)
    (taken_output with_info allocation : bool)
    : outcome (rmw_ret_t * option bool * option storage)
        (bool * storage * option rmw_message_info_t * SubscriptionData) :=
  match ros_message with
  | None => Stop (RMW_RET_INVALID_ARGUMENT, None, None)
  | Some message =>
      stop_if (negb taken_output) (RMW_RET_INVALID_ARGUMENT, None, Some message);;
      stop_if allocation (RMW_RET_UNSUPPORTED, None, Some message);;
      stop_if shutdown (RMW_RET_ERROR, None, Some message);;
      if history_size d =? 0 then Done (false, message, None, d)
      else
        '(md, memory) ← sample_at d (history_head d);
        message' ← map_stop (fun m => (RMW_RET_ERROR, Some false, Some m))
                     (decode_into (setup d) memory (serialized_size md) message);
        if history_sample_slots d =? 0 then Fault else
        Done (true, message', if with_info then Some (message_info md) else None,
              consume d 1)
  end.

Definition rmw_take (d : SubscriptionData) (shutdown : bool) (ros_message : option storage)
    (taken_output allocation : bool) :=
  take_one d shutdown ros_message taken_output false allocation.

(** [message_info] tells whether the output for it is not null. *)
Definition rmw_take_with_info (d : SubscriptionData) (shutdown : bool)
    (ros_message : option storage) (taken_output message_info_output allocation : bool) :=
  stop_if (negb message_info_output) (RMW_RET_INVALID_ARGUMENT, None, ros_message);;
  take_one d shutdown ros_message taken_output true allocation.

(** The loop of [rmw_take_sequence] over the messages and informations; an error returns
    them as they are by then. *)
Definition take_loop (d : SubscriptionData) (available : Z)
    (messages : list (option storage)) (infos : list rmw_message_info_t)
    : outcome (rmw_ret_t * list (option storage) * list rmw_message_info_t)
        (list (option storage) * list rmw_message_info_t) :=
  for_each (fun offset '(messages, infos) =>
      place ← access (mload messages offset);
      match place with
      | None => Stop (RMW_RET_INVALID_ARGUMENT, messages, infos)
      | Some message =>
          let index := add64 (history_head d) offset mod history_sample_slots d in
          '(md, memory) ← sample_at d index;
          match decode_into (setup d) memory (serialized_size md) message with
          | Fault => Fault
          | Stop m =>
              messages ← access (mstore messages offset (Some m));
              Stop (RMW_RET_ERROR, messages, infos)
          | Done m =>
              messages ← access (mstore messages offset (Some m));
              infos ← access (mstore infos offset (message_info md));
              Done (messages, infos)
          end
      end) (seqZ 0 available) (messages, infos).

(** [rmw_take_sequence] for a valid handle and non-null sequences with the capacities
    [message_capacity] and [info_capacity]: the number of taken samples, the messages, the
    informations and the subscription. *)
Definition rmw_take_sequence (d : SubscriptionData) (shutdown : bool) (count : Z)
    (messages : option (list (option storage))) (message_capacity : Z)
    (infos : option (list rmw_message_info_t)) (info_capacity : Z)
    (taken_output allocation : bool)
    : outcome (rmw_ret_t * option (list (option storage)) *
               option (list rmw_message_info_t))
        (Z * option (list (option storage)) * option (list rmw_message_info_t) *
         SubscriptionData) :=
  stop_if (negb taken_output ||
           (negb (count =? 0) && (negb (bool_decide (is_Some messages)) ||
                                  negb (bool_decide (is_Some infos)))) ||
           (message_capacity <? count) || (info_capacity <? count))
    (RMW_RET_INVALID_ARGUMENT, messages, infos);;
  stop_if allocation (RMW_RET_UNSUPPORTED, messages, infos);;
  stop_if shutdown (RMW_RET_ERROR, messages, infos);;
  let available := Z.min count (history_size d) in
  if available =? 0 then Done (0, messages, infos, d)
  else
    if history_sample_slots d =? 0 then Fault else
    ms ← access messages;
    ns ← access infos;
    '(ms, ns) ← map_stop (fun '(ret, ms, ns) => (ret, Some ms, Some ns))
                  (take_loop d available ms ns);
    Done (available, Some ms, Some ns, consume d available).

(** ** Service samples *)

(** [rmw_service_info_t] *)
Record rmw_service_info_t : Set := {
  service_source_timestamp : Z;
  service_received_timestamp : Z;
  request_id : rmw_request_id_t;
}.

(** The envelope at the start of a sample. *)
Definition read_correlation {E} (sample : list Z) : outcome E rmw_request_id_t :=
  g ← access (mslice sample 0 gid_storage_size);
  sequence ← for_each (fun byte sequence =>
      b ← access (mload sample (gid_storage_size + byte));
      Done (Z.lor sequence (Z.shiftl b (byte * 8)))) (seqZ 0 8) 0;
  Done {| writer_guid := g; request_sequence := signed 64 sequence |}.

(** [take_service]; [accept] is the filter of the caller.  [taken = false] with a consumed
    sample is a sample the filter refused. *)
Definition take_service (d : SubscriptionData) (shutdown : bool) (info_output : bool)
    (ros_message : option storage) (taken_output : bool)
    (accept : option (rmw_request_id_t -> bool))
    : outcome (rmw_ret_t * option bool * option storage)
        (option rmw_service_info_t * storage * SubscriptionData) :=
  match ros_message with
  | None => Stop (RMW_RET_INVALID_ARGUMENT, None, None)
  | Some message =>
      stop_if (negb info_output || negb taken_output)
        (RMW_RET_INVALID_ARGUMENT, None, Some message);;
      stop_if (bool_decide (channel (setup d) = topic))
        (RMW_RET_INVALID_ARGUMENT, None, Some message);;
      stop_if shutdown (RMW_RET_ERROR, None, Some message);;
      if history_size d =? 0 then Done (None, message, d)
      else
        '(md, sample) ← sample_at d (history_head d);
        stop_if (serialized_size md <=? kServiceCorrelationSize)
          (RMW_RET_ERROR, Some false, Some message);;
        id ← read_correlation sample;
        if history_sample_slots d =? 0 then Fault else
        if match accept with Some f => negb (f id) | None => false end
        then Done (None, message, consume d 1)
        else
          let size := sub64 (serialized_size md) kServiceCorrelationSize in
          body ← access (mslice sample kServiceCorrelationSize size);
          message' ← map_stop (fun m => (RMW_RET_ERROR, Some false, Some m))
                       (decode_into (setup d) body size message);
          Done (Some {| service_source_timestamp := signed 64 (source_timestamp_ns md);
                        service_received_timestamp := signed 64 (received_timestamp_ns md);
                        request_id := id |}, message', consume d 1)
  end.
End Take.

End Subscription.
