(* ===== verification/SampleEndpoints.v ===== *)
(** * A publisher and a subscription on one topic

    The endpoints of [rmw_openrtdds_cpp/test/test_publisher.cpp] and
    [test_subscription.cpp], created by the modelled code with the C message type of
    [SampleTypes.v] and a KEEP_LAST depth of 2, and a request publisher. *)
From stdpp Require Import list.
From S2P Require Import Prelude Types Introspection SampleTypes TypeSupport CodecTheorems Qos Endpoint Publisher Subscription.

Module SampleEndpoints.
Import Types Introspection SampleTypes TypeSupport Endpoint.

Definition created {A} (r : outcome unit (option A)) : option A :=
  match r with Done o => o | _ => None end.

Definition sample_profile : Qos.rmw_qos_profile_t :=
  {| Qos.history := Qos.HISTORY_KEEP_LAST; Qos.depth := 2;
     Qos.reliability := Qos.RELIABILITY_RELIABLE; Qos.durability := Qos.DURABILITY_VOLATILE;
     Qos.deadline := Qos.kUnspecified; Qos.lifespan := Qos.kUnspecified;
     Qos.liveliness := Qos.LIVELINESS_AUTOMATIC;
     Qos.liveliness_lease_duration := Qos.kUnspecified;
     Qos.avoid_ros_namespace_conventions := false |}.

Definition c_info : TypeSupportInfo :=
  Eval vm_compute in
  match analyze_type_support (Some c_handle) Publisher.kMaximumSampleSize with
  | Done info => info
  | _ => {| language := introspection_c; maximum_serialized_size := 0; maximum_alignment := 1;
            maximum_nesting_depth := 0; dds_type_name := [] |}
  end.

Definition sample_plan (role : Qos.EndpointRole) : Qos.EndpointResourcePlan :=
  {| Qos.role := role; Qos.qos := {| Qos.profile := sample_profile |};
     Qos.maximum_serialized_sample_size := maximum_serialized_size c_info;
     Qos.history_sample_slots := 2;
     Qos.history_storage_bytes := 2 * maximum_serialized_size c_info;
     Qos.reliability_repair_slots := 2 |}.

Definition sample_names : DdsNames :=
  {| topic_name := text "rt/chatter"; type_name := text "codec_msgs::msg::dds_::Bounded_";
     ros_type_name := text "codec_msgs/msg/Bounded" |}.

Definition writer_prefix : GuidPrefix := [79; 82; 84; 68; 68; 83; 0; 0; 0; 0; 3; 232].
Definition reader_prefix : GuidPrefix := [79; 82; 84; 68; 68; 83; 0; 1; 0; 0; 3; 233].

Definition create_writer (ch : RosChannel) : option Publisher.PublisherData :=
  created (Publisher.create_publisher_data c_handle c_info sample_names ch
    (sample_plan Qos.publisher) writer_prefix 7411 0
    (replicate (Z.to_nat (Publisher.storage_sizes ch c_info 2).2) 0)).

Definition create_reader (ch : RosChannel) : option Subscription.SubscriptionData :=
  created (Subscription.create_subscription_data false c_handle c_info sample_names ch
    (sample_plan Qos.subscription) reader_prefix 7413 0
    (replicate (Z.to_nat (Subscription.storage_sizes ch c_info 2).2) 0)).

(** Creation succeeds on every channel. *)
Lemma create_writer_Some ch : is_Some (create_writer ch).
Proof. destruct ch; vm_compute; by eexists. Qed.

Lemma create_reader_Some ch : is_Some (create_reader ch).
Proof. destruct ch; vm_compute; by eexists. Qed.

Definition sample_writer (ch : RosChannel) : Publisher.PublisherData :=
  is_Some_proj (create_writer_Some ch).

Definition sample_reader (ch : RosChannel) : Subscription.SubscriptionData :=
  is_Some_proj (create_reader_Some ch).

Lemma c_info_ok :
  analyze_type_support (Some c_handle) Publisher.kMaximumSampleSize = Done c_info.
Proof. by vm_compute. Qed.

Lemma created_Some {A} (r : outcome unit (option A)) a :
  created r = Some a -> r = Done (Some a).
Proof. destruct r as [| |o]; simpl; [done..|]. by intros ->. Qed.

Lemma proj_Some {A} (o : option A) (h : is_Some o) : o = Some (is_Some_proj h).
Proof. destruct o; [done|]. by destruct (is_Some_None h). Qed.

Lemma sample_writer_created ch :
  Publisher.create_publisher_data c_handle c_info sample_names ch (sample_plan Qos.publisher)
    writer_prefix 7411 0 (replicate (Z.to_nat (Publisher.storage_sizes ch c_info 2).2) 0)
  = (Done (Some (sample_writer ch)) : outcome unit _).
Proof. apply created_Some. exact (proj_Some (create_writer ch) (create_writer_Some ch)). Qed.

Lemma sample_reader_created ch :
  Subscription.create_subscription_data false c_handle c_info sample_names ch
    (sample_plan Qos.subscription) reader_prefix 7413 0
    (replicate (Z.to_nat (Subscription.storage_sizes ch c_info 2).2) 0)
  = (Done (Some (sample_reader ch)) : outcome unit _).
Proof. apply created_Some. exact (proj_Some (create_reader ch) (create_reader_Some ch)). Qed.

(** The publisher with one message, the packet of it, and the subscription that received
    it. *)
Definition published_writer : Publisher.PublisherData :=
  match Publisher.rmw_publish (sample_writer topic) false (Some CodecTheorems.c_source) false
          (Some (10, 500)) with
  | Done w => w
  | _ => sample_writer topic
  end.

Definition sample_packet : list Z :=
  match Publisher.publisher_network_copy_next published_writer 0 (Some (replicate 128 0)) 128
  with
  | Done (_, size, Some buffer) => take (Z.to_nat size) buffer
  | _ => []
  end.

Definition received_reader : Subscription.SubscriptionData :=
  match Subscription.receive_data_message (sample_reader topic) false (Some sample_packet)
          (zlen sample_packet) 5 5 with
  | Done (_, d) => d
  | _ => sample_reader topic
  end.

Definition packet_bytes : list Z := Eval vm_compute in sample_packet.

Lemma sample_packet_bytes : sample_packet = packet_bytes.
Proof. by vm_compute. Qed.

Lemma sample_packet_ok : bytes_ok sample_packet.
Proof. rewrite sample_packet_bytes. repeat constructor; by vm_compute. Qed.

Lemma received_reader_eq r d :
  Subscription.receive_data_message (sample_reader topic) false (Some sample_packet)
    (zlen sample_packet) 5 5 = Done (r, d) -> received_reader = d.
Proof. unfold received_reader. by intros ->. Qed.

#[global] Opaque sample_writer sample_reader published_writer sample_packet received_reader.

End SampleEndpoints.
