(* ===== verification/PublisherFacts.v ===== *)
(** * Publishers keep and hand out what was published

    Facts about [Publisher.v]: the regions of the block of memory do not overlap, the
    history is the KEEP_LAST list of the published payloads, and the network thread reads
    from it, in order, the DATA messages of those payloads. *)
From stdpp Require Import list.
From S2P Require Import Prelude Types Bytes Cdr DataMessage Introspection TypeSupport TypeSupportFacts CodecSpec Xcdr1Codec CodecTheorems AnalysisLimit SampleRing Qos Endpoint Publisher SampleTypes SampleEndpoints.

Module PublisherFacts.
Import Types Introspection TypeSupport CodecSpec Codec CodecTheorems SampleRing Endpoint Publisher.

(** ** Invariant *)

(** The bytes in front of the message in a sample of the channel. *)
Definition envelope_size (ch : RosChannel) : Z :=
  if bool_decide (ch <> topic) then kServiceCorrelationSize else 0.

Section Runtime.
Context `{GeneratedTypes}.

Definition packet_capacity (s : PublisherSetup) : Z :=
  serialized_capacity s + kDataMessageOverhead.

Record setup_ok (s : PublisherSetup) : Prop := {
  se_prefix : length (participant_prefix s) = 12%nat;
  se_writer : length (writer_id s) = 4%nat;
  se_type : analyze_type_support (Some (type_support s)) kMaximumSampleSize
            = Done (type_info s);
  se_capacity : serialized_capacity s =
                maximum_serialized_size (type_info s) + envelope_size (channel s);
  se_staging : staging s = 0;
  se_message_staging : data_message_staging s = serialized_capacity s;
  se_message : data_message s = serialized_capacity s + packet_capacity s;
  se_history : history s = serialized_capacity s + packet_capacity s + packet_capacity s;
  se_slots : 0 < Qos.history_sample_slots (resources s) <= kMaximumHistoryDepth;
}.

(** The sample in slot [i] of the history. *)
Definition stored (s : PublisherSetup) (m : list Z) (mds : list PublisherSampleMetadata)
    : Z -> option (PublisherSampleMetadata * list Z) :=
  slot_at serialized_size (history s) (serialized_capacity s) m mds.

Definition oldest_index (d : PublisherData) : Z :=
  (history_next d - history_size d) mod history_sample_slots d.

(** [q] is the history, oldest sample first: payloads with consecutive sequence numbers. *)
Record publishes (d : PublisherData) (q : list (PublisherSampleMetadata * list Z)) : Prop := {
  pu_setup : setup_ok (setup d);
  pu_memory : zlen (memory d) =
    history (setup d) + history_sample_slots d * serialized_capacity (setup d);
  pu_metadata : zlen (history_metadata d) = kMaximumHistoryDepth;
  pu_next : 0 <= history_next d < history_sample_slots d;
  pu_size : history_size d = zlen q;
  pu_sequence : 1 <= next_sequence d <= i64_max;
  pu_ring : ring (history_sample_slots d) (oldest_index d)
              (stored (setup d) (memory d) (history_metadata d)) q;
  pu_numbers k md payload : mload q k = Some (md, payload) ->
    sequence_number md = next_sequence d - zlen q + k /\ 1 <= sequence_number md /\
    Data.payload_supported payload = true;
}.

(** ** Sizes *)

Lemma type_size s :
  setup_ok s -> kXcdr1EncapsulationSize <= maximum_serialized_size (type_info s) <= 65000.
Proof.
  intros Hs. pose proof (se_type s Hs) as Ht. unfold kMaximumSampleSize in Ht.
  pose proof (analyze_type_support_inv _ 65000 _ ltac:(lia) Ht)
    as (p & st & _ & _ & _ & [[Ho _ _ _] Hl _] & -> & _).
  unfold kXcdr1EncapsulationSize. simpl in Hl. lia.
Qed.

Lemma envelope_range ch : 0 <= envelope_size ch <= 24.
Proof. unfold envelope_size, kServiceCorrelationSize, gid_storage_size. case_bool_decide; lia. Qed.

(** The layout with its numbers. *)
Lemma setup_sizes s :
  setup_ok s ->
  let n := maximum_serialized_size (type_info s) in
  4 <= n <= 65000 /\ 0 <= envelope_size (channel s) <= 24 /\
  serialized_capacity s = n + envelope_size (channel s) /\ staging s = 0 /\
  data_message_staging s = serialized_capacity s /\
  data_message s = 2 * serialized_capacity s + 44 /\
  history s = 3 * serialized_capacity s + 88 /\
  0 < Qos.history_sample_slots (resources s) <= 1024.
Proof.
  intros Hs. pose proof (type_size s Hs) as Hn. pose proof (envelope_range (channel s)) as He.
  unfold kXcdr1EncapsulationSize in Hn.
  destruct Hs as [_ _ _ Hc H1 H2 H3 H4 H5]. unfold packet_capacity, kDataMessageOverhead,
    kMaximumHistoryDepth in *. lia.
Qed.

(** A write below the history leaves the samples alone. *)
Lemma stored_scratch s m m' i src mds j :
  setup_ok s -> mcopy m i src = Some m' -> i + zlen src <= history s -> 0 <= j ->
  stored s m' mds j = stored s m mds j.
Proof.
  intros Hs Hm Hb Hj. pose proof (setup_sizes s Hs) as Hz. cbv zeta in Hz.
  eapply slot_at_other; [done|done|done|lia].
Qed.

(** The publisher after such writes. *)
Definition scratched (d d' : PublisherData) : Prop :=
  setup d' = setup d /\ length (memory d') = length (memory d) /\
  history_metadata d' = history_metadata d /\ history_size d' = history_size d /\
  history_next d' = history_next d /\ next_sequence d' = next_sequence d /\
  (forall j, 0 <= j -> stored (setup d) (memory d') (history_metadata d) j =
                       stored (setup d) (memory d) (history_metadata d) j).

Lemma scratched_refl d : scratched d d.
Proof. by split_and!. Qed.

Lemma scratched_memory d m m' i src :
  setup_ok (setup d) -> scratched d (set_memory d m) -> mcopy m i src = Some m' ->
  i + zlen src <= history (setup d) -> scratched d (set_memory d m').
Proof.
  intros Hs (_ & Hl & _ & _ & _ & _ & Hst) Hm Hb. simpl in *.
  split_and!; try done; simpl.
  - by rewrite (mcopy_length _ _ _ _ Hm).
  - intros j Hj. rewrite <- (Hst j Hj). by eapply stored_scratch.
Qed.

Lemma scratched_publishes d d' q : scratched d d' -> publishes d q -> publishes d' q.
Proof.
  intros (Hs & Hl & Hm & Hz & Hn & Hq & Hst) [P1 P2 P3 P4 P5 P6 P7 P8].
  assert (history_sample_slots d' = history_sample_slots d) as Hslots
    by (unfold history_sample_slots; by rewrite Hs).
  split; rewrite ?Hslots, ?Hs, ?Hl, ?Hm, ?Hz, ?Hn, ?Hq; try done.
  unfold oldest_index. rewrite Hslots, Hz, Hn.
  eapply ring_ext; [|exact P7|]; [lia|]. intros i Hi. apply Hst. lia.
Qed.

(** ** Staging *)

(** The XCDR1 payload of a message. *)
Definition encoded (vs : list Cdr.cdr_value) : list Z := Cdr.payload_bytes little_endian vs.

Lemma encoded_supported vs : Data.payload_supported (encoded vs) = true.
Proof. done. Qed.

Lemma stage_message_spec d q msg p :
  publishes d q -> data (type_support (setup d)) = Some p ->
  laid_out (language (type_info (setup d))) analysis_fuel p msg ->
  let off := envelope_size (channel (setup d)) in
  match message_values (language (type_info (setup d))) analysis_fuel p msg with
  | Some vs =>
      exists m, stage_message d msg off = Done (zlen (encoded vs), m) /\
        scratched d (set_memory d m) /\
        mslice m off (zlen (encoded vs)) = Some (encoded vs) /\
        zlen (encoded vs) <= maximum_serialized_size (type_info (setup d)) /\
        Forall Cdr.value_ok vs
  | None => exists d', stage_message d msg off = Stop (RMW_RET_ERROR, d') /\ scratched d d'
  end.
Proof.
  intros Hpub Hp Hlaid off. pose proof (pu_setup _ _ Hpub) as Hs.
  pose proof (setup_sizes _ Hs) as Hz. cbv zeta in Hz. fold off in Hz.
  pose proof (pu_memory _ _ Hpub) as Hmem. unfold history_sample_slots in Hmem.
  set (s := setup d) in *. set (n := maximum_serialized_size (type_info s)) in *.
  assert (0 <= Qos.history_sample_slots (resources s) * serialized_capacity s) by nia.
  unfold stage_message. fold s n. replace (staging s + off) with off by lia.
  destruct (proj2 (mslice_is_Some (memory d) off n)) as [region Hregion]; [lia|].
  rewrite Hregion. cbn [access mbind outcome_bind].
  pose proof (mslice_length _ _ _ _ Hregion) as Hlen.
  assert (analyze_type_support (Some (type_support s)) n = Done (type_info s)) as Han.
  { eapply AnalysisLimit.analyze_any_limit; [|apply Hs|]; unfold kMaximumSampleSize; lia. }
  pose proof (serialize_outcome (type_support s) p region (type_info s) msg codec_little_endian)
    as Hser. rewrite Hlen in Hser.
  specialize (Hser ltac:(lia) Hp ltac:(by right) Han Hlaid).
  destruct (message_values _ _ p msg) as [vs|].
  - destruct Hser as (-> & Hfit & Hok). cbn [access mbind outcome_bind]. fold (encoded vs) in *.
    change (Cdr.payload_bytes (cdr_order codec_little_endian) vs) with (encoded vs) in *.
    set (out := encoded vs ++ drop (length (encoded vs)) region).
    assert (zlen out = n) as Hout by (unfold out; rewrite length_app, length_drop; lia).
    destruct (proj2 (mcopy_is_Some (memory d) off out)) as [m Hm]; [lia|].
    rewrite Hm. cbn [access mbind outcome_bind]. exists m. split; [done|]. split.
    + eapply (scratched_memory d (memory d)); [done|by split_and!|done|fold s; lia].
    + split_and!; try done; [|lia].
      rewrite (mslice_mcopy_prefix _ _ _ _ _ Hm) by lia. unfold out.
      by rewrite Nat2Z.id, take_app_length.
  - destruct Hser as (e & k & b & -> & Hb & _). cbn [access mbind outcome_bind].
    destruct (proj2 (mcopy_is_Some (memory d) off b)) as [m Hm]; [lia|].
    rewrite Hm. cbn [access mbind outcome_bind]. eexists. split; [done|].
    eapply (scratched_memory d (memory d)); [done|by split_and!|done|fold s; lia].
Qed.

(** ** Emitting *)

Lemma publisher_config_ok s n :
  setup_ok s -> 0 <= n < 2 ^ 64 -> Data.config_ok (data_config s n).
Proof. intros [] Hn. by split. Qed.

Lemma data_config_buildable s n payload capacity :
  1 <= n <= i64_max -> 44 + zlen payload <= 65507 ->
  Data.buildable (data_config s n) payload capacity =
  Data.payload_supported payload && (44 + zlen payload <=? capacity).
Proof.
  intros Hn Hp. unfold Data.buildable. cbn [data_config Data.cfg_sequence_number].
  rewrite (proj2 (Z.leb_le 1 n)), (proj2 (Z.leb_le n i64_max)), (proj2 (Z.leb_le _ 65507)) by lia.
  change (supported_version _) with true. change (supported_byte_order _) with true.
  cbn [andb]. by rewrite !andb_true_r.
Qed.

(** The DATA message is built in its staging area exactly for payloads with an
    encapsulation header. *)
Lemma emit_built d q m payload clock :
  publishes d q -> scratched d (set_memory d m) ->
  mslice m 0 (zlen payload) = Some payload ->
  4 <= zlen payload <= serialized_capacity (setup d) -> next_sequence d < i64_max ->
  let message := Data.data_message_bytes (data_config (setup d) (next_sequence d)) payload in
  exists m', scratched d (set_memory d m') /\
    mslice m' 0 (zlen payload) = Some payload /\
    if Data.payload_supported payload then
      mslice m' (data_message_staging (setup d)) (44 + zlen payload) = Some message /\
      emit_sample d m (zlen payload) clock =
      match timestamp_now clock with
      | None => Stop (RMW_RET_ERROR, set_memory d m')
      | Some timestamp =>
          store_sample (set_memory d m') m' (zlen payload) (44 + zlen payload) timestamp
      end
    else emit_sample d m (zlen payload) clock = Stop (RMW_RET_ERROR, set_memory d m').
Proof.
  intros Hpub Hscr Hpay Hcap Hmax message. pose proof (pu_setup _ _ Hpub) as Hs.
  pose proof (setup_sizes _ Hs) as Hz. cbv zeta in Hz.
  pose proof (pu_memory _ _ Hpub) as Hmem. unfold history_sample_slots in Hmem.
  pose proof (pu_sequence _ _ Hpub) as Hseq. unfold i64_max in *.
  set (s := setup d) in *.
  assert (0 <= Qos.history_sample_slots (resources s) * serialized_capacity s) by nia.
  destruct (Hscr) as (_ & Hl & _). cbn [memory set_memory] in Hl.
  unfold emit_sample, i64_max. fold s.
  destruct (Z.leb_spec (2 ^ 63 - 1) (next_sequence d)); [lia|]. cbn [stop_if mbind outcome_bind].
  unfold kDataMessageOverhead. rewrite add64_id by lia.
  destruct (proj2 (mslice_is_Some m (data_message_staging s) (serialized_capacity s + 44)))
    as [out Hout]; [lia|].
  rewrite Hout. cbn [access mbind outcome_bind]. replace (staging s) with 0 by lia.
  rewrite Hpay. cbn [access mbind outcome_bind]. apply mslice_length in Hout.
  pose proof (publisher_config_ok s (next_sequence d) Hs ltac:(lia)) as Hcfg.
  pose proof (Data.build_cases (Data.DataMessageBuilder_new (Some out) (serialized_capacity s + 44))
    out (data_config s (next_sequence d)) payload ltac:(split_and!; simpl; (done || lia)) Hcfg ltac:(lia))
    as Hb. cbv zeta in Hb. fold message in Hb.
  pose proof (Data.data_message_length _ payload Hcfg eq_refl) as Hmsg. fold message in Hmsg.
  assert (Data.buildable (data_config s (next_sequence d)) payload
    (Data.capacity_ (Data.DataMessageBuilder_new (Some out) (serialized_capacity s + 44)))
    = Data.payload_supported payload) as Hbe.
  { cbn [Data.capacity_ Data.DataMessageBuilder_new].
    rewrite data_config_buildable, (proj2 (Z.leb_le _ _)) by (unfold i64_max; lia).
    apply andb_true_r. }
  rewrite Hbe in Hb.
  assert (forall b', length b' = length out -> exists m', mcopy m (data_message_staging s) b' = Some m'
    /\ scratched d (set_memory d m') /\ mslice m' 0 (zlen payload) = Some payload) as Hback.
  { intros b' Hb'. destruct (proj2 (mcopy_is_Some m (data_message_staging s) b')) as [m' Hm'];
      [lia|]. exists m'. split; [done|]. split.
    - eapply scratched_memory; [done..|]. fold s. lia.
    - rewrite <- Hpay. eapply mslice_mcopy_disjoint; [done|lia]. }
  destruct (Data.payload_supported payload).
  - rewrite Hb. cbn [Data.buffer_ Data.size_ access mbind outcome_bind].
    destruct (Hback (message ++ drop (length message) out)) as (m' & Hm' & Hscr' & Hp').
    { rewrite length_app, length_drop. lia. }
    exists m'. split_and!; try done.
    + rewrite (mslice_mcopy_prefix _ _ _ _ _ Hm') by (rewrite length_app, length_drop; lia).
      f_equal. apply take_app_length'. lia.
    + rewrite Hm'. cbn [access mbind outcome_bind]. by rewrite Hmsg.
  - destruct Hb as (e & _ & ->). cbn [Data.buffer_ access mbind outcome_bind].
    destruct (Hback out eq_refl) as (m' & -> & Hscr' & Hp'). by exists m'.
Qed.

(** ** Storing *)

(** The ring indices of the history. *)
Lemma oldest_index_end n next size :
  0 < n -> ((next - size) mod n + size) mod n = next mod n.
Proof. intros Hn. rewrite Z.add_mod_idemp_l by lia. f_equal. lia. Qed.

Lemma oldest_index_next n next size :
  0 < n -> 0 <= size <= n ->
  ((next + 1) mod n - (if size <? n then size + 1 else size)) mod n =
  if size <? n then (next - size) mod n else ((next - size) mod n + 1) mod n.
Proof.
  intros Hn Hs. rewrite Zminus_mod_idemp_l. destruct (Z.ltb_spec size n); [f_equal; lia|].
  rewrite Z.add_mod_idemp_l by lia. f_equal. lia.
Qed.

Lemma store_sample_spec d q payload message timestamp :
  publishes d q -> Data.payload_supported payload = true ->
  mslice (memory d) 0 (zlen payload) = Some payload ->
  mslice (memory d) (data_message_staging (setup d)) (zlen message) = Some message ->
  zlen payload <= serialized_capacity (setup d) ->
  zlen message <= packet_capacity (setup d) -> next_sequence d < i64_max ->
  let md := {| sequence_number := next_sequence d; source_timestamp_ns := timestamp;
               serialized_size := zlen payload |} in
  exists d', store_sample d (memory d) (zlen payload) (zlen message) timestamp = Done d' /\
    publishes d' (keep_last (history_sample_slots d) q (md, payload)) /\
    setup d' = setup d /\ next_sequence d' = next_sequence d + 1 /\
    last_sample d' = md /\ data_message_size d' = zlen message /\
    mslice (memory d') (data_message (setup d)) (zlen message) = Some message.
Proof.
  intros Hpub Hsup Hpay Hmsg Hcap Hpacket Hmax md.
  pose proof (pu_setup _ _ Hpub) as Hs. pose proof (setup_sizes _ Hs) as Hz. cbv zeta in Hz.
  destruct Hpub as [_ Hmem Hmds Hnext Hsize Hseq Hring Hnum].
  unfold packet_capacity, kDataMessageOverhead, kMaximumHistoryDepth, i64_max in *.
  unfold store_sample. set (s := setup d) in *. set (n := history_sample_slots d) in *.
  change (Qos.history_sample_slots (resources s)) with n in Hz.
  replace (staging s) with 0 by lia. rewrite Hpay. cbn [access mbind outcome_bind].
  destruct (proj2 (mcopy_is_Some (memory d) (history s + history_next d * serialized_capacity s)
    payload)) as [m1 Hm1]; [nia|].
  rewrite Hm1. cbn [access mbind outcome_bind].
  assert (mslice m1 (data_message_staging s) (zlen message) = Some message) as Hmsg1.
  { rewrite <- Hmsg. eapply mslice_mcopy_disjoint; [done|nia]. }
  rewrite Hmsg1. cbn [access mbind outcome_bind].
  pose proof (mcopy_length _ _ _ _ Hm1) as Hl1.
  destruct (proj2 (mcopy_is_Some m1 (data_message s) message)) as [m2 Hm2]; [nia|].
  rewrite Hm2. cbn [access mbind outcome_bind].
  pose proof (mcopy_length _ _ _ _ Hm2) as Hl2.
  destruct (proj2 (mstore_is_Some (history_metadata d) (history_next d) md)) as [mds Hmds'];
    [lia|].
  fold md. rewrite Hmds'. cbn [access mbind outcome_bind].
  destruct (Z.eqb_spec n 0); [lia|]. eexists. split; [done|].
  cbn [setup next_sequence last_sample data_message_size memory].
  pose proof (ring_size _ _ _ _ Hring) as Hq. rewrite (add64_id (next_sequence d)) by lia.
  split; [|split_and!; try done; by rewrite (mslice_mcopy_same _ _ _ _ Hm2)].
  assert (forall i, 0 <= i < n -> stored s m2 mds i =
    if i =? (oldest_index d + zlen q) mod n then Some (md, payload)
    else stored s (memory d) (history_metadata d) i) as Hst.
  { intros i Hi. rewrite (stored_scratch s m1 m2 _ _ mds i Hs Hm2) by (fold s; lia).
    unfold oldest_index. rewrite Hsize, oldest_index_end, (Z.mod_small (history_next d)) by lia.
    apply (slot_at_store serialized_size (history s) (serialized_capacity s) (memory d) m1);
      (done || lia). }
  apply (ring_keep_last n ltac:(lia) _ _ _ q (md, payload) Hring) in Hst.
  assert ((history_size d <? n) = (zlen q <? n)) as Hroom by (by rewrite Hsize).
  assert ((if history_size d <? n then add64 (history_size d) 1 else history_size d) =
    if zlen q <? n then zlen q + 1 else zlen q) as Hsize'.
  { rewrite Hroom, Hsize. destruct (Z.ltb_spec (zlen q) n); [rewrite add64_id|]; lia. }
  rewrite Hsize', (add64_id (history_next d)) by lia.
  pose proof (keep_last_length n ltac:(lia) q (md, payload) Hq) as Hkl.
  split; cbn [setup memory history_metadata history_next history_size next_sequence];
    change (history_sample_slots _) with n; fold s.
  - done.
  - lia.
  - by rewrite (mstore_length _ _ _ _ Hmds').
  - apply Z.mod_pos_bound. lia.
  - rewrite Hkl. destruct (Z.ltb_spec (zlen q) n); lia.
  - unfold i64_max. lia.
  - unfold oldest_index at 1. cbn [history_next history_size].
    change (history_sample_slots _) with n. rewrite oldest_index_next by lia.
    unfold oldest_index in Hst. by rewrite Hsize in Hst.
  - intros k md' payload' Hk. apply keep_last_load in Hk as [[-> [= -> ->]]|(j & Hj & Hk)]; [..|lia|done].
    + simpl. split_and!; [lia..|done].
    + apply Hnum in Hj as (? & ? & ?). split_and!; [lia..|done].
Qed.

(** ** Publishing on a topic *)

Lemma publish_outcome d q msg p clock :
  publishes d q -> channel (setup d) = topic -> data (type_support (setup d)) = Some p ->
  laid_out (language (type_info (setup d))) analysis_fuel p msg ->
  match publish_sample d false (Some msg) None clock with
  | Fault => False
  | Stop (ret, d') =>
      ret = RMW_RET_ERROR /\ scratched d d' /\
      (message_values (language (type_info (setup d))) analysis_fuel p msg = None \/
       next_sequence d = i64_max \/ timestamp_now clock = None)
  | Done d' =>
      exists vs timestamp,
        let md := {| sequence_number := next_sequence d; source_timestamp_ns := timestamp;
                     serialized_size := zlen (encoded vs) |} in
        let message :=
          Data.data_message_bytes (data_config (setup d) (next_sequence d)) (encoded vs) in
        message_values (language (type_info (setup d))) analysis_fuel p msg = Some vs /\
        Forall Cdr.value_ok vs /\
        zlen (encoded vs) <= maximum_serialized_size (type_info (setup d)) /\
        timestamp_now clock = Some timestamp /\ next_sequence d < i64_max /\
        publishes d' (keep_last (history_sample_slots d) q (md, encoded vs)) /\
        setup d' = setup d /\ next_sequence d' = next_sequence d + 1 /\
        last_sample d' = md /\ data_message_size d' = zlen message /\
        mslice (memory d') (data_message (setup d)) (zlen message) = Some message
  end.
Proof.
  intros Hpub Hch Hp Hlaid. pose proof (pu_setup _ _ Hpub) as Hs.
  pose proof (setup_sizes _ Hs) as Hz. cbv zeta in Hz.
  pose proof (pu_sequence _ _ Hpub) as Hseq.
  pose proof (stage_message_spec d q msg p Hpub Hp Hlaid) as Hstage. cbv zeta in Hstage.
  unfold envelope_size in *. unfold publish_sample. rewrite Hch in *.
  rewrite bool_decide_false in * by naive_solver.
  rewrite bool_decide_false by (by intros [? [=]]). cbn [xorb stop_if mbind outcome_bind] in *.
  destruct (message_values _ _ p msg) as [vs|].
  2:{ destruct Hstage as (d' & -> & Hscr). cbn. by split_and!; [..|left]. }
  destruct Hstage as (m & -> & Hscr & Hslice & Hlen & Hok). cbn [mbind outcome_bind].
  assert (4 <= zlen (encoded vs)) as H4.
  { unfold encoded, Cdr.payload_bytes. rewrite length_app.
    change (length (Cdr.header_bytes little_endian)) with 4%nat. lia. }
  rewrite add64_id by lia. rewrite Z.add_0_l.
  destruct (decide (next_sequence d = i64_max)) as [Hm|Hm].
  { unfold emit_sample. rewrite Hm, Z.leb_refl. cbn. split_and!; [done..|right; by left]. }
  destruct (emit_built d q m (encoded vs) clock Hpub Hscr Hslice ltac:(lia) ltac:(lia))
    as (m' & Hscr' & Hslice' & Hem).
  rewrite encoded_supported in Hem. destruct Hem as [Hmsg ->].
  destruct (timestamp_now clock) as [t|]; [|by split_and!; [..|right; right]].
  set (message := Data.data_message_bytes _ _) in *.
  assert (44 + zlen (encoded vs) = zlen message) as Hml.
  { symmetry. apply Data.data_message_length; [|done].
    apply publisher_config_ok; [done|unfold i64_max in *; lia]. }
  rewrite Hml in *.
  destruct (store_sample_spec (set_memory d m') q (encoded vs) message t) as (d' & Hst & Hrest).
  - by eapply scratched_publishes.
  - apply encoded_supported.
  - done.
  - done.
  - cbn [setup set_memory]. lia.
  - unfold packet_capacity, kDataMessageOverhead. cbn [setup set_memory]. lia.
  - cbn [next_sequence set_memory]. lia.
  - cbn [memory set_memory] in Hst. rewrite Hst. exists vs, t. cbv zeta. split_and!; try apply Hrest;
      try done. lia.
Qed.

(** C13: publishing on a topic, on every branch: with a valid publisher and a message laid
    out as its type asks, [publish_sample] succeeds exactly when the context is active, the
    message has values, sequence numbers are left and the clock can be read; it then adds
    the message's encoding under the next sequence number to the KEEP_LAST history and
    leaves the DATA message of it behind.  Otherwise it returns [RMW_RET_ERROR] and history
    and sequence number are as before. *)
Theorem publish_exact d q msg p shutdown clock :
  publishes d q -> channel (setup d) = topic -> data (type_support (setup d)) = Some p ->
  laid_out (language (type_info (setup d))) analysis_fuel p msg ->
  match publish_sample d shutdown (Some msg) None clock with
  | Fault => False
  | Stop (ret, d') =>
      ret = RMW_RET_ERROR /\ publishes d' q /\ next_sequence d' = next_sequence d /\
      (shutdown = true \/ next_sequence d = i64_max \/ timestamp_now clock = None \/
       message_values (language (type_info (setup d))) analysis_fuel p msg = None)
  | Done d' =>
      shutdown = false /\ next_sequence d < i64_max /\
      exists vs timestamp,
        let md := {| sequence_number := next_sequence d; source_timestamp_ns := timestamp;
                     serialized_size := zlen (encoded vs) |} in
        let config :=
          {| Data.cfg_version := {| major := 2; minor := 3 |}; Data.cfg_vendor_id := [1; 66];
             Data.cfg_guid_prefix := participant_prefix (setup d);
             Data.cfg_reader_id := [0; 0; 0; 0]; Data.cfg_writer_id := writer_id (setup d);
             Data.cfg_sequence_number := next_sequence d;
             Data.cfg_byte_order := little_endian |} in
        let message := Data.data_message_bytes config (encoded vs) in
        message_values (language (type_info (setup d))) analysis_fuel p msg = Some vs /\
        timestamp_now clock = Some timestamp /\
        publishes d' (keep_last (history_sample_slots d) q (md, encoded vs)) /\
        next_sequence d' = next_sequence d + 1 /\
        mslice (memory d') (data_message (setup d)) (zlen message) = Some message
  end.
Proof.
  intros Hpub Hch Hp Hlaid. destruct shutdown.
  { unfold publish_sample. rewrite Hch, bool_decide_false by naive_solver.
    rewrite bool_decide_false by (by intros [? [=]]). cbn. naive_solver. }
  pose proof (publish_outcome d q msg p clock Hpub Hch Hp Hlaid) as Ho.
  destruct (publish_sample _ _ _ _ _) as [|[ret d']|d']; [done|..].
  - destruct Ho as (-> & Hscr & Hwhy). pose proof (scratched_publishes _ _ _ Hscr Hpub).
    destruct Hscr as (_ & _ & _ & _ & _ & Hn & _). naive_solver.
  - naive_solver.
Qed.

(** ** Service samples *)

(** The envelope of a service sample. *)
Definition correlation (id : rmw_request_id_t) : list Z :=
  writer_guid id ++ ((fun i => u8 (Z.shiftr (u64 (request_sequence id)) (i * 8))) <$> seqZ 0 8).

Lemma correlation_length id :
  length (writer_guid id) = 16%nat -> zlen (correlation id) = kServiceCorrelationSize.
Proof. intros Hg. unfold correlation. rewrite length_app, Hg. done. Qed.

Lemma write_correlation_spec {E} m id :
  length (writer_guid id) = 16%nat -> 24 <= zlen m ->
  exists m', write_correlation m 0 id = (Done m' : outcome E _) /\
    mcopy m 0 (correlation id) = Some m'.
Proof.
  intros Hg Hm. unfold write_correlation, gid_storage_size, correlation.
  assert (mslice (writer_guid id) 0 16 = Some (writer_guid id)) as ->.
  { replace 16 with (zlen (writer_guid id)) by (rewrite Hg; done). apply mslice_full. }
  cbn [access mbind outcome_bind]. rewrite mcopy_start by lia. cbn [access mbind outcome_bind].
  set (bytes := _ <$> seqZ 0 8). rewrite (for_each_ext _
    (fun j m => access (mstore m (16 + j) (u8 (Z.shiftr (u64 (request_sequence id)) (j * 8)))))).
  2:{ intros i s _. do 2 f_equal. }
  rewrite (for_each_mstore _ 0 8) by (rewrite ?length_app, ?length_drop; lia). fold bytes.
  assert (length bytes = 8%nat) as Hb by done.
  rewrite (mcopy_snoc (writer_guid id)) by (rewrite ?length_drop; lia).
  rewrite mcopy_start by (rewrite length_app; lia). eexists. split; [done|].
  rewrite length_app, drop_drop. done.
Qed.

(** A service sample whose client GUID starts with a nonzero byte is never published:
    its payload starts with the GUID, where the DATA message wants an encapsulation header.
    [publish_sample] returns [RMW_RET_ERROR] and the history stays as it was. *)
Lemma service_sample_refused d q msg p id clock :
  publishes d q -> channel (setup d) <> topic -> data (type_support (setup d)) = Some p ->
  laid_out (language (type_info (setup d))) analysis_fuel p msg ->
  length (writer_guid id) = 16%nat -> head (writer_guid id) <> Some 0 ->
  exists d', publish_sample d false (Some msg) (Some id) clock = Stop (RMW_RET_ERROR, d') /\
    scratched d d'.
Proof.
  intros Hpub Hch Hp Hlaid Hg Hhead. pose proof (pu_setup _ _ Hpub) as Hs.
  pose proof (setup_sizes _ Hs) as Hz. cbv zeta in Hz.
  pose proof (pu_memory _ _ Hpub) as Hmem. unfold history_sample_slots in Hmem.
  assert (0 <= Qos.history_sample_slots (resources (setup d)) * serialized_capacity (setup d)) by nia.
  pose proof (stage_message_spec d q msg p Hpub Hp Hlaid) as Hstage. cbv zeta in Hstage.
  unfold publish_sample. rewrite (bool_decide_true (is_Some _)) by done.
  assert (envelope_size (channel (setup d)) = 24) as Henv
    by (unfold envelope_size; by rewrite bool_decide_true).
  rewrite Henv in *. rewrite bool_decide_true by done. cbn [xorb stop_if mbind outcome_bind].
  change kServiceCorrelationSize with 24.
  destruct (message_values _ _ p msg) as [vs|].
  2:{ destruct Hstage as (d' & -> & Hscr). by exists d'. }
  destruct Hstage as (m & -> & Hscr & Hslice & Hlen & Hok). cbn [mbind outcome_bind].
  destruct (Hscr) as (_ & Hml & _). cbn [memory set_memory] in Hml.
  replace (staging (setup d)) with 0 by lia.
  destruct (write_correlation_spec (E := rmw_ret_t * PublisherData) m id Hg)
    as (m1 & -> & Hm1); [lia|].
  cbn [mbind outcome_bind]. rewrite add64_id by lia.
  pose proof (correlation_length id Hg) as Hcl. change kServiceCorrelationSize with 24 in Hcl.
  assert (scratched d (set_memory d m1)) as Hscr1
    by (eapply scratched_memory; [done..|lia]).
  assert (zlen (correlation id ++ encoded vs) = 24 + zlen (encoded vs)) as Hpl
    by (rewrite length_app; lia).
  assert (mslice m1 0 (24 + zlen (encoded vs)) = Some (correlation id ++ encoded vs)) as Hp1.
  { apply mslice_split; [lia..|rewrite <- Hcl; by apply (mslice_mcopy_same m)|].
    rewrite <- Hslice. eapply mslice_mcopy_disjoint; [done|lia]. }
  destruct (decide (next_sequence d = i64_max)) as [Hm|Hm].
  { unfold emit_sample. rewrite Hm, Z.leb_refl. by eexists. }
  pose proof (pu_sequence _ _ Hpub) as Hseq.
  rewrite <- Hpl in *.
  destruct (emit_built d q m1 (correlation id ++ encoded vs) clock Hpub Hscr1 Hp1 ltac:(lia)
    ltac:(lia)) as (m2 & Hscr2 & _ & Hem).
  assert (Data.payload_supported (correlation id ++ encoded vs) = false) as Hsup.
  { unfold correlation. rewrite <- app_assoc.
    destruct (writer_guid id) as [|b [|? [|? [|? ?]]]]; simpl in *; try done.
    destruct (Z.eqb_spec b 0); [congruence|done]. }
  rewrite Hsup in Hem. rewrite Hem. by eexists.
Qed.

(** ** What the network reads *)

(** The first retained sample behind [after]. *)
Definition next_after (after : Z) (q : list (PublisherSampleMetadata * list Z))
    : option (nat * (PublisherSampleMetadata * list Z)) :=
  list_find (fun x => after < sequence_number x.1) q.

Definition selection (d : PublisherData) (after : Z)
    (q : list (PublisherSampleMetadata * list Z)) : Z * Z :=
  match next_after after q with
  | Some (k, (md, _)) =>
      ((oldest_index d + Z.of_nat k) mod history_sample_slots d, sequence_number md)
  | None => (history_sample_slots d, size_max)
  end.

Lemma select_next_spec {E} d q after :
  publishes d q ->
  select_next d (oldest_index d) after = (Done (selection d after q) : outcome E _).
Proof.
  intros Hpub. unfold select_next. rewrite (pu_size _ _ Hpub).
  set (body := fun (offset : Z) '(selected, selected_sequence) => _).
  assert (forall l pre, q = pre ++ l ->
    for_each body (seqZ (zlen pre) (zlen l)) (selection d after pre) =
    (Done (selection d after q) : outcome E _)) as Hloop; [|by apply (Hloop q [])].
  induction l as [|[md payload] l IH]; intros pre Hq.
  { rewrite app_nil_r in Hq. by subst q. }
  rewrite (seqZ_cons (zlen pre)) by (simpl; lia). cbn [for_each].
  assert (mload q (zlen pre) = Some (md, payload)) as Hload.
  { rewrite Hq, mload_app_r, Z.sub_diag by lia. done. }
  assert (zlen pre < zlen q) as Hlt by (rewrite Hq, length_app; simpl; lia).
  pose proof (ring_holds _ _ _ _ (pu_ring _ _ Hpub) _ _ Hload) as Hst.
  apply slot_at_size in Hst as (Hmd & _). apply (pu_numbers _ _ Hpub) in Hload.
  pose proof (pu_sequence _ _ Hpub) as Hseq. unfold i64_max in Hseq.
  assert (body (zlen pre) (selection d after pre) =
    (Done (selection d after (pre ++ [(md, payload)])) : outcome E _)) as ->.
  { unfold body, selection. destruct (next_after after pre) as [[k [md0 p0]]|] eqn:Hf.
    - rewrite Hmd. cbn [access mbind outcome_bind].
      unfold next_after in *. rewrite (list_find_app_l _ _ _ _ _ Hf).
      apply list_find_Some in Hf as (Hk & _ & _).
      assert (mload q (Z.of_nat k) = Some (md0, p0)) as Hfirst.
      { apply mload_Some. rewrite Nat2Z.id, Hq. split; [lia|]. by apply lookup_app_l_Some. }
      apply (pu_numbers _ _ Hpub) in Hfirst. apply lookup_lt_Some in Hk.
      destruct (Z.ltb_spec (sequence_number md) (sequence_number md0)); [lia|].
      by rewrite andb_false_r.
    - rewrite Hmd. cbn [access mbind outcome_bind]. unfold next_after in *.
      rewrite list_find_app_r by done. cbn [list_find].
      destruct (Z.ltb_spec after (sequence_number md)); cbn [andb].
      + rewrite decide_True by done. unfold size_max.
        destruct (Z.ltb_spec (sequence_number md) (2 ^ 64 - 1)); [|lia].
        cbn. by do 3 f_equal.
      + rewrite decide_False by (cbn; lia). done. }
  cbn [mbind outcome_bind]. specialize (IH (pre ++ [(md, payload)])).
  rewrite <- app_assoc, length_app in IH. cbn [app length] in IH.
  specialize (IH Hq). rewrite <- IH. f_equal. f_equal; simpl; lia.
Qed.

(** [publisher_network_copy_next] on every branch. *)
Lemma copy_next_spec d q after packet capacity :
  publishes d q -> 0 <= capacity <= zlen packet -> capacity < 2 ^ 64 ->
  publisher_network_copy_next d after (Some packet) capacity =
  match next_after after q with
  | None => Stop (Some packet)
  | Some (_, (md, payload)) =>
      let message :=
        Data.data_message_bytes (data_config (setup d) (sequence_number md)) payload in
      if zlen message <=? capacity
      then Done (sequence_number md, zlen message,
                 Some (message ++ drop (length message) packet))
      else Stop (Some packet)
  end.
Proof.
  intros Hpub Hcap H64. unfold publisher_network_copy_next.
  rewrite bool_decide_false by done. cbn [stop_if mbind outcome_bind].
  pose proof (pu_setup _ _ Hpub) as Hs. pose proof (setup_sizes _ Hs) as Hz. cbv zeta in Hz.
  change (Qos.history_sample_slots (resources (setup d))) with (history_sample_slots d) in Hz.
  pose proof (pu_size _ _ Hpub) as Hsize. pose proof (ring_size _ _ _ _ (pu_ring _ _ Hpub)) as Hq.
  pose proof (pu_next _ _ Hpub) as Hn.
  destruct (Z.eqb_spec (history_size d) 0) as [Hzero|Hzero]; cbn [stop_if mbind outcome_bind].
  { destruct q; [done|]. simpl in Hsize. lia. }
  destruct (Z.eqb_spec (history_sample_slots d) 0); [lia|].
  rewrite add64_id, sub64_id by lia.
  replace ((history_next d + history_sample_slots d - history_size d) mod history_sample_slots d)
    with (oldest_index d).
  2:{ unfold oldest_index.
      replace (history_next d + history_sample_slots d - history_size d)
        with (history_next d - history_size d + 1 * history_sample_slots d) by lia.
      by rewrite Z.mod_add by lia. }
  rewrite (select_next_spec d q) by done. unfold selection.
  destruct (next_after after q) as [[k [md payload]]|] eqn:Hf; cbn [mbind outcome_bind].
  2:{ by rewrite Z.eqb_refl. }
  pose proof (Z.mod_pos_bound (oldest_index d + Z.of_nat k) (history_sample_slots d)).
  destruct (Z.eqb_spec ((oldest_index d + Z.of_nat k) mod history_sample_slots d)
    (history_sample_slots d)); [lia|]. cbn [stop_if mbind outcome_bind].
  unfold next_after in Hf. apply list_find_Some in Hf as (Hk & _ & _).
  assert (mload q (Z.of_nat k) = Some (md, payload)) as Hload.
  { apply mload_Some. rewrite Nat2Z.id. split; [lia|done]. }
  pose proof (ring_holds _ _ _ _ (pu_ring _ _ Hpub) _ _ Hload) as Hst.
  apply slot_at_size in Hst as (Hmd & Hpsize & Hfit & Hslice).
  apply (pu_numbers _ _ Hpub) in Hload as (Hnum & Hone & Hsup).
  pose proof (pu_sequence _ _ Hpub) as Hseq. unfold i64_max in *. apply lookup_lt_Some in Hk.
  rewrite Hmd. cbn [access mbind outcome_bind].
  rewrite Hpsize, Hslice. cbn [access mbind outcome_bind]. cbv zeta.
  assert (Data.config_ok (data_config (setup d) (sequence_number md))) as Hcfg
    by (apply publisher_config_ok; [done|lia]).
  pose proof (Data.build_cases (Data.DataMessageBuilder_new (Some packet) capacity) packet _
    payload ltac:(split_and!; simpl; (done || lia)) Hcfg ltac:(lia)) as Hb. cbv zeta in Hb.
  pose proof (Data.data_message_length _ payload Hcfg eq_refl) as Hml.
  cbn [Data.capacity_ Data.DataMessageBuilder_new] in Hb.
  rewrite data_config_buildable, Hsup in Hb by (unfold i64_max; lia). cbn [andb] in Hb.
  rewrite Hml in *.
  destruct (Z.leb_spec (44 + zlen payload) capacity).
  - rewrite Hb. done.
  - destruct Hb as (e & _ & ->). done.
Qed.

(** ** Creation *)

Lemma storage_sizes_spec ch info slots :
  4 <= maximum_serialized_size info <= 65000 -> 0 < slots <= 1024 ->
  let capacity := maximum_serialized_size info + envelope_size ch in
  storage_sizes ch info slots =
  (capacity, capacity + 44, 3 * capacity + 88 + slots * capacity).
Proof.
  intros Hn Hs capacity. pose proof (envelope_range ch) as He.
  assert ((if bool_decide (ch <> topic)
           then default 0 (checked_add (maximum_serialized_size info) kServiceCorrelationSize)
           else maximum_serialized_size info) = capacity) as Hc.
  { unfold capacity, envelope_size, kServiceCorrelationSize, gid_storage_size in *.
    case_bool_decide; [|lia]. rewrite checked_add_spec by lia.
    destruct (Z.ltb_spec (maximum_serialized_size info + (16 + 8)) (2 ^ 64)); simpl; lia. }
  assert (4 <= capacity <= 65024) as Hcap by (unfold capacity; lia).
  unfold storage_sizes. rewrite Hc. clear Hc. clearbody capacity.
  destruct (Z.eqb_spec capacity 0); [lia|]. unfold kDataMessageOverhead.
  assert (forall x y, 0 <= x <= 2 ^ 40 -> 0 <= y <= 2 ^ 40 -> checked_add x y = Some (x + y))
    as Hadd.
  { intros x y Hx Hy. rewrite checked_add_spec by lia.
    destruct (Z.ltb_spec (x + y) (2 ^ 64)); [done|lia]. }
  rewrite !Hadd by lia. cbn [mbind option_bind]. rewrite Hadd by lia. cbn [mbind option_bind].
  unfold size_max. destruct (Z.ltb_spec ((2 ^ 64 - 1) / capacity) slots) as [Hlt|_].
  { pose proof (Z.div_le_lower_bound (2 ^ 64 - 1) capacity 1024 ltac:(lia) ltac:(lia)). lia. }
  rewrite mul64_id by nia. rewrite Hadd by nia. unfold default, from_option, id. f_equal. lia.
Qed.

(** A new publisher over a block of the computed size has an empty history. *)
Lemma create_publisher_publishes {E} ts info dds_names ch plan prefix port slot storage d :
  analyze_type_support (Some ts) kMaximumSampleSize = Done info ->
  0 < Qos.history_sample_slots plan <= kMaximumHistoryDepth -> length prefix = 12%nat ->
  zlen storage = (storage_sizes ch info (Qos.history_sample_slots plan)).2 ->
  create_publisher_data ts info dds_names ch plan prefix port slot storage
    = (Done (Some d) : outcome E _) ->
  publishes d [] /\ channel (setup d) = ch /\ type_support (setup d) = ts /\
  participant_prefix (setup d) = prefix /\ gid (setup d) = prefix ++ writer_id (setup d) /\
  writer_id (setup d) = writer_id_of slot /\ type_info (setup d) = info.
Proof.
  intros Han Hslots Hprefix Hst Hc. unfold kMaximumHistoryDepth, kMaximumSampleSize in *.
  pose proof (analyze_type_support_inv _ 65000 _ ltac:(lia) Han)
    as (p & st & _ & _ & _ & [[Ho _ _ _] Hl _] & Hm & _). simpl in Hl.
  unfold create_publisher_data in Hc. rewrite storage_sizes_spec in Hc, Hst by lia.
  rewrite make_gid_spec in Hc by done. cbn [mbind outcome_bind snd] in *.
  apply bind_Done_inv in Hc as ([[buffer size]|] & _ & [= <-]).
  cbn [setup channel type_support participant_prefix gid writer_id type_info].
  split_and!; try done. pose proof (envelope_range ch) as He.
  split; cbn [setup memory history_metadata history_next history_size next_sequence
    serialized_capacity history]; unfold history_sample_slots; cbn [setup resources].
  - split; cbn [setup serialized_capacity staging data_message_staging data_message history
      resources participant_prefix writer_id type_support type_info channel];
      unfold packet_capacity, kDataMessageOverhead, kMaximumHistoryDepth;
      cbn [serialized_capacity]; (done || lia).
  - lia.
  - reflexivity.
  - lia.
  - done.
  - unfold i64_max. lia.
  - apply ring_empty; [lia|]. unfold oldest_index. apply Z.mod_pos_bound.
    unfold history_sample_slots. cbn [setup resources]. lia.
  - intros k md payload [_ Hk]%mload_Some. done.
Qed.
End Runtime.

(** ** On the endpoints of the tests *)

Import SampleTypes SampleEndpoints.

Lemma sample_publishes ch :
  publishes (sample_writer ch) [] /\ channel (setup (sample_writer ch)) = ch /\
  type_support (setup (sample_writer ch)) = c_handle /\
  type_info (setup (sample_writer ch)) = c_info /\
  participant_prefix (setup (sample_writer ch)) = writer_prefix /\
  writer_id (setup (sample_writer ch)) = writer_id_of 0.
Proof.
  destruct (create_publisher_publishes (E := unit) c_handle c_info sample_names ch
    (sample_plan Qos.publisher) writer_prefix 7411 0
    (replicate (Z.to_nat (storage_sizes ch c_info 2).2) 0) (sample_writer ch))
    as (Hp & Hc & Ht & Hx & _ & Hw & Hi); [apply c_info_ok|done|done|..|by split_and!].
  - rewrite length_replicate, Z2Nat.id; [done|]. destruct ch; by vm_compute.
  - apply sample_writer_created.
Qed.

Lemma publish_exact_witness :
  exists d' md bytes,
    publish_sample (sample_writer topic) false (Some c_source) None (Some (10, 500)) = Done d' /\
    publishes d' [(md, bytes)] /\ sequence_number md = 1 /\
    source_timestamp_ns md = 10000000500 /\ next_sequence d' = 2.
Proof.
  destruct (sample_publishes topic) as (Hp & Hc & Ht & Hi & _).
  pose proof (publish_exact (sample_writer topic) [] c_source 1 false (Some (10, 500)) Hp Hc) as Ho.
  rewrite Ht, Hi in Ho. specialize (Ho eq_refl ltac:(by apply c_message_laid)).
  assert (match publish_sample (sample_writer topic) false (Some c_source) None (Some (10, 500)) with
    | Done _ => True | _ => False end) as Hd by (by vm_compute).
  assert (next_sequence (sample_writer topic) = 1) as Hn by (by vm_compute).
  assert (history_sample_slots (sample_writer topic) = 2) as Hslots by (by vm_compute).
  set (r := publish_sample _ _ _ _ _) in *.
  destruct r as [|[? ?]|d']; [exfalso; exact Ho|exfalso; exact Hd|].
  destruct Ho as (_ & _ & vs & t & _ & [= <-] & Hpub & Hnext & _). rewrite Hn, Hslots in *.
  eexists d', _, _. split; [reflexivity|]. split; [exact Hpub|].
  split; [reflexivity|]. split; [reflexivity|exact Hnext].
Defined.

End PublisherFacts.
