(* ===== verification/SubscriptionFacts.v ===== *)
(** * Subscriptions queue and hand out what was received

    Facts about [Subscription.v]: whatever bytes arrive, a subscription stays consistent;
    its table of writers is a finite map from global identifiers to the last accepted
    sequence number, its ring is a KEEP_LAST queue, and a take returns the queue's head. *)
From stdpp Require Import list gmap.
From S2P Require Import Prelude Types Bytes Cdr MessageRouter DataMessage Introspection TypeSupport TypeSupportFacts CodecSpec Xcdr1Codec CodecTheorems AnalysisLimit SampleRing Qos Endpoint Publisher Subscription SampleTypes SampleEndpoints PublisherFacts.

Module SubscriptionFacts.
Import Types Introspection TypeSupport CodecSpec Codec CodecTheorems SampleRing Endpoint Subscription.

(** ** The source of a routed message *)

(** The prefixes the router hands out are twelve bytes long. *)
Definition sourced (s : Router.route_state) : Prop :=
  length (Router.ctx_source (Router.rs_context s)) = 12%nat /\
  length (Router.source_guid_prefix (Router.rs_candidate s)) = 12%nat.

Lemma slice_length {A} (m : list A) i n s : mslice m i n = Some s -> length s = Z.to_nat n.
Proof. intros Hs%mslice_length. lia. Qed.

Lemma apply_info_sourced id flags order c n ctx ctx' :
  Router.apply_info id flags order c n ctx = Done ctx' ->
  length (Router.ctx_source ctx) = 12%nat -> length (Router.ctx_source ctx') = 12%nat.
Proof.
  unfold Router.apply_info. intros Ha Hc. repeat case_match; inv_done; try done; simpl.
  match goal with H : mslice _ 8 12 = Some _ |- _ => by apply slice_length in H end.
Qed.

Lemma route_loop_sourced message n wid wocc fuel : forall s s',
  Router.route_loop fuel message n wid wocc s = Done s' -> sourced s -> sourced s'.
Proof.
  induction fuel as [|fuel IH]; intros s s'; simpl; (case_match; [|by intros [= <-]]); [done|].
  intros ([t ext] & Hstep & Hrest)%bind_Done_inv [Hc Hv].
  assert (sourced t) as Ht.
  { unfold Router.route_step in Hstep. cbv zeta in Hstep. inv_done.
    destruct (if _ =? 0 then _ else _) as [cs e]. inv_done.
    split; simpl; [by eapply apply_info_sourced|]. by destruct (_ && _). }
  destruct ext; [by simplify_eq|]. by eapply IH.
Qed.

Lemma parse_body_prefix message n v :
  Data.parse_body message n = Done v -> length (Data.guid_prefix v) = 12%nat.
Proof.
  unfold Data.parse_body. rewrite Data.find_submessage_checked.
  intros (routed & Hr%map_stop_Done & Hc)%bind_Done_inv.
  assert (length (Router.source_guid_prefix routed) = 12%nat) as Hl.
  { unfold Router.find_submessage_body in Hr. inv_done.
    match goal with H : Router.route_loop _ _ _ _ _ _ = Done _ |- _ =>
      apply route_loop_sourced in H as [_ Hs] end; [done|]. split; simpl; [|done].
    match goal with H : mslice _ 8 12 = Some _ |- _ => by apply slice_length in H end. }
  unfold Data.parse_content in Hc. cbv zeta in Hc. by inv_done.
Qed.

(** ** The table of writers *)

Definition entry_of (g : list Z) (state : WriterState) : Prop :=
  occupied state = true /\ guid state = g.

#[local] Instance entry_of_dec g state : Decision (entry_of g state).
Proof. unfold entry_of. apply _. Defined.

Definition last_seen (l : list WriterState) (g : list Z) : option Z :=
  last_sequence ∘ snd <$> list_find (entry_of g) l.

Definition first_free (l : list WriterState) : option Z :=
  Z.of_nat ∘ fst <$> list_find (fun state => occupied state = false) l.

Definition known_writers (l : list WriterState) : nat :=
  length (filter (fun state => occupied state = true) l).

Lemma find_writer_spec g l : forall k free,
  match list_find (entry_of g) l with
  | Some (i, _) => (find_writer g k free l).1 = Some (k + Z.of_nat i)
  | None => find_writer g k free l =
      (None, match free with Some _ => free | None => Z.add k <$> first_free l end)
  end.
Proof.
  induction l as [|state l IH]; intros k free; simpl; [by destruct free|].
  unfold first_free in *. cbn [list_find]. destruct (occupied state) eqn:Ho; simpl.
  - case_bool_decide as Hg.
    + rewrite decide_True by done. simpl. f_equal. lia.
    + rewrite decide_False by (unfold entry_of; naive_solver).
      specialize (IH (k + 1) free). destruct (list_find (entry_of g) l) as [[i st]|]; simpl.
      * rewrite IH. f_equal. lia.
      * rewrite IH. destruct free; [done|]. f_equal.
        destruct (list_find _ l) as [[j ?]|]; simpl; [|done]. f_equal. lia.
  - rewrite decide_False by (intros [? _]; congruence).
    specialize (IH (k + 1) (match free with None => Some k | _ => free end)).
    destruct (list_find (entry_of g) l) as [[i st]|]; simpl.
    + rewrite IH. f_equal. lia.
    + rewrite IH. destruct free; [done|]. simpl. do 2 f_equal. lia.
Qed.

(** Overwriting an entry with one of the writer [g]: either [g]'s first, or a free one when
    [g] has none. *)
Lemma last_seen_store l i old g n g' :
  l !! i = Some old ->
  (list_find (entry_of g) l = Some (i, old)) \/
  (list_find (entry_of g) l = None /\ occupied old = false) ->
  last_seen (<[i := {| guid := g; last_sequence := n; occupied := true |}]> l) g' =
  if decide (g' = g) then Some n else last_seen l g'.
Proof.
  intros Hi Hold. set (new := {| guid := g; last_sequence := n; occupied := true |}).
  unfold last_seen. case_decide as Hg.
  - subst g'. assert (list_find (entry_of g) (<[i:=new]> l) = Some (i, new)) as ->; [|done].
    apply list_find_insert_Some. right; left. split_and!; [done..| |done|].
    + by eapply lookup_lt_Some.
    + intros j z Hj Hlt. destruct Hold as [(_ & _ & Hf)%list_find_Some|[Hf _]].
      * by eapply Hf.
      * rewrite list_find_None in Hf. rewrite Forall_lookup in Hf. by eapply Hf.
  - f_equal. assert (~ entry_of g' new) as Hnew by (intros [_ Hd]; simpl in Hd; congruence).
    assert (~ entry_of g' old) as Hno.
    { destruct Hold as [(_ & [_ Hd] & _)%list_find_Some|[_ Hf]]; intros [? Hd']; congruence. }
    apply option_eq. intros [j y]. rewrite list_find_insert_Some. split.
    + intros [[_ ?]|[(-> & <- & _ & ? & _)|[(_ & _ & ? & _)|(z & _ & _ & _ & Hz & Hl & _)]]];
        [done|done|done|]. rewrite Hi in Hl. injection Hl as ->. done.
    + intros Hf. pose proof Hf as (Hj & Hy & _)%list_find_Some.
      destruct (decide (j = i)) as [->|Hne]; [rewrite Hi in Hj; naive_solver|].
      destruct (decide (j < i)%nat); [by left|right; right; left].
      split_and!; [lia|done..|]. intros z Hz. rewrite Hi in Hz. by injection Hz as <-.
Qed.

Lemma known_writers_store l i old new :
  l !! i = Some old -> occupied new = true ->
  known_writers (<[i := new]> l) = (known_writers l + if occupied old then 0 else 1)%nat.
Proof.
  intros Hi Hn. unfold known_writers. rewrite insert_take_drop by (by eapply lookup_lt_Some).
  rewrite <- (take_drop_middle l i old Hi) at 3.
  rewrite !filter_app, !filter_cons, !length_app, decide_True by done. simpl.
  destruct (occupied old); [rewrite decide_True by done|rewrite decide_False by done]; simpl; lia.
Qed.

(** A table without a free entry is full. *)
Lemma first_free_None l : first_free l = None <-> known_writers l = length l.
Proof.
  unfold first_free, known_writers. rewrite fmap_None, list_find_None. split.
  - induction 1 as [|x l Hx Hl IH]; [done|]. rewrite filter_cons.
    rewrite decide_True by (by destruct (occupied x)). simpl. by rewrite IH.
  - intros Hl. rewrite Forall_forall. intros x Hx Ho.
    pose proof (length_filter_lt (fun state => occupied state = true) l x Hx) as Hlt.
    specialize (Hlt ltac:(simpl; congruence)). lia.
Qed.

(** ** Invariant *)

Section Runtime.
Context `{GeneratedTypes}.

Record setup_ok (s : SubscriptionSetup) : Prop := {
  su_type : analyze_type_support (Some (type_support s)) Publisher.kMaximumSampleSize
            = Done (type_info s);
  su_capacity : serialized_capacity s =
                maximum_serialized_size (type_info s) +
                PublisherFacts.envelope_size (channel s);
  su_slots : 0 < Qos.history_sample_slots (resources s) <= Publisher.kMaximumHistoryDepth;
}.

Definition sample : Type := SubscriptionSampleMetadata * list Z.

(** The sample in slot [i] of the history. *)
Definition stored (d : SubscriptionData) : Z -> option sample :=
  slot_at serialized_size 0 (serialized_capacity (setup d)) (history d) (history_metadata d).

(** [q] is the queue, oldest sample first, and [seen] holds the last sequence number
    accepted from each known writer: samples of one writer are queued in the order of their
    sequence numbers, and reception numbers are consecutive. *)
Record queues (d : SubscriptionData) (q : list sample) (seen : gmap (list Z) Z) : Prop := {
  qu_setup : setup_ok (setup d);
  qu_memory : zlen (history d) = history_sample_slots d * serialized_capacity (setup d);
  qu_metadata : zlen (history_metadata d) = Publisher.kMaximumHistoryDepth;
  qu_size : history_size d = zlen q;
  qu_ring : ring (history_sample_slots d) (history_head d) (stored d) q;
  qu_writers : zlen (writers d) = kWriterStateCapacity;
  qu_seen g : seen !! g = last_seen (writers d) g;
  qu_known : size seen = known_writers (writers d);
  qu_count : observed_writer_count d = Z.of_nat (size seen);
  qu_reception : 1 <= next_reception_sequence d <= size_max;
  qu_samples k md payload : mload q k = Some (md, payload) ->
    reception_sequence_number md = next_reception_sequence d - zlen q + k /\
    bytes_ok payload /\ Data.payload_supported payload = true /\
    exists n, seen !! publisher_gid md = Some n /\ publication_sequence_number md <= n;
  qu_order j k x y : mload q j = Some x -> mload q k = Some y -> j < k ->
    publisher_gid x.1 = publisher_gid y.1 ->
    publication_sequence_number x.1 < publication_sequence_number y.1;
}.

Lemma subscription_sizes s :
  setup_ok s ->
  let n := maximum_serialized_size (type_info s) in
  4 <= n <= 65000 /\ 0 <= PublisherFacts.envelope_size (channel s) <= 24 /\
  serialized_capacity s = n + PublisherFacts.envelope_size (channel s) /\
  0 < Qos.history_sample_slots (resources s) <= 1024.
Proof.
  intros Hs. pose proof (PublisherFacts.envelope_range (channel s)) as He.
  destruct Hs as [Ht Hc Hn]. unfold Publisher.kMaximumSampleSize, Publisher.kMaximumHistoryDepth in *.
  pose proof (analyze_type_support_inv _ 65000 _ ltac:(lia) Ht)
    as (p & st & _ & _ & _ & [[Ho _ _ _] Hl _] & Hm & _). simpl in Hl. cbv zeta. lia.
Qed.

Lemma known_bound d q seen : queues d q seen -> (size seen <= 16)%nat.
Proof.
  intros Hq. rewrite (qu_known _ _ _ Hq). pose proof (qu_writers _ _ _ Hq) as Hw.
  unfold kWriterStateCapacity in Hw. unfold known_writers.
  etransitivity; [apply length_filter|]. lia.
Qed.

(** ** Storing *)

(** The table entry [store_sample] writes. *)
Definition entry_for (d : SubscriptionData) (g : list Z) (entry : Z) (new : bool) : Prop :=
  exists old, mload (writers d) entry = Some old /\
    if new then list_find (entry_of g) (writers d) = None /\ occupied old = false
    else list_find (entry_of g) (writers d) = Some (Z.to_nat entry, old).

Lemma store_entry d q seen g entry new n :
  queues d q seen -> entry_for d g entry new ->
  exists old table, mload (writers d) entry = Some old /\
    mstore (writers d) entry
      {| guid := if new then g else guid old; last_sequence := n;
         occupied := new || occupied old |} = Some table /\
    zlen table = kWriterStateCapacity /\
    (forall g', <[g := n]> seen !! g' = last_seen table g') /\
    size (<[g := n]> seen) = known_writers table /\
    size (<[g := n]> seen) = (size seen + if new then 1 else 0)%nat.
Proof.
  intros Hq (old & Hold & Hnew). exists old.
  pose proof (proj1 (mload_is_Some _ _) (mk_is_Some _ _ Hold)) as Hr.
  pose proof (qu_writers _ _ _ Hq) as Hw.
  set (st := {| guid := _; last_sequence := n; occupied := _ |}).
  assert (st = {| guid := g; last_sequence := n; occupied := true |}) as Hst.
  { unfold st. destruct new; [done|]. apply list_find_Some in Hnew as (_ & [-> ->] & _). done. }
  exists (<[Z.to_nat entry := st]> (writers d)). apply mload_Some in Hold as [_ Hold].
  split; [apply mload_Some; split; [lia|done]|]. split.
  { unfold mstore. by rewrite (proj2 (Z.leb_le 0 _)), (proj2 (Z.ltb_lt _ _)) by lia. }
  split; [by rewrite length_insert|]. rewrite Hst.
  assert (size (<[g := n]> seen) = (size seen + if new then 1 else 0)%nat) as Hsize.
  { destruct new.
    - rewrite map_size_insert_None, Nat.add_1_r; [done|]. rewrite (qu_seen _ _ _ Hq). unfold last_seen.
      by rewrite (proj1 Hnew).
    - rewrite map_size_insert_Some, Nat.add_0_r; [done|]. rewrite (qu_seen _ _ _ Hq). unfold last_seen.
      rewrite Hnew. by eexists. }
  split_and!; [| |done].
  - intros g'. rewrite (last_seen_store _ _ old); [|done|].
    + case_decide as Hg; [subst g'; apply lookup_insert_eq|].
      rewrite lookup_insert_ne by congruence. apply Hq.
    + destruct new; [by right|by left].
  - rewrite Hsize, (known_writers_store _ _ old), (qu_known _ _ _ Hq) by done. f_equal.
    destruct new; [by rewrite (proj2 Hnew)|].
    apply list_find_Some in Hnew as (_ & [-> _] & _). done.
Qed.

Lemma store_received {E} d q seen g entry new n source received payload :
  queues d q seen -> entry_for d g entry new ->
  (forall last, seen !! g = Some last -> last < n) ->
  bytes_ok payload -> Data.payload_supported payload = true ->
  zlen payload <= serialized_capacity (setup d) -> next_reception_sequence d < size_max ->
  let md := {| publisher_gid := g; publication_sequence_number := n;
               reception_sequence_number := next_reception_sequence d;
               source_timestamp_ns := source; received_timestamp_ns := received;
               serialized_size := zlen payload |} in
  exists d',
    store_sample d g entry new n source received payload =
      (Done (d', negb (zlen q <? history_sample_slots d)) : outcome E _) /\
    queues d' (keep_last (history_sample_slots d) q (md, payload)) (<[g := n]> seen) /\
    setup d' = setup d /\ next_reception_sequence d' = next_reception_sequence d + 1.
Proof.
  intros Hq Hentry Hlast Hbytes Hsup Hcap Hmax md. pose proof (known_bound _ _ _ Hq) as H16.
  destruct (store_entry _ _ _ _ _ _ n Hq Hentry)
    as (old & table & Hold & Htable & Hwl & Hseen & Hknown & Hsize).
  destruct Hq as [Hs Hmem Hmds Hsz Hring _ _ _ Hcount Hrec Hsam Hord].
  pose proof (subscription_sizes _ Hs) as Hz. cbv zeta in Hz.
  unfold Publisher.kMaximumHistoryDepth, size_max in *. unfold store_sample. cbv zeta.
  set (s := setup d) in *. set (slots := history_sample_slots d) in *.
  change (Qos.history_sample_slots (resources s)) with slots in Hz.
  pose proof (ring_head _ _ _ _ Hring) as Hhead. pose proof (ring_size _ _ _ _ Hring) as Hql.
  destruct (Z.eqb_spec slots 0); [lia|]. rewrite Hsz, (add64_id (history_head d) (zlen q)) by lia.
  assert ((if zlen q <? slots then (history_head d + zlen q) mod slots else history_head d)
    = (history_head d + zlen q) mod slots) as ->.
  { destruct (Z.ltb_spec (zlen q) slots); [done|]. replace (zlen q) with slots by lia.
    by rewrite ring_wrap by lia. }
  set (index := (history_head d + zlen q) mod slots).
  assert (0 <= index < slots) as Hi by (apply Z.mod_pos_bound; lia).
  destruct (proj2 (mcopy_is_Some (history d) (index * serialized_capacity s) payload))
    as [memory Hm]; [nia|]. rewrite Hm. cbn [access mbind outcome_bind]. fold md.
  destruct (proj2 (mstore_is_Some (history_metadata d) index md)) as [all Hall]; [lia|].
  rewrite Hall. cbn [access mbind outcome_bind]. rewrite Hold. cbn [access mbind outcome_bind].
  rewrite Htable. cbn [access mbind outcome_bind]. eexists. split; [done|].
  rewrite !(add64_id (next_reception_sequence d)) by lia.
  split; [|split; done].
  pose proof (keep_last_length slots ltac:(lia) q (md, payload) Hql) as Hkl.
  split; cbn [setup history history_metadata writers history_head history_size
    observed_writer_count next_reception_sequence];
    change (history_sample_slots _) with slots; fold s.
  - done.
  - by rewrite (mcopy_length _ _ _ _ Hm).
  - by rewrite (mstore_length _ _ _ _ Hall).
  - rewrite Hkl. destruct (Z.ltb_spec (zlen q) slots); [rewrite add64_id|]; lia.
  - rewrite (add64_id (history_head d)) by lia.
    apply (ring_keep_last slots ltac:(lia) _ (stored d)); [done|]. intros i Hir.
    unfold stored. cbn [setup history history_metadata]. fold s index.
    apply (slot_at_store serialized_size 0 (serialized_capacity s) (history d)); (done || lia).
  - done.
  - done.
  - done.
  - rewrite Hcount, Hsize. destruct new; [rewrite add64_id|]; lia.
  - unfold size_max. lia.
  - intros k md' payload' Hk.
    apply keep_last_load in Hk as [[-> [= -> ->]]|(j & Hj & Hk)]; [..|lia|done].
    + cbn [reception_sequence_number md publisher_gid publication_sequence_number].
      split_and!; [lia|done..|]. exists n. rewrite lookup_insert_eq. split; [done|lia].
    + apply Hsam in Hj as (Hr & Hb & Hsu & last & Hg & Hle). split_and!; [lia|done..|].
      destruct (decide (publisher_gid md' = g)) as [Heq|Hne].
      * exists n. rewrite Heq, lookup_insert_eq in *. split; [done|].
        specialize (Hlast _ Hg). lia.
      * exists last. by rewrite lookup_insert_ne by congruence.
  - intros j k x y Hj Hk Hlt Hg.
    apply keep_last_load in Hj as [[-> ->]|(j' & Hj & Hje)];
      [| |lia|done]; apply keep_last_load in Hk as [[-> ->]|(k' & Hk & Hke)]; try done; try lia.
    + pose proof (proj1 (mload_is_Some _ _) (mk_is_Some _ _ Hk)). lia.
    + destruct x as [mdx px]. apply Hsam in Hj as (_ & _ & _ & last & Hgx & Hle).
      cbn [fst] in Hg |- *. cbn [publisher_gid md] in Hg. rewrite Hg in Hgx.
      specialize (Hlast _ Hgx). cbn [publication_sequence_number md]. lia.
    + apply (Hord j' k'); (done || lia).
Qed.

(** ** Receiving *)

(** What becomes of a message: the specification in terms of the map of known writers. *)
Inductive verdict : Set :=
  | refuse (e : SubscriptionReceiveError) (r : Data.RtpsError)
  | pass_local
  | pass_stale
  | admit_sample.

(** A writer with a participant prefix and the entity kind of a user's writer. *)
Definition user_writer_id (id : EntityId) : Prop :=
  match id with
  | [e0; e1; e2; kind] => ~ (e0 = 0 /\ e1 = 0 /\ e2 = 0) /\ (kind = 2 \/ kind = 3)
  | _ => False
  end.

#[global] Instance user_writer_id_dec id : Decision (user_writer_id id).
Proof. unfold user_writer_id. repeat case_match; apply _. Defined.

Definition user_writer (view : Data.DataMessageView) : Prop :=
  Exists (fun b => b <> 0) (Data.guid_prefix view) /\ user_writer_id (Data.writer_id view).

Definition addressed (s : SubscriptionSetup) (view : Data.DataMessageView) : Prop :=
  (Data.has_destination view = true ->
   Data.destination_guid_prefix view = participant_prefix s) /\
  (Data.reader_id view = Publisher.kUnknownReader \/ Data.reader_id view = reader_id s).

Definition gid_of (view : Data.DataMessageView) : list Z :=
  Data.guid_prefix view ++ Data.writer_id view.

#[global] Instance addressed_dec s view : Decision (addressed s view).
Proof. unfold addressed. apply _. Defined.

#[global] Instance user_writer_dec view : Decision (user_writer view).
Proof. unfold user_writer. apply _. Defined.

(** The time the sample is stamped with. *)
Definition source_time (view : Data.DataMessageView) (source : Z) : Z :=
  if source =? 0 then rtps_timestamp_ns view else source.

(** The checks that do not depend on what was received before. *)
Definition view_refusal (s : SubscriptionSetup) (source : Z) (view : Data.DataMessageView)
    : option SubscriptionReceiveError :=
  if decide (~ addressed s view) then Some wrong_reader
  else if decide (~ user_writer view) then Some invalid_writer
  else if serialized_capacity s <? Data.payload_size view then Some payload_too_large
  else if i64_max <? source_time view source then Some invalid_timestamp
  else None.

Definition judge_sample (s : SubscriptionSetup) (seen : gmap (list Z) Z) (next : Z)
    (view : Data.DataMessageView) : verdict :=
  if ignore_local_publications s && bool_decide (Data.guid_prefix view = participant_prefix s)
  then pass_local
  else if match seen !! gid_of view with
          | Some last => Data.sequence_number view <=? last
          | None => false
          end then pass_stale
  else if bool_decide (seen !! gid_of view = None) && (Z.of_nat (size seen) =? 16)
  then refuse writer_table_full Data.rtps_none
  else if next =? size_max then refuse reception_sequence_exhausted Data.rtps_none
  else admit_sample.

Definition judge (s : SubscriptionSetup) (seen : gmap (list Z) Z) (next : Z) (shutdown : bool)
    (message_size source received : Z) (parsed : outcome Data.RtpsError Data.DataMessageView)
    : verdict :=
  if message_size =? 0 then refuse receive_invalid_argument Data.rtps_none
  else if shutdown then refuse inactive_context Data.rtps_none
  else if (received =? 0) || (i64_max <? received) || (i64_max <? source)
  then refuse invalid_timestamp Data.rtps_none
  else match parsed with
       | Done view =>
           match view_refusal s source view with
           | Some e => refuse e Data.rtps_none
           | None => judge_sample s seen next view
           end
       | Stop e => refuse rtps_parse_failed e
       | Fault => refuse rtps_parse_failed Data.rtps_none
       end.

(** The metadata of a queued sample. *)
Definition metadata_of (view : Data.DataMessageView) (payload : list Z) (next source received : Z)
    : SubscriptionSampleMetadata :=
  {| publisher_gid := gid_of view; publication_sequence_number := Data.sequence_number view;
     reception_sequence_number := next; source_timestamp_ns := source_time view source;
     received_timestamp_ns := received; serialized_size := zlen payload |}.

Lemma nonzero_prefix_spec prefix :
  nonzero_prefix prefix = bool_decide (Exists (fun b => b <> 0) prefix).
Proof.
  unfold nonzero_prefix. apply eq_true_iff_eq. rewrite bool_decide_eq_true, existsb_exists.
  rewrite Exists_exists. setoid_rewrite negb_true_iff. setoid_rewrite Z.eqb_neq.
  by setoid_rewrite list_elem_of_In.
Qed.

Lemma valid_writer_id_spec {E} id :
  length id = 4%nat ->
  valid_writer_id id = (Done (bool_decide (user_writer_id id)) : outcome E bool).
Proof.
  intros Hl. destruct id as [|e0 [|e1 [|e2 [|kind [|]]]]]; try done. unfold valid_writer_id.
  transitivity (Done (negb (Z.lor (Z.lor e0 e1) e2 =? 0) && ((kind =? 2) || (kind =? 3)))
    : outcome E bool); [reflexivity|]. f_equal.
  apply eq_true_iff_eq. rewrite bool_decide_eq_true. cbn [user_writer_id].
  rewrite andb_true_iff, negb_true_iff, Z.eqb_neq, orb_true_iff, !Z.eqb_eq, !Z.lor_eq_0_iff.
  tauto.
Qed.

Lemma check_view_spec d view payload source :
  Data.data_view_ok view payload ->
  check_view d view source =
  match view_refusal (setup d) source view with
  | Some e => Stop (receive_result e Data.rtps_none)
  | None => Done (source_time view source)
  end.
Proof.
  intros Hv. pose proof (Data.dv_supported _ _ Hv) as Hsup. pose proof (Data.dv_size _ _ Hv) as Hsz.
  unfold check_view, view_refusal. cbv zeta.
  set (c := _ || (_ && _)). assert (c = bool_decide (~ addressed (setup d) view)) as ->.
  { destruct (decide (addressed (setup d) view)) as [Ha|Ha];
      [rewrite (bool_decide_false (~ _)) by tauto|rewrite (bool_decide_true (~ _)) by done];
      unfold c; unfold addressed in Ha; destruct (Data.has_destination view);
      repeat case_bool_decide; simpl; try done; exfalso; intuition done. }
  destruct (decide (~ addressed (setup d) view));
    [by rewrite bool_decide_true|rewrite bool_decide_false by done]. cbn [stop_if mbind outcome_bind].
  assert ((if nonzero_prefix (Data.guid_prefix view) then valid_writer_id (Data.writer_id view)
    else Done false) = (Done (bool_decide (user_writer view)) : outcome SubscriptionReceiveResult _))
    as ->.
  { rewrite nonzero_prefix_spec, valid_writer_id_spec by apply Hv. unfold user_writer.
    by repeat case_bool_decide; f_equal; naive_solver. }
  cbn [mbind outcome_bind]. destruct (decide (~ user_writer view));
    [by rewrite bool_decide_false|rewrite bool_decide_true by (by apply dec_stable)].
  cbn [negb stop_if mbind outcome_bind]. rewrite Hsz.
  destruct (Z.eqb_spec (zlen payload) 0) as [H0'|_].
  { destruct payload; [done|]. simpl in H0'. lia. }
  cbn [orb]. destruct (serialized_capacity (setup d) <? zlen payload); [done|].
  cbn [stop_if mbind outcome_bind]. change time_max with i64_max. fold (source_time view source).
  by destruct (i64_max <? source_time view source).
Qed.

(** The entry that [receive_view] picks. *)
Lemma find_writer_entry d q seen g :
  queues d q seen ->
  let '(writer, free) := find_writer g 0 None (writers d) in
  match seen !! g with
  | Some last => exists i state, writer = Some i /\ mload (writers d) i = Some state /\
      last_sequence state = last /\ entry_for d g i false
  | None => writer = None /\
      if Z.of_nat (size seen) =? 16 then free = None
      else exists i, free = Some i /\ entry_for d g i true
  end.
Proof.
  intros Hq. pose proof (find_writer_spec g (writers d) 0 None) as Hf.
  rewrite (qu_seen _ _ _ Hq g), (qu_known _ _ _ Hq). unfold last_seen.
  pose proof (qu_writers _ _ _ Hq) as Hw. unfold kWriterStateCapacity in Hw.
  destruct (list_find (entry_of g) (writers d)) as [[i state]|] eqn:He.
  - destruct (find_writer _ _ _ _) as [writer free]. cbn in *. exists (Z.of_nat i), state.
    pose proof He as (Hi & _)%list_find_Some.
    assert (mload (writers d) (Z.of_nat i) = Some state) as Hl.
    { apply mload_Some. rewrite Nat2Z.id. split; [lia|done]. }
    split_and!; try done. exists state. rewrite Nat2Z.id. done.
  - rewrite Hf. cbn [fmap option_fmap option_map]. split; [done|].
    pose proof (first_free_None (writers d)) as Hfree.
    destruct (Z.eqb_spec (Z.of_nat (known_writers (writers d))) 16) as [H16|H16].
    { rewrite (proj2 Hfree) by lia. done. }
    unfold first_free in *.
    destruct (list_find (fun state => occupied state = false) (writers d))
      as [[j old]|] eqn:Hfind.
    2:{ cbn in Hfree. destruct Hfree as [Hfree _]. specialize (Hfree eq_refl). lia. }
    exists (Z.of_nat j). split; [done|]. apply list_find_Some in Hfind as (Hj & Ho & _).
    exists old. split; [|done]. apply mload_Some. rewrite Nat2Z.id. split; [lia|done].
Qed.

Lemma receive_view_spec d q seen view payload source received :
  queues d q seen -> Data.data_view_ok view payload ->
  length (Data.guid_prefix view) = 12%nat -> zlen payload <= serialized_capacity (setup d) ->
  let next := next_reception_sequence d in
  let slots := history_sample_slots d in
  let result accepted_ local_ stale_ dropped_ reception_ :=
    {| error := receive_none; rtps_error := Data.rtps_none; accepted := accepted_;
       ignored_local := local_; duplicate_or_stale := stale_; dropped_oldest := dropped_;
       result_publication := Data.sequence_number view; result_reception := reception_ |} in
  match judge_sample (setup d) seen next view with
  | refuse e r => receive_view d view (source_time view source) received
                  = Stop (receive_result e r)
  | pass_local => receive_view d view (source_time view source) received
                  = Done (result false true false false 0, d)
  | pass_stale => receive_view d view (source_time view source) received
                  = Done (result false false true false 0, d)
  | admit_sample => exists d', receive_view d view (source_time view source) received
                  = Done (result true false false (zlen q =? slots) next, d') /\
      queues d' (keep_last slots q (metadata_of view payload next source received, payload))
        (<[gid_of view := Data.sequence_number view]> seen) /\ setup d' = setup d
  end.
Proof.
  intros Hq Hv Hpre Hcap next slots result. unfold receive_view, judge_sample. cbv zeta.
  destruct (_ && bool_decide (_ = participant_prefix _)); [done|].
  rewrite make_gid_spec by (done || apply Hv). fold (gid_of view). cbn [mbind outcome_bind].
  pose proof (find_writer_entry d q seen (gid_of view) Hq) as Hf.
  destruct (find_writer _ _ _ _) as [writer free].
  assert (forall entry new, entry_for d (gid_of view) entry new ->
    (forall last, seen !! gid_of view = Some last -> last < Data.sequence_number view) ->
    next <> size_max -> writer = (if new then None else Some entry) ->
    exists d', (bytes ← access (Data.serialized_payload view);
      payload ← access (mslice bytes 0 (Data.payload_size view));
      '(d', dropped) ← store_sample d (gid_of view) entry (bool_decide (writer = None))
                         (Data.sequence_number view) (source_time view source) received payload;
      Done (result true false false dropped next, d')) =
      (Done (result true false false (zlen q =? slots) next, d') : outcome SubscriptionReceiveResult _) /\
      queues d' (keep_last slots q (metadata_of view payload next source received, payload))
        (<[gid_of view := Data.sequence_number view]> seen) /\ setup d' = setup d) as Hstore.
  { intros entry new Hentry Hlast Hmax Hw. rewrite (Data.dv_payload _ _ Hv), (Data.dv_size _ _ Hv).
    cbn [access mbind outcome_bind]. rewrite mslice_full. cbn [access mbind outcome_bind].
    assert (bool_decide (writer = None) = new) as -> by (subst writer; by destruct new).
    pose proof (qu_reception _ _ _ Hq) as Hr.
    destruct (store_received (E := SubscriptionReceiveResult) d q seen (gid_of view) entry new
      (Data.sequence_number view) (source_time view source) received payload Hq Hentry Hlast)
      as (d' & -> & Hq' & Hs' & _); [apply Hv..|done|fold next; lia|].
    exists d'. cbn [mbind outcome_bind]. split; [|done]. do 3 f_equal.
    pose proof (ring_size _ _ _ _ (qu_ring _ _ _ Hq)) as Hsz. fold slots in Hsz |- *.
    destruct (Z.ltb_spec (zlen q) slots), (Z.eqb_spec (zlen q) slots); (done || lia). }
  destruct (seen !! gid_of view) as [last|].
  - destruct Hf as (i & state & -> & Hload & Hlast & Hentry). rewrite bool_decide_false by done.
    cbn [mbind outcome_bind]. rewrite Hload. cbn [access mbind outcome_bind]. rewrite Hlast.
    destruct (Z.leb_spec (Data.sequence_number view) last); [done|].
    destruct (Z.eqb_spec next size_max) as [Hm|Hm]; fold next.
    { by rewrite Hm. }
    destruct (Z.eqb_spec next size_max); [done|]. cbn [andb stop_if mbind outcome_bind].
    apply (Hstore i false); [done| |done|done]. intros l [= <-]. lia.
  - destruct Hf as [-> Hf]. cbn [mbind outcome_bind]. rewrite bool_decide_true by done.
    destruct (Z.eqb_spec (Z.of_nat (size seen)) 16); [by rewrite Hf|].
    destruct Hf as (i & -> & Hentry). cbn [andb].
    destruct (Z.eqb_spec next size_max) as [Hm|Hm]; fold next.
    { by rewrite Hm. }
    destruct (Z.eqb_spec next size_max); [done|]. cbn [andb stop_if mbind outcome_bind].
    by apply (Hstore i true).
Qed.

Lemma receive_outcome d q seen bytes n shutdown source received :
  queues d q seen -> Router.message_ok (Some bytes) n ->
  let next := next_reception_sequence d in
  let parsed := Data.parse_body (Some bytes) n in
  match judge (setup d) seen next shutdown n source received parsed with
  | refuse e r =>
      receive_data_message d shutdown (Some bytes) n source received
      = Stop (receive_result e r)
  | pass_local =>
      exists r, receive_data_message d shutdown (Some bytes) n source received = Done (r, d) /\
        ignored_local r = true /\ accepted r = false
  | pass_stale =>
      exists r, receive_data_message d shutdown (Some bytes) n source received = Done (r, d) /\
        duplicate_or_stale r = true /\ accepted r = false
  | admit_sample =>
      exists r d' view payload,
        receive_data_message d shutdown (Some bytes) n source received = Done (r, d') /\
        accepted r = true /\ parsed = Done view /\
        Data.serialized_payload view = Some payload /\
        zlen payload <= serialized_capacity (setup d) /\
        queues d' (keep_last (history_sample_slots d) q
                     (metadata_of view payload next source received, payload))
          (<[gid_of view := Data.sequence_number view]> seen) /\ setup d' = setup d
  end.
Proof.
  intros Hq Hm next parsed. unfold receive_data_message, judge. cbv zeta.
  rewrite bool_decide_false by done. cbn [orb].
  destruct (n =? 0); [done|]. destruct shutdown; [done|]. cbn [stop_if mbind outcome_bind].
  change time_max with i64_max. destruct (_ || (i64_max <? source)); [done|].
  cbn [stop_if mbind outcome_bind]. unfold Data.parse_data_message.
  rewrite checked_commit by apply Data.parse_body_error.
  pose proof (Data.parse_body_post (Some bytes) n Hm) as Hpost.
  pose proof (parse_body_prefix (Some bytes) n) as Hprefix. unfold parsed.
  destruct (Data.parse_body (Some bytes) n) as [|e|view]; [done..|].
  destruct Hpost as [payload Hv]. specialize (Hprefix view eq_refl).
  cbn [map_stop mbind outcome_bind]. rewrite (check_view_spec d view payload) by done.
  destruct (view_refusal (setup d) source view) as [e|] eqn:Hr; [done|]. cbn [mbind outcome_bind].
  assert (zlen payload <= serialized_capacity (setup d)) as Hcap.
  { unfold view_refusal in Hr. rewrite (Data.dv_size _ _ Hv) in Hr.
    repeat case_match; try done. by apply Z.ltb_ge. }
  pose proof (receive_view_spec d q seen view payload source received Hq Hv Hprefix Hcap) as Ho.
  cbv zeta in Ho. fold next in Ho.
  destruct (judge_sample (setup d) seen next view); [done|by eexists..|].
  destruct Ho as (d' & -> & Hq' & Hs). eexists _, d', view, payload.
  split_and!; try done. apply Hv.
Qed.

(** C11: what a subscription makes of any datagram, with every error: an undecodable one,
    one for another reader, from a writer that is no user's writer, too large or with an
    impossible time is refused with its code; one of an ignored participant, or with a
    sequence number not above the last one accepted from its writer, is passed over; a
    seventeenth writer is refused; everything else is queued, behind at most [depth - 1]
    older samples, with the writer's last sequence number advanced.  Only queueing changes
    the subscription, and no access leaves its memory. *)
Theorem receive_exact d q seen bytes n shutdown source received :
  queues d q seen -> Router.message_ok (Some bytes) n ->
  let next := next_reception_sequence d in
  let parsed := Data.parse_body (Some bytes) n in
  match judge (setup d) seen next shutdown n source received parsed with
  | refuse e r =>
      receive_data_message d shutdown (Some bytes) n source received
      = Stop (receive_result e r)
  | pass_local =>
      exists r, receive_data_message d shutdown (Some bytes) n source received = Done (r, d) /\
        ignored_local r = true /\ accepted r = false
  | pass_stale =>
      exists r, receive_data_message d shutdown (Some bytes) n source received = Done (r, d) /\
        duplicate_or_stale r = true /\ accepted r = false
  | admit_sample =>
      exists r d' view payload,
        receive_data_message d shutdown (Some bytes) n source received = Done (r, d') /\
        accepted r = true /\ parsed = Done view /\
        Data.serialized_payload view = Some payload /\
        queues d' (keep_last (history_sample_slots d) q
                     (metadata_of view payload next source received, payload))
          (<[gid_of view := Data.sequence_number view]> seen)
  end.
Proof.
  intros Hq Hm next parsed.
  pose proof (receive_outcome d q seen bytes n shutdown source received Hq Hm) as Ho.
  cbv zeta in Ho. fold next parsed in Ho.
  destruct (judge (setup d) seen next shutdown n source received parsed); try done.
  destruct Ho as (r & d' & view & payload & ? & ? & ? & ? & _ & ? & _). by exists r, d', view, payload.
Qed.

(** ** Taking *)

Lemma decode_into_spec s p bytes message :
  setup_ok s -> data (type_support s) = Some p -> bytes_ok bytes ->
  zlen bytes <= maximum_serialized_size (type_info s) ->
  laid_out (language (type_info s)) analysis_fuel p message ->
  match decode_into s bytes (zlen bytes) message with
  | Fault => False
  | Stop m => m = message
  | Done m => shape m = shape message
  end.
Proof.
  intros Hs Hp Hb Hfit Hlaid. pose proof (subscription_sizes s Hs) as Hz. cbv zeta in Hz.
  set (n := maximum_serialized_size (type_info s)) in *. unfold decode_into. fold n.
  assert (analyze_type_support (Some (type_support s)) n = Done (type_info s)) as Han.
  { eapply AnalysisLimit.analyze_any_limit; [|apply Hs|]; unfold Publisher.kMaximumSampleSize; lia. }
  pose proof (deserialize_outcome (type_support s) p bytes n (type_info s) message Hb ltac:(lia) Hfit
    Hp Han Hlaid) as Ho.
  destruct (deserialize_xcdr1 _ _ _ _ _) as [|[r m]|[r m]]; [done|by subst m|].
  by destruct Ho as (_ & m' & -> & Hsh).
Qed.

(** Reading back what a publisher encoded. *)
Lemma decode_into_encoded s p src dst vs :
  setup_ok s -> data (type_support s) = Some p -> disjoint_fields ->
  laid_out (language (type_info s)) analysis_fuel p dst ->
  has_room (language (type_info s)) analysis_fuel p src dst ->
  message_values (language (type_info s)) analysis_fuel p src = Some vs ->
  Forall Cdr.value_ok vs ->
  let bytes := PublisherFacts.encoded vs in
  zlen bytes <= maximum_serialized_size (type_info s) ->
  exists dst', decode_into s bytes (zlen bytes) dst = Done dst' /\
    message_values (language (type_info s)) analysis_fuel p dst' = Some vs.
Proof.
  intros Hs Hp Hdis Hlaid Hroom Hvs Hok bytes Hfit. pose proof (subscription_sizes s Hs) as Hz.
  cbv zeta in Hz. set (n := maximum_serialized_size (type_info s)) in *.
  unfold decode_into. fold n.
  assert (analyze_type_support (Some (type_support s)) n = Done (type_info s)) as Han.
  { eapply AnalysisLimit.analyze_any_limit; [|apply Hs|]; unfold Publisher.kMaximumSampleSize; lia. }
  destruct (deserialize_payload_values (type_support s) p n (type_info s) src dst
    codec_little_endian vs Hp ltac:(by right) Hdis Han Hlaid Hroom Hvs Hok)
    as (dst' & Hd & Hv); [exact Hfit|change (zlen bytes < 2 ^ 64); lia|].
  change (Cdr.payload_bytes (cdr_order codec_little_endian) vs) with bytes in Hd.
  rewrite Hd. by exists dst'.
Qed.

(** The sample at the head, as [take_one] reads it. *)
Lemma sample_at_head {E} d md payload q seen :
  queues d ((md, payload) :: q) seen ->
  sample_at d (history_head d) = (Done (md, payload) : outcome E _) /\
  serialized_size md = zlen payload /\ zlen payload <= serialized_capacity (setup d) /\
  bytes_ok payload.
Proof.
  intros Hq. pose proof (ring_head _ _ _ _ (qu_ring _ _ _ Hq)) as Hh.
  pose proof (ring_holds _ _ _ _ (qu_ring _ _ _ Hq) 0 (md, payload) eq_refl) as Hst.
  rewrite Z.add_0_r, Z.mod_small in Hst by done.
  apply slot_at_size in Hst as (Hmd & Hsz & Hcap & Hslice).
  unfold sample_at. rewrite Hmd. cbn [access mbind outcome_bind]. rewrite Hsz.
  change (0 + history_head d * serialized_capacity (setup d))
    with (history_head d * serialized_capacity (setup d)) in Hslice.
  rewrite Hslice. split_and!; try done.
  by destruct (qu_samples _ _ _ Hq 0 md payload eq_refl) as (_ & Hb & _).
Qed.

Lemma consume_queues d x q seen :
  queues d (x :: q) seen -> queues (consume d 1) q seen.
Proof.
  intros Hq. pose proof (subscription_sizes _ (qu_setup _ _ _ Hq)) as Hz. cbv zeta in Hz.
  destruct Hq as [Hs Hmem Hmds Hsz Hring Hw Hseen Hk Hc Hr Hsam Hord].
  pose proof (ring_head _ _ _ _ Hring) as Hh. pose proof (ring_size _ _ _ _ Hring) as Hl.
  simpl in Hsz, Hl.
  assert (forall k y, mload q k = Some y -> mload (x :: q) (k + 1) = Some y) as Hshift.
  { intros k y [H1 Hy]%mload_Some. apply mload_Some. split; [lia|].
    replace (Z.to_nat (k + 1)) with (S (Z.to_nat k)) by lia. done. }
  change (Qos.history_sample_slots (resources (setup d))) with (history_sample_slots d) in Hz.
  split; try done; unfold consume; cbn [setup history_head history_size next_reception_sequence];
    change (history_sample_slots _) with (history_sample_slots d).
  - rewrite sub64_id; lia.
  - rewrite add64_id by lia. apply (ring_drop (history_sample_slots d) ltac:(lia) _ _ _ 1) in Hring; [|simpl; lia].
    exact Hring.
  - intros k md payload Hload. apply Hshift, Hsam in Hload as (Hn & ?). split; [simpl in Hn; lia|done].
  - intros j k y z Hj%Hshift Hk'%Hshift Hlt. apply (Hord (j + 1) (k + 1)); (done || lia).
Qed.

(** [take_one] on every branch for a subscription to a topic. *)
Lemma take_outcome d q seen p (shutdown : bool) message with_info :
  queues d q seen -> channel (setup d) = topic ->
  data (type_support (setup d)) = Some p ->
  laid_out (language (type_info (setup d))) analysis_fuel p message ->
  if shutdown then take_one d shutdown (Some message) true with_info false
                   = Stop (RMW_RET_ERROR, None, Some message) else
  match q with
  | [] => take_one d shutdown (Some message) true with_info false
          = Done (false, message, None, d)
  | (md, payload) :: q' =>
      match decode_into (setup d) payload (zlen payload) message with
      | Fault => False
      | Stop _ => take_one d shutdown (Some message) true with_info false
                  = Stop (RMW_RET_ERROR, Some false, Some message)
      | Done message' =>
          shape message' = shape message /\
          take_one d shutdown (Some message) true with_info false =
          Done (true, message', if with_info then Some (message_info md) else None, consume d 1) /\
          queues (consume d 1) q' seen
      end
  end.
Proof.
  intros Hq Hch Hp Hlaid. unfold take_one. cbn [negb stop_if mbind outcome_bind].
  destruct shutdown; [done|]. cbn [stop_if mbind outcome_bind].
  pose proof (qu_setup _ _ _ Hq) as Hs. pose proof (subscription_sizes _ Hs) as Hz. cbv zeta in Hz.
  rewrite (qu_size _ _ _ Hq). destruct q as [|[md payload] q']; [done|].
  destruct (Z.eqb_spec (zlen ((md, payload) :: q')) 0) as [Hzero|_]; [simpl in Hzero; lia|].
  destruct (sample_at_head (E := rmw_ret_t * option bool * option storage) d md payload q' seen Hq)
    as (-> & Hsz & Hcap & Hb).
  cbn [mbind outcome_bind]. rewrite Hsz.
  assert (zlen payload <= maximum_serialized_size (type_info (setup d))) as Hfit.
  { unfold PublisherFacts.envelope_size in Hz. rewrite Hch, bool_decide_false in Hz by (intros Hn; by apply Hn).
    lia. }
  pose proof (decode_into_spec _ p payload message Hs Hp Hb Hfit Hlaid) as Hd.
  destruct (decode_into _ _ _ _) as [|m|m]; [done|by subst m|]. cbn [map_stop mbind outcome_bind].
  change (Qos.history_sample_slots (resources (setup d))) with (history_sample_slots d) in Hz.
  destruct (Z.eqb_spec (history_sample_slots d) 0); [lia|].
  split_and!; [done..|]. by eapply consume_queues.
Qed.

(** C15: taking from a subscription to a topic, into a message laid out as its type asks:
    an inactive context is an error; an empty queue is reported and nothing changes; the
    oldest sample is decoded into the message, described by its information and removed;
    a sample that does not decode is an error that leaves the message and the queue as they
    were. *)
Theorem take_exact d q seen p (shutdown : bool) message with_info :
  queues d q seen -> channel (setup d) = topic ->
  data (type_support (setup d)) = Some p ->
  laid_out (language (type_info (setup d))) analysis_fuel p message ->
  match take_one d shutdown (Some message) true with_info false with
  | Fault => False
  | Stop (ret, taken, m) =>
      ret = RMW_RET_ERROR /\ m = Some message /\
      if shutdown then taken = None
      else taken = Some false /\ exists md payload q', q = (md, payload) :: q' /\
        decode_into (setup d) payload (zlen payload) message = Stop message
  | Done (taken, m, info, d') =>
      shutdown = false /\
      if (taken : bool) then exists md payload q', q = (md, payload) :: q' /\
        decode_into (setup d) payload (zlen payload) message = Done m /\
        shape m = shape message /\ queues d' q' seen /\
        info = if with_info then Some (message_info md) else None
      else q = [] /\ m = message /\ info = None /\ d' = d
  end.
Proof.
  intros Hq Hch Hp Hlaid.
  pose proof (take_outcome d q seen p shutdown message with_info Hq Hch Hp Hlaid) as Ho.
  destruct shutdown; [by rewrite Ho|]. destruct q as [|[md payload] q']; [by rewrite Ho|].
  destruct (decode_into _ _ _ _) as [|m|m] eqn:Hd; [done|..].
  - rewrite Ho. split_and!; try done. exists md, payload, q'. split; [done|]. rewrite Hd.
    pose proof (qu_setup _ _ _ Hq) as Hs. pose proof (subscription_sizes _ Hs) as Hz. cbv zeta in Hz.
    destruct (sample_at_head (E := unit) d md payload q' seen Hq) as (_ & _ & Hcap & Hb).
    unfold PublisherFacts.envelope_size in Hz.
    rewrite Hch, bool_decide_false in Hz by (intros Hn; by apply Hn).
    pose proof (decode_into_spec _ p payload message Hs Hp Hb ltac:(lia) Hlaid) as Hm.
    rewrite Hd in Hm. by subst m.
  - destruct Ho as (Hsh & -> & Hq'). split; [done|]. exists md, payload, q'. by rewrite Hd.
Qed.

(** ** Creation *)

Lemma subscription_storage ch info slots :
  4 <= maximum_serialized_size info <= 65000 -> 0 < slots <= 1024 ->
  let capacity := maximum_serialized_size info + PublisherFacts.envelope_size ch in
  storage_sizes ch info slots = (capacity, slots * capacity).
Proof.
  intros Hn Hs capacity. pose proof (PublisherFacts.envelope_range ch) as He.
  unfold storage_sizes. cbv zeta.
  set (c := if _ && _ then _ else _). assert (c = capacity) as ->.
  { unfold c, capacity, PublisherFacts.envelope_size, kServiceCorrelationSize, gid_storage_size.
    case_bool_decide; cbn [andb]; [|lia]. unfold size_max.
    rewrite sub64_id by lia. destruct (Z.leb_spec (maximum_serialized_size info) (2 ^ 64 - 1 - (16 + 8)));
      [|lia]. rewrite add64_id; lia. }
  assert (4 <= capacity <= 65024) as Hcap by (unfold capacity; lia). clearbody capacity.
  destruct (Z.eqb_spec capacity 0); [lia|]. unfold size_max. cbn [negb andb].
  destruct (Z.leb_spec slots ((2 ^ 64 - 1) / capacity)) as [_|Hlt].
  - by rewrite mul64_id by nia.
  - pose proof (Z.div_le_lower_bound (2 ^ 64 - 1) capacity 1024 ltac:(lia) ltac:(lia)). lia.
Qed.

(** A new subscription over a block of the computed size is empty and knows no writer. *)
Lemma create_subscription_queues {E} ignore_local ts info dds_names ch plan prefix port slot
    storage d :
  analyze_type_support (Some ts) Publisher.kMaximumSampleSize = Done info ->
  0 < Qos.history_sample_slots plan <= Publisher.kMaximumHistoryDepth ->
  length prefix = 12%nat ->
  zlen storage = (storage_sizes ch info (Qos.history_sample_slots plan)).2 ->
  create_subscription_data ignore_local ts info dds_names ch plan prefix port slot storage
    = (Done (Some d) : outcome E _) ->
  queues d [] ∅ /\ channel (setup d) = ch /\ type_support (setup d) = ts /\
  type_info (setup d) = info /\ participant_prefix (setup d) = prefix /\
  reader_id (setup d) = reader_id_of slot /\
  ignore_local_publications (setup d) = ignore_local.
Proof.
  intros Han Hslots Hprefix Hst Hc.
  unfold Publisher.kMaximumHistoryDepth, Publisher.kMaximumSampleSize in *.
  pose proof (analyze_type_support_inv _ 65000 _ ltac:(lia) Han)
    as (p & st & _ & _ & _ & [[Ho _ _ _] Hl _] & Hm & _). simpl in Hl.
  unfold create_subscription_data in Hc. rewrite subscription_storage in Hc, Hst by lia.
  rewrite make_gid_spec in Hc by done. cbn [mbind outcome_bind snd] in *.
  apply bind_Done_inv in Hc as ([[buffer size_]|] & _ & [= <-]).
  cbn [setup channel type_support participant_prefix type_info reader_id
    ignore_local_publications].
  split_and!; try done.
  split; cbn [setup history history_metadata writers history_head history_size
    observed_writer_count next_reception_sequence serialized_capacity];
    unfold history_sample_slots; cbn [setup resources]; try done.
  - by apply ring_empty; lia.
  - intros k md payload [_ Hk]%mload_Some. done.
  - intros j k x y [_ Hj]%mload_Some. done.
Qed.
End Runtime.

(** ** On the endpoints of the tests *)

Import SampleTypes SampleEndpoints.

Lemma sample_queues ch :
  queues (sample_reader ch) [] ∅ /\ channel (setup (sample_reader ch)) = ch /\
  type_support (setup (sample_reader ch)) = c_handle /\
  type_info (setup (sample_reader ch)) = c_info.
Proof.
  destruct (create_subscription_queues (E := unit) false c_handle c_info sample_names ch
    (sample_plan Qos.subscription) reader_prefix 7413 0
    (replicate (Z.to_nat (storage_sizes ch c_info 2).2) 0) (sample_reader ch))
    as (Hp & Hc & Ht & Hi & _); [apply c_info_ok|done|done|..|by split_and!].
  - rewrite length_replicate, Z2Nat.id; [done|]. destruct ch; by vm_compute.
  - apply sample_reader_created.
Qed.

Lemma sample_message_ok : Router.message_ok (Some sample_packet) (zlen sample_packet).
Proof.
  split; [rewrite sample_packet_bytes; by vm_compute|]. intros m Hm.
  apply (inj Some) in Hm as <-. split; [reflexivity|apply sample_packet_ok].
Qed.

Lemma sample_judged :
  judge (setup (sample_reader topic)) ∅ (next_reception_sequence (sample_reader topic)) false
    (zlen sample_packet) 5 5 (Data.parse_body (Some sample_packet) (zlen sample_packet))
  = admit_sample.
Proof. by vm_compute. Qed.

(** The first sample of a new writer is queued. *)
Lemma receive_exact_witness :
  exists r d' md payload seen,
    receive_data_message (sample_reader topic) false (Some sample_packet) (zlen sample_packet)
      5 5 = Done (r, d') /\ accepted r = true /\ queues d' [(md, payload)] seen.
Proof.
  destruct (sample_queues topic) as (Hq & _).
  pose proof (receive_exact (sample_reader topic) [] ∅ sample_packet (zlen sample_packet) false
    5 5 Hq sample_message_ok) as Ho. cbv zeta in Ho. rewrite sample_judged in Ho.
  destruct Ho as (r & d' & view & payload & Ho & Ha & _ & _ & Hq').
  assert (history_sample_slots (sample_reader topic) = 2) as Hslots by (by vm_compute).
  rewrite Hslots in Hq'. eexists r, d', _, payload, _.
  split; [exact Ho|]. split; [exact Ha|exact Hq'].
Defined.

(** The queued sample is taken, and the queue is empty again. *)
Lemma take_exact_witness :
  exists m info d' seen,
    take_one received_reader false (Some c_destination) true true false
      = Done (true, m, Some info, d') /\ info_publication info = 1 /\ queues d' [] seen.
Proof.
  destruct (sample_queues topic) as (Hq & Hc & Ht & Hi).
  pose proof (receive_outcome (sample_reader topic) [] ∅ sample_packet (zlen sample_packet) false
    5 5 Hq sample_message_ok) as Ho. cbv zeta in Ho. rewrite sample_judged in Ho.
  destruct Ho as (r & d1 & view & payload & Ho & _ & _ & _ & _ & Hq1 & Hs1).
  pose proof (received_reader_eq r d1 Ho) as Hd1.
  assert (history_sample_slots (sample_reader topic) = 2) as Hslots by (by vm_compute).
  rewrite Hslots in Hq1. set (md := metadata_of _ _ _ _ _) in Hq1.
  change (keep_last 2 [] (md, payload)) with [(md, payload)] in Hq1. rewrite <- Hd1 in Hq1, Hs1.
  pose proof (take_exact received_reader [(md, payload)] _ 1 false c_destination true Hq1) as Hk.
  rewrite Hs1, Hc, Ht, Hi in Hk. change (language c_info) with introspection_c in Hk.
  specialize (Hk eq_refl eq_refl ltac:(by apply c_message_laid)).
  assert (match take_one received_reader false (Some c_destination) true true false with
    | Done (true, _, Some info, _) => info_publication info = 1 | _ => False end) as Hd
    by (by vm_compute).
  set (o := take_one _ _ _ _ _ _) in *.
  destruct o as [|[[? ?] ?]|[[[[] m] info] d']]; [destruct Hk| destruct Hd| |destruct Hd].
  destruct info as [info|]; [|destruct Hd].
  destruct Hk as (_ & md1 & payload1 & q1 & [= _ _ <-] & _ & _ & Hq' & _).
  exists m, info, d'. eexists. split; [reflexivity|]. split; [exact Hd|exact Hq'].
Defined.

End SubscriptionFacts.
