(* ===== verification/PubSub.v ===== *)
(** * From one publisher to one subscription

    The ROS binding end to end: a publisher, a subscription of the same type, and a network
    between them that may lose, repeat, reorder and delay packets and carries the packets of
    other writers.  Whatever the application takes from the publisher was published by it,
    under increasing sequence numbers. *)
From Stdlib Require Import Sorting.Sorted.
From stdpp Require Import list gmap relations.
From S2P Require Import Prelude Types Bytes Cdr MessageRouter DataMessage Introspection TypeSupport CodecSpec Xcdr1Codec CodecTheorems SampleRing Qos Endpoint Publisher Subscription SampleTypes SampleEndpoints PublisherFacts SubscriptionFacts.

Module PubSub.
Import Types Introspection TypeSupport CodecSpec Codec CodecTheorems SampleRing Endpoint.

(** ** The system *)

(** [published] are the messages of the successful calls of [rmw_publish], [wire] the
    packets the network thread made, and [taken] what [rmw_take_with_info] returned. *)
Record system : Type := {
  writer : Publisher.PublisherData;
  reader : Subscription.SubscriptionData;
  published : list storage;
  wire : list (list Z);
  taken : list (Subscription.rmw_message_info_t * storage);
}.

Section Runtime.
Context `{GeneratedTypes}.
Context (ws : Publisher.PublisherSetup) (rs : Subscription.SubscriptionSetup) (p : Z).
Let lang := language (Publisher.type_info ws).
Let gid := Publisher.participant_prefix ws ++ Publisher.writer_id ws.

(** Two endpoints of one topic with the same type.  The fields of a table do not overlap. *)
Record matched_setup : Prop := {
  ms_disjoint : disjoint_fields;
  ms_channel_w : Publisher.channel ws = topic;
  ms_channel_r : Subscription.channel rs = topic;
  ms_type : Subscription.type_support rs = Publisher.type_support ws;
  ms_info : Subscription.type_info rs = Publisher.type_info ws;
  ms_table : data (Publisher.type_support ws) = Some p;
  ms_prefix : bytes_ok (Publisher.participant_prefix ws);
  ms_writer : bytes_ok (Publisher.writer_id ws);
}.

Definition values (m : storage) : option (list Cdr.cdr_value) :=
  message_values lang analysis_fuel p m.

(** A message of the type whose strings are made of bytes. *)
Definition well_formed (m : storage) : Prop :=
  laid_out lang analysis_fuel p m /\
  forall vs, values m = Some vs -> bytes_ok (PublisherFacts.encoded vs).

Inductive step (s : system) : system -> Prop :=
  | step_publish m shutdown clock w' :
      well_formed m ->
      Publisher.rmw_publish (writer s) shutdown (Some m) false clock = Done w' ->
      step s {| writer := w'; reader := reader s; published := published s ++ [m];
                wire := wire s; taken := taken s |}
  | step_publish_fails m shutdown clock ret w' :
      well_formed m ->
      Publisher.rmw_publish (writer s) shutdown (Some m) false clock = Stop (ret, w') ->
      step s {| writer := w'; reader := reader s; published := published s;
                wire := wire s; taken := taken s |}
  | step_transmit after packet capacity n size buffer :
      0 <= capacity <= zlen packet -> capacity < 2 ^ 64 ->
      Publisher.publisher_network_copy_next (writer s) after (Some packet) capacity
        = Done (n, size, Some buffer) ->
      step s {| writer := writer s; reader := reader s; published := published s;
                wire := wire s ++ [take (Z.to_nat size) buffer]; taken := taken s |}
  (** Any datagram; one that carries the publisher's identity is one of its packets. *)
  | step_receive bytes n shutdown received accepted r' :
      Router.message_ok (Some bytes) n ->
      (forall view, Data.parse_body (Some bytes) n = Done view ->
        SubscriptionFacts.gid_of view = gid -> bytes ∈ wire s /\ n = zlen bytes) ->
      Subscription.subscription_network_receive (E := unit) (reader s) shutdown (Some bytes) n
        received = Done (accepted, r') ->
      step s {| writer := writer s; reader := r'; published := published s;
                wire := wire s; taken := taken s |}
  (** The destination has room for every message published so far. *)
  | step_take dst shutdown m info r' :
      laid_out lang analysis_fuel p dst ->
      (forall src, src ∈ published s -> has_room lang analysis_fuel p src dst) ->
      Subscription.rmw_take_with_info (reader s) shutdown (Some dst) true true false
        = Done (true, m, Some info, r') ->
      step s {| writer := writer s; reader := r'; published := published s;
                wire := wire s; taken := taken s ++ [(info, m)] |}.

(** ** The invariant *)

(** [payload] is the encoding of the message published under [n]. *)
Definition carries (ms : list storage) (n : Z) (payload : list Z) : Prop :=
  exists m vs, mload ms (n - 1) = Some m /\ values m = Some vs /\
    payload = PublisherFacts.encoded vs.

(** The sequence numbers of the publisher's samples in the queue and among the taken. *)
Definition queued_numbers (q : list SubscriptionFacts.sample) : list Z :=
  Subscription.publication_sequence_number ∘ fst <$>
    filter (fun x => Subscription.publisher_gid x.1 = gid) q.

Definition taken_numbers (l : list (Subscription.rmw_message_info_t * storage)) : list Z :=
  Subscription.info_publication ∘ fst <$>
    filter (fun x => Subscription.info_gid x.1 = gid) l.

Record inv (s : system) (q : list (Publisher.PublisherSampleMetadata * list Z))
    (q' : list SubscriptionFacts.sample) (seen : gmap (list Z) Z) : Prop := {
  in_writer : PublisherFacts.publishes (writer s) q;
  in_writer_setup : Publisher.setup (writer s) = ws;
  in_next : Publisher.next_sequence (writer s) = zlen (published s) + 1;
  in_published m : m ∈ published s -> well_formed m /\
    exists vs, values m = Some vs /\ Forall Cdr.value_ok vs /\
      zlen (PublisherFacts.encoded vs) <= maximum_serialized_size (Publisher.type_info ws);
  in_history md payload : (md, payload) ∈ q ->
    carries (published s) (Publisher.sequence_number md) payload;
  in_wire packet : packet ∈ wire s ->
    exists n payload, carries (published s) n payload /\ 1 <= n < i64_max /\
      packet = Data.data_message_bytes (Publisher.data_config ws n) payload;
  in_reader : SubscriptionFacts.queues (reader s) q' seen;
  in_reader_setup : Subscription.setup (reader s) = rs;
  in_queued md payload : (md, payload) ∈ q' -> Subscription.publisher_gid md = gid ->
    carries (published s) (Subscription.publication_sequence_number md) payload;
  in_taken info m : (info, m) ∈ taken s -> Subscription.info_gid info = gid ->
    exists src, mload (published s) (Subscription.info_publication info - 1) = Some src /\
      values m = values src;
  in_sorted : StronglySorted Z.lt (taken_numbers (taken s) ++ queued_numbers q');
  in_seen : Forall (fun n => n <= default 0 (seen !! gid))
              (taken_numbers (taken s) ++ queued_numbers q');
}.

Lemma carries_app ms m n payload :
  carries ms n payload -> carries (ms ++ [m]) n payload.
Proof.
  intros (m0 & vs & Hm & Hrest). exists m0, vs. split; [|done].
  rewrite mload_app_l; [done|]. apply mk_is_Some, mload_is_Some in Hm. lia.
Qed.

(** ** Lists of numbers *)

Lemma sorted_snoc l x :
  StronglySorted Z.lt l -> Forall (fun n => n < x) l -> StronglySorted Z.lt (l ++ [x]).
Proof.
  induction 1 as [|y l Hs IH Hy]; intros Hl; [by repeat constructor|].
  inversion_clear Hl as [|? ? Hyx Hl']. simpl. constructor; [by apply IH|].
  apply Forall_app. split; [done|]. by constructor.
Qed.

Lemma queued_numbers_app q1 q2 :
  queued_numbers (q1 ++ q2) = queued_numbers q1 ++ queued_numbers q2.
Proof. unfold queued_numbers. by rewrite filter_app, fmap_app. Qed.

Lemma taken_numbers_app l1 l2 :
  taken_numbers (l1 ++ l2) = taken_numbers l1 ++ taken_numbers l2.
Proof. unfold taken_numbers. by rewrite filter_app, fmap_app. Qed.

Lemma queued_keep_last n q x :
  exists l, sublist l (queued_numbers q) /\
    queued_numbers (keep_last n q x) = l ++ queued_numbers [x].
Proof.
  unfold keep_last. case_match; rewrite queued_numbers_app; (eexists; split; [|done]); [done|].
  destruct q as [|y q]; [done|]. rewrite <- (take_drop 1 (y :: q)) at 2.
  rewrite queued_numbers_app. by apply sublist_inserts_l.
Qed.

Lemma keep_last_elem {A} n (q : list A) x y : y ∈ keep_last n q x -> y ∈ q \/ y = x.
Proof.
  unfold keep_last. case_match; intros [Hy|Hy]%elem_of_app; [by left| | |];
    try (apply list_elem_of_singleton in Hy; by right).
  left. rewrite <- (take_drop 1 q). apply elem_of_app. by right.
Qed.

(** The numbers with a sample of the publisher received: a new largest one at the end. *)
Lemma numbers_received t n q x number last :
  StronglySorted Z.lt (t ++ queued_numbers q) ->
  Forall (fun k => k <= last) (t ++ queued_numbers q) -> last < number ->
  queued_numbers [x] = [number] ->
  StronglySorted Z.lt (t ++ queued_numbers (keep_last n q x)) /\
  Forall (fun k => k <= number) (t ++ queued_numbers (keep_last n q x)).
Proof.
  intros Hs Hf Hlt Hx. destruct (queued_keep_last n q x) as (l & Hl & ->). rewrite Hx, app_assoc.
  assert (sublist (t ++ l) (t ++ queued_numbers q)) as Hsub by (by apply sublist_app).
  assert (Forall (fun k => k <= last) (t ++ l)) as Hf'.
  { rewrite Forall_forall in *. intros k Hk. apply Hf. by eapply elem_of_sublist. }
  split.
  - apply sorted_snoc; [by eapply sorted_sublist|]. eapply Forall_impl; [done|]. simpl. lia.
  - apply Forall_app. split; [|repeat constructor; lia]. eapply Forall_impl; [done|]. simpl. lia.
Qed.

Lemma numbers_foreign t n q x last :
  StronglySorted Z.lt (t ++ queued_numbers q) ->
  Forall (fun k => k <= last) (t ++ queued_numbers q) -> queued_numbers [x] = [] ->
  StronglySorted Z.lt (t ++ queued_numbers (keep_last n q x)) /\
  Forall (fun k => k <= last) (t ++ queued_numbers (keep_last n q x)).
Proof.
  intros Hs Hf Hx. destruct (queued_keep_last n q x) as (l & Hl & ->). rewrite Hx, app_nil_r.
  assert (sublist (t ++ l) (t ++ queued_numbers q)) as Hsub by (by apply sublist_app).
  split; [by eapply sorted_sublist|].
  rewrite Forall_forall in *. intros k Hk. apply Hf. by eapply elem_of_sublist.
Qed.

(** ** Packets *)

Lemma data_message_bytes_ok config payload :
  supported_byte_order (Data.cfg_byte_order config) = true ->
  byte_ok (major (Data.cfg_version config)) -> byte_ok (minor (Data.cfg_version config)) ->
  bytes_ok (Data.cfg_vendor_id config) -> bytes_ok (Data.cfg_guid_prefix config) ->
  bytes_ok (Data.cfg_reader_id config) -> bytes_ok (Data.cfg_writer_id config) ->
  bytes_ok payload -> bytes_ok (Data.data_message_bytes config payload).
Proof.
  intros Hord Hmaj Hmin Hven Hpre Hrd Hwr Hp. rewrite Data.data_message_bytes_eq by done.
  unfold bytes_ok, rtps_header_bytes, Data.data_content in *.
  assert (byte_ok (Data.data_flags (Data.cfg_byte_order config))).
  { by destruct (Data.cfg_byte_order config). }
  rewrite !Forall_app. split_and!; try done; try apply encode_uint_bytes_ok;
    repeat constructor; unfold byte_ok, Data.data_submessage_id in *; try done; lia.
Qed.

(** ** The steps *)

Section Steps.
Context (Hmatch : matched_setup).

Lemma well_formed_values s q q' seen n payload :
  inv s q q' seen -> carries (published s) n payload ->
  exists m vs, m ∈ published s /\ mload (published s) (n - 1) = Some m /\ values m = Some vs /\
    payload = PublisherFacts.encoded vs /\ Forall Cdr.value_ok vs /\ bytes_ok payload /\
    zlen payload <= maximum_serialized_size (Publisher.type_info ws).
Proof.
  intros Hinv (m & vs & Hm & Hvs & ->). exists m, vs.
  assert (m ∈ published s) as Hin.
  { apply mload_Some in Hm as [_ Hm]. by eapply list_elem_of_lookup_2. }
  destruct (in_published _ _ _ _ Hinv m Hin) as ([_ Hb] & vs' & Hvs' & Hok & Hfit).
  rewrite Hvs in Hvs'. injection Hvs' as <-. split_and!; try done. by apply Hb.
Qed.

Lemma publish_step s q q' seen m shutdown clock w' :
  inv s q q' seen -> well_formed m ->
  Publisher.rmw_publish (writer s) shutdown (Some m) false clock = Done w' ->
  exists q1, inv {| writer := w'; reader := reader s; published := published s ++ [m];
                    wire := wire s; taken := taken s |} q1 q' seen.
Proof.
  intros Hinv Hwf Hpub. destruct Hmatch as [_ Hcw _ _ _ Htab _ _].
  pose proof Hinv as [Hw Hws Hnext Hms Hq Hwire Hr Hrs Hqr Htk Hsort Hseen].
  unfold Publisher.rmw_publish in Hpub. rewrite bool_decide_false in Hpub by done.
  cbn [stop_if mbind outcome_bind] in Hpub.
  destruct shutdown.
  { unfold Publisher.publish_sample in Hpub. rewrite Hws, Hcw, bool_decide_false in Hpub by naive_solver.
    rewrite bool_decide_false in Hpub by (by intros [? [=]]). done. }
  pose proof (PublisherFacts.publish_outcome (writer s) q m p clock Hw) as Ho.
  rewrite Hws, Hpub in Ho. destruct Ho as (vs & t & Hvs & Hok & Hfit & _ & _ & Hp' & Hs' & Hn' & _);
    [done|done|apply Hwf|].
  eexists. split; cbn [writer reader published wire taken]; try done.
  - rewrite Hn', Hnext, length_app. simpl. lia.
  - intros m0 [Hm0|Hm0%list_elem_of_singleton]%elem_of_app; [by apply Hms|subst m0].
    split; [done|]. by exists vs.
  - intros md payload [Hin|[= -> ->]]%keep_last_elem; [by apply carries_app, Hq|].
    exists m, vs. cbn [Publisher.sequence_number]. split_and!; try done. rewrite Hnext.
    rewrite mload_app_r by lia. by replace (zlen (published s) + 1 - 1 - zlen (published s)) with 0 by lia.
  - intros packet (n & payload & Hc & Hn & ->)%Hwire. exists n, payload.
    split_and!; try done; try lia. by apply carries_app.
  - intros md payload Hin Hg. by apply carries_app, Hqr.
  - intros info msg Hin Hg. destruct (Htk info msg Hin Hg) as (src & Hsrc & Hv). exists src.
    split; [|done]. rewrite mload_app_l; [done|]. apply mk_is_Some, mload_is_Some in Hsrc. lia.
Qed.

Lemma publish_fails_step s q q' seen m shutdown clock ret w' :
  inv s q q' seen -> well_formed m ->
  Publisher.rmw_publish (writer s) shutdown (Some m) false clock = Stop (ret, w') ->
  inv {| writer := w'; reader := reader s; published := published s;
         wire := wire s; taken := taken s |} q q' seen.
Proof.
  intros Hinv Hwf Hpub. destruct Hmatch as [_ Hcw _ _ _ Htab _ _].
  pose proof Hinv as [Hw Hws Hnext Hms Hq Hwire Hr Hrs Hqr Htk Hsort Hseen].
  unfold Publisher.rmw_publish in Hpub. rewrite bool_decide_false in Hpub by done.
  cbn [stop_if mbind outcome_bind] in Hpub.
  assert (PublisherFacts.scratched (writer s) w') as Hscr.
  { destruct shutdown.
    - unfold Publisher.publish_sample in Hpub.
      rewrite Hws, Hcw, bool_decide_false in Hpub by naive_solver.
      rewrite bool_decide_false in Hpub by (by intros [? [=]]).
      cbn in Hpub. injection Hpub as _ <-. apply PublisherFacts.scratched_refl.
    - pose proof (PublisherFacts.publish_outcome (writer s) q m p clock Hw) as Ho.
      rewrite Hws, Hpub in Ho. destruct Ho as (_ & Hscr & _); [done|done|apply Hwf|done]. }
  pose proof (PublisherFacts.scratched_publishes _ _ _ Hscr Hw) as Hw'.
  destruct Hscr as (Hs' & _ & _ & _ & _ & Hn' & _).
  split; cbn [writer reader published wire taken]; try done; congruence.
Qed.

Lemma transmit_step s q q' seen after packet capacity n size buffer :
  inv s q q' seen -> 0 <= capacity <= zlen packet -> capacity < 2 ^ 64 ->
  Publisher.publisher_network_copy_next (writer s) after (Some packet) capacity
    = Done (n, size, Some buffer) ->
  inv {| writer := writer s; reader := reader s; published := published s;
         wire := wire s ++ [take (Z.to_nat size) buffer]; taken := taken s |} q q' seen.
Proof.
  intros Hinv Hcap H64 Hcopy.
  pose proof Hinv as [Hw Hws Hnext Hms Hq Hwire Hr Hrs Hqr Htk Hsort Hseen].
  rewrite (PublisherFacts.copy_next_spec _ q) in Hcopy by done.
  destruct (PublisherFacts.next_after after q) as [[k [md payload]]|] eqn:Hf; [|done].
  cbv zeta in Hcopy.
  remember (Data.data_message_bytes _ payload) as message eqn:Hmessage.
  case_match; [|done]. injection Hcopy as <- <- <-.
  split; cbn [writer reader published wire taken]; try done.
  intros packet0 [Hin|Hin%list_elem_of_singleton]%elem_of_app; [by apply Hwire|subst packet0].
  unfold PublisherFacts.next_after in Hf. apply list_find_Some in Hf as (Hk & _ & _).
  exists (Publisher.sequence_number md), payload. rewrite Nat2Z.id, take_app_length.
  rewrite Hws in Hmessage.
  split_and!; try done.
  - apply Hq. by eapply list_elem_of_lookup_2.
  - assert (mload q (Z.of_nat k) = Some (md, payload)) as Hl.
    { apply mload_Some. rewrite Nat2Z.id. split; [lia|done]. }
    by apply (PublisherFacts.pu_numbers _ _ Hw) in Hl as (_ & Hone & _).
  - assert (mload q (Z.of_nat k) = Some (md, payload)) as Hl.
    { apply mload_Some. rewrite Nat2Z.id. split; [lia|done]. }
    apply (PublisherFacts.pu_numbers _ _ Hw) in Hl as (Hnum & _).
    pose proof (PublisherFacts.pu_sequence _ _ Hw). apply lookup_lt_Some in Hk. lia.
Qed.

(** What the subscription parses from a packet of the publisher. *)
Lemma packet_parsed s q q' seen packet :
  inv s q q' seen -> packet ∈ wire s ->
  exists n payload, carries (published s) n payload /\ 1 <= n /\
    Data.parse_body (Some packet) (zlen packet)
      = Done (Data.view_of (Publisher.data_config ws n) payload).
Proof.
  intros Hinv (n & payload & Hc & Hn & ->)%(in_wire _ _ _ _ Hinv). exists n, payload.
  split_and!; [done|lia|].
  destruct (well_formed_values _ _ _ _ _ _ Hinv Hc) as (m & vs & _ & _ & _ & -> & _ & _ & Hfit).
  pose proof (PublisherFacts.pu_setup _ _ (in_writer _ _ _ _ Hinv)) as Hs.
  rewrite (in_writer_setup _ _ _ _ Hinv) in Hs.
  pose proof (PublisherFacts.setup_sizes _ Hs) as Hz. cbv zeta in Hz. unfold i64_max in *.
  apply (Data.parse_built _ _ (44 + zlen (PublisherFacts.encoded vs))).
  - apply PublisherFacts.publisher_config_ok; [done|lia].
  - rewrite PublisherFacts.data_config_buildable, PublisherFacts.encoded_supported
      by (unfold i64_max; lia). apply Z.leb_refl.
Qed.

(** A sample is queued only behind the last one of its writer. *)
Lemma judge_admits setup_ seen next shutdown n source received view :
  SubscriptionFacts.judge setup_ seen next shutdown n source received (Done view)
    = SubscriptionFacts.admit_sample ->
  forall last, seen !! SubscriptionFacts.gid_of view = Some last ->
  last < Data.sequence_number view.
Proof.
  unfold SubscriptionFacts.judge, SubscriptionFacts.judge_sample. intros Hj last Hl.
  rewrite Hl in Hj. repeat case_match; try done.
  match goal with H : (_ <=? last) = false |- _ => apply Z.leb_gt in H end. lia.
Qed.

Lemma receive_step s q q' seen bytes n shutdown received accepted r' :
  inv s q q' seen -> Router.message_ok (Some bytes) n ->
  (forall view, Data.parse_body (Some bytes) n = Done view ->
    SubscriptionFacts.gid_of view = gid -> bytes ∈ wire s /\ n = zlen bytes) ->
  Subscription.subscription_network_receive (E := unit) (reader s) shutdown (Some bytes) n
    received = Done (accepted, r') ->
  exists q1 seen1, inv {| writer := writer s; reader := r'; published := published s;
                          wire := wire s; taken := taken s |} q q1 seen1.
Proof.
  intros Hinv Hok Hauth Hrecv.
  assert (s = {| writer := writer s; reader := reader s; published := published s;
                 wire := wire s; taken := taken s |}) as Heta by (by destruct s).
  pose proof Hinv as [Hw Hws Hnext Hms Hq Hwire Hr Hrs Hqr Htk Hsort Hseen].
  unfold Subscription.subscription_network_receive in Hrecv.
  pose proof (SubscriptionFacts.receive_outcome (reader s) q' seen bytes n shutdown received
    received Hr Hok) as Ho. cbv zeta in Ho.
  destruct (SubscriptionFacts.judge _ _ _ _ _ _ _ _) eqn:Hj.
  - rewrite Ho in Hrecv. injection Hrecv as _ <-. exists q', seen. by rewrite <- Heta.
  - destruct Ho as (r & Ho & _). rewrite Ho in Hrecv. injection Hrecv as _ <-.
    exists q', seen. by rewrite <- Heta.
  - destruct Ho as (r & Ho & _). rewrite Ho in Hrecv. injection Hrecv as _ <-.
    exists q', seen. by rewrite <- Heta.
  - destruct Ho as (r & d' & view & payload & Ho & _ & Hparsed & Hpay & _ & Hq' & Hs').
    rewrite Ho in Hrecv. injection Hrecv as _ <-. rewrite Hparsed in Hj.
    pose proof (judge_admits _ _ _ _ _ _ _ _ Hj) as Hlast.
    set (md := SubscriptionFacts.metadata_of view payload _ _ _) in *.
    eexists _, _.
    assert (SubscriptionFacts.gid_of view = gid ->
      carries (published s) (Data.sequence_number view) payload /\ 1 <= Data.sequence_number view)
      as Hown.
    { intros Hg. destruct (Hauth view Hparsed Hg) as [Hin ->].
      destruct (packet_parsed s q q' seen bytes Hinv Hin) as (k & payload' & Hc & Hk & Hp).
      rewrite Hparsed in Hp. injection Hp as ->. cbn in Hpay. injection Hpay as ->.
      cbn [Data.sequence_number Data.view_of Data.cfg_sequence_number Publisher.data_config]. done. }
    assert (StronglySorted Z.lt (taken_numbers (taken s) ++
        queued_numbers (keep_last (Subscription.history_sample_slots (reader s)) q' (md, payload))) /\
      Forall (fun n => n <= default 0 (<[SubscriptionFacts.gid_of view := Data.sequence_number view]>
        seen !! gid)) (taken_numbers (taken s) ++
        queued_numbers (keep_last (Subscription.history_sample_slots (reader s)) q' (md, payload))))
      as [Hsort' Hseen'].
    { destruct (decide (SubscriptionFacts.gid_of view = gid)) as [Hg|Hg].
      - rewrite Hg, lookup_insert_eq. cbn [default from_option].
        eapply (numbers_received _ _ _ _ _ (default 0 (seen !! gid))); [done..| |].
        + rewrite Hg in Hlast. destruct (seen !! gid); [by apply Hlast|].
          simpl. destruct (Hown Hg). lia.
        + unfold queued_numbers. rewrite filter_cons, decide_True by done. done.
      - rewrite lookup_insert_ne by done. apply numbers_foreign; [done..|].
        unfold queued_numbers. rewrite filter_cons, decide_False by done. done. }
    split; cbn [writer reader published wire taken]; try done.
    + congruence.
    + intros md' payload' [Hin|[= -> ->]]%keep_last_elem Hg; [by apply Hqr|]. by apply Hown.
Qed.

Lemma take_step s q q' seen dst shutdown m info r' :
  inv s q q' seen -> laid_out lang analysis_fuel p dst ->
  (forall src, src ∈ published s -> has_room lang analysis_fuel p src dst) ->
  Subscription.rmw_take_with_info (reader s) shutdown (Some dst) true true false
    = Done (true, m, Some info, r') ->
  exists q1, inv {| writer := writer s; reader := r'; published := published s;
                    wire := wire s; taken := taken s ++ [(info, m)] |} q q1 seen.
Proof.
  intros Hinv Hlaid Hroom Htake. destruct Hmatch as [Hdis _ Hcr Hts Hti Htab _ _].
  pose proof Hinv as [Hw Hws Hnext Hms Hq Hwire Hr Hrs Hqr Htk Hsort Hseen].
  unfold Subscription.rmw_take_with_info in Htake. cbn [negb stop_if mbind outcome_bind] in Htake.
  pose proof (SubscriptionFacts.take_outcome (reader s) q' seen p shutdown dst true Hr) as Ho.
  rewrite Hrs, Hti, Hts in Ho. specialize (Ho Hcr Htab Hlaid).
  destruct shutdown; [by rewrite Ho in Htake|].
  destruct q' as [|[md payload] q1]; [by rewrite Ho in Htake|].
  destruct (Subscription.decode_into _ _ _ _) as [| |m'] eqn:Hdec; [done|by rewrite Ho in Htake|].
  destruct Ho as (_ & Ho & Hq'). rewrite Ho in Htake. injection Htake as <- <- <-. exists q1.
  assert (taken_numbers (taken s ++ [(Subscription.message_info md, m')]) ++ queued_numbers q1 =
    taken_numbers (taken s) ++ queued_numbers ((md, payload) :: q1)) as Hnumbers.
  { rewrite taken_numbers_app, <- app_assoc. f_equal.
    change ((md, payload) :: q1) with ([(md, payload)] ++ q1). rewrite queued_numbers_app. f_equal.
    unfold taken_numbers, queued_numbers. rewrite !filter_cons. cbn [fst Subscription.message_info
      Subscription.info_gid]. by case_decide. }
  split; cbn [writer reader published wire taken]; try done.
  - intros md' payload' Hin. apply Hqr. by right.
  - intros info msg [Hin|Hin%list_elem_of_singleton]%elem_of_app Hg; [by apply Htk|].
    injection Hin as -> ->. cbn [Subscription.info_gid Subscription.info_publication
      Subscription.message_info] in *.
    assert (carries (published s) (Subscription.publication_sequence_number md) payload) as Hc
      by (apply (Hqr md payload); [left|done]).
    destruct (well_formed_values _ _ _ _ _ _ Hinv Hc)
      as (src & vs & Hsrc & Hload & Hvs & -> & Hvok & _ & Hfit).
    exists src. split; [done|]. rewrite Hvs.
    pose proof (SubscriptionFacts.qu_setup _ _ _ Hr) as Hs. rewrite Hrs in Hs.
    destruct (SubscriptionFacts.decode_into_encoded rs p src dst vs Hs) as (dst' & Hd & Hv);
      rewrite ?Hts, ?Hti; try done; [by apply Hroom|].
    rewrite Hd in Hdec. injection Hdec as ->. by rewrite Hti in Hv.
  - by rewrite Hnumbers.
  - by rewrite Hnumbers.
Qed.

Lemma step_inv s s' :
  step s s' -> (exists q q' seen, inv s q q' seen) -> exists q q' seen, inv s' q q' seen.
Proof.
  intros Hstep (q & q' & seen & Hinv). destruct Hstep.
  - edestruct publish_step as [q1 ?]; [done..|]. by exists q1, q', seen.
  - exists q, q', seen. by eapply publish_fails_step.
  - exists q, q', seen. by eapply transmit_step.
  - edestruct receive_step as (q1 & seen1 & ?); [done..|]. by exists q, q1, seen1.
  - edestruct take_step as [q1 ?]; [done..|]. by exists q, q1, seen.
Qed.

(** A publisher and a subscription as created, before anything happened. *)
Record initial (s : system) : Prop := {
  it_writer : PublisherFacts.publishes (writer s) [];
  it_writer_setup : Publisher.setup (writer s) = ws;
  it_next : Publisher.next_sequence (writer s) = 1;
  it_reader : SubscriptionFacts.queues (reader s) [] ∅;
  it_reader_setup : Subscription.setup (reader s) = rs;
  it_published : published s = [];
  it_wire : wire s = [];
  it_taken : taken s = [];
}.

Lemma initial_inv s : initial s -> exists q q' seen, inv s q q' seen.
Proof.
  intros [Hw Hws Hn Hr Hrs Hp Hwi Ht]. exists [], [], ∅.
  split; rewrite ?Hp, ?Hwi, ?Ht; try done; try (by intros ? ?%not_elem_of_nil);
    try (by intros ? ? ?%not_elem_of_nil); constructor.
Qed.

Lemma reachable_inv s0 s :
  initial s0 -> rtc step s0 s -> exists q q' seen, inv s q q' seen.
Proof.
  intros Hi Hrun. apply initial_inv in Hi. induction Hrun as [|s1 s2 s3 Hs Hr IH]; [done|].
  apply IH. by eapply step_inv.
Qed.
End Steps.

(** C2: end to end.  After any sequence of publications, transmissions, receptions (with
    packets lost, repeated, reordered, and packets of other writers in between) and takes,
    the samples of the publisher that the application took came with strictly increasing
    sequence numbers, and each holds the values of the message that was published under its
    number. *)
Theorem pubsub_delivery s0 s :
  matched_setup -> initial s0 -> rtc step s0 s ->
  StronglySorted Z.lt (taken_numbers (taken s)) /\
  forall info m, (info, m) ∈ taken s -> Subscription.info_gid info = gid ->
    exists src, mload (published s) (Subscription.info_publication info - 1) = Some src /\
      values m = values src /\ is_Some (values src).
Proof.
  intros Hm Hi Hrun. destruct (reachable_inv Hm s0 s Hi Hrun) as (q & q' & seen & Hinv).
  split.
  - eapply sorted_sublist; [|apply Hinv]. apply sublist_inserts_r. done.
  - intros info m Hin Hg. destruct (in_taken _ _ _ _ Hinv info m Hin Hg) as (src & Hl & Hv).
    exists src. split_and!; try done.
    assert (src ∈ published s) as Hs.
    { apply mload_Some in Hl as [_ Hl]. by eapply list_elem_of_lookup_2. }
    destruct (in_published _ _ _ _ Hinv src Hs) as (_ & vs & -> & _). by eexists.
Qed.
End Runtime.

(** ** A run with the endpoints of the tests *)

Import SampleTypes SampleEndpoints.

Definition sample_start : system :=
  {| writer := sample_writer topic; reader := sample_reader topic; published := [];
     wire := []; taken := [] |}.

Lemma sample_matched :
  matched_setup (Publisher.setup (sample_writer topic))
    (Subscription.setup (sample_reader topic)) 1.
Proof.
  destruct (PublisherFacts.sample_publishes topic) as (_ & Hc & Ht & Hi & Hp & Hw).
  destruct (SubscriptionFacts.sample_queues topic) as (_ & Hc' & Ht' & Hi').
  split; rewrite ?Hp, ?Hw; try congruence.
  - apply sample_disjoint.
  - by rewrite Ht.
  - repeat constructor; by vm_compute.
  - repeat constructor; by vm_compute.
Qed.

Lemma sample_initial :
  initial (Publisher.setup (sample_writer topic)) (Subscription.setup (sample_reader topic))
    sample_start.
Proof.
  destruct (PublisherFacts.sample_publishes topic) as (Hw & _).
  destruct (SubscriptionFacts.sample_queues topic) as (Hr & _).
  split; try reflexivity; [exact Hw|exact Hr].
Qed.

(** The message is published, transmitted, received and taken. *)
Lemma sample_run :
  exists s info m,
    rtc (step (Publisher.setup (sample_writer topic)) 1) sample_start s /\
    published s = [c_source] /\ taken s = [(info, m)] /\
    Subscription.info_gid info = writer_prefix ++ Publisher.writer_id_of 0 /\
    Subscription.info_publication info = 1.
Proof.
  destruct (PublisherFacts.sample_publishes topic) as (_ & _ & _ & Hi & _).
  assert (well_formed (Publisher.setup (sample_writer topic)) 1 c_source) as Hwf.
  { unfold well_formed, values. rewrite Hi. change (language c_info) with introspection_c.
    split; [by apply c_message_laid|]. intros vs Hvs. vm_compute in Hvs. injection Hvs as <-.
    apply (bool_decide_unpack _). by vm_compute. }
  assert (Publisher.rmw_publish (sample_writer topic) false (Some c_source) false
    (Some (10, 500)) = Done published_writer) as Hpub by (by vm_compute).
  assert (exists n size buffer, Publisher.publisher_network_copy_next published_writer 0
    (Some (replicate 128 0)) 128 = Done (n, size, Some buffer) /\
    take (Z.to_nat size) buffer = sample_packet) as (n & size & buffer & Hcopy & Hpacket).
  { eexists _, _, _. split; [by vm_compute|]. rewrite sample_packet_bytes. by vm_compute. }
  assert (Subscription.subscription_network_receive (E := unit) (sample_reader topic) false
    (Some sample_packet) (zlen sample_packet) 5 = Done (true, received_reader)) as Hrecv
    by (by vm_compute).
  assert (match Subscription.rmw_take_with_info received_reader false (Some c_destination) true
    true false with
    | Done (true, _, Some info, _) =>
        Subscription.info_gid info = writer_prefix ++ Publisher.writer_id_of 0 /\
        Subscription.info_publication info = 1
    | _ => False end) as Htake by (vm_compute; split; reflexivity).
  destruct (Subscription.rmw_take_with_info received_reader false (Some c_destination) true true
    false) as [|[[? ?] ?]|[[[[] m] [info|]] r']] eqn:Ht; try (exfalso; exact Htake).
  set (ws := Publisher.setup (sample_writer topic)) in *.
  set (s1 := {| writer := published_writer; reader := sample_reader topic;
                published := [c_source]; wire := []; taken := [] |}).
  set (s2 := {| writer := published_writer; reader := sample_reader topic;
                published := [c_source]; wire := [sample_packet]; taken := [] |}).
  set (s3 := {| writer := published_writer; reader := received_reader;
                published := [c_source]; wire := [sample_packet]; taken := [] |}).
  exists {| writer := published_writer; reader := r'; published := [c_source];
            wire := [sample_packet]; taken := [(info, m)] |}, info, m.
  split; [|split; [reflexivity|split; [reflexivity|exact Htake]]].
  apply rtc_l with s1; [exact (step_publish ws 1 sample_start c_source false (Some (10, 500))
    published_writer Hwf Hpub)|].
  apply rtc_l with s2.
  { unfold s2. rewrite <- Hpacket. refine (step_transmit ws 1 s1 0 (replicate 128 0) 128 n size buffer _ _ Hcopy);
      [|lia]. rewrite length_replicate. lia. }
  apply rtc_l with s3.
  { refine (step_receive ws 1 s2 sample_packet (zlen sample_packet) false 5 true received_reader
      SubscriptionFacts.sample_message_ok _ Hrecv). intros view _ _. split; [left|reflexivity]. }
  apply rtc_once. refine (step_take ws 1 s3 c_destination false m info r' _ _ Ht).
  - rewrite Hi. by apply c_message_laid.
  - rewrite Hi. intros src Hsrc%list_elem_of_singleton. subst src. apply c_room.
Qed.

(** What was taken holds the values of the source message. *)
Lemma pubsub_delivery_witness :
  exists s info m, taken s = [(info, m)] /\ Subscription.info_publication info = 1 /\
    values (Publisher.setup (sample_writer topic)) 1 m =
    values (Publisher.setup (sample_writer topic)) 1 c_source.
Proof.
  destruct sample_run as (s & info & m & Hrun & Hp & Ht & Hg & Hn).
  destruct (pubsub_delivery (Publisher.setup (sample_writer topic))
    (Subscription.setup (sample_reader topic)) 1 sample_start s sample_matched sample_initial Hrun)
    as [_ Hall].
  destruct (PublisherFacts.sample_publishes topic) as (_ & _ & _ & _ & Hpre & Hw).
  rewrite Ht, Hpre, Hw in Hall.
  destruct (Hall info m ltac:(by left) Hg) as (src & Hl & Hv & _).
  rewrite Hp, Hn in Hl. injection Hl as <-. exists s, info, m.
  split; [exact Ht|]. split; [exact Hn|exact Hv].
Defined.

End PubSub.
