(* ===== verification/Services.v ===== *)
(** * Services of the ROS binding

    [rmw_openrtdds_cpp/src/services.cpp]: a client is a publisher of requests and a
    subscription to responses with a table of outstanding requests; a service is a
    subscription to requests and a publisher of responses.  [network_runtime.cpp] assigns
    the prefix that every identifier of a context starts with.

    The endpoints behind the handles are part of the client's and the service's record.  As
    for the endpoints, handle checks and the allocator are not modelled. *)
From stdpp Require Import list.
From S2P Require Import Prelude Types Texts Introspection TypeSupport Endpoint Publisher Subscription.

Module Services.
Import Types Texts Introspection TypeSupport Endpoint.

Definition kServiceOutstandingCapacity : Z := 32.

Record OutstandingRequest : Set := {
  sequence : Z;
  occupied : bool;
}.

Definition OutstandingRequest_default : OutstandingRequest :=
  {| sequence := 0; occupied := false |}.

Record ClientData : Type := {
  request_publisher : Publisher.PublisherData;
  response_subscription : Subscription.SubscriptionData;
  gid : list Z;
  next_sequence : Z;
  outstanding : list OutstandingRequest;
}.

Record ServiceData : Type := {
  request_subscription : Subscription.SubscriptionData;
  response_publisher : Publisher.PublisherData;
}.

(** ** Types of a service *)

(** [rosidl_service_type_support_t]; [service_func] tells whether [func] is not null. *)
Record service_type_support : Type := {
  service_identifier : option (list Z);
  service_func : bool;
  request_typesupport : option type_support;
  response_typesupport : option type_support;
}.

Record ServiceTypes : Type := {
  request : type_support;
  response : type_support;
}.

Section Types.
Context `{RosRuntime}.

(** [get_handle] is rosidl's [get_service_typesupport_handle].  [None] is [false]. *)
Definition resolve_service_types
    (get_handle : service_type_support -> list Z -> option service_type_support)
    (ts : option service_type_support) : outcome unit (option ServiceTypes) :=
  match ts with
  | None => Done None
  | Some h =>
      match service_identifier h with
      | None => Done None
      | Some identifier =>
          is_c ← same_text identifier c_identifier;
          introspection ← (if (is_c : bool) then Done true
                           else same_text identifier cpp_identifier);
          let resolved :=
            if (introspection : bool) then Some h
            else if service_func h then
              match get_handle h c_identifier with
              | Some r => Some r
              | None => get_handle h cpp_identifier
              end
            else None in
          match resolved with
          | None => Done None
          | Some r =>
              if bool_decide (request_typesupport r = None) ||
                 bool_decide (response_typesupport r = None) then Done None
              else match resolve_type_support (request_typesupport r) with
              | Fault => Fault
              | Stop _ => Done None
              | Done req =>
                  match resolve_type_support (response_typesupport r) with
                  | Fault => Fault
                  | Stop _ => Done None
                  | Done res => Done (Some {| request := req; response := res |})
                  end
              end
          end
      end
  end.
End Types.

(** ** Clients *)

(** [prefix] of [NetworkRuntime::configure_sockets]: the participant prefix of a context. *)
Definition context_prefix (actual_domain_id participant_id process : Z) : GuidPrefix :=
  [79; 82; 84; 68; 68; 83; u8 actual_domain_id; u8 participant_id;
   u8 (Z.shiftr process 24); u8 (Z.shiftr process 16); u8 (Z.shiftr process 8); u8 process].

(** The [ClientData] of [rmw_create_client] around its endpoints; the identifier is the
    publisher's. *)
Definition create_client_data (publisher : Publisher.PublisherData)
    (subscription : Subscription.SubscriptionData) : ClientData :=
  {| request_publisher := publisher; response_subscription := subscription;
     gid := Publisher.gid (Publisher.setup publisher); next_sequence := 1;
     outstanding := replicate (Z.to_nat kServiceOutstandingCapacity)
                      OutstandingRequest_default |}.

Definition request_id_equal (left right : rmw_request_id_t) : bool :=
  (request_sequence left =? request_sequence right) &&
  bool_decide (writer_guid left = writer_guid right).

(** The first free entry of the table. *)
Fixpoint free_slot (index : Z) (l : list OutstandingRequest) : option Z :=
  match l with
  | [] => None
  | r :: l' => if negb (occupied r) then Some index else free_slot (index + 1) l'
  end.

(** The loop of [accept_client_response]. *)
Fixpoint outstanding_entry (number : Z) (index : Z) (l : list OutstandingRequest)
    : option Z :=
  match l with
  | [] => None
  | r :: l' =>
      if occupied r && (sequence r =? number) then Some index
      else outstanding_entry number (index + 1) l'
  end.

(** [accept_client_response]: the entry that [filter->match] is set to, [None] when the
    response is not accepted. *)
Definition accept_client_response (client : ClientData) (candidate : rmw_request_id_t)
    : option Z :=
  let expected := {| writer_guid := gid client;
                     request_sequence := request_sequence candidate |} in
  if negb (request_id_equal expected candidate) then None
  else outstanding_entry (request_sequence candidate) 0 (outstanding client).

Definition set_endpoints (c : ClientData) (publisher : Publisher.PublisherData)
    (subscription : Subscription.SubscriptionData) : ClientData :=
  {| request_publisher := publisher; response_subscription := subscription; gid := gid c;
     next_sequence := next_sequence c; outstanding := outstanding c |}.

Section Calls.
Context `{RosRuntime}.

(** [rmw_send_request] for a valid handle; [sequence_output] tells whether [sequence_id] is
    not null.  [Done] holds the sequence number of the request. *)
Definition rmw_send_request (c : ClientData) (shutdown : bool) (ros_request : option storage)
    (sequence_output : bool) (clock : option (Z * Z))
    : outcome (rmw_ret_t * ClientData) (Z * ClientData) :=
  stop_if (bool_decide (ros_request = None) || negb sequence_output)
    (RMW_RET_INVALID_ARGUMENT, c);;
  match free_slot 0 (outstanding c) with
  | None => Stop (RMW_RET_ERROR, c)
  | Some slot =>
      stop_if ((next_sequence c <=? 0) || (next_sequence c =? i64_max)) (RMW_RET_ERROR, c);;
      guid ← access (mslice (gid c) 0 gid_storage_size);
      let id := {| writer_guid := guid; request_sequence := next_sequence c |} in
      publisher ← map_stop
          (fun '(ret, p) => (ret, set_endpoints c p (response_subscription c)))
          (Publisher.publish_service_sample (request_publisher c) shutdown id ros_request clock);
      table ← access (mstore (outstanding c) slot
                {| sequence := next_sequence c; occupied := true |});
      Done (next_sequence c,
            {| request_publisher := publisher;
               response_subscription := response_subscription c; gid := gid c;
               next_sequence := next_sequence c + 1; outstanding := table |})
  end.

(** The [for (;;)] of [rmw_take_response]; [fuel] bounds its iterations, and running out
    of it is a fault. *)
Fixpoint take_response_loop (fuel : nat) (c : ClientData) (shutdown : bool)
    (message : storage)
    : outcome (rmw_ret_t * storage * ClientData)
        (option Subscription.rmw_service_info_t * storage * ClientData) :=
  match fuel with
  | O => Fault
  | S fuel =>
      match Subscription.take_service (response_subscription c) shutdown true (Some message)
              true (Some (fun id => bool_decide (is_Some (accept_client_response c id)))) with
      | Fault => Fault
      | Stop (ret, _, m) => m ← access m; Stop (ret, m, c)
      | Done (None, m, d) =>
          let c := set_endpoints c (request_publisher c) d in
          if Subscription.subscription_wait_ready d
          then take_response_loop fuel c shutdown m
          else Done (None, m, c)
      | Done (Some info, m, d) =>
          let found := accept_client_response c (Subscription.request_id info) in
          let c := set_endpoints c (request_publisher c) d in
          match found with
          | None => take_response_loop fuel c shutdown m
          | Some entry =>
              r ← access (mload (outstanding c) entry);
              table ← access (mstore (outstanding c) entry
                        {| sequence := sequence r; occupied := false |});
              Done (Some info, m,
                    {| request_publisher := request_publisher c; response_subscription := d;
                       gid := gid c; next_sequence := next_sequence c;
                       outstanding := table |})
          end
      end
  end.

(** [rmw_take_response] for a valid handle; one iteration for each queued sample and one
    more are enough. *)
Definition rmw_take_response (c : ClientData) (shutdown : bool) (header_output : bool)
    (ros_response : option storage) (taken_output : bool)
    : outcome (rmw_ret_t * option storage * ClientData)
        (option Subscription.rmw_service_info_t * storage * ClientData) :=
  match ros_response with
  | None => Stop (RMW_RET_INVALID_ARGUMENT, None, c)
  | Some message =>
      stop_if (negb header_output || negb taken_output)
        (RMW_RET_INVALID_ARGUMENT, Some message, c);;
      map_stop (fun '(ret, m, c) => (ret, Some m, c))
        (take_response_loop
           (S (Z.to_nat (Subscription.history_size (response_subscription c)))) c shutdown
           message)
  end.

(** ** Services *)

Definition rmw_take_request (v : ServiceData) (shutdown header_output : bool)
    (ros_request : option storage) (taken_output : bool)
    : outcome (rmw_ret_t * option bool * option storage)
        (option Subscription.rmw_service_info_t * storage * ServiceData) :=
  '(info, m, d) ← Subscription.take_service (request_subscription v) shutdown header_output
                    ros_request taken_output None;
  Done (info, m, {| request_subscription := d; response_publisher := response_publisher v |}).

Definition rmw_send_response (v : ServiceData) (shutdown : bool)
    (request_header : option rmw_request_id_t) (ros_response : option storage)
    (clock : option (Z * Z)) : outcome (rmw_ret_t * ServiceData) ServiceData :=
  let with_publisher p :=
    {| request_subscription := request_subscription v; response_publisher := p |} in
  match request_header, ros_response with
  | Some id, Some m =>
      p ← map_stop (fun '(ret, p) => (ret, with_publisher p))
            (Publisher.publish_service_sample (response_publisher v) shutdown id (Some m)
               clock);
      Done (with_publisher p)
  | _, _ => Stop (RMW_RET_INVALID_ARGUMENT, v)
  end.
End Calls.

Definition client_wait_ready (c : ClientData) : bool :=
  Subscription.subscription_wait_ready (response_subscription c).

Definition service_wait_ready (v : ServiceData) : bool :=
  Subscription.subscription_wait_ready (request_subscription v).

(** [is_available] of [rmw_service_server_is_available] *)
Definition rmw_service_server_is_available (c : ClientData) : bool :=
  negb (matched (Publisher.match_status (request_publisher c)) =? 0) &&
  negb (matched (Subscription.match_status (response_subscription c)) =? 0).

End Services.
