(* ===== verification/ServicesFacts.v ===== *)
(** * Clients and services: correlation

    Facts about [Services.v]: the envelope of a service sample reads back as it was
    written; [rmw_take_response] terminates and completes an outstanding request once; and
    no request of a context ever reaches the wire. *)
From stdpp Require Import list gmap.
From S2P Require Import Prelude Types Bytes MessageRouter DataMessage Introspection TypeSupport CodecSpec Xcdr1Codec CodecTheorems SampleRing Qos Endpoint Publisher Subscription SampleTypes SampleEndpoints PublisherFacts SubscriptionFacts Services.

Module ServicesFacts.
Import Types Introspection TypeSupport CodecSpec Codec CodecTheorems SampleRing Endpoint Services.

(** ** The envelope *)

Lemma correlation_encodes id :
  PublisherFacts.correlation id =
  writer_guid id ++ encode_uint little_endian 8 (u64 (request_sequence id)).
Proof.
  unfold PublisherFacts.correlation, encode_uint. f_equal. apply list_fmap_ext. intros i x _.
  unfold byte_of, u8. change 255 with (Z.ones 8). by rewrite Z.land_ones by lia.
Qed.

Lemma read_correlation_loop {E} sample :
  Subscription.read_correlation sample =
  (g ← access (mslice sample 0 16);
   n ← load_loop sample 16 8 little_endian;
   Done {| writer_guid := g; request_sequence := signed 64 n |} : outcome E _).
Proof. reflexivity. Qed.

Lemma correlation_read {E} id rest :
  length (writer_guid id) = 16%nat -> - 2 ^ 63 <= request_sequence id < 2 ^ 63 ->
  Subscription.read_correlation (PublisherFacts.correlation id ++ rest) =
  (Done id : outcome E _).
Proof.
  intros Hg Hs. rewrite read_correlation_loop, correlation_encodes, <- app_assoc.
  rewrite (mslice_start (writer_guid id)) by lia. cbn [access mbind outcome_bind].
  rewrite load_loop_encode by lia. cbn [mbind outcome_bind]. change (8 * 8) with 64.
  unfold u64. rewrite Z.mod_mod, (signed_roundtrip 64) by lia. by destruct id.
Qed.

Lemma read_correlation_safe {E} sample :
  24 <= zlen sample ->
  exists id, Subscription.read_correlation sample = (Done id : outcome E _).
Proof.
  intros Hl. rewrite read_correlation_loop.
  destruct (proj2 (mslice_is_Some sample 0 16)) as [g ->]; [lia|]. cbn [access mbind outcome_bind].
  pose proof (load_loop_safe (E := E) sample 16 8 little_endian ltac:(lia) ltac:(lia)) as Hs.
  pose proof (load_loop_no_stop (E := E) sample 16 8 little_endian) as Hn.
  destruct (load_loop _ _ _ _) as [|e|n]; [by destruct Hs|by destruct (Hn e)|]. by eexists.
Qed.

(** The identity in a queued sample; [None] for one that is too short. *)
Definition sample_id (payload : list Z) : option rmw_request_id_t :=
  if zlen payload <=? 24 then None
  else match (Subscription.read_correlation payload
              : outcome (rmw_ret_t * option bool * option storage) _) with
       | Done id => Some id
       | _ => None
       end.

(** ** The table of outstanding requests *)

(** The sequence numbers that wait for a response. *)
Definition pending (l : list OutstandingRequest) : list Z :=
  sequence <$> filter (fun r => occupied r = true) l.

Lemma pending_app l1 l2 : pending (l1 ++ l2) = pending l1 ++ pending l2.
Proof. unfold pending. by rewrite filter_app, fmap_app. Qed.

Lemma outstanding_entry_spec n l : forall k,
  match outstanding_entry n k l with
  | Some i => exists l1 r l2, l = l1 ++ r :: l2 /\ i = k + zlen l1 /\ occupied r = true /\
                sequence r = n
  | None => n ∉ pending l
  end.
Proof.
  induction l as [|r l IH]; intros k; simpl; [apply not_elem_of_nil|].
  destruct (occupied r) eqn:Ho; cbn [andb].
  - destruct (Z.eqb_spec (sequence r) n) as [Hn|Hn].
    + exists [], r, l. simpl. split_and!; [done|lia|done..].
    + specialize (IH (k + 1)). destruct (outstanding_entry n (k + 1) l) as [i|].
      * destruct IH as (l1 & r' & l2 & -> & -> & Hr). exists (r :: l1), r', l2.
        split_and!; [done|simpl; lia|apply Hr..].
      * unfold pending in *. rewrite filter_cons, decide_True by done. simpl.
        apply not_elem_of_cons. split; [congruence|done].
  - specialize (IH (k + 1)). destruct (outstanding_entry n (k + 1) l) as [i|].
    + destruct IH as (l1 & r' & l2 & -> & -> & Hr). exists (r :: l1), r', l2.
      split_and!; [done|simpl; lia|apply Hr..].
    + unfold pending in *. by rewrite filter_cons, decide_False by congruence.
Qed.

Lemma free_slot_spec l : forall k,
  match free_slot k l with
  | Some i => exists l1 r l2, l = l1 ++ r :: l2 /\ i = k + zlen l1 /\ occupied r = false
  | None => length (pending l) = length l
  end.
Proof.
  induction l as [|r l IH]; intros k; simpl; [done|].
  destruct (occupied r) eqn:Ho; cbn [negb].
  - specialize (IH (k + 1)). destruct (free_slot (k + 1) l) as [i|].
    + destruct IH as (l1 & r' & l2 & -> & -> & Hr). exists (r :: l1), r', l2.
      split_and!; [done|simpl; lia|done].
    + unfold pending in *. rewrite filter_cons, decide_True by done. cbn. f_equal. exact IH.
  - exists [], r, l. simpl. split_and!; [done|lia|done].
Qed.

(** A client with its table: distinct numbers below the next one. *)
Record client_ok (c : ClientData) : Prop := {
  cl_table : zlen (outstanding c) = kServiceOutstandingCapacity;
  cl_next : 1 <= next_sequence c <= i64_max;
  cl_pending n : n ∈ pending (outstanding c) -> 1 <= n < next_sequence c;
  cl_distinct : NoDup (pending (outstanding c));
  cl_gid : length (gid c) = 16%nat;
}.

(** Completing a request takes its number out of the table. *)
Lemma complete_request c n i :
  client_ok c -> outstanding_entry n 0 (outstanding c) = Some i ->
  exists r table, mload (outstanding c) i = Some r /\ sequence r = n /\
    mstore (outstanding c) i {| sequence := sequence r; occupied := false |} = Some table /\
    pending (outstanding c) ≡ₚ n :: pending table /\ length table = length (outstanding c).
Proof.
  intros Hc Hi. pose proof (outstanding_entry_spec n (outstanding c) 0) as Hs. rewrite Hi in Hs.
  destruct Hs as (l1 & r & l2 & Hl & Hil & Ho & Hn). rewrite Hl, Z.add_0_l in *. subst i.
  exists r. eexists. split; [by rewrite mload_app_r, Z.sub_diag by lia|]. split; [done|].
  split; [by apply mstore_middle|]. rewrite !length_app, !pending_app. split; [|done].
  unfold pending at 2 4. rewrite !filter_cons, decide_True, decide_False by done.
  cbn [fmap list_fmap]. rewrite Hn. symmetry. apply Permutation_middle.
Qed.

(** ** Taking a service sample *)

Section Runtime.
Context `{GeneratedTypes}.

Definition service_info (md : Subscription.SubscriptionSampleMetadata) (id : rmw_request_id_t)
    : Subscription.rmw_service_info_t :=
  {| Subscription.service_source_timestamp := signed 64 (Subscription.source_timestamp_ns md);
     Subscription.service_received_timestamp :=
       signed 64 (Subscription.received_timestamp_ns md);
     Subscription.request_id := id |}.

(** The message behind the envelope. *)
Definition decode_body (s : Subscription.SubscriptionSetup) (payload : list Z)
    (message : storage) : outcome storage storage :=
  Subscription.decode_into s (drop 24 payload) (zlen payload - 24) message.

Lemma take_service_outcome d q seen p message accept :
  SubscriptionFacts.queues d q seen ->
  Subscription.channel (Subscription.setup d) <> topic ->
  data (Subscription.type_support (Subscription.setup d)) = Some p ->
  laid_out (language (Subscription.type_info (Subscription.setup d))) analysis_fuel p message ->
  match q with
  | [] => Subscription.take_service d false true (Some message) true (Some accept)
          = Done (None, message, d)
  | (md, payload) :: q' =>
      match sample_id payload with
      | None => zlen payload <= 24 /\
          Subscription.take_service d false true (Some message) true (Some accept)
          = Stop (RMW_RET_ERROR, Some false, Some message)
      | Some id =>
          SubscriptionFacts.queues (Subscription.consume d 1) q' seen /\
          if accept id then
            match decode_body (Subscription.setup d) payload message with
            | Fault => False
            | Stop m => m = message /\
                Subscription.take_service d false true (Some message) true (Some accept)
                = Stop (RMW_RET_ERROR, Some false, Some message)
            | Done m =>
                Subscription.take_service d false true (Some message) true (Some accept)
                = Done (Some (service_info md id), m, Subscription.consume d 1)
            end
          else Subscription.take_service d false true (Some message) true (Some accept)
               = Done (None, message, Subscription.consume d 1)
      end
  end.
Proof.
  intros Hq Hch Hp Hlaid. unfold Subscription.take_service.
  rewrite bool_decide_false by done. cbn [negb orb stop_if mbind outcome_bind].
  pose proof (SubscriptionFacts.qu_setup _ _ _ Hq) as Hs.
  pose proof (SubscriptionFacts.subscription_sizes _ Hs) as Hz. cbv zeta in Hz.
  rewrite (SubscriptionFacts.qu_size _ _ _ Hq). destruct q as [|[md payload] q']; [done|].
  destruct (Z.eqb_spec (zlen ((md, payload) :: q')) 0) as [Hzero|_]; [simpl in Hzero; lia|].
  destruct (SubscriptionFacts.sample_at_head (E := rmw_ret_t * option bool * option storage)
    d md payload q' seen Hq) as (-> & Hsz & Hcap & Hb).
  cbn [mbind outcome_bind]. rewrite Hsz. change kServiceCorrelationSize with 24. unfold sample_id.
  destruct (Z.leb_spec (zlen payload) 24) as [Hshort|Hlong]; [done|].
  cbn [stop_if mbind outcome_bind].
  destruct (read_correlation_safe (E := rmw_ret_t * option bool * option storage) payload)
    as [id ->]; [lia|]. cbn [mbind outcome_bind].
  pose proof (SubscriptionFacts.consume_queues _ _ _ _ Hq) as Hq'. split; [done|].
  change (Qos.history_sample_slots (Subscription.resources (Subscription.setup d)))
    with (Subscription.history_sample_slots d) in Hz.
  destruct (Z.eqb_spec (Subscription.history_sample_slots d) 0); [lia|].
  destruct (accept id); [|done]. cbn [negb]. rewrite sub64_id by lia.
  assert (mslice payload 24 (zlen payload - 24) = Some (drop 24 payload)) as ->.
  { apply mslice_Some. split_and!; [lia..|]. rewrite take_ge; [done|]. rewrite length_drop. lia. }
  cbn [access mbind outcome_bind]. fold (decode_body (Subscription.setup d) payload message).
  assert (zlen (drop 24 payload) = zlen payload - 24) as Hdl by (rewrite length_drop; lia).
  assert (PublisherFacts.envelope_size (Subscription.channel (Subscription.setup d)) = 24) as He
    by (unfold PublisherFacts.envelope_size; by rewrite bool_decide_true).
  pose proof (SubscriptionFacts.decode_into_spec _ p (drop 24 payload) message Hs Hp
    (Forall_drop _ _ _ Hb) ltac:(lia) Hlaid) as Hd.
  unfold decode_body. rewrite Hdl in Hd.
  destruct (Subscription.decode_into _ _ _ _) as [|m|m]; [done|by subst m|]. done.
Qed.

(** ** Taking a response *)

Definition accepts (c : ClientData) (id : rmw_request_id_t) : bool :=
  bool_decide (is_Some (accept_client_response c id)).

Lemma accepts_inv c id i :
  accept_client_response c id = Some i ->
  writer_guid id = gid c /\ outstanding_entry (request_sequence id) 0 (outstanding c) = Some i.
Proof.
  unfold accept_client_response, request_id_equal. cbn [request_sequence writer_guid].
  rewrite Z.eqb_refl. cbn [andb]. case_bool_decide; [|done]. cbn [negb]. done.
Qed.

(** The queue from the first sample on that is not for somebody else. *)
Fixpoint next_response (c : ClientData) (q : list SubscriptionFacts.sample)
    : list SubscriptionFacts.sample :=
  match q with
  | [] => []
  | (md, payload) :: q' =>
      match sample_id payload with
      | Some id => if accepts c id then q else next_response c q'
      | None => q
      end
  end.

(** The client behind a call that completes nothing. *)
Definition same_requests (c c' : ClientData) : Prop :=
  gid c' = gid c /\ next_sequence c' = next_sequence c /\ outstanding c' = outstanding c.

Lemma next_response_same c c' q :
  same_requests c c' -> next_response c' q = next_response c q.
Proof.
  intros (Hg & Hn & Ho). induction q as [|[md payload] q IH]; simpl; [done|].
  unfold accepts, accept_client_response. by rewrite Hg, Ho, IH.
Qed.

Lemma client_ok_same c c' : same_requests c c' -> client_ok c -> client_ok c'.
Proof. intros (Hg & Hn & Ho) []. split; by rewrite ?Hg, ?Hn, ?Ho. Qed.

Definition response_result (c : ClientData) (message : storage)
    (q : list SubscriptionFacts.sample) (seen : gmap (list Z) Z)
    (r : outcome (rmw_ret_t * storage * ClientData)
           (option Subscription.rmw_service_info_t * storage * ClientData)) : Prop :=
  let s := Subscription.setup (response_subscription c) in
  match r with
  | Fault => False
  | Stop (ret, m, c') =>
      ret = RMW_RET_ERROR /\ m = message /\ same_requests c c' /\
      SubscriptionFacts.queues (response_subscription c') q seen /\
      exists md payload q', q = (md, payload) :: q' /\
        (sample_id payload = None \/ decode_body s payload message = Stop message)
  | Done (None, m, c') =>
      q = [] /\ m = message /\ same_requests c c' /\
      SubscriptionFacts.queues (response_subscription c') [] seen
  | Done (Some info, m, c') =>
      exists md payload q' id, q = (md, payload) :: q' /\ sample_id payload = Some id /\
        info = service_info md id /\ writer_guid id = gid c /\
        decode_body s payload message = Done m /\
        (pending (outstanding c) ≡ₚ request_sequence id :: pending (outstanding c')) /\
        client_ok c' /\ SubscriptionFacts.queues (response_subscription c') q' seen
  end.

Lemma response_result_same c c' message q seen r :
  same_requests c c' ->
  Subscription.setup (response_subscription c') = Subscription.setup (response_subscription c) ->
  response_result c' message q seen r -> response_result c message q seen r.
Proof.
  intros (Hg & Hn & Ho) Hs. unfold response_result, same_requests. rewrite Hs, Hg, Hn, Ho. done.
Qed.

Lemma complete_client_ok c n i r table d :
  client_ok c -> mload (outstanding c) i = Some r ->
  pending (outstanding c) ≡ₚ n :: pending table -> length table = length (outstanding c) ->
  client_ok {| request_publisher := request_publisher c; response_subscription := d;
               gid := gid c; next_sequence := next_sequence c; outstanding := table |}.
Proof.
  intros [Ht Hn Hp Hd Hg] Hr Hperm Hl. split; cbn [outstanding next_sequence gid]; try done.
  - by rewrite Hl.
  - intros k Hk. apply Hp. rewrite Hperm. by right.
  - rewrite Hperm in Hd. by apply NoDup_cons in Hd as [_ Hd].
Qed.

Lemma take_response_loop_spec p message seen fuel : forall c q,
  (length q < fuel)%nat -> client_ok c ->
  SubscriptionFacts.queues (response_subscription c) q seen ->
  let s := Subscription.setup (response_subscription c) in
  Subscription.channel s <> topic -> data (Subscription.type_support s) = Some p ->
  laid_out (language (Subscription.type_info s)) analysis_fuel p message ->
  response_result c message (next_response c q) seen (take_response_loop fuel c false message).
Proof.
  induction fuel as [|fuel IH]; intros c q Hf Hc Hq s Hch Hp Hlaid; [lia|].
  cbn [take_response_loop].
  pose proof (take_service_outcome _ q seen p message (accepts c) Hq Hch Hp Hlaid) as Ho.
  destruct q as [|[md payload] q'].
  { change (fun id => bool_decide (is_Some (accept_client_response c id))) with (accepts c).
    rewrite Ho. unfold Subscription.subscription_wait_ready.
    rewrite (SubscriptionFacts.qu_size _ _ _ Hq). cbn. split_and!; done. }
  cbn [next_response].
  change (fun id => bool_decide (is_Some (accept_client_response c id))) with (accepts c).
  destruct (sample_id payload) as [id|] eqn:Hid.
  2:{ destruct Ho as [_ ->]. cbn. split_and!; try done. exists md, payload, q'. split; [done|by left]. }
  destruct Ho as [Hq' Ho]. destruct (accepts c id) eqn:Ha.
  - destruct (decode_body s payload message) as [|m|m] eqn:Hd; subst s; rewrite ?Hd in Ho; [done|..].
    + destruct Ho as [-> ->]. cbn. split_and!; try done. exists md, payload, q'.
      split; [done|by right].
    + rewrite Ho. unfold accepts in Ha. apply bool_decide_eq_true in Ha as [i Hi].
      cbn [Subscription.request_id service_info]. rewrite Hi.
      apply accepts_inv in Hi as [Hg Hi].
      destruct (complete_request c _ i Hc Hi) as (r & table & Hr & Hs & Ht & Hperm & Hl).
      cbn [outstanding set_endpoints]. rewrite Hr. cbn [access mbind outcome_bind].
      rewrite Ht. cbn. exists md, payload, q', id. split_and!; try done.
      eapply complete_client_ok; done.
  - rewrite Ho. set (c' := set_endpoints c _ _).
    assert (same_requests c c') as Hsame by done.
    destruct (Subscription.subscription_wait_ready (Subscription.consume (response_subscription c) 1))
      eqn:Hready.
    + apply (response_result_same c c'); [done..|].
      rewrite <- (next_response_same c c') by done.
      apply IH; [simpl in Hf; lia|by eapply client_ok_same|done..].
    + unfold Subscription.subscription_wait_ready in Hready.
      rewrite (SubscriptionFacts.qu_size _ _ _ Hq') in Hready.
      destruct q' as [|x q']; [|done]. cbn. split_and!; done.
Qed.

(** C19: taking a response terminates, whatever is queued.  Samples for other clients or
    for requests that are not outstanding are dropped; the first other one is either an
    error that stays queued and completes nothing, or it carries this client's identifier
    and an outstanding sequence number, its message is decoded, and exactly that number is
    taken out of the table, so that no request is completed twice. *)
Theorem take_response_exact c q seen p message :
  client_ok c -> SubscriptionFacts.queues (response_subscription c) q seen ->
  let s := Subscription.setup (response_subscription c) in
  Subscription.channel s <> topic -> data (Subscription.type_support s) = Some p ->
  laid_out (language (Subscription.type_info s)) analysis_fuel p message ->
  match rmw_take_response c false true (Some message) true with
  | Fault => False
  | Stop (ret, m, c') =>
      ret = RMW_RET_ERROR /\ m = Some message /\ same_requests c c' /\
      SubscriptionFacts.queues (response_subscription c') (next_response c q) seen /\
      exists md payload q', next_response c q = (md, payload) :: q' /\
        (sample_id payload = None \/ decode_body s payload message = Stop message)
  | Done (None, m, c') =>
      next_response c q = [] /\ m = message /\ same_requests c c' /\
      SubscriptionFacts.queues (response_subscription c') [] seen
  | Done (Some info, m, c') =>
      exists md payload q' id, next_response c q = (md, payload) :: q' /\
        sample_id payload = Some id /\ Subscription.request_id info = id /\
        writer_guid id = gid c /\ decode_body s payload message = Done m /\
        (pending (outstanding c) ≡ₚ request_sequence id :: pending (outstanding c')) /\
        (request_sequence id ∉ pending (outstanding c')) /\
        client_ok c' /\ SubscriptionFacts.queues (response_subscription c') q' seen
  end.
Proof.
  intros Hc Hq s Hch Hp Hlaid. unfold rmw_take_response. cbn [negb orb stop_if mbind outcome_bind].
  pose proof (take_response_loop_spec p message seen
    (S (Z.to_nat (Subscription.history_size (response_subscription c)))) c q) as Ho.
  rewrite (SubscriptionFacts.qu_size _ _ _ Hq), Nat2Z.id in *.
  specialize (Ho ltac:(lia) Hc Hq Hch Hp Hlaid).
  destruct (take_response_loop _ _ _ _) as [|[[ret m] c']|[[[info|] m] c']];
    cbn [map_stop]; [done|..|exact Ho].
  - destruct Ho as (-> & -> & Hrest). split; [done|]. split; [done|]. exact Hrest.
  - destruct Ho as (md & payload & q' & id & ? & ? & -> & ? & ? & Hperm & ? & ?).
    exists md, payload, q', id. split_and!; try done.
    pose proof (cl_distinct _ Hc) as Hd. rewrite Hperm in Hd. by apply NoDup_cons in Hd as [Hd _].
Qed.

(** ** Sending a request *)

Lemma gid_slice c : client_ok c -> mslice (gid c) 0 gid_storage_size = Some (gid c).
Proof.
  intros Hc. pose proof (cl_gid _ Hc) as Hg. replace gid_storage_size with (zlen (gid c)) by
    (rewrite Hg; done). apply mslice_full.
Qed.

(** A request that is sent gets the next sequence number, which is not outstanding,
    and is entered in the table: the numbers of outstanding requests stay distinct and
    below the next one. *)
Theorem send_request_registers c shutdown msg clock n c' :
  client_ok c -> rmw_send_request c shutdown (Some msg) true clock = Done (n, c') ->
  n = next_sequence c /\ (n ∉ pending (outstanding c)) /\
  (pending (outstanding c') ≡ₚ n :: pending (outstanding c)) /\
  next_sequence c' = n + 1 /\ client_ok c'.
Proof.
  intros Hc Hsend. unfold rmw_send_request in Hsend. cbn [negb orb stop_if mbind outcome_bind] in Hsend.
  rewrite bool_decide_false in Hsend by done. cbn [orb stop_if mbind outcome_bind] in Hsend.
  pose proof (free_slot_spec (outstanding c) 0) as Hfree.
  destruct (free_slot 0 (outstanding c)) as [slot|]; [|done].
  destruct Hfree as (l1 & r & l2 & Hl & -> & Hr). rewrite Z.add_0_l in Hsend.
  apply guard_Done in Hsend as [[_ Hmax%Z.eqb_neq]%orb_false_iff Hsend].
  rewrite (gid_slice c Hc) in Hsend. cbn [access mbind outcome_bind] in Hsend.
  apply bind_Done_inv in Hsend as (pub & _ & Hsend). rewrite Hl, mstore_middle in Hsend by done.
  cbn [access mbind outcome_bind] in Hsend. injection Hsend as <- <-.
  destruct Hc as [Ht Hn Hp Hd Hg]. cbn [outstanding next_sequence].
  assert (next_sequence c ∉ pending (outstanding c)) as Hfresh by (intros Hin%Hp; lia).
  assert (pending (l1 ++ {| sequence := next_sequence c; occupied := true |} :: l2) ≡ₚ
    next_sequence c :: pending (outstanding c)) as Hperm.
  { rewrite Hl, !pending_app. unfold pending at 2 4. rewrite !filter_cons, decide_True by done.
    rewrite decide_False by congruence. symmetry. apply Permutation_middle. }
  split_and!; try done.
  split; cbn [outstanding next_sequence gid]; [..|done].
  - rewrite <- Ht, Hl, !length_app. done.
  - unfold i64_max in *. lia.
  - intros k. rewrite Hperm. intros [->|Hk%Hp]%elem_of_cons; lia.
  - rewrite Hperm. by constructor.
Qed.

(** C23: no request is ever sent by a context: the identifier of a client starts with the
    prefix the network runtime assigns, whose first byte is [0x4F], the envelope with the
    identifier is the start of the DATA payload, and the message builder only accepts
    payloads that start with an encapsulation header.  [rmw_send_request] returns
    [RMW_RET_ERROR] for every message, and neither the history of the publisher nor the
    table of the client changes. *)
Theorem send_request_refused c q msg p domain participant process entity shutdown clock :
  client_ok c -> PublisherFacts.publishes (request_publisher c) q ->
  let s := Publisher.setup (request_publisher c) in
  Publisher.channel s = service_request -> data (Publisher.type_support s) = Some p ->
  laid_out (language (Publisher.type_info s)) analysis_fuel p msg ->
  gid c = context_prefix domain participant process ++ entity ->
  exists c', rmw_send_request c shutdown (Some msg) true clock = Stop (RMW_RET_ERROR, c') /\
    same_requests c c' /\ PublisherFacts.publishes (request_publisher c') q.
Proof.
  intros Hc Hpub s Hch Hp Hlaid Hgid. unfold rmw_send_request.
  rewrite bool_decide_false by done. cbn [negb orb stop_if mbind outcome_bind].
  destruct (free_slot 0 (outstanding c)); [|by exists c].
  destruct (_ || _); [by exists c|]. cbn [stop_if mbind outcome_bind].
  rewrite (gid_slice c Hc). cbn [access mbind outcome_bind]. unfold Publisher.publish_service_sample.
  set (id := {| writer_guid := gid c; request_sequence := next_sequence c |}).
  assert (exists d', Publisher.publish_sample (request_publisher c) shutdown (Some msg) (Some id)
    clock = Stop (RMW_RET_ERROR, d') /\ PublisherFacts.scratched (request_publisher c) d')
    as (d' & -> & Hscr).
  { destruct shutdown.
    - exists (request_publisher c). split; [|apply PublisherFacts.scratched_refl].
      unfold Publisher.publish_sample. fold s. rewrite Hch, !bool_decide_true by done. done.
    - apply (PublisherFacts.service_sample_refused _ q msg p); try done.
      + fold s. by rewrite Hch.
      + apply Hc.
      + cbn [writer_guid id]. by rewrite Hgid. }
  eexists. split; [done|]. split; [done|]. by eapply PublisherFacts.scratched_publishes.
Qed.
End Runtime.

(** ** On the endpoints of the tests *)

Import SampleTypes SampleEndpoints.

Definition sample_client (g : list Z) : ClientData :=
  {| request_publisher := sample_writer service_request;
     response_subscription := sample_reader service_response; gid := g; next_sequence := 1;
     outstanding := replicate 32 OutstandingRequest_default |}.

Lemma sample_client_ok g : length g = 16%nat -> client_ok (sample_client g).
Proof.
  intros Hg. split; [done|split; [done|unfold i64_max; simpl; lia]|..|done].
  - intros n Hn. by apply not_elem_of_nil in Hn.
  - apply NoDup_nil_2.
Qed.

(** The client of a context in process 1000. *)
Lemma send_request_refused_witness :
  exists c', rmw_send_request
      (sample_client (context_prefix 0 0 1000 ++ Publisher.writer_id_of 0)) false
      (Some c_source) true (Some (10, 500)) = Stop (RMW_RET_ERROR, c') /\
    pending (outstanding c') = [] /\ PublisherFacts.publishes (request_publisher c') [].
Proof.
  destruct (PublisherFacts.sample_publishes service_request) as (Hp & Hc & Ht & Hi & _).
  set (c := sample_client (context_prefix 0 0 1000 ++ Publisher.writer_id_of 0)).
  pose proof (send_request_refused c [] c_source 1 0 0 1000 (Publisher.writer_id_of 0) false
    (Some (10, 500)) (sample_client_ok (context_prefix 0 0 1000 ++ Publisher.writer_id_of 0) eq_refl)
    Hp) as Ho. cbv zeta in Ho.
  change (request_publisher c) with (sample_writer service_request) in Ho. rewrite Ht, Hi in Ho.
  destruct (Ho Hc eq_refl ltac:(by apply c_message_laid) eq_refl)
    as (c' & Hs & (_ & _ & Hout) & Hpub).
  exists c'. split; [exact Hs|]. rewrite Hout. split; [reflexivity|exact Hpub].
Defined.

(** An identifier of zeros passes the builder. *)
Lemma send_request_registers_witness :
  exists c', rmw_send_request (sample_client (replicate 16 0)) false (Some c_source) true
      (Some (10, 500)) = Done (1, c') /\ client_ok c'.
Proof.
  assert (match rmw_send_request (sample_client (replicate 16 0)) false (Some c_source) true
    (Some (10, 500)) with Done _ => True | _ => False end) as Hd by (vm_compute; exact I).
  destruct (rmw_send_request (sample_client (replicate 16 0)) false (Some c_source) true
    (Some (10, 500))) as [| |[n c']] eqn:Hs; [destruct Hd..|].
  destruct (send_request_registers _ _ _ _ n c' (sample_client_ok (replicate 16 0) eq_refl) Hs)
    as (Hn & _ & _ & _ & Hok).
  exists c'. split; [rewrite Hn; reflexivity|exact Hok].
Defined.

(** A service answers request 1 of that client, and the answer is received. *)
Definition zero_id : rmw_request_id_t :=
  {| writer_guid := replicate 16 0; request_sequence := 1 |}.

Definition response_packet : list Z :=
  Eval vm_compute in
  match Publisher.publish_service_sample (sample_writer service_response) false zero_id
          (Some c_source) (Some (10, 500)) with
  | Done w =>
      match Publisher.publisher_network_copy_next w 0 (Some (replicate 128 0)) 128 with
      | Done (_, size, Some buffer) => take (Z.to_nat size) buffer
      | _ => []
      end
  | _ => []
  end.

Definition received_response : Subscription.SubscriptionData :=
  match Subscription.receive_data_message (sample_reader service_response) false
          (Some response_packet) (zlen response_packet) 5 5 with
  | Done (_, d) => d
  | _ => sample_reader service_response
  end.

Definition waiting_client : ClientData :=
  {| request_publisher := sample_writer service_request;
     response_subscription := received_response; gid := replicate 16 0; next_sequence := 2;
     outstanding := {| sequence := 1; occupied := true |}
                    :: replicate 31 OutstandingRequest_default |}.

Lemma waiting_client_ok : client_ok waiting_client.
Proof.
  split; [done|split; [done|unfold i64_max; simpl; lia]|..|done].
  - intros n Hn%list_elem_of_singleton. subst n. simpl. lia.
  - apply NoDup_singleton.
Qed.

Lemma received_response_queues :
  exists x seen, SubscriptionFacts.queues received_response [x] seen /\
    Subscription.setup received_response = Subscription.setup (sample_reader service_response).
Proof.
  destruct (SubscriptionFacts.sample_queues service_response) as (Hq & _).
  assert (Router.message_ok (Some response_packet) (zlen response_packet)) as Hok.
  { split; [by vm_compute|]. intros m Hm. apply (inj Some) in Hm as <-.
    split; [reflexivity|]. repeat constructor; by vm_compute. }
  pose proof (SubscriptionFacts.receive_outcome _ [] ∅ response_packet (zlen response_packet) false
    5 5 Hq Hok) as Ho. cbv zeta in Ho.
  assert (SubscriptionFacts.judge (Subscription.setup (sample_reader service_response)) ∅
    (Subscription.next_reception_sequence (sample_reader service_response)) false
    (zlen response_packet) 5 5 (Data.parse_body (Some response_packet) (zlen response_packet))
    = SubscriptionFacts.admit_sample) as Hj by (by vm_compute).
  rewrite Hj in Ho. destruct Ho as (r & d1 & view & payload & Ho & _ & _ & _ & _ & Hq1 & Hs1).
  assert (received_response = d1) as -> by (unfold received_response; by rewrite Ho).
  assert (Subscription.history_sample_slots (sample_reader service_response) = 2) as Hslots
    by (by vm_compute).
  rewrite Hslots in Hq1. eexists _, _. split; [exact Hq1|exact Hs1].
Qed.

(** The answer completes the request. *)
Lemma take_response_exact_witness :
  exists info m c',
    rmw_take_response waiting_client false true (Some c_destination) true
      = Done (Some info, m, c') /\ Subscription.request_id info = zero_id /\
    pending (outstanding waiting_client) = [1] /\ (1 ∉ pending (outstanding c')) /\ client_ok c'.
Proof.
  destruct received_response_queues as (x & seen & Hq & Hs).
  destruct (SubscriptionFacts.sample_queues service_response) as (_ & Hc & Ht & Hi).
  pose proof (take_response_exact waiting_client [x] seen 1 c_destination waiting_client_ok Hq)
    as Ho. cbv zeta in Ho.
  assert (match rmw_take_response waiting_client false true (Some c_destination) true with
    | Done (Some info, _, _) => Subscription.request_id info = zero_id | _ => False end) as Hd
    by (vm_compute; reflexivity).
  change (response_subscription waiting_client) with received_response in Ho.
  rewrite Hs, Hc, Ht, Hi in Ho.
  specialize (Ho ltac:(discriminate) eq_refl ltac:(by apply c_message_laid)).
  destruct (rmw_take_response waiting_client false true (Some c_destination) true)
    as [|[[ret m] c']|[[[info|] m] c']]; [destruct Hd|destruct Hd| |destruct Hd].
  destruct Ho as (md & payload & q' & id & _ & _ & Hid & _ & _ & _ & Hnot & Hok & _).
  rewrite <- Hid, Hd in Hnot. exists info, m, c'.
  split; [reflexivity|]. split; [exact Hd|]. split; [reflexivity|]. split; [exact Hnot|exact Hok].
Defined.

End ServicesFacts.
