(* ===== verification/NetworkRuntime.v ===== *)
(** * The network thread of the ROS binding

    [rmw_openrtdds_cpp/src/network_runtime.cpp]: one thread per context announces the
    participant and its endpoints, learns remote participants and endpoints, sends the
    samples of the publishers, and runs the reliable protocol for each pair of matched
    endpoints.

    The state is the class [NetworkRuntime] with the parts of the context it works on.
    Publishers and subscriptions sit in the slots of the registries that point to them, so
    that an event source is named by its slot.  What the thread does to the outside is a
    trace: datagrams handed to a socket (whether [send_to] delivers them is the network's
    business, and the code ignores it), event sources notified and graph changes notified.
    What it reads is an argument: the results of the calls of [receive_from] and the
    clocks.  The datagram in [receive_buffer_] is passed to the handlers as the list of its
    bytes.  Locks, the condition variable and the waking up of waiters are not modelled. *)
From stdpp Require Import gmap.
From S2P Require Import Prelude Types Bytes KeepLastHistory Locators MessageRouter DataMessage SlotTable Spdp Sedp GraphCache ReliabilityMessages ReliabilityState ReliableWriter ReliableReader Qos TypeSupport Endpoint Publisher Subscription Services.

Module Network.
Import Types Locators Slots.

Definition kLoopback : list Z := [127; 0; 0; 1].
Definition kSpdpGroup : list Z := [239; 255; 0; 1].
Definition kAnnouncementPeriodNs : Z := 250000000.
Definition kRemoteStateLifetimeNs : Z := 5000000000.
Definition kHeartbeatPeriodNs : Z := 100000000.
Definition kRepairWindowNs : Z := 2000000000.
Definition kMaximumReceivesPerSocket : nat := 32.
Definition kMaximumSamplesPerPublisherPass : nat := 32.
Definition kProtocol : ProtocolVersion := {| major := 2; minor := 3 |}.
Definition kVendor : VendorId := [1; 66].
Definition kUnknownReader : EntityId := [0; 0; 0; 0].
Definition kGraphWriter : EntityId := [0; 0; 241; 194].

Definition kRemoteParticipantCapacity : Z := 16.
Definition kRemoteEndpointCapacity : Z := 32.
Definition kReliableLinkCapacity : Z := 32.
Definition kMaximumDatagramSize : Z := 65507.
Definition kControlDatagramSize : Z := 512.
Definition kPublisherCapacity : Z := 8.
Definition kSubscriptionCapacity : Z := 8.

(** The template arguments of [ReliableWriterState], [ReliableReaderState] and of the
    action buffers. *)
Definition kWriterDepth : Z := 1.
Definition kReaderWindow : Z := 256.
Definition kActions : Z := 4.

(** ** Clocks *)

(** [realtime_now_ns]; [clock] is the result of [clock_gettime]: seconds and nanoseconds. *)
Definition realtime_now_ns (clock : option (Z * Z)) : Z :=
  match clock with
  | None => 0
  | Some (tv_sec, tv_nsec) =>
      if tv_sec <? 0 then 0
      else if size_max / 1000000000 <? tv_sec then 0
      else add64 (mul64 tv_sec 1000000000) tv_nsec
  end.

(** ** Addresses *)

Record UdpEndpoint : Set := { ep_address : list Z; ep_port : Z }.

Definition UdpEndpoint_default : UdpEndpoint := {| ep_address := [0; 0; 0; 0]; ep_port := 0 |}.

#[global] Instance UdpEndpoint_eq_dec : EqDecision UdpEndpoint.
Proof. solve_decision. Defined.

Definition to_endpoint {E} (locator : Locator) : outcome E (option UdpEndpoint) :=
  if negb (valid_udp_v4_locator locator) then Done None
  else
    a ← access (mload (address locator) 12);
    b ← access (mload (address locator) 13);
    c ← access (mload (address locator) 14);
    d ← access (mload (address locator) 15);
    Done (Some {| ep_address := [a; b; c; d]; ep_port := u16 (port locator) |}).

(** The loop of [first_endpoint] from the given indices on. *)
Fixpoint first_endpoint_at {E} (locators : BoundedLocatorList) (indices : list Z)
    : outcome E (option UdpEndpoint) :=
  match indices with
  | [] => Done None
  | index :: rest =>
      locator ← access (mload (values locators) index);
      found ← to_endpoint locator;
      match found with
      | Some endpoint => Done (Some endpoint)
      | None => first_endpoint_at locators rest
      end
  end.

Definition first_endpoint {E} (locators : BoundedLocatorList) : outcome E (option UdpEndpoint) :=
  first_endpoint_at locators (seqZ 0 (size locators)).

Definition packet_prefix {E} (packet : option (list Z)) (size : Z) : outcome E GuidPrefix :=
  match packet with
  | Some bytes => if 20 <=? size then access (mslice bytes 8 12) else Done (replicate 12 0)
  | None => Done (replicate 12 0)
  end.

(** ** Directed messages *)

Definition write_u16_le {E} (output : list Z) (at_ value : Z) : outcome E (list Z) :=
  output ← access (mstore output at_ (u8 (Z.land value 255)));
  access (mstore output (at_ + 1) (u8 (Z.land (Z.shiftr value 8) 255))).

(** [direct_message]: [None] is [false], otherwise the output and its size. *)
Definition direct_message {E} (message : option (list Z)) (message_size : Z)
    (destination : GuidPrefix) (output : option (list Z)) (output_capacity : Z)
    : outcome E (option (list Z * Z)) :=
  match message, output with
  | Some m, Some out =>
      if (output_capacity <? 16) || (message_size <? 20) ||
         (sub64 output_capacity 16 <? message_size)
      then Done None
      else
        header ← access (mslice m 0 20);
        out ← access (mcopy out 0 header);
        out ← access (mstore out 20 Router.submessage_id_info_destination);
        out ← access (mstore out 21 1);
        out ← write_u16_le out 22 12;
        out ← access (mcopy out 24 destination);
        rest ← access (mslice m 20 (sub64 message_size 20));
        out ← access (mcopy out 36 rest);
        Done (Some (out, add64 message_size 16))
  | _, _ => Done None
  end.

(** ** State *)

Record RemoteParticipant : Set := {
  rp_data : Spdp.SpdpParticipantData;
  rp_last_seen_ns : Z;
  rp_occupied : bool;
}.

Definition RemoteParticipant_default : RemoteParticipant :=
  {| rp_data := Spdp.SpdpParticipantData_default; rp_last_seen_ns := 0;
     rp_occupied := false |}.

Record RemoteEndpoint : Set := {
  re_data : Sedp.SedpEndpointData;
  re_last_seen_ns : Z;
  re_occupied : bool;
}.

Definition RemoteEndpoint_default : RemoteEndpoint :=
  {| re_data := Sedp.SedpEndpointData_default; re_last_seen_ns := 0; re_occupied := false |}.

Record ReliableWriterLink : Set := {
  wl_state : Writer.ReliableWriter;
  wl_remote_prefix : GuidPrefix;
  wl_remote_reader : EntityId;
  wl_local_writer : EntityId;
  wl_destination : UdpEndpoint;
  wl_last_queued_sequence : Z;
  wl_next_heartbeat_ns : Z;
  wl_local_slot : Z;
  wl_local_generation : Z;
  wl_occupied : bool;
}.

Record ReliableReaderLink : Set := {
  rl_state : Reader.ReliableReader;
  rl_remote_prefix : GuidPrefix;
  rl_remote_writer : EntityId;
  rl_local_reader : EntityId;
  rl_destination : UdpEndpoint;
  rl_local_slot : Z;
  rl_local_generation : Z;
  rl_initialized : bool;
  rl_occupied : bool;
}.

(** The configurations of default-constructed states. *)
Definition writer_config_default : Writer.ReliableWriterConfig :=
  {| Writer.w_reader_id := EntityId_default; Writer.w_writer_id := EntityId_default;
     Writer.max_repair_attempts := 2; Writer.repair_window_ns := 100000000 |}.

Definition reader_config_default : Reader.ReliableReaderConfig :=
  {| Reader.r_reader_id := EntityId_default; Reader.r_writer_id := EntityId_default;
     Reader.initial_sequence_number := 1 |}.

Definition ReliableWriterLink_default : ReliableWriterLink :=
  {| wl_state := Writer.ReliableWriter_new kWriterDepth kMaximumDatagramSize
                   writer_config_default;
     wl_remote_prefix := replicate 12 0; wl_remote_reader := EntityId_default;
     wl_local_writer := EntityId_default; wl_destination := UdpEndpoint_default;
     wl_last_queued_sequence := 0; wl_next_heartbeat_ns := 0; wl_local_slot := 0;
     wl_local_generation := 0; wl_occupied := false |}.

Definition ReliableReaderLink_default : ReliableReaderLink :=
  {| rl_state := Reader.ReliableReader_new kReaderWindow reader_config_default;
     rl_remote_prefix := replicate 12 0; rl_remote_writer := EntityId_default;
     rl_local_reader := EntityId_default; rl_destination := UdpEndpoint_default;
     rl_local_slot := 0; rl_local_generation := 0; rl_initialized := false;
     rl_occupied := false |}.

(** The member arrays in which messages are built. *)
Record Buffers : Set := {
  graph_payload_ : list Z;
  graph_message_ : list Z;
  transmit_buffer_ : list Z;
  control_buffer_ : list Z;
  directed_control_buffer_ : list Z;
}.

Definition zeroes (n : Z) : list Z := replicate (Z.to_nat n) 0.

Definition Buffers_init : Buffers :=
  {| graph_payload_ := zeroes Graph.graph_wire_capacity;
     graph_message_ := zeroes (Graph.graph_wire_capacity + 44);
     transmit_buffer_ := zeroes kMaximumDatagramSize;
     control_buffer_ := zeroes kControlDatagramSize;
     directed_control_buffer_ := zeroes (kControlDatagramSize + 16) |}.

Record NetworkRuntime : Set := {
  spdp_destination_ : UdpEndpoint;
  spdp_ : list Z;
  spdp_size_ : Z;
  participants_ : list RemoteParticipant;
  endpoints_ : list RemoteEndpoint;
  reliable_writers_ : list ReliableWriterLink;
  reliable_readers_ : list ReliableReaderLink;
  last_sent_sequence_ : list Z;
  publisher_generations_ : list Z;
  test_drop_reliable_data_ : Z;
  buffers_ : Buffers;
}.

(** The slots of the registries of the context. *)
Record PublisherSlot : Type := {
  ps_data : option Publisher.PublisherData;
  ps_generation : Z;
  ps_occupied : bool;
}.

Record SubscriptionSlot : Type := {
  ss_data : option Subscription.SubscriptionData;
  ss_generation : Z;
  ss_occupied : bool;
}.

(** What the thread uses of [rmw_context_t] and its [impl]. *)
Record Context_ : Type := {
  actual_domain_id : Z;
  participant_prefix : GuidPrefix;
  participant_id : Z;
  metadata_port : Z;
  user_port : Z;
  graph : Graph.GraphCache;
  publishers : list PublisherSlot;
  subscriptions : list SubscriptionSlot;
  shutdown : bool;
}.

Inductive Socket : Set := multicast_socket_ | metadata_socket_ | user_socket_.

(** The address of a publisher's or a subscription's data. *)
Inductive EventSource : Set := publisher_source (slot : Z) | subscription_source (slot : Z).

Inductive Output : Set :=
  | Sent (socket : Socket) (destination : UdpEndpoint) (datagram : list Z)
  | EventsNotified (source : EventSource) (number_of_events : Z)
  | GraphNotified.

Record World : Type := {
  net : NetworkRuntime;
  context : Context_;
  trace : list Output;
}.

Definition emit (o : Output) (w : World) : World :=
  {| net := net w; context := context w; trace := trace w ++ [o] |}.

Definition with_net (n : NetworkRuntime) (w : World) : World :=
  {| net := n; context := context w; trace := trace w |}.

Definition with_context (c : Context_) (w : World) : World :=
  {| net := net w; context := c; trace := trace w |}.

Definition set_participants (l : list RemoteParticipant) (w : World) : World :=
  let n := net w in
  with_net {| spdp_destination_ := spdp_destination_ n; spdp_ := spdp_ n;
              spdp_size_ := spdp_size_ n; participants_ := l; endpoints_ := endpoints_ n;
              reliable_writers_ := reliable_writers_ n;
              reliable_readers_ := reliable_readers_ n;
              last_sent_sequence_ := last_sent_sequence_ n;
              publisher_generations_ := publisher_generations_ n;
              test_drop_reliable_data_ := test_drop_reliable_data_ n;
              buffers_ := buffers_ n |} w.

Definition set_endpoints (l : list RemoteEndpoint) (w : World) : World :=
  let n := net w in
  with_net {| spdp_destination_ := spdp_destination_ n; spdp_ := spdp_ n;
              spdp_size_ := spdp_size_ n; participants_ := participants_ n; endpoints_ := l;
              reliable_writers_ := reliable_writers_ n;
              reliable_readers_ := reliable_readers_ n;
              last_sent_sequence_ := last_sent_sequence_ n;
              publisher_generations_ := publisher_generations_ n;
              test_drop_reliable_data_ := test_drop_reliable_data_ n;
              buffers_ := buffers_ n |} w.

Definition set_writers (l : list ReliableWriterLink) (w : World) : World :=
  let n := net w in
  with_net {| spdp_destination_ := spdp_destination_ n; spdp_ := spdp_ n;
              spdp_size_ := spdp_size_ n; participants_ := participants_ n;
              endpoints_ := endpoints_ n; reliable_writers_ := l;
              reliable_readers_ := reliable_readers_ n;
              last_sent_sequence_ := last_sent_sequence_ n;
              publisher_generations_ := publisher_generations_ n;
              test_drop_reliable_data_ := test_drop_reliable_data_ n;
              buffers_ := buffers_ n |} w.

Definition set_readers (l : list ReliableReaderLink) (w : World) : World :=
  let n := net w in
  with_net {| spdp_destination_ := spdp_destination_ n; spdp_ := spdp_ n;
              spdp_size_ := spdp_size_ n; participants_ := participants_ n;
              endpoints_ := endpoints_ n; reliable_writers_ := reliable_writers_ n;
              reliable_readers_ := l; last_sent_sequence_ := last_sent_sequence_ n;
              publisher_generations_ := publisher_generations_ n;
              test_drop_reliable_data_ := test_drop_reliable_data_ n;
              buffers_ := buffers_ n |} w.

(** [last_sent_sequence_] and [publisher_generations_] *)
Definition set_sent (sequences generations : list Z) (w : World) : World :=
  let n := net w in
  with_net {| spdp_destination_ := spdp_destination_ n; spdp_ := spdp_ n;
              spdp_size_ := spdp_size_ n; participants_ := participants_ n;
              endpoints_ := endpoints_ n; reliable_writers_ := reliable_writers_ n;
              reliable_readers_ := reliable_readers_ n; last_sent_sequence_ := sequences;
              publisher_generations_ := generations;
              test_drop_reliable_data_ := test_drop_reliable_data_ n;
              buffers_ := buffers_ n |} w.

Definition set_drops (count : Z) (w : World) : World :=
  let n := net w in
  with_net {| spdp_destination_ := spdp_destination_ n; spdp_ := spdp_ n;
              spdp_size_ := spdp_size_ n; participants_ := participants_ n;
              endpoints_ := endpoints_ n; reliable_writers_ := reliable_writers_ n;
              reliable_readers_ := reliable_readers_ n;
              last_sent_sequence_ := last_sent_sequence_ n;
              publisher_generations_ := publisher_generations_ n;
              test_drop_reliable_data_ := count; buffers_ := buffers_ n |} w.

Definition set_buffers (b : Buffers) (w : World) : World :=
  let n := net w in
  with_net {| spdp_destination_ := spdp_destination_ n; spdp_ := spdp_ n;
              spdp_size_ := spdp_size_ n; participants_ := participants_ n;
              endpoints_ := endpoints_ n; reliable_writers_ := reliable_writers_ n;
              reliable_readers_ := reliable_readers_ n;
              last_sent_sequence_ := last_sent_sequence_ n;
              publisher_generations_ := publisher_generations_ n;
              test_drop_reliable_data_ := test_drop_reliable_data_ n; buffers_ := b |} w.

Definition set_transmit (buffer : list Z) (w : World) : World :=
  let b := buffers_ (net w) in
  set_buffers {| graph_payload_ := graph_payload_ b; graph_message_ := graph_message_ b;
                 transmit_buffer_ := buffer; control_buffer_ := control_buffer_ b;
                 directed_control_buffer_ := directed_control_buffer_ b |} w.

Definition set_control (buffer : list Z) (w : World) : World :=
  let b := buffers_ (net w) in
  set_buffers {| graph_payload_ := graph_payload_ b; graph_message_ := graph_message_ b;
                 transmit_buffer_ := transmit_buffer_ b; control_buffer_ := buffer;
                 directed_control_buffer_ := directed_control_buffer_ b |} w.

Definition set_directed (buffer : list Z) (w : World) : World :=
  let b := buffers_ (net w) in
  set_buffers {| graph_payload_ := graph_payload_ b; graph_message_ := graph_message_ b;
                 transmit_buffer_ := transmit_buffer_ b; control_buffer_ := control_buffer_ b;
                 directed_control_buffer_ := buffer |} w.

Definition set_graph_buffers (payload message : list Z) (w : World) : World :=
  let b := buffers_ (net w) in
  set_buffers {| graph_payload_ := payload; graph_message_ := message;
                 transmit_buffer_ := transmit_buffer_ b; control_buffer_ := control_buffer_ b;
                 directed_control_buffer_ := directed_control_buffer_ b |} w.

Definition set_graph (g : Graph.GraphCache) (w : World) : World :=
  let c := context w in
  with_context {| actual_domain_id := actual_domain_id c;
                  participant_prefix := participant_prefix c;
                  participant_id := participant_id c; metadata_port := metadata_port c;
                  user_port := user_port c; graph := g; publishers := publishers c;
                  subscriptions := subscriptions c; shutdown := shutdown c |} w.

Definition set_publishers (l : list PublisherSlot) (w : World) : World :=
  let c := context w in
  with_context {| actual_domain_id := actual_domain_id c;
                  participant_prefix := participant_prefix c;
                  participant_id := participant_id c; metadata_port := metadata_port c;
                  user_port := user_port c; graph := graph c; publishers := l;
                  subscriptions := subscriptions c; shutdown := shutdown c |} w.

Definition set_subscriptions (l : list SubscriptionSlot) (w : World) : World :=
  let c := context w in
  with_context {| actual_domain_id := actual_domain_id c;
                  participant_prefix := participant_prefix c;
                  participant_id := participant_id c; metadata_port := metadata_port c;
                  user_port := user_port c; graph := graph c; publishers := publishers c;
                  subscriptions := l; shutdown := shutdown c |} w.

Definition set_publisher_data (s : PublisherSlot) (d : Publisher.PublisherData)
    : PublisherSlot :=
  {| ps_data := Some d; ps_generation := ps_generation s; ps_occupied := ps_occupied s |}.

Definition set_subscription_data (s : SubscriptionSlot) (d : Subscription.SubscriptionData)
    : SubscriptionSlot :=
  {| ss_data := Some d; ss_generation := ss_generation s; ss_occupied := ss_occupied s |}.

(** ** Start *)

(** [open] and [bind] of a socket at a port, and the membership of the multicast group,
    are the operating system's answers. *)
Record Sockets : Type := {
  multicast_ready : Z -> bool;
  metadata_bound : Z -> bool;
  user_bound : Z -> bool;
}.

(** The loop over the participant numbers: the number and its two ports. *)
Fixpoint bind_loop (sockets : Sockets) (domain_id : Z) (participants : list Z)
    : option (Z * Z * Z) :=
  match participants with
  | [] => None
  | participant :: rest =>
      match spdp_unicast_port (u32 domain_id) participant SpdpPortConfig_default with
      | None => None
      | Some metadata_port =>
          if metadata_port =? u16_max then None
          else
            let user_port := u16 (metadata_port + 1) in
            if negb (metadata_bound sockets metadata_port) || negb (user_bound sockets user_port)
            then bind_loop sockets domain_id rest
            else Some (participant, metadata_port, user_port)
      end
  end.

Definition configure_sockets (sockets : Sockets) (process : Z) (w : World) : option World :=
  let c := context w in
  let n := net w in
  match spdp_multicast_port (u32 (actual_domain_id c)) SpdpPortConfig_default with
  | None => None
  | Some multicast_port =>
      if negb (multicast_ready sockets multicast_port) then None
      else match bind_loop sockets (actual_domain_id c) (seqZ 0 120) with
      | None => None
      | Some (participant, metadata_port, user_port) => Some
          {| net :=
               {| spdp_destination_ := {| ep_address := kSpdpGroup;
                                          ep_port := multicast_port |};
                  spdp_ := spdp_ n; spdp_size_ := spdp_size_ n;
                  participants_ := participants_ n; endpoints_ := endpoints_ n;
                  reliable_writers_ := reliable_writers_ n;
                  reliable_readers_ := reliable_readers_ n;
                  last_sent_sequence_ := last_sent_sequence_ n;
                  publisher_generations_ := publisher_generations_ n;
                  test_drop_reliable_data_ := test_drop_reliable_data_ n;
                  buffers_ := buffers_ n |};
             context :=
               {| actual_domain_id := actual_domain_id c;
                  participant_prefix :=
                    Services.context_prefix (actual_domain_id c) participant process;
                  participant_id := participant; metadata_port := metadata_port;
                  user_port := user_port; graph := graph c; publishers := publishers c;
                  subscriptions := subscriptions c; shutdown := shutdown c |};
             trace := trace w |}
      end
  end.

(** The endpoints announced in [available_builtin_endpoints]. *)
Definition announced_endpoints : Z :=
  Z.lor (Z.lor (Z.lor (Z.lor (Z.lor Spdp.spdp_endpoint_participant_announcer
    Spdp.spdp_endpoint_participant_detector) (Z.shiftl 1 2)) (Z.shiftl 1 3)) (Z.shiftl 1 4))
    (Z.shiftl 1 5).

(** ["rmw_openrtdds_cpp"] *)
Definition entity_name : list Z :=
  [114; 109; 119; 95; 111; 112; 101; 110; 114; 116; 100; 100; 115; 95; 99; 112; 112].

Definition spdp_config (c : Context_) (name : list Z)
    (metadata multicast user : BoundedLocatorList) : Spdp.SpdpAnnouncementConfig :=
  {| Spdp.participant :=
       {| Spdp.protocol_version := kProtocol; Spdp.vendor_id := kVendor;
          Spdp.guid_prefix := participant_prefix c;
          Spdp.domain_id := u32 (actual_domain_id c); Spdp.expects_inline_qos := false;
          Spdp.metatraffic_unicast := metadata; Spdp.metatraffic_multicast := multicast;
          Spdp.default_unicast := user;
          Spdp.default_multicast := BoundedLocatorList_default Spdp.spdp_max_locators;
          Spdp.available_builtin_endpoints := announced_endpoints;
          Spdp.lease_duration_ns := kRemoteStateLifetimeNs; Spdp.entity_name := name;
          Spdp.entity_name_size := zlen entity_name |};
     Spdp.sequence_number := 1; Spdp.submessage_byte_order := little_endian;
     Spdp.parameter_byte_order := little_endian |}.

(** [push_back] on an empty list of locators *)
Definition push_first {E} (locator : Locator) : outcome E (option BoundedLocatorList) :=
  push_back Spdp.spdp_max_locators (BoundedLocatorList_default Spdp.spdp_max_locators) locator.

(** [build_spdp]: [None] is [false]; [spdp_] and [spdp_size_] otherwise. *)
Definition build_spdp {E} (c : Context_) (spdp_port : Z) (spdp : list Z)
    : outcome E (option (list Z * Z)) :=
  match make_udp_v4_locator kLoopback (metadata_port c),
        make_udp_v4_locator kLoopback (user_port c),
        make_udp_v4_locator kSpdpGroup spdp_port with
  | Some metadata_locator, Some user_locator, Some multicast_locator =>
      metadata ← push_first metadata_locator;
      multicast ← push_first multicast_locator;
      user ← push_first user_locator;
      match metadata, multicast, user with
      | Some metadata, Some multicast, Some user =>
          name ← access (mcopy (replicate 64 0) 0 entity_name);
          match Spdp.build (Spdp.SpdpMessageBuilder_new (Some spdp) (zlen spdp))
                  (spdp_config c name metadata multicast user) with
          | Fault => Fault
          | Stop _ => Done None
          | Done b => buffer ← access (Spdp.buffer_ b); Done (Some (buffer, Spdp.size_ b))
          end
      | _, _, _ => Done None
      end
  | _, _, _ => Done None
  end.

(** [initialize] on a runtime without a context: [None] is [false]. *)
Definition initialize {E} (sockets : Sockets) (process : Z) (w : World)
    : outcome E (option World) :=
  match configure_sockets sockets process w with
  | None => Done None
  | Some w =>
      let n := net w in
      built ← build_spdp (context w) (ep_port (spdp_destination_ n)) (spdp_ n);
      Done (match built with
            | None => None
            | Some (spdp, spdp_size) => Some
                (with_net
                   {| spdp_destination_ := spdp_destination_ n; spdp_ := spdp;
                      spdp_size_ := spdp_size; participants_ := participants_ n;
                      endpoints_ := endpoints_ n; reliable_writers_ := reliable_writers_ n;
                      reliable_readers_ := reliable_readers_ n;
                      last_sent_sequence_ := last_sent_sequence_ n;
                      publisher_generations_ := publisher_generations_ n;
                      test_drop_reliable_data_ := test_drop_reliable_data_ n;
                      buffers_ := buffers_ n |} w)
            end)
  end.

(** The members before [initialize]. *)
Definition NetworkRuntime_init : NetworkRuntime :=
  {| spdp_destination_ := UdpEndpoint_default; spdp_ := zeroes 2048; spdp_size_ := 0;
     participants_ := replicate (Z.to_nat kRemoteParticipantCapacity) RemoteParticipant_default;
     endpoints_ := replicate (Z.to_nat kRemoteEndpointCapacity) RemoteEndpoint_default;
     reliable_writers_ := replicate (Z.to_nat kReliableLinkCapacity)
                            ReliableWriterLink_default;
     reliable_readers_ := replicate (Z.to_nat kReliableLinkCapacity)
                            ReliableReaderLink_default;
     last_sent_sequence_ := zeroes 8; publisher_generations_ := zeroes 8;
     test_drop_reliable_data_ := 0; buffers_ := Buffers_init |}.

(** ** Remote participants and endpoints *)

#[global, program] Instance participant_slot : Slot RemoteParticipant GuidPrefix := {|
  occupied := rp_occupied;
  slot_key p := Spdp.guid_prefix (rp_data p);
  slot_empty := RemoteParticipant_default;
|}.
Next Obligation. done. Qed.

#[global, program] Instance endpoint_slot : Slot RemoteEndpoint (GuidPrefix * EntityId) := {|
  occupied := re_occupied;
  slot_key e := (Sedp.participant_guid_prefix (re_data e), Sedp.endpoint_id (re_data e));
  slot_empty := RemoteEndpoint_default;
|}.
Next Obligation. done. Qed.

Definition find_participant (prefix : GuidPrefix) (l : list RemoteParticipant)
    : option (nat * RemoteParticipant) :=
  first_where (holds prefix) l.

Definition find_remote (k : Sedp.EndpointKind) (prefix : GuidPrefix) (entity : EntityId)
    (l : list RemoteEndpoint) : option RemoteEndpoint :=
  snd <$> first_where (fun e => re_occupied e && bool_decide (Sedp.kind (re_data e) = k) &&
      bool_decide (Sedp.participant_guid_prefix (re_data e) = prefix) &&
      bool_decide (Sedp.endpoint_id (re_data e) = entity)) l.

Definition find_remote_writer := find_remote Sedp.writer.
Definition find_remote_reader := find_remote Sedp.reader.

(** The entry an announcement goes to: its own, or else the first free one. *)
Definition target_entry {E K} `{Slot E K} (k : K) (l : list E) : option nat :=
  match first_where (holds k) l with
  | Some (i, _) => Some i
  | None => fst <$> first_where Graph.is_free l
  end.

(** ** Local endpoints *)

Record NetworkEndpointView : Set := {
  descriptor : Sedp.LocalEndpointDescriptor;
  entity_id : EntityId;
  view_sedp : list Z;
  view_sedp_size : Z;
}.

(** [publisher_network_view]; [None] is [false]. *)
Definition publisher_network_view {E} (opaque : option Publisher.PublisherData)
    : outcome E (option NetworkEndpointView) :=
  match opaque with
  | None => Done None
  | Some d =>
      let s := Publisher.setup d in
      let topic := TypeSupport.topic_name (Publisher.names s) in
      let type := TypeSupport.type_name (Publisher.names s) in
      topic_size ← Publisher.strlen topic;
      type_size ← Publisher.strlen type;
      Done (Some
        {| descriptor :=
             {| Sedp.local_kind := Sedp.writer; Sedp.local_topic_name := Some topic;
                Sedp.local_topic_name_size := topic_size;
                Sedp.local_type_name := Some type; Sedp.local_type_name_size := type_size;
                Sedp.local_reliability :=
                  Publisher.announced_reliability (Publisher.resources s);
                Sedp.local_durability := Sedp.volatile_durability |};
           entity_id := Publisher.writer_id s; view_sedp := Publisher.sedp d;
           view_sedp_size := Publisher.sedp_size d |})
  end.

Definition subscription_network_view {E} (opaque : option Subscription.SubscriptionData)
    : outcome E (option NetworkEndpointView) :=
  match opaque with
  | None => Done None
  | Some d =>
      let s := Subscription.setup d in
      let topic := TypeSupport.topic_name (Subscription.names s) in
      let type := TypeSupport.type_name (Subscription.names s) in
      topic_size ← Publisher.strlen topic;
      type_size ← Publisher.strlen type;
      Done (Some
        {| descriptor :=
             {| Sedp.local_kind := Sedp.reader; Sedp.local_topic_name := Some topic;
                Sedp.local_topic_name_size := topic_size;
                Sedp.local_type_name := Some type; Sedp.local_type_name_size := type_size;
                Sedp.local_reliability :=
                  Publisher.announced_reliability (Subscription.resources s);
                Sedp.local_durability := Sedp.volatile_durability |};
           entity_id := Subscription.reader_id s; view_sedp := Subscription.sedp d;
           view_sedp_size := Subscription.sedp_size d |})
  end.

(** [evaluate_endpoint_match(...) == MatchStatus::matched] *)
Definition is_matched {E} (local : NetworkEndpointView) (remote : RemoteEndpoint)
    : outcome E bool :=
  match Sedp.evaluate_endpoint_match (descriptor local) (re_data remote) with
  | Fault => Fault
  | Stop s | Done s => Done (bool_decide (s = Sedp.matched))
  end.

(** ** Matches *)

(** The inner loops of [recompute_matches]: the number of remote endpoints of the kind [k]
    that match. *)
Definition count_matches {E} (local : NetworkEndpointView) (k : Sedp.EndpointKind)
    (l : list RemoteEndpoint) : outcome E Z :=
  for_each (fun remote matches =>
      if re_occupied remote && bool_decide (Sedp.kind (re_data remote) = k) then
        m ← is_matched local remote;
        Done (if (m : bool) then add64 matches 1 else matches)
      else Done matches) l 0.

(** One slot of either registry, with the array [changed]. *)
Definition match_publisher {E} (index : Z)
    (state : World * list (EventSource * Z)) : outcome E (World * list (EventSource * Z)) :=
  let '(w, changed) := state in
  slot ← access (mload (publishers (context w)) index);
  if negb (ps_occupied slot) then Done state
  else
    view ← publisher_network_view (ps_data slot);
    match view, ps_data slot with
    | Some local, Some d =>
        matches ← count_matches local Sedp.reader (endpoints_ (net w));
        let '(transitions, d) := Publisher.publisher_network_set_match_count d matches in
        slots ← access (mstore (publishers (context w)) index (set_publisher_data slot d));
        Done (set_publishers slots w,
              if negb (transitions =? 0) &&
                 (zlen changed <? kPublisherCapacity + kSubscriptionCapacity)
              then changed ++ [(publisher_source index, transitions)] else changed)
    | _, _ => Done state
    end.

Definition match_subscription {E} (index : Z)
    (state : World * list (EventSource * Z)) : outcome E (World * list (EventSource * Z)) :=
  let '(w, changed) := state in
  slot ← access (mload (subscriptions (context w)) index);
  if negb (ss_occupied slot) then Done state
  else
    view ← subscription_network_view (ss_data slot);
    match view, ss_data slot with
    | Some local, Some d =>
        matches ← count_matches local Sedp.writer (endpoints_ (net w));
        let '(transitions, d) :=
          Subscription.subscription_network_set_match_count d matches in
        slots ← access (mstore (subscriptions (context w)) index
                          (set_subscription_data slot d));
        Done (set_subscriptions slots w,
              if negb (transitions =? 0) &&
                 (zlen changed <? kPublisherCapacity + kSubscriptionCapacity)
              then changed ++ [(subscription_source index, transitions)] else changed)
    | _, _ => Done state
    end.

Definition recompute_matches {E} (w : World) : outcome E World :=
  state ← for_each match_publisher (seqZ 0 kPublisherCapacity) (w, []);
  '(w, changed) ← for_each match_subscription (seqZ 0 kSubscriptionCapacity) state;
  Done (foldl (fun w '(source, transitions) => emit (EventsNotified source transitions) w)
          w changed).

(** ** Discovery *)

(** [static_cast<void>(socket.send_to(destination, data, size));] *)
Definition send {E} (socket : Socket) (destination : UdpEndpoint) (data : list Z) (size : Z)
    (w : World) : outcome E World :=
  datagram ← access (mslice data 0 size);
  Done (emit (Sent socket destination datagram) w).

Definition graph_config (c : Context_) (generation : Z) : Data.DataMessageConfig :=
  {| Data.cfg_version := kProtocol; Data.cfg_vendor_id := kVendor;
     Data.cfg_guid_prefix := participant_prefix c; Data.cfg_reader_id := kUnknownReader;
     Data.cfg_writer_id := kGraphWriter; Data.cfg_sequence_number := generation;
     Data.cfg_byte_order := little_endian |}.

(** The first half of [announce]: the buffers, and the size of the graph message when
    [graph_ready]. *)
Definition build_graph {E} (w : World) : outcome E (World * option Z) :=
  let g := graph (context w) in
  let b := buffers_ (net w) in
  match Graph.serialize_local g (Some (graph_payload_ b)) (zlen (graph_payload_ b)) with
  | Fault => Fault
  | Stop (_, payload) => Done (set_graph_buffers payload (graph_message_ b) w, None)
  | Done (payload, payload_size) =>
      content ← access (mslice payload 0 payload_size);
      match Data.build
              (Data.DataMessageBuilder_new (Some (graph_message_ b)) (zlen (graph_message_ b)))
              (graph_config (context w) (Graph.local_generation_ g)) (Some content)
              payload_size with
      | Fault => Fault
      | Stop d => message ← access (Data.buffer_ d);
                  Done (set_graph_buffers payload message w, None)
      | Done d => message ← access (Data.buffer_ d);
                  Done (set_graph_buffers payload message w, Some (Data.size_ d))
      end
  end.

(** The endpoint announcements to one participant. *)
Definition announce_publisher {E} (remote : UdpEndpoint) (slot : PublisherSlot) (w : World)
    : outcome E World :=
  if negb (ps_occupied slot) then Done w
  else
    view ← publisher_network_view (ps_data slot);
    match view with
    | Some view => send metadata_socket_ remote (view_sedp view) (view_sedp_size view) w
    | None => Done w
    end.

Definition announce_subscription {E} (remote : UdpEndpoint) (slot : SubscriptionSlot)
    (w : World) : outcome E World :=
  if negb (ss_occupied slot) then Done w
  else
    view ← subscription_network_view (ss_data slot);
    match view with
    | Some view => send metadata_socket_ remote (view_sedp view) (view_sedp_size view) w
    | None => Done w
    end.

Definition announce_to {E} (graph_size : option Z) (participant : RemoteParticipant)
    (w : World) : outcome E World :=
  if negb (rp_occupied participant) then Done w
  else
    found ← first_endpoint (Spdp.metatraffic_unicast (rp_data participant));
    match found with
    | None => Done w
    | Some remote =>
        w ← match graph_size with
            | Some n => send metadata_socket_ remote (graph_message_ (buffers_ (net w))) n w
            | None => Done w
            end;
        w ← for_each (announce_publisher remote) (publishers (context w)) w;
        for_each (announce_subscription remote) (subscriptions (context w)) w
    end.

Definition announce {E} (w : World) : outcome E World :=
  w ← send metadata_socket_ (spdp_destination_ (net w)) (spdp_ (net w))
        (spdp_size_ (net w)) w;
  '(w, graph_size) ← build_graph w;
  for_each (announce_to graph_size) (participants_ (net w)) w.

(** A participant announcement of another participant. *)
Definition accept_participant (p : Spdp.SpdpParticipantData) (now_ns : Z) (w : World)
    : World :=
  let l := participants_ (net w) in
  match target_entry (Spdp.guid_prefix p) l with
  | Some i => set_participants
      (<[i := {| rp_data := p; rp_last_seen_ns := now_ns; rp_occupied := true |}]> l) w
  | None => w
  end.

(** A graph announcement of a known participant. *)
Definition accept_graph {E} (prefix : GuidPrefix) (view : Data.DataMessageView) (w : World)
    : outcome E World :=
  match Graph.apply_remote (graph (context w)) prefix (Data.serialized_payload view)
          (Data.payload_size view) (Data.sequence_number view) with
  | Fault => Fault
  | Stop _ => Done w
  | Done g => Done (emit GraphNotified (set_graph g w))
  end.

(** An endpoint announcement of a known participant. *)
Definition accept_endpoint {E} (e : Sedp.SedpEndpointData) (now_ns : Z) (w : World)
    : outcome E World :=
  let l := endpoints_ (net w) in
  match target_entry (Sedp.participant_guid_prefix e, Sedp.endpoint_id e) l with
  | Some i => recompute_matches (set_endpoints
      (<[i := {| re_data := e; re_last_seen_ns := now_ns; re_occupied := true |}]> l) w)
  | None => Done w
  end.

(** What [receive_discovery] does with one datagram. *)
Definition handle_discovery {E} (now_ns : Z) (datagram : list Z) (w : World)
    : outcome E World :=
  let c := context w in
  let size := zlen datagram in
  match Spdp.parse_body (Some datagram) size (u32 (actual_domain_id c)) with
  | Fault => Fault
  | Done view =>
      let p := Spdp.participant view in
      Done (if bool_decide (Spdp.guid_prefix p = participant_prefix c) then w
            else accept_participant p now_ns w)
  | Stop _ =>
      prefix ← packet_prefix (Some datagram) size;
      match find_participant prefix (participants_ (net w)) with
      | None => Done w
      | Some _ =>
          let endpoint :=
            match Sedp.parse_body (Some datagram) size prefix with
            | Fault => Fault
            | Stop _ => Done w
            | Done view => accept_endpoint (Sedp.view_endpoint view) now_ns w
            end in
          match Data.parse_body (Some datagram) size with
          | Fault => Fault
          | Stop _ => endpoint
          | Done view =>
              if bool_decide (Data.writer_id view = kGraphWriter) &&
                 bool_decide (Data.reader_id view = kUnknownReader)
              then accept_graph prefix view w else endpoint
          end
      end
  end.

(** The result of a call of [receive_from]. *)
Inductive Received : Set :=
  | datagram_received (datagram : list Z)
  | would_block
  | receive_failed.

(** The loop over the attempts on one socket. *)
Fixpoint receive_loop {E} (attempts : nat) (handle : list Z -> World -> outcome E World)
    (results : list Received) (w : World) : outcome E World :=
  match attempts, results with
  | S attempts, datagram_received d :: results =>
      w ← handle d w; receive_loop attempts handle results w
  | S attempts, receive_failed :: results => receive_loop attempts handle results w
  | _, _ => Done w
  end.

Definition receive_discovery {E} (now_ns : Z) (multicast metadata : list Received) (w : World)
    : outcome E World :=
  w ← receive_loop kMaximumReceivesPerSocket (handle_discovery now_ns) multicast w;
  receive_loop kMaximumReceivesPerSocket (handle_discovery now_ns) metadata w.

(** [expire_remote_state] *)

Definition expired (now_ns last_seen_ns : Z) : bool :=
  kRemoteStateLifetimeNs <=? sub64 now_ns last_seen_ns.

Definition forget_endpoints (prefix : GuidPrefix) (l : list RemoteEndpoint)
    : list RemoteEndpoint :=
  Graph.reset_where (fun e => bool_decide (Sedp.participant_guid_prefix (re_data e) = prefix)) l.

(** The loop over the participants, with [changed] and [graph_changed]. *)
Definition expire_participant {E} (now_ns : Z) (i : nat) (state : World * bool * bool)
    : outcome E (World * bool * bool) :=
  let '(w, changed, graph_changed) := state in
  participant ← access (participants_ (net w) !! i);
  if rp_occupied participant && expired now_ns (rp_last_seen_ns participant) then
    let prefix := Spdp.guid_prefix (rp_data participant) in
    let w := set_participants (<[i := RemoteParticipant_default]> (participants_ (net w))) w in
    let '(update, g) := Graph.remove_remote_participant (graph (context w)) prefix in
    let w := set_graph g w in
    let w := set_endpoints (forget_endpoints prefix (endpoints_ (net w))) w in
    Done (w, true, (if update is Graph.changed then true else false) || graph_changed)
  else Done state.

Definition expire_remote_state {E} (now_ns : Z) (w : World) : outcome E World :=
  '(w, changed, graph_changed) ←
    for_each (expire_participant now_ns) (seq 0 (length (participants_ (net w))))
      (w, false, false);
  let l := endpoints_ (net w) in
  let due e := expired now_ns (re_last_seen_ns e) in
  let changed := changed || existsb (fun e => re_occupied e && due e) l in
  let w := set_endpoints (Graph.reset_where due l) w in
  w ← (if (changed : bool) then recompute_matches w else Done w);
  Done (if (graph_changed : bool) then emit GraphNotified w else w).

(** ** Links *)

(** The conditions of the search loops of [writer_link] and [reader_link]. *)
Definition writer_link_of (local_slot local_generation : Z) (local : NetworkEndpointView)
    (remote : RemoteEndpoint) (link : ReliableWriterLink) : bool :=
  wl_occupied link && (wl_local_slot link =? local_slot) &&
  (wl_local_generation link =? local_generation) &&
  bool_decide (wl_local_writer link = entity_id local) &&
  bool_decide (wl_remote_prefix link = Sedp.participant_guid_prefix (re_data remote)) &&
  bool_decide (wl_remote_reader link = Sedp.endpoint_id (re_data remote)).

Definition reader_link_of (local_slot local_generation : Z) (local : NetworkEndpointView)
    (remote : RemoteEndpoint) (link : ReliableReaderLink) : bool :=
  rl_occupied link && (rl_local_slot link =? local_slot) &&
  (rl_local_generation link =? local_generation) &&
  bool_decide (rl_local_reader link = entity_id local) &&
  bool_decide (rl_remote_prefix link = Sedp.participant_guid_prefix (re_data remote)) &&
  bool_decide (rl_remote_writer link = Sedp.endpoint_id (re_data remote)).

(** The first entry of an array that satisfies a condition. *)
Definition first_such {A} (p : A -> bool) (l : list A) : option (nat * A) :=
  list_find (fun a => p a = true) l.

Definition writer_link_config (local : NetworkEndpointView) (remote : RemoteEndpoint)
    : Writer.ReliableWriterConfig :=
  {| Writer.w_reader_id := Sedp.endpoint_id (re_data remote);
     Writer.w_writer_id := entity_id local; Writer.max_repair_attempts := 2;
     Writer.repair_window_ns := kRepairWindowNs |}.

Definition reader_link_config (local : NetworkEndpointView) (remote : RemoteEndpoint)
    (initial_sequence : Z) : Reader.ReliableReaderConfig :=
  {| Reader.r_reader_id := entity_id local;
     Reader.r_writer_id := Sedp.endpoint_id (re_data remote);
     Reader.initial_sequence_number := initial_sequence |}.

(** [writer_link]: the index of the link, [None] for a null pointer, and the table. *)
Definition writer_link {E} (local_slot local_generation : Z) (local : NetworkEndpointView)
    (remote : RemoteEndpoint) (links : list ReliableWriterLink)
    : outcome E (option nat * list ReliableWriterLink) :=
  let locators := Sedp.unicast_locators (re_data remote) in
  match first_such (writer_link_of local_slot local_generation local remote) links with
  | Some (i, link) =>
      found ← first_endpoint locators;
      Done (Some i,
            <[i := {| wl_state := wl_state link; wl_remote_prefix := wl_remote_prefix link;
                      wl_remote_reader := wl_remote_reader link;
                      wl_local_writer := wl_local_writer link;
                      wl_destination := default (wl_destination link) found;
                      wl_last_queued_sequence := wl_last_queued_sequence link;
                      wl_next_heartbeat_ns := wl_next_heartbeat_ns link;
                      wl_local_slot := wl_local_slot link;
                      wl_local_generation := wl_local_generation link;
                      wl_occupied := wl_occupied link |}]> links)
  | None =>
      match first_such (fun link => negb (wl_occupied link)) links with
      | None => Done (None, links)
      | Some (i, _) =>
          found ← first_endpoint locators;
          match found with
          | None => Done (None, links)
          | Some destination =>
              Done (Some i,
                <[i := {| wl_state := Writer.ReliableWriter_new kWriterDepth
                                        kMaximumDatagramSize
                                        (writer_link_config local remote);
                          wl_remote_prefix := Sedp.participant_guid_prefix (re_data remote);
                          wl_remote_reader := Sedp.endpoint_id (re_data remote);
                          wl_local_writer := entity_id local;
                          wl_destination := destination; wl_last_queued_sequence := 0;
                          wl_next_heartbeat_ns := 0; wl_local_slot := local_slot;
                          wl_local_generation := local_generation;
                          wl_occupied := true |}]> links)
          end
      end
  end.

Definition reader_link {E} (local_slot local_generation : Z) (local : NetworkEndpointView)
    (remote : RemoteEndpoint) (initial_sequence : Z) (links : list ReliableReaderLink)
    : outcome E (option nat * list ReliableReaderLink) :=
  let locators := Sedp.unicast_locators (re_data remote) in
  let fresh := Reader.ReliableReader_new kReaderWindow
                 (reader_link_config local remote initial_sequence) in
  match first_such (reader_link_of local_slot local_generation local remote) links with
  | Some (i, link) =>
      let starts := negb (rl_initialized link) && negb (initial_sequence =? 0) in
      found ← first_endpoint locators;
      let initialized := starts || rl_initialized link in
      Done (if (initialized : bool) then Some i else None,
            <[i := {| rl_state := if (starts : bool) then fresh else rl_state link;
                      rl_remote_prefix := rl_remote_prefix link;
                      rl_remote_writer := rl_remote_writer link;
                      rl_local_reader := rl_local_reader link;
                      rl_destination := default (rl_destination link) found;
                      rl_local_slot := rl_local_slot link;
                      rl_local_generation := rl_local_generation link;
                      rl_initialized := initialized; rl_occupied := rl_occupied link |}]> links)
  | None =>
      match first_such (fun link => negb (rl_occupied link)) links with
      | None => Done (None, links)
      | Some (i, _) =>
          if initial_sequence =? 0 then Done (None, links)
          else
            found ← first_endpoint locators;
            match found with
            | None => Done (None, links)
            | Some destination =>
                Done (Some i,
                  <[i := {| rl_state := fresh;
                            rl_remote_prefix :=
                              Sedp.participant_guid_prefix (re_data remote);
                            rl_remote_writer := Sedp.endpoint_id (re_data remote);
                            rl_local_reader := entity_id local;
                            rl_destination := destination; rl_local_slot := local_slot;
                            rl_local_generation := local_generation;
                            rl_initialized := true; rl_occupied := true |}]> links)
            end
      end
  end.

Definition set_reader_state (link : ReliableReaderLink) (state : Reader.ReliableReader)
    : ReliableReaderLink :=
  {| rl_state := state; rl_remote_prefix := rl_remote_prefix link;
     rl_remote_writer := rl_remote_writer link; rl_local_reader := rl_local_reader link;
     rl_destination := rl_destination link; rl_local_slot := rl_local_slot link;
     rl_local_generation := rl_local_generation link;
     rl_initialized := rl_initialized link; rl_occupied := rl_occupied link |}.

(** A link with a new state, [last_queued_sequence] and [next_heartbeat_ns]. *)
Definition set_writer_state (link : ReliableWriterLink) (state : Writer.ReliableWriter)
    (queued heartbeat : Z) : ReliableWriterLink :=
  {| wl_state := state; wl_remote_prefix := wl_remote_prefix link;
     wl_remote_reader := wl_remote_reader link; wl_local_writer := wl_local_writer link;
     wl_destination := wl_destination link; wl_last_queued_sequence := queued;
     wl_next_heartbeat_ns := heartbeat; wl_local_slot := wl_local_slot link;
     wl_local_generation := wl_local_generation link; wl_occupied := wl_occupied link |}.

(** [link.occupied = false;] *)
Definition release_writer (link : ReliableWriterLink) : ReliableWriterLink :=
  {| wl_state := wl_state link; wl_remote_prefix := wl_remote_prefix link;
     wl_remote_reader := wl_remote_reader link; wl_local_writer := wl_local_writer link;
     wl_destination := wl_destination link;
     wl_last_queued_sequence := wl_last_queued_sequence link;
     wl_next_heartbeat_ns := wl_next_heartbeat_ns link; wl_local_slot := wl_local_slot link;
     wl_local_generation := wl_local_generation link; wl_occupied := false |}.

Definition release_reader (link : ReliableReaderLink) : ReliableReaderLink :=
  {| rl_state := rl_state link; rl_remote_prefix := rl_remote_prefix link;
     rl_remote_writer := rl_remote_writer link; rl_local_reader := rl_local_reader link;
     rl_destination := rl_destination link; rl_local_slot := rl_local_slot link;
     rl_local_generation := rl_local_generation link;
     rl_initialized := rl_initialized link; rl_occupied := false |}.

(** ** Control messages *)

Definition control_header (c : Context_) : RelMsg.ReliabilityMessageHeader :=
  {| RelMsg.version := kProtocol; RelMsg.vendor_id := kVendor;
     RelMsg.guid_prefix := participant_prefix c;
     RelMsg.submessage_byte_order := little_endian |}.

(** The end of [send_heartbeat] and [send_acknack]: [built] is what the builder on
    [control_buffer_] returned. *)
Definition send_control {E}
    (built : outcome RelMsg.ReliabilityMessageBuilder RelMsg.ReliabilityMessageBuilder)
    (remote_prefix : GuidPrefix) (destination : UdpEndpoint) (w : World) : outcome E World :=
  match built with
  | Fault => Fault
  | Stop b => buffer ← access (RelMsg.buffer_ b); Done (set_control buffer w)
  | Done b =>
      buffer ← access (RelMsg.buffer_ b);
      let w := set_control buffer w in
      let output := directed_control_buffer_ (buffers_ (net w)) in
      directed ← direct_message (Some buffer) (RelMsg.size_ b) remote_prefix (Some output)
                   (zlen output);
      match directed with
      | None => Done w
      | Some (out, size) => send user_socket_ destination out size (set_directed out w)
      end
  end.

Definition control_builder (w : World) : RelMsg.ReliabilityMessageBuilder :=
  let buffer := control_buffer_ (buffers_ (net w)) in
  RelMsg.ReliabilityMessageBuilder_new (Some buffer) (zlen buffer).

Definition heartbeat_template (c : Context_) : RelMsg.HeartbeatConfig :=
  {| RelMsg.hb_header := control_header c; RelMsg.hb_reader_id := EntityId_default;
     RelMsg.hb_writer_id := EntityId_default; RelMsg.hb_first := 1; RelMsg.hb_last := 0;
     RelMsg.hb_count := 0; RelMsg.hb_final_flag := false;
     RelMsg.hb_liveliness_flag := false |}.

(** [send_heartbeat] on the link at [i]; its result is ignored by the caller. *)
Definition send_heartbeat {E} (i : nat) (w : World) : outcome E World :=
  let links := reliable_writers_ (net w) in
  link ← access (links !! i);
  match Writer.fill_heartbeat (wl_state link) (heartbeat_template (context w)) with
  | Fault => Fault
  | Stop _ => Done w
  | Done (state, heartbeat) =>
      let link := set_writer_state link state (wl_last_queued_sequence link)
                    (wl_next_heartbeat_ns link) in
      let w := set_writers (<[i := link]> links) w in
      send_control (RelMsg.build_heartbeat (control_builder w) heartbeat)
        (wl_remote_prefix link) (wl_destination link) w
  end.

Definition acknack_of (c : Context_) (action : Rel.ReliabilityAction) : RelMsg.AckNackConfig :=
  {| RelMsg.an_header := control_header c; RelMsg.an_reader_id := Rel.reader_id action;
     RelMsg.an_writer_id := Rel.writer_id action;
     RelMsg.an_reader_state := Rel.reader_state action;
     RelMsg.an_count := Rel.control_count action;
     RelMsg.an_final_flag := Rel.final_flag action |}.

Definition send_acknack {E} (link : ReliableReaderLink) (action : Rel.ReliabilityAction)
    (w : World) : outcome E World :=
  send_control (RelMsg.build_acknack (control_builder w) (acknack_of (context w) action))
    (rl_remote_prefix link) (rl_destination link) w.

(** ** Samples from the network *)

Definition is_reliable (k : Sedp.ReliabilityKind) : bool := k =? Sedp.reliable.

(** [actions.size() == 1U && actions[0U].kind == kind] *)
Definition single_action (k : Rel.ReliabilityActionKind) (actions : Rel.ReliabilityActionBuffer)
    : bool :=
  match Rel.contents actions with
  | [action] => bool_decide (Rel.kind action = k)
  | _ => false
  end.

(** The reliable part of the loop of [handle_data]: whether the sample is new. *)
Definition admit_reliable {E} (slot_index generation : Z) (local : NetworkEndpointView)
    (remote : RemoteEndpoint) (sequence : Z) (w : World) : outcome E (bool * World) :=
  '(found, links) ← reader_link slot_index generation local remote sequence
                      (reliable_readers_ (net w));
  match found with
  | None => Done (false, set_readers links w)
  | Some i =>
      link ← access (links !! i);
      match Reader.on_data kReaderWindow kActions (rl_state link) sequence
              (Rel.ActionBuffer_init kActions) with
      | Fault => Fault
      | Stop _ => Done (false, set_readers links w)
      | Done (state, actions) =>
          Done (single_action Rel.sample_received actions,
                set_readers (<[i := set_reader_state link state]> links) w)
      end
  end.

(** One slot of the loop of [handle_data]. *)
Definition deliver_to {E} (packet : list Z) (received_timestamp_ns : Z)
    (data : Data.DataMessageView) (remote : RemoteEndpoint) (slot_index : Z) (w : World)
    : outcome E World :=
  slot ← access (mload (subscriptions (context w)) slot_index);
  if negb (ss_occupied slot) then Done w
  else
    view ← subscription_network_view (ss_data slot);
    match view, ss_data slot with
    | Some local, Some d =>
        matches ← is_matched local remote;
        if negb matches then Done w
        else
          '(admitted, w) ←
            (if is_reliable (Sedp.local_reliability (descriptor local)) &&
                is_reliable (Sedp.reliability (re_data remote))
             then admit_reliable slot_index (ss_generation slot) local remote
                    (Data.sequence_number data) w
             else Done (true, w));
          if negb admitted then Done w
          else
            '(_, d) ← Subscription.subscription_network_receive d (shutdown (context w))
                        (Some packet) (zlen packet) received_timestamp_ns;
            slots ← access (mstore (subscriptions (context w)) slot_index
                              (set_subscription_data slot d));
            Done (set_subscriptions slots w)
    | _, _ => Done w
    end.

Definition handle_data {E} (received_timestamp_ns : Z) (packet : list Z) (w : World)
    : outcome E World :=
  match Data.parse_body (Some packet) (zlen packet) with
  | Fault => Fault
  | Stop _ => Done w
  | Done data =>
      match find_remote_writer (Data.guid_prefix data) (Data.writer_id data)
              (endpoints_ (net w)) with
      | None => Done w
      | Some remote =>
          for_each (deliver_to packet received_timestamp_ns data remote)
            (seqZ 0 kSubscriptionCapacity) w
      end
  end.

(** [directed] of [handle_heartbeat] *)
Definition directed_heartbeat (heartbeat : RelMsg.HeartbeatView) (reader_id : EntityId)
    : RelMsg.HeartbeatView :=
  {| RelMsg.hb_header := RelMsg.hb_header heartbeat; RelMsg.hb_reader_id := reader_id;
     RelMsg.hb_writer_id := RelMsg.hb_writer_id heartbeat;
     RelMsg.hb_first := RelMsg.hb_first heartbeat;
     RelMsg.hb_last := RelMsg.hb_last heartbeat;
     RelMsg.hb_count := RelMsg.hb_count heartbeat;
     RelMsg.hb_final_flag := RelMsg.hb_final_flag heartbeat;
     RelMsg.hb_liveliness_flag := RelMsg.hb_liveliness_flag heartbeat |}.

(** The reader's answers to one heartbeat. *)
Definition answer_heartbeat {E} (i : nat) (heartbeat : RelMsg.HeartbeatView) (w : World)
    : outcome E World :=
  let links := reliable_readers_ (net w) in
  link ← access (links !! i);
  match Reader.on_heartbeat kReaderWindow kActions (rl_state link) heartbeat
          (Rel.ActionBuffer_init kActions) with
  | Fault => Fault
  | Stop _ => Done w
  | Done (state, actions) =>
      let link := set_reader_state link state in
      for_each (fun action w =>
          if bool_decide (Rel.kind action = Rel.send_acknack) then send_acknack link action w
          else Done w)
        (Rel.contents actions) (set_readers (<[i := link]> links) w)
  end.

(** One slot of the loop of [handle_heartbeat]. *)
Definition heartbeat_to {E} (heartbeat : RelMsg.HeartbeatView) (remote : RemoteEndpoint)
    (slot_index : Z) (w : World) : outcome E World :=
  slot ← access (mload (subscriptions (context w)) slot_index);
  if negb (ss_occupied slot) then Done w
  else
    view ← subscription_network_view (ss_data slot);
    match view with
    | None => Done w
    | Some local =>
        if negb (is_reliable (Sedp.local_reliability (descriptor local))) then Done w
        else
          matches ← is_matched local remote;
          if negb matches ||
             (bool_decide (RelMsg.hb_reader_id heartbeat <> kUnknownReader) &&
              bool_decide (RelMsg.hb_reader_id heartbeat <> entity_id local))
          then Done w
          else
            '(found, links) ← reader_link slot_index (ss_generation slot) local remote
                                (RelMsg.hb_first heartbeat) (reliable_readers_ (net w));
            let w := set_readers links w in
            match found with
            | None => Done w
            | Some i => answer_heartbeat i (directed_heartbeat heartbeat (entity_id local)) w
            end
    end.

Definition handle_heartbeat {E} (packet : list Z) (w : World) : outcome E World :=
  match RelMsg.parse_heartbeat_body (Some packet) (zlen packet) with
  | Fault => Fault
  | Stop _ => Done w
  | Done heartbeat =>
      match find_remote_writer (RelMsg.guid_prefix (RelMsg.hb_header heartbeat))
              (RelMsg.hb_writer_id heartbeat) (endpoints_ (net w)) with
      | None => Done w
      | Some remote =>
          if negb (is_reliable (Sedp.reliability (re_data remote))) then Done w
          else for_each (heartbeat_to heartbeat remote) (seqZ 0 kSubscriptionCapacity) w
      end
  end.

(** The bytes an action of the writer points to. *)
Definition action_data {E} (state : Writer.ReliableWriter) (action : Rel.ReliabilityAction)
    : outcome E (list Z) :=
  slot ← access (Rel.data action);
  record ← access (mload (Writer.records_ state) slot);
  Done (History.payload_ (Writer.sample record)).

(** The repairs of one link. *)
Definition retransmit {E} (i : nat) (now_ns : Z) (action : Rel.ReliabilityAction) (w : World)
    : outcome E World :=
  if bool_decide (Rel.kind action = Rel.retransmit_data) then
    let links := reliable_writers_ (net w) in
    link ← access (links !! i);
    bytes ← action_data (wl_state link) action;
    w ← send user_socket_ (wl_destination link) bytes (Rel.data_size action) w;
    Done (set_writers
            (<[i := set_writer_state link (wl_state link) (wl_last_queued_sequence link)
                      now_ns]> links) w)
  else Done w.

(** The loop of [handle_acknack] over the links. *)
Fixpoint acknack_loop {E} (indices : list nat) (acknack : RelMsg.AckNackView) (now_ns : Z)
    (w : World) : outcome E World :=
  match indices with
  | [] => Done w
  | i :: rest =>
      let links := reliable_writers_ (net w) in
      link ← access (links !! i);
      if negb (wl_occupied link) ||
         bool_decide (wl_remote_prefix link <> RelMsg.guid_prefix (RelMsg.an_header acknack)) ||
         bool_decide (wl_remote_reader link <> RelMsg.an_reader_id acknack) ||
         bool_decide (wl_local_writer link <> RelMsg.an_writer_id acknack) ||
         (zlen (publishers (context w)) <=? wl_local_slot link)
      then acknack_loop rest acknack now_ns w
      else
        slot ← access (mload (publishers (context w)) (wl_local_slot link));
        if negb (ps_occupied slot) || negb (ps_generation slot =? wl_local_generation link)
        then acknack_loop rest acknack now_ns
               (set_writers (<[i := release_writer link]> links) w)
        else
          match Writer.on_acknack kWriterDepth kActions (wl_state link) acknack now_ns
                  (Rel.ActionBuffer_init kActions) with
          | Fault => Fault
          | Stop _ => Done w
          | Done (state, actions) =>
              let link := set_writer_state link state (wl_last_queued_sequence link)
                            (wl_next_heartbeat_ns link) in
              for_each (retransmit i now_ns) (Rel.contents actions)
                (set_writers (<[i := link]> links) w)
          end
  end.

Definition handle_acknack {E} (now_ns : Z) (packet : list Z) (w : World) : outcome E World :=
  match RelMsg.parse_acknack_body (Some packet) (zlen packet) with
  | Fault => Fault
  | Stop _ => Done w
  | Done acknack =>
      match find_remote_reader (RelMsg.guid_prefix (RelMsg.an_header acknack))
              (RelMsg.an_reader_id acknack) (endpoints_ (net w)) with
      | None => Done w
      | Some remote =>
          if negb (is_reliable (Sedp.reliability (re_data remote))) then Done w
          else acknack_loop (seq 0 (length (reliable_writers_ (net w)))) acknack now_ns w
      end
  end.

(** One datagram of [receive_user_data], with the clock read after it arrived. *)
Definition handle_user_datagram {E} (now_ns : Z) (clock : option (Z * Z)) (datagram : list Z)
    (w : World) : outcome E World :=
  let received_time := realtime_now_ns clock in
  w ← (if negb (received_time =? 0) then handle_data received_time datagram w else Done w);
  w ← handle_heartbeat datagram w;
  handle_acknack now_ns datagram w.

Fixpoint receive_user_loop {E} (attempts : nat) (now_ns : Z)
    (results : list (Received * option (Z * Z))) (w : World) : outcome E World :=
  match attempts, results with
  | S attempts, (datagram_received d, clock) :: results =>
      w ← handle_user_datagram now_ns clock d w;
      receive_user_loop attempts now_ns results w
  | S attempts, (receive_failed, _) :: results => receive_user_loop attempts now_ns results w
  | _, _ => Done w
  end.

Definition receive_user_data {E} (now_ns : Z) (results : list (Received * option (Z * Z)))
    (w : World) : outcome E World :=
  receive_user_loop kMaximumReceivesPerSocket now_ns results w.

(** ** Samples to the network *)

(** [publisher_network_copy_next] into [transmit_buffer_]: the number and the size of the
    packet, [None] for [false]. *)
Definition copy_next {E} (d : Publisher.PublisherData) (after_sequence : Z) (w : World)
    : outcome E (option (Z * Z) * World) :=
  let buffer := transmit_buffer_ (buffers_ (net w)) in
  match Publisher.publisher_network_copy_next d after_sequence (Some buffer) (zlen buffer) with
  | Fault => Fault
  | Stop buffer => buffer ← access buffer; Done (None, set_transmit buffer w)
  | Done (sequence, size, buffer) =>
      buffer ← access buffer; Done (Some (sequence, size), set_transmit buffer w)
  end.

(** [remote] is a matched reader with ([reliable]) or without the reliable protocol. *)
Definition is_peer {E} (local : NetworkEndpointView) (reliable : bool)
    (remote : RemoteEndpoint) : outcome E bool :=
  if negb (re_occupied remote) || bool_decide (Sedp.kind (re_data remote) <> Sedp.reader) ||
     xorb reliable (is_reliable (Sedp.reliability (re_data remote)))
  then Done false else is_matched local remote.

Definition send_best_effort {E} (local : NetworkEndpointView) (packet_size : Z)
    (remote : RemoteEndpoint) (w : World) : outcome E World :=
  peer ← is_peer local false remote;
  if negb peer then Done w
  else
    found ← first_endpoint (Sedp.unicast_locators (re_data remote));
    match found with
    | Some destination =>
        send user_socket_ destination (transmit_buffer_ (buffers_ (net w))) packet_size w
    | None => Done w
    end.

(** The loop over the samples of one publisher. *)
Fixpoint send_samples {E} (attempts : nat) (slot_index : Z) (d : Publisher.PublisherData)
    (local : NetworkEndpointView) (w : World) : outcome E World :=
  match attempts with
  | O => Done w
  | S attempts =>
      last ← access (mload (last_sent_sequence_ (net w)) slot_index);
      '(sample, w) ← copy_next d last w;
      match sample with
      | None => Done w
      | Some (sequence, packet_size) =>
          w ← for_each (send_best_effort local packet_size) (endpoints_ (net w)) w;
          sent ← access (mstore (last_sent_sequence_ (net w)) slot_index sequence);
          send_samples attempts slot_index d local
            (set_sent sent (publisher_generations_ (net w)) w)
      end
  end.

(** The test hook: [Done (true, _)] drops the datagram. *)
Definition consume_test_drop (w : World) : bool * World :=
  let drops := test_drop_reliable_data_ (net w) in
  if drops =? 0 then (false, w) else (true, set_drops (sub32 drops 1) w).

(** The reliable transmission to one remote endpoint. *)
Definition send_reliable {E} (slot_index generation now_ns : Z)
    (d : Publisher.PublisherData) (local : NetworkEndpointView) (remote : RemoteEndpoint)
    (w : World) : outcome E World :=
  peer ← is_peer local true remote;
  if negb peer then Done w
  else
    '(found, links) ← writer_link slot_index generation local remote
                        (reliable_writers_ (net w));
    let w := set_writers links w in
    match found with
    | None => Done w
    | Some i =>
        link ← access (links !! i);
        if negb (Writer.size_ (wl_state link) =? 0) then Done w
        else
          '(sample, w) ← copy_next d (wl_last_queued_sequence link) w;
          match sample with
          | None => Done w
          | Some (sequence, packet_size) =>
              match Writer.write kWriterDepth kMaximumDatagramSize kActions (wl_state link)
                      (Some (transmit_buffer_ (buffers_ (net w)))) packet_size sequence now_ns
                      (Rel.ActionBuffer_init kActions) with
              | Fault => Fault
              | Stop _ => Done w
              | Done (state, actions) =>
                  if negb (single_action Rel.send_data actions)
                  then Done (set_writers
                               (<[i := set_writer_state link state
                                         (wl_last_queued_sequence link)
                                         (wl_next_heartbeat_ns link)]> links) w)
                  else
                    let link := set_writer_state link state sequence now_ns in
                    let w := set_writers (<[i := link]> links) w in
                    let '(drop, w) := consume_test_drop w in
                    if (drop : bool) then Done w
                    else
                      action ← access (head (Rel.contents actions));
                      bytes ← action_data state action;
                      send user_socket_ (wl_destination link) bytes (Rel.data_size action) w
              end
          end
    end.

(** One slot of [send_pending_samples]. *)
Definition send_pending_of {E} (now_ns slot_index : Z) (w : World) : outcome E World :=
  slot ← access (mload (publishers (context w)) slot_index);
  generation ← access (mload (publisher_generations_ (net w)) slot_index);
  let reset w :=
    generations ← access (mstore (publisher_generations_ (net w)) slot_index
                            (ps_generation slot));
    sent ← access (mstore (last_sent_sequence_ (net w)) slot_index 0);
    Done (set_sent sent generations w) in
  if negb (ps_occupied slot) then reset w
  else
    w ← (if negb (generation =? ps_generation slot) then reset w else Done w);
    view ← publisher_network_view (ps_data slot);
    match view, ps_data slot with
    | Some local, Some d =>
        w ← send_samples kMaximumSamplesPerPublisherPass slot_index d local w;
        if negb (is_reliable (Sedp.local_reliability (descriptor local))) then Done w
        else for_each (send_reliable slot_index (ps_generation slot) now_ns d local)
               (endpoints_ (net w)) w
    | _, _ => Done w
    end.

Definition send_pending_samples {E} (now_ns : Z) (w : World) : outcome E World :=
  for_each (send_pending_of now_ns) (seqZ 0 kPublisherCapacity) w.

(** One link of [service_reliable_writers]. *)
Definition service_writer {E} (now_ns : Z) (i : nat) (w : World) : outcome E World :=
  let links := reliable_writers_ (net w) in
  link ← access (links !! i);
  if negb (wl_occupied link) then Done w
  else
    match Writer.on_timer kActions (wl_state link) now_ns
            (Rel.ActionBuffer_init kActions) with
    | Fault => Fault
    | Stop _ => Done (set_writers (<[i := release_writer link]> links) w)
    | Done (state, _) =>
        let link := set_writer_state link state (wl_last_queued_sequence link)
                      (wl_next_heartbeat_ns link) in
        let w := set_writers (<[i := link]> links) w in
        if negb (Writer.size_ state =? 0) && (wl_next_heartbeat_ns link <=? now_ns) then
          w ← send_heartbeat i w;
          let links := reliable_writers_ (net w) in
          link ← access (links !! i);
          Done (set_writers
                  (<[i := set_writer_state link (wl_state link)
                            (wl_last_queued_sequence link)
                            (add64 now_ns kHeartbeatPeriodNs)]> links) w)
        else Done w
    end.

Definition service_reliable_writers {E} (now_ns : Z) (w : World) : outcome E World :=
  for_each (service_writer now_ns) (seq 0 (length (reliable_writers_ (net w)))) w.

(** ** Clean-up *)

Definition publisher_alive {E} (slots : list PublisherSlot) (local_slot local_generation : Z)
    : outcome E bool :=
  if zlen slots <=? local_slot then Done false
  else
    slot ← access (mload slots local_slot);
    Done (ps_occupied slot && (ps_generation slot =? local_generation)).

Definition subscription_alive {E} (slots : list SubscriptionSlot)
    (local_slot local_generation : Z) : outcome E bool :=
  if zlen slots <=? local_slot then Done false
  else
    slot ← access (mload slots local_slot);
    Done (ss_occupied slot && (ss_generation slot =? local_generation)).

Definition prune_writer {E} (i : nat) (w : World) : outcome E World :=
  let links := reliable_writers_ (net w) in
  link ← access (links !! i);
  if negb (wl_occupied link) then Done w
  else
    local_valid ← publisher_alive (publishers (context w)) (wl_local_slot link)
                    (wl_local_generation link);
    Done (if negb local_valid ||
             bool_decide (find_remote_reader (wl_remote_prefix link) (wl_remote_reader link)
                            (endpoints_ (net w)) = None)
          then set_writers (<[i := release_writer link]> links) w else w).

Definition prune_reader {E} (i : nat) (w : World) : outcome E World :=
  let links := reliable_readers_ (net w) in
  link ← access (links !! i);
  if negb (rl_occupied link) then Done w
  else
    local_valid ← subscription_alive (subscriptions (context w)) (rl_local_slot link)
                    (rl_local_generation link);
    Done (if negb local_valid ||
             bool_decide (find_remote_writer (rl_remote_prefix link) (rl_remote_writer link)
                            (endpoints_ (net w)) = None)
          then set_readers (<[i := release_reader link]> links) w else w).

Definition prune_reliable_links {E} (w : World) : outcome E World :=
  w ← for_each prune_writer (seq 0 (length (reliable_writers_ (net w)))) w;
  for_each prune_reader (seq 0 (length (reliable_readers_ (net w)))) w.

(** ** The thread *)

(** What one iteration of [run] reads: the clock and the results on the three sockets. *)
Record Input : Set := {
  now : Z;
  multicast_input : list Received;
  metadata_input : list Received;
  user_input : list (Received * option (Z * Z));
}.

(** One iteration of [run], with [next_announcement]. *)
Definition run_once {E} (input : Input) (next_announcement : Z) (w : World)
    : outcome E (World * Z) :=
  let now_ns := now input in
  '(w, next_announcement) ←
    (if next_announcement <=? now_ns then
       w ← announce w; Done (w, add64 now_ns kAnnouncementPeriodNs)
     else Done (w, next_announcement));
  w ← receive_discovery now_ns (multicast_input input) (metadata_input input) w;
  w ← receive_user_data now_ns (user_input input) w;
  w ← send_pending_samples now_ns w;
  w ← service_reliable_writers now_ns w;
  w ← prune_reliable_links w;
  w ← expire_remote_state now_ns w;
  Done (w, next_announcement).
End Network.
