(* ===== verification/NetworkFacts.v ===== *)
(** * Addresses, directed messages and matches of the network thread

    What the operations of [NetworkRuntime] that do not depend on the rest of its state
    compute: the endpoint of a remote participant, the message behind an INFO_DST, the
    match status of every local endpoint. *)
From stdpp Require Import gmap.
From S2P Require Import Prelude Types Bytes Texts KeepLastHistory Locators MessageRouter DataMessage ParameterList ParameterFacts SlotTable Spdp Sedp GraphCache ReliabilityMessages ReliabilityState ReliableWriter ReliableReader Introspection Qos TypeSupport Endpoint Publisher Subscription PublisherFacts SubscriptionFacts Services NetworkRuntime.

Module NetworkFacts.
Import Types Texts Locators ParamFacts Slots Introspection Network.

(** ** Total correctness of outcomes *)

(** [m] returns, and its result satisfies [P]. *)
Definition returns {E A} (P : A -> Prop) (m : outcome E A) : Prop :=
  exists a, m = Done a /\ P a.

Section Returns.
Context {E : Type}.

Lemma returns_done {A} (P : A -> Prop) a : P a -> returns P (Done a : outcome E A).
Proof. intros. by exists a. Qed.

Lemma returns_bind {A B} (P : A -> Prop) (Q : B -> Prop) (m : outcome E A) k :
  returns P m -> (forall a, P a -> returns Q (k a)) -> returns Q (m ≫= k).
Proof. intros (a & -> & Ha) Hk. exact (Hk a Ha). Qed.

Lemma returns_impl {A} (P Q : A -> Prop) (m : outcome E A) :
  returns P m -> (forall a, P a -> Q a) -> returns Q m.
Proof. intros (a & -> & Ha) HPQ. exists a. auto. Qed.

Lemma returns_access {A B} (o : option A) (a : A) (Q : B -> Prop) (k : A -> outcome E B) :
  o = Some a -> returns Q (k a) -> returns Q (access o ≫= k).
Proof. by intros ->. Qed.

Lemma returns_for_each {I A} (P : A -> Prop) (body : I -> A -> outcome E A) xs a :
  (forall i a, i ∈ xs -> P a -> returns P (body i a)) -> P a ->
  returns P (for_each body xs a).
Proof.
  intros Hb. revert a. induction xs as [|i xs IH]; intros a Ha; cbn [for_each].
  { by exists a. }
  apply (returns_bind P); [apply Hb; [left|done]|].
  intros a' Ha'. apply IH; [|done]. intros. apply Hb; [by right|done].
Qed.
End Returns.

(** ** Addresses *)

Definition endpoint_of (x : Locator) : UdpEndpoint :=
  {| ep_address := drop 12 (address x); ep_port := u16 (port x) |}.

Lemma to_endpoint_valid {E} x :
  valid_udp_v4_locator x = true -> length (address x) = 16%nat ->
  to_endpoint x = (Done (Some (endpoint_of x)) : outcome E _).
Proof.
  intros Hv Hl. unfold to_endpoint. rewrite Hv. cbn [negb].
  unfold endpoint_of.
  destruct (address x) as [|a0 [|a1 [|a2 [|a3 [|a4 [|a5 [|a6 [|a7 [|a8 [|a9 [|a10 [|a11
    [|a12 [|a13 [|a14 [|a15 [|]]]]]]]]]]]]]]]]]; try discriminate.
  done.
Qed.

(** Of a list of valid locators the first one is used. *)
Lemma first_endpoint_sound {E} C l :
  list_sound C l ->
  first_endpoint l = (Done (endpoint_of <$> head (held l)) : outcome E _).
Proof.
  intros [[Hl Hs] Hv]. unfold first_endpoint, held in *.
  destruct (Z.eqb_spec (size l) 0) as [->|H0]; [done|].
  rewrite seqZ_cons by lia. cbn [first_endpoint_at].
  destruct (values l) as [|x xs]; [cbn in Hl; lia|].
  replace (Z.to_nat (size l)) with (S (Z.to_nat (size l - 1))) in * by lia.
  cbn [take] in Hv. apply Forall_cons in Hv as [[Hx Hx16] _].
  change (mload (x :: xs) 0) with (Some x). cbn [access mbind outcome_bind].
  by rewrite to_endpoint_valid.
Qed.

(** ** Directed messages *)

Definition info_destination (d : GuidPrefix) : Router.submessage :=
  {| Router.sub_id := Router.submessage_id_info_destination; Router.sub_flags := 1;
     Router.sub_content := d |}.

(** A message with an INFO_DST behind its header. *)
Definition directed (d : GuidPrefix) (m : list Z) : list Z :=
  take 20 m ++ Router.encode_sub (info_destination d) ++ drop 20 m.

Lemma directed_length d m :
  length d = 12%nat -> 20 <= zlen m -> zlen (directed d m) = zlen m + 16.
Proof.
  intros Hd Hm. unfold directed, Router.encode_sub.
  rewrite !length_app, length_take, length_drop, !Nat2Z.inj_add, Router.encode_declared_length.
  unfold Router.sub_size. cbn [info_destination Router.sub_content]. lia.
Qed.

Lemma direct_message_spec {E} buffer m n d out capacity :
  length d = 12%nat -> 20 <= n <= zlen buffer -> m = take (Z.to_nat n) buffer ->
  16 <= capacity <= zlen out -> capacity < 2 ^ 64 -> n + 16 <= capacity ->
  direct_message (Some buffer) n d (Some out) capacity =
  (Done (Some (directed d m ++ drop (length (directed d m)) out, zlen (directed d m)))
    : outcome E _).
Proof.
  intros Hd Hn -> Hc H64 Hfit. unfold direct_message. rewrite sub64_id by lia.
  destruct (Z.ltb_spec capacity 16), (Z.ltb_spec n 20), (Z.ltb_spec (capacity - 16) n);
    try lia. cbn [orb]. rewrite (sub64_id n 20), (add64_id n 16) by lia.
  set (m := take (Z.to_nat n) buffer).
  assert (zlen m = n) as Hm by (unfold m; rewrite length_take; lia).
  assert (buffer = take 20 m ++ drop 20 m ++ drop (Z.to_nat n) buffer) as Hbuf.
  { rewrite (assoc_L (++)), take_drop. unfold m. by rewrite take_drop. }
  assert (zlen (take 20 m) = 20) as H20 by (rewrite length_take; lia).
  assert (zlen (drop 20 m) = n - 20) as Hrest by (rewrite length_drop; lia).
  rewrite Hbuf. clear Hbuf.
  rewrite (mslice_start (take 20 m) _ 20) by lia.
  rewrite (mslice_app_exact (take 20 m) (drop 20 m) _ 20 (n - 20)) by lia.
  set (h := take 20 m) in *. set (r := drop 20 m) in *.
  cbn [access mbind outcome_bind]. unfold write_u16_le.
  change (u8 (Z.land 12 255)) with 12. change (u8 (Z.land (Z.shiftr 12 8) 255)) with 0.
  do 7 mwrite. unfold directed. fold h r.
  assert (Router.encode_sub (info_destination d) = [14; 1] ++ [12; 0] ++ d) as ->.
  { unfold Router.encode_sub, Router.encode_declared. cbn [info_destination Router.sub_content].
    rewrite Hd. done. }
  do 2 f_equal. f_equal.
  - rewrite !drop_drop, <- !(assoc_L (++)). cbn [app]. do 3 f_equal.
    rewrite !length_app. cbn [length]. rewrite !length_app. f_equal.
  - rewrite !length_app. cbn [length]. lia.
Qed.

(** ** Routing a directed message *)

Lemma directed_single v vendor source x d :
  length vendor = 2%nat -> length source = 12%nat ->
  directed d (Router.single_message v vendor source x) =
  Router.encode_message (rtps_header_bytes v vendor source) [info_destination d; x] None.
Proof.
  intros Hv Hs. unfold directed, Router.single_message, Router.encode_message.
  assert (length (rtps_header_bytes v vendor source) = 20%nat) as Hh
    by (unfold rtps_header_bytes; rewrite !length_app; simpl; lia).
  rewrite take_app_length', drop_app_length' by done.
  cbn [fmap list_fmap mjoin list_join option_fmap option_map default from_option].
  by rewrite !app_nil_r.
Qed.

Lemma not_info_identity x ctx :
  Router.is_info (Router.sub_id x) = false -> Router.sub_info x ctx = Done ctx.
Proof.
  unfold Router.is_info, Router.sub_info, Router.apply_info.
  destruct (Router.sub_id x =? Router.submessage_id_info_destination); [done|].
  destruct (Router.sub_id x =? Router.submessage_id_info_source); [done|].
  by destruct (Router.sub_id x =? Router.submessage_id_info_timestamp).
Qed.

(** The reliability parsers see through the INFO_DST. *)
Lemma parse_prefix_directed v vendor source x d id :
  supported_version v = true -> length vendor = 2%nat -> length source = 12%nat ->
  length d = 12%nat -> Router.is_info (Router.sub_id x) = false -> Router.is_info id = false ->
  0 < zlen (Router.sub_content x) <= u16_max ->
  let m := Router.single_message v vendor source x in
  RelMsg.parse_prefix (Some (directed d m)) (zlen (directed d m)) id =
  RelMsg.parse_prefix (Some m) (zlen m) id.
Proof.
  intros Hver Hv Hs Hd Hx Hid Hlen m. unfold RelMsg.parse_prefix, Router.find_submessage.
  cbn [RelMsg.null_with_size stop_if mbind outcome_bind].
  rewrite !checked_commit by apply Router.find_body_error. unfold m.
  pose proof (Router.single_message_length v vendor source x Hv Hs) as Hm.
  pose proof (directed_length d (Router.single_message v vendor source x) Hd ltac:(lia)) as Hdl.
  rewrite directed_single in Hdl |- * by done. unfold Router.single_message in *.
  unfold u16_max in Hlen. assert (Router.sub_ok x) as Hok.
  { split; [unfold u16_max; lia|]. intros Hnil. rewrite Hnil in Hlen. cbn in Hlen. lia. }
  assert (Router.sub_ok (info_destination d)) as Hok'.
  { split; cbn; [rewrite Hd; unfold u16_max; lia|]. by intros ->. }
  rewrite !Router.find_body_encoded; rewrite ?Forall_cons, ?Forall_nil; try (done || lia).
  unfold Router.routed. cbn [app option_list for_each Router.nth_sub].
  assert (forall ctx, Router.sub_info (info_destination d) ctx =
    Done (Router.set_destination ctx d)) as Hdst.
  { intros ctx. unfold Router.sub_info, Router.apply_info.
    cbn [info_destination Router.sub_id Router.sub_content]. rewrite Hd.
    assert (mslice d 0 12 = Some d) as Hsl by (rewrite <- (mslice_full d), Hd; done).
    cbn. by rewrite Hsl. }
  rewrite Hdst. cbn [mbind outcome_bind]. rewrite !not_info_identity by done.
  cbn [mbind outcome_bind].
  assert ((Router.sub_id (info_destination d) =? id) = false) as ->.
  { apply Z.eqb_neq. intros <-. done. }
  cbn [andb]. destruct ((Router.sub_id x =? id) && _); done.
Qed.

(** ** Control messages *)

Lemma heartbeat_single c : RelMsg.heartbeat_config_ok c ->
  0 < zlen (RelMsg.heartbeat_content c) <= u16_max.
Proof.
  intros Hc. rewrite (RelMsg.heartbeat_content_length c Hc). unfold u16_max. lia.
Qed.

(** A directed HEARTBEAT parses to the heartbeat it was built from. *)
Lemma directed_heartbeat_parses c d :
  RelMsg.heartbeat_config_ok c ->
  RelMsg.range_ok (RelMsg.hb_first c) (RelMsg.hb_last c) = true ->
  RelMsg.header_supported (RelMsg.hb_header c) = true -> length d = 12%nat ->
  let m := directed d (RelMsg.heartbeat_bytes c) in
  RelMsg.parse_heartbeat_body (Some m) (zlen m) = Done c.
Proof.
  intros Hc Hr Hh Hd m. rewrite <- (RelMsg.heartbeat_parses c Hc Hr Hh).
  apply andb_true_iff in Hh as [Hver _].
  unfold RelMsg.parse_heartbeat_body, m, RelMsg.heartbeat_bytes, RelMsg.control_message.
  rewrite parse_prefix_directed; try done; [apply Hc..|by apply heartbeat_single].
Qed.

Lemma acknack_single c : RelMsg.acknack_config_ok c ->
  0 < zlen (RelMsg.acknack_content c) <= u16_max.
Proof.
  intros Hc. rewrite (RelMsg.acknack_content_length c Hc). unfold u16_max.
  pose proof (RelMsg.word_count_range _ (RelMsg.ac_state _ Hc)). lia.
Qed.

Lemma directed_acknack_parses c d :
  RelMsg.acknack_config_ok c -> RelMsg.header_supported (RelMsg.an_header c) = true ->
  length d = 12%nat ->
  let m := directed d (RelMsg.acknack_bytes c) in
  RelMsg.parse_acknack_body (Some m) (zlen m) = Done c.
Proof.
  intros Hc Hh Hd m. rewrite <- (RelMsg.acknack_parses c Hc Hh).
  apply andb_true_iff in Hh as [Hver _].
  unfold RelMsg.parse_acknack_body, m, RelMsg.acknack_bytes, RelMsg.control_message.
  rewrite parse_prefix_directed; try done; [apply Hc..|by apply acknack_single].
Qed.

(** ** Local endpoints *)

(** A name array holds a terminated string. *)
Definition name_ok (text : list Z) : Prop :=
  zlen text < 2 ^ 63 /\ exists s, cstring (Some text) s.

Definition name_size (text : list Z) : Z :=
  match list_find (fun c => c = 0) text with Some (i, _) => Z.of_nat i | None => 0 end.

Lemma name_size_string s rest :
  Forall (fun c => c <> 0) s -> name_size (s ++ 0 :: rest) = zlen s.
Proof.
  intros Hs. unfold name_size. rewrite list_find_app_r.
  - cbn. f_equal.
  - by apply list_find_None.
Qed.

Lemma strlen_spec {E} text :
  name_ok text -> Publisher.strlen text = (Done (name_size text) : outcome E Z).
Proof.
  intros (H63 & s & rest & [= ->] & Hs). rewrite name_size_string by done.
  unfold Publisher.strlen. rewrite length_app in H63. cbn [length] in H63.
  pose proof (text_length_spec (E:=E) (S (length (s ++ 0 :: rest))) s rest [] Hs) as Hlen.
  cbn [app length] in Hlen. change (Z.of_nat 0) with 0 in Hlen. rewrite Hlen by lia.
  f_equal. rewrite length_app. cbn [length]. lia.
Qed.

Lemma name_size_range text : name_ok text -> 0 <= name_size text <= zlen text.
Proof.
  intros (H63 & s & rest & [= ->] & Hs). rewrite name_size_string by done.
  rewrite length_app. lia.
Qed.

(** What the thread sees of a publisher and of a subscription. *)
Definition publisher_view (d : Publisher.PublisherData) : NetworkEndpointView :=
  let s := Publisher.setup d in
  let topic := TypeSupport.topic_name (Publisher.names s) in
  let type := TypeSupport.type_name (Publisher.names s) in
  {| descriptor :=
       {| Sedp.local_kind := Sedp.writer; Sedp.local_topic_name := Some topic;
          Sedp.local_topic_name_size := name_size topic;
          Sedp.local_type_name := Some type; Sedp.local_type_name_size := name_size type;
          Sedp.local_reliability := Publisher.announced_reliability (Publisher.resources s);
          Sedp.local_durability := Sedp.volatile_durability |};
     entity_id := Publisher.writer_id s; view_sedp := Publisher.sedp d;
     view_sedp_size := Publisher.sedp_size d |}.

Definition subscription_view (d : Subscription.SubscriptionData) : NetworkEndpointView :=
  let s := Subscription.setup d in
  let topic := TypeSupport.topic_name (Subscription.names s) in
  let type := TypeSupport.type_name (Subscription.names s) in
  {| descriptor :=
       {| Sedp.local_kind := Sedp.reader; Sedp.local_topic_name := Some topic;
          Sedp.local_topic_name_size := name_size topic;
          Sedp.local_type_name := Some type; Sedp.local_type_name_size := name_size type;
          Sedp.local_reliability :=
            Publisher.announced_reliability (Subscription.resources s);
          Sedp.local_durability := Sedp.volatile_durability |};
     entity_id := Subscription.reader_id s; view_sedp := Subscription.sedp d;
     view_sedp_size := Subscription.sedp_size d |}.

Definition names_ok (n : TypeSupport.DdsNames) : Prop :=
  name_ok (TypeSupport.topic_name n) /\ name_ok (TypeSupport.type_name n).

(** ** Matching *)

Definition view_ok (local : NetworkEndpointView) : Prop := Sedp.local_ok (descriptor local).

#[global] Instance qos_compatible_dec k l r : Decision (Sedp.qos_compatible k l r).
Proof. destruct k; cbn; apply _. Defined.

#[global] Instance valid_local_dec l : Decision (Sedp.valid_local l).
Proof. unfold Sedp.valid_local. apply _. Defined.

#[global] Instance compatible_dec l r : Decision (Sedp.compatible l r).
Proof. unfold Sedp.compatible. apply _. Defined.

Definition remote_ok (e : RemoteEndpoint) : Prop :=
  re_occupied e = true ->
  Sedp.endpoint_sound (re_data e) /\
  length (Sedp.participant_guid_prefix (re_data e)) = 12%nat.

Lemma is_matched_spec {E} local e :
  view_ok local -> remote_ok e -> re_occupied e = true ->
  is_matched local e =
  (Done (bool_decide (Sedp.compatible (descriptor local) (re_data e))) : outcome E bool).
Proof.
  intros Hl He Ho. destruct (He Ho) as [Hs _]. unfold is_matched.
  destruct (Sedp.match_cases (descriptor local) (re_data e) Hl Hs) as (H1 & H2 & H3 & H4).
  destruct (Sedp.evaluate_endpoint_match _ _) as [|s|s]; [done|..]; f_equal.
  - rewrite !bool_decide_false; [done|naive_solver|congruence].
  - rewrite !bool_decide_true; [done|..]; naive_solver.
Qed.

(** The remote endpoints of the kind [k] that match. *)
Definition matching (local : NetworkEndpointView) (k : Sedp.EndpointKind)
    (l : list RemoteEndpoint) : list RemoteEndpoint :=
  filter (fun e => re_occupied e = true /\ Sedp.kind (re_data e) = k /\
                   Sedp.compatible (descriptor local) (re_data e)) l.

Lemma matching_length local k l : (length (matching local k l) <= length l)%nat.
Proof. apply length_filter. Qed.

Lemma count_matches_spec {E} local k l :
  view_ok local -> Forall remote_ok l -> zlen l < 2 ^ 63 ->
  count_matches local k l = (Done (zlen (matching local k l)) : outcome E Z).
Proof.
  intros Hl Hok H63. unfold count_matches.
  enough (forall n, 0 <= n -> n + zlen l < 2 ^ 64 ->
    for_each (fun remote matches =>
      if re_occupied remote && bool_decide (Sedp.kind (re_data remote) = k) then
        m ← is_matched local remote;
        Done (if (m : bool) then add64 matches 1 else matches)
      else Done matches) l n =
    (Done (n + zlen (matching local k l)) : outcome E Z)) as Hgen by (apply Hgen; lia).
  clear H63. induction Hok as [|e l He Hok IH]; intros n Hn Hb; cbn [for_each].
  { cbn. f_equal. lia. }
  cbn [length] in Hb. unfold matching in *. rewrite filter_cons.
  destruct (re_occupied e) eqn:Ho; cbn [andb mbind outcome_bind].
  2:{ rewrite decide_False by naive_solver. apply IH; lia. }
  destruct (decide (Sedp.kind (re_data e) = k)) as [Hk|Hk].
  2:{ rewrite bool_decide_false by done. rewrite decide_False by naive_solver. apply IH; lia. }
  rewrite bool_decide_true by done. rewrite is_matched_spec by done.
  cbn [mbind outcome_bind].
  destruct (decide (Sedp.compatible (descriptor local) (re_data e))) as [Hc|Hc].
  - rewrite bool_decide_true by done. rewrite decide_True by done.
    rewrite add64_id by lia. rewrite IH by lia. cbn [length]. f_equal. lia.
  - rewrite bool_decide_false by done. rewrite decide_False by naive_solver. apply IH; lia.
Qed.

(** ** Endpoints of the context *)

Section Runtime.
Context `{GeneratedTypes}.

(** The endpoints of a context whose participant has the prefix [p]. *)
Record publisher_ok (p : GuidPrefix) (d : Publisher.PublisherData) : Prop := {
  pk_history : exists q, PublisherFacts.publishes d q;
  pk_names : names_ok (Publisher.names (Publisher.setup d));
  pk_sedp : 0 <= Publisher.sedp_size d <= zlen (Publisher.sedp d);
  pk_prefix : Publisher.participant_prefix (Publisher.setup d) = p;
}.

Record subscription_ok (d : Subscription.SubscriptionData) : Prop := {
  sk_history : exists q seen, SubscriptionFacts.queues d q seen;
  sk_names : names_ok (Subscription.names (Subscription.setup d));
  sk_sedp : 0 <= Subscription.sedp_size d <= zlen (Subscription.sedp d);
  sk_reader : length (Subscription.reader_id (Subscription.setup d)) = 4%nat;
}.

Definition publisher_slot_ok (p : GuidPrefix) (s : PublisherSlot) : Prop :=
  forall d, ps_data s = Some d -> publisher_ok p d.
Definition subscription_slot_ok (s : SubscriptionSlot) : Prop :=
  forall d, ss_data s = Some d -> subscription_ok d.

Lemma publisher_viewed {E} p s :
  publisher_slot_ok p s ->
  publisher_network_view (ps_data s) = (Done (publisher_view <$> ps_data s) : outcome E _).
Proof.
  intros Hs. unfold publisher_network_view. destruct (ps_data s) as [d|] eqn:Hd; [|done].
  destruct (pk_names _ _ (Hs d Hd)) as [Ht Hy]. by rewrite !strlen_spec.
Qed.

Lemma subscription_viewed {E} s :
  subscription_slot_ok s ->
  subscription_network_view (ss_data s) =
  (Done (subscription_view <$> ss_data s) : outcome E _).
Proof.
  intros Hs. unfold subscription_network_view. destruct (ss_data s) as [d|] eqn:Hd; [|done].
  destruct (sk_names _ (Hs d Hd)) as [Ht Hy]. by rewrite !strlen_spec.
Qed.

Lemma publisher_view_ok p d : publisher_ok p d -> view_ok (publisher_view d).
Proof.
  intros [_ [Ht Hy] _ _]. split; cbn; intros t [= <-]; by apply name_size_range.
Qed.

Lemma subscription_view_ok d : subscription_ok d -> view_ok (subscription_view d).
Proof.
  intros [_ [Ht Hy] _ _]. split; cbn; intros t [= <-]; by apply name_size_range.
Qed.

(** ** Recomputing the matches *)

(** A registered endpoint with the number of its matches, and the change of that number. *)
Definition rematch_publisher (l : list RemoteEndpoint) (s : PublisherSlot)
    : Z * PublisherSlot :=
  match ps_occupied s, ps_data s with
  | true, Some d =>
      let n := zlen (matching (publisher_view d) Sedp.reader l) in
      let '(transitions, d) := Publisher.publisher_network_set_match_count d n in
      (transitions, set_publisher_data s d)
  | _, _ => (0, s)
  end.

Definition rematch_subscription (l : list RemoteEndpoint) (s : SubscriptionSlot)
    : Z * SubscriptionSlot :=
  match ss_occupied s, ss_data s with
  | true, Some d =>
      let n := zlen (matching (subscription_view d) Sedp.writer l) in
      let '(transitions, d) := Subscription.subscription_network_set_match_count d n in
      (transitions, set_subscription_data s d)
  | _, _ => (0, s)
  end.

(** The event sources with a change, from the slot [i] on. *)
Fixpoint changes {A} (source : Z -> EventSource) (rematch : A -> Z * A) (i : Z) (l : list A)
    : list (EventSource * Z) :=
  match l with
  | [] => []
  | s :: l' =>
      let n := (rematch s).1 in
      (if n =? 0 then [] else [(source i, n)]) ++ changes source rematch (i + 1) l'
  end.

Lemma changes_length {A} source rematch (l : list A) : forall i,
  (length (changes source rematch i l) <= length l)%nat.
Proof.
  induction l as [|s l IH]; intros i; cbn [changes length]; [done|].
  rewrite length_app. specialize (IH (i + 1)). case_match; cbn [length]; lia.
Qed.

Lemma match_publisher_spec {E} p w changed done_ s rest :
  publishers (context w) = done_ ++ s :: rest -> publisher_slot_ok p s ->
  Forall remote_ok (endpoints_ (net w)) -> zlen (endpoints_ (net w)) < 2 ^ 63 ->
  zlen changed < 16 ->
  let '(n, s') := rematch_publisher (endpoints_ (net w)) s in
  match_publisher (zlen done_) (w, changed) =
  (Done (set_publishers (done_ ++ s' :: rest) w,
         changed ++ if n =? 0 then [] else [(publisher_source (zlen done_), n)])
    : outcome E _).
Proof.
  intros Hp Hs Hok H63 Hch. unfold rematch_publisher, match_publisher.
  assert (set_publishers (done_ ++ s :: rest) w = w) as Hsame.
  { rewrite <- Hp. by destruct w as [n []]. }
  rewrite Hp. rewrite mload_middle by done. cbn [access mbind outcome_bind].
  destruct (ps_occupied s); cbn [negb]; [|by rewrite Hsame, app_nil_r].
  rewrite (publisher_viewed p s Hs). cbn [mbind outcome_bind].
  destruct (ps_data s) as [d|] eqn:Hd; cbn [fmap option_fmap option_map];
    [|by rewrite Hsame, app_nil_r].
  rewrite (count_matches_spec _ _ _ (publisher_view_ok p d (Hs d Hd)) Hok H63).
  cbn [mbind outcome_bind].
  destruct (Publisher.publisher_network_set_match_count _ _) as [n d'].
  rewrite mstore_middle by done. cbn [access mbind outcome_bind].
  destruct (Z.ltb_spec (zlen changed) (kPublisherCapacity + kSubscriptionCapacity));
    [|unfold kPublisherCapacity, kSubscriptionCapacity in *; lia].
  rewrite andb_true_r. by destruct (n =? 0); cbn [negb]; rewrite ?app_nil_r.
Qed.

Lemma match_subscription_spec {E} w changed done_ s rest :
  subscriptions (context w) = done_ ++ s :: rest -> subscription_slot_ok s ->
  Forall remote_ok (endpoints_ (net w)) -> zlen (endpoints_ (net w)) < 2 ^ 63 ->
  zlen changed < 16 ->
  let '(n, s') := rematch_subscription (endpoints_ (net w)) s in
  match_subscription (zlen done_) (w, changed) =
  (Done (set_subscriptions (done_ ++ s' :: rest) w,
         changed ++ if n =? 0 then [] else [(subscription_source (zlen done_), n)])
    : outcome E _).
Proof.
  intros Hp Hs Hok H63 Hch. unfold rematch_subscription, match_subscription.
  assert (set_subscriptions (done_ ++ s :: rest) w = w) as Hsame.
  { rewrite <- Hp. by destruct w as [n []]. }
  rewrite Hp, mload_middle by done. cbn [access mbind outcome_bind].
  destruct (ss_occupied s); cbn [negb]; [|by rewrite Hsame, app_nil_r].
  rewrite (subscription_viewed s Hs). cbn [mbind outcome_bind].
  destruct (ss_data s) as [d|] eqn:Hd; cbn [fmap option_fmap option_map];
    [|by rewrite Hsame, app_nil_r].
  rewrite (count_matches_spec _ _ _ (subscription_view_ok d (Hs d Hd)) Hok H63).
  cbn [mbind outcome_bind].
  destruct (Subscription.subscription_network_set_match_count _ _) as [n d'].
  rewrite mstore_middle by done. cbn [access mbind outcome_bind].
  destruct (Z.ltb_spec (zlen changed) (kPublisherCapacity + kSubscriptionCapacity));
    [|unfold kPublisherCapacity, kSubscriptionCapacity in *; lia].
  rewrite andb_true_r. by destruct (n =? 0); cbn [negb]; rewrite ?app_nil_r.
Qed.

Lemma match_publishers_loop {E} p w l todo : forall done_ changed,
  l = endpoints_ (net w) -> Forall remote_ok l -> zlen l < 2 ^ 63 ->
  Forall (publisher_slot_ok p) todo -> (length changed + length todo <= 16)%nat ->
  for_each match_publisher (seqZ (zlen done_) (zlen todo))
    (set_publishers (done_ ++ todo) w, changed) =
  (Done (set_publishers (done_ ++ (snd ∘ rematch_publisher l <$> todo)) w,
         changed ++ changes publisher_source (rematch_publisher l) (zlen done_) todo)
    : outcome E _).
Proof.
  intros done_ changed -> Hok H63 Hs Hch. revert done_ changed Hch.
  induction Hs as [|s todo Hs Hall IH]; intros done_ changed Hch; cbn [length].
  { cbn [fmap list_fmap changes for_each]. by rewrite !app_nil_r. }
  cbn [length] in Hch. rewrite seqZ_cons by lia. cbn [for_each].
  pose proof (match_publisher_spec (E:=E) p (set_publishers (done_ ++ s :: todo) w) changed
    done_ s todo eq_refl Hs Hok H63 ltac:(lia)) as Hstep.
  change (endpoints_ (net (set_publishers (done_ ++ s :: todo) w)))
    with (endpoints_ (net w)) in Hstep.
  cbn [fmap list_fmap changes compose].
  destruct (rematch_publisher (endpoints_ (net w)) s) as [n s'] eqn:Hr. rewrite Hstep.
  cbn [mbind outcome_bind fst snd].
  specialize (IH (done_ ++ [s'])
    (changed ++ if n =? 0 then [] else [(publisher_source (zlen done_), n)])).
  rewrite !length_app in IH. cbn [length] in IH.
  rewrite <- !(assoc_L (++)) in IH. cbn [app] in IH.
  replace (Z.of_nat (length done_ + 1)) with (zlen done_ + 1) in IH by lia.
  replace (Z.succ (zlen done_)) with (zlen done_ + 1) by lia.
  replace (Z.pred (Z.of_nat (S (length todo)))) with (zlen todo) by lia.
  apply IH. case_match; cbn [length]; lia.
Qed.

Lemma match_subscriptions_loop {E} w l todo : forall done_ changed,
  l = endpoints_ (net w) -> Forall remote_ok l -> zlen l < 2 ^ 63 ->
  Forall subscription_slot_ok todo -> (length changed + length todo <= 16)%nat ->
  for_each match_subscription (seqZ (zlen done_) (zlen todo))
    (set_subscriptions (done_ ++ todo) w, changed) =
  (Done (set_subscriptions (done_ ++ (snd ∘ rematch_subscription l <$> todo)) w,
         changed ++ changes subscription_source (rematch_subscription l) (zlen done_) todo)
    : outcome E _).
Proof.
  intros done_ changed -> Hok H63 Hs Hch. revert done_ changed Hch.
  induction Hs as [|s todo Hs Hall IH]; intros done_ changed Hch; cbn [length].
  { cbn [fmap list_fmap changes for_each]. by rewrite !app_nil_r. }
  cbn [length] in Hch. rewrite seqZ_cons by lia. cbn [for_each].
  pose proof (match_subscription_spec (E:=E) (set_subscriptions (done_ ++ s :: todo) w) changed
    done_ s todo eq_refl Hs Hok H63 ltac:(lia)) as Hstep.
  change (endpoints_ (net (set_subscriptions (done_ ++ s :: todo) w)))
    with (endpoints_ (net w)) in Hstep.
  cbn [fmap list_fmap changes compose].
  destruct (rematch_subscription (endpoints_ (net w)) s) as [n s'] eqn:Hr. rewrite Hstep.
  cbn [mbind outcome_bind fst snd].
  specialize (IH (done_ ++ [s'])
    (changed ++ if n =? 0 then [] else [(subscription_source (zlen done_), n)])).
  rewrite !length_app in IH. cbn [length] in IH.
  rewrite <- !(assoc_L (++)) in IH. cbn [app] in IH.
  replace (Z.of_nat (length done_ + 1)) with (zlen done_ + 1) in IH by lia.
  replace (Z.succ (zlen done_)) with (zlen done_ + 1) by lia.
  replace (Z.pred (Z.of_nat (S (length todo)))) with (zlen todo) by lia.
  apply IH. case_match; cbn [length]; lia.
Qed.

Lemma set_publishers_same w : set_publishers (publishers (context w)) w = w.
Proof. by destruct w as [n []]. Qed.

Lemma set_subscriptions_same w : set_subscriptions (subscriptions (context w)) w = w.
Proof. by destruct w as [n []]. Qed.

Lemma emit_all (l : list (EventSource * Z)) : forall w,
  foldl (fun w '(source, transitions) => emit (EventsNotified source transitions) w) w l =
  {| net := net w; context := context w;
     trace := trace w ++ ((fun '(source, n) => EventsNotified source n) <$> l) |}.
Proof.
  induction l as [|[source n] l IH]; intros w; cbn.
  { rewrite app_nil_r. by destruct w. }
  rewrite IH. cbn. by rewrite <- (assoc_L (++)).
Qed.

(** The state behind [recompute_matches]. *)
Definition rematched (w : World) : World :=
  let l := endpoints_ (net w) in
  let c := context w in
  let events := changes publisher_source (rematch_publisher l) 0 (publishers c) ++
                changes subscription_source (rematch_subscription l) 0 (subscriptions c) in
  {| net := net w;
     context := context (set_publishers (snd ∘ rematch_publisher l <$> publishers c)
                  (set_subscriptions (snd ∘ rematch_subscription l <$> subscriptions c) w));
     trace := trace w ++ ((fun '(source, n) => EventsNotified source n) <$> events) |}.

Lemma recompute_spec {E} p w :
  Forall (publisher_slot_ok p) (publishers (context w)) ->
  Forall subscription_slot_ok (subscriptions (context w)) ->
  zlen (publishers (context w)) = 8 -> zlen (subscriptions (context w)) = 8 ->
  Forall remote_ok (endpoints_ (net w)) -> zlen (endpoints_ (net w)) < 2 ^ 63 ->
  recompute_matches w = (Done (rematched w) : outcome E World).
Proof.
  intros Hp Hs Hp8 Hs8 Hok H63. unfold recompute_matches, kPublisherCapacity,
    kSubscriptionCapacity.
  set (l := endpoints_ (net w)) in *.
  pose proof (match_publishers_loop (E:=E) p w l (publishers (context w)) [] [] eq_refl Hok H63
    Hp ltac:(cbn; lia)) as H1.
  cbn [app] in H1. rewrite set_publishers_same, Hp8 in H1.
  change (zlen []) with 0 in H1. rewrite H1. clear H1.
  cbn [mbind outcome_bind app].
  set (w1 := set_publishers (snd ∘ rematch_publisher l <$> publishers (context w)) w).
  pose proof (match_subscriptions_loop (E:=E) w1 l (subscriptions (context w)) []
    (changes publisher_source (rematch_publisher l) 0 (publishers (context w)))
    eq_refl Hok H63 Hs) as H2.
  pose proof (changes_length publisher_source (rematch_publisher l) (publishers (context w)) 0).
  specialize (H2 ltac:(lia)).
  change ([] ++ subscriptions (context w)) with (subscriptions (context w1)) in H2.
  rewrite set_subscriptions_same, Hs8 in H2. change (zlen []) with 0 in H2. rewrite H2.
  cbn [mbind outcome_bind app]. by rewrite emit_all.
Qed.

End Runtime.

End NetworkFacts.
