(* ===== verification/NetworkSafety.v ===== *)
(** * Every pass of the network thread is safe

    The invariant of the network thread and the context it serves: the tables have their
    sizes, hold well-formed remote participants and endpoints once each, the reliable links
    are well-formed reader and writer states for those pairs, and every datagram handed to
    the user socket is a DATA, HEARTBEAT or ACKNACK message of this participant.  Whatever
    arrives on the sockets, each operation of the thread returns and keeps it. *)
From stdpp Require Import gmap.
From S2P Require Import Prelude Types Bytes Texts KeepLastHistory Locators MessageRouter DataMessage ParameterFacts SlotTable Spdp Sedp GraphCache GraphFacts GraphInvariant GraphExchange GraphSync ReliabilityMessages ReliabilityState ReliableWriter WriterTrace ReliableReader Introspection Qos TypeSupport Endpoint Publisher Subscription PublisherFacts SubscriptionFacts Services NetworkRuntime NetworkFacts.

Module NetworkSafety.
Import Types Locators ParamFacts Slots Introspection Network NetworkFacts.

(** ** Links as table entries *)

#[global, program] Instance writer_link_slot
    : Slot ReliableWriterLink (Z * Z * EntityId * GuidPrefix * EntityId) := {|
  occupied := wl_occupied;
  slot_key l := (wl_local_slot l, wl_local_generation l, wl_local_writer l,
                 wl_remote_prefix l, wl_remote_reader l);
  slot_empty := ReliableWriterLink_default;
|}.
Next Obligation. done. Qed.

#[global, program] Instance reader_link_slot
    : Slot ReliableReaderLink (Z * Z * EntityId * GuidPrefix * EntityId) := {|
  occupied := rl_occupied;
  slot_key l := (rl_local_slot l, rl_local_generation l, rl_local_reader l,
                 rl_remote_prefix l, rl_remote_writer l);
  slot_empty := ReliableReaderLink_default;
|}.
Next Obligation. done. Qed.

(** Storing an entry that keeps its key, or that is free. *)
Lemma keys_store_same {E K} `{Slot E K} (es : list E) i x e :
  es !! i = Some x -> occupied e = occupied x -> slot_key e = slot_key x ->
  keys (<[i := e]> es) = keys es.
Proof.
  revert i. induction es as [|y es IH]; intros [|i] Hi Ho Hk; [done..| |].
  - injection Hi as ->. cbn [insert list_insert].
    destruct (occupied x) eqn:Hx.
    + rewrite !keys_cons_occupied by congruence. by rewrite Hk.
    + by rewrite !keys_cons_free by congruence.
  - cbn [insert list_insert]. change (list_insert i e es) with (<[i := e]> es).
    destruct (occupied y) eqn:Hy.
    + rewrite !keys_cons_occupied by done. f_equal. by apply IH.
    + rewrite !keys_cons_free by done. by apply IH.
Qed.

Lemma keys_store_free {E K} `{Slot E K} (es : list E) i e :
  occupied e = false -> NoDup (keys es) -> NoDup (keys (<[i := e]> es)).
Proof.
  intros Ho. enough (sublist (keys (<[i := e]> es)) (keys es)) as Hs
    by (intros Hd; by eapply sublist_NoDup).
  revert i. induction es as [|y es IH]; intros [|i]; [done..| |].
  - cbn [insert list_insert]. rewrite (keys_cons_free e) by done.
    destruct (occupied y) eqn:Hy;
      [rewrite keys_cons_occupied by done; by constructor|by rewrite keys_cons_free].
  - cbn [insert list_insert]. change (list_insert i e es) with (<[i := e]> es).
    destruct (occupied y) eqn:Hy.
    + rewrite !keys_cons_occupied by done. by constructor.
    + rewrite !keys_cons_free by done. apply IH.
Qed.

Lemma elem_of_store {A} (l : list A) i x y : y ∈ <[i := x]> l -> y = x \/ y ∈ l.
Proof.
  rewrite !list_elem_of_lookup. intros [j Hj].
  apply list_lookup_insert_Some in Hj as [(_ & -> & _)|[_ Hj]]; eauto.
Qed.

(** The map of a table has an entry for a key exactly when an occupied entry has it. *)
Lemma contents_some {E K} `{Slot E K} (es : list E) k :
  is_Some (contents es !! k) <-> exists e, e ∈ es /\ occupied e = true /\ slot_key e = k.
Proof.
  split.
  - intros [e He]. apply contents_key in He as (Ho & Hk & Hin). by exists e.
  - intros (e & Hin & Ho & Hk). destruct (contents es !! k) as [x|] eqn:Hx; [by exists x|].
    apply keys_contents in Hx. destruct Hx. unfold keys, live. rewrite <- Hk.
    apply list_elem_of_fmap_2, list_elem_of_filter. done.
Qed.

(** Storing into the entry an announcement goes to is an insertion. *)
Lemma target_entry_store {E K} `{Slot E K} (es : list E) k i e :
  NoDup (keys es) -> target_entry k es = Some i -> occupied e = true -> slot_key e = k ->
  contents (<[i := e]> es) = <[k := e]> (contents es) /\ NoDup (keys (<[i := e]> es)).
Proof.
  intros Hd Ht Ho Hk. unfold target_entry in Ht.
  pose proof (search_contents k es) as Hs.
  destruct (first_where (holds k) es) as [[j x]|] eqn:Hf.
  - injection Ht as ->. destruct (update_contents k es i x e Hf Ho Hk) as [-> ->]. done.
  - destruct (first_where Graph.is_free es) as [[j x]|] eqn:Hfree; [|done].
    injection Ht as ->. symmetry in Hs.
    destruct (add_contents k es i x e Hfree Hs Ho Hk) as [-> Hp]. split; [done|].
    rewrite Hp. constructor; [|done]. by apply keys_contents.
Qed.

(** Entries of a table after the reset of those that are due. *)
Lemma reset_where_elem {E K} `{Slot E K} due (es : list E) e :
  e ∈ Graph.reset_where due es -> occupied e = true -> e ∈ es /\ due e = false.
Proof.
  unfold Graph.reset_where. intros (x & -> & Hin)%list_elem_of_fmap Ho.
  destruct (occupied x) eqn:Hx; cbn [andb] in *; [|congruence].
  destruct (due x) eqn:Hdue; [by rewrite slot_empty_free in Ho|done].
Qed.

(** ** Messages of this participant *)

Definition data_of (p : GuidPrefix) (d : list Z) : Prop :=
  exists c payload, Data.config_ok c /\ Data.buildable c payload 65507 = true /\
    Data.cfg_guid_prefix c = p /\ d = Data.data_message_bytes c payload.

Definition heartbeat_of (p : GuidPrefix) (d : list Z) : Prop :=
  exists c dst, RelMsg.heartbeat_config_ok c /\
    RelMsg.range_ok (RelMsg.hb_first c) (RelMsg.hb_last c) = true /\
    RelMsg.header_supported (RelMsg.hb_header c) = true /\
    RelMsg.guid_prefix (RelMsg.hb_header c) = p /\ length dst = 12%nat /\
    d = directed dst (RelMsg.heartbeat_bytes c).

Definition acknack_of_participant (p : GuidPrefix) (d : list Z) : Prop :=
  exists c dst, RelMsg.acknack_config_ok c /\
    RelMsg.header_supported (RelMsg.an_header c) = true /\
    RelMsg.guid_prefix (RelMsg.an_header c) = p /\ length dst = 12%nat /\
    d = directed dst (RelMsg.acknack_bytes c).

Definition output_ok (p : GuidPrefix) (o : Output) : Prop :=
  match o with
  | Sent user_socket_ _ d => data_of p d \/ heartbeat_of p d \/ acknack_of_participant p d
  | _ => True
  end.

(** ** The invariant *)

(** The sample a link holds is a DATA message of this participant. *)
Definition holds_packet (p : GuidPrefix) (r : Writer.WriterRecord) : Prop :=
  data_of p (History.sample_view (Writer.sample r)).1.

Record writer_link_ok (p : GuidPrefix) (l : ReliableWriterLink) : Prop := {
  wk_state : Writer.writer_wf kWriterDepth kMaximumDatagramSize (wl_state l);
  wk_samples : Forall (holds_packet p) (Writer.live (wl_state l));
  wk_reader : Writer.w_reader_id (Writer.config_ (wl_state l)) = wl_remote_reader l;
  wk_writer : Writer.w_writer_id (Writer.config_ (wl_state l)) = wl_local_writer l;
  wk_reader_length : length (wl_remote_reader l) = 4%nat;
  wk_writer_length : length (wl_local_writer l) = 4%nat;
  wk_prefix : length (wl_remote_prefix l) = 12%nat;
  wk_slot : 0 <= wl_local_slot l;
}.

Record reader_link_ok (l : ReliableReaderLink) : Prop := {
  rk_state : Reader.valid_ (rl_state l) = true -> Reader.reader_wf kReaderWindow (rl_state l);
  rk_reader : Reader.r_reader_id (Reader.config_ (rl_state l)) = rl_local_reader l;
  rk_writer : Reader.r_writer_id (Reader.config_ (rl_state l)) = rl_remote_writer l;
  rk_reader_length : length (rl_local_reader l) = 4%nat;
  rk_writer_length : length (rl_remote_writer l) = 4%nat;
  rk_prefix : length (rl_remote_prefix l) = 12%nat;
  rk_slot : 0 <= rl_local_slot l;
}.

Definition remote_participant_ok (x : RemoteParticipant) : Prop :=
  rp_occupied x = true -> Spdp.participant_sound (rp_data x).

Record buffers_ok (b : Buffers) : Prop := {
  bo_payload : zlen (graph_payload_ b) = Graph.graph_wire_capacity;
  bo_message : zlen (graph_message_ b) = Graph.graph_wire_capacity + 44;
  bo_transmit : zlen (transmit_buffer_ b) = kMaximumDatagramSize;
  bo_control : zlen (control_buffer_ b) = kControlDatagramSize;
  bo_directed : zlen (directed_control_buffer_ b) = kControlDatagramSize + 16;
}.

(** The remote tables; [p] is the prefix of the local participant. *)
Record remotes_ok (p : GuidPrefix) (ps : list RemoteParticipant) (es : list RemoteEndpoint)
    : Prop := {
  ro_participants : length ps = 16%nat;
  ro_participant_keys : NoDup (keys ps);
  ro_participants_ok : Forall remote_participant_ok ps;
  ro_not_local : contents ps !! p = None;
  ro_endpoints : length es = 32%nat;
  ro_endpoint_keys : NoDup (keys es);
  ro_endpoints_ok : Forall remote_ok es;
  ro_known : forall e, e ∈ es -> re_occupied e = true ->
    is_Some (contents ps !! Sedp.participant_guid_prefix (re_data e));
}.

Record writers_ok (p : GuidPrefix) (l : list ReliableWriterLink) : Prop := {
  wo_length : length l = 32%nat;
  wo_keys : NoDup (keys l);
  wo_links : Forall (writer_link_ok p) l;
}.

Record readers_ok (l : list ReliableReaderLink) : Prop := {
  do_length : length l = 32%nat;
  do_keys : NoDup (keys l);
  do_links : Forall reader_link_ok l;
}.

Section Runtime.
Context `{GeneratedTypes}.

Record net_ok (p : GuidPrefix) (n : NetworkRuntime) : Prop := {
  no_spdp : 0 <= spdp_size_ n <= zlen (spdp_ n);
  no_remotes : remotes_ok p (participants_ n) (endpoints_ n);
  no_writers : writers_ok p (reliable_writers_ n);
  no_readers : readers_ok (reliable_readers_ n);
  no_sent : zlen (last_sent_sequence_ n) = 8 /\ zlen (publisher_generations_ n) = 8;
  no_buffers : buffers_ok (buffers_ n);
}.

Record context_ok (p : GuidPrefix) (c : Context_) : Prop := {
  ko_prefix : participant_prefix c = p;
  ko_prefix_length : length p = 12%nat;
  ko_graph : GraphFacts.cache_ok (graph c);
  ko_publishers : zlen (publishers c) = 8 /\ Forall (publisher_slot_ok p) (publishers c);
  ko_subscriptions : zlen (subscriptions c) = 8 /\
    Forall subscription_slot_ok (subscriptions c);
}.

Record world_ok (p : GuidPrefix) (w : World) : Prop := {
  wd_net : net_ok p (net w);
  wd_context : context_ok p (context w);
  wd_trace : Forall (output_ok p) (trace w);
}.

(** What an update of one part has to show. *)
Lemma emit_ok p o w : output_ok p o -> world_ok p w -> world_ok p (emit o w).
Proof.
  intros Ho [Hn Hc Ht]. split; [done..|]. cbn [emit trace]. apply Forall_app.
  split; [done|]. by constructor.
Qed.

Lemma set_participants_ok p l w :
  world_ok p w -> remotes_ok p l (endpoints_ (net w)) -> world_ok p (set_participants l w).
Proof. intros [[] Hc Ht] Hr. by split. Qed.

Lemma set_endpoints_ok p l w :
  world_ok p w -> remotes_ok p (participants_ (net w)) l -> world_ok p (set_endpoints l w).
Proof. intros [[] Hc Ht] Hr. by split. Qed.

Lemma set_writers_ok p l w : world_ok p w -> writers_ok p l -> world_ok p (set_writers l w).
Proof. intros [[] Hc Ht] Hr. by split. Qed.

Lemma set_readers_ok p l w : world_ok p w -> readers_ok l -> world_ok p (set_readers l w).
Proof. intros [[] Hc Ht] Hr. by split. Qed.

Lemma set_sent_ok p l l' w :
  world_ok p w -> zlen l = 8 -> zlen l' = 8 -> world_ok p (set_sent l l' w).
Proof. intros [[] Hc Ht] Hr Hr'. by split. Qed.

Lemma set_drops_ok p n w : world_ok p w -> world_ok p (set_drops n w).
Proof. intros [[] Hc Ht]. by split. Qed.

Lemma set_buffers_ok p b w : world_ok p w -> buffers_ok b -> world_ok p (set_buffers b w).
Proof. intros [[] Hc Ht] Hr. by split. Qed.

Lemma set_graph_ok p g w : world_ok p w -> GraphFacts.cache_ok g -> world_ok p (set_graph g w).
Proof. intros [Hn [] Ht] Hr. by split. Qed.

Lemma set_publishers_ok p l w :
  world_ok p w -> zlen l = 8 -> Forall (publisher_slot_ok p) l ->
  world_ok p (set_publishers l w).
Proof. intros [Hn [] Ht] Hr Hr'. by split. Qed.

Lemma set_subscriptions_ok p l w :
  world_ok p w -> zlen l = 8 -> Forall subscription_slot_ok l ->
  world_ok p (set_subscriptions l w).
Proof. intros [Hn [] Ht] Hr Hr'. by split. Qed.

(** ** Sending *)

Lemma send_ok {E} p socket destination data size w :
  world_ok p w -> 0 <= size <= zlen data ->
  output_ok p (Sent socket destination (take (Z.to_nat size) data)) ->
  returns (fun w' => world_ok p w' /\ net w' = net w /\ context w' = context w)
    (send socket destination data size w : outcome E World).
Proof.
  intros Hw Hs Ho. unfold send.
  assert (mslice data 0 size = Some (take (Z.to_nat size) data)) as ->.
  { unfold mslice. destruct (Z.leb_spec 0 size), (Z.leb_spec (0 + size) (zlen data)); (lia || done). }
  apply returns_done. split; [by apply emit_ok|done].
Qed.

Lemma graph_config_ok p w :
  world_ok p w ->
  Data.config_ok (graph_config (context w) (Graph.local_generation_ (graph (context w)))).
Proof.
  intros [_ [Hp Hl Hg _ _] _]. destruct (GraphFacts.co_local_generation _ Hg).
  unfold i64_max in *. split; cbn [graph_config Data.cfg_vendor_id Data.cfg_guid_prefix
    Data.cfg_reader_id Data.cfg_writer_id Data.cfg_sequence_number]; rewrite ?Hp; (done || lia).
Qed.

(** Without the limit on local records [serialize_local] reports it before writing. *)
Lemma serialize_graph g m :
  GraphFacts.cache_ok g -> zlen m = Graph.graph_wire_capacity ->
  match Graph.serialize_local g (Some m) (zlen m) with
  | Fault => False
  | Stop (_, m') => zlen m' = zlen m
  | Done (m', n) => zlen m' = zlen m /\ 0 <= n <= zlen m
  end.
Proof.
  intros Hg Hm. rewrite Hm. unfold Graph.graph_wire_capacity in *.
  assert (GraphFacts.announceable g \/
    Graph.serialize_local g (Some m) 32768 = Stop (Graph.capacity_exceeded, m)) as [Ha| ->].
  { unfold GraphFacts.announceable, Graph.serialize_local.
    assert (zlen (Graph.nodes_ g) = 136) as Hn
      by (pose proof (GraphFacts.co_nodes _ Hg); lia).
    assert (zlen (Graph.endpoints_ g) = 48) as He
      by (pose proof (GraphFacts.co_endpoints _ Hg); lia).
    rewrite !GraphFacts.count16_spec by lia.
    fold (GraphFacts.local_nodes g) (GraphFacts.local_endpoints g).
    unfold Graph.graph_local_node_capacity, Graph.graph_local_endpoint_capacity.
    destruct (Z.ltb_spec 8 (zlen (GraphFacts.local_nodes g))); [by right|].
    destruct (Z.ltb_spec 16 (zlen (GraphFacts.local_endpoints g))); [by right|].
    left. lia. }
  - pose proof (GraphFacts.serialize_local_cases g m 32768 Hg Ha ltac:(lia) ltac:(lia)) as Hc.
    cbv zeta in Hc. destruct (Z.leb_spec (zlen (GraphFacts.snapshot_bytes g)) 32768).
    + rewrite Hc. split; [|lia]. rewrite length_app, length_drop. lia.
    + destruct Hc as (m' & -> & Hl). lia.
  - lia.
Qed.

Lemma build_graph_ok {E} p w :
  world_ok p w ->
  returns (fun '(w', n) => world_ok p w' /\
    forall k, n = Some k -> 0 <= k <= zlen (graph_message_ (buffers_ (net w'))))
    (build_graph w : outcome E _).
Proof.
  intros Hw. pose proof Hw as [[_ _ _ _ _ [B1 B2 B3 B4 B5]] [Hp Hl Hg _ _] _].
  unfold build_graph. pose proof (serialize_graph _ _ Hg B1) as Hs.
  destruct (Graph.serialize_local _ _ _) as [|[e m]|[m n]]; [done|..].
  { apply returns_done. split; [|done]. apply set_buffers_ok; [done|]. by split; cbn; try lia. }
  destruct Hs as [Hm Hn].
  assert (mslice m 0 n = Some (take (Z.to_nat n) m)) as ->.
  { unfold mslice. destruct (Z.leb_spec 0 n), (Z.leb_spec (0 + n) (zlen m)); (lia || done). }
  cbn [access mbind outcome_bind].
  set (c := graph_config _ _).
  set (out := graph_message_ (buffers_ (net w))) in *.
  unfold Graph.graph_wire_capacity in *.
  pose proof (Data.build_cases (Data.DataMessageBuilder_new (Some out) (zlen out)) out c
    (take (Z.to_nat n) m)) as Hb.
  assert (zlen (take (Z.to_nat n) m) = n) as Hn' by (rewrite length_take; lia).
  rewrite Hn' in Hb. specialize (Hb ltac:(by split; [|cbn; lia]) (graph_config_ok p w Hw)
    ltac:(lia)). cbv zeta in Hb.
  destruct (Data.buildable _ _ _); [|destruct Hb as (e & _ & Hb)]; rewrite Hb;
    cbn [Data.buffer_ Data.size_ access mbind outcome_bind]; apply returns_done.
  - pose proof (Data.data_message_length c (take (Z.to_nat n) m) (graph_config_ok p w Hw) eq_refl)
      as Hl'. rewrite Hn' in Hl'. set (l := Data.data_message_bytes _ _) in *.
    assert (zlen (l ++ drop (length l) out) = zlen out) as Hlen
      by (rewrite length_app, length_drop; lia).
    split; [|intros k [= <-]; change (0 <= zlen l <= zlen (l ++ drop (length l) out)); lia].
    apply set_buffers_ok; [done|]. split; cbn [graph_payload_ graph_message_ transmit_buffer_
      control_buffer_ directed_control_buffer_]; unfold Graph.graph_wire_capacity; (done || lia).
  - split; [|done]. apply set_buffers_ok; [done|]. split; cbn [graph_payload_ graph_message_
      transmit_buffer_ control_buffer_ directed_control_buffer_];
      unfold Graph.graph_wire_capacity; (done || lia).
Qed.

Lemma announce_publisher_ok {E} p remote slot w :
  world_ok p w -> publisher_slot_ok p slot ->
  returns (world_ok p) (announce_publisher remote slot w : outcome E World).
Proof.
  intros Hw Hs. unfold announce_publisher.
  destruct (ps_occupied slot); cbn [negb]; [|by apply returns_done].
  rewrite (publisher_viewed p slot Hs). cbn [mbind outcome_bind].
  destruct (ps_data slot) as [d|] eqn:Hd; cbn [fmap option_fmap option_map];
    [|by apply returns_done].
  eapply returns_impl; [apply (send_ok p); [done|apply (Hs d Hd)|done]|]. by intros w' [? _].
Qed.

Lemma announce_subscription_ok {E} p remote slot w :
  world_ok p w -> subscription_slot_ok slot ->
  returns (world_ok p) (announce_subscription remote slot w : outcome E World).
Proof.
  intros Hw Hs. unfold announce_subscription.
  destruct (ss_occupied slot); cbn [negb]; [|by apply returns_done].
  rewrite (subscription_viewed slot Hs). cbn [mbind outcome_bind].
  destruct (ss_data slot) as [d|] eqn:Hd; cbn [fmap option_fmap option_map];
    [|by apply returns_done].
  eapply returns_impl; [apply (send_ok p); [done|apply (Hs d Hd)|done]|]. by intros w' [? _].
Qed.

Lemma announce_to_ok {E} p n x w :
  world_ok p w -> remote_participant_ok x ->
  (forall k, n = Some k -> 0 <= k <= Graph.graph_wire_capacity + 44) ->
  returns (world_ok p) (announce_to n x w : outcome E World).
Proof.
  intros Hw Hx Hn. unfold announce_to.
  destruct (rp_occupied x) eqn:Ho; cbn [negb]; [|by apply returns_done].
  destruct (Hx Ho) as [Hmu _ _ _ _ _ _]. rewrite (first_endpoint_sound _ _ Hmu).
  cbn [mbind outcome_bind].
  destruct (endpoint_of <$> _) as [remote|]; [|by apply returns_done].
  apply (returns_bind (world_ok p)).
  { destruct n as [k|]; [|by apply returns_done].
    eapply returns_impl; [apply (send_ok p); [done| |done]|by intros w' [? _]].
    rewrite (bo_message _ (no_buffers _ _ (wd_net _ _ Hw))). by apply Hn. }
  intros w1 Hw1. apply (returns_bind (world_ok p)).
  - apply returns_for_each; [|done]. intros slot w' Hin Hw'. apply announce_publisher_ok; [done|].
    destruct (ko_publishers _ _ (wd_context _ _ Hw1)) as [_ Hall].
    rewrite Forall_forall in Hall. by apply Hall.
  - intros w2 Hw2. apply returns_for_each; [|done]. intros slot w' Hin Hw'.
    apply announce_subscription_ok; [done|].
    destruct (ko_subscriptions _ _ (wd_context _ _ Hw2)) as [_ Hall].
    rewrite Forall_forall in Hall. by apply Hall.
Qed.

Lemma announce_ok {E} p w :
  world_ok p w -> returns (world_ok p) (announce w : outcome E World).
Proof.
  intros Hw. unfold announce.
  apply (returns_bind (fun w' => world_ok p w' /\ net w' = net w /\ context w' = context w)).
  { apply send_ok; [done|apply (wd_net _ _ Hw)|done]. }
  intros w1 (Hw1 & _ & _).
  eapply returns_bind; [exact (build_graph_ok p w1 Hw1)|]. intros [w2 n] [Hw2 Hn].
  pose proof (wd_net _ _ Hw2) as Hnet. rewrite (bo_message _ (no_buffers _ _ Hnet)) in Hn.
  apply returns_for_each; [|done]. intros x w' Hin Hw'. apply announce_to_ok; [done| |done].
  pose proof (ro_participants_ok _ _ _ (no_remotes _ _ Hnet)) as Hall.
  rewrite Forall_forall in Hall. by apply Hall.
Qed.

(** ** Matches *)

Lemma rematch_publisher_ok p l s :
  publisher_slot_ok p s -> publisher_slot_ok p (rematch_publisher l s).2.
Proof.
  intros Hs. unfold rematch_publisher. destruct (ps_occupied s); [|done].
  destruct (ps_data s) as [d|] eqn:Hd; [|done].
  unfold Publisher.publisher_network_set_match_count.
  destruct (Endpoint.set_match_count _ _) as [n st]. cbn [snd]. intros d' [= <-].
  destruct (Hs d Hd) as [[q Hq] H2 H3 H4]. split; [|done..]. exists q. by destruct Hq.
Qed.

Lemma rematch_subscription_ok l s :
  subscription_slot_ok s -> subscription_slot_ok (rematch_subscription l s).2.
Proof.
  intros Hs. unfold rematch_subscription. destruct (ss_occupied s); [|done].
  destruct (ss_data s) as [d|] eqn:Hd; [|done].
  unfold Subscription.subscription_network_set_match_count.
  destruct (Endpoint.set_match_count _ _) as [n st]. cbn [snd]. intros d' [= <-].
  destruct (Hs d Hd) as [(q & seen & Hq) H2 H3 H4]. split; [|done..]. exists q, seen.
  by destruct Hq.
Qed.

Lemma recompute_ok {E} p w :
  world_ok p w ->
  recompute_matches w = (Done (rematched w) : outcome E World) /\ world_ok p (rematched w).
Proof.
  intros Hw. pose proof Hw as [[Hs Hr Hwr Hrd Hse Hb] [Hp Hl Hg [P8 Pall] [S8 Sall]] Ht].
  pose proof Hr as [_ _ _ _ Hel _ Heo _]. split.
  { apply (recompute_spec p); try done. lia. }
  unfold rematched. split; cbn [net context trace].
  - done.
  - split; cbn; try done; (split; [rewrite length_fmap; lia|]).
    + apply Forall_fmap. eapply Forall_impl; [exact Pall|]. intros s. apply rematch_publisher_ok.
    + apply Forall_fmap. eapply Forall_impl; [exact Sall|]. intros s. apply rematch_subscription_ok.
  - apply Forall_app. split; [done|]. apply Forall_fmap, Forall_forall. by intros [].
Qed.

(** ** Discovery *)

Lemma participant_stored p ps es i x :
  remotes_ok p ps es -> target_entry (Spdp.guid_prefix (rp_data x)) ps = Some i ->
  rp_occupied x = true -> remote_participant_ok x -> Spdp.guid_prefix (rp_data x) <> p ->
  remotes_ok p (<[i := x]> ps) es.
Proof.
  intros [R1 R2 R3 R4 R5 R6 R7 R8] Ht Ho Hx Hp.
  destruct (target_entry_store ps _ i x R2 Ht Ho eq_refl) as [Hc Hk].
  split; try done; rewrite ?length_insert; try done.
  - by apply Forall_insert.
  - rewrite Hc, lookup_insert_ne by done. done.
  - intros e He Hoe. rewrite Hc. rewrite lookup_insert. case_decide; [done|]. by apply R8.
Qed.

Lemma endpoint_stored p ps es i x :
  remotes_ok p ps es ->
  target_entry (Sedp.participant_guid_prefix (re_data x), Sedp.endpoint_id (re_data x)) es
    = Some i ->
  re_occupied x = true -> remote_ok x ->
  is_Some (contents ps !! Sedp.participant_guid_prefix (re_data x)) ->
  remotes_ok p ps (<[i := x]> es).
Proof.
  intros [R1 R2 R3 R4 R5 R6 R7 R8] Ht Ho Hx Hp.
  destruct (target_entry_store es _ i x R6 Ht Ho eq_refl) as [Hc Hk].
  split; try done; rewrite ?length_insert; try done.
  - by apply Forall_insert.
  - intros e He Hoe. apply elem_of_store in He as [->|He]; [done|]. by apply R8.
Qed.

Lemma endpoints_reset p ps es due :
  remotes_ok p ps es -> remotes_ok p ps (Graph.reset_where due es).
Proof.
  intros [R1 R2 R3 R4 R5 R6 R7 R8]. split; try done.
  - rewrite <- R5. apply length_fmap.
  - by apply (kept_keys due).
  - apply Forall_forall. intros e He Ho. apply reset_where_elem in He as [He _]; [|done].
    rewrite Forall_forall in R7. by apply R7.
  - intros e He Ho. apply reset_where_elem in He as [He _]; [|done]. by apply R8.
Qed.

(** Forgetting a participant and its endpoints. *)
Lemma participant_dropped p ps es i x :
  remotes_ok p ps es -> ps !! i = Some x -> rp_occupied x = true ->
  remotes_ok p (<[i := RemoteParticipant_default]> ps)
    (forget_endpoints (Spdp.guid_prefix (rp_data x)) es).
Proof.
  intros Hr Hi Ho. pose proof (endpoints_reset p ps es
    (fun e => bool_decide (Sedp.participant_guid_prefix (re_data e) =
                           Spdp.guid_prefix (rp_data x))) Hr) as Hr'.
  destruct Hr as [R1 R2 R3 R4 _ _ _ R8]. destruct Hr' as [_ _ _ _ R5 R6 R7 _].
  split; try done; rewrite ?length_insert; try done.
  - by apply keys_store_free.
  - by apply Forall_insert.
  - apply eq_None_not_Some. intros (e & He & Hoe & Hke)%contents_some.
    apply elem_of_store in He as [->|He]; [done|].
    apply eq_None_not_Some in R4. apply R4, contents_some. by exists e.
  - intros e He Hoe. apply reset_where_elem in He as [He Hne]; [|done].
    apply bool_decide_eq_false in Hne.
    destruct (proj1 (contents_some _ _) (R8 e He Hoe)) as (y & Hy & Hoy & Hky).
    apply contents_some. exists y. split; [|done].
    apply list_elem_of_lookup in Hy as [j Hj]. apply list_elem_of_lookup. exists j.
    rewrite list_lookup_insert_ne; [done|]. intros ->.
    rewrite Hi in Hj. injection Hj as ->. by rewrite <- Hky in Hne.
Qed.

Lemma set_remotes_ok p ps es g w :
  world_ok p w -> remotes_ok p ps es -> GraphFacts.cache_ok g ->
  world_ok p (set_endpoints es (set_graph g (set_participants ps w))).
Proof. intros [[] [] Ht] Hr Hg. by split. Qed.

(** ** Arbitrary datagrams *)

(** A datagram of bytes. *)
Definition datagram_ok (d : list Z) : Prop := bytes_ok d /\ zlen d < 2 ^ 63.

Lemma datagram_message d : datagram_ok d -> Router.message_ok (Some d) (zlen d).
Proof. intros [Hb H63]. split; [lia|]. intros m [= <-]. split; [lia|done]. Qed.

(** The content a message is parsed from lies within it. *)
Definition within (n : Z) (s : Router.route_state) : Prop :=
  forall c, Router.content (Router.rs_candidate s) = Some c -> zlen c <= n.

Lemma slice_within {A} (m : list A) i n s : mslice m i n = Some s -> zlen s <= zlen m.
Proof.
  intros Hs. pose proof (mslice_length m i n s Hs) as Hl.
  assert (is_Some (mslice m i n)) as Hi by (by exists s).
  apply mslice_is_Some in Hi. lia.
Qed.

Lemma route_loop_within message n wid wocc fuel : forall s s',
  Router.route_loop fuel message n wid wocc s = Done s' ->
  within (zlen message) s -> within (zlen message) s'.
Proof.
  induction fuel as [|fuel IH]; intros s s'; simpl; (case_match; [|by intros [= <-]]); [done|].
  intros ([t ext] & Hstep & Hrest)%bind_Done_inv Hv.
  assert (within (zlen message) t) as Ht.
  { unfold Router.route_step in Hstep. cbv zeta in Hstep. inv_done.
    destruct (if _ =? 0 then _ else _) as [cs e]. inv_done.
    intros c. simpl. destruct (_ && _); [|apply Hv]. simpl. intros [= <-].
    by eapply slice_within. }
  destruct ext; [by simplify_eq|]. by eapply IH.
Qed.

Lemma payload_within d n v payload :
  Data.parse_body (Some d) n = Done v -> Data.serialized_payload v = Some payload ->
  zlen payload <= zlen d.
Proof.
  unfold Data.parse_body. rewrite Data.find_submessage_checked.
  intros (routed & Hr%map_stop_Done & Hc)%bind_Done_inv Hp.
  assert (forall c, Router.content routed = Some c -> zlen c <= zlen d) as Hl.
  { unfold Router.find_submessage_body in Hr. inv_done.
    match goal with H : Router.route_loop _ _ _ _ _ _ = Done _ |- _ =>
      apply route_loop_within in H end; [by simplify_eq|]. by intros c. }
  unfold Data.parse_content in Hc. cbv zeta in Hc. inv_done.
  cbn [Data.serialized_payload] in Hp. injection Hp as ->.
  match goal with H : mslice ?c _ _ = Some payload |- _ =>
    apply slice_within in H; specialize (Hl c ltac:(done)) end. lia.
Qed.

Lemma spdp_body_post d domain :
  datagram_ok d ->
  match Spdp.parse_body (Some d) (zlen d) domain with
  | Fault => False
  | Stop _ => True
  | Done v => Spdp.view_sound v domain
  end.
Proof.
  intros Hd. unfold Spdp.parse_body, Data.parse_data_message.
  pose proof (Data.parse_body_post (Some d) (zlen d) (datagram_message d Hd)) as Hp.
  rewrite checked_commit by (intros Heq; by rewrite Heq in Hp).
  destruct (Data.parse_body _ _) as [|e|v]; [done..|]. cbn [map_stop mbind outcome_bind].
  destruct Hp as [payload Hp].
  pose proof (Spdp.parse_announcement_post v payload domain Hp) as Ha.
  by destruct (Spdp.parse_announcement v domain).
Qed.

Lemma sedp_body_post d prefix :
  datagram_ok d ->
  match Sedp.parse_body (Some d) (zlen d) prefix with
  | Fault => False
  | Stop _ => True
  | Done v => Sedp.view_sound v prefix
  end.
Proof.
  intros Hd. unfold Sedp.parse_body, Data.parse_data_message.
  pose proof (Data.parse_body_post (Some d) (zlen d) (datagram_message d Hd)) as Hp.
  rewrite checked_commit by (intros Heq; by rewrite Heq in Hp).
  destruct (Data.parse_body _ _) as [|e|v]; [done..|]. cbn [map_stop mbind outcome_bind].
  destruct Hp as [payload Hp].
  pose proof (Sedp.sedp_announcement_post v payload prefix Hp) as Ha.
  by destruct (Sedp.parse_announcement v prefix).
Qed.

Lemma packet_prefix_ok {E} d :
  returns (fun prefix => length prefix = 12%nat)
    (packet_prefix (Some d) (zlen d) : outcome E GuidPrefix).
Proof.
  unfold packet_prefix. destruct (Z.leb_spec 20 (zlen d)); [|by apply returns_done].
  destruct (proj2 (mslice_is_Some d 8 12)) as [x Hx]; [lia|]. rewrite Hx.
  apply returns_done. apply mslice_length in Hx. lia.
Qed.

Lemma accept_participant_ok p x now_ns w :
  world_ok p w -> Spdp.participant_sound x -> Spdp.guid_prefix x <> p ->
  world_ok p (accept_participant x now_ns w).
Proof.
  intros Hw Hx Hp. unfold accept_participant.
  destruct (target_entry (Spdp.guid_prefix x) (participants_ (net w))) as [i|] eqn:Ht; [|done].
  apply set_participants_ok; [done|]. apply participant_stored; try done.
  - exact (no_remotes _ _ (wd_net _ _ Hw)).
  - by intros _.
Qed.

Lemma accept_graph_ok {E} p prefix view payload w :
  world_ok p w -> Data.data_view_ok view payload -> zlen payload < 2 ^ 63 ->
  returns (world_ok p) (accept_graph prefix view w : outcome E World).
Proof.
  intros Hw Hv H63. unfold accept_graph.
  rewrite (Data.dv_payload _ _ Hv), (Data.dv_size _ _ Hv).
  pose proof (GraphSync.apply_yields _ prefix payload (Data.sequence_number view)
    (ko_graph _ _ (wd_context _ _ Hw)) (Data.dv_bytes _ _ Hv) H63) as Ha.
  destruct (Graph.apply_remote _ _ _ _ _) as [|e|g]; [done|by apply returns_done|].
  apply returns_done. apply emit_ok; [done|]. apply set_graph_ok; [done|]. apply Ha.
Qed.

Lemma accept_endpoint_ok {E} p v prefix now_ns w :
  world_ok p w -> Sedp.view_sound v prefix -> length prefix = 12%nat ->
  is_Some (contents (participants_ (net w)) !! prefix) ->
  returns (world_ok p) (accept_endpoint (Sedp.view_endpoint v) now_ns w : outcome E World).
Proof.
  intros Hw [Hs Hp _ _ _] Hl Hk. unfold accept_endpoint.
  destruct (target_entry _ _) as [i|] eqn:Ht; [|by apply returns_done].
  set (x := {| re_data := Sedp.view_endpoint v; re_last_seen_ns := now_ns;
               re_occupied := true |}).
  assert (world_ok p (set_endpoints (<[i := x]> (endpoints_ (net w))) w)) as Hw'.
  { apply set_endpoints_ok; [done|]. apply endpoint_stored; try done.
    - exact (no_remotes _ _ (wd_net _ _ Hw)).
    - intros _. unfold x. cbn [re_data]. split; [done|]. by rewrite Hp.
    - unfold x. cbn [re_data]. by rewrite Hp. }
  destruct (recompute_ok (E:=E) p _ Hw') as [-> Hr]. by apply returns_done.
Qed.

Lemma handle_discovery_ok {E} p now_ns d w :
  world_ok p w -> datagram_ok d ->
  returns (world_ok p) (handle_discovery now_ns d w : outcome E World).
Proof.
  intros Hw Hd. unfold handle_discovery.
  pose proof (spdp_body_post d (u32 (actual_domain_id (context w))) Hd) as Hspdp.
  destruct (Spdp.parse_body _ _ _) as [|e|v]; [done| |].
  2:{ apply returns_done. rewrite (ko_prefix _ _ (wd_context _ _ Hw)).
      case_bool_decide; [done|]. by apply accept_participant_ok; [|apply Hspdp|]. }
  eapply returns_bind; [apply packet_prefix_ok|]. intros prefix Hprefix.
  unfold find_participant. pose proof (search_contents prefix (participants_ (net w))) as Hs.
  destruct (first_where (holds prefix) (participants_ (net w))) as [[i x]|];
    [|by apply returns_done].
  assert (returns (world_ok p) (match Sedp.parse_body (Some d) (zlen d) prefix with
    | Fault => Fault
    | Stop _ => Done w
    | Done view => accept_endpoint (Sedp.view_endpoint view) now_ns w
    end : outcome E World)) as Hend.
  { pose proof (sedp_body_post d prefix Hd) as Hsedp.
    destruct (Sedp.parse_body _ _ _) as [|e'|v]; [done|by apply returns_done|].
    apply (accept_endpoint_ok p v prefix); [done..|]. rewrite <- Hs. by eexists. }
  pose proof (Data.parse_body_post (Some d) (zlen d) (datagram_message d Hd)) as Hdata.
  destruct (Data.parse_body _ _) as [|e'|v] eqn:Hparse; [done|done|].
  destruct (_ && _); [|done]. destruct Hdata as [payload Hv].
  apply (accept_graph_ok p _ _ payload); [done..|].
  pose proof (payload_within _ _ _ _ Hparse (Data.dv_payload _ _ Hv)).
  destruct Hd. lia.
Qed.

Lemma receive_loop_ok {E} p handle results n : forall w,
  (forall d w, datagram_ok d -> world_ok p w -> returns (world_ok p) (handle d w : outcome E World)) ->
  (forall d, datagram_received d ∈ results -> datagram_ok d) -> world_ok p w ->
  returns (world_ok p) (receive_loop n handle results w).
Proof.
  revert results. induction n as [|n IH]; intros results w Hh Hr Hw; [by apply returns_done|].
  destruct results as [|[d| |] results]; try by apply returns_done.
  - cbn [receive_loop]. eapply returns_bind; [apply Hh; [apply Hr; left|done]|].
    intros w' Hw'. apply IH; [done| |done]. intros d' Hd'. apply Hr. by right.
  - cbn [receive_loop]. apply IH; [done| |done]. intros d' Hd'. apply Hr. by right.
Qed.

Lemma receive_discovery_ok {E} p now_ns multicast metadata w :
  world_ok p w -> (forall d, datagram_received d ∈ multicast ++ metadata -> datagram_ok d) ->
  returns (world_ok p) (receive_discovery now_ns multicast metadata w : outcome E World).
Proof.
  intros Hw Hd. unfold receive_discovery.
  assert (forall d w, datagram_ok d -> world_ok p w ->
    returns (world_ok p) (handle_discovery now_ns d w : outcome E World)) as Hh
    by (intros; by apply handle_discovery_ok).
  eapply returns_bind; [apply (receive_loop_ok p); [exact Hh| |done]|].
  - intros d Hin. apply Hd, elem_of_app. by left.
  - intros w' Hw'. apply (receive_loop_ok p); [exact Hh| |done].
    intros d Hin. apply Hd, elem_of_app. by right.
Qed.

(** ** Expiry *)

Lemma expire_participant_ok {E} p now_ns i w changed graph_changed :
  world_ok p w -> (i < 16)%nat ->
  returns (fun '(w', _, _) => world_ok p w')
    (expire_participant now_ns i (w, changed, graph_changed) : outcome E _).
Proof.
  intros Hw Hi. unfold expire_participant.
  pose proof (no_remotes _ _ (wd_net _ _ Hw)) as Hr.
  destruct (lookup_lt_is_Some_2 (participants_ (net w)) i) as [x Hx].
  { by rewrite (ro_participants _ _ _ Hr). }
  rewrite Hx. cbn [access mbind outcome_bind].
  destruct (rp_occupied x) eqn:Ho; cbn [andb]; [|by apply returns_done].
  destruct (expired now_ns (rp_last_seen_ns x)); [|by apply returns_done].
  cbn [set_participants context with_net].
  pose proof (GraphSync.graph_step_ok _ _
    (GraphSync.step_forget (graph (context w)) (Spdp.guid_prefix (rp_data x)))
    (ko_graph _ _ (wd_context _ _ Hw))) as Hg.
  destruct (Graph.remove_remote_participant _ _) as [update g]. apply returns_done.
  apply (set_remotes_ok p); [done| |done]. by apply participant_dropped.
Qed.

Lemma expire_remote_state_ok {E} p now_ns w :
  world_ok p w -> returns (world_ok p) (expire_remote_state now_ns w : outcome E World).
Proof.
  intros Hw. unfold expire_remote_state.
  apply (returns_bind (fun '(w', _, _) => world_ok p w')).
  { apply returns_for_each; [|done]. intros i [[w' c] gc] Hi Hw'.
    apply expire_participant_ok; [done|]. apply elem_of_seq in Hi.
    rewrite (ro_participants _ _ _ (no_remotes _ _ (wd_net _ _ Hw))) in Hi. lia. }
  intros [[w1 changed] graph_changed] Hw1.
  apply (returns_bind (world_ok p)).
  - assert (world_ok p (set_endpoints (Graph.reset_where
      (fun e => expired now_ns (re_last_seen_ns e)) (endpoints_ (net w1))) w1)) as Hw2.
    { apply set_endpoints_ok; [done|]. apply endpoints_reset.
      exact (no_remotes _ _ (wd_net _ _ Hw1)). }
    destruct (_ || _); [|by apply returns_done].
    destruct (recompute_ok (E:=E) p _ Hw2) as [-> Hr]. by apply returns_done.
  - intros w2 Hw2. apply returns_done. destruct graph_changed; [|done]. by apply emit_ok.
Qed.

End Runtime.

End NetworkSafety.
