(* ===== verification/NetworkLinks.v ===== *)
(** * The reliable links of the network thread

    Finding, creating and running the links keeps the invariant of [NetworkSafety]; with the
    operations on samples it gives the theorem that every pass of the thread returns and
    keeps it. *)
From stdpp Require Import gmap.
From S2P Require Import Prelude Types Bytes Texts KeepLastHistory Locators MessageRouter DataMessage ParameterFacts SlotTable Spdp Sedp GraphCache GraphFacts ReliabilityMessages ReliabilityState ReliableWriter WriterTrace ReliableReader ReliabilityProtocol DdsDelivery Introspection Qos TypeSupport Endpoint Publisher Subscription PublisherFacts SubscriptionFacts Services NetworkRuntime NetworkFacts NetworkSafety.

Module NetworkLinks.
Import Types Locators ParamFacts Slots Introspection Network NetworkFacts NetworkSafety.

(** ** Finding a link *)

Lemma writer_link_holds slot generation local remote links :
  first_such (writer_link_of slot generation local remote) links =
  first_where (holds (slot, generation, entity_id local,
    Sedp.participant_guid_prefix (re_data remote), Sedp.endpoint_id (re_data remote))) links.
Proof.
  apply list_find_ext. intros l. unfold writer_link_of. rewrite holds_true.
  rewrite !andb_true_iff, !bool_decide_eq_true, !Z.eqb_eq. cbn.
  split; [intros [[[[[-> <-] <-] <-] <-] <-]; done|]. by intros [-> [= -> -> -> -> ->]].
Qed.

Lemma reader_link_holds slot generation local remote links :
  first_such (reader_link_of slot generation local remote) links =
  first_where (holds (slot, generation, entity_id local,
    Sedp.participant_guid_prefix (re_data remote), Sedp.endpoint_id (re_data remote))) links.
Proof.
  apply list_find_ext. intros l. unfold reader_link_of. rewrite holds_true.
  rewrite !andb_true_iff, !bool_decide_eq_true, !Z.eqb_eq. cbn.
  split; [intros [[[[[-> <-] <-] <-] <-] <-]; done|]. by intros [-> [= -> -> -> -> ->]].
Qed.

Lemma writers_store p l i x :
  writers_ok p l -> writer_link_ok p x -> NoDup (keys (<[i := x]> l)) ->
  writers_ok p (<[i := x]> l).
Proof.
  intros [W1 W2 W3] Hx Hd. split; [by rewrite length_insert|done|by apply Forall_insert].
Qed.

Lemma readers_store l i x :
  readers_ok l -> reader_link_ok x -> NoDup (keys (<[i := x]> l)) ->
  readers_ok (<[i := x]> l).
Proof.
  intros [W1 W2 W3] Hx Hd. split; [by rewrite length_insert|done|by apply Forall_insert].
Qed.

(** An update of the state of a link, or its release. *)
Lemma writers_update p l i x y :
  writers_ok p l -> l !! i = Some x -> writer_link_ok p y -> wl_occupied y = wl_occupied x ->
  slot_key y = slot_key x -> writers_ok p (<[i := y]> l).
Proof.
  intros Hl Hi Hy Ho Hk. apply writers_store; [done..|].
  rewrite (keys_store_same l i x y Hi); [apply Hl|done..].
Qed.

Lemma readers_update l i x y :
  readers_ok l -> l !! i = Some x -> reader_link_ok y -> rl_occupied y = rl_occupied x ->
  slot_key y = slot_key x -> readers_ok (<[i := y]> l).
Proof.
  intros Hl Hi Hy Ho Hk. apply readers_store; [done..|].
  rewrite (keys_store_same l i x y Hi); [apply Hl|done..].
Qed.

Lemma writer_released p l i x :
  writers_ok p l -> l !! i = Some x -> writers_ok p (<[i := release_writer x]> l).
Proof.
  intros Hl Hi. apply writers_store; [done| |].
  - pose proof (Forall_lookup_1 _ _ _ _ (wo_links _ _ Hl) Hi) as []. by split.
  - apply keys_store_free; [done|apply Hl].
Qed.

Lemma reader_released l i x :
  readers_ok l -> l !! i = Some x -> readers_ok (<[i := release_reader x]> l).
Proof.
  intros Hl Hi. apply readers_store; [done| |].
  - pose proof (Forall_lookup_1 _ _ _ _ (do_links _ Hl) Hi) as []. by split.
  - apply keys_store_free; [done|apply Hl].
Qed.

(** ** Creating a link *)

Lemma writer_new_ok p config :
  0 <= Writer.max_repair_attempts config <= 255 ->
  0 <= Writer.repair_window_ns config < 2 ^ 64 ->
  let s := Writer.ReliableWriter_new kWriterDepth kMaximumDatagramSize config in
  Writer.writer_wf kWriterDepth kMaximumDatagramSize s /\
  Forall (holds_packet p) (Writer.live s).
Proof.
  intros Ha Hw s. split; [|constructor].
  assert (WriterTrace.machine_inv kWriterDepth kMaximumDatagramSize kActions config
    (WriterTrace.machine_init kWriterDepth kMaximumDatagramSize kActions config)) as Hi
    by (by apply WriterTrace.init_inv).
  exact (WriterTrace.mi_wf _ _ _ _ _ Hi).
Qed.

Lemma reader_new_ok config :
  0 <= Reader.initial_sequence_number config ->
  let s := Reader.ReliableReader_new kReaderWindow config in
  Reader.valid_ s = true -> Reader.reader_wf kReaderWindow s.
Proof.
  intros H0 s Hv.
  assert (Protocol.reader_inv kReaderWindow kActions config
    (Protocol.reader_init kReaderWindow kActions config)) as Hi
    by (by apply Protocol.reader_init_inv).
  exact (Protocol.ri_wf _ _ _ _ Hi).
Qed.

(** A remote endpoint a link may be made for, and the local endpoint's identity. *)
Record peer_ok (local : NetworkEndpointView) (e : RemoteEndpoint) : Prop := {
  pe_sound : Sedp.endpoint_sound (re_data e);
  pe_prefix : length (Sedp.participant_guid_prefix (re_data e)) = 12%nat;
  pe_local : length (entity_id local) = 4%nat;
}.

Lemma writer_target slot generation local remote links :
  target_entry (slot, generation, entity_id local,
    Sedp.participant_guid_prefix (re_data remote), Sedp.endpoint_id (re_data remote)) links =
  match first_such (writer_link_of slot generation local remote) links with
  | Some (i, _) => Some i
  | None => fst <$> first_such (fun link => negb (wl_occupied link)) links
  end.
Proof.
  unfold target_entry. rewrite writer_link_holds. case_match eqn:Hf; [done|].
  by unfold first_such; f_equal.
Qed.

Lemma reader_target slot generation local remote links :
  target_entry (slot, generation, entity_id local,
    Sedp.participant_guid_prefix (re_data remote), Sedp.endpoint_id (re_data remote)) links =
  match first_such (reader_link_of slot generation local remote) links with
  | Some (i, _) => Some i
  | None => fst <$> first_such (fun link => negb (rl_occupied link)) links
  end.
Proof.
  unfold target_entry. rewrite reader_link_holds. case_match eqn:Hf; [done|].
  by unfold first_such; f_equal.
Qed.

(** [writer_link] returns a link of the table for the pair of endpoints, or none. *)
Lemma writer_link_returns {E} p slot generation local remote links :
  writers_ok p links -> peer_ok local remote -> 0 <= slot ->
  returns (fun '(found, links') => writers_ok p links' /\
    forall i, found = Some i -> exists l, links' !! i = Some l /\ wl_occupied l = true /\
      writer_link_ok p l)
    (writer_link slot generation local remote links : outcome E _).
Proof.
  intros Hl [Hs Hp He] H0. unfold writer_link.
  pose proof (writer_target slot generation local remote links) as Ht.
  rewrite (first_endpoint_sound _ _ (Sedp.es_unicast _ Hs)).
  destruct (first_such (writer_link_of _ _ _ _) links) as [[i l]|] eqn:Hf.
  - apply list_find_Some in Hf as (Hi & Hof & _).
    pose proof (Forall_lookup_1 _ _ _ _ (wo_links _ _ Hl) Hi) as Hok.
    cbn [mbind outcome_bind]. apply returns_done.
    match goal with |- context [<[i := ?y]> links] => set (x := y) end.
    assert (writer_link_ok p x) as Hx by (destruct Hok; by split).
    split; [by apply (writers_update p links i l x)|]. intros j [= <-]. exists x.
    rewrite list_lookup_insert_eq by (by apply lookup_lt_Some in Hi). split_and!; [done| |done].
    unfold writer_link_of in Hof. cbn. rewrite !andb_true_iff in Hof. naive_solver.
  - destruct (first_such (fun link => negb _) links) as [[i l]|] eqn:Hfree;
      [|by apply returns_done; split].
    apply list_find_Some in Hfree as (Hi & _ & _).
    cbn [mbind outcome_bind]. destruct (head _) as [y|]; [|by apply returns_done; split].
    cbn [fmap option_fmap option_map]. apply returns_done.
    match goal with |- context [<[i := ?y]> links] => set (x := y) end.
    assert (writer_link_ok p x) as Hx.
    { destruct (writer_new_ok p (writer_link_config local remote)) as [Hw Hn]; [done..|].
      split; cbn; try done. apply (Sedp.es_id _ Hs). }
    split.
    + apply writers_store; [done..|]. eapply target_entry_store; [apply Hl|exact Ht|done..].
    + intros j [= <-]. exists x.
      by rewrite list_lookup_insert_eq by (by apply lookup_lt_Some in Hi).
Qed.

(** [reader_link] likewise. *)
Lemma reader_link_returns {E} slot generation local remote initial links :
  readers_ok links -> peer_ok local remote -> 0 <= slot -> 0 <= initial ->
  returns (fun '(found, links') => readers_ok links' /\
    forall i, found = Some i -> exists l, links' !! i = Some l /\ reader_link_ok l)
    (reader_link slot generation local remote initial links : outcome E _).
Proof.
  intros Hl [Hs Hp He] H0 Hn. unfold reader_link.
  pose proof (reader_target slot generation local remote links) as Ht.
  rewrite (first_endpoint_sound _ _ (Sedp.es_unicast _ Hs)).
  pose proof (reader_new_ok (reader_link_config local remote initial) Hn) as Hnew.
  cbv zeta in Hnew. set (fresh := Reader.ReliableReader_new _ _) in *.
  destruct (first_such (reader_link_of _ _ _ _) links) as [[i l]|] eqn:Hf.
  - apply list_find_Some in Hf as (Hi & Hof & _).
    pose proof (Forall_lookup_1 _ _ _ _ (do_links _ Hl) Hi) as Hok.
    cbn [mbind outcome_bind]. apply returns_done.
    match goal with |- context [<[i := ?y]> links] => set (x := y) end.
    assert (reader_link_ok x) as Hx.
    { unfold reader_link_of in Hof. rewrite !andb_true_iff, !bool_decide_eq_true in Hof.
      destruct Hof as [[[[[_ _] _] Hlr] _] Hrw].
      destruct Hok. split; cbn; try done; by case_match. }
    split; [by apply (readers_update links i l x)|].
    intros j Hj. exists x. destruct (_ || _); [|done]. injection Hj as <-.
    by rewrite list_lookup_insert_eq by (by apply lookup_lt_Some in Hi).
  - destruct (first_such (fun link => negb _) links) as [[i l]|] eqn:Hfree;
      [|by apply returns_done; split].
    apply list_find_Some in Hfree as (Hi & _ & _).
    destruct (initial =? 0); [by apply returns_done; split|].
    cbn [mbind outcome_bind]. destruct (head _) as [y|]; [|by apply returns_done; split].
    cbn [fmap option_fmap option_map]. apply returns_done.
    match goal with |- context [<[i := ?y]> links] => set (x := y) end.
    assert (reader_link_ok x) as Hx by (split; cbn; try done; apply (Sedp.es_id _ Hs)).
    split.
    + apply readers_store; [done..|]. eapply target_entry_store; [apply Hl|exact Ht|done..].
    + intros j [= <-]. exists x.
      by rewrite list_lookup_insert_eq by (by apply lookup_lt_Some in Hi).
Qed.

End NetworkLinks.
