(* ===== verification/NetworkPass.v ===== *)
(** * Samples and control messages of the network thread

    Sending the samples of the publishers, handing received samples to the subscriptions and
    running the reliable links keep the invariant of [NetworkSafety]; so does every pass of
    the thread. *)
From stdpp Require Import gmap.
From S2P Require Import Prelude Types Bytes Texts KeepLastHistory Locators MessageRouter DataMessage ParameterFacts SlotTable Spdp Sedp GraphCache ReliabilityMessages ReliabilityState ReliableWriter WriterTrace ReliableReader ReliabilityProtocol DdsDelivery Introspection Qos TypeSupport Endpoint Publisher Subscription PublisherFacts SubscriptionFacts Services NetworkRuntime NetworkFacts NetworkSafety NetworkLinks.

Module NetworkPass.
Import Types Locators ParamFacts Slots Introspection Network NetworkFacts NetworkSafety NetworkLinks.

Section Runtime.
Context `{GeneratedTypes}.

(** Only the trace differs. *)
Definition only_sent (w w' : World) : Prop := net w' = net w /\ context w' = context w.

Lemma set_transmit_ok p b w :
  world_ok p w -> zlen b = kMaximumDatagramSize -> world_ok p (set_transmit b w).
Proof.
  intros Hw Hb. apply set_buffers_ok; [done|].
  destruct (no_buffers _ _ (wd_net _ _ Hw)). by split.
Qed.

Lemma set_control_ok p b w :
  world_ok p w -> zlen b = kControlDatagramSize -> world_ok p (set_control b w).
Proof.
  intros Hw Hb. apply set_buffers_ok; [done|].
  destruct (no_buffers _ _ (wd_net _ _ Hw)). by split.
Qed.

Lemma set_directed_ok p b w :
  world_ok p w -> zlen b = kControlDatagramSize + 16 -> world_ok p (set_directed b w).
Proof.
  intros Hw Hb. apply set_buffers_ok; [done|].
  destruct (no_buffers _ _ (wd_net _ _ Hw)). by split.
Qed.

(** ** Samples of a publisher *)

(** The next packet of a publisher is a DATA message of this participant. *)
Lemma next_packet p d q after i md payload :
  PublisherFacts.publishes d q -> Publisher.participant_prefix (Publisher.setup d) = p ->
  PublisherFacts.next_after after q = Some (i, (md, payload)) ->
  let message := Data.data_message_bytes
    (Publisher.data_config (Publisher.setup d) (Publisher.sequence_number md)) payload in
  zlen message <= kMaximumDatagramSize ->
  1 <= Publisher.sequence_number md <= i64_max /\ data_of p message.
Proof.
  intros Hq Hp Hn message Hm. unfold PublisherFacts.next_after in Hn.
  apply list_find_Some in Hn as (Hi & _ & _).
  pose proof (lookup_lt_Some _ _ _ Hi) as Hlt.
  assert (mload q (Z.of_nat i) = Some (md, payload)) as Hl.
  { apply mload_Some. rewrite Nat2Z.id. split; [lia|done]. }
  destruct (PublisherFacts.pu_numbers _ _ Hq _ _ _ Hl) as (Hnum & H1 & Hsup).
  pose proof (PublisherFacts.pu_sequence _ _ Hq) as Hseq.
  assert (1 <= Publisher.sequence_number md <= i64_max) as Hr by lia.
  split; [done|].
  assert (Data.config_ok (Publisher.data_config (Publisher.setup d)
    (Publisher.sequence_number md))) as Hcfg.
  { apply PublisherFacts.publisher_config_ok; [apply Hq|]. unfold i64_max in Hr. lia. }
  pose proof (Data.data_message_length _ payload Hcfg eq_refl) as Hml.
  fold message in Hml. unfold kMaximumDatagramSize in Hm.
  eexists _, payload. split_and!; [exact Hcfg| |exact Hp|done].
  rewrite PublisherFacts.data_config_buildable by lia. rewrite Hsup. cbn. apply Z.leb_le. lia.
Qed.

Lemma copy_next_ok {E} p d after w :
  world_ok p w -> publisher_ok p d ->
  returns (fun '(sample, w') => world_ok p w' /\ (exists b, w' = set_transmit b w) /\
    forall n k, sample = Some (n, k) -> 1 <= n <= i64_max /\
      0 <= k <= zlen (transmit_buffer_ (buffers_ (net w'))) /\
      data_of p (take (Z.to_nat k) (transmit_buffer_ (buffers_ (net w')))))
    (copy_next d after w : outcome E _).
Proof.
  intros Hw [[q Hq] _ _ Hp]. unfold copy_next.
  pose proof (bo_transmit _ (no_buffers _ _ (wd_net _ _ Hw))) as Hb.
  set (buffer := transmit_buffer_ (buffers_ (net w))) in *.
  rewrite (PublisherFacts.copy_next_spec d q) by (done || (rewrite ?Hb; unfold kMaximumDatagramSize; lia)).
  assert (world_ok p (set_transmit buffer w)) as Hsame by (by apply set_transmit_ok).
  assert (returns (fun '(sample, w') => world_ok p w' /\ (exists b, w' = set_transmit b w) /\
    forall n k, sample = Some (n, k) -> 1 <= n <= i64_max /\
      0 <= k <= zlen (transmit_buffer_ (buffers_ (net w'))) /\
      data_of p (take (Z.to_nat k) (transmit_buffer_ (buffers_ (net w')))))
    (Done (None, set_transmit buffer w) : outcome E (option (Z * Z) * World))) as Hnone.
  { apply returns_done. split_and!; [done|by eexists|done]. }
  destruct (PublisherFacts.next_after after q) as [[i [md payload]]|] eqn:Hn; [|exact Hnone].
  cbv zeta. rewrite Hb.
  destruct (Z.leb_spec (zlen (Data.data_message_bytes (Publisher.data_config
    (Publisher.setup d) (Publisher.sequence_number md)) payload)) kMaximumDatagramSize)
    as [Hm|Hm]; [|exact Hnone].
  destruct (next_packet p d q after i md payload Hq Hp Hn Hm) as [Hr Hd].
  set (message := Data.data_message_bytes _ payload) in *.
  cbn [access mbind outcome_bind]. apply returns_done.
  assert (zlen (message ++ drop (length message) buffer) = kMaximumDatagramSize) as Hl.
  { rewrite length_app, length_drop. lia. }
  split_and!; [by apply set_transmit_ok|by eexists|].
  intros n k Hk. apply (inj Some), pair_eq in Hk as [<- <-]. cbn [set_transmit set_buffers net with_net buffers_ transmit_buffer_].
  split_and!; [apply Hr..|lia|lia|]. rewrite Nat2Z.id, take_app_length. done.
Qed.

Lemma is_peer_returns {E} local reliable remote :
  view_ok local -> remote_ok remote ->
  returns (fun b => b = true -> re_occupied remote = true)
    (is_peer local reliable remote : outcome E bool).
Proof.
  intros Hl Hr. unfold is_peer.
  destruct (re_occupied remote) eqn:Ho; cbn [negb orb]; [|by apply returns_done].
  destruct (_ || _); [by apply returns_done|]. rewrite is_matched_spec by done.
  by apply returns_done.
Qed.

Lemma send_best_effort_ok {E} p local size remote w :
  world_ok p w -> view_ok local -> remote_ok remote ->
  0 <= size <= zlen (transmit_buffer_ (buffers_ (net w))) ->
  data_of p (take (Z.to_nat size) (transmit_buffer_ (buffers_ (net w)))) ->
  returns (fun w' => world_ok p w' /\ only_sent w w')
    (send_best_effort local size remote w : outcome E World).
Proof.
  intros Hw Hl Hr Hs Hd. unfold send_best_effort.
  eapply returns_bind; [by apply is_peer_returns|]. intros [] Hp; [|by apply returns_done].
  cbn [negb]. destruct (Hr (Hp eq_refl)) as [Hsound _].
  rewrite (first_endpoint_sound _ _ (Sedp.es_unicast _ Hsound)).
  cbn [mbind outcome_bind]. destruct (_ <$> _); [|by apply returns_done].
  eapply returns_impl; [apply (send_ok p); [done..|]|done]. by left.
Qed.

Lemma send_samples_ok {E} p slot d local n : forall w,
  world_ok p w -> publisher_ok p d -> view_ok local -> 0 <= slot < 8 ->
  returns (world_ok p) (send_samples n slot d local w : outcome E World).
Proof.
  induction n as [|n IH]; intros w Hw Hd Hl Hslot; [by apply returns_done|].
  cbn [send_samples].
  destruct (no_sent _ _ (wd_net _ _ Hw)) as [Hs Hg].
  destruct (proj2 (mload_is_Some (last_sent_sequence_ (net w)) slot)) as [last ->]; [lia|].
  cbn [access mbind outcome_bind].
  eapply returns_bind; [by apply (copy_next_ok p)|]. intros [sample w1] (Hw1 & [b Hb] & Hsample).
  destruct sample as [[sequence size]|]; [|by apply returns_done].
  destruct (Hsample _ _ eq_refl) as (_ & Hsize & Hdata).
  eapply returns_bind.
  { apply (returns_for_each (fun w' => world_ok p w' /\ only_sent w1 w')); [|done].
    intros e w' He [Hw' [Hn Hc]].
    pose proof (ro_endpoints_ok _ _ _ (no_remotes _ _ (wd_net _ _ Hw1))) as Hr.
    rewrite Forall_forall in Hr.
    eapply returns_impl; [apply (send_best_effort_ok p); [done|done|by apply Hr|by rewrite Hn..]|].
    intros w2 [Hw2 [Hn2 Hc2]]. split; [done|]. split; congruence. }
  intros w2 [Hw2 _]. destruct (no_sent _ _ (wd_net _ _ Hw2)) as [Hs2 Hg2].
  destruct (proj2 (mstore_is_Some (last_sent_sequence_ (net w2)) slot sequence)) as [sent Hst];
    [lia|].
  rewrite Hst. cbn [access mbind outcome_bind]. apply mstore_length in Hst.
  apply IH; try done. apply set_sent_ok; [done|lia|done].
Qed.

(** ** Control messages *)

Lemma control_header_ok p w :
  world_ok p w ->
  RelMsg.header_supported (control_header (context w)) = true /\
  RelMsg.guid_prefix (control_header (context w)) = p /\ length p = 12%nat.
Proof. intros [_ [Hp Hl _ _ _] _]. by split_and!. Qed.

Lemma control_builder_ok p w :
  world_ok p w ->
  RelMsg.builder_ok (control_builder w) (control_buffer_ (buffers_ (net w))).
Proof.
  intros Hw. pose proof (bo_control _ (no_buffers _ _ (wd_net _ _ Hw))) as Hb.
  unfold control_builder. split; [done|]. cbn. rewrite Hb. unfold kControlDatagramSize. lia.
Qed.

(** A control message that fits is sent with its destination. *)
Lemma send_control_ok {E} p l prefix destination w :
  world_ok p w -> length prefix = 12%nat -> 20 <= zlen l <= kControlDatagramSize ->
  heartbeat_of p (directed prefix l) \/ acknack_of_participant p (directed prefix l) ->
  returns (fun w' => world_ok p w' /\ context w' = context w /\
      reliable_writers_ (net w') = reliable_writers_ (net w) /\
      reliable_readers_ (net w') = reliable_readers_ (net w) /\
      trace w' = trace w ++ [Sent user_socket_ destination (directed prefix l)])
    (send_control (Done (RelMsg.built (control_builder w)
        (control_buffer_ (buffers_ (net w))) l)) prefix destination w : outcome E World).
Proof.
  intros Hw Hp Hl Ho. unfold send_control, RelMsg.built.
  destruct (no_buffers _ _ (wd_net _ _ Hw)) as [_ _ _ Hb Hd].
  unfold kControlDatagramSize in *.
  cbn [RelMsg.buffer_ RelMsg.size_ access mbind outcome_bind].
  set (buffer := l ++ drop (length l) _).
  assert (zlen buffer = 512) as Hlen by (unfold buffer; rewrite length_app, length_drop; lia).
  assert (world_ok p (set_control buffer w)) as Hw1 by (by apply set_control_ok).
  cbn [set_control set_buffers net with_net buffers_ directed_control_buffer_].
  rewrite (direct_message_spec buffer l) by
    (lia || done || (unfold buffer; by rewrite Nat2Z.id, take_app_length)).
  cbn [mbind outcome_bind].
  set (out := directed prefix l ++ drop (length (directed prefix l)) _).
  pose proof (directed_length prefix l Hp ltac:(lia)) as Hdl.
  assert (zlen out = 528) as Hout by (unfold out; rewrite length_app, length_drop; lia).
  assert (world_ok p (set_directed out (set_control buffer w))) as Hw2
    by (by apply set_directed_ok).
  assert (take (Z.to_nat (zlen (directed prefix l))) out = directed prefix l) as Ht
    by (unfold out; by rewrite Nat2Z.id, take_app_length).
  unfold send. assert (mslice out 0 (zlen (directed prefix l)) = Some (directed prefix l)) as ->.
  { unfold mslice. destruct (Z.leb_spec 0 (zlen (directed prefix l))),
      (Z.leb_spec (0 + zlen (directed prefix l)) (zlen out)); try lia. cbn [andb]. by rewrite drop_0, Ht. }
  apply returns_done. split; [|done]. apply emit_ok; [|done]. cbn. tauto.
Qed.

(** ** Writer links *)

Lemma writer_at p w i :
  world_ok p w -> (i < 32)%nat ->
  exists l, reliable_writers_ (net w) !! i = Some l /\ writer_link_ok p l.
Proof.
  intros Hw Hi. pose proof (no_writers _ _ (wd_net _ _ Hw)) as [Hl _ Hf].
  destruct (lookup_lt_is_Some_2 (reliable_writers_ (net w)) i) as [l Hx]; [lia|].
  exists l. split; [done|]. exact (Forall_lookup_1 _ _ _ _ Hf Hx).
Qed.

Lemma reader_at p w i :
  world_ok p w -> (i < 32)%nat ->
  exists l, reliable_readers_ (net w) !! i = Some l /\ reader_link_ok l.
Proof.
  intros Hw Hi. pose proof (no_readers _ _ (wd_net _ _ Hw)) as [Hl _ Hf].
  destruct (lookup_lt_is_Some_2 (reliable_readers_ (net w)) i) as [l Hx]; [lia|].
  exists l. split; [done|]. exact (Forall_lookup_1 _ _ _ _ Hf Hx).
Qed.

(** What a new state of a link has to satisfy. *)
Record next_state (p : GuidPrefix) (l : ReliableWriterLink) (s : Writer.ReliableWriter)
    : Prop := {
  nx_wf : Writer.writer_wf kWriterDepth kMaximumDatagramSize s;
  nx_samples : Forall (holds_packet p) (Writer.live s);
  nx_config : Writer.config_ s = Writer.config_ (wl_state l);
}.

Lemma same_state p l : writer_link_ok p l -> next_state p l (wl_state l).
Proof. intros []. by split. Qed.

Lemma put_writer p w i l s queued heartbeat :
  world_ok p w -> reliable_writers_ (net w) !! i = Some l -> next_state p l s ->
  world_ok p (set_writers (<[i := set_writer_state l s queued heartbeat]>
    (reliable_writers_ (net w))) w).
Proof.
  intros Hw Hi [Hs Hp Hc]. pose proof (no_writers _ _ (wd_net _ _ Hw)) as Hl.
  apply set_writers_ok; [done|]. apply (writers_update p _ i l); try done.
  destruct (Forall_lookup_1 _ _ _ _ (wo_links _ _ Hl) Hi). split; try done; cbn; by rewrite Hc.
Qed.

Lemma drop_writer p w i l :
  world_ok p w -> reliable_writers_ (net w) !! i = Some l ->
  world_ok p (set_writers (<[i := release_writer l]> (reliable_writers_ (net w))) w).
Proof.
  intros Hw Hi. apply set_writers_ok; [done|]. apply writer_released; [|done].
  exact (no_writers _ _ (wd_net _ _ Hw)).
Qed.

Lemma drop_reader p w i l :
  world_ok p w -> reliable_readers_ (net w) !! i = Some l ->
  world_ok p (set_readers (<[i := release_reader l]> (reliable_readers_ (net w))) w).
Proof.
  intros Hw Hi. apply set_readers_ok; [done|]. apply reader_released; [|done].
  exact (no_readers _ _ (wd_net _ _ Hw)).
Qed.

(** Acknowledgements and timeouts keep the remaining samples. *)
Lemma swept_state p l s a a' es :
  writer_link_ok p l ->
  Writer.swept kWriterDepth kMaximumDatagramSize kActions (wl_state l) s a a' es ->
  next_state p l s.
Proof.
  intros Hl Hs. split; [apply Hs| |apply Hs].
  rewrite (Writer.sp_live _ _ _ _ _ _ _ _ Hs), Forall_forall. intros r Hr.
  destruct (Delivery.retained_samples _ _ _ _ (Writer.sp_effects _ _ _ _ _ _ _ _ Hs) Hr)
    as (r0 & Hin & Heq).
  pose proof (wk_samples _ _ Hl) as Hf. rewrite Forall_forall in Hf.
  unfold holds_packet. rewrite Heq. by apply Hf.
Qed.

(** An action that names a sample of the state sends it. *)
Lemma action_data_live {E} s k r action :
  Writer.writer_wf kWriterDepth kMaximumDatagramSize s -> 0 <= k ->
  Writer.live s !! Z.to_nat k = Some r -> Rel.data action = Some k ->
  Rel.data_size action = History.sample_size_ (Writer.sample r) ->
  action_data s action = (Done (History.payload_ (Writer.sample r)) : outcome E _) /\
  0 <= Rel.data_size action <= zlen (History.payload_ (Writer.sample r)) /\
  take (Z.to_nat (Rel.data_size action)) (History.payload_ (Writer.sample r)) =
    (History.sample_view (Writer.sample r)).1.
Proof.
  intros Hs Hk Hr Hd Hz. apply lookup_take_Some in Hr as [Hr _].
  assert (mload (Writer.records_ s) k = Some r) as Hload by (by apply mload_Some).
  destruct (Forall_lookup_1 _ _ _ _ (Writer.ww_samples _ _ _ Hs) Hr) as [Hlen Hsize].
  unfold action_data. rewrite Hd. cbn [access mbind outcome_bind]. rewrite Hload, Hz.
  split_and!; [done|lia|lia|done].
Qed.

Lemma fill_heartbeat_fields s hb s' hb' :
  Writer.fill_heartbeat s hb = Done (s', hb') ->
  Writer.config_ s' = Writer.config_ s /\
  RelMsg.hb_header hb' = RelMsg.hb_header hb /\
  RelMsg.hb_reader_id hb' = Writer.w_reader_id (Writer.config_ s) /\
  RelMsg.hb_writer_id hb' = Writer.w_writer_id (Writer.config_ s) /\
  RelMsg.hb_count hb' = Rel.next_control_count (Writer.heartbeat_count_ s).
Proof. unfold Writer.fill_heartbeat. intros Hf. inv_done. done. Qed.

Lemma send_heartbeat_ok {E} p i w :
  world_ok p w -> (i < 32)%nat -> returns (world_ok p) (send_heartbeat i w : outcome E World).
Proof.
  intros Hw Hi. destruct (writer_at p w i Hw Hi) as (l & Hl & Hok). unfold send_heartbeat.
  rewrite Hl. cbn [access mbind outcome_bind].
  destruct (Writer.valid_ (wl_state l)) eqn:Hv; cycle 1.
  { unfold Writer.fill_heartbeat. rewrite Hv. by apply returns_done. }
  destruct (WriterTrace.heartbeat_covers_history kWriterDepth kMaximumDatagramSize ltac:(done)
    (wl_state l) (heartbeat_template (context w)) (wk_state _ _ Hok) Hv)
    as (s & hb & Hf & Hwf & Hlive & Hrange & _).
  rewrite Hf. apply fill_heartbeat_fields in Hf as (Hc & Hh & Hr & Hwr & Hn).
  assert (world_ok p (set_writers (<[i := set_writer_state l s (wl_last_queued_sequence l)
    (wl_next_heartbeat_ns l)]> (reliable_writers_ (net w))) w)) as Hw1.
  { apply put_writer; [done..|]. split; [done| |done]. rewrite Hlive. apply Hok. }
  set (w1 := set_writers _ w) in *.
  destruct (control_header_ok p w1 Hw1) as (Hs & Hp & Hpl).
  assert (RelMsg.hb_header hb = control_header (context w1)) as Hh1 by done.
  assert (RelMsg.heartbeat_config_ok hb) as Hcfg.
  { unfold RelMsg.range_ok, i64_max in Hrange. rewrite !andb_true_iff, !Z.leb_le in Hrange.
    split; rewrite ?Hh1, ?Hr, ?Hwr, ?Hn, ?(wk_reader _ _ Hok), ?(wk_writer _ _ Hok);
      (apply Hok || apply Delivery.next_control_count_range || lia || congruence || done). }
  pose proof (RelMsg.build_heartbeat_cases _ _ hb (control_builder_ok p w1 Hw1) Hcfg) as Hb.
  rewrite Hrange, Hh1, Hs in Hb.
  assert (RelMsg.capacity_ (control_builder w1) = 512) as Hcap
    by exact (bo_control _ (no_buffers _ _ (wd_net _ _ Hw1))).
  rewrite Hcap in Hb. cbn [andb Z.leb Z.compare Pos.compare Pos.compare_cont] in Hb. rewrite Hb.
  eapply returns_impl; [apply (send_control_ok p)|by intros w' [? _]]; [done|apply Hok| |].
  - rewrite RelMsg.heartbeat_bytes_length by done. unfold kControlDatagramSize. lia.
  - left. exists hb, (wl_remote_prefix l).
    split_and!; [done|done|by rewrite Hh1|by rewrite Hh1|apply Hok|done].
Qed.

Lemma fresh_actions : Rel.buffer_wf kActions (Rel.ActionBuffer_init kActions).
Proof. by apply Rel.init_buffer_wf. Qed.

Lemma service_writer_ok {E} p now_ns i w :
  world_ok p w -> 0 <= now_ns < 2 ^ 64 -> (i < 32)%nat ->
  returns (world_ok p) (service_writer now_ns i w : outcome E World).
Proof.
  intros Hw Hnow Hi. destruct (writer_at p w i Hw Hi) as (l & Hl & Hok).
  unfold service_writer. rewrite Hl. cbn [access mbind outcome_bind].
  destruct (wl_occupied l); cbn [negb]; [|by apply returns_done].
  pose proof (Writer.on_timer_cases kWriterDepth kMaximumDatagramSize kActions ltac:(done)
    (wl_state l) now_ns _ (wk_state _ _ Hok) fresh_actions Hnow) as Ht.
  destruct (Writer.timer_ready _ _ _ _).
  - destruct Ht as (s & a & -> & Hs).
    assert (world_ok p (set_writers (<[i := set_writer_state l s (wl_last_queued_sequence l)
      (wl_next_heartbeat_ns l)]> (reliable_writers_ (net w))) w)) as Hw1.
    { apply put_writer; [done..|]. by eapply swept_state. }
    destruct (_ && _); [|by apply returns_done].
    eapply returns_bind; [by apply (send_heartbeat_ok p)|]. intros w2 Hw2.
    destruct (writer_at p w2 i Hw2 Hi) as (l2 & Hl2 & Hok2). rewrite Hl2.
    cbn [access mbind outcome_bind]. apply returns_done. apply put_writer; [done..|].
    by apply same_state.
  - destruct Ht as (e & -> & _). apply returns_done. by apply drop_writer.
Qed.

Lemma writer_indices p w i :
  world_ok p w -> i ∈ seq 0 (length (reliable_writers_ (net w))) -> (i < 32)%nat.
Proof.
  intros Hw Hi. apply elem_of_seq in Hi.
  rewrite (wo_length _ _ (no_writers _ _ (wd_net _ _ Hw))) in Hi. lia.
Qed.

Lemma reader_indices p w i :
  world_ok p w -> i ∈ seq 0 (length (reliable_readers_ (net w))) -> (i < 32)%nat.
Proof.
  intros Hw Hi. apply elem_of_seq in Hi.
  rewrite (do_length _ (no_readers _ _ (wd_net _ _ Hw))) in Hi. lia.
Qed.

Lemma service_reliable_writers_ok {E} p now_ns w :
  world_ok p w -> 0 <= now_ns < 2 ^ 64 ->
  returns (world_ok p) (service_reliable_writers now_ns w : outcome E World).
Proof.
  intros Hw Hnow. apply returns_for_each; [|done]. intros i w' Hi Hw'.
  apply service_writer_ok; [done..|]. by apply (writer_indices p w).
Qed.

(** ** Acknowledgements *)

Lemma emitted_retransmit config rs es x : forall d,
  Forall2 (Writer.effect_ok config) rs es -> x ∈ Writer.emitted es d ->
  Rel.kind x = Rel.retransmit_data -> is_Some (Rel.data x).
Proof.
  intros d Hes. revert d. induction Hes as [|r e rs es He Hes IH]; intros d Hx Hk.
  { by apply not_elem_of_nil in Hx. }
  destruct He as [|Hlt|a [Ha _] Hseq];
    rewrite ?Writer.emitted_some, ?Writer.emitted_none in Hx; [by eapply IH|..];
    (apply elem_of_cons in Hx as [->|Hx]; [|by eapply IH]).
  - by eexists.
  - destruct Ha; congruence.
Qed.

(** Every repair of a link is one of its samples. *)
Lemma retransmit_ok {E} p i now_ns s s' a a' es action w :
  Writer.swept kWriterDepth kMaximumDatagramSize kActions s s' a a' es ->
  action ∈ Writer.emitted es 0 ->
  (world_ok p w /\ exists l, reliable_writers_ (net w) !! i = Some l /\ wl_state l = s') ->
  returns (fun w' => world_ok p w' /\
      exists l, reliable_writers_ (net w') !! i = Some l /\ wl_state l = s')
    (retransmit i now_ns action w : outcome E World).
Proof.
  intros Hs Hin (Hw & l & Hl & Hst). unfold retransmit.
  pose proof (Writer.sp_live _ _ _ _ _ _ _ _ Hs) as Hlive.
  case_bool_decide as Hk; [|apply returns_done; eauto].
  rewrite Hl. cbn [access mbind outcome_bind].
  pose proof (Forall_lookup_1 _ _ _ _ (wo_links _ _ (no_writers _ _ (wd_net _ _ Hw))) Hl) as Hok.
  destruct (emitted_retransmit _ _ _ _ _ (Writer.sp_effects _ _ _ _ _ _ _ _ Hs) Hin Hk)
    as [k Hdata].
  destruct (WriterTrace.sweep_points _ _ _ _ _ _ (Writer.sp_effects _ _ _ _ _ _ _ _ Hs) Hin Hdata)
    as (H0k & r & Hr & _ & Hsize).
  rewrite Z.sub_0_r, <- Hlive, <- Hst in Hr.
  destruct (action_data_live (E:=E) (wl_state l) k r action (wk_state _ _ Hok) H0k Hr Hdata
    (eq_sym Hsize)) as (-> & Hb & Hv).
  cbn [mbind outcome_bind].
  eapply returns_bind; [apply (send_ok p); [done..|]|].
  { rewrite Hv. left. by apply (Forall_lookup_1 _ _ _ _ (wk_samples _ _ Hok) Hr). }
  intros w1 (Hw1 & Hn & _). apply returns_done. rewrite <- Hn in Hl |- *. split.
  - apply put_writer; [done..|]. by apply same_state.
  - eexists. cbn [set_writers net with_net reliable_writers_].
    rewrite list_lookup_insert_eq by (by eapply lookup_lt_Some). done.
Qed.

Lemma acknack_loop_ok {E} p acknack now_ns indices : forall w,
  world_ok p w -> RelMsg.sns_wf (RelMsg.an_reader_state acknack) ->
  (forall i, i ∈ indices -> (i < 32)%nat) ->
  returns (world_ok p) (acknack_loop indices acknack now_ns w : outcome E World).
Proof.
  induction indices as [|i rest IH]; intros w Hw Ha Hi; [by apply returns_done|].
  assert (i < 32)%nat as Hi0 by (apply Hi; left).
  assert (forall j, j ∈ rest -> (j < 32)%nat) as Hrest by (intros j Hj; apply Hi; by right).
  destruct (writer_at p w i Hw Hi0) as (l & Hl & Hok). cbn [acknack_loop]. rewrite Hl.
  cbn [access mbind outcome_bind].
  destruct (_ <=? wl_local_slot l) eqn:Hslot; [rewrite orb_true_r; by apply IH|].
  destruct (_ || _); [by apply IH|]. apply Z.leb_gt in Hslot.
  destruct (proj2 (mload_is_Some (publishers (context w)) (wl_local_slot l))) as [slot ->].
  { pose proof (wk_slot _ _ Hok). lia. }
  cbn [access mbind outcome_bind].
  destruct (_ || _); [apply IH; [by apply drop_writer|done..]|].
  pose proof (Writer.on_acknack_post kWriterDepth kMaximumDatagramSize kActions ltac:(done)
    ltac:(done) (wl_state l) acknack now_ns _ (wk_state _ _ Hok) fresh_actions Ha) as Hp.
  destruct (Writer.on_acknack _ _ _ _ _ _) as [|e|[s a]]; [done|by apply returns_done|].
  destruct Hp as (ds & _ & Hs).
  apply (returns_impl (fun w' => world_ok p w' /\
    exists l', reliable_writers_ (net w') !! i = Some l' /\ wl_state l' = s));
    [|by intros w' [Hw' _]].
  assert (Rel.contents a = Writer.emitted (zip_with Writer.decision_effect ds
    (Writer.live (wl_state l))) 0) as -> by exact (Writer.sp_actions _ _ _ _ _ _ _ _ Hs).
  apply returns_for_each.
  - intros x w' Hx Hw'. by eapply retransmit_ok.
  - split; [apply put_writer; [done..|]; by eapply swept_state|].
    eexists. cbn [set_writers net with_net reliable_writers_].
    rewrite list_lookup_insert_eq by (by eapply lookup_lt_Some). done.
Qed.

Lemma handle_acknack_ok {E} p now_ns d w :
  world_ok p w -> datagram_ok d ->
  returns (world_ok p) (handle_acknack now_ns d w : outcome E World).
Proof.
  intros Hw Hd. unfold handle_acknack.
  pose proof (RelMsg.parse_acknack_body_post (Some d) (zlen d) (datagram_message d Hd)) as Hp.
  destruct (RelMsg.parse_acknack_body _ _) as [|e|a]; [done|by apply returns_done|].
  destruct (find_remote_reader _ _ _) as [remote|]; [|by apply returns_done].
  destruct (negb _); [by apply returns_done|]. apply acknack_loop_ok; [done..|].
  intros i. by apply (writer_indices p).
Qed.

(** ** Heartbeats *)

Lemma put_reader p w i l s :
  world_ok p w -> reliable_readers_ (net w) !! i = Some l ->
  Reader.reader_wf kReaderWindow s -> Reader.config_ s = Reader.config_ (rl_state l) ->
  world_ok p (set_readers (<[i := set_reader_state l s]> (reliable_readers_ (net w))) w) /\
  reader_link_ok (set_reader_state l s).
Proof.
  intros Hw Hi Hs Hc. pose proof (no_readers _ _ (wd_net _ _ Hw)) as Hl.
  assert (reader_link_ok (set_reader_state l s)) as Hok.
  { destruct (Forall_lookup_1 _ _ _ _ (do_links _ Hl) Hi).
    split; try done; cbn; by rewrite Hc. }
  split; [|done]. apply set_readers_ok; [done|]. by apply (readers_update _ i l).
Qed.

Lemma acknack_of_ok p l n x w :
  world_ok p w -> reader_link_ok l -> Reader.reader_wf kReaderWindow (rl_state l) ->
  Reader.requests kReaderWindow (rl_state l) n x ->
  RelMsg.acknack_config_ok (acknack_of (context w) x) /\
  RelMsg.header_supported (RelMsg.an_header (acknack_of (context w) x)) = true.
Proof.
  intros Hw Hl Hr Hx. destruct (control_header_ok p w Hw) as (Hs & Hp & Hpl).
  split; [|done]. split; cbn [acknack_of RelMsg.an_header RelMsg.an_reader_id
    RelMsg.an_writer_id RelMsg.an_reader_state RelMsg.an_count].
  - done.
  - by rewrite Hp.
  - rewrite (Reader.rq_reader _ _ _ _ Hx), (rk_reader _ Hl). apply Hl.
  - rewrite (Reader.rq_writer _ _ _ _ Hx), (rk_writer _ Hl). apply Hl.
  - apply Hx.
  - rewrite (Reader.rq_base _ _ _ _ Hx). apply (Reader.rg_base _ _ (Reader.rw_ring _ _ Hr)).
  - rewrite (Reader.rq_count _ _ _ _ Hx). apply Delivery.next_control_count_range.
Qed.

Lemma acknack_size c :
  RelMsg.acknack_config_ok c ->
  48 <= 48 + 4 * RelMsg.word_count (RelMsg.an_reader_state c) <= 80.
Proof.
  intros Hc. destruct (RelMsg.sw_bits _ (RelMsg.ac_state _ Hc)) as [H1 H2].
  unfold RelMsg.maximum_bits in H2. unfold RelMsg.word_count, add32, u32.
  rewrite Z.mod_small by lia.
  pose proof (Z.div_pos (RelMsg.num_bits_ (RelMsg.an_reader_state c) + 31) 32).
  pose proof (Z.div_lt_upper_bound (RelMsg.num_bits_ (RelMsg.an_reader_state c) + 31) 32 9). lia.
Qed.

Lemma send_acknack_ok {E} p l l' n x w :
  world_ok p w -> reader_link_ok l -> Reader.reader_wf kReaderWindow (rl_state l) ->
  Reader.requests kReaderWindow (rl_state l) n x -> length (rl_remote_prefix l') = 12%nat ->
  returns (fun w' => world_ok p w' /\ context w' = context w /\
      reliable_readers_ (net w') = reliable_readers_ (net w) /\
      trace w' = trace w ++ [Sent user_socket_ (rl_destination l')
        (directed (rl_remote_prefix l') (RelMsg.acknack_bytes (acknack_of (context w) x)))])
    (send_acknack l' x w : outcome E World).
Proof.
  intros Hw Hl Hr Hx Hp. destruct (acknack_of_ok p l n x w Hw Hl Hr Hx) as [Hc Hh].
  unfold send_acknack. pose proof (acknack_size _ Hc) as Hsize.
  pose proof (RelMsg.build_acknack_cases _ _ _ (control_builder_ok p w Hw) Hc) as Hb.
  assert (RelMsg.capacity_ (control_builder w) = 512) as Hcap
    by exact (bo_control _ (no_buffers _ _ (wd_net _ _ Hw))).
  rewrite Hh, Hcap in Hb. cbn [andb] in Hb.
  destruct (Z.leb_spec (48 + 4 * RelMsg.word_count (RelMsg.an_reader_state
    (acknack_of (context w) x))) 512); [|lia]. rewrite Hb.
  eapply returns_impl; [apply (send_control_ok p)|]; [done|done| | |].
  - rewrite RelMsg.acknack_bytes_length by done. unfold kControlDatagramSize. lia.
  - right. eexists _, (rl_remote_prefix l').
    split_and!; [exact Hc|exact Hh|by apply control_header_ok|done|done].
  - by intros w' (? & ? & _ & ? & ?).
Qed.

Lemma answer_heartbeat_ok {E} p i l hb w :
  world_ok p w -> reliable_readers_ (net w) !! i = Some l -> reader_link_ok l ->
  RelMsg.range_ok (RelMsg.hb_first hb) (RelMsg.hb_last hb) = true ->
  returns (world_ok p) (answer_heartbeat i hb w : outcome E World).
Proof.
  intros Hw Hl Hok Hrange. unfold answer_heartbeat. rewrite Hl. cbn [access mbind outcome_bind].
  destruct (Reader.valid_ (rl_state l)) eqn:Hv; cycle 1.
  { unfold Reader.on_heartbeat. rewrite Hv. by apply returns_done. }
  pose proof (rk_state _ Hok Hv) as Hr.
  unfold RelMsg.range_ok, i64_max in Hrange. rewrite !andb_true_iff, !Z.leb_le in Hrange.
  pose proof (Reader.on_heartbeat_post kReaderWindow kActions ltac:(done) (rl_state l) hb _ Hr
    fresh_actions ltac:(lia) ltac:(lia)) as Hp.
  destruct (Reader.on_heartbeat _ _ _ _ _) as [|e|[s a]]; [done|by apply returns_done|].
  destruct Hp as (Hs & Ha & Hc & _ & _ & Hx).
  destruct (put_reader p w i l s Hw Hl Hs Hc) as [Hw1 Hok1].
  destruct (_ || _); [|rewrite Hx; by apply returns_done].
  destruct Hx as (x & Hax & Hx & _).
  assert (Rel.contents a = [x]) as -> by exact Hax. cbn [for_each].
  rewrite bool_decide_eq_true_2 by exact (Reader.rq_kind _ _ _ _ Hx).
  eapply returns_bind; [|intros w' Hw'; by apply returns_done].
  eapply returns_impl; [by eapply (send_acknack_ok p l); [..|apply Hok]|by intros w' [? _]].
Qed.

(** The slots of the registries. *)
Lemma subscription_at p w k :
  world_ok p w -> k ∈ seqZ 0 kSubscriptionCapacity ->
  exists slot, mload (subscriptions (context w)) k = Some slot /\ subscription_slot_ok slot.
Proof.
  intros Hw Hk. apply elem_of_seqZ in Hk. unfold kSubscriptionCapacity in Hk.
  destruct (ko_subscriptions _ _ (wd_context _ _ Hw)) as [H8 Hall].
  destruct (proj2 (mload_is_Some (subscriptions (context w)) k)) as [slot Hs]; [lia|].
  exists slot. split; [done|]. by apply (mload_Forall _ _ _ _ Hall Hs).
Qed.

Lemma heartbeat_to_ok {E} p hb remote k w :
  world_ok p w -> remote_ok remote -> re_occupied remote = true ->
  RelMsg.range_ok (RelMsg.hb_first hb) (RelMsg.hb_last hb) = true ->
  k ∈ seqZ 0 kSubscriptionCapacity ->
  returns (world_ok p) (heartbeat_to hb remote k w : outcome E World).
Proof.
  intros Hw Hr Ho Hrange Hk. unfold heartbeat_to.
  destruct (subscription_at p w k Hw Hk) as (slot & -> & Hslot).
  cbn [access mbind outcome_bind]. destruct (negb _); [by apply returns_done|].
  rewrite (subscription_viewed slot Hslot). cbn [mbind outcome_bind].
  destruct (ss_data slot) as [d|] eqn:Hd; cbn [fmap option_fmap option_map];
    [|by apply returns_done].
  pose proof (Hslot d Hd) as Hdok. destruct (negb _); [by apply returns_done|].
  rewrite is_matched_spec by (done || by apply subscription_view_ok). cbn [mbind outcome_bind].
  destruct (_ || _); [by apply returns_done|].
  apply elem_of_seqZ in Hk. destruct (Hr Ho) as [Hs Hp].
  assert (0 <= RelMsg.hb_first hb).
  { unfold RelMsg.range_ok in Hrange. rewrite !andb_true_iff, !Z.leb_le in Hrange. lia. }
  eapply returns_bind.
  { apply reader_link_returns; [exact (no_readers _ _ (wd_net _ _ Hw))| |lia|done].
    split; [done|done|apply Hdok]. }
  intros [found links] [Hlinks Hf].
  assert (world_ok p (set_readers links w)) as Hw1 by (by apply set_readers_ok).
  destruct found as [i|]; [|by apply returns_done].
  destruct (Hf i eq_refl) as (l & Hl & Hok). by apply (answer_heartbeat_ok p i l).
Qed.

Lemma find_remote_ok p k prefix id w e :
  world_ok p w -> find_remote k prefix id (endpoints_ (net w)) = Some e ->
  remote_ok e /\ re_occupied e = true.
Proof.
  intros Hw Hf. unfold find_remote in Hf.
  destruct (first_where _ _) as [[i x]|] eqn:Hw0; [|done]. injection Hf as <-.
  apply list_find_Some in Hw0 as (Hi & Hx & _).
  pose proof (ro_endpoints_ok _ _ _ (no_remotes _ _ (wd_net _ _ Hw))) as Hall.
  split; [exact (Forall_lookup_1 _ _ _ _ Hall Hi)|].
  rewrite !andb_true_iff in Hx. tauto.
Qed.

Lemma handle_heartbeat_ok {E} p d w :
  world_ok p w -> datagram_ok d ->
  returns (world_ok p) (handle_heartbeat d w : outcome E World).
Proof.
  intros Hw Hd. unfold handle_heartbeat.
  pose proof (RelMsg.parse_heartbeat_body_post (Some d) (zlen d) (datagram_message d Hd)) as Hp.
  destruct (RelMsg.parse_heartbeat_body _ _) as [|e|hb]; [done|by apply returns_done|].
  destruct (find_remote_writer _ _ _) as [remote|] eqn:Hf; [|by apply returns_done].
  apply (find_remote_ok p) in Hf as [Hr Ho]; [|done].
  destruct (negb _); [by apply returns_done|]. apply returns_for_each; [|done].
  intros k w' Hk Hw'. by apply heartbeat_to_ok.
Qed.

(** ** Samples for the subscriptions *)

Definition same_announcement (d d' : Subscription.SubscriptionData) : Prop :=
  Subscription.setup d' = Subscription.setup d /\ Subscription.sedp d' = Subscription.sedp d /\
  Subscription.sedp_size d' = Subscription.sedp_size d.

Lemma stored_announcement {E} d gid entry fresh sequence source received payload d' dropped :
  Subscription.store_sample d gid entry fresh sequence source received payload =
    (Done (d', dropped) : outcome E _) -> same_announcement d d'.
Proof.
  unfold Subscription.store_sample. cbv zeta.
  destruct (Subscription.history_sample_slots d =? 0); [done|]. intros Hs. inv_done. done.
Qed.

Lemma received_announcement d shutdown message n source received r d' :
  Subscription.receive_data_message d shutdown message n source received = Done (r, d') ->
  same_announcement d d'.
Proof.
  unfold Subscription.receive_data_message. cbv zeta. intros Hr. inv_done.
  unfold Subscription.receive_view in Hr. cbv zeta in Hr.
  destruct (_ && _); [by simplify_eq|]. inv_done.
  destruct (Subscription.find_writer _ _ _ _) as [writer free]. inv_done.
  destruct a2; [by simplify_eq|].
  destruct writer, free; try done; inv_done;
    match goal with x : (_ * bool)%type |- _ => destruct x as [d1 dropped] end;
    inv_done; by eapply stored_announcement.
Qed.

(** [subscription_network_receive] on any datagram. *)
Lemma subscription_receive_ok {E} d shutdown packet received :
  subscription_ok d -> datagram_ok packet ->
  returns (fun '(_, d') => subscription_ok d')
    (Subscription.subscription_network_receive d shutdown (Some packet) (zlen packet) received
      : outcome E _).
Proof.
  intros Hd Hp. pose proof Hd as [(q & seen & Hq) Hn Hs Hr].
  unfold Subscription.subscription_network_receive.
  pose proof (SubscriptionFacts.receive_outcome d q seen packet (zlen packet) shutdown received
    received Hq (datagram_message packet Hp)) as Hc. cbv zeta in Hc.
  destruct (SubscriptionFacts.judge _ _ _ _ _ _ _ _).
  - rewrite Hc. by apply returns_done.
  - destruct Hc as (r & -> & _). by apply returns_done.
  - destruct Hc as (r & -> & _). by apply returns_done.
  - destruct Hc as (r & d' & view & payload & Heq & _ & _ & _ & _ & Hq' & _).
    rewrite Heq. apply returns_done. apply received_announcement in Heq as (E1 & E2 & E3).
    split; rewrite ?E1, ?E2, ?E3; try done. by eexists _, _.
Qed.

Lemma admit_reliable_ok {E} p k generation local remote sequence w :
  world_ok p w -> peer_ok local remote -> 0 <= k -> 0 <= sequence < 2 ^ 64 ->
  returns (fun '(_, w') => world_ok p w')
    (admit_reliable k generation local remote sequence w : outcome E _).
Proof.
  intros Hw Hpeer Hk Hseq. unfold admit_reliable.
  eapply returns_bind; [apply reader_link_returns; [|done..|lia]|].
  { exact (no_readers _ _ (wd_net _ _ Hw)). }
  intros [found links] [Hlinks Hf].
  assert (world_ok p (set_readers links w)) as Hw1 by (by apply set_readers_ok).
  destruct found as [i|]; [|by apply returns_done].
  destruct (Hf i eq_refl) as (l & Hl & Hok). rewrite Hl. cbn [access mbind outcome_bind].
  destruct (Reader.valid_ (rl_state l)) eqn:Hv; cycle 1.
  { unfold Reader.on_data. rewrite Hv. by apply returns_done. }
  pose proof (Reader.on_data_cases kReaderWindow kActions ltac:(done) (rl_state l) sequence _
    (rk_state _ Hok Hv) fresh_actions Hseq) as Hc.
  destruct (Reader.refusal _ _ _ _ _); [rewrite Hc; by apply returns_done|].
  destruct Hc as (s & a & -> & Hs). apply returns_done.
  apply (put_reader p (set_readers links w)); [done|exact Hl|apply Hs|apply Hs].
Qed.

Lemma deliver_to_ok {E} p packet received data remote k w :
  world_ok p w -> datagram_ok packet -> remote_ok remote -> re_occupied remote = true ->
  0 <= Data.sequence_number data < 2 ^ 64 -> k ∈ seqZ 0 kSubscriptionCapacity ->
  returns (world_ok p) (deliver_to packet received data remote k w : outcome E World).
Proof.
  intros Hw Hp Hr Ho Hseq Hk. unfold deliver_to.
  destruct (subscription_at p w k Hw Hk) as (slot & -> & Hslot).
  cbn [access mbind outcome_bind]. destruct (negb _); [by apply returns_done|].
  rewrite (subscription_viewed slot Hslot). cbn [mbind outcome_bind].
  destruct (ss_data slot) as [d|] eqn:Hd; cbn [fmap option_fmap option_map];
    [|by apply returns_done].
  pose proof (Hslot d Hd) as Hdok.
  rewrite is_matched_spec by (done || by apply subscription_view_ok). cbn [mbind outcome_bind].
  destruct (negb _); [by apply returns_done|].
  pose proof Hk as Hk8. apply elem_of_seqZ in Hk8. destruct (Hr Ho) as [Hs Hpre].
  apply (returns_bind (fun '(_, w') => world_ok p w')).
  { destruct (_ && _); [|by apply returns_done].
    apply admit_reliable_ok; [done| |lia|done]. split; [done|done|apply Hdok]. }
  intros [admitted w1] Hw1. destruct (negb admitted); [by apply returns_done|].
  eapply returns_bind; [by apply subscription_receive_ok|]. intros [b d'] Hd'.
  destruct (ko_subscriptions _ _ (wd_context _ _ Hw1)) as [H8 Hall].
  unfold kSubscriptionCapacity in Hk8.
  destruct (proj2 (mstore_is_Some (subscriptions (context w1)) k (set_subscription_data slot d')))
    as [slots Hst]; [lia|].
  rewrite Hst. cbn [access mbind outcome_bind]. apply returns_done.
  apply set_subscriptions_ok; [done|apply mstore_length in Hst; lia|].
  unfold mstore in Hst. destruct (_ && _); [|done]. injection Hst as <-.
  apply Forall_insert; [done|]. by intros x [= <-].
Qed.

Lemma handle_data_ok {E} p received d w :
  world_ok p w -> datagram_ok d ->
  returns (world_ok p) (handle_data received d w : outcome E World).
Proof.
  intros Hw Hd. unfold handle_data.
  pose proof (Data.parse_body_post (Some d) (zlen d) (datagram_message d Hd)) as Hp.
  destruct (Data.parse_body _ _) as [|e|v]; [done|by apply returns_done|].
  destruct Hp as [payload Hv].
  destruct (find_remote_writer _ _ _) as [remote|] eqn:Hf; [|by apply returns_done].
  apply (find_remote_ok p) in Hf as [Hr Ho]; [|done].
  apply returns_for_each; [|done]. intros k w' Hk Hw'. apply deliver_to_ok; try done.
  destruct Hv. unfold i64_max in *. lia.
Qed.

Lemma handle_user_datagram_ok {E} p now_ns clock d w :
  world_ok p w -> datagram_ok d ->
  returns (world_ok p) (handle_user_datagram now_ns clock d w : outcome E World).
Proof.
  intros Hw Hd. unfold handle_user_datagram. apply (returns_bind (world_ok p)).
  { destruct (negb _); [by apply handle_data_ok|by apply returns_done]. }
  intros w1 Hw1. apply (returns_bind (world_ok p)); [by apply handle_heartbeat_ok|].
  intros w2 Hw2. by apply handle_acknack_ok.
Qed.

Lemma receive_user_data_ok {E} p now_ns results w :
  world_ok p w ->
  (forall d clock, (datagram_received d, clock) ∈ results -> datagram_ok d) ->
  returns (world_ok p) (receive_user_data now_ns results w : outcome E World).
Proof.
  unfold receive_user_data. revert results w.
  induction kMaximumReceivesPerSocket as [|n IH]; intros results w Hw Hr;
    [by apply returns_done|].
  destruct results as [|[[d| |] clock] results]; try by apply returns_done.
  - cbn [receive_user_loop]. eapply returns_bind.
    + apply (handle_user_datagram_ok p); [done|]. apply (Hr d clock). left.
    + intros w' Hw'. apply IH; [done|]. intros d' c' Hin. apply (Hr d' c'). by right.
  - cbn [receive_user_loop]. apply IH; [done|]. intros d' c' Hin. apply (Hr d' c'). by right.
Qed.

(** ** Reliable transmission *)

(** The sample a link has just taken is sent from its history. *)
Lemma send_written {E} p l s a packet size sequence now_ns r destination w :
  Writer.written kWriterDepth kMaximumDatagramSize kActions (wl_state l) s
    (Rel.ActionBuffer_init kActions) a (Some packet) size sequence now_ns r ->
  data_of p (take (Z.to_nat size) packet) -> world_ok p w ->
  returns (world_ok p)
    (action ← access (head (Rel.contents a));
     bytes ← action_data s action;
     send user_socket_ destination bytes (Rel.data_size action) w : outcome E World).
Proof.
  intros Hr Hd Hw.
  assert (Rel.contents a = [Rel.sample_action Rel.send_data sequence
    (Some (zlen (Writer.live (wl_state l)))) size Rel.repair_none]) as ->
    by exact (Writer.wn_actions _ _ _ _ _ _ _ _ _ _ _ _ Hr).
  cbn [head access mbind outcome_bind]. set (action := Rel.sample_action _ _ _ _ _).
  destruct (action_data_live (E:=E) s (zlen (Writer.live (wl_state l))) r action) as (-> & Hb & Hv);
    [apply Hr|lia| |done|by rewrite (Writer.wn_size _ _ _ _ _ _ _ _ _ _ _ _ Hr)|].
  { rewrite (Writer.wn_live _ _ _ _ _ _ _ _ _ _ _ _ Hr), Nat2Z.id, lookup_app_r by lia.
    by rewrite Nat.sub_diag. }
  cbn [mbind outcome_bind].
  eapply returns_impl; [apply (send_ok p); [done..|]|by intros w' [? _]].
  rewrite Hv, (Writer.wn_sample _ _ _ _ _ _ _ _ _ _ _ _ Hr). by left.
Qed.

Lemma written_state p l s a packet size sequence now_ns r :
  writer_link_ok p l ->
  Writer.written kWriterDepth kMaximumDatagramSize kActions (wl_state l) s
    (Rel.ActionBuffer_init kActions) a (Some packet) size sequence now_ns r ->
  data_of p (take (Z.to_nat size) packet) -> next_state p l s.
Proof.
  intros Hl Hr Hd. split; [apply Hr| |apply Hr].
  rewrite (Writer.wn_live _ _ _ _ _ _ _ _ _ _ _ _ Hr). apply Forall_app.
  split; [apply Hl|]. constructor; [|done]. unfold holds_packet.
  by rewrite (Writer.wn_sample _ _ _ _ _ _ _ _ _ _ _ _ Hr).
Qed.

Lemma send_reliable_ok {E} p k generation now_ns d remote w :
  world_ok p w -> publisher_ok p d -> remote_ok remote -> 0 <= k -> 0 <= now_ns < 2 ^ 64 ->
  returns (world_ok p)
    (send_reliable k generation now_ns d (publisher_view d) remote w : outcome E World).
Proof.
  intros Hw Hd Hr Hk Hnow. unfold send_reliable.
  eapply returns_bind; [by apply is_peer_returns; [eapply publisher_view_ok|]|].
  intros [] Hp; [|by apply returns_done]. cbn [negb]. destruct (Hr (Hp eq_refl)) as [Hs Hpre].
  eapply returns_bind.
  { apply (writer_link_returns p); [exact (no_writers _ _ (wd_net _ _ Hw))| |done].
    split; [done|done|]. destruct (pk_history _ _ Hd) as [q Hq].
    exact (PublisherFacts.se_writer _ (PublisherFacts.pu_setup _ _ Hq)). }
  intros [found links] [Hlinks Hf].
  assert (world_ok p (set_writers links w)) as Hw1 by (by apply set_writers_ok).
  destruct found as [i|]; [|by apply returns_done].
  destruct (Hf i eq_refl) as (l & Hl & _ & Hok). rewrite Hl. cbn [access mbind outcome_bind].
  destruct (negb _); [by apply returns_done|].
  eapply returns_bind; [by apply (copy_next_ok p)|].
  intros [sample w2] (Hw2 & [b Hb] & Hsample).
  destruct sample as [[sequence size]|]; [|by apply returns_done].
  destruct (Hsample _ _ eq_refl) as (Hseq & Hsize & Hdata). unfold i64_max in Hseq.
  assert (reliable_writers_ (net w2) = links) as Hl2 by (by rewrite Hb). clear Hb.
  set (packet := transmit_buffer_ (buffers_ (net w2))) in *.
  pose proof (Writer.write_post kWriterDepth kMaximumDatagramSize kActions ltac:(done) ltac:(done)
    (wl_state l) (Some packet) size sequence now_ns _ (wk_state _ _ Hok) fresh_actions) as Hwr.
  assert (History.readable (Some packet) size) as Hread
    by (split; [lia|]; intros x [= <-]; lia).
  specialize (Hwr Hread ltac:(lia) Hnow).
  destruct (Writer.accepts _ _ _ _ _ _ _ _); cycle 1.
  { destruct Hwr as (e & -> & _). by apply returns_done. }
  destruct Hwr as (s & a & r & -> & Hwr).
  pose proof (written_state p l s a packet size sequence now_ns r Hok Hwr Hdata) as Hns.
  assert (forall q h, world_ok p (set_writers (<[i := set_writer_state l s q h]> links) w2)) as Hput.
  { intros q h. rewrite <- Hl2. apply put_writer; [done| |done]. by rewrite Hl2. }
  destruct (negb _); [by apply returns_done|].
  unfold consume_test_drop. destruct (_ =? 0); [|apply returns_done; by apply set_drops_ok].
  by eapply send_written.
Qed.

Lemma send_pending_of_ok {E} p now_ns k w :
  world_ok p w -> 0 <= now_ns < 2 ^ 64 -> k ∈ seqZ 0 kPublisherCapacity ->
  returns (world_ok p) (send_pending_of now_ns k w : outcome E World).
Proof.
  intros Hw Hnow Hk. apply elem_of_seqZ in Hk. unfold kPublisherCapacity in Hk.
  unfold send_pending_of. destruct (ko_publishers _ _ (wd_context _ _ Hw)) as [H8 Hall].
  destruct (no_sent _ _ (wd_net _ _ Hw)) as [Hs Hg].
  destruct (proj2 (mload_is_Some (publishers (context w)) k)) as [slot Hslot]; [lia|].
  destruct (proj2 (mload_is_Some (publisher_generations_ (net w)) k)) as [generation Hgen]; [lia|].
  rewrite Hslot. cbn [access mbind outcome_bind]. rewrite Hgen. cbn [access mbind outcome_bind].
  pose proof (mload_Forall _ _ _ _ Hall Hslot) as Hok.
  destruct (proj2 (mstore_is_Some (publisher_generations_ (net w)) k (ps_generation slot)))
    as [gens Hgens]; [lia|].
  destruct (proj2 (mstore_is_Some (last_sent_sequence_ (net w)) k 0)) as [sent Hsent]; [lia|].
  rewrite Hgens, Hsent. cbn [access mbind outcome_bind].
  apply mstore_length in Hgens, Hsent.
  assert (world_ok p (set_sent sent gens w)) as Hreset by (apply set_sent_ok; [done|lia|lia]).
  destruct (negb (ps_occupied slot)); [by apply returns_done|].
  apply (returns_bind (world_ok p)); [destruct (negb _); by apply returns_done|].
  intros w1 Hw1. rewrite (publisher_viewed p slot Hok). cbn [mbind outcome_bind].
  destruct (ps_data slot) as [d|] eqn:Hd; cbn [fmap option_fmap option_map];
    [|by apply returns_done].
  pose proof (Hok d Hd) as Hdok.
  eapply returns_bind; [by apply (send_samples_ok p); [..|eapply publisher_view_ok|]|].
  intros w2 Hw2. destruct (negb _); [by apply returns_done|].
  apply returns_for_each; [|done]. intros e w3 He Hw3.
  pose proof (ro_endpoints_ok _ _ _ (no_remotes _ _ (wd_net _ _ Hw2))) as Hrem.
  rewrite Forall_forall in Hrem. apply send_reliable_ok; try done; [by apply Hrem|lia].
Qed.

(** ** Clean-up *)

Lemma prune_writer_ok {E} p i w :
  world_ok p w -> (i < 32)%nat -> returns (world_ok p) (prune_writer i w : outcome E World).
Proof.
  intros Hw Hi. destruct (writer_at p w i Hw Hi) as (l & Hl & Hok). unfold prune_writer.
  rewrite Hl. cbn [access mbind outcome_bind].
  destruct (negb _); [by apply returns_done|].
  apply (returns_bind (fun _ => True)).
  { unfold publisher_alive. destruct (Z.leb_spec (zlen (publishers (context w))) (wl_local_slot l));
      [by apply returns_done|].
    destruct (proj2 (mload_is_Some (publishers (context w)) (wl_local_slot l))) as [slot ->];
      [pose proof (wk_slot _ _ Hok); lia|by apply returns_done]. }
  intros alive _. apply returns_done. destruct (_ || _); [by apply drop_writer|done].
Qed.

Lemma prune_reader_ok {E} p i w :
  world_ok p w -> (i < 32)%nat -> returns (world_ok p) (prune_reader i w : outcome E World).
Proof.
  intros Hw Hi. destruct (reader_at p w i Hw Hi) as (l & Hl & Hok). unfold prune_reader.
  rewrite Hl. cbn [access mbind outcome_bind].
  destruct (negb _); [by apply returns_done|].
  apply (returns_bind (fun _ => True)).
  { unfold subscription_alive.
    destruct (Z.leb_spec (zlen (subscriptions (context w))) (rl_local_slot l));
      [by apply returns_done|].
    destruct (proj2 (mload_is_Some (subscriptions (context w)) (rl_local_slot l))) as [slot ->];
      [pose proof (rk_slot _ Hok); lia|by apply returns_done]. }
  intros alive _. apply returns_done. destruct (_ || _); [by apply drop_reader|done].
Qed.

Lemma prune_reliable_links_ok {E} p w :
  world_ok p w -> returns (world_ok p) (prune_reliable_links w : outcome E World).
Proof.
  intros Hw. unfold prune_reliable_links. apply (returns_bind (world_ok p)).
  - apply returns_for_each; [|done]. intros i w' Hi Hw'. apply prune_writer_ok; [done|].
    by apply (writer_indices p w).
  - intros w1 Hw1. apply returns_for_each; [|done]. intros i w' Hi Hw'.
    apply prune_reader_ok; [done|]. by apply (reader_indices p w1).
Qed.

(** ** One pass *)

(** Whatever bytes arrive. *)
Record input_ok (input : Input) : Prop := {
  in_now : 0 <= now input < 2 ^ 64;
  in_multicast : forall d, datagram_received d ∈ multicast_input input -> datagram_ok d;
  in_metadata : forall d, datagram_received d ∈ metadata_input input -> datagram_ok d;
  in_user : forall d clock, (datagram_received d, clock) ∈ user_input input -> datagram_ok d;
}.

Lemma run_once_ok {E} p input next w :
  world_ok p w -> input_ok input ->
  returns (fun '(w', _) => world_ok p w') (run_once input next w : outcome E _).
Proof.
  intros Hw [Hnow Hm Hd Hu]. unfold run_once.
  apply (returns_bind (fun '(w', _) => world_ok p w')).
  { destruct (_ <=? _); [|by apply returns_done].
    apply (returns_bind (world_ok p)); [by apply announce_ok|].
    intros w1 Hw1. by apply returns_done. }
  intros [w1 next1] Hw1. apply (returns_bind (world_ok p)).
  { apply receive_discovery_ok; [done|]. intros d [Hin|Hin]%elem_of_app; auto. }
  intros w2 Hw2. apply (returns_bind (world_ok p)); [by apply receive_user_data_ok|].
  intros w3 Hw3. apply (returns_bind (world_ok p)).
  { apply returns_for_each; [|done]. intros k w' Hk Hw'. by apply send_pending_of_ok. }
  intros w4 Hw4. apply (returns_bind (world_ok p)); [by apply service_reliable_writers_ok|].
  intros w5 Hw5. apply (returns_bind (world_ok p)); [by apply prune_reliable_links_ok|].
  intros w6 Hw6. apply (returns_bind (world_ok p)); [by apply expire_remote_state_ok|].
  intros w7 Hw7. by apply returns_done.
Qed.

End Runtime.

End NetworkPass.
