(* ===== verification/NetworkStart.v ===== *)
(** * The network thread from its start

    [initialize] establishes the invariant of [NetworkSafety] and an announcement the other
    participants of the domain accept; every pass after it, between any operations of the
    application, is safe.  The last part follows a heartbeat through a reader. *)
From stdpp Require Import gmap.
From S2P Require Import Prelude Types Bytes Texts KeepLastHistory Locators MessageRouter DataMessage ParameterFacts SlotTable Spdp Sedp GraphCache GraphFacts GraphSync ReliabilityMessages ReliabilityState ReliableWriter ReliableReader Introspection Qos TypeSupport Endpoint Publisher Subscription PublisherFacts SubscriptionFacts Services NetworkRuntime NetworkFacts NetworkSafety NetworkLinks NetworkPass.

Module NetworkStart.
Import Types Locators ParamFacts Slots Introspection Network NetworkFacts NetworkSafety NetworkLinks NetworkPass.

(** ** The initial state *)

Lemma zeroes_length n : 0 <= n -> zlen (zeroes n) = n.
Proof. intros Hn. unfold zeroes. rewrite length_replicate. lia. Qed.

Lemma keys_free {E K} `{Slot E K} n (e : E) : occupied e = false -> keys (replicate n e) = [].
Proof. intros He. induction n as [|n IH]; [done|]. cbn [replicate]. by rewrite keys_cons_free. Qed.

Lemma writer_link_default_ok p : writer_link_ok p ReliableWriterLink_default.
Proof. destruct (writer_new_ok p writer_config_default) as [Hw Hp]; [done..|]. by split. Qed.

Lemma reader_link_default_ok : reader_link_ok ReliableReaderLink_default.
Proof.
  split; try done. intros _. apply (reader_new_ok reader_config_default); [|done].
  cbn. lia.
Qed.

Lemma remotes_init p :
  remotes_ok p (participants_ NetworkRuntime_init) (endpoints_ NetworkRuntime_init).
Proof.
  assert (contents (participants_ NetworkRuntime_init) !! p = None) as Hp.
  { apply keys_contents. cbn [participants_ NetworkRuntime_init]. rewrite keys_free by done.
    apply not_elem_of_nil. }
  split; cbn [participants_ endpoints_ NetworkRuntime_init].
  - apply length_replicate.
  - rewrite keys_free by done. constructor.
  - by apply Forall_replicate.
  - exact Hp.
  - apply length_replicate.
  - rewrite keys_free by done. constructor.
  - by apply Forall_replicate.
  - intros e [-> _]%elem_of_replicate. done.
Qed.

Lemma buffers_init : buffers_ok Buffers_init.
Proof.
  split; cbn [Buffers_init graph_payload_ graph_message_ transmit_buffer_ control_buffer_
    directed_control_buffer_]; by rewrite zeroes_length.
Qed.

Section Runtime.
Context `{GeneratedTypes}.

Lemma net_init p : net_ok p NetworkRuntime_init.
Proof.
  split; cbn [NetworkRuntime_init spdp_size_ spdp_ reliable_writers_ reliable_readers_
    last_sent_sequence_ publisher_generations_ buffers_].
  - rewrite zeroes_length; lia.
  - apply remotes_init.
  - split; [apply length_replicate|rewrite keys_free by done; constructor|].
    apply Forall_replicate, writer_link_default_ok.
  - split; [apply length_replicate|rewrite keys_free by done; constructor|].
    apply Forall_replicate, reader_link_default_ok.
  - by rewrite zeroes_length.
  - apply buffers_init.
Qed.

(** A context whose registries are still empty. *)
Record fresh_context (c : Context_) : Prop := {
  fr_graph : GraphFacts.cache_ok (graph c);
  fr_publishers : zlen (publishers c) = 8 /\
    Forall (fun s => ps_data s = None) (publishers c);
  fr_subscriptions : zlen (subscriptions c) = 8 /\
    Forall (fun s => ss_data s = None) (subscriptions c);
}.

Definition start_of (c : Context_) : World :=
  {| net := NetworkRuntime_init; context := c; trace := [] |}.

Lemma empty_context p c :
  participant_prefix c = p -> length p = 12%nat -> fresh_context c -> context_ok p c.
Proof.
  intros Hp Hl [Hg [P8 Pn] [S8 Sn]]. split; [done..| |].
  - split; [done|]. eapply Forall_impl; [exact Pn|]. intros s Hs d Hd. congruence.
  - split; [done|]. eapply Forall_impl; [exact Sn|]. intros s Hs d Hd. congruence.
Qed.

(** ** The announcement *)

Lemma made octets port l :
  length octets = 4%nat -> bytes_ok octets -> 0 <= port < 2 ^ 16 ->
  make_udp_v4_locator octets port = Some l ->
  locator_ok l /\ valid_udp_v4_locator l = true /\ length (address l) = 16%nat /\
  endpoint_of l = {| ep_address := octets; ep_port := port |}.
Proof.
  intros Ho Hb Hp Hl. destruct (make_valid octets port l Ho Hp Hl) as (Hv & Hport & Ha).
  unfold make_udp_v4_locator in Hl. destruct (_ || _); [done|]. injection Hl as <-.
  cbn [address Locators.port kind] in *. rewrite take_ge in * by lia.
  assert (length (replicate 12 0 ++ octets) = 16%nat) as Hlen
    by (rewrite length_app, length_replicate; lia).
  split_and!; [|done|done|].
  - split_and!; cbn [kind Locators.port address]; try lia. split; [done|].
    change (bytes_ok (replicate 12 0 ++ octets)). apply Forall_app. split; [|done].
    by apply Forall_replicate.
  - unfold endpoint_of. cbn [address Locators.port]. rewrite Ha. f_equal. by apply u16_id.
Qed.

Lemma first_pushed {E} x :
  push_first x = (Done (Some (filled 4 [x])) : outcome E _).
Proof. exact (push_filled 4 [] x ltac:(cbn; lia) ltac:(lia)). Qed.

Lemma locator_default_ok : locator_ok Locator_default.
Proof. split_and!; [done..|]. split; [done|]. by apply Forall_replicate. Qed.

Lemma filled_typed x : locator_ok x -> list_typed Spdp.spdp_max_locators (filled 4 [x]).
Proof.
  intros Hx. split; [done|cbn; lia|].
  change (values (filled 4 [x])) with ([x] ++ replicate 3 Locator_default).
  apply Forall_app. split; [by constructor|]. apply Forall_replicate, locator_default_ok.
Qed.

Lemma spdp_config_ok c name mu mm du :
  length (participant_prefix c) = 12%nat -> length name = 64%nat ->
  locator_ok mu -> locator_ok mm -> locator_ok du ->
  Spdp.participant_ok (Spdp.participant
    (spdp_config c name (filled 4 [mu]) (filled 4 [mm]) (filled 4 [du]))).
Proof.
  intros Hp Hn Hmu Hmm Hdu. split; cbn [spdp_config Spdp.participant Spdp.vendor_id
    Spdp.guid_prefix Spdp.domain_id Spdp.metatraffic_unicast Spdp.metatraffic_multicast
    Spdp.default_unicast Spdp.default_multicast Spdp.available_builtin_endpoints
    Spdp.lease_duration_ns Spdp.entity_name Spdp.entity_name_size]; try done.
  all: try by apply filled_typed.
  - apply u32_range.
  - split; [done|cbn; lia|]. apply (Forall_replicate _ 4), locator_default_ok.
Qed.

Lemma sound_one x :
  valid_udp_v4_locator x = true -> length (address x) = 16%nat -> list_sound 4 (filled 4 [x]).
Proof.
  intros Hv Hl. split; [by apply (filled_wf 4); cbn; lia|]. rewrite held_filled.
  by constructor.
Qed.

(** What a receiver keeps of the announcement. *)
Lemma received_sound c name mu mm du :
  length name = 64%nat ->
  valid_udp_v4_locator mu = true -> length (address mu) = 16%nat ->
  valid_udp_v4_locator mm = true -> length (address mm) = 16%nat ->
  valid_udp_v4_locator du = true -> length (address du) = 16%nat ->
  Spdp.participant_sound (Spdp.received (Spdp.participant
    (spdp_config c name (filled 4 [mu]) (filled 4 [mm]) (filled 4 [du])))).
Proof.
  intros Hn Vmu Lmu Vmm Lmm Vdu Ldu. split; cbn [Spdp.received Spdp.metatraffic_unicast
    Spdp.metatraffic_multicast Spdp.default_unicast Spdp.default_multicast
    Spdp.lease_duration_ns Spdp.entity_name Spdp.entity_name_size].
  - exact (sound_one mu Vmu Lmu).
  - exact (sound_one mm Vmm Lmm).
  - exact (sound_one du Vdu Ldu).
  - split; [by apply (filled_wf 4 []); cbn; lia|constructor].
  - by vm_compute.
  - assert (length (Spdp.name_of (Spdp.participant (spdp_config c name (filled 4 [mu])
      (filled 4 [mm]) (filled 4 [du])))) <= 64)%nat.
    { unfold Spdp.name_of. rewrite length_take. cbn [spdp_config Spdp.participant
        Spdp.entity_name]. lia. }
    rewrite length_app, length_replicate. lia.
  - done.
Qed.

(** The datagram the participant sends to the discovery group. *)
Definition announcement (n : NetworkRuntime) : list Z :=
  take (Z.to_nat (spdp_size_ n)) (spdp_ n).

(** Every participant of the domain parses it as this participant, reachable at its
    metadata port. *)
Definition announced (w : World) : Prop :=
  let d := announcement (net w) in
  let c := context w in
  exists view,
    Spdp.parse_body (Some d) (zlen d) (u32 (actual_domain_id c)) = Done view /\
    Spdp.guid_prefix (Spdp.participant view) = participant_prefix c /\
    Spdp.participant_sound (Spdp.participant view) /\
    forall E, first_endpoint (Spdp.metatraffic_unicast (Spdp.participant view)) =
      (Done (Some {| ep_address := kLoopback; ep_port := metadata_port c |}) : outcome E _).

Lemma build_spdp_ok {E} c port spdp :
  length (participant_prefix c) = 12%nat -> 0 <= metadata_port c < 2 ^ 16 ->
  0 <= user_port c < 2 ^ 16 -> 0 <= port < 2 ^ 16 -> zlen spdp < 2 ^ 64 ->
  returns (fun built => forall buffer size, built = Some (buffer, size) ->
    0 <= size <= zlen buffer /\
    let d := take (Z.to_nat size) buffer in
    exists view, Spdp.parse_body (Some d) (zlen d) (u32 (actual_domain_id c)) = Done view /\
      Spdp.guid_prefix (Spdp.participant view) = participant_prefix c /\
      Spdp.participant_sound (Spdp.participant view) /\
      forall E, first_endpoint (Spdp.metatraffic_unicast (Spdp.participant view)) =
        (Done (Some {| ep_address := kLoopback; ep_port := metadata_port c |}) : outcome E _))
    (build_spdp c port spdp : outcome E _).
Proof.
  intros Hp Hm Hu Hport H64. unfold build_spdp.
  destruct (make_udp_v4_locator kLoopback (metadata_port c)) as [mu|] eqn:Hmu;
    [|by apply returns_done].
  destruct (make_udp_v4_locator kLoopback (user_port c)) as [du|] eqn:Hdu;
    [|by apply returns_done].
  destruct (make_udp_v4_locator kSpdpGroup port) as [mm|] eqn:Hmm; [|by apply returns_done].
  apply made in Hmu as (Omu & Vmu & Lmu & Emu); [|done|by repeat constructor|done].
  apply made in Hdu as (Odu & Vdu & Ldu & _); [|done|by repeat constructor|done].
  apply made in Hmm as (Omm & Vmm & Lmm & _); [|done|by repeat constructor|done].
  rewrite !first_pushed. cbn [mbind outcome_bind].
  destruct (mcopy (replicate 64 0) 0 entity_name) as [name|] eqn:Hname; [|done].
  assert (length name = 64%nat) as Hn by (by apply mcopy_length in Hname).
  cbn [access mbind outcome_bind].
  pose proof (spdp_config_ok c name mu mm du Hp Hn Omu Omm Odu) as Hcfg.
  set (config := spdp_config _ _ _ _ _) in *.
  pose proof (Spdp.spdp_build_cases (Spdp.SpdpMessageBuilder_new (Some spdp) (zlen spdp)) spdp
    config) as Hb.
  specialize (Hb ltac:(split; [done|cbn; lia]) Hcfg ltac:(cbn; lia)). cbv zeta in Hb.
  destruct (Spdp.can_announce _ _) eqn:Hcan; cycle 1.
  { destruct Hb as (e & r & _ & _ & ->). by apply returns_done. }
  rewrite Hb. cbn [Spdp.buffer_ Spdp.size_ access mbind outcome_bind]. apply returns_done.
  intros buffer size Heq. apply (inj Some), pair_eq in Heq as [<- <-]. split.
  { rewrite length_app. lia. }
  rewrite Nat2Z.id, take_app_length. exists (Spdp.received_view config).
  split; [apply (Spdp.announcement_parses config _ Hcfg ltac:(cbn; lia) Hcan)|]. split; [done|].
  split; [by apply received_sound|].
  intros F. rewrite <- Emu. by apply (first_endpoint_sound 4 (filled 4 [mu])), sound_one.
Qed.

Lemma unicast_port_range domain participant p :
  spdp_unicast_port domain participant SpdpPortConfig_default = Some p -> 0 <= p < 2 ^ 16.
Proof.
  unfold spdp_unicast_port. cbv zeta. repeat case_match; try done. intros [= <-].
  apply Z.mod_pos_bound. lia.
Qed.

Lemma multicast_port_range domain p :
  spdp_multicast_port domain SpdpPortConfig_default = Some p -> 0 <= p < 2 ^ 16.
Proof.
  unfold spdp_multicast_port. cbv zeta. repeat case_match; try done. intros [= <-].
  apply Z.mod_pos_bound. lia.
Qed.

Lemma bind_loop_ports sockets domain candidates participant metadata user :
  bind_loop sockets domain candidates = Some (participant, metadata, user) ->
  0 <= metadata < 2 ^ 16 - 1 /\ user = metadata + 1 /\
  metadata_bound sockets metadata = true /\ user_bound sockets user = true.
Proof.
  induction candidates as [|x rest IH]; [done|]. cbn [bind_loop].
  destruct (spdp_unicast_port _ _ _) as [port|] eqn:Hp; [|done].
  apply unicast_port_range in Hp. destruct (Z.eqb_spec port u16_max) as [|Hne]; [done|].
  unfold u16_max in Hne. destruct (metadata_bound sockets port) eqn:Hm; cbn [negb orb]; [|done].
  destruct (user_bound sockets (u16 (port + 1))) eqn:Hu; cbn [negb]; [|done].
  intros [= <- <- <-]. rewrite u16_id in * by lia. split_and!; [lia|lia|done..].
Qed.

(** [initialize] fails, or starts a participant that holds the invariant, has the two bound
    ports and announces itself. *)
Lemma initialize_started {E} sockets process c :
  fresh_context c ->
  returns (fun started => forall w, started = Some w ->
    world_ok (participant_prefix (context w)) w /\ announced w /\
    actual_domain_id (context w) = actual_domain_id c /\
    metadata_bound sockets (metadata_port (context w)) = true /\
    user_bound sockets (user_port (context w)) = true)
    (initialize sockets process (start_of c) : outcome E _).
Proof.
  intros Hf. unfold initialize, configure_sockets. cbv zeta.
  destruct (spdp_multicast_port _ _) as [port|] eqn:Hport; [|by apply returns_done].
  apply multicast_port_range in Hport.
  destruct (negb _); [by apply returns_done|].
  destruct (bind_loop _ _ _) as [[[participant metadata] user]|] eqn:Hbind;
    [|by apply returns_done].
  apply bind_loop_ports in Hbind as (Hm & Hu & Hbm & Hbu).
  eapply returns_bind.
  { apply build_spdp_ok; cbn [context net metadata_port user_port participant_prefix
      spdp_destination_ ep_port]; [done|lia|lia|done|].
    cbn [start_of net NetworkRuntime_init spdp_]. rewrite zeroes_length; lia. }
  intros built Hb. apply returns_done. intros w Hw.
  destruct built as [[spdp size]|]; [|done]. injection Hw as <-.
  destruct (Hb spdp size eq_refl) as (Hsize & Hview).
  cbn [with_net context net participant_prefix metadata_port user_port actual_domain_id].
  split_and!; [|exact Hview|done|done|done].
  pose proof (net_init (Services.context_prefix (actual_domain_id (context (start_of c)))
    participant process)) as [_ N2 N3 N4 N5 N6].
  split; [by split| |constructor].
  apply empty_context; [done|done|]. by destruct Hf.
Qed.

(** ** Reachable states *)

(** The states between the passes of the thread: the application may replace the context by
    any other that satisfies the invariant (it creates and removes entities, publishes and
    takes). *)
Inductive reachable (p : GuidPrefix) : World -> Prop :=
  | started_at sockets process c w :
      fresh_context c ->
      initialize sockets process (start_of c) = (Done (Some w) : outcome unit _) ->
      participant_prefix (context w) = p -> reachable p w
  | application_ran w c : reachable p w -> context_ok p c -> reachable p (with_context c w)
  | pass_ran input next w w' next' :
      reachable p w -> input_ok input ->
      run_once input next w = (Done (w', next') : outcome unit _) -> reachable p w'.

Lemma reachable_ok p w : reachable p w -> world_ok p w.
Proof.
  induction 1 as [sockets process c w Hf Hi <-|w c Hw IH Hc|input next w w' next' Hw IH Hin Hr].
  - destruct (initialize_started (E:=unit) sockets process c Hf) as (started & Heq & Hs).
    rewrite Hi in Heq. injection Heq as <-. by apply Hs.
  - destruct IH. by split.
  - destruct (run_once_ok (E:=unit) p input next w IH Hin) as ([w1 n1] & Heq & Hok).
    rewrite Hr in Heq. injection Heq as <- <-. done.
Qed.

End Runtime.

End NetworkStart.
