(* ===== verification/NetworkTheorems.v ===== *)
(** * What the network thread guarantees

    The theorems about the network thread: every pass returns and sends well-formed
    messages, a started participant is discovered, the match counts are exact, a heartbeat
    is answered with the numbers that are missing, and a gap the writer cannot repair stops
    the reliable protocol for good. *)
From stdpp Require Import gmap.
From S2P Require Import Prelude Types Bytes Texts KeepLastHistory Locators MessageRouter DataMessage ParameterFacts SlotTable Spdp Sedp GraphCache GraphFacts GraphSync ReliabilityMessages ReliabilityState ReliableWriter ReliableReader Introspection SampleTypes Qos TypeSupport Endpoint Publisher Subscription SampleEndpoints PublisherFacts SubscriptionFacts Services NetworkRuntime NetworkFacts NetworkSafety NetworkLinks NetworkPass NetworkStart.

Module NetworkTheorems.
Import Types Locators ParamFacts Slots Introspection Network NetworkFacts NetworkSafety NetworkLinks NetworkPass NetworkStart.

(** ** Traffic *)

(** A datagram another participant parses as a message of the participant [p]. *)
Definition message_of (p : GuidPrefix) (d : list Z) : Prop :=
  (exists v, Data.parse_body (Some d) (zlen d) = Done v /\ Data.guid_prefix v = p) \/
  (exists v, RelMsg.parse_heartbeat_body (Some d) (zlen d) = Done v /\
     RelMsg.guid_prefix (RelMsg.hb_header v) = p) \/
  (exists v, RelMsg.parse_acknack_body (Some d) (zlen d) = Done v /\
     RelMsg.guid_prefix (RelMsg.an_header v) = p).

Lemma output_parses p destination d :
  output_ok p (Sent user_socket_ destination d) -> message_of p d.
Proof.
  intros [(c & payload & Hc & Hb & Hp & ->)|[(c & dst & Hc & Hr & Hs & Hp & Hd & ->)|
    (c & dst & Hc & Hs & Hp & Hd & ->)]].
  - left. eexists. split; [by apply (Data.parse_built c payload 65507)|done].
  - right. left. exists c. split; [by apply directed_heartbeat_parses|done].
  - right. right. exists c. split; [by apply directed_acknack_parses|done].
Qed.

Section Runtime.
Context `{GeneratedTypes}.

(** C3: whatever bytes arrive on the three sockets, and whatever the application did to the
    registries before (within their invariant), a pass of the network thread returns, no
    access leaves an array, the tables of remote participants, endpoints and reliable links
    keep their invariant, and every datagram ever handed to the user socket is parsed by
    other participants as a DATA, HEARTBEAT or ACKNACK message of this participant. *)
Theorem network_thread_safe p w input next :
  reachable p w -> input_ok input ->
  exists w' next', run_once input next w = (Done (w', next') : outcome unit _) /\
    world_ok p w' /\
    forall destination d, Sent user_socket_ destination d ∈ trace w' -> message_of p d.
Proof.
  intros Hr Hin. apply reachable_ok in Hr.
  destruct (run_once_ok (E:=unit) p input next w Hr Hin) as ([w' next'] & Heq & Hw').
  exists w', next'. split_and!; [done|done|]. intros destination d Hd.
  apply (output_parses p destination). pose proof (wd_trace _ _ Hw') as Ht.
  rewrite Forall_forall in Ht. by apply Ht.
Qed.

(** ** Discovery *)

Lemma accepted_participant q x now_ns w i :
  world_ok q w -> target_entry (Spdp.guid_prefix x) (participants_ (net w)) = Some i ->
  contents (participants_ (net (accept_participant x now_ns w))) !! Spdp.guid_prefix x =
  Some {| rp_data := x; rp_last_seen_ns := now_ns; rp_occupied := true |}.
Proof.
  intros Hw Ht. unfold accept_participant. rewrite Ht.
  cbn [set_participants net with_net participants_].
  set (e := {| rp_data := x; rp_last_seen_ns := now_ns; rp_occupied := true |}).
  destruct (target_entry_store (participants_ (net w)) _ i e
    (ro_participant_keys _ _ _ (no_remotes _ _ (wd_net _ _ Hw))) Ht eq_refl eq_refl) as [-> _].
  apply lookup_insert_eq.
Qed.

Lemma free_entry {E K} `{Slot E K} (k : K) (es : list E) e :
  e ∈ es -> occupied e = false -> is_Some (target_entry k es).
Proof.
  intros He Ho. unfold target_entry. destruct (first_where (holds k) es) as [[i x]|]; [by eexists|].
  assert (is_Some (first_where Graph.is_free es)) as [[i x] ->]; [|by eexists].
  apply (list_find_elem_of _ _ e); [done|]. unfold Graph.is_free. by rewrite Ho.
Qed.

(** C18: the announcement of a participant that has started is accepted by every other
    participant of its domain with a free entry: the entry then holds the prefix of the new
    participant, seen now, and the address its endpoint announcements are sent to is the
    metadata port the new participant has bound. *)
Theorem participant_discovered sockets process c a q b now_ns e :
  fresh_context c -> initialize sockets process (start_of c) = (Done (Some a) : outcome unit _) ->
  world_ok q b -> actual_domain_id (context b) = actual_domain_id c ->
  participant_prefix (context a) <> q ->
  e ∈ participants_ (net b) -> rp_occupied e = false ->
  exists b' x, handle_discovery now_ns (announcement (net a)) b = (Done b' : outcome unit _) /\
    world_ok q b' /\
    contents (participants_ (net b')) !! participant_prefix (context a) =
      Some {| rp_data := x; rp_last_seen_ns := now_ns; rp_occupied := true |} /\
    first_endpoint (Spdp.metatraffic_unicast x) =
      (Done (Some {| ep_address := kLoopback; ep_port := metadata_port (context a) |})
        : outcome unit _) /\
    metadata_bound sockets (metadata_port (context a)) = true.
Proof.
  intros Hc Ha Hb Hd Hq He Hfree.
  destruct (initialize_started (E:=unit) sockets process c Hc) as (started & Heq & Hs).
  rewrite Ha in Heq. injection Heq as <-.
  destruct (Hs a eq_refl) as (_ & (view & Hv & Hp & Hsound & Hend) & Hdom & Hbound & _).
  rewrite Hdom, <- Hd in Hv. unfold handle_discovery. rewrite Hv. cbv zeta.
  rewrite (ko_prefix _ _ (wd_context _ _ Hb)), bool_decide_eq_false_2 by congruence.
  destruct (free_entry (Spdp.guid_prefix (Spdp.participant view)) (participants_ (net b)) e)
    as [i Hi]; [done..|].
  eexists _, (Spdp.participant view). split; [done|]. split_and!.
  - apply accept_participant_ok; [done|done|congruence].
  - rewrite <- Hp. by eapply accepted_participant.
  - apply Hend.
  - done.
Qed.

(** ** Match counts *)

(** The number of matched endpoints of an entity after a change, and the events raised. *)
Definition transitions (count : Z) (s : Endpoint.MatchStatus) : Z :=
  sub64 (Z.max count (Endpoint.matched s)) (Z.min count (Endpoint.matched s)).

Lemma set_match_count_spec count s :
  let '(n, s') := Endpoint.set_match_count count s in
  n = transitions count s /\ Endpoint.matched s' = count.
Proof.
  unfold Endpoint.set_match_count, transitions.
  destruct (Z.eqb_spec count (Endpoint.matched s)) as [Heq|Hne]; cbn [negb].
  - rewrite Heq, Z.max_id, Z.min_id. unfold sub64. by rewrite Z.sub_diag.
  - split; [|done]. destruct (Z.ltb_spec (Endpoint.matched s) count).
    + by rewrite Z.max_l, Z.min_r by lia.
    + by rewrite Z.max_r, Z.min_l by lia.
Qed.

Lemma changes_elem {A} source rematch (l : list A) : forall i x n,
  (x, n) ∈ changes source rematch i l <->
  exists j s, l !! j = Some s /\ x = source (i + Z.of_nat j) /\ n = (rematch s).1 /\ n <> 0.
Proof.
  induction l as [|s l IH]; intros i x n; cbn [changes].
  { rewrite elem_of_nil. split; [done|]. by intros (j & s & Hj & _). }
  rewrite elem_of_app, IH. split.
  - intros [Hin|(j & s' & Hj & -> & Hn)].
    + destruct (Z.eqb_spec (rematch s).1 0) as [|Hne]; [by apply not_elem_of_nil in Hin|].
      apply list_elem_of_singleton in Hin as [= -> ->]. exists 0%nat, s.
      rewrite Z.add_0_r. done.
    + exists (S j), s'. split_and!; [done| |apply Hn..]. f_equal. lia.
  - intros ([|j] & s' & Hj & -> & -> & Hne).
    + injection Hj as <-. left. rewrite Z.add_0_r.
      destruct (Z.eqb_spec (rematch s).1 0); [done|]. by apply list_elem_of_singleton.
    + right. exists j, s'. split_and!; [done| |done..]. f_equal. lia.
Qed.

(** What [recompute_matches] leaves in the slot of a publisher or a subscription. *)
Definition publisher_rematched (w w' : World) (events : list Output) : Prop :=
  forall i s d, publishers (context w) !! i = Some s -> ps_occupied s = true ->
    ps_data s = Some d ->
    let count := zlen (matching (publisher_view d) Sedp.reader (endpoints_ (net w))) in
    (exists d', publishers (context w') !! i = Some (set_publisher_data s d') /\
       Endpoint.matched (Publisher.match_status d') = count) /\
    forall n, EventsNotified (publisher_source (Z.of_nat i)) n ∈ events <->
      n = transitions count (Publisher.match_status d) /\ n <> 0.

Definition subscription_rematched (w w' : World) (events : list Output) : Prop :=
  forall i s d, subscriptions (context w) !! i = Some s -> ss_occupied s = true ->
    ss_data s = Some d ->
    let count := zlen (matching (subscription_view d) Sedp.writer (endpoints_ (net w))) in
    (exists d', subscriptions (context w') !! i = Some (set_subscription_data s d') /\
       Endpoint.matched (Subscription.match_status d') = count) /\
    forall n, EventsNotified (subscription_source (Z.of_nat i)) n ∈ events <->
      n = transitions count (Subscription.match_status d) /\ n <> 0.

(** The events of [rematched]. *)
Definition match_events (w : World) : list Output :=
  let l := endpoints_ (net w) in
  (fun '(source, n) => EventsNotified source n) <$>
  changes publisher_source (rematch_publisher l) 0 (publishers (context w)) ++
  changes subscription_source (rematch_subscription l) 0 (subscriptions (context w)).

Lemma match_event_elem w x n :
  EventsNotified x n ∈ match_events w <->
  (x, n) ∈ changes publisher_source (rematch_publisher (endpoints_ (net w))) 0
             (publishers (context w)) \/
  (x, n) ∈ changes subscription_source (rematch_subscription (endpoints_ (net w))) 0
             (subscriptions (context w)).
Proof.
  unfold match_events. rewrite list_elem_of_fmap, <- elem_of_app. split.
  - intros ([y m] & [= -> ->] & Hin). done.
  - intros Hin. by exists (x, n).
Qed.

Lemma publisher_rematched_spec w :
  publisher_rematched w (rematched w) (match_events w).
Proof.
  intros i s d Hi Ho Hd count.
  pose proof (set_match_count_spec count (Publisher.match_status d)) as Hs.
  assert (exists d', rematch_publisher (endpoints_ (net w)) s =
    (transitions count (Publisher.match_status d), set_publisher_data s d') /\
    Endpoint.matched (Publisher.match_status d') = count) as (d' & Hr & Hm).
  { unfold rematch_publisher, Publisher.publisher_network_set_match_count. rewrite Ho, Hd.
    fold count. destruct (Endpoint.set_match_count _ _) as [n st]. destruct Hs as [-> Hst].
    by eexists. }
  split.
  - exists d'. split; [|done]. unfold rematched. cbn [context set_publishers with_context
      publishers]. rewrite list_lookup_fmap, Hi. cbn. by rewrite Hr.
  - intros n. rewrite match_event_elem, !changes_elem. split.
    + intros [(j & s' & Hj & Hx & -> & Hne)|(j & s' & _ & Hx & _)]; [|done].
      assert (j = i) as -> by (injection Hx; lia). rewrite Hi in Hj. injection Hj as <-.
      by rewrite Hr in *.
    + intros [-> Hne]. left. exists i, s. rewrite Hr. done.
Qed.

Lemma subscription_rematched_spec w :
  subscription_rematched w (rematched w) (match_events w).
Proof.
  intros i s d Hi Ho Hd count.
  pose proof (set_match_count_spec count (Subscription.match_status d)) as Hs.
  assert (exists d', rematch_subscription (endpoints_ (net w)) s =
    (transitions count (Subscription.match_status d), set_subscription_data s d') /\
    Endpoint.matched (Subscription.match_status d') = count) as (d' & Hr & Hm).
  { unfold rematch_subscription, Subscription.subscription_network_set_match_count.
    rewrite Ho, Hd. fold count. destruct (Endpoint.set_match_count _ _) as [n st].
    destruct Hs as [-> Hst]. by eexists. }
  split.
  - exists d'. split; [|done]. unfold rematched. cbn [context set_publishers set_subscriptions
      with_context subscriptions]. rewrite list_lookup_fmap, Hi. cbn. by rewrite Hr.
  - intros n. rewrite match_event_elem, !changes_elem. split.
    + intros [(j & s' & _ & Hx & _)|(j & s' & Hj & Hx & -> & Hne)]; [done|].
      assert (j = i) as -> by (injection Hx; lia). rewrite Hi in Hj. injection Hj as <-.
      by rewrite Hr in *.
    + intros [-> Hne]. right. exists i, s. rewrite Hr. done.
Qed.

(** C16: [recompute_matches] sets the match count of every publisher (subscription) to the
    number of remote readers (writers) with a compatible topic, type and quality of
    service, and raises an event for an entity exactly when its count changed, with the
    size of the change. *)
Theorem matches_exact p w :
  world_ok p w ->
  exists w' events, recompute_matches w = (Done w' : outcome unit World) /\ world_ok p w' /\
    net w' = net w /\ trace w' = trace w ++ events /\
    publisher_rematched w w' events /\ subscription_rematched w w' events.
Proof.
  intros Hw. destruct (recompute_ok (E:=unit) p w Hw) as [-> Hr].
  exists (rematched w), (match_events w). split_and!; [done..| |].
  - apply publisher_rematched_spec.
  - apply subscription_rematched_spec.
Qed.

(** ** Heartbeats *)

(** A heartbeat the reader of a link has to answer: from its writer, newer than the last
    one, and announcing samples from the first missing one on. *)
Record answerable (r : Reader.ReliableReader) (hb : RelMsg.HeartbeatView) : Prop := {
  aw_range : RelMsg.range_ok (RelMsg.hb_first hb) (RelMsg.hb_last hb) = true;
  aw_reader : RelMsg.hb_reader_id hb = Reader.r_reader_id (Reader.config_ r);
  aw_writer : RelMsg.hb_writer_id hb = Reader.r_writer_id (Reader.config_ r);
  aw_newer : Reader.heartbeat_count_initialized_ r = true ->
    Rel.control_count_is_newer (RelMsg.hb_count hb) (Reader.last_heartbeat_count_ r) = true;
  aw_covers : RelMsg.hb_first hb <= Reader.base_ r <= RelMsg.hb_last hb;
}.

Lemma answerable_done r hb :
  Reader.reader_wf kReaderWindow r -> answerable r hb ->
  exists r' a, Reader.on_heartbeat kReaderWindow kActions r hb
    (Rel.ActionBuffer_init kActions) = Done (r', a).
Proof.
  intros Hr [Hrange Hre Hwr Hnew Hcov].
  pose proof (Reader.rg_base _ _ (Reader.rw_ring _ _ Hr)) as Hbase.
  assert (Reader.valid_heartbeat_range hb = true) as Hv.
  { unfold RelMsg.range_ok in Hrange. rewrite !andb_true_iff, !Z.leb_le in Hrange.
    unfold Reader.valid_heartbeat_range. unfold i64_max in *. rewrite sub64_id by lia.
    rewrite !andb_true_iff, !Z.leb_le, negb_true_iff, Z.eqb_neq. lia. }
  unfold RelMsg.range_ok, i64_max in Hrange. rewrite !andb_true_iff, !Z.leb_le in Hrange.
  unfold Reader.on_heartbeat. rewrite (Reader.rw_valid _ _ Hr), Hv, Hre, Hwr.
  assert (forall x, entity_neqb x x = false) as Hself.
  { intros x. unfold entity_neqb, entity_eqb. by rewrite !bool_decide_eq_true_2. }
  rewrite !Hself. cbn [negb orb stop_if mbind outcome_bind].
  destruct (Reader.heartbeat_count_initialized_ r && _) eqn:Hst.
  { apply andb_true_iff in Hst as [H1 H2]. rewrite (Hnew H1) in H2. done. }
  cbn [stop_if mbind outcome_bind].
  destruct (Z.ltb_spec (Reader.base_ r) (RelMsg.hb_first hb)); [lia|]. rewrite andb_false_r.
  cbn [stop_if mbind outcome_bind].
  destruct (Z.leb_spec (Reader.base_ r) (RelMsg.hb_last hb)) as [Hle|]; [|lia].
  cbn [orb andb]. change (Rel.remaining _ _ =? 0) with false. cbn [stop_if mbind outcome_bind].
  destruct (Reader.response_state_spec (E:=Rel.ReliabilityError) kReaderWindow ltac:(done) r hb
    (Reader.rw_ring _ _ Hr) ltac:(unfold i64_max; lia)) as (s & f & Hs & _).
  rewrite (proj2 (Z.leb_le _ _) Hle) in Hs. rewrite Hs. cbn [mbind outcome_bind].
  by eexists _, _.
Qed.

(** C10: a heartbeat that announces the first number a reliable reader misses is answered
    with one datagram to the writer's participant.  The writer parses it as the
    acknowledgement of this reader, and it asks for exactly the numbers of the window that
    the heartbeat covers and the reader has not got. *)
Theorem heartbeat_answered p i l hb w :
  world_ok p w -> reliable_readers_ (net w) !! i = Some l ->
  Reader.valid_ (rl_state l) = true -> answerable (rl_state l) hb ->
  exists w' d ack, answer_heartbeat i hb w = (Done w' : outcome unit World) /\ world_ok p w' /\
    trace w' = trace w ++ [Sent user_socket_ (rl_destination l) d] /\
    RelMsg.parse_acknack_body (Some d) (zlen d) = Done ack /\
    RelMsg.guid_prefix (RelMsg.an_header ack) = p /\
    RelMsg.an_reader_id ack = rl_local_reader l /\
    RelMsg.an_writer_id ack = rl_remote_writer l /\
    RelMsg.bitmap_base_ (RelMsg.an_reader_state ack) = Reader.base_ (rl_state l) /\
    forall o, 0 <= o ->
      RelMsg.sns_bit (RelMsg.an_reader_state ack) o =
      (o <? Z.min (RelMsg.hb_last hb - Reader.base_ (rl_state l) + 1) kReaderWindow) &&
      negb (Reader.got kReaderWindow (rl_state l) (Reader.base_ (rl_state l) + o)).
Proof.
  intros Hw Hl Hv Ha.
  pose proof (Forall_lookup_1 _ _ _ _ (do_links _ (no_readers _ _ (wd_net _ _ Hw))) Hl) as Hok.
  pose proof (rk_state _ Hok Hv) as Hr. pose proof Ha as [Hrange _ _ _ Hcov].
  unfold RelMsg.range_ok, i64_max in Hrange. rewrite !andb_true_iff, !Z.leb_le in Hrange.
  pose proof (Reader.on_heartbeat_post kReaderWindow kActions ltac:(done) (rl_state l) hb _ Hr
    fresh_actions ltac:(lia) ltac:(lia)) as Hp.
  destruct (answerable_done _ _ Hr Ha) as (s & a & Hon). rewrite Hon in Hp.
  destruct Hp as (Hs & _ & Hc & _ & _ & Hx).
  rewrite (proj2 (Z.leb_le _ _) (proj2 Hcov)) in Hx.
  destruct Hx as (x & Hax & Hx & _).
  destruct (put_reader p w i l s Hw Hl Hs Hc) as [Hw1 _].
  unfold answer_heartbeat. rewrite Hl. cbn [access mbind outcome_bind]. rewrite Hon.
  assert (Rel.contents a = [x]) as -> by exact Hax. cbn [for_each].
  rewrite bool_decide_eq_true_2 by exact (Reader.rq_kind _ _ _ _ Hx).
  set (w1 := set_readers _ w) in *.
  destruct (send_acknack_ok (E:=unit) p l (set_reader_state l s) _ x w1 Hw1 Hok Hr Hx
    (rk_prefix _ Hok)) as (w' & -> & Hw' & _ & _ & Ht).
  destruct (acknack_of_ok p l _ x w1 Hw1 Hok Hr Hx) as [Hcfg Hsup].
  exists w', (directed (rl_remote_prefix l) (RelMsg.acknack_bytes (acknack_of (context w1) x))),
    (acknack_of (context w1) x).
  split_and!; [done|done|exact Ht|by apply directed_acknack_parses; [..|apply Hok]| | | | |].
  - by apply control_header_ok.
  - cbn. by rewrite (Reader.rq_reader _ _ _ _ Hx), (rk_reader _ Hok).
  - cbn. by rewrite (Reader.rq_writer _ _ _ _ Hx), (rk_writer _ Hok).
  - exact (Reader.rq_base _ _ _ _ Hx).
  - intros o Ho. cbn [acknack_of RelMsg.an_reader_state].
    rewrite (Reader.rq_missing _ _ _ _ Hx o Ho). unfold Reader.covered.
    by rewrite (proj2 (Z.leb_le _ _) (proj2 Hcov)).
Qed.

(** ** Gaps the writer cannot repair *)

Lemma gap_unanswered {E} i l hb w :
  reliable_readers_ (net w) !! i = Some l ->
  Reader.base_ (rl_state l) < RelMsg.hb_first hb <= RelMsg.hb_last hb ->
  answer_heartbeat i hb w = (Done w : outcome E World).
Proof.
  intros Hl Hgap. unfold answer_heartbeat. rewrite Hl. cbn [access mbind outcome_bind].
  assert (exists e, Reader.on_heartbeat kReaderWindow kActions (rl_state l) hb
    (Rel.ActionBuffer_init kActions) = Stop e) as [e ->]; [|done].
  unfold Reader.on_heartbeat.
  do 4 (match goal with |- exists e, (stop_if ?c _ ≫= _) = _ =>
    destruct c; cbn [stop_if mbind outcome_bind]; [by eexists|] end).
  rewrite (proj2 (Z.ltb_lt _ _) (proj1 Hgap)), (proj2 (Z.leb_le _ _)) by lia. by eexists.
Qed.

(** What reaches a reader from one writer. *)
Inductive arrival : Set :=
  | heard (heartbeat : RelMsg.HeartbeatView)
  | sample_arrived (sequence : Z).

Section Link.
Context (slot generation : Z) (local : NetworkEndpointView) (remote : RemoteEndpoint) (i : nat).

(** The arrivals, one after the other, on the link [i] of a pair of endpoints; the result
    has the numbers the reader admits. *)
Fixpoint follow (events : list arrival) (w : World) : outcome unit (list Z * World) :=
  match events with
  | [] => Done ([], w)
  | heard heartbeat :: rest => w ← answer_heartbeat i heartbeat w; follow rest w
  | sample_arrived sequence :: rest =>
      '(admitted, w) ← admit_reliable slot generation local remote sequence w;
      '(numbers, w) ← follow rest w;
      Done ((if (admitted : bool) then [sequence] else []) ++ numbers, w)
  end.

(** The writer no longer has the number [base]: later heartbeats start after it, and no
    sample carries it. *)
Definition past_gap (base : Z) (x : arrival) : Prop :=
  match x with
  | heard hb => base < RelMsg.hb_first hb <= RelMsg.hb_last hb
  | sample_arrived sequence => 0 <= sequence < 2 ^ 64 /\ sequence <> base
  end.

(** The link of the pair, waiting for [base]. *)
Definition waits (base : Z) (w : World) : Prop :=
  exists l, first_such (reader_link_of slot generation local remote)
      (reliable_readers_ (net w)) = Some (i, l) /\
    rl_initialized l = true /\ Reader.valid_ (rl_state l) = true /\
    Reader.base_ (rl_state l) = base.

Lemma link_stored (links : list ReliableReaderLink) l l' :
  first_such (reader_link_of slot generation local remote) links = Some (i, l) ->
  reader_link_of slot generation local remote l' = true ->
  first_such (reader_link_of slot generation local remote) (<[i := l']> links) = Some (i, l').
Proof.
  unfold first_such. rewrite !list_find_Some. intros (Hi & _ & Hbefore) Hl'.
  split_and!; [|done|].
  - apply list_lookup_insert_eq. by eapply lookup_lt_Some.
  - intros j y Hj Hlt. rewrite list_lookup_insert_ne in Hj by lia. by eapply Hbefore.
Qed.

(** A sample other than the one a reader waits for leaves it waiting. *)
Lemma waiting_base r r' a a' seq :
  Reader.reader_wf kReaderWindow r -> Reader.received kReaderWindow kActions r r' a a' seq ->
  seq <> Reader.base_ r -> Reader.base_ r' = Reader.base_ r.
Proof.
  intros Hr Hrec Hne. pose proof (Reader.rc_base _ _ _ _ _ _ _ Hrec) as Hle.
  destruct (decide (Reader.base_ r' = Reader.base_ r)); [done|].
  pose proof (Reader.rc_got _ _ _ _ _ _ _ Hrec (Reader.base_ r)) as Hg.
  unfold Reader.got in Hg. rewrite (Reader.rw_base _ _ Hr), Z.ltb_irrefl in Hg.
  destruct (Z.eqb_spec (Reader.base_ r) seq); [by subst|].
  destruct (Z.ltb_spec (Reader.base_ r) (Reader.base_ r')); [done|lia].
Qed.

Lemma refusal_window r seq a :
  Reader.refusal kReaderWindow kActions r seq a = None ->
  seq < Reader.base_ r + kReaderWindow.
Proof.
  unfold Reader.refusal. destruct (negb _); [done|]. destruct (_ <? _); [done|].
  destruct (Z.leb_spec (Reader.base_ r + kReaderWindow) seq); [done|]. done.
Qed.

Lemma waiting_sample p base seq w :
  world_ok p w -> peer_ok local remote -> 0 <= slot -> waits base w ->
  past_gap base (sample_arrived seq) ->
  exists admitted w',
    admit_reliable slot generation local remote seq w = (Done (admitted, w') : outcome unit _) /\
    world_ok p w' /\ waits base w' /\ trace w' = trace w /\
    (admitted = true -> seq < base + kReaderWindow).
Proof.
  intros Hw Hpeer Hslot (l & Hf & Hi & Hv & Hb) [Hseq Hne].
  destruct (admit_reliable_ok (E:=unit) p slot generation local remote seq w Hw Hpeer Hslot Hseq)
    as ([admitted w'] & Heq & Hw').
  exists admitted, w'. split; [done|]. split; [done|].
  unfold admit_reliable, reader_link in Heq. rewrite Hf, Hi in Heq.
  rewrite (first_endpoint_sound _ _ (Sedp.es_unicast _ (pe_sound _ _ Hpeer))) in Heq.
  cbn [mbind outcome_bind negb andb orb] in Heq.
  match type of Heq with context [<[i := ?y]> _] => set (x := y) in * end.
  pose proof Hf as (Hli & Hof & _)%list_find_Some.
  rewrite list_lookup_insert_eq in Heq by (by eapply lookup_lt_Some).
  cbn [access mbind outcome_bind] in Heq.
  assert (reader_link_of slot generation local remote x = true) as Hx by exact Hof.
  pose proof (link_stored _ l x Hf Hx) as Hfx.
  pose proof (Forall_lookup_1 _ _ _ _ (do_links _ (no_readers _ _ (wd_net _ _ Hw))) Hli) as Hok.
  pose proof (Reader.on_data_cases kReaderWindow kActions ltac:(done) (rl_state l) seq _
    (rk_state _ Hok Hv) fresh_actions Hseq) as Hc.
  change (rl_state x) with (rl_state l) in Heq.
  destruct (Reader.refusal _ _ _ _ _) as [e|] eqn:Hr.
  - rewrite Hc in Heq. injection Heq as <- <-.
    split_and!; [by exists x|done|done].
  - destruct Hc as (s & a & Hon & Hs). rewrite Hon in Heq.
    injection Heq as _ <-. split_and!; [|done|].
    + exists (set_reader_state x s). cbn [set_readers net with_net reliable_readers_].
      split; [by apply (link_stored _ x)|]. split; [done|].
      destruct (Reader.rc_control _ _ _ _ _ _ _ Hs) as (_ & Hval & _).
      split; [cbn; congruence|]. cbn. rewrite <- Hb.
      exact (waiting_base _ _ _ _ _ (rk_state _ Hok Hv) Hs ltac:(congruence)).
    + intros _. rewrite <- Hb. by apply (refusal_window _ _ _ Hr).
Qed.

(** C22: once the writer has given up the number a reliable reader waits for (its repair
    failed, or KEEP_LAST overwrote it before it was queued), the reader never acknowledges
    anything again: whatever heartbeats and samples follow, no datagram is sent, the reader
    still waits for that number, and no sample numbered 256 or more after it is ever
    delivered.  The network thread drops the error [gap_not_repairable] and has no other way
    past the gap. *)
Theorem unrepairable_gap_stalls p base events w :
  world_ok p w -> peer_ok local remote -> 0 <= slot -> waits base w ->
  Forall (past_gap base) events ->
  exists numbers w', follow events w = Done (numbers, w') /\ trace w' = trace w /\
    waits base w' /\ Forall (fun n => n < base + 256) numbers.
Proof.
  revert w. change 256 with kReaderWindow.
  induction events as [|[hb|seq] events IH]; intros w Hw Hpeer Hslot Hwait Hall.
  - exists [], w. done.
  - apply Forall_cons in Hall as [Hgap Hall]. destruct Hwait as (l & Hf & Hi & Hv & Hb).
    cbn [follow]. rewrite (gap_unanswered i l hb w); [| |by rewrite Hb].
    + apply IH; [done..| |done]. by exists l.
    + by apply list_find_Some in Hf as [? _].
  - apply Forall_cons in Hall as [Hgap Hall].
    destruct (waiting_sample p base seq w Hw Hpeer Hslot Hwait Hgap)
      as (admitted & w1 & Heq & Hw1 & Hwait1 & Ht1 & Had).
    destruct (IH w1 Hw1 Hpeer Hslot Hwait1 Hall) as (numbers & w2 & Heq2 & Ht2 & Hwait2 & Hn).
    cbn [follow]. rewrite Heq. cbn [mbind outcome_bind]. rewrite Heq2. cbn [mbind outcome_bind].
    eexists _, w2. split; [done|]. split_and!; [congruence|done|].
    apply Forall_app. split; [|done]. destruct admitted; [|done]. constructor; [auto|done].
Qed.

End Link.

End Runtime.

(** ** A participant with a publisher *)

Import SampleTypes SampleEndpoints.

Definition sample_slot : PublisherSlot :=
  {| ps_data := Some (sample_writer TypeSupport.topic); ps_generation := 1;
     ps_occupied := true |}.

(** A context with the given prefix and registry of publishers. *)
Definition sample_context (p : GuidPrefix) (slots : list PublisherSlot) : Context_ :=
  {| actual_domain_id := 3; participant_prefix := p; participant_id := 0; metadata_port := 8160;
     user_port := 8161; graph := Graph.GraphCache_new; publishers := slots;
     subscriptions := replicate 8 {| ss_data := None; ss_generation := 0; ss_occupied := false |};
     shutdown := false |}.

Definition free_slots (n : nat) : list PublisherSlot :=
  replicate n {| ps_data := None; ps_generation := 0; ps_occupied := false |}.

Lemma sample_fresh p : fresh_context (sample_context p (free_slots 8)).
Proof.
  split; [apply GraphSync.new_ok| |]; (split; [done|]; by apply Forall_replicate).
Qed.

Lemma sample_publisher_ok : publisher_ok writer_prefix (sample_writer TypeSupport.topic).
Proof.
  destruct (PublisherFacts.sample_publishes TypeSupport.topic) as (Hq & _ & _ & _ & Hp & _).
  split; [exists []; exact Hq| |vm_compute; split; discriminate|exact Hp].
  assert (Publisher.names (Publisher.setup (sample_writer TypeSupport.topic)) = sample_names) as ->
    by (by vm_compute).
  split.
  - split; [done|]. eexists (removelast (text "rt/chatter")), []. split; [by vm_compute|].
    apply (bool_decide_unpack _). by vm_compute.
  - split; [done|]. eexists (removelast (text "codec_msgs::msg::dds_::Bounded_")), [].
    split; [by vm_compute|]. apply (bool_decide_unpack _). by vm_compute.
Qed.

Definition sample_world (slots : list PublisherSlot) : World :=
  {| net := NetworkRuntime_init; context := sample_context writer_prefix slots; trace := [] |}.

Lemma sample_world_ok slots :
  zlen slots = 8 -> Forall (publisher_slot_ok writer_prefix) slots ->
  world_ok writer_prefix (sample_world slots).
Proof.
  intros H8 Hs. split; [apply net_init| |constructor].
  split; [done|done|apply GraphSync.new_ok|done|].
  split; [done|]. apply Forall_replicate. by intros d Hd.
Qed.

(** ** Witnesses *)

Definition sample_sockets : Sockets :=
  {| multicast_ready _ := true; metadata_bound _ := true; user_bound _ := true |}.

Definition sample_started (process : Z) : World :=
  match initialize sample_sockets process (start_of (sample_context writer_prefix (free_slots 8)))
    : outcome unit _ with
  | Done (Some w) => w
  | _ => sample_world (free_slots 8)
  end.

Lemma sample_initialize process :
  0 <= process < 2 -> initialize sample_sockets process
    (start_of (sample_context writer_prefix (free_slots 8))) =
    (Done (Some (sample_started process)) : outcome unit _).
Proof.
  intros Hp. unfold sample_started.
  assert (process = 0 \/ process = 1) as [-> | ->] by lia.
  all: destruct (initialize _ _ _) as [|e|[w|]] eqn:Hi; [..|done|];
    apply (f_equal (fun o : outcome unit (option World) =>
      match o with Done (Some _) => true | _ => false end)) in Hi;
    vm_compute in Hi; discriminate Hi.
Qed.

Definition sample_input : Input :=
  {| now := 5; multicast_input := [datagram_received [82; 84]; receive_failed];
     metadata_input := [would_block]; user_input := [(datagram_received [82], Some (1, 0))] |}.

Lemma sample_input_ok : input_ok sample_input.
Proof.
  assert (datagram_ok [82; 84] /\ datagram_ok [82]) as [H1 H2]
    by (split; split; [repeat constructor; done|done|repeat constructor; done|done]).
  split; cbn.
  - lia.
  - intros d [[= ->]|[|[]%not_elem_of_nil]%elem_of_cons]%elem_of_cons; done.
  - intros d [|[]%not_elem_of_nil]%elem_of_cons. done.
  - intros d clock [[= -> ->]|[]%not_elem_of_nil]%elem_of_cons. done.
Qed.

Lemma network_thread_safe_witness :
  let w := sample_started 1 in
  let p := participant_prefix (context w) in
  exists w' next', run_once sample_input 0 w = (Done (w', next') : outcome unit _) /\
    world_ok p w' /\
    forall destination d, Sent user_socket_ destination d ∈ trace w' -> message_of p d.
Proof.
  intros w p. apply (network_thread_safe p w sample_input 0); [|apply sample_input_ok].
  eapply started_at; [apply (sample_fresh writer_prefix)|by apply sample_initialize|done].
Defined.

Lemma participant_discovered_witness :
  exists b' x, handle_discovery 7 (announcement (net (sample_started 1))) (sample_started 0) =
      (Done b' : outcome unit _) /\
    contents (participants_ (net b')) !! participant_prefix (context (sample_started 1)) =
      Some {| rp_data := x; rp_last_seen_ns := 7; rp_occupied := true |} /\
    first_endpoint (Spdp.metatraffic_unicast x) =
      (Done (Some {| ep_address := [127; 0; 0; 1]; ep_port := 8160 |}) : outcome unit _).
Proof.
  assert (reachable (participant_prefix (context (sample_started 0))) (sample_started 0)) as Hb.
  { eapply started_at; [apply (sample_fresh writer_prefix)|by apply sample_initialize|done]. }
  destruct (participant_discovered sample_sockets 1 (sample_context writer_prefix (free_slots 8))
    (sample_started 1) _ (sample_started 0) 7 RemoteParticipant_default
    (sample_fresh writer_prefix) (sample_initialize 1 ltac:(lia)) (reachable_ok _ _ Hb))
    as (b' & x & Heq & _ & Hc & He & _).
  - by vm_compute.
  - by vm_compute.
  - assert (participants_ (net (sample_started 0)) = replicate 16 RemoteParticipant_default) as ->
      by (by vm_compute).
    by apply elem_of_replicate.
  - done.
  - exists b', x. split; [exact Heq|]. split; [exact Hc|]. rewrite He. by vm_compute.
Defined.

(** A remote participant with a reader of the publisher's topic. *)
Definition sample_participant : RemoteParticipant :=
  let l := filled 4 [Sedp.demo_locator] in
  {| rp_data := Spdp.received (Spdp.participant
       (spdp_config (sample_context reader_prefix []) (replicate 64 0) l l l));
     rp_last_seen_ns := 1; rp_occupied := true |}.

Definition padded_name (s : string) : list Z :=
  removelast (text s) ++ replicate (256 - length (removelast (text s))) 0.

Definition sample_remote (k : Sedp.EndpointKind) : RemoteEndpoint :=
  {| re_data :=
       {| Sedp.protocol_version := ProtocolVersion_default; Sedp.vendor_id := [1; 66];
          Sedp.participant_guid_prefix := reader_prefix;
          Sedp.endpoint_id :=
            [0; 0; 9; match k with Sedp.writer => 3 | Sedp.reader => 4 end];
          Sedp.kind := k;
          Sedp.topic_name := padded_name "rt/chatter"; Sedp.topic_name_size := 10;
          Sedp.type_name := padded_name "codec_msgs::msg::dds_::Bounded_";
          Sedp.type_name_size := 31;
          Sedp.unicast_locators := filled 4 [Sedp.demo_locator];
          Sedp.multicast_locators := filled 4 []; Sedp.reliability := Sedp.reliable;
          Sedp.durability := Sedp.volatile_durability; Sedp.max_blocking_time_ns := 0;
          Sedp.expects_inline_qos := false |};
     re_last_seen_ns := 1; re_occupied := true |}.

Lemma sample_remote_sound k : Sedp.endpoint_sound (re_data (sample_remote k)).
Proof.
  split.
  - by apply sound_one.
  - split; [by apply (filled_wf 4 []); cbn; lia|constructor].
  - split; [done|]. split; [done|]. apply (bool_decide_unpack _). by vm_compute.
  - split; [done|]. split; [done|]. apply (bool_decide_unpack _). by vm_compute.
  - done.
  - done.
  - cbn. lia.
  - by destruct k.
Qed.

Definition matched_world : World :=
  set_endpoints (<[0%nat := sample_remote Sedp.reader]> (endpoints_ NetworkRuntime_init))
    (set_participants (<[0%nat := sample_participant]> (participants_ NetworkRuntime_init))
       (sample_world (sample_slot :: free_slots 7))).

Lemma matched_world_ok : world_ok writer_prefix matched_world.
Proof.
  assert (world_ok writer_prefix (sample_world (sample_slot :: free_slots 7))) as Hw.
  { apply sample_world_ok; [done|]. constructor; [|apply Forall_replicate; by intros d Hd].
    intros d Hd. apply (inj Some) in Hd as <-. apply sample_publisher_ok. }
  assert (remotes_ok writer_prefix
    (<[0%nat := sample_participant]> (participants_ NetworkRuntime_init))
    (endpoints_ NetworkRuntime_init)) as Hr.
  { apply participant_stored; [apply remotes_init|by vm_compute|done| |by vm_compute].
    intros _. by apply received_sound. }
  apply set_endpoints_ok; [by apply set_participants_ok|].
  apply endpoint_stored; [exact Hr|by vm_compute|done|intros _; split; [|done]|].
  - apply sample_remote_sound.
  - apply contents_some. exists sample_participant. split; [|done].
    apply list_elem_of_lookup. by exists 0%nat.
Qed.

(** The publisher has one matched reader and an event is raised for it. *)
Lemma matches_exact_witness :
  exists w' d', recompute_matches matched_world = (Done w' : outcome unit World) /\
    publishers (context w') !! 0%nat = Some (set_publisher_data sample_slot d') /\
    Endpoint.matched (Publisher.match_status d') = 1 /\
    EventsNotified (publisher_source 0) 1 ∈ trace w'.
Proof.
  destruct (matches_exact writer_prefix matched_world matched_world_ok)
    as (w' & events & Heq & _ & _ & Ht & Hp & _).
  destruct (Hp 0%nat sample_slot (sample_writer TypeSupport.topic)) as [(d' & Hd & Hm) He];
    [reflexivity..|].
  exists w', d'. split; [exact Heq|]. split; [exact Hd|]. split.
  - rewrite Hm. vm_compute. reflexivity.
  - rewrite Ht. apply elem_of_app. right. apply He. split; [vm_compute; reflexivity|done].
Defined.

(** A subscription's link to the remote writer, waiting for the sample 1. *)
Definition sample_view : NetworkEndpointView :=
  {| descriptor := {| Sedp.local_kind := Sedp.reader; Sedp.local_topic_name := Some [114; 0];
       Sedp.local_topic_name_size := 1; Sedp.local_type_name := Some [73; 0];
       Sedp.local_type_name_size := 1; Sedp.local_reliability := Sedp.reliable;
       Sedp.local_durability := Sedp.volatile_durability |};
     entity_id := [0; 0; 1; 4]; view_sedp := []; view_sedp_size := 0 |}.

Definition sample_link : ReliableReaderLink :=
  {| rl_state := Reader.ReliableReader_new kReaderWindow
       (reader_link_config sample_view (sample_remote Sedp.writer) 1);
     rl_remote_prefix := reader_prefix; rl_remote_writer := [0; 0; 9; 3];
     rl_local_reader := [0; 0; 1; 4];
     rl_destination := {| ep_address := [10; 0; 0; 9]; ep_port := 7411 |};
     rl_local_slot := 0; rl_local_generation := 1; rl_initialized := true;
     rl_occupied := true |}.

Definition linked_world : World :=
  set_readers (<[0%nat := sample_link]> (reliable_readers_ NetworkRuntime_init))
    (sample_world (free_slots 8)).

Lemma linked_world_ok : world_ok writer_prefix linked_world.
Proof.
  assert (world_ok writer_prefix (sample_world (free_slots 8))) as Hw.
  { apply sample_world_ok; [done|]. apply Forall_replicate. by intros d Hd. }
  apply set_readers_ok; [done|]. apply readers_store.
  - exact (no_readers _ _ (wd_net _ _ Hw)).
  - split; try done. intros _. apply reader_new_ok; [cbn; lia|done].
  - apply (bool_decide_unpack _). by vm_compute.
Qed.

Definition sample_heartbeat (first last count : Z) : RelMsg.HeartbeatView :=
  {| RelMsg.hb_header := control_header (sample_context reader_prefix []);
     RelMsg.hb_reader_id := [0; 0; 1; 4]; RelMsg.hb_writer_id := [0; 0; 9; 3];
     RelMsg.hb_first := first; RelMsg.hb_last := last; RelMsg.hb_count := count;
     RelMsg.hb_final_flag := false; RelMsg.hb_liveliness_flag := false |}.

(** A heartbeat for the samples 1 to 3 is answered with a request for these three. *)
Lemma heartbeat_answered_witness :
  exists w' d ack, answer_heartbeat 0 (sample_heartbeat 1 3 1) linked_world =
      (Done w' : outcome unit World) /\
    trace w' = [Sent user_socket_ {| ep_address := [10; 0; 0; 9]; ep_port := 7411 |} d] /\
    RelMsg.parse_acknack_body (Some d) (zlen d) = Done ack /\
    RelMsg.sns_bit (RelMsg.an_reader_state ack) <$> [0; 1; 2; 3] = [true; true; true; false].
Proof.
  destruct (heartbeat_answered writer_prefix 0 sample_link (sample_heartbeat 1 3 1) linked_world)
    as (w' & d & ack & Heq & _ & Ht & Hp & _ & _ & _ & _ & Hb).
  - exact linked_world_ok.
  - reflexivity.
  - reflexivity.
  - split; [reflexivity|reflexivity|reflexivity|discriminate|]. cbn. lia.
  - exists w', d, ack. split; [exact Heq|]. split; [exact Ht|]. split; [exact Hp|].
    cbn [fmap list_fmap]. rewrite !Hb by lia. vm_compute. reflexivity.
Defined.

(** The writer has given up the sample 1: the heartbeats are not answered, and of the
    samples 2, 3 and 257 only the first two are delivered. *)
Lemma unrepairable_gap_stalls_witness :
  exists numbers w', follow 0 1 sample_view (sample_remote Sedp.writer) 0
      [heard (sample_heartbeat 2 2 1); sample_arrived 2; heard (sample_heartbeat 3 3 2);
       sample_arrived 3; heard (sample_heartbeat 257 257 3); sample_arrived 257]
      linked_world = Done (numbers, w') /\
    trace w' = [] /\ Forall (fun n => n < 257) numbers.
Proof.
  destruct (unrepairable_gap_stalls 0 1 sample_view (sample_remote Sedp.writer) 0 writer_prefix 1
    [heard (sample_heartbeat 2 2 1); sample_arrived 2; heard (sample_heartbeat 3 3 2);
     sample_arrived 3; heard (sample_heartbeat 257 257 3); sample_arrived 257] linked_world)
    as (numbers & w' & Heq & Ht & _ & Hn).
  - exact linked_world_ok.
  - split; [apply sample_remote_sound|done|done].
  - lia.
  - exists sample_link. split; [vm_compute; reflexivity|done].
  - repeat constructor; cbn; lia.
  - exists numbers, w'. split; [exact Heq|]. split; [exact Ht|exact Hn].
Defined.

End NetworkTheorems.
