(* ===== verification/Events.v ===== *)
(** * Matched events of the ROS binding

    [rmw_openrtdds_cpp/src/events.cpp] with the endpoint status it reads
    ([publisher_matched_status] and its twin): a context has 16 event slots, an event object
    remembers what its last take reported, and an endpoint that disappears or changes its
    match count is seen through a pointer.

    The events and the endpoints of a context are objects in memory: a store maps addresses
    to them, and the deallocation of an object removes its address, so that reading through
    a pointer to it is a [Fault].  [EndpointObject] has the members of [PublisherData] and
    [SubscriptionData] that this file's code reads.  There is one context; the allocator's
    answers are arguments.  Operations are atomic under their locks. *)
From stdpp Require Import gmap.
From S2P Require Import Prelude Types Bytes Endpoint.

Module Events.
Import Endpoint.

Definition kEventCapacity : Z := 16.
Definition kEndpointCapacity : Z := 8.

(** ** State *)

(** [PublisherSlot], [SubscriptionSlot] and [EventSlot] *)
Record RegistrySlot : Set := {
  sl_data : option Z;
  sl_generation : Z;
  sl_occupied : bool;
}.

(** [eo_context] is [node->context], [None] when a pointer on the way is null. *)
Record EndpointObject : Set := {
  eo_context : option Z;
  eo_slot_index : Z;
  eo_slot_generation : Z;
  eo_status : MatchStatus;
}.

Inductive EventSource : Set := publisher | subscription.

#[global] Instance EventSource_eq_dec : EqDecision EventSource.
Proof. solve_decision. Defined.

(** [rmw_event_type_t]; the binding distinguishes two of them. *)
Inductive rmw_event_type_t : Set :=
  | RMW_EVENT_PUBLICATION_MATCHED
  | RMW_EVENT_SUBSCRIPTION_MATCHED
  | RMW_EVENT_INVALID
  | other_event (value : Z).

#[global] Instance rmw_event_type_eq_dec : EqDecision rmw_event_type_t.
Proof. solve_decision. Defined.

Record EventData : Set := {
  ed_context : option Z;
  ed_source : option Z;
  ed_source_kind : EventSource;
  ed_type : rmw_event_type_t;
  ed_slot_index : Z;
  ed_slot_generation : Z;
  ed_last_total_count : Z;
  ed_last_current_count : Z;
  ed_last_generation : Z;
  ed_callback : option Z;
  ed_callback_user_data : option Z;
}.

(** A context with its registries, and the objects in memory. *)
Record Store : Type := {
  context : Z;
  publisher_slots : list RegistrySlot;
  subscription_slots : list RegistrySlot;
  event_slots : list RegistrySlot;
  publisher_objects : gmap Z EndpointObject;
  subscription_objects : gmap Z EndpointObject;
  event_objects : gmap Z EventData;
}.

Definition with_events (s : Store) (slots : list RegistrySlot) (objects : gmap Z EventData)
    : Store :=
  {| context := context s; publisher_slots := publisher_slots s;
     subscription_slots := subscription_slots s; event_slots := slots;
     publisher_objects := publisher_objects s;
     subscription_objects := subscription_objects s; event_objects := objects |}.

(** Whether an implementation identifier is a null pointer, the binding's or another. *)
Inductive Identifier : Set := null_identifier | openrtdds | foreign.

#[global] Instance Identifier_eq_dec : EqDecision Identifier.
Proof. solve_decision. Defined.

Definition identifier_matches (i : Identifier) : bool := bool_decide (i = openrtdds).

(** [rmw_event_t]; [rmw_publisher_t] and [rmw_subscription_t] as far as they are used. *)
Record rmw_event_t : Set := {
  ev_identifier : Identifier;
  ev_data : option Z;
  ev_type : rmw_event_type_t;
}.

Definition rmw_get_zero_initialized_event : rmw_event_t :=
  {| ev_identifier := null_identifier; ev_data := None; ev_type := RMW_EVENT_INVALID |}.

Record EndpointHandle : Set := {
  eh_identifier : Identifier;
  eh_data : option Z;
}.

(** [MatchedStatusSnapshot] *)
Record MatchedStatusSnapshot : Set := {
  total_count : Z;
  current_count : Z;
  generation : Z;
}.

(** [rmw_matched_status_t] *)
Record rmw_matched_status_t : Set := {
  st_total_count : Z;
  st_total_count_change : Z;
  st_current_count : Z;
  st_current_count_change : Z;
}.

Definition context_is_valid (s : Store) (c : option Z) : bool := bool_decide (c = Some (context s)).

Definition release_slot (slot : RegistrySlot) : RegistrySlot :=
  {| sl_data := None;
     sl_generation := (let g := add32 (sl_generation slot) 1 in if g =? 0 then 1 else g);
     sl_occupied := false |}.

(** ** Endpoints *)

Definition slots_of (k : EventSource) (s : Store) : list RegistrySlot :=
  match k with publisher => publisher_slots s | subscription => subscription_slots s end.

Definition objects_of (k : EventSource) (s : Store) : gmap Z EndpointObject :=
  match k with publisher => publisher_objects s | subscription => subscription_objects s end.

(** The check of a registry slot against the object at [p]. *)
Definition slot_holds {E} (slots : list RegistrySlot) (index gen p : Z) : outcome E bool :=
  slot ← access (mload slots index);
  Done (sl_occupied slot && bool_decide (sl_data slot = Some p) && (sl_generation slot =? gen)).

Definition snapshot_of (o : EndpointObject) : MatchedStatusSnapshot :=
  {| total_count := total_matched (eo_status o); current_count := matched (eo_status o);
     generation := match_generation (eo_status o) |}.

(** The body of [publisher_matched_status] and [subscription_matched_status]: [None] is
    [false]. *)
Definition matched_status {E} (k : EventSource) (s : Store) (source ctx : option Z)
    : outcome E (option MatchedStatusSnapshot) :=
  match source with
  | None => Done None
  | Some p =>
      if negb (context_is_valid s ctx) then Done None
      else
        o ← access (objects_of k s !! p);
        if kEndpointCapacity <=? eo_slot_index o then Done None
        else
          held ← slot_holds (slots_of k s) (eo_slot_index o) (eo_slot_generation o) p;
          Done (if (held : bool) then Some (snapshot_of o) else None)
  end.

Definition publisher_matched_status {E} (s : Store) (source ctx : option Z)
    : outcome E (option MatchedStatusSnapshot) := matched_status publisher s source ctx.
Definition subscription_matched_status {E} (s : Store) (source ctx : option Z)
    : outcome E (option MatchedStatusSnapshot) := matched_status subscription s source ctx.

(** [valid_publisher] and [valid_subscription]: the address of the endpoint, [None] for
    [false]. *)
Definition valid_endpoint {E} (k : EventSource) (s : Store) (h : EndpointHandle)
    : outcome E (option Z) :=
  match eh_data h with
  | None => Done None
  | Some p =>
      if negb (identifier_matches (eh_identifier h)) then Done None
      else
        o ← access (objects_of k s !! p);
        if negb (context_is_valid s (eo_context o)) || (kEndpointCapacity <=? eo_slot_index o)
        then Done None
        else
          held ← slot_holds (slots_of k s) (eo_slot_index o) (eo_slot_generation o) p;
          Done (if (held : bool) then Some p else None)
  end.

(** [publisher_event_source], [subscription_event_source]: the context, the source and the
    status of a valid endpoint. *)
Definition event_source {E} (k : EventSource) (s : Store) (h : EndpointHandle)
    : outcome E (option (option Z * Z * MatchedStatusSnapshot)) :=
  data ← valid_endpoint k s h;
  match data with
  | None => Done None
  | Some p =>
      o ← access (objects_of k s !! p);
      Done (Some (eo_context o, p, snapshot_of o))
  end.

Definition publisher_event_source {E} (s : Store) (h : EndpointHandle)
    : outcome E (option (option Z * Z * MatchedStatusSnapshot)) := event_source publisher s h.
Definition subscription_event_source {E} (s : Store) (h : EndpointHandle)
    : outcome E (option (option Z * Z * MatchedStatusSnapshot)) := event_source subscription s h.

(** ** Events *)

(** [valid_event_data]: the object, [None] for [false]. *)
Definition valid_event_data {E} (s : Store) (opaque ctx : option Z)
    : outcome E (option (Z * EventData)) :=
  match opaque with
  | None => Done None
  | Some p =>
      if negb (context_is_valid s ctx) then Done None
      else
        candidate ← access (event_objects s !! p);
        if bool_decide (ed_context candidate <> ctx) || (kEventCapacity <=? ed_slot_index candidate)
        then Done None
        else
          held ← slot_holds (event_slots s) (ed_slot_index candidate)
                   (ed_slot_generation candidate) p;
          Done (if (held : bool) then Some (p, candidate) else None)
  end.

Definition snapshot {E} (s : Store) (d : EventData) : outcome E (option MatchedStatusSnapshot) :=
  match ed_source_kind d with
  | publisher => publisher_matched_status s (ed_source d) (ed_context d)
  | subscription => subscription_matched_status s (ed_source d) (ed_context d)
  end.

(** The loop over the slots: the first free one. *)
Fixpoint first_free (index : Z) (l : list RegistrySlot) : option Z :=
  match l with
  | [] => None
  | slot :: l' => if negb (sl_occupied slot) then Some index else first_free (index + 1) l'
  end.

(** [initialize_event]; [storage] is the allocator's answer.  The status at creation is not
    used. *)
Definition initialize_event (s : Store) (event : rmw_event_t) (ctx : option Z) (source : Z) (kind : EventSource)
    (type : rmw_event_type_t) (storage : option Z)
    : outcome (rmw_ret_t * Store) (rmw_event_t * Store) :=
  if bool_decide (ev_identifier event <> null_identifier) || bool_decide (ev_data event <> None)
  then Stop (RMW_RET_INVALID_ARGUMENT, s)
  else match first_free 0 (event_slots s) with
  | None => Stop (RMW_RET_BAD_ALLOC, s)
  | Some slot_index =>
      slot ← access (mload (event_slots s) slot_index);
      match storage with
      | None =>
          slots ← access (mstore (event_slots s) slot_index (release_slot slot));
          Stop (RMW_RET_BAD_ALLOC, with_events s slots (event_objects s))
      | Some p =>
          let d := {| ed_context := ctx; ed_source := Some source;
                      ed_source_kind := kind; ed_type := type; ed_slot_index := slot_index;
                      ed_slot_generation := sl_generation slot; ed_last_total_count := 0;
                      ed_last_current_count := 0; ed_last_generation := 0;
                      ed_callback := None; ed_callback_user_data := None |} in
          slots ← access (mstore (event_slots s) slot_index
                    {| sl_data := Some p; sl_generation := sl_generation slot;
                       sl_occupied := true |});
          Done ({| ev_identifier := openrtdds; ev_data := Some p; ev_type := type |},
                with_events s slots (<[p := d]> (event_objects s)))
      end
  end.

(** [rmw_publisher_event_init] and [rmw_subscription_event_init] *)
Definition event_init (k : EventSource) (s : Store) (event : option rmw_event_t)
    (endpoint : option EndpointHandle) (type : rmw_event_type_t) (storage : option Z)
    : outcome (rmw_ret_t * Store) (rmw_event_t * Store) :=
  match event, endpoint with
  | Some event, Some h =>
      let supported :=
        match k with
        | publisher => RMW_EVENT_PUBLICATION_MATCHED
        | subscription => RMW_EVENT_SUBSCRIPTION_MATCHED
        end in
      if bool_decide (type <> supported) then Stop (RMW_RET_UNSUPPORTED, s)
      else
        source ← match k with
                 | publisher => publisher_event_source s h
                 | subscription => subscription_event_source s h
                 end;
        match source with
        | None => Stop (RMW_RET_INVALID_ARGUMENT, s)
        | Some (ctx, p, _) => initialize_event s event ctx p k type storage
        end
  | _, _ => Stop (RMW_RET_INVALID_ARGUMENT, s)
  end.

Definition rmw_publisher_event_init := event_init publisher.
Definition rmw_subscription_event_init := event_init subscription.

Definition event_wait_data_valid {E} (s : Store) (opaque ctx : option Z) : outcome E bool :=
  data ← valid_event_data s opaque ctx;
  Done (bool_decide (data <> None)).

Definition event_wait_ready {E} (s : Store) (opaque : option Z) : outcome E bool :=
  match opaque with
  | None => Done false
  | Some p =>
      candidate ← access (event_objects s !! p);
      if negb (context_is_valid s (ed_context candidate)) then Done false
      else
        data ← valid_event_data s opaque (ed_context candidate);
        match data with
        | None => Done false
        | Some (_, d) =>
            value ← snapshot s d;
            Done (match value with
                  | Some v => negb (generation v =? ed_last_generation d)
                  | None => false
                  end)
        end
  end.

(** [static_cast<std::int32_t>(a) - static_cast<std::int32_t>(b)], undefined on overflow. *)
Definition int32_difference {E} (a b : Z) : outcome E Z :=
  let d := i32_of_bits (u32 a) - i32_of_bits (u32 b) in
  if (- 2 ^ 31 <=? d) && (d <? 2 ^ 31) then Done d else Fault.

Definition taken_event (d : EventData) (v : MatchedStatusSnapshot) : EventData :=
  {| ed_context := ed_context d; ed_source := ed_source d; ed_source_kind := ed_source_kind d;
     ed_type := ed_type d; ed_slot_index := ed_slot_index d;
     ed_slot_generation := ed_slot_generation d; ed_last_total_count := total_count v;
     ed_last_current_count := current_count v; ed_last_generation := generation v;
     ed_callback := ed_callback d; ed_callback_user_data := ed_callback_user_data d |}.

(** [rmw_take_event]: [*taken] with what is written to [*event_info]. *)
Definition rmw_take_event (s : Store) (event_handle : option rmw_event_t)
    (has_info has_taken : bool)
    : outcome rmw_ret_t (option rmw_matched_status_t * Store) :=
  match event_handle with
  | None => Stop RMW_RET_INVALID_ARGUMENT
  | Some event =>
      stop_if (negb has_info || negb has_taken) RMW_RET_INVALID_ARGUMENT;;
      stop_if (negb (identifier_matches (ev_identifier event)) ||
               bool_decide (ev_data event = None)) RMW_RET_INVALID_ARGUMENT;;
      p ← access (ev_data event);
      candidate ← access (event_objects s !! p);
      stop_if (bool_decide (ev_type event <> ed_type candidate)) RMW_RET_INVALID_ARGUMENT;;
      data ← valid_event_data s (Some p) (ed_context candidate);
      match data with
      | None => Stop RMW_RET_INVALID_ARGUMENT
      | Some (p, d) =>
          value ← snapshot s d;
          match value with
          | None => Stop RMW_RET_INVALID_ARGUMENT
          | Some v =>
              if generation v =? ed_last_generation d then Done (None, s)
              else
                change ← int32_difference (current_count v) (ed_last_current_count d);
                Done (Some {| st_total_count := total_count v;
                              st_total_count_change :=
                                sub64 (total_count v) (ed_last_total_count d);
                              st_current_count := current_count v;
                              st_current_count_change := change |},
                      with_events s (event_slots s)
                        (<[p := taken_event d v]> (event_objects s)))
          end
      end
  end.

Definition rmw_event_fini (s : Store) (event : option rmw_event_t)
    : outcome rmw_ret_t (rmw_event_t * Store) :=
  match event with
  | None => Stop RMW_RET_INVALID_ARGUMENT
  | Some event =>
      stop_if (bool_decide (ev_identifier event <> null_identifier) &&
               negb (identifier_matches (ev_identifier event)))
        RMW_RET_INCORRECT_RMW_IMPLEMENTATION;;
      stop_if (bool_decide (ev_data event = None) ||
               negb (identifier_matches (ev_identifier event))) RMW_RET_INVALID_ARGUMENT;;
      p ← access (ev_data event);
      candidate ← access (event_objects s !! p);
      data ← valid_event_data s (Some p) (ed_context candidate);
      match data with
      | None => Stop RMW_RET_INVALID_ARGUMENT
      | Some (p, d) =>
          slot ← access (mload (event_slots s) (ed_slot_index d));
          slots ← access (mstore (event_slots s) (ed_slot_index d) (release_slot slot));
          Done (rmw_get_zero_initialized_event,
                with_events s slots (delete p (event_objects s)))
      end
  end.

Definition called_back (d : EventData) (callback user_data : option Z) : EventData :=
  {| ed_context := ed_context d; ed_source := ed_source d; ed_source_kind := ed_source_kind d;
     ed_type := ed_type d; ed_slot_index := ed_slot_index d;
     ed_slot_generation := ed_slot_generation d;
     ed_last_total_count := ed_last_total_count d;
     ed_last_current_count := ed_last_current_count d;
     ed_last_generation := ed_last_generation d; ed_callback := callback;
     ed_callback_user_data := match callback with None => None | Some _ => user_data end |}.

Definition rmw_event_set_callback (s : Store) (event : option rmw_event_t)
    (callback user_data : option Z) : outcome rmw_ret_t Store :=
  match event with
  | None => Stop RMW_RET_INVALID_ARGUMENT
  | Some event =>
      stop_if (negb (identifier_matches (ev_identifier event)) ||
               bool_decide (ev_data event = None)) RMW_RET_INVALID_ARGUMENT;;
      p ← access (ev_data event);
      candidate ← access (event_objects s !! p);
      data ← valid_event_data s (Some p) (ed_context candidate);
      match data with
      | None => Stop RMW_RET_INVALID_ARGUMENT
      | Some (p, d) =>
          Done (with_events s (event_slots s)
                  (<[p := called_back d callback user_data]> (event_objects s)))
      end
  end.

Definition rmw_event_type_is_supported (type : rmw_event_type_t) : bool :=
  bool_decide (type = RMW_EVENT_PUBLICATION_MATCHED) ||
  bool_decide (type = RMW_EVENT_SUBSCRIPTION_MATCHED).

(** A call of a callback: the function, its user data and [number_of_events]. *)
Definition Call : Set := Z * option Z * Z.

(** The loop of [notify_event_source]; [callbacks] has [kEventCapacity] entries. *)
Definition collect {E} (s : Store) (source : Z) (number_of_events : Z) (slot : RegistrySlot)
    (callbacks : list Call) : outcome E (list Call) :=
  match sl_data slot with
  | Some p =>
      if negb (sl_occupied slot) then Done callbacks
      else
        d ← access (event_objects s !! p);
        if bool_decide (ed_source d <> Some source) then Done callbacks
        else match ed_callback d with
        | Some f =>
            if zlen callbacks <? kEventCapacity
            then Done (callbacks ++ [(f, ed_callback_user_data d, number_of_events)])
            else Fault
        | None => Done callbacks
        end
  | None => Done callbacks
  end.

(** [notify_event_source]: the calls it makes. *)
Definition notify_event_source {E} (s : Store) (ctx source : option Z) (number_of_events : Z)
    : outcome E (list Call) :=
  match source with
  | None => Done []
  | Some p =>
      if negb (context_is_valid s ctx) || (number_of_events =? 0) then Done []
      else for_each (collect s p number_of_events) (event_slots s) []
  end.

(** ** Changes of the endpoints *)

Definition with_endpoints (s : Store) (k : EventSource) (slots : list RegistrySlot)
    (objects : gmap Z EndpointObject) : Store :=
  {| context := context s;
     publisher_slots := match k with publisher => slots | _ => publisher_slots s end;
     subscription_slots := match k with subscription => slots | _ => subscription_slots s end;
     event_slots := event_slots s;
     publisher_objects := match k with publisher => objects | _ => publisher_objects s end;
     subscription_objects :=
       match k with subscription => objects | _ => subscription_objects s end;
     event_objects := event_objects s |}.

(** [publisher_network_set_match_count] and its twin on the object at [p]. *)
Definition set_count {E} (k : EventSource) (s : Store) (p count : Z) : outcome E (Z * Store) :=
  o ← access (objects_of k s !! p);
  let '(transitions, status) := set_match_count count (eo_status o) in
  Done (transitions,
        with_endpoints s k (slots_of k s)
          (<[p := {| eo_context := eo_context o; eo_slot_index := eo_slot_index o;
                     eo_slot_generation := eo_slot_generation o;
                     eo_status := status |}]> (objects_of k s))).

(** The end of [rmw_destroy_publisher] and [rmw_destroy_subscription]: the slot is released
    and the object deallocated. *)
Definition destroy_endpoint {E} (k : EventSource) (s : Store) (p : Z) : outcome E Store :=
  o ← access (objects_of k s !! p);
  slot ← access (mload (slots_of k s) (eo_slot_index o));
  slots ← access (mstore (slots_of k s) (eo_slot_index o) (release_slot slot));
  Done (with_endpoints s k slots (delete p (objects_of k s))).

End Events.
