(* ===== verification/EventsTheorems.v ===== *)
(** * What the matched events report

    Over any changes of an endpoint's match count, the reports of an event add up to the
    count; a change calls the callbacks of the endpoint's events, each once; and an event
    that outlives its endpoint reads freed memory. *)
From stdpp Require Import gmap.
From S2P Require Import Prelude Types Bytes Endpoint Events EventsFacts.

Module EventsTheorems.
Import Endpoint Events EventsFacts.

(** ** An event and its endpoint *)

Record watches (s : Store) (event : rmw_event_t) (k : EventSource) (q p : Z) (d : EventData)
    (o : EndpointObject) : Prop := {
  w_events : events_ok s;
  w_object : event_objects s !! p = Some d;
  w_source : ed_source d = Some q;
  w_kind : ed_source_kind d = k;
  w_handle : event = {| ev_identifier := openrtdds; ev_data := Some p; ev_type := ed_type d |};
  w_live : live_source s k q o;
}.







(** ** A change of the count *)




(** ** A history of changes and takes *)












(** ** A new event *)

Definition event_type (k : EventSource) : rmw_event_type_t :=
  match k with
  | publisher => RMW_EVENT_PUBLICATION_MATCHED
  | subscription => RMW_EVENT_SUBSCRIPTION_MATCHED
  end.

Lemma first_free_exists l : forall i,
  Exists (fun slot => sl_occupied slot = false) l -> first_free i l <> None.
Proof.
  induction l as [|x l IH]; intros i; [by intros ?%Exists_nil|]. rewrite Exists_cons.
  cbn [first_free]. destruct (sl_occupied x); [|done]. intros [?|?]; [done|by apply IH].
Qed.

(** With a free slot and storage the event is created in that storage. *)
Lemma initialize_event_storage s q k type p :
  events_ok s -> Exists (fun slot => sl_occupied slot = false) (event_slots s) ->
  match initialize_event s rmw_get_zero_initialized_event (Some (context s)) q k type (Some p) with
  | Done (event, _) => ev_data event = Some p
  | _ => False
  end.
Proof.
  intros Hs Hfree. unfold initialize_event. cbn [rmw_get_zero_initialized_event ev_identifier ev_data].
  rewrite !bool_decide_eq_false_2 by naive_solver. cbn [orb].
  pose proof (first_free_exists _ 0 Hfree) as Hf.
  destruct (first_free 0 (event_slots s)) as [i|] eqn:E; [|done].
  apply first_free_spec in E as (slot & Hl & Hi & _). rewrite Z.sub_0_r in Hl.
  assert (mload (event_slots s) i = Some slot) as Hm by (by apply mload_Some).
  rewrite Hm. cbn [access mbind outcome_bind].
  match goal with |- context [mstore _ i ?x] =>
    destruct (slots_stored s i x Hs) as (slots & -> & _ & _); [congruence|] end.
  done.
Qed.

Lemma init_watches k s q o p :
  events_ok s -> live_source s k q o -> event_objects s !! p = None ->
  Exists (fun slot => sl_occupied slot = false) (event_slots s) ->
  exists event s' d,
    event_init k s (Some rmw_get_zero_initialized_event)
      (Some {| eh_identifier := openrtdds; eh_data := Some q |}) (event_type k) (Some p) =
      Done (event, s') /\
    watches s' event k q p d o /\ ed_last_total_count d = 0 /\ ed_last_current_count d = 0 /\
    ed_last_generation d = 0.
Proof.
  intros Hs Ho Hp Hfree. unfold event_init.
  rewrite bool_decide_eq_false_2 by (destruct k; by intros []). 
  unfold publisher_event_source, subscription_event_source.
  assert (match k with publisher => event_source publisher s {| eh_identifier := openrtdds; eh_data := Some q |} | subscription => event_source subscription s {| eh_identifier := openrtdds; eh_data := Some q |} end =
    (Done (Some (Some (context s), q, snapshot_of o)) : outcome (rmw_ret_t * Store) _)) as ->
    by (destruct k; by apply event_source_live).
  cbn [mbind outcome_bind].
  pose proof (initialized_ok s rmw_get_zero_initialized_event q k (event_type k) (Some p) Hs) as Hi.
  specialize (Hi ltac:(by intros ? [= <-])).
  pose proof (initialize_event_storage s q k (event_type k) p Hs Hfree) as Hd.
  destruct (initialize_event s rmw_get_zero_initialized_event (Some (context s)) q k (event_type k)
              (Some p))
    as [|[e s']|[event s']]; [done|done|].
  destruct Hi as (Hok & p' & d & Hdata & Hid & Hty & Hobj & Hs' & H1 & H2 & H3 & H4 & H5 & H6).
  cbn in Hd. rewrite Hd in Hdata. injection Hdata as <-.
  exists event, s', d. split; [done|]. split; [|done]. split; try done.
  - by rewrite Hobj, lookup_insert_eq.
  - destruct event as [a b c]; cbn in Hid, Hd, Hty. by rewrite Hid, Hd, Hty, H3.
  - rewrite Hs'. by apply live_with_events.
Qed.


(** A context with one publisher and no events. *)
Definition free_slot : RegistrySlot :=
  {| sl_data := None; sl_generation := 1; sl_occupied := false |}.

Definition sample_publisher : EndpointObject :=
  {| eo_context := Some 1; eo_slot_index := 0; eo_slot_generation := 1; eo_status := MatchStatus_init |}.

Definition sample_store : Store :=
  {| context := 1;
     publisher_slots :=
       {| sl_data := Some 100; sl_generation := 1; sl_occupied := true |} :: replicate 7 free_slot;
     subscription_slots := replicate 8 free_slot; event_slots := replicate 16 free_slot;
     publisher_objects := {[ 100 := sample_publisher ]}; subscription_objects := ∅;
     event_objects := ∅ |}.

Lemma sample_store_ok : events_ok sample_store.
Proof.
  split; [done| |].
  - intros i slot Hi. apply lookup_replicate in Hi as [-> _]. done.
  - intros p d Hd. cbn in Hd. by rewrite lookup_empty in Hd.
Qed.

Lemma sample_publisher_live : live_source sample_store publisher 100 sample_publisher.
Proof. split; [apply lookup_singleton_eq|done|cbn; unfold kEndpointCapacity; lia|done]. Qed.


(** ** An endpoint that is gone *)

Lemma destroyed s k q o :
  live_source s k q o ->
  exists s', destroy_endpoint k s q = (Done s' : outcome rmw_ret_t _) /\
    event_slots s' = event_slots s /\ event_objects s' = event_objects s /\
    context s' = context s /\ objects_of k s' !! q = None.
Proof.
  intros [Ho _ Hi Hl]. unfold destroy_endpoint. rewrite Ho. cbn [access mbind outcome_bind].
  rewrite Hl. cbn [access mbind outcome_bind].
  match goal with |- context [mstore ?m ?i ?x] =>
    destruct (proj2 (mstore_is_Some m i x)) as [slots ->] end.
  { apply mload_is_Some. by rewrite Hl. }
  eexists. split; [done|]. split_and!; try done. destruct k; apply lookup_delete_eq.
Qed.

(** C24: an event that outlives its endpoint reads freed memory.  Destroying a publisher or a
    subscription releases its slot and its storage and leaves its events alone: they are
    still valid for a wait set, but [rmw_take_event] and the readiness test of [rmw_wait]
    read the slot index of the endpoint through the event's pointer before the registry
    can tell them that it is gone. *)
Theorem event_outlives_endpoint k s q o p :
  events_ok s -> live_source s k q o -> event_objects s !! p = None ->
  Exists (fun slot => sl_occupied slot = false) (event_slots s) ->
  exists event s1 s2,
    event_init k s (Some rmw_get_zero_initialized_event)
      (Some {| eh_identifier := openrtdds; eh_data := Some q |}) (event_type k) (Some p) =
      Done (event, s1) /\
    destroy_endpoint k s1 q = (Done s2 : outcome rmw_ret_t _) /\
    event_wait_data_valid s2 (Some p) (Some (context s2)) = (Done true : outcome rmw_ret_t bool) /\
    event_wait_ready s2 (Some p) = (Fault : outcome rmw_ret_t bool) /\
    rmw_take_event s2 (Some event) true true = Fault.
Proof.
  intros Hs Ho Hp Hfree.
  destruct (init_watches k s q o p Hs Ho Hp Hfree) as (event & s1 & d & Hinit & Hw & _).
  pose proof Hw as [Hs1 Hp1 Hq1 Hk1 He1 Ho1].
  destruct (destroyed s1 k q o Ho1) as (s2 & Hd & Hslots & Hobjects & Hctx & Hgone).
  exists event, s1, s2. split; [done|]. split; [done|].
  assert (events_ok s2) as Hs2 by (destruct Hs1; split; rewrite ?Hslots, ?Hobjects, ?Hctx; done).
  rewrite <- Hobjects in Hp1. destruct (event_slot s2 p d Hs2 Hp1) as (_ & _ & _ & _ & _ & _ & Hc).
  assert (context_is_valid s2 (ed_context d) = true) as Hv
    by (unfold context_is_valid; by rewrite bool_decide_eq_true_2).
  assert (snapshot s2 d = (Fault : outcome rmw_ret_t _)) as Hsnap.
  { unfold snapshot. rewrite Hk1. destruct k; unfold publisher_matched_status,
      subscription_matched_status, matched_status; by rewrite Hq1, Hv, Hgone. }
  split_and!.
  - unfold event_wait_data_valid. by rewrite <- Hc, valid_event.
  - unfold event_wait_ready. rewrite Hp1. cbn -[valid_event_data snapshot].
    rewrite Hv, valid_event by done. cbn -[snapshot]. by rewrite Hsnap.
  - unfold rmw_take_event. rewrite He1. cbn -[valid_event_data snapshot]. rewrite Hp1.
    cbn -[valid_event_data snapshot]. rewrite bool_decide_eq_false_2 by (by intros []).
    cbn -[valid_event_data snapshot]. rewrite valid_event by done. cbn -[snapshot].
    by rewrite Hsnap.
Qed.

Lemma event_outlives_endpoint_witness :
  exists event s1 s2,
    event_init publisher sample_store (Some rmw_get_zero_initialized_event)
      (Some {| eh_identifier := openrtdds; eh_data := Some 100 |})
      RMW_EVENT_PUBLICATION_MATCHED (Some 200) = Done (event, s1) /\
    destroy_endpoint publisher s1 100 = (Done s2 : outcome rmw_ret_t _) /\
    rmw_take_event s2 (Some event) true true = Fault.
Proof.
  destruct (event_outlives_endpoint publisher sample_store 100 sample_publisher 200)
    as (event & s1 & s2 & H1 & H2 & _ & _ & H3);
    [apply sample_store_ok|apply sample_publisher_live|apply lookup_empty
    |by apply Exists_cons_hd|].
  exists event, s1, s2. split_and!; [exact H1|exact H2|exact H3].
Defined.

(** ** Callbacks *)

(** The call of an event's callback for a change of [q]. *)
Definition call_of (q n : Z) (d : EventData) : option Call :=
  if bool_decide (ed_source d = Some q)
  then (fun f => (f, ed_callback_user_data d, n)) <$> ed_callback d
  else None.

(** The event in a slot. *)
Definition event_in (s : Store) (slot : RegistrySlot) : option (Z * EventData) :=
  if sl_occupied slot then p ← sl_data slot; (p,.) <$> event_objects s !! p else None.

Lemma event_in_slot s i slot :
  events_ok s -> event_slots s !! i = Some slot ->
  if sl_occupied slot
  then exists p d, event_in s slot = Some (p, d) /\ sl_data slot = Some p /\
         event_objects s !! p = Some d /\ ed_slot_index d = Z.of_nat i
  else event_in s slot = None.
Proof.
  intros Hs Hi. pose proof (ev_slot _ Hs _ _ Hi) as Hok. unfold event_in.
  destruct (sl_occupied slot); [|done]. destruct Hok as (p & d & Hp & Hd & Hx & _).
  exists p, d. rewrite Hp. cbn. by rewrite Hd.
Qed.

Lemma collect_slot {E} s q n i slot acc :
  events_ok s -> event_slots s !! i = Some slot -> zlen acc < kEventCapacity ->
  collect s q n slot acc =
  (Done (acc ++ option_list ('(_, d) ← event_in s slot; call_of q n d)) : outcome E _).
Proof.
  intros Hs Hi Hlen. pose proof (event_in_slot s i slot Hs Hi) as Hin.
  pose proof (ev_slot _ Hs _ _ Hi) as Hok. unfold collect.
  destruct (sl_occupied slot).
  - destruct Hin as (p & d & -> & -> & Hd & _). cbn [negb]. rewrite Hd.
    cbn [access mbind outcome_bind option_bind]. unfold call_of.
    destruct (decide (ed_source d = Some q)) as [Hq|Hq].
    + rewrite bool_decide_eq_false_2, bool_decide_eq_true_2 by naive_solver.
      destruct (ed_callback d); cbn; [|by rewrite app_nil_r].
      by destruct (Z.ltb_spec (zlen acc) kEventCapacity); [|lia].
    + rewrite bool_decide_eq_true_2, bool_decide_eq_false_2 by done. cbn. by rewrite app_nil_r.
  - rewrite Hin, Hok. cbn. by rewrite app_nil_r.
Qed.

Lemma collect_spec {E} s q n l : forall acc,
  Forall (fun slot => exists i, event_slots s !! i = Some slot) l -> events_ok s ->
  zlen acc + zlen l <= kEventCapacity ->
  for_each (collect s q n) l acc =
  (Done (acc ++ omap (fun '(_, d) => call_of q n d) (omap (event_in s) l)) : outcome E _).
Proof.
  induction l as [|slot l IH]; intros acc Hl Hs Hlen; cbn [for_each]; [by rewrite app_nil_r|].
  apply Forall_cons in Hl as [[i Hi] Hl]. cbn [length] in Hlen.
  rewrite (collect_slot s q n i slot acc Hs Hi) by lia. cbn [mbind outcome_bind].
  rewrite IH; [|done|done|].
  - rewrite <- app_assoc. f_equal. f_equal. csimpl.
    destruct (event_in s slot) as [[p d]|]; csimpl; [|done]. by destruct (call_of q n d).
  - rewrite length_app. unfold kEventCapacity in *.
    destruct (event_in s slot) as [[p d]|]; simpl; [destruct (call_of q n d)|]; simpl; lia.
Qed.

Lemma NoDup_omap_slots s l : forall k,
  events_ok s -> (forall i slot, l !! i = Some slot -> event_slots s !! (k + i)%nat = Some slot) ->
  NoDup (omap (event_in s) l).
Proof.
  induction l as [|slot l IH]; intros k Hs Hl; [constructor|]. csimpl.
  assert (NoDup (omap (event_in s) l)) as Hl'.
  { apply (IH (S k) Hs). intros i x Hx. replace (S k + i)%nat with (k + S i)%nat by lia. by apply Hl. }
  destruct (event_in s slot) as [[p d]|] eqn:He; [|done]. constructor; [|done].
  intros (y & Hy & Hey)%list_elem_of_omap. apply list_elem_of_lookup in Hy as [j Hj].
  pose proof (event_in_slot s (k + 0) slot Hs (Hl 0%nat slot eq_refl)) as H1.
  pose proof (event_in_slot s (k + S j) y Hs (Hl (S j) y Hj)) as H2.
  destruct (sl_occupied slot), (sl_occupied y); try congruence.
  destruct H1 as (? & ? & H1 & _ & _ & Hi1), H2 as (? & ? & H2 & _ & _ & Hi2).
  rewrite He in H1. rewrite Hey in H2. injection H1 as <- <-. injection H2 as <- <-. lia.
Qed.

(** The slots hold each event once. *)
Lemma slots_events s :
  events_ok s -> omap (event_in s) (event_slots s) ≡ₚ map_to_list (event_objects s).
Proof.
  intros Hs. apply NoDup_Permutation; [|apply NoDup_map_to_list|].
  - by apply (NoDup_omap_slots s _ 0).
  - intros [p d]. rewrite list_elem_of_omap, elem_of_map_to_list. split.
    + intros (slot & Hslot & He). apply list_elem_of_lookup in Hslot as [i Hi].
      pose proof (event_in_slot s i slot Hs Hi) as Hin. destruct (sl_occupied slot); [|congruence].
      destruct Hin as (p' & d' & Hin & _ & Hd & _). congruence.
    + intros Hd. destruct (ev_object _ Hs _ _ Hd) as (i & slot & Hi & Ho & Hp). exists slot.
      split; [by apply list_elem_of_lookup_2 in Hi|]. unfold event_in. rewrite Ho, Hp. cbn. by rewrite Hd.
Qed.

(** A change of an endpoint calls the callback of each of its events once, with the event's
    user data and the number of changes, and no other; the array of 16 callbacks suffices. *)
Theorem notified_once s q n :
  events_ok s -> n <> 0 ->
  exists calls, notify_event_source s (Some (context s)) (Some q) n =
      (Done calls : outcome rmw_ret_t _) /\
    calls ≡ₚ omap (fun '(_, d) => call_of q n d) (map_to_list (event_objects s)).
Proof.
  intros Hs Hn. eexists. split; [|by rewrite <- slots_events].
  unfold notify_event_source, context_is_valid. rewrite bool_decide_eq_true_2 by done.
  rewrite (proj2 (Z.eqb_neq _ _) Hn). cbn [negb orb]. rewrite collect_spec; [done| |done|].
  - apply Forall_forall. intros slot. apply list_elem_of_lookup.
  - pose proof (ev_length _ Hs). cbn. lia.
Qed.

End EventsTheorems.
